(* ===== verification/_CoqProject ===== *)
-Q . S2P
Prelude.v
Errors.v
Mvcc.v
Clog.v
CheckedBytes.v
ByteArray.v
ClogFile.v
Registry.v
WalCodec.v
WalSegment.v
WalFile.v
LockModes.v
LockManager.v
Ssi.v
TxnSystem.v
TupleHeader.v
Page.v
Compress.v
Redo.v
Recovery.v
KeyOrder.v
IndexPage.v
Value.v
RowCodec.v
RowFormat.v
BTree.v
BLink.v
BTreeRead.v
BTreeInsert.v
BTreeSpec.v
Index.v
HotChain.v
HotPrune.v
HeapFile.v
Vacuum.v
VacuumDemo.v
Toast.v
BufferPool.v
PoolSteps.v
PoolDemo.v
PageFile.v
ServerIo.v
Control.v
LogUse.v
Checkpoint.v
CheckpointDemo.v
