(* ===== verification/Prelude.v ===== *)
(** * SaguaroDB: a verification of its transactional core and its storage

    SaguaroDB (src/crates) is a relational database server in Rust: [parser],
    [planner] and [executor] turn SQL into operations on [storage], which keeps
    heap and B-tree pages in the [buffer] pool; [catalog] holds the schema;
    [wal] makes transactions durable; [server] ties them together with its
    transaction registry, lock manager, serializable-conflict manager and the
    connection, checkpoint and recovery code; [compress] packs pages and values;
    [protocol] speaks the wire format and [common] holds the shared types and the
    MVCC predicates.

    This library models what decides what a transaction sees, what it waits for,
    what survives a crash, how pages move between memory and files, and how rows and
    index entries lie on pages.  Every
    operation is a function on an explicit state, executable, in the order of the
    source's steps and with its errors as values ([result], and the state-and-error
    monad [SE] of this file).  Pages are their 8192 bytes.

    ** Files, sources and state

    Transactions and the log:
    - [Prelude]: the result and state-error monads, tactics, shared lemmas.
    - [Errors]: [DbError], [ErrorKind] and the SQLSTATE table (common/src/error.rs).
    - [Mvcc]: ids, [Snapshot], [TxnStatus], the [TxnStatusView] interface (a class
      with its law), [is_visible], [classify_unique_conflict], [write_conflict],
      [is_dead_to_all] (common/src/ids.rs, common/src/mvcc).
    - [Clog]: the status map with its committed floor, the checkpoint snapshot and
      pruning (wal/src/clog.rs); an instance of [TxnStatusView].
    - [CheckedBytes], [ByteArray]: integer codecs and [CheckedSliceReader]
      (common/src/checked_bytes.rs), and arrays of bytes written in place.
    - [ClogFile]: the [clog.dat] envelope (wal/src/clog_file.rs).
    - [Registry]: [RegistryState] and every latched operation of
      [ActiveTxnRegistry] (server/src/registry.rs).
    - [WalCodec]: record kinds and the frame codec (wal/src/record.rs, wal/src/codec.rs).
    - [WalSegment]: the segmented byte stream and [wal.meta] on a directory of
      files (wal/src/segment.rs).  [WalDir] is the directory.
    - [WalFile]: [FileWalManager], its opening, appends, flushes, replay, recycling
      and CLOG checkpoint (wal/src/file.rs), and the directory a crash leaves.
    - [LockModes], [LockManager]: the modes and their tables, the grants, queues
      and the wait-for graph (server/src/lock_manager.rs, common/src/locking.rs).
    - [Ssi]: [SsiState] and the operations of [SerializableConflictManager]
      (server/src/ssi_manager.rs).
    - [TxnSystem]: allocator, registry, CLOG and the live snapshots composed as in
      server/src/query/txn.rs and [gc_horizon] of server/src/app.rs.

    Pages, redo and rows:
    - [TupleHeader], [RowCodec], [RowFormat]: the MVCC header, keys, arrays and the
      three row formats (storage/src/codec.rs).  [Value] has the SQL values with
      their orders (common/src/value.rs, float.rs, interval.rs, array.rs, schema.rs).
    - [Page]: slotted heap pages (storage/src/page.rs) and their specification
      [Heap], a list of items.
    - [Compress]: the envelope of pages at rest, dictionaries, full-page images and
      values (compress/src/codec.rs, compress/src/registry.rs).
    - [Redo], [Recovery]: [apply_physical_redo] (storage/src/redo.rs) and the replay
      loop of server/src/recovery.rs.

    Indexes:
    - [KeyOrder]: total preorders, as Rust's [Ord] gives them.
    - [IndexPage]: node pages on their bytes (storage/src/index_page.rs).
    - [BTree]: every function of storage/src/btree.rs.
    - [BLink]: the abstract tree with its invariant [tree_ok] and the steps that keep
      it; [BTreeRead], [BTreeInsert], [BTreeSpec]: the code against that tree;
      [Index]: the code as a sorted multimap, for its callers.

    Versions and garbage:
    - [HotChain]: the walks along the versions of a row and the plan of pruning a
      page (storage/src/engine/visibility.rs, vacuum.rs).
    - [HotPrune]: chains as paths, the page invariant [hot_ok], and what pruning does.
    - [HeapFile]: the logged writes to heap pages and the chain checks of the
      foreign-key probe (storage/src/engine/dml.rs, vacuum.rs, referential.rs).
    - [Vacuum]: a table ([Table]: pages and indexes), the look-up of a key and the
      three phases of VACUUM (storage/src/engine/vacuum.rs, visibility.rs).
    - [VacuumDemo]: concrete pages, a table and two histories.
    - [Toast]: preparing a row for storage, compressing its values or moving them to the
      chunks of a hidden relation, and reading it back (storage/src/toast.rs,
      storage/src/engine/dml.rs, visibility.rs, mod.rs).  [ToastState] is the next id of
      each hidden relation and the relation.

    The buffer pool, the files and the checkpoint:
    - [BufferPool]: every operation of [MemoryBufferPool] on frames in an arena: lookup,
      the clock, steals, bulk and checkpoint flushes, allocation, the dirty-page table
      (buffer/src/pool.rs, loader.rs, common/src/flush.rs).
    - [PoolSteps]: its critical sections and the I/O between them as a step relation, with
      the published versions of every page and what a crash may find as ghost state;
      [PoolDemo]: witnesses, and two histories where the code goes wrong.
    - [PageFile]: [HeapPageStore], the page files with their compressed slots
      (storage/src/heap.rs).
    - [ServerIo]: the pool over the page files and the log, as server/src/recovery.rs
      wires them ([WalFlushPolicy]).
    - [Control]: the manifest and the store that replaces it (control/src/manifest.rs,
      control.rs).
    - [LogUse]: what every use of the log does to its positions and metadata.
    - [Checkpoint]: [run_checkpoint], the redo pins of catalog changes, the boundary check
      of recovery, sessions and checkpoints as a step relation ([srv_step]), and the
      coordinator (server/src/checkpoint.rs, common/src/checkpoint.rs,
      server/src/recovery.rs); [CheckpointDemo]: a server that takes a checkpoint.

    ** Concurrency and faults

    The registry, the lock manager, the conflict manager and the WAL manager each
    guard their state with one mutex, so a critical section is one function and an
    execution is a sequence of them: [lock_step], [ssi_reach], [sys_step] and
    [wal_step] are the step relations.  The pool releases its mutex around I/O and works
    on frames under their latches; [step] cuts it there, and [srv_step] puts the
    checkpoint's calls and the sessions between these steps.  A blocking call is cut at its waits;
    what other threads do in between is an argument constrained to be steps of
    others ([env_ok]).  Timer expiry and cancellation are inputs.  File-system
    failures are inputs too: a write may fail after any prefix, a sync may fail, and
    a crash ([crash_image]) may keep any part of what was not synced.  An index or a
    heap file is changed by one writer at a time, as its structural latch enforces;
    an operation that fails between two logged pages leaves the pages it had
    published, and the theorems speak about that state.

    ** What the theorems show

    - Durability ([WalFile]: [committed_survives_crash], [flushed_commit_survives],
      [recovery_replays_durable], [failed_flush_publishes_nothing]): after any sequence
      of appends, flushes, checkpoints, recycling, failed writes and crashes, a crash
      leaves a directory that opens; no committed transaction is lost; replay yields
      exactly the durable records.
    - Redo ([recovery_restores_pages]): whatever mixture of page versions the crash
      left, torn ones included, replay brings each page to the state the log describes.
    - Memory and files ([pool_is_memory], [read_page_returns_last], [write_ahead],
      [redo_covers_losses], [torn_page_has_image], [pool_bounds], [sweep_finds_victim],
      [flush_errors_unreachable]): pool and files are one memory under every interleaving
      and I/O failure; nothing is written before its record is durable; redo from the
      dirty-page table is enough; a page that may be torn has a whole image in the log at
      its boundary.  [stale_load_undoes_write] and [torn_page_stops_recovery] are the
      histories where the code goes wrong.  [written_page_is_read] is the round trip through
      a page file, and [files_and_log_fit] the pool's guarantees for the real files and log.
    - Checkpoints ([crash_finds_checkpoint], [checkpoint_commits], [checkpoint_record_valid],
      [checkpoint_floor_accepted], [store_is_atomic], [loaded_control_valid],
      [request_is_served]): whenever the machine stops, the manifest it finds passes the
      check of recovery against the log, and what files and catalog miss is in the log
      behind its boundaries; a checkpoint that succeeds is the only one found; its record and
      its boundary are never refused; the control file changes in one piece; and no request
      is lost.
    - Snapshots ([snapshot_stable], [vacuum_horizon_safe], [is_visible_spec],
      [dead_to_all_invisible], [write_conflict_visible]): a live snapshot shows
      the same versions however long it lives; VACUUM reclaims only what nobody can
      see; the predicates, hint bits included, decide the rules stated over statuses.
    - Garbage ([vacuum_keeps_answers], [prune_is_invisible], [chain_walks_end]): pruning
      and VACUUM keep pages, chains and indexes well formed and change no live reader's
      answer, also when they fail or are cancelled halfway.  [vacuum_floor_loses_row] and
      [stale_hot_bit_fails_probe] are the histories where the code goes wrong.
    - Locks ([lock_exclusion], [grant_respects_queue], [deadlock_exact],
      [tuple_lock_undo]): mutual exclusion, no overtaking, exact deadlock detection,
      exact undo.
    - Serializability ([rw_conflicts_recorded], [commit_check_spec], [ssi_tables_agree],
      [release_is_safe], [late_reader_undetected]): every conflict between tracked
      transactions has its edge and no other edge exists; the commit check is
      characterized; releases are safe; and a run the checks accept
      although it is not serializable.
    - Pages and indexes ([page_refines], [page_history], [node_page_refines],
      [index_insert_refines], [index_remove_refines], [index_vacuum_refines],
      [index_answers], [index_walks_end], [leaf_splits_fail]): page operations implement
      their specifications on the bytes; an index is a sorted multimap, at every point
      where an operation may stop; and the insertions that fail or panic although the
      entry is accepted.
    - Long values ([toasted_row_is_read], [planned_len_exact]): a row is read back whatever
      was done to its columns, other rows keep their values, and planned lengths are exact.
    - Codecs ([prepared_row_is_read], [encoded_key_is_read], [page_at_rest_roundtrip],
      [encode_record_at_decodes], [live_snapshot_roundtrip]) and checkpointed status
      ([checkpoint_recovery_agrees], [crash_recovery_aborts_active]).

    ** Interfaces and parameters

    Components meet at classes: [TxnStatusView] with [TxnStatusViewOk] (discharged by
    the CLOG), [KeyCodec] with [KeyCodecLaws] (discharged by [RowCodec]), [IndexEnv]
    with [IndexEnvLaws] and [HeapLog] with [HeapLogLaws] (page allocation and the log,
    as the B-tree and the heap call them), [ChunkStore] with [ChunkStoreLaws] (the hidden
    relation of out-of-line values), [PageStore], [FlushPolicy] and [IoLaws] (the files and
    the log as the pool sees them; discharged by [server_laws] for [HeapPageStore] and
    [FileWalManager]), [RecoveryOperations] and [CheckpointedStorage] (the catalog, sequences
    and dictionary files of recovery, and catalog and relations at a checkpoint).  Code outside the repository is a parameter:
    - the checksum ([crc32fast]), with [crc_fits], [crc_width] or [crc32_bounded]: it
      is a 32-bit value;
    - [serde_json], with [json_roundtrip], [serde_roundtrip] and [control_serde];
    - [zstd]: decompressing what was compressed gives it back, and it yields bytes;
    - [rust_decimal]: [DecimalType] with [DecimalLaws], its comparison is an order;
    - the catalog change set, and the row key type of [Ssi] with its order.
    Each is instantiated with a concrete function in the witnesses.

    ** Widths, bounds and fuel

    Ids, log positions and generations are [N] with the checks of the source at their
    width ([U64_MAX], [USIZE_MAX]).  Loops take fuel where they do not recurse on
    their data: the search of the wait-for graph takes the number of its nodes plus
    one, and every visit adds a node ([visit_complete]); the segment loops take the
    number of segments or of bytes, each turn consuming at least one; the log scans
    take the length of the range, each frame taking at least one byte; a walk through
    an index takes the number of its pages plus one ([walk_fuel], enough by
    [index_walks_end]); a walk along a version chain takes the number of slots plus one
    ([chain_fuel], enough by [chain_walks_end]).  Theorems about them state
    the result, so running out of fuel is excluded.

    ** What is not modelled

    Condition-variable wake-ups and timers are the inputs above; allocation failures
    and poisoned mutexes do not occur; parts of error messages that print a path
    or the debug form of a value are dropped.  A metadata write that fails
    after it became visible and a failing [recycle_through] are executed by the
    functions but are not steps of [wal_step], nor is
    [establish_recovery_committed_floor]; the partial disk effects of an [open] that
    fails are not tracked.  In [sys_step] the id counter stays below its bound and the
    CLOG is not pruned.  [recovery_restores_pages] is about logs whose page images are
    heap pages.  In the components above the pool a page is its latest image, which is what
    [pool_is_memory] shows.  A page load is a step when the page is not written back before
    it is inserted; [stale_load_undoes_write] is what happens otherwise.  The bulk flush of
    the files of a rewrite, abandoned pages, the discarding of files and changes of the
    compression registry are functions but not steps of the pool.  [srv_step] starts from a
    new data directory, and the removal of retired files is not a step of it.  [vacuum_keeps_answers] assumes
    [hot_ok] of every page, the shape the HOT protocol intends;
    [stale_hot_bit_fails_probe] shows marks the write path leaves behind.

    Outside this library: the engine's relations, scans and statements (with the search of
    the pages for the next id of an out-of-line value and the sampling of values for a
    dictionary), the catalog, the SQL front end, the executor, the wire protocol, spilling,
    and the server's maintenance, session and connection code.  They rest on third-party
    libraries (the SQL parser, tokio) or on the catalog's schema objects, which would have
    to be modelled first; of the catalog this library uses only interfaces. *)

From stdpp Require Export base tactics list gmap sets strings pretty sorting.
From Stdlib Require Export Lia.

(** ** Scope, notations and automation of the development *)

Declare Scope saguaro_scope.
Delimit Scope saguaro_scope with saguaro.

Create HintDb saguaro discriminated.

(** Split every conjunction and existential of the context. *)
Ltac destruct_hyps :=
  repeat match goal with
  | H : _ /\ _ |- _ => destruct H
  | H : ex _ |- _ => destruct H
  end.

(** Case analysis on the innermost test of an [if] or [match] of the goal. *)
Ltac case_if :=
  match goal with
  | |- context [if ?b then _ else _] =>
      lazymatch b with
      | context [if _ then _ else _] => fail
      | _ => let E := fresh "E" in destruct b eqn:E
      end
  end.

(** The same in the hypotheses. *)
Ltac case_if_in H :=
  match type of H with
  | context [if ?b then _ else _] =>
      lazymatch b with
      | context [if _ then _ else _] => fail
      | _ => let E := fresh "E" in destruct b eqn:E
      end
  end.

(** Turn boolean connectives and comparisons of the context into propositions. *)
Ltac to_prop :=
  repeat match goal with
  | H : bool_decide _ = true |- _ => apply bool_decide_eq_true in H
  | H : bool_decide _ = false |- _ => apply bool_decide_eq_false in H
  | H : (_ && _) = true |- _ => apply andb_true_iff in H; destruct H
  | H : (_ || _) = false |- _ => apply orb_false_iff in H; destruct H
  | H : negb _ = true |- _ => apply negb_true_iff in H
  | H : negb _ = false |- _ => apply negb_false_iff in H
  | H : N.eqb _ _ = true |- _ => apply N.eqb_eq in H
  | H : N.eqb _ _ = false |- _ => apply N.eqb_neq in H
  | H : N.ltb _ _ = true |- _ => apply N.ltb_lt in H
  | H : N.ltb _ _ = false |- _ => apply N.ltb_ge in H
  | H : N.leb _ _ = true |- _ => apply N.leb_le in H
  | H : N.leb _ _ = false |- _ => apply N.leb_gt in H
  end.

(** ** Results: Rust's [Result<T, E>] *)

Inductive result (E A : Type) : Type :=
  | Ok (a : A)
  | Err (e : E).
Arguments Ok {E A} a.
Arguments Err {E A} e.

Global Instance result_bind {E} : MBind (result E) := fun A B f m =>
  match m with Ok a => f a | Err e => Err e end.
Global Instance result_ret {E} : MRet (result E) := fun A a => Ok a.
Global Instance result_fmap {E} : FMap (result E) := fun A B f m =>
  match m with Ok a => Ok (f a) | Err e => Err e end.

(** [Option::ok_or] and [Result::map_err]. *)
Definition ok_or {E A} (o : option A) (e : E) : result E A :=
  match o with Some a => Ok a | None => Err e end.
Definition map_err {E F A} (f : E -> F) (m : result E A) : result F A :=
  match m with Ok a => Ok a | Err e => Err (f e) end.

Definition is_ok {E A} (m : result E A) : bool :=
  match m with Ok _ => true | Err _ => false end.

Lemma bind_Ok {E A B} (m : result E A) (f : A -> result E B) b :
  m ≫= f = Ok b <-> exists a, m = Ok a /\ f a = Ok b.
Proof. destruct m; naive_solver. Qed.

Lemma Ok_inj {E A} (a b : A) : (Ok a : result E A) = Ok b -> a = b.
Proof. congruence. Qed.

(** Walk through a successful monadic computation [H : ... = Ok _]: name the
    intermediate values and refute the branches that return an error. *)
Ltac inv_ok H :=
  repeat (cbv beta iota zeta in H; match type of H with
  | (_ ≫= _) = Ok _ =>
      let x := fresh "x" in let Hx := fresh "Hx" in
      apply bind_Ok in H; destruct H as (x & Hx & H);
      lazymatch type of x with prod _ _ => destruct x | _ => idtac end
  | (if ?b then _ else _) = Ok _ =>
      let E := fresh "E" in destruct b eqn:E; [discriminate H|]
  end).

(** ** Stateful operations that may fail *)

(** A method that mutates its receiver and returns a [Result]: the state it leaves
    is kept on the error path too, as the code keeps its own. *)
Definition SE (S E A : Type) : Type := S -> S * result E A.

Global Instance se_ret {S E} : MRet (SE S E) := fun A a s => (s, Ok a).
Global Instance se_bind {S E} : MBind (SE S E) := fun A B f m s =>
  match m s with
  | (s', Ok a) => f a s'
  | (s', Err e) => (s', Err e)
  end.

(** A pure fallible computation, reading the state, updating it. *)
Definition lift {S E A} (m : result E A) : SE S E A := fun s => (s, m).
Definition gets {S E A} (f : S -> A) : SE S E A := fun s => (s, Ok (f s)).
Definition modify {S E} (f : S -> S) : SE S E unit := fun s => (f s, Ok ()).

(** [for x in l { ... }] with [?] inside. *)
Fixpoint for_each {S E A} (l : list A) (f : A -> SE S E unit) : SE S E unit :=
  match l with
  | [] => mret ()
  | x :: l => _ ← f x; for_each l f
  end.

Lemma se_bind_Ok {S E A B} (m : SE S E A) (f : A -> SE S E B) s s' a :
  m s = (s', Ok a) -> (m ≫= f) s = f a s'.
Proof. intros H. unfold mbind, se_bind. by rewrite H. Qed.

Lemma se_bind_Err {S E A B} (m : SE S E A) (f : A -> SE S E B) s s' e :
  m s = (s', Err e) -> (m ≫= f) s = (s', Err e).
Proof. intros H. unfold mbind, se_bind. by rewrite H. Qed.

Lemma lift_bind_Ok {S E A B} (a : A) (f : A -> SE S E B) s : (lift (Ok a) ≫= f) s = f a s.
Proof. reflexivity. Qed.

Lemma gets_bind {S E A B} (g : S -> A) (f : A -> SE S E B) s : (gets g ≫= f) s = f (g s) s.
Proof. reflexivity. Qed.

Lemma modify_bind {S E B} (g : S -> S) (f : unit -> SE S E B) s : (modify g ≫= f) s = f () (g s).
Proof. reflexivity. Qed.

Lemma mret_bind {S E A B} (a : A) (f : A -> SE S E B) s : ((mret a : SE S E A) ≫= f) s = f a s.
Proof. reflexivity. Qed.

Lemma for_each_app {S E A} (l1 l2 : list A) (g : A -> SE S E unit) s :
  for_each (l1 ++ l2) g s = (for_each l1 g ≫= fun _ => for_each l2 g) s.
Proof.
  revert s. induction l1 as [|x l1 IH]; intros s; [done|]. cbn [app for_each]. unfold mbind, se_bind in *.
  destruct (g x s) as [s1 [[]|e]]; [apply IH|done].
Qed.

Lemma for_each_one {S E A} (x : A) (g : A -> SE S E unit) s : for_each [x] g s = g x s.
Proof. cbn [for_each]. unfold mbind, se_bind, mret, se_ret. by destruct (g x s) as [s1 [[]|e]]. Qed.

Lemma se_bind_inv {S E A B} (m : SE S E A) (f : A -> SE S E B) s s2 b :
  (m ≫= f) s = (s2, Ok b) -> exists s1 a, m s = (s1, Ok a) /\ f a s1 = (s2, Ok b).
Proof. unfold mbind, se_bind. destruct (m s) as [s1 [a|e]]; [eauto|done]. Qed.

(** Every run of [m] moves the state along the preorder [R]. *)
Definition moves_by {S E A} (R : S -> S -> Prop) (m : SE S E A) : Prop := forall s, R s (m s).1.

Section MovesBy.
Context {S E : Type} (R : S -> S -> Prop) `{!PreOrder R}.

Lemma moves_ret {A} (a : A) : moves_by R (mret a : SE S E A).
Proof. intros s. reflexivity. Qed.
Lemma moves_lift {A} (m : result E A) : moves_by R (lift m).
Proof. intros s. reflexivity. Qed.
Lemma moves_gets {A} (f : S -> A) : moves_by R (gets f : SE S E A).
Proof. intros s. reflexivity. Qed.
Lemma moves_modify f : (forall s, R s (f s)) -> moves_by R (modify f : SE S E unit).
Proof. intros Hf s. apply Hf. Qed.
Lemma moves_bind {A B} (m : SE S E A) (f : A -> SE S E B) :
  moves_by R m -> (forall a, moves_by R (f a)) -> moves_by R (m ≫= f).
Proof.
  intros Hm Hf s. specialize (Hm s). unfold mbind, se_bind. destruct (m s) as [s1 [a|e]]; cbn in *; [|done].
  by etrans; [|apply Hf].
Qed.
Lemma moves_for_each {A} (l : list A) (f : A -> SE S E unit) :
  (forall a, moves_by R (f a)) -> moves_by R (for_each l f).
Proof. intros Hf. induction l; cbn; [apply moves_ret|by apply moves_bind]. Qed.
End MovesBy.

(** Follows the structure of a computation down to its [modify]s. *)
Ltac moves :=
  repeat first
    [ apply moves_ret; [apply _] | apply moves_lift; [apply _] | apply moves_gets; [apply _]
    | apply moves_bind; [apply _| |intros ?] | apply moves_for_each; [apply _|intros ?]
    | apply moves_modify; intros ?
    | match goal with
      | |- moves_by _ (if ?b then _ else _) => destruct b
      | |- moves_by _ (match ?x with _ => _ end) => destruct x
      end ].

(** ** Sublists *)

Lemma Forall_sublist {A} (P : A -> Prop) l1 l2 : l1 `sublist_of` l2 -> Forall P l2 -> Forall P l1.
Proof. rewrite !Forall_forall. intros Hs H x Hx. apply H. by eapply elem_of_sublist. Qed.

Lemma sublist_fmap {A B} (f : A -> B) l1 l2 : l1 `sublist_of` l2 -> f <$> l1 `sublist_of` f <$> l2.
Proof. induction 1; cbn; by constructor. Qed.

Lemma StronglySorted_sublist {A} (R : A -> A -> Prop) l1 l2 :
  l1 `sublist_of` l2 -> StronglySorted R l2 -> StronglySorted R l1.
Proof.
  induction 1 as [|x l1 l2 Hs IH|x l1 l2 Hs IH]; [done| |].
  - inversion_clear 1 as [|? ? H1 H2]. constructor; [by apply IH|]. by eapply Forall_sublist.
  - inversion_clear 1. by apply IH.
Qed.

Lemma StronglySorted_lookup {A} (R : A -> A -> Prop) l i j x y :
  StronglySorted R l -> (i < j)%nat -> l !! i = Some x -> l !! j = Some y -> R x y.
Proof.
  intros Hs Hij Hi Hj. rewrite <- (take_drop j l) in Hs.
  eapply (StronglySorted_app_1_elem_of R); [exact Hs|..].
  - apply list_elem_of_lookup. exists i. by rewrite lookup_take_lt.
  - apply list_elem_of_lookup. exists 0%nat. by rewrite lookup_drop, Nat.add_0_r.
Qed.

(** ** Unsigned machine integers *)

(** Unsigned values are kept in [N]; the width shows where the source checks,
    saturates or truncates. *)
Definition U8_MAX : N := 255.
Definition U16_MAX : N := 65535.
Definition U32_MAX : N := 4294967295.
Definition U64_MAX : N := 18446744073709551615.

Definition checked_add (max a b : N) : option N :=
  if (a + b <=? max)%N then Some (a + b)%N else None.
Definition saturating_add (max a b : N) : N := N.min max (a + b).
Definition checked_sub (a b : N) : option N :=
  if (b <=? a)%N then Some (a - b)%N else None.

Lemma checked_add_Some max a b c :
  checked_add max a b = Some c <-> (c = a + b /\ a + b <= max)%N.
Proof. unfold checked_add. destruct (N.leb_spec (a + b) max); naive_solver lia. Qed.

(** ** Ordered collections of transaction ids *)

(** [iter().min()] on an iterator of ids. *)
Definition list_min (l : list N) : option N :=
  match l with [] => None | x :: l => Some (foldl N.min x l) end.
Definition list_max (l : list N) : option N :=
  match l with [] => None | x :: l => Some (foldl N.max x l) end.

Lemma foldl_min_le l x : (foldl N.min x l <= x)%N.
Proof. revert x; induction l as [|y l IH]; intros x; simpl; [lia|]. specialize (IH (N.min x y)). lia. Qed.

Lemma foldl_min_elem l x y : y ∈ l -> (foldl N.min x l <= y)%N.
Proof.
  revert x; induction l as [|z l IH]; intros x Hy; [by inversion Hy|].
  apply elem_of_cons in Hy as [->|Hy]; simpl; [|by apply IH].
  pose proof (foldl_min_le l (N.min x z)). lia.
Qed.

Lemma foldl_min_in l x : foldl N.min x l = x \/ foldl N.min x l ∈ l.
Proof.
  revert x; induction l as [|y l IH]; intros x; simpl; [by left|].
  destruct (IH (N.min x y)) as [->|?]; [|right; by constructor].
  destruct (N.min_spec x y) as [[_ ->]|[_ ->]]; [by left|right; constructor].
Qed.

Lemma list_min_None l : list_min l = None <-> l = [].
Proof. destruct l; naive_solver. Qed.

(** [list_min] is the least element of the list. *)
Lemma list_min_Some l m :
  list_min l = Some m <-> m ∈ l /\ (forall x, x ∈ l -> (m <= x)%N).
Proof.
  destruct l as [|a l]; simpl.
  - split; [done|]. intros [H _]. by inversion H.
  - split.
    + intros [= <-]. split.
      * destruct (foldl_min_in l a) as [->|?]; [constructor|by constructor].
      * intros x Hx. apply elem_of_cons in Hx as [->|Hx];
          [apply foldl_min_le|by apply foldl_min_elem].
    + intros [Hin Hle]. f_equal. apply N.le_antisymm.
      * apply elem_of_cons in Hin as [->|Hin]; [apply foldl_min_le|by apply foldl_min_elem].
      * apply Hle. destruct (foldl_min_in l a) as [->|?]; [constructor|by constructor].
Qed.

Lemma foldl_max_ge l x : (x <= foldl N.max x l)%N.
Proof. revert x; induction l as [|y l IH]; intros x; simpl; [lia|]. specialize (IH (N.max x y)). lia. Qed.

Lemma foldl_max_elem l x y : y ∈ l -> (y <= foldl N.max x l)%N.
Proof.
  revert x; induction l as [|z l IH]; intros x Hy; [by inversion Hy|].
  apply elem_of_cons in Hy as [->|Hy]; simpl; [|by apply IH].
  pose proof (foldl_max_ge l (N.max x z)). lia.
Qed.

(** [list_max] bounds every element of the list. *)
Lemma list_max_ge l m x : list_max l = Some m -> x ∈ l -> (x <= m)%N.
Proof.
  destruct l as [|a l]; simpl; [done|]. intros [= <-] Hx.
  apply elem_of_cons in Hx as [->|Hx]; [apply foldl_max_ge|by apply foldl_max_elem].
Qed.

Lemma foldl_max_in l x : foldl N.max x l = x \/ foldl N.max x l ∈ l.
Proof.
  revert x; induction l as [|y l IH]; intros x; simpl; [by left|].
  destruct (IH (N.max x y)) as [->|?]; [|right; by constructor].
  destruct (N.max_spec x y) as [[_ ->]|[_ ->]]; [right; constructor|by left].
Qed.

(** The greatest element of a list is its [list_max]. *)
Lemma list_max_intro l m : m ∈ l -> (forall x, x ∈ l -> (x <= m)%N) -> list_max l = Some m.
Proof.
  destruct l as [|a l]; [intros H; by inversion H|]. intros Hin Hle. simpl. f_equal.
  apply N.le_antisymm.
  - apply Hle. destruct (foldl_max_in l a) as [->|?]; [constructor|by constructor].
  - apply (list_max_ge (a :: l)); [done|done].
Qed.

(** The ascending enumeration of a [BTreeSet] of ids. *)
Definition sorted_ids (s : gset N) : list N := merge_sort N.le (elements s).

Lemma elem_of_sorted_ids s x : x ∈ sorted_ids s <-> x ∈ s.
Proof. unfold sorted_ids. by rewrite merge_sort_Permutation, elem_of_elements. Qed.

Lemma sorted_ids_Sorted s : StronglySorted N.le (sorted_ids s).
Proof.
  apply StronglySorted_merge_sort; [intros x y z; apply N.le_trans|].
  intros x y. destruct (N.le_ge_cases x y); auto.
Qed.

Lemma sorted_ids_NoDup s : NoDup (sorted_ids s).
Proof. unfold sorted_ids. rewrite merge_sort_Permutation. apply NoDup_elements. Qed.

(** The first element of the ascending enumeration is the minimum. *)
Lemma sorted_ids_head s x l :
  sorted_ids s = x :: l -> x ∈ s /\ forall y, y ∈ s -> (x <= y)%N.
Proof.
  intros E. split; [apply elem_of_sorted_ids; rewrite E; constructor|].
  intros y Hy. apply elem_of_sorted_ids in Hy. rewrite E in Hy.
  pose proof (sorted_ids_Sorted s) as HS. rewrite E in HS.
  apply StronglySorted_inv in HS as [_ HF]. rewrite Forall_forall in HF.
  apply elem_of_cons in Hy as [->|Hy]; [lia|by apply HF].
Qed.

Lemma sorted_ids_nil s : sorted_ids s = [] <-> s = ∅.
Proof.
  split; intros E.
  - apply leibniz_equiv, elem_of_equiv_empty. intros x Hx%elem_of_sorted_ids. rewrite E in Hx. by inversion Hx.
  - subst. unfold sorted_ids. by rewrite elements_empty.
Qed.

#[export] Hint Resolve sorted_ids_NoDup sorted_ids_Sorted : saguaro.
