(* ===== verification/Errors.v ===== *)
(** * Errors (src/crates/common/src/error.rs)

    The error value every fallible operation of the program returns: its kind,
    its SQLSTATE and its message.  [detail] and [hint] are [None] for every
    error the modelled operations build ([DbError::new]).  The SQLSTATE table
    is translated in both directions and shown to be a bijection between the
    states and the five-character codes the wire protocol sends. *)

From S2P Require Import Prelude.

Inductive ErrorKind : Set :=
  | Parse | Plan | Execute | Storage | Io | Wal
  | DurabilityOutcomeUnknown | Protocol | Internal.

Inductive SqlState : Set :=
  | SuccessfulCompletion
  | SyntaxError
  | UndefinedTable
  | InvalidSchemaName
  | UndefinedColumn
  | UndefinedObject
  | InvalidColumnReference
  | WrongObjectType
  | DuplicateTable
  | DuplicateSchema
  | InsufficientPrivilege
  | InvalidTableDefinition
  | DuplicateCursor
  | IndeterminateDatatype
  | DatatypeMismatch
  | DivisionByZero
  | InvalidParameterValue
  | NumericValueOutOfRange
  | StringDataRightTruncation
  | InvalidTextRepresentation
  | InvalidBinaryRepresentation
  | BadCopyFileFormat
  | NotNullViolation
  | UniqueViolation
  | CheckViolation
  | ForeignKeyViolation
  | CardinalityViolation
  | DependentObjectsStillExist
  | InvalidForeignKey
  | DuplicateObject
  | ObjectNotInPrerequisiteState
  | ObjectInUse
  | LockNotAvailable
  | InvalidCursorName
  | QueryCanceled
  | FeatureNotSupported
  | InFailedSqlTransaction
  | NoActiveSqlTransaction
  | InvalidSavepointSpecification
  | ProgramLimitExceeded
  | SerializationFailure
  | DeadlockDetected
  | IoError
  | InternalError.

Global Instance ErrorKind_eq_dec : EqDecision ErrorKind.
Proof. solve_decision. Defined.
Global Instance SqlState_eq_dec : EqDecision SqlState.
Proof. solve_decision. Defined.

(** [SqlState::code]. *)
Definition code (s : SqlState) : string :=
  match s with
  | SuccessfulCompletion => "00000"
  | SyntaxError => "42601"
  | UndefinedTable => "42P01"
  | InvalidSchemaName => "3F000"
  | UndefinedColumn => "42703"
  | UndefinedObject => "42704"
  | InvalidColumnReference => "42P10"
  | WrongObjectType => "42809"
  | DuplicateTable => "42P07"
  | DuplicateSchema => "42P06"
  | InsufficientPrivilege => "42501"
  | InvalidTableDefinition => "42P16"
  | DuplicateCursor => "42P03"
  | IndeterminateDatatype => "42P18"
  | DatatypeMismatch => "42804"
  | DivisionByZero => "22012"
  | InvalidParameterValue => "22023"
  | NumericValueOutOfRange => "22003"
  | StringDataRightTruncation => "22001"
  | InvalidTextRepresentation => "22P02"
  | InvalidBinaryRepresentation => "22P03"
  | BadCopyFileFormat => "22P04"
  | NotNullViolation => "23502"
  | UniqueViolation => "23505"
  | CheckViolation => "23514"
  | ForeignKeyViolation => "23503"
  | CardinalityViolation => "21000"
  | DependentObjectsStillExist => "2BP01"
  | InvalidForeignKey => "42830"
  | DuplicateObject => "42710"
  | ObjectNotInPrerequisiteState => "55000"
  | ObjectInUse => "55006"
  | LockNotAvailable => "55P03"
  | InvalidCursorName => "34000"
  | QueryCanceled => "57014"
  | FeatureNotSupported => "0A000"
  | InFailedSqlTransaction => "25P02"
  | NoActiveSqlTransaction => "25P01"
  | InvalidSavepointSpecification => "3B001"
  | ProgramLimitExceeded => "54000"
  | SerializationFailure => "40001"
  | DeadlockDetected => "40P01"
  | IoError => "58030"
  | InternalError => "XX000"
  end.

(** [SqlState::from_code]. *)
Definition from_code (c : string) : option SqlState :=
  if String.eqb c "00000" then Some SuccessfulCompletion
  else if String.eqb c "42601" then Some SyntaxError
  else if String.eqb c "42P01" then Some UndefinedTable
  else if String.eqb c "3F000" then Some InvalidSchemaName
  else if String.eqb c "42703" then Some UndefinedColumn
  else if String.eqb c "42704" then Some UndefinedObject
  else if String.eqb c "42P10" then Some InvalidColumnReference
  else if String.eqb c "42809" then Some WrongObjectType
  else if String.eqb c "42P07" then Some DuplicateTable
  else if String.eqb c "42P06" then Some DuplicateSchema
  else if String.eqb c "42501" then Some InsufficientPrivilege
  else if String.eqb c "42P16" then Some InvalidTableDefinition
  else if String.eqb c "42P03" then Some DuplicateCursor
  else if String.eqb c "42P18" then Some IndeterminateDatatype
  else if String.eqb c "42804" then Some DatatypeMismatch
  else if String.eqb c "22012" then Some DivisionByZero
  else if String.eqb c "22023" then Some InvalidParameterValue
  else if String.eqb c "22003" then Some NumericValueOutOfRange
  else if String.eqb c "22001" then Some StringDataRightTruncation
  else if String.eqb c "22P02" then Some InvalidTextRepresentation
  else if String.eqb c "22P03" then Some InvalidBinaryRepresentation
  else if String.eqb c "22P04" then Some BadCopyFileFormat
  else if String.eqb c "23502" then Some NotNullViolation
  else if String.eqb c "23505" then Some UniqueViolation
  else if String.eqb c "23514" then Some CheckViolation
  else if String.eqb c "23503" then Some ForeignKeyViolation
  else if String.eqb c "21000" then Some CardinalityViolation
  else if String.eqb c "2BP01" then Some DependentObjectsStillExist
  else if String.eqb c "42830" then Some InvalidForeignKey
  else if String.eqb c "42710" then Some DuplicateObject
  else if String.eqb c "55000" then Some ObjectNotInPrerequisiteState
  else if String.eqb c "55006" then Some ObjectInUse
  else if String.eqb c "55P03" then Some LockNotAvailable
  else if String.eqb c "34000" then Some InvalidCursorName
  else if String.eqb c "57014" then Some QueryCanceled
  else if String.eqb c "0A000" then Some FeatureNotSupported
  else if String.eqb c "25P02" then Some InFailedSqlTransaction
  else if String.eqb c "25P01" then Some NoActiveSqlTransaction
  else if String.eqb c "3B001" then Some InvalidSavepointSpecification
  else if String.eqb c "54000" then Some ProgramLimitExceeded
  else if String.eqb c "40001" then Some SerializationFailure
  else if String.eqb c "40P01" then Some DeadlockDetected
  else if String.eqb c "58030" then Some IoError
  else if String.eqb c "XX000" then Some InternalError
  else None.

Record DbError : Type := mkDbError {
  kind : ErrorKind;
  state : SqlState;
  message : string
}.

Global Instance DbError_eq_dec : EqDecision DbError.
Proof. solve_decision. Defined.

(** The constructors of [impl DbError]. *)
Definition db_parse (s : SqlState) (m : string) : DbError := mkDbError Parse s m.
Definition db_plan (s : SqlState) (m : string) : DbError := mkDbError Plan s m.
Definition db_execute (s : SqlState) (m : string) : DbError := mkDbError Execute s m.
Definition db_storage (s : SqlState) (m : string) : DbError := mkDbError Storage s m.
Definition db_wal (s : SqlState) (m : string) : DbError := mkDbError Wal s m.
Definition db_durability_outcome_unknown (m : string) : DbError :=
  mkDbError DurabilityOutcomeUnknown IoError m.
Definition db_protocol (s : SqlState) (m : string) : DbError := mkDbError Protocol s m.
Definition db_io (m : string) : DbError := mkDbError Io IoError m.
Definition db_internal (m : string) : DbError := mkDbError Internal InternalError m.

(** [pub type Result<T>]. *)
Abbreviation DbResult := (result DbError).

(** The SQLSTATE table is a bijection onto the codes it prints: decoding a
    code gives the state it was printed from, and only that code decodes to it. *)
Theorem from_code_code (c : string) (s : SqlState) : from_code c = Some s <-> c = code s.
Proof.
  split.
  - unfold from_code. intros H.
    repeat match type of H with
    | (if String.eqb ?a ?b then _ else _) = _ =>
        destruct (String.eqb_spec a b) as [->|_]; [by injection H as <-|]
    end. discriminate.
  - intros ->. by destruct s.
Qed.
