(* ===== verification/Mvcc.v ===== *)
(** * MVCC predicates (src/crates/common/src/ids.rs and src/crates/common/src/mvcc/)

    Transaction ids, snapshots and transaction status; the tuple visibility
    predicate [is_visible], the uniqueness and write-write conflict
    classifiers, and the reclaimability oracle [is_dead_to_all] of VACUUM.
    The predicates read transaction status through the [TxnStatusView] trait,
    here a type class whose law is the one the trait documents (reserved ids
    read as committed); the CLOG discharges it. *)

From S2P Require Import Prelude.
Local Open Scope N_scope.

(** ** Ids *)

Abbreviation TxnId := N (only parsing).
Abbreviation TableId := N (only parsing).
Abbreviation Lsn := N (only parsing).

Definition INVALID_XID : TxnId := 0.
Definition FROZEN_XID : TxnId := 2.
Definition FIRST_NORMAL_XID : TxnId := 3.

(** ** Status and snapshots *)

Inductive TxnStatus : Set := InProgress | Committed | Aborted.

Global Instance TxnStatus_eq_dec : EqDecision TxnStatus.
Proof. solve_decision. Defined.

Record Snapshot : Type := mkSnapshot {
  xmin : TxnId;
  xmax : TxnId;
  xip : list TxnId
}.

Definition Snapshot_empty : Snapshot := mkSnapshot 0 0 [].
Definition Snapshot_sees_all_committed : Snapshot := mkSnapshot U64_MAX U64_MAX [].

(** The trait [TxnStatusView]: its method, its default methods and the law its
    documentation asks of every implementation. *)
Class TxnStatusView (V : Type) := status : V -> TxnId -> TxnStatus.

Class TxnStatusViewOk (V : Type) `{TxnStatusView V} : Prop :=
  status_reserved (v : V) (xid : TxnId) :
    xid < FIRST_NORMAL_XID -> status v xid = Committed.

Definition is_committed `{TxnStatusView V} (v : V) (xid : TxnId) : bool :=
  bool_decide (status v xid = Committed).
Definition is_aborted `{TxnStatusView V} (v : V) (xid : TxnId) : bool :=
  bool_decide (status v xid = Aborted).

(** ** Hint bits *)

Definition XMIN_COMMITTED : N := N.shiftl 1 0.
Definition XMIN_ABORTED : N := N.shiftl 1 1.
Definition XMAX_COMMITTED : N := N.shiftl 1 2.
Definition XMAX_ABORTED : N := N.shiftl 1 3.

(** [infomask & bit != 0]. *)
Definition hint (infomask bit : N) : bool := negb (N.land infomask bit =? 0).

Lemma hint_0 bit : hint 0 bit = false.
Proof. done. Qed.

(** [slice.contains(&xid)]. *)
Definition contains (l : list TxnId) (xid : TxnId) : bool := bool_decide (xid ∈ l).

Lemma contains_true l xid : contains l xid = true <-> xid ∈ l.
Proof. apply bool_decide_eq_true. Qed.
Lemma contains_false l xid : contains l xid = false <-> xid ∉ l.
Proof. apply bool_decide_eq_false. Qed.

Section Predicates.
Context {V : Type} `{TxnStatusView V}.
Implicit Types (v : V) (snap : Snapshot) (cur : list TxnId).

(** ** Visibility *)

Definition txn_effect_visible (xid : TxnId) snap cur v
    (committed_hint aborted_hint : bool) : bool :=
  if contains cur xid then true
  else if snap.(xmax) <=? xid then false
  else if contains snap.(xip) xid then false
  else if committed_hint then true
  else if aborted_hint then false
  else bool_decide (status v xid = Committed).

Definition is_visible (vxmin vxmax : TxnId) (infomask : N) snap cur v : bool :=
  let creator_visible :=
    txn_effect_visible vxmin snap cur v
      (hint infomask XMIN_COMMITTED) (hint infomask XMIN_ABORTED) in
  if negb creator_visible then false
  else if vxmax =? INVALID_XID then true
  else
    let deleter_visible :=
      txn_effect_visible vxmax snap cur v
        (hint infomask XMAX_COMMITTED) (hint infomask XMAX_ABORTED) in
    negb deleter_visible.

(** ** Uniqueness conflicts *)

Inductive UniqueConflict : Set :=
  | UC_None
  | UC_Violation
  | UC_WouldBlock (xid : TxnId).

Definition classify_unique_conflict (vxmin vxmax : TxnId) (infomask : N) cur v
    : UniqueConflict :=
  let creator :=
    if contains cur vxmin || hint infomask XMIN_COMMITTED then Committed
    else if hint infomask XMIN_ABORTED then Aborted
    else status v vxmin in
  if bool_decide (creator = Aborted) then UC_None
  else if negb (vxmax =? INVALID_XID)
          && (contains cur vxmax || hint infomask XMAX_COMMITTED
              || bool_decide (status v vxmax = Committed))
  then UC_None
  else if bool_decide (creator = Committed) then UC_Violation
  else UC_WouldBlock vxmin.

Definition version_conflicts (vxmin vxmax : TxnId) (infomask : N) cur v : bool :=
  match classify_unique_conflict vxmin vxmax infomask cur v with
  | UC_None => false
  | _ => true
  end.

(** ** Write-write conflicts *)

Inductive WriteConflict : Set :=
  | WC_Proceed
  | WC_Conflict
  | WC_WouldBlock (xid : TxnId).

Definition write_conflict (vxmax : TxnId) (infomask : N) cur v : WriteConflict :=
  if vxmax =? INVALID_XID then WC_Proceed
  else if contains cur vxmax then WC_Proceed
  else if hint infomask XMAX_ABORTED then WC_Proceed
  else if hint infomask XMAX_COMMITTED then WC_Conflict
  else match status v vxmax with
       | Aborted => WC_Proceed
       | Committed => WC_Conflict
       | InProgress => WC_WouldBlock vxmax
       end.

(** ** Reclaimability *)

Definition is_dead_to_all (vxmin vxmax : TxnId) (infomask : N) (horizon : TxnId) v
    : bool :=
  if hint infomask XMIN_ABORTED then true
  else if negb (vxmax =? INVALID_XID) && (vxmax <? horizon)
          && (hint infomask XMAX_COMMITTED || bool_decide (status v vxmax = Committed))
  then true
  else bool_decide (status v vxmin = Aborted).

(** ** Specifications *)

(** The hint bits of a tuple cache settled statuses: a set bit agrees with the
    status view.  Bits are only ever set for the creator and for a real deleter. *)
Record hints_sound (vxmin vxmax : TxnId) (infomask : N) v : Prop := {
  hs_xmin_committed : hint infomask XMIN_COMMITTED = true -> status v vxmin = Committed;
  hs_xmin_aborted : hint infomask XMIN_ABORTED = true -> status v vxmin = Aborted;
  hs_xmax_committed : hint infomask XMAX_COMMITTED = true -> status v vxmax = Committed;
  hs_xmax_aborted : hint infomask XMAX_ABORTED = true -> status v vxmax = Aborted
}.

(** A snapshot as [ActiveTxnRegistry::capture] builds it. *)
Record snapshot_ok snap : Prop := {
  so_bounds : snap.(xmin) <= snap.(xmax);
  so_xip : forall x, x ∈ snap.(xip) -> snap.(xmin) <= x /\ x < snap.(xmax)
}.

(** The effect of [xid] is visible: an own write, or a transaction that is
    committed and was neither running at nor begun after the snapshot. *)
Definition effect_visible (xid : TxnId) snap cur v : Prop :=
  xid ∈ cur \/
  (xid < snap.(xmax) /\ xid ∉ snap.(xip) /\ status v xid = Committed).

(** A transaction concurrent with the snapshot: begun after it or running at it. *)
Definition concurrent_with snap (xid : TxnId) : Prop :=
  snap.(xmax) <= xid \/ xid ∈ snap.(xip).

Global Instance hint_dec i b : Decision (hint i b = true).
Proof. apply _. Qed.

(** ** Shared lemmas *)

Lemma txn_effect_visible_spec xid snap cur v ch ah :
  (ch = true -> status v xid = Committed) ->
  (ah = true -> status v xid = Aborted) ->
  txn_effect_visible xid snap cur v ch ah = true <-> effect_visible xid snap cur v.
Proof.
  intros Hc Ha. unfold txn_effect_visible, effect_visible.
  destruct (contains cur xid) eqn:E1; [apply contains_true in E1; naive_solver|].
  apply contains_false in E1.
  destruct (N.leb_spec (xmax snap) xid) as [Hm|Hm]; [split; [done|naive_solver lia]|].
  destruct (contains (xip snap) xid) eqn:E2;
    [apply contains_true in E2; naive_solver|apply contains_false in E2].
  destruct ch; [naive_solver|]. destruct ah.
  - specialize (Ha eq_refl). split; [done|]. intros [|(_&_&?)]; congruence.
  - rewrite bool_decide_eq_true. naive_solver.
Qed.

Lemma is_visible_iff vxmin vxmax im snap cur v :
  hints_sound vxmin vxmax im v ->
  is_visible vxmin vxmax im snap cur v = true <->
  effect_visible vxmin snap cur v /\
  (vxmax = INVALID_XID \/ ~ effect_visible vxmax snap cur v).
Proof.
  intros [H1 H2 H3 H4]. unfold is_visible. cbv zeta.
  rewrite <- (txn_effect_visible_spec vxmin snap cur v _ _ H1 H2).
  rewrite <- (txn_effect_visible_spec vxmax snap cur v _ _ H3 H4).
  destruct (txn_effect_visible vxmin _ _ _ _ _); simpl; [|naive_solver].
  destruct (N.eqb_spec vxmax INVALID_XID); [naive_solver|].
  destruct (txn_effect_visible vxmax _ _ _ _ _); naive_solver.
Qed.

Lemma is_visible_false vxmin vxmax im snap cur v :
  hints_sound vxmin vxmax im v ->
  is_visible vxmin vxmax im snap cur v = false <->
  ~ effect_visible vxmin snap cur v \/
  (vxmax <> INVALID_XID /\ effect_visible vxmax snap cur v).
Proof.
  intros Hh. rewrite <- not_true_iff_false, (is_visible_iff _ _ _ _ _ _ Hh).
  assert (Decision (effect_visible vxmin snap cur v)) by (unfold effect_visible; apply _).
  assert (Decision (effect_visible vxmax snap cur v)) by (unfold effect_visible; apply _).
  destruct (decide (effect_visible vxmin snap cur v)),
    (decide (effect_visible vxmax snap cur v)), (decide (vxmax = INVALID_XID)); tauto.
Qed.

(** [is_dead_to_all] with sound hints. *)
Lemma is_dead_to_all_iff vxmin vxmax im horizon v :
  hints_sound vxmin vxmax im v ->
  is_dead_to_all vxmin vxmax im horizon v = true <->
  status v vxmin = Aborted \/
  (vxmax <> INVALID_XID /\ vxmax < horizon /\ status v vxmax = Committed).
Proof.
  intros [H1 H2 H3 H4]. unfold is_dead_to_all.
  destruct (hint im XMIN_ABORTED); [naive_solver|].
  destruct (N.eqb_spec vxmax INVALID_XID), (N.ltb_spec vxmax horizon); simpl;
    rewrite ?bool_decide_eq_true; try naive_solver lia.
  destruct (hint im XMAX_COMMITTED); simpl; [naive_solver|].
  case_bool_decide; rewrite ?bool_decide_eq_true; naive_solver.
Qed.

Lemma effect_visible_below snap cur v xid horizon :
  snapshot_ok snap -> horizon <= snap.(xmin) -> xid < horizon ->
  status v xid = Committed -> effect_visible xid snap cur v.
Proof.
  intros [Hb Hx] Hh Hl Hc. right. split_and!; [lia| |done].
  intros Hin. apply Hx in Hin. lia.
Qed.

(** Statuses only settle: a committed or aborted id keeps its status. *)
Definition status_evolves v v' : Prop :=
  forall x, status v x <> InProgress -> status v' x = status v x.

Lemma hints_sound_evolves vxmin vxmax im v v' :
  status_evolves v v' -> hints_sound vxmin vxmax im v -> hints_sound vxmin vxmax im v'.
Proof.
  intros He [H1 H2 H3 H4].
  split; intros Hx; rewrite He; auto; intros E;
    [apply H1 in Hx|apply H2 in Hx|apply H3 in Hx|apply H4 in Hx]; congruence.
Qed.

Lemma effect_visible_dec_own xid snap cur v :
  ~ effect_visible xid snap cur v -> xid ∉ cur.
Proof. intros Hn Hin. apply Hn. by left. Qed.

(** The classifier without hint bits, by the creator's status. *)
Lemma classify_unhinted vxmin vxmax cur v :
  classify_unique_conflict vxmin vxmax 0 cur v =
  let deleted := negb (vxmax =? INVALID_XID)
                 && (contains cur vxmax || bool_decide (status v vxmax = Committed)) in
  if contains cur vxmin then if deleted then UC_None else UC_Violation
  else match status v vxmin with
       | Aborted => UC_None
       | Committed => if deleted then UC_None else UC_Violation
       | InProgress => if deleted then UC_None else UC_WouldBlock vxmin
       end.
Proof.
  unfold classify_unique_conflict. rewrite !hint_0, !orb_false_r.
  destruct (contains cur vxmin); [done|]. by destruct (status v vxmin).
Qed.

(** ** Properties *)

(** C15: with hint bits that agree with the transaction statuses, [is_visible]
    decides exactly the snapshot rule: the creator is an own write or committed
    in the snapshot's past, and the deleter is absent or not so. *)
Theorem is_visible_spec vxmin vxmax im snap cur v
    (Hh : hints_sound vxmin vxmax im v) :
  is_visible vxmin vxmax im snap cur v = true <->
  effect_visible vxmin snap cur v /\
  (vxmax = INVALID_XID \/ ~ effect_visible vxmax snap cur v).
Proof. by apply is_visible_iff. Qed.

(** C16: VACUUM never reclaims a version some live snapshot can see: a version
    dead to all at a horizon is invisible to every well-formed snapshot whose
    [xmin] is at or above the horizon, for every reader that is not its creator,
    now and after any further commits and aborts. *)
Theorem dead_to_all_invisible vxmin vxmax im horizon v v' snap cur
    (Hh : hints_sound vxmin vxmax im v)
    (Hdead : is_dead_to_all vxmin vxmax im horizon v = true)
    (Hev : status_evolves v v')
    (Hok : snapshot_ok snap)
    (Hhor : horizon <= snap.(xmin))
    (Hown : vxmin ∉ cur) :
  is_visible vxmin vxmax im snap cur v' = false.
Proof.
  apply is_visible_false; [by eapply hints_sound_evolves|].
  apply (is_dead_to_all_iff _ _ _ _ _ Hh) in Hdead as [Ha|(Hx & Hlt & Hc)].
  - left. intros [?|(_&_&Hc)]; [done|]. rewrite Hev in Hc; congruence.
  - right. split; [done|]. eapply effect_visible_below; eauto. rewrite Hev; congruence.
Qed.

(** The first updater wins.  For a version visible to the writer,
    [write_conflict] proceeds only on an undeleted version or an aborted deleter,
    fails only when the deleter committed concurrently with the writer's
    snapshot, and otherwise blocks on the in-progress deleter. *)
Theorem write_conflict_visible vxmin vxmax im snap cur v
    (Hh : hints_sound vxmin vxmax im v)
    (Hvis : is_visible vxmin vxmax im snap cur v = true) :
  match write_conflict vxmax im cur v with
  | WC_Proceed => vxmax = INVALID_XID \/ status v vxmax = Aborted
  | WC_Conflict => status v vxmax = Committed /\ concurrent_with snap vxmax
  | WC_WouldBlock x => x = vxmax /\ status v x = InProgress /\ x ∉ cur
  end.
Proof.
  apply (is_visible_iff _ _ _ _ _ _ Hh) in Hvis as [_ Hd].
  destruct Hh as [H1 H2 H3 H4]. unfold write_conflict.
  destruct (N.eqb_spec vxmax INVALID_XID) as [->|Hn]; [by left|].
  destruct Hd as [?|Hd]; [done|]. pose proof (effect_visible_dec_own _ _ _ _ Hd) as Hc.
  rewrite (proj2 (contains_false cur vxmax) Hc).
  assert (Hcc : status v vxmax = Committed -> concurrent_with snap vxmax).
  { intros Hs. unfold concurrent_with. destruct (N.le_gt_cases (xmax snap) vxmax); [by left|].
    right. destruct (decide (vxmax ∈ xip snap)); [done|]. destruct Hd. right. auto. }
  destruct (hint im XMAX_ABORTED) eqn:E3; [right; auto|].
  destruct (hint im XMAX_COMMITTED) eqn:E4; [auto|].
  destruct (status v vxmax) eqn:E5; auto.
Qed.

(** The uniqueness classifier is exact.  [None] means the candidate is dead
    (creator aborted, or deleted by the inserter or by a committed transaction);
    [Violation] means it is alive with a creator that is the inserter or
    committed; [WouldBlock] names a creator that is another running transaction. *)
Theorem classify_unique_conflict_spec vxmin vxmax im cur v
    (Hh : hints_sound vxmin vxmax im v) :
  let deleted := vxmax <> INVALID_XID /\ (vxmax ∈ cur \/ status v vxmax = Committed) in
  let mine_or_committed := vxmin ∈ cur \/ status v vxmin = Committed in
  match classify_unique_conflict vxmin vxmax im cur v with
  | UC_None => (vxmin ∉ cur /\ status v vxmin = Aborted) \/ deleted
  | UC_Violation => mine_or_committed /\ ~ deleted
  | UC_WouldBlock x =>
      x = vxmin /\ vxmin ∉ cur /\ status v vxmin = InProgress /\ ~ deleted
  end.
Proof.
  destruct Hh as [H1 H2 H3 H4]. cbv zeta. unfold classify_unique_conflict.
  set (del := negb (vxmax =? INVALID_XID) && _).
  assert (Hdel : del = true <->
    vxmax <> INVALID_XID /\ (vxmax ∈ cur \/ status v vxmax = Committed)).
  { subst del. rewrite andb_true_iff, negb_true_iff, N.eqb_neq, !orb_true_iff,
      contains_true, bool_decide_eq_true. naive_solver. }
  assert (Hdel2 := not_iff_compat Hdel). rewrite not_true_iff_false in Hdel2. clearbody del.
  destruct (contains cur vxmin) eqn:Ec; [apply contains_true in Ec|apply contains_false in Ec];
    cbn [orb].
  - repeat case_bool_decide; try done. destruct del; naive_solver.
  - destruct (hint im XMIN_COMMITTED) eqn:E1.
    { repeat case_bool_decide; try done. destruct del; naive_solver. }
    destruct (hint im XMIN_ABORTED) eqn:E2; [naive_solver|].
    destruct (status v vxmin) eqn:E3; repeat case_bool_decide; try done;
      destruct del; naive_solver.
Qed.

(** A blocked inserter is decided once its blocker settles: if the creator
    it waits for aborts the candidate no longer conflicts, and if it commits
    while the candidate stays undeleted the re-check reports a violation. *)
Theorem would_block_resolves vxmin vxmax cur v v' x
    (Hwb : classify_unique_conflict vxmin vxmax 0 cur v = UC_WouldBlock x) :
  (status v' x = Aborted -> classify_unique_conflict vxmin vxmax 0 cur v' = UC_None) /\
  (status v' x = Committed -> vxmax = INVALID_XID \/ status v' vxmax <> Committed ->
     classify_unique_conflict vxmin vxmax 0 cur v' = UC_Violation).
Proof.
  rewrite classify_unhinted in *.
  destruct (contains cur vxmin) eqn:Ec; [by destruct (_ && _)|].
  destruct (status v vxmin) eqn:Es; try done; destruct (_ && _) eqn:Ed; try done.
  injection Hwb as <-. split; intros ->; [done|]. intros Hx.
  apply andb_false_iff in Ed as [->|Ed]; [done|].
  apply orb_false_iff in Ed as [-> _]. destruct Hx as [->|Hx]; [done|].
  by rewrite (bool_decide_eq_false_2 _ Hx), andb_false_r.
Qed.

End Predicates.

#[export] Hint Resolve effect_visible_below hints_sound_evolves : saguaro.

(** ** Witnesses *)

(** A status view given by a function, used to evaluate the predicates. *)
Definition FunView : Type := TxnId -> TxnStatus.
Global Instance FunView_view : TxnStatusView FunView := fun f x => f x.

Definition demo_view : FunView := fun x =>
  if x <? 6 then Committed else if x =? 7 then Aborted else InProgress.
Definition demo_snapshot : Snapshot := mkSnapshot 5 9 [5; 8].

Lemma demo_hints xm xx : hints_sound xm xx 0 demo_view.
Proof. split; intros E; vm_compute in E; discriminate. Defined.

Lemma is_visible_spec_witness :
  hints_sound 4 5 0 demo_view /\
  effect_visible 4 demo_snapshot [] demo_view /\
  (5 = INVALID_XID \/ ~ effect_visible 5 demo_snapshot [] demo_view).
Proof.
  split; [apply demo_hints|].
  apply (is_visible_spec 4 5 0 demo_snapshot [] demo_view (demo_hints 4 5)).
  vm_compute. reflexivity.
Defined.

Lemma dead_to_all_invisible_witness :
  is_visible 3 4 0 demo_snapshot [8] demo_view = false.
Proof.
  apply (dead_to_all_invisible 3 4 0 5 demo_view demo_view demo_snapshot [8]).
  - apply demo_hints.
  - vm_compute. reflexivity.
  - intros x _. reflexivity.
  - split; [vm_compute; discriminate|]. intros x Hx. simpl in *.
    repeat (apply elem_of_cons in Hx as [->|Hx]; [lia|]). by apply not_elem_of_nil in Hx.
  - vm_compute. discriminate.
  - apply (bool_decide_unpack _). vm_compute. exact I.
Defined.

Lemma write_conflict_visible_witness :
  is_visible 4 5 0 demo_snapshot [] demo_view = true /\
  status demo_view 5 = Committed /\ concurrent_with demo_snapshot 5.
Proof.
  split; [vm_compute; reflexivity|].
  exact (write_conflict_visible 4 5 0 demo_snapshot [] demo_view (demo_hints 4 5)
    ltac:(vm_compute; reflexivity)).
Defined.

Lemma classify_unique_conflict_spec_witness :
  8 = 8 /\ 8 ∉ [4] /\ status demo_view 8 = InProgress /\
  ~ (0 <> INVALID_XID /\ (0 ∈ [4] \/ status demo_view 0 = Committed)).
Proof.
  exact (classify_unique_conflict_spec 8 0 0 [4] demo_view (demo_hints 8 0)).
Defined.

Lemma would_block_resolves_witness :
  classify_unique_conflict 8 0 0 [4] (fun x => if x =? 8 then Aborted else Committed : TxnStatus)
    = UC_None.
Proof.
  apply (would_block_resolves 8 0 [4] demo_view
    ((fun x => if x =? 8 then Aborted else Committed) : FunView) 8).
  - vm_compute. reflexivity.
  - vm_compute. reflexivity.
Defined.
