(* ===== verification/Clog.v ===== *)
(** * CLOG: the transaction-status map (src/crates/wal/src/clog.rs)

    The in-memory map from transaction ids to statuses with its
    implicit-committed floor, the durable snapshot a checkpoint derives from it
    and the pruning that follows.  The CLOG is the canonical [TxnStatusView]. *)

From S2P Require Import Prelude Mvcc.
Local Open Scope N_scope.

(** ** State *)

Record Clog : Type := mkClog {
  statuses : gmap TxnId TxnStatus;
  committed_floor : TxnId
}.

(** [ClogSnapshot] (src/crates/wal/src/clog_file.rs). *)
Record ClogSnapshot : Type := mkClogSnapshot {
  cs_clog_lsn : Lsn;
  cs_authorized_replay_floor : Lsn;
  cs_committed_floor : TxnId;
  cs_vacuum_floor : TxnId;
  cs_committed : list TxnId;
  cs_aborted : list TxnId;
  cs_in_progress : list TxnId
}.

(** ** Operations *)

Definition CLOG_MAINTENANCE_STATUS_COUNT : N := 750000.

Definition status_pressure_needs_maintenance (status_count : N) (floor_is_pinned : bool) : bool :=
  (CLOG_MAINTENANCE_STATUS_COUNT <=? status_count) && floor_is_pinned.

Definition status_pressure_blocks_new_writer (status_count : N)
    (writer_is_known active_writer_exists : bool) : bool :=
  (CLOG_MAINTENANCE_STATUS_COUNT <=? status_count) && negb writer_is_known
  && active_writer_exists.

Definition Clog_new : Clog := mkClog ∅ FIRST_NORMAL_XID.

Definition set_committed_floor (c : Clog) (floor : TxnId) : Clog :=
  mkClog c.(statuses) (N.max (N.max c.(committed_floor) floor) FIRST_NORMAL_XID).

(** [statuses.len()]. *)
Definition status_count (c : Clog) : N := N.of_nat (size c.(statuses)).

Definition needs_maintenance (c : Clog) (vacuum_floor : TxnId) : bool :=
  let floor_is_pinned :=
    existsb (fun '(id, st) =>
      match st with
      | Aborted => vacuum_floor <=? id
      | InProgress => true
      | Committed => false
      end) (map_to_list c.(statuses)) in
  status_pressure_needs_maintenance (status_count c) floor_is_pinned.

Definition must_backpressure_new_writer (c : Clog) (txn_id : TxnId) : bool :=
  status_pressure_blocks_new_writer (status_count c)
    (bool_decide (is_Some (c.(statuses) !! txn_id)))
    (existsb (fun '(_, st) => bool_decide (st = InProgress)) (map_to_list c.(statuses))).

Definition Clog_status (c : Clog) (txn_id : TxnId) : TxnStatus :=
  if txn_id <? FIRST_NORMAL_XID then Committed
  else match c.(statuses) !! txn_id with
       | Some st => st
       | None => if txn_id <? c.(committed_floor) then Committed else InProgress
       end.

Definition set_in_progress (c : Clog) (txn_id : TxnId) : Clog :=
  mkClog (<[txn_id := InProgress]> c.(statuses)) c.(committed_floor).
Definition set_committed (c : Clog) (txn_id : TxnId) : Clog :=
  mkClog (<[txn_id := Committed]> c.(statuses)) c.(committed_floor).
Definition set_aborted (c : Clog) (txn_id : TxnId) : Clog :=
  mkClog (<[txn_id := Aborted]> c.(statuses)) c.(committed_floor).

Definition resolve_all_in_progress_as_aborted (c : Clog) : Clog :=
  mkClog ((fun st => if bool_decide (st = InProgress) then Aborted else st) <$> c.(statuses))
         c.(committed_floor).

(** One of the three insertion loops of [from_snapshot]. *)
Definition insert_all (st : TxnStatus) (ids : list TxnId) (m : gmap TxnId TxnStatus)
    : gmap TxnId TxnStatus :=
  foldl (fun m id => <[id := st]> m) m ids.

Definition from_snapshot (s : ClogSnapshot) : Clog :=
  mkClog
    (insert_all InProgress s.(cs_in_progress)
      (insert_all Aborted s.(cs_aborted)
        (insert_all Committed s.(cs_committed) ∅)))
    (N.max s.(cs_committed_floor) FIRST_NORMAL_XID).

(** The floor [live_snapshot] reports. *)
Definition live_floor (c : Clog) (vacuum_floor : TxnId) (captured_active : list TxnId)
    (allocation_boundary : TxnId) : TxnId :=
  let entries := map_to_list c.(statuses) in
  let oldest_status_requiring_explicit_entry :=
    list_min (omap (fun '(id, st) =>
      match st with
      | Aborted => if vacuum_floor <=? id then Some id else None
      | InProgress => Some id
      | Committed => None
      end) entries) in
  let settled_boundary :=
    match list_max entries.*1 with
    | None => c.(committed_floor)
    | Some id => saturating_add U64_MAX id 1
    end in
  let oldest_active := list_min captured_active in
  let pinned :=
    list_min (option_list oldest_status_requiring_explicit_entry
              ++ option_list oldest_active) in
  N.max (N.max (N.min (default settled_boundary pinned) allocation_boundary)
               c.(committed_floor))
        FIRST_NORMAL_XID.

(** The ids at or above [floor] recorded with status [st], in map order. *)
Definition recorded_ids (c : Clog) (floor : TxnId) (st : TxnStatus) : list TxnId :=
  omap (fun '(id, st') =>
    if id <? floor then None
    else if bool_decide (st' = st) then Some id else None) (map_to_list c.(statuses)).

Definition live_snapshot (c : Clog) (clog_lsn authorized_replay_floor : Lsn)
    (vacuum_floor : TxnId) (captured_active : list TxnId)
    (allocation_boundary : TxnId) : ClogSnapshot :=
  let floor := live_floor c vacuum_floor captured_active allocation_boundary in
  let in_progress :=
    foldl (fun acc id =>
      if (floor <=? id) && bool_decide (Clog_status c id = InProgress)
         && negb (contains acc id)
      then acc ++ [id] else acc)
      (recorded_ids c floor InProgress) captured_active in
  {| cs_clog_lsn := clog_lsn;
     cs_authorized_replay_floor := authorized_replay_floor;
     cs_committed_floor := floor;
     cs_vacuum_floor := vacuum_floor;
     cs_committed := merge_sort N.le (recorded_ids c floor Committed);
     cs_aborted := merge_sort N.le (recorded_ids c floor Aborted);
     cs_in_progress := merge_sort N.le in_progress |}.

Definition prune_to (c : Clog) (floor : TxnId) : Clog :=
  let c' := set_committed_floor c floor in
  mkClog (filter (fun '(id, _) => c'.(committed_floor) <= id) c'.(statuses))
         c'.(committed_floor).

(** [impl TxnStatusView for Clog]. *)
Global Instance Clog_view : TxnStatusView Clog := Clog_status.

(** ** Lemmas *)

Global Instance Clog_view_ok : TxnStatusViewOk Clog.
Proof. intros c xid Hx. unfold status, Clog_view, Clog_status. by apply N.ltb_lt in Hx as ->. Qed.

Lemma Clog_status_normal c id :
  FIRST_NORMAL_XID <= id ->
  Clog_status c id = match c.(statuses) !! id with
                     | Some st => st
                     | None => if id <? c.(committed_floor) then Committed else InProgress
                     end.
Proof. intros H. unfold Clog_status. by apply N.ltb_ge in H as ->. Qed.

Lemma lookup_insert_all st ids m id :
  insert_all st ids m !! id = if bool_decide (id ∈ ids) then Some st else m !! id.
Proof.
  unfold insert_all. revert m. induction ids as [|x ids IH]; intros m; simpl; [done|].
  rewrite IH. destruct (decide (id = x)) as [->|Hne].
  - rewrite lookup_insert_eq. rewrite (bool_decide_eq_true_2 (x ∈ x :: ids)) by constructor.
    by case_bool_decide.
  - rewrite lookup_insert_ne by done. repeat case_bool_decide; set_solver.
Qed.

Lemma elem_of_recorded_ids c floor st id :
  id ∈ recorded_ids c floor st <-> c.(statuses) !! id = Some st /\ floor <= id.
Proof.
  unfold recorded_ids. rewrite list_elem_of_omap. split.
  - intros ([i s] & Hin & Hf). apply elem_of_map_to_list in Hin.
    destruct (N.ltb_spec i floor); [done|]. case_bool_decide; naive_solver.
  - intros [Hl Hle]. exists (id, st). split; [by apply elem_of_map_to_list|].
    apply N.ltb_ge in Hle as ->. by rewrite bool_decide_eq_true_2.
Qed.

(** The loop over the captured active ids. *)
Lemma elem_of_capture_fold c floor cap acc id :
  id ∈ foldl (fun acc id =>
      if (floor <=? id) && bool_decide (Clog_status c id = InProgress)
         && negb (contains acc id)
      then acc ++ [id] else acc) acc cap <->
  id ∈ acc \/ (id ∈ cap /\ floor <= id /\ Clog_status c id = InProgress).
Proof.
  revert acc. induction cap as [|x cap IH]; intros acc; simpl; [set_solver|].
  rewrite IH, elem_of_cons. clear IH.
  destruct (_ && negb (contains acc x)) eqn:E.
  - to_prop. rewrite elem_of_app, list_elem_of_singleton. naive_solver.
  - assert (floor <= x -> Clog_status c x = InProgress -> x ∈ acc) as Hx.
    { intros Hf Hs. apply N.leb_le in Hf. rewrite Hf, bool_decide_eq_true_2 in E by done.
      simpl in E. by apply negb_false_iff, contains_true in E. }
    naive_solver.
Qed.

Lemma NoDup_capture_fold c floor cap acc :
  NoDup acc ->
  NoDup (foldl (fun acc id =>
      if (floor <=? id) && bool_decide (Clog_status c id = InProgress)
         && negb (contains acc id)
      then acc ++ [id] else acc) acc cap).
Proof.
  revert acc. induction cap as [|x cap IH]; intros acc Hnd; simpl; [done|]. apply IH.
  destruct (_ && _) eqn:E; [|done].
  apply andb_true_iff in E as [_ E]. apply negb_true_iff, contains_false in E.
  apply NoDup_app. split_and!; [done| |apply NoDup_singleton].
  intros y Hy Hx. apply list_elem_of_singleton in Hx. naive_solver.
Qed.

Section LiveSnapshot.
Context (c : Clog) (lsn arf : Lsn) (vf : TxnId) (cap : list TxnId) (ab : TxnId).
Let floor := live_floor c vf cap ab.
Let s := live_snapshot c lsn arf vf cap ab.

Lemma live_floor_ge : c.(committed_floor) <= floor /\ FIRST_NORMAL_XID <= floor.
Proof. unfold floor, live_floor. lia. Qed.

Lemma elem_of_live_committed id :
  id ∈ s.(cs_committed) <-> c.(statuses) !! id = Some Committed /\ floor <= id.
Proof. simpl. by rewrite merge_sort_Permutation, elem_of_recorded_ids. Qed.

Lemma elem_of_live_aborted id :
  id ∈ s.(cs_aborted) <-> c.(statuses) !! id = Some Aborted /\ floor <= id.
Proof. simpl. by rewrite merge_sort_Permutation, elem_of_recorded_ids. Qed.

Lemma elem_of_live_in_progress id :
  id ∈ s.(cs_in_progress) <->
  floor <= id /\ Clog_status c id = InProgress /\
  (c.(statuses) !! id = Some InProgress \/ id ∈ cap).
Proof.
  simpl. rewrite merge_sort_Permutation, elem_of_capture_fold, elem_of_recorded_ids.
  pose proof live_floor_ge as [_ H3]. split; [|naive_solver].
  intros [[Hl Hf]|?]; [|naive_solver]. split_and!; auto.
  rewrite Clog_status_normal by (fold floor in Hf; lia). by rewrite Hl.
Qed.

(** What the recovered CLOG answers, in terms of the original. *)
Lemma live_recovered_status id :
  Clog_status (from_snapshot s) id = if id <? floor then Committed else Clog_status c id.
Proof.
  pose proof live_floor_ge as [Hcf H3].
  destruct (N.ltb_spec id FIRST_NORMAL_XID) as [Hr|Hr].
  { destruct (N.ltb_spec id floor); [|lia]. unfold Clog_status. by apply N.ltb_lt in Hr as ->. }
  rewrite (Clog_status_normal (from_snapshot s)) by done.
  unfold from_snapshot. cbn [statuses committed_floor].
  rewrite !lookup_insert_all, lookup_empty.
  change (cs_committed_floor s) with floor. replace (N.max floor FIRST_NORMAL_XID) with floor by lia.
  pose proof (elem_of_live_in_progress id) as Hi. pose proof (elem_of_live_aborted id) as Ha.
  pose proof (elem_of_live_committed id) as Hc.
  destruct (N.ltb_spec id floor) as [Hf|Hf].
  - rewrite !bool_decide_eq_false_2; [done|rewrite Hc|rewrite Ha|rewrite Hi]; lia.
  - assert (Hu : id <? committed_floor c = false) by (apply N.ltb_ge; lia).
    rewrite (Clog_status_normal c) in Hi |- * by done.
    destruct (statuses c !! id) as [[]|] eqn:El.
    + rewrite bool_decide_eq_true_2; [done|]. apply Hi. auto.
    + rewrite bool_decide_eq_false_2 by (rewrite Hi; naive_solver).
      rewrite bool_decide_eq_false_2 by (rewrite Ha; naive_solver).
      rewrite bool_decide_eq_true_2; [done|]. by apply Hc.
    + rewrite bool_decide_eq_false_2 by (rewrite Hi; naive_solver).
      rewrite bool_decide_eq_true_2; [done|]. by apply Ha.
    + rewrite Hu. case_bool_decide; [done|].
      rewrite !bool_decide_eq_false_2; [done|rewrite Hc|rewrite Ha]; naive_solver.
Qed.

(** The live floor never passes a status that must stay explicit. *)
Lemma live_floor_pinned id :
  c.(committed_floor) <= id -> FIRST_NORMAL_XID <= id -> id < floor ->
  id ∉ cap /\
  match c.(statuses) !! id with
  | Some InProgress => False
  | Some Aborted => id < vf
  | _ => True
  end.
Proof.
  intros Hc H3 Hlt. unfold floor, live_floor in Hlt.
  set (l := option_list _ ++ option_list _) in Hlt.
  assert (Hpin : forall x, x ∈ l -> id < x).
  { intros x Hx. destruct (list_min l) as [m|] eqn:Em; simpl in Hlt.
    - apply list_min_Some in Em as [_ Hm]. specialize (Hm x Hx). lia.
    - apply list_min_None in Em. rewrite Em in Hx. by inversion Hx. }
  assert (Hmin : forall k x, x ∈ k -> (forall m, m ∈ option_list (list_min k) -> m ∈ l) -> id < x).
  { intros k x Hx Hk. destruct (list_min k) as [m|] eqn:Em.
    - pose proof (Hpin m (Hk m ltac:(simpl; constructor))).
      apply list_min_Some in Em as [_ Hm]. specialize (Hm x Hx). lia.
    - apply list_min_None in Em. subst. by inversion Hx. }
  split.
  - intros Hin. pose proof (Hmin cap id Hin). subst l.
    enough (id < id) by lia. apply H. intros m Hm. apply elem_of_app. by right.
  - destruct (statuses c !! id) as [st|] eqn:El; [|done].
    apply elem_of_map_to_list in El.
    assert (Hst : st <> Committed -> (st = Aborted -> vf <= id) -> id < id).
    { intros Hn Ha. eapply Hmin; [|intros m Hm; subst l; apply elem_of_app; left; exact Hm].
      apply list_elem_of_omap. exists (id, st). split; [done|].
      destruct st; [done|done|]. specialize (Ha eq_refl). by apply N.leb_le in Ha as ->. }
    destruct st; [|done|]; [enough (id < id) by lia; auto; by apply Hst|].
    destruct (N.lt_ge_cases id vf); [done|]. enough (id < id) by lia. by apply Hst.
Qed.

End LiveSnapshot.

Lemma prune_to_status c floor id :
  Clog_status (prune_to c floor) id =
  if id <? (set_committed_floor c floor).(committed_floor) then Committed else Clog_status c id.
Proof.
  set (f := (set_committed_floor c floor).(committed_floor)).
  assert (Hf : FIRST_NORMAL_XID <= f /\ c.(committed_floor) <= f) by (subst f; simpl; lia).
  destruct (N.ltb_spec id FIRST_NORMAL_XID) as [Hr|Hr].
  { destruct (N.ltb_spec id f); [|lia]. unfold Clog_status. by apply N.ltb_lt in Hr as ->. }
  rewrite !Clog_status_normal by done. unfold prune_to. cbn [statuses committed_floor].
  fold f. rewrite map_lookup_filter. change (statuses (set_committed_floor c floor)) with (statuses c).
  destruct (N.ltb_spec id f).
  - destruct (statuses c !! id); simpl; [|done]. by rewrite option_guard_False by lia.
  - destruct (statuses c !! id); simpl; [by rewrite option_guard_True by lia|].
    destruct (N.ltb_spec id (committed_floor c)); [lia|done].
Qed.

(** The invariant of a running CLOG: explicit entries sit at or above the floor. *)
Definition clog_ok (c : Clog) : Prop :=
  FIRST_NORMAL_XID <= c.(committed_floor) /\
  forall id st, c.(statuses) !! id = Some st -> c.(committed_floor) <= id.

Lemma clog_ok_set c id st :
  clog_ok c -> c.(committed_floor) <= id ->
  clog_ok (mkClog (<[id := st]> c.(statuses)) c.(committed_floor)).
Proof.
  intros [H3 Hc] Hid. split; [done|]. simpl. intros i s.
  rewrite lookup_insert. case_decide; naive_solver.
Qed.

Lemma clog_ok_resolve c : clog_ok c -> clog_ok (resolve_all_in_progress_as_aborted c).
Proof.
  intros [H3 Hc]. split; [done|]. simpl. intros i s.
  rewrite lookup_fmap. destruct (statuses c !! i) eqn:E; naive_solver.
Qed.

Lemma clog_ok_prune c floor : clog_ok (prune_to c floor).
Proof.
  split; simpl; [lia|]. intros i s. rewrite map_lookup_filter_Some. naive_solver.
Qed.

Lemma clog_ok_live_recovered c lsn arf vf cap ab :
  clog_ok (from_snapshot (live_snapshot c lsn arf vf cap ab)).
Proof.
  pose proof (live_floor_ge c vf cap ab) as [Hcf H3]. split.
  { unfold from_snapshot. cbn [committed_floor]. lia. }
  intros id st. unfold from_snapshot. cbn [statuses committed_floor].
  rewrite !lookup_insert_all, lookup_empty.
  change (cs_committed_floor (live_snapshot c lsn arf vf cap ab)) with (live_floor c vf cap ab).
  repeat case_bool_decide; intros; simplify_eq;
    [pose proof (proj1 (elem_of_live_in_progress c lsn arf vf cap ab id) H)
    |pose proof (proj1 (elem_of_live_aborted c lsn arf vf cap ab id) H0)
    |pose proof (proj1 (elem_of_live_committed c lsn arf vf cap ab id) H1)];
    destruct_and?; lia.
Qed.

#[export] Hint Resolve clog_ok_set clog_ok_resolve clog_ok_prune clog_ok_live_recovered : saguaro.

Lemma resolve_status c id :
  FIRST_NORMAL_XID <= id ->
  Clog_status (resolve_all_in_progress_as_aborted c) id =
  match c.(statuses) !! id with
  | Some InProgress => Aborted
  | _ => Clog_status c id
  end.
Proof.
  intros H. rewrite !Clog_status_normal by done. simpl. rewrite lookup_fmap.
  by destruct (statuses c !! id) as [[]|].
Qed.

(** The recovered snapshot and the pruned CLOG answer alike. *)
Lemma live_prune_agree c lsn arf vf cap ab id :
  let s := live_snapshot c lsn arf vf cap ab in
  Clog_status (from_snapshot s) id = Clog_status (prune_to c s.(cs_committed_floor)) id.
Proof.
  cbv zeta. rewrite live_recovered_status, prune_to_status.
  pose proof (live_floor_ge c vf cap ab) as [Hcf H3].
  replace (committed_floor (set_committed_floor c _)) with (live_floor c vf cap ab); [done|].
  simpl. lia.
Qed.

(** ** Properties *)

(** A checkpoint's durable snapshot and the in-memory CLOG pruned after it
    agree: recovering from the snapshot answers every status query as the
    pruned CLOG does, for every id. *)
Theorem checkpoint_recovery_agrees c lsn arf vf cap ab id :
  let s := live_snapshot c lsn arf vf cap ab in
  status (from_snapshot s) id = status (prune_to c s.(cs_committed_floor)) id.
Proof. apply live_prune_agree. Qed.

(** Taking a checkpoint changes the status of an id only by forgetting it
    below the new floor, and only if it is an abort already reclaimed by VACUUM
    or an id with no recorded status that is not an active transaction. *)
Theorem checkpoint_forgets_only_settled c lsn arf vf cap ab id
    (Hok : clog_ok c)
    (Hch : status (from_snapshot (live_snapshot c lsn arf vf cap ab)) id <> status c id) :
  status (from_snapshot (live_snapshot c lsn arf vf cap ab)) id = Committed /\
  id < live_floor c vf cap ab /\ id ∉ cap /\
  ((status c id = Aborted /\ id < vf) \/ c.(statuses) !! id = None).
Proof.
  destruct Hok as [_ Hok]. unfold status, Clog_view in *. rewrite live_recovered_status in *.
  destruct (N.ltb_spec id (live_floor c vf cap ab)) as [Hf|]; [|done].
  split; [done|]. split; [done|].
  destruct (N.ltb_spec id FIRST_NORMAL_XID) as [Hr|Hr].
  { unfold Clog_status in Hch. apply N.ltb_lt in Hr. by rewrite Hr in Hch. }
  rewrite (Clog_status_normal c) in Hch |- * by done.
  destruct (N.le_gt_cases (committed_floor c) id) as [Hle|Hgt].
  - destruct (live_floor_pinned c vf cap ab id Hle Hr Hf) as [Hcap Hp]. split; [done|].
    destruct (statuses c !! id) as [[]|]; try done; auto.
  - destruct (statuses c !! id) eqn:El; [apply Hok in El; lia|].
    apply N.ltb_lt in Hgt. by rewrite Hgt in Hch.
Qed.

(** After a crash, a transaction captured as active by the checkpoint comes
    back aborted, and no id recovers as in progress from an explicit entry. *)
Theorem crash_recovery_aborts_active c lsn arf vf cap ab id
    (Hid : c.(committed_floor) <= id)
    (H3 : FIRST_NORMAL_XID <= id)
    (Hcap : id ∈ cap)
    (Hact : status c id = InProgress) :
  status (resolve_all_in_progress_as_aborted
            (from_snapshot (live_snapshot c lsn arf vf cap ab))) id = Aborted /\
  forall id', (resolve_all_in_progress_as_aborted
            (from_snapshot (live_snapshot c lsn arf vf cap ab))).(statuses) !! id'
          <> Some InProgress.
Proof.
  split.
  2: { intros id'. cbn [resolve_all_in_progress_as_aborted statuses]. rewrite lookup_fmap.
       by destruct (_ !! id') as [[]|]. }
  unfold status, Clog_view in *. rewrite resolve_status by done.
  assert (Hf : live_floor c vf cap ab <= id).
  { apply N.nlt_ge. intros Hf. by destruct (live_floor_pinned c vf cap ab id Hid H3 Hf). }
  pose proof (proj2 (elem_of_live_in_progress c lsn arf vf cap ab id)) as Hin.
  unfold from_snapshot at 1. cbn [statuses]. rewrite lookup_insert_all.
  rewrite bool_decide_eq_true_2; [done|]. apply Hin. auto.
Qed.

(** ** Witnesses *)

Definition demo_clog : Clog :=
  set_in_progress (set_aborted (set_committed (set_aborted Clog_new 3) 4) 5) 6.

Lemma demo_clog_ok : clog_ok demo_clog.
Proof.
  unfold demo_clog, set_in_progress, set_aborted, set_committed.
  repeat apply clog_ok_set; simpl; try (vm_compute; discriminate).
  split; [vm_compute; discriminate|]. intros id st. simpl. by rewrite lookup_empty.
Defined.

Lemma checkpoint_forgets_only_settled_witness :
  status (from_snapshot (live_snapshot demo_clog 100 90 4 [6] 8)) 3 = Committed /\
  3 < live_floor demo_clog 4 [6] 8 /\ 3 ∉ [6] /\
  ((status demo_clog 3 = Aborted /\ 3 < 4) \/ demo_clog.(statuses) !! 3 = None).
Proof.
  apply (checkpoint_forgets_only_settled demo_clog 100 90 4 [6] 8 3 demo_clog_ok).
  vm_compute. discriminate.
Defined.

Lemma crash_recovery_aborts_active_witness :
  status (resolve_all_in_progress_as_aborted
            (from_snapshot (live_snapshot demo_clog 100 90 4 [6; 7] 8))) 7 = Aborted.
Proof.
  eapply proj1, (crash_recovery_aborts_active demo_clog 100 90 4 [6; 7] 8 7);
    [vm_compute; discriminate|vm_compute; discriminate| |vm_compute; reflexivity].
  right. left.
Defined.
