(* ===== verification/CheckedBytes.v ===== *)
(** * Checked byte readers (src/crates/common/src/checked_bytes.rs)

    Byte strings are lists of [N] below 256.  The little-endian and big-endian
    codecs of Rust's integer types, and [CheckedSliceReader], the forward-only
    reader every durable decoder of the program is built on. *)

From S2P Require Import Prelude.
Local Open Scope N_scope.

Abbreviation bytes := (list N) (only parsing).

Definition is_byte (b : N) : Prop := b < 256.
Definition bytes_ok (l : bytes) : Prop := Forall is_byte l.

(** [slice.len()]. *)
Definition len {A} (l : list A) : N := N.of_nat (length l).

(** ** Integer codecs of the standard library *)

(** [to_le_bytes] of an unsigned integer of [n] bytes. *)
Fixpoint to_le_bytes (n : nat) (v : N) : bytes :=
  match n with
  | O => []
  | S n => v mod 256 :: to_le_bytes n (v / 256)
  end.

(** [from_le_bytes]. *)
Fixpoint from_le_bytes (l : bytes) : N :=
  match l with
  | [] => 0
  | b :: l => b + 256 * from_le_bytes l
  end.

Definition to_be_bytes (n : nat) (v : N) : bytes := rev (to_le_bytes n v).
Definition from_be_bytes (l : bytes) : N := from_le_bytes (rev l).

(** Two's complement reading of an [n]-byte word. *)
Definition to_signed (n : nat) (v : N) : Z :=
  if v <? 2 ^ (8 * N.of_nat n - 1) then Z.of_N v
  else (Z.of_N v - 2 ^ (8 * Z.of_nat n))%Z.
Definition of_signed (n : nat) (z : Z) : N := Z.to_N (z mod 2 ^ (8 * Z.of_nat n)).

Lemma length_to_le_bytes n v : length (to_le_bytes n v) = n.
Proof. revert v; induction n; intros v; simpl; auto. Qed.

Lemma to_le_bytes_ok n v : bytes_ok (to_le_bytes n v).
Proof.
  revert v; induction n as [|n IH]; intros v; simpl; constructor; [|apply IH].
  unfold is_byte. apply N.mod_lt. lia.
Qed.

Lemma from_to_le_bytes n v : v < 256 ^ N.of_nat n -> from_le_bytes (to_le_bytes n v) = v.
Proof.
  revert v; induction n as [|n IH]; intros v Hv; cbn [to_le_bytes from_le_bytes].
  - change (256 ^ N.of_nat 0) with 1 in Hv. lia.
  - rewrite IH; [pose proof (N.div_mod v 256); lia|].
    rewrite Nat2N.inj_succ, N.pow_succ_r' in Hv. apply N.Div0.div_lt_upper_bound. lia.
Qed.

Lemma from_le_bytes_bound l : bytes_ok l -> from_le_bytes l < 256 ^ len l.
Proof.
  unfold len. induction 1 as [|b l Hb Hl IH]; cbn [from_le_bytes length].
  - change (256 ^ N.of_nat 0) with 1. lia.
  - rewrite Nat2N.inj_succ, N.pow_succ_r'. unfold is_byte in Hb. lia.
Qed.

Lemma to_from_le_bytes l : bytes_ok l -> to_le_bytes (length l) (from_le_bytes l) = l.
Proof.
  induction 1 as [|b l Hb Hl IH]; cbn [from_le_bytes length to_le_bytes]; [done|].
  unfold is_byte in Hb. f_equal.
  - rewrite N.mul_comm, N.Div0.mod_add. by apply N.mod_small.
  - rewrite N.mul_comm, N.div_add by lia. by rewrite N.div_small.
Qed.

(** ** The reader *)

Inductive SliceReadErrorKind : Set :=
  | PositionOutOfBounds | LengthOverflow | Truncated | TrailingBytes.

Record SliceReadError : Type := mkSliceReadError {
  sre_kind : SliceReadErrorKind;
  sre_position : N;
  sre_requested : N;
  sre_remaining : N
}.

(** [impl Display for SliceReadError]. *)
Definition display_slice_error (e : SliceReadError) : string :=
  match e.(sre_kind) with
  | PositionOutOfBounds =>
      "byte position " +:+ pretty e.(sre_position) +:+ " is outside the input"
  | LengthOverflow =>
      "byte range at " +:+ pretty e.(sre_position) +:+ " with length "
      +:+ pretty e.(sre_requested) +:+ " overflows"
  | Truncated =>
      "byte range at " +:+ pretty e.(sre_position) +:+ " needs "
      +:+ pretty e.(sre_requested) +:+ " bytes but only "
      +:+ pretty e.(sre_remaining) +:+ " remain"
  | TrailingBytes =>
      pretty e.(sre_remaining) +:+ " trailing bytes remain at position "
      +:+ pretty e.(sre_position)
  end.

Record CheckedSliceReader : Type := mkReader {
  r_bytes : bytes;
  r_position : N
}.

(** [usize] is 64 bits wide on the platforms the server supports. *)
Definition USIZE_MAX : N := U64_MAX.

Definition reader_new (b : bytes) : CheckedSliceReader := mkReader b 0.

Definition reader_at (b : bytes) (position : N) : result SliceReadError CheckedSliceReader :=
  if len b <? position then Err (mkSliceReadError PositionOutOfBounds position 0 0)
  else Ok (mkReader b position).

Definition remaining (r : CheckedSliceReader) : N := len r.(r_bytes) - r.(r_position).

(** [bytes.get(start..end)]. *)
Definition get_range (b : bytes) (start stop : N) : option bytes :=
  if (start <=? stop) && (stop <=? len b)
  then Some (take (N.to_nat (stop - start)) (drop (N.to_nat start) b))
  else None.

Definition reader_take (r : CheckedSliceReader) (n : N)
    : result SliceReadError (bytes * CheckedSliceReader) :=
  let rem := remaining r in
  stop ← ok_or (checked_add USIZE_MAX r.(r_position) n)
           (mkSliceReadError LengthOverflow r.(r_position) n rem);
  value ← ok_or (get_range r.(r_bytes) r.(r_position) stop)
           (mkSliceReadError Truncated r.(r_position) n rem);
  Ok (value, mkReader r.(r_bytes) stop).

Definition take_remaining (r : CheckedSliceReader) := reader_take r (remaining r).

(** [read_array::<N>]: [take] returned exactly [N] bytes, so the conversion to an
    array cannot fail; the error it would build is kept. *)
Definition read_array (r : CheckedSliceReader) (n : N)
    : result SliceReadError (bytes * CheckedSliceReader) :=
  '(b, r') ← reader_take r n;
  if len b =? n then Ok (b, r')
  else Err (mkSliceReadError Truncated r.(r_position) n (len b)).

Definition read_u8 (r : CheckedSliceReader) : result SliceReadError (N * CheckedSliceReader) :=
  '(b, r') ← read_array r 1; Ok (from_le_bytes b, r').
Definition read_u16_le (r : CheckedSliceReader) : result SliceReadError (N * CheckedSliceReader) :=
  '(b, r') ← read_array r 2; Ok (from_le_bytes b, r').
Definition read_u32_le (r : CheckedSliceReader) : result SliceReadError (N * CheckedSliceReader) :=
  '(b, r') ← read_array r 4; Ok (from_le_bytes b, r').
Definition read_u64_le (r : CheckedSliceReader) : result SliceReadError (N * CheckedSliceReader) :=
  '(b, r') ← read_array r 8; Ok (from_le_bytes b, r').
Definition read_i16_be (r : CheckedSliceReader) : result SliceReadError (Z * CheckedSliceReader) :=
  '(b, r') ← read_array r 2; Ok (to_signed 2 (from_be_bytes b), r').
Definition read_i32_be (r : CheckedSliceReader) : result SliceReadError (Z * CheckedSliceReader) :=
  '(b, r') ← read_array r 4; Ok (to_signed 4 (from_be_bytes b), r').

Definition finish (r : CheckedSliceReader) : result SliceReadError unit :=
  if remaining r =? 0 then Ok ()
  else Err (mkSliceReadError TrailingBytes r.(r_position) 0 (remaining r)).

(** ** Lemmas *)

(** The reader stands before [rest] in a slice that fits the address space. *)
Definition reads (r : CheckedSliceReader) (rest : bytes) : Prop :=
  r.(r_position) <= len r.(r_bytes) /\ len r.(r_bytes) <= USIZE_MAX /\
  drop (N.to_nat r.(r_position)) r.(r_bytes) = rest.

Lemma reads_new b : len b <= USIZE_MAX -> reads (reader_new b) b.
Proof. intros. split_and!; simpl; [lia|done|done]. Qed.

Lemma reads_remaining r rest : reads r rest -> remaining r = len rest.
Proof. intros (Hp & _ & <-). unfold remaining, len in *. rewrite length_drop. lia. Qed.

Lemma reader_take_app r a rest n :
  reads r (a ++ rest) -> n = len a ->
  exists r', reader_take r n = Ok (a, r') /\ reads r' rest.
Proof.
  intros (Hp & Hm & Hd) ->. unfold reader_take.
  assert (Hl : r_position r + len a <= len (r_bytes r)).
  { apply (f_equal length) in Hd. rewrite length_drop, length_app in Hd. unfold len in *. lia. }
  unfold checked_add. destruct (N.leb_spec (r_position r + len a) USIZE_MAX); [|lia]. simpl.
  unfold get_range. destruct (N.leb_spec (r_position r) (r_position r + len a)); [|lia].
  apply N.leb_le in Hl as Hl'. rewrite Hl'. simpl.
  replace (r_position r + len a - r_position r) with (len a) by lia.
  rewrite Hd. unfold len at 1. rewrite Nat2N.id, take_app_length.
  eexists. split; [reflexivity|]. split_and!; simpl; [done|done|].
  rewrite N2Nat.inj_add. unfold len. rewrite Nat2N.id, <- drop_drop, Hd, drop_app_length. done.
Qed.

(** A successful [take] returns the next [n] bytes and leaves the rest. *)
Lemma reader_take_Ok r rest n a r' :
  reads r rest -> reader_take r n = Ok (a, r') ->
  exists rest', rest = a ++ rest' /\ len a = n /\ reads r' rest'.
Proof.
  intros (Hp & Hm & Hd). unfold reader_take, checked_add.
  destruct (N.leb_spec (r_position r + n) USIZE_MAX); simpl; [|done].
  unfold get_range. destruct (N.leb_spec (r_position r) (r_position r + n)); [|lia].
  destruct (N.leb_spec (r_position r + n) (len (r_bytes r))) as [Hl|Hl]; simpl; [|done].
  intros [= <- <-]. replace (r_position r + n - r_position r) with n by lia.
  rewrite Hd. exists (drop (N.to_nat n) rest). split_and!.
  - by rewrite take_drop.
  - unfold len. rewrite length_take. apply (f_equal length) in Hd. rewrite length_drop in Hd.
    unfold len in *. lia.
  - split_and!; simpl; [done|done|]. by rewrite N2Nat.inj_add, <- drop_drop, Hd.
Qed.

Lemma reader_take_Err r rest n :
  reads r rest -> len rest < n -> exists e, reader_take r n = Err e.
Proof.
  intros Hr Hlt. destruct (reader_take r n) as [[a r']|e] eqn:E; [|eauto].
  destruct (reader_take_Ok _ _ _ _ _ Hr E) as (rest' & -> & <- & _).
  unfold len in Hlt. rewrite length_app in Hlt. lia.
Qed.

Lemma read_array_app r a rest n :
  reads r (a ++ rest) -> n = len a ->
  exists r', read_array r n = Ok (a, r') /\ reads r' rest.
Proof.
  intros Hr Hn. destruct (reader_take_app _ _ _ _ Hr Hn) as (r' & E & Hr').
  exists r'. split; [|done]. unfold read_array. rewrite E. simpl. subst. by rewrite N.eqb_refl.
Qed.

Lemma read_le_app (k : nat) r v rest :
  reads r (to_le_bytes k v ++ rest) -> v < 256 ^ N.of_nat k ->
  exists r', ('(b, r') ← read_array r (N.of_nat k); Ok (from_le_bytes b, r')) =
             (Ok (v, r') : result SliceReadError _) /\ reads r' rest.
Proof.
  intros Hr Hv. destruct (read_array_app r (to_le_bytes k v) rest (N.of_nat k) Hr) as (r' & E & Hr').
  { unfold len. by rewrite length_to_le_bytes. }
  exists r'. split; [|done]. rewrite E. simpl. by rewrite from_to_le_bytes.
Qed.

Lemma read_u32_le_app r v rest :
  reads r (to_le_bytes 4 v ++ rest) -> v <= U32_MAX ->
  exists r', read_u32_le r = Ok (v, r') /\ reads r' rest.
Proof. intros Hr Hv. apply (read_le_app 4 r v rest Hr). unfold U32_MAX in Hv. simpl. lia. Qed.

Lemma read_u64_le_app r v rest :
  reads r (to_le_bytes 8 v ++ rest) -> v <= U64_MAX ->
  exists r', read_u64_le r = Ok (v, r') /\ reads r' rest.
Proof. intros Hr Hv. apply (read_le_app 8 r v rest Hr). unfold U64_MAX in Hv. simpl. lia. Qed.

Lemma read_u16_le_app r v rest :
  reads r (to_le_bytes 2 v ++ rest) -> v <= U16_MAX ->
  exists r', read_u16_le r = Ok (v, r') /\ reads r' rest.
Proof. intros Hr Hv. apply (read_le_app 2 r v rest Hr). unfold U16_MAX in Hv. simpl. lia. Qed.

Lemma read_u8_app r v rest :
  reads r (v :: rest) -> v <= U8_MAX ->
  exists r', read_u8 r = Ok (v, r') /\ reads r' rest.
Proof.
  intros Hr Hv. destruct (read_array_app r [v] rest 1 Hr eq_refl) as (r' & E & Hr').
  exists r'. split; [|done]. unfold read_u8. rewrite E. simpl. f_equal. f_equal. lia.
Qed.

Lemma finish_nil r : reads r [] -> finish r = Ok ().
Proof. intros Hr. unfold finish. by rewrite (reads_remaining _ _ Hr). Qed.

#[export] Hint Resolve reads_new finish_nil to_le_bytes_ok : saguaro.

(** ** Properties *)

(** The reader never reads outside its slice: [take n] succeeds exactly when
    [n] bytes remain, returns precisely the next [n] bytes and stands before the
    remaining ones. *)
Theorem reader_take_spec r rest n (Hr : reads r rest) :
  match reader_take r n with
  | Ok (a, r') => n <= len rest /\ exists rest', rest = a ++ rest' /\ len a = n /\ reads r' rest'
  | Err e => len rest < n
  end.
Proof.
  destruct (reader_take r n) as [[a r']|e] eqn:E.
  - destruct (reader_take_Ok _ _ _ _ _ Hr E) as (rest' & -> & Hl & Hr').
    split; [unfold len in *; rewrite length_app; lia|eauto].
  - apply N.nle_gt. intros Hle.
    destruct (reader_take_app r (take (N.to_nat n) rest) (drop (N.to_nat n) rest) n) as (r' & E' & _).
    + by rewrite take_drop.
    + unfold len in *. rewrite length_take. lia.
    + congruence.
Qed.

Lemma reader_take_spec_witness :
  match reader_take (mkReader [1; 2; 3] 1) 2 with
  | Ok (a, r') => 2 <= len [2; 3] /\ exists rest', [2; 3] = a ++ rest' /\ len a = 2 /\ reads r' rest'
  | Err e => len [2; 3] < 2
  end.
Proof.
  apply (reader_take_spec (mkReader [1; 2; 3] 1) [2; 3] 2).
  split_and!; [vm_compute; discriminate|vm_compute; discriminate|reflexivity].
Defined.
