(* ===== verification/ByteArray.v ===== *)
(** * Byte arrays

    Lengths and ranges of byte strings, and the indexed reads and writes of a fixed
    array ([\[u8; N\]]): [sub] is [&a\[o..o + n\]], [blit] is
    [a\[o..o + b.len()\].copy_from_slice(b)] in bounds.  A range that is out of bounds
    panics in Rust, which is the outcome [Panicked] here. *)

From S2P Require Import Prelude Errors CheckedBytes.
Local Open Scope N_scope.

Lemma len_app {A} (a b : list A) : len (a ++ b) = len a + len b.
Proof. unfold len. rewrite length_app. lia. Qed.
Lemma len_le_bytes n v : len (to_le_bytes n v) = N.of_nat n.
Proof. unfold len. by rewrite length_to_le_bytes. Qed.
Lemma len_cons {A} (x : A) l : len (x :: l) = 1 + len l.
Proof. unfold len. simpl length. lia. Qed.

(** ** Ranges *)

(** The bytes [o .. o + n) of a stream. *)
Definition sub (s : bytes) (o n : N) : bytes := take (N.to_nat n) (drop (N.to_nat o) s).

Lemma len_sub s o n : len (sub s o n) = N.min n (len s - o).
Proof. unfold sub, len. rewrite length_take, length_drop. lia. Qed.

Lemma sub_app_l s c o n : o + n <= len s -> sub (s ++ c) o n = sub s o n.
Proof.
  unfold sub, len. intros H. rewrite drop_app_le by lia. rewrite take_app_le; [done|].
  rewrite length_drop. lia.
Qed.

Lemma sub_app_tail s c o n :
  o <= len s -> len s + len c <= o + n -> sub (s ++ c) o n = sub s o n ++ c.
Proof.
  unfold sub, len. intros H1 H2. rewrite drop_app_le by lia.
  rewrite !take_ge by (rewrite ?length_app, ?length_drop; lia). done.
Qed.

Lemma sub_sub s o n o' n' : o' + n' <= n -> sub (sub s o n) o' n' = sub s (o + o') n'.
Proof.
  unfold sub. intros H. rewrite skipn_firstn_comm, drop_drop, take_take. f_equal; [lia|].
  f_equal. lia.
Qed.

Lemma sub_split s o n m : sub s o n ++ sub s (o + n) m = sub s o (n + m).
Proof.
  unfold sub. rewrite !N2Nat.inj_add. rewrite <- drop_drop.
  by rewrite take_take_drop.
Qed.

Lemma sub_all s n : len s <= n -> sub s 0 n = s.
Proof. unfold sub, len. intros. rewrite drop_0. by rewrite take_ge by lia. Qed.

Lemma sub_past s o n : len s <= o -> sub s o n = [].
Proof. unfold sub, len. intros. rewrite drop_ge by lia. by destruct (N.to_nat n). Qed.

Lemma sub_take s o n k : o + n <= k -> sub (take (N.to_nat k) s) o n = sub s o n.
Proof.
  unfold sub. intros H. rewrite skipn_firstn_comm, take_take. f_equal. lia.
Qed.

Lemma sub_0 s o : sub s o 0 = [].
Proof. done. Qed.

Lemma bytes_ok_sub s o n : bytes_ok s -> bytes_ok (sub s o n).
Proof. intros H. unfold sub. by apply Forall_take, Forall_drop. Qed.

(** ** Writes *)

Definition blit (d : bytes) (o : N) (b : bytes) : bytes :=
  take (N.to_nat o) d ++ b ++ drop (N.to_nat (o + len b)) d.

Lemma len_take {A} (n : N) (l : list A) : len (take (N.to_nat n) l) = N.min n (len l).
Proof. unfold len. rewrite length_take. lia. Qed.
Lemma len_drop {A} (n : N) (l : list A) : len (drop (N.to_nat n) l) = len l - n.
Proof. unfold len. rewrite length_drop. lia. Qed.

Lemma len_blit d o b : o + len b <= len d -> len (blit d o b) = len d.
Proof. intros H. unfold blit. rewrite !len_app, len_take, len_drop. lia. Qed.

Lemma sub_app_r s c o n : len s <= o -> sub (s ++ c) o n = sub c (o - len s) n.
Proof.
  unfold sub, len. intros H. rewrite drop_app_ge by lia.
  by replace (N.to_nat o - length s)%nat with (N.to_nat (o - N.of_nat (length s))) by lia.
Qed.

Lemma sub_drop s k o n : sub (drop (N.to_nat k) s) o n = sub s (k + o) n.
Proof. unfold sub. rewrite drop_drop, N2Nat.inj_add. done. Qed.

Lemma sub_blit_same d o b : o + len b <= len d -> sub (blit d o b) o (len b) = b.
Proof.
  intros H. unfold blit. rewrite sub_app_r by (rewrite len_take; lia). rewrite len_take.
  replace (o - N.min o (len d)) with 0 by lia. rewrite sub_app_l by lia. by apply sub_all.
Qed.

Lemma sub_blit_before d o b o' n : o + len b <= len d -> o' + n <= o -> sub (blit d o b) o' n = sub d o' n.
Proof.
  intros H H'. unfold blit. rewrite sub_app_l by (rewrite len_take; lia). by apply sub_take.
Qed.

Lemma sub_blit_after d o b o' n : o + len b <= len d -> o + len b <= o' -> sub (blit d o b) o' n = sub d o' n.
Proof.
  intros H H'. unfold blit. rewrite app_assoc, sub_app_r; rewrite len_app, len_take; [|lia].
  rewrite sub_drop. f_equal. lia.
Qed.

(** A write does not touch the ranges it does not meet. *)
Lemma sub_blit_ne d o b o' n :
  o + len b <= len d -> o' + n <= o \/ o + len b <= o' -> sub (blit d o b) o' n = sub d o' n.
Proof. intros H [H'|H']; [by apply sub_blit_before|by apply sub_blit_after]. Qed.

(** Writes one behind the other are one write. *)
Lemma blit_app d o a b : o <= len d -> blit (blit d o a) (o + len a) b = blit d o (a ++ b).
Proof.
  intros H. unfold blit. rewrite (app_assoc (take (N.to_nat o) d)).
  assert (Hl : len (take (N.to_nat o) d ++ a) = o + len a) by (rewrite len_app, len_take; lia).
  rewrite take_app_length' by (unfold len in *; lia).
  rewrite drop_app_ge by (unfold len in *; lia). rewrite drop_drop, len_app, <- !app_assoc. do 4 f_equal.
  unfold len in *. lia.
Qed.

(** A write inside a range is the same write in that range. *)
Lemma sub_blit_in d o b o' n :
  o + len b <= len d -> o' <= o -> o + len b <= o' + n -> o' + n <= len d ->
  sub (blit d o b) o' n = blit (sub d o' n) (o - o') b.
Proof.
  intros H H1 H2 H3.
  replace n with ((o - o') + (len b + (o' + n - (o + len b)))) at 1 by lia.
  rewrite <- !sub_split. rewrite sub_blit_before by lia.
  replace (o' + (o - o')) with o by lia. rewrite sub_blit_same by done. rewrite sub_blit_after by lia.
  unfold blit. f_equal; [|f_equal].
  - fold (sub d o' (o - o')). unfold sub. rewrite take_take. f_equal. lia.
  - unfold sub. rewrite skipn_firstn_comm, drop_drop. f_equal; [|f_equal]; unfold len in *; lia.
Qed.

Lemma bytes_ok_app a b : bytes_ok a -> bytes_ok b -> bytes_ok (a ++ b).
Proof. intros. by apply Forall_app. Qed.

Lemma bytes_ok_blit d o b : bytes_ok d -> bytes_ok b -> bytes_ok (blit d o b).
Proof.
  intros Hd Hb. unfold blit, bytes_ok. rewrite !Forall_app. split_and!; [by apply Forall_take|done|by apply Forall_drop].
Qed.

(** ** Integers at an offset *)

Definition read_le (k : nat) (d : bytes) (o : N) : N := from_le_bytes (sub d o (N.of_nat k)).
Definition write_le (k : nat) (d : bytes) (o v : N) : bytes := blit d o (to_le_bytes k v).

Lemma len_write_le k d o v : o + N.of_nat k <= len d -> len (write_le k d o v) = len d.
Proof. intros H. unfold write_le. by rewrite len_blit by (by rewrite len_le_bytes). Qed.

Lemma read_write_le k d o v :
  o + N.of_nat k <= len d -> v < 256 ^ N.of_nat k -> read_le k (write_le k d o v) o = v.
Proof.
  intros H Hv. unfold read_le, write_le. rewrite <- (len_le_bytes k v).
  rewrite sub_blit_same by (by rewrite len_le_bytes). by apply from_to_le_bytes.
Qed.

Lemma sub_write_le_ne k d o v o' n :
  o + N.of_nat k <= len d -> o' + n <= o \/ o + N.of_nat k <= o' -> sub (write_le k d o v) o' n = sub d o' n.
Proof. intros H H'. apply sub_blit_ne; by rewrite len_le_bytes. Qed.

Lemma read_write_le_ne k j d o v o' :
  o + N.of_nat k <= len d -> o' + N.of_nat j <= o \/ o + N.of_nat k <= o' ->
  read_le j (write_le k d o v) o' = read_le j d o'.
Proof. intros H H'. unfold read_le. by rewrite sub_write_le_ne. Qed.

Lemma read_le_bound k d o : bytes_ok d -> o + N.of_nat k <= len d -> read_le k d o < 256 ^ N.of_nat k.
Proof.
  intros Hd H. unfold read_le. replace (256 ^ N.of_nat k) with (256 ^ len (sub d o (N.of_nat k))).
  - by apply from_le_bytes_bound, bytes_ok_sub.
  - f_equal. rewrite len_sub. lia.
Qed.

Lemma blit_sub d o n : o + n <= len d -> blit d o (sub d o n) = d.
Proof.
  intros H. unfold blit. rewrite len_sub. replace (N.min n (len d - o)) with n by lia. unfold sub.
  rewrite N2Nat.inj_add, <- drop_drop, take_drop. by rewrite take_drop.
Qed.

Lemma write_read_le k d o : bytes_ok d -> o + N.of_nat k <= len d -> write_le k d o (read_le k d o) = d.
Proof.
  intros Hd H. unfold write_le, read_le.
  assert (E : to_le_bytes k (from_le_bytes (sub d o (N.of_nat k))) = sub d o (N.of_nat k)); [|rewrite E; by apply blit_sub].
  pose proof (to_from_le_bytes (sub d o (N.of_nat k)) (bytes_ok_sub _ _ _ Hd)) as Hr.
  assert (Hk : length (sub d o (N.of_nat k)) = k) by (pose proof (len_sub d o (N.of_nat k)); unfold len in *; lia).
  by rewrite Hk in Hr.
Qed.

Lemma bytes_ok_write_le k d o v : bytes_ok d -> bytes_ok (write_le k d o v).
Proof. intros. apply bytes_ok_blit; [done|apply to_le_bytes_ok]. Qed.

#[export] Hint Resolve bytes_ok_sub bytes_ok_blit bytes_ok_write_le : saguaro.

(** Solves that a range lies in an array after a sequence of writes. *)
Ltac in_array :=
  repeat match goal with
  | |- context [len (write_le ?k ?d ?o ?v)] => rewrite (len_write_le k d o v) by in_array
  | |- context [len (blit ?d ?o ?b)] => rewrite (len_blit d o b) by in_array
  end; rewrite ?len_sub, ?len_le_bytes; cbn [N.of_nat Pos.of_succ_nat Pos.succ]; lia.

(** Reads the fields of an array after a sequence of writes. *)
Ltac read_fields :=
  repeat match goal with
  | |- context [read_le ?k (write_le ?k ?d ?o ?v) ?o] => rewrite (read_write_le k d o v) by in_array
  | |- context [read_le ?j (write_le ?k ?d ?o ?v) ?o'] => rewrite (read_write_le_ne k j d o v o') by in_array
  | |- context [sub (write_le ?k ?d ?o ?v) ?o' ?n] => rewrite (sub_write_le_ne k d o v o' n) by in_array
  end.

(** ** Panics *)

(** How an operation on an array fails: with an error it returns, or by a panic. *)
Inductive Fault : Type :=
  | Raised (e : DbError)
  | Panicked.

(** [?] on a [Result] of the program. *)
Definition raise {A} (m : result DbError A) : result Fault A := map_err Raised m.

(** [&d\[start..stop\]]. *)
Definition slice (d : bytes) (start stop : N) : result Fault bytes :=
  ok_or (get_range d start stop) Panicked.

(** [d\[start..stop\].copy_from_slice(b)]: the range must lie in the array and have the
    length of [b]. *)
Definition copy_from_slice (d : bytes) (start stop : N) (b : bytes) : result Fault bytes :=
  if (start <=? stop) && (stop <=? len d) && (stop - start =? len b) then Ok (blit d start b) else Err Panicked.

Lemma slice_Ok d start stop :
  start <= stop -> stop <= len d -> slice d start stop = Ok (sub d start (stop - start)).
Proof.
  intros H1 H2. unfold slice, get_range. by rewrite (proj2 (N.leb_le _ _) H1), (proj2 (N.leb_le _ _) H2).
Qed.

Lemma copy_from_slice_Ok d o b :
  o + len b <= len d -> copy_from_slice d o (o + len b) b = Ok (blit d o b).
Proof.
  intros H. unfold copy_from_slice. rewrite (proj2 (N.leb_le o (o + len b))) by lia.
  rewrite (proj2 (N.leb_le _ _) H). replace (o + len b - o) with (len b) by lia. by rewrite N.eqb_refl.
Qed.

Lemma copy_from_slice_inv d start stop b d' :
  copy_from_slice d start stop b = Ok d' -> stop = start + len b /\ stop <= len d /\ d' = blit d start b.
Proof.
  unfold copy_from_slice. destruct (_ && _) eqn:E; [|done]. intros [= <-]. to_prop. split_and!; lia || done.
Qed.
