(* ===== verification/ClogFile.v ===== *)
(** * The durable CLOG snapshot (src/crates/wal/src/clog_file.rs)

    The [clog.dat] envelope: magic, version, payload length and checksum over a
    serialized payload, and the canonical-form validation of its status lists.
    The checksum ([crc32fast]) and the payload serializer ([serde_json]) are
    parameters; allocation is assumed to succeed. *)

From S2P Require Import Prelude Errors Mvcc CheckedBytes Clog.
Local Open Scope N_scope.

Definition CLOG_MAGIC : bytes := [83; 71; 67; 76]. (* SGCL *)
Definition CLOG_VERSION : N := 3.
Definition CLOG_HEADER_LEN : N := 16.
Definition MAX_CLOG_PAYLOAD_BYTES : N := 64 * 1024 * 1024.
Definition MAX_CLOG_STATUS_COUNT : N := 1000000.

Definition corrupt_clog (m : string) : DbError := db_storage InternalError m.

(** ** Validation of the status lists *)

(** [list.windows(2).any(|pair| left >= right)], negated. *)
Fixpoint strictly_increasing (l : list TxnId) : bool :=
  match l with
  | x :: ((y :: _) as l') => negb (y <=? x) && strictly_increasing l'
  | _ => true
  end.

(** The peekable merge over two lists: [true] when it reaches an end without
    meeting equal heads. *)
Fixpoint walk_disjoint (left : list TxnId) : list TxnId -> bool :=
  fix walk (right : list TxnId) : bool :=
    match left, right with
    | l :: left', r :: right' =>
        match N.compare l r with
        | Lt => walk_disjoint left' right
        | Gt => walk right'
        | Eq => false
        end
    | _, _ => true
    end.

Definition validate_status_lists (floor : TxnId) (l1 l2 l3 : list TxnId) : DbResult unit :=
  if negb (strictly_increasing l1 && strictly_increasing l2 && strictly_increasing l3)
  then Err (corrupt_clog "CLOG status lists must be sorted without duplicates")
  else if existsb (fun id => id <? floor) (l1 ++ l2 ++ l3)
  then Err (corrupt_clog "CLOG explicit status is below the committed floor")
  else if negb (walk_disjoint l1 l2 && walk_disjoint l1 l3 && walk_disjoint l2 l3)
  then Err (corrupt_clog "CLOG status lists must be mutually disjoint")
  else Ok ().

Definition read_u32 (r : CheckedSliceReader) (field : string)
    : DbResult (N * CheckedSliceReader) :=
  map_err (fun _ => corrupt_clog (field +:+ " is incomplete")) (read_u32_le r).

Section Envelope.
(** [crc32fast::hash] and the [serde_json] codec of the payload. *)
Context (crc32 : bytes -> N).
Context (json_to_vec : ClogSnapshot -> result string bytes).
Context (json_from_slice : bytes -> result string ClogSnapshot).

Definition encode_clog (s : ClogSnapshot) : DbResult bytes :=
  if (MAX_CLOG_STATUS_COUNT <? len s.(cs_committed))
     || (MAX_CLOG_STATUS_COUNT <? len s.(cs_aborted))
     || (MAX_CLOG_STATUS_COUNT <? len s.(cs_in_progress))
  then Err (corrupt_clog "CLOG status list exceeds the item limit")
  else
    payload_bytes ← map_err (fun e => corrupt_clog ("failed to encode CLOG payload: " +:+ e))
                      (json_to_vec s);
    if MAX_CLOG_PAYLOAD_BYTES <? len payload_bytes
    then Err (corrupt_clog "CLOG payload exceeds 64 MiB")
    else if U32_MAX <? len payload_bytes
    then Err (corrupt_clog "CLOG payload is too large")
    else
      let checksum := crc32 payload_bytes in
      _ ← ok_or (checked_add USIZE_MAX CLOG_HEADER_LEN (len payload_bytes))
            (corrupt_clog "CLOG envelope length overflows");
      Ok (CLOG_MAGIC ++ to_le_bytes 4 CLOG_VERSION
          ++ to_le_bytes 4 (len payload_bytes) ++ to_le_bytes 4 checksum ++ payload_bytes).

Definition decode_clog (b : bytes) : DbResult ClogSnapshot :=
  if len b <? CLOG_HEADER_LEN then Err (corrupt_clog "CLOG file is too short")
  else
    let r := reader_new b in
    '(magic, r) ← map_err (fun _ => corrupt_clog "CLOG file is too short")
                    (reader_take r (len CLOG_MAGIC));
    if bool_decide (magic <> CLOG_MAGIC) then Err (corrupt_clog "CLOG file magic mismatch")
    else
      '(version, r) ← read_u32 r "CLOG file version";
      if negb (version =? CLOG_VERSION)
      then Err (corrupt_clog ("unsupported CLOG file version " +:+ pretty version))
      else
        '(payload_len, r) ← read_u32 r "CLOG file payload length";
        if MAX_CLOG_PAYLOAD_BYTES <? payload_len
        then Err (corrupt_clog "CLOG payload exceeds 64 MiB")
        else
          '(expected_checksum, r) ← read_u32 r "CLOG file checksum";
          if negb (remaining r =? payload_len)
          then Err (corrupt_clog "CLOG file length mismatch")
          else
            '(payload_bytes, r) ← map_err (fun _ => corrupt_clog "CLOG file length mismatch")
                                    (reader_take r payload_len);
            _ ← map_err (fun _ => corrupt_clog "CLOG file length mismatch") (finish r);
            if negb (crc32 payload_bytes =? expected_checksum)
            then Err (corrupt_clog "CLOG file checksum mismatch")
            else
              payload ← map_err (fun e => corrupt_clog ("failed to decode CLOG payload: " +:+ e))
                          (json_from_slice payload_bytes);
              if payload.(cs_clog_lsn) <? payload.(cs_authorized_replay_floor)
              then Err (corrupt_clog "authorized replay floor is beyond CLOG LSN")
              else
                _ ← validate_status_lists payload.(cs_committed_floor)
                      payload.(cs_committed) payload.(cs_aborted) payload.(cs_in_progress);
                Ok payload.

(** ** Lemmas *)

Lemma strictly_increasing_spec l :
  StronglySorted N.le l -> NoDup l -> strictly_increasing l = true.
Proof.
  induction l as [|x [|y l] IH]; intros HS HN; [done|done|].
  apply StronglySorted_inv in HS as [HS HF]. apply NoDup_cons in HN as [HN1 HN2].
  change (negb (y <=? x) && strictly_increasing (y :: l) = true).
  rewrite IH by done. rewrite andb_true_r, negb_true_iff, N.leb_gt.
  apply Forall_cons in HF as [Hle _]. enough (x <> y) by lia. intros ->. apply HN1. constructor.
Qed.

Lemma walk_disjoint_spec l1 l2 :
  (forall x, x ∈ l1 -> x ∈ l2 -> False) -> walk_disjoint l1 l2 = true.
Proof.
  revert l2. induction l1 as [|x l1 IH1]; [by intros []|].
  induction l2 as [|y l2 IH2]; [done|]. intros Hd. simpl.
  destruct (N.compare_spec x y) as [->|Hlt|Hgt].
  - exfalso. apply (Hd y); constructor.
  - apply IH1. intros z Hz1 Hz2. apply (Hd z); [by constructor|done].
  - apply IH2. intros z Hz1 Hz2. apply (Hd z); [done|by constructor].
Qed.

(** The lists a checkpoint writes are in canonical form. *)
Lemma validate_live_snapshot c lsn arf vf cap ab :
  let s := live_snapshot c lsn arf vf cap ab in
  validate_status_lists s.(cs_committed_floor)
    s.(cs_committed) s.(cs_aborted) s.(cs_in_progress) = Ok ().
Proof.
  cbv zeta. set (s := live_snapshot c lsn arf vf cap ab).
  assert (Hsort : forall l, StronglySorted N.le (merge_sort N.le l)).
  { intros l. apply StronglySorted_merge_sort; [intros ???; apply N.le_trans|].
    intros x y. destruct (N.le_ge_cases x y); auto. }
  assert (Hnd : forall f st, NoDup (recorded_ids c f st)).
  { intros f st. unfold recorded_ids. pose proof (NoDup_fst_map_to_list (statuses c)) as HN.
    revert HN. generalize (map_to_list (statuses c)) as l.
    induction l as [|[i t] l IH]; simpl; [constructor|]. rewrite NoDup_cons. intros [Hi HN].
    destruct (i <? f); [by apply IH|]. case_bool_decide; [|by apply IH].
    apply NoDup_cons. split; [|by apply IH]. rewrite list_elem_of_omap.
    intros ([j u] & Hj & Hf). destruct (j <? f); [done|]. case_bool_decide; [|done].
    injection Hf as ->. apply Hi, list_elem_of_fmap. by exists (i, u). }
  pose proof (elem_of_live_committed c lsn arf vf cap ab) as Hc.
  pose proof (elem_of_live_aborted c lsn arf vf cap ab) as Ha.
  pose proof (elem_of_live_in_progress c lsn arf vf cap ab) as Hi. fold s in Hc, Ha, Hi.
  pose proof (live_floor_ge c vf cap ab) as [_ H3].
  assert (Hex : forall x, x ∈ cs_in_progress s -> x ∈ cs_committed s \/ x ∈ cs_aborted s -> False).
  { intros x Hx Hy. apply Hi in Hx as (Hf & Hst & _).
    rewrite Clog_status_normal in Hst by lia.
    destruct Hy as [Hy|Hy]; [apply Hc in Hy as [Hy _]|apply Ha in Hy as [Hy _]];
      by rewrite Hy in Hst. }
  unfold validate_status_lists.
  rewrite !strictly_increasing_spec; [| | |apply Hsort|..]; try apply Hsort.
  2,3,4: simpl; rewrite merge_sort_Permutation; auto using NoDup_capture_fold.
  rewrite !walk_disjoint_spec; [|eauto..|].
  2: { intros x Hx Hy. apply Hc in Hx as [Hx _]. apply Ha in Hy as [Hy _]. congruence. }
  simpl. destruct (existsb _ _) eqn:E; [|done].
  apply existsb_exists in E as (x & Hx & Hlt). apply N.ltb_lt in Hlt.
  change (cs_committed_floor s) with (live_floor c vf cap ab) in Hlt.
  apply list_elem_of_In in Hx. rewrite !elem_of_app in Hx.
  destruct Hx as [Hx|[Hx|Hx]]; [apply Hc in Hx|apply Ha in Hx|apply Hi in Hx]; lia.
Qed.

Lemma read_u32_app r v rest field :
  reads r (to_le_bytes 4 v ++ rest) -> v <= U32_MAX ->
  exists r', read_u32 r field = Ok (v, r') /\ reads r' rest.
Proof.
  intros Hr Hv. destruct (read_u32_le_app r v rest Hr Hv) as (r' & E & Hr').
  exists r'. unfold read_u32. by rewrite E.
Qed.

(** Decoding an envelope reduces to decoding its payload. *)
Lemma decode_envelope payload :
  len payload <= MAX_CLOG_PAYLOAD_BYTES ->
  crc32 payload <= U32_MAX ->
  decode_clog (CLOG_MAGIC ++ to_le_bytes 4 CLOG_VERSION ++ to_le_bytes 4 (len payload)
               ++ to_le_bytes 4 (crc32 payload) ++ payload) =
  (p ← map_err (fun e => corrupt_clog ("failed to decode CLOG payload: " +:+ e))
         (json_from_slice payload);
   if p.(cs_clog_lsn) <? p.(cs_authorized_replay_floor)
   then Err (corrupt_clog "authorized replay floor is beyond CLOG LSN")
   else _ ← validate_status_lists p.(cs_committed_floor) p.(cs_committed) p.(cs_aborted)
              p.(cs_in_progress); Ok p).
Proof.
  intros Hlen Hcrc. set (b := CLOG_MAGIC ++ _). unfold decode_clog.
  assert (Hb : len b = 16 + len payload).
  { subst b. unfold len. rewrite !length_app, !length_to_le_bytes. simpl. lia. }
  assert (Hm : MAX_CLOG_PAYLOAD_BYTES = 67108864) by done.
  assert (Hu : U32_MAX = 4294967295) by done. assert (Hz : USIZE_MAX = 18446744073709551615) by done.
  assert (Hh : CLOG_HEADER_LEN = 16) by done. assert (Hv : CLOG_VERSION = 3) by done.
  destruct (N.ltb_spec (len b) CLOG_HEADER_LEN); [lia|].
  assert (Hr0 : reads (reader_new b) b) by (apply reads_new; lia).
  destruct (reader_take_app _ CLOG_MAGIC _ (len CLOG_MAGIC) Hr0 eq_refl) as (r1 & -> & Hr1).
  cbn [map_err mbind result_bind]. rewrite bool_decide_eq_false_2 by naive_solver.
  destruct (read_u32_app _ _ _ "CLOG file version" Hr1 ltac:(lia)) as (r2 & -> & Hr2).
  cbn [mbind result_bind]. rewrite N.eqb_refl. cbn [negb].
  destruct (read_u32_app _ _ _ "CLOG file payload length" Hr2 ltac:(lia)) as (r3 & -> & Hr3).
  cbn [mbind result_bind]. destruct (N.ltb_spec MAX_CLOG_PAYLOAD_BYTES (len payload)); [lia|].
  destruct (read_u32_app _ _ _ "CLOG file checksum" Hr3 Hcrc) as (r4 & -> & Hr4).
  cbn [mbind result_bind]. rewrite (reads_remaining _ _ Hr4), N.eqb_refl. cbn [negb].
  rewrite <- (app_nil_r payload) in Hr4.
  destruct (reader_take_app _ payload [] (len payload) Hr4 eq_refl) as (r5 & -> & Hr5).
  cbn [map_err mbind result_bind]. rewrite (finish_nil _ Hr5). cbn [map_err mbind result_bind].
  by rewrite N.eqb_refl.
Qed.

(** ** Properties *)

(** [serde_json] reads back the payload it wrote when its lists are within the
    bound its visitors enforce, and a CRC-32 fits in 32 bits. *)
Definition serde_roundtrip : Prop :=
  forall s b,
    len s.(cs_committed) <= MAX_CLOG_STATUS_COUNT ->
    len s.(cs_aborted) <= MAX_CLOG_STATUS_COUNT ->
    len s.(cs_in_progress) <= MAX_CLOG_STATUS_COUNT ->
    json_to_vec s = Ok b -> json_from_slice b = Ok s.
Definition crc32_bounded : Prop := forall b, crc32 b <= U32_MAX.

(** Encoding the live snapshot and decoding the envelope is the identity. *)
Lemma decode_encode_live c lsn arf vf cap ab b :
  serde_roundtrip -> crc32_bounded -> arf <= lsn ->
  encode_clog (live_snapshot c lsn arf vf cap ab) = Ok b ->
  decode_clog b = Ok (live_snapshot c lsn arf vf cap ab) /\
  len b <= MAX_CLOG_PAYLOAD_BYTES + CLOG_HEADER_LEN.
Proof.
  intros Hserde Hcrc Hlsn Henc.
  pose proof (validate_live_snapshot c lsn arf vf cap ab) as Hval. cbv zeta in Hval.
  assert (Hle : cs_clog_lsn (live_snapshot c lsn arf vf cap ab)
                <? cs_authorized_replay_floor (live_snapshot c lsn arf vf cap ab) = false)
    by (apply N.ltb_ge; done).
  revert Henc Hval Hle. generalize (live_snapshot c lsn arf vf cap ab) as s. intros s Henc Hval Hle.
  unfold encode_clog in Henc. destruct (_ || _) eqn:E; [done|]. to_prop.
  destruct (json_to_vec s) as [payload|] eqn:Ej; [|done]. cbn [map_err mbind result_bind] in Henc.
  destruct (N.ltb_spec MAX_CLOG_PAYLOAD_BYTES (len payload)) as [|Hp]; [done|].
  destruct (U32_MAX <? len payload); [done|].
  destruct (checked_add _ _ _); [|done]. cbn [ok_or mbind result_bind] in Henc.
  apply Ok_inj in Henc as <-. rewrite decode_envelope by auto.
  rewrite (Hserde s payload) by auto. cbn [map_err mbind result_bind].
  apply N.ltb_ge in Hle. rewrite Hle, Hval. split; [done|].
  unfold len. rewrite !length_app, !length_to_le_bytes. unfold len in Hp.
  change (length CLOG_MAGIC) with 4%nat. assert (CLOG_HEADER_LEN = 16) by done. lia.
Qed.

(** The file a checkpoint writes reads back as the snapshot it was derived
    from: encoding the live snapshot and decoding the envelope is the identity
    whenever the encoder accepts it and the replay floor is within the log. *)
Theorem live_snapshot_roundtrip c lsn arf vf cap ab b
    (Hserde : serde_roundtrip)
    (Hcrc : crc32_bounded)
    (Hlsn : arf <= lsn)
    (Henc : encode_clog (live_snapshot c lsn arf vf cap ab) = Ok b) :
  decode_clog b = Ok (live_snapshot c lsn arf vf cap ab).
Proof. by eapply decode_encode_live. Qed.

(** A decoded snapshot is canonical: its replay floor is within its LSN and
    its three status lists are strictly increasing. *)
Theorem decode_clog_canonical b s (Hd : decode_clog b = Ok s) :
  s.(cs_authorized_replay_floor) <= s.(cs_clog_lsn) /\
  Forall (fun l => strictly_increasing l = true)
    [s.(cs_committed); s.(cs_aborted); s.(cs_in_progress)] /\
  Forall (fun id => s.(cs_committed_floor) <= id)
    (s.(cs_committed) ++ s.(cs_aborted) ++ s.(cs_in_progress)).
Proof.
  unfold decode_clog in Hd. inv_ok Hd. apply Ok_inj in Hd as <-.
  match goal with Hv : validate_status_lists _ _ _ _ = Ok _ |- _ =>
    unfold validate_status_lists in Hv; inv_ok Hv end.
  to_prop. split; [done|]. split; [by repeat constructor|].
  apply Forall_forall. intros id Hid. apply N.nlt_ge. intros Hlt.
  match goal with He : existsb _ _ = false |- _ =>
    apply not_true_iff_false in He; apply He end.
  apply existsb_exists. exists id. split; [by apply list_elem_of_In|by apply N.ltb_lt].
Qed.

End Envelope.

(** ** Witnesses *)

(** A payload codec that reads back every snapshot it writes. *)
Definition demo_tuple (s : ClogSnapshot) :=
  (s.(cs_clog_lsn), s.(cs_authorized_replay_floor), s.(cs_committed_floor),
   s.(cs_vacuum_floor), s.(cs_committed), s.(cs_aborted), s.(cs_in_progress)).
Definition demo_to_vec (s : ClogSnapshot) : result string bytes :=
  Ok [Npos (encode (demo_tuple s))].
Definition demo_from_slice (b : bytes) : result string ClogSnapshot :=
  match b with
  | [Npos p] =>
      match decode p with
      | Some (a1, a2, a3, a4, a5, a6, a7) => Ok (mkClogSnapshot a1 a2 a3 a4 a5 a6 a7)
      | None => Err "payload"
      end
  | _ => Err "payload"
  end.

Lemma demo_serde : serde_roundtrip demo_to_vec demo_from_slice.
Proof.
  intros s b _ _ _ [= <-]. cbn [demo_from_slice]. rewrite decode_encode. by destruct s.
Defined.

Definition demo_snap := live_snapshot demo_clog 100 90 4 [6; 7] 8.

Lemma live_snapshot_roundtrip_witness :
  exists b, encode_clog (fun _ => 7) demo_to_vec demo_snap = Ok b /\
            decode_clog (fun _ => 7) demo_from_slice b = Ok demo_snap.
Proof.
  eexists. split; [vm_compute; reflexivity|].
  apply (live_snapshot_roundtrip (fun _ => 7) demo_to_vec demo_from_slice
           demo_clog 100 90 4 [6; 7] 8).
  - apply demo_serde.
  - intros b. vm_compute. discriminate.
  - vm_compute. discriminate.
  - vm_compute. reflexivity.
Defined.

Definition demo_empty : ClogSnapshot := mkClogSnapshot 9 8 3 3 [4] [] [].
Definition demo_envelope : bytes :=
  [83; 71; 67; 76; 3; 0; 0; 0; 1; 0; 0; 0; 7; 0; 0; 0; 42].

Lemma decode_clog_canonical_witness :
  demo_empty.(cs_authorized_replay_floor) <= demo_empty.(cs_clog_lsn).
Proof.
  apply (decode_clog_canonical (fun _ => 7) (fun _ => Ok demo_empty) demo_envelope demo_empty).
  vm_compute. reflexivity.
Defined.
