(* ===== verification/Registry.v ===== *)
(** * Active-transaction registry (src/crates/server/src/registry.rs)

    The latched registry of running transactions and of the [xmin]s advertised
    by live snapshots.  Every public method takes the latch once, so each is one
    atomic function on the state.  A closure argument is passed with the state
    it captures (the id allocator). *)

From S2P Require Import Prelude Mvcc.
Local Open Scope N_scope.

(** ** State *)

Record RegistryState : Type := mkRegistry {
  active : gset TxnId;
  xmins : gmap TxnId N;
  subtrans : gmap TxnId TxnId;
  snapshot_exclusion : bool
}.

Definition registry_new : RegistryState := mkRegistry ∅ ∅ ∅ false.

(** ** Operations *)

Definition register (st : RegistryState) (txn_id : TxnId) : RegistryState :=
  mkRegistry ({[txn_id]} ∪ st.(active)) st.(xmins) st.(subtrans) st.(snapshot_exclusion).

Definition register_allocated {A} (st : RegistryState) (allocate : A -> TxnId * A) (a : A)
    : TxnId * A * RegistryState :=
  let '(txn_id, a') := allocate a in
  (txn_id, a',
   mkRegistry ({[txn_id]} ∪ st.(active)) st.(xmins) st.(subtrans) st.(snapshot_exclusion)).

Definition register_subxid_allocated {A} (st : RegistryState) (top : TxnId)
    (allocate : A -> TxnId * A) (a : A) : TxnId * A * RegistryState :=
  let '(subxid, a') := allocate a in
  (subxid, a',
   mkRegistry ({[subxid]} ∪ st.(active)) st.(xmins) (<[subxid := top]> st.(subtrans))
     st.(snapshot_exclusion)).

Definition deregister (st : RegistryState) (txn_id : TxnId) : RegistryState :=
  mkRegistry (st.(active) ∖ {[txn_id]}) st.(xmins) (delete txn_id st.(subtrans))
    st.(snapshot_exclusion).

Definition deregister_all (st : RegistryState) (txn_ids : list TxnId) : RegistryState :=
  foldl deregister st txn_ids.

Definition is_active (st : RegistryState) (xid : TxnId) : bool :=
  bool_decide (xid ∈ st.(active)).

Definition top_of (st : RegistryState) (xid : TxnId) : TxnId :=
  default xid (st.(subtrans) !! xid).

Definition oldest (st : RegistryState) : option TxnId := head (sorted_ids st.(active)).

Definition active_ids (st : RegistryState) : list TxnId := sorted_ids st.(active).

Definition checkpoint_snapshot (st : RegistryState) (boundary : TxnId) : list TxnId * TxnId :=
  (sorted_ids st.(active), boundary).

Definition oldest_xmin (st : RegistryState) : option TxnId := head (sorted_ids (dom st.(xmins))).

(** [*guard.xmins.entry(xmin).or_insert(0) += 1]. *)
Definition advertise_xmin (st : RegistryState) (xm : TxnId) : RegistryState :=
  mkRegistry st.(active) (<[xm := default 0 (st.(xmins) !! xm) + 1]> st.(xmins))
    st.(subtrans) st.(snapshot_exclusion).

(** [capture]: the active ids, the boundary and the advertised [xmin]. *)
Definition capture (st : RegistryState) (boundary : TxnId)
    : list TxnId * TxnId * TxnId * RegistryState :=
  let ids := sorted_ids st.(active) in
  let xmax := boundary in
  let xmin := default xmax (head ids) in
  (ids, xmax, xmin, advertise_xmin st xmin).

Definition try_capture_with_exclusion_bypass (st : RegistryState) (bypass : bool)
    (boundary : TxnId) : option (list TxnId * TxnId * TxnId * RegistryState) :=
  if st.(snapshot_exclusion) && negb bypass then None else Some (capture st boundary).

Definition capture_unadvertised (st : RegistryState) (boundary : TxnId) : list TxnId * TxnId :=
  (sorted_ids st.(active), boundary).

Definition release_advertised (st : RegistryState) (xm : TxnId) : RegistryState :=
  match st.(xmins) !! xm with
  | None => st
  | Some n =>
      let xmins' :=
        match checked_sub n 1 with
        | Some 0 | None => delete xm st.(xmins)
        | Some next => <[xm := next]> st.(xmins)
        end in
      mkRegistry st.(active) xmins' st.(subtrans) st.(snapshot_exclusion)
  end.

(** The two phases of [begin_snapshot_exclusion_cancelable] around its waits: the
    flag is taken when clear, and the guard is returned once no snapshot is
    advertised. *)
Definition take_snapshot_exclusion (st : RegistryState) : option RegistryState :=
  if st.(snapshot_exclusion) then None
  else Some (mkRegistry st.(active) st.(xmins) st.(subtrans) true).
Definition snapshots_drained (st : RegistryState) : bool := bool_decide (st.(xmins) = ∅).
Definition clear_snapshot_exclusion (st : RegistryState) : RegistryState :=
  mkRegistry st.(active) st.(xmins) st.(subtrans) false.

(** ** Lemmas *)

Lemma active_deregister_all st ids x :
  x ∈ (deregister_all st ids).(active) <-> x ∈ st.(active) /\ x ∉ ids.
Proof.
  unfold deregister_all. revert st. induction ids as [|y ids IH]; intros st; simpl.
  - set_solver.
  - rewrite IH. simpl. set_solver.
Qed.

Lemma xmins_deregister_all st ids : (deregister_all st ids).(xmins) = st.(xmins).
Proof.
  unfold deregister_all. revert st. induction ids as [|y ids IH]; intros st; simpl; [done|].
  by rewrite IH.
Qed.

Lemma head_sorted_ids_None s : head (sorted_ids s) = None <-> s = ∅.
Proof. rewrite <- sorted_ids_nil. destruct (sorted_ids s); naive_solver. Qed.

Lemma head_sorted_ids_Some s x :
  head (sorted_ids s) = Some x -> x ∈ s /\ forall y, y ∈ s -> x <= y.
Proof.
  destruct (sorted_ids s) as [|y l] eqn:E; [done|]. intros [= ->]. by apply sorted_ids_head in E.
Qed.

(** The advertised minimum is below every advertised [xmin]. *)
Lemma oldest_xmin_le st x n : st.(xmins) !! x = Some n ->
  exists m, oldest_xmin st = Some m /\ m <= x.
Proof.
  intros Hx. unfold oldest_xmin. destruct (head _) as [m|] eqn:E.
  - exists m. split; [done|]. apply head_sorted_ids_Some in E as [_ Hm].
    apply Hm, elem_of_dom. eauto.
  - apply head_sorted_ids_None in E. assert (x ∈ dom (xmins st)) by (apply elem_of_dom; eauto).
    set_solver.
Qed.

(** The counts of [xmins] as a total function. *)
Definition advertised (st : RegistryState) (x : TxnId) : N := default 0 (st.(xmins) !! x).

Definition counts_positive (st : RegistryState) : Prop :=
  forall x, st.(xmins) !! x <> Some 0.

Lemma advertise_xmin_counts st xm x :
  advertised (advertise_xmin st xm) x = advertised st x + (if decide (x = xm) then 1 else 0).
Proof.
  unfold advertised, advertise_xmin. simpl. rewrite lookup_insert.
  destruct (decide (xm = x)), (decide (x = xm)); simplify_eq; simpl; lia.
Qed.

Lemma advertise_xmin_positive st xm : counts_positive st -> counts_positive (advertise_xmin st xm).
Proof.
  intros Hp x. simpl. rewrite lookup_insert. case_decide; [|apply Hp]. intros [=]. lia.
Qed.

Lemma release_advertised_counts st xm x :
  counts_positive st ->
  advertised (release_advertised st xm) x = advertised st x - (if decide (x = xm) then 1 else 0).
Proof.
  intros Hp. unfold advertised, release_advertised. destruct (xmins st !! xm) as [n|] eqn:E.
  - specialize (Hp xm). unfold checked_sub. destruct (N.leb_spec 1 n); simpl.
    + destruct (n - 1) eqn:En; simpl.
      * rewrite lookup_delete. destruct (decide (xm = x)), (decide (x = xm)); simplify_eq; simpl;
          rewrite ?E; simpl; lia.
      * rewrite lookup_insert. destruct (decide (xm = x)), (decide (x = xm)); simplify_eq; simpl;
          rewrite ?E; simpl; lia.
    + assert (n = 0) by lia. subst. congruence.
  - destruct (decide (x = xm)) as [->|]; [rewrite E; simpl|]; lia.
Qed.

Lemma release_advertised_positive st xm :
  counts_positive st -> counts_positive (release_advertised st xm).
Proof.
  intros Hp x. unfold release_advertised. destruct (xmins st !! xm) as [n|] eqn:E; [|apply Hp].
  unfold checked_sub. destruct (1 <=? n); simpl.
  - destruct (n - 1) eqn:En; simpl; [rewrite lookup_delete|rewrite lookup_insert];
      case_decide; try apply Hp; congruence.
  - rewrite lookup_delete. case_decide; [done|apply Hp].
Qed.

Lemma release_active st xm : (release_advertised st xm).(active) = st.(active).
Proof. unfold release_advertised. by destruct (xmins st !! xm). Qed.

(** The [xmin] a capture advertises is the oldest active id, or the boundary. *)
Lemma capture_xmin_le st boundary ids xm xn st' x :
  capture st boundary = (ids, xm, xn, st') ->
  (forall y, y ∈ st.(active) -> y < boundary) ->
  xn <= boundary /\ (x ∈ st.(active) -> xn <= x).
Proof.
  unfold capture. intros [= <- <- <- <-] Hb.
  destruct (head (sorted_ids (active st))) as [m|] eqn:E; simpl.
  - apply head_sorted_ids_Some in E as [Hm Hle]. specialize (Hb m Hm). split; [lia|apply Hle].
  - apply head_sorted_ids_None in E. split; [lia|]. rewrite E. set_solver.
Qed.

#[export] Hint Resolve advertise_xmin_positive release_advertised_positive : saguaro.
