(* ===== verification/WalCodec.v ===== *)
(** * WAL records and their frames (src/crates/wal/src/record.rs, src/crates/wal/src/codec.rs)

    The record kinds of the write-ahead log and the frame codec: a 21-byte
    header, a type-specific payload and a CRC-32 footer.  Physiological records
    use the binary layout translated here; the logical ones go through
    [serde_json], a parameter, as is the CRC.  The catalog change set is an
    abstract type with its shape validation.  Allocation is assumed to succeed. *)

From S2P Require Import Prelude Errors Mvcc CheckedBytes ByteArray.
Local Open Scope N_scope.

Section WalCodec.
Context {CatalogChangeSet : Type}.

(** ** Records *)

Inductive WalRecordKind : Type :=
  | CatalogChange (change_set : CatalogChangeSet)
  | SequenceAdvance (sequence : N) (value : Z)
  | SetSequenceValue (sequence : N) (value : Z) (is_called : bool)
  | Commit
  | CommitWithSubxids (subxids : list N)
  | Abort
  | Checkpoint (checkpoint_end_lsn page_redo_lsn catalog_redo_lsn : Lsn)
  | HeapInit (file_id page_num : N)
  | HeapInsert (file_id page_num slot : N) (row_bytes : bytes)
  | HeapDelete (file_id page_num slot : N)
  | HeapUpdateHeader (file_id page_num slot xmax : N) (t_ctid : N * N) (infomask : N)
  | FullPageImage (file_id page_num : N) (image : bytes)
  | FullPageImageCompressed (file_id page_num codec dict_id : N) (payload : bytes)
  | CreateDictionary (dict_id table_id : N) (dict : bytes).

Record WalRecord : Type := mkWalRecord {
  lsn : Lsn;
  txn_id : TxnId;
  rkind : WalRecordKind
}.

Definition is_redo_operation (k : WalRecordKind) : bool :=
  match k with
  | Commit | CommitWithSubxids _ | Abort | Checkpoint _ _ _ => false
  | _ => true
  end.

(** ** Constants *)

Definition HEADER_LEN : N := 8 + 8 + 1 + 4.
Definition CRC_LEN : N := 4.
Definition HEAP_UPDATE_HEADER_LEN : N := 4 + 4 + 2 + 8 + 4 + 2 + 2.
Definition TYPE_COMMIT : N := 3.
Definition TYPE_CHECKPOINT : N := 4.
Definition TYPE_HEAP_INIT : N := 5.
Definition TYPE_HEAP_INSERT : N := 6.
Definition TYPE_HEAP_DELETE : N := 7.
Definition TYPE_FULL_PAGE_IMAGE : N := 8.
Definition TYPE_ABORT : N := 11.
Definition TYPE_HEAP_UPDATE_HEADER : N := 12.
Definition TYPE_COMMIT_WITH_SUBXIDS : N := 13.
Definition TYPE_SEQUENCE_ADVANCE : N := 16.
Definition TYPE_SET_SEQUENCE_VALUE : N := 17.
Definition TYPE_FULL_PAGE_IMAGE_COMPRESSED : N := 18.
Definition TYPE_CREATE_DICTIONARY : N := 19.
Definition TYPE_CATALOG_CHANGE : N := 31.
Definition MAX_CATALOG_CHANGE_PAYLOAD_BYTES : N := 67108864.
Definition MAX_JSON_PAYLOAD_BYTES : N := 67108864.
Definition MAX_PAGE_BYTES : N := 8192.
Definition MAX_DICTIONARY_BYTES : N := 112640.
Definition MAX_COMMITTED_SUBXIDS : N := 65536.

(** [wal_error]. *)
Definition wal_error (m : string) : DbError := db_wal InternalError m.

(** Code outside the file: the checksum, the JSON codecs (the second one is the
    bounded [CommitWithSubxidsPayload] reader) and the change-set validation. *)
Context (crc32 : bytes -> N).
Context (json_to_vec : WalRecordKind -> result string bytes).
Context (json_from_slice : bytes -> result string WalRecordKind).
Context (subxids_from_slice : bytes -> result string (list N)).
Context (validate_shape : CatalogChangeSet -> result string unit).

(** ** Encoding *)

Definition record_type (k : WalRecordKind) : N :=
  match k with
  | CatalogChange _ => TYPE_CATALOG_CHANGE
  | SequenceAdvance _ _ => TYPE_SEQUENCE_ADVANCE
  | SetSequenceValue _ _ _ => TYPE_SET_SEQUENCE_VALUE
  | Commit => TYPE_COMMIT
  | CommitWithSubxids _ => TYPE_COMMIT_WITH_SUBXIDS
  | Abort => TYPE_ABORT
  | Checkpoint _ _ _ => TYPE_CHECKPOINT
  | HeapInit _ _ => TYPE_HEAP_INIT
  | HeapInsert _ _ _ _ => TYPE_HEAP_INSERT
  | HeapDelete _ _ _ => TYPE_HEAP_DELETE
  | HeapUpdateHeader _ _ _ _ _ _ => TYPE_HEAP_UPDATE_HEADER
  | FullPageImage _ _ _ => TYPE_FULL_PAGE_IMAGE
  | FullPageImageCompressed _ _ _ _ _ => TYPE_FULL_PAGE_IMAGE_COMPRESSED
  | CreateDictionary _ _ _ => TYPE_CREATE_DICTIONARY
  end.

Definition validate_body_length (length maximum : N) (description : string) : DbResult unit :=
  if maximum <? length
  then Err (wal_error ("WAL " +:+ description +:+ " exceeds its size limit"))
  else Ok ().

(** [encoded_payload_buffer]: only its length check can fail. *)
Definition encoded_payload_buffer (header_len body_len : N) : DbResult bytes :=
  _ ← ok_or (checked_add USIZE_MAX header_len body_len) (wal_error "WAL payload length overflows");
  Ok [].

Definition encode_json_payload (k : WalRecordKind) : DbResult bytes :=
  payload ← map_err (fun e => wal_error ("failed to serialize WAL payload: " +:+ e)) (json_to_vec k);
  if MAX_JSON_PAYLOAD_BYTES <? len payload
  then Err (wal_error "JSON WAL payload exceeds 64 MiB")
  else Ok payload.

Definition encode_payload (k : WalRecordKind) : DbResult bytes :=
  match k with
  | HeapInit file_id page_num =>
      Ok (to_le_bytes 4 file_id ++ to_le_bytes 4 page_num)
  | HeapInsert file_id page_num slot row_bytes =>
      _ ← validate_body_length (len row_bytes) MAX_PAGE_BYTES "heap-insert row";
      buf ← encoded_payload_buffer 10 (len row_bytes);
      Ok (buf ++ to_le_bytes 4 file_id ++ to_le_bytes 4 page_num ++ to_le_bytes 2 slot ++ row_bytes)
  | HeapDelete file_id page_num slot =>
      Ok (to_le_bytes 4 file_id ++ to_le_bytes 4 page_num ++ to_le_bytes 2 slot)
  | HeapUpdateHeader file_id page_num slot xmax (ctid_page, ctid_slot) infomask =>
      Ok (to_le_bytes 4 file_id ++ to_le_bytes 4 page_num ++ to_le_bytes 2 slot
          ++ to_le_bytes 8 xmax ++ to_le_bytes 4 ctid_page ++ to_le_bytes 2 ctid_slot
          ++ to_le_bytes 2 infomask)
  | FullPageImage file_id page_num image =>
      _ ← validate_body_length (len image) MAX_PAGE_BYTES "full-page image";
      buf ← encoded_payload_buffer 8 (len image);
      Ok (buf ++ to_le_bytes 4 file_id ++ to_le_bytes 4 page_num ++ image)
  | FullPageImageCompressed file_id page_num codec dict_id payload =>
      _ ← validate_body_length (len payload) MAX_PAGE_BYTES "compressed full-page image";
      buf ← encoded_payload_buffer 13 (len payload);
      Ok (buf ++ to_le_bytes 4 file_id ++ to_le_bytes 4 page_num ++ [codec]
          ++ to_le_bytes 4 dict_id ++ payload)
  | CreateDictionary dict_id table_id dict =>
      _ ← validate_body_length (len dict) MAX_DICTIONARY_BYTES "compression dictionary";
      buf ← encoded_payload_buffer 8 (len dict);
      Ok (buf ++ to_le_bytes 4 dict_id ++ to_le_bytes 4 table_id ++ dict)
  | CatalogChange change_set =>
      _ ← map_err (fun m => wal_error ("invalid catalog change set: " +:+ m))
            (validate_shape change_set);
      payload ← map_err (fun e => wal_error ("failed to serialize WAL payload: " +:+ e))
                  (json_to_vec k);
      if MAX_CATALOG_CHANGE_PAYLOAD_BYTES <? len payload
      then Err (wal_error "catalog change WAL payload exceeds 64 MiB")
      else Ok payload
  | CommitWithSubxids subxids =>
      if MAX_COMMITTED_SUBXIDS <? len subxids
      then Err (wal_error "commit WAL payload exceeds the subxid limit")
      else encode_json_payload k
  | _ => encode_json_payload k
  end.

(** The frame up to its checksum. *)
Definition frame_body (r : WalRecord) (payload : bytes) : bytes :=
  to_le_bytes 8 r.(lsn) ++ to_le_bytes 8 r.(txn_id) ++ [record_type r.(rkind)]
  ++ to_le_bytes 4 (len payload) ++ payload.

Definition encode_record (r : WalRecord) : DbResult bytes :=
  payload ← encode_payload r.(rkind);
  _ ← (if U32_MAX <? len payload
       then Err (wal_error "WAL payload is too large to encode") else Ok ());
  l1 ← ok_or (checked_add USIZE_MAX HEADER_LEN (len payload))
         (wal_error "encoded WAL record length overflows");
  _ ← ok_or (checked_add USIZE_MAX l1 CRC_LEN) (wal_error "encoded WAL record length overflows");
  let body := frame_body r payload in
  Ok (body ++ to_le_bytes 4 (crc32 body)).

(** [encode_record_at]: encode with a zero LSN, then patch the LSN header with the
    frame's end position and recompute the checksum footer. *)
Definition encode_record_at (r : WalRecord) (start_lsn : Lsn) : DbResult (WalRecord * bytes) :=
  let r0 := mkWalRecord 0 r.(txn_id) r.(rkind) in
  b ← encode_record r0;
  let encoded_len := len b in
  end_lsn ← ok_or (checked_add U64_MAX start_lsn encoded_len) (wal_error "WAL LSN overflow");
  _ ← (if len b <? 8 then Err (wal_error "encoded WAL record is missing its LSN header")
       else Ok ());
  let b := to_le_bytes 8 end_lsn ++ drop 8 b in
  checksum_end ← ok_or (checked_sub (len b) CRC_LEN)
                   (wal_error "encoded WAL record is shorter than its checksum");
  let prefix := take (N.to_nat checksum_end) b in
  Ok (mkWalRecord end_lsn r.(txn_id) r.(rkind), prefix ++ to_le_bytes 4 (crc32 prefix)).

(** ** Decoding *)

Definition is_legacy_catalog_type (t : N) : bool :=
  (t =? 1) || (t =? 2) || (t =? 9) || (t =? 10) || (t =? 14) || (t =? 15)
  || ((20 <=? t) && (t <=? 30)).

Definition validate_declared_payload_length (type_id payload_len : N) : DbResult unit :=
  let maximum :=
    if type_id =? TYPE_HEAP_INIT then 8
    else if type_id =? TYPE_HEAP_INSERT then 10 + MAX_PAGE_BYTES
    else if type_id =? TYPE_HEAP_DELETE then 10
    else if type_id =? TYPE_HEAP_UPDATE_HEADER then HEAP_UPDATE_HEADER_LEN
    else if type_id =? TYPE_FULL_PAGE_IMAGE then 8 + MAX_PAGE_BYTES
    else if type_id =? TYPE_FULL_PAGE_IMAGE_COMPRESSED then 13 + MAX_PAGE_BYTES
    else if type_id =? TYPE_CREATE_DICTIONARY then 8 + MAX_DICTIONARY_BYTES
    else MAX_JSON_PAYLOAD_BYTES in
  if maximum <? payload_len
  then Err (wal_error "WAL payload exceeds the record-type size limit")
  else Ok ().

(** The physical readers: the slice error becomes a WAL error. *)
Definition truncated {A} (m : result SliceReadError A) : DbResult A :=
  map_err (fun e => wal_error ("WAL physical payload is truncated: " +:+ display_slice_error e)) m.
Definition wal_u8 (r : CheckedSliceReader) := truncated (read_u8 r).
Definition wal_u16 (r : CheckedSliceReader) := truncated (read_u16_le r).
Definition wal_u32 (r : CheckedSliceReader) := truncated (read_u32_le r).
Definition wal_u64 (r : CheckedSliceReader) := truncated (read_u64_le r).
Definition copy_remaining (r : CheckedSliceReader) : DbResult bytes :=
  '(b, _) ← truncated (take_remaining r); Ok b.
Definition finish_physical (r : CheckedSliceReader) : DbResult unit :=
  map_err (fun e => wal_error ("WAL physical payload is malformed: " +:+ display_slice_error e))
    (finish r).

Definition decode_payload (type_id : N) (payload : bytes) : DbResult WalRecordKind :=
  if type_id =? TYPE_HEAP_INIT then
    if negb (len payload =? 8) then Err (wal_error "WAL heap-init payload is malformed")
    else
      '(file_id, r) ← wal_u32 (reader_new payload);
      '(page_num, r) ← wal_u32 r;
      _ ← finish_physical r;
      Ok (HeapInit file_id page_num)
  else if type_id =? TYPE_HEAP_INSERT then
    if len payload <? 10 then Err (wal_error "WAL heap-insert payload is truncated")
    else
      '(file_id, r) ← wal_u32 (reader_new payload);
      '(page_num, r) ← wal_u32 r;
      '(slot, r) ← wal_u16 r;
      row_bytes ← copy_remaining r;
      Ok (HeapInsert file_id page_num slot row_bytes)
  else if type_id =? TYPE_HEAP_DELETE then
    if negb (len payload =? 10) then Err (wal_error "WAL heap-delete payload is malformed")
    else
      '(file_id, r) ← wal_u32 (reader_new payload);
      '(page_num, r) ← wal_u32 r;
      '(slot, r) ← wal_u16 r;
      _ ← finish_physical r;
      Ok (HeapDelete file_id page_num slot)
  else if type_id =? TYPE_HEAP_UPDATE_HEADER then
    if negb (len payload =? HEAP_UPDATE_HEADER_LEN)
    then Err (wal_error "WAL heap-update-header payload is malformed")
    else
      '(file_id, r) ← wal_u32 (reader_new payload);
      '(page_num, r) ← wal_u32 r;
      '(slot, r) ← wal_u16 r;
      '(xmax, r) ← wal_u64 r;
      '(ctid_page, r) ← wal_u32 r;
      '(ctid_slot, r) ← wal_u16 r;
      '(infomask, r) ← wal_u16 r;
      _ ← finish_physical r;
      Ok (HeapUpdateHeader file_id page_num slot xmax (ctid_page, ctid_slot) infomask)
  else if type_id =? TYPE_FULL_PAGE_IMAGE then
    if len payload <? 8 then Err (wal_error "WAL full-page-image payload is truncated")
    else
      '(file_id, r) ← wal_u32 (reader_new payload);
      '(page_num, r) ← wal_u32 r;
      image ← copy_remaining r;
      Ok (FullPageImage file_id page_num image)
  else if type_id =? TYPE_FULL_PAGE_IMAGE_COMPRESSED then
    if len payload <? 13 then Err (wal_error "compressed full-page-image payload too short")
    else
      '(file_id, r) ← wal_u32 (reader_new payload);
      '(page_num, r) ← wal_u32 r;
      '(codec, r) ← wal_u8 r;
      '(dict_id, r) ← wal_u32 r;
      compressed ← copy_remaining r;
      Ok (FullPageImageCompressed file_id page_num codec dict_id compressed)
  else if type_id =? TYPE_CREATE_DICTIONARY then
    if len payload <? 8 then Err (wal_error "create-dictionary payload too short")
    else
      '(dict_id, r) ← wal_u32 (reader_new payload);
      '(table_id, r) ← wal_u32 r;
      dict ← copy_remaining r;
      Ok (CreateDictionary dict_id table_id dict)
  else if type_id =? TYPE_COMMIT_WITH_SUBXIDS then
    subxids ← map_err (fun e => wal_error ("failed to deserialize WAL payload: " +:+ e))
                (subxids_from_slice payload);
    Ok (CommitWithSubxids subxids)
  else if is_legacy_catalog_type type_id
  then Err (wal_error "unsupported legacy catalog WAL record format")
  else if (type_id =? TYPE_CATALOG_CHANGE) && (MAX_CATALOG_CHANGE_PAYLOAD_BYTES <? len payload)
  then Err (wal_error "catalog change WAL payload exceeds 64 MiB")
  else
    k ← map_err (fun e => wal_error ("failed to deserialize WAL payload: " +:+ e))
          (json_from_slice payload);
    if negb (type_id =? record_type k)
    then Err (wal_error "WAL record type does not match payload")
    else
      _ ← match k with
          | CatalogChange change_set =>
              map_err (fun m => wal_error ("invalid catalog change set: " +:+ m))
                (validate_shape change_set)
          | _ => Ok ()
          end;
      Ok k.

Inductive DecodeResult : Type :=
  | DRecord (record : WalRecord) (next_offset : N)
  | DIncomplete.

Definition header_err {A} (what : string) (m : result SliceReadError A) : DbResult A :=
  map_err (fun e => wal_error (what +:+ display_slice_error e)) m.

(** The header fields [decode_one] and [frame_len_from_header] read. *)
Definition read_header (r : CheckedSliceReader)
    : DbResult (N * N * N * N * CheckedSliceReader) :=
  '(l, r) ← header_err "invalid WAL LSN header: " (read_u64_le r);
  '(t, r) ← header_err "invalid WAL transaction header: " (read_u64_le r);
  '(ty, r) ← header_err "invalid WAL record type header: " (read_u8 r);
  '(pl, r) ← header_err "invalid WAL payload length header: " (read_u32_le r);
  _ ← validate_declared_payload_length ty pl;
  Ok (l, t, ty, pl, r).

Definition frame_len_from_header (header : bytes) : DbResult N :=
  if negb (len header =? HEADER_LEN) then Err (wal_error "incomplete WAL record header")
  else
    '(_, _, _, payload_len, _) ← read_header (reader_new header);
    l1 ← ok_or (checked_add USIZE_MAX HEADER_LEN payload_len) (wal_error "WAL record length overflow");
    ok_or (checked_add USIZE_MAX l1 CRC_LEN) (wal_error "WAL record length overflow").

Definition decode_one (b : bytes) (offset : N) : DbResult DecodeResult :=
  r ← header_err "invalid WAL record offset: " (reader_at b offset);
  if remaining r <? HEADER_LEN then Ok DIncomplete
  else
    '(l, t, type_id, payload_len, r) ← read_header r;
    payload_and_crc_len ← ok_or (checked_add USIZE_MAX payload_len CRC_LEN)
                            (wal_error "WAL record length overflow");
    if remaining r <? payload_and_crc_len then Ok DIncomplete
    else
      '(payload, r) ← header_err "invalid WAL payload: " (reader_take r payload_len);
      let payload_end := r.(r_position) in
      '(stored_crc, r) ← header_err "invalid WAL CRC footer: " (read_u32_le r);
      let record_end := r.(r_position) in
      checksummed ← ok_or (get_range b offset payload_end)
                      (wal_error "WAL checksum range is outside the input");
      if negb (crc32 checksummed =? stored_crc) then Err (wal_error "WAL record CRC mismatch")
      else
        k ← decode_payload type_id payload;
        Ok (DRecord (mkWalRecord l t k) record_end).

Definition decode_record (b : bytes) : DbResult WalRecord :=
  d ← decode_one b 0;
  match d with
  | DRecord record next_offset =>
      if next_offset =? len b then Ok record
      else Err (wal_error "WAL buffer contains trailing bytes")
  | DIncomplete => Err (wal_error "incomplete WAL record")
  end.

(** ** Lemmas *)

(** Field widths of a record. *)
Definition kind_ok (k : WalRecordKind) : Prop :=
  match k with
  | HeapInit f p => f <= U32_MAX /\ p <= U32_MAX
  | HeapInsert f p s _ => f <= U32_MAX /\ p <= U32_MAX /\ s <= U16_MAX
  | HeapDelete f p s => f <= U32_MAX /\ p <= U32_MAX /\ s <= U16_MAX
  | HeapUpdateHeader f p s x (cp, cs) i =>
      f <= U32_MAX /\ p <= U32_MAX /\ s <= U16_MAX /\ x <= U64_MAX /\
      cp <= U32_MAX /\ cs <= U16_MAX /\ i <= U16_MAX
  | FullPageImage f p _ => f <= U32_MAX /\ p <= U32_MAX
  | FullPageImageCompressed f p c d _ =>
      f <= U32_MAX /\ p <= U32_MAX /\ c <= U8_MAX /\ d <= U32_MAX
  | CreateDictionary d t _ => d <= U32_MAX /\ t <= U32_MAX
  | _ => True
  end.

Definition record_ok (r : WalRecord) : Prop :=
  r.(lsn) <= U64_MAX /\ r.(txn_id) <= U64_MAX /\ kind_ok r.(rkind).

(** What the code relies on from [serde_json] and the CRC. *)
Definition json_roundtrip : Prop :=
  forall k b, json_to_vec k = Ok b ->
    match k with
    | CommitWithSubxids subxids =>
        len subxids <= MAX_COMMITTED_SUBXIDS -> subxids_from_slice b = Ok subxids
    | _ => json_from_slice b = Ok k
    end.
Definition crc_width : Prop := forall b, crc32 b <= U32_MAX.

Lemma wal_u8_app r v rest : reads r ([v] ++ rest) -> v <= U8_MAX ->
  exists r', wal_u8 r = Ok (v, r') /\ reads r' rest.
Proof. intros Hr Hv. destruct (read_u8_app r v rest Hr Hv) as (r' & E & ?). exists r'. unfold wal_u8. by rewrite E. Qed.
Lemma wal_u16_app r v rest : reads r (to_le_bytes 2 v ++ rest) -> v <= U16_MAX ->
  exists r', wal_u16 r = Ok (v, r') /\ reads r' rest.
Proof. intros Hr Hv. destruct (read_u16_le_app r v rest Hr Hv) as (r' & E & ?). exists r'. unfold wal_u16. by rewrite E. Qed.
Lemma wal_u32_app r v rest : reads r (to_le_bytes 4 v ++ rest) -> v <= U32_MAX ->
  exists r', wal_u32 r = Ok (v, r') /\ reads r' rest.
Proof. intros Hr Hv. destruct (read_u32_le_app r v rest Hr Hv) as (r' & E & ?). exists r'. unfold wal_u32. by rewrite E. Qed.
Lemma wal_u64_app r v rest : reads r (to_le_bytes 8 v ++ rest) -> v <= U64_MAX ->
  exists r', wal_u64 r = Ok (v, r') /\ reads r' rest.
Proof. intros Hr Hv. destruct (read_u64_le_app r v rest Hr Hv) as (r' & E & ?). exists r'. unfold wal_u64. by rewrite E. Qed.

Lemma copy_remaining_rest r rest : reads r rest -> copy_remaining r = Ok rest.
Proof.
  intros Hr. unfold copy_remaining, take_remaining. rewrite (reads_remaining _ _ Hr).
  rewrite <- (app_nil_r rest) in Hr.
  by destruct (reader_take_app r rest [] (len rest) Hr eq_refl) as (r' & -> & _).
Qed.

Lemma finish_physical_nil r : reads r [] -> finish_physical r = Ok ().
Proof. intros Hr. unfold finish_physical. by rewrite (finish_nil _ Hr). Qed.

(** Advance the reader of the goal by one field. *)
Ltac read_field :=
  match goal with
  | H : reads ?r (to_le_bytes 4 _ ++ _) |- context [wal_u32 ?r] =>
      let r' := fresh "r" in let H' := fresh "Hr" in
      destruct (wal_u32_app _ _ _ H ltac:(assumption)) as (r' & -> & H'); clear H
  | H : reads ?r (to_le_bytes 2 _ ++ _) |- context [wal_u16 ?r] =>
      let r' := fresh "r" in let H' := fresh "Hr" in
      destruct (wal_u16_app _ _ _ H ltac:(assumption)) as (r' & -> & H'); clear H
  | H : reads ?r (to_le_bytes 8 _ ++ _) |- context [wal_u64 ?r] =>
      let r' := fresh "r" in let H' := fresh "Hr" in
      destruct (wal_u64_app _ _ _ H ltac:(assumption)) as (r' & -> & H'); clear H
  | H : reads ?r ([_] ++ _) |- context [wal_u8 ?r] =>
      let r' := fresh "r" in let H' := fresh "Hr" in
      destruct (wal_u8_app _ _ _ H ltac:(assumption)) as (r' & -> & H'); clear H
  | H : reads ?r _ |- context [copy_remaining ?r] => rewrite (copy_remaining_rest _ _ H)
  | H : reads ?r [] |- context [finish_physical ?r] => rewrite (finish_physical_nil _ H)
  end; cbn [mbind result_bind].


(** Push [len] through a concatenation of fields. *)
Ltac len_simpl := repeat (progress rewrite ?len_app, ?len_le_bytes, ?len_cons in * );
  change (len (@nil N)) with 0 in *.

Lemma encoded_payload_buffer_Ok h b x : encoded_payload_buffer h b = Ok x -> x = [].
Proof. unfold encoded_payload_buffer. intros H. inv_ok H. congruence. Qed.

Lemma validate_body_length_Ok l m d x : validate_body_length l m d = Ok x -> l <= m.
Proof. unfold validate_body_length. destruct (N.ltb_spec m l); [done|]. auto. Qed.

(** A frame's declared length is within its type's limit and the payload decodes
    to the record it was encoded from. *)
Definition payload_spec (k : WalRecordKind) (p : bytes) : Prop :=
  decode_payload (record_type k) p = Ok k /\
  validate_declared_payload_length (record_type k) (len p) = Ok () /\
  len p <= U32_MAX.

Ltac payload_start :=
  unfold payload_spec, decode_payload, validate_declared_payload_length, record_type;
  cbn [N.eqb Pos.eqb TYPE_HEAP_INIT TYPE_HEAP_INSERT TYPE_HEAP_DELETE TYPE_HEAP_UPDATE_HEADER
       TYPE_FULL_PAGE_IMAGE TYPE_FULL_PAGE_IMAGE_COMPRESSED TYPE_CREATE_DICTIONARY].

(** The reader at the start of the payload of the goal. *)
Ltac payload_reader p :=
  let Hr := fresh "Hr" in
  assert (Hr : reads (reader_new p) p)
    by (apply reads_new; unfold USIZE_MAX, U64_MAX; len_simpl; lia).

Lemma heap_records_payload k p :
  match k with HeapInit _ _ | HeapDelete _ _ _ | HeapUpdateHeader _ _ _ _ _ _ => True | _ => False end ->
  kind_ok k -> encode_payload k = Ok p -> payload_spec k p.
Proof.
  destruct k as [| | | | | | |f pg| |f pg s|f pg s x [cp cs] i| | |]; intros Hk Hok E; try done;
    simpl in Hok; destruct_and?; cbn [encode_payload] in E; apply Ok_inj in E as <-.
  - rewrite <- (app_nil_r (to_le_bytes 4 pg)). payload_start. split_and!; [|by len_simpl|by len_simpl].
    payload_reader (to_le_bytes 4 f ++ to_le_bytes 4 pg ++ []).
    replace (len _ =? 8) with true by by len_simpl. cbn [negb]. by repeat read_field.
  - rewrite <- (app_nil_r (to_le_bytes 2 s)). payload_start. split_and!; [|by len_simpl|by len_simpl].
    payload_reader (to_le_bytes 4 f ++ to_le_bytes 4 pg ++ to_le_bytes 2 s ++ []).
    replace (len _ =? 10) with true by by len_simpl. cbn [negb]. by repeat read_field.
  - rewrite <- (app_nil_r (to_le_bytes 2 i)). payload_start. split_and!; [|by len_simpl|by len_simpl].
    payload_reader (to_le_bytes 4 f ++ to_le_bytes 4 pg ++ to_le_bytes 2 s ++ to_le_bytes 8 x
      ++ to_le_bytes 4 cp ++ to_le_bytes 2 cs ++ to_le_bytes 2 i ++ []).
    replace (len _ =? HEAP_UPDATE_HEADER_LEN) with true by by len_simpl.
    cbn [negb]. by repeat read_field.
Qed.

Lemma body_records_payload k p :
  match k with
  | HeapInsert _ _ _ _ | FullPageImage _ _ _ | FullPageImageCompressed _ _ _ _ _
  | CreateDictionary _ _ _ => True | _ => False end ->
  kind_ok k -> encode_payload k = Ok p -> payload_spec k p.
Proof.
  assert (MAX_PAGE_BYTES = 8192) as Hm1 by done. assert (MAX_DICTIONARY_BYTES = 112640) as Hm2 by done.
  assert (U32_MAX = 4294967295) as Hm3 by done.
  destruct k as [| | | | | | | |f pg s row| | |f pg im|f pg c d pl|d t di]; intros Hk Hok E; try done;
    simpl in Hok; destruct_and?; cbn [encode_payload] in E; inv_ok E; apply Ok_inj in E as <-;
    apply validate_body_length_Ok in Hx; apply encoded_payload_buffer_Ok in Hx0 as ->;
    rewrite app_nil_l; payload_start.
  - payload_reader (to_le_bytes 4 f ++ to_le_bytes 4 pg ++ to_le_bytes 2 s ++ row).
    len_simpl. rewrite !(proj2 (N.ltb_ge _ _)) by lia. split_and!; [by repeat read_field|done|lia].
  - payload_reader (to_le_bytes 4 f ++ to_le_bytes 4 pg ++ im).
    len_simpl. rewrite !(proj2 (N.ltb_ge _ _)) by lia. split_and!; [by repeat read_field|done|lia].
  - payload_reader (to_le_bytes 4 f ++ to_le_bytes 4 pg ++ [c] ++ to_le_bytes 4 d ++ pl).
    len_simpl. rewrite !(proj2 (N.ltb_ge _ _)) by lia. split_and!; [by repeat read_field|done|lia].
  - payload_reader (to_le_bytes 4 d ++ to_le_bytes 4 t ++ di).
    len_simpl. rewrite !(proj2 (N.ltb_ge _ _)) by lia. split_and!; [by repeat read_field|done|lia].
Qed.

Lemma json_records_payload k p :
  json_roundtrip ->
  match k with
  | CatalogChange _ | SequenceAdvance _ _ | SetSequenceValue _ _ _ | Commit
  | CommitWithSubxids _ | Abort | Checkpoint _ _ _ => True | _ => False end ->
  encode_payload k = Ok p -> payload_spec k p.
Proof.
  intros Hj Hk E.
  assert (Hlen : len p <= MAX_JSON_PAYLOAD_BYTES /\ json_to_vec k = Ok p).
  { destruct k; try done; cbn [encode_payload] in E; inv_ok E; unfold encode_json_payload in E;
      inv_ok E; apply Ok_inj in E as <-; to_prop; (split; [done|]);
      match goal with H : map_err _ (json_to_vec ?k) = Ok _ |- json_to_vec ?k = _ =>
        destruct (json_to_vec k); simpl in H; congruence end. }
  destruct Hlen as [Hlen Hv]. specialize (Hj k p Hv).
  assert (MAX_JSON_PAYLOAD_BYTES <= U32_MAX) by done.
  split_and!; [|destruct k; try done; unfold validate_declared_payload_length; simpl;
    by rewrite (proj2 (N.ltb_ge _ _)) by done|lia].
  destruct k; try done; unfold decode_payload; simpl; try (by rewrite Hj).
  - rewrite (proj2 (N.ltb_ge _ _)) by done. simpl. rewrite Hj. simpl.
    cbn [encode_payload] in E. inv_ok E. by rewrite Hx.
  - cbn [encode_payload] in E. inv_ok E. to_prop. by rewrite Hj.
Qed.

Lemma encode_payload_spec k p :
  json_roundtrip -> kind_ok k -> encode_payload k = Ok p -> payload_spec k p.
Proof.
  intros Hj Hk E.
  destruct k; first [by apply json_records_payload | by apply heap_records_payload
                    | by apply body_records_payload].
Qed.

(** The header of a frame. *)
Definition frame_header (r : WalRecord) (payload_len : N) : bytes :=
  to_le_bytes 8 r.(lsn) ++ to_le_bytes 8 r.(txn_id) ++ [record_type r.(rkind)]
  ++ to_le_bytes 4 payload_len.

Lemma frame_body_header r p : frame_body r p = frame_header r (len p) ++ p.
Proof. unfold frame_body, frame_header. by rewrite <- !app_assoc. Qed.

Lemma len_frame_header r n : len (frame_header r n) = HEADER_LEN.
Proof. unfold frame_header. by len_simpl. Qed.

Lemma record_type_u8 k : record_type k <= U8_MAX.
Proof. by destruct k. Qed.

(** Reading keeps the slice, so the position follows from what remains. *)
Lemma reader_take_bytes r n a r' : reader_take r n = Ok (a, r') -> r_bytes r' = r_bytes r.
Proof. unfold reader_take. intros H. inv_ok H. by simplify_eq. Qed.
Lemma read_array_bytes r n a r' : read_array r n = Ok (a, r') -> r_bytes r' = r_bytes r.
Proof.
  unfold read_array. intros H. inv_ok H. destruct (_ =? _); [|done]. simplify_eq.
  by eapply reader_take_bytes.
Qed.
Lemma read_u64_le_bytes r v r' : read_u64_le r = Ok (v, r') -> r_bytes r' = r_bytes r.
Proof. unfold read_u64_le. intros H. inv_ok H. simplify_eq. by eapply read_array_bytes. Qed.
Lemma read_u32_le_bytes r v r' : read_u32_le r = Ok (v, r') -> r_bytes r' = r_bytes r.
Proof. unfold read_u32_le. intros H. inv_ok H. simplify_eq. by eapply read_array_bytes. Qed.
Lemma read_u8_bytes r v r' : read_u8 r = Ok (v, r') -> r_bytes r' = r_bytes r.
Proof. unfold read_u8. intros H. inv_ok H. simplify_eq. by eapply read_array_bytes. Qed.

Lemma reads_position r pre rest :
  reads r rest -> r_bytes r = pre ++ rest -> r_position r = len pre.
Proof.
  intros (Hp & _ & Hd) E. apply (f_equal length) in Hd. rewrite length_drop in Hd.
  rewrite E in *. unfold len in *. rewrite length_app in *. lia.
Qed.

Lemma reader_at_app pre rest :
  len (pre ++ rest) <= USIZE_MAX ->
  exists r, reader_at (pre ++ rest) (len pre) = Ok r /\ reads r rest /\ r_bytes r = pre ++ rest.
Proof.
  intros Hl. unfold reader_at. rewrite len_app. rewrite (proj2 (N.ltb_ge _ _)) by lia.
  eexists. split; [done|]. split; [|done].
  split_and!; simpl; [len_simpl; lia|done|]. unfold len. by rewrite Nat2N.id, drop_app_length.
Qed.

Lemma read_header_frame r rec n rest :
  reads r (frame_header rec n ++ rest) -> rec.(lsn) <= U64_MAX -> rec.(txn_id) <= U64_MAX ->
  validate_declared_payload_length (record_type rec.(rkind)) n = Ok () -> n <= U32_MAX ->
  exists r', read_header r = Ok (rec.(lsn), rec.(txn_id), record_type rec.(rkind), n, r') /\
    reads r' rest /\ r_bytes r' = r_bytes r.
Proof.
  unfold frame_header. rewrite <- !app_assoc. intros Hr Hl Ht Hv Hn. unfold read_header.
  destruct (read_u64_le_app _ _ _ Hr Hl) as (r1 & E1 & Hr1).
  destruct (read_u64_le_app _ _ _ Hr1 Ht) as (r2 & E2 & Hr2).
  destruct (read_u8_app _ _ _ Hr2 (record_type_u8 _)) as (r3 & E3 & Hr3).
  destruct (read_u32_le_app _ _ _ Hr3 Hn) as (r4 & E4 & Hr4).
  exists r4. rewrite E1. simpl. rewrite E2. simpl. rewrite E3. simpl. rewrite E4. simpl. rewrite Hv.
  split_and!; [done|done|].
  by rewrite (read_u32_le_bytes _ _ _ E4), (read_u8_bytes _ _ _ E3), (read_u64_le_bytes _ _ _ E2),
    (read_u64_le_bytes _ _ _ E1).
Qed.

Lemma get_range_app pre mid post :
  get_range (pre ++ mid ++ post) (len pre) (len pre + len mid) = Some mid.
Proof.
  unfold get_range. len_simpl. rewrite !(proj2 (N.leb_le _ _)) by lia. simpl.
  replace (len pre + len mid - len pre) with (len mid) by lia.
  unfold len. by rewrite !Nat2N.id, drop_app_length, take_app_length.
Qed.

(** The payload and the checksum of a complete frame decode. *)
Lemma decode_frame pre rec p post :
  crc_width -> payload_spec rec.(rkind) p -> rec.(lsn) <= U64_MAX -> rec.(txn_id) <= U64_MAX ->
  len (pre ++ frame_body rec p ++ to_le_bytes 4 (crc32 (frame_body rec p)) ++ post) <= USIZE_MAX ->
  decode_one (pre ++ frame_body rec p ++ to_le_bytes 4 (crc32 (frame_body rec p)) ++ post) (len pre)
  = Ok (DRecord rec (len pre + (len (frame_body rec p) + CRC_LEN))).
Proof.
  intros Hc (Hd & Hv & Hp) Hl Ht Hfit. set (c := crc32 (frame_body rec p)) in *.
  unfold decode_one. destruct (reader_at_app _ _ Hfit) as (r & E & Hr & Hb).
  rewrite E. cbn [header_err map_err mbind result_bind].
  rewrite (reads_remaining _ _ Hr). rewrite frame_body_header, <- !app_assoc in Hr |- *.
  rewrite (proj2 (N.ltb_ge _ _)) by (rewrite len_app, len_frame_header; lia).
  destruct (read_header_frame _ _ _ _ Hr Hl Ht Hv Hp) as (r1 & -> & Hr1 & Hb1).
  cbn [mbind result_bind].
  assert (HU : checked_add USIZE_MAX (len p) CRC_LEN = Some (len p + CRC_LEN)).
  { apply checked_add_Some. unfold USIZE_MAX, U64_MAX, U32_MAX, CRC_LEN in *. split; [done|lia]. }
  rewrite HU. cbn [ok_or mbind result_bind]. rewrite (reads_remaining _ _ Hr1).
  rewrite (proj2 (N.ltb_ge _ _)) by (len_simpl; unfold CRC_LEN; lia).
  destruct (reader_take_app _ _ _ _ Hr1 eq_refl) as (r2 & E2 & Hr2). rewrite E2.
  cbn [header_err map_err mbind result_bind].
  destruct (read_u32_le_app _ _ _ Hr2 (Hc _)) as (r3 & E3 & Hr3). rewrite E3.
  cbn [header_err map_err mbind result_bind].
  apply reader_take_bytes in E2. apply read_u32_le_bytes in E3.
  rewrite (reads_position r2 (pre ++ frame_body rec p) _ Hr2)
    by (rewrite E2, Hb1, Hb, frame_body_header; by rewrite <- !app_assoc).
  rewrite (reads_position r3 (pre ++ frame_body rec p ++ to_le_bytes 4 c) _ Hr3)
    by (rewrite E3, E2, Hb1, Hb, frame_body_header; by rewrite <- !app_assoc).
  rewrite (len_app pre (frame_body rec p)).
  replace (get_range _ _ _) with (Some (frame_body rec p)).
  2:{ symmetry. rewrite frame_body_header, !app_assoc, <- (app_assoc pre), <- (app_assoc _ (to_le_bytes _ _)), <- app_assoc.
      apply (get_range_app pre (frame_header rec (len p) ++ p)). }
  cbn [ok_or mbind result_bind]. fold c. rewrite N.eqb_refl. cbn [negb]. rewrite Hd.
  cbn [mbind result_bind]. do 2 f_equal; [by destruct rec|].
  rewrite ?frame_body_header, !len_app, len_le_bytes. change (N.of_nat 4) with CRC_LEN. lia.
Qed.

(** A strict prefix of a frame is an incomplete record, never an error. *)
Lemma decode_torn pre rec p n :
  payload_spec rec.(rkind) p -> rec.(lsn) <= U64_MAX -> rec.(txn_id) <= U64_MAX ->
  forall c, let frame := frame_body rec p ++ to_le_bytes 4 c in
  (n < length frame)%nat -> len (pre ++ take n frame) <= USIZE_MAX ->
  decode_one (pre ++ take n frame) (len pre) = Ok DIncomplete.
Proof.
  intros (_ & Hv & Hp) Hl Ht c frame Hn Hfit. subst frame.
  unfold decode_one. destruct (reader_at_app _ _ Hfit) as (r & E & Hr & Hb).
  rewrite E. cbn [header_err map_err mbind result_bind]. rewrite (reads_remaining _ _ Hr).
  destruct (N.ltb_spec (len (take n (frame_body rec p ++ to_le_bytes 4 c))) HEADER_LEN) as [|Hge]; [done|].
  assert (HH : length (frame_header rec (len p)) = 21%nat).
  { pose proof (len_frame_header rec (len p)) as HH. unfold len at 1 in HH. unfold HEADER_LEN in HH. lia. }
  assert (Hn' : (21 <= n)%nat).
  { unfold len, HEADER_LEN in Hge. rewrite length_take in Hge. lia. }
  rewrite frame_body_header, <- app_assoc in Hr, Hn.
  rewrite take_app_ge in Hr by lia.
  destruct (read_header_frame _ _ _ _ Hr Hl Ht Hv Hp) as (r1 & -> & Hr1 & Hb1).
  cbn [mbind result_bind].
  assert (HU : checked_add USIZE_MAX (len p) CRC_LEN = Some (len p + CRC_LEN)).
  { apply checked_add_Some. unfold USIZE_MAX, U64_MAX, U32_MAX, CRC_LEN in *. split; [done|lia]. }
  rewrite HU. cbn [ok_or mbind result_bind]. rewrite (reads_remaining _ _ Hr1).
  rewrite (proj2 (N.ltb_lt _ _)); [done|].
  rewrite !length_app, length_to_le_bytes in Hn. rewrite HH in *. unfold len, CRC_LEN.
  rewrite length_take, length_app, length_to_le_bytes. lia.
Qed.

Lemma encode_record_Ok r b :
  encode_record r = Ok b ->
  exists p, encode_payload r.(rkind) = Ok p /\
    b = frame_body r p ++ to_le_bytes 4 (crc32 (frame_body r p)).
Proof. unfold encode_record. intros H. inv_ok H. exists x. by simplify_eq. Qed.

Lemma len_frame_body r p : len (frame_body r p) = HEADER_LEN + len p.
Proof. by rewrite frame_body_header, len_app, len_frame_header. Qed.

(** [encode_record_at] is [encode_record] of the record stamped with its end LSN. *)
Lemma encode_record_at_Ok r start r' b :
  encode_record_at r start = Ok (r', b) ->
  r' = mkWalRecord (start + len b) r.(txn_id) r.(rkind) /\ start + len b <= U64_MAX /\
  exists p, encode_payload r.(rkind) = Ok p /\
    b = frame_body r' p ++ to_le_bytes 4 (crc32 (frame_body r' p)).
Proof.
  unfold encode_record_at. intros H. apply bind_Ok in H as (b0 & E & H). cbv zeta in H.
  apply encode_record_Ok in E as (p & Ep & Eb). simpl in Ep.
  apply bind_Ok in H as (e & He & H). apply bind_Ok in H as ([] & _ & H).
  apply bind_Ok in H as (ce & Hce & H). apply Ok_inj in H.
  set (r0 := mkWalRecord 0 (txn_id r) (rkind r)) in *.
  set (r1 := mkWalRecord e (txn_id r) (rkind r)) in *.
  assert (Hdrop : to_le_bytes 8 e ++ drop 8 b0 = frame_body r1 p ++ to_le_bytes 4 (crc32 (frame_body r0 p))).
  { rewrite Eb. unfold frame_body at 1 3. cbn [lsn txn_id rkind r0 r1]. rewrite <- !app_assoc. f_equal. }
  rewrite Hdrop in H, Hce. unfold checked_sub in Hce. rewrite len_app, len_le_bytes in Hce.
  change (N.of_nat 4) with CRC_LEN in Hce. destruct (CRC_LEN <=? _); [|done].
  simpl in Hce. apply Ok_inj in Hce. replace ce with (len (frame_body r1 p)) in H by lia.
  unfold len in H. rewrite Nat2N.id, take_app_length in H.
  assert (Hlen : len b = len b0).
  { rewrite Eb. apply (f_equal snd) in H. cbn [snd] in H. rewrite <- H.
    by rewrite !len_app, !len_frame_body, !len_le_bytes. }
  destruct (checked_add U64_MAX start (len b0)) as [e'|] eqn:Ee; simpl in He; [|done].
  apply Ok_inj in He as ->. apply checked_add_Some in Ee as [-> Hle].
  rewrite Hlen. injection H as <- <-. split_and!; [done|done|]. eauto.
Qed.

(** The header alone determines the length of its frame. *)
Lemma frame_len_from_header_frame rec p c :
  payload_spec rec.(rkind) p -> rec.(lsn) <= U64_MAX -> rec.(txn_id) <= U64_MAX ->
  let frame := frame_body rec p ++ to_le_bytes 4 c in
  frame_len_from_header (frame_header rec (len p)) = Ok (len frame).
Proof.
  intros (_ & Hv & Hp) Hl Ht frame. unfold frame_len_from_header.
  rewrite len_frame_header, N.eqb_refl. cbn [negb].
  assert (Hr : reads (reader_new (frame_header rec (len p))) (frame_header rec (len p) ++ [])).
  { rewrite app_nil_r. apply reads_new. by rewrite len_frame_header. }
  destruct (read_header_frame _ _ _ _ Hr Hl Ht Hv Hp) as (r' & -> & _). cbn [mbind result_bind].
  assert (HH : HEADER_LEN = 21) by done. unfold checked_add, USIZE_MAX, U64_MAX, CRC_LEN, U32_MAX in *.
  rewrite (proj2 (N.leb_le _ _)) by lia. cbn [ok_or mbind result_bind].
  rewrite (proj2 (N.leb_le _ _)) by lia. simpl. f_equal. subst frame.
  rewrite len_app, len_frame_body, len_le_bytes. lia.
Qed.

(** Everything the stream reader needs of an encoded frame. *)
Record framed (r : WalRecord) (b : bytes) : Prop := {
  framed_split : exists h rest, b = h ++ rest /\ len h = HEADER_LEN /\
    frame_len_from_header h = Ok (len b);
  framed_decode : forall pre post, len (pre ++ b ++ post) <= USIZE_MAX ->
    decode_one (pre ++ b ++ post) (len pre) = Ok (DRecord r (len pre + len b));
  framed_torn : forall pre n, (n < length b)%nat -> len (pre ++ take n b) <= USIZE_MAX ->
    decode_one (pre ++ take n b) (len pre) = Ok DIncomplete
}.

Lemma frame_framed r p :
  crc_width -> payload_spec r.(rkind) p -> r.(lsn) <= U64_MAX -> r.(txn_id) <= U64_MAX ->
  framed r (frame_body r p ++ to_le_bytes 4 (crc32 (frame_body r p))).
Proof.
  intros Hc Hp Hl Ht. split.
  - exists (frame_header r (len p)), (p ++ to_le_bytes 4 (crc32 (frame_body r p))).
    split_and!; [by rewrite frame_body_header, <- app_assoc|apply len_frame_header|].
    by apply frame_len_from_header_frame.
  - intros pre post. rewrite <- app_assoc. intros Hfit.
    rewrite (decode_frame pre r p post) by done. by rewrite len_app, len_le_bytes.
  - intros pre n Hn Hfit. by apply decode_torn.
Qed.

Lemma encode_record_at_framed r start r' b :
  crc_width -> json_roundtrip -> kind_ok r.(rkind) -> r.(txn_id) <= U64_MAX ->
  encode_record_at r start = Ok (r', b) -> framed r' b.
Proof.
  intros Hc Hj Hk Ht E. apply encode_record_at_Ok in E as (-> & Hle & p & Ep & Eb).
  rewrite Eb at 2. apply frame_framed; [done|by apply encode_payload_spec|done|done].
Qed.

Lemma framed_decode_record r b : framed r b -> len b <= USIZE_MAX -> decode_record b = Ok r.
Proof.
  intros H Hfit. unfold decode_record.
  pose proof (framed_decode _ _ H [] []) as Hd. rewrite app_nil_l, app_nil_r in Hd.
  change (len []) with 0 in Hd. rewrite Hd by done. cbn [mbind result_bind].
  by rewrite N.eqb_refl.
Qed.

(** ** Properties *)

(** Encoding a record at a log position stamps it with the position where its
    frame ends, and the frame decodes, wherever it sits in a longer buffer, to that
    record and to the offset of its end. *)
Theorem encode_record_at_decodes r start r' b pre post
    (Hc : crc_width) (Hj : json_roundtrip) (Hk : kind_ok r.(rkind)) (Ht : r.(txn_id) <= U64_MAX)
    (E : encode_record_at r start = Ok (r', b)) (Hfit : len (pre ++ b ++ post) <= USIZE_MAX) :
  r' = mkWalRecord (start + len b) r.(txn_id) r.(rkind) /\
  decode_one (pre ++ b ++ post) (len pre) = Ok (DRecord r' (len pre + len b)).
Proof.
  split; [by apply encode_record_at_Ok in E as (-> & _)|].
  by apply (framed_decode _ _ (encode_record_at_framed _ _ _ _ Hc Hj Hk Ht E)).
Qed.

(** A torn write is recognised: decoding a strict prefix of a frame reports an
    incomplete record, never an error and never a record. *)
Theorem torn_frame_incomplete r start r' b pre n
    (Hc : crc_width) (Hj : json_roundtrip) (Hk : kind_ok r.(rkind)) (Ht : r.(txn_id) <= U64_MAX)
    (E : encode_record_at r start = Ok (r', b)) (Hn : (n < length b)%nat)
    (Hfit : len (pre ++ take n b) <= USIZE_MAX) :
  decode_one (pre ++ take n b) (len pre) = Ok DIncomplete.
Proof. by apply (framed_torn _ _ (encode_record_at_framed _ _ _ _ Hc Hj Hk Ht E)). Qed.

End WalCodec.

(** ** A concrete instance *)

(** A checksum and a JSON codec for the records of transactions and checkpoints, enough to
    run the codec: the sum of the bytes, and one tag byte per record kind. *)
Definition sum_crc (b : bytes) : N := foldr N.add 0 b mod (U32_MAX + 1).
Definition tag_json_to_vec (k : @WalRecordKind unit) : result string bytes :=
  match k with
  | Commit => Ok [99]
  | Abort => Ok [97]
  | CommitWithSubxids subxids => Ok (115 :: subxids)
  | Checkpoint end_lsn page_lsn catalog_lsn => Ok [107; end_lsn; page_lsn; catalog_lsn]
  | _ => Err "unsupported"
  end.
Definition tag_json_from_slice (b : bytes) : result string (@WalRecordKind unit) :=
  match b with
  | [99] => Ok Commit
  | [97] => Ok Abort
  | [107; end_lsn; page_lsn; catalog_lsn] => Ok (Checkpoint end_lsn page_lsn catalog_lsn)
  | _ => Err "unsupported"
  end.
Definition tag_subxids_from_slice (b : bytes) : result string (list N) :=
  match b with
  | 115 :: subxids => Ok subxids
  | _ => Err "unsupported"
  end.
Definition shape_ok (c : unit) : result string unit := Ok ().

Lemma sum_crc_width : crc_width sum_crc.
Proof. intros b. unfold sum_crc. pose proof (N.mod_lt (foldr N.add 0 b) (U32_MAX + 1)). lia. Qed.

Lemma tag_json_roundtrip :
  json_roundtrip tag_json_to_vec tag_json_from_slice tag_subxids_from_slice.
Proof. intros [] b E; simpl in *; simplify_eq; done. Qed.

(** A heap insert of three row bytes at log position 100. *)
Definition sample_record : @WalRecord unit := mkWalRecord 0 7 (HeapInsert 1 2 3 [10; 20; 30]).
Definition sample_encoded := encode_record_at sum_crc tag_json_to_vec shape_ok sample_record 100.

Lemma encode_record_at_decodes_witness :
  exists r' b, sample_encoded = Ok (r', b) /\ r'.(lsn) = 138 /\
  decode_one sum_crc tag_json_from_slice tag_subxids_from_slice shape_ok ([1; 2] ++ b ++ [9]) 2
  = Ok (DRecord r' 40).
Proof.
  eexists _, _. split; [vm_compute; reflexivity|]. split; [reflexivity|].
  match goal with |- decode_one _ _ _ _ ([1; 2] ++ ?b ++ [9]) 2 = Ok (DRecord ?r' 40) =>
  refine (proj2 (encode_record_at_decodes sum_crc tag_json_to_vec tag_json_from_slice
    tag_subxids_from_slice shape_ok sample_record 100 r' b [1; 2] [9]
    sum_crc_width tag_json_roundtrip _ _ _ _)) end;
    [vm_compute; split_and!; discriminate|vm_compute; discriminate|reflexivity|vm_compute; discriminate].
Defined.

Lemma torn_frame_incomplete_witness :
  exists r' b, sample_encoded = Ok (r', b) /\
  decode_one sum_crc tag_json_from_slice tag_subxids_from_slice shape_ok ([1; 2] ++ take 30 b) 2
  = Ok DIncomplete.
Proof.
  eexists _, _. split; [vm_compute; reflexivity|].
  match goal with |- decode_one _ _ _ _ ([1; 2] ++ take 30 ?b) 2 = _ =>
  refine (torn_frame_incomplete sum_crc tag_json_to_vec tag_json_from_slice
    tag_subxids_from_slice shape_ok sample_record 100 _ b [1; 2] 30
    sum_crc_width tag_json_roundtrip _ _ _ _ _) end;
    [vm_compute; split_and!; discriminate|vm_compute; discriminate|vm_compute; reflexivity
    |vm_compute; lia|vm_compute; discriminate].
Defined.
