(* ===== verification/WalSegment.v ===== *)
(** * The segmented log on disk (src/crates/wal/src/segment.rs)

    The WAL directory as the code sees it: numbered segment files and the metadata
    file, each a byte string.  File handles are segment numbers.  The directory
    operations are in the state-and-error monad of the prelude; [fsync] has no
    effect on the modelled contents, and the operating system's own failures are
    not modelled here (the manager takes them as explicit outcomes).  Messages
    leave out the path and the operating system's text. *)

From S2P Require Import Prelude Errors Mvcc CheckedBytes ByteArray WalCodec.
Local Open Scope N_scope.

Definition WAL_FORMAT_VERSION : N := 3.
Definition SEGMENT_PAYLOAD_BYTES : N := 16777216.
Definition SEGMENT_MAGIC : bytes := [83; 71; 87; 83].
Definition SEGMENT_HEADER_LEN : N := 32.
Definition META_MAGIC : bytes := [83; 71; 87; 77].
Definition META_VERSION : N := 2.
Definition META_LEN : N := 36.

Record WalMeta : Type := mkWalMeta {
  replay_floor : Lsn;
  durable_end : Lsn
}.

(** The directory [wal/]: its segments by number and [wal.meta]. *)
Record WalDir : Type := mkWalDir {
  segments : gmap N bytes;
  meta_file : option bytes
}.
Abbreviation FS := (SE WalDir DbError) (only parsing).

Definition set_segments (f : gmap N bytes -> gmap N bytes) (d : WalDir) : WalDir :=
  mkWalDir (f d.(segments)) d.(meta_file).

Section WalSegment.
Context (crc32 : bytes -> N).

Definition seg_u32 (r : CheckedSliceReader) (field : string) : DbResult (N * CheckedSliceReader) :=
  map_err (fun _ => wal_error ("WAL " +:+ field +:+ " is incomplete")) (read_u32_le r).
Definition seg_u64 (r : CheckedSliceReader) (message : string) : DbResult (N * CheckedSliceReader) :=
  map_err (fun _ => wal_error message) (read_u64_le r).
(** [checked_mul] on [u64]. *)
Definition checked_mul (max a b : N) : option N := if a * b <=? max then Some (a * b) else None.

(** ** Metadata file *)

Definition encode_meta (m : WalMeta) : bytes :=
  let b := META_MAGIC ++ to_le_bytes 4 META_VERSION ++ to_le_bytes 4 WAL_FORMAT_VERSION
    ++ to_le_bytes 4 SEGMENT_PAYLOAD_BYTES ++ to_le_bytes 8 m.(replay_floor)
    ++ to_le_bytes 8 m.(durable_end) in
  b ++ to_le_bytes 4 (crc32 b).

(** [write_meta] when the temporary file and the rename succeed. *)
Definition write_meta (m : WalMeta) : FS unit :=
  modify (fun d => mkWalDir d.(segments) (Some (encode_meta m))).

Definition decode_meta (b : bytes) : DbResult WalMeta :=
  if negb (len b =? META_LEN) then Err (wal_error "WAL metadata length mismatch")
  else
    '(magic, r) ← map_err (fun _ => wal_error "WAL metadata is incomplete")
                    (reader_take (reader_new b) 4);
    if negb (bool_decide (magic = META_MAGIC)) then Err (wal_error "WAL metadata magic mismatch")
    else
      '(version, r) ← seg_u32 r "metadata version";
      if negb (version =? META_VERSION)
      then Err (wal_error ("unsupported WAL metadata version " +:+ pretty version))
      else
        '(wal_version, r) ← seg_u32 r "format version";
        if negb (wal_version =? WAL_FORMAT_VERSION)
        then Err (wal_error ("unsupported WAL format version " +:+ pretty wal_version))
        else
          '(payload_bytes, r) ← seg_u32 r "segment size";
          if negb (payload_bytes =? SEGMENT_PAYLOAD_BYTES)
          then Err (wal_error "WAL segment size mismatch")
          else
            '(floor, r) ← seg_u64 r "WAL replay floor is incomplete";
            '(dend, r) ← seg_u64 r "WAL durable end is incomplete";
            '(stored_crc, r) ← seg_u32 r "metadata checksum";
            checksum_end ← ok_or (checked_sub META_LEN 4)
                             (wal_error "WAL metadata checksum range underflows");
            checksummed ← ok_or (get_range b 0 checksum_end)
                            (wal_error "WAL metadata checksum range is invalid");
            if negb (crc32 checksummed =? stored_crc)
            then Err (wal_error "WAL metadata checksum mismatch")
            else Ok (mkWalMeta floor dend).

Definition load_meta : FS WalMeta :=
  m ← gets meta_file;
  b ← lift (ok_or m (db_io "failed to read WAL metadata"));
  lift (decode_meta b).

(** ** Segment files *)

Definition encode_segment_header (number : N) : DbResult bytes :=
  start ← ok_or (checked_mul U64_MAX number SEGMENT_PAYLOAD_BYTES)
            (wal_error "WAL segment start overflow");
  let b := SEGMENT_MAGIC ++ to_le_bytes 4 WAL_FORMAT_VERSION ++ to_le_bytes 8 number
    ++ to_le_bytes 8 start ++ to_le_bytes 4 SEGMENT_PAYLOAD_BYTES in
  Ok (b ++ to_le_bytes 4 (crc32 b)).

Definition validate_segment_header (file : bytes) (number : N) : DbResult unit :=
  b ← ok_or (get_range file 0 SEGMENT_HEADER_LEN) (wal_error "incomplete WAL segment header");
  if negb (bool_decide (get_range b 0 4 = Some SEGMENT_MAGIC))
  then Err (wal_error "WAL segment header magic mismatch")
  else
    checksum_start ← ok_or (checked_sub SEGMENT_HEADER_LEN 4)
                       (wal_error "WAL segment header checksum range underflows");
    stored ← ok_or (get_range b checksum_start (len b))
               (wal_error "WAL segment header checksum is missing");
    _ ← (if len stored =? 4 then Ok () else Err (wal_error "WAL segment checksum is malformed"));
    let stored := from_le_bytes stored in
    checksummed ← ok_or (get_range b 0 checksum_start)
                    (wal_error "WAL segment checksum range is invalid");
    if negb (crc32 checksummed =? stored)
    then Err (wal_error "WAL segment header checksum mismatch")
    else
      r ← map_err (fun _ => wal_error "WAL segment header is malformed") (reader_at b 4);
      '(format, r) ← seg_u32 r "segment format";
      if negb (format =? WAL_FORMAT_VERSION) then Err (wal_error "unsupported WAL segment format")
      else
        '(stored_number, r) ← seg_u64 r "WAL segment number is incomplete";
        '(start, r) ← seg_u64 r "WAL segment start is incomplete";
        '(payload, r) ← seg_u32 r "segment payload size";
        expected_start ← ok_or (checked_mul U64_MAX number SEGMENT_PAYLOAD_BYTES)
                           (wal_error "WAL segment start overflow");
        if negb (stored_number =? number) || negb (start =? expected_start)
           || negb (payload =? SEGMENT_PAYLOAD_BYTES)
        then Err (wal_error "WAL segment header does not match filename")
        else Ok ().

(** [create_new(true)] refuses an existing file; a header that cannot be built
    removes the new file again. *)
Definition create_segment (number : N) : FS unit :=
  segs ← gets segments;
  match segs !! number with
  | Some _ => lift (Err (db_io "failed to create WAL segment"))
  | None =>
      header ← lift (encode_segment_header number);
      modify (set_segments <[number := header]>)
  end.

(** The opened file's contents. *)
Definition read_segment (d : WalDir) (number : N) : DbResult bytes :=
  file ← ok_or (d.(segments) !! number) (db_io "failed to open WAL segment");
  _ ← validate_segment_header file number;
  Ok file.

Definition open_segment (number : N) : FS bytes := fun d => (d, read_segment d number).

(** [match open_segment(..)]: open, or create a segment that does not exist. *)
Definition open_or_create (number : N) : FS unit := fun d =>
  match read_segment d number with
  | Ok _ => (d, Ok ())
  | Err e =>
      if bool_decide (d.(segments) !! number = None) then create_segment number d
      else (d, Err e)
  end.

Definition remove_segment (number : N) : FS unit := modify (set_segments (delete number)).

Definition segment_numbers (d : WalDir) : list N := (map_to_list d.(segments)).*1.

(** ** Discovery of the end of the stream *)

(** The loop that drops final segments too short to hold a header. *)
Fixpoint drop_incomplete (fuel : nat) (first highest : N) : FS N :=
  segs ← gets segments;
  file ← lift (ok_or (segs !! highest) (db_io "failed to stat WAL segment"));
  if (SEGMENT_HEADER_LEN <=? len file) || (highest =? first) then mret highest
  else
    match fuel with
    | O => lift (Err (wal_error "WAL segment number underflow"))
    | S fuel =>
        _ ← remove_segment highest;
        highest ← lift (ok_or (checked_sub highest 1) (wal_error "WAL segment number underflow"));
        drop_incomplete fuel first highest
    end.

(** The loop that validates every retained segment up to [highest]. *)
Fixpoint walk_segments (fuel : nat) (number highest : N) : FS N :=
  file ← open_segment number;
  payload_len ← lift (ok_or (checked_sub (len file) SEGMENT_HEADER_LEN)
                        (wal_error "WAL segment is shorter than its header"));
  if SEGMENT_PAYLOAD_BYTES <? payload_len
  then lift (Err (wal_error "WAL segment exceeds its fixed size"))
  else if (number <? highest) && negb (payload_len =? SEGMENT_PAYLOAD_BYTES)
  then lift (Err (wal_error "non-final WAL segment is incomplete"))
  else if number =? highest
  then
    base ← lift (ok_or (checked_mul U64_MAX number SEGMENT_PAYLOAD_BYTES)
                   (wal_error "WAL segment position overflow"));
    lift (ok_or (checked_add U64_MAX base payload_len) (wal_error "WAL end position overflow"))
  else
    match fuel with
    | O => lift (Err (wal_error "WAL segment number overflow"))
    | S fuel =>
        next ← lift (ok_or (checked_add U64_MAX number 1) (wal_error "WAL segment number overflow"));
        walk_segments fuel next highest
    end.

Definition last_with_durable_bytes (floor dend : Lsn) : DbResult N :=
  let durable_segment := dend / SEGMENT_PAYLOAD_BYTES in
  if (floor <? dend) && (dend mod SEGMENT_PAYLOAD_BYTES =? 0)
  then ok_or (checked_sub durable_segment 1) (wal_error "WAL durable segment underflow")
  else Ok durable_segment.

Definition discover_end (floor dend : Lsn) : FS Lsn :=
  let first := floor / SEGMENT_PAYLOAD_BYTES in
  last ← lift (last_with_durable_bytes floor dend);
  numbers ← gets segment_numbers;
  _ ← for_each numbers (fun number =>
        if last <? number then remove_segment number else mret ());
  numbers ← gets segment_numbers;
  highest ← lift (ok_or (list_max (filter (fun n => first <= n) numbers))
                   (wal_error "WAL has no segment at its replay floor"));
  highest ← drop_incomplete (N.to_nat (highest - first)) first highest;
  walk_segments (N.to_nat (highest - first)) first highest.

(** ** Reading the stream *)

(** The open file is a handle on a segment and the position of its cursor. *)
Record SegmentReader : Type := mkSegmentReader {
  sr_position : Lsn;
  sr_end : Lsn;
  sr_file : option (N * N);
  sr_file_number : option N
}.

Definition segment_reader_new (position stop : Lsn) : SegmentReader :=
  mkSegmentReader position stop None None.

(** [saturating_sub]. *)
Definition sr_remaining (r : SegmentReader) : N := r.(sr_end) - r.(sr_position).

Definition ensure_file (d : WalDir) (r : SegmentReader) (number offset : N)
    : DbResult SegmentReader :=
  if bool_decide (r.(sr_file_number) = Some number) then Ok r
  else
    _ ← read_segment d number;
    physical ← ok_or (checked_add U64_MAX SEGMENT_HEADER_LEN offset)
                 (wal_error "WAL physical offset overflow");
    Ok (mkSegmentReader r.(sr_position) r.(sr_end) (Some (number, physical)) (Some number)).

(** [file.read_exact]. *)
Definition read_exact (d : WalDir) (file : N * N) (n : N) : DbResult bytes :=
  contents ← ok_or (d.(segments) !! file.1) (db_io "failed to read WAL segment");
  ok_or (get_range contents file.2 (file.2 + n)) (db_io "failed to read WAL segment").

Fixpoint read_exact_into (fuel : nat) (d : WalDir) (r : SegmentReader) (target_len : N)
    : DbResult (bytes * SegmentReader) :=
  match fuel with
  | O => Ok ([], r)
  | S fuel =>
    if target_len =? 0 then Ok ([], r)
    else
      let number := r.(sr_position) / SEGMENT_PAYLOAD_BYTES in
      let offset := r.(sr_position) mod SEGMENT_PAYLOAD_BYTES in
      r ← ensure_file d r number offset;
      available ← ok_or (checked_sub SEGMENT_PAYLOAD_BYTES offset)
                    (wal_error "WAL segment offset overflow");
      let n := N.min available target_len in
      file ← ok_or r.(sr_file) (wal_error "WAL segment reader has no file");
      chunk ← read_exact d file n;
      position ← ok_or (checked_add U64_MAX r.(sr_position) n)
                   (wal_error "WAL reader position overflow");
      let r := mkSegmentReader position r.(sr_end) (Some (file.1, file.2 + n)) r.(sr_file_number) in
      '(rest, r) ← read_exact_into fuel d r (target_len - n);
      Ok (chunk ++ rest, r)
  end.

(** Every turn of the loop reads a byte, so [length] turns are enough. *)
Definition read_exact_vec (d : WalDir) (r : SegmentReader) (length : N)
    : DbResult (option (bytes * SegmentReader)) :=
  if sr_remaining r <? length then Ok None
  else
    x ← read_exact_into (N.to_nat length) d r length;
    Ok (Some x).

(** ** Appending *)

(** [seek] and [write_all] on a file: a gap is filled with zeros. *)
Definition write_at (offset : N) (chunk : bytes) (file : bytes) : bytes :=
  resize (N.to_nat offset) 0 file ++ chunk ++ drop (N.to_nat (offset + len chunk)) file.

(** The state of [append_stream]: the directory and [*active_number]. *)
Definition in_dir {A} (m : FS A) : SE (WalDir * N) DbError A := fun s =>
  let '(d, r) := m s.1 in ((d, s.2), r).

(** [write_all] to the active handle: a file unlinked meanwhile absorbs the bytes. *)
Definition write_active (physical : N) (chunk : bytes) : SE (WalDir * N) DbError unit :=
  modify (fun s => (set_segments (alter (write_at physical chunk) s.2) s.1, s.2)).

(** The rollover of [append_stream]: make [number] the active segment. *)
Definition select_segment (number : N) : SE (WalDir * N) DbError unit :=
  active_number ← gets snd;
  (if negb (number =? active_number) then
     _ ← in_dir (open_or_create number);
     modify (fun s => (s.1, number))
   else mret ()).

(** [fault] is the environment: [Some (k, e)] makes the write that would store
    byte [k] of the record store only the bytes before it and fail with [e]. *)
Fixpoint append_stream (fuel : nat) (fault : option (N * DbError)) (position : Lsn)
    (remaining : bytes) : SE (WalDir * N) DbError unit :=
  match fuel with
  | O => mret ()
  | S fuel =>
    if bool_decide (remaining = []) then mret ()
    else
      let number := position / SEGMENT_PAYLOAD_BYTES in
      _ ← select_segment number;
      let offset := position mod SEGMENT_PAYLOAD_BYTES in
      physical ← lift (ok_or (checked_add U64_MAX SEGMENT_HEADER_LEN offset)
                         (wal_error "WAL physical offset overflow"));
      available ← lift (ok_or (checked_sub SEGMENT_PAYLOAD_BYTES offset)
                          (wal_error "WAL segment offset overflow"));
      let n := N.min available (len remaining) in
      let chunk := take (N.to_nat n) remaining in
      _ ← (match fault with
           | Some (k, e) =>
               if k <? n then
                 _ ← write_active physical (take (N.to_nat k) chunk);
                 lift (Err e)
               else write_active physical chunk
           | None => write_active physical chunk
           end);
      position ← lift (ok_or (checked_add U64_MAX position n)
                         (wal_error "WAL append position overflow"));
      append_stream fuel (prod_map (fun k => k - n) id <$> fault) position (drop (N.to_nat n) remaining)
  end.

(** ** Truncation and recycling *)

Definition active_segment_number (position : Lsn) : DbResult N :=
  if (0 <? position) && (position mod SEGMENT_PAYLOAD_BYTES =? 0)
  then ok_or (checked_sub (position / SEGMENT_PAYLOAD_BYTES) 1) (wal_error "WAL active segment underflow")
  else Ok (position / SEGMENT_PAYLOAD_BYTES).

(** Remove [first_remove .. number], from the last one down. *)
Fixpoint remove_down (fuel : nat) (number first_remove : N) : FS unit :=
  _ ← remove_segment number;
  if number =? first_remove then mret ()
  else
    match fuel with
    | O => lift (Err (wal_error "WAL segment number underflow"))
    | S fuel =>
        number ← lift (ok_or (checked_sub number 1) (wal_error "WAL segment number underflow"));
        remove_down fuel number first_remove
    end.

(** The handle it returns is the number of the segment kept last. *)
Definition truncate_stream (position old_end floor : Lsn) : FS N :=
  let keep_preceding :=
    (0 <? position) && (position mod SEGMENT_PAYLOAD_BYTES =? 0) && (floor <? position) in
  keep_number ← lift (if keep_preceding
                      then ok_or (checked_sub (position / SEGMENT_PAYLOAD_BYTES) 1)
                             (wal_error "WAL truncate segment underflow")
                      else Ok (position / SEGMENT_PAYLOAD_BYTES));
  let keep_payload :=
    if keep_preceding then SEGMENT_PAYLOAD_BYTES else position mod SEGMENT_PAYLOAD_BYTES in
  let old_last := old_end / SEGMENT_PAYLOAD_BYTES in
  first_remove ← lift (ok_or (checked_add U64_MAX keep_number 1)
                         (wal_error "WAL segment number overflow"));
  _ ← (if first_remove <=? old_last
       then remove_down (N.to_nat (old_last - first_remove)) old_last first_remove
       else mret ());
  _ ← open_or_create keep_number;
  keep_len ← lift (ok_or (checked_add U64_MAX SEGMENT_HEADER_LEN keep_payload)
                     (wal_error "WAL truncate length overflow"));
  _ ← modify (set_segments (alter (resize (N.to_nat keep_len) 0) keep_number));
  mret keep_number.

(** The loop of [recycle_segments]. *)
Fixpoint recycle_up (fuel : nat) (number first_keep : N) : FS unit :=
  if first_keep <=? number then mret ()
  else
    match fuel with
    | O => mret ()
    | S fuel =>
        _ ← remove_segment number;
        number ← lift (ok_or (checked_add U64_MAX number 1) (wal_error "WAL segment number overflow"));
        recycle_up fuel number first_keep
    end.

Definition recycle_segments (old_floor floor : Lsn) : FS unit :=
  let first_keep := floor / SEGMENT_PAYLOAD_BYTES in
  let number := old_floor / SEGMENT_PAYLOAD_BYTES in
  recycle_up (N.to_nat (first_keep - number)) number first_keep.

Definition recycle_orphaned_segments (floor : Lsn) : FS unit :=
  let first_keep := floor / SEGMENT_PAYLOAD_BYTES in
  numbers ← gets segment_numbers;
  for_each numbers (fun number =>
    if number <? first_keep then remove_segment number else mret ()).

(** ** The stream a directory represents *)

Definition header_prefix (number : N) : bytes :=
  SEGMENT_MAGIC ++ to_le_bytes 4 WAL_FORMAT_VERSION ++ to_le_bytes 8 number
  ++ to_le_bytes 8 (number * SEGMENT_PAYLOAD_BYTES) ++ to_le_bytes 4 SEGMENT_PAYLOAD_BYTES.
Definition header_bytes (number : N) : bytes :=
  header_prefix number ++ to_le_bytes 4 (crc32 (header_prefix number)).

(** The directory holds the byte stream [s] that starts at segment [first] in the
    segments [first .. act], each a header and a full chunk but for the last. *)
Record rep (d : WalDir) (first act : N) (s : bytes) : Prop := {
  rep_le : first <= act;
  rep_lo : (act - first) * SEGMENT_PAYLOAD_BYTES <= len s;
  rep_hi : len s <= (act - first) * SEGMENT_PAYLOAD_BYTES + SEGMENT_PAYLOAD_BYTES;
  rep_seg : forall n, first <= n -> n <= act ->
    d.(segments) !! n =
      Some (header_bytes n ++ sub s ((n - first) * SEGMENT_PAYLOAD_BYTES) SEGMENT_PAYLOAD_BYTES);
  rep_none : forall n, act < n -> d.(segments) !! n = None;
  rep_fit : first * SEGMENT_PAYLOAD_BYTES + len s <= U64_MAX
}.

Lemma payload_pos : 0 < SEGMENT_PAYLOAD_BYTES.
Proof. done. Qed.
Lemma payload_ge2 : 2 <= SEGMENT_PAYLOAD_BYTES.
Proof. done. Qed.
Lemma payload_u32 : SEGMENT_PAYLOAD_BYTES <= U32_MAX.
Proof. done. Qed.

#[local] Opaque SEGMENT_PAYLOAD_BYTES.

Lemma len_header_bytes n : len (header_bytes n) = SEGMENT_HEADER_LEN.
Proof. unfold header_bytes, header_prefix. rewrite !len_app, !len_le_bytes. done. Qed.

Lemma encode_segment_header_Ok n :
  n * SEGMENT_PAYLOAD_BYTES <= U64_MAX -> encode_segment_header n = Ok (header_bytes n).
Proof.
  intros H. unfold encode_segment_header, checked_mul. by rewrite (proj2 (N.leb_le _ _)) by done.
Qed.

Lemma get_range_app_l a b n : n = len a -> get_range (a ++ b) 0 n = Some a.
Proof. intros ->. apply (get_range_app [] a b). Qed.

Lemma get_range_app_r a b m n : m = len a -> n = len (a ++ b) -> get_range (a ++ b) m n = Some b.
Proof.
  intros -> ->. pose proof (get_range_app a b []) as H. rewrite app_nil_r in H. by rewrite len_app.
Qed.

Lemma seg_u32_app r v rest f : reads r (to_le_bytes 4 v ++ rest) -> v <= U32_MAX ->
  exists r', seg_u32 r f = Ok (v, r') /\ reads r' rest.
Proof. intros Hr Hv. destruct (read_u32_le_app r v rest Hr Hv) as (r' & E & ?). exists r'. unfold seg_u32. by rewrite E. Qed.
Lemma seg_u64_app r v rest m : reads r (to_le_bytes 8 v ++ rest) -> v <= U64_MAX ->
  exists r', seg_u64 r m = Ok (v, r') /\ reads r' rest.
Proof. intros Hr Hv. destruct (read_u64_le_app r v rest Hr Hv) as (r' & E & ?). exists r'. unfold seg_u64. by rewrite E. Qed.

(** Advance the reader of the goal by one field of a file header. *)
Ltac seg_field :=
  match goal with
  | H : reads ?r (to_le_bytes 4 _ ++ _) |- context [seg_u32 ?r ?f] =>
      let r' := fresh "r" in let H' := fresh "Hr" in
      destruct (seg_u32_app _ _ _ f H ltac:(first [assumption|done])) as (r' & -> & H'); clear H
  | H : reads ?r (to_le_bytes 8 _ ++ _) |- context [seg_u64 ?r ?m] =>
      let r' := fresh "r" in let H' := fresh "Hr" in
      destruct (seg_u64_app _ _ _ m H ltac:(first [assumption|lia])) as (r' & -> & H'); clear H
  end; cbn [mbind result_bind].

Lemma reads_at b o : o <= len b -> len b <= USIZE_MAX ->
  exists r, reader_at b o = Ok r /\ reads r (drop (N.to_nat o) b).
Proof.
  intros H1 H2. unfold reader_at. rewrite (proj2 (N.ltb_ge _ _)) by done.
  eexists. split; [done|]. by split_and!.
Qed.

(** A created segment passes validation under its own number, whatever follows
    its header. *)
Lemma validate_header_bytes n payload :
  crc_width crc32 -> n * SEGMENT_PAYLOAD_BYTES <= U64_MAX ->
  validate_segment_header (header_bytes n ++ payload) n = Ok ().
Proof.
  intros Hc Hn. pose proof payload_pos. pose proof payload_u32.
  assert (n <= U64_MAX) by nia.
  unfold validate_segment_header. rewrite (get_range_app_l _ _ _ (eq_sym (len_header_bytes n))).
  cbn [ok_or mbind result_bind].
  replace (get_range (header_bytes n) 0 4) with (Some SEGMENT_MAGIC).
  2:{ unfold header_bytes, header_prefix. rewrite <- app_assoc. by rewrite get_range_app_l. }
  rewrite bool_decide_true by done. cbn [negb].
  replace (checked_sub SEGMENT_HEADER_LEN 4) with (Some 28) by done. cbn [ok_or mbind result_bind].
  rewrite len_header_bytes.
  assert (Hp : 28 = len (header_prefix n)).
  { unfold header_prefix. rewrite !len_app, !len_le_bytes. done. }
  replace (get_range (header_bytes n) 28 SEGMENT_HEADER_LEN)
    with (Some (to_le_bytes 4 (crc32 (header_prefix n)))).
  2:{ symmetry. apply get_range_app_r; [done|]. by rewrite <- (len_header_bytes n). }
  cbn [ok_or mbind result_bind]. rewrite len_le_bytes. change (N.of_nat 4 =? 4) with true.
  cbn [mbind result_bind].
  replace (get_range (header_bytes n) 0 28) with (Some (header_prefix n))
    by (symmetry; by apply get_range_app_l).
  cbn [ok_or mbind result_bind]. rewrite from_to_le_bytes.
  2:{ specialize (Hc (header_prefix n)). unfold U32_MAX in Hc. simpl. lia. }
  rewrite N.eqb_refl. cbn [negb].
  destruct (reads_at (header_bytes n) 4) as (r & -> & Hr);
    [rewrite len_header_bytes; done|rewrite len_header_bytes; done|].
  cbn [map_err mbind result_bind].
  replace (drop (N.to_nat 4) (header_bytes n)) with (to_le_bytes 4 WAL_FORMAT_VERSION ++ to_le_bytes 8 n
    ++ to_le_bytes 8 (n * SEGMENT_PAYLOAD_BYTES) ++ to_le_bytes 4 SEGMENT_PAYLOAD_BYTES
    ++ to_le_bytes 4 (crc32 (header_prefix n))) in Hr.
  2:{ unfold header_bytes. unfold header_prefix at 2. by rewrite <- !app_assoc. }
  assert (WAL_FORMAT_VERSION <= U32_MAX) by done.
  seg_field. rewrite N.eqb_refl. cbn [negb]. repeat seg_field.
  unfold checked_mul. rewrite (proj2 (N.leb_le _ _)) by done. cbn [ok_or mbind result_bind].
  by rewrite !N.eqb_refl.
Qed.

(** The metadata file reads back what was written. *)
Lemma decode_encode_meta m :
  crc_width crc32 -> m.(replay_floor) <= U64_MAX -> m.(durable_end) <= U64_MAX ->
  decode_meta (encode_meta m) = Ok m.
Proof.
  intros Hc Hf Hd. unfold decode_meta.
  set (b := META_MAGIC ++ to_le_bytes 4 META_VERSION ++ to_le_bytes 4 WAL_FORMAT_VERSION
    ++ to_le_bytes 4 SEGMENT_PAYLOAD_BYTES ++ to_le_bytes 8 m.(replay_floor)
    ++ to_le_bytes 8 m.(durable_end)).
  assert (Hb : 32 = len b) by (unfold b; rewrite !len_app, !len_le_bytes; done).
  assert (He : encode_meta m = b ++ to_le_bytes 4 (crc32 b)) by done.
  assert (Hl : len (encode_meta m) = META_LEN) by (rewrite He, len_app, len_le_bytes, <- Hb; done).
  rewrite Hl, N.eqb_refl. cbn [negb].
  assert (Hr : reads (reader_new (encode_meta m)) (META_MAGIC ++ to_le_bytes 4 META_VERSION
    ++ to_le_bytes 4 WAL_FORMAT_VERSION ++ to_le_bytes 4 SEGMENT_PAYLOAD_BYTES
    ++ to_le_bytes 8 m.(replay_floor) ++ to_le_bytes 8 m.(durable_end) ++ to_le_bytes 4 (crc32 b))).
  { match goal with |- reads _ ?x => assert (x = encode_meta m) as -> end.
    { rewrite He. unfold b at 2. by rewrite <- !app_assoc. }
    apply reads_new. rewrite Hl. done. }
  destruct (reader_take_app _ _ _ 4 Hr eq_refl) as (r & -> & Hr1). cbn [map_err mbind result_bind].
  rewrite bool_decide_true by done. cbn [negb].
  pose proof payload_u32. pose proof (Hc b). clear Hr.
  assert (META_VERSION <= U32_MAX) by done. assert (WAL_FORMAT_VERSION <= U32_MAX) by done.
  rewrite <- (app_nil_r (to_le_bytes 4 (crc32 b))) in Hr1.
  do 3 (seg_field; rewrite N.eqb_refl; cbn [negb]). repeat seg_field.
  replace (checked_sub META_LEN 4) with (Some 32) by done. cbn [ok_or mbind result_bind].
  rewrite He, get_range_app_l by done. cbn [ok_or mbind result_bind]. rewrite N.eqb_refl.
  by destruct m.
Qed.

(** ** Reading the represented stream *)

Lemma mul_add_div P q m : m < P -> (q * P + m) / P = q /\ (q * P + m) mod P = m.
Proof.
  intros Hm. split.
  - rewrite N.div_add_l by lia. rewrite N.div_small by done. lia.
  - rewrite N.add_comm, N.Div0.mod_add. by apply N.mod_small.
Qed.

Lemma div_mul_split P pos : 0 < P -> pos = (pos / P) * P + pos mod P /\ pos mod P < P.
Proof.
  intros HP. split; [|apply N.mod_lt; lia]. rewrite N.mul_comm. apply N.div_mod. lia.
Qed.

Lemma position_split pos :
  pos = (pos / SEGMENT_PAYLOAD_BYTES) * SEGMENT_PAYLOAD_BYTES + pos mod SEGMENT_PAYLOAD_BYTES /\
  pos mod SEGMENT_PAYLOAD_BYTES < SEGMENT_PAYLOAD_BYTES.
Proof. apply div_mul_split, payload_pos. Qed.

Lemma position_div q m : m < SEGMENT_PAYLOAD_BYTES ->
  (q * SEGMENT_PAYLOAD_BYTES + m) / SEGMENT_PAYLOAD_BYTES = q /\
  (q * SEGMENT_PAYLOAD_BYTES + m) mod SEGMENT_PAYLOAD_BYTES = m.
Proof. apply mul_add_div. Qed.

Lemma rep_base d first act s n : rep d first act s -> first <= n -> n <= act ->
  n * SEGMENT_PAYLOAD_BYTES <= U64_MAX /\
  first * SEGMENT_PAYLOAD_BYTES + (n - first) * SEGMENT_PAYLOAD_BYTES = n * SEGMENT_PAYLOAD_BYTES.
Proof. intros [] H1 H2. split; nia. Qed.

Lemma read_segment_Ok d n f :
  d.(segments) !! n = Some f -> validate_segment_header f n = Ok () -> read_segment d n = Ok f.
Proof. intros E Hv. unfold read_segment. rewrite E. cbn. by rewrite Hv. Qed.

Lemma read_segment_rep d first act s n :
  crc_width crc32 -> rep d first act s -> first <= n -> n <= act ->
  read_segment d n =
    Ok (header_bytes n ++ sub s ((n - first) * SEGMENT_PAYLOAD_BYTES) SEGMENT_PAYLOAD_BYTES).
Proof.
  intros Hc H H1 H2. apply read_segment_Ok; [by apply rep_seg with act|].
  apply validate_header_bytes; [done|]. by apply (rep_base _ _ _ _ n H).
Qed.

(** A handle the reader keeps stands at the reader's position. *)
Definition reader_ok (r : SegmentReader) : Prop :=
  match r.(sr_file_number) with
  | None => True
  | Some n => exists c, r.(sr_file) = Some (n, c) /\
      (n = r.(sr_position) / SEGMENT_PAYLOAD_BYTES ->
       c = SEGMENT_HEADER_LEN + r.(sr_position) mod SEGMENT_PAYLOAD_BYTES)
  end.

Lemma ensure_file_rep d first act s r :
  crc_width crc32 -> rep d first act s -> reader_ok r ->
  let number := r.(sr_position) / SEGMENT_PAYLOAD_BYTES in
  let offset := r.(sr_position) mod SEGMENT_PAYLOAD_BYTES in
  first <= number -> number <= act ->
  ensure_file d r number offset =
    Ok (mkSegmentReader r.(sr_position) r.(sr_end)
          (Some (number, SEGMENT_HEADER_LEN + offset)) (Some number)).
Proof.
  intros Hc H Hr number offset H1 H2. unfold ensure_file.
  case_bool_decide as E.
  - unfold reader_ok in Hr. rewrite E in Hr. destruct Hr as (c & Hf & Hcur).
    fold offset in Hcur. rewrite <- (Hcur eq_refl). destruct r; simpl in *; congruence.
  - rewrite (read_segment_rep _ _ _ _ _ Hc H H1 H2). cbn [mbind result_bind].
    destruct (position_split r.(sr_position)) as [_ Hm]. fold offset in Hm.
    pose proof payload_u32. unfold checked_add.
    rewrite (proj2 (N.leb_le _ _)); [done|]. unfold SEGMENT_HEADER_LEN, U64_MAX, U32_MAX in *. lia.
Qed.

Lemma read_exact_Ok d n c k f x :
  d.(segments) !! n = Some f -> get_range f c (c + k) = Some x -> read_exact d (n, c) k = Ok x.
Proof. intros E Hg. unfold read_exact. cbn. rewrite E. cbn. by rewrite Hg. Qed.

Lemma read_exact_rep d first act s n m k :
  rep d first act s -> first <= n -> n <= act -> m + k <= SEGMENT_PAYLOAD_BYTES ->
  (n - first) * SEGMENT_PAYLOAD_BYTES + m + k <= len s ->
  read_exact d (n, SEGMENT_HEADER_LEN + m) k =
    Ok (sub s ((n - first) * SEGMENT_PAYLOAD_BYTES + m) k).
Proof.
  intros H H1 H2 H3 H4. eapply read_exact_Ok; [by apply rep_seg with act|].
  set (o := (n - first) * SEGMENT_PAYLOAD_BYTES) in *. clearbody o.
  rewrite <- (sub_sub s o SEGMENT_PAYLOAD_BYTES m k) by done.
  assert (Hlp : m + k <= len (sub s o SEGMENT_PAYLOAD_BYTES)) by (rewrite len_sub; lia).
  revert Hlp. generalize (sub s o SEGMENT_PAYLOAD_BYTES). intros p Hlp.
  assert (Hp : p = sub p 0 m ++ sub p m k ++ sub p (m + k) (len p)).
  { rewrite (sub_split p m k (len p)). rewrite (sub_split p 0 m). symmetry. apply sub_all. lia. }
  assert (Hl : len (sub p 0 m) = m) by (rewrite len_sub; lia).
  rewrite Hp at 1. rewrite app_assoc.
  replace (SEGMENT_HEADER_LEN + m + k) with (len (header_bytes n ++ sub p 0 m) + len (sub p m k)).
  2:{ rewrite len_app, len_header_bytes, Hl, len_sub. lia. }
  replace (SEGMENT_HEADER_LEN + m) with (len (header_bytes n ++ sub p 0 m)).
  2:{ by rewrite len_app, len_header_bytes, Hl. }
  apply get_range_app.
Qed.

Lemma read_exact_into_rep d first act s :
  crc_width crc32 -> rep d first act s ->
  forall fuel r tl, reader_ok r -> first * SEGMENT_PAYLOAD_BYTES <= r.(sr_position) ->
  r.(sr_position) + tl <= first * SEGMENT_PAYLOAD_BYTES + len s -> tl <= N.of_nat fuel ->
  exists r', read_exact_into fuel d r tl =
      Ok (sub s (r.(sr_position) - first * SEGMENT_PAYLOAD_BYTES) tl, r') /\
    r'.(sr_position) = r.(sr_position) + tl /\ r'.(sr_end) = r.(sr_end) /\ reader_ok r'.
Proof.
  intros Hc H. pose proof (rep_hi _ _ _ _ H) as Hhi. pose proof (rep_fit _ _ _ _ H) as Hfit.
  pose proof (rep_le _ _ _ _ H) as Hle. pose proof payload_pos as HP.
  induction fuel as [|fuel IH]; intros r tl Hr Hlo Hend Hfuel; cbn [read_exact_into].
  { exists r. replace tl with 0 by lia. split_and!; [done|lia|done|done]. }
  destruct (N.eqb_spec tl 0) as [->|Hnz].
  { exists r. split_and!; [done|lia|done|done]. }
  destruct (position_split r.(sr_position)) as [Hpos Hm].
  set (q := r.(sr_position) / SEGMENT_PAYLOAD_BYTES) in *.
  set (m := r.(sr_position) mod SEGMENT_PAYLOAD_BYTES) in *.
  assert (Hq1 : first <= q) by nia.
  assert (Hq2 : q <= act) by nia.
  pose proof (ensure_file_rep d first act s r Hc H Hr Hq1 Hq2) as Ef. cbv zeta in Ef.
  fold q m in Ef. cbv zeta. rewrite Ef.
  cbn [mbind result_bind sr_file sr_position sr_end sr_file_number].
  unfold checked_sub. rewrite (proj2 (N.leb_le _ _)) by lia. cbn [ok_or mbind result_bind].
  fold q m. set (k := N.min (SEGMENT_PAYLOAD_BYTES - m) tl).
  rewrite (read_exact_rep d first act s q m k H Hq1 Hq2) by (unfold k; nia).
  cbn [mbind result_bind]. unfold checked_add. rewrite (proj2 (N.leb_le _ _)) by (unfold k; lia).
  cbn [ok_or mbind result_bind fst snd].
  match goal with |- context [read_exact_into fuel d ?x _] => set (r1 := x) end.
  assert (Hr1 : reader_ok r1).
  { unfold reader_ok, r1. cbn. eexists. split; [done|]. intros Hsame.
    destruct (decide (k = SEGMENT_PAYLOAD_BYTES - m)) as [Hk|Hk].
    - exfalso. replace (sr_position r + k) with ((q + 1) * SEGMENT_PAYLOAD_BYTES + 0) in Hsame by lia.
      rewrite (proj1 (position_div (q + 1) 0 HP)) in Hsame. lia.
    - replace (sr_position r + k) with (q * SEGMENT_PAYLOAD_BYTES + (m + k)) by lia.
      rewrite (proj2 (position_div q (m + k) ltac:(unfold k in *; lia))). lia. }
  destruct (IH r1 (tl - k) Hr1) as (r' & -> & Hp' & He' & Hr'); [cbn; lia|cbn; lia|unfold k; lia|].
  cbn [mbind result_bind]. exists r'. cbn in Hp', He'. split_and!; [|lia|done|done].
  do 2 f_equal. cbn [sr_position r1].
  replace (sr_position r + k - first * SEGMENT_PAYLOAD_BYTES)
    with (sr_position r - first * SEGMENT_PAYLOAD_BYTES + k) by lia.
  replace ((q - first) * SEGMENT_PAYLOAD_BYTES + m)
    with (sr_position r - first * SEGMENT_PAYLOAD_BYTES) by nia.
  rewrite sub_split. f_equal. unfold k. lia.
Qed.

(** [read_exact_vec] returns the next bytes of the stream, or [None] past its end. *)
Lemma read_exact_vec_rep d first act s r n :
  crc_width crc32 -> rep d first act s -> reader_ok r ->
  first * SEGMENT_PAYLOAD_BYTES <= r.(sr_position) ->
  r.(sr_end) <= first * SEGMENT_PAYLOAD_BYTES + len s -> n <= r.(sr_end) - r.(sr_position) ->
  exists r', read_exact_vec d r n =
      Ok (Some (sub s (r.(sr_position) - first * SEGMENT_PAYLOAD_BYTES) n, r')) /\
    r'.(sr_position) = r.(sr_position) + n /\ r'.(sr_end) = r.(sr_end) /\ reader_ok r'.
Proof.
  intros Hc H Hr H1 H2 H3. unfold read_exact_vec, sr_remaining.
  rewrite (proj2 (N.ltb_ge _ _)) by done.
  destruct (N.le_gt_cases (sr_position r) (sr_end r)) as [Hle|Hgt].
  - destruct (read_exact_into_rep d first act s Hc H (N.to_nat n) r n) as (r' & -> & Hr');
      [done|done|lia|lia|]. by exists r'.
  - exists r. assert (n = 0) as -> by lia. split_and!; [done|lia|done|done].
Qed.

(** ** Appending to the represented stream *)

Lemma write_at_end f chunk : write_at (len f) chunk f = f ++ chunk.
Proof.
  unfold write_at, len. rewrite Nat2N.id, resize_all. rewrite drop_ge by lia. by rewrite app_nil_r.
Qed.

(** A segment of the directory is replaced: the others are not affected. *)
Lemma rep_alter d first act s s' g :
  rep d first act s ->
  (forall f, f = header_bytes act ++ sub s ((act - first) * SEGMENT_PAYLOAD_BYTES) SEGMENT_PAYLOAD_BYTES ->
     g f = header_bytes act ++ sub s' ((act - first) * SEGMENT_PAYLOAD_BYTES) SEGMENT_PAYLOAD_BYTES) ->
  (forall o, o + SEGMENT_PAYLOAD_BYTES <= (act - first) * SEGMENT_PAYLOAD_BYTES ->
     sub s' o SEGMENT_PAYLOAD_BYTES = sub s o SEGMENT_PAYLOAD_BYTES) ->
  (act - first) * SEGMENT_PAYLOAD_BYTES <= len s' ->
  len s' <= (act - first) * SEGMENT_PAYLOAD_BYTES + SEGMENT_PAYLOAD_BYTES ->
  first * SEGMENT_PAYLOAD_BYTES + len s' <= U64_MAX ->
  rep (set_segments (alter g act) d) first act s'.
Proof.
  intros [Hle _ _ Hseg Hnone _] Hg Hsub Hlo' Hhi' Hfit'.
  split; [done|done|done| | |done]; cbn [segments set_segments].
  - intros n H1 H2. destruct (decide (n = act)) as [->|Hne].
    + rewrite lookup_alter_eq, Hseg by done. cbn [fmap option_fmap option_map]. f_equal. by apply Hg.
    + rewrite lookup_alter_ne, Hseg by done. by rewrite Hsub by nia.
  - intros n Hn. rewrite lookup_alter_ne by lia. auto.
Qed.

Lemma write_active_rep d first act s c :
  rep d first act s ->
  len s + len c <= (act - first) * SEGMENT_PAYLOAD_BYTES + SEGMENT_PAYLOAD_BYTES ->
  first * SEGMENT_PAYLOAD_BYTES + len s + len c <= U64_MAX ->
  rep (set_segments (alter (write_at
    (SEGMENT_HEADER_LEN + (len s - (act - first) * SEGMENT_PAYLOAD_BYTES)) c) act) d)
    first act (s ++ c).
Proof.
  intros H Hc Hfit. pose proof (rep_lo _ _ _ _ H). pose proof (rep_hi _ _ _ _ H).
  eapply rep_alter; [done| | | | |]; rewrite ?len_app; try lia.
  - intros f ->. rewrite sub_app_tail by lia.
    replace (SEGMENT_HEADER_LEN + _) with (len (header_bytes act ++
      sub s ((act - first) * SEGMENT_PAYLOAD_BYTES) SEGMENT_PAYLOAD_BYTES)).
    + rewrite write_at_end. by rewrite <- app_assoc.
    + rewrite len_app, len_header_bytes, len_sub. lia.
  - intros o Ho. apply sub_app_l. lia.
Qed.

Lemma open_or_create_new d n :
  d.(segments) !! n = None -> n * SEGMENT_PAYLOAD_BYTES <= U64_MAX ->
  open_or_create n d = (set_segments <[n := header_bytes n]> d, Ok ()).
Proof.
  intros E Hn. unfold open_or_create, read_segment. rewrite E. cbn [ok_or mbind result_bind].
  rewrite bool_decide_true by done. unfold create_segment, mbind, se_bind, gets. rewrite E.
  unfold lift. by rewrite encode_segment_header_Ok.
Qed.

(** Rolling over to a fresh segment keeps the stream. *)
Lemma rollover_rep d first act s :
  rep d first act s -> len s = (act - first) * SEGMENT_PAYLOAD_BYTES + SEGMENT_PAYLOAD_BYTES ->
  rep (set_segments <[act + 1 := header_bytes (act + 1)]> d) first (act + 1) s.
Proof.
  intros [Hle Hlo Hhi Hseg Hnone Hfit] Hfull.
  split; [lia|nia|nia| | |done]; cbn [segments set_segments].
  - intros n H1 H2. destruct (decide (n = act + 1)) as [->|Hne].
    + rewrite lookup_insert_eq. rewrite sub_past by nia. by rewrite app_nil_r.
    + rewrite lookup_insert_ne by done. apply Hseg; lia.
  - intros n Hn. rewrite lookup_insert_ne by lia. apply Hnone. lia.
Qed.

(** Where the next byte of the stream goes. *)
Lemma append_position d first act s :
  rep d first act s ->
  let pos := first * SEGMENT_PAYLOAD_BYTES + len s in
  (pos / SEGMENT_PAYLOAD_BYTES = act /\
   pos mod SEGMENT_PAYLOAD_BYTES = len s - (act - first) * SEGMENT_PAYLOAD_BYTES /\
   len s < (act - first) * SEGMENT_PAYLOAD_BYTES + SEGMENT_PAYLOAD_BYTES) \/
  (pos / SEGMENT_PAYLOAD_BYTES = act + 1 /\ pos mod SEGMENT_PAYLOAD_BYTES = 0 /\
   len s = (act - first) * SEGMENT_PAYLOAD_BYTES + SEGMENT_PAYLOAD_BYTES).
Proof.
  intros [Hle Hlo Hhi _ _ _] pos. pose proof payload_pos as HP.
  destruct (N.lt_ge_cases (len s) ((act - first) * SEGMENT_PAYLOAD_BYTES + SEGMENT_PAYLOAD_BYTES)) as [Hlt|Hge].
  - left. assert (pos = act * SEGMENT_PAYLOAD_BYTES + (len s - (act - first) * SEGMENT_PAYLOAD_BYTES)) as ->
      by (unfold pos; nia).
    destruct (position_div act (len s - (act - first) * SEGMENT_PAYLOAD_BYTES)) as [-> ->]; [lia|done].
  - right. assert (pos = (act + 1) * SEGMENT_PAYLOAD_BYTES + 0) as -> by (unfold pos; nia).
    destruct (position_div (act + 1) 0 HP) as [-> ->]. split_and!; [done|done|lia].
Qed.

Lemma select_segment_rep d first act s :
  rep d first act s ->
  let pos := first * SEGMENT_PAYLOAD_BYTES + len s in
  let number := pos / SEGMENT_PAYLOAD_BYTES in
  exists d', select_segment number (d, act) = ((d', number), Ok ()) /\ rep d' first number s /\
    d'.(meta_file) = d.(meta_file) /\
    pos mod SEGMENT_PAYLOAD_BYTES = len s - (number - first) * SEGMENT_PAYLOAD_BYTES /\
    len s < (number - first) * SEGMENT_PAYLOAD_BYTES + SEGMENT_PAYLOAD_BYTES.
Proof.
  intros H. cbv zeta. pose proof (rep_le _ _ _ _ H). pose proof payload_pos.
  pose proof (rep_fit _ _ _ _ H) as Hfit.
  destruct (append_position _ _ _ _ H) as [(-> & -> & Hlt)|(-> & -> & Hfull)];
    unfold select_segment, mbind, se_bind, gets; cbn [snd].
  - rewrite N.eqb_refl. cbn [negb]. exists d. by split_and!.
  - rewrite (proj2 (N.eqb_neq _ _)) by lia. cbn [negb]. unfold in_dir. cbn [fst snd].
    rewrite open_or_create_new; [|apply (rep_none _ _ _ _ H); lia|nia].
    eexists. split; [done|]. split; [by apply rollover_rep|]. cbn. split_and!; [done|nia|nia].
Qed.

(** The outcome of an append under a fault of the environment. *)
Definition fault_result (fault : option (N * DbError)) (n : N) : DbResult unit :=
  match fault with
  | Some (k, e) => if k <? n then Err e else Ok ()
  | None => Ok ()
  end.
Definition fault_bytes (fault : option (N * DbError)) (b : bytes) : bytes :=
  match fault with
  | Some (k, _) => take (N.to_nat k) b
  | None => b
  end.

Lemma take_drop_min (b : bytes) k n :
  n <= k -> take (N.to_nat n) b ++ take (N.to_nat (k - n)) (drop (N.to_nat n) b) = take (N.to_nat k) b.
Proof. intros H. rewrite take_take_drop. f_equal. lia. Qed.

Lemma append_stream_rep first fuel : forall fault d act s b,
  rep d first act s -> first * SEGMENT_PAYLOAD_BYTES + len s + len b <= U64_MAX ->
  (length b <= fuel)%nat ->
  exists d' act', append_stream fuel fault (first * SEGMENT_PAYLOAD_BYTES + len s) b (d, act)
      = ((d', act'), fault_result fault (len b)) /\
    rep d' first act' (s ++ fault_bytes fault b) /\ d'.(meta_file) = d.(meta_file).
Proof.
  pose proof payload_pos as HP. pose proof payload_u32 as HU.
  induction fuel as [|fuel IH]; intros fault d act s b H Hfit Hfuel.
  { assert (b = []) as -> by (destruct b; [done|simpl in Hfuel; lia]).
    exists d, act. unfold fault_result, fault_bytes. cbn [append_stream].
    destruct fault as [[k e]|]; rewrite ?take_nil, app_nil_r; [|done].
    by rewrite (proj2 (N.ltb_ge k (len []))) by (unfold len; simpl; lia). }
  cbn [append_stream]. case_bool_decide as Eb.
  { subst b. exists d, act. unfold fault_result, fault_bytes.
    destruct fault as [[k e]|]; rewrite ?take_nil, app_nil_r; [|done].
    by rewrite (proj2 (N.ltb_ge k (len []))) by (unfold len; simpl; lia). }
  set (pos := first * SEGMENT_PAYLOAD_BYTES + len s) in *.
  destruct (select_segment_rep d first act s H) as (d1 & Esel & H1 & Hm1 & Hoff & Hlt).
  fold pos in Esel, H1, Hoff, Hlt. set (number := pos / SEGMENT_PAYLOAD_BYTES) in *.
  rewrite (se_bind_Ok _ _ _ _ _ Esel). cbv zeta. rewrite Hoff.
  set (off := len s - (number - first) * SEGMENT_PAYLOAD_BYTES) in *.
  pose proof (rep_lo _ _ _ _ H1) as Hlo.
  assert (Hadd : checked_add U64_MAX SEGMENT_HEADER_LEN off = Some (SEGMENT_HEADER_LEN + off)).
  { apply checked_add_Some. unfold SEGMENT_HEADER_LEN, U64_MAX, U32_MAX in *. split; [done|lia]. }
  assert (Hsub : checked_sub SEGMENT_PAYLOAD_BYTES off = Some (SEGMENT_PAYLOAD_BYTES - off)).
  { unfold checked_sub. by rewrite (proj2 (N.leb_le _ _)) by lia. }
  rewrite Hadd, Hsub. cbn [ok_or]. rewrite !lift_bind_Ok.
  set (n := N.min (SEGMENT_PAYLOAD_BYTES - off) (len b)).
  assert (Hn : 0 < n /\ n <= len b /\ off + n <= SEGMENT_PAYLOAD_BYTES).
  { assert (len b <> 0). { unfold len. destruct b; [done|simpl; lia]. } unfold n. lia. }
  assert (Hlen : len (take (N.to_nat n) b) = n) by (unfold len in *; rewrite length_take; lia).
  assert (Hpos : checked_add U64_MAX pos n = Some (pos + n)).
  { apply checked_add_Some. split; [done|lia]. }
  assert (Hdone : match fault with Some (k, _) => n <= k | None => True end ->
    exists d' act', append_stream fuel (prod_map (fun k => k - n) id <$> fault) (pos + n)
        (drop (N.to_nat n) b)
        (set_segments (alter (write_at (SEGMENT_HEADER_LEN + off) (take (N.to_nat n) b)) number) d1, number)
      = ((d', act'), fault_result fault (len b)) /\
      rep d' first act' (s ++ fault_bytes fault b) /\ d'.(meta_file) = d.(meta_file)).
  { intros Hk.
    pose proof (write_active_rep d1 first number s (take (N.to_nat n) b) H1) as H2.
    fold off in H2. rewrite Hlen in H2. specialize (H2 ltac:(lia) ltac:(lia)).
    destruct (IH (prod_map (fun k => k - n) id <$> fault) _ _ _ (drop (N.to_nat n) b) H2)
      as (d' & act' & E' & H' & Hm').
    - rewrite len_app, Hlen. unfold len in *. rewrite length_drop. lia.
    - rewrite length_drop. lia.
    - exists d', act'. rewrite len_app, Hlen in E'. replace (pos + n) with
        (first * SEGMENT_PAYLOAD_BYTES + (len s + n)) by (unfold pos; lia). rewrite E'.
      split_and!.
      + f_equal. unfold fault_result. destruct fault as [[k e]|]; [|done]. cbn.
        replace (len (drop (N.to_nat n) b)) with (len b - n) by (unfold len; rewrite length_drop; lia).
        destruct (N.ltb_spec (k - n) (len b - n)), (N.ltb_spec k (len b)); first [done|lia].
      + rewrite <- app_assoc in H'. unfold fault_bytes in *. destruct fault as [[k e]|]; cbn in H'.
        * by rewrite take_drop_min in H'.
        * by rewrite take_drop in H'.
      + by rewrite Hm'. }
  destruct fault as [[k e]|].
  - fold n. destruct (N.ltb_spec k n) as [Hkn|Hkn].
    + erewrite se_bind_Err by (unfold write_active; rewrite modify_bind; reflexivity). cbn [fst snd].
      eexists _, _. split; [unfold fault_result; by rewrite (proj2 (N.ltb_lt k (len b))) by lia|].
      split; [|done]. cbn [fault_bytes]. rewrite take_take.
      replace (N.to_nat k `min` N.to_nat n)%nat with (N.to_nat k) by lia.
      assert (Hk : len (take (N.to_nat k) b) = k) by (unfold len in *; rewrite length_take; lia).
      apply write_active_rep; [done| |]; rewrite Hk; lia.
    + rewrite (se_bind_Ok (write_active _ _) _ _ _ _ eq_refl), Hpos. cbn [ok_or fst snd].
      rewrite lift_bind_Ok. by apply Hdone.
  - fold n. rewrite (se_bind_Ok (write_active _ _) _ _ _ _ eq_refl), Hpos. cbn [ok_or fst snd].
    rewrite lift_bind_Ok. by apply Hdone.
Qed.

(** ** Truncation, discovery and recycling of the represented stream *)

Lemma remove_down_spec fuel : forall number first_remove d,
  first_remove <= number -> number - first_remove <= N.of_nat fuel ->
  exists d', remove_down fuel number first_remove d = (d', Ok ()) /\
    d'.(meta_file) = d.(meta_file) /\
    forall n, d'.(segments) !! n =
      if (first_remove <=? n) && (n <=? number) then None else d.(segments) !! n.
Proof.
  induction fuel as [|fuel IH]; intros number first_remove d H1 H2; cbn [remove_down];
    unfold remove_segment; rewrite modify_bind.
  - assert (number = first_remove) as -> by lia. rewrite N.eqb_refl.
    eexists. split; [done|]. split; [done|]. intros n. cbn [set_segments segments].
    destruct (N.leb_spec first_remove n), (N.leb_spec n first_remove); simpl;
      first [by replace n with first_remove by lia; rewrite lookup_delete_eq
            |by rewrite lookup_delete_ne by lia].
  - destruct (N.eqb_spec number first_remove) as [->|Hne].
    + eexists. split; [done|]. split; [done|]. intros n. cbn [set_segments segments].
      destruct (N.leb_spec first_remove n), (N.leb_spec n first_remove); simpl;
        first [by replace n with first_remove by lia; rewrite lookup_delete_eq
              |by rewrite lookup_delete_ne by lia].
    + unfold checked_sub. rewrite (proj2 (N.leb_le 1 number)) by lia. cbn [ok_or].
      rewrite lift_bind_Ok.
      destruct (IH (number - 1) first_remove (set_segments (delete number) d)) as (d' & E & Hm & Hs);
        [lia|lia|].
      exists d'. split; [done|]. split; [done|]. intros n. rewrite Hs. cbn [set_segments segments].
      destruct (decide (n = number)) as [->|Hn].
      * rewrite lookup_delete_eq. rewrite (proj2 (N.leb_le number number)) by lia.
        rewrite (proj2 (N.leb_le first_remove number)) by lia. by destruct (_ && _).
      * rewrite lookup_delete_ne by done.
        destruct (N.leb_spec first_remove n), (N.leb_spec n (number - 1)), (N.leb_spec n number);
          simpl; first [done|lia].
Qed.

(** Removing the segments of a list that satisfy a test. *)
Lemma for_each_remove (p : N -> bool) l : forall d,
  exists d', for_each l (fun n => if p n then remove_segment n else mret ()) d = (d', Ok ()) /\
    d'.(meta_file) = d.(meta_file) /\
    forall n, d'.(segments) !! n =
      if bool_decide (n ∈ l) && p n then None else d.(segments) !! n.
Proof.
  induction l as [|x l IH]; intros d; cbn [for_each].
  { exists d. split_and!; [done|done|]. intros n. by rewrite bool_decide_false by set_solver. }
  assert (Hstep : exists d1, (if p x then remove_segment x else mret ()) d = (d1, Ok ()) /\
    d1.(meta_file) = d.(meta_file) /\
    forall n, d1.(segments) !! n = if bool_decide (n = x) && p n then None else d.(segments) !! n).
  { destruct (p x) eqn:Ep; eexists; (split; [reflexivity|]); (split; [done|]); intros n; cbn [set_segments segments].
    - case_bool_decide; [subst; by rewrite lookup_delete_eq, Ep|by rewrite lookup_delete_ne by done].
    - case_bool_decide; [subst; by rewrite Ep|done]. }
  destruct Hstep as (d1 & E1 & Hm1 & Hs1). rewrite (se_bind_Ok _ _ _ _ _ E1).
  destruct (IH d1) as (d' & E' & Hm' & Hs'). exists d'. split; [done|]. split; [by rewrite Hm'|].
  intros n. rewrite Hs', Hs1. destruct (p n); rewrite ?andb_false_r, ?andb_true_r; [|done].
  rewrite (bool_decide_ext (n ∈ x :: l) (n = x \/ n ∈ l)) by apply elem_of_cons.
  rewrite bool_decide_or. by destruct (bool_decide (n = x)), (bool_decide (n ∈ l)).
Qed.

Lemma open_or_create_old d n f :
  read_segment d n = Ok f -> open_or_create n d = (d, Ok ()).
Proof. intros E. unfold open_or_create. by rewrite E. Qed.

(** Dropping the segments after [keep] keeps what they held before it. *)
Lemma rep_drop_after d d' first act keep s :
  rep d first act s -> first <= keep -> keep <= act ->
  (keep - first) * SEGMENT_PAYLOAD_BYTES <= len s ->
  (forall n, d'.(segments) !! n = if keep <? n then None else d.(segments) !! n) ->
  rep d' first keep
    (take (N.to_nat ((keep - first) * SEGMENT_PAYLOAD_BYTES + SEGMENT_PAYLOAD_BYTES)) s).
Proof.
  intros [Hle Hlo Hhi Hseg Hnone Hfit] H1 H2 H3 Hd.
  set (s' := take _ s).
  assert (Hl : len s' = N.min ((keep - first) * SEGMENT_PAYLOAD_BYTES + SEGMENT_PAYLOAD_BYTES) (len s))
    by (unfold s', len; rewrite length_take; lia).
  split; [done|lia|lia| | |lia].
  - intros n Hn1 Hn2. rewrite Hd, (proj2 (N.ltb_ge _ _)) by done. rewrite Hseg by lia.
    unfold s'. by rewrite sub_take by nia.
  - intros n Hn. by rewrite Hd, (proj2 (N.ltb_lt _ _)).
Qed.

Lemma resize_file act o kp s :
  kp <= SEGMENT_PAYLOAD_BYTES -> o + kp <= len s ->
  resize (N.to_nat (SEGMENT_HEADER_LEN + kp)) 0 (header_bytes act ++ sub s o SEGMENT_PAYLOAD_BYTES)
  = header_bytes act ++ sub (take (N.to_nat (o + kp)) s) o SEGMENT_PAYLOAD_BYTES.
Proof.
  intros H1 H2.
  assert (Hh : length (header_bytes act) = N.to_nat SEGMENT_HEADER_LEN).
  { pose proof (len_header_bytes act) as Hh. unfold len in Hh. lia. }
  assert (Hp : (N.to_nat kp <= length (sub s o SEGMENT_PAYLOAD_BYTES))%nat).
  { pose proof (len_sub s o SEGMENT_PAYLOAD_BYTES) as Hp. unfold len in *. lia. }
  rewrite N2Nat.inj_add, <- Hh. rewrite resize_le by (rewrite length_app; lia).
  rewrite take_app_add. f_equal. unfold sub in *.
  rewrite skipn_firstn_comm, !take_take. rewrite N2Nat.inj_add. f_equal. lia.
Qed.

(** The durable part of a segment file. *)
Lemma take_file act o kp s t :
  kp <= SEGMENT_PAYLOAD_BYTES -> o + kp = len s ->
  take (N.to_nat (SEGMENT_HEADER_LEN + kp)) (header_bytes act ++ sub (s ++ t) o SEGMENT_PAYLOAD_BYTES)
  = header_bytes act ++ sub s o SEGMENT_PAYLOAD_BYTES.
Proof.
  intros H1 H2.
  assert (Hl : (N.to_nat (SEGMENT_HEADER_LEN + kp) <=
    length (header_bytes act ++ sub (s ++ t) o SEGMENT_PAYLOAD_BYTES))%nat).
  { pose proof (len_header_bytes act) as Hh. pose proof (len_sub (s ++ t) o SEGMENT_PAYLOAD_BYTES) as Hs.
    rewrite len_app in Hs. rewrite length_app. unfold len in *. lia. }
  rewrite <- (resize_le _ _ 0 Hl). rewrite resize_file; [|done|rewrite len_app; lia].
  rewrite H2. unfold len. rewrite Nat2N.id, take_app_length. reflexivity.
Qed.

(** The segment [truncate_stream] keeps last and what it leaves in it. *)
Definition keep_number (position floor : Lsn) : N :=
  if (0 <? position) && (position mod SEGMENT_PAYLOAD_BYTES =? 0) && (floor <? position)
  then position / SEGMENT_PAYLOAD_BYTES - 1 else position / SEGMENT_PAYLOAD_BYTES.
Definition keep_payload (position floor : Lsn) : N :=
  if (0 <? position) && (position mod SEGMENT_PAYLOAD_BYTES =? 0) && (floor <? position)
  then SEGMENT_PAYLOAD_BYTES else position mod SEGMENT_PAYLOAD_BYTES.

Lemma keep_spec position floor :
  floor <= position ->
  position = keep_number position floor * SEGMENT_PAYLOAD_BYTES + keep_payload position floor /\
  keep_payload position floor <= SEGMENT_PAYLOAD_BYTES /\
  floor / SEGMENT_PAYLOAD_BYTES <= keep_number position floor /\
  (floor / SEGMENT_PAYLOAD_BYTES * SEGMENT_PAYLOAD_BYTES < position -> 0 < keep_payload position floor).
Proof.
  intros Hf. pose proof payload_pos as HP. unfold keep_number, keep_payload.
  destruct (position_split position) as [Hp Hm]. destruct (position_split floor) as [Hfp Hfm].
  set (q := position / SEGMENT_PAYLOAD_BYTES) in *. set (m := position mod SEGMENT_PAYLOAD_BYTES) in *.
  set (fq := floor / SEGMENT_PAYLOAD_BYTES) in *. set (fm := floor mod SEGMENT_PAYLOAD_BYTES) in *.
  assert (Hq : fq <= q) by (by apply N.Div0.div_le_mono).
  destruct (N.ltb_spec 0 position); cbn [andb]; [|split_and!; [lia|lia|lia|nia]].
  destruct (N.eqb_spec m 0) as [Hm0|Hm0]; cbn [andb]; [|split_and!; [lia|lia|lia|lia]].
  destruct (N.ltb_spec floor position); cbn [andb].
  - assert (0 < q) by nia. split_and!; [nia|lia|nia|lia].
  - assert (floor = position) as Heq by lia. assert (fq = q) by (unfold fq; by rewrite Heq).
    split_and!; [lia|lia|lia|nia].
Qed.

(** The removal loop of [truncate_stream]. *)
Lemma truncate_removes d first act s keep old_last :
  rep d first act s -> act <= old_last ->
  exists d', (if keep + 1 <=? old_last
      then remove_down (N.to_nat (old_last - (keep + 1))) old_last (keep + 1) else mret ()) d
      = (d', Ok ()) /\ d'.(meta_file) = d.(meta_file) /\
    forall n, d'.(segments) !! n = if keep <? n then None else d.(segments) !! n.
Proof.
  intros H Hact. destruct (N.leb_spec (keep + 1) old_last) as [Hle|Hgt].
  - destruct (remove_down_spec (N.to_nat (old_last - (keep + 1))) old_last (keep + 1) d)
      as (d' & E & Hm & Hs); [done|lia|].
    exists d'. split_and!; [done|done|]. intros n. rewrite Hs.
    destruct (N.leb_spec (keep + 1) n), (N.leb_spec n old_last), (N.ltb_spec keep n); simpl;
      first [done|lia|idtac]. apply (rep_none _ _ _ _ H). lia.
  - exists d. split_and!; [done|done|]. intros n. destruct (N.ltb_spec keep n); [|done].
    apply (rep_none _ _ _ _ H). lia.
Qed.

Lemma keep_fits d first act s position floor :
  rep d first act s -> first = floor / SEGMENT_PAYLOAD_BYTES -> floor <= position ->
  position <= first * SEGMENT_PAYLOAD_BYTES + len s ->
  keep_number position floor <= act /\ keep_number position floor + 1 <= U64_MAX /\
  (keep_number position floor - first) * SEGMENT_PAYLOAD_BYTES + keep_payload position floor
    = position - first * SEGMENT_PAYLOAD_BYTES.
Proof.
  intros [Hle Hlo Hhi _ _ Hfit] Hf Hlo' Hhi'. pose proof payload_pos as HP. pose proof payload_ge2.
  destruct (keep_spec position floor Hlo') as (Hp & Hk & Hq & Hz). rewrite <- Hf in Hq, Hz.
  set (k := keep_number position floor) in *. set (kp := keep_payload position floor) in *.
  assert (first * SEGMENT_PAYLOAD_BYTES <= floor).
  { rewrite Hf, N.mul_comm. apply N.Div0.mul_div_le. }
  clear Hf.
  split_and!; [|unfold U64_MAX in *; nia|nia].
  destruct (decide (kp = 0)); nia.
Qed.

(** Truncation leaves the stream up to [position]. *)
Lemma truncate_stream_rep d first act s position old_end floor :
  crc_width crc32 -> rep d first act s -> first = floor / SEGMENT_PAYLOAD_BYTES ->
  floor <= position -> position <= first * SEGMENT_PAYLOAD_BYTES + len s ->
  first * SEGMENT_PAYLOAD_BYTES + len s <= old_end ->
  exists d', truncate_stream position old_end floor d = (d', Ok (keep_number position floor)) /\
    rep d' first (keep_number position floor)
      (take (N.to_nat (position - first * SEGMENT_PAYLOAD_BYTES)) s) /\
    d'.(meta_file) = d.(meta_file).
Proof.
  intros Hc H Hf H1 H2 H3. pose proof payload_pos as HP.
  destruct (keep_spec position floor H1) as (Hp & Hk & Hq & Hz). rewrite <- Hf in Hq, Hz.
  destruct (keep_fits _ _ _ _ _ _ H Hf H1 H2) as (Hka & Hku & Ho).
  assert (Hold : act <= old_end / SEGMENT_PAYLOAD_BYTES).
  { destruct (position_split old_end) as [Hpo Hmo]. pose proof (rep_lo _ _ _ _ H).
    pose proof (rep_le _ _ _ _ H). nia. }
  assert (Htrunc : forall d1 d2, (if keep_number position floor + 1 <=? old_end / SEGMENT_PAYLOAD_BYTES
      then remove_down (N.to_nat (old_end / SEGMENT_PAYLOAD_BYTES - (keep_number position floor + 1)))
             (old_end / SEGMENT_PAYLOAD_BYTES) (keep_number position floor + 1) else mret ()) d
      = (d1, Ok ()) -> open_or_create (keep_number position floor) d1 = (d2, Ok ()) ->
    truncate_stream position old_end floor d =
      (set_segments (alter (resize (N.to_nat (SEGMENT_HEADER_LEN + keep_payload position floor)) 0)
         (keep_number position floor)) d2, Ok (keep_number position floor))).
  { intros d1 d2 E1 E2. unfold truncate_stream.
    assert (Ek : (if (0 <? position) && (position mod SEGMENT_PAYLOAD_BYTES =? 0) && (floor <? position)
      then ok_or (checked_sub (position / SEGMENT_PAYLOAD_BYTES) 1) (wal_error "WAL truncate segment underflow")
      else Ok (position / SEGMENT_PAYLOAD_BYTES)) = Ok (keep_number position floor)).
    { unfold keep_number in *. unfold keep_payload in *.
      destruct ((0 <? position) && _ && _) eqn:Ec; [|done]. to_prop. unfold checked_sub.
      rewrite (proj2 (N.leb_le 1 _)); [done|]. destruct (position_split position). nia. }
    rewrite Ek, lift_bind_Ok.
    assert (Ea : checked_add U64_MAX (keep_number position floor) 1 = Some (keep_number position floor + 1)).
    { by apply checked_add_Some. }
    rewrite Ea. cbn [ok_or]. rewrite lift_bind_Ok, (se_bind_Ok _ _ _ _ _ E1), (se_bind_Ok _ _ _ _ _ E2).
    fold (keep_payload position floor).
    assert (El : checked_add U64_MAX SEGMENT_HEADER_LEN (keep_payload position floor)
                 = Some (SEGMENT_HEADER_LEN + keep_payload position floor)).
    { apply checked_add_Some. pose proof payload_u32. unfold SEGMENT_HEADER_LEN, U64_MAX, U32_MAX in *.
      split; [done|lia]. }
    rewrite El. cbn [ok_or]. rewrite lift_bind_Ok, modify_bind. done. }
  destruct (truncate_removes d first act s (keep_number position floor) _ H Hold) as (d1 & E1 & Hm1 & Hs1).
  assert (Hlen : (keep_number position floor - first) * SEGMENT_PAYLOAD_BYTES <= len s) by lia.
  pose proof (rep_drop_after _ _ _ _ _ _ H Hq Hka Hlen Hs1) as H'.
  pose proof (read_segment_rep _ _ _ _ _ Hc H' Hq (N.le_refl _)) as Eo.
  eexists. split; [exact (Htrunc d1 d1 E1 (open_or_create_old _ _ _ Eo))|]. split; [|done].
  pose proof (rep_fit _ _ _ _ H).
  set (o := (keep_number position floor - first) * SEGMENT_PAYLOAD_BYTES) in *.
  assert (Hl : len (take (N.to_nat (position - first * SEGMENT_PAYLOAD_BYTES)) s)
               = position - first * SEGMENT_PAYLOAD_BYTES)
    by (unfold len in *; rewrite length_take; lia).
  eapply rep_alter; [exact H'| | | | |]; fold o; rewrite ?Hl; try lia.
  - intros f ->. rewrite resize_file; [|done|].
    + rewrite take_take, Ho.
      replace (N.to_nat (position - first * SEGMENT_PAYLOAD_BYTES) `min` N.to_nat (o + SEGMENT_PAYLOAD_BYTES))%nat
        with (N.to_nat (position - first * SEGMENT_PAYLOAD_BYTES)) by lia. reflexivity.
    + unfold len. rewrite length_take. unfold len in *. lia.
  - intros o' Ho'. rewrite !sub_take by lia. done.
Qed.

(** The directory without the segments after [last]. *)
Definition keep_upto (last : N) (d : WalDir) : WalDir :=
  set_segments (filter (fun x => x.1 <= last)) d.

Lemma keep_upto_lookup last d n :
  (keep_upto last d).(segments) !! n = if last <? n then None else d.(segments) !! n.
Proof.
  unfold keep_upto, set_segments. cbn [segments]. rewrite map_lookup_filter.
  destruct (d.(segments) !! n) as [f|] eqn:E; cbn [mbind option_bind].
  - destruct (N.ltb_spec last n); case_guard; cbn in *; first [done|lia].
  - by destruct (last <? n).
Qed.

Lemma elem_of_segment_numbers d n : n ∈ segment_numbers d <-> is_Some (d.(segments) !! n).
Proof.
  unfold segment_numbers. rewrite list_elem_of_fmap. split.
  - intros ([k f] & -> & Hin). apply elem_of_map_to_list in Hin. eauto.
  - intros [f Hf]. exists (n, f). split; [done|]. by apply elem_of_map_to_list.
Qed.

Lemma WalDir_ext d d' :
  d.(meta_file) = d'.(meta_file) -> (forall n, d.(segments) !! n = d'.(segments) !! n) -> d = d'.
Proof. destruct d, d'; simpl; intros -> H. f_equal. by apply map_eq. Qed.

(** The first loop of [discover_end]. *)
Lemma remove_tail last d :
  for_each (segment_numbers d) (fun n => if last <? n then remove_segment n else mret ()) d
  = (keep_upto last d, Ok ()).
Proof.
  destruct (for_each_remove (fun n => last <? n) (segment_numbers d) d) as (d' & -> & Hm & Hs).
  f_equal. apply WalDir_ext; [done|]. intros n. rewrite Hs, keep_upto_lookup.
  destruct (d.(segments) !! n) as [f|] eqn:E; [|by destruct (_ && _), (last <? n)].
  rewrite bool_decide_true; [done|]. apply elem_of_segment_numbers. by rewrite E.
Qed.

Lemma walk_segments_rep d first act s :
  crc_width crc32 -> rep d first act s ->
  forall fuel n, first <= n -> n <= act -> act - n <= N.of_nat fuel ->
  walk_segments fuel n act d = (d, Ok (first * SEGMENT_PAYLOAD_BYTES + len s)).
Proof.
  intros Hc H. pose proof payload_ge2 as HP.
  pose proof (rep_lo _ _ _ _ H) as Hlo. pose proof (rep_hi _ _ _ _ H) as Hhi.
  pose proof (rep_le _ _ _ _ H) as Hle. pose proof (rep_fit _ _ _ _ H) as Hfit.
  assert (Hsize : forall n, first <= n -> n <= act ->
    checked_sub (len (header_bytes n ++ sub s ((n - first) * SEGMENT_PAYLOAD_BYTES) SEGMENT_PAYLOAD_BYTES))
      SEGMENT_HEADER_LEN = Some (N.min SEGMENT_PAYLOAD_BYTES (len s - (n - first) * SEGMENT_PAYLOAD_BYTES))).
  { intros n H1 H2. rewrite len_app, len_header_bytes, len_sub. unfold checked_sub.
    rewrite (proj2 (N.leb_le _ _)) by lia. f_equal. lia. }
  induction fuel as [|fuel IH]; intros n H1 H2 H3; cbn [walk_segments];
    (rewrite (se_bind_Ok (open_segment n) _ d d
      (header_bytes n ++ sub s ((n - first) * SEGMENT_PAYLOAD_BYTES) SEGMENT_PAYLOAD_BYTES))
      by (unfold open_segment; by rewrite (read_segment_rep _ _ _ _ _ Hc H H1 H2)));
    rewrite (Hsize n H1 H2); cbn [ok_or]; rewrite lift_bind_Ok;
    rewrite (proj2 (N.ltb_ge _ _)) by lia.
  - assert (n = act) as -> by lia. rewrite N.ltb_irrefl, N.eqb_refl. cbn [andb].
    unfold checked_mul. rewrite (proj2 (N.leb_le _ _)) by nia. cbn [ok_or]. rewrite lift_bind_Ok.
    unfold checked_add, lift. rewrite (proj2 (N.leb_le _ _)) by nia. cbn [ok_or]. do 2 f_equal. nia.
  - destruct (N.ltb_spec n act) as [Hlt|Hge]; cbn [andb].
    + rewrite (proj2 (N.eqb_eq (N.min _ _) _)) by nia. cbn [negb].
      rewrite (proj2 (N.eqb_neq _ _)) by lia.
      assert (Ha : checked_add U64_MAX n 1 = Some (n + 1)).
      { apply checked_add_Some. unfold U64_MAX in *. split; [done|nia]. }
      rewrite Ha. cbn [ok_or]. rewrite lift_bind_Ok. apply IH; lia.
    + assert (n = act) as -> by lia. rewrite N.eqb_refl. unfold checked_mul.
      rewrite (proj2 (N.leb_le _ _)) by nia. cbn [ok_or]. rewrite lift_bind_Ok.
      unfold checked_add, lift. rewrite (proj2 (N.leb_le _ _)) by nia. cbn [ok_or]. do 2 f_equal. nia.
Qed.

Lemma drop_incomplete_rep d first act s fuel :
  rep d first act s -> drop_incomplete fuel first act d = (d, Ok act).
Proof.
  intros H. pose proof (rep_le _ _ _ _ H).
  assert (E := rep_seg _ _ _ _ H act ltac:(lia) ltac:(lia)).
  assert (Hl : SEGMENT_HEADER_LEN <=? len (header_bytes act ++
    sub s ((act - first) * SEGMENT_PAYLOAD_BYTES) SEGMENT_PAYLOAD_BYTES) = true).
  { apply N.leb_le. rewrite len_app, len_header_bytes. lia. }
  destruct fuel; cbn [drop_incomplete]; rewrite gets_bind, E; cbn [ok_or]; rewrite lift_bind_Ok;
    by rewrite Hl.
Qed.

Lemma last_with_durable_bytes_keep floor dend :
  last_with_durable_bytes floor dend = Ok (keep_number dend floor).
Proof.
  unfold last_with_durable_bytes, keep_number. pose proof payload_pos.
  destruct (N.ltb_spec floor dend) as [Hlt|]; cbn [andb]; [|by rewrite andb_false_r].
  rewrite (proj2 (N.ltb_lt 0 dend)) by lia. rewrite andb_true_r. cbn [andb].
  destruct (N.eqb_spec (dend mod SEGMENT_PAYLOAD_BYTES) 0) as [Hm|]; [|done].
  unfold checked_sub. rewrite (proj2 (N.leb_le 1 _)); [done|].
  destruct (position_split dend) as [Hp _]. nia.
Qed.

(** Discovery drops everything after the last durable segment and finds the
    physical end of what remains. *)
Lemma discover_end_rep d floor dend t :
  crc_width crc32 ->
  rep (keep_upto (keep_number dend floor) d) (floor / SEGMENT_PAYLOAD_BYTES) (keep_number dend floor) t ->
  discover_end floor dend d =
    (keep_upto (keep_number dend floor) d,
     Ok (floor / SEGMENT_PAYLOAD_BYTES * SEGMENT_PAYLOAD_BYTES + len t)).
Proof.
  intros Hc H. set (last := keep_number dend floor) in *. set (d1 := keep_upto last d) in *.
  unfold discover_end. rewrite last_with_durable_bytes_keep, lift_bind_Ok, gets_bind. fold last.
  rewrite (se_bind_Ok _ _ _ _ _ (remove_tail last d)), gets_bind. fold d1.
  set (first := floor / SEGMENT_PAYLOAD_BYTES) in *. pose proof (rep_le _ _ _ _ H) as Hle.
  assert (Hmax : list_max (filter (fun n => first <= n) (segment_numbers d1)) = Some last).
  { apply list_max_intro.
    - apply list_elem_of_filter. split; [done|]. apply elem_of_segment_numbers.
      rewrite (rep_seg _ _ _ _ H last) by lia. eauto.
    - intros n [_ Hn]%list_elem_of_filter. apply elem_of_segment_numbers in Hn as [f Hf].
      destruct (N.le_gt_cases n last); [done|]. rewrite (rep_none _ _ _ _ H) in Hf by done. done. }
  rewrite Hmax. cbn [ok_or]. rewrite lift_bind_Ok.
  rewrite (se_bind_Ok _ _ _ _ _ (drop_incomplete_rep _ _ _ _ _ H)).
  apply (walk_segments_rep _ _ _ _ Hc H); lia.
Qed.

Lemma recycle_orphaned_rep d floor act s :
  exists d', recycle_orphaned_segments floor d = (d', Ok ()) /\ d'.(meta_file) = d.(meta_file) /\
    (rep d (floor / SEGMENT_PAYLOAD_BYTES) act s -> rep d' (floor / SEGMENT_PAYLOAD_BYTES) act s) /\
    (forall n, d'.(segments) !! n =
       if n <? floor / SEGMENT_PAYLOAD_BYTES then None else d.(segments) !! n).
Proof.
  unfold recycle_orphaned_segments. rewrite gets_bind. set (first := floor / SEGMENT_PAYLOAD_BYTES).
  destruct (for_each_remove (fun n => n <? first) (segment_numbers d) d) as (d' & E & Hm & Hs).
  assert (Hs' : forall n, segments d' !! n = if n <? first then None else segments d !! n).
  { intros n. rewrite Hs. destruct (d.(segments) !! n) as [f|] eqn:Ef; [|by destruct (_ && _), (n <? first)].
    rewrite bool_decide_true; [done|]. apply elem_of_segment_numbers. by rewrite Ef. }
  exists d'. split_and!; [done|done| |done].
  intros [Hle Hlo Hhi Hseg Hnone Hfit]. split; [done|done|done| | |done].
  - intros n H1 H2. rewrite Hs', (proj2 (N.ltb_ge _ _)) by done. auto.
  - intros n Hn. rewrite Hs'. destruct (n <? first); auto.
Qed.

Lemma recycle_up_spec fuel : forall number first_keep d,
  first_keep - number <= N.of_nat fuel -> first_keep <= U64_MAX ->
  exists d', recycle_up fuel number first_keep d = (d', Ok ()) /\
    d'.(meta_file) = d.(meta_file) /\
    forall n, d'.(segments) !! n =
      if (number <=? n) && (n <? first_keep) then None else d.(segments) !! n.
Proof.
  induction fuel as [|fuel IH]; intros number first_keep d Hf Hu; cbn [recycle_up];
    destruct (N.leb_spec first_keep number) as [Hle|Hgt]; try lia.
  1,2: exists d; split_and!; [done|done|]; intros n;
    destruct (N.leb_spec number n), (N.ltb_spec n first_keep); simpl; first [done|lia].
  unfold remove_segment. rewrite modify_bind.
  assert (Ha : checked_add U64_MAX number 1 = Some (number + 1)).
  { apply checked_add_Some. split; [done|lia]. }
  rewrite Ha. cbn [ok_or]. rewrite lift_bind_Ok.
  destruct (IH (number + 1) first_keep (set_segments (delete number) d)) as (d' & E & Hm & Hs); [lia|done|].
  exists d'. split_and!; [done|done|]. intros n. rewrite Hs. cbn [set_segments segments].
  destruct (decide (n = number)) as [->|Hn].
  - rewrite lookup_delete_eq, N.leb_refl, (proj2 (N.ltb_lt _ _)) by done. by destruct (_ && _).
  - rewrite lookup_delete_ne by done.
    destruct (N.leb_spec (number + 1) n), (N.leb_spec number n), (N.ltb_spec n first_keep);
      simpl; first [done|lia].
Qed.

(** Recycling forgets the whole segments before the new floor. *)
Lemma recycle_segments_rep d old_floor floor act s :
  let first := old_floor / SEGMENT_PAYLOAD_BYTES in
  let first' := floor / SEGMENT_PAYLOAD_BYTES in
  rep d first act s -> first <= first' -> first' <= act ->
  exists d', recycle_segments old_floor floor d = (d', Ok ()) /\ d'.(meta_file) = d.(meta_file) /\
    rep d' first' act (drop (N.to_nat ((first' - first) * SEGMENT_PAYLOAD_BYTES)) s).
Proof.
  intros first first' [Hle Hlo Hhi Hseg Hnone Hfit] H1 H2. pose proof payload_ge2 as HP.
  destruct (recycle_up_spec (N.to_nat (first' - first)) first first' d) as (d' & E & Hm & Hs);
    [lia|unfold U64_MAX in *; nia|].
  exists d'. split_and!; [done|done|].
  assert (Hl : len (drop (N.to_nat ((first' - first) * SEGMENT_PAYLOAD_BYTES)) s)
    = len s - (first' - first) * SEGMENT_PAYLOAD_BYTES) by (unfold len; rewrite length_drop; lia).
  split; rewrite ?Hl; [done|nia|nia| | |nia].
  - intros n Hn1 Hn2. rewrite Hs, (proj2 (N.ltb_ge n first')) by done. rewrite andb_false_r.
    rewrite Hseg by lia. unfold sub. rewrite drop_drop, <- N2Nat.inj_add.
    replace ((first' - first) * SEGMENT_PAYLOAD_BYTES + (n - first') * SEGMENT_PAYLOAD_BYTES)
      with ((n - first) * SEGMENT_PAYLOAD_BYTES) by nia. reflexivity.
  - intros n Hn. rewrite Hs. destruct (_ && _); [done|]. apply Hnone. lia.
Qed.

(** A fresh segment holds the empty stream that starts at its number. *)
Lemma rep_fresh d n :
  d.(segments) !! n = Some (header_bytes n) -> (forall k, n < k -> d.(segments) !! k = None) ->
  n * SEGMENT_PAYLOAD_BYTES <= U64_MAX -> rep d n n [].
Proof.
  intros E Hnone Hfit. change (len []) with 0 in *. split; change (len []) with 0; [lia|lia|lia| |done|lia].
  intros k H1 H2. assert (k = n) as -> by lia. rewrite sub_past; [|change (len []) with 0; lia].
  by rewrite app_nil_r.
Qed.

(** ** Properties *)

(** The segmented log is a byte stream: appending a record's bytes to a
    directory that represents [s] succeeds, rolls over to new segments where
    needed, and any range of [s ++ b] reads back exactly, also across segment
    boundaries. *)
Theorem append_then_read d first act s b o n
    (Hc : crc_width crc32) (H : rep d first act s)
    (Hfit : first * SEGMENT_PAYLOAD_BYTES + len s + len b <= U64_MAX)
    (Hrange : o + n <= len (s ++ b)) :
  exists d' act' r',
    append_stream (length b) None (first * SEGMENT_PAYLOAD_BYTES + len s) b (d, act)
      = ((d', act'), Ok ()) /\
    rep d' first act' (s ++ b) /\
    read_exact_vec d'
      (segment_reader_new (first * SEGMENT_PAYLOAD_BYTES + o)
         (first * SEGMENT_PAYLOAD_BYTES + len (s ++ b))) n = Ok (Some (sub (s ++ b) o n, r')).
Proof.
  destruct (append_stream_rep first (length b) None d act s b H Hfit (le_n _))
    as (d' & act' & E & H' & _).
  destruct (read_exact_vec_rep d' first act' (s ++ b) (segment_reader_new
    (first * SEGMENT_PAYLOAD_BYTES + o) (first * SEGMENT_PAYLOAD_BYTES + len (s ++ b))) n Hc H')
    as (r' & Er & _); cbn [sr_position sr_end segment_reader_new]; [done|lia|lia|lia|].
  cbn [sr_position segment_reader_new] in Er.
  replace (first * SEGMENT_PAYLOAD_BYTES + o - first * SEGMENT_PAYLOAD_BYTES) with o in Er by lia.
  by exists d', act', r'.
Qed.

(** A write that fails part-way is repaired: whatever prefix of the record
    reached the segments, the error is reported and truncating back to the start
    of the record leaves a directory that represents the stream before it. *)
Theorem failed_append_repaired d first act s b k e floor
    (Hc : crc_width crc32) (H : rep d first act s) (Hf : first = floor / SEGMENT_PAYLOAD_BYTES)
    (Hfloor : floor <= first * SEGMENT_PAYLOAD_BYTES + len s) (Hk : k < len b)
    (Hfit : first * SEGMENT_PAYLOAD_BYTES + len s + len b <= U64_MAX) :
  exists d1 act1 d2 act2,
    append_stream (length b) (Some (k, e)) (first * SEGMENT_PAYLOAD_BYTES + len s) b (d, act)
      = ((d1, act1), Err e) /\
    truncate_stream (first * SEGMENT_PAYLOAD_BYTES + len s)
      (first * SEGMENT_PAYLOAD_BYTES + len s + len b) floor d1 = (d2, Ok act2) /\
    rep d2 first act2 s.
Proof.
  destruct (append_stream_rep first (length b) (Some (k, e)) d act s b H Hfit (le_n _))
    as (d1 & act1 & E & H1 & _).
  assert (Hlen : len (take (N.to_nat k) b) = k) by (unfold len in *; rewrite length_take; lia).
  destruct (truncate_stream_rep d1 first act1 (s ++ take (N.to_nat k) b)
    (first * SEGMENT_PAYLOAD_BYTES + len s) (first * SEGMENT_PAYLOAD_BYTES + len s + len b) floor
    Hc H1 Hf) as (d2 & E2 & H2 & _); rewrite ?len_app, ?Hlen; [lia|lia|lia|].
  unfold fault_result in E. rewrite (proj2 (N.ltb_lt _ _)) in E by done.
  exists d1, act1, d2. eexists. split_and!; [done|exact E2|].
  replace (first * SEGMENT_PAYLOAD_BYTES + len s - first * SEGMENT_PAYLOAD_BYTES) with (len s) in H2 by lia.
  unfold len in H2. by rewrite Nat2N.id, take_app_length in H2.
Qed.

(** The metadata file round-trips: what [write_meta] stores is what
    [load_meta] returns, and the segments are not affected. *)
Theorem meta_roundtrip d m
    (Hc : crc_width crc32) (Hf : m.(replay_floor) <= U64_MAX) (Hd : m.(durable_end) <= U64_MAX) :
  let '(d', r) := write_meta m d in
  r = Ok () /\ d'.(segments) = d.(segments) /\ load_meta d' = (d', Ok m).
Proof.
  cbn [write_meta modify]. split_and!; [done|done|]. unfold load_meta. rewrite gets_bind.
  cbn [meta_file ok_or]. rewrite lift_bind_Ok. unfold lift. by rewrite decode_encode_meta.
Qed.

End WalSegment.

(** An empty log: one fresh segment. *)
Definition fresh_dir : WalDir := mkWalDir {[0 := header_bytes sum_crc 0]} None.

Lemma fresh_dir_rep : rep sum_crc fresh_dir 0 0 [].
Proof.
  apply rep_fresh; [done| |unfold U64_MAX; lia].
  intros k Hk. unfold fresh_dir. cbn [segments]. apply lookup_singleton_ne. lia.
Qed.

Lemma append_then_read_witness :
  exists d' act' r',
    append_stream sum_crc 3 None (0 * SEGMENT_PAYLOAD_BYTES + len (@nil N)) [7; 8; 9] (fresh_dir, 0)
      = ((d', act'), Ok ()) /\ rep sum_crc d' 0 act' ([] ++ [7; 8; 9]) /\
    read_exact_vec sum_crc d'
      (segment_reader_new (0 * SEGMENT_PAYLOAD_BYTES + 1)
         (0 * SEGMENT_PAYLOAD_BYTES + len ([] ++ [7; 8; 9]))) 2
      = Ok (Some (sub ([] ++ [7; 8; 9]) 1 2, r')).
Proof.
  apply (append_then_read sum_crc fresh_dir 0 0 [] [7; 8; 9] 1 2 sum_crc_width fresh_dir_rep);
    unfold len, U64_MAX; cbn; lia.
Defined.

Lemma failed_append_repaired_witness :
  exists d1 act1 d2 act2,
    append_stream sum_crc 3 (Some (2, db_io "disk full")) (0 * SEGMENT_PAYLOAD_BYTES + len (@nil N))
      [7; 8; 9] (fresh_dir, 0) = ((d1, act1), Err (db_io "disk full")) /\
    truncate_stream sum_crc (0 * SEGMENT_PAYLOAD_BYTES + len (@nil N))
      (0 * SEGMENT_PAYLOAD_BYTES + len (@nil N) + len [7; 8; 9]) 0 d1 = (d2, Ok act2) /\
    rep sum_crc d2 0 act2 [].
Proof.
  apply (failed_append_repaired sum_crc fresh_dir 0 0 [] [7; 8; 9] 2 (db_io "disk full") 0
    sum_crc_width fresh_dir_rep); [reflexivity| | |]; unfold len, U64_MAX; cbn; lia.
Defined.

Lemma meta_roundtrip_witness :
  let '(d', r) := write_meta sum_crc (mkWalMeta 5 9) fresh_dir in
  r = Ok () /\ d'.(segments) = fresh_dir.(segments) /\
  load_meta sum_crc d' = (d', Ok (mkWalMeta 5 9)).
Proof.
  apply (meta_roundtrip sum_crc fresh_dir (mkWalMeta 5 9) sum_crc_width); unfold U64_MAX; cbn; lia.
Defined.
