(* ===== verification/WalFile.v ===== *)
(** * The log manager (src/crates/wal/src/file.rs)

    [FileWalManager]: the segmented directory, the in-memory positions and the
    CLOG it maintains while appending, flushing, checkpointing, recycling and
    reopening the log.  The mutex makes every method one atomic step, so the
    methods are state transformers on the manager; its directory and [clog.dat]
    are part of the state.  Outcomes of the operating system that the code
    handles (a failed write, a failed [fsync], a failed metadata or CLOG
    replacement) are explicit arguments. *)

From S2P Require Import Prelude Errors Mvcc Clog CheckedBytes ByteArray ClogFile WalCodec WalSegment.
Local Open Scope N_scope.

Section WalFile.
Context {CatalogChangeSet : Type}.
Context (crc32 : bytes -> N).
Context (json_to_vec : @WalRecordKind CatalogChangeSet -> result string bytes).
Context (json_from_slice : bytes -> result string (@WalRecordKind CatalogChangeSet)).
Context (subxids_from_slice : bytes -> result string (list N)).
Context (validate_shape : CatalogChangeSet -> result string unit).
Context (clog_to_vec : ClogSnapshot -> result string bytes).
Context (clog_from_slice : bytes -> result string ClogSnapshot).

Abbreviation WalRecord := (@WalRecord CatalogChangeSet) (only parsing).

(** ** State *)

(** [WalState], with the directory and the CLOG file it works on.  The [active]
    handle is [active_number]. *)
Record FileWalManager : Type := mkManager {
  wal_dir : WalDir;
  clog_dat : option bytes;
  active_number : N;
  unflushed_first_segment : option N;
  mgr_replay_floor : Lsn;
  written_lsn : Lsn;
  flushed_lsn : Lsn;
  clog : Clog;
  pending_commits : gset TxnId;
  vacuum_floor : TxnId;
  clog_loaded_from_snapshot : bool;
  recycle_boundary : option Lsn;
  poisoned : option DbError
}.
Abbreviation WalM := (SE FileWalManager DbError) (only parsing).

(** Field updates. *)
Definition with_dir (d : WalDir) (act : N) (w : FileWalManager) : FileWalManager :=
  mkManager d w.(clog_dat) act w.(unflushed_first_segment) w.(mgr_replay_floor) w.(written_lsn)
    w.(flushed_lsn) w.(clog) w.(pending_commits) w.(vacuum_floor) w.(clog_loaded_from_snapshot)
    w.(recycle_boundary) w.(poisoned).
Definition with_unflushed (u : option N) (w : FileWalManager) : FileWalManager :=
  mkManager w.(wal_dir) w.(clog_dat) w.(active_number) u w.(mgr_replay_floor) w.(written_lsn)
    w.(flushed_lsn) w.(clog) w.(pending_commits) w.(vacuum_floor) w.(clog_loaded_from_snapshot)
    w.(recycle_boundary) w.(poisoned).
Definition with_floor (f : Lsn) (w : FileWalManager) : FileWalManager :=
  mkManager w.(wal_dir) w.(clog_dat) w.(active_number) w.(unflushed_first_segment) f w.(written_lsn)
    w.(flushed_lsn) w.(clog) w.(pending_commits) w.(vacuum_floor) w.(clog_loaded_from_snapshot)
    w.(recycle_boundary) w.(poisoned).
Definition with_lsns (written flushed : Lsn) (w : FileWalManager) : FileWalManager :=
  mkManager w.(wal_dir) w.(clog_dat) w.(active_number) w.(unflushed_first_segment)
    w.(mgr_replay_floor) written flushed w.(clog) w.(pending_commits) w.(vacuum_floor)
    w.(clog_loaded_from_snapshot) w.(recycle_boundary) w.(poisoned).
Definition with_clog (c : Clog) (w : FileWalManager) : FileWalManager :=
  mkManager w.(wal_dir) w.(clog_dat) w.(active_number) w.(unflushed_first_segment)
    w.(mgr_replay_floor) w.(written_lsn) w.(flushed_lsn) c w.(pending_commits) w.(vacuum_floor)
    w.(clog_loaded_from_snapshot) w.(recycle_boundary) w.(poisoned).
Definition with_pending (p : gset TxnId) (w : FileWalManager) : FileWalManager :=
  mkManager w.(wal_dir) w.(clog_dat) w.(active_number) w.(unflushed_first_segment)
    w.(mgr_replay_floor) w.(written_lsn) w.(flushed_lsn) w.(clog) p w.(vacuum_floor)
    w.(clog_loaded_from_snapshot) w.(recycle_boundary) w.(poisoned).
Definition with_vacuum_floor (v : TxnId) (w : FileWalManager) : FileWalManager :=
  mkManager w.(wal_dir) w.(clog_dat) w.(active_number) w.(unflushed_first_segment)
    w.(mgr_replay_floor) w.(written_lsn) w.(flushed_lsn) w.(clog) w.(pending_commits) v
    w.(clog_loaded_from_snapshot) w.(recycle_boundary) w.(poisoned).
Definition with_clog_dat (b : option bytes) (w : FileWalManager) : FileWalManager :=
  mkManager w.(wal_dir) b w.(active_number) w.(unflushed_first_segment)
    w.(mgr_replay_floor) w.(written_lsn) w.(flushed_lsn) w.(clog) w.(pending_commits)
    w.(vacuum_floor) w.(clog_loaded_from_snapshot) w.(recycle_boundary) w.(poisoned).
Definition with_boundary (b : option Lsn) (w : FileWalManager) : FileWalManager :=
  mkManager w.(wal_dir) w.(clog_dat) w.(active_number) w.(unflushed_first_segment)
    w.(mgr_replay_floor) w.(written_lsn) w.(flushed_lsn) w.(clog) w.(pending_commits)
    w.(vacuum_floor) w.(clog_loaded_from_snapshot) b w.(poisoned).
Definition poison (e : DbError) (w : FileWalManager) : FileWalManager :=
  mkManager w.(wal_dir) w.(clog_dat) w.(active_number) w.(unflushed_first_segment)
    w.(mgr_replay_floor) w.(written_lsn) w.(flushed_lsn) w.(clog) w.(pending_commits)
    w.(vacuum_floor) w.(clog_loaded_from_snapshot) w.(recycle_boundary) (Some e).

(** [lock_state]: refuses a poisoned manager. *)
Definition lock_state : WalM unit := fun w =>
  match w.(poisoned) with
  | Some e => (w, Err e)
  | None => (w, Ok ())
  end.

(** A directory operation of the manager. *)
Definition on_dir {A} (m : SE WalDir DbError A) : WalM A := fun w =>
  let '(d, r) := m w.(wal_dir) in (with_dir d w.(active_number) w, r).

(** ** Statuses *)

Definition represents_transaction (r : WalRecord) : bool :=
  negb (r.(txn_id) =? 0)
  && negb (match r.(rkind) with Checkpoint _ _ _ => true | _ => false end).

Definition is_settlement (r : WalRecord) : bool :=
  match r.(rkind) with Commit | CommitWithSubxids _ | Abort => true | _ => false end.

Definition fold_status (c : Clog) (r : WalRecord) : Clog :=
  match r.(rkind) with
  | Commit => set_committed c r.(txn_id)
  | CommitWithSubxids subxids => foldl set_committed (set_committed c r.(txn_id)) subxids
  | Abort => set_aborted c r.(txn_id)
  | _ =>
      if represents_transaction r && bool_decide (Clog_status c r.(txn_id) = InProgress)
      then set_in_progress c r.(txn_id) else c
  end.

(** ** Appending *)

(** [WalPosition::new]. *)
Definition wal_position (replay_from record_lsn : Lsn) : DbResult (Lsn * Lsn) :=
  if record_lsn <=? replay_from
  then Err (wal_error "WAL record position must have a start before its end")
  else Ok (replay_from, record_lsn).

Definition repair_failed_append (start attempted_end : Lsn) : WalM unit := fun w =>
  match truncate_stream crc32 start attempted_end w.(mgr_replay_floor) w.(wal_dir) with
  | (d, Ok act) =>
      let w := with_dir d act w in
      (match w.(unflushed_first_segment) with
       | Some first => if act <? first then with_unflushed None w else w
       | None => w
       end, Ok ())
  | (d, Err e) => (poison e (with_dir d w.(active_number) w), Err e)
  end.

(** The CLOG update that precedes the write. *)
Definition mark_writer (r : WalRecord) (c : Clog) : Clog :=
  match r.(rkind) with
  | Abort => set_aborted c r.(txn_id)
  | _ => if represents_transaction r then set_in_progress c r.(txn_id) else c
  end.

(** The ids a commit record settles at the next flush. *)
Definition settled_ids (r : WalRecord) : list TxnId :=
  match r.(rkind) with
  | Commit => [r.(txn_id)]
  | CommitWithSubxids subxids => r.(txn_id) :: subxids
  | _ => []
  end.

Definition append_positioned (fault : option (N * DbError)) (r : WalRecord) : WalM (Lsn * Lsn) :=
  c ← gets clog;
  if represents_transaction r && negb (is_settlement r) && must_backpressure_new_writer c r.(txn_id)
  then lift (Err (db_wal ProgramLimitExceeded
    "transaction status window is pinned by an active writer; retry after older transactions finish"))
  else
    _ ← modify (fun w => with_clog (mark_writer r w.(clog)) w);
    _ ← lock_state;
    start ← gets written_lsn;
    '(record, b) ← lift (encode_record_at crc32 json_to_vec validate_shape r start);
    let attempted_end := record.(lsn) in
    result ← (fun w =>
      let '((d, act), result) :=
        append_stream crc32 (length b) fault start b (w.(wal_dir), w.(active_number)) in
      (with_dir d act w, Ok result));
    match result with
    | Err e =>
        _ ← repair_failed_append start attempted_end;
        lift (Err e)
    | Ok () =>
        _ ← modify (fun w => with_unflushed
              (Some (default (start / SEGMENT_PAYLOAD_BYTES) w.(unflushed_first_segment))) w);
        _ ← modify (fun w => with_pending (w.(pending_commits) ∪ list_to_set (settled_ids record)) w);
        _ ← modify (fun w => with_lsns record.(lsn) w.(flushed_lsn) w);
        lift (wal_position start record.(lsn))
    end.

(** ** Flushing *)

Definition correct_failed_flush : WalM unit := fun w =>
  let durable_end := w.(flushed_lsn) in
  match truncate_stream crc32 durable_end w.(written_lsn) w.(mgr_replay_floor) w.(wal_dir) with
  | (d, Ok act) =>
      (with_unflushed None (with_pending ∅ (with_lsns durable_end durable_end (with_dir d act w))), Ok ())
  | (d, Err e) => (with_dir d w.(active_number) w, Err e)
  end.

(** The loop of [sync_unflushed] opens every filled segment up to the active one. *)
Fixpoint sync_segments (fuel : nat) (d : WalDir) (number active : N) : DbResult unit :=
  if number =? active then Ok ()
  else
    _ ← read_segment crc32 d number;
    match fuel with
    | O => Err (wal_error "WAL segment number overflow")
    | S fuel => sync_segments fuel d (number + 1) active
    end.

Definition sync_unflushed (w : FileWalManager) : DbResult unit :=
  match w.(unflushed_first_segment) with
  | None => Ok ()
  | Some number =>
      sync_segments (N.to_nat (w.(active_number) - number)) w.(wal_dir) number w.(active_number)
  end.

(** What the environment makes of a flush: nothing goes wrong, an [fsync] fails, or
    the metadata replacement fails before or after the rename became visible. *)
Inductive FlushFault : Type :=
  | NoFault
  | SyncFails (e : DbError)
  | MetaFails (e : DbError) (replacement_visible : bool).

Definition prefix_error (m : string) (e : DbError) : DbError := wal_error (m +:+ e.(message)).

(** The failure branches of [flush]: truncate to the durable end, then refuse
    every later operation. *)
Definition fail_flush (m : string) (e : DbError) : WalM Lsn := fun w =>
  match correct_failed_flush w with
  | (w', Err correction) => (poison correction w', Err correction)
  | (w', Ok ()) => (poison (prefix_error m e) w', Err e)
  end.

Definition set_committed_all (c : Clog) (ids : gset TxnId) : Clog :=
  foldl set_committed c (elements ids).

(** The success tail of [flush]. *)
Definition publish_flush : WalM Lsn := fun w =>
  (with_unflushed None (with_pending ∅ (with_clog (set_committed_all w.(clog) w.(pending_commits))
     (with_lsns w.(written_lsn) w.(written_lsn) w))), Ok w.(written_lsn)).

Definition flush (fault : FlushFault) : WalM Lsn :=
  _ ← lock_state;
  w ← gets id;
  match (match fault with SyncFails e => Err e | _ => sync_unflushed w end) with
  | Err e => fail_flush "WAL manager is unavailable after durability failure: " e
  | Ok () =>
      if w.(flushed_lsn) <? w.(written_lsn) then
        let meta := mkWalMeta w.(mgr_replay_floor) w.(written_lsn) in
        match fault with
        | MetaFails e true =>
            let error := db_durability_outcome_unknown
              ("WAL durable-end replacement has an unknown persistence outcome: " +:+ e.(message)) in
            _ ← on_dir (write_meta crc32 meta);
            _ ← modify (poison error);
            lift (Err error)
        | MetaFails e false =>
            fail_flush "WAL manager is unavailable after durable-end update failure: " e
        | _ =>
            _ ← on_dir (write_meta crc32 meta);
            publish_flush
        end
      else publish_flush
  end.

(** ** Reading frames back *)

Definition read_frame (d : WalDir) (r : SegmentReader) : DbResult (option (WalRecord * SegmentReader)) :=
  if sr_remaining r =? 0 then Ok None
  else
    let start := r.(sr_position) in
    h ← read_exact_vec crc32 d r HEADER_LEN;
    match h with
    | None => Ok None
    | Some (header, r) =>
        frame_len ← frame_len_from_header header;
        rest_len ← ok_or (checked_sub frame_len HEADER_LEN)
                     (wal_error "WAL frame length is shorter than its header");
        t ← read_exact_vec crc32 d r rest_len;
        match t with
        | None => Ok None
        | Some (rest, r) =>
            let b := header ++ rest in
            record ← decode_record crc32 json_from_slice subxids_from_slice validate_shape b;
            expected_end ← ok_or (checked_add U64_MAX start frame_len) (wal_error "WAL frame end overflows");
            if negb (record.(lsn) =? expected_end) || negb (r.(sr_position) =? expected_end)
            then Err (wal_error "stored WAL LSN does not match its byte position")
            else Ok (Some (record, r))
        end
    end.

(** [scan_stream]: every frame consumes at least a header, so the number of bytes
    bounds the number of turns. *)
Fixpoint scan_loop {A} (fuel : nat) (d : WalDir) (r : SegmentReader)
    (visit : A -> WalRecord -> A) (acc : A) : DbResult A :=
  if sr_remaining r =? 0 then Ok acc
  else
    match fuel with
    | O => Err (wal_error "durable WAL record is incomplete")
    | S fuel =>
        f ← read_frame d r;
        match f with
        | Some (record, r) => scan_loop fuel d r visit (visit acc record)
        | None => Err (wal_error "durable WAL record is incomplete")
        end
    end.

Definition scan_stream {A} (d : WalDir) (start stop : Lsn)
    (visit : A -> WalRecord -> A) (acc : A) : DbResult A :=
  scan_loop (N.to_nat (stop - start)) d (segment_reader_new start stop) visit acc.

(** [WalReplay] run to its end: the items the iterator yields. *)
Fixpoint replay_loop (fuel : nat) (d : WalDir) (r : SegmentReader) (threshold : Lsn)
    : list (DbResult (Lsn * WalRecord)) :=
  match fuel with
  | O => []
  | S fuel =>
      let replay_from := r.(sr_position) in
      match read_frame d r with
      | Ok (Some (record, r)) =>
          if replay_from <? threshold then replay_loop fuel d r threshold
          else Ok (replay_from, record) :: replay_loop fuel d r threshold
      | Ok None => []
      | Err e => [Err e]
      end
  end.

Definition replay_entries_from (replay_from : Lsn) : WalM (list (DbResult (Lsn * WalRecord))) :=
  _ ← lock_state;
  w ← gets id;
  mret (replay_loop (S (N.to_nat (w.(written_lsn) - w.(mgr_replay_floor)))) w.(wal_dir)
          (segment_reader_new w.(mgr_replay_floor) w.(written_lsn))
          (N.max replay_from w.(mgr_replay_floor))).

(** ** Recycling, recovery and checkpoints *)

Definition recycle_through (lsn : Lsn) (meta_fault : option (DbError * bool)) : WalM unit :=
  _ ← lock_state;
  w ← gets id;
  if (lsn <? w.(mgr_replay_floor)) || (w.(flushed_lsn) <? lsn)
  then lift (Err (wal_error "WAL recycle boundary is outside the durable retained range"))
  else if lsn =? w.(mgr_replay_floor) then on_dir (recycle_orphaned_segments lsn)
  else if negb (bool_decide (w.(recycle_boundary) = Some lsn))
  then lift (Err (wal_error "WAL recycle boundary was not established by the latest CLOG snapshot"))
  else
    _ ← (let number := lsn / SEGMENT_PAYLOAD_BYTES in
         if (lsn =? w.(written_lsn)) && (lsn mod SEGMENT_PAYLOAD_BYTES =? 0)
            && bool_decide (w.(wal_dir).(segments) !! number = None)
         then
           _ ← on_dir (create_segment crc32 number);
           modify (fun w => with_dir w.(wal_dir) number w)
         else mret ());
    let meta := mkWalMeta lsn w.(flushed_lsn) in
    match meta_fault with
    | Some (e, visible) =>
        _ ← (if (visible : bool) then on_dir (write_meta crc32 meta) else mret ());
        _ ← modify (poison (prefix_error
              "WAL manager is unavailable after replay-floor update failure: " e));
        lift (Err e)
    | None =>
        _ ← on_dir (write_meta crc32 meta);
        let old_floor := w.(mgr_replay_floor) in
        _ ← modify (with_floor lsn);
        on_dir (recycle_segments old_floor lsn)
    end.

Definition retained_range : WalM (Lsn * Lsn) :=
  _ ← lock_state; gets (fun w => (w.(mgr_replay_floor), w.(flushed_lsn))).

Definition needs_clog_maintenance : WalM bool :=
  _ ← lock_state; gets (fun w => needs_maintenance w.(clog) w.(vacuum_floor)).

Definition bytes_after (lsn : Lsn) : WalM N :=
  _ ← lock_state; gets (fun w => w.(written_lsn) - N.max lsn w.(mgr_replay_floor)).

(** The loop of [establish_recovery_committed_floor] over the retained records. *)
Fixpoint oldest_non_committed (c : Clog) (items : list (DbResult (Lsn * WalRecord)))
    (acc : option TxnId) : DbResult (option TxnId) :=
  match items with
  | [] => Ok acc
  | Err e :: _ => Err e
  | Ok (_, r) :: items =>
      oldest_non_committed c items
        (if represents_transaction r && negb (bool_decide (Clog_status c r.(txn_id) = Committed))
         then Some (match acc with Some oldest => N.min oldest r.(txn_id) | None => r.(txn_id) end)
         else acc)
  end.

Definition establish_recovery_committed_floor (allocation_boundary : TxnId) : WalM unit :=
  _ ← lock_state;
  w ← gets id;
  if w.(clog_loaded_from_snapshot) then mret ()
  else
    items ← replay_entries_from 0;
    oldest ← lift (oldest_non_committed w.(clog) items None);
    let floor := match oldest with
                 | Some oldest => N.min allocation_boundary oldest
                 | None => allocation_boundary end in
    modify (fun w => with_clog (set_committed_floor w.(clog) floor) w).

Definition resolve_in_flight_as_aborted (writer_xids : gset TxnId) : WalM unit :=
  _ ← lock_state;
  modify (fun w => with_clog
    (foldl (fun c xid => if bool_decide (Clog_status c xid = InProgress) then set_aborted c xid else c)
       w.(clog) (elements writer_xids)) w).

Definition resolve_all_in_flight_as_aborted : WalM unit :=
  _ ← lock_state;
  modify (fun w => with_clog (resolve_all_in_progress_as_aborted w.(clog)) w).

Definition set_vacuum_floor (boundary : TxnId) : WalM unit :=
  _ ← lock_state;
  modify (fun w => with_vacuum_floor (N.max w.(vacuum_floor) boundary) w).

(** [write_fault] is a failure of the replacement of [clog.dat]. *)
Definition checkpoint_clog (flush_fault : FlushFault) (write_fault : option DbError)
    (proposed_replay_floor : Lsn) (captured_active : list TxnId) (allocation_boundary : TxnId)
    : WalM unit :=
  _ ← flush flush_fault;
  _ ← lock_state;
  w ← gets id;
  if (proposed_replay_floor <? w.(mgr_replay_floor)) || (w.(flushed_lsn) <? proposed_replay_floor)
  then lift (Err (wal_error "proposed CLOG replay floor is outside the durable WAL range"))
  else
    let snapshot := live_snapshot w.(clog) w.(flushed_lsn) proposed_replay_floor
                      w.(vacuum_floor) captured_active allocation_boundary in
    b ← lift (encode_clog crc32 clog_to_vec snapshot);
    match write_fault with
    | Some e => lift (Err e)
    | None =>
        _ ← modify (with_clog_dat (Some b));
        _ ← lock_state;
        modify (fun w => with_boundary (Some snapshot.(cs_authorized_replay_floor))
          (with_clog (prune_to w.(clog) snapshot.(cs_committed_floor)) w))
    end.

(** [impl TxnStatusView for FileWalManager]. *)
Global Instance FileWalManager_view : TxnStatusView FileWalManager := fun w => Clog_status w.(clog).

(** ** Opening *)

(** The data directory: which legacy or durable files it has, and [wal/]. *)
Record DataDir : Type := mkDataDir {
  has_wal_dat : bool;
  has_manifest : bool;
  dd_clog : option bytes;
  dd_wal : option WalDir
}.

Definition initialize (dd : DataDir) : DbResult WalDir :=
  if dd.(has_wal_dat)
  then Err (wal_error "unsupported legacy single-file WAL; rebuild the data directory")
  else
    let has_durable_state := dd.(has_manifest) || bool_decide (is_Some dd.(dd_clog)) in
    if bool_decide (dd.(dd_wal) = None) && has_durable_state
    then Err (wal_error "segmented WAL is missing beside existing durable database state")
    else
      let d := default (mkWalDir ∅ None) dd.(dd_wal) in
      let step : SE WalDir DbError unit :=
        if bool_decide (is_Some d.(meta_file)) then
          meta ← load_meta crc32;
          let first_retained := meta.(replay_floor) / SEGMENT_PAYLOAD_BYTES in
          if bool_decide (is_Some (d.(segments) !! first_retained)) && (meta.(replay_floor) =? 0)
             && (meta.(durable_end) =? 0) && negb has_durable_state
          then _ ← remove_segment first_retained; create_segment crc32 0
          else if bool_decide (d.(segments) !! first_retained = None) then
            if negb (meta.(replay_floor) =? 0) || has_durable_state
            then lift (Err (wal_error "WAL segment is missing beside initialized durable state"))
            else create_segment crc32 0
          else mret ()
        else if has_durable_state
        then lift (Err (wal_error "WAL metadata is missing beside existing durable database state"))
        else
          _ ← (if bool_decide (is_Some (d.(segments) !! 0))
               then _ ← open_segment crc32 0; mret () else mret ());
          _ ← write_meta crc32 (mkWalMeta 0 0);
          segs ← gets segments;
          if bool_decide (segs !! 0 = None) then create_segment crc32 0 else mret () in
      let '(d, r) := step d in
      _ ← r; Ok d.

(** [load_clog_snapshot]; the file limit is the payload limit and the header. *)
Definition MAX_CLOG_FILE_BYTES : N := MAX_CLOG_PAYLOAD_BYTES + CLOG_HEADER_LEN.

Definition load_clog_snapshot (file : option bytes) : DbResult (option ClogSnapshot) :=
  match file with
  | None => Ok None
  | Some b =>
      if MAX_CLOG_FILE_BYTES <? len b
      then Err (wal_error "CLOG file exceeds the 64 MiB payload limit")
      else s ← decode_clog crc32 clog_from_slice b; Ok (Some s)
  end.

(** The tail of [open]: the snapshot decides where the CLOG starts. *)
Definition seed_clog (snapshot : option ClogSnapshot) (floor stop : Lsn)
    : DbResult (Clog * TxnId * bool * Lsn) :=
  match snapshot with
  | Some s =>
      if (s.(cs_clog_lsn) <? floor) || (s.(cs_authorized_replay_floor) <? floor)
      then Err (wal_error "CLOG snapshot does not cover the retained WAL replay floor")
      else if stop <? s.(cs_clog_lsn)
      then Err (wal_error "CLOG snapshot is ahead of the WAL stream")
      else Ok (from_snapshot s, s.(cs_vacuum_floor), true, s.(cs_clog_lsn))
  | None =>
      if floor =? 0 then Ok (Clog_new, FIRST_NORMAL_XID, false, 0)
      else Err (wal_error "CLOG snapshot is missing after WAL segments were recycled")
  end.

(** The directory steps of [open] after the metadata is known. *)
Definition trim_to_durable (meta : WalMeta) : SE WalDir DbError unit :=
  _ ← recycle_orphaned_segments meta.(replay_floor);
  if meta.(durable_end) <? meta.(replay_floor)
  then lift (Err (wal_error "WAL replay floor is beyond its durable end"))
  else
    physical_end ← discover_end crc32 meta.(replay_floor) meta.(durable_end);
    if physical_end <? meta.(durable_end)
    then lift (Err (wal_error "WAL durable end is beyond the retained stream"))
    else if meta.(durable_end) <? physical_end
    then
      _ ← truncate_stream crc32 meta.(durable_end) physical_end meta.(replay_floor);
      mret ()
    else mret ().

Definition open (dd : DataDir) : DbResult FileWalManager :=
  if dd.(has_wal_dat)
  then Err (wal_error "unsupported legacy single-file WAL; rebuild the data directory")
  else
    d ← initialize dd;
    meta ← (load_meta crc32 d).2;
    let '(d, r) := trim_to_durable meta d in
    _ ← r;
    let stop := meta.(durable_end) in
    snapshot ← load_clog_snapshot dd.(dd_clog);
    '(c, vf, loaded, clog_lsn) ← seed_clog snapshot meta.(replay_floor) stop;
    c ← scan_stream d clog_lsn stop fold_status c;
    let next_number := stop / SEGMENT_PAYLOAD_BYTES in
    act ← (if (stop mod SEGMENT_PAYLOAD_BYTES =? 0) && bool_decide (is_Some (d.(segments) !! next_number))
           then Ok next_number else active_segment_number stop);
    _ ← read_segment crc32 d act;
    Ok {| wal_dir := d; clog_dat := dd.(dd_clog); active_number := act;
          unflushed_first_segment := None; mgr_replay_floor := meta.(replay_floor);
          written_lsn := stop; flushed_lsn := stop; clog := c; pending_commits := ∅;
          vacuum_floor := vf; clog_loaded_from_snapshot := loaded;
          recycle_boundary := cs_authorized_replay_floor <$> snapshot; poisoned := None |}.

(** ** The log a directory holds *)

(** What the log relies on from the checksum and [serde_json]. *)
Context (Hc : crc_width crc32).
Context (Hj : json_roundtrip json_to_vec json_from_slice subxids_from_slice).

Abbreviation framed := (framed crc32 json_from_slice subxids_from_slice validate_shape) (only parsing).

(** [s] is the concatenation of the frames of [rs], written from position [p] on;
    each record carries the position where its frame ends. *)
Inductive stream_of : Lsn -> list WalRecord -> bytes -> Prop :=
  | stream_nil p : stream_of p [] []
  | stream_cons p r b rs s :
      framed r b -> r.(lsn) = p + len b -> stream_of (p + len b) rs s ->
      stream_of p (r :: rs) (b ++ s).

(** The records with the positions where they start. *)
Fixpoint entries (p : Lsn) (rs : list WalRecord) : list (Lsn * WalRecord) :=
  match rs with
  | [] => []
  | r :: rs => (p, r) :: entries r.(lsn) rs
  end.

Lemma stream_of_app p rs1 s1 rs2 s2 :
  stream_of p rs1 s1 -> stream_of (p + len s1) rs2 s2 -> stream_of p (rs1 ++ rs2) (s1 ++ s2).
Proof.
  induction 1 as [p|p r b rs s Hf Hl Hs IH]; intros H2; simpl.
  - by rewrite N.add_0_r in H2.
  - rewrite <- app_assoc. constructor; [done|done|]. apply IH.
    rewrite len_app, N.add_assoc in H2. done.
Qed.

Lemma stream_nil_inv p s : stream_of p [] s -> s = [].
Proof. by inversion 1. Qed.

Lemma stream_cons_inv p r rs s : stream_of p (r :: rs) s ->
  exists b s', s = b ++ s' /\ framed r b /\ r.(lsn) = p + len b /\ stream_of (p + len b) rs s'.
Proof. inversion 1; subst; eauto 6. Qed.

Lemma framed_len r b : framed r b -> HEADER_LEN <= len b.
Proof. intros [(h & rest & -> & Hh & _) _ _]. rewrite len_app, Hh. lia. Qed.

Lemma sub_mid a b c : sub (a ++ b ++ c) (len a) (len b) = b.
Proof. unfold sub, len. by rewrite !Nat2N.id, drop_app_length, take_app_length. Qed.

(** A frame of the represented stream reads back as its record. *)
Lemma read_frame_rep d first act pre b post r rdr :
  rep crc32 d first act (pre ++ b ++ post) -> framed r b -> reader_ok rdr ->
  rdr.(sr_position) = first * SEGMENT_PAYLOAD_BYTES + len pre ->
  r.(lsn) = rdr.(sr_position) + len b ->
  rdr.(sr_position) + len b <= rdr.(sr_end) ->
  rdr.(sr_end) <= first * SEGMENT_PAYLOAD_BYTES + len (pre ++ b ++ post) ->
  exists rdr', read_frame d rdr = Ok (Some (r, rdr')) /\
    rdr'.(sr_position) = rdr.(sr_position) + len b /\ rdr'.(sr_end) = rdr.(sr_end) /\ reader_ok rdr'.
Proof.
  intros H Hf Hr Hpos Hlsn He1 He2. pose proof (framed_len _ _ Hf) as Hmin.
  pose proof (rep_fit _ _ _ _ _ H) as Hfit.
  destruct (framed_split _ _ _ _ _ _ Hf) as (h & rest & Eb & Hh & Hlen).
  assert (HH : HEADER_LEN = 21) by done.
  unfold read_frame, sr_remaining. rewrite (proj2 (N.eqb_neq _ _)) by lia. cbv zeta.
  destruct (read_exact_vec_rep crc32 d first act _ rdr HEADER_LEN Hc H Hr)
    as (r1 & E1 & Hp1 & He1' & Hr1); [lia|done|lia|].
  rewrite E1. cbn [mbind result_bind].
  replace (sub _ _ HEADER_LEN) with h.
  2:{ rewrite Hpos. replace (_ - _) with (len pre) by lia. rewrite Eb, <- Hh, <- app_assoc.
      by rewrite sub_mid. }
  rewrite Hlen. cbn [mbind result_bind]. unfold checked_sub. rewrite (proj2 (N.leb_le _ _)) by done.
  cbn [ok_or mbind result_bind].
  destruct (read_exact_vec_rep crc32 d first act _ r1 (len b - HEADER_LEN) Hc H Hr1)
    as (r2 & E2 & Hp2 & He2' & Hr2); [lia|lia|lia|].
  rewrite E2. cbn [mbind result_bind].
  replace (sub _ _ (len b - HEADER_LEN)) with rest.
  2:{ rewrite Hp1, Hpos. replace (_ - _) with (len (pre ++ h)) by (rewrite len_app; lia).
      replace (len b - HEADER_LEN) with (len rest) by (rewrite Eb, len_app; lia).
      rewrite Eb, <- (app_assoc h), app_assoc. by rewrite sub_mid. }
  rewrite <- Eb. rewrite !len_app in Hfit.
  rewrite (framed_decode_record _ _ _ _ _ _ Hf) by (unfold USIZE_MAX; lia).
  cbn [mbind result_bind].
  assert (Ha : checked_add U64_MAX (sr_position rdr) (len b) = Some (sr_position rdr + len b)).
  { apply checked_add_Some. split; [done|lia]. }
  rewrite Ha. cbn [ok_or mbind result_bind]. rewrite Hlsn, N.eqb_refl.
  rewrite (proj2 (N.eqb_eq (sr_position r2) _)) by lia. cbn [negb orb].
  exists r2. split_and!; [done|lia|lia|done].
Qed.

(** Scanning a stream visits exactly its records, in order. *)
Lemma scan_loop_rep {A} (visit : A -> WalRecord -> A) d first act rs : forall pre s post p acc rdr fuel,
  rep crc32 d first act (pre ++ s ++ post) -> stream_of p rs s -> reader_ok rdr ->
  rdr.(sr_position) = p -> p = first * SEGMENT_PAYLOAD_BYTES + len pre ->
  rdr.(sr_end) = p + len s -> len s <= N.of_nat fuel ->
  scan_loop fuel d rdr visit acc = Ok (foldl visit acc rs).
Proof.
  induction rs as [|r rs IH]; intros pre s post p acc rdr fuel H Hs Hr Hpos Hp He Hfuel.
  - apply stream_nil_inv in Hs as ->. destruct fuel; cbn [scan_loop]; unfold sr_remaining; rewrite He, Hpos;
      (rewrite (proj2 (N.eqb_eq _ _)) by (change (len []) with 0; lia)); done.
  - apply stream_cons_inv in Hs as (b & s' & -> & Hf & Hl & Hs').
    pose proof (framed_len _ _ Hf) as Hmin. assert (HH : HEADER_LEN = 21) by done.
    rewrite len_app in He, Hfuel. destruct fuel as [|fuel]; [lia|]. cbn [scan_loop].
    unfold sr_remaining. rewrite (proj2 (N.eqb_neq _ _)) by lia.
    rewrite <- app_assoc in H.
    destruct (read_frame_rep d first act pre b (s' ++ post) r rdr) as (r' & -> & Hp' & He' & Hr');
      [done|done|done|lia|lia|lia|rewrite !len_app; lia|].
    cbn [mbind result_bind foldl]. rewrite app_assoc in H.
    eapply (IH (pre ++ b) s' post (p + len b) (visit acc r) r' fuel H);
      [done|done|lia|rewrite len_app; lia|lia|lia].
Qed.

(** The replay iterator yields exactly the records that start at or after its
    threshold, with their start positions. *)
Lemma replay_loop_rep d first act threshold rs : forall pre s post p rdr fuel,
  rep crc32 d first act (pre ++ s ++ post) -> stream_of p rs s -> reader_ok rdr ->
  rdr.(sr_position) = p -> p = first * SEGMENT_PAYLOAD_BYTES + len pre ->
  rdr.(sr_end) = p + len s -> len s < N.of_nat fuel ->
  replay_loop fuel d rdr threshold = Ok <$> filter (fun e => threshold <= e.1) (entries p rs).
Proof.
  induction rs as [|r rs IH]; intros pre s post p rdr fuel H Hs Hr Hpos Hp He Hfuel.
  - apply stream_nil_inv in Hs as ->. destruct fuel; [lia|]. cbn [replay_loop]. unfold read_frame, sr_remaining. rewrite He, Hpos.
    rewrite (proj2 (N.eqb_eq _ _)) by (change (len []) with 0; lia). done.
  - apply stream_cons_inv in Hs as (b & s' & -> & Hf & Hl & Hs').
    pose proof (framed_len _ _ Hf) as Hmin. assert (HH : HEADER_LEN = 21) by done.
    rewrite len_app in He, Hfuel. destruct fuel as [|fuel]; [lia|]. cbn [replay_loop].
    rewrite <- app_assoc in H.
    destruct (read_frame_rep d first act pre b (s' ++ post) r rdr) as (r' & -> & Hp' & He' & Hr');
      [done|done|done|lia|lia|lia|rewrite !len_app; lia|].
    rewrite app_assoc in H.
    assert (E := IH (pre ++ b) s' post (p + len b) r' fuel H Hs' Hr' ltac:(lia)
      ltac:(rewrite len_app; lia) ltac:(lia) ltac:(lia)).
    cbn [entries]. rewrite filter_cons. cbn [fst].
    rewrite Hl, Hpos.
    destruct (N.ltb_spec p threshold), (decide (threshold <= p));
      first [lia|by rewrite E].
Qed.

(** ** The manager's invariant *)

(** The manager holds the durable records [rd] followed by the unflushed [ru]: its
    directory represents their frames after the [floor mod SEGMENT] bytes of
    recycled records that share the first segment, its positions are theirs and
    the metadata on disk names the floor and the durable end. *)
Record log_ok (w : FileWalManager) (rd ru : list WalRecord) : Prop := {
  log_bytes : exists pre sd su,
    rep crc32 w.(wal_dir) (w.(mgr_replay_floor) / SEGMENT_PAYLOAD_BYTES) w.(active_number)
      (pre ++ sd ++ su) /\
    len pre = w.(mgr_replay_floor) mod SEGMENT_PAYLOAD_BYTES /\
    stream_of w.(mgr_replay_floor) rd sd /\ stream_of w.(flushed_lsn) ru su /\
    w.(flushed_lsn) = w.(mgr_replay_floor) + len sd /\ w.(written_lsn) = w.(flushed_lsn) + len su;
  log_meta : w.(wal_dir).(meta_file)
    = Some (encode_meta crc32 (mkWalMeta w.(mgr_replay_floor) w.(flushed_lsn)));
  log_unflushed : match w.(unflushed_first_segment) with
    | Some n => w.(flushed_lsn) / SEGMENT_PAYLOAD_BYTES <= n /\ n <= w.(active_number)
    | None => True end
}.

Lemma lock_state_Ok w : w.(poisoned) = None -> lock_state w = (w, Ok ()).
Proof. intros E. unfold lock_state. by rewrite E. Qed.

Lemma on_dir_Ok {A} (m : SE WalDir DbError A) w d a :
  m w.(wal_dir) = (d, Ok a) -> on_dir m w = (with_dir d w.(active_number) w, Ok a).
Proof. intros E. unfold on_dir. by rewrite E. Qed.

Lemma stream_of_single p r b : framed r b -> r.(lsn) = p + len b -> stream_of p [r] b.
Proof. intros Hf Hl. rewrite <- (app_nil_r b). constructor; [done|done|constructor]. Qed.

(** Two representations with a longer stream: the active segment does not go back. *)
Lemma rep_act_mono d d' first act act' s s' :
  rep crc32 d first act s -> rep crc32 d' first act' s' -> len s < len s' -> act <= act'.
Proof. intros H H' Hlt. pose proof payload_pos. destruct H, H'. nia. Qed.

Lemma rep_act_end d first act s pos :
  rep crc32 d first act s -> first * SEGMENT_PAYLOAD_BYTES <= pos ->
  pos < first * SEGMENT_PAYLOAD_BYTES + len s -> pos / SEGMENT_PAYLOAD_BYTES <= act.
Proof.
  intros [Hle _ Hhi _ _ _] H1 H2. destruct (position_split pos) as [Hp _].
  revert Hp. generalize (pos / SEGMENT_PAYLOAD_BYTES), (pos mod SEGMENT_PAYLOAD_BYTES). intros q m Hp.
  pose proof payload_pos. destruct (N.le_gt_cases q act) as [|Hgt]; [done|exfalso].
  assert ((act + 1) * SEGMENT_PAYLOAD_BYTES <= q * SEGMENT_PAYLOAD_BYTES) by (apply N.mul_le_mono_r; lia).
  nia.
Qed.

Lemma append_positioned_eq fault r w :
  append_positioned fault r w =
  (if represents_transaction r && negb (is_settlement r) && must_backpressure_new_writer w.(clog) r.(txn_id)
   then (w, Err (db_wal ProgramLimitExceeded
     "transaction status window is pinned by an active writer; retry after older transactions finish"))
   else
     let w1 := with_clog (mark_writer r w.(clog)) w in
     match w.(poisoned) with
     | Some e => (w1, Err e)
     | None =>
       match encode_record_at crc32 json_to_vec validate_shape r w.(written_lsn) with
       | Err e => (w1, Err e)
       | Ok (record, b) =>
         let '((d, act), result) :=
           append_stream crc32 (length b) fault w.(written_lsn) b (w.(wal_dir), w.(active_number)) in
         let w2 := with_dir d act w1 in
         match result with
         | Err e =>
             match repair_failed_append w.(written_lsn) record.(lsn) w2 with
             | (w3, Ok ()) => (w3, Err e)
             | (w3, Err e') => (w3, Err e')
             end
         | Ok () =>
             (with_lsns record.(lsn) w.(flushed_lsn)
               (with_pending (w.(pending_commits) ∪ list_to_set (settled_ids record))
                 (with_unflushed (Some (default (w.(written_lsn) / SEGMENT_PAYLOAD_BYTES)
                    w.(unflushed_first_segment))) w2)), wal_position w.(written_lsn) record.(lsn))
         end
       end
     end).
Proof.
  unfold append_positioned. rewrite gets_bind. destruct (_ && _); [done|]. rewrite modify_bind.
  unfold lock_state at 1, mbind at 1, se_bind at 1. cbn [poisoned with_clog].
  destruct (poisoned w); [done|]. rewrite gets_bind. cbn [written_lsn with_clog].
  destruct (encode_record_at _ _ _ _ _) as [[record b]|e]; [|done]. rewrite lift_bind_Ok. cbv zeta.
  unfold mbind at 1, se_bind at 1. cbn [wal_dir active_number with_clog].
  destruct (append_stream _ _ _ _ _ _) as [[d act] [[]|e]]; [by rewrite !modify_bind|].
  unfold mbind at 1, se_bind at 1. by destruct (repair_failed_append _ _ _) as [w3 [[]|e']].
Qed.

Lemma floor_split w (pre sd su : bytes) :
  len pre = w.(mgr_replay_floor) mod SEGMENT_PAYLOAD_BYTES ->
  w.(flushed_lsn) = w.(mgr_replay_floor) + len sd -> w.(written_lsn) = w.(flushed_lsn) + len su ->
  w.(written_lsn) = w.(mgr_replay_floor) / SEGMENT_PAYLOAD_BYTES * SEGMENT_PAYLOAD_BYTES
                    + len (pre ++ sd ++ su).
Proof.
  intros Hpre Hfl Hwr. rewrite !len_app, Hpre, Hwr, Hfl.
  destruct (position_split w.(mgr_replay_floor)) as [Hp _]. rewrite Hp at 1. lia.
Qed.

Lemma fault_bytes_all fault b : fault_result fault (len b) = Ok () -> fault_bytes fault b = b.
Proof.
  unfold fault_result, fault_bytes. destruct fault as [[k e]|]; [|done].
  destruct (N.ltb_spec k (len b)); [done|]. intros _. apply take_ge. unfold len in *. lia.
Qed.

(** A successful append extends the unflushed records by the stamped record. *)
Lemma append_ok fault w rd ru r r' b :
  log_ok w rd ru -> w.(poisoned) = None -> kind_ok r.(rkind) -> r.(txn_id) <= U64_MAX ->
  represents_transaction r && negb (is_settlement r) && must_backpressure_new_writer w.(clog) r.(txn_id)
    = false ->
  encode_record_at crc32 json_to_vec validate_shape r w.(written_lsn) = Ok (r', b) ->
  fault_result fault (len b) = Ok () ->
  exists w', append_positioned fault r w = (w', Ok (w.(written_lsn), r'.(lsn))) /\
    log_ok w' rd (ru ++ [r']) /\ w'.(poisoned) = None /\ w'.(clog) = mark_writer r w.(clog) /\
    w'.(pending_commits) = w.(pending_commits) ∪ list_to_set (settled_ids r) /\
    w'.(clog_dat) = w.(clog_dat) /\ w'.(mgr_replay_floor) = w.(mgr_replay_floor) /\
    w'.(recycle_boundary) = w.(recycle_boundary) /\ w'.(written_lsn) = r'.(lsn) /\
    w'.(flushed_lsn) = w.(flushed_lsn).
Proof.
  intros H Hp Hk Ht Hbp E Hft. destruct H as [(pre & sd & su & Hrep & Hpre & Hsd & Hsu & Hfl & Hwr) Hm Hu].
  pose proof (encode_record_at_framed _ _ _ _ _ _ _ _ _ Hc Hj Hk Ht E) as Hf.
  pose proof (framed_len _ _ Hf) as Hmin. assert (HH : HEADER_LEN = 21) by done.
  destruct (encode_record_at_Ok _ _ _ _ _ _ _ E) as (-> & Hle & _).
  rewrite append_positioned_eq, Hbp, Hp, E. cbv zeta.
  assert (Hw := floor_split w pre sd su Hpre Hfl Hwr).
  set (first := w.(mgr_replay_floor) / SEGMENT_PAYLOAD_BYTES) in *.
  destruct (append_stream_rep crc32 first (length b) fault _ _ _ b Hrep) as (d' & act' & Ea & Hrep' & Hm');
    [rewrite <- Hw; lia|done|].
  rewrite (fault_bytes_all _ _ Hft) in Hrep'. rewrite <- Hw, Hft in Ea. rewrite Ea. cbn [lsn].
  eexists. split; [unfold wal_position; rewrite (proj2 (N.leb_gt _ _)) by lia; reflexivity|].
  cbn [clog with_lsns with_pending with_unflushed with_dir with_clog pending_commits clog_dat
       mgr_replay_floor recycle_boundary written_lsn flushed_lsn settled_ids rkind txn_id].
  split_and!; try done.
  assert (Hact : active_number w <= act').
  { apply (rep_act_mono _ _ _ _ _ _ _ Hrep Hrep'). rewrite (len_app _ b). lia. }
  split; cbn [wal_dir active_number mgr_replay_floor written_lsn flushed_lsn
    unflushed_first_segment poisoned with_lsns with_pending with_unflushed with_dir with_clog].
  - exists pre, sd, (su ++ b). split_and!.
    + by rewrite <- !app_assoc in Hrep'.
    + done.
    + done.
    + apply stream_of_app; [done|]. apply stream_of_single; [done|]. cbn [lsn]. lia.
    + done.
    + rewrite len_app. lia.
  - by rewrite Hm'.
  - fold first. destruct (w.(unflushed_first_segment)) as [n|]; simpl; [lia|].
    split.
    + apply N.Div0.div_le_mono. lia.
    + eapply rep_act_end; [exact Hrep'|lia|]. rewrite (len_app _ b). lia.
Qed.

(** A write that fails part-way leaves the log as it was. *)
Lemma append_fault_ok w rd ru r r' b k e :
  log_ok w rd ru -> w.(poisoned) = None ->
  represents_transaction r && negb (is_settlement r) && must_backpressure_new_writer w.(clog) r.(txn_id)
    = false ->
  encode_record_at crc32 json_to_vec validate_shape r w.(written_lsn) = Ok (r', b) -> k < len b ->
  exists w', append_positioned (Some (k, e)) r w = (w', Err e) /\ log_ok w' rd ru /\
    w'.(poisoned) = None /\ w'.(clog) = mark_writer r w.(clog) /\
    w'.(pending_commits) = w.(pending_commits) /\ w'.(clog_dat) = w.(clog_dat) /\
    w'.(recycle_boundary) = w.(recycle_boundary) /\ w'.(mgr_replay_floor) = w.(mgr_replay_floor) /\
    w'.(written_lsn) = w.(written_lsn) /\ w'.(flushed_lsn) = w.(flushed_lsn).
Proof.
  intros [(pre & sd & su & Hrep & Hpre & Hsd & Hsu & Hfl & Hwr) Hm Hu] Hp Hbp E Hk.
  destruct (encode_record_at_Ok _ _ _ _ _ _ _ E) as (-> & Hle & _).
  rewrite append_positioned_eq, Hbp, Hp, E. cbv zeta.
  assert (Hw := floor_split w pre sd su Hpre Hfl Hwr).
  set (first := w.(mgr_replay_floor) / SEGMENT_PAYLOAD_BYTES) in *.
  destruct (append_stream_rep crc32 first (length b) (Some (k, e)) _ _ _ b Hrep)
    as (d' & act' & Ea & Hrep' & Hm'); [rewrite <- Hw; lia|done|].
  rewrite <- Hw in Ea. rewrite Ea. cbn [fault_result]. rewrite (proj2 (N.ltb_lt _ _)) by done.
  cbn [fault_bytes] in Hrep'.
  assert (Hlen : len (take (N.to_nat k) b) = k) by (unfold len in *; rewrite length_take; lia).
  unfold repair_failed_append. cbn [lsn wal_dir mgr_replay_floor with_dir with_clog].
  destruct (truncate_stream_rep crc32 d' first act' _ w.(written_lsn) (w.(written_lsn) + len b)
    w.(mgr_replay_floor) Hc Hrep' eq_refl) as (d2 & E2 & Hrep2 & Hm2);
    [lia|rewrite len_app; lia|rewrite len_app; lia|].
  rewrite E2. cbn [unflushed_first_segment with_dir with_clog].
  replace (w.(written_lsn) - first * SEGMENT_PAYLOAD_BYTES) with (len (pre ++ sd ++ su)) in Hrep2 by lia.
  unfold len at 1 in Hrep2. rewrite Nat2N.id, take_app_length in Hrep2.
  set (act2 := keep_number w.(written_lsn) w.(mgr_replay_floor)) in *.
  destruct (w.(unflushed_first_segment)) as [n|] eqn:Eu; [destruct (N.ltb_spec act2 n)|];
    eexists; (split; [reflexivity|]); (split; [|done]); split;
    cbn [wal_dir active_number mgr_replay_floor written_lsn flushed_lsn
      unflushed_first_segment with_lsns with_pending with_unflushed with_dir with_clog];
    rewrite ?Hm2, ?Hm', ?Eu; try done; try (by exists pre, sd, su).
  split; [apply Hu|done].
Qed.

Lemma sync_segments_rep d first act s : rep crc32 d first act s ->
  forall fuel n, first <= n -> n <= act -> act - n <= N.of_nat fuel ->
  sync_segments fuel d n act = Ok ().
Proof.
  intros H. induction fuel as [|fuel IH]; intros n H1 H2 H3; cbn [sync_segments];
    destruct (N.eqb_spec n act) as [|Hne]; [done|lia|done|].
  rewrite (read_segment_rep _ _ _ _ _ _ Hc H H1 H2). cbn [mbind result_bind]. apply IH; lia.
Qed.

Lemma sync_unflushed_Ok w rd ru : log_ok w rd ru -> sync_unflushed w = Ok ().
Proof.
  intros [(pre & sd & su & Hrep & _ & _ & _ & Hfl & _) _ Hu]. unfold sync_unflushed.
  destruct (w.(unflushed_first_segment)) as [n|]; [|done].
  assert (mgr_replay_floor w / SEGMENT_PAYLOAD_BYTES <= flushed_lsn w / SEGMENT_PAYLOAD_BYTES)
    by (apply N.Div0.div_le_mono; lia).
  eapply sync_segments_rep; [done|lia|lia|lia].
Qed.

(** The published state of a flush that reached the disk. *)
Lemma publish_ok w rd ru d :
  log_ok w rd ru -> d.(segments) = w.(wal_dir).(segments) ->
  d.(meta_file) = Some (encode_meta crc32 (mkWalMeta w.(mgr_replay_floor) w.(written_lsn))) ->
  log_ok (publish_flush (with_dir d w.(active_number) w)).1 (rd ++ ru) [].
Proof.
  intros [(pre & sd & su & Hrep & Hpre & Hsd & Hsu & Hfl & Hwr) Hm Hu] Hs Hmd.
  split; cbn; [|done|done]. exists pre, (sd ++ su), []. rewrite app_nil_r.
  split_and!; [|done| |constructor|rewrite len_app; lia|change (len []) with 0; lia].
  - destruct Hrep. split; rewrite ?Hs; done.
  - apply stream_of_app; [done|]. by rewrite <- Hfl.
Qed.

(** A flush that fails before its outcome is visible truncates the log back to its
    durable end, drops the pending commits without publishing them and poisons the
    manager. *)
Lemma fail_flush_ok w rd ru m e :
  log_ok w rd ru ->
  exists w', fail_flush m e w = (w', Err e) /\ log_ok w' rd [] /\
    is_Some (w'.(poisoned)) /\ w'.(clog) = w.(clog) /\ w'.(pending_commits) = ∅ /\
    w'.(clog_dat) = w.(clog_dat) /\ w'.(recycle_boundary) = w.(recycle_boundary) /\
    w'.(mgr_replay_floor) = w.(mgr_replay_floor) /\
    w'.(written_lsn) = w.(flushed_lsn) /\ w'.(flushed_lsn) = w.(flushed_lsn).
Proof.
  intros [(pre & sd & su & Hrep & Hpre & Hsd & Hsu & Hfl & Hwr) Hm Hu].
  unfold fail_flush, correct_failed_flush.
  assert (Hw := floor_split w pre sd su Hpre Hfl Hwr).
  set (first := w.(mgr_replay_floor) / SEGMENT_PAYLOAD_BYTES) in *.
  assert (Hfl' : w.(flushed_lsn) = first * SEGMENT_PAYLOAD_BYTES + len (pre ++ sd)).
  { rewrite !len_app in *. lia. }
  destruct (truncate_stream_rep crc32 _ first _ _ w.(flushed_lsn) w.(written_lsn)
    w.(mgr_replay_floor) Hc Hrep eq_refl) as (d2 & E2 & Hrep2 & Hm2);
    [lia|rewrite app_assoc, len_app; lia|lia|].
  rewrite E2. eexists. split; [reflexivity|].
  replace (w.(flushed_lsn) - first * SEGMENT_PAYLOAD_BYTES) with (len (pre ++ sd)) in Hrep2 by lia.
  unfold len at 1 in Hrep2. rewrite Nat2N.id, app_assoc, take_app_length in Hrep2.
  split; [|cbn; eauto 12]. split; cbn [wal_dir active_number mgr_replay_floor written_lsn flushed_lsn
      unflushed_first_segment with_lsns with_pending with_unflushed with_dir with_clog poison].
  - exists pre, sd, []. rewrite app_nil_r. change (len []) with 0.
    split_and!; [done|done|done|constructor|done|lia].
  - by rewrite Hm2.
  - done.
Qed.

(** The outcomes of a flush whose result is known. *)
Lemma flush_ok fault w rd ru :
  log_ok w rd ru -> w.(poisoned) = None -> (forall e, fault <> MetaFails e true) ->
  exists w' res, flush fault w = (w', res) /\ w'.(clog_dat) = w.(clog_dat) /\
    w'.(recycle_boundary) = w.(recycle_boundary) /\ w'.(mgr_replay_floor) = w.(mgr_replay_floor) /\
    w'.(pending_commits) = ∅ /\
    ((res = Ok w.(written_lsn) /\ log_ok w' (rd ++ ru) [] /\ w'.(poisoned) = None /\
      w'.(clog) = set_committed_all w.(clog) w.(pending_commits) /\
      w'.(written_lsn) = w.(written_lsn) /\ w'.(flushed_lsn) = w.(written_lsn)) \/
     (fault <> NoFault /\ (exists e, res = Err e) /\ log_ok w' rd [] /\ is_Some w'.(poisoned) /\
      w'.(clog) = w.(clog))).
Proof.
  intros H Hp Hnv. pose proof (sync_unflushed_Ok _ _ _ H) as Hsync.
  unfold flush. rewrite (se_bind_Ok _ _ _ _ _ (lock_state_Ok _ Hp)), gets_bind. cbn [id].
  destruct fault as [|e|e [|]]; [| | by destruct (Hnv e)|].
  2:{ destruct (fail_flush_ok w rd ru "WAL manager is unavailable after durability failure: " e H)
        as (w' & -> & ?). exists w', (Err e). naive_solver. }
  all: rewrite Hsync; destruct (N.ltb_spec w.(flushed_lsn) w.(written_lsn)) as [Hlt|Hge].
  - rewrite (se_bind_Ok _ _ _ _ _ (on_dir_Ok _ _ _ _ eq_refl)). eexists _, _. split; [reflexivity|].
    split_and!; try done. left. split_and!; try done. by eapply publish_ok.
  - eexists _, _. split; [reflexivity|]. split_and!; try done. left. split_and!; try done.
    assert (Heq : w.(written_lsn) = w.(flushed_lsn)) by (destruct H as [(?&?&?&?&?&?&?&?&?)]; lia).
    pose proof (publish_ok w rd ru w.(wal_dir) H eq_refl) as Hpub. rewrite Heq in Hpub.
    specialize (Hpub (log_meta _ _ _ H)). by destruct w.
  - destruct (fail_flush_ok w rd ru "WAL manager is unavailable after durable-end update failure: " e H)
        as (w' & -> & ?). exists w', (Err e). naive_solver.
  - eexists _, _. split; [reflexivity|]. split_and!; try done. left. split_and!; try done.
    assert (Heq : w.(written_lsn) = w.(flushed_lsn)) by (destruct H as [(?&?&?&?&?&?&?&?&?)]; lia).
    pose proof (publish_ok w rd ru w.(wal_dir) H eq_refl) as Hpub. rewrite Heq in Hpub.
    specialize (Hpub (log_meta _ _ _ H)). by destruct w.
Qed.

(** ** Crash and reopening *)

(** The directory a crash may leave: every segment before the last durable one is
    intact, the last one keeps its durable bytes followed by anything the file
    system made of the unflushed rest, what follows is arbitrary, and the metadata
    file is the last one written. *)
Definition crash_image (w : FileWalManager) (d : WalDir) : Prop :=
  let last := keep_number w.(flushed_lsn) w.(mgr_replay_floor) in
  let kept := keep_payload w.(flushed_lsn) w.(mgr_replay_floor) in
  d.(meta_file) = w.(wal_dir).(meta_file) /\
  (forall n, w.(mgr_replay_floor) / SEGMENT_PAYLOAD_BYTES <= n -> n < last ->
     d.(segments) !! n = w.(wal_dir).(segments) !! n) /\
  exists f g, w.(wal_dir).(segments) !! last = Some f /\
    d.(segments) !! last = Some (take (N.to_nat (SEGMENT_HEADER_LEN + kept)) f ++ g) /\
    kept + len g <= SEGMENT_PAYLOAD_BYTES /\ w.(flushed_lsn) + len g <= U64_MAX.

(** What the CLOG recovers from: no snapshot and the whole log, or a snapshot that
    decodes.  The snapshot authorizes recycling the records [r0], covers [r1] too,
    and leaves the rest of the durable records to be folded. *)
Inductive clog_base (w : FileWalManager) : list WalRecord -> Clog -> list WalRecord -> Prop :=
  | base_none rd :
      w.(clog_dat) = None -> w.(recycle_boundary) = None -> w.(mgr_replay_floor) = 0 ->
      clog_base w rd Clog_new rd
  | base_snapshot b s r0 s0 r1 s1 rest :
      w.(clog_dat) = Some b -> w.(recycle_boundary) = Some s.(cs_authorized_replay_floor) ->
      len b <= MAX_CLOG_FILE_BYTES -> decode_clog crc32 clog_from_slice b = Ok s ->
      stream_of w.(mgr_replay_floor) r0 s0 ->
      s.(cs_authorized_replay_floor) = w.(mgr_replay_floor) + len s0 ->
      stream_of s.(cs_authorized_replay_floor) r1 s1 ->
      s.(cs_clog_lsn) = s.(cs_authorized_replay_floor) + len s1 ->
      clog_base w (r0 ++ r1 ++ rest) (from_snapshot s) rest.

(** The bytes of a prefix of the records are a prefix of the bytes. *)
Lemma stream_of_prefix p rs1 rs2 s1 s :
  stream_of p rs1 s1 -> stream_of p (rs1 ++ rs2) s -> exists s2, len s2 + len s1 = len s /\
    stream_of (p + len s1) rs2 s2.
Proof.
  intros H1. revert s. induction H1 as [p|p r b rs s1 Hf Hl Hs IH]; intros s H.
  - simpl in H. exists s. split; [change (len []) with 0; lia|]. by rewrite N.add_0_r.
  - apply stream_cons_inv in H as (b' & s' & -> & Hf' & Hl' & Hs').
    assert (Hlen : len b' = len b) by lia.
    rewrite Hlen in Hs'. destruct (IH s' Hs') as (s2 & Hl2 & H2).
    exists s2. split; [rewrite !len_app; lia|]. by rewrite len_app, N.add_assoc.
Qed.

Lemma stream_of_split p rs1 rs2 s :
  stream_of p (rs1 ++ rs2) s -> exists s1 s2, s = s1 ++ s2 /\ stream_of p rs1 s1 /\
    stream_of (p + len s1) rs2 s2.
Proof.
  revert p s. induction rs1 as [|r rs1 IH]; intros p s H.
  - exists [], s. split_and!; [done|constructor|]. change (len []) with 0. by rewrite N.add_0_r.
  - apply stream_cons_inv in H as (b & s' & -> & Hf & Hl & Hs').
    destruct (IH _ _ Hs') as (s1 & s2 & -> & H1 & H2). exists (b ++ s1), s2.
    split_and!; [by rewrite app_assoc|by constructor|]. by rewrite len_app, N.add_assoc.
Qed.

(** The end of a stream is determined by its records. *)
Lemma stream_of_end p rs s s' : stream_of p rs s -> stream_of p rs s' -> len s = len s'.
Proof.
  intros H H'. rewrite <- (app_nil_r rs) in H'.
  destruct (stream_of_prefix _ _ _ _ _ H H') as (s2 & Hl & H2). apply stream_nil_inv in H2 as ->.
  change (len []) with 0 in Hl. lia.
Qed.

(** A crash image represents the durable stream followed by garbage. *)
Lemma crash_image_rep w d pre sd su :
  rep crc32 w.(wal_dir) (w.(mgr_replay_floor) / SEGMENT_PAYLOAD_BYTES) w.(active_number) (pre ++ sd ++ su) ->
  w.(mgr_replay_floor) <= w.(flushed_lsn) ->
  w.(flushed_lsn) = w.(mgr_replay_floor) / SEGMENT_PAYLOAD_BYTES * SEGMENT_PAYLOAD_BYTES + len (pre ++ sd) ->
  crash_image w d ->
  exists g, rep crc32 (keep_upto (keep_number w.(flushed_lsn) w.(mgr_replay_floor)) d)
    (w.(mgr_replay_floor) / SEGMENT_PAYLOAD_BYTES)
    (keep_number w.(flushed_lsn) w.(mgr_replay_floor)) (pre ++ sd ++ g).
Proof.
  intros H Hfl Hend (Hm & Hsame & f & g & Ef & Eg & Hg & Hgu).
  set (first := w.(mgr_replay_floor) / SEGMENT_PAYLOAD_BYTES) in *.
  set (s0 := pre ++ sd) in *. rewrite app_assoc in H. fold s0 in H.
  destruct (keep_spec _ _ Hfl) as (Hp & Hk & Hq & _). fold first in Hq.
  destruct (keep_fits crc32 _ _ _ _ w.(flushed_lsn) _ H eq_refl Hfl) as (Hka & Hku & Ho).
  { rewrite len_app. lia. }
  set (last := keep_number w.(flushed_lsn) w.(mgr_replay_floor)) in *.
  set (kept := keep_payload w.(flushed_lsn) w.(mgr_replay_floor)) in *.
  fold first in Ho. set (o := (last - first) * SEGMENT_PAYLOAD_BYTES) in *.
  assert (Hlen : o + kept = len s0) by lia.
  rewrite (rep_seg _ _ _ _ _ H last Hq Hka) in Ef. apply (inj Some) in Ef. subst f. fold o in Eg.
  assert (Efile : take (N.to_nat (SEGMENT_HEADER_LEN + kept))
      (header_bytes crc32 last ++ sub (s0 ++ su) o SEGMENT_PAYLOAD_BYTES)
    = header_bytes crc32 last ++ sub s0 o SEGMENT_PAYLOAD_BYTES).
  { apply take_file; lia. }
  rewrite Efile in Eg. exists g. rewrite app_assoc. fold s0.
  pose proof (rep_fit _ _ _ _ _ H) as Hfit. pose proof payload_pos.
  split; rewrite ?len_app; [done|lia|lia| | |].
  - intros n H1 H2. rewrite keep_upto_lookup, (proj2 (N.ltb_ge _ _)) by done.
    destruct (decide (n = last)) as [->|Hne].
    + rewrite Eg. fold o. rewrite (sub_app_tail s0 g o) by lia.
      rewrite <- (app_assoc (header_bytes crc32 last)). reflexivity.
    + rewrite Hsame, (rep_seg _ _ _ _ _ H n) by lia. rewrite (sub_app_l s0 su), (sub_app_l s0 g) by nia. reflexivity.
  - intros n Hn. by rewrite keep_upto_lookup, (proj2 (N.ltb_lt _ _)).
  - lia.
Qed.

Lemma keep_number_zero : keep_number 0 0 = 0.
Proof. done. Qed.

Lemma load_meta_Ok d floor dend :
  d.(meta_file) = Some (encode_meta crc32 (mkWalMeta floor dend)) -> floor <= U64_MAX -> dend <= U64_MAX ->
  load_meta crc32 d = (d, Ok (mkWalMeta floor dend)).
Proof.
  intros E H1 H2. unfold load_meta. rewrite gets_bind, E. cbn [ok_or]. rewrite lift_bind_Ok.
  unfold lift. by rewrite decode_encode_meta.
Qed.

(** Initialization of a crashed directory keeps what it represents; it only
    replaces the first segment of a log that never held a durable byte. *)
Lemma initialize_rep dd d floor dend s0 g :
  dd.(has_wal_dat) = false -> dd.(dd_wal) = Some d ->
  d.(meta_file) = Some (encode_meta crc32 (mkWalMeta floor dend)) ->
  rep crc32 (keep_upto (keep_number dend floor) d) (floor / SEGMENT_PAYLOAD_BYTES)
    (keep_number dend floor) (s0 ++ g) ->
  floor <= dend -> dend = floor / SEGMENT_PAYLOAD_BYTES * SEGMENT_PAYLOAD_BYTES + len s0 ->
  exists d1 g1, initialize dd = Ok d1 /\ d1.(meta_file) = d.(meta_file) /\
    rep crc32 (keep_upto (keep_number dend floor) d1) (floor / SEGMENT_PAYLOAD_BYTES)
      (keep_number dend floor) (s0 ++ g1).
Proof.
  intros Hdat Hwal Hm H Hle Hend.
  pose proof (rep_fit _ _ _ _ _ H) as Hfit. rewrite len_app in Hfit.
  assert (Hfirst : is_Some (d.(segments) !! (floor / SEGMENT_PAYLOAD_BYTES))).
  { pose proof (rep_le _ _ _ _ _ H) as Hl.
    pose proof (rep_seg _ _ _ _ _ H (floor / SEGMENT_PAYLOAD_BYTES) (N.le_refl _) Hl) as E.
    rewrite keep_upto_lookup, (proj2 (N.ltb_ge _ _)) in E by done. by rewrite E. }
  unfold initialize. rewrite Hdat, Hwal. rewrite (bool_decide_false (Some d = None)) by done.
  cbn [andb default id]. rewrite (bool_decide_true (is_Some (meta_file d))) by (rewrite Hm; eauto).
  rewrite (se_bind_Ok _ _ _ _ _ (load_meta_Ok _ _ _ Hm ltac:(lia) ltac:(lia))).
  cbn [WalSegment.replay_floor WalSegment.durable_end].
  rewrite (bool_decide_true (is_Some (segments d !! (floor / SEGMENT_PAYLOAD_BYTES)))) by done.
  rewrite (bool_decide_false (segments d !! (floor / SEGMENT_PAYLOAD_BYTES) = None))
    by (destruct Hfirst as [f ->]; done).
  destruct (N.eqb_spec floor 0) as [Hf0|]; cbn [andb]; [|exists d, g; by split_and!].
  destruct (N.eqb_spec dend 0) as [Hd0|]; cbn [andb]; [|exists d, g; by split_and!].
  destruct (negb _); [|exists d, g; by split_and!].
  clear Hm Hle. rewrite Hf0, Hd0 in *. clear Hf0 Hd0. rewrite keep_number_zero in *.
  rewrite N.Div0.div_0_l in *.
  unfold remove_segment. rewrite modify_bind. unfold create_segment. rewrite gets_bind.
  cbn [segments set_segments]. rewrite lookup_delete_eq, encode_segment_header_Ok by done.
  rewrite lift_bind_Ok. eexists _, []. split; [reflexivity|]. split; [done|].
  assert (s0 = []) as -> by (destruct s0; [done|rewrite len_cons in Hend; lia]).
  rewrite app_nil_r. apply rep_fresh; [| |done].
  - rewrite keep_upto_lookup. cbn [N.ltb N.compare]. apply lookup_insert_eq.
  - intros k Hk. by rewrite keep_upto_lookup, (proj2 (N.ltb_lt _ _)).
Qed.

(** Opening trims a crashed directory to its durable bytes. *)
Lemma trim_rep d floor dend s0 g :
  rep crc32 (keep_upto (keep_number dend floor) d) (floor / SEGMENT_PAYLOAD_BYTES)
    (keep_number dend floor) (s0 ++ g) ->
  floor <= dend -> dend = floor / SEGMENT_PAYLOAD_BYTES * SEGMENT_PAYLOAD_BYTES + len s0 ->
  exists d', trim_to_durable (mkWalMeta floor dend) d = (d', Ok ()) /\
    d'.(meta_file) = d.(meta_file) /\
    rep crc32 d' (floor / SEGMENT_PAYLOAD_BYTES) (keep_number dend floor) s0.
Proof.
  intros H Hle Hend. unfold trim_to_durable. cbn [WalSegment.replay_floor WalSegment.durable_end].
  destruct (recycle_orphaned_rep crc32 d floor 0 []) as (d1 & E1 & Hm1 & _ & Hs1).
  rewrite (se_bind_Ok _ _ _ _ _ E1), (proj2 (N.ltb_ge _ _)) by done.
  set (first := floor / SEGMENT_PAYLOAD_BYTES) in *. set (last := keep_number dend floor) in *.
  assert (H1 : rep crc32 (keep_upto last d1) first last (s0 ++ g)).
  { destruct H as [Hl Hlo Hhi Hseg Hnone Hfit]. split; [done|done|done| | |done].
    - intros n Hn1 Hn2. specialize (Hseg n Hn1 Hn2). rewrite keep_upto_lookup in *.
      rewrite Hs1, (proj2 (N.ltb_ge n first)) by done. done.
    - intros n Hn. by rewrite keep_upto_lookup, (proj2 (N.ltb_lt _ _)). }
  rewrite (se_bind_Ok _ _ _ _ _ (discover_end_rep crc32 d1 floor dend _ Hc H1)). fold first.
  rewrite len_app, (proj2 (N.ltb_ge _ dend)) by lia.
  destruct (N.ltb_spec dend (first * SEGMENT_PAYLOAD_BYTES + (len s0 + len g))) as [Hlt|Hge].
  - destruct (truncate_stream_rep crc32 _ first last _ dend
      (first * SEGMENT_PAYLOAD_BYTES + (len s0 + len g)) floor Hc H1 eq_refl) as (d2 & E2 & H2 & Hm2);
      [done|rewrite len_app; lia|rewrite len_app; lia|].
    rewrite (se_bind_Ok _ _ _ _ _ E2). exists d2. split; [done|]. split; [by rewrite Hm2|].
    replace (dend - first * SEGMENT_PAYLOAD_BYTES) with (len s0) in H2 by lia.
    unfold len in H2. rewrite Nat2N.id, take_app_length in H2. exact H2.
  - exists (keep_upto last d1). split; [done|]. split; [by rewrite <- Hm1|].
    assert (g = []) as -> by (destruct g; [done|rewrite len_cons in Hge; lia]).
    rewrite app_nil_r in H1. exact H1.
Qed.

(** The active segment [open] selects is the last one kept. *)
Lemma open_active d floor dend s0 :
  rep crc32 d (floor / SEGMENT_PAYLOAD_BYTES) (keep_number dend floor) s0 -> floor <= dend ->
  (if (dend mod SEGMENT_PAYLOAD_BYTES =? 0)
      && bool_decide (is_Some (d.(segments) !! (dend / SEGMENT_PAYLOAD_BYTES)))
   then Ok (dend / SEGMENT_PAYLOAD_BYTES) else active_segment_number dend)
  = Ok (keep_number dend floor).
Proof.
  intros H Hle. pose proof payload_pos. unfold active_segment_number, keep_number in *.
  destruct (N.eqb_spec (dend mod SEGMENT_PAYLOAD_BYTES) 0) as [Hm|Hm]; cbn [andb];
    [|rewrite andb_false_r; done].
  destruct (position_split dend) as [Hp _].
  destruct (N.ltb_spec 0 dend) as [Hpos|Hz]; cbn [andb] in *.
  - destruct (N.ltb_spec floor dend) as [Hlt|Hge].
    + rewrite bool_decide_false.
      * unfold checked_sub. by rewrite (proj2 (N.leb_le 1 _)) by nia.
      * rewrite (rep_none _ _ _ _ _ H) by nia. by intros [].
    + assert (floor = dend) as Heq by lia. rewrite Heq in H. rewrite bool_decide_true; [done|].
      rewrite (rep_seg _ _ _ _ _ H) by lia. eauto.
  - assert (dend = 0) as Hz0 by lia. assert (floor = 0) as Hf0 by lia. rewrite Hz0, Hf0 in *.
    rewrite bool_decide_true; [done|]. rewrite (rep_seg _ _ _ _ _ H) by lia. eauto.
Qed.

(** Opening after a crash recovers exactly the durable records. *)
Lemma open_crash_ok w rd ru dd d c0 rest :
  log_ok w rd ru -> clog_base w rd c0 rest -> crash_image w d ->
  dd.(has_wal_dat) = false -> dd.(dd_wal) = Some d -> dd.(dd_clog) = w.(clog_dat) ->
  exists w', open dd = Ok w' /\ log_ok w' rd [] /\ w'.(poisoned) = None /\
    clog_base w' rd c0 rest /\ w'.(clog) = foldl fold_status c0 rest /\ w'.(pending_commits) = ∅ /\
    w'.(mgr_replay_floor) = w.(mgr_replay_floor) /\ w'.(flushed_lsn) = w.(flushed_lsn) /\
    w'.(written_lsn) = w.(flushed_lsn).
Proof.
  intros [(pre & sd & su & Hrep & Hpre & Hsd & Hsu & Hfl & Hwr) Hm Hu] Hbase Hcrash Hdat Hwal Hclog.
  assert (Hw := floor_split w pre sd su Hpre Hfl Hwr). rewrite !len_app in Hw.
  set (floor := w.(mgr_replay_floor)) in *. set (dend := w.(flushed_lsn)) in *.
  assert (Hend : dend = floor / SEGMENT_PAYLOAD_BYTES * SEGMENT_PAYLOAD_BYTES + len (pre ++ sd))
    by (rewrite len_app; lia).
  assert (Hle : floor <= dend) by lia.
  destruct (crash_image_rep w d pre sd su Hrep Hle Hend Hcrash) as (g & Hg).
  rewrite app_assoc in Hg. destruct Hcrash as (Hmd & _). rewrite Hm in Hmd.
  destruct (initialize_rep dd d floor dend _ _ Hdat Hwal Hmd Hg Hle Hend) as (d1 & g1 & E1 & Hm1 & H1).
  pose proof (rep_fit _ _ _ _ _ H1) as Hfit. rewrite len_app in Hfit.
  destruct (trim_rep d1 floor dend _ _ H1 Hle Hend) as (d2 & E2 & Hm2 & H2).
  unfold open. rewrite Hdat, E1. cbn [mbind result_bind].
  rewrite (load_meta_Ok d1 floor dend) by (try rewrite Hm1; done || lia).
  cbn [snd mbind result_bind]. rewrite E2. cbn [mbind result_bind WalSegment.durable_end WalSegment.replay_floor].
  rewrite Hclog.
  assert (Hscan : exists snap vf loaded clsn,
    load_clog_snapshot w.(clog_dat) = Ok snap /\ seed_clog snap floor dend = Ok (c0, vf, loaded, clsn) /\
    scan_stream d2 clsn dend fold_status c0 = Ok (foldl fold_status c0 rest) /\
    cs_authorized_replay_floor <$> snap = w.(recycle_boundary)).
  { destruct Hbase as [rd Hnone Hb0 Hf0|b s r0 s0 r1 s1 rest Hb Hb0 Hbl Hdec Hs0 Harf Hs1 Hcl].
    - rewrite Hnone. exists None, FIRST_NORMAL_XID, false, 0. unfold seed_clog. fold floor in Hf0.
      rewrite Hf0 in *. rewrite N.Div0.div_0_l in *. split_and!; [done|done| |done].
      unfold scan_stream. rewrite N.Div0.mod_0_l in Hpre.
      assert (pre = []) as -> by (destruct pre; [done|rewrite len_cons in Hpre; lia]).
      rewrite app_nil_l in *. eapply (scan_loop_rep fold_status d2 0 _ rd [] sd [] 0);
        [by rewrite app_nil_r|done|done|done|done|cbn; lia|lia].
    - rewrite Hb. unfold load_clog_snapshot. rewrite (proj2 (N.ltb_ge _ _)) by done. rewrite Hdec.
      cbn [mbind result_bind]. eexists _, _, _, _. split; [reflexivity|].
      rewrite app_assoc in Hsd. destruct (stream_of_split _ _ _ _ Hsd) as (t1 & t2 & -> & Ht1 & Ht2).
      rewrite Harf in Hs1. pose proof (stream_of_app _ _ _ _ _ Hs0 Hs1) as Hs01.
      assert (Hl1 := stream_of_end _ _ _ _ Hs01 Ht1). fold floor in Harf. rewrite len_app in Hfl, Hl1.
      unfold seed_clog. rewrite !(proj2 (N.ltb_ge _ _)) by lia. split; [reflexivity|].
      split; [|done]. rewrite app_assoc in H2. unfold scan_stream.
      eapply (scan_loop_rep fold_status d2 _ _ rest (pre ++ t1) t2 [] (floor + len t1));
        [by rewrite app_nil_r|done|done|cbn; lia| |cbn; lia|lia].
      rewrite len_app. rewrite !len_app in Hend. lia. }
  destruct Hscan as (snap & vf & loaded & clsn & El & Es & Esc & Eb). rewrite El. cbn [mbind result_bind].
  rewrite Es. cbn [mbind result_bind]. rewrite Esc. cbn [mbind result_bind].
  rewrite (open_active d2 floor dend _ H2 Hle). cbn [mbind result_bind].
  pose proof (rep_le _ _ _ _ _ H2) as Hla.
  rewrite (read_segment_rep _ _ _ _ _ _ Hc H2 Hla (N.le_refl _)). cbn [mbind result_bind].
  eexists. split; [reflexivity|]. split; [|split; [done|split; [|done]]].
  - split; cbn; [|by rewrite Hm2, Hm1|done].
    exists pre, sd, []. rewrite app_nil_r. change (len []) with 0.
    split_and!; [done|done|done|constructor|done|lia].
  - destruct Hbase; econstructor; cbn; rewrite ?Hclog, ?Eb; eauto.
Qed.

(** ** Recycling and checkpoints *)

(** The step of [recycle_through] that makes the boundary's segment exist. *)
Definition ensure_boundary (lsn : Lsn) (w : FileWalManager) : WalM unit :=
  let number := lsn / SEGMENT_PAYLOAD_BYTES in
  if (lsn =? w.(written_lsn)) && (lsn mod SEGMENT_PAYLOAD_BYTES =? 0)
     && bool_decide (w.(wal_dir).(segments) !! number = None)
  then
    _ ← on_dir (create_segment crc32 number);
    modify (fun w => with_dir w.(wal_dir) number w)
  else mret ().

Lemma create_segment_Ok d n :
  d.(segments) !! n = None -> n * SEGMENT_PAYLOAD_BYTES <= U64_MAX ->
  create_segment crc32 n d = (set_segments <[n := header_bytes crc32 n]> d, Ok ()).
Proof.
  intros E Hn. unfold create_segment. rewrite gets_bind, E, encode_segment_header_Ok by done.
  by rewrite lift_bind_Ok.
Qed.

Lemma ensure_boundary_ok lsn w s :
  rep crc32 w.(wal_dir) (w.(mgr_replay_floor) / SEGMENT_PAYLOAD_BYTES) w.(active_number) s ->
  w.(written_lsn) = w.(mgr_replay_floor) / SEGMENT_PAYLOAD_BYTES * SEGMENT_PAYLOAD_BYTES + len s ->
  w.(mgr_replay_floor) <= lsn -> lsn <= w.(written_lsn) ->
  exists d act, ensure_boundary lsn w w = (with_dir d act w, Ok ()) /\
    d.(meta_file) = w.(wal_dir).(meta_file) /\
    rep crc32 d (w.(mgr_replay_floor) / SEGMENT_PAYLOAD_BYTES) act s /\
    lsn / SEGMENT_PAYLOAD_BYTES <= act /\ w.(active_number) <= act.
Proof.
  intros H Hw Hlo Hhi. unfold ensure_boundary. cbv zeta.
  set (first := w.(mgr_replay_floor) / SEGMENT_PAYLOAD_BYTES) in *. pose proof payload_pos as HP.
  destruct (append_position _ _ _ _ _ H) as [(Hq & _ & Hlt)|(Hq & Hm & Hfull)]; rewrite <- Hw in Hq.
  - (* the next byte goes to the active segment, so the boundary's segment exists *)
    assert (Hle : lsn / SEGMENT_PAYLOAD_BYTES <= w.(active_number))
      by (rewrite <- Hq; by apply N.Div0.div_le_mono).
    assert (Hf : first <= lsn / SEGMENT_PAYLOAD_BYTES) by (by apply N.Div0.div_le_mono).
    rewrite (bool_decide_false (_ = None)) by (rewrite (rep_seg _ _ _ _ _ H) by done; done).
    rewrite andb_false_r. exists w.(wal_dir), w.(active_number). split_and!; try done. by destruct w.
  - destruct (N.eqb_spec lsn w.(written_lsn)) as [->|Hne]; cbn [andb].
    + rewrite Hw, Hm. cbn [N.eqb]. rewrite <- Hw, Hq.
      assert (E := rep_none _ _ _ _ _ H (w.(active_number) + 1) ltac:(lia)).
      rewrite bool_decide_true by done.
      cbn [andb]. pose proof (rep_fit _ _ _ _ _ H). pose proof (rep_le _ _ _ _ _ H).
      rewrite (se_bind_Ok _ _ _ _ _ (on_dir_Ok _ _ _ _ (create_segment_Ok _ _ E ltac:(nia)))).
      eexists _, _. split; [reflexivity|]. split_and!; [done|by apply rollover_rep|lia|lia].
    + exists w.(wal_dir), w.(active_number). split_and!; [by destruct w|done|done| |done].
      apply (rep_act_end _ _ _ _ lsn H); [|lia].
      etransitivity; [|exact Hlo]. unfold first. rewrite N.mul_comm. apply N.Div0.mul_div_le.
Qed.

(** Splitting the represented stream at a record boundary. *)
Lemma recycle_split floor lsn (pre s0 s1 : bytes) :
  len pre = floor mod SEGMENT_PAYLOAD_BYTES -> lsn = floor + len s0 ->
  let k := (lsn / SEGMENT_PAYLOAD_BYTES - floor / SEGMENT_PAYLOAD_BYTES) * SEGMENT_PAYLOAD_BYTES in
  drop (N.to_nat k) (pre ++ s0 ++ s1) = drop (N.to_nat k) (pre ++ s0) ++ s1 /\
  len (drop (N.to_nat k) (pre ++ s0)) = lsn mod SEGMENT_PAYLOAD_BYTES.
Proof.
  intros Hpre Hl k. destruct (position_split floor) as [Hf _]. destruct (position_split lsn) as [Hn Hm].
  assert (Hle : floor / SEGMENT_PAYLOAD_BYTES <= lsn / SEGMENT_PAYLOAD_BYTES)
    by (apply N.Div0.div_le_mono; lia).
  assert (Hk : k + lsn mod SEGMENT_PAYLOAD_BYTES = len (pre ++ s0)).
  { rewrite len_app, Hpre. unfold k. rewrite N.mul_sub_distr_r.
    apply (N.mul_le_mono_r _ _ SEGMENT_PAYLOAD_BYTES) in Hle. revert Hf Hn Hle.
    generalize (floor / SEGMENT_PAYLOAD_BYTES * SEGMENT_PAYLOAD_BYTES),
      (lsn / SEGMENT_PAYLOAD_BYTES * SEGMENT_PAYLOAD_BYTES), (floor mod SEGMENT_PAYLOAD_BYTES),
      (lsn mod SEGMENT_PAYLOAD_BYTES). intros. lia. }
  clearbody k. clear Hf Hn Hm Hle Hl. revert Hk. generalize (lsn mod SEGMENT_PAYLOAD_BYTES). intros m Hk.
  unfold len in *. split; [rewrite app_assoc, drop_app_le; [done|lia]|rewrite length_drop; lia].
Qed.

(** Recycling through the authorized boundary drops exactly the records it covers. *)
Lemma recycle_ok w rd ru c0 rest lsn :
  log_ok w rd ru -> w.(poisoned) = None -> clog_base w rd c0 rest ->
  exists w' rd' res, recycle_through lsn None w = (w', res) /\ log_ok w' rd' ru /\
    w'.(poisoned) = None /\ clog_base w' rd' c0 rest /\ w'.(clog) = w.(clog) /\
    w'.(pending_commits) = w.(pending_commits) /\ exists gone, rd = gone ++ rd'.
Proof.
  intros H Hp Hbase. pose proof H as H0.
  destruct H as [(pre & sd & su & Hrep & Hpre & Hsd & Hsu & Hfl & Hwr) Hm Hu].
  assert (Hw := floor_split w pre sd su Hpre Hfl Hwr).
  unfold recycle_through. rewrite (se_bind_Ok _ _ _ _ _ (lock_state_Ok _ Hp)), gets_bind. cbn [id].
  destruct (N.ltb_spec lsn w.(mgr_replay_floor)) as [|Hlo]; cbn [orb];
    [by exists w, rd; eexists; split; [reflexivity|]; split_and!; try done; exists []|].
  destruct (N.ltb_spec w.(flushed_lsn) lsn) as [|Hhi];
    [by exists w, rd; eexists; split; [reflexivity|]; split_and!; try done; exists []|].
  destruct (N.eqb_spec lsn w.(mgr_replay_floor)) as [->|Hne].
  { destruct (recycle_orphaned_rep crc32 w.(wal_dir) w.(mgr_replay_floor) w.(active_number) (pre ++ sd ++ su))
      as (d' & E & Hm' & Hr' & _).
    rewrite (on_dir_Ok _ _ _ _ E). eexists _, rd, _. split; [reflexivity|]. split_and!; try done.
    - split; cbn; [|by rewrite Hm'|done]. exists pre, sd, su. split_and!; try done. by apply Hr'.
    - destruct Hbase; econstructor; cbn; eauto.
    - by exists []. }
  destruct (bool_decide (w.(recycle_boundary) = Some lsn)) eqn:Eb; cbn [negb];
    [|by exists w, rd; eexists; split; [reflexivity|]; split_and!; try done; exists []].
  apply bool_decide_eq_true in Eb.
  destruct Hbase as [|b s r0 s0 r1 s1 rest Hb Hb0 Hbl Hdec Hs0 Harf Hs1 Hcl]; [congruence|].
  rewrite Eb in Hb0. apply (inj Some) in Hb0. rewrite <- Hb0 in *.
  destruct (stream_of_split _ _ _ _ Hsd) as (t0 & t1 & -> & Ht0 & Ht1).
  assert (Hl0 := stream_of_end _ _ _ _ Hs0 Ht0).
  destruct (ensure_boundary_ok lsn w _ Hrep Hw ltac:(lia) ltac:(lia)) as (d1 & act1 & E1 & Hm1 & H1 & Ha1 & Ha2).
  rewrite (se_bind_Ok _ _ _ _ _ E1).
  rewrite (se_bind_Ok _ _ _ _ _ (on_dir_Ok _ _ _ _ eq_refl)). rewrite modify_bind.
  set (d2 := mkWalDir d1.(segments) (Some (encode_meta crc32 (mkWalMeta lsn w.(flushed_lsn))))).
  assert (H2 : rep crc32 d2 (w.(mgr_replay_floor) / SEGMENT_PAYLOAD_BYTES) act1 (pre ++ (t0 ++ t1) ++ su))
    by (by destruct H1; split).
  destruct (recycle_segments_rep crc32 d2 w.(mgr_replay_floor) lsn act1 _ H2) as (d3 & E3 & Hm3 & H3);
    [by apply N.Div0.div_le_mono; lia|done|].
  unshelve erewrite (on_dir_Ok (recycle_segments w.(mgr_replay_floor) lsn) _ d3 () _); [exact E3|].
  cbn [active_number with_floor with_dir].
  destruct (recycle_split w.(mgr_replay_floor) lsn pre t0 (t1 ++ su) Hpre ltac:(lia)) as [Hd Hpl].
  cbv zeta in Hd, Hpl. rewrite <- app_assoc, Hd in H3.
  eexists _, (r1 ++ rest), _. split; [reflexivity|]. split_and!; try done.
  - split; cbn [wal_dir active_number mgr_replay_floor written_lsn flushed_lsn
      unflushed_first_segment with_floor with_dir].
    + eexists _, t1, su. split; [exact H3|]. split; [exact Hpl|].
      split_and!; [by rewrite Harf, Hl0|done|rewrite len_app in Hfl; lia|done].
    + rewrite Hm3. done.
    + destruct (w.(unflushed_first_segment)); [lia|done].
  - apply (base_snapshot _ b s [] [] r1 s1 rest); cbn; try done.
    + by rewrite Eb, Hb0.
    + constructor.
    + change (len []) with 0. lia.
    + by rewrite <- Hb0.
    + by rewrite <- Hb0.
  - by exists r0.
Qed.

(** ** Statuses: committed at run time means durable *)

Lemma status_set c t st id :
  Clog_status (mkClog (<[t := st]> c.(statuses)) c.(committed_floor)) id =
  if id <? FIRST_NORMAL_XID then Committed
  else if bool_decide (id = t) then st else Clog_status c id.
Proof.
  unfold Clog_status. destruct (id <? FIRST_NORMAL_XID); [done|]. cbn [statuses committed_floor].
  case_bool_decide; [subst; by rewrite lookup_insert_eq|by rewrite lookup_insert_ne by done].
Qed.

Lemma status_reserved c id : id < FIRST_NORMAL_XID -> Clog_status c id = Committed.
Proof. intros H. unfold Clog_status. by rewrite (proj2 (N.ltb_lt _ _)). Qed.

Lemma set_committed_status c t id :
  Clog_status (set_committed c t) id = Committed <-> Clog_status c id = Committed \/ id = t.
Proof.
  unfold set_committed. rewrite status_set. destruct (N.ltb_spec id FIRST_NORMAL_XID) as [Hr|Hr].
  - rewrite (status_reserved c id Hr). naive_solver.
  - case_bool_decide; naive_solver.
Qed.

Lemma foldl_set_committed ids : forall c id,
  Clog_status (foldl set_committed c ids) id = Committed <-> Clog_status c id = Committed \/ id ∈ ids.
Proof.
  induction ids as [|x ids IH]; intros c id; simpl; [set_solver|].
  rewrite IH, set_committed_status, elem_of_cons. naive_solver.
Qed.

(** Folding a record keeps a commit unless the record aborts that transaction. *)
Lemma fold_keeps_commit c r id :
  Clog_status c id = Committed ->
  (r.(rkind) = Abort -> r.(txn_id) <> id \/ id < FIRST_NORMAL_XID) ->
  Clog_status (fold_status c r) id = Committed.
Proof.
  intros Hs Hab. unfold fold_status. destruct (rkind r) eqn:Ek.
  all: try (by apply set_committed_status; left).
  all: try (by apply foldl_set_committed; left; apply set_committed_status; left).
  all: try (destruct (_ && bool_decide _) eqn:Eb; [|done]; to_prop; unfold set_in_progress;
            rewrite status_set; destruct (id <? FIRST_NORMAL_XID); [done|]; case_bool_decide; congruence).
  unfold set_aborted. rewrite status_set. destruct (N.ltb_spec id FIRST_NORMAL_XID) as [|Hr]; [done|].
  case_bool_decide; [|done]. destruct (Hab eq_refl); [congruence|lia].
Qed.

Lemma fold_settles c r id : id ∈ settled_ids r -> Clog_status (fold_status c r) id = Committed.
Proof.
  unfold settled_ids, fold_status. destruct (rkind r); intros Hin; try (by inversion Hin).
  - apply list_elem_of_singleton in Hin. apply set_committed_status. by right.
  - apply foldl_set_committed. apply elem_of_cons in Hin as [->|Hin]; [|by right].
    left. apply set_committed_status. by right.
Qed.

(** Marking a writer never makes a transaction committed. *)
Lemma mark_writer_status r c id :
  Clog_status (mark_writer r c) id = Committed ->
  Clog_status c id = Committed /\ (r.(rkind) = Abort -> r.(txn_id) <> id \/ id < FIRST_NORMAL_XID).
Proof.
  destruct (N.lt_ge_cases id FIRST_NORMAL_XID) as [Hr|Hr].
  { intros _. split; [by apply status_reserved|auto]. }
  assert (Hset : forall st, st <> Committed ->
    Clog_status (mkClog (<[txn_id r := st]> c.(statuses)) c.(committed_floor)) id = Committed ->
    Clog_status c id = Committed /\ txn_id r <> id).
  { intros st Hst. rewrite status_set, (proj2 (N.ltb_ge _ _)) by done.
    case_bool_decide; [congruence|]. auto. }
  unfold mark_writer. destruct (rkind r) eqn:Ek; try (destruct (represents_transaction r));
    intros Hs; try (apply Hset in Hs as [? ?]; [by split; [|left]|done]); by split.
Qed.

(** The invariant of a running manager: what it holds on disk ([rd], [ru]), what
    its CLOG recovers from ([c0], [rest]), and that every transaction it reports
    committed, now or at the next flush, is committed by the durable records. *)
Record wal_inv (w : FileWalManager) (rd ru : list WalRecord) (c0 : Clog) (rest : list WalRecord) : Prop := {
  inv_log : log_ok w rd ru;
  inv_base : clog_base w rd c0 rest;
  inv_committed : forall id, Clog_status w.(clog) id = Committed ->
    Clog_status (foldl fold_status c0 rest) id = Committed /\
    Clog_status (foldl fold_status c0 (rest ++ ru)) id = Committed;
  inv_pending : forall id, id ∈ w.(pending_commits) ->
    Clog_status (foldl fold_status c0 (rest ++ ru)) id = Committed
}.

Lemma clog_base_app w w' rd c0 rest ru :
  w'.(clog_dat) = w.(clog_dat) -> w'.(recycle_boundary) = w.(recycle_boundary) ->
  w'.(mgr_replay_floor) = w.(mgr_replay_floor) ->
  clog_base w rd c0 rest -> clog_base w' (rd ++ ru) c0 (rest ++ ru).
Proof.
  intros E1 E2 E3 H. destruct H as [rd|b s r0 s0 r1 s1 rest].
  - constructor; congruence.
  - rewrite <- !app_assoc. econstructor; rewrite ?E1, ?E2, ?E3; eauto.
Qed.

Lemma clog_base_same w w' rd c0 rest :
  w'.(clog_dat) = w.(clog_dat) -> w'.(recycle_boundary) = w.(recycle_boundary) ->
  w'.(mgr_replay_floor) = w.(mgr_replay_floor) ->
  clog_base w rd c0 rest -> clog_base w' rd c0 rest.
Proof.
  intros E1 E2 E3 H. pose proof (clog_base_app w w' rd c0 rest [] E1 E2 E3 H) as H'.
  by rewrite !app_nil_r in H'.
Qed.

Lemma log_ok_with_clog c w rd ru : log_ok w rd ru -> log_ok (with_clog c w) rd ru.
Proof. intros [H1 H2 H3]. split; [exact H1|exact H2|exact H3]. Qed.

(** Appending keeps the invariant on every branch: backpressure, a poisoned
    manager, an encoding error, a failed write and success. *)
Lemma append_inv fault r w rd ru c0 rest w' res :
  wal_inv w rd ru c0 rest -> kind_ok r.(rkind) -> r.(txn_id) <= U64_MAX ->
  (r.(rkind) = Abort -> r.(txn_id) ∉ w.(pending_commits)) ->
  append_positioned fault r w = (w', res) -> exists ru', wal_inv w' rd ru' c0 rest.
Proof.
  intros [Hlog Hbase Hcom Hpend] Hk Ht Hab E.
  assert (Hmarked : forall w2, log_ok w2 rd ru -> w2.(clog) = mark_writer r w.(clog) ->
    w2.(pending_commits) = w.(pending_commits) -> w2.(clog_dat) = w.(clog_dat) ->
    w2.(recycle_boundary) = w.(recycle_boundary) -> w2.(mgr_replay_floor) = w.(mgr_replay_floor) ->
    wal_inv w2 rd ru c0 rest).
  { intros w2 H1 H2 H3 H4 H5 H6. split; [done|by eapply clog_base_same| |by rewrite H3].
    intros id Hid. rewrite H2 in Hid. apply mark_writer_status in Hid as [Hid _]. auto. }
  destruct (represents_transaction r && negb (is_settlement r)
    && must_backpressure_new_writer w.(clog) r.(txn_id)) eqn:Ebp.
  { rewrite append_positioned_eq, Ebp in E. simplify_eq. by exists ru. }
  destruct (w.(poisoned)) as [e|] eqn:Ep.
  { rewrite append_positioned_eq, Ebp, Ep in E. cbv zeta in E. simplify_eq. exists ru. apply Hmarked; try done.
    by apply log_ok_with_clog. }
  destruct (encode_record_at crc32 json_to_vec validate_shape r w.(written_lsn)) as [[r' b]|e] eqn:Ee.
  2:{ rewrite append_positioned_eq, Ebp, Ep, Ee in E. cbv zeta in E. simplify_eq. exists ru. apply Hmarked; try done.
      by apply log_ok_with_clog. }
  destruct (fault_result fault (len b)) as [[]|e] eqn:Ef.
  - destruct (append_ok fault w rd ru r r' b Hlog Ep Hk Ht Ebp Ee Ef)
      as (w2 & E2 & Hl2 & _ & Hc2 & Hp2 & Hd2 & Hfl2 & Hb2 & _).
    rewrite E2 in E. simplify_eq. exists (ru ++ [r']).
    assert (Hr' : rkind r' = rkind r /\ txn_id r' = txn_id r).
    { destruct (encode_record_at_Ok _ _ _ _ _ _ _ Ee) as (-> & _). done. }
    assert (Hkeep : forall id, Clog_status (foldl fold_status c0 (rest ++ ru)) id = Committed ->
      (rkind r = Abort -> txn_id r <> id \/ id < FIRST_NORMAL_XID) ->
      Clog_status (foldl fold_status c0 (rest ++ ru ++ [r'])) id = Committed).
    { intros id Hid Ha. rewrite app_assoc, foldl_app. cbn [foldl]. apply fold_keeps_commit; [done|].
      by rewrite (proj1 Hr'), (proj2 Hr'). }
    split; [done|by eapply clog_base_same| |].
    + intros id Hid. rewrite Hc2 in Hid. apply mark_writer_status in Hid as [Hid Ha].
      destruct (Hcom id Hid). auto.
    + intros id Hid. rewrite Hp2 in Hid. apply elem_of_union in Hid as [Hid|Hid].
      * apply Hkeep; [auto|]. intros Ha. left. intros Heq. rewrite Heq in Hab. by apply Hab.
      * rewrite app_assoc, foldl_app. cbn [foldl]. apply fold_settles. unfold settled_ids.
        rewrite (proj1 Hr'), (proj2 Hr'). by apply elem_of_list_to_set in Hid.
  - destruct fault as [[k e0]|]; [|done]. cbn [fault_result] in Ef.
    destruct (N.ltb_spec k (len b)) as [Hk0|]; [|done].
    destruct (append_fault_ok w rd ru r r' b k e0 Hlog Ep Ebp Ee Hk0)
      as (w2 & E2 & Hl2 & _ & Hc2 & Hp2 & Hd2 & Hb2 & Hf2 & _).
    rewrite E2 in E. simplify_eq. exists ru. by apply Hmarked.
Qed.

Lemma set_committed_all_status c ids id :
  Clog_status (set_committed_all c ids) id = Committed <-> Clog_status c id = Committed \/ id ∈ ids.
Proof. unfold set_committed_all. by rewrite foldl_set_committed, elem_of_elements. Qed.

(** Flushing keeps the invariant, whether it succeeds or fails. *)
Lemma flush_inv fault w rd ru c0 rest w' res :
  wal_inv w rd ru c0 rest -> (forall e, fault <> MetaFails e true) ->
  flush fault w = (w', res) ->
  ((exists l, res = Ok l) /\ w.(poisoned) = None /\ w'.(poisoned) = None /\ wal_inv w' (rd ++ ru) [] c0 (rest ++ ru) /\
   w'.(mgr_replay_floor) = w.(mgr_replay_floor)) \/
  (exists e, res = Err e) /\ exists ru', wal_inv w' rd ru' c0 rest.
Proof.
  intros [Hlog Hbase Hcom Hpend] Hnv E. destruct (w.(poisoned)) as [e|] eqn:Ep.
  { right. unfold flush, lock_state, mbind, se_bind in E. rewrite Ep in E. simplify_eq.
    split; [eauto|]. by exists ru. }
  destruct (flush_ok fault w rd ru Hlog Ep Hnv) as (w2 & res2 & E2 & Hd & Hb & Hf & Hp & Hcase).
  rewrite E in E2. simplify_eq.
  destruct Hcase as [(-> & Hl & Hp2 & Hc2 & _)|(_ & He & Hl & _ & Hc2)].
  - left. split; [eauto|]. split; [done|]. split; [done|]. split; [|done].
    split; [done|by eapply clog_base_app| |by rewrite Hp].
    intros id Hid. rewrite app_nil_r. rewrite Hc2 in Hid.
    apply set_committed_all_status in Hid as [Hid|Hid]; [split; by apply Hcom|auto].
  - right. split; [done|]. exists []. split; [done|by eapply clog_base_same| |by rewrite Hp].
    intros id Hid. rewrite app_nil_r. rewrite Hc2 in Hid. by destruct (Hcom id Hid).
Qed.

(** [serde_json] reads back the CLOG snapshots it wrote. *)
Context (Hserde : serde_roundtrip clog_to_vec clog_from_slice).

(** [p] is a position where a record of the retained log starts or ends. *)
Definition frame_boundary (w : FileWalManager) (p : Lsn) : Prop :=
  forall rd ru, log_ok w rd ru -> exists r0 r1 s0,
    rd ++ ru = r0 ++ r1 /\ stream_of w.(mgr_replay_floor) r0 s0 /\ p = w.(mgr_replay_floor) + len s0.

(** The snapshot a checkpoint writes is a new base that covers the whole log. *)
Lemma checkpoint_base w rd c0 rest p cap ab b r0 r1 s0 :
  wal_inv w rd [] c0 rest -> p <= w.(flushed_lsn) ->
  rd = r0 ++ r1 -> stream_of w.(mgr_replay_floor) r0 s0 -> p = w.(mgr_replay_floor) + len s0 ->
  let snapshot := live_snapshot w.(clog) w.(flushed_lsn) p w.(vacuum_floor) cap ab in
  encode_clog crc32 clog_to_vec snapshot = Ok b ->
  w.(pending_commits) = ∅ ->
  wal_inv (with_boundary (Some p) (with_clog (prune_to w.(clog) snapshot.(cs_committed_floor))
    (with_clog_dat (Some b) w))) rd [] (from_snapshot snapshot) [].
Proof.
  intros [Hlog _ _ _] Hp Hrd Hs0 Hps snapshot Eb Hpend.
  assert (Hdec := decode_encode_live crc32 clog_to_vec clog_from_slice _ _ _ _ _ _ _ Hserde Hc Hp Eb).
  destruct Hdec as [Hdec Hlen]. fold snapshot in Hdec.
  pose proof Hlog as [(pre & sd & su & Hrep & Hpre & Hsd & Hsu & Hfl & Hwr) Hm Hu].
  rewrite Hrd in Hsd. destruct (stream_of_split _ _ _ _ Hsd) as (t0 & t1 & -> & Ht0 & Ht1).
  assert (Hl0 := stream_of_end _ _ _ _ Hs0 Ht0). rewrite len_app in Hfl.
  split.
  - destruct Hlog as [L1 L2 L3]. split; [exact L1|exact L2|exact L3].
  - rewrite Hrd, <- (app_nil_r r1).
    apply (base_snapshot _ b snapshot r0 s0 r1 t1 []); cbn; try done.
    + by rewrite Hps, Hl0.
    + lia.
  - intros id Hid. cbn [clog with_boundary with_clog] in Hid. cbn [app foldl].
    assert (Hag := live_prune_agree w.(clog) w.(flushed_lsn) p w.(vacuum_floor) cap ab id).
    cbv zeta in Hag. fold snapshot in Hag. by rewrite <- Hag in Hid.
  - intros id Hid. cbn in Hid. rewrite Hpend in Hid. set_solver.
Qed.

Lemma checkpoint_inv fault wf p cap ab w rd ru c0 rest w' res :
  wal_inv w rd ru c0 rest -> frame_boundary w p -> (forall e, fault <> MetaFails e true) ->
  checkpoint_clog fault wf p cap ab w = (w', res) ->
  exists rd' ru' c0' rest', wal_inv w' rd' ru' c0' rest'.
Proof.
  intros Hinv Hfb Hnv E. unfold checkpoint_clog in E.
  destruct (flush fault w) as [w1 res1] eqn:Ef.
  destruct (flush_inv _ _ _ _ _ _ _ _ Hinv Hnv Ef) as [([l ->] & Hp & Hp1 & Hinv1 & Hfl)|([e ->] & ru' & Hinv1)].
  2:{ rewrite (se_bind_Err _ _ _ _ _ Ef) in E. simplify_eq. eauto 6. }
  rewrite (se_bind_Ok _ _ _ _ _ Ef), (se_bind_Ok _ _ _ _ _ (lock_state_Ok _ Hp1)), gets_bind in E.
  cbn [id] in E. destruct (_ || _) eqn:Eg; [unfold lift in E; simplify_eq; eauto 6|].
  apply orb_false_iff in Eg as [Eg1 Eg2]. apply N.ltb_ge in Eg1, Eg2.
  destruct (encode_clog _ _ _) as [b|e] eqn:Eb; [|unfold lift, mbind, se_bind in E; simplify_eq; eauto 6].
  rewrite lift_bind_Ok in E. destruct wf as [e|]; [unfold lift in E; simplify_eq; eauto 6|].
  rewrite modify_bind in E.
  rewrite (se_bind_Ok _ _ _ _ _ (lock_state_Ok (with_clog_dat (Some b) w1) Hp1)) in E.
  unfold modify in E. simplify_eq.
  destruct (Hfb rd ru (inv_log _ _ _ _ _ Hinv)) as (r0 & r1 & s0 & Hrd & Hs0 & Hps).
  rewrite <- Hfl in Hs0, Hps.
  assert (Hpend : w1.(pending_commits) = ∅).
  { destruct (flush_ok fault w rd ru (inv_log _ _ _ _ _ Hinv) Hp Hnv) as (w2 & res2 & E2 & _ & _ & _ & H0 & _).
    congruence. }
  eexists (rd ++ ru), [], _, []. by apply (checkpoint_base _ _ _ _ p cap ab b r0 r1 s0 Hinv1 Eg2).
Qed.

(** ** The manager as a transition system *)

Inductive wal_step : FileWalManager -> FileWalManager -> Prop :=
  | step_append fault r w w' res :
      kind_ok r.(rkind) -> r.(txn_id) <= U64_MAX ->
      (r.(rkind) = Abort -> r.(txn_id) ∉ w.(pending_commits)) ->
      append_positioned fault r w = (w', res) -> wal_step w w'
  | step_flush fault w w' res :
      (forall e, fault <> MetaFails e true) -> flush fault w = (w', res) -> wal_step w w'
  | step_checkpoint fault wf p cap ab w w' res :
      frame_boundary w p -> (forall e, fault <> MetaFails e true) ->
      checkpoint_clog fault wf p cap ab w = (w', res) -> wal_step w w'
  | step_recycle lsn w w' res : recycle_through lsn None w = (w', res) -> wal_step w w'
  | step_vacuum_floor b w w' res : set_vacuum_floor b w = (w', res) -> wal_step w w'
  | step_resolve w w' res : resolve_all_in_flight_as_aborted w = (w', res) -> wal_step w w'
  | step_crash dd d w w' :
      crash_image w d -> dd.(has_wal_dat) = false -> dd.(dd_wal) = Some d ->
      dd.(dd_clog) = w.(clog_dat) -> open dd = Ok w' -> wal_step w w'.

(** A data directory that was never used. *)
Definition empty_data_dir : DataDir := mkDataDir false false None None.

Inductive wal_reach : FileWalManager -> Prop :=
  | reach_open w : open empty_data_dir = Ok w -> wal_reach w
  | reach_step w w' : wal_reach w -> wal_step w w' -> wal_reach w'.

Lemma resolve_all_status c id :
  Clog_status (resolve_all_in_progress_as_aborted c) id = Committed -> Clog_status c id = Committed.
Proof.
  destruct (N.lt_ge_cases id FIRST_NORMAL_XID) as [Hr|Hr]; [intros _; by apply status_reserved|].
  rewrite resolve_status by done. destruct (statuses c !! id) as [[]|]; done.
Qed.

Lemma poisoned_lock {A} (f : unit -> WalM A) w e :
  w.(poisoned) = Some e -> (lock_state ≫= f) w = (w, Err e).
Proof. intros E. unfold mbind, se_bind, lock_state. by rewrite E. Qed.

Lemma wal_step_inv w rd ru c0 rest w' :
  wal_inv w rd ru c0 rest -> wal_step w w' -> exists rd' ru' c0' rest', wal_inv w' rd' ru' c0' rest'.
Proof.
  intros Hinv Hstep. inversion Hstep as [fault r ? ? res Hk Ht Ha E|fault ? ? res Hnv E
    |fault wf p cap ab ? ? res Hfb Hnv E|lsn ? ? res E|b ? ? res E|? ? res E|dd d ? ? Hcr H1 H2 H3 E]; subst.
  - destruct (append_inv _ _ _ _ _ _ _ _ _ Hinv Hk Ht Ha E) as (ru' & ?). eauto.
  - destruct (flush_inv _ _ _ _ _ _ _ _ Hinv Hnv E) as [(_ & _ & _ & ? & _)|(_ & ? & ?)]; eauto.
  - by eapply checkpoint_inv.
  - destruct (w.(poisoned)) as [e|] eqn:Ep.
    { unfold recycle_through in E. rewrite (poisoned_lock _ _ _ Ep) in E. simplify_eq. eauto. }
    destruct Hinv as [Hlog Hbase Hcom Hpend].
    destruct (recycle_ok w rd ru c0 rest lsn Hlog Ep Hbase)
      as (w2 & rd' & res2 & E2 & Hl & _ & Hb & Hc2 & Hp2 & _).
    rewrite E in E2. simplify_eq. exists rd', ru, c0, rest. split; [done|done| |].
    + by rewrite Hc2.
    + by rewrite Hp2.
  - destruct (w.(poisoned)) as [e|] eqn:Ep.
    { unfold set_vacuum_floor in E. rewrite (poisoned_lock _ _ _ Ep) in E. simplify_eq. eauto. }
    unfold set_vacuum_floor in E. rewrite (se_bind_Ok _ _ _ _ _ (lock_state_Ok _ Ep)) in E.
    unfold modify in E. simplify_eq. destruct Hinv as [[L1 L2 L3] Hbase Hcom Hpend].
    exists rd, ru, c0, rest. split; [split; [exact L1|exact L2|exact L3]|by apply (clog_base_same w)|done|done].
  - destruct (w.(poisoned)) as [e|] eqn:Ep.
    { unfold resolve_all_in_flight_as_aborted in E. rewrite (poisoned_lock _ _ _ Ep) in E. simplify_eq. eauto. }
    unfold resolve_all_in_flight_as_aborted in E. rewrite (se_bind_Ok _ _ _ _ _ (lock_state_Ok _ Ep)) in E.
    unfold modify in E. simplify_eq. destruct Hinv as [Hlog Hbase Hcom Hpend].
    exists rd, ru, c0, rest. split; [by apply log_ok_with_clog|by apply (clog_base_same w)| |done].
    intros id Hid. apply Hcom, resolve_all_status, Hid.
  - destruct Hinv as [Hlog Hbase Hcom Hpend].
    destruct (open_crash_ok w rd ru dd d c0 rest Hlog Hbase Hcr H1 H2 H3)
      as (w2 & E2 & Hl & _ & Hb & Hc2 & Hp2 & _).
    rewrite E in E2. simplify_eq. exists rd, [], c0, rest. split; [done|done| |].
    + intros id Hid. rewrite Hc2 in Hid. by rewrite app_nil_r.
    + rewrite Hp2. set_solver.
Qed.

(** The directory initialization builds. *)
Definition initial_dir : WalDir :=
  mkWalDir {[0 := header_bytes crc32 0]} (Some (encode_meta crc32 (mkWalMeta 0 0))).
Definition initial_manager : FileWalManager :=
  mkManager initial_dir None 0 None 0 0 0 Clog_new ∅ FIRST_NORMAL_XID false None None.

Lemma initialize_empty : initialize empty_data_dir = Ok initial_dir.
Proof.
  unfold initialize. cbn [has_wal_dat empty_data_dir has_manifest dd_clog dd_wal].
  rewrite (bool_decide_false (is_Some (@None bytes))) by (by intros []). cbn [orb].
  rewrite andb_false_r. cbn [default meta_file].
  rewrite (bool_decide_false (is_Some (@None bytes))) by (by intros []). cbn [segments].
  rewrite lookup_empty. rewrite (bool_decide_false (is_Some (@None bytes))) by (by intros []).
  rewrite mret_bind. unfold write_meta. rewrite modify_bind, gets_bind. cbn [segments].
  rewrite lookup_empty, bool_decide_true by done.
  rewrite create_segment_Ok; [done|done|done].
Qed.

Lemma initial_dir_rep : rep crc32 initial_dir 0 0 [].
Proof.
  apply rep_fresh; [done| |done]. intros k Hk. unfold initial_dir. cbn [segments].
  apply lookup_singleton_ne. lia.
Qed.

Lemma initial_inv : wal_inv initial_manager [] [] Clog_new [].
Proof.
  split; [|by constructor|done|cbn; set_solver].
  split; cbn; [|done|done]. exists [], [], []. change (len []) with 0. rewrite N.Div0.div_0_l, N.Div0.mod_0_l.
  split_and!; [apply initial_dir_rep|done|constructor|constructor|done|done].
Qed.

Lemma initial_crash : crash_image initial_manager initial_dir.
Proof.
  unfold crash_image. cbn [flushed_lsn mgr_replay_floor initial_manager wal_dir].
  change (keep_number 0 0) with 0. change (keep_payload 0 0) with 0.
  split; [done|]. split; [intros n H1 H2; lia|].
  exists (header_bytes crc32 0), []. change (len []) with 0. split_and!; [done| |done|done].
  rewrite app_nil_r. cbn [segments initial_dir]. rewrite lookup_singleton_eq. rewrite take_ge; [done|].
  pose proof (len_header_bytes crc32 0) as H. unfold len in H. lia.
Qed.

Lemma open_initialize dd dd' :
  initialize dd = initialize dd' -> dd.(has_wal_dat) = dd'.(has_wal_dat) -> dd.(dd_clog) = dd'.(dd_clog) ->
  open dd = open dd'.
Proof. intros E1 E2 E3. unfold open. by rewrite E1, E2, E3. Qed.

Lemma initialize_initial : initialize (mkDataDir false false None (Some initial_dir)) = Ok initial_dir.
Proof.
  unfold initialize. cbn [has_wal_dat has_manifest dd_clog dd_wal].
  rewrite (bool_decide_false (Some initial_dir = None)) by done. cbn [andb orb default id].
  rewrite (bool_decide_true (is_Some (meta_file initial_dir))) by (cbn; eauto).
  rewrite (se_bind_Ok _ _ _ _ _ (load_meta_Ok initial_dir 0 0 eq_refl ltac:(done) ltac:(done))).
  cbn [WalSegment.replay_floor WalSegment.durable_end]. rewrite N.Div0.div_0_l. cbn [segments initial_dir].
  rewrite lookup_singleton_eq. rewrite (bool_decide_true (is_Some (Some _))) by eauto.
  rewrite (bool_decide_false (is_Some (@None bytes))) by (by intros []). cbn [negb andb N.eqb].
  unfold remove_segment. rewrite modify_bind. rewrite create_segment_Ok; [| |done].
  - reflexivity.
  - cbn. apply lookup_delete_eq.
Qed.

(** A fresh data directory opens to an empty log. *)
Lemma open_empty : exists w, open empty_data_dir = Ok w /\ wal_inv w [] [] Clog_new [] /\
  w.(poisoned) = None /\ w.(written_lsn) = 0.
Proof.
  rewrite (open_initialize _ (mkDataDir false false None (Some initial_dir)));
    [|by rewrite initialize_empty, initialize_initial|done|done].
  destruct initial_inv as [Hlog Hbase _ _].
  destruct (open_crash_ok initial_manager [] [] (mkDataDir false false None (Some initial_dir))
    initial_dir Clog_new [] Hlog Hbase initial_crash eq_refl eq_refl eq_refl)
    as (w & E & Hl & Hlive & Hb & Hc2 & Hp & _ & _ & Hw).
  exists w. split; [done|]. split; [|done]. split; [done|done| |rewrite Hp; set_solver].
  intros id Hid. by rewrite Hc2 in Hid.
Qed.

Lemma wal_reach_inv w : wal_reach w -> exists rd ru c0 rest, wal_inv w rd ru c0 rest.
Proof.
  induction 1 as [w E|w w' Hr (rd & ru & c0 & rest & Hinv) Hstep].
  - destruct open_empty as (w2 & E2 & Hinv & _). rewrite E in E2. simplify_eq. eauto.
  - by eapply wal_step_inv.
Qed.

(** A crash that loses nothing is a crash. *)
Lemma crash_image_self w rd ru : log_ok w rd ru -> crash_image w w.(wal_dir).
Proof.
  intros [(pre & sd & su & Hrep & Hpre & Hsd & Hsu & Hfl & Hwr) Hm Hu].
  assert (Hw := floor_split w pre sd su Hpre Hfl Hwr).
  destruct (keep_spec w.(flushed_lsn) w.(mgr_replay_floor) ltac:(lia)) as (Hp & Hk & Hq & _).
  destruct (keep_fits crc32 _ _ _ _ w.(flushed_lsn) _ Hrep eq_refl ltac:(lia) ltac:(lia)) as (Hka & _ & Ho).
  unfold crash_image. set (last := keep_number w.(flushed_lsn) w.(mgr_replay_floor)) in *.
  set (kept := keep_payload w.(flushed_lsn) w.(mgr_replay_floor)) in *.
  split; [done|]. split; [done|]. assert (E := rep_seg _ _ _ _ _ Hrep last Hq Hka).
  set (s := pre ++ sd ++ su) in *. set (first := w.(mgr_replay_floor) / SEGMENT_PAYLOAD_BYTES) in *.
  set (f := header_bytes crc32 last ++ sub s ((last - first) * SEGMENT_PAYLOAD_BYTES) SEGMENT_PAYLOAD_BYTES) in *.
  exists f, (drop (N.to_nat (SEGMENT_HEADER_LEN + kept)) f).
  split_and!; [done|by rewrite take_drop| |].
  all: assert (Hlf : len f = SEGMENT_HEADER_LEN + N.min SEGMENT_PAYLOAD_BYTES
         (len s - (last - first) * SEGMENT_PAYLOAD_BYTES))
         by (unfold f; by rewrite len_app, len_header_bytes, len_sub).
  all: assert (Hdl : len (drop (N.to_nat (SEGMENT_HEADER_LEN + kept)) f) = len f - (SEGMENT_HEADER_LEN + kept))
         by (unfold len; rewrite length_drop; lia).
  all: rewrite Hdl, Hlf; pose proof (rep_fit _ _ _ _ _ Hrep); lia.
Qed.

Lemma replay_ok w rd ru p :
  log_ok w rd ru -> w.(poisoned) = None ->
  replay_entries_from p w = (w, Ok (Ok <$> filter (fun e => N.max p w.(mgr_replay_floor) <= e.1)
    (entries w.(mgr_replay_floor) (rd ++ ru)))).
Proof.
  intros [(pre & sd & su & Hrep & Hpre & Hsd & Hsu & Hfl & Hwr) Hm Hu] Hp.
  unfold replay_entries_from. rewrite (se_bind_Ok _ _ _ _ _ (lock_state_Ok _ Hp)), gets_bind. cbn [id].
  assert (Hs : stream_of w.(mgr_replay_floor) (rd ++ ru) (sd ++ su)).
  { apply stream_of_app; [done|]. by rewrite <- Hfl. }
  rewrite <- (app_nil_r (pre ++ sd ++ su)), <- (app_assoc pre) in Hrep.
  rewrite (replay_loop_rep w.(wal_dir) _ _ _ (rd ++ ru) pre (sd ++ su) [] w.(mgr_replay_floor)
    (segment_reader_new w.(mgr_replay_floor) w.(written_lsn)) _ Hrep Hs);
    [done|done|done| |cbn; rewrite len_app; lia|rewrite len_app; lia].
  rewrite Hpre. apply position_split.
Qed.

(** ** Properties *)


(** C3: recovery replays exactly the durable log: before the crash replay yields
    the records [rd ++ ru], after it the records [rd], and these are precisely the
    ones whose frames ended at or before the flushed position. *)
Theorem recovery_replays_durable w dd d p
    (Hr : wal_reach w) (Hlive : w.(poisoned) = None) (Hcr : crash_image w d)
    (Hdat : dd.(has_wal_dat) = false) (Hwal : dd.(dd_wal) = Some d)
    (Hclog : dd.(dd_clog) = w.(clog_dat)) :
  exists w' rd ru, open dd = Ok w' /\
    let yields rs := Ok <$> filter (fun e => N.max p w.(mgr_replay_floor) <= e.1)
                              (entries w.(mgr_replay_floor) rs) in
    replay_entries_from p w = (w, Ok (yields (rd ++ ru))) /\
    replay_entries_from p w' = (w', Ok (yields rd)) /\
    Forall (fun r => r.(lsn) <= w.(flushed_lsn)) rd /\
    Forall (fun r => w.(flushed_lsn) < r.(lsn)) ru.
Proof.
  destruct (wal_reach_inv w Hr) as (rd & ru & c0 & rest & [Hlog Hbase _ _]).
  destruct (open_crash_ok w rd ru dd d c0 rest Hlog Hbase Hcr Hdat Hwal Hclog)
    as (w' & E & Hl' & Hp' & _ & _ & _ & Hfl' & _).
  exists w', rd, ru. split; [done|]. cbv zeta. split; [by apply replay_ok|].
  split; [rewrite <- Hfl'; by rewrite (replay_ok w' rd [] p Hl' Hp'), app_nil_r|].
  destruct Hlog as [(pre & sd & su & _ & _ & Hsd & Hsu & Hfl & _) _ _].
  assert (Hle : forall q rs s, stream_of q rs s -> Forall (fun r => q < r.(lsn) /\ r.(lsn) <= q + len s) rs).
  { induction 1 as [|q r b rs s Hf Hl Hs IH]; constructor.
    - pose proof (framed_len _ _ Hf). assert (HH : HEADER_LEN = 21) by done. rewrite len_app. lia.
    - eapply Forall_impl; [exact IH|]. cbn. intros r'. rewrite len_app. lia. }
  split; (eapply Forall_impl; [by eapply Hle|]); cbn; intros r'; lia.
Qed.


(** A failed sync publishes nothing: the flush reports the error, no status
    changes, the unflushed records and pending commits are discarded and every
    later append is refused. *)
Theorem failed_flush_publishes_nothing w e (Hr : wal_reach w) (Hlive : w.(poisoned) = None) :
  exists w', flush (SyncFails e) w = (w', Err e) /\
    (forall id, status w' id = status w id) /\
    w'.(pending_commits) = ∅ /\ w'.(written_lsn) = w.(flushed_lsn) /\
    forall fault r, exists w'' e', append_positioned fault r w' = (w'', Err e') /\
      w''.(wal_dir) = w'.(wal_dir).
Proof.
  destruct (wal_reach_inv w Hr) as (rd & ru & c0 & rest & [Hlog _ _ _]).
  destruct (fail_flush_ok w rd ru "WAL manager is unavailable after durability failure: " e Hlog)
    as (w' & E & _ & [e' Hp] & Hc2 & Hpe & _ & _ & _ & Hwr & _).
  exists w'. split_and!; [|intros id; unfold status, FileWalManager_view; by rewrite Hc2|done|done|].
  - unfold flush. by rewrite (se_bind_Ok _ _ _ _ _ (lock_state_Ok _ Hlive)), gets_bind.
  - intros fault r. rewrite append_positioned_eq, Hp. destruct (_ && _); eauto.
Qed.

End WalFile.

(** ** Witnesses *)

(** The manager over the concrete codecs, opened on a directory never used. *)
Abbreviation demo_reach := (wal_reach sum_crc tag_json_to_vec tag_json_from_slice
  tag_subxids_from_slice shape_ok demo_to_vec demo_from_slice) (only parsing).
Abbreviation demo_open := (open sum_crc tag_json_from_slice tag_subxids_from_slice shape_ok
  demo_from_slice) (only parsing).

Lemma demo_opened : exists w, demo_reach w /\ w.(poisoned) = None /\ w.(written_lsn) = 0 /\
  crash_image w w.(wal_dir).
Proof.
  destruct (open_empty sum_crc tag_json_to_vec tag_json_from_slice tag_subxids_from_slice shape_ok
    demo_to_vec demo_from_slice sum_crc_width tag_json_roundtrip demo_serde) as (w & E & [Hlog _ _ _] & Hp & Hw).
  exists w. split; [by apply reach_open|]. split_and!; [done|done|by eapply crash_image_self].
Defined.


Lemma recovery_replays_durable_witness :
  exists w w' rd, demo_open (mkDataDir false true w.(clog_dat) (Some w.(wal_dir))) = Ok w' /\
    replay_entries_from sum_crc tag_json_from_slice tag_subxids_from_slice shape_ok 0 w'
    = (w', Ok (Ok <$> filter (fun e => N.max 0 w.(mgr_replay_floor) <= e.1)
                       (entries w.(mgr_replay_floor) rd))).
Proof.
  destruct demo_opened as (w & Hr & Hp & Hw & Hcr).
  destruct (recovery_replays_durable sum_crc tag_json_to_vec tag_json_from_slice
    tag_subxids_from_slice shape_ok demo_to_vec demo_from_slice sum_crc_width tag_json_roundtrip
    demo_serde w (mkDataDir false true w.(clog_dat) (Some w.(wal_dir))) w.(wal_dir) 0
    Hr Hp Hcr eq_refl eq_refl eq_refl) as (w' & rd & ru & E & _ & H & _).
  by exists w, w', rd.
Defined.

(** Transaction 7 commits with its subtransaction 8. *)
Definition demo_commit : @WalRecord unit := mkWalRecord 0 7 (CommitWithSubxids [8]).


Lemma failed_flush_publishes_nothing_witness :
  exists w w', flush sum_crc (SyncFails (db_io "no space")) w = (w', Err (db_io "no space")) /\
    w'.(pending_commits) = ∅.
Proof.
  destruct demo_opened as (w & Hr & Hp & Hw & Hcr).
  destruct (failed_flush_publishes_nothing sum_crc tag_json_to_vec tag_json_from_slice
    tag_subxids_from_slice shape_ok demo_to_vec demo_from_slice sum_crc_width tag_json_roundtrip
    demo_serde w (db_io "no space") Hr Hp) as (w' & E & _ & H & _).
  by exists w, w'.
Defined.
