(* ===== verification/LockModes.v ===== *)
(** * Lock modes (src/crates/server/src/lock_manager.rs, src/crates/common/src/locking.rs)

    The lockable resources, the modes with their derived orders, and the
    compatibility, coverage and join of modes. *)

From S2P Require Import Prelude Errors Mvcc.
Local Open Scope N_scope.

(** ** Owners, resources and modes *)

Inductive LockOwner : Set :=
  | Transaction (xid : TxnId)
  | Statement (id : N).

Global Instance LockOwner_eq_dec : EqDecision LockOwner.
Proof. solve_decision. Defined.
Global Instance LockOwner_countable : Countable LockOwner.
Proof.
  refine (inj_countable' (fun o => match o with Transaction x => inl x | Statement i => inr i end)
    (fun s => match s with inl x => Transaction x | inr i => Statement i end) _).
  by intros [].
Defined.

Inductive RelationLockMode : Set :=
  | AccessShare | RowShare | RowExclusive | RShare | AccessExclusive.
Inductive SequenceLockMode : Set := SeqAccess | SeqExclusive.
Inductive CatalogLockMode : Set := CatAccess | CatExclusive.
(** [TupleLockMode] (src/crates/common/src/locking.rs). *)
Inductive TupleLockMode : Set := KeyShare | TShare | NoKeyUpdate | Update.
Inductive TupleLockWaitPolicy : Set := Block | NoWait | SkipLocked.

Inductive ObjectLockMode : Set :=
  | MCatalog (m : CatalogLockMode)
  | MRelation (m : RelationLockMode)
  | MSequence (m : SequenceLockMode)
  | MTuple (m : TupleLockMode).

Global Instance RelationLockMode_eq_dec : EqDecision RelationLockMode.
Proof. solve_decision. Defined.
Global Instance SequenceLockMode_eq_dec : EqDecision SequenceLockMode.
Proof. solve_decision. Defined.
Global Instance CatalogLockMode_eq_dec : EqDecision CatalogLockMode.
Proof. solve_decision. Defined.
Global Instance TupleLockMode_eq_dec : EqDecision TupleLockMode.
Proof. solve_decision. Defined.
Global Instance ObjectLockMode_eq_dec : EqDecision ObjectLockMode.
Proof. solve_decision. Defined.

(** The derived orders: the declaration order of the variants. *)
Definition relation_rank (m : RelationLockMode) : nat :=
  match m with AccessShare => 0 | RowShare => 1 | RowExclusive => 2 | RShare => 3 | AccessExclusive => 4 end.
Definition sequence_rank (m : SequenceLockMode) : nat :=
  match m with SeqAccess => 0 | SeqExclusive => 1 end.
Definition catalog_rank (m : CatalogLockMode) : nat :=
  match m with CatAccess => 0 | CatExclusive => 1 end.
Definition tuple_rank (m : TupleLockMode) : nat :=
  match m with KeyShare => 0 | TShare => 1 | NoKeyUpdate => 2 | Update => 3 end.

(** [left.max(right)] of a derived [Ord]: the right one on ties. *)
Definition max_by {A} (rank : A -> nat) (l r : A) : A := if (rank r <? rank l)%nat then l else r.

Definition relation_compatible (l r : RelationLockMode) : bool :=
  match l with
  | AccessShare | RowShare => negb (bool_decide (r = AccessExclusive))
  | RowExclusive => match r with AccessShare | RowShare | RowExclusive => true | _ => false end
  | RShare => match r with AccessShare | RowShare => true | _ => false end
  | AccessExclusive => false
  end.

Definition tuple_compatible (l r : TupleLockMode) : bool :=
  match l with
  | KeyShare => negb (bool_decide (r = Update))
  | TShare => match r with KeyShare | TShare => true | _ => false end
  | NoKeyUpdate => bool_decide (r = KeyShare)
  | Update => false
  end.

Definition compatible (self other : ObjectLockMode) : bool :=
  match self, other with
  | MCatalog CatAccess, MCatalog CatAccess => true
  | MCatalog _, MCatalog _ => false
  | MRelation l, MRelation r => relation_compatible l r
  | MTuple l, MTuple r => tuple_compatible l r
  | MSequence SeqAccess, MSequence SeqAccess => true
  | MSequence _, MSequence _ => false
  | _, _ => false
  end.

Definition covers (self requested : ObjectLockMode) : bool :=
  match self, requested with
  | MCatalog held, MCatalog requested => (catalog_rank requested <=? catalog_rank held)%nat
  | MRelation held, MRelation requested => (relation_rank requested <=? relation_rank held)%nat
  | MSequence held, MSequence requested => (sequence_rank requested <=? sequence_rank held)%nat
  | MTuple held, MTuple requested => (tuple_rank requested <=? tuple_rank held)%nat
  | _, _ => false
  end.

Definition strongest (self other : ObjectLockMode) : DbResult ObjectLockMode :=
  match self, other with
  | MCatalog l, MCatalog r => Ok (MCatalog (max_by catalog_rank l r))
  | MRelation l, MRelation r => Ok (MRelation (max_by relation_rank l r))
  | MSequence l, MSequence r => Ok (MSequence (max_by sequence_rank l r))
  | MTuple l, MTuple r => Ok (MTuple (max_by tuple_rank l r))
  | _, _ => Err (db_internal "object lock modes have different resource types")
  end.

(** ** Lemmas: all by enumeration of the modes *)

(** Two modes of one kind. *)
Definition same_kind (a b : ObjectLockMode) : bool :=
  match a, b with
  | MCatalog _, MCatalog _ | MRelation _, MRelation _ | MSequence _, MSequence _
  | MTuple _, MTuple _ => true
  | _, _ => false
  end.

Ltac all_modes :=
  repeat match goal with
  | m : ObjectLockMode |- _ => destruct m
  | m : RelationLockMode |- _ => destruct m
  | m : SequenceLockMode |- _ => destruct m
  | m : CatalogLockMode |- _ => destruct m
  | m : TupleLockMode |- _ => destruct m
  end.

Lemma compatible_sym a b : compatible a b = compatible b a.
Proof. all_modes; reflexivity. Qed.

Lemma covers_refl a : covers a a = true.
Proof. all_modes; reflexivity. Qed.

Lemma covers_kind a b : covers a b = true -> same_kind a b = true.
Proof. all_modes; done. Qed.

Lemma covers_total a b : same_kind a b = true -> covers a b = true \/ covers b a = true.
Proof. all_modes; auto. Qed.

(** A stronger mode is compatible with no more than a weaker one. *)
Lemma covers_compatible a b c :
  covers a b = true -> compatible a c = true -> compatible b c = true.
Proof. destruct a, b, c; try done; all_modes; done. Qed.

(** The join of two modes covers both and is one of them. *)
Lemma strongest_spec a b m :
  strongest a b = Ok m ->
  covers m a = true /\ covers m b = true /\ (m = a \/ m = b).
Proof. destruct a, b; simpl; intros [= <-]; all_modes; auto. Qed.

Lemma strongest_Ok a b : same_kind a b = true -> exists m, strongest a b = Ok m.
Proof. destruct a, b; simpl; eauto; done. Qed.

(** Taking the join with a mode that is not covered gives that mode. *)
Lemma strongest_not_covered a b m :
  covers a b = false -> strongest a b = Ok m -> m = b.
Proof. destruct a, b; simpl; try done; intros Hc [= <-]; all_modes; done. Qed.

Lemma covers_trans a b c : covers a b = true -> covers b c = true -> covers a c = true.
Proof. destruct a, b, c; try done; all_modes; done. Qed.

(** ** Properties *)

(** The lock modes form a conflict lattice: compatibility is symmetric, and
    a mode that covers another is compatible with no mode the weaker one conflicts
    with, so holding a covering mode is always enough. *)
Theorem mode_lattice a b :
  compatible a b = compatible b a /\
  (covers a b = true <-> same_kind a b = true /\ strongest b a = Ok a) /\
  (covers a b = true -> forall c, compatible a c = true -> compatible b c = true).
Proof.
  split; [apply compatible_sym|]. split; [all_modes; vm_compute; intuition congruence|].
  intros Hc c. by apply covers_compatible.
Qed.
