(* ===== verification/LockManager.v ===== *)
(** * The lock manager (src/crates/server/src/lock_manager.rs)

    Grants, FIFO queues and the shared wait-for graph.  The mutex makes every
    critical section one atomic step on [LockManager]; a blocking acquisition is
    the sequence of its critical sections ([acquire_begin], then [acquire_poll]
    and [acquire_wake] around each wait), with what the other threads do in
    between passed in explicitly.  Cancellation and the detection timer are
    inputs.  The row key type is a parameter with its order. *)

From stdpp Require Import relations.
From S2P Require Import Prelude Errors Mvcc Registry LockModes.
Local Open Scope N_scope.

(** ** Resources *)

Section LockManager.
Context {Key : Type} `{Countable Key}.
(** [Key]'s derived total order. *)
Context (key_le : Key -> Key -> bool).

(** [NormalizedCatalogName] holds the name in ASCII lower case. *)
Inductive LockResource : Type :=
  | Schema (schema : N)
  | CatalogName (schema : N) (name : string)
  | Table (table : N)
  | Tuple (table : N) (key : Key)
  | Sequence (sequence : N).

#[global] Instance LockResource_eq_dec : EqDecision LockResource.
Proof. solve_decision. Defined.
#[global] Instance LockResource_countable : Countable LockResource.
Proof.
  refine (inj_countable'
    (fun r => match r with
      | Schema s => inl (inl s) | CatalogName s n => inl (inr (s, n)) | Table t => inr (inl t)
      | Tuple t k => inr (inr (inl (t, k))) | Sequence s => inr (inr (inr s)) end)
    (fun x => match x with
      | inl (inl s) => Schema s | inl (inr (s, n)) => CatalogName s n | inr (inl t) => Table t
      | inr (inr (inl (t, k))) => Tuple t k | inr (inr (inr s)) => Sequence s end) _).
  by intros [].
Defined.

(** [u8::to_ascii_lowercase] and [NormalizedCatalogName::new]. *)
Definition ascii_lower (c : Ascii.ascii) : Ascii.ascii :=
  let n := Ascii.N_of_ascii c in
  if (65 <=? n) && (n <=? 90) then Ascii.ascii_of_N (n + 32) else c.
Fixpoint normalized_catalog_name (s : string) : string :=
  match s with
  | EmptyString => EmptyString
  | String c s => String (ascii_lower c) (normalized_catalog_name s)
  end.

Record ObjectLockRequest : Type := mkRequest {
  resource : LockResource;
  mode : ObjectLockMode
}.

(** The request constructors. *)
Definition request_schema (schema : N) (m : CatalogLockMode) := mkRequest (Schema schema) (MCatalog m).
Definition request_catalog_name (schema : N) (name : string) :=
  mkRequest (CatalogName schema (normalized_catalog_name name)) (MCatalog CatExclusive).
Definition request_table (table_id : N) (m : RelationLockMode) := mkRequest (Table table_id) (MRelation m).
Definition request_sequence (sequence_id : N) (m : SequenceLockMode) :=
  mkRequest (Sequence sequence_id) (MSequence m).

Definition resource_admits (r : LockResource) (m : ObjectLockMode) : bool :=
  match r, m with
  | Schema _, MCatalog _ | CatalogName _ _, MCatalog _ | Table _, MRelation _
  | Tuple _ _, MTuple _ | Sequence _, MSequence _ => true
  | _, _ => false
  end.

Definition validate_request (q : ObjectLockRequest) : DbResult unit :=
  if resource_admits q.(resource) q.(mode) then Ok ()
  else Err (db_internal "object lock mode does not match resource").

(** The derived order of [LockResource]: by variant, then by fields. *)
Definition resource_rank (r : LockResource) : nat :=
  match r with Schema _ => 0 | CatalogName _ _ => 1 | Table _ => 2 | Tuple _ _ => 3 | Sequence _ => 4 end.
Definition resource_leb (a b : LockResource) : bool :=
  match a, b with
  | Schema s, Schema s' => s <=? s'
  | CatalogName s n, CatalogName s' n' => (s <? s') || ((s =? s') && String.leb n n')
  | Table t, Table t' => t <=? t'
  | Tuple t k, Tuple t' k' => (t <? t') || ((t =? t') && key_le k k')
  | Sequence s, Sequence s' => s <=? s'
  | _, _ => (resource_rank a <? resource_rank b)%nat
  end.
Definition resource_le (a b : LockResource) : Prop := resource_leb a b = true.
#[global] Instance resource_le_dec : RelDecision resource_le.
Proof. intros a b. unfold resource_le. apply _. Defined.

(** The [BTreeMap] the loop of [normalize_requests] fills. *)
Fixpoint merge_requests (requests : list ObjectLockRequest) (acc : gmap LockResource ObjectLockMode)
    : DbResult (gmap LockResource ObjectLockMode) :=
  match requests with
  | [] => Ok acc
  | q :: requests =>
      _ ← validate_request q;
      m ← match acc !! q.(resource) with
          | None => Ok q.(mode)
          | Some held => strongest held q.(mode)
          end;
      merge_requests requests (<[q.(resource) := m]> acc)
  end.

(** In key order. *)
Definition normalize_requests (requests : list ObjectLockRequest) : DbResult (list ObjectLockRequest) :=
  m ← merge_requests requests ∅;
  Ok ((fun r => mkRequest r (default (MCatalog CatAccess) (m !! r)))
      <$> merge_sort resource_le (map_to_list m).*1).

(** ** State *)

Record QueuedRequest : Type := mkQueued {
  q_id : N;
  q_owner : LockOwner;
  q_mode : ObjectLockMode
}.

Record LockState : Type := mkLockState {
  active_owners : gset LockOwner;
  waits_for : gmap LockOwner (gset LockOwner);
  grants : gmap LockResource (gmap LockOwner ObjectLockMode);
  queues : gmap LockResource (list QueuedRequest);
  tuple_grant_generations : gmap (LockResource * LockOwner) N;
  next_tuple_grant_generation : N
}.
Definition lock_state_default : LockState := mkLockState ∅ ∅ ∅ ∅ ∅ 0.

(** [LockManager] and its atomic counters. *)
Record LockManager : Type := mkLockManager {
  mgr_id : N;
  state : LockState;
  next_guard_id : N;
  next_statement_owner : N;
  next_request_id : N
}.
Abbreviation LockM := (SE LockManager DbError) (only parsing).

Definition lock_manager_new (id : N) : LockManager := mkLockManager id lock_state_default 1 1 1.

(** Field updates. *)
Definition with_state (f : LockState -> LockState) (l : LockManager) : LockManager :=
  mkLockManager l.(mgr_id) (f l.(state)) l.(next_guard_id) l.(next_statement_owner) l.(next_request_id).
Definition with_owners (o : gset LockOwner) (s : LockState) : LockState :=
  mkLockState o s.(waits_for) s.(grants) s.(queues) s.(tuple_grant_generations)
    s.(next_tuple_grant_generation).
Definition with_waits (w : gmap LockOwner (gset LockOwner)) (s : LockState) : LockState :=
  mkLockState s.(active_owners) w s.(grants) s.(queues) s.(tuple_grant_generations)
    s.(next_tuple_grant_generation).
Definition with_grants (g : gmap LockResource (gmap LockOwner ObjectLockMode)) (s : LockState) : LockState :=
  mkLockState s.(active_owners) s.(waits_for) g s.(queues) s.(tuple_grant_generations)
    s.(next_tuple_grant_generation).
Definition with_queues (q : gmap LockResource (list QueuedRequest)) (s : LockState) : LockState :=
  mkLockState s.(active_owners) s.(waits_for) s.(grants) q s.(tuple_grant_generations)
    s.(next_tuple_grant_generation).
Definition with_generations (g : gmap (LockResource * LockOwner) N) (n : N) (s : LockState) : LockState :=
  mkLockState s.(active_owners) s.(waits_for) s.(grants) s.(queues) g n.

(** [next_id]: [fetch_update] with [checked_add], returning the old value. *)
Definition bump (counter : N) (kind : string) : DbResult (N * N) :=
  next ← ok_or (checked_add U64_MAX counter 1) (db_internal (kind +:+ " id space exhausted"));
  Ok (counter, next).

Definition take_guard_id : LockM N := fun l =>
  match bump l.(next_guard_id) "object lock guard" with
  | Ok (id, next) => (mkLockManager l.(mgr_id) l.(state) next l.(next_statement_owner) l.(next_request_id), Ok id)
  | Err e => (l, Err e)
  end.
Definition take_statement_id : LockM N := fun l =>
  match bump l.(next_statement_owner) "statement lock owner" with
  | Ok (id, next) => (mkLockManager l.(mgr_id) l.(state) l.(next_guard_id) next l.(next_request_id), Ok id)
  | Err e => (l, Err e)
  end.
Definition take_request_id : LockM N := fun l =>
  match bump l.(next_request_id) "object lock request" with
  | Ok (id, next) => (mkLockManager l.(mgr_id) l.(state) l.(next_guard_id) l.(next_statement_owner) next, Ok id)
  | Err e => (l, Err e)
  end.

(** ** Owners and guards *)

Definition register_owner (owner : LockOwner) : LockM unit :=
  l ← gets id;
  if bool_decide (owner ∈ l.(state).(active_owners))
  then lift (Err (db_internal "lock owner already has a lifetime guard"))
  else modify (with_state (fun s => with_owners ({[owner]} ∪ s.(active_owners)) s)).

(** The guard is its owner and id. *)
Definition create_guard (owner : LockOwner) : LockM (LockOwner * N) :=
  guard_id ← take_guard_id;
  _ ← register_owner owner;
  mret (owner, guard_id).

Definition statement_owner : LockM (LockOwner * N) :=
  id ← take_statement_id;
  create_guard (Statement id).

Definition transaction_owner (registry : RegistryState) (xid : TxnId) : LockM (LockOwner * N) :=
  create_guard (Transaction (top_of registry xid)).

Definition waiting_owner_count (l : LockManager) : N := N.of_nat (size l.(state).(waits_for)).

(** ** Grants and queues *)

Definition grant_of (s : LockState) (r : LockResource) (o : LockOwner) : option ObjectLockMode :=
  owners ← s.(grants) !! r; owners !! o.

Definition insert_grant (r : LockResource) (o : LockOwner) (m : ObjectLockMode) (s : LockState) : LockState :=
  with_grants (<[r := <[o := m]> (default ∅ (s.(grants) !! r))]> s.(grants)) s.

Definition remove_request (r : LockResource) (request_id : N) (s : LockState) : LockState :=
  match s.(queues) !! r with
  | None => s
  | Some queue =>
      let queue := filter (fun q => q.(q_id) <> request_id) queue in
      with_queues (if bool_decide (queue = []) then delete r s.(queues)
                   else <[r := queue]> s.(queues)) s
  end.

(** The requests queued before [request_id]. *)
Fixpoint earlier_requests (request_id : N) (queue : list QueuedRequest) : list QueuedRequest :=
  match queue with
  | [] => []
  | q :: queue => if q.(q_id) =? request_id then [] else q :: earlier_requests request_id queue
  end.

Definition request_blockers (s : LockState) (r : LockResource) (request_id : N) (owner : LockOwner)
    (m : ObjectLockMode) : gset LockOwner :=
  let holders :=
    match s.(grants) !! r with
    | Some owners =>
        list_to_set (filter (fun o => o <> owner /\ compatible m (default m (owners !! o)) = false)
                       (map_to_list owners).*1)
    | None => ∅
    end in
  let earlier :=
    match s.(queues) !! r with
    | Some queue =>
        list_to_set (q_owner <$> filter (fun q => q.(q_owner) <> owner /\ compatible m q.(q_mode) = false)
                       (earlier_requests request_id queue))
    | None => ∅
    end in
  holders ∪ earlier.

(** ** The wait-for graph *)

(** The loop of [visit] over the successors of a node; [rec] is the recursive call. *)
Definition visit_successors (rec : LockOwner -> gset LockOwner -> bool * gset LockOwner) (start : LockOwner)
    : list LockOwner -> gset LockOwner -> bool * gset LockOwner :=
  fix loop l visited :=
    match l with
    | [] => (false, visited)
    | owner :: l =>
        if bool_decide (owner = start) then (true, visited)
        else if bool_decide (owner ∈ visited) then loop l visited
        else
          let '(found, visited) := rec owner ({[owner]} ∪ visited) in
          if found then (true, visited) else loop l visited
    end.

(** [visit]: depth-first search for [start]; a node is entered once, so the number
    of nodes bounds the depth. *)
Fixpoint visit (fuel : nat) (graph : gmap LockOwner (gset LockOwner)) (start current : LockOwner)
    (visited : gset LockOwner) : bool * gset LockOwner :=
  match fuel with
  | O => (false, visited)
  | S fuel =>
      match graph !! current with
      | None => (false, visited)
      | Some next => visit_successors (visit fuel graph start) start (elements next) visited
      end
  end.

(** Every node of the graph. *)
Definition graph_nodes (graph : gmap LockOwner (gset LockOwner)) : gset LockOwner :=
  dom graph ∪ map_fold (fun _ next acc => next ∪ acc) ∅ graph.

Definition on_cycle (graph : gmap LockOwner (gset LockOwner)) (start : LockOwner) : bool :=
  fst (visit (S (size (graph_nodes graph))) graph start start {[start]}).

(** ** Acquisition *)

Inductive AcquireOne : Type :=
  | Acquired (previous : option ObjectLockMode) (previous_generation : option N)
      (granted : ObjectLockMode) (granted_generation : option N)
  | Skipped.

(** What a queued acquisition remembers between its critical sections. *)
Record Ticket : Type := mkTicket {
  t_owner : LockOwner;
  t_request : ObjectLockRequest;
  t_policy : TupleLockWaitPolicy;
  t_id : N;
  t_previous : option ObjectLockMode;
  t_previous_generation : option N
}.

Inductive Begun : Type :=
  | AlreadyHeld (r : AcquireOne)
  | Enqueued (t : Ticket).

Definition enqueue (owner : LockOwner) (request : ObjectLockRequest) (policy : TupleLockWaitPolicy)
    (previous : option ObjectLockMode) (previous_generation : option N) : LockM Begun :=
  request_id ← take_request_id;
  _ ← modify (with_state (fun s => with_queues (<[request.(resource) :=
        default [] (s.(queues) !! request.(resource)) ++ [mkQueued request_id owner request.(mode)]]>
        s.(queues)) s));
  mret (Enqueued (mkTicket owner request policy request_id previous previous_generation)).

Definition acquire_begin (owner : LockOwner) (request : ObjectLockRequest) (policy : TupleLockWaitPolicy)
    : LockM Begun :=
  _ ← lift (validate_request request);
  l ← gets id;
  let s := l.(state) in
  if negb (bool_decide (owner ∈ s.(active_owners)))
  then lift (Err (db_internal "lock owner has no lifetime guard"))
  else
    let previous := grant_of s request.(resource) owner in
    let previous_generation := s.(tuple_grant_generations) !! (request.(resource), owner) in
    match previous with
    | Some held =>
        if covers held request.(mode)
        then mret (AlreadyHeld (Acquired (Some held) previous_generation held previous_generation))
        else enqueue owner request policy previous previous_generation
    | None => enqueue owner request policy previous previous_generation
    end.

Definition forget_wait (o : LockOwner) (s : LockState) : LockState :=
  with_waits (delete o s.(waits_for)) s.

(** Leave the queue and the graph. *)
Definition abandon (t : Ticket) (s : LockState) : LockState :=
  forget_wait t.(t_owner) (remove_request t.(t_request).(resource) t.(t_id) s).

(** Grant an unblocked request. *)
Definition grant_ticket (t : Ticket) : LockM AcquireOne :=
  let r := t.(t_request).(resource) in
  let m := t.(t_request).(mode) in
  _ ← modify (with_state (remove_request r t.(t_id)));
  match (match t.(t_previous) with Some held => strongest held m | None => Ok m end) with
  | Err e =>
      _ ← modify (with_state (forget_wait t.(t_owner)));
      lift (Err e)
  | Ok granted =>
      l ← gets id;
      match (match m with
             | MTuple _ =>
                 generation ← ok_or (checked_add U64_MAX l.(state).(next_tuple_grant_generation) 1)
                                (db_internal "tuple grant generation exhausted");
                 Ok (Some generation)
             | _ => Ok None
             end) with
      | Err e =>
          _ ← modify (with_state (forget_wait t.(t_owner)));
          lift (Err e)
      | Ok granted_generation =>
          _ ← modify (with_state (fun s =>
                match granted_generation with
                | Some g => with_generations (<[(r, t.(t_owner)) := g]> s.(tuple_grant_generations)) g s
                | None => s
                end));
          _ ← modify (with_state (insert_grant r t.(t_owner) granted));
          _ ← modify (with_state (forget_wait t.(t_owner)));
          mret (Acquired t.(t_previous) t.(t_previous_generation) granted granted_generation)
      end
  end.

(** The loop body up to the wait; [None] means the thread goes to sleep. *)
Definition acquire_poll (cancel : option DbError) (t : Ticket) : LockM (option AcquireOne) :=
  match cancel with
  | Some e =>
      _ ← modify (with_state (abandon t));
      lift (Err e)
  | None =>
      l ← gets id;
      let blockers := request_blockers l.(state) t.(t_request).(resource) t.(t_id) t.(t_owner)
                        t.(t_request).(mode) in
      if bool_decide (blockers = ∅) then
        a ← grant_ticket t;
        mret (Some a)
      else
        match t.(t_policy) with
        | NoWait =>
            _ ← modify (with_state (abandon t));
            lift (Err (db_execute LockNotAvailable "could not obtain tuple lock on row"))
        | SkipLocked =>
            _ ← modify (with_state (abandon t));
            mret (Some Skipped)
        | Block =>
            _ ← modify (with_state (fun s => with_waits (<[t.(t_owner) := blockers]> s.(waits_for)) s));
            mret None
        end
  end.

(** After the wait: deadlock detection when its timer is due. *)
Definition acquire_wake (due : bool) (t : Ticket) : LockM unit :=
  l ← gets id;
  if due && on_cycle l.(state).(waits_for) t.(t_owner) then
    _ ← modify (with_state (abandon t));
    lift (Err (db_execute DeadlockDetected "deadlock detected"))
  else mret ().

(** One wait: what the other threads do meanwhile, whether the timer is due, and
    what [cancel.check()] answers on the next turn. *)
Record Wait : Type := mkWait {
  w_others : LockManager -> LockManager;
  w_due : bool;
  w_cancel : option DbError
}.

(** [None]: still waiting when the given waits are used up. *)
Fixpoint acquire_loop (cancel : option DbError) (waits : list Wait) (t : Ticket) : LockM (option AcquireOne) :=
  r ← acquire_poll cancel t;
  match r, waits with
  | Some a, _ => mret (Some a)
  | None, [] => mret None
  | None, w :: waits =>
      _ ← modify w.(w_others);
      _ ← acquire_wake w.(w_due) t;
      acquire_loop w.(w_cancel) waits t
  end.

Definition acquire_one (owner : LockOwner) (request : ObjectLockRequest) (policy : TupleLockWaitPolicy)
    (cancel : option DbError) (waits : list Wait) : LockM (option AcquireOne) :=
  b ← acquire_begin owner request policy;
  match b with
  | AlreadyHeld a => mret (Some a)
  | Enqueued t => acquire_loop cancel waits t
  end.

(** [acquire_many], with the waits of each request. *)
Fixpoint acquire_each (owner : LockOwner) (requests : list ObjectLockRequest)
    (envs : list (option DbError * list Wait)) : LockM (option unit) :=
  match requests with
  | [] => mret (Some ())
  | q :: requests =>
      let '(cancel, waits) := default (None, []) (head envs) in
      a ← acquire_one owner q Block cancel waits;
      match a with
      | Some _ => acquire_each owner requests (tail envs)
      | None => mret None
      end
  end.

Definition acquire_many (owner : LockOwner) (requests : list ObjectLockRequest)
    (envs : list (option DbError * list Wait)) : LockM (option unit) :=
  normalized ← lift (normalize_requests requests);
  acquire_each owner normalized envs.

(** ** Savepoints and release *)

Record OwnerGrantSnapshot : Type := mkSnapshot {
  snap_manager_id : N;
  snap_guard_id : N;
  snap_owner : LockOwner;
  snap_grants : gmap LockResource ObjectLockMode
}.

(** The grants of one owner. *)
Definition owner_grants (owner : LockOwner) (s : LockState) : gmap LockResource ObjectLockMode :=
  omap (fun owners : gmap LockOwner ObjectLockMode => owners !! owner) s.(grants).

Definition owner_snapshot (owner : LockOwner) (guard_id : N) (l : LockManager) : OwnerGrantSnapshot :=
  mkSnapshot l.(mgr_id) guard_id owner (owner_grants owner l.(state)).

(** [owners.remove(&owner)] everywhere, then [retain(|_, owners| !owners.is_empty())]. *)
Definition drop_grants (owner : LockOwner) (g : gmap LockResource (gmap LockOwner ObjectLockMode))
    : gmap LockResource (gmap LockOwner ObjectLockMode) :=
  omap (fun owners : gmap LockOwner ObjectLockMode =>
    let owners := delete owner owners in
    if bool_decide (owners = ∅) then None else Some owners) g.

Definition drop_generations (owner : LockOwner) (g : gmap (LockResource * LockOwner) N)
    : gmap (LockResource * LockOwner) N :=
  filter (fun x => x.1.2 <> owner) g.

(** The loop that numbers the tuple grants to restore, in resource order. *)
Fixpoint number_grants (next : N) (l : list (LockResource * ObjectLockMode))
    : DbResult (N * list (LockResource * ObjectLockMode * option N)) :=
  match l with
  | [] => Ok (next, [])
  | (r, m) :: l =>
      '(generation, next) ← match m with
        | MTuple _ =>
            next ← ok_or (checked_add U64_MAX next 1) (db_internal "tuple grant generation exhausted");
            Ok (Some next, next)
        | _ => Ok (None, next)
        end;
      '(last, l) ← number_grants next l;
      Ok (last, (r, m, generation) :: l)
  end.

Definition snapshot_entries (g : gmap LockResource ObjectLockMode) : list (LockResource * ObjectLockMode) :=
  (fun r => (r, default (MCatalog CatAccess) (g !! r))) <$> merge_sort resource_le (map_to_list g).*1.

Definition restore_entry (owner : LockOwner) (e : LockResource * ObjectLockMode * option N) (s : LockState)
    : LockState :=
  let '(r, m, generation) := e in
  let s := insert_grant r owner m s in
  match generation with
  | Some g => with_generations (<[(r, owner) := g]> s.(tuple_grant_generations)) s.(next_tuple_grant_generation) s
  | None => s
  end.

Definition restore_owner (owner : LockOwner) (guard_id : N) (snapshot : OwnerGrantSnapshot) : LockM unit :=
  l ← gets id;
  if negb (snapshot.(snap_manager_id) =? l.(mgr_id)) || negb (snapshot.(snap_guard_id) =? guard_id)
     || negb (bool_decide (snapshot.(snap_owner) = owner))
  then lift (Err (db_internal "object lock snapshot belongs to a different lock owner"))
  else
    let s := l.(state) in
    let can_restore := forallb (fun '(r, m) =>
      match grant_of s r owner with Some held => covers held m | None => false end)
      (map_to_list snapshot.(snap_grants)) in
    if negb can_restore
    then lift (Err (db_internal "object lock snapshot is stale and cannot restore released grants"))
    else
      '(next_generation, restored) ← lift (number_grants s.(next_tuple_grant_generation)
                                             (snapshot_entries snapshot.(snap_grants)));
      _ ← modify (with_state (fun s => with_grants (drop_grants owner s.(grants)) s));
      _ ← modify (with_state (fun s =>
            with_generations (drop_generations owner s.(tuple_grant_generations)) next_generation s));
      _ ← modify (with_state (fun s => foldl (fun s e => restore_entry owner e s) s restored));
      modify (with_state (forget_wait owner)).

Definition release_owner (owner : LockOwner) (s : LockState) : LockState :=
  let s := with_owners (s.(active_owners) ∖ {[owner]}) s in
  let s := with_grants (drop_grants owner s.(grants)) s in
  let s := with_generations (drop_generations owner s.(tuple_grant_generations))
             s.(next_tuple_grant_generation) s in
  let s := with_queues (omap (fun queue : list QueuedRequest =>
             let queue := filter (fun q => q.(q_owner) <> owner) queue in
             if bool_decide (queue = []) then None else Some queue) s.(queues)) s in
  with_waits (omap (fun blockers : gset LockOwner =>
    let blockers := blockers ∖ {[owner]} in
    if bool_decide (blockers = ∅) then None else Some blockers) (delete owner s.(waits_for))) s.

(** [ObjectLockGuard::covers]. *)
Definition guard_covers (owner : LockOwner) (requests : list ObjectLockRequest) (l : LockManager)
    : DbResult bool :=
  normalized ← normalize_requests requests;
  Ok (forallb (fun q => match owner_grants owner l.(state) !! q.(resource) with
                        | Some held => covers held q.(mode) | None => false end) normalized).

(** ** Tuple locks *)

Record TupleGrantReceipt : Type := mkReceipt {
  rc_manager_id : N;
  rc_owner : TxnId;
  rc_table : N;
  rc_key : Key;
  rc_previous : option TupleLockMode;
  rc_previous_generation : option N;
  rc_granted : TupleLockMode;
  rc_granted_generation : N
}.

Inductive TupleLockAcquire : Type :=
  | TupleAcquired (receipt : TupleGrantReceipt)
  | TupleSkipped.

(** The conversion of the outcome of [acquire_one] into a receipt. *)
Definition tuple_receipt (registry : RegistryState) (mgr : N) (xid : TxnId) (table : N) (key : Key)
    (a : AcquireOne) : DbResult TupleLockAcquire :=
  match a with
  | Skipped => Ok TupleSkipped
  | Acquired previous previous_generation granted granted_generation =>
      previous ← match previous with
                 | Some (MTuple m) => Ok (Some m)
                 | Some _ => Err (db_internal "tuple resource carried a non-tuple previous mode")
                 | None => Ok None
                 end;
      granted ← match granted with
                | MTuple m => Ok m
                | _ => Err (db_internal "tuple resource carried a non-tuple granted mode")
                end;
      generation ← ok_or granted_generation (db_internal "tuple grant has no generation");
      Ok (TupleAcquired (mkReceipt mgr (top_of registry xid) table key previous previous_generation
                           granted generation))
  end.

Definition acquire_tuple (registry : RegistryState) (xid : TxnId) (table : N) (key : Key)
    (m : TupleLockMode) (policy : TupleLockWaitPolicy) (cancel : option DbError) (waits : list Wait)
    : LockM (option TupleLockAcquire) :=
  if negb (is_active registry xid) then lift (Err (db_internal "tuple lock xid is not active"))
  else
    let owner := Transaction (top_of registry xid) in
    a ← acquire_one owner (mkRequest (Tuple table key) (MTuple m)) policy cancel waits;
    l ← gets id;
    match a with
    | None => mret None
    | Some a => r ← lift (tuple_receipt registry l.(mgr_id) xid table key a); mret (Some r)
    end.

(** The simulated grant of a resource. *)
Abbreviation SimGrant := (option ObjectLockMode * option N)%type (only parsing).

(** The first loop of [restore_tuple_changes], over the receipts from the last one. *)
Fixpoint simulate_restore (mgr : N) (owner : LockOwner) (owner_xid : TxnId) (s : LockState)
    (receipts : list TupleGrantReceipt) (sim : gmap LockResource SimGrant)
    : DbResult (gmap LockResource SimGrant) :=
  match receipts with
  | [] => Ok sim
  | rc :: receipts =>
      if negb (rc.(rc_manager_id) =? mgr) || negb (rc.(rc_owner) =? owner_xid)
      then Err (db_internal "tuple lock receipt belongs to a different manager or owner")
      else
        let r := Tuple rc.(rc_table) rc.(rc_key) in
        let current := default (grant_of s r owner, s.(tuple_grant_generations) !! (r, owner)) (sim !! r) in
        if negb (bool_decide (current = (Some (MTuple rc.(rc_granted)), Some rc.(rc_granted_generation))))
        then Err (db_internal "tuple lock grant changed before acquisition rollback")
        else simulate_restore mgr owner owner_xid s receipts
               (<[r := (MTuple <$> rc.(rc_previous), rc.(rc_previous_generation))]> sim)
  end.

(** One turn of the second loop. *)
Definition apply_restore (owner : LockOwner) (e : LockResource * SimGrant) : LockM unit :=
  let '(r, (restored, generation)) := e in
  match restored with
  | Some m =>
      _ ← modify (with_state (insert_grant r owner m));
      g ← lift (ok_or generation (db_internal "restored tuple grant has no generation"));
      modify (with_state (fun s => with_generations (<[(r, owner) := g]> s.(tuple_grant_generations))
                                     s.(next_tuple_grant_generation) s))
  | None =>
      _ ← modify (with_state (fun s =>
            match s.(grants) !! r with
            | Some owners =>
                let owners := delete owner owners in
                with_grants (if bool_decide (owners = ∅) then delete r s.(grants)
                             else <[r := owners]> s.(grants)) s
            | None => s
            end));
      modify (with_state (fun s => with_generations (delete (r, owner) s.(tuple_grant_generations))
                                     s.(next_tuple_grant_generation) s))
  end.

Definition restore_tuple_changes (owner : LockOwner) (changes : list TupleGrantReceipt) : LockM unit :=
  l ← gets id;
  let s := l.(state) in
  if negb (bool_decide (owner ∈ s.(active_owners)))
  then lift (Err (db_internal "lock owner has no lifetime guard"))
  else
    match owner with
    | Statement _ => lift (Err (db_internal "statement owners cannot restore tuple lock grants"))
    | Transaction owner_xid =>
        simulated ← lift (simulate_restore l.(mgr_id) owner owner_xid s (rev changes) ∅);
        let order := merge_sort resource_le (map_to_list simulated).*1 in
        _ ← for_each ((fun r => (r, default (None, None) (simulated !! r))) <$> order) (apply_restore owner);
        modify (with_state (forget_wait owner))
    end.

Definition restore_tuple_grants (registry : RegistryState) (xid : TxnId) (changes : list TupleGrantReceipt)
    : LockM unit :=
  restore_tuple_changes (Transaction (top_of registry xid)) changes.

Definition holds_tuple (registry : RegistryState) (xid : TxnId) (table : N) (key : Key) (m : TupleLockMode)
    (l : LockManager) : bool :=
  is_active registry xid &&
  match grant_of l.(state) (Tuple table key) (Transaction (top_of registry xid)) with
  | Some held => covers held (MTuple m)
  | None => false
  end.

(** ** Waiting for a transaction *)

(** [wait_for]: the edge is inserted, then each turn ends the wait when the blocker
    is no longer active, when the statement is cancelled or on a cycle. *)
Definition wait_for_begin (registry : RegistryState) (waiter_subxid blocker_subxid : TxnId)
    (s : LockState) : LockState :=
  let waiter := Transaction (top_of registry waiter_subxid) in
  let blocker := Transaction (top_of registry blocker_subxid) in
  with_waits (<[waiter := {[blocker]}]> s.(waits_for)) s.

Definition wait_for_poll (registry : RegistryState) (waiter : LockOwner) (blocker_subxid : TxnId)
    (cancel : option DbError) : LockM (option unit) :=
  if negb (is_active registry blocker_subxid) then
    _ ← modify (with_state (forget_wait waiter)); mret (Some ())
  else
    match cancel with
    | Some e => _ ← modify (with_state (forget_wait waiter)); lift (Err e)
    | None => mret None
    end.

Definition wait_for_wake (due : bool) (waiter : LockOwner) : LockM unit :=
  l ← gets id;
  if due && on_cycle l.(state).(waits_for) waiter then
    _ ← modify (with_state (forget_wait waiter));
    lift (Err (db_execute DeadlockDetected "deadlock detected"))
  else mret ().

(** ** Lemmas: grants *)

Lemma grant_of_insert r o m s r' o' :
  grant_of (insert_grant r o m s) r' o' =
  if decide (r' = r /\ o' = o) then Some m else grant_of s r' o'.
Proof.
  unfold grant_of, insert_grant. cbn [grants with_grants].
  destruct (decide (r' = r)) as [->|Hr].
  - rewrite lookup_insert_eq. cbn [mbind option_bind]. destruct (decide (o' = o)) as [->|Ho].
    + by rewrite lookup_insert_eq, decide_True.
    + rewrite lookup_insert_ne by done. rewrite decide_False by naive_solver.
      by destruct (grants s !! r).
  - rewrite lookup_insert_ne by done. by rewrite decide_False by naive_solver.
Qed.

Lemma grant_of_drop o s r o' :
  grant_of (with_grants (drop_grants o s.(grants)) s) r o' =
  if decide (o' = o) then None else grant_of s r o'.
Proof.
  unfold grant_of, drop_grants. cbn [grants with_grants]. rewrite lookup_omap.
  destruct (grants s !! r) as [owners|]; cbn; [|by case_decide].
  case_bool_decide as E; cbn.
  - case_decide as Ho; [done|]. assert (delete o owners !! o' = None) as En by (by rewrite E).
    by rewrite lookup_delete_ne in En by done.
  - case_decide as Ho; [subst; by rewrite lookup_delete_eq|by rewrite lookup_delete_ne by done].
Qed.

Lemma lookup_owner_grants o s r : owner_grants o s !! r = grant_of s r o.
Proof. unfold owner_grants, grant_of. rewrite lookup_omap. by destruct (grants s !! r). Qed.

(** The operations on queues, graph and generations leave the grants. *)
Lemma grant_of_with_queues q s : grant_of (with_queues q s) = grant_of s.
Proof. reflexivity. Qed.
Lemma grant_of_remove_request r i s : grant_of (remove_request r i s) = grant_of s.
Proof. unfold remove_request. by destruct (queues s !! r). Qed.

(** A request has no blocker among the holders of its resource. *)
Lemma request_blockers_holders s r i o m :
  request_blockers s r i o m = ∅ ->
  forall o' m', grant_of s r o' = Some m' -> o' <> o -> compatible m m' = true.
Proof.
  unfold request_blockers, grant_of. intros E o' m' Hg Hne.
  destruct (grants s !! r) as [owners|]; [|done]. cbn in Hg.
  destruct (compatible m m') eqn:Ec; [done|]. exfalso.
  assert (Hin : o' ∈ (∅ : gset LockOwner)); [|set_solver]. rewrite <- E. apply elem_of_union_l.
  apply elem_of_list_to_set, list_elem_of_filter. rewrite Hg. cbn. split; [done|].
  apply list_elem_of_fmap. exists (o', m'). split; [done|]. by apply elem_of_map_to_list.
Qed.

(** ... nor among the requests queued before it. *)
Lemma request_blockers_earlier s r i o m queue :
  request_blockers s r i o m = ∅ -> s.(queues) !! r = Some queue ->
  forall q, q ∈ earlier_requests i queue -> q.(q_owner) <> o -> compatible m q.(q_mode) = true.
Proof.
  unfold request_blockers. intros E Eq q Hq Hne. rewrite Eq in E.
  destruct (compatible m (q_mode q)) eqn:Ec; [done|]. exfalso.
  assert (Hin : q_owner q ∈ (∅ : gset LockOwner)); [|set_solver]. rewrite <- E. apply elem_of_union_r.
  apply elem_of_list_to_set, list_elem_of_fmap. exists q. split; [done|].
  by apply list_elem_of_filter.
Qed.

(** ** The invariant *)

(** Distinct owners of a resource hold compatible modes. *)
Definition exclusive (s : LockState) : Prop :=
  forall r o1 o2 m1 m2, grant_of s r o1 = Some m1 -> grant_of s r o2 = Some m2 -> o1 <> o2 ->
  compatible m1 m2 = true.

Record lock_ok (s : LockState) : Prop := {
  ok_exclusive : exclusive s;
  ok_typed : forall r o m, grant_of s r o = Some m -> resource_admits r m = true;
  ok_active : forall r o m, grant_of s r o = Some m -> o ∈ s.(active_owners);
  ok_generations : forall r o, is_Some (s.(tuple_grant_generations) !! (r, o)) <->
    exists m, grant_of s r o = Some (MTuple m)
}.

(** Changing one owner's grants to modes that stay compatible with the others. *)
Lemma exclusive_update s s' o :
  exclusive s ->
  (forall r o', o' <> o -> grant_of s' r o' = grant_of s r o') ->
  (forall r m, grant_of s' r o = Some m ->
     forall o' m', o' <> o -> grant_of s r o' = Some m' -> compatible m m' = true) ->
  exclusive s'.
Proof.
  intros Hex Hsame Hnew r o1 o2 m1 m2 H1 H2 Hne.
  destruct (decide (o1 = o)) as [->|H1o].
  - rewrite Hsame in H2 by done. by eapply Hnew.
  - rewrite Hsame in H1 by done. destruct (decide (o2 = o)) as [->|H2o].
    + rewrite compatible_sym. by eapply Hnew.
    + rewrite Hsame in H2 by done. by eapply Hex.
Qed.

(** What a thread that waits for a grant knows of it: it asked for more than it
    held, in a mode its resource admits. *)
Definition ticket_ok (t : Ticket) : Prop :=
  resource_admits t.(t_request).(resource) t.(t_request).(mode) = true /\
  match t.(t_previous) with
  | Some held => covers held t.(t_request).(mode) = false /\ same_kind held t.(t_request).(mode) = true /\
      (forall tm, held = MTuple tm -> is_Some t.(t_previous_generation))
  | None => True
  end.

(** A receipt records a grant at least as strong as the one it replaced. *)
Definition receipt_ok (rc : TupleGrantReceipt) : Prop :=
  match rc.(rc_previous) with
  | Some p => covers (MTuple rc.(rc_granted)) (MTuple p) = true /\ is_Some rc.(rc_previous_generation)
  | None => True
  end.

Lemma granted_mode t granted :
  ticket_ok t ->
  match t.(t_previous) with Some held => strongest held t.(t_request).(mode) | None => Ok t.(t_request).(mode) end
    = Ok granted -> granted = t.(t_request).(mode).
Proof.
  intros [_ Hp] E. destruct (t_previous t); [destruct Hp; by eapply strongest_not_covered|congruence].
Qed.

(** States that differ only in queues and waits. *)
Lemma lock_ok_ext s s' :
  s'.(grants) = s.(grants) -> s'.(active_owners) = s.(active_owners) ->
  s'.(tuple_grant_generations) = s.(tuple_grant_generations) -> lock_ok s -> lock_ok s'.
Proof.
  intros Hg Ha Ht [H1 H2 H3 H4].
  assert (Hgr : forall r o, grant_of s' r o = grant_of s r o) by (intros r o; unfold grant_of; by rewrite Hg).
  split.
  - intros r o1 o2 m1 m2. rewrite !Hgr. apply H1.
  - intros r o m. rewrite Hgr. apply H2.
  - intros r o m. rewrite Hgr, Ha. apply H3.
  - intros r o. rewrite Ht, H4. setoid_rewrite Hgr. done.
Qed.

Lemma grants_remove_request r i s : (remove_request r i s).(grants) = s.(grants).
Proof. unfold remove_request. by destruct (queues s !! r). Qed.
Lemma owners_remove_request r i s : (remove_request r i s).(active_owners) = s.(active_owners).
Proof. unfold remove_request. by destruct (queues s !! r). Qed.
Lemma generations_remove_request r i s :
  (remove_request r i s).(tuple_grant_generations) = s.(tuple_grant_generations).
Proof. unfold remove_request. by destruct (queues s !! r). Qed.

Lemma abandon_ok t s : lock_ok s -> lock_ok (abandon t s).
Proof.
  apply lock_ok_ext; cbn [abandon forget_wait with_waits grants active_owners tuple_grant_generations];
    [apply grants_remove_request|apply owners_remove_request|apply generations_remove_request].
Qed.

(** The generation map after granting [m]. *)
Definition granted_generations (r : LockResource) (o : LockOwner) (g : option N)
    (gens : gmap (LockResource * LockOwner) N) : gmap (LockResource * LockOwner) N :=
  match g with Some g => <[(r, o) := g]> gens | None => gens end.

(** A compatible grant keeps the invariant. *)
Lemma insert_grant_ok s s' r o m g :
  lock_ok s -> resource_admits r m = true -> o ∈ s.(active_owners) ->
  (forall o' m', o' <> o -> grant_of s r o' = Some m' -> compatible m m' = true) ->
  (is_Some g <-> exists tm, m = MTuple tm) ->
  s'.(grants) = (insert_grant r o m s).(grants) -> s'.(active_owners) = s.(active_owners) ->
  s'.(tuple_grant_generations) = granted_generations r o g s.(tuple_grant_generations) ->
  lock_ok s'.
Proof.
  intros [H1 H2 H3 H4] Hadm Hact Hcompat Hg Eg Ea Et.
  assert (Hgr : forall r' o', grant_of s' r' o' = if decide (r' = r /\ o' = o) then Some m else grant_of s r' o').
  { intros r' o'. rewrite <- grant_of_insert. unfold grant_of. by rewrite Eg. }
  split.
  - eapply (exclusive_update s s' o); [done| |].
    + intros r' o' Hne. rewrite Hgr. by rewrite decide_False by naive_solver.
    + intros r' m'. rewrite Hgr. case_decide as Hd.
      * intros [= <-] o' m'' Hne. destruct Hd as [-> _]. by apply Hcompat.
      * intros Hm' o' m'' Hne Hm''. by eapply H1.
  - intros r' o' m'. rewrite Hgr. case_decide as Hd; [intros [= <-]; by destruct Hd as [-> _]|apply H2].
  - intros r' o' m'. rewrite Hgr, Ea. case_decide as Hd; [by destruct Hd as [_ ->]|apply H3].
  - intros r' o'. rewrite Hgr, Et. unfold granted_generations. case_decide as Hd.
    + destruct Hd as [-> ->]. destruct g as [g|].
      * rewrite lookup_insert_eq. split; [|eauto]. intros _. destruct (proj1 Hg) as [tm ->]; eauto.
      * split.
        -- intros [tm Htm]%H4. exfalso. pose proof (H2 _ _ _ Htm) as Ht. destruct r; try done.
           destruct m; try done. by destruct (proj2 Hg (ex_intro _ _ eq_refl)).
        -- intros [tm [= ->]]. by destruct (proj2 Hg (ex_intro _ _ eq_refl)).
    + destruct g as [g|]; [|apply H4]. rewrite lookup_insert_ne by naive_solver. apply H4.
Qed.

(** Granting an unblocked ticket. *)
Lemma grant_ticket_ok t l l' res :
  ticket_ok t -> t.(t_owner) ∈ l.(state).(active_owners) -> lock_ok l.(state) ->
  request_blockers l.(state) t.(t_request).(resource) t.(t_id) t.(t_owner) t.(t_request).(mode) = ∅ ->
  grant_ticket t l = (l', res) ->
  lock_ok l'.(state) /\ l'.(mgr_id) = l.(mgr_id) /\
  l'.(state).(active_owners) = l.(state).(active_owners) /\
  (forall a, res = Ok a -> exists g, a = Acquired t.(t_previous) t.(t_previous_generation)
      t.(t_request).(mode) g /\
    (forall r o, grant_of l'.(state) r o = if decide (r = t.(t_request).(resource) /\ o = t.(t_owner))
                                          then Some t.(t_request).(mode) else grant_of l.(state) r o) /\
    l'.(state).(tuple_grant_generations)
      = granted_generations t.(t_request).(resource) t.(t_owner) g l.(state).(tuple_grant_generations) /\
    (is_Some g <-> exists tm, t.(t_request).(mode) = MTuple tm)).
Proof.
  intros Ht Hact Hok Hb E. pose proof Ht as [Hadm _]. unfold grant_ticket in E. rewrite modify_bind in E.
  set (r := resource (t_request t)) in *. set (m := mode (t_request t)) in *.
  set (l1 := with_state (remove_request r (t_id t)) l) in *.
  assert (Hok1 : forall s, s.(grants) = l.(state).(grants) -> s.(active_owners) = l.(state).(active_owners) ->
    s.(tuple_grant_generations) = l.(state).(tuple_grant_generations) -> lock_ok s).
  { intros s H1 H2 H3. by apply (lock_ok_ext l.(state)). }
  assert (Hl1 : l1.(state).(grants) = l.(state).(grants) /\ l1.(state).(active_owners) = l.(state).(active_owners)
    /\ l1.(state).(tuple_grant_generations) = l.(state).(tuple_grant_generations)).
  { split_and!; [apply grants_remove_request|apply owners_remove_request|apply generations_remove_request]. }
  destruct Hl1 as (Hg1 & Ha1 & Ht1).
  destruct (match t_previous t with Some held => strongest held m | None => Ok m end) as [granted|e] eqn:Eg.
  2:{ rewrite modify_bind in E. unfold lift in E. simplify_eq. split_and!; [|done|done|done].
      by apply Hok1. }
  assert (granted = m) as -> by (by eapply granted_mode). rewrite gets_bind in E. cbn [id] in E.
  match type of E with (match ?x with _ => _ end) _ = _ =>
    assert (Hgen : (exists e, x = Err e) \/ (exists g, x = Ok g /\ (is_Some g <-> exists tm, m = MTuple tm))) end.
  { destruct m; cbn; try (right; exists None; split; [done|]; split; [by intros []|by intros [? [=]]]).
    destruct (checked_add _ _ _); cbn; [right|left; eauto].
    eexists. split; [done|]. split; [eauto|eauto]. }
  destruct Hgen as [[e He]|(g & He & Hg)]; rewrite He in E.
  { rewrite modify_bind in E. unfold lift in E. simplify_eq. split_and!; [|done|done|done].
    by apply Hok1. }
  rewrite !modify_bind in E. injection E as <- <-.
  match goal with |- context [state ?x] => set (l' := x) end.
  assert (E1 : l'.(state).(grants) = (insert_grant r (t_owner t) m l.(state)).(grants)).
  { unfold l'. cbn. destruct g; cbn; by rewrite grants_remove_request. }
  assert (E2 : l'.(state).(active_owners) = l.(state).(active_owners)) by (unfold l'; cbn; destruct g; apply owners_remove_request).
  assert (E3 : l'.(state).(tuple_grant_generations)
    = granted_generations r (t_owner t) g l.(state).(tuple_grant_generations)).
  { unfold l'. cbn. destruct g; cbn; by rewrite generations_remove_request. }
  split; [|split; [done|split; [done|]]].
  - eapply (insert_grant_ok l.(state)); try done.
    intros o' m' Hne Hm'. by eapply request_blockers_holders.
  - intros a [= <-]. exists g. split; [done|]. split; [|done].
    intros r' o'. rewrite <- grant_of_insert. unfold grant_of. by rewrite E1.
Qed.

Lemma acquire_poll_ok cancel t l l' res :
  ticket_ok t -> t.(t_owner) ∈ l.(state).(active_owners) -> lock_ok l.(state) ->
  acquire_poll cancel t l = (l', res) ->
  lock_ok l'.(state) /\ l'.(mgr_id) = l.(mgr_id) /\ l'.(state).(active_owners) = l.(state).(active_owners).
Proof.
  intros Ht Hact Hok E. unfold acquire_poll in E.
  assert (Hab : lock_ok (abandon t l.(state)) /\ (abandon t l.(state)).(active_owners) = l.(state).(active_owners)).
  { split; [by apply abandon_ok|]. cbn. apply owners_remove_request. }
  destruct cancel as [e|].
  { rewrite modify_bind in E. unfold lift in E. simplify_eq. cbn. naive_solver. }
  rewrite gets_bind in E. cbn [id] in E. case_bool_decide as Eb.
  - unfold mbind, se_bind in E. destruct (grant_ticket t l) as [l1 [a|e]] eqn:Eg;
      destruct (grant_ticket_ok _ _ _ _ Ht Hact Hok Eb Eg) as (H1 & H2 & H3 & _);
      unfold mret, se_ret in E; by simplify_eq.
  - destruct (t_policy t).
    + rewrite modify_bind in E. unfold mret, se_ret in E. simplify_eq. cbn. split_and!; [|done|done].
      by apply (lock_ok_ext l.(state)).
    + rewrite modify_bind in E. unfold lift in E. simplify_eq. cbn. naive_solver.
    + rewrite modify_bind in E. unfold mret, se_ret in E. simplify_eq. cbn. naive_solver.
Qed.

Lemma acquire_wake_ok due t l l' res :
  lock_ok l.(state) -> acquire_wake due t l = (l', res) ->
  lock_ok l'.(state) /\ l'.(mgr_id) = l.(mgr_id) /\ l'.(state).(active_owners) = l.(state).(active_owners).
Proof.
  intros Hok E. unfold acquire_wake in E. rewrite gets_bind in E. destruct (_ && _).
  - rewrite modify_bind in E. unfold lift in E. simplify_eq. cbn.
    split_and!; [by apply abandon_ok|done|apply owners_remove_request].
  - unfold mret, se_ret in E. by simplify_eq.
Qed.

Lemma validate_request_Ok q x : validate_request q = Ok x -> resource_admits q.(resource) q.(mode) = true.
Proof. unfold validate_request. by destruct (resource_admits _ _). Qed.

Lemma enqueue_ok o q p prev pg l l' res :
  lock_ok l.(state) -> enqueue o q p prev pg l = (l', res) ->
  lock_ok l'.(state) /\ l'.(mgr_id) = l.(mgr_id) /\ l'.(state).(active_owners) = l.(state).(active_owners) /\
  (forall b, res = Ok b -> exists i, b = Enqueued (mkTicket o q p i prev pg)).
Proof.
  intros Hok E. unfold enqueue, take_request_id, bump, mbind, se_bind in E.
  destruct (checked_add _ _ _); cbn in E; unfold mret, se_ret in E; simplify_eq; [|done].
  split_and!; [eapply lock_ok_ext; [| | |exact Hok]; reflexivity|done|done|]. intros b [= <-]. eauto.
Qed.

Lemma admits_same_kind r m m' : resource_admits r m = true -> resource_admits r m' = true -> same_kind m m' = true.
Proof. by destruct r, m, m'. Qed.

Lemma acquire_begin_ok o q p l l' res :
  lock_ok l.(state) -> acquire_begin o q p l = (l', res) ->
  lock_ok l'.(state) /\ l'.(mgr_id) = l.(mgr_id) /\ l'.(state).(active_owners) = l.(state).(active_owners) /\
  (forall t, res = Ok (Enqueued t) -> ticket_ok t /\ t.(t_owner) = o /\ o ∈ l.(state).(active_owners)) /\
  (forall a, res = Ok (AlreadyHeld a) -> l' = l /\ exists m, grant_of l.(state) q.(resource) o = Some m /\
     covers m q.(mode) = true).
Proof.
  intros Hok E. unfold acquire_begin in E.
  destruct (validate_request q) eqn:Ev; [|unfold lift, mbind, se_bind in E; by simplify_eq].
  apply validate_request_Ok in Ev. rewrite lift_bind_Ok, gets_bind in E. cbn [id] in E.
  case_bool_decide as Ha; cbn [negb] in E; [|unfold lift in E; by simplify_eq].
  destruct (grant_of l.(state) q.(resource) o) as [held|] eqn:Eg.
  - destruct (covers held q.(mode)) eqn:Ec.
    + unfold mret, se_ret in E. simplify_eq. split_and!; try done. intros a' [= <-]. eauto.
    + destruct (enqueue_ok _ _ _ _ _ _ _ _ Hok E) as (H1 & H2 & H3 & H4).
      split_and!; try done; intros x Ex; destruct (H4 _ Ex) as [i Hi]; simplify_eq.
      split; [|done]. split; [done|]. cbn. split; [done|]. split.
      * eapply admits_same_kind; [by eapply (ok_typed _ Hok)|done].
      * intros tm ->. apply (ok_generations _ Hok). eauto.
  - destruct (enqueue_ok _ _ _ _ _ _ _ _ Hok E) as (H1 & H2 & H3 & H4).
    split_and!; try done; intros x Ex; destruct (H4 _ Ex) as [i Hi]; simplify_eq; done.
Qed.

(** ** Lemmas: savepoints and release *)

Lemma elem_of_snapshot_entries g r m : (r, m) ∈ snapshot_entries g <-> g !! r = Some m.
Proof.
  unfold snapshot_entries. rewrite list_elem_of_fmap. split.
  - intros (r' & [= -> ->] & Hin). rewrite merge_sort_Permutation in Hin.
    apply list_elem_of_fmap in Hin as ([r'' m''] & -> & Hin). apply elem_of_map_to_list in Hin.
    cbn. by rewrite Hin.
  - intros E. exists r. rewrite E. split; [done|]. rewrite merge_sort_Permutation.
    apply list_elem_of_fmap. exists (r, m). split; [done|]. by apply elem_of_map_to_list.
Qed.

Lemma NoDup_snapshot_entries g : NoDup (snapshot_entries g).*1.
Proof.
  unfold snapshot_entries. rewrite <- list_fmap_compose.
  assert (E : (fst ∘ (fun r => (r, default (MCatalog CatAccess) (g !! r)))) = (id : LockResource -> _)) by done.
  rewrite E, list_fmap_id, merge_sort_Permutation. apply NoDup_fst_map_to_list.
Qed.

Lemma number_grants_spec l : forall n n' l',
  number_grants n l = Ok (n', l') ->
  l'.*1 = l /\ Forall (fun e => is_Some e.2 <-> exists tm, e.1.2 = MTuple tm) l'.
Proof.
  induction l as [|[r m] l IH]; intros n n' l' E; cbn [number_grants] in E.
  { simplify_eq. split; [done|constructor]. }
  apply bind_Ok in E as ([g next] & Eg & E). apply bind_Ok in E as ([last l1] & El & E). simplify_eq.
  destruct (IH _ _ _ El) as [H1 H2]. split; [cbn; by rewrite H1|]. constructor; [|done]. cbn.
  destruct m; simplify_eq; try (split; [by intros []|by intros [? [=]]]).
  apply bind_Ok in Eg as (x & _ & Eg). simplify_eq. split; eauto.
Qed.

(** Re-inserting a list of grants with distinct resources. *)
Lemma foldl_restore owner l : forall s, NoDup (l.*1).*1 ->
  let s' := foldl (fun s e => restore_entry owner e s) s l in
  s'.(active_owners) = s.(active_owners) /\
  (forall r o, o <> owner -> grant_of s' r o = grant_of s r o /\
     s'.(tuple_grant_generations) !! (r, o) = s.(tuple_grant_generations) !! (r, o)) /\
  (forall r, r ∉ (l.*1).*1 -> grant_of s' r owner = grant_of s r owner /\
     s'.(tuple_grant_generations) !! (r, owner) = s.(tuple_grant_generations) !! (r, owner)) /\
  (forall r m g, (r, m, g) ∈ l -> grant_of s' r owner = Some m /\
     s'.(tuple_grant_generations) !! (r, owner) =
       match g with Some g => Some g | None => s.(tuple_grant_generations) !! (r, owner) end).
Proof.
  induction l as [|[[r0 m0] g0] l IH]; intros s Hnd; cbn [foldl].
  { split_and!; try done. intros r m g Hin. by inversion Hin. }
  cbn in Hnd. apply NoDup_cons in Hnd as [Hr0 Hnd]. cbv zeta.
  set (s1 := restore_entry owner (r0, m0, g0) s). destruct (IH s1 Hnd) as (I1 & I2 & I3 & I4).
  assert (Hg1 : forall r o, grant_of s1 r o = if decide (r = r0 /\ o = owner) then Some m0 else grant_of s r o).
  { intros r o. rewrite <- grant_of_insert. unfold s1, restore_entry. by destruct g0. }
  assert (Ht1 : forall r o, s1.(tuple_grant_generations) !! (r, o) =
    if decide (r = r0 /\ o = owner) then match g0 with Some g => Some g | None => s.(tuple_grant_generations) !! (r, o) end
    else s.(tuple_grant_generations) !! (r, o)).
  { intros r o. unfold s1, restore_entry. destruct g0; cbn; [|by case_decide].
    case_decide as Hd; [destruct Hd as [-> ->]; by rewrite lookup_insert_eq|].
    by rewrite lookup_insert_ne by naive_solver. }
  split_and!.
  - rewrite I1. unfold s1, restore_entry. by destruct g0.
  - intros r o Hne. destruct (I2 r o Hne) as [-> ->]. rewrite Hg1, Ht1.
    by rewrite !decide_False by naive_solver.
  - intros r Hr. cbn in Hr. apply not_elem_of_cons in Hr as [Hne Hr]. destruct (I3 r Hr) as [-> ->].
    rewrite Hg1, Ht1. by rewrite !decide_False by naive_solver.
  - intros r m g Hin. apply elem_of_cons in Hin as [[= -> -> ->]|Hin].
    + destruct (I3 r0 Hr0) as [-> ->]. rewrite Hg1, Ht1. by rewrite !decide_True by done.
    + assert (Hne : r <> r0).
      { intros ->. apply Hr0, list_elem_of_fmap. exists (r0, m). split; [done|].
        apply list_elem_of_fmap. by exists (r0, m, g). }
      destruct (I4 r m g Hin) as [-> ->]. rewrite Ht1. by rewrite decide_False by naive_solver.
Qed.

Lemma lookup_drop_generations o g r o' :
  drop_generations o g !! (r, o') = if decide (o' = o) then None else g !! (r, o').
Proof.
  unfold drop_generations. rewrite map_lookup_filter. destruct (g !! (r, o')) as [n|]; cbn.
  - case_decide; case_guard; naive_solver.
  - by case_decide.
Qed.

(** A successful [restore_owner] makes the owner's grants exactly the snapshot's and
    leaves the other owners alone. *)
Lemma restore_owner_spec owner guard_id snap l l' :
  restore_owner owner guard_id snap l = (l', Ok ()) ->
  snap.(snap_owner) = owner /\ l'.(mgr_id) = l.(mgr_id) /\
  l'.(state).(active_owners) = l.(state).(active_owners) /\
  (forall r m, snap.(snap_grants) !! r = Some m ->
     exists held, grant_of l.(state) r owner = Some held /\ covers held m = true) /\
  (forall r, grant_of l'.(state) r owner = snap.(snap_grants) !! r) /\
  (forall r, is_Some (l'.(state).(tuple_grant_generations) !! (r, owner)) <->
     exists tm, snap.(snap_grants) !! r = Some (MTuple tm)) /\
  (forall r o, o <> owner -> grant_of l'.(state) r o = grant_of l.(state) r o /\
     l'.(state).(tuple_grant_generations) !! (r, o) = l.(state).(tuple_grant_generations) !! (r, o)).
Proof.
  unfold restore_owner. rewrite gets_bind. cbn [id]. destruct (_ || _ || _) eqn:Eo; [by intros [=]|].
  apply orb_false_iff in Eo as [_ Eo]. apply negb_false_iff, bool_decide_eq_true in Eo.
  destruct (forallb _ _) eqn:Ef; cbn [negb]; [|by intros [=]].
  destruct (number_grants _ _) as [[n l1]|e] eqn:En; [|by intros [=]].
  rewrite lift_bind_Ok, !modify_bind. intros Hl'.
  destruct (number_grants_spec _ _ _ _ En) as [Hl1 Hgen].
  set (s0 := with_generations (drop_generations owner l.(state).(tuple_grant_generations)) n
    (with_grants (drop_grants owner l.(state).(grants)) l.(state))).
  assert (l' = with_state (fun _ => forget_wait owner
    (foldl (fun s e => restore_entry owner e s) s0 l1)) l) as -> by (injection Hl' as <-; reflexivity).
  clear Hl'. destruct (foldl_restore owner l1 s0) as (F1 & F2 & F3 & F4).
  { rewrite Hl1. apply NoDup_snapshot_entries. }
  assert (Hd : forall r o, grant_of s0 r o = if decide (o = owner) then None else grant_of l.(state) r o)
    by (intros r o; apply (grant_of_drop owner l.(state))).
  cbn [state with_state mgr_id].
  split; [done|]. split; [done|]. split; [exact F1|]. split; [|split; [|split]].
  - intros r m Hm. rewrite forallb_forall in Ef.
    specialize (Ef (r, m)). rewrite <- list_elem_of_In, elem_of_map_to_list in Ef. specialize (Ef Hm).
    destruct (grant_of _ r owner); [eauto|done].
  - intros r. destruct (snap_grants snap !! r) as [m|] eqn:Em.
    + assert (Hin := proj2 (elem_of_snapshot_entries _ _ _) Em). rewrite <- Hl1 in Hin.
      apply list_elem_of_fmap in Hin as ([[r' m'] g] & [= <- <-] & Hin). by apply (F4 r m g).
    + destruct (F3 r) as [E3 _].
      { rewrite Hl1. intros Hin. apply list_elem_of_fmap in Hin as ([r' m'] & -> & Hin).
        apply elem_of_snapshot_entries in Hin. cbn in Em. congruence. }
      etransitivity; [exact E3|]. rewrite Hd. by rewrite decide_True.
  - intros r. destruct (snap_grants snap !! r) as [m|] eqn:Em.
    + assert (Hin := proj2 (elem_of_snapshot_entries _ _ _) Em). rewrite <- Hl1 in Hin.
      apply list_elem_of_fmap in Hin as ([[r' m'] g] & [= <- <-] & Hin).
      destruct (F4 r m g Hin) as [_ Eg]. cbn [forget_wait with_waits tuple_grant_generations]. rewrite Eg.
      rewrite Forall_forall in Hgen. specialize (Hgen _ Hin). cbn in Hgen.
      unfold s0. cbn [tuple_grant_generations with_generations]. rewrite lookup_drop_generations, decide_True by done.
      destruct g; [split; [intros _|eauto]|].
      * destruct (proj1 Hgen) as [tm ->]; eauto.
      * rewrite Hgen. split; intros [tm E]; exists tm; congruence.
    + destruct (F3 r) as [_ E3].
      { rewrite Hl1. intros Hin. apply list_elem_of_fmap in Hin as ([r' m'] & -> & Hin).
        apply elem_of_snapshot_entries in Hin. cbn in Em. congruence. }
      cbn [forget_wait with_waits tuple_grant_generations]. rewrite E3. unfold s0.
      cbn [tuple_grant_generations with_generations]. rewrite lookup_drop_generations, decide_True by done.
      split; [by intros []|by intros [? [=]]].
  - intros r o Hne. destruct (F2 r o Hne) as [E1 E2]. split.
    + etransitivity; [exact E1|]. rewrite Hd. by rewrite decide_False.
    + etransitivity; [exact E2|]. unfold s0. cbn [tuple_grant_generations with_generations].
      rewrite lookup_drop_generations. by rewrite decide_False.
Qed.

Lemma restore_owner_ok owner guard_id snap l l' :
  lock_ok l.(state) -> restore_owner owner guard_id snap l = (l', Ok ()) -> lock_ok l'.(state).
Proof.
  intros [H1 H2 H3 H4] E. destruct (restore_owner_spec _ _ _ _ _ E) as (_ & _ & Ha & Hcov & Hown & Hgen & Hoth).
  split.
  - eapply (exclusive_update l.(state) l'.(state) owner); [done|intros r o Hne; by apply Hoth|].
    intros r m Hm o' m' Hne Hm'. rewrite Hown in Hm. destruct (Hcov r m Hm) as (held & Hh & Hc).
    eapply covers_compatible; [exact Hc|]. by eapply H1.
  - intros r o m. destruct (decide (o = owner)) as [->|Hne].
    + rewrite Hown. intros Hm. destruct (Hcov r m Hm) as (held & Hh & Hc). apply H2 in Hh.
      apply covers_kind in Hc. by destruct r, held, m.
    + rewrite (proj1 (Hoth r o Hne)). apply H2.
  - intros r o m. rewrite Ha. destruct (decide (o = owner)) as [->|Hne].
    + rewrite Hown. intros Hm. destruct (Hcov r m Hm) as (held & Hh & _). by eapply H3.
    + rewrite (proj1 (Hoth r o Hne)). apply H3.
  - intros r o. destruct (decide (o = owner)) as [->|Hne].
    + by rewrite Hgen, Hown.
    + destruct (Hoth r o Hne) as [-> ->]. apply H4.
Qed.

(** A failed [restore_owner] changes nothing. *)
Lemma restore_owner_Err owner guard_id snap l l' e :
  restore_owner owner guard_id snap l = (l', Err e) -> l' = l.
Proof.
  unfold restore_owner. rewrite gets_bind. cbn [id]. destruct (_ || _ || _); [by intros [=]|].
  destruct (forallb _ _); cbn [negb]; [|by intros [=]].
  destruct (number_grants _ _) as [[n l1]|]; [|by intros [=]].
  rewrite lift_bind_Ok, !modify_bind. by intros [=].
Qed.

Lemma grant_of_release o s r o' :
  grant_of (release_owner o s) r o' = if decide (o' = o) then None else grant_of s r o'.
Proof. apply (grant_of_drop o s). Qed.

Lemma release_owner_ok o s : lock_ok s -> lock_ok (release_owner o s).
Proof.
  intros [H1 H2 H3 H4]. split.
  - intros r o1 o2 m1 m2. rewrite !grant_of_release. repeat case_decide; try done. apply H1.
  - intros r o' m. rewrite grant_of_release. case_decide; [done|]. apply H2.
  - intros r o' m. rewrite grant_of_release. case_decide; [done|]. intros Hm. cbn. apply H3 in Hm. set_solver.
  - intros r o'. rewrite grant_of_release. cbn. rewrite lookup_drop_generations.
    case_decide; [|apply H4]. split; [by intros []|by intros [? [=]]].
Qed.

(** ** Lemmas: deadlock detection *)

(** [a] waits for [b]. *)
Definition edge (graph : gmap LockOwner (gset LockOwner)) (a b : LockOwner) : Prop :=
  exists next, graph !! a = Some next /\ b ∈ next.

Lemma edge_node graph a b : edge graph a b -> b ∈ graph_nodes graph.
Proof.
  intros (next & E & Hb). unfold graph_nodes. apply elem_of_union_r. revert next E Hb.
  apply (map_fold_weak_ind (fun acc m => forall next, m !! a = Some next -> b ∈ next -> b ∈ acc));
    [intros next E; by rewrite lookup_empty in E|].
  intros i next0 m acc Hi IH next E Hb. rewrite lookup_insert in E. case_decide; [|set_solver].
  simplify_eq. set_solver.
Qed.

(** Found: there is a path. *)
Lemma visit_sound graph start fuel : forall current visited visited',
  visit fuel graph start current visited = (true, visited') -> tc (edge graph) current start.
Proof.
  induction fuel as [|fuel IH]; intros current visited visited' E; cbn [visit] in E; [done|].
  destruct (graph !! current) as [next|] eqn:En; [|done].
  assert (Hl : forall y, y ∈ elements next -> edge graph current y).
  { intros y Hy. exists next. split; [done|]. by apply elem_of_elements. }
  revert visited E. induction (elements next) as [|o l IHl]; intros visited E; cbn in E; [done|].
  case_bool_decide as Es; [subst; apply tc_once, Hl; constructor|].
  case_bool_decide as Ev; [eapply IHl; [|exact E]; intros y Hy; apply Hl; by constructor|].
  destruct (visit fuel graph start o ({[o]} ∪ visited)) as [[|] v1] eqn:Eo.
  - eapply tc_l; [apply Hl; constructor|]. by eapply IH.
  - eapply IHl; [|exact E]. intros y Hy. apply Hl. by constructor.
Qed.

(** Every node of [v'] outside [v] has its successors in [v'], and none is [start]. *)
Definition closed_beyond (graph : gmap LockOwner (gset LockOwner)) (start : LockOwner)
    (v v' : gset LockOwner) : Prop :=
  forall x y, x ∈ v' -> x ∉ v -> edge graph x y -> y <> start /\ y ∈ v'.

(** What an unsuccessful search from [o] has established. *)
Definition searched (graph : gmap LockOwner (gset LockOwner)) (start o : LockOwner)
    (v v' : gset LockOwner) : Prop :=
  v ⊆ v' /\ (forall y, edge graph o y -> y <> start /\ y ∈ v') /\ closed_beyond graph start v v'.

(** The loop over the successors, given what the recursive calls establish. *)
Lemma visit_successors_complete graph start rec v0 v' l : forall v,
  (forall o v v', o ∈ graph_nodes graph -> o ∉ v -> v0 ⊆ v -> rec o ({[o]} ∪ v) = (false, v') ->
     searched graph start o ({[o]} ∪ v) v') ->
  (forall y, y ∈ l -> y ∈ graph_nodes graph) -> v0 ⊆ v ->
  visit_successors rec start l v = (false, v') ->
  v ⊆ v' /\ (forall y, y ∈ l -> y <> start /\ y ∈ v') /\ closed_beyond graph start v v'.
Proof.
  induction l as [|o l IH]; intros v Hrec Hl Hv E; cbn in E.
  { simplify_eq. split; [done|]. split; [intros y Hy; by inversion Hy|]. by intros x y H1 H2. }
  case_bool_decide as Es; [done|].
  assert (Hl' : forall y, y ∈ l -> y ∈ graph_nodes graph) by (intros y Hy; apply Hl; by constructor).
  case_bool_decide as Ev.
  - destruct (IH v Hrec Hl' Hv E) as (H1 & H2 & H3). split; [done|]. split; [|done].
    intros y Hy. apply elem_of_cons in Hy as [->|Hy]; [split; [done|by apply H1]|by apply H2].
  - destruct (rec o ({[o]} ∪ v)) as [[|] v1] eqn:Eo; [done|].
    destruct (Hrec o v v1 (Hl o ltac:(constructor)) Ev Hv Eo) as (R1 & R2 & R3).
    apply union_subseteq in R1 as [Ro Rv]. apply singleton_subseteq_l in Ro.
    destruct (IH v1 Hrec Hl' ltac:(by etrans) E) as (H1 & H2 & H3). split; [by etrans|]. split.
    + intros y Hy. apply elem_of_cons in Hy as [->|Hy]; [split; [done|by apply H1]|by apply H2].
    + intros x y Hx Hxv Hxy. destruct (decide (x ∈ v1)) as [Hx1|Hx1]; [|by eapply H3].
      destruct (decide (x = o)) as [->|Hxo].
      * destruct (R2 y Hxy). split; [done|by apply H1].
      * destruct (R3 x y Hx1) as [? ?]; [|done|split; [done|by apply H1]].
        rewrite elem_of_union, elem_of_singleton. naive_solver.
Qed.

(** Not found: the nodes reached are closed and avoid [start]. *)
Lemma visit_complete graph start fuel : forall current v v',
  (size (graph_nodes graph ∖ v) < fuel)%nat ->
  visit fuel graph start current v = (false, v') -> searched graph start current v v'.
Proof.
  induction fuel as [|fuel IH]; intros current v v' Hf E; [lia|]. cbn [visit] in E.
  destruct (graph !! current) as [next|] eqn:En.
  2:{ simplify_eq. split; [done|]. split; [intros y (next & E' & _); congruence|]. by intros x y H1 H2. }
  destruct (visit_successors_complete graph start (visit fuel graph start) v v' (elements next) v)
    as (G1 & G2 & G3); [| |done|done|].
  - intros o w w' Ho Hw Hvw Eo. apply IH; [|done].
    assert (size (graph_nodes graph ∖ ({[o]} ∪ w)) < size (graph_nodes graph ∖ v))%nat; [|lia].
    apply subset_size. split.
    + intros x. rewrite !elem_of_difference, elem_of_union. naive_solver.
    + intros Hsub. assert (Ho' : o ∈ graph_nodes graph ∖ v) by (apply elem_of_difference; naive_solver).
      apply Hsub, elem_of_difference in Ho' as [_ Ho']. apply Ho', elem_of_union_l. by apply elem_of_singleton.
  - intros y Hy. apply (edge_node graph current). exists next. split; [done|]. by apply elem_of_elements.
  - split; [done|]. split; [|done]. intros y (next' & E' & Hy). simplify_eq.
    apply G2. by apply elem_of_elements.
Qed.

(** Detection is exact: an owner is reported on a cycle iff it waits, directly or
    not, for itself. *)
Lemma on_cycle_spec graph start : on_cycle graph start = true <-> tc (edge graph) start start.
Proof.
  unfold on_cycle. destruct (visit _ graph start start {[start]}) as [[|] v'] eqn:E; cbn.
  - split; [|done]. intros _. by eapply visit_sound.
  - split; [done|]. intros Htc. exfalso.
    destruct (visit_complete graph start (S (size (graph_nodes graph))) start {[start]} v')
      as (H1 & H2 & H3); [|exact E|].
    { assert (size (graph_nodes graph ∖ {[start]}) <= size (graph_nodes graph))%nat; [|lia].
      apply subseteq_size. set_solver. }
    assert (Hclosed : forall x y, x ∈ v' -> edge graph x y -> y <> start /\ y ∈ v').
    { intros x y Hx Hxy. destruct (decide (x = start)) as [->|Hne]; [by apply H2|].
      eapply H3; [exact Hx|set_solver|exact Hxy]. }
    assert (Hpath : forall x y, tc (edge graph) x y -> x ∈ v' -> y <> start).
    { induction 1 as [x y Hxy|x y z Hxy Hyz IH]; intros Hx; [by apply (Hclosed x)|].
      apply IH. by apply (Hclosed x y). }
    by eapply Hpath; [exact Htc|set_solver|].
Qed.

(** ** Lemmas: undoing tuple grants *)

(** One turn of the second loop sets one grant of the owner and its generation. *)
Lemma apply_restore_spec owner r m g l :
  (is_Some m -> is_Some g) ->
  exists l', apply_restore owner (r, (m, g)) l = (l', Ok ()) /\ l'.(mgr_id) = l.(mgr_id) /\
  l'.(state).(active_owners) = l.(state).(active_owners) /\
  (forall r' o, grant_of l'.(state) r' o = if decide (r' = r /\ o = owner) then m else grant_of l.(state) r' o) /\
  (forall r' o, l'.(state).(tuple_grant_generations) !! (r', o) =
     if decide (r' = r /\ o = owner) then (_ ← m; g) else l.(state).(tuple_grant_generations) !! (r', o)).
Proof.
  intros Hg. destruct m as [m|]; cbn [apply_restore].
  - destruct Hg as [x ->]; [eauto|]. rewrite modify_bind. cbn [ok_or]. rewrite lift_bind_Ok.
    eexists. split; [reflexivity|]. split_and!; [done|done| |].
    + intros r' o. rewrite <- grant_of_insert. done.
    + intros r' o. cbn. rewrite lookup_insert. repeat case_decide; naive_solver.
  - rewrite modify_bind. eexists. split; [reflexivity|]. split_and!; [done|cbn; by destruct (grants _ !! r)| |].
    + intros r' o. unfold grant_of. cbn. destruct (grants l.(state) !! r) as [owners|] eqn:Er; cbn.
      * destruct (decide (r' = r)) as [->|Hr]; case_bool_decide as Eo.
        -- rewrite lookup_delete_eq. cbn. case_decide as Hd; [done|]. rewrite Er. cbn.
           rewrite <- (lookup_delete_ne owners owner o) by naive_solver. by rewrite Eo.
        -- rewrite lookup_insert_eq, Er. cbn. rewrite lookup_delete. repeat case_decide; naive_solver.
        -- rewrite lookup_delete_ne by done. by rewrite decide_False by naive_solver.
        -- rewrite lookup_insert_ne by done. by rewrite decide_False by naive_solver.
      * case_decide as Hd; [|done]. destruct Hd as [-> ->]. by rewrite Er.
    + intros r' o. cbn. destruct (grants l.(state) !! r); cbn; rewrite lookup_delete; repeat case_decide; naive_solver.
Qed.

(** The whole loop, over distinct resources. *)
Lemma for_each_restore owner entries : forall l,
  NoDup entries.*1 -> Forall (fun e => is_Some e.2.1 -> is_Some e.2.2) entries ->
  exists l', for_each entries (apply_restore owner) l = (l', Ok ()) /\ l'.(mgr_id) = l.(mgr_id) /\
  l'.(state).(active_owners) = l.(state).(active_owners) /\
  (forall r o, o <> owner -> grant_of l'.(state) r o = grant_of l.(state) r o /\
     l'.(state).(tuple_grant_generations) !! (r, o) = l.(state).(tuple_grant_generations) !! (r, o)) /\
  (forall r, r ∉ entries.*1 -> grant_of l'.(state) r owner = grant_of l.(state) r owner /\
     l'.(state).(tuple_grant_generations) !! (r, owner) = l.(state).(tuple_grant_generations) !! (r, owner)) /\
  (forall r m g, (r, (m, g)) ∈ entries -> grant_of l'.(state) r owner = m /\
     l'.(state).(tuple_grant_generations) !! (r, owner) = (_ ← m; g)).
Proof.
  induction entries as [|[r0 [m0 g0]] entries IH]; intros l Hnd Hg; cbn [for_each].
  { exists l. split_and!; try done. intros r m g Hin. by inversion Hin. }
  cbn in Hnd. apply NoDup_cons in Hnd as [Hr0 Hnd]. inversion_clear Hg as [|? ? Hg0 Hgs].
  destruct (apply_restore_spec owner r0 m0 g0 l Hg0) as (l1 & E1 & M1 & A1 & G1 & T1).
  destruct (IH l1 Hnd Hgs) as (l' & E' & M' & A' & O' & N' & I').
  exists l'. split; [by rewrite (se_bind_Ok _ _ _ _ _ E1)|]. split; [congruence|]. split; [congruence|].
  split; [|split].
  - intros r o Hne. destruct (O' r o Hne) as [-> ->]. rewrite G1, T1. by rewrite !decide_False by naive_solver.
  - intros r Hr. cbn in Hr. apply not_elem_of_cons in Hr as [Hne Hr]. destruct (N' r Hr) as [-> ->].
    rewrite G1, T1. by rewrite !decide_False by naive_solver.
  - intros r m g Hin. apply elem_of_cons in Hin as [[= -> -> ->]|Hin]; [|by apply I'].
    destruct (N' r0 Hr0) as [-> ->]. rewrite G1, T1. by rewrite !decide_True by done.
Qed.

(** What the simulation holds: only weaker tuple grants than the owner's current ones. *)
Definition sim_ok (s : LockState) (owner : LockOwner) (sim : gmap LockResource SimGrant) : Prop :=
  forall r m g, sim !! r = Some (m, g) -> exists held, grant_of s r owner = Some (MTuple held) /\
  (forall p, m = Some p -> covers (MTuple held) p = true /\ is_Some g).

Lemma simulate_restore_ok mgr owner x s changes : forall sim sim',
  Forall receipt_ok changes -> sim_ok s owner sim ->
  simulate_restore mgr owner x s changes sim = Ok sim' -> sim_ok s owner sim'.
Proof.
  induction changes as [|rc changes IH]; intros sim sim' Hrc Hsim E; cbn [simulate_restore] in E.
  { by simplify_eq. }
  inversion_clear Hrc as [|? ? Hrc0 Hrcs]. destruct (_ || _); [done|].
  case_bool_decide as Ec; cbn [negb] in E; [|done]. eapply IH; [done| |exact E].
  intros r m g. rewrite lookup_insert. case_decide as Hr; [|apply Hsim]. subst r. intros [= <- <-].
  set (r := Tuple (rc_table rc) (rc_key rc)) in *.
  assert (Hcur : exists held, grant_of s r owner = Some (MTuple held) /\
    covers (MTuple held) (MTuple (rc_granted rc)) = true).
  { destruct (sim !! r) as [[m g]|] eqn:Er; cbn in Ec; simplify_eq.
    - destruct (Hsim r _ _ Er) as (held & Hh & Hc). exists held. split; [done|]. by apply Hc.
    - eexists. split; [done|]. apply covers_refl. }
  destruct Hcur as (held & Hh & Hc). exists held. split; [done|]. intros p Hp.
  unfold receipt_ok in Hrc0. destruct (rc_previous rc) as [p'|]; [|done]. cbn in Hp. simplify_eq.
  destruct Hrc0 as [Hcov Hgen]. split; [by eapply covers_trans|done].
Qed.

(** The entries the second loop visits. *)
Definition sim_entries (sim : gmap LockResource SimGrant) : list (LockResource * SimGrant) :=
  (fun r => (r, default (None, None) (sim !! r))) <$> merge_sort resource_le (map_to_list sim).*1.

Lemma elem_of_sim_entries sim r x : (r, x) ∈ sim_entries sim <-> sim !! r = Some x.
Proof.
  unfold sim_entries. rewrite list_elem_of_fmap. split.
  - intros (r' & [= -> ->] & Hin). rewrite merge_sort_Permutation in Hin.
    apply list_elem_of_fmap in Hin as ([r'' m''] & -> & Hin). apply elem_of_map_to_list in Hin.
    cbn. by rewrite Hin.
  - intros E. exists r. rewrite E. split; [done|]. rewrite merge_sort_Permutation.
    apply list_elem_of_fmap. exists (r, x). split; [done|]. by apply elem_of_map_to_list.
Qed.

Lemma NoDup_sim_entries sim : NoDup (sim_entries sim).*1.
Proof.
  unfold sim_entries. rewrite <- list_fmap_compose.
  assert (E : (fst ∘ (fun r => (r, default (None, None) (sim !! r)))) = (id : LockResource -> _)) by done.
  rewrite E, list_fmap_id, merge_sort_Permutation. apply NoDup_fst_map_to_list.
Qed.

(** The owner's grants after undoing receipts are those of the simulation; an error
    is found before anything changes. *)
Lemma restore_tuple_changes_spec owner changes l l' res :
  Forall receipt_ok changes ->
  restore_tuple_changes owner changes l = (l', res) ->
  match res with
  | Err _ => l' = l
  | Ok _ => exists x sim, owner = Transaction x /\
      simulate_restore l.(mgr_id) owner x l.(state) (rev changes) ∅ = Ok sim /\
      sim_ok l.(state) owner sim /\
      l'.(mgr_id) = l.(mgr_id) /\ l'.(state).(active_owners) = l.(state).(active_owners) /\
      (forall r o, o <> owner -> grant_of l'.(state) r o = grant_of l.(state) r o /\
         l'.(state).(tuple_grant_generations) !! (r, o) = l.(state).(tuple_grant_generations) !! (r, o)) /\
      (forall r, grant_of l'.(state) r owner =
         match sim !! r with Some (m, _) => m | None => grant_of l.(state) r owner end) /\
      (forall r, l'.(state).(tuple_grant_generations) !! (r, owner) =
         match sim !! r with Some (m, g) => (_ ← m; g)
         | None => l.(state).(tuple_grant_generations) !! (r, owner) end)
  end.
Proof.
  intros Hrc E. unfold restore_tuple_changes in E. rewrite gets_bind in E. cbn [id] in E.
  destruct (negb _) eqn:Ha; [by unfold lift in E; simplify_eq|].
  destruct owner as [x|x]; [|by unfold lift in E; simplify_eq].
  set (owner := Transaction x) in *.
  destruct (simulate_restore _ _ _ _ _ _) as [sim|e] eqn:Es;
    [|unfold lift, mbind, se_bind in E; by simplify_eq].
  rewrite lift_bind_Ok in E. fold (sim_entries sim) in E.
  assert (Hsim : sim_ok l.(state) owner sim).
  { eapply simulate_restore_ok; [|intros r m g; by rewrite lookup_empty|exact Es]. by apply Forall_rev. }
  destruct (for_each_restore owner (sim_entries sim) l) as (l1 & E1 & M1 & A1 & O1 & N1 & I1);
    [apply NoDup_sim_entries| |].
  { apply Forall_forall. intros [r [m g]] Hin. apply elem_of_sim_entries in Hin. cbn.
    intros [p ->]. by destruct (Hsim _ _ _ Hin) as (held & _ & Hp); apply (Hp p). }
  rewrite (se_bind_Ok _ _ _ _ _ E1) in E. injection E as <- <-.
  assert (Hr : forall r, grant_of l1.(state) r owner =
         match sim !! r with Some (m, _) => m | None => grant_of l.(state) r owner end /\
      l1.(state).(tuple_grant_generations) !! (r, owner) =
         match sim !! r with Some (m, g) => (_ ← m; g)
         | None => l.(state).(tuple_grant_generations) !! (r, owner) end).
  { intros r. destruct (sim !! r) as [[m g]|] eqn:Er; [by apply I1, elem_of_sim_entries|].
    apply N1. intros Hin. apply list_elem_of_fmap in Hin as ([r' y] & -> & Hin).
    apply elem_of_sim_entries in Hin. cbn in Er. congruence. }
  exists x, sim. split_and!; try done; intros r; apply Hr.
Qed.

Lemma restore_tuple_changes_ok owner changes l l' res :
  Forall receipt_ok changes -> lock_ok l.(state) ->
  restore_tuple_changes owner changes l = (l', res) ->
  lock_ok l'.(state) /\ l'.(mgr_id) = l.(mgr_id) /\ l'.(state).(active_owners) = l.(state).(active_owners).
Proof.
  intros Hrc Hok E. pose proof (restore_tuple_changes_spec _ _ _ _ _ Hrc E) as Hs.
  destruct res as [[]|e]; [|by subst]. destruct Hs as (x & sim & -> & _ & Hsim & Hm & Ha & Ho & Hg & Ht).
  split; [|done]. destruct Hok as [H1 H2 H3 H4]. set (owner := Transaction x) in *.
  assert (Hweak : forall r m, grant_of l'.(state) r owner = Some m ->
    exists held, grant_of l.(state) r owner = Some held /\ covers held m = true).
  { intros r m Em. rewrite Hg in Em. destruct (sim !! r) as [[m' g']|] eqn:Er.
    - destruct (Hsim _ _ _ Er) as (held & Hh & Hp). exists (MTuple held). split; [done|]. by apply Hp.
    - exists m. split; [done|]. apply covers_refl. }
  split.
  - eapply (exclusive_update l.(state) l'.(state) owner); [done|intros r o Hne; by apply Ho|].
    intros r m Em o' m' Hne Em'. destruct (Hweak r m Em) as (held & Hh & Hc).
    eapply covers_compatible; [exact Hc|]. by eapply H1.
  - intros r o m. destruct (decide (o = owner)) as [->|Hne].
    + intros Em. destruct (Hweak r m Em) as (held & Hh & Hc). apply H2 in Hh.
      apply covers_kind in Hc. by destruct r, held, m.
    + rewrite (proj1 (Ho r o Hne)). apply H2.
  - intros r o m. rewrite Ha. destruct (decide (o = owner)) as [->|Hne].
    + intros Em. destruct (Hweak r m Em) as (held & Hh & _). by eapply H3.
    + rewrite (proj1 (Ho r o Hne)). apply H3.
  - intros r o. destruct (decide (o = owner)) as [->|Hne].
    + rewrite Hg, Ht. destruct (sim !! r) as [[[m|] g]|] eqn:Er; [| |apply H4].
      * destruct (Hsim _ _ _ Er) as (held & Hh & Hp). destruct (Hp m eq_refl) as [Hc Hgen]. cbn.
        split; [intros _|done]. apply covers_kind in Hc. destruct m; try done. eauto.
      * cbn. split; [by intros []|by intros [? [=]]].
    + destruct (Ho r o Hne) as [-> ->]. apply H4.
Qed.

(** ** Lemmas: the queues *)

(** Queues only lose requests, and request ids only grow. *)
Definition queues_shrink (l l' : LockManager) : Prop :=
  l.(next_request_id) = l'.(next_request_id) /\
  forall r q', l'.(state).(queues) !! r = Some q' -> exists q, l.(state).(queues) !! r = Some q /\ q' `sublist_of` q.

#[global] Instance queues_shrink_preorder : PreOrder queues_shrink.
Proof.
  split.
  - intros l. split; [done|]. intros r q Hq. by exists q.
  - intros l1 l2 l3 [E1 H1] [E2 H2]. split; [congruence|]. intros r q3 H3.
    destruct (H2 r q3 H3) as (q2 & Hq2 & S2). destruct (H1 r q2 Hq2) as (q1 & Hq1 & S1).
    exists q1. split; [done|]. by etrans.
Qed.

(** State updates that leave the queues, or filter them. *)
Lemma shrink_same f l : (f l.(state)).(queues) = l.(state).(queues) -> queues_shrink l (with_state f l).
Proof. intros E. split; [done|]. intros r q. cbn. rewrite E. by exists q. Qed.

Lemma shrink_remove r i l : queues_shrink l (with_state (remove_request r i) l).
Proof.
  split; [done|]. cbn. unfold remove_request. destruct (queues l.(state) !! r) as [queue|] eqn:Eq.
  2:{ intros r' q Hq. by exists q. }
  intros r' q. cbn. case_bool_decide.
  - intros Hq. apply lookup_delete_Some in Hq as [Hne Hq]. by exists q.
  - rewrite lookup_insert. case_decide as Hr; [|intros Hq; by exists q]. subst. intros [= <-].
    exists queue. split; [done|]. apply sublist_filter.
Qed.

Lemma shrink_abandon t l : queues_shrink l (with_state (abandon t) l).
Proof.
  etrans; [apply (shrink_remove t.(t_request).(resource) t.(t_id))|].
  by apply (shrink_same (forget_wait t.(t_owner))
    (with_state (remove_request t.(t_request).(resource) t.(t_id)) l)).
Qed.

Lemma shrink_release o l : queues_shrink l (with_state (release_owner o) l).
Proof.
  split; [done|]. cbn. intros r q. rewrite lookup_omap. destruct (queues l.(state) !! r) as [queue|]; [|done].
  cbn. case_bool_decide; [done|]. intros [= <-]. exists queue. split; [done|]. apply sublist_filter.
Qed.

Lemma queues_foldl_restore owner l : forall s,
  (foldl (fun s e => restore_entry owner e s) s l).(queues) = s.(queues).
Proof.
  induction l as [|[[r m] g] l IH]; intros s; [done|]. cbn [foldl]. rewrite IH. unfold restore_entry. by destruct g.
Qed.

Ltac shrinks := moves; first [apply shrink_remove | apply shrink_abandon | apply queues_foldl_restore | apply shrink_same; cbn; repeat case_match; done].

Lemma acquire_poll_shrinks cancel t : moves_by queues_shrink (acquire_poll cancel t).
Proof.
  unfold acquire_poll, grant_ticket. shrinks.
Qed.

Lemma acquire_wake_shrinks due t : moves_by queues_shrink (acquire_wake due t).
Proof.
  unfold acquire_wake. moves. apply shrink_abandon.
Qed.

Lemma restore_owner_shrinks o g snap : moves_by queues_shrink (restore_owner o g snap).
Proof.
  unfold restore_owner. moves; apply shrink_same; try done. apply queues_foldl_restore.
Qed.

Lemma apply_restore_shrinks o e : moves_by queues_shrink (apply_restore o e).
Proof. destruct e as [r [[m|] g]]; cbn [apply_restore]; shrinks. Qed.

Lemma restore_tuple_changes_shrinks o changes : moves_by queues_shrink (restore_tuple_changes o changes).
Proof.
  unfold restore_tuple_changes. moves; try (by apply shrink_same). apply apply_restore_shrinks.
Qed.

Lemma create_guard_shrinks o : moves_by queues_shrink (create_guard o).
Proof.
  unfold create_guard, register_owner. moves; try (by apply shrink_same). intros l. unfold take_guard_id, bump.
  destruct (checked_add _ _ _); [|reflexivity]. split; [done|]. intros r q. by exists q.
Qed.

(** Requests are numbered in the order in which they were queued. *)
Definition queues_ok (l : LockManager) : Prop :=
  forall r queue, l.(state).(queues) !! r = Some queue ->
  StronglySorted N.lt (q_id <$> queue) /\ Forall (fun q => q.(q_id) < l.(next_request_id)) queue.

Lemma queues_shrink_ok l l' : queues_shrink l l' -> queues_ok l -> queues_ok l'.
Proof.
  intros [E Hs] Hok r q' Hq'. destruct (Hs r q' Hq') as (q & Hq & Hsub). destruct (Hok r q Hq) as [H1 H2].
  split; [eapply StronglySorted_sublist; [by apply sublist_fmap|done]|].
  rewrite <- E. by eapply Forall_sublist.
Qed.

Lemma enqueue_queues_ok o q p prev pg l l' res :
  queues_ok l -> enqueue o q p prev pg l = (l', res) -> queues_ok l'.
Proof.
  intros Hok E. unfold enqueue, take_request_id, bump, mbind, se_bind in E.
  destruct (checked_add U64_MAX (next_request_id l) 1) as [n|] eqn:En; cbn in E; unfold mret, se_ret in E;
    simplify_eq; [|done].
  assert (n = next_request_id l + 1) as -> by (unfold checked_add in En; by case_match; simplify_eq).
  intros r queue. cbn. rewrite lookup_insert. case_decide as Hr.
  - intros [= <-]. subst r. rewrite fmap_app. cbn.
    assert (Hold : StronglySorted N.lt (q_id <$> default [] (queues (state l) !! resource q)) /\
      Forall (fun q => q_id q < next_request_id l) (default [] (queues (state l) !! resource q))).
    { destruct (queues (state l) !! resource q) eqn:Eq; [by apply (Hok _ _ Eq)|]. split; constructor. }
    destruct Hold as [H1 H2]. split.
    + apply StronglySorted_app_2; [|done|repeat constructor]. intros x y Hx Hy.
      apply list_elem_of_fmap in Hx as (q' & -> & Hq'). apply list_elem_of_singleton in Hy as ->.
      rewrite Forall_forall in H2. by apply H2.
    + apply Forall_app. split; [eapply Forall_impl; [done|]; cbn; lia|]. repeat constructor. cbn. lia.
  - intros Hq. destruct (Hok r queue Hq) as [H1 H2]. split; [done|].
    eapply Forall_impl; [done|]. cbn. lia.
Qed.

Lemma acquire_begin_queues_ok o q p l l' res :
  queues_ok l -> acquire_begin o q p l = (l', res) -> queues_ok l'.
Proof.
  intros Hok E. unfold acquire_begin in E.
  destruct (validate_request q); [|unfold lift, mbind, se_bind in E; by simplify_eq].
  rewrite lift_bind_Ok, gets_bind in E. cbn [id] in E.
  destruct (negb _); [unfold lift in E; by simplify_eq|].
  repeat case_match; try (by eapply enqueue_queues_ok). unfold mret, se_ret in E. by simplify_eq.
Qed.

(** In a queue in order, every request with a smaller number counts as earlier. *)
Lemma elem_of_earlier i queue q :
  StronglySorted N.lt (q_id <$> queue) -> q ∈ queue -> q.(q_id) < i -> q ∈ earlier_requests i queue.
Proof.
  induction queue as [|q0 queue IH]; cbn; intros Hs Hin Hlt; [by inversion Hin|].
  inversion_clear Hs as [|? ? Hs' Hall]. destruct (N.eqb_spec (q_id q0) i) as [Heq|Hne].
  - exfalso. apply elem_of_cons in Hin as [->|Hin]; [lia|].
    rewrite Forall_forall in Hall. specialize (Hall (q_id q)). 
    assert (q_id q0 < q_id q); [|lia]. apply Hall, list_elem_of_fmap. by exists q.
  - apply elem_of_cons in Hin as [->|Hin]; [constructor|]. constructor. by apply IH.
Qed.

(** ** Threads: the reachable states *)

(** The manager with the acquisitions that are queued and the receipts handed out. *)
Record Config : Type := mkConfig {
  cfg_manager : LockManager;
  cfg_tickets : list Ticket;
  cfg_receipts : list TupleGrantReceipt
}.

(** The ticket of a begun acquisition and the receipt of a finished one. *)
Definition begun_tickets (res : DbResult Begun) : list Ticket :=
  match res with Ok (Enqueued t) => [t] | _ => [] end.
Definition begun_result (res : DbResult Begun) : option AcquireOne :=
  match res with Ok (AlreadyHeld a) => Some a | _ => None end.
Definition drop_ticket (t : Ticket) (ts : list Ticket) : list Ticket :=
  filter (fun t' => t'.(t_id) <> t.(t_id)) ts.
(** A poll that does not go to sleep ends the acquisition. *)
Definition after_poll (t : Ticket) (res : DbResult (option AcquireOne)) (ts : list Ticket) : list Ticket :=
  match res with Ok None => ts | _ => drop_ticket t ts end.
Definition issue (registry : RegistryState) (mgr : N) (xid : TxnId) (q : ObjectLockRequest)
    (a : option AcquireOne) : list TupleGrantReceipt :=
  match a, q.(resource) with
  | Some a, Tuple table key =>
      match tuple_receipt registry mgr xid table key a with Ok (TupleAcquired rc) => [rc] | _ => [] end
  | _, _ => []
  end.

(** One critical section of some thread. *)
Inductive lock_step : Config -> Config -> Prop :=
  | step_guard l ts rs o l' res :
      create_guard o l = (l', res) -> lock_step (mkConfig l ts rs) (mkConfig l' ts rs)
  | step_statement l ts rs l' res :
      statement_owner l = (l', res) -> lock_step (mkConfig l ts rs) (mkConfig l' ts rs)
  | step_begin l ts rs registry xid o q p l' res :
      acquire_begin o q p l = (l', res) ->
      lock_step (mkConfig l ts rs)
        (mkConfig l' (begun_tickets res ++ ts) (issue registry l.(mgr_id) xid q (begun_result res) ++ rs))
  | step_poll l ts rs registry xid t cancel l' res :
      t ∈ ts -> acquire_poll cancel t l = (l', res) ->
      lock_step (mkConfig l ts rs)
        (mkConfig l' (after_poll t res ts)
           (issue registry l.(mgr_id) xid t.(t_request) (match res with Ok a => a | Err _ => None end) ++ rs))
  | step_wake l ts rs t due l' res :
      t ∈ ts -> acquire_wake due t l = (l', res) ->
      lock_step (mkConfig l ts rs) (mkConfig l' (match res with Ok _ => ts | Err _ => drop_ticket t ts end) rs)
  | step_restore_owner l ts rs o g snap l' res :
      restore_owner o g snap l = (l', res) -> lock_step (mkConfig l ts rs) (mkConfig l' ts rs)
  | step_restore_tuples l ts rs o changes l' res :
      Forall (fun rc => rc ∈ rs) changes -> restore_tuple_changes o changes l = (l', res) ->
      lock_step (mkConfig l ts rs) (mkConfig l' ts rs)
  | step_release l ts rs o :
      Forall (fun t => t.(t_owner) <> o) ts ->
      lock_step (mkConfig l ts rs) (mkConfig (with_state (release_owner o) l) ts rs)
  | step_wait_begin l ts rs registry w b :
      lock_step (mkConfig l ts rs) (mkConfig (with_state (wait_for_begin registry w b) l) ts rs)
  | step_wait_poll l ts rs registry w b cancel l' res :
      wait_for_poll registry w b cancel l = (l', res) -> lock_step (mkConfig l ts rs) (mkConfig l' ts rs)
  | step_wait_wake l ts rs due w l' res :
      wait_for_wake due w l = (l', res) -> lock_step (mkConfig l ts rs) (mkConfig l' ts rs).

Definition reachable (mgr : N) (c : Config) : Prop :=
  rtc lock_step (mkConfig (lock_manager_new mgr) [] []) c.

Record config_ok (c : Config) : Prop := {
  c_lock : lock_ok c.(cfg_manager).(state);
  c_queues : queues_ok c.(cfg_manager);
  c_tickets : Forall (fun t => ticket_ok t /\ t.(t_owner) ∈ c.(cfg_manager).(state).(active_owners)) c.(cfg_tickets);
  c_receipts : Forall receipt_ok c.(cfg_receipts)
}.

(** The receipts that are issued are sound. *)
Lemma tuple_receipt_ok registry mgr xid table key prev pg granted gg rc :
  tuple_receipt registry mgr xid table key (Acquired prev pg granted gg) = Ok (TupleAcquired rc) ->
  (forall m, prev = Some m -> covers granted m = true) ->
  (forall m, prev = Some (MTuple m) -> is_Some pg) -> receipt_ok rc.
Proof.
  intros E Hc Hg. cbn in E. apply bind_Ok in E as (p & Ep & E). apply bind_Ok in E as (m & Em & E).
  apply bind_Ok in E as (g & Eg & E). simplify_eq. unfold receipt_ok. cbn.
  destruct granted as [| | |gm]; simplify_eq. destruct prev as [[| | |pm]|]; simplify_eq; [|done].
  split; [by apply (Hc (MTuple pm))|by eapply Hg].
Qed.

Lemma issue_ok registry mgr xid q a :
  (forall prev pg granted gg, a = Some (Acquired prev pg granted gg) ->
     (forall m, prev = Some m -> covers granted m = true) /\
     (forall m, prev = Some (MTuple m) -> is_Some pg)) ->
  Forall receipt_ok (issue registry mgr xid q a).
Proof.
  intros Ha. unfold issue. destruct a as [a|]; [|constructor]. destruct (resource q); try constructor.
  destruct a as [prev pg granted gg|]; [|constructor].
  destruct (tuple_receipt registry mgr xid table key (Acquired prev pg granted gg)) as [[rc|]|] eqn:E; repeat constructor.
  destruct (Ha _ _ _ _ eq_refl). by eapply tuple_receipt_ok.
Qed.

(** A step that leaves grants, owners and generations, and only shrinks the queues. *)
Lemma config_ok_quiet l l' ts rs :
  l'.(state).(grants) = l.(state).(grants) -> l'.(state).(active_owners) = l.(state).(active_owners) ->
  l'.(state).(tuple_grant_generations) = l.(state).(tuple_grant_generations) ->
  queues_shrink l l' -> config_ok (mkConfig l ts rs) -> config_ok (mkConfig l' ts rs).
Proof.
  intros Hg Ha Ht Hq [C1 C2 C3 C4]. split; cbn in *; [by eapply lock_ok_ext|by eapply queues_shrink_ok|by rewrite Ha|done].
Qed.

Lemma create_guard_state o l l' res :
  create_guard o l = (l', res) ->
  l'.(state).(grants) = l.(state).(grants) /\
  l'.(state).(tuple_grant_generations) = l.(state).(tuple_grant_generations) /\
  l.(state).(active_owners) ⊆ l'.(state).(active_owners).
Proof.
  unfold create_guard, take_guard_id, bump, register_owner, gets, modify, lift, mbind, se_bind.
  destruct (checked_add _ _ _); cbn; [|intros [= <- _]; done].
  case_bool_decide; cbn; intros [= <- _]; cbn; split_and!; try done; set_solver.
Qed.

Lemma config_ok_guard o l l' res ts rs :
  create_guard o l = (l', res) -> config_ok (mkConfig l ts rs) -> config_ok (mkConfig l' ts rs).
Proof.
  intros E [C1 C2 C3 C4]. destruct (create_guard_state _ _ _ _ E) as (Hg & Ht & Ha).
  split; cbn in *; [| | |done].
  - destruct C1 as [H1 H2 H3 H4].
    assert (Hgr : forall r o, grant_of l'.(state) r o = grant_of l.(state) r o)
      by (intros r o'; unfold grant_of; by rewrite Hg).
    split; [intros r o1 o2 m1 m2; rewrite !Hgr; apply H1|intros r o' m; rewrite Hgr; apply H2| |].
    + intros r o' m. rewrite Hgr. intros Hm. by eapply Ha, H3.
    + intros r o'. rewrite Ht, H4. by setoid_rewrite Hgr.
  - eapply queues_shrink_ok; [|exact C2]. pose proof (create_guard_shrinks o l) as Hs. by rewrite E in Hs.
  - eapply Forall_impl; [exact C3|]. cbn. intros t [Ht1 Ht2]. split; [done|by apply Ha].
Qed.

Lemma Forall_drop_ticket P t ts : Forall P ts -> Forall P (drop_ticket t ts).
Proof. apply Forall_sublist, sublist_filter. Qed.

Lemma config_ok_begin o q p l l' res ts rs registry xid :
  acquire_begin o q p l = (l', res) -> config_ok (mkConfig l ts rs) ->
  config_ok (mkConfig l' (begun_tickets res ++ ts) (issue registry l.(mgr_id) xid q (begun_result res) ++ rs)).
Proof.
  intros E [C1 C2 C3 C4]. cbn in *. destruct (acquire_begin_ok _ _ _ _ _ _ C1 E) as (H1 & H2 & H3 & H4 & H5).
  split; cbn; [done|by eapply acquire_begin_queues_ok| |].
  - rewrite H3. apply Forall_app. split; [|done]. destruct res as [[a|t]|e]; cbn; try constructor; [|constructor].
    destruct (H4 t eq_refl) as (Ht & -> & Ho). done.
  - apply Forall_app. split; [|done]. apply issue_ok. intros prev pg granted gg Ea.
    destruct res as [[a|t]|e]; cbn in Ea; simplify_eq. unfold acquire_begin in E.
    destruct (validate_request q); [|done]. rewrite lift_bind_Ok, gets_bind in E. cbn [id] in E.
    destruct (negb _); [done|]. destruct (grant_of l.(state) q.(resource) o) as [held|] eqn:Eg.
    2:{ unfold enqueue, take_request_id, bump, mbind, se_bind in E. by destruct (checked_add _ _ _). }
    destruct (covers held (mode q)).
    2:{ unfold enqueue, take_request_id, bump, mbind, se_bind in E. by destruct (checked_add _ _ _). }
    unfold mret, se_ret in E. simplify_eq. split; [intros m [= ->]; apply covers_refl|].
    intros m [= ->]. apply (ok_generations _ C1). eauto.
Qed.

(** What a poll that finishes with a grant returns. *)
Lemma acquire_poll_Acquired cancel t l l' a :
  acquire_poll cancel t l = (l', Ok (Some a)) ->
  a = Skipped \/
  (cancel = None /\ request_blockers l.(state) t.(t_request).(resource) t.(t_id) t.(t_owner) t.(t_request).(mode) = ∅ /\
   grant_ticket t l = (l', Ok a)).
Proof.
  unfold acquire_poll. destruct cancel; [rewrite modify_bind; by intros [=]|].
  rewrite gets_bind. cbn [id]. case_bool_decide as Eb.
  - intros E. apply se_bind_inv in E as (l1 & a' & E1 & E). unfold mret, se_ret in E. simplify_eq. by right.
  - destruct (t_policy t); rewrite modify_bind; intros [=]; subst; by left.
Qed.

Lemma config_ok_poll t cancel l l' res ts rs registry xid :
  t ∈ ts -> acquire_poll cancel t l = (l', res) -> config_ok (mkConfig l ts rs) ->
  config_ok (mkConfig l' (after_poll t res ts)
    (issue registry l.(mgr_id) xid t.(t_request) (match res with Ok a => a | Err _ => None end) ++ rs)).
Proof.
  intros Hin E [C1 C2 C3 C4]. cbn in *. rewrite Forall_forall in C3. destruct (C3 t Hin) as [Ht Ho].
  destruct (acquire_poll_ok _ _ _ _ _ Ht Ho C1 E) as (H1 & H2 & H3). rewrite <- Forall_forall in C3.
  split; cbn; [done| | |].
  - eapply queues_shrink_ok; [|exact C2]. pose proof (acquire_poll_shrinks cancel t l) as Hs. by rewrite E in Hs.
  - rewrite H3. destruct res as [[a|]|e]; [by apply Forall_drop_ticket|done|by apply Forall_drop_ticket].
  - apply Forall_app. split; [|done]. apply issue_ok. intros prev pg granted gg Ea.
    destruct res as [[a|]|e]; simplify_eq. apply acquire_poll_Acquired in E as [?|(_ & Eb & Eg)]; [done|].
    destruct (grant_ticket_ok _ _ _ _ Ht Ho C1 Eb Eg) as (_ & _ & _ & Ha).
    destruct (Ha _ eq_refl) as (g & Heq & _). simplify_eq. destruct Ht as [_ Ht].
    destruct (t_previous t) as [held|]; [|done]. destruct Ht as (Hc & Hk & Hg). split.
    + intros m [= <-]. by destruct (covers_total _ _ Hk); [congruence|].
    + intros m [= ->]. by eapply Hg.
Qed.

Lemma config_ok_step c c' : lock_step c c' -> config_ok c -> config_ok c'.
Proof.
  destruct 1 as [l ts rs o l' res E|l ts rs l' res E|l ts rs reg xid o q p l' res E|l ts rs reg xid t cancel l' res Hin E
    |l ts rs t due l' res Hin E|l ts rs o g snap l' res E|l ts rs o ch l' res Hch E|l ts rs o Hts
    |l ts rs reg w b|l ts rs reg w b cancel l' res E|l ts rs due w l' res E]; intros Hc.
  - by eapply config_ok_guard.
  - unfold statement_owner, mbind, se_bind, take_statement_id, bump in E.
    destruct (checked_add _ _ _); cbn in E; [|by simplify_eq].
    eapply config_ok_guard; [exact E|]. eapply (config_ok_quiet l); [done..| |exact Hc].
    split; [done|]. intros r q. by exists q.
  - by eapply config_ok_begin.
  - by eapply config_ok_poll.
  - destruct Hc as [C1 C2 C3 C4]. cbn in *. destruct (acquire_wake_ok _ _ _ _ _ C1 E) as (H1 & _ & H3).
    split; cbn; [done| | |done].
    + eapply queues_shrink_ok; [|exact C2]. pose proof (acquire_wake_shrinks due t l) as Hs. by rewrite E in Hs.
    + rewrite H3. destruct res; [done|by apply Forall_drop_ticket].
  - destruct res as [[]|e]; [|apply restore_owner_Err in E; by subst].
    destruct Hc as [C1 C2 C3 C4]. cbn in *. split; cbn; [by eapply restore_owner_ok| | |done].
    + eapply queues_shrink_ok; [|exact C2]. pose proof (restore_owner_shrinks o g snap l) as Hs. by rewrite E in Hs.
    + destruct (restore_owner_spec _ _ _ _ _ E) as (_ & _ & Ha & _). by rewrite Ha.
  - destruct Hc as [C1 C2 C3 C4]. cbn in *.
    assert (Hrc : Forall receipt_ok ch).
    { rewrite Forall_forall in C4. eapply Forall_impl; [exact Hch|]. intros rc Hrc. by apply C4. }
    destruct (restore_tuple_changes_ok _ _ _ _ _ Hrc C1 E) as (H1 & _ & H3). split; cbn; [done| |by rewrite H3|done].
    eapply queues_shrink_ok; [|exact C2]. pose proof (restore_tuple_changes_shrinks o ch l) as Hs. by rewrite E in Hs.
  - destruct Hc as [C1 C2 C3 C4]. cbn in *. split; cbn; [by apply release_owner_ok| | |done].
    + eapply queues_shrink_ok; [apply shrink_release|done].
    + rewrite Forall_forall in *. intros t Ht. destruct (C3 t Ht) as [Hok Ho]. split; [done|].
      specialize (Hts t Ht). set_solver.
  - eapply (config_ok_quiet l); [done..|by apply shrink_same|exact Hc].
  - unfold wait_for_poll in E. destruct (negb _); [|destruct cancel]; injection E as <- <-;
      (eapply (config_ok_quiet l); [done..| |exact Hc]); first [reflexivity|by apply shrink_same].
  - unfold wait_for_wake in E. rewrite gets_bind in E. destruct (_ && _); injection E as <- <-;
      (eapply (config_ok_quiet l); [done..| |exact Hc]); first [reflexivity|by apply shrink_same].
Qed.

Lemma config_ok_reachable mgr c : reachable mgr c -> config_ok c.
Proof.
  unfold reachable. apply (rtc_ind_r (fun c => config_ok c) (mkConfig (lock_manager_new mgr) [] [])).
  - assert (Hno : forall r o, grant_of lock_state_default r o = None)
      by (intros r o; unfold grant_of; cbn; by rewrite lookup_empty).
    split; cbn; [split|intros r q; cbn; by rewrite lookup_empty|constructor|constructor].
    + intros r o1 o2 m1 m2. by rewrite Hno.
    + intros r o m. by rewrite Hno.
    + intros r o m. by rewrite Hno.
    + intros r o. rewrite Hno. cbn. rewrite lookup_empty. split; [by intros []|by intros [? [=]]].
  - intros c1 c2 _ Hs Hc. by eapply config_ok_step.
Qed.

(** ** Lemmas: whole acquisitions *)

(** What the other threads may do to a waiting owner: nothing of its own. *)
Definition env_ok (owner : LockOwner) (f : LockManager -> LockManager) : Prop :=
  forall l, lock_ok l.(state) -> owner ∈ l.(state).(active_owners) ->
  lock_ok (f l).(state) /\ owner ∈ (f l).(state).(active_owners) /\ (f l).(mgr_id) = l.(mgr_id) /\
  (forall r, grant_of (f l).(state) r owner = grant_of l.(state) r owner /\
     (f l).(state).(tuple_grant_generations) !! (r, owner) = l.(state).(tuple_grant_generations) !! (r, owner)).

(** The owner's own view of its grants. *)
Definition same_own (owner : LockOwner) (l l' : LockManager) : Prop :=
  l'.(mgr_id) = l.(mgr_id) /\
  forall r, grant_of l'.(state) r owner = grant_of l.(state) r owner /\
    l'.(state).(tuple_grant_generations) !! (r, owner) = l.(state).(tuple_grant_generations) !! (r, owner).

#[global] Instance same_own_preorder o : PreOrder (same_own o).
Proof.
  split; [by intros l|]. intros l1 l2 l3 [M1 H1] [M2 H2]. split; [congruence|].
  intros r. destruct (H1 r) as [<- <-]. apply H2.
Qed.

Lemma same_own_quiet o f l :
  (f l.(state)).(grants) = l.(state).(grants) ->
  (f l.(state)).(tuple_grant_generations) = l.(state).(tuple_grant_generations) ->
  same_own o l (with_state f l).
Proof. intros Hg Ht. split; [done|]. intros r. unfold grant_of. cbn. by rewrite Hg, Ht. Qed.

Lemma same_own_abandon o t l : same_own o l (with_state (abandon t) l).
Proof. apply same_own_quiet; [apply grants_remove_request|apply generations_remove_request]. Qed.

(** The outcome of a finished acquisition. *)
Definition acquired (owner : LockOwner) (q : ObjectLockRequest) (l l' : LockManager) (a : AcquireOne) : Prop :=
  match a with
  | Skipped => same_own owner l l'
  | Acquired previous previous_generation granted granted_generation =>
      previous = grant_of l.(state) q.(resource) owner /\
      previous_generation = l.(state).(tuple_grant_generations) !! (q.(resource), owner) /\
      covers granted q.(mode) = true /\
      l'.(mgr_id) = l.(mgr_id) /\
      (forall r, grant_of l'.(state) r owner =
         if decide (r = q.(resource)) then Some granted else grant_of l.(state) r owner) /\
      (forall r, l'.(state).(tuple_grant_generations) !! (r, owner) =
         if decide (r = q.(resource)) then granted_generation
         else l.(state).(tuple_grant_generations) !! (r, owner))
  end.

Lemma acquired_same_own o q l1 l2 l' a : same_own o l1 l2 -> acquired o q l2 l' a -> acquired o q l1 l' a.
Proof.
  intros Hs Ha. destruct a as [p pg g gg|]; cbn in *; [|by etrans]. destruct Hs as [Hm Hs].
  destruct Ha as (E1 & E2 & E3 & E4 & E5 & E6). rewrite E1, E2, !(proj1 (Hs _)), !(proj2 (Hs _)).
  split_and!; try done; [congruence|intros r; by rewrite E5, (proj1 (Hs _))|intros r; by rewrite E6, (proj2 (Hs _))].
Qed.

(** The generation of a resource that holds no tuple lock. *)
Lemma no_generation s r o : lock_ok s -> (forall m, grant_of s r o <> Some (MTuple m)) ->
  s.(tuple_grant_generations) !! (r, o) = None.
Proof.
  intros Hok Hm. apply eq_None_not_Some. intros Hs. apply (ok_generations _ Hok) in Hs as [m Em]. by apply (Hm m).
Qed.

(** The ticket still describes its owner's grant. *)
Definition ticket_fresh (t : Ticket) (l : LockManager) : Prop :=
  t.(t_previous) = grant_of l.(state) t.(t_request).(resource) t.(t_owner) /\
  t.(t_previous_generation) = l.(state).(tuple_grant_generations) !! (t.(t_request).(resource), t.(t_owner)).

Lemma grant_ticket_acquired t l l' a :
  ticket_ok t -> ticket_fresh t l -> t.(t_owner) ∈ l.(state).(active_owners) -> lock_ok l.(state) ->
  request_blockers l.(state) t.(t_request).(resource) t.(t_id) t.(t_owner) t.(t_request).(mode) = ∅ ->
  grant_ticket t l = (l', Ok a) -> acquired t.(t_owner) t.(t_request) l l' a.
Proof.
  intros Ht [Hp Hpg] Hact Hok Hb E. destruct (grant_ticket_ok _ _ _ _ Ht Hact Hok Hb E) as (Hok' & Hm & _ & Ha).
  destruct (Ha _ eq_refl) as (g & -> & Hgr & Hgen & Hg). cbn. split_and!; [done|done|apply covers_refl|done| |].
  - intros r. rewrite Hgr. repeat case_decide; naive_solver.
  - intros r. rewrite Hgen. unfold granted_generations. destruct g as [g|].
    + rewrite lookup_insert. repeat case_decide; naive_solver.
    + case_decide as Hr; [|done]. subst r. apply no_generation; [done|]. intros m Em.
      pose proof (ok_typed _ Hok _ _ _ Em) as Ha1. destruct Ht as [Ha2 _].
      destruct (resource (t_request t)); try done. destruct (mode (t_request t)) eqn:Emode; try done.
      destruct Hg as [_ Hg]. by destruct Hg; [eauto|].
Qed.

(** A poll that grants nothing changes nothing of the owner's. *)
Lemma acquire_poll_same_own cancel t l l' r :
  acquire_poll cancel t l = (l', Ok r) -> r = None \/ r = Some Skipped ->
  ticket_ok t -> t.(t_owner) ∈ l.(state).(active_owners) -> lock_ok l.(state) -> same_own t.(t_owner) l l'.
Proof.
  intros E Hr Ht Hact Hok. unfold acquire_poll in E. destruct cancel; [by rewrite modify_bind in E|].
  rewrite gets_bind in E. cbn [id] in E. case_bool_decide as Eb.
  - apply se_bind_inv in E as (l2 & a & E2 & E). unfold mret, se_ret in E. simplify_eq.
    destruct (grant_ticket_ok _ _ _ _ Ht Hact Hok Eb E2) as (_ & _ & _ & Ha).
    destruct (Ha _ eq_refl) as (g & -> & _). by destruct Hr.
  - destruct (t_policy t); rewrite modify_bind in E; unfold mret, se_ret in E; simplify_eq.
    + by apply same_own_quiet.
    + apply same_own_abandon.
Qed.

Lemma acquire_poll_acquired cancel t l l' a :
  ticket_ok t -> ticket_fresh t l -> t.(t_owner) ∈ l.(state).(active_owners) -> lock_ok l.(state) ->
  acquire_poll cancel t l = (l', Ok (Some a)) -> acquired t.(t_owner) t.(t_request) l l' a.
Proof.
  intros Ht Hf Hact Hok E. destruct (acquire_poll_Acquired _ _ _ _ _ E) as [->|(-> & Eb & Eg)].
  - cbn. eapply acquire_poll_same_own; eauto.
  - by eapply grant_ticket_acquired.
Qed.

Lemma acquire_wake_Ok due t l l' : acquire_wake due t l = (l', Ok ()) -> l' = l.
Proof.
  unfold acquire_wake. rewrite gets_bind. destruct (_ && _); [by rewrite modify_bind|]. by intros [= <-].
Qed.

Lemma acquire_loop_acquired waits t : forall cancel l l' a,
  ticket_ok t -> ticket_fresh t l -> t.(t_owner) ∈ l.(state).(active_owners) -> lock_ok l.(state) ->
  Forall (fun w => env_ok t.(t_owner) w.(w_others)) waits ->
  acquire_loop cancel waits t l = (l', Ok (Some a)) ->
  lock_ok l'.(state) /\ t.(t_owner) ∈ l'.(state).(active_owners) /\ acquired t.(t_owner) t.(t_request) l l' a.
Proof.
  induction waits as [|w waits IH]; intros cancel l l' a Ht Hf Hact Hok Hw E; cbn [acquire_loop] in E;
    apply se_bind_inv in E as (l1 & [a1|] & E1 & E);
    destruct (acquire_poll_ok _ _ _ _ _ Ht Hact Hok E1) as (H1 & H2 & H3).
  1,3: unfold mret, se_ret in E; simplify_eq; split_and!; [done|by rewrite H3|by eapply acquire_poll_acquired].
  - unfold mret, se_ret in E. by simplify_eq.
  - inversion_clear Hw as [|? ? Hw0 Hws].
    assert (Hs1 : same_own t.(t_owner) l l1) by (eapply acquire_poll_same_own; eauto).
    rewrite <- H3 in Hact. rewrite modify_bind in E. destruct (Hw0 l1 H1 Hact) as (K1 & K2 & K3).
    apply se_bind_inv in E as (l2 & [] & E2 & E). apply acquire_wake_Ok in E2 as ->.
    assert (Hs : same_own t.(t_owner) l (w_others w l1)) by (by etrans; [exact Hs1|]).
    destruct (IH (w_cancel w) (w_others w l1) l' a Ht) as (J1 & J2 & J3); [|done..|].
    { destruct Hs as [_ Hs]. split; [rewrite (proj1 (Hs _)); apply Hf|rewrite (proj2 (Hs _)); apply Hf]. }
    split; [done|]. split; [done|]. by eapply acquired_same_own.
Qed.

Lemma acquire_one_acquired owner q p cancel waits l l' a :
  lock_ok l.(state) -> Forall (fun w => env_ok owner w.(w_others)) waits ->
  acquire_one owner q p cancel waits l = (l', Ok (Some a)) ->
  lock_ok l'.(state) /\ owner ∈ l'.(state).(active_owners) /\ acquired owner q l l' a.
Proof.
  intros Hok Hw E. unfold acquire_one in E. apply se_bind_inv in E as (l1 & b & E1 & E).
  destruct (acquire_begin_ok _ _ _ _ _ _ Hok E1) as (H1 & H2 & H3 & H4 & H5).
  unfold acquire_begin in E1. destruct (validate_request q); [|done].
  rewrite lift_bind_Ok, gets_bind in E1. cbn [id] in E1. case_bool_decide as Hact; cbn [negb] in E1; [|done].
  assert (Hq : forall prev pg, prev = grant_of l.(state) q.(resource) owner ->
    pg = l.(state).(tuple_grant_generations) !! (q.(resource), owner) ->
    enqueue owner q p prev pg l = (l1, Ok b) ->
    lock_ok l'.(state) /\ owner ∈ l'.(state).(active_owners) /\ acquired owner q l l' a).
  { intros prev pg Hp Hpg E2. destruct (enqueue_ok _ _ _ _ _ _ _ _ Hok E2) as (_ & _ & _ & Hb).
    destruct (Hb _ eq_refl) as [i ->]. destruct (H4 _ eq_refl) as (Ht & _ & _).
    assert (Hs : same_own owner l l1).
    { unfold enqueue, take_request_id, bump, mbind, se_bind in E2. destruct (checked_add _ _ _); cbn in E2; [|done].
      unfold mret, se_ret in E2. by simplify_eq. }
    destruct (acquire_loop_acquired waits (mkTicket owner q p i prev pg) cancel l1 l' a) as (J1 & J2 & J3);
      [done| |by cbn; rewrite H3|done|done|done|].
    - destruct Hs as [_ Hs]. split; cbn; [by rewrite (proj1 (Hs _))|by rewrite (proj2 (Hs _))].
    - split; [done|]. split; [done|]. by eapply acquired_same_own. }
  destruct (grant_of l.(state) q.(resource) owner) as [held|] eqn:Eg; [|exact (Hq _ _ eq_refl eq_refl E1)].
  destruct (covers held q.(mode)) eqn:Ec; [|exact (Hq _ _ eq_refl eq_refl E1)].
  unfold mret, se_ret in E1. simplify_eq. unfold mret, se_ret in E. simplify_eq.
  split; [done|]. split; [done|]. cbn. split_and!; try done; intros r; case_decide; by subst.
Qed.

(** Only a skip-locked acquisition skips. *)
Lemma grant_ticket_not_skipped t l l' : grant_ticket t l <> (l', Ok Skipped).
Proof.
  unfold grant_ticket. rewrite modify_bind. repeat case_match; rewrite ?gets_bind; repeat case_match;
    rewrite ?modify_bind; by intros [=].
Qed.

Lemma acquire_loop_not_skipped waits t : t.(t_policy) = Block ->
  forall cancel l l', acquire_loop cancel waits t l <> (l', Ok (Some Skipped)).
Proof.
  intros Hp. assert (Hpoll : forall cancel l l', acquire_poll cancel t l <> (l', Ok (Some Skipped))).
  { intros cancel l l' E. destruct (acquire_poll_Acquired _ _ _ _ _ E) as [_|(_ & _ & Eg)];
      [|by eapply grant_ticket_not_skipped].
    unfold acquire_poll in E. destruct cancel; [by rewrite modify_bind in E|]. rewrite gets_bind, Hp in E.
    case_bool_decide; [|by rewrite modify_bind in E].
    apply se_bind_inv in E as (l1 & a & E1 & E). unfold mret, se_ret in E. simplify_eq.
    by eapply grant_ticket_not_skipped. }
  induction waits as [|w waits IH]; intros cancel l l' E; cbn [acquire_loop] in E;
    apply se_bind_inv in E as (l1 & [a1|] & E1 & E); unfold mret, se_ret in E; simplify_eq;
    try (by eapply Hpoll).
  rewrite modify_bind in E. apply se_bind_inv in E as (l2 & [] & _ & E). by eapply IH.
Qed.

Lemma acquire_one_not_skipped owner q cancel waits l l' :
  acquire_one owner q Block cancel waits l <> (l', Ok (Some Skipped)).
Proof.
  unfold acquire_one. intros E. apply se_bind_inv in E as (l1 & b & E1 & E).
  unfold acquire_begin in E1. destruct (validate_request q); [|done].
  rewrite lift_bind_Ok, gets_bind in E1. destruct (negb _); [done|].
  assert (Hq : forall prev pg, enqueue owner q Block prev pg l = (l1, Ok b) -> False).
  { intros prev pg E2. unfold enqueue, take_request_id, bump, mbind, se_bind in E2.
    destruct (checked_add _ _ _); cbn in E2; [|done]. unfold mret, se_ret in E2. simplify_eq.
    by eapply acquire_loop_not_skipped; [|exact E]. }
  destruct (grant_of _ _ _); [|by eapply Hq]. destruct (covers _ _); [|by eapply Hq].
  unfold mret, se_ret in E1. by simplify_eq.
Qed.

(** The owner holds every request of the list. *)
Definition holds_all (owner : LockOwner) (l : LockManager) (requests : list ObjectLockRequest) : Prop :=
  Forall (fun q => exists m, grant_of l.(state) q.(resource) owner = Some m /\ covers m q.(mode) = true) requests.

Lemma acquire_each_holds owner requests : forall envs l l',
  NoDup (resource <$> requests) -> lock_ok l.(state) ->
  Forall (fun e : option DbError * list Wait => Forall (fun w => env_ok owner w.(w_others)) e.2) envs ->
  acquire_each owner requests envs l = (l', Ok (Some ())) ->
  holds_all owner l' requests /\
  (forall r, r ∉ (resource <$> requests) -> grant_of l'.(state) r owner = grant_of l.(state) r owner).
Proof.
  induction requests as [|q requests IH]; intros envs l l' Hnd Hok He E; cbn [acquire_each] in E.
  { unfold mret, se_ret in E. simplify_eq. split; [constructor|done]. }
  cbn in Hnd. apply NoDup_cons in Hnd as [Hq Hnd].
  destruct (default (None, []) (head envs)) as [cancel waits] eqn:Eh.
  assert (Hw : Forall (fun w => env_ok owner w.(w_others)) waits).
  { destruct envs as [|[c w] envs]; cbn in Eh; simplify_eq; [constructor|]. by inversion_clear He. }
  assert (Hes : Forall (fun e : option DbError * list Wait => Forall (fun w => env_ok owner w.(w_others)) e.2) (tail envs)).
  { destruct envs; [constructor|]. by inversion_clear He. }
  apply se_bind_inv in E as (l1 & [[p pg g gg|]|] & E1 & E); [| |unfold mret, se_ret in E; by simplify_eq].
  2:{ by eapply acquire_one_not_skipped in E1. }
  destruct (acquire_one_acquired _ _ _ _ _ _ _ _ Hok Hw E1) as (H1 & _ & _ & _ & Hc & _ & Hg & _).
  destruct (IH _ _ _ Hnd H1 Hes E) as [Hall Hrest]. split.
  - constructor; [|done]. exists g. rewrite Hrest, Hg by done. by rewrite decide_True.
  - intros r Hr. cbn in Hr. apply not_elem_of_cons in Hr as [Hne Hr]. rewrite Hrest, Hg by done.
    by rewrite decide_False.
Qed.

(** ** Lemmas: normalization *)

Lemma merge_requests_spec requests : forall acc m,
  merge_requests requests acc = Ok m ->
  (forall r, is_Some (m !! r) <-> is_Some (acc !! r) \/ r ∈ (resource <$> requests)) /\
  (forall r x, m !! r = Some x ->
     (acc !! r = Some x \/ mkRequest r x ∈ requests) /\
     (forall y, acc !! r = Some y -> covers x y = true) /\
     (forall q, q ∈ requests -> q.(resource) = r -> covers x q.(mode) = true)).
Proof.
  induction requests as [|q requests IH]; intros acc m E; cbn [merge_requests] in E.
  { simplify_eq. split.
    - intros r. split; [by left|]. intros [?|Hin]; [done|by inversion Hin].
    - intros r x Hx. split; [by left|]. split; [|intros q Hq; by inversion Hq].
      intros y Hy. simplify_eq. apply covers_refl. }
  apply bind_Ok in E as (u0 & _ & E). apply bind_Ok in E as (mx & Em & E).
  destruct (IH _ _ E) as [H1 H2].
  assert (Hmx : covers mx q.(mode) = true /\ (forall y, acc !! q.(resource) = Some y -> covers mx y = true) /\
    (mx = q.(mode) \/ acc !! q.(resource) = Some mx)).
  { destruct (acc !! resource q) as [held|]; simplify_eq.
    - apply strongest_spec in Em as (C1 & C2 & C3). split; [done|]. split; [|naive_solver].
      by intros y [= <-].
    - split; [apply covers_refl|]. split; [done|by left]. }
  destruct Hmx as (M1 & M2 & M3). split.
  - intros r. rewrite H1, lookup_insert. cbn. rewrite elem_of_cons. case_decide as Hr; [subst|]; [naive_solver|].
    naive_solver.
  - intros r x Hx. destruct (H2 r x Hx) as (K1 & K2 & K3). rewrite lookup_insert in K1, K2.
    destruct (decide (resource q = r)) as [<-|Hr].
    + split_and!.
      * destruct K1 as [[= ->]|K1]; [|right; by constructor]. destruct M3 as [->|M3]; [right|by left].
        destruct q; constructor.
      * intros y Hy. eapply covers_trans; [by apply K2|by apply M2].
      * intros q' Hq' Er. apply elem_of_cons in Hq' as [->|Hq']; [|by apply K3].
        eapply covers_trans; [by apply K2|done].
    + split_and!; [destruct K1; [by left|right; by constructor]|done|].
      intros q' Hq' Er. apply elem_of_cons in Hq' as [->|Hq']; [done|by apply K3].
Qed.

(** Merging fails on an ill-typed request only. *)
Lemma merge_requests_Err requests : forall acc e,
  (forall r m, acc !! r = Some m -> resource_admits r m = true) ->
  merge_requests requests acc = Err e -> exists q, q ∈ requests /\ resource_admits q.(resource) q.(mode) = false.
Proof.
  induction requests as [|q requests IH]; intros acc e Hacc E; cbn [merge_requests] in E; [done|].
  unfold validate_request in E. destruct (resource_admits _ _) eqn:Ea; [|exists q; split; [constructor|done]].
  cbn in E. destruct (match acc !! resource q with None => _ | Some _ => _ end) as [mx|e'] eqn:Em; cbn in E.
  - destruct (IH (<[q.(resource) := mx]> acc) e) as (q' & Hin & Hq'); [|exact E|].
    + intros r m. rewrite lookup_insert. case_decide as Hr; [|apply Hacc]. subst r. intros [= <-].
      destruct (acc !! resource q) as [held|] eqn:Eh; simplify_eq; [|done].
      apply strongest_spec in Em as (_ & _ & [-> | ->]); [by apply Hacc|done].
    + exists q'. split; [by constructor|done].
  - destruct (acc !! resource q) as [held|] eqn:Eh; [|done]. exfalso.
    destruct (strongest_Ok held (mode q)) as [m Hm]; [|congruence].
    eapply admits_same_kind; [by apply Hacc|done].
Qed.

Lemma elem_of_normalized m q :
  q ∈ ((fun r => mkRequest r (default (MCatalog CatAccess) (m !! r))) <$> merge_sort resource_le (map_to_list m).*1)
  <-> m !! q.(resource) = Some q.(mode).
Proof.
  rewrite list_elem_of_fmap. split.
  - intros (r & -> & Hin). rewrite merge_sort_Permutation in Hin.
    apply list_elem_of_fmap in Hin as ([r' x] & -> & Hin). apply elem_of_map_to_list in Hin. cbn. by rewrite Hin.
  - intros E. exists q.(resource). rewrite E. split; [by destruct q|]. rewrite merge_sort_Permutation.
    apply list_elem_of_fmap. exists (q.(resource), q.(mode)). split; [done|]. by apply elem_of_map_to_list.
Qed.

Lemma resource_of_normalized m :
  resource <$> ((fun r => mkRequest r (default (MCatalog CatAccess) (m !! r)))
    <$> merge_sort resource_le (map_to_list m).*1) = merge_sort resource_le (map_to_list m).*1.
Proof. rewrite <- list_fmap_compose. apply list_fmap_id. Qed.

Lemma normalize_requests_Ok requests out :
  normalize_requests requests = Ok out ->
  NoDup (resource <$> out) /\
  (forall q, q ∈ out -> q ∈ requests /\
     forall q', q' ∈ requests -> q'.(resource) = q.(resource) -> covers q.(mode) q'.(mode) = true) /\
  (forall q', q' ∈ requests -> exists q, q ∈ out /\ q.(resource) = q'.(resource)).
Proof.
  intros E. apply bind_Ok in E as (m & Em & E). simplify_eq.
  destruct (merge_requests_spec _ _ _ Em) as [H1 H2]. split_and!.
  - rewrite resource_of_normalized, merge_sort_Permutation. apply NoDup_fst_map_to_list.
  - intros q Hq. apply elem_of_normalized in Hq. destruct (H2 _ _ Hq) as (K1 & _ & K3).
    split; [|intros q' Hq' Er; by apply K3]. rewrite lookup_empty in K1. destruct K1 as [?|K1]; [done|]. by destruct q.
  - intros q' Hq'. destruct (proj2 (H1 (q'.(resource)))) as [x Hx].
    { right. apply list_elem_of_fmap. by exists q'. }
    exists (mkRequest q'.(resource) x). split; [|done]. by apply elem_of_normalized.
Qed.

#[local] Instance resource_le_total : (forall a b, key_le a b = true \/ key_le b a = true) -> Total resource_le.
Proof.
  intros Hk a b. unfold resource_le. destruct a, b; cbn; auto; rewrite ?N.leb_le.
  - lia.
  - rewrite !orb_true_iff, !andb_true_iff, !N.ltb_lt, !N.eqb_eq.
    destruct (N.lt_trichotomy schema schema0) as [?|[->|?]]; [auto| |auto].
    destruct (String.leb_total name name0); auto.
  - lia.
  - rewrite !orb_true_iff, !andb_true_iff, !N.ltb_lt, !N.eqb_eq.
    destruct (N.lt_trichotomy table table0) as [?|[->|?]]; [auto| |auto]. destruct (Hk key key0); auto.
  - lia.
Qed.

(** Numbering succeeds while the generations last. *)
Lemma number_grants_total l : forall n, n + N.of_nat (length l) <= U64_MAX -> exists x, number_grants n l = Ok x.
Proof.
  induction l as [|[r m] l IH]; intros n Hn; cbn [number_grants]; [eauto|]. cbn [length] in Hn.
  destruct m; cbn [mbind result_bind].
  1-3: destruct (IH n) as [[last l'] ->]; [lia|]; cbn; eauto.
  unfold checked_add. destruct (N.leb_spec (n + 1) U64_MAX) as [_|Hlt]; [|lia]. cbn.
  destruct (IH (n + 1)) as [[last l'] ->]; [lia|]. cbn. eauto.
Qed.

Lemma length_snapshot_entries g : length (snapshot_entries g) = size g.
Proof.
  unfold snapshot_entries. by rewrite length_fmap, merge_sort_Permutation, length_fmap, length_map_to_list.
Qed.

(** [restore_owner] succeeds when the owner still holds what the snapshot records. *)
Lemma restore_owner_total owner guard_id snap l :
  snap.(snap_manager_id) = l.(mgr_id) -> snap.(snap_guard_id) = guard_id -> snap.(snap_owner) = owner ->
  (forall r m, snap.(snap_grants) !! r = Some m ->
     exists held, grant_of l.(state) r owner = Some held /\ covers held m = true) ->
  l.(state).(next_tuple_grant_generation) + N.of_nat (size snap.(snap_grants)) <= U64_MAX ->
  exists l', restore_owner owner guard_id snap l = (l', Ok ()).
Proof.
  intros Hm <- <- Hcov Hn. unfold restore_owner. rewrite gets_bind. cbn [id].
  rewrite Hm, !N.eqb_refl, bool_decide_true by done. cbn [negb orb].
  assert (forallb (fun '(r, m) =>
      match grant_of (state l) r (snap_owner snap) with Some held => covers held m | None => false end)
      (map_to_list (snap_grants snap)) = true) as ->.
  { apply forallb_forall. intros [r m] Hin. apply list_elem_of_In, elem_of_map_to_list in Hin.
    by destruct (Hcov r m Hin) as (held & -> & ->). }
  cbn [negb]. destruct (number_grants_total (snapshot_entries (snap_grants snap)) (next_tuple_grant_generation (state l)))
    as [[n l1] ->]; [by rewrite length_snapshot_entries|].
  rewrite lift_bind_Ok, !modify_bind. eexists. reflexivity.
Qed.

Lemma lookup_release_queues o s r :
  (release_owner o s).(queues) !! r = (queue ← s.(queues) !! r;
     let queue := filter (fun q => q.(q_owner) <> o) queue in
     if bool_decide (queue = []) then None else Some queue).
Proof. cbn. by rewrite lookup_omap. Qed.

(** Undoing one receipt whose grant is still in place. *)
Lemma restore_receipt x table key prev pg gm gg l :
  let owner := Transaction x in
  let r0 := Tuple table key in
  owner ∈ l.(state).(active_owners) ->
  grant_of l.(state) r0 owner = Some (MTuple gm) ->
  l.(state).(tuple_grant_generations) !! (r0, owner) = Some gg ->
  (is_Some prev -> is_Some pg) ->
  exists l2, restore_tuple_changes owner [mkReceipt l.(mgr_id) x table key prev pg gm gg] l = (l2, Ok ()) /\
  grant_of l2.(state) r0 owner = MTuple <$> prev /\
  l2.(state).(tuple_grant_generations) !! (r0, owner) = (_ ← prev; pg) /\
  (forall r, r <> r0 -> grant_of l2.(state) r owner = grant_of l.(state) r owner /\
     l2.(state).(tuple_grant_generations) !! (r, owner) = l.(state).(tuple_grant_generations) !! (r, owner)) /\
  (forall r o, o <> owner -> grant_of l2.(state) r o = grant_of l.(state) r o).
Proof.
  intros owner r0 Hact Hg Ht Hpg. set (sim := {[r0 := (MTuple <$> prev, pg)]} : gmap LockResource SimGrant).
  assert (Hsim : simulate_restore l.(mgr_id) owner x l.(state) [mkReceipt l.(mgr_id) x table key prev pg gm gg] ∅ = Ok sim).
  { cbn [simulate_restore rc_manager_id rc_owner rc_table rc_key rc_granted rc_granted_generation rc_previous
      rc_previous_generation]. rewrite !N.eqb_refl. cbn [negb orb]. fold r0. rewrite lookup_empty. cbn [default].
    rewrite Hg, Ht, bool_decide_true by done. cbn [negb]. by rewrite insert_empty. }
  destruct (for_each_restore owner (sim_entries sim) l) as (l2 & E2 & M2 & A2 & O2 & N2 & I2);
    [apply NoDup_sim_entries| |].
  { apply Forall_forall. intros [r [y g]] Hin. apply elem_of_sim_entries, lookup_singleton_Some in Hin as [<- [= <- <-]].
    cbn. intros Hy. apply Hpg. by apply fmap_is_Some in Hy. }
  exists (with_state (forget_wait owner) l2). split.
  { unfold restore_tuple_changes. rewrite gets_bind. cbn [id]. rewrite bool_decide_true by done. cbn [negb].
    change (match owner with Transaction owner_xid => _ | Statement _ => _ end l) with
      ((simulated ← lift (simulate_restore l.(mgr_id) owner x l.(state) [mkReceipt l.(mgr_id) x table key prev pg gm gg] ∅);
        _ ← for_each (sim_entries simulated) (apply_restore owner);
        modify (with_state (forget_wait owner))) l).
    rewrite Hsim, lift_bind_Ok. by rewrite (se_bind_Ok _ _ _ _ _ E2). }
  destruct (I2 r0 (MTuple <$> prev) pg) as [J1 J2]; [apply elem_of_sim_entries, lookup_singleton_eq|].
  split; [exact J1|]. split; [etransitivity; [exact J2|]; by destruct prev|]. split; [|intros r o Hne; by apply O2].
  intros r Hr. apply N2. intros Hin. apply list_elem_of_fmap in Hin as ([r' y] & -> & Hin).
  by apply elem_of_sim_entries, lookup_singleton_Some in Hin as [<- _].
Qed.

(** ** Properties *)

(** C17: mutual exclusion.  In every state the critical sections of any number of
    threads can reach, two distinct owners of a resource hold compatible modes,
    every holder still has its guard, and every grant is of its resource's kind. *)
Theorem lock_exclusion mgr c :
  reachable mgr c ->
  forall r o1 o2 m1 m2,
    grant_of c.(cfg_manager).(state) r o1 = Some m1 ->
    grant_of c.(cfg_manager).(state) r o2 = Some m2 ->
    (o1 <> o2 -> compatible m1 m2 = true) /\
    o1 ∈ c.(cfg_manager).(state).(active_owners) /\ resource_admits r m1 = true.
Proof.
  intros Hr r o1 o2 m1 m2 H1 H2. destruct (config_ok_reachable _ _ Hr) as [[K1 K2 K3 K4] _ _ _].
  split; [intros Hne; by eapply K1|]. split; [by eapply K3|by eapply K2].
Qed.

(** C19: deadlock detection is exact and breaks the cycle: with the timer due, the
    waiter is chosen as a victim iff it waits for itself through the wait-for graph;
    the victim then has left graph and queue; any other waiter is untouched. *)
Theorem deadlock_exact t l :
  let waiting := tc (edge l.(state).(waits_for)) t.(t_owner) t.(t_owner) in
  match acquire_wake true t l with
  | (l', Ok _) => l' = l /\ ~ waiting
  | (l', Err e) =>
      waiting /\ e = db_execute DeadlockDetected "deadlock detected" /\
      l'.(state).(waits_for) !! t.(t_owner) = None /\ l'.(state).(grants) = l.(state).(grants) /\
      (forall queue q, l'.(state).(queues) !! t.(t_request).(resource) = Some queue -> q ∈ queue ->
         q.(q_id) <> t.(t_id))
  end.
Proof.
  cbv zeta. unfold acquire_wake. rewrite gets_bind. cbn [id andb].
  destruct (on_cycle _ _) eqn:Ec; cbn.
  - split; [by apply on_cycle_spec|]. split; [done|]. split; [apply lookup_delete_eq|].
    split; [apply grants_remove_request|]. intros queue q. cbn. unfold remove_request.
    destruct (queues (state l) !! resource (t_request t)) as [queue0|] eqn:Eq; cbn; [|by rewrite Eq].
    case_bool_decide; [by rewrite lookup_delete_eq|]. rewrite lookup_insert_eq. intros [= <-] Hin.
    by apply list_elem_of_filter in Hin as [? _].
  - split; [done|]. rewrite <- on_cycle_spec. congruence.
Qed.

(** C18: no overtaking.  In every reachable state, a queued request is granted only
    past compatible holders and compatible requests of other owners with a smaller
    number, and then its owner holds exactly the requested mode, the grants of
    everybody else being as before. *)
Theorem grant_respects_queue mgr c t cancel l' p pg granted gg :
  reachable mgr c -> t ∈ c.(cfg_tickets) ->
  acquire_poll cancel t c.(cfg_manager) = (l', Ok (Some (Acquired p pg granted gg))) ->
  let s := c.(cfg_manager).(state) in
  granted = t.(t_request).(mode) /\
  (forall o m, grant_of s t.(t_request).(resource) o = Some m -> o <> t.(t_owner) -> compatible granted m = true) /\
  (forall queue q, s.(queues) !! t.(t_request).(resource) = Some queue -> q ∈ queue ->
     q.(q_id) < t.(t_id) -> q.(q_owner) <> t.(t_owner) -> compatible granted q.(q_mode) = true) /\
  (forall r o, grant_of l'.(state) r o =
     if decide (r = t.(t_request).(resource) /\ o = t.(t_owner)) then Some granted else grant_of s r o).
Proof.
  intros Hr Hin E s. destruct (config_ok_reachable _ _ Hr) as [C1 C2 C3 C4]. rewrite Forall_forall in C3.
  destruct (C3 t Hin) as [Ht Ho]. apply acquire_poll_Acquired in E as [[=]|(_ & Eb & Eg)].
  destruct (grant_ticket_ok _ _ _ _ Ht Ho C1 Eb Eg) as (_ & _ & _ & Ha).
  destruct (Ha _ eq_refl) as (g & [= -> -> -> ->] & Hgr & _). split; [done|]. split; [|split; [|exact Hgr]].
  - intros o m. by eapply request_blockers_holders.
  - intros queue q Hq Hqin Hlt Hne. eapply request_blockers_earlier; [done|done| |done].
    apply elem_of_earlier; [by apply (C2 _ _ Hq)|done|done].
Qed.

(** Releasing an owner leaves no trace of it, in the grants, their generations,
    the queues, or the wait-for graph on either side, and keeps everything of the
    other owners. *)
Theorem release_owner_clean o s :
  let s' := release_owner o s in
  o ∉ s'.(active_owners) /\
  (forall r o', grant_of s' r o' = if decide (o' = o) then None else grant_of s r o') /\
  (forall r o', s'.(tuple_grant_generations) !! (r, o') =
     if decide (o' = o) then None else s.(tuple_grant_generations) !! (r, o')) /\
  (forall r q, q ∈ default [] (s'.(queues) !! r) <-> q ∈ default [] (s.(queues) !! r) /\ q.(q_owner) <> o) /\
  s'.(waits_for) !! o = None /\
  (forall a b, a <> o -> edge s'.(waits_for) a b <-> edge s.(waits_for) a b /\ b <> o).
Proof.
  split; [cbn; set_solver|]. split; [intros; apply grant_of_release|].
  split; [intros; cbn; apply lookup_drop_generations|]. split; [|split].
  - intros r q. rewrite lookup_release_queues. destruct (queues s !! r) as [queue|]; cbn [mbind option_bind default].
    2:{ cbn. split; [by intros Hq; inversion Hq|]. intros [Hq _]. by inversion Hq. }
    cbv zeta. case_bool_decide as E; cbn.
    + split; [by intros Hq; inversion Hq|]. intros [Hq Hne].
      assert (Hin : q ∈ filter (fun q => q_owner q <> o) queue) by (by apply list_elem_of_filter).
      rewrite E in Hin. by inversion Hin.
    + rewrite list_elem_of_filter. naive_solver.
  - cbn. rewrite lookup_omap, lookup_delete_eq. done.
  - intros a b Ha. unfold edge. cbn. setoid_rewrite lookup_omap. rewrite lookup_delete_ne by done.
    destruct (waits_for s !! a) as [next|]; cbn.
    2:{ split; [by intros (? & ? & ?)|by intros [(? & ? & ?) _]]. }
    case_bool_decide as E.
    + split; [by intros (? & ? & ?)|]. intros [(n & [= <-] & Hb) Hne].
      assert (Hin : b ∈ next ∖ {[o]}) by set_solver. rewrite E in Hin. set_solver.
    + split; [intros (n & [= <-] & Hb); set_solver|]. intros [(n & [= <-] & Hb) Hne].
      eexists. split; [done|]. set_solver.
Qed.

(** Rolling back to a savepoint.  When the owner still holds at least what the
    snapshot recorded and the generations last, [restore_owner] succeeds; then the
    owner holds exactly what it held at the snapshot, and the other owners what
    they hold now. *)
Theorem savepoint_restores owner guard_id l0 l :
  l.(mgr_id) = l0.(mgr_id) ->
  (forall r m, grant_of l0.(state) r owner = Some m ->
     exists held, grant_of l.(state) r owner = Some held /\ covers held m = true) ->
  l.(state).(next_tuple_grant_generation) + N.of_nat (size (owner_grants owner l0.(state))) <= U64_MAX ->
  exists l', restore_owner owner guard_id (owner_snapshot owner guard_id l0) l = (l', Ok ()) /\
  (forall r, grant_of l'.(state) r owner = grant_of l0.(state) r owner) /\
  (forall r o, o <> owner -> grant_of l'.(state) r o = grant_of l.(state) r o).
Proof.
  intros Hm Hcov Hn. destruct (restore_owner_total owner guard_id (owner_snapshot owner guard_id l0) l) as [l' E];
    [done|done|done| |done|].
  { intros r m. cbn. rewrite lookup_owner_grants. apply Hcov. }
  exists l'. split; [done|]. destruct (restore_owner_spec _ _ _ _ _ E) as (_ & _ & _ & _ & Hown & _ & Hoth).
  split; [intros r; rewrite Hown; apply lookup_owner_grants|intros r o Hne; by apply Hoth].
Qed.

(** Undoing a tuple lock.  Whatever the other threads do while the lock is
    waited for, restoring the receipt of an acquired tuple lock succeeds and gives
    the owner back exactly the grants and generations it had before. *)
Theorem tuple_lock_undo registry xid table key m p cancel waits l l1 rc :
  lock_ok l.(state) ->
  Forall (fun w => env_ok (Transaction (top_of registry xid)) w.(w_others)) waits ->
  acquire_tuple registry xid table key m p cancel waits l = (l1, Ok (Some (TupleAcquired rc))) ->
  let owner := Transaction (top_of registry xid) in
  exists l2, restore_tuple_grants registry xid [rc] l1 = (l2, Ok ()) /\
  holds_tuple registry xid table key m l1 = true /\
  (forall r, grant_of l2.(state) r owner = grant_of l.(state) r owner /\
     l2.(state).(tuple_grant_generations) !! (r, owner) = l.(state).(tuple_grant_generations) !! (r, owner)) /\
  (forall r o, o <> owner -> grant_of l2.(state) r o = grant_of l1.(state) r o).
Proof.
  intros Hok Hw E owner. unfold acquire_tuple in E.
  destruct (is_active registry xid) eqn:Eact; cbn [negb] in E; [|done]. fold owner in E.
  apply se_bind_inv in E as (l1' & [a|] & E1 & E); rewrite gets_bind in E; [|by unfold mret, se_ret in E; simplify_eq].
  apply se_bind_inv in E as (l1'' & a' & Er & E). unfold lift in Er. unfold mret, se_ret in E.
  injection Er as -> Er. injection E as -> ->. cbn [id] in Er.
  destruct (acquire_one_acquired _ _ _ _ _ _ _ _ Hok Hw E1) as (Hok1 & Hact & Ha).
  destruct a as [prev pg granted gg|]; [|done].
  destruct Ha as (-> & -> & Hc & Hm & Hg & Ht). cbn [resource mode] in *. set (r0 := Tuple table key) in *.
  fold owner in Hg, Ht, Er, Hact.
  assert (Hprev : exists prev, grant_of l.(state) r0 owner = MTuple <$> prev /\
    (is_Some prev -> is_Some (l.(state).(tuple_grant_generations) !! (r0, owner)))).
  { destruct (grant_of l.(state) r0 owner) as [pm|] eqn:Ep; [|exists None; split; [done|by intros []]].
    pose proof (ok_typed _ Hok _ _ _ Ep). destruct pm as [| | |pm]; try done. exists (Some pm). split; [done|].
    intros _. apply (ok_generations _ Hok). eauto. }
  destruct Hprev as (prev & Hp & Hpg). rewrite Hp in Er. cbn in Er.
  destruct granted as [| | |gm]; [by destruct prev..|]. destruct gg as [gg|]; [|by destruct prev].
  assert (rc = mkReceipt l1.(mgr_id) (top_of registry xid) table key prev
    (l.(state).(tuple_grant_generations) !! (r0, owner)) gm gg) as -> by (destruct prev; cbn in Er; by simplify_eq).
  clear Er. destruct (restore_receipt (top_of registry xid) table key prev
    (l.(state).(tuple_grant_generations) !! (r0, owner)) gm gg l1) as (l2 & E2 & R1 & R2 & R3 & R4);
    [done|by rewrite Hg, decide_True|by rewrite Ht, decide_True|done|].
  exists l2. split; [done|]. split; [|split; [|done]].
  - unfold holds_tuple. rewrite Eact. fold owner r0. rewrite Hg, decide_True by done. exact Hc.
  - intros r. destruct (decide (r = r0)) as [->|Hr].
    + rewrite Hp. split; [exact R1|]. etransitivity; [exact R2|]. destruct prev; [done|]. cbn. symmetry.
      apply no_generation; [done|]. intros x. by rewrite Hp.
    + destruct (R3 r Hr) as [J1 J2]. rewrite Hg, decide_False in J1 by done. by rewrite Ht, decide_False in J2 by done.
Qed.

(** Acquiring a set of locks.  Normalization gives one request per resource, in
    resource order, each the strongest asked for, and an [acquire_many] that returns has made the
    owner cover every request, whatever the other threads did during its waits. *)
Theorem acquire_many_covers owner requests envs l l' :
  (forall a b, key_le a b = true \/ key_le b a = true) ->
  lock_ok l.(state) ->
  Forall (fun e : option DbError * list Wait => Forall (fun w => env_ok owner w.(w_others)) e.2) envs ->
  acquire_many owner requests envs l = (l', Ok (Some ())) ->
  guard_covers owner requests l' = Ok true /\
  exists out, normalize_requests requests = Ok out /\
    Sorted resource_le (resource <$> out) /\ NoDup (resource <$> out) /\
    (forall q, q ∈ out -> q ∈ requests /\
       forall q', q' ∈ requests -> q'.(resource) = q.(resource) -> covers q.(mode) q'.(mode) = true) /\
    (forall q', q' ∈ requests -> exists q, q ∈ out /\ q.(resource) = q'.(resource)).
Proof.
  intros Hk Hok He E. unfold acquire_many in E.
  destruct (normalize_requests requests) as [out|e] eqn:En; [|done]. rewrite lift_bind_Ok in E.
  destruct (normalize_requests_Ok _ _ En) as (Hnd & Hstrong & Hall).
  destruct (acquire_each_holds _ _ _ _ _ Hnd Hok He E) as [Hh _]. split.
  - unfold guard_covers. rewrite En. cbn. f_equal. apply forallb_forall. intros q Hq%list_elem_of_In.
    unfold holds_all in Hh. rewrite Forall_forall in Hh. rewrite lookup_owner_grants.
    by destruct (Hh q Hq) as (m & -> & ?).
  - exists out. split; [done|]. split; [|done]. apply bind_Ok in En as (m & _ & En). simplify_eq.
    rewrite resource_of_normalized. pose proof (resource_le_total Hk). apply Sorted_merge_sort, _.
Qed.

(** Normalizing fails exactly on a request whose mode does not fit its resource. *)
Theorem normalize_requests_total requests :
  is_ok (normalize_requests requests) = forallb (fun q => resource_admits q.(resource) q.(mode)) requests.
Proof.
  unfold normalize_requests. destruct (merge_requests requests ∅) as [m|e] eqn:Em; cbn; symmetry.
  - clear -Em. revert Em. generalize (∅ : gmap LockResource ObjectLockMode).
    induction requests as [|q requests IH]; intros acc E; [done|]. cbn in E.
    unfold validate_request in E. cbn. destruct (resource_admits _ _); [|done]. cbn in *.
    destruct (match acc !! resource q with None => _ | Some _ => _ end); [|done]. cbn in E. by eapply IH.
  - apply not_true_iff_false. rewrite forallb_forall. intros Hall.
    destruct (merge_requests_Err requests ∅ e) as (q & Hin & Hq);
      [intros r m; by rewrite lookup_empty|done|]. apply list_elem_of_In in Hin. rewrite (Hall q Hin) in Hq. done.
Qed.

End LockManager.

(** ** Witnesses: two transactions share table 7 *)

(** Row keys ordered as numbers. *)
Definition demo_le (a b : N) : bool := a <=? b.
Definition demo_run {A} (m : SE (LockManager (Key := N)) DbError A) (l : LockManager (Key := N))
    : LockManager (Key := N) := (m l).1.
Definition demo_request (m : RelationLockMode) : ObjectLockRequest (Key := N) := request_table 7 m.
Definition demo_ticket (o i : N) (m : RelationLockMode) : Ticket (Key := N) :=
  mkTicket (Transaction o) (demo_request m) Block i None None.

(** Transactions 4 and 5 with their guards; 4 holds the table, 5 waits behind it. *)
Definition demo_l2 : LockManager := demo_run (create_guard (Transaction 5)) (demo_run (create_guard (Transaction 4)) (lock_manager_new 1)).
Definition demo_l4 : LockManager :=
  demo_run (acquire_poll None (demo_ticket 4 1 RowShare))
    (demo_run (acquire_begin (Transaction 4) (demo_request RowShare) Block) demo_l2).
Definition demo_l5 : LockManager :=
  demo_run (acquire_begin (Transaction 5) (demo_request RowExclusive) Block) demo_l4.
Definition demo_l6 : LockManager := demo_run (acquire_poll None (demo_ticket 5 2 RowExclusive)) demo_l5.

Definition demo_l1 : LockManager := demo_run (create_guard (Transaction 4)) (lock_manager_new 1).
Definition demo_l3 : LockManager := demo_run (acquire_begin (Transaction 4) (demo_request RowShare) Block) demo_l2.

(** The steps that build them. *)
Lemma demo_reachable1 : reachable demo_le 1 (mkConfig demo_l1 [] []).
Proof.
  apply rtc_once. eapply (step_guard demo_le _ _ _ (Transaction 4) demo_l1 (Ok (Transaction 4, 1))).
  vm_compute. reflexivity.
Qed.

Lemma demo_reachable3 : reachable demo_le 1 (mkConfig demo_l3 [demo_ticket 4 1 RowShare] []).
Proof.
  eapply rtc_r; [eapply rtc_r; [exact demo_reachable1|]|].
  - eapply (step_guard demo_le _ _ _ (Transaction 5) demo_l2 (Ok (Transaction 5, 2))). vm_compute. reflexivity.
  - eapply (step_begin demo_le _ [] [] registry_new 4 (Transaction 4) (demo_request RowShare) Block demo_l3
      (Ok (Enqueued (demo_ticket 4 1 RowShare)))). vm_compute. reflexivity.
Qed.

Lemma demo_reachable5 : reachable demo_le 1 (mkConfig demo_l5 [demo_ticket 5 2 RowExclusive] []).
Proof.
  eapply rtc_r; [eapply rtc_r; [exact demo_reachable3|]|].
  - eapply (step_poll demo_le _ _ _ registry_new 4 (demo_ticket 4 1 RowShare) None demo_l4
      (Ok (Some (Acquired None None (MRelation RowShare) None)))); [constructor|vm_compute; reflexivity].
  - eapply (step_begin demo_le _ [] [] registry_new 5 (Transaction 5) (demo_request RowExclusive) Block demo_l5
      (Ok (Enqueued (demo_ticket 5 2 RowExclusive)))). vm_compute. reflexivity.
Qed.

Lemma demo_reachable6 : reachable demo_le 1 (mkConfig demo_l6 [] []).
Proof.
  eapply rtc_r; [exact demo_reachable5|].
  eapply (step_poll demo_le demo_l5 [demo_ticket 5 2 RowExclusive] [] registry_new 5 (demo_ticket 5 2 RowExclusive) None demo_l6
    (Ok (Some (Acquired None None (MRelation RowExclusive) None)))); [constructor|vm_compute; reflexivity].
Qed.

Lemma lock_exclusion_witness :
  compatible (MRelation RowShare) (MRelation RowExclusive) = true.
Proof.
  refine (proj1 (lock_exclusion (Key := N) demo_le 1 (mkConfig demo_l6 [] []) demo_reachable6 (Table 7)
    (Transaction 4) (Transaction 5) _ _ _ _) _); [vm_compute; reflexivity|vm_compute; reflexivity|done].
Defined.

Lemma grant_respects_queue_witness :
  grant_of demo_l6.(state) (Table 7) (Transaction 5) = Some (MRelation RowExclusive).
Proof.
  pose proof (grant_respects_queue (Key := N) demo_le 1 (mkConfig demo_l5 [demo_ticket 5 2 RowExclusive] [])
    (demo_ticket 5 2 RowExclusive) None demo_l6 None None (MRelation RowExclusive) None
    demo_reachable5 ltac:(constructor) ltac:(vm_compute; reflexivity)) as (_ & _ & _ & Hg).
  rewrite Hg. reflexivity.
Defined.

Lemma savepoint_restores_witness :
  exists l', restore_owner demo_le (Transaction 4) 1 (owner_snapshot (Transaction 4) 1 demo_l4) demo_l6
    = (l', Ok ()).
Proof.
  destruct (savepoint_restores (Key := N) demo_le (Transaction 4) 1 demo_l4 demo_l6) as (l' & E & _);
    [reflexivity| |vm_compute; congruence|by exists l'].
  intros r m Hm. exists m. split; [|apply covers_refl].
  assert (Hr : r = Table 7).
  { unfold grant_of in Hm. destruct (decide (r = Table 7)) as [->|Hne]; [done|].
    assert (grants demo_l4.(state) = {[Table 7 := {[Transaction 4 := MRelation RowShare]}]}) as E
      by (vm_compute; reflexivity).
    rewrite E, lookup_singleton_ne in Hm by done. done. }
  subst r. rewrite <- Hm. vm_compute. reflexivity.
Defined.

(** Transaction 4 alone. *)
Definition demo_registry : RegistryState := register registry_new 4.

Lemma demo_l1_ok : lock_ok demo_l1.(state).
Proof. exact (c_lock _ (config_ok_reachable _ _ _ demo_reachable1)). Qed.

Lemma tuple_lock_undo_witness :
  exists l2, restore_tuple_grants demo_le demo_registry 4
    [mkReceipt 1 4 7 (9 : N) None None Update 1]
    (demo_run (acquire_tuple demo_registry 4 7 9 Update Block None []) demo_l1) = (l2, Ok ()).
Proof.
  destruct (tuple_lock_undo (Key := N) demo_le demo_registry 4 7 9 Update Block None [] demo_l1
    (demo_run (acquire_tuple demo_registry 4 7 9 Update Block None []) demo_l1)
    (mkReceipt 1 4 7 9 None None Update 1)) as (l2 & E & _);
    [exact demo_l1_ok|constructor|vm_compute; reflexivity|by exists l2].
Defined.

Lemma acquire_many_covers_witness :
  guard_covers demo_le (Transaction 4) [demo_request AccessShare; demo_request RowShare]
    (demo_run (acquire_many demo_le (Transaction 4) [demo_request AccessShare; demo_request RowShare] [])
      demo_l1) = Ok true.
Proof.
  refine (proj1 (acquire_many_covers (Key := N) demo_le (Transaction 4) _ [] demo_l1 _ _ demo_l1_ok _ _)).
  - intros a b. unfold demo_le. rewrite !N.leb_le. lia.
  - constructor.
  - vm_compute. reflexivity.
Defined.
