(* ===== verification/Ssi.v ===== *)
(** * Serializable conflict tracking (src/crates/server/src/ssi_manager.rs)

    The [SerializableConflictManager]: SIREAD locks, write records and the
    rw-antidependency edges of the tracked (serializable) transactions, with the
    checks that abort a pivot.  The manager's mutex makes each method one atomic
    step; a method that canonicalizes a transaction id takes the registry it reads.
    The loops over a [HashSet] run over its elements in some order, which the
    results do not depend on.  The row key type is a parameter.

    Shown: the forward and reverse indexes agree, every conflict between tracked
    transactions has its edge, an abort leaves no trace, a release is safe, and what
    a passed commit check guarantees; and the structure it lets through. *)

From stdpp Require Import relations.
From S2P Require Import Prelude Errors Mvcc Registry.
Local Open Scope N_scope.

Definition SSI_TUPLE_LOCK_CAP : nat := 64.

(** ** Sets behind the entries of a map *)

Section Entries.
Context {K X : Type} `{Countable K} `{Countable X}.

(** [map.get(k)] as a set, and [map.entry(k).or_default().insert(x)]. *)
Definition entry (m : gmap K (gset X)) (k : K) : gset X := default ∅ (m !! k).
Definition entry_insert (k : K) (x : X) (m : gmap K (gset X)) : gmap K (gset X) :=
  <[k := {[x]} ∪ entry m k]> m.

(** Removes the entry when it becomes empty. *)
Definition remove_reader (k : K) (x : X) (m : gmap K (gset X)) : gmap K (gset X) :=
  match m !! k with
  | None => m
  | Some s =>
      let s := s ∖ {[x]} in
      if bool_decide (s = ∅) then delete k m else <[k := s]> m
  end.

Lemma entry_insert_spec k x m k' : entry (entry_insert k x m) k' = if decide (k' = k) then {[x]} ∪ entry m k else entry m k'.
Proof.
  unfold entry_insert, entry. rewrite lookup_insert. repeat case_decide; by subst.
Qed.

Lemma elem_of_entry_insert k x m k' x' :
  x' ∈ entry (entry_insert k x m) k' <-> (k' = k /\ x' = x) \/ x' ∈ entry m k'.
Proof. rewrite entry_insert_spec. case_decide; set_solver. Qed.

Lemma elem_of_remove_reader k x m k' x' :
  x' ∈ entry (remove_reader k x m) k' <-> x' ∈ entry m k' /\ ~ (k' = k /\ x' = x).
Proof.
  unfold remove_reader. destruct (m !! k) as [s|] eqn:E.
  - unfold entry. case_bool_decide as Hs.
    + rewrite lookup_delete. case_decide as Hk; [|naive_solver]. subst k'. rewrite E. cbn. set_solver.
    + rewrite lookup_insert. case_decide as Hk; [|naive_solver]. subst k'. rewrite E. cbn. set_solver.
  - split; [|naive_solver]. intros Hx. split; [done|]. intros [-> ->]. unfold entry in Hx. rewrite E in Hx. cbn in Hx. set_solver.
Qed.

Lemma elem_of_remove_readers {A} (f : A -> K) x ks : forall (m : gmap K (gset X)) k' x',
  x' ∈ entry (foldl (fun m k => remove_reader (f k) x m) m ks) k' <->
  x' ∈ entry m k' /\ ~ (x' = x /\ k' ∈ (f <$> ks)).
Proof.
  induction ks as [|k ks IH]; intros m k' x'; cbn [foldl].
  - split; [intros Hx; split; [done|]; intros [_ Hk]; by inversion Hk|by intros []].
  - rewrite IH, elem_of_remove_reader. cbn. rewrite elem_of_cons. naive_solver.
Qed.
End Entries.

Section Ssi.
Context {Key : Type} `{Countable Key}.

(** ** State *)

Record TxnSsi : Type := mkTxnSsi {
  snapshot : Snapshot;
  relation_locks : gset N;
  tuple_locks : gmap N (gset Key);
  relation_writes : gset N;
  whole_relation_writes : gset N;
  tuple_writes : gmap N (gset Key);
  out_edges : gset TxnId;
  in_edges : gset TxnId;
  commit_seq : option N;
  finished : bool
}.

Record SsiState : Type := mkSsi {
  relation_readers : gmap N (gset TxnId);
  tuple_readers : gmap (N * Key) (gset TxnId);
  relation_writers : gmap N (gset TxnId);
  whole_relation_writers : gmap N (gset TxnId);
  tuple_writers : gmap (N * Key) (gset TxnId);
  promoted_tuple_writers : gmap N (gset TxnId);
  txns : gmap TxnId TxnSsi;
  next_commit_seq : N
}.
Definition SsiState_default : SsiState := mkSsi ∅ ∅ ∅ ∅ ∅ ∅ ∅ 0.

(** Field updates. *)
Definition with_txns (t : gmap TxnId TxnSsi) (s : SsiState) : SsiState :=
  mkSsi s.(relation_readers) s.(tuple_readers) s.(relation_writers) s.(whole_relation_writers)
    s.(tuple_writers) s.(promoted_tuple_writers) t s.(next_commit_seq).
Definition with_relation_readers m (s : SsiState) : SsiState :=
  mkSsi m s.(tuple_readers) s.(relation_writers) s.(whole_relation_writers)
    s.(tuple_writers) s.(promoted_tuple_writers) s.(txns) s.(next_commit_seq).
Definition with_tuple_readers m (s : SsiState) : SsiState :=
  mkSsi s.(relation_readers) m s.(relation_writers) s.(whole_relation_writers)
    s.(tuple_writers) s.(promoted_tuple_writers) s.(txns) s.(next_commit_seq).
Definition with_relation_writers m (s : SsiState) : SsiState :=
  mkSsi s.(relation_readers) s.(tuple_readers) m s.(whole_relation_writers)
    s.(tuple_writers) s.(promoted_tuple_writers) s.(txns) s.(next_commit_seq).
Definition with_whole_relation_writers m (s : SsiState) : SsiState :=
  mkSsi s.(relation_readers) s.(tuple_readers) s.(relation_writers) m
    s.(tuple_writers) s.(promoted_tuple_writers) s.(txns) s.(next_commit_seq).
Definition with_tuple_writers m (s : SsiState) : SsiState :=
  mkSsi s.(relation_readers) s.(tuple_readers) s.(relation_writers) s.(whole_relation_writers)
    m s.(promoted_tuple_writers) s.(txns) s.(next_commit_seq).
Definition with_promoted m (s : SsiState) : SsiState :=
  mkSsi s.(relation_readers) s.(tuple_readers) s.(relation_writers) s.(whole_relation_writers)
    s.(tuple_writers) m s.(txns) s.(next_commit_seq).
Definition with_commit_seq n (s : SsiState) : SsiState :=
  mkSsi s.(relation_readers) s.(tuple_readers) s.(relation_writers) s.(whole_relation_writers)
    s.(tuple_writers) s.(promoted_tuple_writers) s.(txns) n.

(** [st.txns.get_mut(&t)] and a change through it. *)
Definition on_txn (t : TxnId) (f : TxnSsi -> TxnSsi) (s : SsiState) : SsiState :=
  with_txns (alter f t s.(txns)) s.

Definition set_locks (r : gset N) (tl : gmap N (gset Key)) (x : TxnSsi) : TxnSsi :=
  mkTxnSsi x.(snapshot) r tl x.(relation_writes) x.(whole_relation_writes)
    x.(tuple_writes) x.(out_edges) x.(in_edges) x.(commit_seq) x.(finished).
Definition set_writes (r w : gset N) (tw : gmap N (gset Key)) (x : TxnSsi) : TxnSsi :=
  mkTxnSsi x.(snapshot) x.(relation_locks) x.(tuple_locks) r w tw x.(out_edges) x.(in_edges)
    x.(commit_seq) x.(finished).
Definition set_edges (o i : gset TxnId) (x : TxnSsi) : TxnSsi :=
  mkTxnSsi x.(snapshot) x.(relation_locks) x.(tuple_locks) x.(relation_writes) x.(whole_relation_writes)
    x.(tuple_writes) o i x.(commit_seq) x.(finished).
Definition set_outcome (c : option N) (f : bool) (x : TxnSsi) : TxnSsi :=
  mkTxnSsi x.(snapshot) x.(relation_locks) x.(tuple_locks) x.(relation_writes) x.(whole_relation_writes)
    x.(tuple_writes) x.(out_edges) x.(in_edges) c f.

(** ** Edges *)

Definition concurrent (s : Snapshot) (writer : TxnId) : bool :=
  (s.(xmax) <=? writer) || contains s.(xip) writer.

Definition serialization_failure : DbError :=
  db_execute SerializationFailure
    "could not serialize access due to read/write dependencies among transactions".

Definition is_doomed_pivot (st : SsiState) (t : TxnId) : bool :=
  match st.(txns) !! t with
  | None => false
  | Some txn =>
      if bool_decide (txn.(in_edges) = ∅) || bool_decide (txn.(out_edges) = ∅) then false
      else existsb (fun w => match st.(txns) !! w with
                             | Some o => bool_decide (is_Some o.(commit_seq)) | None => false end)
             (elements txn.(out_edges))
  end.

Definition form_rw_edge (reader writer : TxnId) (st : SsiState) : SsiState :=
  if (reader =? writer) || negb (bool_decide (is_Some (st.(txns) !! writer))) then st
  else
    match st.(txns) !! reader with
    | None => st
    | Some rt =>
        if negb (concurrent rt.(snapshot) writer) then st
        else
          let st := on_txn reader (fun x => set_edges ({[writer]} ∪ x.(out_edges)) x.(in_edges) x) st in
          on_txn writer (fun x => set_edges x.(out_edges) ({[reader]} ∪ x.(in_edges)) x) st
    end.

Definition form_out_edges (reader : TxnId) (writers : list TxnId) (st : SsiState) : SsiState :=
  foldl (fun st w => form_rw_edge reader w st) st writers.
Definition form_in_edges (readers : list TxnId) (writer : TxnId) (st : SsiState) : SsiState :=
  foldl (fun st r => form_rw_edge r writer st) st readers.

(** ** Tracking *)

Definition fresh_txn (s : Snapshot) : TxnSsi := mkTxnSsi s ∅ ∅ ∅ ∅ ∅ ∅ ∅ None false.

Definition ssi_register (registry : RegistryState) (txn_id : TxnId) (s : Snapshot) (st : SsiState) : SsiState :=
  let top := top_of registry txn_id in
  match st.(txns) !! top with
  | Some _ => st
  | None => with_txns (<[top := fresh_txn s]> st.(txns)) st
  end.

Definition mark_finished (top : TxnId) (st : SsiState) : SsiState :=
  on_txn top (fun x => set_outcome x.(commit_seq) true x) st.

(** [tuple_locks] or [tuple_writes] as the keys of the state's tuple maps. *)
Definition flat_keys (m : gmap N (gset Key)) : list (N * Key) :=
  map_to_list m ≫= fun '(table, keys) => (table,.) <$> elements keys.

(** [top] has been taken out of [txns]. *)
Definition purge (top : TxnId) (txn : TxnSsi) (st : SsiState) : SsiState :=
  let drop {K} `{Countable K} (ks : list K) (m : gmap K (gset TxnId)) :=
    foldl (fun m k => remove_reader k top m) m ks in
  let st := with_relation_readers (drop (elements txn.(relation_locks)) st.(relation_readers)) st in
  let st := with_tuple_readers (drop (flat_keys txn.(tuple_locks)) st.(tuple_readers)) st in
  let st := with_relation_writers (drop (elements txn.(relation_writes)) st.(relation_writers)) st in
  let st := with_whole_relation_writers
              (drop (elements txn.(whole_relation_writes)) st.(whole_relation_writers)) st in
  let st := with_tuple_writers (drop (flat_keys txn.(tuple_writes)) st.(tuple_writers)) st in
  let st := with_promoted (omap (fun writers : gset TxnId =>
              let writers := writers ∖ {[top]} in
              if bool_decide (writers = ∅) then None else Some writers) st.(promoted_tuple_writers)) st in
  let st := foldl (fun st w => on_txn w (fun x => set_edges x.(out_edges) (x.(in_edges) ∖ {[top]}) x) st)
              st (elements txn.(out_edges)) in
  foldl (fun st v => on_txn v (fun x => set_edges (x.(out_edges) ∖ {[top]}) x.(in_edges) x) st)
    st (elements txn.(in_edges)).

Definition aborted (top : TxnId) (st : SsiState) : SsiState :=
  match st.(txns) !! top with
  | None => st
  | Some txn => purge top txn (with_txns (delete top st.(txns)) st)
  end.

Definition releasable (gc_horizon : TxnId) (st : SsiState) : list TxnId :=
  (filter (fun e : TxnId * TxnSsi => e.2.(finished) = true /\ e.2.(snapshot).(xmax) <= gc_horizon)
     (map_to_list st.(txns))).*1.
(** The body of the loop is that of [aborted]. *)
Definition release_up_to (gc_horizon : TxnId) (st : SsiState) : SsiState :=
  foldl (fun st top => aborted top st) st (releasable gc_horizon st).

Definition dooms_in_neighbor (st : SsiState) (txn : TxnSsi) : bool :=
  existsb (fun v => match st.(txns) !! v with
                    | Some vt => bool_decide (vt.(commit_seq) = None) && negb (bool_decide (vt.(in_edges) = ∅))
                    | None => false end) (elements txn.(in_edges)).

Definition commit_check (top : TxnId) : SE SsiState DbError unit := fun st =>
  match st.(txns) !! top with
  | None => (st, Ok ())
  | Some txn =>
      if is_doomed_pivot st top then (st, Err serialization_failure)
      else if dooms_in_neighbor st txn then (st, Err serialization_failure)
      else
        let seq := st.(next_commit_seq) in
        match checked_add U64_MAX seq 1 with
        | None => (st, Err (db_internal "SSI commit sequence exhausted"))
        | Some next =>
            (on_txn top (fun x => set_outcome (Some seq) x.(finished) x) (with_commit_seq next st), Ok ())
        end
  end.

Definition tracking_counts (st : SsiState) : N * N * N :=
  (N.of_nat (size st.(txns)),
   map_fold (fun _ (s : gset TxnId) n => N.of_nat (size s) + n) 0 st.(relation_readers),
   map_fold (fun _ (s : gset TxnId) n => N.of_nat (size s) + n) 0 st.(tuple_readers)).

Definition add_relation_lock (top : TxnId) (table : N) (st : SsiState) : SsiState :=
  match st.(txns) !! top with
  | None => st
  | Some txn =>
      if bool_decide (table ∈ txn.(relation_locks)) then st
      else
        let st := on_txn top (fun x => set_locks ({[table]} ∪ x.(relation_locks)) x.(tuple_locks) x) st in
        with_relation_readers (entry_insert table top st.(relation_readers)) st
  end.

(** [tuple_locks.remove(&table)] with the keys it held, out of the reader map too. *)
Definition drop_tuple_locks (reader : TxnId) (table : N) (keys : gset Key) (st : SsiState) : SsiState :=
  let st := on_txn reader (fun x => set_locks x.(relation_locks) (delete table x.(tuple_locks)) x) st in
  with_tuple_readers (foldl (fun m k => remove_reader (table, k) reader m) st.(tuple_readers) (elements keys)) st.

Definition promote_reader (table : N) (writers : list TxnId) (st : SsiState) (reader : TxnId) : SsiState :=
  let keys := match st.(txns) !! reader with Some x => entry x.(tuple_locks) table | None => ∅ end in
  let st := drop_tuple_locks reader table keys st in
  let st := form_out_edges reader writers st in
  add_relation_lock reader table st.

Definition promote_table_identity_locks_to_relation (table : N) (st : SsiState) : SsiState :=
  let readers := (filter (fun e : TxnId * TxnSsi => is_Some (e.2.(tuple_locks) !! table))
                    (map_to_list st.(txns))).*1 in
  let writers := elements (entry st.(relation_writers) table) in
  let st := if bool_decide (writers = []) then st
            else with_promoted (<[table := entry st.(promoted_tuple_writers) table ∪ list_to_set writers]>
                   st.(promoted_tuple_writers)) st in
  foldl (promote_reader table writers) st readers.

(** ** The [SsiTracker] methods *)

Definition record_tuple_read (registry : RegistryState) (reader : TxnId) (table : N) (key : Key)
    (st : SsiState) : SsiState :=
  let top := top_of registry reader in
  if negb (bool_decide (is_Some (st.(txns) !! top))) then st
  else
    let writers := entry st.(tuple_writers) (table, key) ∪ entry st.(promoted_tuple_writers) table
                   ∪ entry st.(whole_relation_writers) table in
    let st := form_out_edges top (elements writers) st in
    match st.(txns) !! top with
    | None => st
    | Some txn =>
        if bool_decide (key ∈ entry txn.(tuple_locks) table) then st
        else
          let table_keys := {[key]} ∪ entry txn.(tuple_locks) table in
          if (SSI_TUPLE_LOCK_CAP <? size table_keys)%nat then
            add_relation_lock top table (drop_tuple_locks top table table_keys st)
          else
            let st := on_txn top (fun x => set_locks x.(relation_locks)
                                             (<[table := table_keys]> x.(tuple_locks)) x) st in
            with_tuple_readers (entry_insert (table, key) top st.(tuple_readers)) st
    end.

Definition record_relation_read (registry : RegistryState) (reader : TxnId) (table : N) (st : SsiState)
    : SsiState :=
  let top := top_of registry reader in
  if negb (bool_decide (is_Some (st.(txns) !! top))) then st
  else
    let st := form_out_edges top (elements (entry st.(relation_writers) table)) st in
    add_relation_lock top table st.

(** The write records of [note_write] and [note_relation_write]. *)
Definition add_tuple_write (w : TxnId) (table : N) (key : Key) (st : SsiState) : SsiState :=
  let st := on_txn w (fun x => set_writes ({[table]} ∪ x.(relation_writes)) x.(whole_relation_writes)
                                 (entry_insert table key x.(tuple_writes)) x) st in
  let st := with_relation_writers (entry_insert table w st.(relation_writers)) st in
  with_tuple_writers (entry_insert (table, key) w st.(tuple_writers)) st.
Definition add_relation_write (w : TxnId) (table : N) (st : SsiState) : SsiState :=
  let st := on_txn w (fun x => set_writes ({[table]} ∪ x.(relation_writes))
                                 ({[table]} ∪ x.(whole_relation_writes)) x.(tuple_writes) x) st in
  let st := with_relation_writers (entry_insert table w st.(relation_writers)) st in
  with_whole_relation_writers (entry_insert table w st.(whole_relation_writers)) st.

Definition note_write (registry : RegistryState) (writer : TxnId) (table : N) (key : Key)
    : SE SsiState DbError unit := fun st =>
  let w := top_of registry writer in
  if negb (bool_decide (is_Some (st.(txns) !! w))) then (st, Ok ())
  else
    let readers := elements (entry st.(relation_readers) table) ++ elements (entry st.(tuple_readers) (table, key)) in
    let st := form_in_edges readers w st in
    match st.(txns) !! w with
    | None => (st, Err (db_internal "SSI writer disappeared while recording tuple write"))
    | Some _ =>
        let st := add_tuple_write w table key st in
        if is_doomed_pivot st w then (st, Err serialization_failure) else (st, Ok ())
    end.

Definition table_tuple_readers (table : N) (st : SsiState) : gset TxnId :=
  map_fold (fun (k : N * Key) (readers : gset TxnId) acc => if k.1 =? table then readers ∪ acc else acc) ∅
    st.(tuple_readers).

Definition note_relation_write (registry : RegistryState) (writer : TxnId) (table : N)
    : SE SsiState DbError unit := fun st =>
  let w := top_of registry writer in
  if negb (bool_decide (is_Some (st.(txns) !! w))) then (st, Ok ())
  else
    let readers := elements (entry st.(relation_readers) table ∪ table_tuple_readers table st) in
    let st := form_in_edges readers w st in
    match st.(txns) !! w with
    | None => (st, Err (db_internal "SSI writer disappeared while recording relation write"))
    | Some _ =>
        let st := add_relation_write w table st in
        if is_doomed_pivot st w then (st, Err serialization_failure) else (st, Ok ())
    end.

(** ** What a state records of its transactions *)

Definition has (st : SsiState) (t : TxnId) (P : TxnSsi -> Prop) : Prop :=
  exists x, st.(txns) !! t = Some x /\ P x.
Definition tracked (st : SsiState) (t : TxnId) : Prop := has st t (fun _ => True).
Definition rlock st t table := has st t (fun x => table ∈ x.(relation_locks)).
Definition tlock st t table k := has st t (fun x => k ∈ entry x.(tuple_locks) table).
Definition rwrite st t table := has st t (fun x => table ∈ x.(relation_writes)).
Definition wwrite st t table := has st t (fun x => table ∈ x.(whole_relation_writes)).
Definition twrite st t table k := has st t (fun x => k ∈ entry x.(tuple_writes) table).
Definition promoted st t table : Prop := t ∈ entry st.(promoted_tuple_writers) table.
Definition eout st r w := has st r (fun x => w ∈ x.(out_edges)).
Definition ein st w r := has st w (fun x => r ∈ x.(in_edges)).
Definition conc st r w := has st r (fun x => concurrent x.(snapshot) w = true).

(** [form_rw_edge] adds an edge. *)
Definition fires st r w : Prop := r <> w /\ tracked st w /\ conc st r w.

Lemma has_weaken st t (P Q : TxnSsi -> Prop) : (forall x, P x -> Q x) -> has st t P -> has st t Q.
Proof. intros HPQ (x & E & Hx). exists x. auto. Qed.
Lemma has_tracked st t P : has st t P -> tracked st t.
Proof. by apply has_weaken. Qed.
Lemma tracked_lookup st t : bool_decide (is_Some (st.(txns) !! t)) = true <-> tracked st t.
Proof. rewrite bool_decide_eq_true. unfold tracked, has. split; [intros [x Hx]; eauto|intros (x & Hx & _); eauto]. Qed.

(** Updates of one transaction. *)
Lemma has_on_txn t f st r P :
  has (on_txn t f st) r P <-> (r <> t /\ has st r P) \/ (r = t /\ has st t (fun x => P (f x))).
Proof.
  unfold has, on_txn. cbn. destruct (decide (r = t)) as [->|Hne].
  - setoid_rewrite lookup_alter_eq. setoid_rewrite fmap_Some. split.
    + intros (x & (y & -> & ->) & HP). right. eauto.
    + intros [[? _]|[_ (x & -> & HP)]]; [done|]. exists (f x). eauto.
  - rewrite lookup_alter_ne by done. naive_solver.
Qed.
Lemma has_on_txn_same t f st r (P : TxnSsi -> Prop) :
  (forall x, P (f x) <-> P x) -> has (on_txn t f st) r P <-> has st r P.
Proof.
  intros Hf. rewrite has_on_txn. destruct (decide (r = t)) as [->|Hne]; [|naive_solver].
  split; [intros [[? _]|[_ Hh]]; [done|]|intros Hh; right; split; [done|]];
    (eapply has_weaken; [|exact Hh]; intros x; apply Hf).
Qed.

(** States with the same locks and writes: all but edges and outcomes. *)
Definition core (x : TxnSsi) :=
  (x.(snapshot), x.(relation_locks), x.(tuple_locks), x.(relation_writes), x.(whole_relation_writes), x.(tuple_writes)).
Definition indexes (st : SsiState) :=
  (st.(relation_readers), st.(tuple_readers), st.(relation_writers), st.(whole_relation_writers),
   st.(tuple_writers), st.(promoted_tuple_writers)).
Definition same_locks (st st' : SsiState) : Prop :=
  indexes st = indexes st' /\ forall t, core <$> st.(txns) !! t = core <$> st'.(txns) !! t.

#[local] Instance same_locks_equiv : Equivalence same_locks.
Proof.
  split; [by intros ?|by intros ? ? []|]. intros st1 st2 st3 [I1 H1] [I2 H2].
  split; [congruence|]. intros t. by rewrite H1.
Qed.

Lemma same_locks_has st st' t (P : TxnSsi -> Prop) :
  same_locks st st' -> (forall x y, core x = core y -> P x -> P y) -> has st t P <-> has st' t P.
Proof.
  intros [_ Hs] HP. specialize (Hs t). unfold has.
  destruct (st.(txns) !! t) as [x|], (st'.(txns) !! t) as [y|]; cbn in Hs; try done.
  - apply (inj Some) in Hs. split; intros (z & [= <-] & Hz); eexists; (split; [done|]); eapply HP; eauto.
Qed.

(** A predicate of the fields of [core]. *)
Ltac same_fields := intros x y [= C1 C2 C3 C4 C5 C6]; by rewrite ?C1, ?C2, ?C3, ?C4, ?C5, ?C6.
Ltac same_core := apply same_locks_has; [done|]; same_fields.

Section SameLocks.
Context {st st' : SsiState} (Hs : same_locks st st').
Lemma same_rlock t tb : rlock st t tb <-> rlock st' t tb.
Proof. same_core. Qed.
Lemma same_tlock t tb k : tlock st t tb k <-> tlock st' t tb k.
Proof. same_core. Qed.
Lemma same_rwrite t tb : rwrite st t tb <-> rwrite st' t tb.
Proof. same_core. Qed.
Lemma same_wwrite t tb : wwrite st t tb <-> wwrite st' t tb.
Proof. same_core. Qed.
Lemma same_twrite t tb k : twrite st t tb k <-> twrite st' t tb k.
Proof. same_core. Qed.
Lemma same_conc t w : conc st t w <-> conc st' t w.
Proof. same_core. Qed.
Lemma same_tracked t : tracked st t <-> tracked st' t.
Proof. by apply same_locks_has. Qed.
Lemma same_promoted t tb : promoted st t tb <-> promoted st' t tb.
Proof. destruct Hs as [Hi _]. injection Hi as _ _ _ _ _ Hi. unfold promoted. by rewrite Hi. Qed.
Lemma same_fires r w : fires st r w <-> fires st' r w.
Proof. unfold fires. by rewrite same_tracked, same_conc. Qed.
End SameLocks.

(** ** The invariant *)

(** The maps of the state index the locks and writes of the transactions. *)
Record idx_ok (st : SsiState) : Prop := {
  i_relation_readers : forall t tb, t ∈ entry st.(relation_readers) tb <-> rlock st t tb;
  i_tuple_readers : forall t tb k, t ∈ entry st.(tuple_readers) (tb, k) <-> tlock st t tb k;
  i_relation_writers : forall t tb, t ∈ entry st.(relation_writers) tb <-> rwrite st t tb;
  i_whole_writers : forall t tb, t ∈ entry st.(whole_relation_writers) tb <-> wwrite st t tb;
  i_tuple_writers : forall t tb k, t ∈ entry st.(tuple_writers) (tb, k) <-> twrite st t tb k;
  i_promoted : forall t tb, promoted st t tb -> rwrite st t tb;
  i_whole : forall t tb, wwrite st t tb -> rwrite st t tb;
  i_tuple : forall t tb k, twrite st t tb k -> rwrite st t tb
}.

(** Edges are recorded at both ends, between distinct tracked transactions of which
    the reader does not see the writer. *)
Record edges_ok (st : SsiState) : Prop := {
  e_sym : forall r w, eout st r w <-> ein st w r;
  e_fires : forall r w, eout st r w -> fires st r w
}.

Record ssi_ok (st : SsiState) : Prop := {
  s_idx : idx_ok st;
  s_edges : edges_ok st
}.

Lemma same_locks_idx_ok st st' : same_locks st st' -> idx_ok st -> idx_ok st'.
Proof.
  intros Hs [H1 H2 H3 H4 H5 H6 H7 H8]. pose proof Hs as [[= I1 I2 I3 I4 I5 _] _].
  split; intros.
  - rewrite <- (same_rlock Hs), <- H1. by rewrite I1.
  - rewrite <- (same_tlock Hs), <- H2. by rewrite I2.
  - rewrite <- (same_rwrite Hs), <- H3. by rewrite I3.
  - rewrite <- (same_wwrite Hs), <- H4. by rewrite I4.
  - rewrite <- (same_twrite Hs), <- H5. by rewrite I5.
  - rewrite <- (same_rwrite Hs). rewrite <- (same_promoted Hs) in *. auto.
  - rewrite <- (same_rwrite Hs). rewrite <- (same_wwrite Hs) in *. auto.
  - rewrite <- (same_rwrite Hs). rewrite <- (same_twrite Hs) in *. eauto.
Qed.

(** ** Lemmas: edges *)

Lemma same_locks_on_txn t f st : (forall x, core (f x) = core x) -> same_locks st (on_txn t f st).
Proof.
  intros Hf. split; [done|]. intros t'. cbn. destruct (decide (t' = t)) as [->|Hne].
  - rewrite lookup_alter_eq. destruct (st.(txns) !! t); cbn; by rewrite ?Hf.
  - by rewrite lookup_alter_ne.
Qed.

Lemma form_rw_edge_spec r w st :
  same_locks st (form_rw_edge r w st) /\
  (forall r' w', eout (form_rw_edge r w st) r' w' <-> eout st r' w' \/ (r' = r /\ w' = w /\ fires st r w)) /\
  (forall w' r', ein (form_rw_edge r w st) w' r' <-> ein st w' r' \/ (r' = r /\ w' = w /\ fires st r w)).
Proof.
  assert (Hno : ~ fires st r w -> same_locks st st /\
    (forall r' w', eout st r' w' <-> eout st r' w' \/ (r' = r /\ w' = w /\ fires st r w)) /\
    (forall w' r', ein st w' r' <-> ein st w' r' \/ (r' = r /\ w' = w /\ fires st r w))).
  { intros Hn. split; [reflexivity|]. split; intros; naive_solver. }
  unfold form_rw_edge. destruct (N.eqb_spec r w) as [->|Hne]; cbn [orb]; [apply Hno; by intros []|].
  destruct (bool_decide (is_Some (st.(txns) !! w))) eqn:Ew; cbn [negb].
  2:{ apply Hno. intros (_ & Ht & _). apply tracked_lookup in Ht. congruence. }
  apply tracked_lookup in Ew. destruct (st.(txns) !! r) as [rt|] eqn:Er.
  2:{ apply Hno. intros (_ & _ & (x & Ex & _)). congruence. }
  destruct (concurrent rt.(snapshot) w) eqn:Ec; cbn [negb].
  2:{ apply Hno. intros (_ & _ & (x & Ex & Hx)). simplify_eq. congruence. }
  assert (Hf : fires st r w) by (split_and!; [done|done|by exists rt]). clear Hno.
  split; [|split].
  - etrans; [|apply same_locks_on_txn; done]. by apply same_locks_on_txn.
  - intros r' w'. unfold eout. rewrite has_on_txn_same by done. rewrite has_on_txn. cbn.
    destruct (decide (r' = r)) as [->|Hr]; [|naive_solver]. split.
    + intros [[? _]|[_ (x & Ex & Hx)]]; [done|]. apply elem_of_union in Hx as [Hx|Hx].
      * apply elem_of_singleton in Hx as ->. naive_solver.
      * left. by exists x.
    + intros [(x & Ex & Hx)|(_ & -> & _)]; right; (split; [done|]); [exists x|exists rt]; set_solver.
  - intros w' r'. unfold ein. rewrite has_on_txn. cbn.
    rewrite !has_on_txn_same by done. destruct (decide (w' = w)) as [->|Hw]; [|naive_solver]. split.
    + intros [[? _]|[_ Hh]]; [done|]. destruct Hh as (x & Ex & Hx). apply elem_of_union in Hx as [Hx|Hx].
      * apply elem_of_singleton in Hx as ->. naive_solver.
      * left. by exists x.
    + intros [(x & Ex & Hx)|(-> & _ & _)]; right; (split; [done|]); [exists x; set_solver|].
      destruct Ew as (y & Ey & _). exists y. set_solver.
Qed.

Definition form_pairs (pairs : list (TxnId * TxnId)) (st : SsiState) : SsiState :=
  foldl (fun st p => form_rw_edge p.1 p.2 st) st pairs.

Lemma form_out_pairs r ws st : form_out_edges r ws st = form_pairs ((r,.) <$> ws) st.
Proof. unfold form_out_edges, form_pairs. revert st. induction ws; intros st; cbn; auto. Qed.
Lemma form_in_pairs rs w st : form_in_edges rs w st = form_pairs ((., w) <$> rs) st.
Proof. unfold form_in_edges, form_pairs. revert st. induction rs; intros st; cbn; auto. Qed.

Lemma form_pairs_spec pairs : forall st,
  same_locks st (form_pairs pairs st) /\
  (forall r w, eout (form_pairs pairs st) r w <-> eout st r w \/ ((r, w) ∈ pairs /\ fires st r w)) /\
  (forall w r, ein (form_pairs pairs st) w r <-> ein st w r \/ ((r, w) ∈ pairs /\ fires st r w)).
Proof.
  induction pairs as [|[r0 w0] pairs IH]; intros st.
  - split; [reflexivity|]. cbn. split; intros; (split; [by left|]); intros [?|[Hin _]]; [done|by inversion Hin|done|by inversion Hin].
  - destruct (form_rw_edge_spec r0 w0 st) as (S1 & O1 & I1). destruct (IH (form_rw_edge r0 w0 st)) as (S2 & O2 & I2).
    split; [by etrans|]. cbn. split.
    + intros r w. fold (form_pairs pairs (form_rw_edge r0 w0 st)). rewrite O2, O1, <- (same_fires S1), elem_of_cons.
      split; [|intros [?|[[[= -> ->]|?] ?]]; auto]. intros [[?|(-> & -> & ?)]|[? ?]]; auto.
    + intros w r. fold (form_pairs pairs (form_rw_edge r0 w0 st)). rewrite I2, I1, <- (same_fires S1), elem_of_cons.
      split; [|intros [?|[[[= -> ->]|?] ?]]; auto]. intros [[?|(-> & -> & ?)]|[? ?]]; auto.
Qed.

Lemma form_pairs_ok pairs st : ssi_ok st -> ssi_ok (form_pairs pairs st).
Proof.
  intros [Hi [E1 E2]]. destruct (form_pairs_spec pairs st) as (S & O & I). split.
  - by eapply same_locks_idx_ok.
  - split.
    + intros r w. by rewrite O, I, E1.
    + intros r w. rewrite O, <- (same_fires S). intros [?|[_ ?]]; auto.
Qed.

(** Changing only the outcome of a transaction. *)
Lemma outcome_ok t f st :
  (forall x, core (f x) = core x) -> (forall x, (f x).(out_edges) = x.(out_edges)) ->
  (forall x, (f x).(in_edges) = x.(in_edges)) -> ssi_ok st -> ssi_ok (on_txn t f st).
Proof.
  intros Hc Ho Hin [Hi [E1 E2]]. pose proof (same_locks_on_txn t f st Hc) as S.
  assert (O : forall r w, eout (on_txn t f st) r w <-> eout st r w)
    by (intros r w; apply has_on_txn_same; intros x; by rewrite Ho).
  assert (I : forall r w, ein (on_txn t f st) r w <-> ein st r w)
    by (intros r w; apply has_on_txn_same; intros x; by rewrite Hin).
  split; [by eapply same_locks_idx_ok|].
  split; intros r w; rewrite ?O, ?I; [done|]. rewrite <- (same_fires S). auto.
Qed.

(** ** Lemmas: locks and writes *)

(** States whose edges and snapshots agree. *)
Definition same_edges (st st' : SsiState) : Prop :=
  forall t, (fun x => (x.(snapshot), x.(out_edges), x.(in_edges))) <$> st.(txns) !! t =
            (fun x => (x.(snapshot), x.(out_edges), x.(in_edges))) <$> st'.(txns) !! t.

Lemma same_edges_has st st' t (P : TxnSsi -> Prop) :
  same_edges st st' ->
  (forall x y, x.(snapshot) = y.(snapshot) -> x.(out_edges) = y.(out_edges) -> x.(in_edges) = y.(in_edges) ->
     P x -> P y) -> has st t P <-> has st' t P.
Proof.
  intros Hs HP. specialize (Hs t). unfold has.
  destruct (st.(txns) !! t) as [x|], (st'.(txns) !! t) as [y|]; cbn in Hs; try done.
  injection Hs as H1 H2 H3. split; intros (z & [= <-] & Hz); eexists; (split; [done|]); eapply HP; eauto.
Qed.

Section SameEdges.
Context {st st' : SsiState} (Hs : same_edges st st').
Lemma edges_eout r w : eout st r w <-> eout st' r w.
Proof. apply same_edges_has; [done|]. intros x y _ E _. by rewrite E. Qed.
Lemma edges_ein r w : ein st r w <-> ein st' r w.
Proof. apply same_edges_has; [done|]. intros x y _ _ E. by rewrite E. Qed.
Lemma edges_fires r w : fires st r w <-> fires st' r w.
Proof.
  unfold fires, tracked, conc.
  by rewrite (same_edges_has st st' w _ Hs), (same_edges_has st st' r _ Hs) by (intros x y E _ _; by rewrite ?E).
Qed.
Lemma edges_edges_ok : edges_ok st -> edges_ok st'.
Proof.
  intros [E1 E2]. split; intros r w; rewrite <- edges_eout, <- ?edges_ein, <- ?edges_fires; auto.
Qed.
End SameEdges.

Lemma same_edges_on_txn t f st :
  (forall x, ((f x).(snapshot), (f x).(out_edges), (f x).(in_edges)) = (x.(snapshot), x.(out_edges), x.(in_edges))) ->
  same_edges st (on_txn t f st).
Proof.
  intros Hf t'. cbn. destruct (decide (t' = t)) as [->|Hne].
  - rewrite lookup_alter_eq. destruct (st.(txns) !! t); cbn; by rewrite ?Hf.
  - by rewrite lookup_alter_ne.
Qed.

(** Unfolds what a state records down to its fields, after updates of one transaction. *)
Ltac records :=
  unfold promoted, rlock, tlock, rwrite, wwrite, twrite in *;
  repeat match goal with
  | |- context [has (with_relation_readers ?m ?s)] => change (has (with_relation_readers m s)) with (has s)
  | |- context [has (with_tuple_readers ?m ?s)] => change (has (with_tuple_readers m s)) with (has s)
  | |- context [has (with_relation_writers ?m ?s)] => change (has (with_relation_writers m s)) with (has s)
  | |- context [has (with_whole_relation_writers ?m ?s)] => change (has (with_whole_relation_writers m s)) with (has s)
  | |- context [has (with_tuple_writers ?m ?s)] => change (has (with_tuple_writers m s)) with (has s)
  | |- context [has (with_promoted ?m ?s)] => change (has (with_promoted m s)) with (has s)
  end.

(** Taking a relation lock. *)
Lemma add_relation_lock_spec top table st :
  idx_ok st ->
  let st' := add_relation_lock top table st in
  idx_ok st' /\ same_edges st st' /\
  (forall t tb, rlock st' t tb <-> rlock st t tb \/ (t = top /\ tb = table /\ tracked st top)) /\
  (forall t tb k, tlock st' t tb k <-> tlock st t tb k) /\ (forall t tb, rwrite st' t tb <-> rwrite st t tb) /\
  (forall t tb, wwrite st' t tb <-> wwrite st t tb) /\ (forall t tb k, twrite st' t tb k <-> twrite st t tb k) /\
  st'.(promoted_tuple_writers) = st.(promoted_tuple_writers) /\ st'.(relation_writers) = st.(relation_writers).
Proof.
  intros Hi st'. subst st'. unfold add_relation_lock. destruct (st.(txns) !! top) as [txn|] eqn:E.
  2:{ split; [done|]. split; [by intros t|]. split_and!; try done. intros t tb. split; [by left|].
      intros [?|(_ & _ & x & Ex & _)]; [done|congruence]. }
  assert (Htop : tracked st top) by (by exists txn).
  case_bool_decide as Hin.
  { split; [done|]. split; [by intros t|]. split_and!; try done. intros t tb. split; [by left|].
    intros [?|(-> & -> & _)]; [done|]. by exists txn. }
  set (f := fun x => set_locks ({[table]} ∪ relation_locks x) (tuple_locks x) x).
  assert (HR : forall t tb, has (on_txn top f st) t (fun x => tb ∈ relation_locks x) <->
    rlock st t tb \/ (t = top /\ tb = table /\ tracked st top)).
  { intros t tb. rewrite has_on_txn. unfold rlock. split.
    - intros [[_ ?]|[-> (x & Ex & Hx)]]; [by left|]. cbn in Hx. apply elem_of_union in Hx as [Hx%elem_of_singleton|Hx];
        [by right|left; by exists x].
    - destruct (decide (t = top)) as [->|Hne]; [|intros [?|[? _]]; [by left|done]].
      intros [(x & Ex & Hx)|(_ & -> & _)]; right; (split; [done|]); [exists x|exists txn]; cbn; set_solver. }
  destruct Hi as [H1 H2 H3 H4 H5 H6 H7 H8].
  split; [|split; [intros t; by apply (same_edges_on_txn top f st)|split; [exact HR|]]].
  - split; intros *; records; cbn [relation_readers tuple_readers relation_writers whole_relation_writers tuple_writers
      promoted_tuple_writers with_relation_readers on_txn with_txns]; rewrite ?HR, ?has_on_txn_same by done; auto.
    + rewrite elem_of_entry_insert, H1. naive_solver.
    + apply H8.
  - split_and!; try done; intros; records; by apply has_on_txn_same.
Qed.

Lemma add_relation_lock_ok top table st : ssi_ok st -> ssi_ok (add_relation_lock top table st).
Proof.
  intros [Hi He]. destruct (add_relation_lock_spec top table st Hi) as (Hi' & Hs & _).
  split; [done|by eapply edges_edges_ok].
Qed.

(** Giving up the tuple locks of a table. *)
Lemma drop_tuple_locks_spec reader table (keys : gset Key) st :
  idx_ok st -> (forall k, tlock st reader table k -> k ∈ keys) ->
  let st' := drop_tuple_locks reader table keys st in
  idx_ok st' /\ same_edges st st' /\
  (forall t tb k, tlock st' t tb k <-> tlock st t tb k /\ ~ (t = reader /\ tb = table)) /\
  (forall t tb, rlock st' t tb <-> rlock st t tb) /\ (forall t tb, rwrite st' t tb <-> rwrite st t tb) /\
  (forall t tb, wwrite st' t tb <-> wwrite st t tb) /\ (forall t tb k, twrite st' t tb k <-> twrite st t tb k) /\
  st'.(promoted_tuple_writers) = st.(promoted_tuple_writers) /\ st'.(relation_writers) = st.(relation_writers).
Proof.
  intros Hi Hkeys st'. subst st'. unfold drop_tuple_locks.
  set (f := fun x => set_locks (relation_locks x) (delete table (tuple_locks x)) x).
  assert (HT : forall t tb k, has (on_txn reader f st) t (fun x => k ∈ entry (tuple_locks x) tb) <->
    tlock st t tb k /\ ~ (t = reader /\ tb = table)).
  { intros t tb k. rewrite has_on_txn. unfold tlock. destruct (decide (t = reader)) as [->|Hne]; [|naive_solver]. split.
    - intros [[? _]|[_ (x & Ex & Hx)]]; [done|]. cbn in Hx. unfold entry in Hx. rewrite lookup_delete in Hx.
      case_decide; [set_solver|]. split; [by exists x|naive_solver].
    - intros [(x & Ex & Hx) Hn]. right. split; [done|]. exists x. split; [done|]. cbn. unfold entry.
      rewrite lookup_delete_ne by naive_solver. done. }
  destruct Hi as [H1 H2 H3 H4 H5 H6 H7 H8].
  split; [|split; [intros t; by apply (same_edges_on_txn reader f st)|split; [exact HT|]]].
  - split; intros *; records; cbn [relation_readers tuple_readers relation_writers whole_relation_writers tuple_writers
      promoted_tuple_writers with_tuple_readers on_txn with_txns]; rewrite ?HT, ?has_on_txn_same by done; auto.
    + rewrite (elem_of_remove_readers (table,.)), H2. split; intros [Ht Hn]; (split; [done|]);
        [|intros [-> Hin]; apply list_elem_of_fmap in Hin as (k' & [= -> _] & _); by apply Hn].
      intros [-> ->]. apply Hn. split; [done|]. apply list_elem_of_fmap. exists k. split; [done|].
      by apply elem_of_elements, Hkeys.
    + apply H8.
  - split_and!; try done; intros; records; by apply has_on_txn_same.
Qed.

Lemma drop_tuple_locks_ok reader table (keys : gset Key) st :
  ssi_ok st -> (forall k, tlock st reader table k -> k ∈ keys) -> ssi_ok (drop_tuple_locks reader table keys st).
Proof.
  intros [Hi He] Hk. destruct (drop_tuple_locks_spec reader table keys st Hi Hk) as (Hi' & Hs & _).
  split; [done|by eapply edges_edges_ok].
Qed.

(** Taking a tuple lock. *)
Definition add_tuple_lock (top : TxnId) (table : N) (key : Key) (keys : gset Key) (st : SsiState) : SsiState :=
  let st := on_txn top (fun x => set_locks x.(relation_locks) (<[table := keys]> x.(tuple_locks)) x) st in
  with_tuple_readers (entry_insert (table, key) top st.(tuple_readers)) st.

Lemma add_tuple_lock_ok top table key txn st :
  st.(txns) !! top = Some txn -> ssi_ok st ->
  let st' := add_tuple_lock top table key ({[key]} ∪ entry txn.(tuple_locks) table) st in
  ssi_ok st' /\ same_edges st st' /\ (forall t tb, rlock st' t tb <-> rlock st t tb) /\
  (forall t tb k, tlock st' t tb k <-> tlock st t tb k \/ (t = top /\ tb = table /\ k = key)) /\
  (forall t tb, wwrite st' t tb <-> wwrite st t tb) /\ (forall t tb k, twrite st' t tb k <-> twrite st t tb k) /\
  st'.(promoted_tuple_writers) = st.(promoted_tuple_writers).
Proof.
  intros E [[H1 H2 H3 H4 H5 H6 H7 H8] He] st'. subst st'. unfold add_tuple_lock.
  set (f := fun x => set_locks (relation_locks x) (<[table:={[key]} ∪ entry (tuple_locks txn) table]> (tuple_locks x)) x).
  assert (HT : forall t tb k, has (on_txn top f st) t (fun x => k ∈ entry (tuple_locks x) tb) <->
    tlock st t tb k \/ (t = top /\ tb = table /\ k = key)).
  { intros t tb k. rewrite has_on_txn. unfold tlock. destruct (decide (t = top)) as [->|Hne]; [|naive_solver]. split.
    - intros [[? _]|[_ (x & Ex & Hx)]]; [done|]. simplify_eq. cbn in Hx. unfold entry in Hx at 1.
      rewrite lookup_insert in Hx. case_decide as Htb; [|left; by exists txn]. subst tb. cbn in Hx.
      apply elem_of_union in Hx as [Hx%elem_of_singleton|Hx]; [by right|left; by exists txn].
    - intros Hx. right. split; [done|]. exists txn. split; [done|]. cbn. unfold entry at 1. rewrite lookup_insert.
      destruct Hx as [(x & Ex & Hx)|(_ & -> & ->)]; simplify_eq; case_decide; subst; cbn; [set_solver|done|set_solver|done]. }
  assert (Hs : same_edges st (on_txn top f st)) by (by apply same_edges_on_txn).
  split; [split; [|refine (edges_edges_ok (st := st) _ He); exact Hs]|split; [exact Hs|]; split_and!; try done; intros; records; by apply has_on_txn_same].
  - split; intros *; records; cbn [relation_readers tuple_readers relation_writers whole_relation_writers tuple_writers
      promoted_tuple_writers with_tuple_readers on_txn with_txns]; rewrite ?HT, ?has_on_txn_same by done; auto.
    + rewrite elem_of_entry_insert, H2. naive_solver.
    + apply H8.
Qed.

(** Recording a write. *)
Lemma add_tuple_write_ok w table key st :
  tracked st w -> ssi_ok st ->
  let st' := add_tuple_write w table key st in
  ssi_ok st' /\ same_edges st st' /\ (forall t tb, rlock st' t tb <-> rlock st t tb) /\ (forall t tb k, tlock st' t tb k <-> tlock st t tb k) /\
  (forall t tb, wwrite st' t tb <-> wwrite st t tb) /\
  (forall t tb k, twrite st' t tb k <-> twrite st t tb k \/ (t = w /\ tb = table /\ k = key)) /\
  st'.(promoted_tuple_writers) = st.(promoted_tuple_writers).
Proof.
  intros (txn & E & _) [[H1 H2 H3 H4 H5 H6 H7 H8] He] st'. subst st'. unfold add_tuple_write.
  set (f := fun x => set_writes _ _ _ x).
  assert (HR : forall t tb, has (on_txn w f st) t (fun x => tb ∈ relation_writes x) <->
    rwrite st t tb \/ (t = w /\ tb = table)).
  { intros t tb. rewrite has_on_txn. unfold rwrite. destruct (decide (t = w)) as [->|Hne]; [|naive_solver]. split.
    - intros [[? _]|[_ (x & Ex & Hx)]]; [done|]. cbn in Hx.
      apply elem_of_union in Hx as [Hx%elem_of_singleton|Hx]; [by right|left; by exists x].
    - intros [(x & Ex & Hx)|(_ & ->)]; right; (split; [done|]); [exists x|exists txn]; cbn; set_solver. }
  assert (HT : forall t tb k, has (on_txn w f st) t (fun x => k ∈ entry (tuple_writes x) tb) <->
    twrite st t tb k \/ (t = w /\ tb = table /\ k = key)).
  { intros t tb k. rewrite has_on_txn. unfold twrite. destruct (decide (t = w)) as [->|Hne]; [|naive_solver]. split.
    - intros [[? _]|[_ (x & Ex & Hx)]]; [done|]. cbn in Hx. apply elem_of_entry_insert in Hx as [[-> ->]|Hx];
        [by right|left; by exists x].
    - intros [(x & Ex & Hx)|(_ & -> & ->)]; right; (split; [done|]); [exists x|exists txn];
        (split; [done|]); cbn; apply elem_of_entry_insert; auto. }
  assert (Hs : same_edges st (on_txn w f st)) by (by apply same_edges_on_txn).
  split; [split; [|refine (edges_edges_ok (st := st) _ He); exact Hs]|split; [exact Hs|]; split_and!; try done; intros; records; by apply has_on_txn_same].
  - split; intros *; records; cbn [relation_readers tuple_readers relation_writers whole_relation_writers tuple_writers
      promoted_tuple_writers with_relation_writers with_tuple_writers on_txn with_txns];
      rewrite ?HR, ?HT, ?has_on_txn_same by done; auto.
    + rewrite elem_of_entry_insert, H3. naive_solver.
    + rewrite elem_of_entry_insert, H5. naive_solver.
    + intros [?|(-> & -> & ->)]; [left; by eapply H8|by right].
Qed.

Lemma add_relation_write_ok w table st :
  tracked st w -> ssi_ok st ->
  let st' := add_relation_write w table st in
  ssi_ok st' /\ same_edges st st' /\ (forall t tb, rlock st' t tb <-> rlock st t tb) /\ (forall t tb k, tlock st' t tb k <-> tlock st t tb k) /\
  (forall t tb, wwrite st' t tb <-> wwrite st t tb \/ (t = w /\ tb = table)) /\
  (forall t tb k, twrite st' t tb k <-> twrite st t tb k) /\
  st'.(promoted_tuple_writers) = st.(promoted_tuple_writers).
Proof.
  intros (txn & E & _) [[H1 H2 H3 H4 H5 H6 H7 H8] He] st'. subst st'. unfold add_relation_write.
  set (f := fun x => set_writes _ _ _ x).
  assert (HR : forall t tb, has (on_txn w f st) t (fun x => tb ∈ relation_writes x) <->
    rwrite st t tb \/ (t = w /\ tb = table)).
  { intros t tb. rewrite has_on_txn. unfold rwrite. destruct (decide (t = w)) as [->|Hne]; [|naive_solver]. split.
    - intros [[? _]|[_ (x & Ex & Hx)]]; [done|]. cbn in Hx.
      apply elem_of_union in Hx as [Hx%elem_of_singleton|Hx]; [by right|left; by exists x].
    - intros [(x & Ex & Hx)|(_ & ->)]; right; (split; [done|]); [exists x|exists txn]; cbn; set_solver. }
  assert (HW : forall t tb, has (on_txn w f st) t (fun x => tb ∈ whole_relation_writes x) <->
    wwrite st t tb \/ (t = w /\ tb = table)).
  { intros t tb. rewrite has_on_txn. unfold wwrite. destruct (decide (t = w)) as [->|Hne]; [|naive_solver]. split.
    - intros [[? _]|[_ (x & Ex & Hx)]]; [done|]. cbn in Hx.
      apply elem_of_union in Hx as [Hx%elem_of_singleton|Hx]; [by right|left; by exists x].
    - intros [(x & Ex & Hx)|(_ & ->)]; right; (split; [done|]); [exists x|exists txn]; cbn; set_solver. }
  assert (Hs : same_edges st (on_txn w f st)) by (by apply same_edges_on_txn).
  split; [split; [|refine (edges_edges_ok (st := st) _ He); exact Hs]|split; [exact Hs|]; split_and!; try done; intros; records; by apply has_on_txn_same].
  - split; intros *; records; cbn [relation_readers tuple_readers relation_writers whole_relation_writers tuple_writers
      promoted_tuple_writers with_relation_writers with_whole_relation_writers on_txn with_txns];
      rewrite ?HR, ?HW, ?has_on_txn_same by done; auto.
    + rewrite elem_of_entry_insert, H3. naive_solver.
    + rewrite elem_of_entry_insert, H4. naive_solver.
    + intros [?|?]; auto.
    + intros ?. left. by eapply H8.
Qed.

(** ** Lemmas: begin and end of a transaction *)

Lemma ssi_register_ok registry t s st : ssi_ok st -> ssi_ok (ssi_register registry t s st).
Proof.
  intros Hok. unfold ssi_register. set (top := top_of registry t).
  destruct (st.(txns) !! top) eqn:E; [done|]. set (st' := with_txns _ st).
  assert (Hhas : forall r (P : TxnSsi -> Prop), has st' r P <-> (r = top /\ P (fresh_txn s)) \/ has st r P).
  { intros r P. unfold has, st'. cbn. rewrite lookup_insert. case_decide as Hr; [|naive_solver].
    subst r. rewrite E. naive_solver. }
  assert (Hnew : forall r (P : TxnSsi -> Prop), ~ P (fresh_txn s) -> has st' r P <-> has st r P).
  { intros r P HP. rewrite Hhas. naive_solver. }
  destruct Hok as [[H1 H2 H3 H4 H5 H6 H7 H8] [E1 E2]].
  assert (Hrl : forall r tb, rlock st' r tb <-> rlock st r tb) by (intros; apply Hnew; set_solver).
  assert (Htl : forall r tb k, tlock st' r tb k <-> tlock st r tb k)
    by (intros; apply Hnew; unfold entry; cbn; rewrite lookup_empty; set_solver).
  assert (Hrw : forall r tb, rwrite st' r tb <-> rwrite st r tb) by (intros; apply Hnew; set_solver).
  assert (Hww : forall r tb, wwrite st' r tb <-> wwrite st r tb) by (intros; apply Hnew; set_solver).
  assert (Htw : forall r tb k, twrite st' r tb k <-> twrite st r tb k)
    by (intros; apply Hnew; unfold entry; cbn; rewrite lookup_empty; set_solver).
  assert (Ho : forall r w, eout st' r w <-> eout st r w) by (intros; apply Hnew; set_solver).
  assert (Hi : forall r w, ein st' r w <-> ein st r w) by (intros; apply Hnew; set_solver).
  assert (Hnt : forall P, ~ has st top P) by (intros P (x & Ex & _); congruence).
  split; split; intros *; rewrite ?Hrl, ?Htl, ?Hrw, ?Hww, ?Htw, ?Ho, ?Hi; auto.
  - apply H8.
  - intros He. destruct (E2 r w He) as (Hne & Hw & Hc). split; [done|].
    split; apply Hhas; right; [by eapply has_tracked|done].
Qed.

Lemma foldl_on_txn (f : TxnSsi -> TxnSsi) l : forall st, NoDup l ->
  indexes (foldl (fun st t => on_txn t f st) st l) = indexes st /\
  forall t, (foldl (fun st t => on_txn t f st) st l).(txns) !! t =
    if decide (t ∈ l) then f <$> st.(txns) !! t else st.(txns) !! t.
Proof.
  induction l as [|t0 l IH]; intros st Hnd; cbn [foldl].
  { split; [done|]. intros t. rewrite decide_False; [done|]. by intros Hin; inversion Hin. }
  apply NoDup_cons in Hnd as [Ht0 Hnd]. destruct (IH (on_txn t0 f st) Hnd) as [I1 I2]. split; [done|].
  intros t. rewrite I2. cbn. rewrite lookup_alter. destruct (decide (t = t0)) as [->|Hne].
  - rewrite (decide_False (P := t0 ∈ l)), (decide_True (P := t0 = t0)) by done.
    by rewrite decide_True by constructor.
  - rewrite (decide_False (P := t0 = t)) by done. destruct (decide (t ∈ l)) as [Hin|Hin].
    + rewrite decide_True by (by constructor). done.
    + rewrite decide_False; [done|]. rewrite elem_of_cons. naive_solver.
Qed.

Lemma elem_of_flat_keys (m : gmap N (gset Key)) tb k : (tb, k) ∈ flat_keys m <-> k ∈ entry m tb.
Proof.
  unfold flat_keys. rewrite list_elem_of_bind. split.
  - intros ([tb' keys] & Hin & Hm). apply elem_of_map_to_list in Hm. apply list_elem_of_fmap in Hin as (k' & [= <- <-] & Hk).
    unfold entry. rewrite Hm. by apply elem_of_elements.
  - intros Hk. unfold entry in Hk. destruct (m !! tb) as [keys|] eqn:E; [|cbn in Hk; set_solver].
    exists (tb, keys). split; [|by apply elem_of_map_to_list]. apply list_elem_of_fmap. exists k.
    split; [done|]. by apply elem_of_elements.
Qed.

(** The parts of [purge]. *)
Lemma purge_spec top txn st :
  let st' := purge top txn st in
  st'.(relation_readers) = foldl (fun m k => remove_reader k top m) st.(relation_readers) (elements txn.(relation_locks)) /\
  st'.(tuple_readers) = foldl (fun m k => remove_reader k top m) st.(tuple_readers) (flat_keys txn.(tuple_locks)) /\
  st'.(relation_writers) = foldl (fun m k => remove_reader k top m) st.(relation_writers) (elements txn.(relation_writes)) /\
  st'.(whole_relation_writers) = foldl (fun m k => remove_reader k top m) st.(whole_relation_writers)
    (elements txn.(whole_relation_writes)) /\
  st'.(tuple_writers) = foldl (fun m k => remove_reader k top m) st.(tuple_writers) (flat_keys txn.(tuple_writes)) /\
  (forall t tb, promoted st' t tb <-> promoted st t tb /\ t <> top) /\
  (forall t, st'.(txns) !! t =
    (fun x => set_edges (if decide (t ∈ txn.(in_edges)) then x.(out_edges) ∖ {[top]} else x.(out_edges))
                (if decide (t ∈ txn.(out_edges)) then x.(in_edges) ∖ {[top]} else x.(in_edges)) x) <$> st.(txns) !! t).
Proof.
  unfold purge. cbv zeta.
  match goal with |- context [foldl _ (foldl _ ?s (elements (out_edges txn))) _] => set (s0 := s) end.
  set (fi := fun x => set_edges (out_edges x) (in_edges x ∖ {[top]}) x).
  set (fo := fun x => set_edges (out_edges x ∖ {[top]}) (in_edges x) x).
  destruct (foldl_on_txn fi (elements (out_edges txn)) s0 (NoDup_elements _)) as [I1 L1].
  set (s1 := foldl (fun st t => on_txn t fi st) s0 (elements (out_edges txn))) in *.
  destruct (foldl_on_txn fo (elements (in_edges txn)) s1 (NoDup_elements _)) as [I2 L2].
  set (s2 := foldl (fun st t => on_txn t fo st) s1 (elements (in_edges txn))) in *.
  rewrite I1 in I2. clear I1. injection I2 as J1 J2 J3 J4 J5 J6. split_and!; try done.
  - intros t tb. unfold promoted, entry. rewrite J6, lookup_omap.
    destruct (promoted_tuple_writers st !! tb) as [ws|]; cbn; [|set_solver].
    case_bool_decide as Ew; cbn; [|set_solver]. split; [set_solver|]. intros [Hin Hne].
    assert (Ht : t ∈ ws ∖ {[top]}) by set_solver. rewrite Ew in Ht. done.
  - intros t. rewrite L2, L1. change (txns s0) with (txns st). destruct (st.(txns) !! t) as [x|]; cbn.
    + destruct (decide (t ∈ elements (in_edges txn))) as [D1|D1], (decide (t ∈ elements (out_edges txn))) as [D2|D2];
        rewrite elem_of_elements in D1, D2; cbn; repeat case_decide; try done; by destruct x.
    + by repeat case_decide.
Qed.

(** Removing [top] from an index that agrees with its locks or writes. *)
Lemma entry_drop_top {K} `{Countable K} (m : gmap K (gset TxnId)) top (ks : list K) t k :
  (top ∈ entry m k -> k ∈ ks) ->
  t ∈ entry (foldl (fun m k => remove_reader k top m) m ks) k <-> t ∈ entry m k /\ t <> top.
Proof.
  intros Hk. rewrite (elem_of_remove_readers (fun k => k)), list_fmap_id.
  split; intros [Hin Hn]; (split; [done|]); [intros ->; apply Hn; auto|by intros [? _]].
Qed.

(** What is left of the state when [top] is removed from it. *)
Definition without (top : TxnId) (st st' : SsiState) : Prop :=
  (forall t (P : TxnSsi -> Prop), (forall x y, core x = core y -> P x -> P y) ->
     has st' t P <-> has st t P /\ t <> top) /\
  (forall r w, eout st' r w <-> eout st r w /\ r <> top /\ w <> top) /\
  (forall w r, ein st' w r <-> ein st w r /\ r <> top /\ w <> top) /\
  (forall t tb, t ∈ entry st'.(relation_readers) tb <-> t ∈ entry st.(relation_readers) tb /\ t <> top) /\
  (forall t p, t ∈ entry st'.(tuple_readers) p <-> t ∈ entry st.(tuple_readers) p /\ t <> top) /\
  (forall t tb, t ∈ entry st'.(relation_writers) tb <-> t ∈ entry st.(relation_writers) tb /\ t <> top) /\
  (forall t tb, t ∈ entry st'.(whole_relation_writers) tb <-> t ∈ entry st.(whole_relation_writers) tb /\ t <> top) /\
  (forall t p, t ∈ entry st'.(tuple_writers) p <-> t ∈ entry st.(tuple_writers) p /\ t <> top) /\
  (forall t tb, promoted st' t tb <-> promoted st t tb /\ t <> top).

Lemma without_untracked top st : ssi_ok st -> st.(txns) !! top = None -> without top st st.
Proof.
  intros [[H1 H2 H3 H4 H5 H6 H7 H8] [E1 E2]] Etop.
  assert (Hnt : forall P, ~ has st top P) by (intros P (x & Ex & _); congruence).
  assert (Heq : forall (A : Prop) t, (A -> exists P, has st t P) -> A <-> A /\ t <> top).
  { intros A t Ht. split; [|by intros []]. intros HA. split; [done|]. intros ->.
    destruct (Ht HA) as [P HP]. by apply (Hnt P). }
  assert (Heq2 : forall r w, eout st r w -> r <> top /\ w <> top).
  { intros r w He. split; [intros ->; by apply Hnt in He|]. intros ->. destruct (E2 _ _ He) as (_ & Hw & _). by apply Hnt in Hw. }
  split_and!.
  - intros t P _. apply Heq. eauto.
  - intros r w. split; [intros He; split; [done|by apply Heq2]|by intros []].
  - intros w r. rewrite <- E1. split; [intros He; split; [done|by apply Heq2]|by intros []].
  - intros t tb. apply Heq. rewrite H1. unfold rlock. eauto.
  - intros t [tb k]. apply Heq. rewrite H2. unfold tlock. eauto.
  - intros t tb. apply Heq. rewrite H3. unfold rwrite. eauto.
  - intros t tb. apply Heq. rewrite H4. unfold wwrite. eauto.
  - intros t [tb k]. apply Heq. rewrite H5. unfold twrite. eauto.
  - intros t tb. apply Heq. intros Hp. apply H6 in Hp. unfold rwrite in Hp. eauto.
Qed.

Lemma aborted_spec top st : ssi_ok st -> without top st (aborted top st).
Proof.
  intros Hok. unfold aborted. destruct (st.(txns) !! top) as [txn|] eqn:Etop; [|by apply without_untracked].
  destruct Hok as [[H1 H2 H3 H4 H5 H6 H7 H8] [E1 E2]].
  destruct (purge_spec top txn (with_txns (delete top st.(txns)) st)) as (J1 & J2 & J3 & J4 & J5 & J6 & L).
  set (s2 := purge _ _ _) in *. cbn in L.
  assert (Hown : forall (P : TxnSsi -> Prop), has st top P -> P txn) by (intros P (x & Ex & Hx); by simplify_eq).
  split_and!.
  - intros t P HP. unfold has. rewrite L, lookup_delete. destruct (decide (top = t)) as [<-|Ht]; [cbn; split; [by intros (? & ? & _)|by intros [_ ?]]|].
    destruct (st.(txns) !! t) as [x|]; cbn; [|split; [by intros (? & ? & _)|by intros ((? & ? & _) & _)]]. split.
    + intros (y & [= <-] & Hy). split; [|done]. exists x. split; [done|]. by eapply HP; [|exact Hy].
    + intros [(y & [= <-] & Hy) _]. eexists. split; [done|]. by eapply HP; [|exact Hy].
  - intros r w. assert (Hin : w = top -> eout st r w -> r ∈ in_edges txn) by (intros -> He%E1; by apply Hown in He).
    unfold eout, has in *. rewrite L, lookup_delete. destruct (decide (top = r)) as [<-|Hr]; [cbn; split; [by intros (? & ? & _)|by intros (_ & ? & _)]|].
    destruct (st.(txns) !! r) as [x|] eqn:Er; cbn; [|split; [by intros (? & ? & _)|by intros ((? & ? & _) & _)]]. split.
    + intros (y & [= <-] & Hy). cbn in Hy. case_decide as Hd.
      * split; [exists x; set_solver|set_solver].
      * split; [by exists x|]. split; [done|]. intros ->. apply Hd, Hin; [done|]. by exists x.
    + intros [(y & [= <-] & Hy) [_ Hw]]. eexists. split; [done|]. cbn. case_decide; set_solver.
  - intros w r. assert (Hin : r = top -> ein st w r -> w ∈ out_edges txn) by (intros -> He%E1; by apply Hown in He).
    unfold ein, has in *. rewrite L, lookup_delete. destruct (decide (top = w)) as [<-|Hw]; [cbn; split; [by intros (? & ? & _)|by intros (_ & _ & ?)]|].
    destruct (st.(txns) !! w) as [x|] eqn:Er; cbn; [|split; [by intros (? & ? & _)|by intros ((? & ? & _) & _)]]. split.
    + intros (y & [= <-] & Hy). cbn in Hy. case_decide as Hd.
      * split; [exists x; set_solver|set_solver].
      * split; [by exists x|]. split; [|done]. intros ->. apply Hd, Hin; [done|]. by exists x.
    + intros [(y & [= <-] & Hy) [Hr _]]. eexists. split; [done|]. cbn. case_decide; set_solver.
  - intros t tb. rewrite J1. apply entry_drop_top. cbn. rewrite H1. intros Hl%Hown. by apply elem_of_elements.
  - intros t [tb k]. rewrite J2. apply entry_drop_top. cbn. rewrite H2. intros Hl%Hown. by apply elem_of_flat_keys.
  - intros t tb. rewrite J3. apply entry_drop_top. cbn. rewrite H3. intros Hl%Hown. by apply elem_of_elements.
  - intros t tb. rewrite J4. apply entry_drop_top. cbn. rewrite H4. intros Hl%Hown. by apply elem_of_elements.
  - intros t [tb k]. rewrite J5. apply entry_drop_top. cbn. rewrite H5. intros Hl%Hown. by apply elem_of_flat_keys.
  - exact J6.
Qed.

Lemma aborted_ok top st : ssi_ok st -> ssi_ok (aborted top st).
Proof.
  intros Hok. destruct (aborted_spec top st Hok) as (Hh & Ho & Hin & R1 & R2 & R3 & R4 & R5 & R6).
  destruct Hok as [[H1 H2 H3 H4 H5 H6 H7 H8] [E1 E2]]. set (st' := aborted top st) in *.
  assert (Hcore : forall t (P : TxnSsi -> Prop), (forall x y, core x = core y -> P x -> P y) ->
    has st' t P <-> has st t P /\ t <> top) by done.
  assert (Hrl : forall t tb, rlock st' t tb <-> rlock st t tb /\ t <> top) by (intros; apply Hh; same_fields).
  assert (Htl : forall t tb k, tlock st' t tb k <-> tlock st t tb k /\ t <> top) by (intros; apply Hh; same_fields).
  assert (Hrw : forall t tb, rwrite st' t tb <-> rwrite st t tb /\ t <> top) by (intros; apply Hh; same_fields).
  assert (Hww : forall t tb, wwrite st' t tb <-> wwrite st t tb /\ t <> top) by (intros; apply Hh; same_fields).
  assert (Htw : forall t tb k, twrite st' t tb k <-> twrite st t tb k /\ t <> top) by (intros; apply Hh; same_fields).
  assert (Hf : forall r w, fires st' r w <-> fires st r w /\ r <> top /\ w <> top).
  { intros r w. unfold fires, tracked, conc. rewrite !Hh by same_fields. naive_solver. }
  split; split; intros *; rewrite ?R1, ?R2, ?R3, ?R4, ?R5, ?R6, ?Hrl, ?Htl, ?Hrw, ?Hww, ?Htw, ?Ho, ?Hin, ?Hf.
  - by rewrite H1.
  - by rewrite H2.
  - by rewrite H3.
  - by rewrite H4.
  - by rewrite H5.
  - intros []. auto.
  - intros []. auto.
  - intros []. split; [by eapply H8|done].
  - rewrite E1. naive_solver.
  - intros []. auto.
Qed.

Lemma release_up_to_ok h st : ssi_ok st -> ssi_ok (release_up_to h st).
Proof.
  unfold release_up_to. generalize (releasable h st). intros l. revert st.
  induction l as [|t l IH]; intros st Hok; cbn; [done|]. by apply IH, aborted_ok.
Qed.

(** ** Lemmas: the tracker methods *)

(** How a state holds a read or a write: of a row, or ([None]) of the whole table. *)
Definition read_held st t tb (k : option Key) : Prop :=
  rlock st t tb \/ match k with Some k => tlock st t tb k | None => False end.
Definition write_held st t tb (k : option Key) : Prop :=
  match k with Some k => twrite st t tb k | None => wwrite st t tb end.

(** Nothing recorded is lost. *)
Record grows (st st' : SsiState) : Prop := {
  g_read : forall t tb k, read_held st t tb k -> read_held st' t tb k;
  g_write : forall t tb k, write_held st t tb k -> write_held st' t tb k;
  g_promoted : forall t tb, promoted st t tb -> promoted st' t tb;
  g_edges : forall r w, eout st r w -> eout st' r w;
  g_tracked : forall t, tracked st t -> tracked st' t;
  g_conc : forall r w, tracked st r -> conc st' r w -> conc st r w
}.

#[local] Instance grows_preorder : PreOrder grows.
Proof.
  split; [by split|]. intros st1 st2 st3 [A1 A2 A3 A4 A5 A6] [B1 B2 B3 B4 B5 B6]. split; eauto.
Qed.

Lemma same_locks_grows st st' : same_locks st st' -> (forall r w, eout st r w -> eout st' r w) -> grows st st'.
Proof.
  intros Hs He. split; [intros t tb [k|]|intros t tb [k|]|intros t tb|done|intros t|intros r w _]; unfold read_held, write_held;
    rewrite ?(same_rlock Hs), ?(same_tlock Hs), ?(same_twrite Hs), ?(same_wwrite Hs), ?(same_promoted Hs),
      ?(same_tracked Hs), ?(same_conc Hs); done.
Qed.

Lemma form_pairs_grows pairs st : grows st (form_pairs pairs st).
Proof. destruct (form_pairs_spec pairs st) as (S & O & _). apply same_locks_grows; [done|]. intros r w. rewrite O. by left. Qed.

(** When the edges and snapshots are the same. *)
Lemma same_edges_grows st st' :
  same_edges st st' -> (forall t tb k, read_held st t tb k -> read_held st' t tb k) ->
  (forall t tb k, write_held st t tb k -> write_held st' t tb k) ->
  st'.(promoted_tuple_writers) = st.(promoted_tuple_writers) -> grows st st'.
Proof.
  intros Hs Hr Hw Hp. split; [done|done| | | |].
  - unfold promoted. by rewrite Hp.
  - intros r w. by rewrite (edges_eout Hs).
  - intros t. unfold tracked. by rewrite (same_edges_has st st' t _ Hs).
  - intros r w _. unfold conc. rewrite (same_edges_has st st' r _ Hs); [done|]. intros x y E _ _. by rewrite E.
Qed.

Lemma add_relation_lock_grows top table st : ssi_ok st -> grows st (add_relation_lock top table st).
Proof.
  intros [Hi _]. destruct (add_relation_lock_spec top table st Hi) as (_ & Hs & R & T & RW & WW & TW & P & _).
  apply same_edges_grows; [done| | |done].
  - intros t tb k [?|Hk]; [left; rewrite R; by left|]. destruct k; [|done]. right. by rewrite T.
  - intros t tb [k|]; unfold write_held; by rewrite ?WW, ?TW.
Qed.

(** A relation lock in place of the tuple locks of the table. *)
Lemma collapse_spec top table (keys : gset Key) ws st :
  ssi_ok st -> (forall k, tlock st top table k -> k ∈ keys) ->
  let st' := add_relation_lock top table (form_out_edges top ws (drop_tuple_locks top table keys st)) in
  ssi_ok st' /\ grows st st' /\ (tracked st top -> rlock st' top table) /\
  (forall t tb k, tlock st' t tb k <-> tlock st t tb k /\ ~ (t = top /\ tb = table)) /\
  (forall t tb, rwrite st' t tb <-> rwrite st t tb) /\
  st'.(promoted_tuple_writers) = st.(promoted_tuple_writers).
Proof.
  intros Hok Hk st'. subst st'. pose proof (drop_tuple_locks_ok top table keys st Hok Hk) as Hok1.
  destruct (drop_tuple_locks_spec top table keys st (s_idx _ Hok) Hk) as (_ & S1 & T1 & R1 & W1 & WW1 & TW1 & P1 & _).
  set (st1 := drop_tuple_locks top table keys st) in *. rewrite form_out_pairs.
  pose proof (form_pairs_ok ((top,.) <$> ws) st1 Hok1) as Hok2.
  destruct (form_pairs_spec ((top,.) <$> ws) st1) as (S2 & O2 & _). set (st2 := form_pairs _ st1) in *.
  destruct (add_relation_lock_spec top table st2 (s_idx _ Hok2)) as (_ & S3 & R3 & T3 & W3 & WW3 & TW3 & P3 & _).
  set (st3 := add_relation_lock top table st2) in *.
  assert (Ht : tracked st1 top <-> tracked st top) by (symmetry; by apply (same_edges_has st st1 top)).
  assert (R : forall t tb, rlock st3 t tb <-> rlock st t tb \/ (t = top /\ tb = table /\ tracked st top)).
  { intros t tb. by rewrite R3, <- (same_rlock S2), R1, <- (same_tracked S2), Ht. }
  assert (T : forall t tb k, tlock st3 t tb k <-> tlock st t tb k /\ ~ (t = top /\ tb = table))
    by (intros; by rewrite T3, <- (same_tlock S2), T1).
  assert (P : promoted_tuple_writers st3 = promoted_tuple_writers st)
    by (pose proof S2 as [[= _ _ _ _ _ E] _]; by rewrite P3, <- E).
  split; [by apply add_relation_lock_ok|]. split; [|split_and!; [intros; rewrite R; by right|done|
    intros; by rewrite W3, <- (same_rwrite S2), W1|done]].
  assert (Hc : forall t (Q : TxnSsi -> Prop), (forall x y, x.(snapshot) = y.(snapshot) -> Q x -> Q y) ->
    has st3 t Q <-> has st t Q).
  { intros t Q HQ. rewrite <- (same_edges_has st2 st3 t _ S3) by (intros x y E _ _; by apply HQ).
    rewrite <- (same_locks_has st1 st2 t _ S2) by (intros x y [= E _ _ _ _ _]; by apply HQ).
    by rewrite <- (same_edges_has st st1 t _ S1) by (intros x y E _ _; by apply HQ). }
  split.
  - intros t tb k [Hr|Hk']; [left; rewrite R; by left|]. destruct k as [k|]; [|done].
    destruct (decide (t = top /\ tb = table)) as [[-> ->]|Hn]; [left; rewrite R; right|right; by rewrite T].
    split_and!; [done|done|by eapply has_tracked].
  - intros t tb [k|]; unfold write_held; rewrite ?TW3, ?WW3, <- ?(same_twrite S2), <- ?(same_wwrite S2), ?TW1, ?WW1; done.
  - intros t tb. unfold promoted. by rewrite P.
  - intros r w. rewrite <- (edges_eout S3), O2, <- (edges_eout S1). by left.
  - intros t. unfold tracked. by rewrite Hc.
  - intros r w _. unfold conc. rewrite Hc; [done|]. intros x y E. by rewrite E.
Qed.

(** Reading a row: the read is held, and its conflicts have their edges. *)
Lemma record_tuple_read_ok registry reader table key st :
  ssi_ok st ->
  let st' := record_tuple_read registry reader table key st in
  let top := top_of registry reader in
  ssi_ok st' /\ grows st st' /\
  (tracked st top -> read_held st' top table (Some key)) /\
  (forall w, fires st top w -> twrite st w table key \/ wwrite st w table \/ promoted st w table -> eout st' top w).
Proof.
  intros Hok st' top. subst st'. unfold record_tuple_read. fold top.
  destruct (bool_decide (is_Some (st.(txns) !! top))) eqn:Et; cbn [negb].
  2:{ assert (Hn : ~ tracked st top) by (intros Ht; apply tracked_lookup in Ht; congruence).
      split_and!; [done|reflexivity|done|]. intros w (_ & _ & Hc). by destruct Hn; eapply has_tracked. }
  apply tracked_lookup in Et. rewrite form_out_pairs. set (ws := elements _).
  pose proof (form_pairs_ok ((top,.) <$> ws) st Hok) as Hok1. pose proof (form_pairs_grows ((top,.) <$> ws) st) as Hg.
  destruct (form_pairs_spec ((top,.) <$> ws) st) as (S1 & O1 & _). set (st1 := form_pairs _ st) in *.
  assert (Hws : forall w, fires st top w -> twrite st w table key \/ wwrite st w table \/ promoted st w table -> eout st1 top w).
  { intros w Hf Hw. apply O1. right. split; [|done]. apply list_elem_of_fmap. exists w. split; [done|].
    apply elem_of_elements. destruct Hok as [[H1 H2 H3 H4 H5 H6 H7 H8] _]. rewrite <- H4, <- H5 in Hw.
    unfold promoted in Hw. set_solver. }
  destruct (st1.(txns) !! top) as [txn|] eqn:E.
  2:{ exfalso. destruct (proj1 (same_tracked S1 top) Et) as (x & Ex & _). congruence. }
  case_bool_decide as Hin; [split_and!; [done|done|intros _; right; by exists txn|done]|].
  destruct (SSI_TUPLE_LOCK_CAP <? _)%nat.
  - destruct (collapse_spec top table ({[key]} ∪ entry (tuple_locks txn) table) [] st1 Hok1) as (C1 & C2 & C3 & _).
    { intros k (x & Ex & Hx); simplify_eq; set_solver. }
    split_and!; [done|by etrans| |].
    + intros _. left. apply C3. by apply (same_tracked S1).
    + intros w Hf Hw. apply (g_edges _ _ C2). auto.
  - fold (add_tuple_lock top table key ({[key]} ∪ entry (tuple_locks txn) table) st1).
    destruct (add_tuple_lock_ok top table key txn st1 E Hok1) as (Hok2 & S2 & R & T & WW & TW & P).
    split_and!; [done| | |].
    + etrans; [exact Hg|]. apply same_edges_grows; [done| | |done].
      * intros t tb k [?|Hk]; [left; by rewrite R|]. destruct k; [|done]. right. rewrite T. by left.
      * intros t tb [k|]; unfold write_held; by rewrite ?TW, ?WW.
    + intros _. right. rewrite T. by right.
    + intros w Hf Hw. rewrite <- (edges_eout S2). auto.
Qed.

Lemma record_relation_read_ok registry reader table st :
  ssi_ok st ->
  let st' := record_relation_read registry reader table st in
  let top := top_of registry reader in
  ssi_ok st' /\ grows st st' /\
  (tracked st top -> read_held st' top table None) /\
  (forall w, fires st top w -> rwrite st w table -> eout st' top w).
Proof.
  intros Hok st' top. subst st'. unfold record_relation_read. fold top.
  destruct (bool_decide (is_Some (st.(txns) !! top))) eqn:Et; cbn [negb].
  2:{ assert (Hn : ~ tracked st top) by (intros Ht; apply tracked_lookup in Ht; congruence).
      split_and!; [done|reflexivity|done|]. intros w (_ & _ & Hc). by destruct Hn; eapply has_tracked. }
  apply tracked_lookup in Et. rewrite form_out_pairs. set (ws := elements _).
  pose proof (form_pairs_ok ((top,.) <$> ws) st Hok) as Hok1. pose proof (form_pairs_grows ((top,.) <$> ws) st) as Hg.
  destruct (form_pairs_spec ((top,.) <$> ws) st) as (S1 & O1 & _). set (st1 := form_pairs _ st) in *.
  pose proof (add_relation_lock_grows top table st1 Hok1) as Hg2.
  destruct (add_relation_lock_spec top table st1 (s_idx _ Hok1)) as (_ & _ & R & _).
  split_and!; [by apply add_relation_lock_ok|by etrans| |].
  - intros _. left. rewrite R. right. split_and!; [done|done|by apply (same_tracked S1)].
  - intros w Hf Hw. apply (g_edges _ _ Hg2), O1. right. split; [|done]. apply list_elem_of_fmap. exists w.
    split; [done|]. apply elem_of_elements. by apply (i_relation_writers _ (s_idx _ Hok)).
Qed.

(** Writing: the write is held, and its conflicts have their edges, also when the
    writer is told to abort. *)
Lemma note_write_ok registry writer table key st st' res :
  ssi_ok st -> note_write registry writer table key st = (st', res) ->
  let w := top_of registry writer in
  ssi_ok st' /\ grows st st' /\
  (tracked st w -> write_held st' w table (Some key)) /\
  (forall r, fires st r w -> rlock st r table \/ tlock st r table key -> eout st' r w).
Proof.
  intros Hok E w. unfold note_write in E. fold w in E.
  destruct (bool_decide (is_Some (st.(txns) !! w))) eqn:Et; cbn [negb] in E.
  2:{ assert (Hn : ~ tracked st w) by (intros Ht; apply tracked_lookup in Ht; congruence). simplify_eq.
      split_and!; [done|reflexivity|done|]. by intros r (_ & Ht & _). }
  apply tracked_lookup in Et. rewrite form_in_pairs in E. set (rs := elements _ ++ elements _) in E.
  pose proof (form_pairs_ok ((., w) <$> rs) st Hok) as Hok1. pose proof (form_pairs_grows ((., w) <$> rs) st) as Hg.
  destruct (form_pairs_spec ((., w) <$> rs) st) as (S1 & O1 & _). set (st1 := form_pairs _ st) in *.
  assert (Ht1 : tracked st1 w) by (by apply (same_tracked S1)).
  destruct (st1.(txns) !! w) as [x|] eqn:Ex; [|destruct Ht1 as (y & Ey & _); congruence].
  destruct (add_tuple_write_ok w table key st1 Ht1 Hok1) as (Hok2 & S2 & R & T & WW & TW & P).
  assert (st' = add_tuple_write w table key st1) as -> by (by destruct (is_doomed_pivot _ _); simplify_eq).
  split_and!; [done| | |].
  - etrans; [exact Hg|]. apply same_edges_grows; [done| | |done].
    + intros t tb k [?|Hk]; [left; by rewrite R|]. destruct k; [|done]. right. by rewrite T.
    + intros t tb [k|]; unfold write_held; rewrite ?TW, ?WW; [by left|done].
  - intros _. cbn. rewrite TW. by right.
  - intros r Hf Hr. rewrite <- (edges_eout S2). apply O1. right. split; [|done]. apply list_elem_of_fmap. exists r.
    split; [done|]. unfold rs. rewrite elem_of_app, !elem_of_elements.
    destruct Hok as [[H1 H2 _ _ _ _ _ _] _]. by rewrite H1, H2.
Qed.

Lemma elem_of_table_tuple_readers t table st :
  t ∈ table_tuple_readers table st <-> exists k, t ∈ entry st.(tuple_readers) (table, k).
Proof.
  unfold table_tuple_readers.
  apply (map_fold_weak_ind (fun acc m => t ∈ acc <-> exists k, t ∈ entry m (table, k))).
  { split; [set_solver|]. intros [k Hk]. unfold entry in Hk. by rewrite lookup_empty in Hk. }
  intros [tb k0] rs m acc Hm IH. cbn [fst].
  assert (Hins : (exists k, t ∈ entry (<[(tb, k0) := rs]> m) (table, k)) <->
    (tb = table /\ t ∈ rs) \/ exists k, t ∈ entry m (table, k)).
  { unfold entry. setoid_rewrite lookup_insert. split.
    - intros [k Hk]. case_decide as Hd; [simplify_eq; by left|right; by exists k].
    - intros [[-> Ht]|[k Hk]]; [exists k0; by rewrite decide_True|]. exists k. rewrite decide_False; [done|].
      intros [= -> ->]. by rewrite Hm in Hk. }
  rewrite Hins, <- IH. destruct (N.eqb_spec tb table); set_solver.
Qed.

Lemma note_relation_write_ok registry writer table st st' res :
  ssi_ok st -> note_relation_write registry writer table st = (st', res) ->
  let w := top_of registry writer in
  ssi_ok st' /\ grows st st' /\
  (tracked st w -> write_held st' w table None) /\
  (forall r, fires st r w -> rlock st r table \/ (exists k, tlock st r table k) -> eout st' r w).
Proof.
  intros Hok E w. unfold note_relation_write in E. fold w in E.
  destruct (bool_decide (is_Some (st.(txns) !! w))) eqn:Et; cbn [negb] in E.
  2:{ assert (Hn : ~ tracked st w) by (intros Ht; apply tracked_lookup in Ht; congruence). simplify_eq.
      split_and!; [done|reflexivity|done|]. by intros r (_ & Ht & _). }
  apply tracked_lookup in Et. rewrite form_in_pairs in E. set (rs := elements _) in E.
  pose proof (form_pairs_ok ((., w) <$> rs) st Hok) as Hok1. pose proof (form_pairs_grows ((., w) <$> rs) st) as Hg.
  destruct (form_pairs_spec ((., w) <$> rs) st) as (S1 & O1 & _). set (st1 := form_pairs _ st) in *.
  assert (Ht1 : tracked st1 w) by (by apply (same_tracked S1)).
  destruct (st1.(txns) !! w) as [x|] eqn:Ex; [|destruct Ht1 as (y & Ey & _); congruence].
  destruct (add_relation_write_ok w table st1 Ht1 Hok1) as (Hok2 & S2 & R & T & WW & TW & P).
  assert (st' = add_relation_write w table st1) as -> by (by destruct (is_doomed_pivot _ _); simplify_eq).
  split_and!; [done| | |].
  - etrans; [exact Hg|]. apply same_edges_grows; [done| | |done].
    + intros t tb k [?|Hk]; [left; by rewrite R|]. destruct k; [|done]. right. by rewrite T.
    + intros t tb [k|]; unfold write_held; rewrite ?TW, ?WW; [done|by left].
  - intros _. cbn. rewrite WW. by right.
  - intros r Hf Hr. rewrite <- (edges_eout S2). apply O1. right. split; [|done]. apply list_elem_of_fmap. exists r.
    split; [done|]. unfold rs. rewrite elem_of_elements, elem_of_union, elem_of_table_tuple_readers.
    destruct Hok as [[H1 H2 _ _ _ _ _ _] _]. setoid_rewrite H2. by rewrite H1.
Qed.

(** ** Lemmas: promotion *)

Lemma form_rw_edge_with_promoted p r w st :
  form_rw_edge r w (with_promoted p st) = with_promoted p (form_rw_edge r w st).
Proof. unfold form_rw_edge. cbn [txns with_promoted]. repeat case_match; done. Qed.

Lemma promote_reader_with_promoted table ws p st r :
  promote_reader table ws (with_promoted p st) r = with_promoted p (promote_reader table ws st r).
Proof.
  unfold promote_reader. cbn [txns with_promoted]. set (keys := match _ with Some _ => _ | None => _ end).
  change (drop_tuple_locks r table keys (with_promoted p st)) with (with_promoted p (drop_tuple_locks r table keys st)).
  generalize (drop_tuple_locks r table keys st). clear keys. intros s.
  assert (form_out_edges r ws (with_promoted p s) = with_promoted p (form_out_edges r ws s)) as ->.
  { unfold form_out_edges. revert s. induction ws as [|w ws IH]; intros s; cbn; [done|].
    by rewrite form_rw_edge_with_promoted, IH. }
  generalize (form_out_edges r ws s). intros s'. unfold add_relation_lock. cbn [txns with_promoted].
  repeat case_match; done.
Qed.

Lemma promote_readers_with_promoted table ws p l : forall st,
  foldl (promote_reader table ws) (with_promoted p st) l = with_promoted p (foldl (promote_reader table ws) st l).
Proof. induction l as [|r l IH]; intros st; cbn; [done|]. by rewrite promote_reader_with_promoted, IH. Qed.

(** Promoting one reader after the other. *)
Lemma promote_readers_spec table ws l : forall st,
  ssi_ok st ->
  let st' := foldl (promote_reader table ws) st l in
  ssi_ok st' /\ grows st st' /\
  (forall t tb k, tlock st' t tb k <-> tlock st t tb k /\ ~ (t ∈ l /\ tb = table)) /\
  (forall t tb, rwrite st' t tb <-> rwrite st t tb) /\
  (forall t, t ∈ l -> tracked st t -> rlock st' t table) /\
  st'.(promoted_tuple_writers) = st.(promoted_tuple_writers).
Proof.
  induction l as [|r l IH]; intros st Hok; cbn [foldl].
  { split_and!; try done. intros t tb k. split; [|by intros []]. intros Ht. split; [done|].
    intros [Hin _]. by inversion Hin. intros t Hin. by inversion Hin. }
  set (keys := match st.(txns) !! r with Some x => entry x.(tuple_locks) table | None => ∅ end).
  destruct (collapse_spec r table keys ws st Hok) as (C1 & C2 & C3 & C4 & C5 & C6).
  { intros k (x & Ex & Hx). unfold keys. by rewrite Ex. }
  change (add_relation_lock r table _) with (promote_reader table ws st r) in C1, C2, C3, C4, C5, C6.
  set (st1 := promote_reader table ws st r) in *.
  destruct (IH st1 C1) as (I1 & I2 & I3 & I4 & I5 & I6). split_and!.
  - done.
  - by etrans.
  - intros t tb k. rewrite I3, C4, elem_of_cons. naive_solver.
  - intros t tb. by rewrite I4, C5.
  - intros t Hin Ht. apply elem_of_cons in Hin as [->|Hin]; [|apply I5; [done|by apply (g_tracked _ _ C2)]].
    destruct (g_read _ _ I2 r table None) as [?|[]]; [left; by apply C3|done].
  - by rewrite I6, C6.
Qed.

Lemma with_promoted_ok p st :
  ssi_ok st -> (forall t tb, t ∈ entry p tb -> rwrite st t tb) -> ssi_ok (with_promoted p st).
Proof. intros [[H1 H2 H3 H4 H5 H6 H7 H8] [E1 E2]] Hp. split; [split; try done|split; done]. Qed.

(** After a promotion of [table], every read of it is held by a relation lock and
    every writer of it is a promoted one. *)
Lemma promote_ok table st :
  ssi_ok st ->
  let st' := promote_table_identity_locks_to_relation table st in
  ssi_ok st' /\ grows st st' /\
  (forall t k, read_held st t table k -> rlock st' t table) /\
  (forall t, rwrite st t table -> promoted st' t table).
Proof.
  intros Hok st'. subst st'. unfold promote_table_identity_locks_to_relation.
  set (readers := (filter _ _).*1). set (ws := elements _).
  set (p := <[table := entry st.(promoted_tuple_writers) table ∪ list_to_set ws]> st.(promoted_tuple_writers)).
  assert (Hreaders : forall t k, tlock st t table k -> t ∈ readers).
  { intros t k (x & Ex & Hx). unfold readers. apply list_elem_of_fmap. exists (t, x). split; [done|].
    apply list_elem_of_filter. split; [|by apply elem_of_map_to_list]. cbn. unfold entry in Hx.
    destruct (tuple_locks x !! table); [eauto|by cbn in Hx]. }
  destruct (promote_readers_spec table ws readers st Hok) as (I1 & I2 & I3 & I4 & I5 & I6).
  set (st1 := foldl (promote_reader table ws) st readers) in *.
  assert (Hlock : forall t k, read_held st t table k -> rlock st1 t table).
  { intros t k [Hr|Hk].
    - destruct (g_read _ _ I2 t table None) as [?|[]]; [by left|done].
    - destruct k as [k|]; [|done]. apply I5; [by eapply Hreaders|by eapply has_tracked]. }
  assert (Hws : forall t, t ∈ ws <-> rwrite st t table).
  { intros t. unfold ws. by rewrite elem_of_elements, (i_relation_writers _ (s_idx _ Hok)). }
  case_bool_decide as Enil.
  { split_and!; [done|done|done|]. intros t Ht%Hws. rewrite Enil in Ht. by inversion Ht. }
  rewrite promote_readers_with_promoted. fold st1.
  assert (Hp : forall t tb, t ∈ entry p tb <-> promoted st t tb \/ (tb = table /\ rwrite st t table)).
  { intros t tb. unfold p, promoted, entry at 1. rewrite lookup_insert. case_decide as Htb.
    - subst tb. cbn. rewrite elem_of_union, elem_of_list_to_set, Hws. naive_solver.
    - fold (entry (promoted_tuple_writers st) tb). naive_solver. }
  split_and!; [| |done|intros t Ht; apply Hp; by right].
  - apply with_promoted_ok; [done|]. intros t tb Ht. rewrite I4. apply Hp in Ht as [Ht|[-> ?]]; [|done].
    by apply (i_promoted _ (s_idx _ Hok)).
  - etrans; [exact I2|]. split; try done. intros t tb Ht. apply Hp. left. unfold promoted in *. by rewrite <- I6.
Qed.

(** ** Runs *)

(** The calls of the manager's methods. *)
Inductive ssi_event : Type :=
  | EvRegister (registry : RegistryState) (t : TxnId) (s : Snapshot)
  | EvFinished (top : TxnId)
  | EvRelease (gc_horizon : TxnId)
  | EvAborted (top : TxnId)
  | EvCommit (top : TxnId)
  | EvPromote (table : N)
  | EvTupleRead (registry : RegistryState) (reader : TxnId) (table : N) (key : Key)
  | EvRelationRead (registry : RegistryState) (reader : TxnId) (table : N)
  | EvWrite (registry : RegistryState) (writer : TxnId) (table : N) (key : Key)
  | EvRelationWrite (registry : RegistryState) (writer : TxnId) (table : N).

Definition ssi_apply (ev : ssi_event) : SE SsiState DbError unit :=
  match ev with
  | EvRegister registry t s => modify (ssi_register registry t s)
  | EvFinished top => modify (mark_finished top)
  | EvRelease h => modify (release_up_to h)
  | EvAborted top => modify (aborted top)
  | EvCommit top => commit_check top
  | EvPromote table => modify (promote_table_identity_locks_to_relation table)
  | EvTupleRead registry r table key => modify (record_tuple_read registry r table key)
  | EvRelationRead registry r table => modify (record_relation_read registry r table)
  | EvWrite registry w table key => note_write registry w table key
  | EvRelationWrite registry w table => note_relation_write registry w table
  end.

(** What the tracked transactions have read and written: of a row or ([None]) of the
    whole table, with the number of identity rewrites the table had had by then.
    Row keys of different numbers cannot be compared. *)
Record access : Type := mkAccess {
  a_txn : TxnId;
  a_table : N;
  a_epoch : nat;
  a_key : option Key
}.
Record History : Type := mkHistory {
  h_reads : list access;
  h_writes : list access;
  h_epochs : gmap N nat
}.
Definition epoch (h : History) (table : N) : nat := default 0%nat (h.(h_epochs) !! table).

(** The two may touch the same row. *)
Definition overlap (r w : access) : Prop :=
  r.(a_table) = w.(a_table) /\
  (r.(a_epoch) <> w.(a_epoch) \/ r.(a_key) = None \/ w.(a_key) = None \/ r.(a_key) = w.(a_key)).

Definition add_read (t : TxnId) (table : N) (k : option Key) (st : SsiState) (h : History) : History :=
  if bool_decide (is_Some (st.(txns) !! t))
  then mkHistory (mkAccess t table (epoch h table) k :: h.(h_reads)) h.(h_writes) h.(h_epochs) else h.
Definition add_write (t : TxnId) (table : N) (k : option Key) (st : SsiState) (h : History) : History :=
  if bool_decide (is_Some (st.(txns) !! t))
  then mkHistory h.(h_reads) (mkAccess t table (epoch h table) k :: h.(h_writes)) h.(h_epochs) else h.
Definition forget (t : TxnId) (h : History) : History :=
  mkHistory (filter (fun a => a.(a_txn) <> t) h.(h_reads)) (filter (fun a => a.(a_txn) <> t) h.(h_writes)) h.(h_epochs).

(** The history after the event, from the state before it. *)
Definition hist_apply (ev : ssi_event) (st : SsiState) (h : History) : History :=
  match ev with
  | EvRegister _ _ _ | EvFinished _ | EvCommit _ => h
  | EvAborted top => forget top h
  | EvRelease z => foldl (fun h t => forget t h) h (releasable z st)
  | EvPromote table => mkHistory h.(h_reads) h.(h_writes) (<[table := S (epoch h table)]> h.(h_epochs))
  | EvTupleRead registry r table key => add_read (top_of registry r) table (Some key) st h
  | EvRelationRead registry r table => add_read (top_of registry r) table None st h
  | EvWrite registry w table key => add_write (top_of registry w) table (Some key) st h
  | EvRelationWrite registry w table => add_write (top_of registry w) table None st h
  end.

Inductive ssi_reach : SsiState -> History -> Prop :=
  | reach_init : ssi_reach SsiState_default (mkHistory [] [] ∅)
  | reach_step st h ev : ssi_reach st h -> ssi_reach (ssi_apply ev st).1 (hist_apply ev st h).

(** ** The invariant of the runs *)

Definition held_read (st : SsiState) (h : History) (a : access) : Prop :=
  (a.(a_epoch) <= epoch h a.(a_table))%nat /\
  read_held st a.(a_txn) a.(a_table) (if decide (a.(a_epoch) = epoch h a.(a_table)) then a.(a_key) else None).
Definition held_write (st : SsiState) (h : History) (a : access) : Prop :=
  (a.(a_epoch) <= epoch h a.(a_table))%nat /\
  (write_held st a.(a_txn) a.(a_table) a.(a_key)) /\
  (a.(a_epoch) = epoch h a.(a_table) \/ promoted st a.(a_txn) a.(a_table)).

Record hist_ok (st : SsiState) (h : History) : Prop := {
  h_ssi : ssi_ok st;
  h_read : forall a, a ∈ h.(h_reads) -> held_read st h a;
  h_write : forall a, a ∈ h.(h_writes) -> held_write st h a;
  h_edge : forall r w, r ∈ h.(h_reads) -> w ∈ h.(h_writes) -> overlap r w -> r.(a_txn) <> w.(a_txn) ->
    conc st r.(a_txn) w.(a_txn) -> eout st r.(a_txn) w.(a_txn)
}.

Lemma read_held_tracked st t tb k : read_held st t tb k -> tracked st t.
Proof. intros [Hr|Hk]; [by eapply has_tracked|]. destruct k; [by eapply has_tracked|done]. Qed.
Lemma write_held_tracked st t tb k : write_held st t tb k -> tracked st t.
Proof. destruct k; apply has_tracked. Qed.
Lemma write_held_rwrite st t tb k : ssi_ok st -> write_held st t tb k -> rwrite st t tb.
Proof. intros [Hi _]. destruct k; [apply (i_tuple _ Hi)|apply (i_whole _ Hi)]. Qed.

(** Growing steps keep what is held. *)
Lemma grows_hist st st' h : grows st st' -> ssi_ok st' -> hist_ok st h -> hist_ok st' h.
Proof.
  intros G Hok [H1 H2 H3 H4]. split; [done| | |].
  - intros a [Ha Hr]%H2. split; [done|]. by apply (g_read _ _ G).
  - intros a (Ha & Hw & Hp)%H3. split; [done|]. split; [by apply (g_write _ _ G)|].
    destruct Hp; [by left|right; by apply (g_promoted _ _ G)].
  - intros r w Hr Hw Ho Hne Hc. apply (g_edges _ _ G), H4; try done. apply (g_conc _ _ G); [|done].
    destruct (H2 r Hr) as [_ Hh]. by eapply read_held_tracked.
Qed.

(** A read added to the history with all its edges. *)
Lemma hist_add_read st h t table k :
  hist_ok st h -> read_held st t table k ->
  (forall w, w ∈ h.(h_writes) -> overlap (mkAccess t table (epoch h table) k) w -> fires st t w.(a_txn) -> eout st t w.(a_txn)) ->
  hist_ok st (mkHistory (mkAccess t table (epoch h table) k :: h.(h_reads)) h.(h_writes) h.(h_epochs)).
Proof.
  intros [H1 H2 H3 H4] Hr He. split; cbn; [done| |exact H3|].
  - intros a Ha. apply elem_of_cons in Ha as [->|Ha]; [|by apply H2]. split; cbn; [done|]. by rewrite decide_True.
  - intros r w Hr' Hw Ho Hne Hc. apply elem_of_cons in Hr' as [->|Hr']; [|by apply H4]. cbn in *.
    apply He; [done..|]. split_and!; [done| |done]. destruct (H3 w Hw) as (_ & Hh & _). by eapply write_held_tracked.
Qed.

Lemma hist_add_write st h t table k :
  hist_ok st h -> write_held st t table k ->
  (forall r, r ∈ h.(h_reads) -> overlap r (mkAccess t table (epoch h table) k) -> fires st r.(a_txn) t -> eout st r.(a_txn) t) ->
  hist_ok st (mkHistory h.(h_reads) (mkAccess t table (epoch h table) k :: h.(h_writes)) h.(h_epochs)).
Proof.
  intros [H1 H2 H3 H4] Hw He. split; cbn; [done|exact H2| |].
  - intros a Ha. apply elem_of_cons in Ha as [->|Ha]; [|by apply H3]. split; cbn; [done|]. split; [done|by left].
  - intros r w Hr Hw' Ho Hne Hc. apply elem_of_cons in Hw' as [->|Hw']; [|by apply H4]. cbn in *.
    apply He; [done..|]. split_and!; [done|by eapply write_held_tracked|done].
Qed.

(** Removing a transaction from both. *)
Lemma hist_forget top st h : hist_ok st h -> hist_ok (aborted top st) (forget top h).
Proof.
  intros [H1 H2 H3 H4]. destruct (aborted_spec top st H1) as (Hh & Ho & Hin & R1 & R2 & R3 & R4 & R5 & R6).
  assert (Hrl : forall t tb, rlock (aborted top st) t tb <-> rlock st t tb /\ t <> top) by (intros; apply Hh; same_fields).
  assert (Htl : forall t tb k, tlock (aborted top st) t tb k <-> tlock st t tb k /\ t <> top) by (intros; apply Hh; same_fields).
  assert (Hww : forall t tb, wwrite (aborted top st) t tb <-> wwrite st t tb /\ t <> top) by (intros; apply Hh; same_fields).
  assert (Htw : forall t tb k, twrite (aborted top st) t tb k <-> twrite st t tb k /\ t <> top) by (intros; apply Hh; same_fields).
  split; [by apply aborted_ok| | |].
  - intros a Ha. apply list_elem_of_filter in Ha as [Hne Ha]. destruct (H2 a Ha) as [He Hr]. split; [done|].
    change (epoch (forget top h)) with (epoch h). revert Hr. unfold read_held. destruct (decide _); [destruct (a_key a)|];
      rewrite Hrl, ?Htl; naive_solver.
  - intros a Ha. apply list_elem_of_filter in Ha as [Hne Ha]. destruct (H3 a Ha) as (He & Hw & Hp). split; [done|].
    change (epoch (forget top h)) with (epoch h). rewrite R6. revert Hw. unfold write_held.
    destruct (a_key a); rewrite ?Hww, ?Htw; naive_solver.
  - intros r w Hr Hw Hov Hne Hc. apply list_elem_of_filter in Hr as [Hnr Hr], Hw as [Hnw Hw]. apply Ho.
    split; [|done]. apply H4; try done. unfold conc in Hc. apply Hh in Hc as [Hc _]; [done|]. same_fields.
Qed.

Lemma epoch_promote h table tb :
  epoch (mkHistory h.(h_reads) h.(h_writes) (<[table := S (epoch h table)]> h.(h_epochs))) tb =
  if decide (tb = table) then S (epoch h table) else epoch h tb.
Proof.
  unfold epoch. cbn. destruct (decide (tb = table)) as [->|Hne]; [by rewrite lookup_insert_eq|by rewrite lookup_insert_ne].
Qed.

Lemma hist_promote table st h :
  hist_ok st h ->
  hist_ok (promote_table_identity_locks_to_relation table st) (hist_apply (EvPromote table) st h).
Proof.
  intros Hh. destruct (promote_ok table st (h_ssi _ _ Hh)) as (Hok & G & HR & HW).
  pose proof (grows_hist _ _ _ G Hok Hh) as [H1 H2 H3 H4]. split; [done| | |exact H4].
  - intros a Ha. cbn in Ha. pose proof (h_read _ _ Hh a Ha) as [He0 Hr0]. destruct (H2 a Ha) as [He Hr].
    unfold held_read. cbn [hist_apply]. rewrite epoch_promote.
    destruct (decide (a_table a = table)) as [Ht|Ht]; [|done].
    rewrite Ht in *. split; [lia|]. rewrite decide_False by lia. left. by eapply HR.
  - intros a Ha. cbn in Ha. pose proof (h_write _ _ Hh a Ha) as (He0 & Hw0 & _). destruct (H3 a Ha) as (He & Hw & Hp).
    unfold held_write. cbn [hist_apply]. rewrite epoch_promote.
    destruct (decide (a_table a = table)) as [Ht|Ht]; [|done].
    rewrite Ht in *. split; [lia|]. split; [done|]. right. apply HW.
    eapply write_held_rwrite; [by apply (h_ssi _ _ Hh)|done].
Qed.

Lemma commit_check_state top st :
  (commit_check top st).1 = st \/
  exists n, (commit_check top st).1 = on_txn top (fun x => set_outcome (Some st.(next_commit_seq)) x.(finished) x)
                                        (with_commit_seq n st).
Proof.
  unfold commit_check. destruct (txns st !! top); [|by left]. repeat case_match; cbn; eauto.
Qed.

Lemma hist_ok_same_txns st st' h : indexes st = indexes st' -> st.(txns) = st'.(txns) -> hist_ok st h -> hist_ok st' h.
Proof.
  destruct st, st'. cbn. intros [= -> -> -> -> -> ->] ->. intros [[[A1 A2 A3 A4 A5 A6 A7 A8] [B1 B2]] H2 H3 H4].
  split; [split; [split; done|split; done]|exact H2|exact H3|exact H4].
Qed.

Lemma outcome_grows t f st :
  (forall x, core (f x) = core x) -> (forall x, (f x).(out_edges) = x.(out_edges)) -> grows st (on_txn t f st).
Proof.
  intros Hc Ho. apply same_locks_grows; [by apply same_locks_on_txn|]. intros r w.
  unfold eout. rewrite has_on_txn_same; [done|]. intros x. by rewrite Ho.
Qed.

Lemma ssi_register_grows registry t s st : grows st (ssi_register registry t s st).
Proof.
  unfold ssi_register. set (top := top_of registry t). destruct (st.(txns) !! top) eqn:E; [reflexivity|].
  set (st' := with_txns _ st).
  assert (Hhas : forall r (P : TxnSsi -> Prop), has st r P -> has st' r P).
  { intros r P (x & Ex & Hx). exists x. split; [|done]. unfold st'. cbn. rewrite lookup_insert_ne; [done|]. congruence. }
  split; [| |done| | |].
  - intros r tb [k|] [?|Hk]; try done; [left; by apply Hhas|right; by apply Hhas|left; by apply Hhas].
  - intros r tb [k|] Hw; by apply Hhas.
  - intros r w. apply Hhas.
  - intros r. apply Hhas.
  - intros r w (x & Ex & _) (y & Ey & Hy). unfold st' in Ey. cbn in Ey. rewrite lookup_insert_ne in Ey by congruence.
    by exists y.
Qed.

(** The writers a tuple read conflicts with are among those it looks up. *)
Lemma tuple_read_conflict st h t table key w :
  held_write st h w -> overlap (mkAccess t table (epoch h table) (Some key)) w ->
  twrite st w.(a_txn) table key \/ wwrite st w.(a_txn) table \/ promoted st w.(a_txn) table.
Proof.
  intros (He & Hw & Hp) [Htb Ho]. cbn in *. rewrite <- Htb in *. destruct (a_key w) as [k|]; [|auto].
  destruct Hp as [Hp|Hp]; [|auto]. destruct Ho as [Ho|[[=]|[[=]|[= ->]]]]; [congruence|auto].
Qed.

(** ... and the readers a write conflicts with. *)
Lemma write_conflict_readers st h t table k r :
  held_read st h r -> overlap r (mkAccess t table (epoch h table) k) ->
  rlock st r.(a_txn) table \/
  (exists k', tlock st r.(a_txn) table k' /\ (k = None \/ k = Some k')).
Proof.
  intros (He & Hr) [Htb Ho]. cbn in *. rewrite <- Htb in *. destruct Hr as [Hr|Hr]; [by left|].
  destruct (decide _) as [Hd|Hd]; [|done]. destruct (a_key r) as [k'|]; [|done]. right. exists k'. split; [done|].
  destruct Ho as [Ho|[[=]|[Ho|Ho]]]; [done|by left|by right].
Qed.

Lemma fires_before st st' r w : grows st st' -> tracked st r -> tracked st w -> fires st' r w -> fires st r w.
Proof. intros G Hr Hw (Hne & _ & Hc). split_and!; [done|done|by apply (g_conc _ _ G)]. Qed.

Lemma hist_ok_step st h ev : hist_ok st h -> hist_ok (ssi_apply ev st).1 (hist_apply ev st h).
Proof.
  intros Hh. pose proof (h_ssi _ _ Hh) as Hok.
  destruct ev as [registry t s|top|z|top|top|table|registry r table key|registry r table|registry w table key|registry w table];
    cbn [ssi_apply hist_apply].
  - eapply grows_hist; [apply ssi_register_grows|by apply ssi_register_ok|done].
  - eapply grows_hist; [by apply outcome_grows|by apply outcome_ok|done].
  - cbn. unfold release_up_to. generalize (releasable z st). intros l. clear Hok. revert st h Hh.
    induction l as [|t l IH]; intros st h Hh; cbn; [done|]. by apply IH, hist_forget.
  - by apply hist_forget.
  - destruct (commit_check_state top st) as [->|[n ->]]; [done|].
    assert (Hh' : hist_ok (with_commit_seq n st) h) by (by eapply hist_ok_same_txns; [| |exact Hh]).
    eapply grows_hist; [by apply outcome_grows|apply outcome_ok; [done..|by apply (h_ssi _ _ Hh')]|done].
  - by apply hist_promote.
  - cbn. destruct (record_tuple_read_ok registry r table key st Hok) as (Hok' & G & Hr & He).
    pose proof (grows_hist _ _ _ G Hok' Hh) as Hh'. unfold add_read.
    destruct (bool_decide _) eqn:Et; [|done]. apply tracked_lookup in Et. apply hist_add_read; [done|by apply Hr|].
    intros w Hw Ho Hf. pose proof (h_write _ _ Hh w Hw) as Hhw. apply He; [|by eapply tuple_read_conflict].
    eapply fires_before; [done|done|destruct Hhw as (_ & ? & _); by eapply write_held_tracked|done].
  - cbn. destruct (record_relation_read_ok registry r table st Hok) as (Hok' & G & Hr & He).
    pose proof (grows_hist _ _ _ G Hok' Hh) as Hh'. unfold add_read.
    destruct (bool_decide _) eqn:Et; [|done]. apply tracked_lookup in Et. apply hist_add_read; [done|by apply Hr|].
    intros w Hw [Htb Ho] Hf. cbn in Htb. destruct (h_write _ _ Hh w Hw) as (_ & Hhw & _). rewrite <- Htb in Hhw.
    apply He; [|by eapply write_held_rwrite]. eapply fires_before; [done|done|by eapply write_held_tracked|done].
  - destruct (note_write registry w table key st) as [st' res] eqn:E. cbn [fst].
    destruct (note_write_ok _ _ _ _ _ _ _ Hok E) as (Hok' & G & Hw & He).
    pose proof (grows_hist _ _ _ G Hok' Hh) as Hh'. unfold add_write.
    destruct (bool_decide _) eqn:Et; [|done]. apply tracked_lookup in Et. apply hist_add_write; [done|by apply Hw|].
    intros r Hr Ho Hf. pose proof (h_read _ _ Hh r Hr) as Hhr. apply He.
    + eapply fires_before; [done|destruct Hhr as [_ ?]; by eapply read_held_tracked|done|done].
    + destruct (write_conflict_readers _ _ _ _ _ _ Hhr Ho) as [?|(k' & Hk & [[=]|[= <-]])]; auto.
  - destruct (note_relation_write registry w table st) as [st' res] eqn:E. cbn [fst].
    destruct (note_relation_write_ok _ _ _ _ _ _ Hok E) as (Hok' & G & Hw & He).
    pose proof (grows_hist _ _ _ G Hok' Hh) as Hh'. unfold add_write.
    destruct (bool_decide _) eqn:Et; [|done]. apply tracked_lookup in Et. apply hist_add_write; [done|by apply Hw|].
    intros r Hr Ho Hf. pose proof (h_read _ _ Hh r Hr) as Hhr. apply He.
    + eapply fires_before; [done|destruct Hhr as [_ ?]; by eapply read_held_tracked|done|done].
    + destruct (write_conflict_readers _ _ _ _ _ _ Hhr Ho) as [?|(k' & Hk & _)]; eauto.
Qed.

Lemma hist_ok_reach st h : ssi_reach st h -> hist_ok st h.
Proof.
  induction 1 as [|st h ev Hr IH]; [|by apply hist_ok_step].
  assert (Hno : forall t P, ~ has SsiState_default t P) by (intros t P (x & Ex & _); cbn in Ex; by rewrite lookup_empty in Ex).
  assert (Hent : forall {K} `{Countable K} (k : K), entry (∅ : gmap K (gset TxnId)) k = ∅)
    by (intros K ? ? k; unfold entry; by rewrite lookup_empty).
  split; [split; [split|split]| | |]; cbn; intros *; rewrite ?Hent; unfold promoted; cbn; rewrite ?Hent;
    try (by intros Hin; inversion Hin); try set_solver; try (by intros Hx; destruct (Hno _ _ Hx)).
Qed.

(** ** Lemmas: the checks *)

Definition committed st t : Prop := has st t (fun x => is_Some x.(commit_seq)).

(** [t] has a conflict on either side, and one of those it should precede committed. *)
Definition doomed st t : Prop := (exists v, ein st t v) /\ exists w, eout st t w /\ committed st w.

(** A running transaction that should precede [t] has itself an incoming conflict. *)
Definition endangers st t : Prop :=
  exists v u, ein st t v /\ has st v (fun x => x.(commit_seq) = None) /\ ein st v u.

Lemma is_doomed_pivot_spec st t : is_doomed_pivot st t = true <-> doomed st t.
Proof.
  unfold is_doomed_pivot, doomed, ein, eout, committed, has.
  destruct (st.(txns) !! t) as [x|]; [|split; [done|]; by intros ((? & ? & ? & _) & _)].
  destruct (bool_decide (in_edges x = ∅)) eqn:Ei; cbn [orb].
  { apply bool_decide_eq_true in Ei. split; [done|]. intros ((v & y & [= <-] & Hy) & _). set_solver. }
  apply bool_decide_eq_false in Ei. apply set_choose_L in Ei as [v Hv].
  destruct (bool_decide (out_edges x = ∅)) eqn:Eo; cbn [orb].
  { apply bool_decide_eq_true in Eo. split; [done|]. intros (_ & w & (y & [= <-] & Hy) & _). set_solver. }
  rewrite existsb_exists. split.
  - intros (w & Hw & Hc). apply list_elem_of_In, elem_of_elements in Hw. split; [eauto|]. exists w. split; [eauto|].
    destruct (st.(txns) !! w) as [o|]; [|done]. apply bool_decide_eq_true in Hc. eauto.
  - intros (_ & w & (y & [= <-] & Hy) & (o & Eo' & Ho)). exists w. rewrite Eo'. split; [|by apply bool_decide_eq_true].
    by apply list_elem_of_In, elem_of_elements.
Qed.

Lemma dooms_in_neighbor_spec st t x :
  st.(txns) !! t = Some x -> dooms_in_neighbor st x = true <-> endangers st t.
Proof.
  intros E. unfold dooms_in_neighbor, endangers, ein, has. rewrite E, existsb_exists. split.
  - intros (v & Hv & Hc). apply list_elem_of_In, elem_of_elements in Hv.
    destruct (st.(txns) !! v) as [vt|] eqn:Ev; [|done]. apply andb_true_iff in Hc as [Hc Hn].
    apply bool_decide_eq_true in Hc. apply negb_true_iff, bool_decide_eq_false in Hn. apply set_choose_L in Hn as [u Hu].
    exists v, u. rewrite Ev. split_and!; eauto.
  - intros (v & u & (y & [= <-] & Hy) & (vt & Ev & Hc) & (vt' & Ev' & Hu)). simplify_eq. exists v.
    rewrite Ev. split; [by apply list_elem_of_In, elem_of_elements|]. apply andb_true_iff.
    split; [by apply bool_decide_eq_true|]. apply negb_true_iff, bool_decide_eq_false. set_solver.
Qed.

Lemma tracked_aborted top st t : ssi_ok st -> tracked (aborted top st) t <-> tracked st t /\ t <> top.
Proof. intros Hok. destruct (aborted_spec top st Hok) as (Hh & _). by apply Hh. Qed.

Lemma tracked_release l : forall st t, ssi_ok st ->
  tracked (foldl (fun st top => aborted top st) st l) t <-> tracked st t /\ t ∉ l.
Proof.
  induction l as [|top l IH]; intros st t Hok; cbn [foldl].
  - split; [|by intros []]. intros Ht. split; [done|]. by intros Hin; inversion Hin.
  - rewrite IH, tracked_aborted, not_elem_of_cons by (auto using aborted_ok). naive_solver.
Qed.

Lemma elem_of_releasable z st t :
  t ∈ releasable z st <-> has st t (fun x => x.(finished) = true /\ x.(snapshot).(xmax) <= z).
Proof.
  unfold releasable, has. rewrite list_elem_of_fmap. split.
  - intros ([t' x] & -> & Hin). apply list_elem_of_filter in Hin as [Hx Hin]. apply elem_of_map_to_list in Hin. eauto.
  - intros (x & Ex & Hx). exists (t, x). split; [done|]. apply list_elem_of_filter. split; [done|]. by apply elem_of_map_to_list.
Qed.

(** ** Properties *)

(** C20: no conflict is missed.  In every run of the manager, for every read and
    every write of tracked transactions that may touch the same row, where the
    reader does not see the writer, the edge is recorded at both transactions,
    through cap collapses, identity promotions, releases and aborts of others. *)
Theorem rw_conflicts_recorded st h r w :
  ssi_reach st h -> r ∈ h.(h_reads) -> w ∈ h.(h_writes) -> overlap r w ->
  r.(a_txn) <> w.(a_txn) -> conc st r.(a_txn) w.(a_txn) ->
  eout st r.(a_txn) w.(a_txn) /\ ein st w.(a_txn) r.(a_txn).
Proof.
  intros Hr H1 H2 Ho Hne Hc. destruct (hist_ok_reach _ _ Hr) as [[_ [E1 _]] _ _ H4].
  assert (He : eout st r.(a_txn) w.(a_txn)) by (by apply H4). split; [done|by apply E1].
Qed.

(** No conflict is invented.  In every run, an edge is recorded at both ends,
    and joins distinct tracked transactions of which the reader does not see the
    writer; every reader and writer the tables name is tracked and holds that lock
    or made that write. *)
Theorem ssi_tables_agree st h :
  ssi_reach st h ->
  (forall a b, eout st a b <-> ein st b a) /\
  (forall a b, eout st a b -> a <> b /\ tracked st a /\ tracked st b /\ conc st a b) /\
  (forall t tb, t ∈ entry st.(relation_readers) tb <-> rlock st t tb) /\
  (forall t tb k, t ∈ entry st.(tuple_readers) (tb, k) <-> tlock st t tb k) /\
  (forall t tb, t ∈ entry st.(relation_writers) tb <-> rwrite st t tb) /\
  (forall t tb k, t ∈ entry st.(tuple_writers) (tb, k) <-> twrite st t tb k).
Proof.
  intros Hr. destruct (hist_ok_reach _ _ Hr) as [[[H1 H2 H3 H4 H5 H6 H7 H8] [E1 E2]] _ _ _].
  split_and!; try done. intros a b He. destruct (E2 a b He) as (Hne & Hb & Hc). split_and!; try done.
  by eapply has_tracked.
Qed.

(** C21: the commit check.  It refuses, without changing anything, exactly when the
    transaction is a pivot one of whose successors committed, when it would commit
    before a running pivot that precedes it, or when the sequence numbers are used
    up; otherwise it stamps the transaction with the next sequence number and
    leaves every other transaction. *)
Theorem commit_check_spec top st :
  match commit_check top st with
  | (st', Ok _) =>
      (st.(txns) !! top = None /\ st' = st) \/
      (tracked st top /\ ~ doomed st top /\ ~ endangers st top /\
       has st' top (fun x => x.(commit_seq) = Some st.(next_commit_seq)) /\
       st'.(next_commit_seq) = st.(next_commit_seq) + 1 /\
       (forall t, t <> top -> st'.(txns) !! t = st.(txns) !! t) /\ indexes st' = indexes st)
  | (st', Err e) =>
      st' = st /\ tracked st top /\
      ((e = serialization_failure /\ (doomed st top \/ endangers st top)) \/
       (e = db_internal "SSI commit sequence exhausted" /\ U64_MAX < st.(next_commit_seq) + 1))
  end.
Proof.
  unfold commit_check. destruct (st.(txns) !! top) as [txn|] eqn:E; [|by left].
  assert (Ht : tracked st top) by (by exists txn).
  pose proof (is_doomed_pivot_spec st top) as Hd. pose proof (dooms_in_neighbor_spec st top txn E) as He.
  destruct (is_doomed_pivot st top); [split_and!; [done|done|left; split; [done|left; by apply Hd]]|].
  destruct (dooms_in_neighbor st txn); [split_and!; [done|done|left; split; [done|right; by apply He]]|].
  unfold checked_add. destruct (N.leb_spec (next_commit_seq st + 1) U64_MAX) as [Hle|Hlt].
  - right. split_and!; [done|rewrite <- Hd; done|rewrite <- He; done| |done| |done].
    + unfold has. cbn. rewrite lookup_alter_eq, E. cbn. eauto.
    + intros t Hne. cbn. by rewrite lookup_alter_ne.
  - split_and!; [done|done|right; by split].
Qed.

(** An aborted transaction leaves no trace, in the tables and in the edges of
    the others, and takes nothing else with it. *)
Theorem abort_leaves_no_trace st h top :
  ssi_reach st h -> without top st (aborted top st) /\ ~ tracked (aborted top st) top.
Proof.
  intros Hr. destruct (hist_ok_reach _ _ Hr) as [Hok _ _ _]. split; [by apply aborted_spec|].
  rewrite tracked_aborted by done. by intros [].
Qed.

(** Releases are safe.  [release_up_to] drops exactly the finished transactions
    whose snapshot ends at or below the horizon, and no snapshot at or above the
    horizon is concurrent with one of them. *)
Theorem release_is_safe st h z :
  ssi_reach st h ->
  (forall t, tracked (release_up_to z st) t <->
     tracked st t /\ ~ has st t (fun x => x.(finished) = true /\ x.(snapshot).(xmax) <= z)) /\
  (forall t s, has st t (fun x => x.(snapshot).(xmax) <= z /\ t < x.(snapshot).(xmax)) ->
     snapshot_ok s -> z <= s.(xmin) -> concurrent s t = false).
Proof.
  intros Hr. destruct (hist_ok_reach _ _ Hr) as [Hok _ _ _]. split.
  - intros t. unfold release_up_to. rewrite tracked_release by done. by rewrite elem_of_releasable.
  - intros t s (x & Ex & Hz & Ht) Hs Hzs. unfold concurrent, contains. destruct Hs as [S1 S2].
    apply orb_false_iff. split; [apply N.leb_gt; lia|]. apply bool_decide_eq_false. intros Hin.
    pose proof (S2 t Hin). lia.
Qed.

End Ssi.

(** ** Witnesses and a run *)

(** A run from the empty manager, with its history. *)
Definition ssi_run {Key} `{Countable Key} (evs : list (ssi_event (Key := Key)))
    : SsiState (Key := Key) * History (Key := Key) :=
  foldl (fun '(st, h) ev => ((ssi_apply ev st).1, hist_apply ev st h)) (SsiState_default, mkHistory [] [] ∅) evs.

Lemma ssi_run_reach {Key} `{Countable Key} (evs : list (ssi_event (Key := Key))) :
  ssi_reach (ssi_run evs).1 (ssi_run evs).2.
Proof.
  unfold ssi_run. generalize (reach_init (Key := Key)).
  generalize (SsiState_default (Key := Key)), (mkHistory (Key := Key) [] [] ∅).
  induction evs as [|ev evs IH]; intros st h Hr; cbn; [done|]. apply IH. by constructor.
Qed.

(** Transaction 4 scans table 1 while 3 runs; 3 writes a row of it and commits; 5
    begins; 4 writes a row of table 2 and commits; 5 scans both tables and commits. *)
Definition demo_start : list (ssi_event (Key := N)) :=
  [ EvRegister registry_new 3 (mkSnapshot 3 4 []);
    EvRegister registry_new 4 (mkSnapshot 3 5 [3]);
    EvRelationRead registry_new 4 1;
    EvWrite registry_new 3 1 10 ].
Definition demo_late_reader : list (ssi_event (Key := N)) :=
  demo_start ++
  [ EvCommit 3; EvFinished 3;
    EvRegister registry_new 5 (mkSnapshot 4 6 [4]);
    EvWrite registry_new 4 2 20;
    EvCommit 4; EvFinished 4;
    EvRelationRead registry_new 5 1;
    EvRelationRead registry_new 5 2;
    EvCommit 5 ].

(** C40: a structure the checks let through.  In this run every check passes and a
    pivot commits: 5 precedes 4 (it did not see the write of 4), 4 precedes 3
    (likewise), 3 committed first, and 5 saw the write of 3; no serial order of the
    three explains what they read.  The edge into the pivot 4 is formed by a read made
    after 4 committed, and neither the reads nor the reader's commit check look at it. *)
Theorem late_reader_undetected :
  exists st, for_each demo_late_reader ssi_apply SsiState_default = (st, Ok ()) /\
  eout st 5 4 /\ eout st 4 3 /\ ~ conc st 5 3 /\
  has st 3 (fun x => x.(commit_seq) = Some 0) /\ has st 4 (fun x => x.(commit_seq) = Some 1) /\
  has st 5 (fun x => x.(commit_seq) = Some 2).
Proof.
  eexists. split; [vm_compute; reflexivity|]. split_and!.
  - eexists. split; vm_compute; reflexivity.
  - eexists. split; vm_compute; reflexivity.
  - intros (x & Ex & Hx). vm_compute in Ex. injection Ex as <-. by vm_compute in Hx.
  - eexists. split; vm_compute; reflexivity.
  - eexists. split; vm_compute; reflexivity.
  - eexists. split; vm_compute; reflexivity.
Qed.

Lemma rw_conflicts_recorded_witness : eout (ssi_run demo_start).1 4 3 /\ ein (ssi_run demo_start).1 3 4.
Proof.
  apply (rw_conflicts_recorded (ssi_run demo_start).1 (ssi_run demo_start).2 (mkAccess 4 1 0 None) (mkAccess 3 1 0 (Some 10))).
  - apply ssi_run_reach.
  - vm_compute. constructor.
  - vm_compute. constructor.
  - split; [reflexivity|]. right. left. reflexivity.
  - vm_compute. congruence.
  - eexists. split; vm_compute; reflexivity.
Defined.

Lemma ssi_tables_agree_witness : eout (ssi_run demo_start).1 4 3 <-> ein (ssi_run demo_start).1 3 4.
Proof. apply (ssi_tables_agree _ _ (ssi_run_reach demo_start)). Defined.

Lemma abort_leaves_no_trace_witness : ~ tracked (aborted 4 (ssi_run demo_start).1) 4.
Proof. exact (proj2 (abort_leaves_no_trace _ _ 4 (ssi_run_reach demo_start))). Defined.

Lemma release_is_safe_witness : concurrent (mkSnapshot 5 8 [6]) 4 = false.
Proof.
  refine (proj2 (release_is_safe _ _ 5 (ssi_run_reach demo_start)) 4 (mkSnapshot 5 8 [6]) _ _ _).
  - eexists. split; [vm_compute; reflexivity|]. cbn. lia.
  - split; cbn; [lia|]. intros x Hx. apply list_elem_of_singleton in Hx as ->. lia.
  - cbn. lia.
Defined.
