(* ===== verification/TxnSystem.v ===== *)
(** * Snapshots over the registry, the allocator and the CLOG

    (src/crates/server/src/query/txn.rs: [register_active_txn],
    [register_active_subxid], [try_capture_snapshot_for_transaction];
    src/crates/server/src/app.rs: [gc_horizon])

    The transaction system as the server composes it: ids are allocated and
    registered in one latched step, a snapshot is captured and its [xmin]
    advertised in one, statuses settle in the CLOG, and a family leaves the active
    set in one batch.  Threads interleave at these steps.  Shown: a live snapshot
    sees the same versions however long it lives, and the horizon of VACUUM is
    safe for the live snapshots and for those captured after it. *)

From stdpp Require Import relations.
From S2P Require Import Prelude Mvcc Clog Registry.
Local Open Scope N_scope.

(** ** State *)

(** [live] holds the captured snapshots whose guard is held, with their [own_txn]. *)
Record TxnSystem : Type := mkSystem {
  sys_registry : RegistryState;
  next_txn_id : N;
  sys_clog : Clog;
  live : list (TxnId * Snapshot)
}.

Definition with_registry (r : RegistryState) (s : TxnSystem) : TxnSystem :=
  mkSystem r s.(next_txn_id) s.(sys_clog) s.(live).
Definition with_sys_clog (c : Clog) (s : TxnSystem) : TxnSystem :=
  mkSystem s.(sys_registry) s.(next_txn_id) c s.(live).

(** ** Operations *)

(** [next_txn_id.fetch_add(1)]: the old value, wrapping. *)
Definition allocate_id (n : N) : TxnId * N := (n, (n + 1) mod 2 ^ 64).

Definition register_active_txn (s : TxnSystem) : TxnId * TxnSystem :=
  let '(id, n, r) := register_allocated s.(sys_registry) allocate_id s.(next_txn_id) in
  (id, mkSystem r n s.(sys_clog) s.(live)).

Definition register_active_subxid (top : TxnId) (s : TxnSystem) : TxnId * TxnSystem :=
  let '(id, n, r) := register_subxid_allocated s.(sys_registry) top allocate_id s.(next_txn_id) in
  (id, mkSystem r n s.(sys_clog) s.(live)).

Definition try_capture_snapshot_for_transaction (own_txn : TxnId) (bypass : bool) (s : TxnSystem)
    : option (Snapshot * TxnSystem) :=
  '(ids, xm, xn, r) ← try_capture_with_exclusion_bypass s.(sys_registry) bypass s.(next_txn_id);
  let snap := mkSnapshot xn xm (filter (fun id => id <> own_txn) ids) in
  Some (snap, mkSystem r s.(next_txn_id) s.(sys_clog) ((own_txn, snap) :: s.(live))).

Definition gc_horizon (s : TxnSystem) : TxnId :=
  default s.(next_txn_id) (oldest_xmin s.(sys_registry)).

(** Statuses of a family, as a flushed commit or an abort leaves them. *)
Definition commit_family (family : list TxnId) (c : Clog) : Clog := foldl set_committed c family.
Definition abort_family (family : list TxnId) (c : Clog) : Clog := foldl set_aborted c family.

(** ** Steps *)

(** A transaction that may settle: active and without a status yet. *)
Definition unsettled (s : TxnSystem) (x : TxnId) : Prop :=
  x ∈ s.(sys_registry).(active) /\ Clog_status s.(sys_clog) x = InProgress.

(** Allocation stops short of exhausting the 64-bit ids. *)
Inductive sys_step : TxnSystem -> TxnSystem -> Prop :=
  | sys_begin s id s' :
      s.(next_txn_id) < U64_MAX -> register_active_txn s = (id, s') -> sys_step s s'
  | sys_begin_sub s top id s' :
      s.(next_txn_id) < U64_MAX -> register_active_subxid top s = (id, s') -> sys_step s s'
  | sys_capture s own bypass snap s' :
      try_capture_snapshot_for_transaction own bypass s = Some (snap, s') -> sys_step s s'
  | sys_drop s own snap l1 l2 :
      s.(live) = l1 ++ (own, snap) :: l2 ->
      sys_step s (mkSystem (release_advertised s.(sys_registry) snap.(xmin)) s.(next_txn_id) s.(sys_clog) (l1 ++ l2))
  | sys_commit s family :
      Forall (unsettled s) family -> sys_step s (with_sys_clog (commit_family family s.(sys_clog)) s)
  | sys_abort s family :
      Forall (unsettled s) family -> sys_step s (with_sys_clog (abort_family family s.(sys_clog)) s)
  | sys_finish s ids :
      sys_step s (with_registry (deregister_all s.(sys_registry) ids) s)
  | sys_exclude s r :
      take_snapshot_exclusion s.(sys_registry) = Some r -> sys_step s (with_registry r s)
  | sys_unexclude s :
      sys_step s (with_registry (clear_snapshot_exclusion s.(sys_registry)) s).

Definition sys_new (c : Clog) (next : N) : TxnSystem := mkSystem registry_new next c [].

(** The ids handed out so far are below the boundary. *)
Definition sys_reach (s : TxnSystem) : Prop :=
  exists c next, FIRST_NORMAL_XID <= next /\ rtc sys_step (sys_new c next) s.

(** ** The invariant *)

Record sys_ok (s : TxnSystem) : Prop := {
  y_next : FIRST_NORMAL_XID <= s.(next_txn_id);
  y_active : forall x, x ∈ s.(sys_registry).(active) -> FIRST_NORMAL_XID <= x < s.(next_txn_id);
  y_positive : counts_positive s.(sys_registry);
  y_counts : forall x, advertised s.(sys_registry) x =
    N.of_nat (length (filter (fun p => p.2.(xmin) = x) s.(live)));
  y_bounds : forall own snap, (own, snap) ∈ s.(live) -> snapshot_ok snap /\ snap.(xmax) <= s.(next_txn_id);
  y_past : forall own snap x, (own, snap) ∈ s.(live) -> x < snap.(xmax) -> x ∉ snap.(xip) -> x <> own ->
    x ∉ s.(sys_registry).(active)
}.

(** What a step may change: the active set gains only the next id, and statuses
    settle only for active ids. *)
Record sys_moves (s s' : TxnSystem) : Prop := {
  m_next : s.(next_txn_id) <= s'.(next_txn_id);
  m_active : forall x, x ∈ s'.(sys_registry).(active) ->
    x ∈ s.(sys_registry).(active) \/ s.(next_txn_id) <= x < s'.(next_txn_id);
  m_status : forall x, Clog_status s'.(sys_clog) x <> Clog_status s.(sys_clog) x -> 
    Clog_status s.(sys_clog) x = InProgress /\ (x ∈ s.(sys_registry).(active) \/ s.(next_txn_id) <= x)
}.

#[local] Instance sys_moves_preorder : PreOrder sys_moves.
Proof.
  split.
  - intros s. split; [lia|by left|done].
  - intros s1 s2 s3 [A1 A2 A3] [B1 B2 B3]. split.
    + lia.
    + intros x Hx. destruct (B2 x Hx) as [Hx2|?]; [|right; lia]. destruct (A2 x Hx2) as [?|?]; [by left|right; lia].
    + intros x Hne. destruct (decide (Clog_status s2.(sys_clog) x = Clog_status s1.(sys_clog) x)) as [E|E].
      * rewrite <- E in Hne |- *. destruct (B3 x Hne) as [? [Hx|?]]; (split; [done|]).
        -- destruct (A2 x Hx) as [?|?]; [by left|right; lia].
        -- right. lia.
      * by apply A3.
Qed.

Lemma status_settle (st : TxnStatus) family : forall c x,
  FIRST_NORMAL_XID <= x ->
  Clog_status (foldl (fun c id => mkClog (<[id := st]> c.(statuses)) c.(committed_floor)) c family) x =
  if decide (x ∈ family) then st else Clog_status c x.
Proof.
  induction family as [|y family IH]; intros c x Hx; cbn [foldl].
  { rewrite decide_False; [done|]. by intros Hin; inversion Hin. }
  rewrite IH by done. destruct (decide (x ∈ family)) as [Hin|Hin].
  - rewrite decide_True; [done|by constructor].
  - unfold Clog_status. cbn. destruct (N.ltb_spec x FIRST_NORMAL_XID); [lia|]. rewrite lookup_insert.
    destruct (decide (y = x)) as [->|Hne].
    + rewrite decide_True; [done|constructor].
    + rewrite decide_False; [done|]. rewrite elem_of_cons. naive_solver.
Qed.

(** Settling unsettled transactions. *)
Lemma moves_settle st s family :
  sys_ok s -> Forall (unsettled s) family ->
  sys_moves s (with_sys_clog (foldl (fun c id => mkClog (<[id := st]> c.(statuses)) c.(committed_floor))
                                s.(sys_clog) family) s).
Proof.
  intros Hok Hf. split; cbn; [lia|by left|]. intros x Hne.
  destruct (N.ltb_spec x FIRST_NORMAL_XID) as [Hlt|Hge].
  { destruct Hne. unfold Clog_status. by rewrite (proj2 (N.ltb_lt _ _) Hlt). }
  rewrite status_settle in Hne by done. destruct (decide (x ∈ family)) as [Hin|Hin]; [|done].
  rewrite Forall_forall in Hf. destruct (Hf x Hin) as [Ha Hs]. split; [done|by left].
Qed.

Lemma allocate_moves n : n < U64_MAX -> allocate_id n = (n, n + 1).
Proof. intros Hn. unfold allocate_id. rewrite N.mod_small; [done|]. unfold U64_MAX in Hn. lia. Qed.

Lemma sys_step_moves s s' : sys_ok s -> sys_step s s' -> sys_moves s s'.
Proof.
  intros Hok Hs.
  destruct Hs as [s id s' Hn E|s top id s' Hn E|s own bypass snap s' E|s own snap l1 l2 E|s family Hf|s family Hf
    |s ids|s r E|s].
  - unfold register_active_txn, register_allocated in E. rewrite allocate_moves in E by done. simplify_eq.
    split; cbn; [lia| |done]. intros x Hx. apply elem_of_union in Hx as [->%elem_of_singleton|?]; [right; lia|by left].
  - unfold register_active_subxid, register_subxid_allocated in E. rewrite allocate_moves in E by done. simplify_eq.
    split; cbn; [lia| |done]. intros x Hx. apply elem_of_union in Hx as [->%elem_of_singleton|?]; [right; lia|by left].
  - unfold try_capture_snapshot_for_transaction, try_capture_with_exclusion_bypass, capture in E.
    destruct (_ && _); cbn in E; [done|]. simplify_eq. split; cbn; [lia|by left|done].
  - split; cbn; [lia| |done]. rewrite release_active. by left.
  - by apply moves_settle.
  - by apply moves_settle.
  - split; cbn; [lia| |done]. intros x Hx. apply active_deregister_all in Hx as [Hx _]. by left.
  - unfold take_snapshot_exclusion in E. destruct (snapshot_exclusion _); [done|]. simplify_eq.
    split; cbn; [lia|by left|done].
  - split; cbn; [lia|by left|done].
Qed.

(** A step that captures nothing and drops nothing keeps the invariant. *)
Lemma sys_ok_quiet s s' :
  sys_ok s -> sys_moves s s' -> s'.(live) = s.(live) -> s'.(sys_registry).(xmins) = s.(sys_registry).(xmins) ->
  sys_ok s'.
Proof.
  intros [H0 H1 H2 H3 H4 H5] [M1 M2 M3] Hl Hx. split.
  - lia.
  - intros x Hx'. destruct (M2 x Hx') as [Ha|?]; [specialize (H1 x Ha)|]; lia.
  - intros x. by rewrite Hx.
  - intros x. unfold advertised. rewrite Hx, Hl. apply H3.
  - intros own snap. rewrite Hl. intros Hin. destruct (H4 own snap Hin). split; [done|lia].
  - intros own snap x. rewrite Hl. intros Hin Hlt Hnx Hne Ha. destruct (M2 x Ha) as [Ha'|?].
    + by eapply H5.
    + destruct (H4 own snap Hin). lia.
Qed.

(** The snapshot a capture builds. *)
Lemma capture_snapshot own bypass s snap s' :
  sys_ok s -> try_capture_snapshot_for_transaction own bypass s = Some (snap, s') ->
  snapshot_ok snap /\ snap.(xmax) = s.(next_txn_id) /\
  (forall x, x ∈ snap.(xip) <-> x ∈ s.(sys_registry).(active) /\ x <> own) /\
  s' = mkSystem (advertise_xmin s.(sys_registry) snap.(xmin)) s.(next_txn_id) s.(sys_clog) ((own, snap) :: s.(live)).
Proof.
  intros [H0 H1 H2 H3 H4 H5] E. unfold try_capture_snapshot_for_transaction, try_capture_with_exclusion_bypass in E.
  destruct (_ && _); cbn in E; [done|].
  destruct (capture s.(sys_registry) s.(next_txn_id)) as [[[ids xm] xn] r] eqn:Ec. simplify_eq.
  assert (Hb : forall y, y ∈ s.(sys_registry).(active) -> y < s.(next_txn_id)) by (intros y Hy; by apply H1).
  pose proof (fun x => capture_xmin_le _ _ _ _ _ _ x Ec Hb) as Hle. unfold capture in Ec. simplify_eq.
  assert (Hin : forall x, x ∈ filter (fun id => id <> own) (sorted_ids (active (sys_registry s))) <->
    x ∈ active (sys_registry s) /\ x <> own).
  { intros x. rewrite list_elem_of_filter, elem_of_sorted_ids. naive_solver. }
  split_and!; [|done|exact Hin|done]. split; cbn.
  - apply (Hle 0).
  - intros x Hx. apply Hin in Hx as [Hx _]. split; [by apply Hle|by apply Hb].
Qed.

Lemma length_filter_cons {A} (P : A -> Prop) `{forall x, Decision (P x)} x l :
  length (filter P (x :: l)) = ((if decide (P x) then 1 else 0) + length (filter P l))%nat.
Proof. rewrite filter_cons. by case_decide. Qed.

Lemma sys_ok_step s s' : sys_ok s -> sys_step s s' -> sys_ok s'.
Proof.
  intros Hok Hs. pose proof (sys_step_moves s s' Hok Hs) as Hm.
  destruct Hs as [s id s' Hn E|s top id s' Hn E|s own bypass snap s' E|s own snap l1 l2 E|s family Hf|s family Hf
    |s ids|s r E|s]; try (by eapply sys_ok_quiet; [exact Hok|exact Hm| |]).
  - eapply sys_ok_quiet; [exact Hok|exact Hm| |]; unfold register_active_txn in E; cbn in E; by simplify_eq.
  - eapply sys_ok_quiet; [exact Hok|exact Hm| |]; unfold register_active_subxid in E; cbn in E; by simplify_eq.
  - destruct (capture_snapshot _ _ _ _ _ Hok E) as (Hsn & Hx & Hin & ->). destruct Hok as [H0 H1 H2 H3 H4 H5].
    split; cbn [sys_registry next_txn_id sys_clog live]; [done|done|by apply advertise_xmin_positive| | |].
    + intros x. rewrite advertise_xmin_counts, H3, length_filter_cons. cbn. repeat case_decide; subst; try done; lia.
    + intros o sn Hl. apply elem_of_cons in Hl as [[= -> ->]|Hl]; [split; [done|lia]|by apply (H4 o)].
    + intros o sn x Hl Hlt Hnx Hne. apply elem_of_cons in Hl as [[= -> ->]|Hl]; [|by eapply H5].
      intros Ha. apply Hnx, Hin. done.
  - destruct Hok as [H0 H1 H2 H3 H4 H5]. rewrite E in H3, H4, H5.
    assert (Hsub : forall p, p ∈ l1 ++ l2 -> p ∈ l1 ++ (own, snap) :: l2)
      by (intros p; rewrite !elem_of_app, elem_of_cons; naive_solver).
    split; cbn [sys_registry next_txn_id sys_clog live];
      [done|by rewrite release_active|by apply release_advertised_positive| | |].
    + intros x. rewrite release_advertised_counts, H3 by done.
      rewrite !filter_app, !length_app, length_filter_cons. cbn. repeat case_decide; subst; try done; lia.
    + intros o sn Hl. by apply (H4 o), Hsub.
    + intros o sn x Hl. rewrite release_active. by eapply H5, Hsub.
  - eapply sys_ok_quiet; [exact Hok|exact Hm|done|]. cbn. apply xmins_deregister_all.
  - eapply sys_ok_quiet; [exact Hok|exact Hm|done|]. unfold take_snapshot_exclusion in E.
    destruct (snapshot_exclusion _); by simplify_eq.
Qed.

Lemma sys_ok_reach s : sys_reach s -> sys_ok s.
Proof.
  intros (c & next & Hn & Hr). revert Hr. apply (rtc_ind_r (fun s => sys_ok s) (sys_new c next)).
  - split; cbn; [done|set_solver|intros x; cbn; by rewrite lookup_empty| | |].
    + intros x. unfold advertised. cbn. by rewrite lookup_empty.
    + intros o sn Hin. by inversion Hin.
    + intros o sn x Hin. by inversion Hin.
  - intros s1 s2 _ Hs Hok. by eapply sys_ok_step.
Qed.

(** Along a run. *)
Lemma sys_run_moves s s' : sys_ok s -> rtc sys_step s s' -> sys_ok s' /\ sys_moves s s'.
Proof.
  intros Hok Hr. revert s' Hr. apply (rtc_ind_r (fun s' => sys_ok s' /\ sys_moves s s') s).
  - split; [done|reflexivity].
  - intros s1 s2 _ Hs [Hok1 Hm]. split; [by eapply sys_ok_step|]. etrans; [exact Hm|by apply sys_step_moves].
Qed.

(** A settled id, or one that has left the active set, keeps its status. *)
Lemma sys_moves_evolves s s' : sys_moves s s' -> status_evolves s.(sys_clog) s'.(sys_clog).
Proof.
  intros M x Hx. destruct (decide (Clog_status s'.(sys_clog) x = Clog_status s.(sys_clog) x)) as [E|E]; [done|].
  destruct (m_status _ _ M x E). by destruct Hx.
Qed.

Lemma sys_moves_past s s' x :
  sys_moves s s' -> x < s.(next_txn_id) -> x ∉ s.(sys_registry).(active) ->
  Clog_status s'.(sys_clog) x = Clog_status s.(sys_clog) x /\ x ∉ s'.(sys_registry).(active).
Proof.
  intros M Hx Ha. split.
  - destruct (decide (Clog_status s'.(sys_clog) x = Clog_status s.(sys_clog) x)) as [E|E]; [done|].
    destruct (m_status _ _ M x E) as [_ [?|?]]; [done|lia].
  - intros Ha'. destruct (m_active _ _ M x Ha') as [?|?]; [done|lia].
Qed.

(** The effect of an id is as visible to a live snapshot later as it is now. *)
Lemma effect_visible_stable s s' own snap cur x :
  sys_ok s -> sys_moves s s' -> (own, snap) ∈ s.(live) -> own ∈ cur \/ own = INVALID_XID ->
  effect_visible x snap cur s.(sys_clog) <-> effect_visible x snap cur s'.(sys_clog).
Proof.
  intros [H0 H1 H2 H3 H4 H5] M Hl Hown. unfold effect_visible.
  destruct (decide (x ∈ cur)) as [Hc|Hc]; [naive_solver|].
  destruct (decide (x < snap.(xmax) /\ x ∉ snap.(xip))) as [[Hx Hi]|Hn]; [|naive_solver].
  assert (Ha : x ∉ s.(sys_registry).(active)).
  { destruct (decide (x = own)) as [->|Hne]; [|by eapply H5]. destruct Hown as [?| ->]; [done|].
    intros Ha%H1. unfold FIRST_NORMAL_XID, INVALID_XID in *. lia. }
  destruct (H4 own snap Hl) as [_ Hm]. destruct (sys_moves_past s s' x M) as [E _]; [lia|done|].
  change (status (sys_clog s') x) with (Clog_status (sys_clog s') x).
  change (status (sys_clog s) x) with (Clog_status (sys_clog s) x). by rewrite E.
Qed.

(** Horizons. *)
Lemma gc_horizon_le s own snap : sys_ok s -> (own, snap) ∈ s.(live) -> gc_horizon s <= snap.(xmin).
Proof.
  intros [H0 H1 H2 H3 H4 H5] Hl. unfold gc_horizon.
  assert (Hadv : 0 < advertised s.(sys_registry) snap.(xmin)).
  { rewrite H3. apply list_elem_of_split in Hl as (l1 & l2 & ->).
    rewrite filter_app, length_app, length_filter_cons. cbn. rewrite decide_True by done. lia. }
  unfold advertised in Hadv. destruct (xmins s.(sys_registry) !! xmin snap) as [n|] eqn:E; cbn in Hadv; [|lia].
  destruct (oldest_xmin_le _ _ _ E) as (m & -> & Hm). done.
Qed.

(** A snapshot that is live later is live now, or was captured in between. *)
Lemma live_since s s' own snap :
  sys_ok s -> rtc sys_step s s' -> (own, snap) ∈ s'.(live) ->
  (own, snap) ∈ s.(live) \/
  exists s1, sys_ok s1 /\ sys_moves s s1 /\ snap.(xmax) = s1.(next_txn_id) /\
    (forall x, x ∈ snap.(xip) -> x ∈ s1.(sys_registry).(active)).
Proof.
  intros Hok Hr. revert s' Hr. apply (rtc_ind_r (fun s' => (own, snap) ∈ s'.(live) -> _) s); [by left|].
  intros s1 s2 Hr Hs IH Hl. destruct (sys_run_moves s s1 Hok Hr) as [Hok1 M].
  destruct Hs as [s1 id s2 Hn E|s1 top id s2 Hn E|s1 o bypass sn s2 E|s1 o sn l1 l2 E|s1 family Hf|s1 family Hf
    |s1 ids|s1 r E|s1]; try (by apply IH).
  - unfold register_active_txn in E. cbn in E. simplify_eq. by apply IH.
  - unfold register_active_subxid in E. cbn in E. simplify_eq. by apply IH.
  - destruct (capture_snapshot _ _ _ _ _ Hok1 E) as (_ & Hx & Hin & ->). cbn in Hl.
    apply elem_of_cons in Hl as [[= -> ->]|Hl]; [|by apply IH]. right. exists s1. split_and!; try done.
    intros x Hx'. by apply Hin in Hx' as [? _].
  - apply IH. rewrite E. cbn in Hl. revert Hl. rewrite !elem_of_app, elem_of_cons. naive_solver.
Qed.

Lemma gc_horizon_next s : sys_ok s -> gc_horizon s <= s.(next_txn_id).
Proof.
  intros [H0 H1 H2 H3 H4 H5]. unfold gc_horizon, oldest_xmin.
  destruct (head (sorted_ids (dom (xmins s.(sys_registry))))) as [m|] eqn:E; cbn; [|lia].
  apply head_sorted_ids_Some in E as [Hm _]. apply elem_of_dom in Hm as [n Hn].
  assert (Hpos : 0 < advertised s.(sys_registry) m).
  { unfold advertised. rewrite Hn. cbn. destruct (decide (n = 0)) as [->|]; [by destruct (H2 m)|lia]. }
  rewrite H3 in Hpos. destruct (filter (fun p => xmin p.2 = m) (live s)) as [|[o sn] l] eqn:Ef; [cbn in Hpos; lia|].
  assert (Hin : (o, sn) ∈ filter (fun p => xmin p.2 = m) (live s)) by (rewrite Ef; constructor).
  apply list_elem_of_filter in Hin as [<- Hin]. destruct (H4 o sn Hin) as [[Hb _] Hle]. cbn. lia.
Qed.

(** ** Properties *)

(** C11: snapshots are stable.  While its guard is held, a snapshot shows its owner
    exactly the same versions in every later state of the system, whatever the
    other transactions begin, commit, abort or capture meanwhile. *)
Theorem snapshot_stable s s' own snap cur vxmin vxmax im :
  sys_reach s -> (own, snap) ∈ s.(live) -> own ∈ cur \/ own = INVALID_XID ->
  rtc sys_step s s' -> hints_sound vxmin vxmax im s.(sys_clog) ->
  is_visible vxmin vxmax im snap cur s'.(sys_clog) = is_visible vxmin vxmax im snap cur s.(sys_clog).
Proof.
  intros Hr Hl Hown Hrun Hh. pose proof (sys_ok_reach s Hr) as Hok. destruct (sys_run_moves s s' Hok Hrun) as [_ M].
  pose proof (hints_sound_evolves _ _ _ _ _ (sys_moves_evolves _ _ M) Hh) as Hh'.
  apply eq_true_iff_eq. rewrite (is_visible_iff _ _ _ _ _ _ Hh), (is_visible_iff _ _ _ _ _ _ Hh').
  by rewrite <- !(effect_visible_stable s s' own snap cur) by done.
Qed.

(** C12: what VACUUM reclaims at [gc_horizon] nobody can ever see.  A version dead at
    the horizon, whose deleter has left the active set (the [Share] lock VACUUM holds
    on the table sees to it), is invisible in every later state to every live
    snapshot, captured before or after, whose owner did not create it. *)
Theorem vacuum_horizon_safe s s' own snap cur vxmin vxmax im :
  sys_reach s -> hints_sound vxmin vxmax im s.(sys_clog) ->
  is_dead_to_all vxmin vxmax im (gc_horizon s) s.(sys_clog) = true ->
  vxmax ∉ s.(sys_registry).(active) ->
  rtc sys_step s s' -> (own, snap) ∈ s'.(live) -> vxmin ∉ cur ->
  is_visible vxmin vxmax im snap cur s'.(sys_clog) = false.
Proof.
  intros Hr Hh Hdead Hna Hrun Hl Hown. pose proof (sys_ok_reach s Hr) as Hok.
  destruct (sys_run_moves s s' Hok Hrun) as [Hok' M]. pose proof (sys_moves_evolves _ _ M) as Hev.
  apply is_visible_false; [by eapply hints_sound_evolves|].
  apply (is_dead_to_all_iff _ _ _ _ _ Hh) in Hdead as [Ha|(Hx & Hlt & Hc)].
  { left. intros [?|(_ & _ & Hc)]; [done|]. rewrite Hev in Hc; congruence. }
  right. split; [done|]. assert (Hc' : status s'.(sys_clog) vxmax = Committed) by (rewrite Hev; congruence).
  destruct (live_since s s' own snap Hok Hrun Hl) as [Hold|(s1 & Hok1 & M1 & Hxm & Hxip)].
  - eapply effect_visible_below; [by apply (y_bounds _ Hok own)|by apply (gc_horizon_le s own)|done|done].
  - right. split_and!; [| |done].
    + assert (gc_horizon s <= s.(next_txn_id)) by (by apply gc_horizon_next). pose proof (m_next _ _ M1). lia.
    + intros Hin. apply Hxip in Hin. assert (gc_horizon s <= s.(next_txn_id)) by (by apply gc_horizon_next).
      destruct (sys_moves_past s s1 vxmax M1) as [_ Hna1]; [lia|done|]. done.
Qed.

(** ** Witnesses: transactions 3 and 4; 4 holds a snapshot while 3 commits *)

Definition demo_s0 : TxnSystem := sys_new Clog_new 3.
Definition demo_s1 : TxnSystem := (register_active_txn demo_s0).2.
Definition demo_s2 : TxnSystem := (register_active_txn demo_s1).2.
Definition demo_snap : Snapshot := mkSnapshot 3 5 [3].
Definition demo_s3 : TxnSystem :=
  mkSystem (advertise_xmin demo_s2.(sys_registry) 3) 5 Clog_new [(4, demo_snap)].
Definition demo_s4 : TxnSystem := with_sys_clog (commit_family [3] Clog_new) demo_s3.

Lemma demo_unsettled s x : x ∈ s.(sys_registry).(active) -> Clog_status s.(sys_clog) x = InProgress ->
  Forall (unsettled s) [x].
Proof. intros Ha Hs. by repeat constructor. Qed.

Lemma demo_reach3 : sys_reach demo_s3.
Proof.
  exists Clog_new, 3. split; [done|]. eapply rtc_r; [eapply rtc_r; [apply rtc_once|]|].
  - eapply (sys_begin _ 3 demo_s1); [done|]. vm_compute. reflexivity.
  - eapply (sys_begin _ 4 demo_s2); [done|]. vm_compute. reflexivity.
  - eapply (sys_capture _ 4 false demo_snap). vm_compute. reflexivity.
Qed.

Lemma demo_step34 : sys_step demo_s3 demo_s4.
Proof.
  apply (sys_commit demo_s3 [3]), demo_unsettled; [|vm_compute; reflexivity].
  apply (bool_decide_eq_true_1 (3 ∈ demo_s3.(sys_registry).(active))). vm_compute. reflexivity.
Qed.

(** The version of transaction 3 stays invisible to 4 after 3 has committed. *)
Lemma snapshot_stable_witness :
  is_visible 3 0 0 demo_snap [4] demo_s4.(sys_clog) = is_visible 3 0 0 demo_snap [4] demo_s3.(sys_clog).
Proof.
  apply (snapshot_stable demo_s3 demo_s4 4 demo_snap [4] 3 0 0).
  - exact demo_reach3.
  - constructor.
  - left. constructor.
  - apply rtc_once, demo_step34.
  - split; vm_compute; congruence.
Defined.

(** Transaction 3 deletes a frozen row, commits and leaves; a reader comes later. *)
Definition demo_v2 : TxnSystem := with_sys_clog (commit_family [3] Clog_new) demo_s1.
Definition demo_v3 : TxnSystem := with_registry (deregister_all demo_v2.(sys_registry) [3]) demo_v2.
Definition demo_late : Snapshot := mkSnapshot 4 4 [].
Definition demo_v4 : TxnSystem :=
  mkSystem (advertise_xmin demo_v3.(sys_registry) 4) 4 demo_v3.(sys_clog) [(INVALID_XID, demo_late)].

Lemma demo_reach_v3 : sys_reach demo_v3.
Proof.
  exists Clog_new, 3. split; [done|]. eapply rtc_r; [eapply rtc_r; [apply rtc_once|]|].
  - eapply (sys_begin _ 3 demo_s1); [done|]. vm_compute. reflexivity.
  - apply (sys_commit demo_s1 [3]), demo_unsettled; [|vm_compute; reflexivity].
    apply (bool_decide_eq_true_1 (3 ∈ demo_s1.(sys_registry).(active))). vm_compute. reflexivity.
  - apply (sys_finish demo_v2 [3]).
Qed.

Lemma vacuum_horizon_safe_witness : is_visible 2 3 0 demo_late [] demo_v4.(sys_clog) = false.
Proof.
  apply (vacuum_horizon_safe demo_v3 demo_v4 INVALID_XID demo_late [] 2 3 0).
  - exact demo_reach_v3.
  - split; vm_compute; congruence.
  - vm_compute. reflexivity.
  - apply (bool_decide_eq_false_1 (3 ∈ demo_v3.(sys_registry).(active))). vm_compute. reflexivity.
  - apply rtc_once. eapply (sys_capture _ INVALID_XID false demo_late). vm_compute. reflexivity.
  - constructor.
  - intros Hin. inversion Hin.
Defined.
