(* ===== verification/TupleHeader.v ===== *)
(** * The MVCC header of a tuple (src/crates/storage/src/codec.rs)

    A row of format 2 or 3 starts with its version byte and a 24-byte header:
    the hint bits, the creating and the deleting transaction and the address of the
    next version.  The header is written once with the row, read by every visibility
    check and mutated in place by updates and deletes. *)

From S2P Require Import Prelude Errors Mvcc CheckedBytes ByteArray.
Local Open Scope N_scope.

Definition ROW_FORMAT_VERSION_V1 : N := 1.
Definition ROW_FORMAT_VERSION_V2 : N := 2.
Definition ROW_FORMAT_VERSION_V3 : N := 3.
Definition V2_MVCC_HEADER_LEN : N := 2 + 8 + 8 + 6.
Definition INVALID_TID : N * N := (U32_MAX, U16_MAX).
Definition HEAP_ONLY : N := N.shiftl 1 4.
Definition HOT_UPDATED : N := N.shiftl 1 5.

Record MvccHeader : Type := mkMvccHeader {
  h_xmin : TxnId;
  h_xmax : TxnId;
  h_t_ctid : N * N;
  h_infomask : N
}.

Definition MvccHeader_fresh (txn_id : TxnId) (infomask : N) : MvccHeader :=
  mkMvccHeader txn_id INVALID_XID INVALID_TID infomask.

Definition corrupt_row (m : string) : DbError := db_storage InternalError m.

(** [&mut header] of exactly [V2_MVCC_HEADER_LEN] bytes; every write is in bounds. *)
Definition write_mvcc_header (header : bytes) (mvcc : MvccHeader) : DbResult bytes :=
  if negb (len header =? V2_MVCC_HEADER_LEN) then Err (corrupt_row "MVCC header has an invalid length")
  else
    let header := write_le 2 header 0 mvcc.(h_infomask) in
    let header := write_le 8 header 2 mvcc.(h_xmin) in
    let header := write_le 8 header 10 mvcc.(h_xmax) in
    let header := write_le 4 header 18 mvcc.(h_t_ctid).1 in
    Ok (write_le 2 header 22 mvcc.(h_t_ctid).2).

(** [read_array] at the running offset: after the length check every field is there. *)
Definition read_mvcc_header (header : bytes) : DbResult MvccHeader :=
  if negb (len header =? V2_MVCC_HEADER_LEN) then Err (corrupt_row "row v2 header has the wrong length")
  else
    let infomask := read_le 2 header 0 in
    let xmin := read_le 8 header 2 in
    let xmax := read_le 8 header 10 in
    let page := read_le 4 header 18 in
    let slot := read_le 2 header 22 in
    Ok (mkMvccHeader xmin xmax (page, slot) infomask).

(** The values [(xmin, xmax, t_ctid, infomask)] of a tuple of any format. *)
Definition decode_mvcc_header (tuple : bytes) : DbResult (TxnId * TxnId * (N * N) * N) :=
  match head tuple with
  | Some version =>
      if (version =? ROW_FORMAT_VERSION_V2) || (version =? ROW_FORMAT_VERSION_V3) then
        header ← ok_or (get_range tuple 1 (1 + V2_MVCC_HEADER_LEN))
                   (corrupt_row "tuple is shorter than its v2 header");
        header ← read_mvcc_header header;
        Ok (header.(h_xmin), header.(h_xmax), header.(h_t_ctid), header.(h_infomask))
      else if version =? ROW_FORMAT_VERSION_V1
      then Ok (FROZEN_XID, INVALID_XID, INVALID_TID, XMIN_COMMITTED)
      else Err (corrupt_row ("unsupported row format version " +:+ pretty version))
  | None => Err (corrupt_row "row is shorter than its header")
  end.

(** The mutated tuple; an error is returned before anything is written. *)
Definition set_mvcc_header_fields (tuple : bytes) (xmax : TxnId) (t_ctid : N * N) (infomask : N)
    : DbResult bytes :=
  match head tuple with
  | Some version =>
      if (version =? ROW_FORMAT_VERSION_V2) || (version =? ROW_FORMAT_VERSION_V3) then
        header ← ok_or (get_range tuple 1 (1 + V2_MVCC_HEADER_LEN))
                   (corrupt_row "tuple is shorter than its v2 header");
        let header := write_le 2 header 0 infomask in
        let header := write_le 8 header 10 xmax in
        let header := write_le 4 header 18 t_ctid.1 in
        let header := write_le 2 header 22 t_ctid.2 in
        Ok (blit tuple 1 header)
      else Err (corrupt_row "cannot mutate header of a non-MVCC (or empty) tuple")
  | None => Err (corrupt_row "cannot mutate header of a non-MVCC (or empty) tuple")
  end.

(** ** Lemmas *)

(** The fields have the widths of their types. *)
Definition header_widths (xmax : TxnId) (t_ctid : N * N) (infomask : N) : Prop :=
  xmax <= U64_MAX /\ t_ctid.1 <= U32_MAX /\ t_ctid.2 <= U16_MAX /\ infomask <= U16_MAX.

Lemma get_range_inv b start stop r :
  get_range b start stop = Some r -> start <= stop /\ stop <= len b /\ r = sub b start (stop - start).
Proof. unfold get_range. destruct (_ && _) eqn:E; [|done]. intros [= <-]. by to_prop. Qed.

Lemma get_range_Some b start stop :
  start <= stop -> stop <= len b -> get_range b start stop = Some (sub b start (stop - start)).
Proof.
  intros H1 H2. unfold get_range. by rewrite (proj2 (N.leb_le _ _) H1), (proj2 (N.leb_le _ _) H2).
Qed.

Lemma set_mvcc_len tuple xmax tid im tuple' :
  set_mvcc_header_fields tuple xmax tid im = Ok tuple' -> len tuple' = len tuple.
Proof.
  unfold set_mvcc_header_fields. destruct (head tuple) as [v|]; [|done].
  destruct (_ || _); [|done]. destruct (get_range _ _ _) as [h|] eqn:E; [|done].
  apply get_range_inv in E as (_ & Hl & ->). cbn. intros [= <-].
  rewrite len_blit; [done|]. unfold V2_MVCC_HEADER_LEN in *. in_array.
Qed.

Lemma set_mvcc_bytes_ok tuple xmax tid im tuple' :
  bytes_ok tuple -> set_mvcc_header_fields tuple xmax tid im = Ok tuple' -> bytes_ok tuple'.
Proof.
  intros Hb. unfold set_mvcc_header_fields. destruct (head tuple) as [v|]; [|done].
  destruct (_ || _); [|done]. destruct (get_range _ _ _) as [h|] eqn:E; [|done].
  apply get_range_inv in E as (_ & _ & ->). cbn. intros [= <-]. auto 10 with saguaro.
Qed.

Lemma head_blit_1 d b : head (blit d 1 b) = head (d ++ b).
Proof. destruct d; [by destruct b|done]. Qed.

(** After the mutation the header reads the new deleter, successor and hint bits and
    the old creator, and what follows the header is as before. *)
Lemma set_mvcc_decode tuple xmax tid im tuple' :
  header_widths xmax tid im -> set_mvcc_header_fields tuple xmax tid im = Ok tuple' ->
  (exists xmin xmax0 tid0 im0, decode_mvcc_header tuple = Ok (xmin, xmax0, tid0, im0) /\
     decode_mvcc_header tuple' = Ok (xmin, xmax, tid, im)) /\
  sub tuple' 25 (len tuple - 25) = sub tuple 25 (len tuple - 25).
Proof.
  intros (Hx & Ht1 & Ht2 & Hi) E. pose proof (set_mvcc_len _ _ _ _ _ E) as Hlen. revert E.
  unfold set_mvcc_header_fields, decode_mvcc_header.
  destruct (head tuple) as [v|] eqn:Eh; [|done]. destruct (_ || _) eqn:Ev; [|done].
  destruct (get_range _ _ _) as [h|] eqn:E; [|done]. apply get_range_inv in E as (_ & Hl & ->).
  unfold V2_MVCC_HEADER_LEN in *. cbn [ok_or mbind result_bind].
  set (h := sub tuple 1 _). assert (Hh : len h = 24) by (unfold h; rewrite len_sub; lia).
  set (h' := write_le 2 _ 22 _). intros [= <-].
  assert (Hh' : len h' = 24) by (unfold h'; in_array).
  rewrite head_blit_1. destruct tuple as [|v' tuple]; [done|]. cbn [head app] in *. injection Eh as ->. rewrite Ev.
  rewrite get_range_Some by lia.
  cbn [ok_or mbind result_bind]. replace (1 + _ - 1) with 24 by lia.
  assert (Es : sub (blit (v :: tuple) 1 h') 1 24 = h') by (rewrite <- Hh'; apply sub_blit_same; lia).
  rewrite Es.
  unfold read_mvcc_header. fold h. rewrite Hh, Hh'. cbn [N.eqb negb mbind result_bind Pos.eqb].
  split; [|rewrite sub_blit_after by (rewrite Hh'; lia); done].
  eexists _, _, _, _. split; [reflexivity|]. cbn [h_xmin h_xmax h_t_ctid h_infomask]. unfold h'.
  unfold U64_MAX, U32_MAX, U16_MAX in *. read_fields. by destruct tid.
Qed.
