(* ===== verification/Page.v ===== *)
(** * Slotted heap pages (src/crates/storage/src/page.rs)

    A page is an array of [PAGE_SIZE] bytes: a header, row bytes growing up from it,
    and an array of line pointers growing down from the end.  Every operation of the
    file is translated on the bytes; the abstract page ([Heap]) is the list of its
    items with the bytes its rows use.  Shown: each operation implements its
    specification on the abstract page, accepts exactly what the specification
    accepts, and never panics. *)

From S2P Require Import Prelude Errors Mvcc CheckedBytes ByteArray TupleHeader.
Local Open Scope N_scope.

Definition PAGE_SIZE : N := 8192.
Definition PAGE_TYPE_DATA : N := 1.
Definition PAGE_TYPE_INDEX : N := 2.
Definition PAGE_VERSION : N := 2.
Definition HEADER_LEN : N := 22.
Definition PAGE_ID_OFFSET : N := 0.
Definition PAGE_TYPE_OFFSET : N := 4.
Definition PAGE_VERSION_OFFSET : N := 5.
Definition NUM_SLOTS_OFFSET : N := 6.
Definition FREE_SPACE_OFFSET : N := 8.
Definition PAGE_LSN_OFFSET : N := 10.
Definition CHECKSUM_OFFSET : N := 18.
Definition SLOT_LEN : N := 6.

(** [mod line_pointer]. *)
Definition NORMAL : N := 2.
Definition DEAD : N := 1.
Definition UNUSED : N := 0.
Definition REDIRECT : N := 3.

Record PageHeader : Type := mkPageHeader {
  num_slots : N;
  free_start : N
}.

Record Slot : Type := mkSlot {
  s_offset : N;
  s_len : N;
  s_flags : N
}.

Definition is_live (s : Slot) : bool := s.(s_flags) =? NORMAL.

Inductive LinePointer : Type :=
  | LpNormal
  | LpDead
  | LpUnused
  | LpRedirect (target : N).

Definition corrupt_page (m : string) : DbError := db_storage InternalError m.

(** [0..n]. *)
Definition range (n : N) : list N := N.of_nat <$> seq 0 (N.to_nat n).

(** [u16::try_from]. *)
Definition to_u16 {E} (v : N) (e : E) : result E N := if v <=? U16_MAX then Ok v else Err e.

Definition read_u16 (d : bytes) (o : N) : N := read_le 2 d o.
Definition read_u32 (d : bytes) (o : N) : N := read_le 4 d o.
Definition read_u64 (d : bytes) (o : N) : N := read_le 8 d o.
Definition write_u16 (d : bytes) (o v : N) : bytes := write_le 2 d o v.
Definition write_u32 (d : bytes) (o v : N) : bytes := write_le 4 d o v.
Definition write_u64 (d : bytes) (o v : N) : bytes := write_le 8 d o v.

(** [data[o]] and [data[o] = v] at a constant offset. *)
Definition byte_at (d : bytes) (o : N) : N := read_le 1 d o.
Definition set_byte (d : bytes) (o v : N) : bytes := write_le 1 d o v.

Definition slot_offset (slot_num : N) : option N := checked_sub PAGE_SIZE ((slot_num + 1) * SLOT_LEN).

Definition free_bytes (h : PageHeader) : N :=
  default 0 (slot_offset h.(num_slots)) - h.(free_start).

Definition read_slot (d : bytes) (slot_num : N) : DbResult Slot :=
  o ← ok_or (slot_offset slot_num) (corrupt_page "slot offset overflows page");
  Ok (mkSlot (read_u16 d o) (read_u16 d (o + 2)) (read_u16 d (o + 4))).

Definition write_slot (slot_num : N) (s : Slot) : SE bytes Fault unit :=
  o ← lift (ok_or (slot_offset slot_num) (Raised (corrupt_page "slot offset overflows page")));
  _ ← modify (fun d => write_u16 d o s.(s_offset));
  _ ← modify (fun d => write_u16 d (o + 2) s.(s_len));
  modify (fun d => write_u16 d (o + 4) s.(s_flags)).

Ltac page_consts :=
  unfold byte_at, set_byte, read_u16, read_u32, read_u64, write_u16, write_u32, write_u64,
    PAGE_SIZE, HEADER_LEN, PAGE_ID_OFFSET, PAGE_TYPE_OFFSET, PAGE_VERSION_OFFSET, NUM_SLOTS_OFFSET,
    FREE_SPACE_OFFSET, PAGE_LSN_OFFSET, CHECKSUM_OFFSET, SLOT_LEN, NORMAL, DEAD, UNUSED, REDIRECT,
    U16_MAX, U32_MAX, U64_MAX in *.

Section Page.
(** [crc32fast]: a hasher fed several slices hashes their concatenation. *)
Context (crc32 : bytes -> N).

Definition checksum (d : bytes) : N :=
  crc32 (sub d 0 CHECKSUM_OFFSET ++ [0; 0; 0; 0] ++ sub d (CHECKSUM_OFFSET + 4) (PAGE_SIZE - (CHECKSUM_OFFSET + 4))).

Definition write_checksum (d : bytes) : bytes := write_u32 d CHECKSUM_OFFSET (checksum d).

(** ** Validation *)

(** The body of the loop of [validate_layout]. *)
Definition validate_slot (h : PageHeader) (s : Slot) : DbResult unit :=
  if negb (s.(s_flags) =? NORMAL) && negb (s.(s_flags) =? DEAD)
     && negb (s.(s_flags) =? UNUSED) && negb (s.(s_flags) =? REDIRECT)
  then Err (corrupt_page "slot has invalid flags")
  else
    _ ← (if s.(s_flags) =? NORMAL then
           stop ← ok_or (checked_add USIZE_MAX s.(s_offset) s.(s_len)) (corrupt_page "slot length overflows");
           if (s.(s_offset) <? HEADER_LEN) || (h.(free_start) <? stop)
           then Err (corrupt_page "slot points outside row region") else Ok ()
         else Ok ());
    if (s.(s_flags) =? REDIRECT) && (h.(num_slots) <=? s.(s_offset))
    then Err (corrupt_page "redirect target slot is out of bounds") else Ok ().

Fixpoint validate_slots (d : bytes) (h : PageHeader) (l : list N) : DbResult unit :=
  match l with
  | [] => Ok ()
  | slot_num :: l => s ← read_slot d slot_num; _ ← validate_slot h s; validate_slots d h l
  end.

Definition validate_layout (d : bytes) (h : PageHeader) : DbResult unit :=
  if PAGE_SIZE <? h.(free_start) then Err (corrupt_page "free space offset is outside page")
  else if h.(free_start) <? HEADER_LEN then Err (corrupt_page "free space offset overlaps header")
  else
    slot_start ← (if h.(num_slots) =? 0 then Ok PAGE_SIZE
                  else ok_or (slot_offset (h.(num_slots) - 1)) (corrupt_page "too many slots"));
    if slot_start <? h.(free_start) then Err (corrupt_page "row data overlaps slot array")
    else validate_slots d h (range h.(num_slots)).

Definition validate (d : bytes) : DbResult PageHeader :=
  let page_type := byte_at d PAGE_TYPE_OFFSET in
  if negb (page_type =? PAGE_TYPE_DATA) && negb (page_type =? PAGE_TYPE_INDEX)
  then Err (corrupt_page "unexpected page type")
  else if negb (byte_at d PAGE_VERSION_OFFSET =? PAGE_VERSION)
  then Err (corrupt_page ("unsupported page version " +:+ pretty (byte_at d PAGE_VERSION_OFFSET)))
  else if negb (read_u32 d CHECKSUM_OFFSET =? checksum d)
  then Err (corrupt_page "page checksum mismatch")
  else
    let h := mkPageHeader (read_u16 d NUM_SLOTS_OFFSET) (read_u16 d FREE_SPACE_OFFSET) in
    _ ← (if page_type =? PAGE_TYPE_DATA then validate_layout d h else Ok ());
    Ok h.

Definition is_initialized (d : bytes) : bool := byte_at d PAGE_TYPE_OFFSET =? PAGE_TYPE_DATA.
Definition is_any_page_initialized (d : bytes) : bool :=
  (byte_at d PAGE_TYPE_OFFSET =? PAGE_TYPE_DATA) || (byte_at d PAGE_TYPE_OFFSET =? PAGE_TYPE_INDEX).
Definition is_valid (d : bytes) : bool := is_ok (validate d).
Definition page_lsn (d : bytes) : Lsn := read_u64 d PAGE_LSN_OFFSET.
Definition page_id (d : bytes) : N := read_u32 d PAGE_ID_OFFSET.
Definition next_slot (d : bytes) : DbResult N := h ← validate d; Ok h.(num_slots).
Definition has_space_for (d : bytes) (row_len : N) : DbResult bool :=
  h ← validate d; Ok (row_len <=? free_bytes h).

(** ** Operations *)

(** [data.fill(0)]. *)
Definition zeroed : bytes := replicate (N.to_nat PAGE_SIZE) 0.

Definition init_page (page_id : N) : bytes :=
  let d := write_u32 zeroed PAGE_ID_OFFSET page_id in
  let d := set_byte d PAGE_TYPE_OFFSET PAGE_TYPE_DATA in
  let d := set_byte d PAGE_VERSION_OFFSET PAGE_VERSION in
  let d := write_u16 d NUM_SLOTS_OFFSET 0 in
  let d := write_u16 d FREE_SPACE_OFFSET HEADER_LEN in
  write_checksum d.

Definition set_page_lsn (d : bytes) (l : Lsn) : bytes :=
  write_checksum (write_u64 d PAGE_LSN_OFFSET l).

(** The array as the state, with [?] on its reads. *)
Abbreviation PM := (SE bytes Fault).

Definition reading {A} (f : bytes -> DbResult A) : PM A := fun d => (d, raise (f d)).
Definition writing (f : bytes -> result Fault bytes) : PM unit := fun d =>
  match f d with Ok d' => (d', Ok ()) | Err e => (d, Err e) end.

Fixpoint first_unused_slot (d : bytes) (l : list N) : DbResult (option N) :=
  match l with
  | [] => Ok None
  | slot_num :: l =>
      s ← read_slot d slot_num;
      if s.(s_flags) =? UNUSED then Ok (Some slot_num) else first_unused_slot d l
  end.

Definition try_insert_row (row : bytes) : PM (option N) :=
  h ← reading validate;
  row_len ← lift (to_u16 (len row) (Raised (db_storage InternalError "row is too large")));
  if free_bytes h <? len row then mret None
  else
    let row_offset := h.(free_start) in
    let row_end := row_offset + len row in
    _ ← writing (fun d => copy_from_slice d row_offset row_end row);
    let new_slot := mkSlot row_offset row_len NORMAL in
    unused ← reading (fun d => first_unused_slot d (range h.(num_slots)));
    slot_num ← match unused with
               | Some reused => _ ← write_slot reused new_slot; mret reused
               | None =>
                   let appended := h.(num_slots) in
                   _ ← write_slot appended new_slot;
                   _ ← modify (fun d => write_u16 d NUM_SLOTS_OFFSET (appended + 1));
                   mret appended
               end;
    _ ← modify (fun d => write_u16 d FREE_SPACE_OFFSET (row_offset + row_len));
    _ ← modify write_checksum;
    mret (Some slot_num).

Definition insert_row (row : bytes) : PM N :=
  slot ← try_insert_row row;
  lift (ok_or slot (Raised (db_storage InternalError "page does not have enough free space"))).

(** The bounds check every operation on a slot starts with. *)
Definition in_bounds {E} (f : DbError -> E) (slot_num : N) (h : PageHeader) : result E unit :=
  if h.(num_slots) <=? slot_num then Err (f (corrupt_page "slot number is out of bounds")) else Ok ().

Definition slot_state (d : bytes) (slot_num : N) : DbResult LinePointer :=
  h ← validate d;
  _ ← in_bounds id slot_num h;
  s ← read_slot d slot_num;
  if s.(s_flags) =? NORMAL then Ok LpNormal
  else if s.(s_flags) =? DEAD then Ok LpDead
  else if s.(s_flags) =? UNUSED then Ok LpUnused
  else if s.(s_flags) =? REDIRECT then Ok (LpRedirect s.(s_offset))
  else Err (corrupt_page "slot has invalid flags").

Definition read_row (d : bytes) (slot_num : N) : result Fault (option bytes) :=
  h ← raise (validate d);
  _ ← in_bounds Raised slot_num h;
  s ← raise (read_slot d slot_num);
  if negb (is_live s) then Ok None
  else
    let start := s.(s_offset) in
    let stop := start + s.(s_len) in
    row ← slice d start stop;
    Ok (Some row).

Definition delete_row (slot_num : N) : PM bool :=
  h ← reading validate;
  _ ← lift (in_bounds Raised slot_num h);
  s ← reading (fun d => read_slot d slot_num);
  if negb (is_live s) then mret false
  else
    _ ← write_slot slot_num (mkSlot s.(s_offset) s.(s_len) DEAD);
    _ ← modify write_checksum;
    mret true.

Definition set_tuple_header (slot_num : N) (xmax : TxnId) (t_ctid : N * N) (infomask : N) (l : Lsn) : PM unit :=
  h ← reading validate;
  _ ← lift (in_bounds Raised slot_num h);
  s ← reading (fun d => read_slot d slot_num);
  if negb (is_live s)
  then lift (Err (Raised (db_storage InternalError "cannot mutate the header of a non-live slot")))
  else
    let start := s.(s_offset) in
    let stop := start + s.(s_len) in
    _ ← writing (fun d =>
          tuple ← slice d start stop;
          tuple ← raise (set_mvcc_header_fields tuple xmax t_ctid infomask);
          copy_from_slice d start stop tuple);
    modify (fun d => set_page_lsn d l).

(** The loops that move a list of line pointers to the flags [new], refusing a slot
    out of bounds or not [allowed]. *)
Definition flip_slots (h : PageHeader) (allowed : N -> bool) (refusal : string) (new : N) (slots : list N)
    : PM unit :=
  for_each slots (fun slot_num =>
    _ ← lift (in_bounds Raised slot_num h);
    s ← reading (fun d => read_slot d slot_num);
    if negb (allowed s.(s_flags)) then lift (Err (Raised (db_storage InternalError refusal)))
    else write_slot slot_num (mkSlot s.(s_offset) s.(s_len) new)).

(** The live tuples, copied out in slot order. *)
Fixpoint survivors (d : bytes) (l : list N) : result Fault (list (N * bytes)) :=
  match l with
  | [] => Ok []
  | slot_num :: l =>
      s ← raise (read_slot d slot_num);
      if is_live s then
        let start := s.(s_offset) in
        let stop := start + s.(s_len) in
        b ← slice d start stop;
        rest ← survivors d l;
        Ok ((slot_num, b) :: rest)
      else survivors d l
  end.

(** Lays them back down from [cursor]; returns where the last one ends. *)
Fixpoint lay_down (cursor : N) (l : list (N * bytes)) : PM N :=
  match l with
  | [] => mret cursor
  | (slot_num, b) :: l =>
      let new_offset := cursor in
      let new_end := new_offset + len b in
      _ ← writing (fun d => copy_from_slice d new_offset new_end b);
      s ← reading (fun d => read_slot d slot_num);
      o ← lift (to_u16 new_offset (Raised (corrupt_page "compacted offset overflows")));
      _ ← write_slot slot_num (mkSlot o s.(s_len) s.(s_flags));
      lay_down new_end l
  end.

Definition compact_survivors_and_stamp (h : PageHeader) (l : Lsn) : PM unit :=
  kept ← (fun d => (d, survivors d (range h.(num_slots))));
  cursor ← lay_down HEADER_LEN kept;
  c ← lift (to_u16 cursor (Raised (corrupt_page "compacted free_start overflows")));
  _ ← modify (fun d => write_u16 d FREE_SPACE_OFFSET c);
  _ ← modify (fun d => set_page_lsn d l);
  _ ← reading validate;
  mret ().

Definition prune_and_compact (dead_slots : list N) (l : Lsn) : PM unit :=
  h ← reading validate;
  _ ← flip_slots h (fun f => f =? NORMAL) "cannot prune a non-live slot" DEAD dead_slots;
  compact_survivors_and_stamp h l.

Definition compact (l : Lsn) : PM unit :=
  h ← reading validate;
  compact_survivors_and_stamp h l.

Definition reclaim_line_pointers (slots : list N) (l : Lsn) : PM unit :=
  h ← reading validate;
  _ ← flip_slots h (fun f => f =? DEAD) "cannot reclaim a slot that is not DEAD" UNUSED slots;
  modify (fun d => set_page_lsn d l).

Definition set_redirect (slot_num target_slot : N) : PM unit :=
  h ← reading validate;
  if (h.(num_slots) <=? slot_num) || (h.(num_slots) <=? target_slot)
  then lift (Err (Raised (corrupt_page "slot number is out of bounds")))
  else
    _ ← write_slot slot_num (mkSlot target_slot 0 REDIRECT);
    modify write_checksum.

Definition free_slots_to_unused (slots : list N) : PM unit :=
  h ← reading validate;
  _ ← flip_slots h (fun f => f =? NORMAL) "cannot free a non-NORMAL slot directly to UNUSED" UNUSED slots;
  modify write_checksum.

Definition mark_slots_dead (slots : list N) : PM unit :=
  h ← reading validate;
  _ ← flip_slots h (fun f => (f =? NORMAL) || (f =? REDIRECT)) "cannot mark a non-NORMAL/REDIRECT slot DEAD" DEAD slots;
  modify write_checksum.

(** ** The abstract page *)

Inductive Item : Type :=
  | INormal (row : bytes)
  | IDead
  | IUnused
  | IRedirect (target : N).

(** The items by slot number, the bytes taken by rows (garbage included), the
    page-LSN and the page number. *)
Record Heap : Type := mkHeap {
  h_items : list Item;
  h_used : N;
  h_lsn : Lsn;
  h_id : N
}.

Definition get_slot (d : bytes) (i : N) : Slot :=
  let o := PAGE_SIZE - (i + 1) * SLOT_LEN in
  mkSlot (read_u16 d o) (read_u16 d (o + 2)) (read_u16 d (o + 4)).

Definition put_slot (d : bytes) (i : N) (s : Slot) : bytes :=
  let o := PAGE_SIZE - (i + 1) * SLOT_LEN in
  write_u16 (write_u16 (write_u16 d o s.(s_offset)) (o + 2) s.(s_len)) (o + 4) s.(s_flags).

Definition slots (d : bytes) : list Slot := get_slot d <$> range (read_u16 d NUM_SLOTS_OFFSET).

Definition item_of (d : bytes) (s : Slot) : Item :=
  if s.(s_flags) =? NORMAL then INormal (sub d s.(s_offset) s.(s_len))
  else if s.(s_flags) =? DEAD then IDead
  else if s.(s_flags) =? REDIRECT then IRedirect s.(s_offset)
  else IUnused.

Definition heap_of (d : bytes) : Heap :=
  mkHeap (item_of d <$> slots d) (read_u16 d FREE_SPACE_OFFSET - HEADER_LEN) (page_lsn d) (page_id d).

(** ** The invariant *)

Definition row_len (s : Slot) : N := if is_live s then s.(s_len) else 0.
Definition sum_lens (l : list Slot) : N := foldr (fun s n => row_len s + n) 0 l.

Definition rows_disjoint (l : list Slot) : Prop :=
  forall i j a b, l !! i = Some a -> l !! j = Some b -> i <> j -> is_live a = true -> is_live b = true ->
    a.(s_offset) + a.(s_len) <= b.(s_offset) \/ b.(s_offset) + b.(s_len) <= a.(s_offset).

Record slot_ok (n f : N) (s : Slot) : Prop := {
  slot_widths : s.(s_offset) <= U16_MAX /\ s.(s_len) <= U16_MAX;
  slot_flags : s.(s_flags) <= REDIRECT;
  slot_row : is_live s = true -> HEADER_LEN <= s.(s_offset) /\ s.(s_offset) + s.(s_len) <= f;
  slot_target : s.(s_flags) = REDIRECT -> s.(s_offset) < n
}.

(** A page whose header says [n] slots and rows up to [f], with line pointers [ss]. *)
Record body_ok (d : bytes) (n f : N) (ss : list Slot) : Prop := {
  b_len : len d = PAGE_SIZE;
  b_bytes : bytes_ok d;
  b_type : byte_at d PAGE_TYPE_OFFSET = PAGE_TYPE_DATA;
  b_version : byte_at d PAGE_VERSION_OFFSET = PAGE_VERSION;
  b_num : read_u16 d NUM_SLOTS_OFFSET = n;
  b_free : read_u16 d FREE_SPACE_OFFSET = f;
  b_fit : HEADER_LEN <= f /\ f + n * SLOT_LEN <= PAGE_SIZE;
  b_slots : slots d = ss;
  b_slot_ok : Forall (slot_ok n f) ss;
  b_disjoint : rows_disjoint ss;
  b_sum : sum_lens ss <= f - HEADER_LEN
}.

Definition sealed (d : bytes) : Prop := read_u32 d CHECKSUM_OFFSET = checksum d.
Definition page_ok (d : bytes) : Prop := sealed d /\ exists n f ss, body_ok d n f ss.

(** The checksum is a 32-bit value. *)
Definition crc_fits : Prop := forall b, crc32 b <= U32_MAX.

(** ** The specification *)

Definition set_item (h : Heap) (i : nat) (it : Item) : Heap :=
  mkHeap (<[i := it]> h.(h_items)) h.(h_used) h.(h_lsn) h.(h_id).

Definition with_items (h : Heap) (items : list Item) : Heap :=
  mkHeap items h.(h_used) h.(h_lsn) h.(h_id).
Definition with_lsn (h : Heap) (l : Lsn) : Heap := mkHeap h.(h_items) h.(h_used) l h.(h_id).

(** The room for a row together with one more line pointer. *)
Definition heap_free (h : Heap) : N :=
  PAGE_SIZE - (len h.(h_items) + 1) * SLOT_LEN - (HEADER_LEN + h.(h_used)).

Definition is_normal (it : Item) : bool := match it with INormal _ => true | _ => false end.
Definition is_dead (it : Item) : bool := match it with IDead => true | _ => false end.
Definition is_unused (it : Item) : bool := match it with IUnused => true | _ => false end.
Definition is_indexed (it : Item) : bool := match it with INormal _ | IRedirect _ => true | _ => false end.

Definition item_len (it : Item) : N := match it with INormal row => len row | _ => 0 end.
Definition live_bytes (items : list Item) : N := foldr (fun it n => item_len it + n) 0 items.

(** Moves the listed slots to [new], each of which must be [allowed] when its turn comes. *)
Fixpoint flip_items (allowed : Item -> bool) (new : Item) (l : list N) (items : list Item) : option (list Item) :=
  match l with
  | [] => Some items
  | i :: l =>
      match items !! N.to_nat i with
      | Some it => if allowed it then flip_items allowed new l (<[N.to_nat i := new]> items) else None
      | None => None
      end
  end.

(** Compaction keeps the items and gives back the bytes of everything but the rows. *)
Definition packed (h : Heap) (items : list Item) (l : Lsn) : Heap := mkHeap items (live_bytes items) l h.(h_id).

Inductive PageOp : Type :=
  | OpInsert (row : bytes)
  | OpDelete (slot : N)
  | OpSetHeader (slot : N) (xmax : TxnId) (t_ctid : N * N) (infomask : N) (l : Lsn)
  | OpPrune (dead : list N) (l : Lsn)
  | OpCompact (l : Lsn)
  | OpReclaim (which : list N) (l : Lsn)
  | OpRedirect (slot target : N)
  | OpFree (which : list N)
  | OpMarkDead (which : list N).

Inductive Answer : Type :=
  | Done
  | Placed (slot : option N)
  | Found (was_live : bool).

Definition run_op (op : PageOp) : PM Answer :=
  match op with
  | OpInsert row => r ← try_insert_row row; mret (Placed r)
  | OpDelete s => r ← delete_row s; mret (Found r)
  | OpSetHeader s xmax tid im l => _ ← set_tuple_header s xmax tid im l; mret Done
  | OpPrune dead l => _ ← prune_and_compact dead l; mret Done
  | OpCompact l => _ ← compact l; mret Done
  | OpReclaim which l => _ ← reclaim_line_pointers which l; mret Done
  | OpRedirect s t => _ ← set_redirect s t; mret Done
  | OpFree which => _ ← free_slots_to_unused which; mret Done
  | OpMarkDead which => _ ← mark_slots_dead which; mret Done
  end.

(** The abstract page and the answer, or [None] where the operation is refused. *)
Definition spec_op (op : PageOp) (h : Heap) : option (Heap * Answer) :=
  match op with
  | OpInsert row =>
      if U16_MAX <? len row then None
      else if heap_free h <? len row then Some (h, Placed None)
      else
        let '(i, items) :=
          match list_find (fun it => is_unused it = true) h.(h_items) with
          | Some (i, _) => (i, <[i := INormal row]> h.(h_items))
          | None => (length h.(h_items), h.(h_items) ++ [INormal row])
          end in
        Some (mkHeap items (h.(h_used) + len row) h.(h_lsn) h.(h_id), Placed (Some (N.of_nat i)))
  | OpDelete s =>
      it ← h.(h_items) !! N.to_nat s;
      if is_normal it then Some (set_item h (N.to_nat s) IDead, Found true) else Some (h, Found false)
  | OpSetHeader s xmax tid im l =>
      it ← h.(h_items) !! N.to_nat s;
      match it with
      | INormal row =>
          match set_mvcc_header_fields row xmax tid im with
          | Ok row' => Some (with_lsn (set_item h (N.to_nat s) (INormal row')) l, Done)
          | Err _ => None
          end
      | _ => None
      end
  | OpPrune dead l =>
      items ← flip_items is_normal IDead dead h.(h_items); Some (packed h items l, Done)
  | OpCompact l => Some (packed h h.(h_items) l, Done)
  | OpReclaim which l =>
      items ← flip_items is_dead IUnused which h.(h_items); Some (with_lsn (with_items h items) l, Done)
  | OpRedirect s t =>
      if (len h.(h_items) <=? s) || (len h.(h_items) <=? t) then None
      else Some (set_item h (N.to_nat s) (IRedirect t), Done)
  | OpFree which =>
      items ← flip_items is_normal IUnused which h.(h_items); Some (with_items h items, Done)
  | OpMarkDead which =>
      items ← flip_items is_indexed IDead which h.(h_items); Some (with_items h items, Done)
  end.

(** The arguments have the widths of their types, and an inserted row its version byte. *)
Definition op_ok (op : PageOp) : Prop :=
  match op with
  | OpInsert row => bytes_ok row /\ row <> []
  | OpSetHeader _ xmax tid im l => header_widths xmax tid im /\ l <= U64_MAX
  | OpPrune _ l | OpCompact l | OpReclaim _ l => l <= U64_MAX
  | OpDelete _ | OpRedirect _ _ | OpFree _ | OpMarkDead _ => True
  end.

(** What it means to implement an outcome of the specification. *)
Definition implements (spec : option (Heap * Answer)) (out : bytes * result Fault Answer) : Prop :=
  match spec with
  | Some (h, a) => exists d, out = (d, Ok a) /\ page_ok d /\ heap_of d = h
  | None => exists d e, out = (d, Err (Raised e))
  end.

(** ** Arrays of the page *)

Lemma elem_of_range n i : i ∈ range n <-> i < n.
Proof.
  unfold range. rewrite list_elem_of_fmap. split.
  - intros (k & -> & Hk%elem_of_seq). lia.
  - intros H. exists (N.to_nat i). rewrite elem_of_seq. lia.
Qed.

Lemma lookup_range n i : (i < N.to_nat n)%nat -> range n !! i = Some (N.of_nat i).
Proof. intros H. unfold range. rewrite list_lookup_fmap, lookup_seq_lt by lia. done. Qed.

Lemma length_range n : length (range n) = N.to_nat n.
Proof. unfold range. by rewrite length_fmap, length_seq. Qed.

Lemma range_S n : range (n + 1) = range n ++ [n].
Proof.
  unfold range. replace (N.to_nat (n + 1)) with (S (N.to_nat n)) by lia.
  rewrite seq_S, fmap_app. cbn. by rewrite N2Nat.id.
Qed.

Lemma lookup_slots d i :
  (i < N.to_nat (read_u16 d NUM_SLOTS_OFFSET))%nat -> slots d !! i = Some (get_slot d (N.of_nat i)).
Proof. intros H. unfold slots. by rewrite list_lookup_fmap, lookup_range. Qed.

Lemma length_slots d : length (slots d) = N.to_nat (read_u16 d NUM_SLOTS_OFFSET).
Proof. unfold slots. by rewrite length_fmap, length_range. Qed.

Lemma read_slot_Ok d i : (i + 1) * SLOT_LEN <= PAGE_SIZE -> read_slot d i = Ok (get_slot d i).
Proof.
  intros H. unfold read_slot, slot_offset, checked_sub. by rewrite (proj2 (N.leb_le _ _) H).
Qed.

Lemma write_slot_Ok d i s :
  (i + 1) * SLOT_LEN <= PAGE_SIZE -> write_slot i s d = (put_slot d i s, Ok ()).
Proof.
  intros H. unfold write_slot, slot_offset, checked_sub. by rewrite (proj2 (N.leb_le _ _) H).
Qed.

Lemma len_put_slot d i s : (i + 1) * SLOT_LEN <= PAGE_SIZE -> len d = PAGE_SIZE -> len (put_slot d i s) = PAGE_SIZE.
Proof. intros H Hd. unfold put_slot. page_consts. rewrite <- Hd. in_array. Qed.

Lemma bytes_ok_put_slot d i s : bytes_ok d -> bytes_ok (put_slot d i s).
Proof. intros. unfold put_slot, write_u16. auto with saguaro. Qed.

Lemma get_put_slot d i s :
  (i + 1) * SLOT_LEN <= PAGE_SIZE -> len d = PAGE_SIZE ->
  s.(s_offset) <= U16_MAX -> s.(s_len) <= U16_MAX -> s.(s_flags) <= U16_MAX ->
  get_slot (put_slot d i s) i = s.
Proof. intros. destruct s. unfold get_slot, put_slot. page_consts. cbn in *. by read_fields. Qed.

(** Writing a line pointer leaves the bytes outside it alone. *)
Lemma sub_put_slot d i s o n :
  (i + 1) * SLOT_LEN <= PAGE_SIZE -> len d = PAGE_SIZE ->
  o + n <= PAGE_SIZE - (i + 1) * SLOT_LEN \/ PAGE_SIZE - i * SLOT_LEN <= o ->
  sub (put_slot d i s) o n = sub d o n.
Proof. intros. unfold put_slot. page_consts. by read_fields. Qed.

Lemma get_put_slot_ne d i j s :
  (i + 1) * SLOT_LEN <= PAGE_SIZE -> (j + 1) * SLOT_LEN <= PAGE_SIZE -> len d = PAGE_SIZE -> i <> j ->
  get_slot (put_slot d i s) j = get_slot d j.
Proof.
  intros. unfold get_slot, read_u16, read_le. f_equal; f_equal; apply sub_put_slot; page_consts; lia.
Qed.

(** [d'] differs from [d] in the range [a .. b) only. *)
Definition same_out (a b : N) (d d' : bytes) : Prop :=
  len d' = len d /\ forall o k, o + k <= a \/ b <= o -> sub d' o k = sub d o k.

Lemma same_out_mono a b a' b' d d' : a' <= a -> b <= b' -> same_out a b d d' -> same_out a' b' d d'.
Proof. intros Ha Hb [Hl H]. split; [done|]. intros o k Ho. apply H. lia. Qed.

Lemma same_out_trans a b d1 d2 d3 : same_out a b d1 d2 -> same_out a b d2 d3 -> same_out a b d1 d3.
Proof. intros [L1 H1] [L2 H2]. split; [congruence|]. intros o k Ho. rewrite H2, H1 by done. done. Qed.

Lemma same_out_blit d o b : o + len b <= len d -> same_out o (o + len b) d (blit d o b).
Proof. intros H. split; [by apply len_blit|]. intros o' k H'. by apply sub_blit_ne. Qed.

Lemma same_out_write_le k d o v : o + N.of_nat k <= len d -> same_out o (o + N.of_nat k) d (write_le k d o v).
Proof. intros H. rewrite <- (len_le_bytes k v). apply same_out_blit. by rewrite len_le_bytes. Qed.

Lemma same_out_put_slot d i s :
  (i + 1) * SLOT_LEN <= PAGE_SIZE -> len d = PAGE_SIZE ->
  same_out (PAGE_SIZE - (i + 1) * SLOT_LEN) (PAGE_SIZE - i * SLOT_LEN) d (put_slot d i s).
Proof.
  intros H Hd. split; [rewrite Hd; by apply len_put_slot|]. intros o k Ho. by apply sub_put_slot.
Qed.

Lemma read_le_same a b d d' k o :
  same_out a b d d' -> o + N.of_nat k <= a \/ b <= o -> read_le k d' o = read_le k d o.
Proof. intros [_ H] Ho. unfold read_le. by rewrite H. Qed.

Lemma get_slot_same a b d d' i :
  same_out a b d d' -> PAGE_SIZE - i * SLOT_LEN <= a \/ b <= PAGE_SIZE - (i + 1) * SLOT_LEN ->
  (i + 1) * SLOT_LEN <= PAGE_SIZE -> get_slot d' i = get_slot d i.
Proof.
  intros H Hi Hs. unfold get_slot, read_u16. f_equal; apply (read_le_same a b); try done; page_consts; lia.
Qed.

Lemma item_of_same a b n f d d' s :
  same_out a b d d' -> slot_ok n f s -> b <= HEADER_LEN \/ f <= a -> item_of d' s = item_of d s.
Proof.
  intros [_ H] Hs Hab. unfold item_of. destruct (s_flags s =? NORMAL) eqn:E; [|done].
  destruct (slot_row _ _ _ Hs E) as [H1 H2]. rewrite H; [done|lia].
Qed.

Lemma items_same a b n f d d' ss :
  same_out a b d d' -> Forall (slot_ok n f) ss -> b <= HEADER_LEN \/ f <= a ->
  item_of d' <$> ss = item_of d <$> ss.
Proof.
  intros H Hs Hab. apply list_fmap_ext. intros i s Hi. rewrite Forall_lookup in Hs.
  eapply item_of_same; [done|by eapply Hs|done].
Qed.

(** A change of the page-LSN and the checksum keeps the body. *)
Lemma body_stamp d d' n f ss :
  body_ok d n f ss -> same_out PAGE_LSN_OFFSET HEADER_LEN d d' -> bytes_ok d' ->
  body_ok d' n f ss /\ item_of d' <$> ss = item_of d <$> ss /\ page_id d' = page_id d.
Proof.
  intros [] H Hb. pose proof H as [Hl _].
  assert (Hr : forall k o, o + N.of_nat k <= PAGE_LSN_OFFSET -> read_le k d' o = read_le k d o)
    by (intros; eapply read_le_same; [done|by left]).
  assert (Hn : read_u16 d' NUM_SLOTS_OFFSET = n) by (unfold read_u16; rewrite Hr by (page_consts; lia); done).
  split_and!.
  - constructor; try done; try congruence.
    + unfold byte_at. rewrite Hr by (page_consts; lia). done.
    + unfold byte_at. rewrite Hr by (page_consts; lia). done.
    + unfold read_u16. rewrite Hr by (page_consts; lia). done.
    + rewrite <- b_slots0. unfold slots. rewrite Hn, b_num0. apply list_fmap_ext. intros i x Hx.
      apply list_elem_of_lookup_2, elem_of_range in Hx.
      eapply get_slot_same; [done|right|]; page_consts; lia.
  - eapply items_same; [done|done|by left].
  - unfold page_id, read_u32. rewrite Hr by (page_consts; lia). done.
Qed.

Lemma same_out_checksum d : len d = PAGE_SIZE -> same_out CHECKSUM_OFFSET HEADER_LEN d (write_checksum d).
Proof. intros H. apply (same_out_write_le 4). page_consts. lia. Qed.

Lemma checksum_same d d' :
  len d = PAGE_SIZE -> same_out CHECKSUM_OFFSET HEADER_LEN d d' -> checksum d' = checksum d.
Proof. intros H [_ Hs]. unfold checksum. rewrite !Hs; [done|right; page_consts; lia|left; page_consts; lia]. Qed.

(** ** Reading a page *)

Lemma body_lookup d n f ss i :
  body_ok d n f ss -> i < n ->
  ss !! N.to_nat i = Some (get_slot d i) /\ (i + 1) * SLOT_LEN <= PAGE_SIZE /\ slot_ok n f (get_slot d i).
Proof.
  intros Hb Hi. assert (E : ss !! N.to_nat i = Some (get_slot d i)).
  { rewrite <- (b_slots _ _ _ _ Hb), lookup_slots; [by rewrite N2Nat.id|]. rewrite (b_num _ _ _ _ Hb). lia. }
  split; [done|]. split; [pose proof (b_fit _ _ _ _ Hb); page_consts; lia|].
  pose proof (b_slot_ok _ _ _ _ Hb) as H. rewrite Forall_lookup in H. by eapply H.
Qed.

Lemma body_length d n f ss : body_ok d n f ss -> length ss = N.to_nat n.
Proof. intros Hb. by rewrite <- (b_slots _ _ _ _ Hb), length_slots, (b_num _ _ _ _ Hb). Qed.

Lemma body_read_slot d n f ss i : body_ok d n f ss -> i < n -> read_slot d i = Ok (get_slot d i).
Proof. intros Hb Hi. by apply read_slot_Ok, (body_lookup _ _ _ _ _ Hb Hi). Qed.

Lemma heap_of_body d n f ss :
  body_ok d n f ss -> heap_of d = mkHeap (item_of d <$> ss) (f - HEADER_LEN) (page_lsn d) (page_id d).
Proof. intros Hb. unfold heap_of. by rewrite (b_slots _ _ _ _ Hb), (b_free _ _ _ _ Hb). Qed.

Lemma heap_lookup d n f ss i :
  body_ok d n f ss -> i < n -> h_items (heap_of d) !! N.to_nat i = Some (item_of d (get_slot d i)).
Proof.
  intros Hb Hi. rewrite (heap_of_body _ _ _ _ Hb). cbn. rewrite list_lookup_fmap.
  by rewrite (proj1 (body_lookup _ _ _ _ _ Hb Hi)).
Qed.

Lemma heap_length d n f ss : body_ok d n f ss -> length (h_items (heap_of d)) = N.to_nat n.
Proof. intros Hb. rewrite (heap_of_body _ _ _ _ Hb). cbn. rewrite length_fmap. by eapply body_length. Qed.

Lemma validate_slot_Ok n f s :
  slot_ok n f s -> validate_slot (mkPageHeader n f) s = Ok ().
Proof.
  intros [[W1 W2] Hf Hr Ht]. unfold validate_slot. cbn [num_slots free_start].
  assert (Hfl : negb (s_flags s =? NORMAL) && negb (s_flags s =? DEAD) && negb (s_flags s =? UNUSED)
                && negb (s_flags s =? REDIRECT) = false).
  { page_consts. destruct (N.eqb_spec (s_flags s) 2), (N.eqb_spec (s_flags s) 1), (N.eqb_spec (s_flags s) 0),
      (N.eqb_spec (s_flags s) 3); try done; lia. }
  rewrite Hfl. unfold is_live in Hr. destruct (s_flags s =? NORMAL) eqn:E.
  - destruct (Hr eq_refl) as [H1 H2]. unfold checked_add.
    rewrite (proj2 (N.leb_le (s_offset s + s_len s) USIZE_MAX)) by (unfold USIZE_MAX; page_consts; lia).
    cbn [ok_or mbind result_bind].
    rewrite (proj2 (N.ltb_ge _ _) H1), (proj2 (N.ltb_ge _ _) H2). cbn.
    apply N.eqb_eq in E. by rewrite E.
  - cbn. destruct (N.eqb_spec (s_flags s) REDIRECT) as [E'|]; [|done].
    by rewrite (proj2 (N.leb_gt _ _) (Ht E')).
Qed.

Lemma validate_slots_Ok d n f ss l :
  body_ok d n f ss -> (forall i, i ∈ l -> i < n) -> validate_slots d (mkPageHeader n f) l = Ok ().
Proof.
  intros Hb. induction l as [|i l IH]; intros Hl; [done|]. cbn [validate_slots].
  assert (Hi : i < n) by (apply Hl; constructor). rewrite (body_read_slot _ _ _ _ _ Hb Hi). cbn.
  rewrite validate_slot_Ok by apply (body_lookup _ _ _ _ _ Hb Hi). cbn. apply IH. intros j Hj. apply Hl. by constructor.
Qed.

Lemma validate_Ok d n f ss : sealed d -> body_ok d n f ss -> validate d = Ok (mkPageHeader n f).
Proof.
  intros Hs Hb. unfold validate. rewrite (b_type _ _ _ _ Hb), (b_version _ _ _ _ Hb), Hs.
  rewrite (N.eqb_refl (checksum d)). cbn -[read_u16 validate_layout]. rewrite (b_num _ _ _ _ Hb), (b_free _ _ _ _ Hb).
  destruct (b_fit _ _ _ _ Hb) as [F1 F2]. unfold validate_layout. cbn [num_slots free_start].
  rewrite (proj2 (N.ltb_ge PAGE_SIZE f)) by lia. rewrite (proj2 (N.ltb_ge f HEADER_LEN)) by lia.
  assert (E : exists o, (if n =? 0 then Ok PAGE_SIZE
    else ok_or (slot_offset (n - 1)) (corrupt_page "too many slots")) = Ok o /\ f <= o).
  { destruct (N.eqb_spec n 0) as [->|Hn]; [exists PAGE_SIZE; split; [done|page_consts; lia]|].
    unfold slot_offset, checked_sub. replace (n - 1 + 1) with n by lia.
    rewrite (proj2 (N.leb_le (n * SLOT_LEN) PAGE_SIZE)) by lia. eexists. split; [reflexivity|lia]. }
  destruct E as (o & -> & Ho). unfold mbind, result_bind. rewrite (proj2 (N.ltb_ge _ _) Ho).
  rewrite (validate_slots_Ok _ _ _ _ _ Hb) by (intros i; by rewrite elem_of_range). done.
Qed.

(** ** Changing a line pointer *)

Lemma sum_cons s l : sum_lens (s :: l) = row_len s + sum_lens l.
Proof. done. Qed.

Lemma sum_insert ss i s s' :
  ss !! i = Some s -> sum_lens (<[i := s']> ss) + row_len s = sum_lens ss + row_len s'.
Proof.
  revert i. induction ss as [|a ss IH]; intros [|i] H; try done.
  - injection H as ->. change (<[0%nat := s']> (s :: ss)) with (s' :: ss). rewrite !sum_cons. lia.
  - specialize (IH i H). change (<[S i := s']> (a :: ss)) with (a :: <[i := s']> ss). rewrite !sum_cons. lia.
Qed.

Lemma disjoint_insert ss i s' :
  rows_disjoint ss ->
  (forall j b, ss !! j = Some b -> i <> j -> is_live s' = true -> is_live b = true ->
     s'.(s_offset) + s'.(s_len) <= b.(s_offset) \/ b.(s_offset) + b.(s_len) <= s'.(s_offset)) ->
  rows_disjoint (<[i := s']> ss).
Proof.
  intros Hd Hs j k a b Ha Hb Hjk La Lb.
  destruct (decide (j = i)) as [->|Hj], (decide (k = i)) as [->|Hk]; try done.
  - apply list_lookup_insert_Some in Ha as [(_ & -> & _)|[? _]]; [|done].
    rewrite list_lookup_insert_ne in Hb by done. by eapply Hs.
  - apply list_lookup_insert_Some in Hb as [(_ & -> & _)|[? _]]; [|done].
    rewrite list_lookup_insert_ne in Ha by done. destruct (Hs j a Ha); auto.
  - rewrite list_lookup_insert_ne in Ha, Hb by done. by eapply Hd.
Qed.

(** The line pointers after a write elsewhere, to one of them, and behind the last. *)
Lemma slots_same a b d d' :
  same_out a b d d' -> len d = PAGE_SIZE -> read_u16 d NUM_SLOTS_OFFSET * SLOT_LEN <= PAGE_SIZE ->
  (b <= NUM_SLOTS_OFFSET \/ FREE_SPACE_OFFSET <= a) -> b + read_u16 d NUM_SLOTS_OFFSET * SLOT_LEN <= PAGE_SIZE ->
  slots d' = slots d.
Proof.
  intros H Hl Hn Hab Hb. assert (En : read_u16 d' NUM_SLOTS_OFFSET = read_u16 d NUM_SLOTS_OFFSET)
    by (eapply read_le_same; [done|page_consts; lia]).
  unfold slots. rewrite En. apply list_fmap_ext. intros i x Hx. apply list_elem_of_lookup_2, elem_of_range in Hx.
  eapply get_slot_same; [done|right|]; page_consts; lia.
Qed.

Lemma slots_put d i s :
  len d = PAGE_SIZE -> HEADER_LEN + read_u16 d NUM_SLOTS_OFFSET * SLOT_LEN <= PAGE_SIZE ->
  i < read_u16 d NUM_SLOTS_OFFSET ->
  s.(s_offset) <= U16_MAX /\ s.(s_len) <= U16_MAX /\ s.(s_flags) <= U16_MAX ->
  slots (put_slot d i s) = <[N.to_nat i := s]> (slots d).
Proof.
  intros Hl Hn Hi (W1 & W2 & W3). assert (Hfit : (i + 1) * SLOT_LEN <= PAGE_SIZE) by (page_consts; lia).
  assert (En : read_u16 (put_slot d i s) NUM_SLOTS_OFFSET = read_u16 d NUM_SLOTS_OFFSET).
  { eapply read_le_same; [by apply same_out_put_slot|]. page_consts. lia. }
  apply list_eq. intros j. destruct (Nat.lt_ge_cases j (N.to_nat (read_u16 d NUM_SLOTS_OFFSET))) as [Hj|Hj].
  - rewrite lookup_slots by (by rewrite En). destruct (decide (j = N.to_nat i)) as [->|Hji].
    + rewrite list_lookup_insert_eq by (by rewrite length_slots). rewrite N2Nat.id. by rewrite get_put_slot.
    + rewrite list_lookup_insert_ne by done. rewrite lookup_slots by done.
      rewrite get_put_slot_ne; try done; page_consts; lia.
  - rewrite !(proj2 (lookup_ge_None _ _)); [done| |].
    + by rewrite length_insert, length_slots.
    + by rewrite length_slots, En.
Qed.

Lemma slots_append d n s :
  len d = PAGE_SIZE -> read_u16 d NUM_SLOTS_OFFSET = n -> HEADER_LEN + (n + 1) * SLOT_LEN <= PAGE_SIZE ->
  s.(s_offset) <= U16_MAX /\ s.(s_len) <= U16_MAX /\ s.(s_flags) <= U16_MAX ->
  slots (write_u16 (put_slot d n s) NUM_SLOTS_OFFSET (n + 1)) = slots d ++ [s].
Proof.
  intros Hl En Hn (W1 & W2 & W3). assert (Hfit : (n + 1) * SLOT_LEN <= PAGE_SIZE) by lia.
  pose proof (len_put_slot d n s Hfit Hl) as Hl'.
  assert (Hs : same_out NUM_SLOTS_OFFSET FREE_SPACE_OFFSET (put_slot d n s)
                 (write_u16 (put_slot d n s) NUM_SLOTS_OFFSET (n + 1)))
    by (apply (same_out_write_le 2); rewrite Hl'; page_consts; lia).
  unfold slots. rewrite En. unfold read_u16 at 1, write_u16 at 2.
  rewrite read_write_le by (rewrite ?Hl'; page_consts; cbn; lia).
  rewrite range_S, fmap_app. cbn [fmap list_fmap]. f_equal.
  - apply list_fmap_ext. intros i x Hx. apply list_elem_of_lookup_2, elem_of_range in Hx.
    rewrite (get_slot_same _ _ _ _ _ Hs) by (page_consts; lia).
    apply get_put_slot_ne; try done; page_consts; lia.
  - f_equal. rewrite (get_slot_same _ _ _ _ _ Hs) by (page_consts; lia). by apply get_put_slot.
Qed.

(** Replacing the line pointer [i], with what the change has to respect. *)
Lemma body_put d n f ss i s s' :
  body_ok d n f ss -> i < n -> ss !! N.to_nat i = Some s -> slot_ok n f s' ->
  rows_disjoint (<[N.to_nat i := s']> ss) -> sum_lens (<[N.to_nat i := s']> ss) <= f - HEADER_LEN ->
  body_ok (put_slot d i s') n f (<[N.to_nat i := s']> ss) /\
  item_of (put_slot d i s') <$> <[N.to_nat i := s']> ss = <[N.to_nat i := item_of d s']> (item_of d <$> ss) /\
  page_lsn (put_slot d i s') = page_lsn d /\ page_id (put_slot d i s') = page_id d.
Proof.
  intros Hb Hi Es Hs' Hd Hsum. destruct (body_lookup _ _ _ _ _ Hb Hi) as (_ & Hfit & _).
  pose proof (b_len _ _ _ _ Hb) as Hl. destruct (b_fit _ _ _ _ Hb) as [F1 F2].
  pose proof (same_out_put_slot d i s' Hfit Hl) as Hso.
  assert (Hr : forall k o, o + N.of_nat k <= HEADER_LEN -> read_le k (put_slot d i s') o = read_le k d o).
  { intros k o Ho. eapply read_le_same; [exact Hso|left]. page_consts. lia. }
  assert (Hn : read_u16 (put_slot d i s') NUM_SLOTS_OFFSET = n).
  { unfold read_u16. rewrite Hr by (page_consts; lia). apply (b_num _ _ _ _ Hb). }
  assert (Hall : Forall (slot_ok n f) (<[N.to_nat i := s']> ss))
    by (apply Forall_insert; [apply (b_slot_ok _ _ _ _ Hb)|done]).
  assert (Hsl : slots (put_slot d i s') = <[N.to_nat i := s']> ss).
  { rewrite <- (b_slots _ _ _ _ Hb). apply slots_put; rewrite ?(b_num _ _ _ _ Hb); try done; [page_consts; lia|].
    destruct Hs' as [[W1 W2] W3 _ _]. page_consts. lia. }
  split_and!.
  - constructor; try done.
    + by apply len_put_slot.
    + apply bytes_ok_put_slot, (b_bytes _ _ _ _ Hb).
    + unfold byte_at. rewrite Hr by (page_consts; lia). apply (b_type _ _ _ _ Hb).
    + unfold byte_at. rewrite Hr by (page_consts; lia). apply (b_version _ _ _ _ Hb).
    + unfold read_u16. rewrite Hr by (page_consts; lia). apply (b_free _ _ _ _ Hb).
  - rewrite (items_same _ _ n f d _ _ Hso Hall) by (right; page_consts; lia). by rewrite list_fmap_insert.
  - unfold page_lsn, read_u64. rewrite Hr by (page_consts; lia). done.
  - unfold page_id, read_u32. rewrite Hr by (page_consts; lia). done.
Qed.

Section Crc.
Context (Hcrc : crc_fits).

Lemma sealed_write_checksum d : len d = PAGE_SIZE -> sealed (write_checksum d).
Proof.
  intros H. unfold sealed. rewrite (checksum_same d) by (done || by apply same_out_checksum).
  unfold write_checksum, read_u32, write_u32. apply read_write_le; [page_consts; lia|].
  change (256 ^ N.of_nat 4) with (U32_MAX + 1). rewrite N.add_1_r. apply N.lt_succ_r, Hcrc.
Qed.

(** The header fields above the stamp. *)
Definition view (d : bytes) (l : Lsn) : Heap :=
  mkHeap (h_items (heap_of d)) (h_used (heap_of d)) l (h_id (heap_of d)).

Lemma page_lsn_set d l : len d = PAGE_SIZE -> l <= U64_MAX -> page_lsn (set_page_lsn d l) = l.
Proof.
  intros H Hl. unfold page_lsn, set_page_lsn, write_checksum, read_u64. page_consts. read_fields. done.
Qed.

(** What a stamp with [l] does to a body, and what the checksum alone does. *)
Lemma stamp_ok d n f ss l :
  body_ok d n f ss -> l <= U64_MAX ->
  page_ok (set_page_lsn d l) /\ heap_of (set_page_lsn d l) = view d l.
Proof.
  intros Hb Hl. pose proof (b_len _ _ _ _ Hb) as Hd.
  assert (Hw : len (write_u64 d PAGE_LSN_OFFSET l) = PAGE_SIZE)
    by (unfold write_u64; rewrite len_write_le; [done|page_consts; lia]).
  destruct (body_stamp d (set_page_lsn d l) n f ss Hb) as (Hb' & Hi & Hp).
  - eapply same_out_trans.
    + eapply same_out_mono; [| |apply (same_out_write_le 8 d PAGE_LSN_OFFSET l)]; page_consts; lia.
    + eapply same_out_mono; [| |by apply same_out_checksum]; page_consts; lia.
  - unfold set_page_lsn, write_checksum, write_u32, write_u64. pose proof (b_bytes _ _ _ _ Hb). auto with saguaro.
  - split; [split; [by apply sealed_write_checksum|eauto]|].
    unfold heap_of, view. cbn. rewrite page_lsn_set by done.
    rewrite (b_slots _ _ _ _ Hb'), (b_slots _ _ _ _ Hb), Hi, Hp, (b_free _ _ _ _ Hb'), (b_free _ _ _ _ Hb). done.
Qed.

Lemma seal_ok d n f ss :
  body_ok d n f ss -> page_ok (write_checksum d) /\ heap_of (write_checksum d) = heap_of d.
Proof.
  intros Hb. pose proof (b_len _ _ _ _ Hb) as Hd. pose proof (same_out_checksum d Hd) as Hs.
  destruct (body_stamp d (write_checksum d) n f ss Hb) as (Hb' & Hi & Hp).
  - eapply same_out_mono; [| |exact Hs]; page_consts; lia.
  - unfold write_checksum, write_u32. pose proof (b_bytes _ _ _ _ Hb). auto with saguaro.
  - split; [split; [by apply sealed_write_checksum|eauto]|].
    unfold heap_of. rewrite (b_slots _ _ _ _ Hb'), (b_slots _ _ _ _ Hb), Hi, Hp.
    rewrite (b_free _ _ _ _ Hb'), (b_free _ _ _ _ Hb). f_equal.
    unfold page_lsn, read_u64. eapply read_le_same; [exact Hs|page_consts; lia].
Qed.

(** ** The operations on line pointers *)

(** The outcome of moving line pointers: the body with its new items, or an error. *)
Definition flipped (d : bytes) (n f : N) (spec : option (list Item)) (out : bytes * result Fault unit) : Prop :=
  match spec with
  | Some items => exists d' ss', out = (d', Ok ()) /\ body_ok d' n f ss' /\ item_of d' <$> ss' = items /\
                    page_lsn d' = page_lsn d /\ page_id d' = page_id d
  | None => exists d' e, out = (d', Err (Raised e))
  end.

Lemma flip_one d n f ss i s new :
  body_ok d n f ss -> i < n -> ss !! N.to_nat i = Some s -> new <= REDIRECT -> new <> NORMAL -> new <> REDIRECT ->
  let s' := mkSlot s.(s_offset) s.(s_len) new in
  body_ok (put_slot d i s') n f (<[N.to_nat i := s']> ss) /\
  item_of (put_slot d i s') <$> <[N.to_nat i := s']> ss = <[N.to_nat i := item_of d s']> (item_of d <$> ss) /\
  page_lsn (put_slot d i s') = page_lsn d /\ page_id (put_slot d i s') = page_id d.
Proof.
  intros Hb Hi Es W1 W2 W3 s'. assert (Hd : is_live s' = false) by (by apply N.eqb_neq).
  eapply body_put; [done|done|done| | |].
  - pose proof (b_slot_ok _ _ _ _ Hb) as H. rewrite Forall_lookup in H. destruct (H _ _ Es).
    constructor; [done|done|congruence|done].
  - apply disjoint_insert; [apply (b_disjoint _ _ _ _ Hb)|]. intros. congruence.
  - pose proof (sum_insert ss (N.to_nat i) s s' Es) as H. pose proof (b_sum _ _ _ _ Hb).
    unfold row_len at 2 in H. rewrite Hd in H. lia.
Qed.

Lemma flip_slots_ok allowed allowed' new it m l : forall d n f ss,
  body_ok d n f ss ->
  (forall d s, s.(s_flags) <= REDIRECT -> allowed s.(s_flags) = allowed' (item_of d s)) ->
  (forall d o k, item_of d (mkSlot o k new) = it) -> new <= REDIRECT -> new <> NORMAL -> new <> REDIRECT ->
  flipped d n f (flip_items allowed' it l (item_of d <$> ss)) (flip_slots (mkPageHeader n f) allowed m new l d).
Proof.
  induction l as [|i l IH]; intros d n f ss Hb Ha Hit W1 W2 W3.
  { exists d, ss. done. }
  cbn [flip_items]. unfold flip_slots. cbn [for_each]. unfold mbind at 1, se_bind at 1, in_bounds.
  rewrite list_lookup_fmap. destruct (N.leb_spec n i) as [Hi|Hi]; cbn [num_slots].
  { rewrite (proj2 (N.leb_le _ _) Hi).
    rewrite (proj2 (lookup_ge_None _ _)) by (rewrite (body_length _ _ _ _ Hb); lia). by eexists _, _. }
  rewrite (proj2 (N.leb_gt _ _) Hi). destruct (body_lookup _ _ _ _ _ Hb Hi) as (Es & Hfit & Hok). rewrite Es.
  cbn [fmap option_fmap option_map]. unfold lift, mbind, se_bind, reading. rewrite (body_read_slot _ _ _ _ _ Hb Hi).
  cbn [raise map_err]. rewrite (Ha d) by apply Hok. destruct (allowed' _) eqn:Eal; cbn [negb]; [|by eexists _, _].
  rewrite write_slot_Ok by done.
  destruct (flip_one _ _ _ _ _ _ new Hb Hi Es W1 W2 W3) as (Hb' & Ei & El & Ep).
  specialize (IH _ _ _ _ Hb' Ha Hit W1 W2 W3). rewrite Ei, Hit in IH.
  destruct (flip_items allowed' it l _) as [items|]; [|done].
  destruct IH as (d2 & ss2 & E2 & Hb2 & Ei2 & El2 & Ep2). exists d2, ss2. split_and!; try done; congruence.
Qed.

(** The flags and the items they name. *)
Lemma flags_items d s : s.(s_flags) <= REDIRECT ->
  (s.(s_flags) =? NORMAL) = is_normal (item_of d s) /\ (s.(s_flags) =? DEAD) = is_dead (item_of d s) /\
  (s.(s_flags) =? UNUSED) = is_unused (item_of d s) /\
  ((s.(s_flags) =? NORMAL) || (s.(s_flags) =? REDIRECT)) = is_indexed (item_of d s).
Proof.
  intros H. unfold item_of. page_consts. assert (Hf : s_flags s = 0 \/ s_flags s = 1 \/ s_flags s = 2 \/ s_flags s = 3) by lia.
  destruct Hf as [-> | [-> | [-> | ->]]]; done.
Qed.

(** ** Compaction *)

(** The live rows of [ss], numbered from [k], and the line pointers after they are laid
    down from [c]. *)
Fixpoint live_rows (d : bytes) (k : N) (ss : list Slot) : list (N * bytes) :=
  match ss with
  | [] => []
  | s :: ss => (if is_live s then [(k, sub d s.(s_offset) s.(s_len))] else []) ++ live_rows d (k + 1) ss
  end.

Fixpoint repack (c : N) (ss : list Slot) : list Slot :=
  match ss with
  | [] => []
  | s :: ss => (if is_live s then mkSlot c s.(s_len) s.(s_flags) else s) :: repack (c + row_len s) ss
  end.

Lemma survivors_Ok d n f : f <= len d -> forall ss k l,
  Forall (slot_ok n f) ss -> l = (fun i => k + N.of_nat i) <$> seq 0 (length ss) ->
  (forall i s, ss !! i = Some s -> read_slot d (k + N.of_nat i) = Ok s) ->
  survivors d l = Ok (live_rows d k ss).
Proof.
  intros Hf. induction ss as [|s ss IH]; intros k l Hok El Hs; subst l; [done|].
  apply Forall_cons in Hok as [Hok1 Hok]. cbn [length seq fmap list_fmap survivors].
  rewrite (Hs 0%nat s) by done. cbn [raise map_err mbind result_bind live_rows].
  assert (E : survivors d ((fun i => k + N.of_nat i) <$> seq 1 (length ss)) = Ok (live_rows d (k + 1) ss)).
  { apply IH; [done| |].
    - rewrite <- (fmap_S_seq 0), <- list_fmap_compose. apply list_fmap_ext. intros ? ? _. cbn. lia.
    - intros i s' Hi. rewrite <- (Hs (S i) s') by done. f_equal. lia. }
  rewrite E. destruct (is_live s) eqn:El; [|done]. destruct (slot_row _ _ _ Hok1 El) as [H1 H2].
  rewrite slice_Ok by lia. cbn. rewrite N.add_0_r. replace (s_offset s + s_len s - s_offset s) with (s_len s) by lia. done.
Qed.

(** The facts about the line pointers a compaction leaves. *)
Lemma repack_length c ss : length (repack c ss) = length ss.
Proof. revert c. induction ss as [|s ss IH]; intros c; cbn; [done|]. by rewrite IH. Qed.

Lemma repack_sum c ss : sum_lens (repack c ss) = sum_lens ss.
Proof.
  revert c. induction ss as [|s ss IH]; intros c; [done|]. cbn [repack]. rewrite !sum_cons, IH. f_equal.
  unfold row_len. by destruct (is_live s) eqn:E; [unfold is_live in *; cbn; rewrite E|rewrite E].
Qed.

Lemma repack_row c ss i s :
  repack c ss !! i = Some s -> is_live s = true -> c <= s.(s_offset) /\ s.(s_offset) + s.(s_len) <= c + sum_lens ss.
Proof.
  revert c i. induction ss as [|a ss IH]; intros c [|i] E Hl; cbn [repack] in E; try done.
  - injection E as <-. rewrite sum_cons. unfold row_len. destruct (is_live a) eqn:Ea; [cbn; lia|congruence].
  - destruct (IH _ _ E Hl). rewrite sum_cons. lia.
Qed.

Lemma disjoint_cons s ss :
  rows_disjoint ss ->
  (forall j b, ss !! j = Some b -> is_live s = true -> is_live b = true ->
     s.(s_offset) + s.(s_len) <= b.(s_offset) \/ b.(s_offset) + b.(s_len) <= s.(s_offset)) ->
  rows_disjoint (s :: ss).
Proof.
  intros Hd Hs [|i] [|j] a b Ha Hb Hij La Lb; cbn in Ha, Hb; try done; simplify_eq.
  - by eapply Hs.
  - destruct (Hs _ _ Ha Lb La); auto.
  - eapply (Hd i j); auto.
Qed.

Lemma repack_disjoint c ss : rows_disjoint (repack c ss).
Proof.
  revert c. induction ss as [|s ss IH]; intros c; [by intros [] j a b|].
  cbn [repack]. apply disjoint_cons; [apply IH|]. intros j b Hj Ls Lb.
  destruct (repack_row _ _ _ _ Hj Lb) as [H _]. left. unfold row_len in H.
  destruct (is_live s) eqn:E; [cbn; lia|congruence].
Qed.

Lemma repack_ok n f c ss f' :
  Forall (slot_ok n f) ss -> HEADER_LEN <= c -> c + sum_lens ss <= f' -> f' <= U16_MAX ->
  Forall (slot_ok n f') (repack c ss).
Proof.
  revert c. induction ss as [|s ss IH]; intros c Hok Hc Hf Hw; [constructor|].
  apply Forall_cons in Hok as [Hs Hok]. rewrite sum_cons in Hf. cbn [repack]. constructor.
  - destruct Hs as [[W1 W2] W3 Hr Ht]. unfold row_len in *. destruct (is_live s) eqn:E.
    + constructor; cbn; [lia|done|lia|]. intros Hx. unfold is_live in E. rewrite Hx in E. done.
    + constructor; [done|done|congruence|done].
  - apply IH; [done|lia|lia|done].
Qed.

(** One turn of the loop: the row [b] of the line pointer [s] is laid down at [c]. *)
Lemma lay_one n s pre suf c e b l :
  slot_ok n PAGE_SIZE s -> len e = PAGE_SIZE -> bytes_ok e -> bytes_ok b -> len b = s.(s_len) ->
  read_u16 e NUM_SLOTS_OFFSET = n -> slots e = pre ++ s :: suf -> HEADER_LEN <= c ->
  c + s.(s_len) + n * SLOT_LEN <= PAGE_SIZE ->
  let s' := mkSlot c s.(s_len) s.(s_flags) in
  exists e', lay_down c ((len pre, b) :: l) e = lay_down (c + s.(s_len)) l e' /\
    len e' = PAGE_SIZE /\ bytes_ok e' /\ read_u16 e' NUM_SLOTS_OFFSET = n /\ slots e' = (pre ++ [s']) ++ suf /\
    sub e' c s.(s_len) = b /\ (forall o k, o + k <= c -> sub e' o k = sub e o k).
Proof.
  intros Hok Hl Hbe Hbb Hbl Hnum Hs Hc Hfit s'.
  assert (Hlp : len pre < n).
  { apply (f_equal length) in Hs. rewrite length_slots, Hnum, length_app in Hs. cbn in Hs. unfold len. lia. }
  assert (Hsl : (len pre + 1) * SLOT_LEN <= PAGE_SIZE) by (page_consts; lia).
  pose proof (same_out_blit e c b ltac:(rewrite Hl, Hbl; page_consts; lia)) as So1. rewrite Hbl in So1.
  assert (Hl1 : len (blit e c b) = PAGE_SIZE) by (rewrite <- Hl; apply So1).
  assert (Hs1 : slots (blit e c b) = pre ++ s :: suf).
  { rewrite <- Hs. eapply slots_same; [exact So1|done| | |]; rewrite ?Hnum; page_consts; lia. }
  assert (Hn1 : read_u16 (blit e c b) NUM_SLOTS_OFFSET = n)
    by (rewrite <- Hnum; eapply read_le_same; [exact So1|page_consts; lia]).
  assert (Eg : get_slot (blit e c b) (len pre) = s).
  { pose proof (lookup_slots (blit e c b) (length pre)) as Hx. rewrite Hs1, Hn1, list_lookup_middle in Hx by done.
    unfold len. specialize (Hx ltac:(unfold len in Hlp; lia)). congruence. }
  pose proof (same_out_put_slot (blit e c b) (len pre) s' Hsl Hl1) as So2.
  exists (put_slot (blit e c b) (len pre) s'). split_and!.
  - cbn [lay_down]. unfold mbind, se_bind, writing. rewrite copy_from_slice_Ok by (rewrite Hl, Hbl; page_consts; lia).
    unfold reading. rewrite read_slot_Ok, Eg by done. cbn [raise map_err]. unfold lift, to_u16.
    rewrite (proj2 (N.leb_le c U16_MAX)) by (page_consts; lia). rewrite write_slot_Ok by done. by rewrite Hbl.
  - by apply len_put_slot.
  - by apply bytes_ok_put_slot, bytes_ok_blit.
  - rewrite <- Hn1. eapply read_le_same; [exact So2|page_consts; lia].
  - rewrite slots_put; rewrite ?Hn1; try done; [|page_consts; lia|].
    + rewrite Hs1. unfold len. rewrite Nat2N.id, insert_app_r_alt, Nat.sub_diag by done. by rewrite <- app_assoc.
    + destruct Hok as [[] W3 _ _]. cbn. page_consts. lia.
  - destruct So2 as [_ ->]; [|page_consts; lia]. rewrite <- Hbl. apply sub_blit_same. rewrite Hl, Hbl. page_consts. lia.
  - intros o k Ho. destruct So2 as [_ ->]; [|page_consts; lia]. apply So1. lia.
Qed.

Lemma slot_ok_weaken n f f' s : f <= f' -> slot_ok n f s -> slot_ok n f' s.
Proof. intros Hf []. constructor; try done. intros H. specialize (slot_row0 H). lia. Qed.

(** Laying down the rows of [suf] behind the line pointers [pre] already moved. *)
Lemma lay_down_ok d n f : f <= len d -> f + n * SLOT_LEN <= PAGE_SIZE -> bytes_ok d -> forall suf pre c e,
  Forall (slot_ok n f) suf -> len e = PAGE_SIZE -> bytes_ok e -> read_u16 e NUM_SLOTS_OFFSET = n ->
  slots e = pre ++ suf -> HEADER_LEN <= c -> c + sum_lens suf <= f ->
  exists e', lay_down c (live_rows d (len pre) suf) e = (e', Ok (c + sum_lens suf)) /\
    len e' = PAGE_SIZE /\ bytes_ok e' /\ slots e' = pre ++ repack c suf /\
    item_of e' <$> repack c suf = item_of d <$> suf /\
    (forall o k, o + k <= c -> sub e' o k = sub e o k).
Proof.
  intros Hfd Hfn Hdb. induction suf as [|s suf IH]; intros pre c e Hok Hl Hb Hnum Hs Hc Hsum.
  { exists e. split_and!; try done. cbn. by rewrite N.add_0_r. }
  apply Forall_cons in Hok as [Hs1 Hok]. rewrite sum_cons in *.
  cbn [live_rows repack]. unfold row_len in *. destruct (is_live s) eqn:El.
  - destruct (slot_row _ _ _ Hs1 El) as [R1 R2].
    destruct (lay_one n s pre suf c e (sub d s.(s_offset) s.(s_len)) (live_rows d (len pre + 1) suf))
      as (e2 & E0 & Hl2 & Hb2 & Hn2 & Hs2 & Er & Hsub2); try done; auto with saguaro.
    { eapply slot_ok_weaken; [|done]. lia. }
    { rewrite len_sub. lia. }
    { lia. }
    destruct (IH (pre ++ [mkSlot c s.(s_len) s.(s_flags)]) (c + s_len s) e2)
      as (e' & E & E1 & E2 & E3 & E4 & E5); try done; [lia|lia|].
    replace (len (pre ++ _)) with (len pre + 1) in E by (unfold len; rewrite length_app; cbn; lia).
    exists e'. cbn [app]. rewrite E0, E. split_and!; try done.
    + f_equal. f_equal. lia.
    + rewrite E3, <- app_assoc. done.
    + cbn [fmap list_fmap]. rewrite E4. f_equal. unfold item_of, is_live in *. cbn [s_flags s_offset s_len].
      rewrite El, E5 by lia. by rewrite Er.
    + intros o k Ho. rewrite E5, Hsub2 by lia. done.
  - rewrite N.add_0_r, N.add_0_l in *. cbn [app].
    destruct (IH (pre ++ [s]) c e) as (e' & E & E1 & E2 & E3 & E4 & E5); try done.
    { rewrite <- app_assoc. done. }
    replace (len (pre ++ [s])) with (len pre + 1) in E by (unfold len; rewrite length_app; cbn; lia).
    exists e'. split_and!; try done.
    + rewrite E3, <- app_assoc. done.
    + cbn [fmap list_fmap]. rewrite E4. f_equal. unfold item_of, is_live in *. by rewrite El.
Qed.

Lemma live_bytes_sum d n f ss : f <= len d -> Forall (slot_ok n f) ss -> live_bytes (item_of d <$> ss) = sum_lens ss.
Proof.
  intros Hf. induction 1 as [|s ss Hs _ IH]; [done|]. cbn [fmap list_fmap].
  change (live_bytes (item_of d s :: (item_of d <$> ss))) with (item_len (item_of d s) + live_bytes (item_of d <$> ss)).
  rewrite IH, sum_cons. f_equal. unfold item_of, row_len, is_live.
  destruct (s_flags s =? NORMAL) eqn:E; [|by repeat case_if].
  cbn. rewrite len_sub. pose proof (slot_row _ _ _ Hs E). lia.
Qed.

(** A new end of the row region: the header says so and nothing else changes. *)
Lemma write_free_ok d n f' ss :
  len d = PAGE_SIZE -> bytes_ok d -> byte_at d PAGE_TYPE_OFFSET = PAGE_TYPE_DATA ->
  byte_at d PAGE_VERSION_OFFSET = PAGE_VERSION -> read_u16 d NUM_SLOTS_OFFSET = n -> slots d = ss ->
  HEADER_LEN <= f' -> f' + n * SLOT_LEN <= PAGE_SIZE -> Forall (slot_ok n f') ss -> rows_disjoint ss ->
  sum_lens ss <= f' - HEADER_LEN ->
  let d' := write_u16 d FREE_SPACE_OFFSET f' in
  body_ok d' n f' ss /\ item_of d' <$> ss = item_of d <$> ss /\ page_lsn d' = page_lsn d /\ page_id d' = page_id d.
Proof.
  intros Hl Hb Ht Hv Hn Hs F1 F2 Hok Hd Hsum d'.
  assert (So : same_out FREE_SPACE_OFFSET PAGE_LSN_OFFSET d d') by (apply (same_out_write_le 2); page_consts; lia).
  assert (Hr : forall k o, o + N.of_nat k <= FREE_SPACE_OFFSET -> read_le k d' o = read_le k d o)
    by (intros; eapply read_le_same; [exact So|by left]).
  split_and!.
  - constructor; try done.
    + rewrite <- Hl. apply So.
    + by apply bytes_ok_write_le.
    + unfold byte_at. rewrite Hr by (page_consts; lia). done.
    + unfold byte_at. rewrite Hr by (page_consts; lia). done.
    + unfold read_u16. rewrite Hr by (page_consts; lia). done.
    + apply read_write_le; [page_consts; lia|]. change (256 ^ N.of_nat 2) with 65536. page_consts; lia.
    + rewrite <- Hs. eapply slots_same; [exact So|done| | |]; rewrite ?Hn; page_consts; lia.
  - eapply items_same; [exact So|exact Hok|left; page_consts; lia].
  - eapply read_le_same; [exact So|right; page_consts; lia].
  - eapply read_le_same; [exact So|left; page_consts; lia].
Qed.

Lemma page_validate d : page_ok d -> exists n f ss, body_ok d n f ss /\ validate d = Ok (mkPageHeader n f).
Proof. intros (Hs & n & f & ss & Hb). exists n, f, ss. split; [done|]. by eapply validate_Ok. Qed.

Lemma compact_ok d n f ss l :
  body_ok d n f ss -> l <= U64_MAX ->
  exists d', compact_survivors_and_stamp (mkPageHeader n f) l d = (d', Ok ()) /\ page_ok d' /\
    heap_of d' = packed (heap_of d) (item_of d <$> ss) l.
Proof.
  intros Hb Hlsn. destruct (b_fit _ _ _ _ Hb) as [F1 F2]. pose proof (b_len _ _ _ _ Hb) as Hl.
  pose proof (b_sum _ _ _ _ Hb) as Hsum. pose proof (b_slot_ok _ _ _ _ Hb) as Hok.
  destruct (lay_down_ok d n f ltac:(lia) F2 (b_bytes _ _ _ _ Hb) ss [] HEADER_LEN d Hok Hl
    (b_bytes _ _ _ _ Hb) (b_num _ _ _ _ Hb) (b_slots _ _ _ _ Hb)) as (e & E & El & Eb & Es & Ei & Esub); [lia|lia|].
  assert (Er : forall k o, o + N.of_nat k <= HEADER_LEN -> read_le k e o = read_le k d o)
    by (intros; unfold read_le; by rewrite Esub).
  assert (Hf' : HEADER_LEN + sum_lens ss <= U16_MAX) by (page_consts; lia).
  destruct (write_free_ok e n (HEADER_LEN + sum_lens ss) (repack HEADER_LEN ss)) as (Hb' & Ei' & El' & Ep'); try done.
  { unfold byte_at. rewrite Er by (page_consts; lia). apply (b_type _ _ _ _ Hb). }
  { unfold byte_at. rewrite Er by (page_consts; lia). apply (b_version _ _ _ _ Hb). }
  { unfold read_u16. rewrite Er by (page_consts; lia). apply (b_num _ _ _ _ Hb). }
  { lia. }
  { lia. }
  { eapply repack_ok; [done|lia|lia|lia]. }
  { apply repack_disjoint. }
  { rewrite repack_sum. lia. }
  destruct (stamp_ok _ _ _ _ l Hb' Hlsn) as [Hok' Hh].
  exists (set_page_lsn (write_u16 e FREE_SPACE_OFFSET (HEADER_LEN + sum_lens ss)) l). split_and!; [|done|].
  - unfold compact_survivors_and_stamp, mbind, se_bind. cbn [num_slots].
    erewrite (survivors_Ok d n f ltac:(lia) ss 0); [|done| |].
    + change (live_rows d 0 ss) with (live_rows d (len (@nil Slot)) ss). rewrite E. unfold lift, to_u16, modify, reading.
      rewrite (proj2 (N.leb_le _ _) Hf'). destruct (page_validate _ Hok') as (? & ? & ? & _ & ->). done.
    + unfold range. rewrite (body_length _ _ _ _ Hb). apply list_fmap_ext. intros ? ? _. by rewrite N.add_0_l.
    + intros i s Hi. assert (Hin : N.of_nat i < n).
      { apply lookup_lt_Some in Hi. rewrite (body_length _ _ _ _ Hb) in Hi. lia. }
      destruct (body_lookup _ _ _ _ _ Hb Hin) as (Eg & Hfit & _). rewrite Nat2N.id in Eg.
      rewrite N.add_0_l, read_slot_Ok by done. congruence.
  - rewrite Hh. unfold view, packed. rewrite (heap_of_body _ _ _ _ Hb'). cbn [h_items h_used h_id].
    rewrite Ei', Ei, Ep'. rewrite (live_bytes_sum d n f) by (done || lia). f_equal; [lia|].
    unfold page_id, read_u32. rewrite Er by (page_consts; lia). done.
Qed.

(** ** Insertion *)

Lemma first_unused_ok d e n f : forall ss k,
  Forall (slot_ok n f) ss -> (forall i s, ss !! i = Some s -> read_slot e (k + N.of_nat i) = Ok s) ->
  first_unused_slot e ((fun i => k + N.of_nat i) <$> seq 0 (length ss)) =
    Ok ((fun p => k + N.of_nat p.1) <$> list_find (fun it => is_unused it = true) (item_of d <$> ss)).
Proof.
  induction ss as [|s ss IH]; intros k Hok Hr; [done|]. apply Forall_cons in Hok as [Hs Hok].
  cbn [length seq fmap list_fmap first_unused_slot]. rewrite (Hr 0%nat s) by done. cbn [mbind result_bind list_find].
  destruct (flags_items d s (slot_flags _ _ _ Hs)) as (_ & _ & -> & _).
  destruct (is_unused (item_of d s)) eqn:E.
  { rewrite decide_True by done. cbn. done. }
  rewrite decide_False by done. rewrite <- (fmap_S_seq 0), <- list_fmap_compose.
  rewrite (list_fmap_ext _ (fun i => k + 1 + N.of_nat i) (seq 0 (length ss))) by (intros; cbn; lia).
  etrans; [apply (IH (k + 1) Hok)|].
  - intros i s' Hi. rewrite <- (Hr (S i) s') by done. f_equal. lia.
  - destruct (list_find _ _) as [[i it]|]; cbn; [|done]. do 2 f_equal. lia.
Qed.

(** The array with the row copied behind the others. *)
Lemma copy_row_ok d n f ss row :
  body_ok d n f ss -> bytes_ok row -> f + len row + n * SLOT_LEN <= PAGE_SIZE ->
  let e := blit d f row in
  len e = PAGE_SIZE /\ bytes_ok e /\ slots e = ss /\ item_of e <$> ss = item_of d <$> ss /\ sub e f (len row) = row /\
  (forall k o, o + N.of_nat k <= HEADER_LEN -> read_le k e o = read_le k d o).
Proof.
  intros Hb Hrow Hfit e. pose proof (b_len _ _ _ _ Hb) as Hl. destruct (b_fit _ _ _ _ Hb) as [F1 F2].
  pose proof (same_out_blit d f row ltac:(lia)) as So. fold e in So. split_and!.
  - rewrite <- Hl. apply So.
  - apply bytes_ok_blit; [apply (b_bytes _ _ _ _ Hb)|done].
  - rewrite <- (b_slots _ _ _ _ Hb). eapply slots_same; [exact So|done| | |]; rewrite ?(b_num _ _ _ _ Hb); page_consts; lia.
  - eapply items_same; [exact So|apply (b_slot_ok _ _ _ _ Hb)|]. right. done.
  - apply sub_blit_same. lia.
  - intros k o Ho. eapply read_le_same; [exact So|]. left. lia.
Qed.

(** The line pointer of the new row is in order beside those below [f]. *)
Lemma new_slot_ok n f k : HEADER_LEN <= f -> f + k <= PAGE_SIZE -> slot_ok n (f + k) (mkSlot f k NORMAL).
Proof. intros H1 H2. constructor; cbn; [page_consts; lia|done|lia|done]. Qed.

Lemma new_slot_disjoint n f k ss j b :
  Forall (slot_ok n f) ss -> ss !! j = Some b -> is_live b = true ->
  (mkSlot f k NORMAL).(s_offset) + (mkSlot f k NORMAL).(s_len) <= b.(s_offset) \/
  b.(s_offset) + b.(s_len) <= (mkSlot f k NORMAL).(s_offset).
Proof.
  intros Hok Hj Hl. rewrite Forall_lookup in Hok. right. cbn. apply (slot_row _ _ _ (Hok _ _ Hj) Hl).
Qed.

Lemma sum_app l1 l2 : sum_lens (l1 ++ l2) = sum_lens l1 + sum_lens l2.
Proof. induction l1 as [|s l1 IH]; [done|]. cbn [app]. rewrite !sum_cons, IH. lia. Qed.

Lemma disjoint_snoc ss s :
  rows_disjoint ss ->
  (forall j b, ss !! j = Some b -> is_live s = true -> is_live b = true ->
     s.(s_offset) + s.(s_len) <= b.(s_offset) \/ b.(s_offset) + b.(s_len) <= s.(s_offset)) ->
  rows_disjoint (ss ++ [s]).
Proof.
  intros Hd Hs i j a b Ha Hb Hij La Lb.
  apply lookup_app_Some in Ha as [Ha|[Ha1 Ha]], Hb as [Hb|[Hb1 Hb]].
  - by eapply Hd.
  - apply list_lookup_singleton_Some in Hb as [_ ->]. destruct (Hs _ _ Ha); auto.
  - apply list_lookup_singleton_Some in Ha as [_ ->]. by eapply Hs.
  - apply list_lookup_singleton_Some in Ha as [? _], Hb as [? _]. lia.
Qed.

Lemma slot_ok_grow n n' f f' s : n <= n' -> f <= f' -> slot_ok n f s -> slot_ok n' f' s.
Proof.
  intros Hn Hf []. constructor; try done; intros H; [specialize (slot_row0 H)|specialize (slot_target0 H)]; lia.
Qed.

(** A slot id is reused, or a new one appended; both leave a body with one more row. *)
Lemma reuse_ok d n f ss row i s :
  body_ok d n f ss -> bytes_ok row -> f + len row + n * SLOT_LEN <= PAGE_SIZE -> i < n ->
  ss !! N.to_nat i = Some s -> is_live s = false ->
  let k := len row in
  let e := write_u16 (put_slot (blit d f row) i (mkSlot f k NORMAL)) FREE_SPACE_OFFSET (f + k) in
  exists ss', body_ok e n (f + k) ss' /\ item_of e <$> ss' = <[N.to_nat i := INormal row]> (item_of d <$> ss) /\
    page_lsn e = page_lsn d /\ page_id e = page_id d.
Proof.
  intros Hb Hrow Hfit Hi Es Hdead k e. destruct (b_fit _ _ _ _ Hb) as [F1 F2].
  destruct (copy_row_ok _ _ _ _ _ Hb Hrow Hfit) as (Hl & Hbe & Hs & Ei & Er & Hr).
  set (new := mkSlot f k NORMAL). set (e1 := blit d f row) in *.
  assert (Hsl : (i + 1) * SLOT_LEN <= PAGE_SIZE) by (page_consts; lia).
  assert (Hn : read_u16 e1 NUM_SLOTS_OFFSET = n).
  { unfold read_u16. rewrite Hr by (page_consts; lia). apply (b_num _ _ _ _ Hb). }
  pose proof (same_out_put_slot e1 i new Hsl Hl) as So. set (e2 := put_slot e1 i new) in *.
  assert (Hr2 : forall j o, o + N.of_nat j <= HEADER_LEN -> read_le j e2 o = read_le j d o).
  { intros j o Ho. rewrite <- Hr by done. eapply read_le_same; [exact So|]. left. page_consts. lia. }
  assert (Hs2 : slots e2 = <[N.to_nat i := new]> ss).
  { unfold e2. rewrite slots_put; [by rewrite Hs|done|rewrite Hn; page_consts; lia|by rewrite Hn|].
    unfold new, k. cbn. page_consts. lia. }
  assert (Hok : Forall (slot_ok n (f + k)) (<[N.to_nat i := new]> ss)).
  { apply Forall_insert; [|apply new_slot_ok; [done|page_consts; unfold k; lia]].
    eapply Forall_impl; [apply (b_slot_ok _ _ _ _ Hb)|]. intros x. apply slot_ok_grow; lia. }
  destruct (write_free_ok e2 n (f + k) (<[N.to_nat i := new]> ss)) as (Hb' & Ei' & El' & Ep'); try done.
  { by apply len_put_slot. }
  { by apply bytes_ok_put_slot. }
  { unfold byte_at. rewrite Hr2 by (page_consts; lia). apply (b_type _ _ _ _ Hb). }
  { unfold byte_at. rewrite Hr2 by (page_consts; lia). apply (b_version _ _ _ _ Hb). }
  { unfold read_u16. rewrite Hr2 by (page_consts; lia). apply (b_num _ _ _ _ Hb). }
  { lia. }
  { apply disjoint_insert; [apply (b_disjoint _ _ _ _ Hb)|]. intros j b' Hj _ _ Hlv.
    by eapply new_slot_disjoint; [apply (b_slot_ok _ _ _ _ Hb)| |]. }
  { pose proof (sum_insert ss _ s new Es) as H. pose proof (b_sum _ _ _ _ Hb). unfold row_len at 1 in H.
    rewrite Hdead in H. unfold row_len in H. cbn in H. unfold k in *. lia. }
  exists (<[N.to_nat i := new]> ss). fold e2 in Hb'. split_and!; [done| | |].
  - etrans; [exact Ei'|]. rewrite (items_same _ _ n (f + k) e1 _ _ So Hok) by (right; unfold k; page_consts; lia).
    rewrite list_fmap_insert, Ei. f_equal. change (INormal (sub e1 f (len row)) = INormal row). by rewrite Er.
  - etrans; [exact El'|]. unfold page_lsn, read_u64. by rewrite Hr2 by (page_consts; lia).
  - etrans; [exact Ep'|]. unfold page_id, read_u32. by rewrite Hr2 by (page_consts; lia).
Qed.

Lemma append_slot_ok d n f ss row :
  body_ok d n f ss -> bytes_ok row -> f + len row + (n + 1) * SLOT_LEN <= PAGE_SIZE ->
  let k := len row in
  let e := write_u16 (write_u16 (put_slot (blit d f row) n (mkSlot f k NORMAL)) NUM_SLOTS_OFFSET (n + 1))
             FREE_SPACE_OFFSET (f + k) in
  exists ss', body_ok e (n + 1) (f + k) ss' /\ item_of e <$> ss' = (item_of d <$> ss) ++ [INormal row] /\
    page_lsn e = page_lsn d /\ page_id e = page_id d.
Proof.
  intros Hb Hrow Hfit k e. destruct (b_fit _ _ _ _ Hb) as [F1 F2].
  destruct (copy_row_ok d n f ss row Hb Hrow) as (Hl & Hbe & Hs & Ei & Er & Hr); [page_consts; lia|].
  set (new := mkSlot f k NORMAL). set (e1 := blit d f row) in *.
  assert (Hsl : (n + 1) * SLOT_LEN <= PAGE_SIZE) by (page_consts; lia).
  assert (Hn : read_u16 e1 NUM_SLOTS_OFFSET = n).
  { unfold read_u16. rewrite Hr by (page_consts; lia). apply (b_num _ _ _ _ Hb). }
  pose proof (same_out_put_slot e1 n new Hsl Hl) as So.
  pose proof (len_put_slot e1 n new Hsl Hl) as Hlp.
  set (e2 := write_u16 (put_slot e1 n new) NUM_SLOTS_OFFSET (n + 1)) in *.
  assert (So2 : same_out NUM_SLOTS_OFFSET FREE_SPACE_OFFSET (put_slot e1 n new) e2)
    by (apply (same_out_write_le 2); rewrite Hlp; page_consts; lia).
  assert (Hr2 : forall j o, o + N.of_nat j <= HEADER_LEN -> o + N.of_nat j <= NUM_SLOTS_OFFSET \/ FREE_SPACE_OFFSET <= o ->
            read_le j e2 o = read_le j d o).
  { intros j o Ho Ho'. rewrite <- Hr by done. rewrite (read_le_same _ _ _ _ _ _ So2) by done.
    eapply read_le_same; [exact So|]. left. page_consts. lia. }
  assert (Hs2 : slots e2 = ss ++ [new]).
  { unfold e2. rewrite slots_append; [by rewrite Hs|done|done|page_consts; lia|]. unfold new, k. cbn. page_consts. lia. }
  assert (Hok : Forall (slot_ok (n + 1) (f + k)) (ss ++ [new])).
  { apply Forall_app. split; [|apply Forall_singleton, new_slot_ok; [done|page_consts; unfold k; lia]].
    eapply Forall_impl; [apply (b_slot_ok _ _ _ _ Hb)|]. intros x. apply slot_ok_grow; lia. }
  destruct (write_free_ok e2 (n + 1) (f + k) (ss ++ [new])) as (Hb' & Ei' & El' & Ep'); try done.
  { rewrite <- Hlp. apply So2. }
  { by apply bytes_ok_write_le, bytes_ok_put_slot. }
  { unfold byte_at. rewrite Hr2 by (page_consts; lia). apply (b_type _ _ _ _ Hb). }
  { unfold byte_at. rewrite Hr2 by (page_consts; lia). apply (b_version _ _ _ _ Hb). }
  { unfold read_u16, e2, write_u16. apply read_write_le; [rewrite Hlp; page_consts; lia|].
    change (256 ^ N.of_nat 2) with 65536. page_consts; lia. }
  { lia. }
  { apply disjoint_snoc; [apply (b_disjoint _ _ _ _ Hb)|]. intros j b' Hj _ Hlv.
    by eapply new_slot_disjoint; [apply (b_slot_ok _ _ _ _ Hb)| |]. }
  { rewrite sum_app. pose proof (b_sum _ _ _ _ Hb). unfold new. cbn. unfold row_len. cbn. lia. }
  exists (ss ++ [new]). split_and!; [done| | |].
  - etrans; [exact Ei'|]. rewrite (items_same _ _ (n + 1) (f + k) _ _ _ So2 Hok) by (left; page_consts; lia).
    rewrite (items_same _ _ (n + 1) (f + k) e1 _ _ So Hok) by (right; unfold k; page_consts; lia).
    rewrite fmap_app, Ei. f_equal. change ([INormal (sub e1 f (len row))] = [INormal row]). by rewrite Er.
  - etrans; [exact El'|]. unfold page_lsn, read_u64. by rewrite Hr2 by (page_consts; lia).
  - etrans; [exact Ep'|]. unfold page_id, read_u32. by rewrite Hr2 by (page_consts; lia).
Qed.

(** ** Each operation implements its specification *)

Lemma heap_eq d n f ss items l :
  body_ok d n f ss -> item_of d <$> ss = items -> page_lsn d = l -> heap_of d = mkHeap items (f - HEADER_LEN) l (page_id d).
Proof. intros Hb <- <-. by apply (heap_of_body _ _ _ _ Hb). Qed.

Lemma reading_validate {A} d n f ss (k : PageHeader -> PM A) :
  sealed d -> body_ok d n f ss -> (reading validate ≫= k) d = k (mkPageHeader n f) d.
Proof. intros Hs Hb. unfold mbind, se_bind, reading. by rewrite (validate_Ok _ _ _ _ Hs Hb). Qed.

Lemma free_bytes_ok d n f ss : body_ok d n f ss -> free_bytes (mkPageHeader n f) = heap_free (heap_of d).
Proof.
  intros Hb. unfold free_bytes, heap_free, slot_offset, checked_sub. cbn [num_slots free_start].
  unfold len. rewrite (heap_length _ _ _ _ Hb), N2Nat.id, (heap_of_body _ _ _ _ Hb). cbn [h_used].
  destruct (b_fit _ _ _ _ Hb). destruct (N.leb_spec ((n + 1) * SLOT_LEN) PAGE_SIZE); cbn [default from_option id]; lia.
Qed.

Lemma impl_insert d row : page_ok d -> op_ok (OpInsert row) -> implements (spec_op (OpInsert row) (heap_of d)) (run_op (OpInsert row) d).
Proof.
  intros (Hs & n & f & ss & Hb) [Hrow Hne]. cbn [spec_op run_op]. unfold try_insert_row.
  assert (Hk : 1 <= len row) by (unfold len; destruct row; [done|cbn; lia]).
  unfold mbind at 1, se_bind at 1. rewrite (reading_validate _ _ _ _ _ Hs Hb).
  unfold mbind at 1, se_bind at 1, lift, to_u16. destruct (N.ltb_spec U16_MAX (len row)) as [Hbig|Hsm].
  { rewrite (proj2 (N.leb_gt _ _) Hbig). by eexists _, _. }
  rewrite (proj2 (N.leb_le _ _) Hsm). rewrite (free_bytes_ok _ _ _ _ Hb).
  destruct (N.ltb_spec (heap_free (heap_of d)) (len row)) as [Hf|Hf].
  { exists d. split_and!; [done| |done]. split; [done|eauto]. }
  assert (Hfit : f + len row + (n + 1) * SLOT_LEN <= PAGE_SIZE).
  { unfold heap_free in Hf. unfold len in Hf at 2. rewrite (heap_length _ _ _ _ Hb), N2Nat.id, (heap_of_body _ _ _ _ Hb) in Hf.
    cbn [h_used] in Hf. destruct (b_fit _ _ _ _ Hb). lia. }
  destruct (copy_row_ok d n f ss row Hb Hrow) as (Hl & Hbe & Hse & Ei & Er & Hr); [page_consts; lia|].
  unfold mbind, se_bind, writing. cbn [free_start num_slots].
  rewrite copy_from_slice_Ok by (rewrite (b_len _ _ _ _ Hb); page_consts; lia).
  unfold reading. unfold range. rewrite <- (body_length _ _ _ _ Hb).
  rewrite (list_fmap_ext N.of_nat (fun i => 0 + N.of_nat i)) by (intros; by rewrite N.add_0_l).
  rewrite (first_unused_ok d (blit d f row) n f ss 0 (b_slot_ok _ _ _ _ Hb)).
  2:{ intros i s Hi. assert (Hin : N.of_nat i < n) by (apply lookup_lt_Some in Hi; rewrite (body_length _ _ _ _ Hb) in Hi; lia).
      rewrite N.add_0_l, read_slot_Ok by (page_consts; lia). f_equal.
      assert (Hn : read_u16 (blit d f row) NUM_SLOTS_OFFSET = n)
        by (unfold read_u16; rewrite Hr by (page_consts; lia); apply (b_num _ _ _ _ Hb)).
      pose proof (lookup_slots (blit d f row) i) as Hx. rewrite Hse, Hi, Hn in Hx. specialize (Hx ltac:(lia)). congruence. }
  cbn [raise map_err]. rewrite (heap_of_body _ _ _ _ Hb). cbn [h_items].
  destruct (list_find _ (item_of d <$> ss)) as [[i it]|] eqn:Ef; cbn [fmap option_fmap option_map fst].
  - apply list_find_Some in Ef as (Ei0 & Hun & _). apply list_lookup_fmap_Some in Ei0 as (s & Eit & Es). subst it.
    assert (Hin : N.of_nat i < n) by (apply lookup_lt_Some in Es; rewrite (body_length _ _ _ _ Hb) in Es; lia).
    rewrite N.add_0_l, write_slot_Ok by (page_consts; lia).
    destruct (reuse_ok d n f ss row (N.of_nat i) s Hb Hrow) as (ss' & Hb' & Ei' & El' & Ep');
      [page_consts; lia|done|by rewrite Nat2N.id| |].
    { unfold item_of in Hun. unfold is_live. by destruct (s_flags s =? NORMAL). }
    destruct (seal_ok _ _ _ _ Hb') as [Hok Hh]. eexists. split_and!; [reflexivity|exact Hok|].
    etrans; [exact Hh|]. rewrite (heap_eq _ _ _ _ _ _ Hb' Ei' El'), Ep', Nat2N.id. cbn [h_used h_lsn h_id]. f_equal.
    destruct (b_fit _ _ _ _ Hb). lia.
  - rewrite write_slot_Ok by (page_consts; lia).
    destruct (append_slot_ok d n f ss row Hb Hrow Hfit) as (ss' & Hb' & Ei' & El' & Ep').
    destruct (seal_ok _ _ _ _ Hb') as [Hok Hh]. eexists. split_and!; [|exact Hok|].
    + unfold modify. cbn. rewrite length_fmap, (body_length _ _ _ _ Hb), N2Nat.id. reflexivity.
    + etrans; [exact Hh|]. rewrite (heap_eq _ _ _ _ _ _ Hb' Ei' El'), Ep'. cbn [h_used h_lsn h_id]. f_equal. destruct (b_fit _ _ _ _ Hb). lia.
Qed.

(** A slot in bounds is an item, and one out of bounds is none. *)
Lemma in_bounds_ok {A B} d n f ss i (x : Item -> option B) (k : unit -> PM A) :
  body_ok d n f ss ->
  (n <= i /\ (h_items (heap_of d) !! N.to_nat i ≫= x) = None /\
     exists e, (lift (in_bounds Raised i (mkPageHeader n f)) ≫= k) d = (d, Err (Raised e))) \/
  (i < n /\ (h_items (heap_of d) !! N.to_nat i ≫= x) = x (item_of d (get_slot d i)) /\
     (lift (in_bounds Raised i (mkPageHeader n f)) ≫= k) d = k () d).
Proof.
  intros Hb. unfold in_bounds, lift, mbind at 2 4, se_bind. cbn [num_slots]. destruct (N.leb_spec n i) as [Hi|Hi]; [left|right].
  - split; [done|]. rewrite (proj2 (lookup_ge_None _ _)) by (rewrite (heap_length _ _ _ _ Hb); lia). eauto.
  - split; [done|]. by rewrite (heap_lookup _ _ _ _ _ Hb Hi).
Qed.

Lemma reading_slot {A} d n f ss i (k : Slot -> PM A) :
  body_ok d n f ss -> i < n -> (reading (fun d => read_slot d i) ≫= k) d = k (get_slot d i) d.
Proof. intros Hb Hi. unfold mbind, se_bind, reading. by rewrite (body_read_slot _ _ _ _ _ Hb Hi). Qed.

Lemma live_item d n f ss i : body_ok d n f ss -> i < n ->
  is_live (get_slot d i) = is_normal (item_of d (get_slot d i)).
Proof.
  intros Hb Hi. destruct (body_lookup _ _ _ _ _ Hb Hi) as (_ & _ & Hok). apply (flags_items _ _ (slot_flags _ _ _ Hok)).
Qed.

Lemma impl_delete d i : page_ok d -> implements (spec_op (OpDelete i) (heap_of d)) (run_op (OpDelete i) d).
Proof.
  intros (Hs & n & f & ss & Hb). cbn [spec_op run_op]. unfold delete_row, mbind at 2, se_bind at 1.
  rewrite (reading_validate _ _ _ _ _ Hs Hb).
  match goal with |- implements (_ ≫= ?x) (match (_ ≫= ?k) d with _ => _ end) =>
    destruct (in_bounds_ok d n f ss i x k Hb) as [(_ & -> & e & ->)|(Hi & -> & ->)] end; [by eexists _, _|].
  rewrite (reading_slot _ _ _ _ _ _ Hb Hi), (live_item _ _ _ _ _ Hb Hi).
  destruct (is_normal _) eqn:En; cbn [negb].
  2:{ exists d. split_and!; [done| |done]. split; [done|eauto]. }
  destruct (body_lookup _ _ _ _ _ Hb Hi) as (Es & Hfit & _).
  destruct (flip_one _ _ _ _ _ _ DEAD Hb Hi Es) as (Hb' & Ei & El & Ep); try done.
  unfold mbind, se_bind. rewrite write_slot_Ok by done. destruct (seal_ok _ _ _ _ Hb') as [Hok Hh].
  eexists. split_and!; [reflexivity|exact Hok|]. etrans; [exact Hh|].
  rewrite (heap_eq _ _ _ _ _ _ Hb' Ei El), Ep, (heap_of_body _ _ _ _ Hb). done.
Qed.

(** The operations that move line pointers and then seal or stamp the page. *)
Lemma flip_seal d n f ss allowed allowed' new it m l :
  body_ok d n f ss ->
  (forall d s, s.(s_flags) <= REDIRECT -> allowed s.(s_flags) = allowed' (item_of d s)) ->
  (forall d o k, item_of d (mkSlot o k new) = it) -> new <= REDIRECT -> new <> NORMAL -> new <> REDIRECT ->
  implements (items ← flip_items allowed' it l (h_items (heap_of d)); Some (with_items (heap_of d) items, Done))
    ((_ ← (_ ← flip_slots (mkPageHeader n f) allowed m new l; modify write_checksum); mret Done) d).
Proof.
  intros Hb Ha Hit W1 W2 W3. pose proof (flip_slots_ok allowed allowed' new it m l d n f ss Hb Ha Hit W1 W2 W3) as H.
  rewrite (heap_of_body _ _ _ _ Hb). cbn [h_items]. unfold mbind at 2 3, se_bind. unfold flipped in H.
  destruct (flip_items _ _ _ _) as [items|]; cbn [mbind option_bind].
  - destruct H as (d' & ss' & -> & Hb' & Ei & El & Ep). destruct (seal_ok _ _ _ _ Hb') as [Hok Hh].
    eexists. split_and!; [reflexivity|exact Hok|]. etrans; [exact Hh|]. by rewrite (heap_eq _ _ _ _ _ _ Hb' Ei El), Ep.
  - destruct H as (d' & e & ->). by eexists _, _.
Qed.

Lemma impl_free d l : page_ok d -> implements (spec_op (OpFree l) (heap_of d)) (run_op (OpFree l) d).
Proof.
  intros (Hs & n & f & ss & Hb). cbn [spec_op run_op]. unfold free_slots_to_unused, mbind at 2, se_bind at 1.
  rewrite (reading_validate _ _ _ _ _ Hs Hb). eapply flip_seal; try done. intros d' s H. apply (flags_items d' s H).
Qed.

Lemma impl_mark_dead d l : page_ok d -> implements (spec_op (OpMarkDead l) (heap_of d)) (run_op (OpMarkDead l) d).
Proof.
  intros (Hs & n & f & ss & Hb). cbn [spec_op run_op]. unfold mark_slots_dead, mbind at 2, se_bind at 1.
  rewrite (reading_validate _ _ _ _ _ Hs Hb). eapply flip_seal; try done. intros d' s H. apply (flags_items d' s H).
Qed.

Lemma impl_reclaim d which l :
  page_ok d -> l <= U64_MAX -> implements (spec_op (OpReclaim which l) (heap_of d)) (run_op (OpReclaim which l) d).
Proof.
  intros (Hs & n & f & ss & Hb) Hl. cbn [spec_op run_op]. unfold reclaim_line_pointers, mbind at 2, se_bind at 1.
  rewrite (reading_validate _ _ _ _ _ Hs Hb).
  pose proof (flip_slots_ok (fun f => f =? DEAD) is_dead UNUSED IUnused "cannot reclaim a slot that is not DEAD" which
    d n f ss Hb (fun d' s H => proj1 (proj2 (flags_items d' s H))) ltac:(done) ltac:(done) ltac:(done) ltac:(done)) as H.
  rewrite (heap_of_body _ _ _ _ Hb). cbn [h_items]. unfold mbind at 2, se_bind. unfold flipped in H.
  destruct (flip_items _ _ _ _) as [items|]; cbn [mbind option_bind].
  - destruct H as (d' & ss' & -> & Hb' & Ei & El & Ep). destruct (stamp_ok _ _ _ _ l Hb' Hl) as [Hok Hh].
    eexists. split_and!; [reflexivity|exact Hok|]. rewrite Hh. unfold view.
    by rewrite (heap_eq _ _ _ _ _ _ Hb' Ei El), Ep.
  - destruct H as (d' & e & ->). by eexists _, _.
Qed.

Lemma impl_prune d dead l :
  page_ok d -> l <= U64_MAX -> implements (spec_op (OpPrune dead l) (heap_of d)) (run_op (OpPrune dead l) d).
Proof.
  intros (Hs & n & f & ss & Hb) Hl. cbn [spec_op run_op]. unfold prune_and_compact, mbind at 2, se_bind at 1.
  rewrite (reading_validate _ _ _ _ _ Hs Hb).
  pose proof (flip_slots_ok (fun f => f =? NORMAL) is_normal DEAD IDead "cannot prune a non-live slot" dead
    d n f ss Hb (fun d' s H => proj1 (flags_items d' s H)) ltac:(done) ltac:(done) ltac:(done) ltac:(done)) as H.
  rewrite (heap_of_body _ _ _ _ Hb). cbn [h_items]. unfold mbind at 2, se_bind. unfold flipped in H.
  destruct (flip_items _ _ _ _) as [items|]; cbn [mbind option_bind].
  - destruct H as (d' & ss' & -> & Hb' & Ei & El & Ep). destruct (compact_ok _ _ _ _ l Hb' Hl) as (d2 & -> & Hok & Hh).
    eexists. split_and!; [reflexivity|exact Hok|]. rewrite Hh, Ei. unfold packed. cbn [h_id]. unfold heap_of. by cbn; rewrite Ep.
  - destruct H as (d' & e & ->). by eexists _, _.
Qed.

Lemma impl_compact d l : page_ok d -> l <= U64_MAX -> implements (spec_op (OpCompact l) (heap_of d)) (run_op (OpCompact l) d).
Proof.
  intros (Hs & n & f & ss & Hb) Hl. cbn [spec_op run_op]. unfold compact, mbind at 1, se_bind at 1.
  rewrite (reading_validate _ _ _ _ _ Hs Hb).
  destruct (compact_ok _ _ _ _ l Hb Hl) as (d2 & -> & Hok & Hh). exists d2. split_and!; [done|done|].
  rewrite Hh. by rewrite (heap_of_body _ _ _ _ Hb).
Qed.

Lemma impl_redirect d i t : page_ok d -> implements (spec_op (OpRedirect i t) (heap_of d)) (run_op (OpRedirect i t) d).
Proof.
  intros (Hs & n & f & ss & Hb). cbn [spec_op run_op]. unfold set_redirect, mbind at 1, se_bind at 1.
  rewrite (reading_validate _ _ _ _ _ Hs Hb). cbn [num_slots].
  unfold len. rewrite (heap_length _ _ _ _ Hb), N2Nat.id.
  destruct ((n <=? i) || (n <=? t)) eqn:E; [by eexists _, _|]. to_prop.
  destruct (body_lookup _ _ _ _ i Hb ltac:(lia)) as (Es & Hfit & _).
  destruct (body_put d n f ss i (get_slot d i) (mkSlot t 0 REDIRECT) Hb ltac:(lia) Es) as (Hb' & Ei & El & Ep).
  - constructor; cbn; [destruct (b_fit _ _ _ _ Hb); page_consts; lia|done|done|intros _; lia].
  - apply disjoint_insert; [apply (b_disjoint _ _ _ _ Hb)|]. done.
  - pose proof (sum_insert ss _ _ (mkSlot t 0 REDIRECT) Es) as Hsum. pose proof (b_sum _ _ _ _ Hb).
    change (row_len (mkSlot t 0 REDIRECT)) with 0 in Hsum. lia.
  - unfold mbind, se_bind. rewrite write_slot_Ok by done. destruct (seal_ok _ _ _ _ Hb') as [Hok Hh].
    eexists. split_and!; [reflexivity|exact Hok|]. etrans; [exact Hh|].
    rewrite (heap_eq _ _ _ _ _ _ Hb' Ei El), Ep, (heap_of_body _ _ _ _ Hb). done.
Qed.

(** Rewriting a row in place touches no other row. *)
Lemma overwrite_ok d n f ss i s row :
  body_ok d n f ss -> ss !! i = Some s -> is_live s = true -> bytes_ok row -> len row = s.(s_len) ->
  let e := blit d s.(s_offset) row in
  body_ok e n f ss /\ item_of e <$> ss = <[i := INormal row]> (item_of d <$> ss) /\ page_id e = page_id d.
Proof.
  intros Hb Es Hlive Hrow Hlen e. pose proof (b_slot_ok _ _ _ _ Hb) as Hok. rewrite Forall_lookup in Hok.
  destruct (slot_row _ _ _ (Hok _ _ Es) Hlive) as [R1 R2]. destruct (b_fit _ _ _ _ Hb) as [F1 F2].
  pose proof (b_len _ _ _ _ Hb) as Hl.
  pose proof (same_out_blit d (s_offset s) row ltac:(rewrite Hl; page_consts; lia)) as So. fold e in So. rewrite Hlen in So.
  assert (Hr : forall k o, o + N.of_nat k <= HEADER_LEN -> read_le k e o = read_le k d o)
    by (intros; eapply read_le_same; [exact So|lia]).
  split_and!.
  - constructor; try apply Hb.
    + rewrite <- Hl. apply So.
    + by apply bytes_ok_blit; [apply (b_bytes _ _ _ _ Hb)|].
    + unfold byte_at. rewrite Hr by (page_consts; lia). apply Hb.
    + unfold byte_at. rewrite Hr by (page_consts; lia). apply Hb.
    + unfold read_u16. rewrite Hr by (page_consts; lia). apply Hb.
    + unfold read_u16. rewrite Hr by (page_consts; lia). apply Hb.
    + rewrite <- (b_slots _ _ _ _ Hb). eapply slots_same; [exact So|done| | |]; rewrite ?(b_num _ _ _ _ Hb); page_consts; lia.
  - apply list_eq. intros j. destruct (decide (j = i)) as [->|Hj].
    + rewrite list_lookup_insert_eq by (rewrite length_fmap; by eapply lookup_lt_Some).
      rewrite list_lookup_fmap, Es. cbn. unfold item_of. unfold is_live in Hlive. rewrite Hlive.
      unfold e. rewrite <- Hlen, sub_blit_same; [done|]. rewrite Hl. page_consts. lia.
    + rewrite list_lookup_insert_ne, !list_lookup_fmap by done. destruct (ss !! j) as [a|] eqn:Ea; [|done]. cbn. f_equal.
      unfold item_of. destruct (s_flags a =? NORMAL) eqn:La; [|done]. destruct So as [_ So]. rewrite So; [done|].
      destruct (b_disjoint _ _ _ _ Hb j i a s Ea Es Hj La Hlive); lia.
  - unfold page_id, read_u32. rewrite Hr by (page_consts; lia). done.
Qed.

Lemma impl_set_header d i xmax tid im l :
  page_ok d -> op_ok (OpSetHeader i xmax tid im l) ->
  implements (spec_op (OpSetHeader i xmax tid im l) (heap_of d)) (run_op (OpSetHeader i xmax tid im l) d).
Proof.
  intros (Hs & n & f & ss & Hb) [Hw Hl]. cbn [spec_op run_op]. unfold set_tuple_header, mbind at 2, se_bind at 1.
  rewrite (reading_validate _ _ _ _ _ Hs Hb).
  match goal with |- implements (_ ≫= ?x) (match (_ ≫= ?k) d with _ => _ end) =>
    destruct (in_bounds_ok d n f ss i x k Hb) as [(_ & -> & e & ->)|(Hi & -> & ->)] end; [by eexists _, _|].
  rewrite (reading_slot _ _ _ _ _ _ Hb Hi). destruct (body_lookup _ _ _ _ _ Hb Hi) as (Es & Hfit & Hok).
  unfold item_of at 1. change (s_flags (get_slot d i) =? NORMAL) with (is_live (get_slot d i)).
  destruct (is_live (get_slot d i)) eqn:El; cbn [negb]; [|by repeat case_if; eexists _, _].
  set (s := get_slot d i) in *. destruct (slot_row _ _ _ Hok El) as [R1 R2]. destruct (b_fit _ _ _ _ Hb) as [F1 F2].
  pose proof (b_len _ _ _ _ Hb) as Hd.
  unfold mbind at 1, se_bind at 1, writing. rewrite slice_Ok by lia. cbn [mbind result_bind].
  replace (s_offset s + s_len s - s_offset s) with (s_len s) by lia.
  destruct (set_mvcc_header_fields _ xmax tid im) as [row|e] eqn:Em; cbn [raise map_err]; [|by eexists _, _].
  assert (Hrl : len row = s_len s) by (rewrite (set_mvcc_len _ _ _ _ _ Em), len_sub; lia).
  assert (Ecp : copy_from_slice d (s_offset s) (s_offset s + s_len s) row = Ok (blit d (s_offset s) row))
    by (rewrite <- Hrl; apply copy_from_slice_Ok; lia).
  cbn [mbind result_bind]. rewrite Ecp.
  assert (Hrow : bytes_ok row) by (eapply set_mvcc_bytes_ok; [|exact Em]; apply bytes_ok_sub, (b_bytes _ _ _ _ Hb)).
  destruct (overwrite_ok d n f ss (N.to_nat i) s row Hb Es El Hrow Hrl) as (Hb' & Ei & Ep).
  destruct (stamp_ok _ _ _ _ l Hb' Hl) as [Hok' Hh]. eexists. split_and!; [reflexivity|exact Hok'|].
  rewrite Hh. unfold view. by rewrite (heap_of_body _ _ _ _ Hb'), (heap_of_body _ _ _ _ Hb), Ei, Ep.
Qed.

End Crc.

(** ** Fresh pages, and reading *)

Lemma len_zeroed : len zeroed = PAGE_SIZE.
Proof. unfold zeroed, len. rewrite length_replicate. lia. Qed.

Lemma init_body id : body_ok (init_page id) 0 HEADER_LEN [].
Proof.
  pose proof len_zeroed as Hz. unfold init_page, write_checksum.
  assert (Hb : bytes_ok zeroed) by (apply Forall_replicate; unfold is_byte; lia).
  set (d0 := zeroed) in *. clearbody d0.
  constructor; try done; unfold slots; page_consts;
    first [in_array | by auto 10 with saguaro | by read_fields | by intros [] j a b0].
Qed.

Definition fresh (id : N) : Heap := mkHeap [] 0 0 id.

Lemma init_ok (Hcrc : crc_fits) id : id <= U32_MAX -> page_ok (init_page id) /\ heap_of (init_page id) = fresh id.
Proof.
  intros Hid. pose proof (init_body id) as Hb. split.
  - split; [|eauto]. unfold init_page. apply sealed_write_checksum; [done|]. pose proof len_zeroed. page_consts. in_array.
  - pose proof len_zeroed as Hz.
    assert (El : page_lsn (init_page id) = 0).
    { unfold page_lsn, init_page, write_checksum. page_consts. read_fields. by vm_compute. }
    assert (Ei : page_id (init_page id) = id).
    { unfold page_id, init_page, write_checksum. page_consts. by read_fields. }
    rewrite (heap_of_body _ _ _ _ Hb), El, Ei. done.
Qed.

(** What the readers answer for an item. *)
Definition item_row (it : Item) : option bytes := match it with INormal row => Some row | _ => None end.
Definition item_state (it : Item) : LinePointer :=
  match it with INormal _ => LpNormal | IDead => LpDead | IUnused => LpUnused | IRedirect t => LpRedirect t end.

Lemma read_row_ok d i : page_ok d ->
  match h_items (heap_of d) !! N.to_nat i with
  | Some it => read_row d i = Ok (item_row it) /\ slot_state d i = Ok (item_state it)
  | None => (exists e, read_row d i = Err (Raised e)) /\ exists e, slot_state d i = Err e
  end.
Proof.
  intros (Hs & n & f & ss & Hb). unfold read_row, slot_state. rewrite (validate_Ok _ _ _ _ Hs Hb).
  cbn [raise map_err mbind result_bind]. unfold in_bounds. cbn [num_slots]. destruct (N.leb_spec n i) as [Hi|Hi].
  { rewrite (proj2 (lookup_ge_None _ _)) by (rewrite (heap_length _ _ _ _ Hb); lia). by split; eexists. }
  rewrite (heap_lookup _ _ _ _ _ Hb Hi), (body_read_slot _ _ _ _ _ Hb Hi). cbn [raise map_err mbind result_bind].
  destruct (body_lookup _ _ _ _ _ Hb Hi) as (_ & _ & Hok). unfold item_of, is_live in *.
  pose proof (slot_row _ _ _ Hok) as Hr. pose proof (slot_flags _ _ _ Hok) as Hf. unfold is_live in Hr.
  destruct (s_flags (get_slot d i) =? NORMAL) eqn:E; cbn [negb item_row item_state].
  - destruct (Hr eq_refl) as [R1 R2]. destruct (b_fit _ _ _ _ Hb) as [F1 F2].
    rewrite slice_Ok by (rewrite ?(b_len _ _ _ _ Hb); lia). cbn [mbind result_bind]. split; [|done]. do 2 f_equal. f_equal. lia.
  - split; [by repeat case_if|]. destruct (s_flags (get_slot d i) =? DEAD) eqn:E1; [done|].
    destruct (s_flags (get_slot d i) =? UNUSED) eqn:E2; to_prop; [by rewrite E2|].
    destruct (s_flags (get_slot d i) =? REDIRECT) eqn:E3; [done|]. to_prop. page_consts. lia.
Qed.

(** A sequence of operations on one page, up to the first that is refused. *)
Fixpoint run_ops (ops : list PageOp) : PM (list Answer) :=
  match ops with
  | [] => mret []
  | op :: ops => a ← run_op op; l ← run_ops ops; mret (a :: l)
  end.
Fixpoint spec_ops (ops : list PageOp) (h : Heap) : option (Heap * list Answer) :=
  match ops with
  | [] => Some (h, [])
  | op :: ops => '(h, a) ← spec_op op h; '(h, l) ← spec_ops ops h; Some (h, a :: l)
  end.

Lemma impl_op (Hcrc : crc_fits) op d : page_ok d -> op_ok op -> implements (spec_op op (heap_of d)) (run_op op d).
Proof.
  intros Hd Hop. destruct op; cbn [op_ok] in Hop.
  - by apply impl_insert.
  - by apply impl_delete.
  - by apply impl_set_header.
  - by apply impl_prune.
  - by apply impl_compact.
  - by apply impl_reclaim.
  - by apply impl_redirect.
  - by apply impl_free.
  - by apply impl_mark_dead.
Qed.

(** No operation changes the page number. *)
Lemma spec_op_id op h h' a : spec_op op h = Some (h', a) -> h'.(h_id) = h.(h_id).
Proof.
  destruct op; cbn [spec_op]; intros E; unfold mbind, option_bind in E;
    repeat match type of E with
    | context [match ?x with _ => _ end] => destruct x
    | Some _ = Some _ => injection E as <- <-
    end; done.
Qed.
Lemma spec_ops_id ops : forall h,
  match spec_ops ops h with Some (h', _) => h'.(h_id) = h.(h_id) | None => True end.
Proof.
  induction ops as [|op ops IH]; intros h; cbn [spec_ops]; [done|].
  destruct (spec_op op h) as [[h1 a]|] eqn:E; cbn [mbind option_bind]; [|done]. specialize (IH h1).
  destruct (spec_ops ops h1) as [[h2 l]|]; cbn; [|done]. rewrite IH. by eapply spec_op_id.
Qed.

(** C24: every operation on a heap page implements the abstract page.  On a valid page
    it answers and changes the items exactly as the specification says and leaves a
    valid page, or returns an error exactly where the specification refuses; it
    never panics. *)
Theorem page_refines (op : PageOp) (d : bytes) :
  crc_fits -> page_ok d -> op_ok op -> implements (spec_op op (heap_of d)) (run_op op d).
Proof.
  intros Hc Hd Hop. by apply impl_op.
Qed.
Lemma run_ops_ok (Hcrc : crc_fits) ops : forall d,
  page_ok d -> Forall op_ok ops ->
  match spec_ops ops (heap_of d) with
  | Some (h, l) => exists d', run_ops ops d = (d', Ok l) /\ page_ok d' /\ heap_of d' = h
  | None => exists d' e, run_ops ops d = (d', Err (Raised e))
  end.
Proof.
  induction ops as [|op ops IH]; intros d Hd Hops; cbn [spec_ops run_ops]; [by exists d|].
  apply Forall_cons in Hops as [Hop Hops]. pose proof (impl_op Hcrc op d Hd Hop) as H. unfold implements in H.
  unfold mbind, option_bind, se_bind. destruct (spec_op op (heap_of d)) as [[h a]|].
  - destruct H as (d' & -> & Hd' & <-). specialize (IH d' Hd' Hops).
    destruct (spec_ops ops (heap_of d')) as [[h' l]|].
    + destruct IH as (d2 & -> & Hd2 & Hh). exists d2. done.
    + destruct IH as (d2 & e & ->). by eexists _, _.
  - destruct H as (d' & e & ->). by eexists _, _.
Qed.

(** A page is what its history says.  After any sequence of operations on a fresh
    page, the answers are those of the abstract page, and reading a slot gives the row,
    the state or the error the abstract page has there; a sequence with a refused
    operation ends with its error. *)
Theorem page_history id (ops : list PageOp) :
  crc_fits -> id <= U32_MAX -> Forall op_ok ops ->
  match spec_ops ops (fresh id) with
  | Some (h, l) => exists d, run_ops ops (init_page id) = (d, Ok l) /\ is_valid d = true /\
      page_lsn d = h.(h_lsn) /\ page_id d = id /\
      forall i, match h.(h_items) !! N.to_nat i with
                | Some it => read_row d i = Ok (item_row it) /\ slot_state d i = Ok (item_state it)
                | None => (exists e, read_row d i = Err (Raised e)) /\ exists e, slot_state d i = Err e
                end
  | None => exists d e, run_ops ops (init_page id) = (d, Err (Raised e))
  end.
Proof.
  intros Hcrc Hid Hops. destruct (init_ok Hcrc id Hid) as [Hok Hh]. rewrite <- Hh.
  pose proof (run_ops_ok Hcrc ops _ Hok Hops) as H. pose proof (spec_ops_id ops (heap_of (init_page id))) as Hi.
  destruct (spec_ops ops (heap_of (init_page id))) as [[h l]|]; [|done].
  destruct H as (d & E & Hd & <-). exists d. split_and!; [done| |done| |].
  - unfold is_valid. by destruct (page_validate _ Hd) as (? & ? & ? & _ & ->).
  - change (h_id (heap_of d) = id). rewrite Hi, Hh. done.
  - intros i. by apply read_row_ok.
Qed.

End Page.

(** ** Witnesses *)

Definition demo_crc (b : bytes) : N := foldl N.add 7 b mod 4294967296.

Lemma demo_crc_fits : crc_fits demo_crc.
Proof. intros b. unfold demo_crc. pose proof (N.mod_lt (foldl N.add 7 b) 4294967296). unfold U32_MAX. lia. Qed.

Lemma page_refines_witness :
  implements demo_crc (Some (mkHeap [INormal [2; 7]] 2 0 5, Placed (Some 0)))
    (run_op demo_crc (OpInsert [2; 7]) (init_page demo_crc 5)).
Proof.
  pose proof (page_refines demo_crc (OpInsert [2; 7]) (init_page demo_crc 5) demo_crc_fits
    (proj1 (init_ok demo_crc demo_crc_fits 5 ltac:(done)))) as H.
  rewrite (proj2 (init_ok demo_crc demo_crc_fits 5 ltac:(done))) in H. apply H.
  split; [|done]. repeat constructor.
Defined.

Lemma page_history_witness :
  exists d, run_ops demo_crc [OpInsert [2; 7]; OpInsert [2; 8; 9]; OpPrune [0] 12] (init_page demo_crc 5)
    = (d, Ok [Placed (Some 0); Placed (Some 1); Done]) /\
    read_row demo_crc d 1 = Ok (Some [2; 8; 9]) /\ slot_state demo_crc d 0 = Ok LpDead.
Proof.
  destruct (page_history demo_crc 5 [OpInsert [2; 7]; OpInsert [2; 8; 9]; OpPrune [0] 12] demo_crc_fits)
    as (d & E & _ & _ & _ & H).
  - done.
  - repeat constructor; done.
  - exists d. split_and!; [exact E|exact (proj1 (H 1))|exact (proj2 (H 0))].
Defined.
