(* ===== verification/Compress.v ===== *)
(** * Compression (src/crates/compress/src/codec.rs, src/crates/compress/src/registry.rs)

    The envelope of a page compressed at rest, the registry of file settings and
    dictionaries, and the encoding and decoding of pages, full-page images and values.
    [zstd] and the checksum are parameters; allocation is assumed to succeed.  A loaded
    dictionary is kept as the bytes its handles were prepared from. *)

From S2P Require Import Prelude Errors CheckedBytes ByteArray Page.
Local Open Scope N_scope.

Definition CODEC_NONE : N := 0.
Definition CODEC_ZSTD : N := 1.
Definition CODEC_ZSTD_DICT : N := 2.
Definition LEVEL_AT_REST : Z := 3.
Definition TOAST_ZSTD_LEVEL : Z := LEVEL_AT_REST.
Definition LEVEL_WAL : Z := 1.
Definition ENVELOPE_MARKER : bytes := [83; 71; 67; 80; 255; 255]. (* SGCP, 0xFF, 0xFF *)
Definition ENVELOPE_VERSION : N := 1.
Definition ENVELOPE_HEADER_LEN : N := 18.

Record Envelope : Type := mkEnvelope {
  env_codec : N;
  env_dict_id : N;
  env_payload : bytes
}.

Inductive FileCompression : Type :=
  | FcNone
  | FcZstd (dict_id : option N).

Record CompressionRegistry : Type := mkRegistry {
  files : gmap N FileCompression;
  dicts : gmap N bytes
}.

Definition registry_new : CompressionRegistry := mkRegistry ∅ ∅.

Definition corrupt (m : string) : DbError := db_storage InternalError m.

Definition validate_envelope_codec (codec : N) : DbResult unit :=
  if negb (codec =? CODEC_ZSTD) && negb (codec =? CODEC_ZSTD_DICT)
  then Err (corrupt ("unknown envelope codec " +:+ pretty codec)) else Ok ().

Definition is_envelope (slot : bytes) : bool :=
  bool_decide (take (length ENVELOPE_MARKER) slot = ENVELOPE_MARKER).

Definition set_file_config (file_id : N) (config : FileCompression) (r : CompressionRegistry) : CompressionRegistry :=
  mkRegistry (<[file_id := config]> r.(files)) r.(dicts).
Definition file_config (r : CompressionRegistry) (file_id : N) : FileCompression :=
  default FcNone (r.(files) !! file_id).

Definition register_dictionary (dict_id : N) (b : bytes) : SE CompressionRegistry DbError unit :=
  if dict_id =? 0 then lift (Err (corrupt "dictionary id 0 is reserved"))
  else modify (fun r => mkRegistry r.(files) (<[dict_id := b]> r.(dicts))).
Definition has_dictionary (r : CompressionRegistry) (dict_id : N) : bool :=
  bool_decide (is_Some (r.(dicts) !! dict_id)).
Definition remove_dictionary (dict_id : N) (r : CompressionRegistry) : CompressionRegistry :=
  mkRegistry r.(files) (delete dict_id r.(dicts)).
Definition dictionary (r : CompressionRegistry) (dict_id : N) : option bytes := r.(dicts) !! dict_id.

Definition dict_for_file (r : CompressionRegistry) (file_id : N) : option (N * bytes) :=
  match file_config r file_id with
  | FcZstd (Some id) => (fun d => (id, d)) <$> dictionary r id
  | _ => None
  end.

Definition ensure_value_len (value : bytes) (raw_len : N) : DbResult unit :=
  if negb (len value =? raw_len)
  then Err (corrupt ("decompressed value is " +:+ pretty (len value) +:+ " bytes, expected " +:+ pretty raw_len))
  else Ok ().

Section Compress.
Context (crc32 : bytes -> N).
(** [zstd::bulk] with an optional dictionary: compression at a level, and decompression
    with the capacity of its result. *)
Context (zstd_compress : option bytes -> Z -> bytes -> result string bytes).
Context (zstd_decompress : option bytes -> bytes -> N -> result string bytes).

Definition encode_envelope (codec dict_id : N) (payload : bytes) : DbResult bytes :=
  _ ← validate_envelope_codec codec;
  payload_len ← to_u16 (len payload) (corrupt ("envelope payload too large: " +:+ pretty (len payload)));
  _ ← ok_or (checked_add USIZE_MAX ENVELOPE_HEADER_LEN (len payload)) (corrupt "compressed page envelope length overflows");
  Ok (ENVELOPE_MARKER ++ [ENVELOPE_VERSION] ++ [codec] ++ to_le_bytes 4 dict_id ++ to_le_bytes 2 payload_len
      ++ to_le_bytes 4 (crc32 payload) ++ payload).

Definition reading_as {A} (m : string) (r : result SliceReadError A) : DbResult A := map_err (fun _ => corrupt m) r.

Definition decode_envelope (slot : bytes) : DbResult Envelope :=
  if negb (is_envelope slot) then Err (corrupt "not a compressed page envelope")
  else if len slot <? ENVELOPE_HEADER_LEN then Err (corrupt "compressed page envelope truncated")
  else
    '(_, r) ← reading_as "compressed page envelope truncated" (reader_take (reader_new slot) (len ENVELOPE_MARKER));
    '(version, r) ← reading_as "compressed page envelope version is truncated" (read_u8 r);
    if negb (version =? ENVELOPE_VERSION) then Err (corrupt ("unknown envelope version " +:+ pretty version))
    else
      '(codec, r) ← reading_as "compressed page envelope codec is truncated" (read_u8 r);
      _ ← validate_envelope_codec codec;
      '(dict_id, r) ← reading_as "compressed page dictionary id is truncated" (read_u32_le r);
      '(payload_len, r) ← reading_as "compressed page payload length is truncated" (read_u16_le r);
      '(stored_crc, r) ← reading_as "compressed page CRC is truncated" (read_u32_le r);
      '(payload, r) ← reading_as "envelope payload extends past the page slot" (reader_take r payload_len);
      if negb (crc32 payload =? stored_crc) then Err (corrupt "compressed page envelope CRC mismatch")
      else Ok (mkEnvelope codec dict_id payload).

Definition compress_value_zstd (raw : bytes) : DbResult bytes :=
  map_err (fun err => corrupt ("zstd value compress failed: " +:+ err)) (zstd_compress None TOAST_ZSTD_LEVEL raw).

Definition decompress_value_zstd (payload : bytes) (raw_len : N) : DbResult bytes :=
  value ← map_err (fun err => corrupt ("zstd value decompress failed: " +:+ err)) (zstd_decompress None payload raw_len);
  _ ← ensure_value_len value raw_len;
  Ok value.

Definition not_registered (dict_id : N) : DbError :=
  corrupt ("compression dictionary " +:+ pretty dict_id +:+ " is not registered").

Definition compress_page_at_rest (r : CompressionRegistry) (file_id : N) (image : bytes) : DbResult (option bytes) :=
  match file_config r file_id with
  | FcNone => Ok None
  | FcZstd _ =>
      '(codec, dict_id, payload) ←
        match dict_for_file r file_id with
        | Some (id, dict) =>
            payload ← map_err (fun err => corrupt ("zstd compress failed: " +:+ err)) (zstd_compress (Some dict) LEVEL_AT_REST image);
            Ok (CODEC_ZSTD_DICT, id, payload)
        | None =>
            payload ← map_err (fun err => corrupt ("zstd compress failed: " +:+ err)) (zstd_compress None LEVEL_AT_REST image);
            Ok (CODEC_ZSTD, 0, payload)
        end;
      if len image <=? ENVELOPE_HEADER_LEN + len payload then Ok None
      else Some <$> encode_envelope codec dict_id payload
  end.

Definition decompress_fpi (r : CompressionRegistry) (codec dict_id : N) (payload : bytes) (expected_len : N)
    : DbResult bytes :=
  image ←
    (if codec =? CODEC_ZSTD then
       map_err (fun err => corrupt ("zstd decompress failed: " +:+ err)) (zstd_decompress None payload expected_len)
     else if codec =? CODEC_ZSTD_DICT then
       dict ← ok_or (dictionary r dict_id) (not_registered dict_id);
       map_err (fun err => corrupt ("zstd dict decompress failed: " +:+ err)) (zstd_decompress (Some dict) payload expected_len)
     else Err (corrupt ("unknown compression codec " +:+ pretty codec)));
  if negb (len image =? expected_len)
  then Err (corrupt ("decompressed page is " +:+ pretty (len image) +:+ " bytes, expected " +:+ pretty expected_len))
  else Ok image.

Definition decompress_page (r : CompressionRegistry) (slot : bytes) (expected_len : N) : DbResult (option bytes) :=
  if negb (is_envelope slot) then Ok None
  else
    envelope ← decode_envelope slot;
    image ← decompress_fpi r envelope.(env_codec) envelope.(env_dict_id) envelope.(env_payload) expected_len;
    Ok (Some image).

Definition compress_fpi (r : CompressionRegistry) (file_id : N) (image : bytes) : option (N * N * bytes) :=
  let ok {A} (m : result string A) := match m with Ok a => Some a | Err _ => None end in
  '(codec, dict_id, payload) ←
    match dict_for_file r file_id with
    | Some (id, dict) => payload ← ok (zstd_compress (Some dict) LEVEL_WAL image); Some (CODEC_ZSTD_DICT, id, payload)
    | None => payload ← ok (zstd_compress None LEVEL_WAL image); Some (CODEC_ZSTD, 0, payload)
    end;
  if len image <=? len payload then None else Some (codec, dict_id, payload).

Definition compress_value_zstd_dict (r : CompressionRegistry) (dict_id : N) (raw : bytes) : DbResult bytes :=
  dict ← ok_or (dictionary r dict_id) (not_registered dict_id);
  map_err (fun err => corrupt ("zstd dict value compress failed: " +:+ err)) (zstd_compress (Some dict) LEVEL_AT_REST raw).

Definition decompress_value (r : CompressionRegistry) (codec : N) (dict_id : option N) (payload : bytes) (raw_len : N)
    : DbResult bytes :=
  if codec =? CODEC_NONE then
    match dict_id with
    | Some dict_id => Err (corrupt ("raw value codec must not name dictionary " +:+ pretty dict_id))
    | None => _ ← ensure_value_len payload raw_len; Ok payload
    end
  else if codec =? CODEC_ZSTD then
    match dict_id with
    | Some dict_id => Err (corrupt ("zstd value codec must not name dictionary " +:+ pretty dict_id))
    | None => decompress_value_zstd payload raw_len
    end
  else if codec =? CODEC_ZSTD_DICT then
    dict_id ← ok_or dict_id (corrupt "zstd-dict value codec missing dict id");
    dict ← ok_or (dictionary r dict_id) (not_registered dict_id);
    value ← map_err (fun err => corrupt ("zstd dict value decompress failed: " +:+ err)) (zstd_decompress (Some dict) payload raw_len);
    _ ← ensure_value_len value raw_len;
    Ok value
  else Err (corrupt ("unknown value compression codec " +:+ pretty codec)).

(** ** What the code relies on *)

(** [zstd] decompresses what it compressed with the same dictionary, given the room. *)
Definition zstd_roundtrip : Prop :=
  forall dict level raw c, zstd_compress dict level raw = Ok c -> zstd_decompress dict c (len raw) = Ok raw.

(** The ids registered dictionaries and files use fit their type. *)
Definition registry_ok (r : CompressionRegistry) : Prop :=
  forall file_id id, file_config r file_id = FcZstd (Some id) -> id <= U32_MAX.

(** ** Round trips *)

Section Roundtrip.
Context (Hcrc : crc_fits crc32) (Hz : zstd_roundtrip).

Lemma encode_envelope_Ok codec dict_id payload b :
  encode_envelope codec dict_id payload = Ok b ->
  (codec = CODEC_ZSTD \/ codec = CODEC_ZSTD_DICT) /\ len payload <= U16_MAX /\
  b = ENVELOPE_MARKER ++ [ENVELOPE_VERSION] ++ [codec] ++ to_le_bytes 4 dict_id
      ++ to_le_bytes 2 (len payload) ++ to_le_bytes 4 (crc32 payload) ++ payload.
Proof.
  unfold encode_envelope, validate_envelope_codec, to_u16. intros E.
  destruct (negb (codec =? CODEC_ZSTD) && negb (codec =? CODEC_ZSTD_DICT)) eqn:Ec; [done|].
  assert (Hc : codec = CODEC_ZSTD \/ codec = CODEC_ZSTD_DICT).
  { destruct (N.eqb_spec codec CODEC_ZSTD); [by left|]. destruct (N.eqb_spec codec CODEC_ZSTD_DICT); [by right|done]. }
  destruct (N.leb_spec (len payload) U16_MAX) as [Hl|]; [|done].
  cbn [mbind result_bind] in E. destruct (checked_add _ _ _); [|done]. injection E as <-.
  split_and!; done.
Qed.

Lemma decode_encode_envelope codec dict_id payload b rest :
  encode_envelope codec dict_id payload = Ok b -> dict_id <= U32_MAX -> len (b ++ rest) <= USIZE_MAX ->
  is_envelope (b ++ rest) = true /\ decode_envelope (b ++ rest) = Ok (mkEnvelope codec dict_id payload).
Proof.
  intros E Hd Hlen. apply encode_envelope_Ok in E as (Hc & Hl & ->).
  assert (Hm : is_envelope ((ENVELOPE_MARKER ++ [ENVELOPE_VERSION] ++ [codec] ++ to_le_bytes 4 dict_id
      ++ to_le_bytes 2 (len payload) ++ to_le_bytes 4 (crc32 payload) ++ payload) ++ rest) = true)
    by (apply bool_decide_eq_true; done).
  split; [done|]. unfold decode_envelope. rewrite Hm. cbn [negb].
  rewrite (proj2 (N.ltb_ge _ _)).
  2:{ rewrite !len_app, !len_le_bytes. change (len ENVELOPE_MARKER) with 6. change (len [ENVELOPE_VERSION]) with 1.
      change (len [codec]) with 1. unfold ENVELOPE_HEADER_LEN. lia. }
  rewrite <- !app_assoc in Hlen |- *.
  pose proof (reads_new _ Hlen) as H0.
  destruct (reader_take_app _ _ _ (len ENVELOPE_MARKER) H0 eq_refl) as (r1 & -> & H1). cbn [reading_as map_err mbind result_bind].
  unfold reading_as. cbn [app] in H1.
  destruct (read_u8_app _ _ _ H1) as (r2 & -> & H2); [done|]. cbn [map_err mbind result_bind].
  rewrite N.eqb_refl. cbn [negb].
  destruct (read_u8_app _ _ _ H2) as (r3 & -> & H3); [by destruct Hc as [-> | ->]|]. cbn [map_err mbind result_bind].
  unfold validate_envelope_codec. replace (negb (codec =? CODEC_ZSTD) && negb (codec =? CODEC_ZSTD_DICT)) with false
    by (by destruct Hc as [-> | ->]). cbn [mbind result_bind].
  destruct (read_u32_le_app _ _ _ H3) as (r4 & -> & H4); [done|]. cbn [map_err mbind result_bind].
  destruct (read_u16_le_app _ _ _ H4) as (r5 & -> & H5); [done|]. cbn [map_err mbind result_bind].
  destruct (read_u32_le_app _ _ _ H5) as (r6 & -> & H6); [apply Hcrc|]. cbn [map_err mbind result_bind].
  destruct (reader_take_app _ _ _ (len payload) H6 eq_refl) as (r7 & -> & H7). cbn [map_err mbind result_bind].
  by rewrite N.eqb_refl.
Qed.

(** What a compression chose, and that its decoding gives the image back. *)
Lemma decompress_fpi_ok r dict id level image payload :
  zstd_compress dict level image = Ok payload ->
  (dict = None \/ exists d, dict = Some d /\ dictionary r id = Some d) ->
  decompress_fpi r (if dict then CODEC_ZSTD_DICT else CODEC_ZSTD) id payload (len image) = Ok image.
Proof.
  intros E Hd. apply Hz in E. unfold decompress_fpi. destruct Hd as [-> | (d & -> & Hd)].
  - cbn [N.eqb]. change (CODEC_ZSTD =? CODEC_ZSTD) with true. cbn. rewrite E. cbn. by rewrite N.eqb_refl.
  - change (CODEC_ZSTD_DICT =? CODEC_ZSTD) with false. change (CODEC_ZSTD_DICT =? CODEC_ZSTD_DICT) with true. cbn.
    rewrite Hd. cbn. rewrite E. cbn. by rewrite N.eqb_refl.
Qed.

Lemma dict_for_file_inv r file_id id d :
  dict_for_file r file_id = Some (id, d) -> file_config r file_id = FcZstd (Some id) /\ dictionary r id = Some d.
Proof.
  unfold dict_for_file. destruct (file_config r file_id) as [|[i|]]; try done.
  destruct (dictionary r i) eqn:E; [|done]. by intros [= <- <-].
Qed.

(** A full-page image of the log decompresses to the page it was made from. *)
Lemma fpi_roundtrip r file_id image codec id payload :
  compress_fpi r file_id image = Some (codec, id, payload) ->
  decompress_fpi r codec id payload (len image) = Ok image /\ len payload < len image.
Proof.
  unfold compress_fpi. intros E. destruct (dict_for_file r file_id) as [[i d]|] eqn:Ed.
  - destruct (zstd_compress (Some d) LEVEL_WAL image) as [p|] eqn:Ez; [|done]. cbn in E.
    destruct (N.leb_spec (len image) (len p)); [done|]. injection E as <- <- <-. split; [|done].
    apply dict_for_file_inv in Ed as [_ Ed]. by apply (decompress_fpi_ok r (Some d) i LEVEL_WAL); [|right; eauto].
  - destruct (zstd_compress None LEVEL_WAL image) as [p|] eqn:Ez; [|done]. cbn in E.
    destruct (N.leb_spec (len image) (len p)); [done|]. injection E as <- <- <-. split; [|done].
    by apply (decompress_fpi_ok r None 0 LEVEL_WAL); [|left].
Qed.

(** A value compressed by either codec decompresses to itself. *)
Lemma value_roundtrip r id raw payload :
  (compress_value_zstd raw = Ok payload -> decompress_value r CODEC_ZSTD None payload (len raw) = Ok raw) /\
  (compress_value_zstd_dict r id raw = Ok payload -> decompress_value r CODEC_ZSTD_DICT (Some id) payload (len raw) = Ok raw).
Proof.
  unfold decompress_value, ensure_value_len. split.
  - unfold compress_value_zstd. destruct (zstd_compress None TOAST_ZSTD_LEVEL raw) as [c|] eqn:E; [|done]. intros [= ->].
    apply Hz in E. cbn. unfold decompress_value_zstd. rewrite E. cbn. unfold ensure_value_len. by rewrite N.eqb_refl.
  - unfold compress_value_zstd_dict. destruct (dictionary r id) as [d|] eqn:Ed; [|done]. cbn.
    destruct (zstd_compress (Some d) LEVEL_AT_REST raw) as [c|] eqn:E; [|done]. intros [= ->]. apply Hz in E.
    rewrite Ed. cbn. rewrite E. cbn. by rewrite N.eqb_refl.
Qed.

(** A raw page is never mistaken for an envelope: its type and version are not 0xFF. *)
Lemma valid_page_not_envelope d : len d = PAGE_SIZE -> is_valid crc32 d = true -> is_envelope d = false.
Proof.
  intros Hl Hv. apply bool_decide_eq_false. intros E.
  assert (Ht : byte_at d PAGE_TYPE_OFFSET = 255).
  { unfold byte_at, read_le. rewrite <- (take_drop (length ENVELOPE_MARKER) d), E, sub_app_l by (vm_compute; discriminate). done. }
  unfold is_valid, validate in Hv. rewrite Ht in Hv. done.
Qed.

End Roundtrip.

(** What is stored of a page that is not taken for an envelope is read back. *)
Lemma stored_page_is_read r file_id image rest out :
  crc_fits crc32 -> zstd_roundtrip -> registry_ok r -> len image = PAGE_SIZE -> is_envelope image = false ->
  compress_page_at_rest r file_id image = Ok out ->
  match out with
  | Some b => len b < PAGE_SIZE /\
      (len (b ++ rest) <= USIZE_MAX -> decompress_page r (b ++ rest) PAGE_SIZE = Ok (Some image))
  | None => decompress_page r image PAGE_SIZE = Ok None
  end.
Proof.
  intros Hcrc Hz Hr Hl Hv. unfold compress_page_at_rest.
  assert (Hraw : decompress_page r image PAGE_SIZE = Ok None).
  { unfold decompress_page. by rewrite Hv. }
  destruct (file_config r file_id) as [|cfg] eqn:Ef; [by intros [= <-]|].
  assert (Hgo : forall dict id level payload out,
    zstd_compress dict level image = Ok payload -> id <= U32_MAX ->
    (dict = None \/ exists d, dict = Some d /\ dictionary r id = Some d) ->
    (if len image <=? ENVELOPE_HEADER_LEN + len payload then Ok None
     else Some <$> encode_envelope (if dict then CODEC_ZSTD_DICT else CODEC_ZSTD) id payload) = Ok out ->
    match out with
    | Some b => len b < PAGE_SIZE /\
        (len (b ++ rest) <= USIZE_MAX -> decompress_page r (b ++ rest) PAGE_SIZE = Ok (Some image))
    | None => decompress_page r image PAGE_SIZE = Ok None
    end).
  { intros dict id level payload o Ez Hid Hd E. destruct (N.leb_spec (len image) (ENVELOPE_HEADER_LEN + len payload)) as [|Hlt];
      [by injection E as <-|].
    destruct (encode_envelope _ id payload) as [b|] eqn:Ee; [|done]. injection E as <-. split.
    - apply encode_envelope_Ok in Ee as (_ & _ & ->). rewrite !len_app, !len_le_bytes. rewrite <- Hl.
      change (len ENVELOPE_MARKER) with 6. change (len [ENVELOPE_VERSION]) with 1.
      replace (len [if dict then CODEC_ZSTD_DICT else CODEC_ZSTD]) with 1 by done. unfold ENVELOPE_HEADER_LEN in Hlt. lia.
    - intros Hlen. destruct (decode_encode_envelope Hcrc _ _ _ _ rest Ee Hid Hlen) as [He Hdec].
      unfold decompress_page. rewrite He. cbn [negb]. rewrite Hdec. cbn [mbind result_bind env_codec env_dict_id env_payload].
      rewrite <- Hl, (decompress_fpi_ok Hz r dict id level image payload Ez Hd). done. }
  intros E. destruct (dict_for_file r file_id) as [[i d]|] eqn:Ed.
  - destruct (zstd_compress (Some d) LEVEL_AT_REST image) as [payload|] eqn:Ez; [|done]. cbn in E.
    apply dict_for_file_inv in Ed as [Ec Ed]. apply (Hgo (Some d) i LEVEL_AT_REST payload); eauto.
  - destruct (zstd_compress None LEVEL_AT_REST image) as [payload|] eqn:Ez; [|done]. cbn in E.
    apply (Hgo None 0 LEVEL_AT_REST payload); eauto. done.
Qed.

(** Pages at rest survive compression.  What [compress_page_at_rest] stores for a
    valid page, the envelope followed by whatever else the slot holds or the raw page,
    [decompress_page] reads back as that page, whatever the file's setting and
    dictionary; and a compressed page is smaller than the raw one. *)
Theorem page_at_rest_roundtrip r file_id image rest out :
  crc_fits crc32 -> zstd_roundtrip -> registry_ok r -> len image = PAGE_SIZE -> is_valid crc32 image = true ->
  compress_page_at_rest r file_id image = Ok out ->
  match out with
  | Some b => len b < PAGE_SIZE /\
      (len (b ++ rest) <= USIZE_MAX -> decompress_page r (b ++ rest) PAGE_SIZE = Ok (Some image))
  | None => decompress_page r image PAGE_SIZE = Ok None
  end.
Proof. intros Hcrc Hz Hr Hl Hv. apply stored_page_is_read; try done. by apply valid_page_not_envelope. Qed.
End Compress.

(** ** Witness *)

(** A codec that drops trailing zeros and pads with them. *)
Fixpoint strip (l : bytes) : bytes :=
  match l with
  | [] => []
  | x :: l => match strip l with [] => if x =? 0 then [] else [x] | l' => x :: l' end
  end.
Definition demo_compress (_ : option bytes) (_ : Z) (raw : bytes) : result string bytes := Ok (strip raw).
Definition demo_decompress (_ : option bytes) (c : bytes) (n : N) : result string bytes :=
  Ok (c ++ replicate (N.to_nat n - length c) 0).

Lemma strip_pad l : strip l ++ replicate (length l - length (strip l)) 0 = l /\ (length (strip l) <= length l)%nat.
Proof.
  induction l as [|x l [IH Hl]]; [done|]. cbn [strip length]. destruct (strip l) as [|y l'] eqn:E.
  - cbn [app length] in *. rewrite Nat.sub_0_r in IH. destruct (N.eqb_spec x 0) as [->|Hx]; cbn [length app].
    + split; [|lia]. rewrite Nat.sub_0_r. cbn [replicate]. by rewrite IH.
    + split; [|lia]. replace (S (length l) - 1)%nat with (length l) by lia. by rewrite IH.
  - cbn [length] in *. split; [|lia]. cbn [app]. f_equal. exact IH.
Qed.

Lemma demo_zstd : zstd_roundtrip demo_compress demo_decompress.
Proof.
  intros dict level raw c [= <-]. unfold demo_decompress. f_equal. unfold len. rewrite Nat2N.id. apply strip_pad.
Qed.

Definition demo_registry : CompressionRegistry := mkRegistry {[4 := FcZstd None]} ∅.

Lemma page_at_rest_roundtrip_witness :
  match compress_page_at_rest demo_crc demo_compress demo_registry 4 (init_page demo_crc 9) with
  | Ok (Some b) => len b < PAGE_SIZE /\
      decompress_page demo_crc demo_decompress demo_registry (b ++ [0; 0]) PAGE_SIZE = Ok (Some (init_page demo_crc 9))
  | _ => False
  end.
Proof.
  assert (Hl : len (init_page demo_crc 9) = PAGE_SIZE) by (vm_compute; reflexivity).
  assert (Hv : is_valid demo_crc (init_page demo_crc 9) = true) by (vm_compute; reflexivity).
  assert (Hr : registry_ok demo_registry).
  { intros f id. unfold file_config, demo_registry. cbn [files]. destruct (decide (f = 4)) as [->|Hne].
    - by rewrite lookup_singleton_eq.
    - by rewrite lookup_singleton_ne. }
  destruct (compress_page_at_rest demo_crc demo_compress demo_registry 4 (init_page demo_crc 9)) as [[b|]|e] eqn:E.
  - destruct (page_at_rest_roundtrip demo_crc demo_compress demo_decompress demo_registry 4 (init_page demo_crc 9) [0; 0] (Some b)
      demo_crc_fits demo_zstd Hr Hl Hv E) as [H1 H2].
    split; [done|]. apply H2. rewrite len_app. change (len [0; 0]) with 2. unfold PAGE_SIZE, USIZE_MAX, U64_MAX in *. lia.
  - vm_compute in E. discriminate.
  - vm_compute in E. discriminate.
Defined.
