(* ===== verification/Redo.v ===== *)
(** * Physiological redo (src/crates/storage/src/redo.rs, src/crates/server/src/recovery.rs)

    Replaying the page records of the log: [apply_physical_redo] on one page, gated by
    the page-LSN, and the page part of the recovery loop over all pages, which zeroes a
    torn page before its first record rebuilds it.  Shown: whatever mixture of page
    versions a crash left on disk, replay brings every page to the state the log
    describes. *)

From S2P Require Import Prelude Errors Mvcc CheckedBytes ByteArray TupleHeader WalCodec Page.
Local Open Scope N_scope.

Section Redo.
Context {CatalogChangeSet : Type}.
Context (crc32 : bytes -> N).
Abbreviation WalRecordKind := (@WalRecordKind CatalogChangeSet).
Abbreviation PM := (SE bytes Fault).

Definition redo_error (m : string) : DbError := db_storage InternalError m.

Definition apply_physical_redo (l : Lsn) (k : WalRecordKind) : PM bool :=
  applied ← gets page_lsn;
  if l <=? applied then mret false
  else
    _ ← match k with
        | HeapInit _ page_num =>
            _ ← modify (fun _ => init_page crc32 page_num);
            modify (fun d => set_page_lsn crc32 d l)
        | HeapInsert _ _ slot row_bytes =>
            produced ← insert_row crc32 row_bytes;
            if negb (produced =? slot)
            then lift (Err (Raised (redo_error ("redo heap-insert slot mismatch: expected " +:+ pretty slot
                                                +:+ ", produced " +:+ pretty produced))))
            else modify (fun d => set_page_lsn crc32 d l)
        | HeapDelete _ _ slot =>
            _ ← delete_row crc32 slot;
            modify (fun d => set_page_lsn crc32 d l)
        | HeapUpdateHeader _ _ slot xmax t_ctid infomask =>
            set_tuple_header crc32 slot xmax t_ctid infomask l
        | FullPageImage _ _ image =>
            if negb (len image =? PAGE_SIZE)
            then lift (Err (Raised (redo_error ("redo full-page image has " +:+ pretty (len image) +:+ " bytes, expected "
                                                +:+ pretty PAGE_SIZE))))
            else
              _ ← modify (fun _ => image);
              modify (fun d => set_page_lsn crc32 d l)
        | _ => lift (Err (Raised (redo_error "not a physiological redo record")))
        end;
    mret true.

(** The page arm of [apply_redo]: a torn or never-initialized page is zeroed first. *)
Definition redo_page (l : Lsn) (k : WalRecordKind) : PM unit :=
  _ ← modify (fun d => if is_valid crc32 d then d else zeroed);
  _ ← apply_physical_redo l k;
  mret ().

Definition redo_all (rs : list (Lsn * WalRecordKind)) : PM unit := for_each rs (fun r => redo_page r.1 r.2).

(** ** Specification *)

(** What a record does to the abstract page; [None] where the log does not fit it. *)
Definition redo_spec (l : Lsn) (k : WalRecordKind) (h : Heap) : option Heap :=
  match k with
  | HeapInit _ page_num => Some (with_lsn (fresh page_num) l)
  | HeapInsert _ _ slot row =>
      match spec_op (OpInsert row) h with
      | Some (h', Placed (Some s)) => if s =? slot then Some (with_lsn h' l) else None
      | _ => None
      end
  | HeapDelete _ _ slot => '(h', _) ← spec_op (OpDelete slot) h; Some (with_lsn h' l)
  | HeapUpdateHeader _ _ slot xmax tid im =>
      '(h', _) ← spec_op (OpSetHeader slot xmax tid im l) h; Some h'
  | FullPageImage _ _ image => if len image =? PAGE_SIZE then Some (with_lsn (heap_of image) l) else None
  | _ => None
  end.

Fixpoint redo_specs (rs : list (Lsn * WalRecordKind)) (h : Heap) : option Heap :=
  match rs with
  | [] => Some h
  | (l, k) :: rs => h ← redo_spec l k h; redo_specs rs h
  end.

(** The records the heap writes: fields of their widths, rows with their version
    byte, images of valid pages. *)
Definition redo_ok (k : WalRecordKind) : Prop :=
  match k with
  | HeapInit _ page_num => page_num <= U32_MAX
  | HeapInsert _ _ _ row => op_ok (OpInsert row)
  | HeapUpdateHeader _ _ _ xmax tid im => header_widths xmax tid im
  | FullPageImage _ _ image => page_ok crc32 image
  | _ => True
  end.

(** Records that do not depend on what the page holds. *)
Definition rebuilds (k : WalRecordKind) : Prop :=
  match k with HeapInit _ _ | FullPageImage _ _ _ => True | _ => False end.

Definition ascending (rs : list (Lsn * WalRecordKind)) : Prop :=
  StronglySorted N.lt rs.*1 /\ Forall (fun r => 0 < r.1 /\ r.1 <= U64_MAX) rs /\ Forall (fun r => redo_ok r.2) rs.

(** ** One record *)

Section Crc.
Context (Hcrc : crc_fits crc32).

Lemma page_ok_valid d : page_ok crc32 d -> is_valid crc32 d = true.
Proof. intros H. unfold is_valid. by destruct (page_validate _ _ H) as (? & ? & ? & _ & ->). Qed.

Lemma stamp_page d l :
  page_ok crc32 d -> l <= U64_MAX ->
  page_ok crc32 (set_page_lsn crc32 d l) /\ heap_of (set_page_lsn crc32 d l) = with_lsn (heap_of d) l.
Proof. intros (_ & n & f & ss & Hb) Hl. by apply (stamp_ok _ Hcrc _ _ _ _ _ Hb). Qed.

Lemma impl_ok op d : page_ok crc32 d -> op_ok op -> implements crc32 (spec_op op (heap_of d)) (run_op crc32 op d).
Proof. by apply impl_op. Qed.

(** A record that applies to a valid page applies as its specification says. *)
Lemma apply_redo_ok d l k :
  page_ok crc32 d -> page_lsn d < l -> l <= U64_MAX -> redo_ok k ->
  match redo_spec l k (heap_of d) with
  | Some h => exists d', apply_physical_redo l k d = (d', Ok true) /\ page_ok crc32 d' /\ heap_of d' = h
  | None => exists d' e, apply_physical_redo l k d = (d', Err (Raised e))
  end.
Proof.
  intros Hd Hlt Hl Hk. unfold apply_physical_redo. rewrite gets_bind. rewrite (proj2 (N.leb_gt _ _) Hlt).
  destruct k; cbn [redo_spec redo_ok] in *; try by eexists _, _.
  - destruct (init_ok crc32 Hcrc page_num Hk) as [Hok Hh]. destruct (stamp_page _ l Hok Hl) as [Hok' Hh'].
    eexists. split_and!; [reflexivity|exact Hok'|]. etrans; [exact Hh'|]. by rewrite Hh.
  - pose proof (impl_ok (OpInsert row_bytes) d Hd Hk) as H. cbn [run_op] in H. unfold insert_row, mbind, se_bind in *.
    destruct (try_insert_row crc32 row_bytes d) as [d1 [s|e]].
    2:{ destruct (spec_op _ _) as [[h' a]|]; [by destruct H as (? & ? & _)|]. destruct H as (? & e' & [= -> ->]). by eexists _, _. }
    destruct (spec_op _ _) as [[h' a]|]; [|by destruct H as (? & ? & ?)]. destruct H as (d' & [= -> <-] & Hok & <-).
    destruct s as [s|]; cbn [lift ok_or]; [|by eexists _, _].
    destruct (s =? slot); cbn [negb]; [|by eexists _, _].
    destruct (stamp_page _ l Hok Hl) as [Hok' Hh']. eexists. split_and!; [reflexivity|exact Hok'|exact Hh'].
  - pose proof (impl_ok (OpDelete slot) d Hd I) as H. cbn [run_op] in H. unfold mbind at 1 in H. unfold mbind, se_bind in *.
    destruct (delete_row crc32 slot d) as [d1 [s|e]].
    2:{ destruct (spec_op _ _) as [[h' a]|]; [by destruct H as (? & ? & _)|]. destruct H as (? & e' & [= -> ->]). by eexists _, _. }
    destruct (spec_op _ _) as [[h' a]|]; [|by destruct H as (? & ? & ?)]. destruct H as (d' & [= -> <-] & Hok & <-).
    destruct (stamp_page _ l Hok Hl) as [Hok' Hh']. eexists. split_and!; [reflexivity|exact Hok'|exact Hh'].
  - pose proof (impl_ok (OpSetHeader slot xmax t_ctid infomask l) d Hd (conj Hk Hl)) as H. cbn [run_op] in H.
    unfold mbind, se_bind in *. destruct (set_tuple_header crc32 slot xmax t_ctid infomask l d) as [d1 [[]|e]].
    2:{ destruct (spec_op _ _) as [[h' a]|]; [by destruct H as (? & ? & _)|]. destruct H as (? & e' & [= -> ->]). by eexists _, _. }
    destruct (spec_op _ _) as [[h' a]|]; [|by destruct H as (? & ? & ?)]. destruct H as (d' & [= -> <-] & Hok & <-).
    eexists. by split_and!.
  - destruct (len image =? PAGE_SIZE); cbn [negb]; [|by eexists _, _].
    destruct (stamp_page _ l Hk Hl) as [Hok' Hh']. eexists. split_and!; [reflexivity|exact Hok'|exact Hh'].
Qed.

Lemma redo_spec_lsn l k h h' : redo_spec l k h = Some h' -> h'.(h_lsn) = l.
Proof.
  destruct k; cbn [redo_spec]; intros E; try done; unfold mbind, option_bind in E.
  - by injection E as <-.
  - destruct (spec_op _ _) as [[h1 [| [s|] |]]|]; try done. destruct (_ =? _); [by injection E as <-|done].
  - destruct (spec_op _ _) as [[h1 a]|]; [by injection E as <-|done].
  - cbn in E. destruct (h_items h !! _) as [[]|]; try done. cbn in E.
    destruct (set_mvcc_header_fields _ _ _ _); [by injection E as <-|done].
  - destruct (_ =? _); [by injection E as <-|done].
Qed.

(** A rebuilding record gives the same page whatever was there before it. *)
Lemma rebuild_same d1 d2 l k :
  rebuilds k -> page_lsn d1 < l -> page_lsn d2 < l ->
  match apply_physical_redo l k d1 with
  | (d, Ok b) => apply_physical_redo l k d2 = (d, Ok b) /\ forall h1 h2, redo_spec l k h1 = redo_spec l k h2
  | (_, Err _) => True
  end.
Proof.
  intros Hk H1 H2. unfold apply_physical_redo. rewrite !gets_bind.
  rewrite (proj2 (N.leb_gt _ _) H1), (proj2 (N.leb_gt _ _) H2). destruct k; try done.
  cbn. by destruct (negb _).
Qed.

Lemma rebuild_ok d l k d' b :
  rebuilds k -> redo_ok k -> l <= U64_MAX -> page_lsn d < l -> apply_physical_redo l k d = (d', Ok b) ->
  page_ok crc32 d' /\ (forall h, redo_spec l k h = Some (heap_of d')) /\ b = true.
Proof.
  intros Hr Hk Hl Hlt E. pose proof (init_ok crc32 Hcrc 0 ltac:(done)) as [Hok Hh].
  assert (Hlt0 : page_lsn (init_page crc32 0) < l)
    by (change (page_lsn (init_page crc32 0)) with (h_lsn (heap_of (init_page crc32 0))); rewrite Hh; cbn; lia).
  pose proof (rebuild_same d (init_page crc32 0) l k Hr Hlt Hlt0) as H. rewrite E in H. destruct H as [E0 Hs].
  pose proof (apply_redo_ok (init_page crc32 0) l k Hok Hlt0 Hl Hk) as H. rewrite E0 in H.
  destruct (redo_spec l k (heap_of (init_page crc32 0))) as [h|] eqn:Es; [|by destruct H as (? & ? & ?)].
  destruct H as (d1 & [= <- ->] & Hok1 & <-). split_and!; [done| |done].
  intros h. rewrite <- Es. apply Hs.
Qed.

(** ** A sequence of records for one page *)

Lemma redo_page_skip d l k : page_ok crc32 d -> l <= page_lsn d -> redo_page l k d = (d, Ok ()).
Proof.
  intros Hd Hl. unfold redo_page. rewrite modify_bind, page_ok_valid by done.
  unfold apply_physical_redo, mbind, se_bind, gets. by rewrite (proj2 (N.leb_le _ _) Hl).
Qed.

Lemma redo_page_apply d l k d' :
  page_ok crc32 d -> page_lsn d < l -> l <= U64_MAX -> redo_ok k -> redo_page l k d = (d', Ok ()) ->
  page_ok crc32 d' /\ page_lsn d' = l /\ redo_spec l k (heap_of d) = Some (heap_of d').
Proof.
  intros Hd Hlt Hl Hk. unfold redo_page. rewrite modify_bind, page_ok_valid by done.
  pose proof (apply_redo_ok d l k Hd Hlt Hl Hk) as H. unfold mbind, se_bind.
  destruct (redo_spec l k (heap_of d)) as [h|] eqn:Es.
  - destruct H as (d1 & -> & Hok & <-). intros [= <-]. split_and!; [done| |done]. by apply redo_spec_lsn in Es.
  - destruct H as (d1 & e & ->). done.
Qed.

(** A page that replay zeroes, or a valid one older than the record. *)
Definition startable (l : Lsn) (d : bytes) : Prop :=
  is_valid crc32 d = false \/ (page_ok crc32 d /\ page_lsn d < l).

(** A record that rebuilds the page gives the same from every such page. *)
Lemma redo_page_rebuild d l k d' :
  startable l d -> rebuilds k -> 0 < l -> l <= U64_MAX -> redo_ok k -> redo_page l k d = (d', Ok ()) ->
  page_ok crc32 d' /\ page_lsn d' = l /\ (forall h, redo_spec l k h = Some (heap_of d')) /\
  (forall e, startable l e -> redo_page l k e = (d', Ok ())).
Proof.
  intros Hd Hr Hpos Hl Hk.
  assert (Hlt : forall e, startable l e -> page_lsn (if is_valid crc32 e then e else zeroed) < l).
  { intros e [-> | [He Hlt]]; [|by rewrite page_ok_valid]. by replace (page_lsn zeroed) with 0 by (by vm_compute). }
  unfold redo_page. rewrite modify_bind. unfold mbind, se_bind.
  destruct (apply_physical_redo l k _) as [d1 [b|e]] eqn:E; [|done]. intros [= <-].
  destruct (rebuild_ok _ _ _ _ _ Hr Hk Hl (Hlt d Hd) E) as (Hok & Hs & ->). split_and!; [done| |done|].
  - apply (redo_spec_lsn _ _ _ _ (Hs (heap_of zeroed))).
  - intros e He. rewrite (surjective_pairing (modify _ e)). cbn [modify fst snd].
    pose proof (rebuild_same _ _ l k Hr (Hlt d Hd) (Hlt e He)) as H. rewrite E in H. by destruct H as [-> _].
Qed.

Lemma redo_all_cons r rs d : redo_all (r :: rs) d = (redo_page r.1 r.2 ≫= fun _ => redo_all rs) d.
Proof. done. Qed.

Lemma redo_all_skip rs d :
  page_ok crc32 d -> Forall (fun r => r.1 <= page_lsn d) rs -> redo_all rs d = (d, Ok ()).
Proof.
  intros Hd. induction 1 as [|r rs Hr _ IH]; [done|]. rewrite redo_all_cons.
  rewrite (se_bind_Ok _ _ _ _ _ (redo_page_skip d r.1 r.2 Hd Hr)). done.
Qed.

(** The page after some records of an ascending log: valid, stamped with the last of them,
    and holding what the specification says. *)
Lemma redo_all_ok rs : forall d d',
  page_ok crc32 d -> ascending rs -> Forall (fun r => page_lsn d < r.1) rs -> redo_all rs d = (d', Ok ()) ->
  page_ok crc32 d' /\ redo_specs rs (heap_of d) = Some (heap_of d') /\ page_lsn d <= page_lsn d' /\
  Forall (fun r => r.1 <= page_lsn d') rs.
Proof.
  induction rs as [|[l k] rs IH]; intros d d' Hd (Hso & Hw & Hk) Hlt E.
  { injection E as <-. split_and!; done || lia. }
  apply Forall_cons in Hlt as [Hl _], Hw as [[H0 Hu] Hw], Hk as [Hk1 Hk]. cbn [fst snd fmap list_fmap] in *.
  apply StronglySorted_inv in Hso as [Hso Hgt]. rewrite redo_all_cons in E.
  apply se_bind_inv in E as (d1 & [] & E1 & E). destruct (redo_page_apply _ _ _ _ Hd Hl Hu Hk1 E1) as (Hd1 & Hl1 & Hs).
  rewrite Forall_fmap in Hgt.
  destruct (IH d1 d' Hd1 (conj Hso (conj Hw Hk))) as (Hd' & Hs' & Hle & Hall); [|done|].
  { eapply Forall_impl; [exact Hgt|]. intros r Hr. rewrite Hl1. apply Hr. }
  cbn [redo_specs]. rewrite Hs. split_and!; [done|done|lia|]. constructor; [cbn; lia|done].
Qed.

(** The state replay starts from: a valid page older than the records, or a page that
    cannot be trusted, whose first record rebuilds it. *)
Definition replayable (rs : list (Lsn * WalRecordKind)) (d : bytes) : Prop :=
  (page_ok crc32 d /\ Forall (fun r => page_lsn d < r.1) rs) \/
  (is_valid crc32 d = false /\ match rs with [] => True | r :: _ => rebuilds r.2 end).

Lemma redo_all_replayable rs d d' :
  ascending rs -> replayable rs d -> rs <> [] -> redo_all rs d = (d', Ok ()) ->
  page_ok crc32 d' /\ redo_specs rs (heap_of d) = Some (heap_of d') /\ Forall (fun r => r.1 <= page_lsn d') rs.
Proof.
  intros Ha [[Hd Hlt]|[Hv Hr]] Hne E; [by destruct (redo_all_ok rs d d' Hd Ha Hlt E) as (? & ? & _ & ?)|].
  destruct rs as [|[l k] rs]; [done|]. destruct Ha as (Hso & Hw & Hk).
  apply Forall_cons in Hw as [[H0 Hu] Hw], Hk as [Hk1 Hk]. cbn [fst snd fmap list_fmap] in *. apply StronglySorted_inv in Hso as [Hso Hgt].
  rewrite redo_all_cons in E. apply se_bind_inv in E as (d1 & [] & E1 & E).
  destruct (redo_page_rebuild _ _ _ _ (or_introl Hv) Hr H0 Hu Hk1 E1) as (Hd1 & Hl1 & Hs & _). rewrite Forall_fmap in Hgt.
  destruct (redo_all_ok rs d1 d' Hd1 (conj Hso (conj Hw Hk))) as (Hd' & Hs' & Hle & Hall); [|done|].
  { eapply Forall_impl; [exact Hgt|]. intros r Hr'. rewrite Hl1. apply Hr'. }
  cbn [redo_specs]. rewrite Hs. split_and!; [done|done|]. constructor; [cbn; lia|done].
Qed.

Lemma ascending_app rs1 rs2 : ascending (rs1 ++ rs2) -> ascending rs1.
Proof.
  intros (Hs & Hw & Hk). rewrite fmap_app in Hs. apply Forall_app in Hw as [Hw _], Hk as [Hk _].
  split_and!; [|done|done]. by eapply StronglySorted_app_1_l.
Qed.

Lemma replayable_app rs1 rs2 d : replayable (rs1 ++ rs2) d -> replayable rs1 d.
Proof.
  intros [[Hd Hl]|[Hv Hr]]; [left|right]; split; try done; [by apply Forall_app in Hl as [? _]|].
  by destruct rs1.
Qed.

(** A page image a crash may leave: one of the states the page went through, or an
    untrustworthy one where the log rebuilds the page. *)
Definition crash_page (rs : list (Lsn * WalRecordKind)) (d0 d : bytes) : Prop :=
  (exists rs1 rs2, rs = rs1 ++ rs2 /\ redo_all rs1 d0 = (d, Ok ())) \/
  (is_valid crc32 d = false /\ match rs with [] => d = d0 | r :: _ => rebuilds r.2 end).

Lemma redo_from_crash rs d0 dn d :
  ascending rs -> replayable rs d0 -> redo_all rs d0 = (dn, Ok ()) -> crash_page rs d0 d ->
  redo_all rs d = (dn, Ok ()).
Proof.
  intros Ha Hr E [(rs1 & rs2 & -> & E1)|[Hv Hrb]].
  - destruct (decide (rs1 = [])) as [->|Hne]; [by injection E1 as ->|].
    destruct (redo_all_replayable rs1 d0 d (ascending_app _ _ Ha) (replayable_app _ _ _ Hr) Hne E1) as (Hd & _ & Hle).
    unfold redo_all in *. rewrite for_each_app in *. rewrite (se_bind_Ok _ _ _ _ _ E1) in E.
    by rewrite (se_bind_Ok _ _ _ _ _ (redo_all_skip rs1 d Hd Hle)).
  - destruct rs as [|[l k] rs]; [by subst d|]. destruct Ha as (Hso & Hw & Hk).
    apply Forall_cons in Hw as [[H0 Hu] Hw], Hk as [Hk1 Hk]. cbn [fst snd fmap list_fmap] in *.
    rewrite redo_all_cons in *. apply se_bind_inv in E as (d1 & [] & E1 & E). cbn [fst snd] in *.
    assert (E2 : redo_page l k d = (d1, Ok ())).
    { destruct (redo_page_rebuild d0 l k d1) as (_ & _ & _ & Hsame); try done; [|by apply Hsame; left].
      destruct Hr as [[Hd0 Hlt]|[Hv0 _]]; [right|by left]. split; [done|]. by apply Forall_cons in Hlt as [? _]. }
    by rewrite (se_bind_Ok _ _ _ _ _ E2).
Qed.

End Crc.
End Redo.
