(* ===== verification/Recovery.v ===== *)
(** * Recovery of pages and of the id allocator (src/crates/server/src/recovery.rs)

    The replay loop of [open_app] with [apply_redo], and [next_txn_id].  The loop calls
    the catalog, the storage metadata, the sequences and the dictionary files through
    trait objects: [RecoveryOperations] is their interface, on a state of their own and
    the compression registry, which hold no page (a replayed catalog change installs
    metadata only). *)

From S2P Require Import Prelude Errors Mvcc CheckedBytes ByteArray TupleHeader WalCodec Page Compress Redo.
Local Open Scope N_scope.

(** The pages by file and number; [fetch_for_redo] gives an absent one zeroed. *)
Abbreviation PageStore := (gmap (N * N) bytes).
Definition load (s : PageStore) (key : N * N) : bytes := default zeroed (s !! key).

(** What replay asks of the catalog, of the storage engine's metadata and of the
    dictionary files. *)
Class RecoveryOperations (CatalogChangeSet World : Type) : Type := {
  apply_catalog_change_recovery : CatalogChangeSet -> SE (CompressionRegistry * World) DbError unit;
  reserve_change_allocators : CatalogChangeSet -> SE (CompressionRegistry * World) DbError unit;
  apply_sequence_advance : N -> Z -> SE (CompressionRegistry * World) DbError unit;
  apply_set_sequence_value : N -> Z -> bool -> SE (CompressionRegistry * World) DbError unit;
  save_dictionary : N -> N -> bytes -> SE (CompressionRegistry * World) DbError unit;
  reserve_dictionary_id : N -> SE (CompressionRegistry * World) DbError unit
}.

Section Recovery.
Context {CatalogChangeSet World : Type} `{!RecoveryOperations CatalogChangeSet World}.
Context (crc32 : bytes -> N).
Context (zstd_decompress : option bytes -> bytes -> N -> result string bytes).
(** [wal.is_committed]. *)
Context (is_committed : TxnId -> bool).
Abbreviation WalRecordKind := (@WalRecordKind CatalogChangeSet).
Abbreviation WalRecord := (@WalRecord CatalogChangeSet).

(** The pages, and beside them the registry and what the interface keeps. *)
Record RedoState : Type := mkRedoState {
  pages : PageStore;
  aside : CompressionRegistry * World
}.

(** A compressed image becomes a plain one before it is dispatched. *)
Definition normalize (reg : CompressionRegistry) (k : WalRecordKind) : DbResult WalRecordKind :=
  match k with
  | FullPageImageCompressed file_id page_num codec dict_id payload =>
      image ← decompress_fpi zstd_decompress reg codec dict_id payload PAGE_SIZE;
      Ok (FullPageImage file_id page_num image)
  | other => Ok other
  end.

Definition is_physical (k : WalRecordKind) : bool :=
  match k with
  | HeapInit _ _ | HeapInsert _ _ _ _ | HeapDelete _ _ _ | HeapUpdateHeader _ _ _ _ _ _
  | FullPageImage _ _ _ | FullPageImageCompressed _ _ _ _ _ => true
  | _ => false
  end.
Definition is_catalog (k : WalRecordKind) : bool :=
  match k with CatalogChange _ | CreateDictionary _ _ _ => true | _ => false end.
Definition is_sequence (k : WalRecordKind) : bool :=
  match k with SequenceAdvance _ _ | SetSequenceValue _ _ _ => true | _ => false end.

(** The page arm of [apply_redo]. *)
Definition redo_in_store (key : N * N) (l : Lsn) (k : WalRecordKind) : SE RedoState Fault unit := fun s =>
  let '(d, r) := redo_page crc32 l k (load s.(pages) key) in
  (mkRedoState (<[key := d]> s.(pages)) s.(aside), r).

(** A call that leaves the pages alone. *)
Definition calls (m : SE (CompressionRegistry * World) DbError unit) : SE RedoState Fault unit := fun s =>
  let '(a, r) := m s.(aside) in (mkRedoState s.(pages) a, raise r).

Definition create_dictionary (dict_id table_id : N) (b : bytes) : SE (CompressionRegistry * World) DbError unit :=
  _ ← save_dictionary dict_id table_id b;
  _ ← (fun a => let '(reg, r) := register_dictionary dict_id b a.1 in ((reg, a.2), r));
  reserve_dictionary_id dict_id.

Definition apply_redo (l : Lsn) (k : WalRecordKind) : SE RedoState Fault unit :=
  reg ← gets (fun s => s.(aside).1);
  k ← lift (raise (normalize reg k));
  match k with
  | CatalogChange change_set => calls (apply_catalog_change_recovery change_set)
  | SequenceAdvance sequence value => calls (apply_sequence_advance sequence value)
  | SetSequenceValue sequence value is_called => calls (apply_set_sequence_value sequence value is_called)
  | HeapInit f p | HeapInsert f p _ _ | HeapDelete f p _ | HeapUpdateHeader f p _ _ _ _ | FullPageImage f p _ =>
      redo_in_store (f, p) l k
  | Commit | CommitWithSubxids _ | Abort | Checkpoint _ _ _ =>
      lift (Err (Raised (db_internal "recovery replay received an unexpected WAL record")))
  | CreateDictionary dict_id table_id b => calls (create_dictionary dict_id table_id b)
  | FullPageImageCompressed _ _ _ _ _ =>
      lift (Err (Raised (db_internal "unreachable: FullPageImageCompressed is normalized before dispatch")))
  end.

(** The boundaries of the checkpoint that replay starts from. *)
Record Bounds : Type := mkBounds {
  page_redo_lsn : Lsn;
  catalog_redo_lsn : Lsn;
  checkpoint_end_lsn : Lsn
}.

(** One turn of the replay loop. *)
Definition replay_entry (b : Bounds) (entry : Lsn * WalRecord) : SE RedoState Fault unit :=
  let '(replay_from, record) := entry in
  let k := record.(rkind) in
  if negb (is_redo_operation k) then mret ()
  else if is_physical k && (replay_from <? b.(page_redo_lsn)) then mret ()
  else if is_catalog k && (replay_from <? b.(catalog_redo_lsn)) then mret ()
  else if is_sequence k && (replay_from <? b.(checkpoint_end_lsn)) then mret ()
  else
    match k with
    | CatalogChange change_set =>
        if negb (is_committed record.(txn_id)) then calls (reserve_change_allocators change_set)
        else apply_redo record.(lsn) k
    | CreateDictionary _ _ _ =>
        if negb (is_committed record.(txn_id)) then mret () else apply_redo record.(lsn) k
    | _ => apply_redo record.(lsn) k
    end.

Definition replay_all (b : Bounds) (entries : list (Lsn * WalRecord)) : SE RedoState Fault unit :=
  for_each entries (replay_entry b).

(** The allocator's first id after recovery. *)
Definition max_txn_id (m : TxnId) (record : WalRecord) : TxnId :=
  let m := if negb (record.(txn_id) =? 0) then N.max m record.(txn_id) else m in
  match record.(rkind) with
  | CommitWithSubxids subxids => match list_max subxids with Some s => N.max m s | None => m end
  | _ => m
  end.

Definition next_txn_id (records : list WalRecord) : DbResult TxnId :=
  next ← ok_or (checked_add U64_MAX (foldl max_txn_id 0 records) 1) (db_wal InternalError "transaction id overflow");
  Ok (N.max next FIRST_NORMAL_XID).

(** ** The records of one page *)

(** What an entry does, given what was registered before it: an effect on one page, or
    one beside the pages. *)
Inductive Effect : Type :=
  | OnPage (key : N * N) (l : Lsn) (k : WalRecordKind)
  | Beside (m : SE (CompressionRegistry * World) DbError unit).

Definition entry_effect (b : Bounds) (reg : CompressionRegistry) (entry : Lsn * WalRecord) : Effect :=
  let '(replay_from, record) := entry in
  let k := record.(rkind) in
  if is_physical k then
    if replay_from <? b.(page_redo_lsn) then Beside (mret ())
    else
      match normalize reg k with
      | Err e => Beside (lift (Err e))
      | Ok (HeapInit f p as k) | Ok (HeapInsert f p _ _ as k) | Ok (HeapDelete f p _ as k)
      | Ok (HeapUpdateHeader f p _ _ _ _ as k) | Ok (FullPageImage f p _ as k) => OnPage (f, p) record.(lsn) k
      | Ok _ => Beside (mret ())
      end
  else
    Beside
      match k with
      | CatalogChange c =>
          if replay_from <? b.(catalog_redo_lsn) then mret ()
          else if is_committed record.(txn_id) then apply_catalog_change_recovery c
          else reserve_change_allocators c
      | CreateDictionary dict_id table_id d =>
          if replay_from <? b.(catalog_redo_lsn) then mret ()
          else if is_committed record.(txn_id) then create_dictionary dict_id table_id d
          else mret ()
      | SequenceAdvance q v => if replay_from <? b.(checkpoint_end_lsn) then mret () else apply_sequence_advance q v
      | SetSequenceValue q v c =>
          if replay_from <? b.(checkpoint_end_lsn) then mret () else apply_set_sequence_value q v c
      | _ => mret ()
      end.

(** The records that reach one page, in order. *)
Fixpoint page_records (b : Bounds) (key : N * N) (a : CompressionRegistry * World) (entries : list (Lsn * WalRecord))
    : list (Lsn * WalRecordKind) :=
  match entries with
  | [] => []
  | e :: entries =>
      match entry_effect b a.1 e with
      | OnPage key' l k => (if decide (key' = key) then [(l, k)] else []) ++ page_records b key a entries
      | Beside m => page_records b key (m a).1 entries
      end
  end.

Lemma load_insert s key d key' : load (<[key := d]> s) key' = if decide (key = key') then d else load s key'.
Proof.
  unfold load. destruct (decide (key = key')) as [->|Hne]; [by rewrite lookup_insert_eq|by rewrite lookup_insert_ne].
Qed.

(** A turn of the loop has the effect of its entry. *)
Lemma replay_entry_effect b e s :
  replay_entry b e s =
  match entry_effect b s.(aside).1 e with
  | OnPage key l k => redo_in_store key l k s
  | Beside m => calls m s
  end.
Proof.
  destruct e as [from r], s as [ps a]. unfold entry_effect, replay_entry. destruct (is_physical (rkind r)) eqn:Ep.
  - assert (Hr : is_redo_operation (rkind r) = true /\ is_catalog (rkind r) = false /\ is_sequence (rkind r) = false)
      by (by destruct (rkind r)).
    destruct Hr as (-> & -> & ->). cbn [negb andb]. destruct (from <? page_redo_lsn b); [done|].
    unfold apply_redo, mbind, se_bind, gets, lift. destruct (rkind r) eqn:Ek; try done; cbn [normalize raise map_err].
    cbn [mbind result_bind aside]. destruct (decompress_fpi _ _ _ _ _ _); done.
  - destruct (rkind r) eqn:Ek; try done; cbn [is_redo_operation is_catalog is_sequence negb andb];
      repeat case_match; done.
Qed.

Lemma replay_cons b e entries s :
  replay_all b (e :: entries) s = (replay_entry b e ≫= fun _ => replay_all b entries) s.
Proof. done. Qed.

(** A replay that succeeds replays each page. *)
Lemma replay_project b entries : forall s s',
  replay_all b entries s = (s', Ok ()) ->
  forall key, redo_all crc32 (page_records b key s.(aside) entries) (load s.(pages) key) = (load s'.(pages) key, Ok ()).
Proof.
  induction entries as [|e entries IH]; intros s s' E key; [by injection E as <-|].
  rewrite replay_cons in E. apply se_bind_inv in E as (s1 & [] & E1 & E). specialize (IH s1 s' E key).
  rewrite replay_entry_effect in E1. cbn [page_records].
  destruct (entry_effect b s.(aside).1 e) as [key0 l k|m].
  - unfold redo_in_store in E1. destruct (redo_page crc32 l k (load (pages s) key0)) as [d r] eqn:Ed.
    injection E1 as <- ->. cbn [pages aside] in IH. rewrite load_insert in IH.
    destruct (decide (key0 = key)) as [->|Hne]; [|done]. cbn [app]. rewrite redo_all_cons. cbn [fst snd].
    by rewrite (se_bind_Ok _ _ _ _ _ Ed).
  - unfold calls in E1. destruct (m (aside s)) as [a r]. by injection E1 as <- _.
Qed.

(** If a replay succeeds from some pages, it succeeds from all pages that each replay. *)
Lemma replay_lift b entries : forall s0 sn s,
  replay_all b entries s0 = (sn, Ok ()) -> s.(aside) = s0.(aside) ->
  (forall key, exists d, redo_all crc32 (page_records b key s.(aside) entries) (load s.(pages) key) = (d, Ok ())) ->
  exists s', replay_all b entries s = (s', Ok ()) /\ s'.(aside) = sn.(aside).
Proof.
  induction entries as [|e entries IH]; intros s0 sn s E Ha Hs; [exists s; split; [done|by injection E as <-]|].
  rewrite replay_cons in *. apply se_bind_inv in E as (s1 & [] & E1 & E). rewrite replay_entry_effect in E1.
  rewrite <- Ha in E1. cbn [page_records] in Hs. unfold mbind, se_bind. rewrite replay_entry_effect.
  destruct (entry_effect b s.(aside).1 e) as [key0 l k|m].
  - destruct (Hs key0) as [d0 Hd0]. rewrite decide_True in Hd0 by done. cbn [app] in Hd0. rewrite redo_all_cons in Hd0.
    apply se_bind_inv in Hd0 as (d1 & [] & Ed1 & Hd0). cbn [fst snd] in Ed1. unfold redo_in_store in *.
    rewrite Ed1. destruct (redo_page crc32 l k (load (pages s0) key0)) as [d0' r0]. injection E1 as <- _.
    apply (IH _ sn _ E); [done|]. intros key. cbn [pages aside]. rewrite load_insert.
    destruct (Hs key) as [d Hd]. destruct (decide (key0 = key)) as [->|Hne]; [by exists d0|by exists d].
  - unfold calls in *. rewrite <- Ha in E1. destruct (m (aside s)) as [a r]. injection E1 as <- ->.
    by apply (IH _ sn _ E).
Qed.


Lemma max_txn_id_ge m r : m <= max_txn_id m r.
Proof. unfold max_txn_id. destruct (rkind r); try case_if; try lia. destruct (list_max subxids); lia. destruct (list_max subxids); lia. Qed.

Lemma fold_max_ge rs : forall m, m <= foldl max_txn_id m rs.
Proof.
  induction rs as [|r rs IH]; intros m; cbn; [lia|]. pose proof (max_txn_id_ge m r). specialize (IH (max_txn_id m r)). lia.
Qed.

(** The ids a record mentions. *)
Definition mentioned (r : WalRecord) (id : TxnId) : Prop :=
  r.(txn_id) = id \/ exists subxids, r.(rkind) = CommitWithSubxids subxids /\ id ∈ subxids.

Lemma max_txn_id_mentioned m r id : mentioned r id -> id <= max_txn_id m r.
Proof.
  unfold max_txn_id. intros [<-|(subxids & -> & Hin)].
  - destruct (N.eqb_spec (txn_id r) 0) as [->|Hne]; [lia|]. cbn [negb]. destruct (rkind r); try lia.
    destruct (list_max subxids); lia.
  - destruct (list_max subxids) as [s|] eqn:E; [pose proof (list_max_ge _ _ _ E Hin); case_if; lia|].
    destruct subxids; [by inversion Hin|done].
Qed.

(** The allocator never hands out an id that the retained log mentions, nor a reserved one. *)
Lemma next_txn_id_fresh records next :
  next_txn_id records = Ok next ->
  FIRST_NORMAL_XID <= next /\ forall r id, r ∈ records -> mentioned r id -> id < next.
Proof.
  unfold next_txn_id. intros E. apply bind_Ok in E as (n & Hn & [= <-]). destruct (checked_add _ _ _) as [n'|] eqn:Ec; [|done].
  injection Hn as <-. apply checked_add_Some in Ec as [-> _]. split; [lia|]. intros r id Hr Hid.
  assert (Hle : id <= foldl max_txn_id 0 records); [|lia].
  apply list_elem_of_split in Hr as (l1 & l2 & ->). rewrite foldl_app. cbn [foldl].
  pose proof (max_txn_id_mentioned (foldl max_txn_id 0 l1) r id Hid). pose proof (fold_max_ge l2 (max_txn_id (foldl max_txn_id 0 l1) r)). lia.
Qed.

End Recovery.

(** ** Witness *)

Definition quiet : RecoveryOperations unit unit := {|
  apply_catalog_change_recovery _ := mret ();
  reserve_change_allocators _ := mret ();
  apply_sequence_advance _ _ := mret ();
  apply_set_sequence_value _ _ _ := mret ();
  save_dictionary _ _ _ := mret ();
  reserve_dictionary_id _ := mret ()
|}.

Definition demo_log : list (Lsn * @WalRecord unit) :=
  [(10, mkWalRecord 20 3 (HeapInit 7 0)); (20, mkWalRecord 30 3 (HeapInsert 7 0 0 [2; 7])); (30, mkWalRecord 40 3 Commit)].

Definition demo_page : list (Lsn * @WalRecordKind unit) := [(20, HeapInit 7 0); (30, HeapInsert 7 0 0 [2; 7])].

Definition demo_replay (ps : PageStore) :=
  replay_all (RecoveryOperations0 := quiet) demo_crc (fun _ _ _ => Err EmptyString) (fun _ => true)
    (mkBounds 10 10 10) demo_log (mkRedoState ps (registry_new, ())).

Definition torn : bytes := take 4096 (init_page demo_crc 0) ++ replicate 4096 1.

Lemma demo_records zs key :
  page_records (RecoveryOperations0 := quiet) zs (fun _ => true) (mkBounds 10 10 10) key (registry_new, ()) demo_log
  = if decide ((7, 0) = key) then demo_page else [].
Proof. cbn. by destruct (decide ((7, 0) = key)). Qed.

Lemma demo_ascending key : ascending demo_crc (if decide ((7, 0) = key) then demo_page else []).
Proof. destruct (decide _); split_and!; repeat constructor; done. Qed.

Lemma demo_spec h : redo_specs demo_page h = Some (mkHeap [INormal [2; 7]] 2 30 0).
Proof. reflexivity. Qed.

Lemma demo_replays : exists sn, demo_replay ∅ = (sn, Ok ()).
Proof.
  destruct (demo_replay ∅) as [sn r] eqn:E. exists sn. f_equal. change r with ((sn, r).2). rewrite <- E. by vm_compute.
Qed.

