(* ===== verification/KeyOrder.v ===== *)
(** * Comparisons

    Rust's [Ord] as a function to [comparison]: total preorders ([cmp] may call two
    different values equal, as the key order does for [1.0] and [1.00]), the
    lexicographic order of [Vec], the order of [Option], and of the [(key, value)] pairs
    that a B-tree keeps its entries in. *)

From S2P Require Import Prelude.

Class TotalPreorder {A : Type} (cmp : A -> A -> comparison) : Prop := {
  cmp_sym a b : cmp b a = CompOpp (cmp a b);
  cmp_trans a b c : cmp a b <> Gt -> cmp b c <> Gt -> cmp a c <> Gt
}.
Arguments cmp_sym {A} cmp {_} a b.
Arguments cmp_trans {A} cmp {_} a b c.

Section Laws.
Context {A : Type} (cmp : A -> A -> comparison) `{!TotalPreorder cmp}.

Lemma cmp_refl a : cmp a a = Eq.
Proof. pose proof (cmp_sym cmp a a) as H. by destruct (cmp a a). Qed.

Lemma cmp_Gt a b : cmp a b = Gt <-> cmp b a = Lt.
Proof. rewrite (cmp_sym cmp a b). by destruct (cmp a b). Qed.

Lemma cmp_Eq_comm a b : cmp a b = Eq <-> cmp b a = Eq.
Proof. rewrite (cmp_sym cmp a b). by destruct (cmp a b). Qed.

Lemma cmp_lt_le a b c : cmp a b = Lt -> cmp b c <> Gt -> cmp a c = Lt.
Proof.
  intros H1 H2. assert (cmp a c <> Gt) by (apply (cmp_trans cmp a b c); [by rewrite H1|done]).
  destruct (cmp a c) eqn:E; [|done..]. exfalso. apply (cmp_trans cmp b c a); [done| |by apply cmp_Gt].
  by rewrite (proj1 (cmp_Eq_comm _ _) E).
Qed.

Lemma cmp_le_lt a b c : cmp a b <> Gt -> cmp b c = Lt -> cmp a c = Lt.
Proof.
  intros H1 H2. assert (cmp a c <> Gt) by (apply (cmp_trans cmp a b c); [done|by rewrite H2]).
  destruct (cmp a c) eqn:E; [|done..]. exfalso. apply (cmp_trans cmp c a b); [|done|by apply cmp_Gt].
  by rewrite (proj1 (cmp_Eq_comm _ _) E).
Qed.

Lemma cmp_Eq_l a b c : cmp a b = Eq -> cmp a c = cmp b c.
Proof.
  intros H. assert (Hba : cmp b a = Eq) by by apply cmp_Eq_comm.
  destruct (cmp b c) eqn:E.
  - destruct (cmp a c) eqn:E'; [done| |].
    + assert (cmp b c = Lt); [|congruence]. apply (cmp_le_lt b a c); [by rewrite Hba|done].
    + apply cmp_Gt in E'. assert (cmp c b = Lt); [|apply cmp_Gt in H0; congruence].
      apply (cmp_lt_le c a b); [done|by rewrite H].
  - apply (cmp_le_lt a b c); [by rewrite H|done].
  - apply cmp_Gt. apply cmp_Gt in E. apply (cmp_lt_le c b a); [done|by rewrite Hba].
Qed.

Lemma cmp_Eq_r a b c : cmp a b = Eq -> cmp c a = cmp c b.
Proof. intros H. rewrite (cmp_sym cmp a c), (cmp_sym cmp b c). f_equal. by apply cmp_Eq_l. Qed.

Lemma cmp_not_Lt a b : cmp a b <> Lt <-> cmp b a <> Gt.
Proof. rewrite (cmp_sym cmp a b). by destruct (cmp a b). Qed.
End Laws.

(** ** Instances *)

Global Instance N_compare_order : TotalPreorder N.compare.
Proof.
  split; [intros; by rewrite N.compare_antisym|]. intros a b c H1 H2. change (a <= b)%N in H1. change (b <= c)%N in H2.
  change (a <= c)%N. lia.
Qed.

Global Instance Z_compare_order : TotalPreorder Z.compare.
Proof.
  split; [intros; by rewrite Z.compare_antisym|]. intros a b c H1 H2. change (a <= b)%Z in H1. change (b <= c)%Z in H2.
  change (a <= c)%Z. lia.
Qed.

(** An order along a function. *)
Global Instance on_order {A B} (f : A -> B) (cmp : B -> B -> comparison) `{!TotalPreorder cmp} :
  TotalPreorder (fun a b => cmp (f a) (f b)).
Proof. split; [intros; apply (cmp_sym cmp)|intros a b c; apply (cmp_trans cmp)]. Qed.

(** [Vec]: lexicographic. *)
Section ListCmp.
Context {A : Type} (cmp : A -> A -> comparison).
Fixpoint list_cmp (l1 l2 : list A) : comparison :=
  match l1, l2 with
  | [], [] => Eq
  | [], _ :: _ => Lt
  | _ :: _, [] => Gt
  | x :: l1, y :: l2 => match cmp x y with Eq => list_cmp l1 l2 | r => r end
  end.
End ListCmp.

Global Instance list_cmp_order {A} (cmp : A -> A -> comparison) `{!TotalPreorder cmp} : TotalPreorder (list_cmp cmp).
Proof.
  split.
  - induction a as [|x a IH]; intros [|y b]; try done. cbn. rewrite (cmp_sym cmp x y). destruct (cmp x y); cbn; auto.
  - induction a as [|x a IH]; intros [|y b] [|z c]; try done. cbn. intros H1 H2. destruct (cmp x y) eqn:E1; [| |done].
    + rewrite (cmp_Eq_l cmp _ _ _ E1). destruct (cmp y z); [by eapply IH|done|done].
    + assert (E : cmp x z = Lt); [|by rewrite E].
      apply (cmp_lt_le cmp x y z E1). by destruct (cmp y z).
Qed.

(** An order whose laws are known of some values only. *)
Definition order_on {A} (P : A -> Prop) (cmp : A -> A -> comparison) : Prop :=
  (forall a b, P a -> P b -> cmp b a = CompOpp (cmp a b)) /\
  (forall a b c, P a -> P b -> P c -> cmp a b <> Gt -> cmp b c <> Gt -> cmp a c <> Gt).

Lemma order_on_sig {A} (P : A -> Prop) (cmp : A -> A -> comparison) :
  order_on P cmp -> TotalPreorder (fun a b : sig P => cmp (`a) (`b)).
Proof. intros [H1 H2]. split; [intros [a Ha] [b Hb]; by apply H1|intros [a Ha] [b Hb] [c Hc]; by apply H2]. Qed.

Lemma list_cmp_sig {A} (P : A -> Prop) (cmp : A -> A -> comparison) (l1 l2 : list (sig P)) :
  list_cmp cmp (proj1_sig <$> l1) (proj1_sig <$> l2) = list_cmp (fun a b : sig P => cmp (`a) (`b)) l1 l2.
Proof. revert l2. induction l1 as [|x l1 IH]; intros [|y l2]; try done. cbn. destruct (cmp (`x) (`y)); done. Qed.

Lemma Forall_sig {A} (P : A -> Prop) l : Forall P l -> exists l' : list (sig P), l = proj1_sig <$> l'.
Proof. induction 1 as [|x l Hx _ (l' & ->)]; [by exists []|]. by exists ((x ↾ Hx) :: l'). Qed.

Lemma list_cmp_on {A} (P : A -> Prop) (cmp : A -> A -> comparison) : order_on P cmp -> order_on (Forall P) (list_cmp cmp).
Proof.
  intros H. pose proof (order_on_sig P cmp H) as Ho. split.
  - intros l1 l2 H1 H2. apply Forall_sig in H1 as (k1 & ->). apply Forall_sig in H2 as (k2 & ->). rewrite !list_cmp_sig. apply (cmp_sym (list_cmp _)).
  - intros l1 l2 l3 H1 H2 H3. apply Forall_sig in H1 as (k1 & ->). apply Forall_sig in H2 as (k2 & ->). apply Forall_sig in H3 as (k3 & ->).
    rewrite !list_cmp_sig. apply (cmp_trans (list_cmp _)).
Qed.

(** [Option]: [None] first. *)
Definition option_cmp {A} (cmp : A -> A -> comparison) (o1 o2 : option A) : comparison :=
  match o1, o2 with
  | None, None => Eq
  | None, Some _ => Lt
  | Some _, None => Gt
  | Some x, Some y => cmp x y
  end.

Global Instance option_cmp_order {A} (cmp : A -> A -> comparison) `{!TotalPreorder cmp} : TotalPreorder (option_cmp cmp).
Proof.
  split.
  - intros [] []; try done. apply (cmp_sym cmp).
  - intros [] [] []; try done. apply (cmp_trans cmp).
Qed.

(** Pairs: by the first component, then by the second. *)
Definition pair_cmp {A B} (c1 : A -> A -> comparison) (c2 : B -> B -> comparison) (p q : A * B) : comparison :=
  match c1 p.1 q.1 with Eq => c2 p.2 q.2 | r => r end.

Global Instance pair_cmp_order {A B} (c1 : A -> A -> comparison) (c2 : B -> B -> comparison)
  `{!TotalPreorder c1, !TotalPreorder c2} : TotalPreorder (pair_cmp c1 c2).
Proof.
  split; unfold pair_cmp.
  - intros [a1 a2] [b1 b2]. cbn. rewrite (cmp_sym c1 a1 b1). destruct (c1 a1 b1); cbn; [apply (cmp_sym c2)|done|done].
  - intros [a1 a2] [b1 b2] [d1 d2]. cbn. intros H1 H2. destruct (c1 a1 b1) eqn:E1; [| |done].
    + rewrite (cmp_Eq_l c1 _ _ _ E1). destruct (c1 b1 d1); [by eapply (cmp_trans c2)|done|done].
    + assert (E : c1 a1 d1 = Lt); [|by rewrite E]. apply (cmp_lt_le c1 a1 b1 d1 E1). by destruct (c1 b1 d1).
Qed.

(** ** Prefixes of lists *)

Section Prefix.
Context {A : Type} (cmp : A -> A -> comparison) `{!TotalPreorder cmp}.

(** Cutting both sides keeps the order. *)
Lemma list_cmp_take n l1 l2 : list_cmp cmp l1 l2 <> Gt -> list_cmp cmp (take n l1) (take n l2) <> Gt.
Proof.
  revert l1 l2. induction n as [|n IH]; intros [|x l1] [|y l2] H; try done. cbn in *. destruct (cmp x y); try done. by apply IH.
Qed.

(** What is below a list stays below it when cut to its length. *)
Lemma list_cmp_take_lt l1 l2 : list_cmp cmp l1 l2 = Lt -> list_cmp cmp (take (length l2) l1) l2 = Lt.
Proof.
  revert l1. induction l2 as [|y l2 IH]; intros [|x l1] H; try done. cbn in *. destruct (cmp x y); try done. by apply IH.
Qed.
End Prefix.

(** ** Sorted lists *)

Lemma sorted_fmap {A B} (f : A -> B) (R : B -> B -> Prop) l :
  StronglySorted R (f <$> l) <-> StronglySorted (fun x y => R (f x) (f y)) l.
Proof.
  induction l as [|x l IH]; [split; constructor|]. split; intros H; apply StronglySorted_inv in H as [H1 H2];
    (constructor; [by apply IH|by apply Forall_fmap]).
Qed.

Section Sorted.
Context {A : Type} (cmp : A -> A -> comparison) `{!TotalPreorder cmp}.

Definition ord_lt (a b : A) : Prop := cmp a b = Lt.
Definition ord_le (a b : A) : Prop := cmp a b <> Gt.

Lemma ord_lt_le a b : ord_lt a b -> ord_le a b.
Proof. unfold ord_lt, ord_le. by intros ->. Qed.
Lemma ord_le_refl a : ord_le a a.
Proof. unfold ord_le. by rewrite cmp_refl. Qed.
Lemma ord_lt_irrefl a : ~ ord_lt a a.
Proof. unfold ord_lt. by rewrite cmp_refl. Qed.
Lemma ord_lt_trans a b c : ord_lt a b -> ord_lt b c -> ord_lt a c.
Proof. intros H1 H2. apply (cmp_lt_le cmp a b c H1). by apply ord_lt_le. Qed.
Lemma ord_le_trans a b c : ord_le a b -> ord_le b c -> ord_le a c.
Proof. apply (cmp_trans cmp). Qed.
Lemma ord_lt_le_trans a b c : ord_lt a b -> ord_le b c -> ord_lt a c.
Proof. apply (cmp_lt_le cmp). Qed.
Lemma ord_le_lt_trans a b c : ord_le a b -> ord_lt b c -> ord_lt a c.
Proof. apply (cmp_le_lt cmp). Qed.
Lemma ord_not_lt a b : ~ ord_lt a b <-> ord_le b a.
Proof. apply (cmp_not_Lt cmp). Qed.
Lemma ord_not_le a b : ~ ord_le a b <-> ord_lt b a.
Proof. unfold ord_le, ord_lt. rewrite <- (cmp_Gt cmp). destruct (cmp a b); naive_solver. Qed.
Lemma ord_lt_or_le a b : ord_lt a b \/ ord_le b a.
Proof. rewrite <- ord_not_lt. unfold ord_lt. destruct (cmp a b); auto. Qed.

Global Instance ord_lt_dec a b : Decision (ord_lt a b).
Proof. unfold ord_lt. apply _. Defined.
Global Instance ord_le_dec a b : Decision (ord_le a b).
Proof. unfold ord_le. apply _. Defined.
End Sorted.
