(* ===== verification/IndexPage.v ===== *)
(** * Index node pages (src/crates/storage/src/index_page.rs)

    A node of the B-tree is a page with the header of a heap page, a flag, a link and
    entries whose slots are kept in key order.  Every function of the file is translated
    on the bytes.  The abstract node ([Node]) is its flag, its link, its entries and the
    bytes they use, garbage included.  Shown: each operation implements its
    specification on the abstract node and never panics on a well-formed page. *)

From S2P Require Import Prelude Errors Mvcc CheckedBytes ByteArray Page.
Local Open Scope N_scope.

Definition IS_LEAF_OFFSET : N := HEADER_LEN.
Definition LINK_OFFSET : N := HEADER_LEN + 1.
Definition BODY_START : N := HEADER_LEN + 5.
Definition SLOT_LEN : N := 4.
Definition META_ROOT_OFFSET : N := HEADER_LEN.

(** [read_u16(data, o)] at a computed offset panics outside the page. *)
Definition read_u16_at (d : bytes) (o : N) : result Fault N :=
  b ← slice d o (o + 2); Ok (from_le_bytes b).
Definition write_u16_at (o v : N) : SE bytes Fault unit :=
  writing (fun d => copy_from_slice d o (o + 2) (to_le_bytes 2 v)).

Section IndexPage.
Context (crc32 : bytes -> N).

Definition init (page_id : N) (is_leaf : bool) : bytes :=
  let d := write_u32 zeroed PAGE_ID_OFFSET page_id in
  let d := set_byte d PAGE_TYPE_OFFSET PAGE_TYPE_INDEX in
  let d := set_byte d PAGE_VERSION_OFFSET PAGE_VERSION in
  let d := write_u16 d NUM_SLOTS_OFFSET 0 in
  let d := write_u16 d FREE_SPACE_OFFSET BODY_START in
  let d := set_byte d IS_LEAF_OFFSET (if is_leaf then 1 else 0) in
  let d := write_u32 d LINK_OFFSET 0 in
  write_checksum crc32 d.

Definition is_leaf (d : bytes) : bool := byte_at d IS_LEAF_OFFSET =? 1.
Definition link (d : bytes) : N := read_u32 d LINK_OFFSET.
Definition set_link (d : bytes) (page : N) : bytes := write_checksum crc32 (write_u32 d LINK_OFFSET page).
Definition entry_count (d : bytes) : N := read_u16 d NUM_SLOTS_OFFSET.

(** The subtraction of [slot_pos] overflows for an index that no page has. *)
Definition slot_pos (index : N) : result Fault N := ok_or (checked_sub PAGE_SIZE ((index + 1) * SLOT_LEN)) Panicked.

Definition read_slot (d : bytes) (index : N) : result Fault (N * N) :=
  pos ← slot_pos index;
  o ← read_u16_at d pos;
  l ← read_u16_at d (pos + 2);
  Ok (o, l).

(** [offset as u16] keeps the low bytes. *)
Definition write_slot (index offset length : N) : SE bytes Fault unit :=
  pos ← lift (slot_pos index);
  _ ← write_u16_at pos offset;
  write_u16_at (pos + 2) length.

Definition entry_key (d : bytes) (index : N) : result Fault bytes :=
  '(offset, _) ← read_slot d index;
  key_len ← read_u16_at d offset;
  slice d (offset + 2) (offset + 2 + key_len).

Definition entry_value (d : bytes) (index : N) : result Fault bytes :=
  '(offset, length) ← read_slot d index;
  key_len ← read_u16_at d offset;
  slice d (offset + 2 + key_len) (offset + length).

(** [PAGE_SIZE - count * SLOT_LEN] overflows when the count is corrupt. *)
Definition free_bytes (d : bytes) : result Fault N :=
  let free_start := read_u16 d FREE_SPACE_OFFSET in
  slots_bottom ← ok_or (checked_sub PAGE_SIZE (entry_count d * SLOT_LEN)) Panicked;
  Ok (slots_bottom - free_start).

Definition entry_size (key_len value_len : N) : N := 2 + key_len + value_len.
Definition entry_stored_len (key_len value_len : N) : N := entry_size key_len value_len + SLOT_LEN.
Definition entry_fits_empty_node (key_len value_len : N) : bool :=
  entry_stored_len key_len value_len <=? PAGE_SIZE - BODY_START.

Definition has_space (d : bytes) (key_len value_len : N) : result Fault bool :=
  free ← free_bytes d; Ok (entry_stored_len key_len value_len <=? free).

(** [for index in (pos..count).rev()]: each slot moves one up. *)
Definition shift_up (pos count : N) : SE bytes Fault unit :=
  for_each (reverse (drop (N.to_nat pos) (range count))) (fun index =>
    '(o, l) ← (fun d => (d, read_slot d index)); write_slot (index + 1) o l).

Definition insert_entry (pos : N) (key value : bytes) : SE bytes Fault unit :=
  count ← gets entry_count;
  if count <? pos then lift (Err (Raised (corrupt_page "index insert position out of range")))
  else
    space ← (fun d => (d, has_space d (len key) (len value)));
    if negb space then lift (Err (Raised (corrupt_page "index node is full")))
    else
      free_start ← gets (fun d => read_u16 d FREE_SPACE_OFFSET);
      let size := entry_size (len key) (len value) in
      _ ← write_u16_at free_start (len key);
      _ ← writing (fun d => copy_from_slice d (free_start + 2) (free_start + 2 + len key) key);
      _ ← writing (fun d => copy_from_slice d (free_start + 2 + len key) (free_start + size) value);
      _ ← shift_up pos count;
      _ ← write_slot pos free_start size;
      _ ← modify (fun d => write_u16 d NUM_SLOTS_OFFSET (count + 1));
      _ ← modify (fun d => write_u16 d FREE_SPACE_OFFSET (free_start + size));
      modify (write_checksum crc32).

(** [for index in pos + 1..count]: each slot moves one down. *)
Definition shift_down (pos count : N) : SE bytes Fault unit :=
  for_each (drop (N.to_nat (pos + 1)) (range count)) (fun index =>
    '(o, l) ← (fun d => (d, read_slot d index)); write_slot (index - 1) o l).

Definition remove_entry (pos : N) : SE bytes Fault unit :=
  count ← gets entry_count;
  if count <=? pos then lift (Err (Raised (corrupt_page "index remove position out of range")))
  else
    _ ← shift_down pos count;
    _ ← modify (fun d => write_u16 d NUM_SLOTS_OFFSET (count - 1));
    modify (write_checksum crc32).

Definition meta_init (page_id root : N) : bytes :=
  let d := write_u32 zeroed PAGE_ID_OFFSET page_id in
  let d := set_byte d PAGE_TYPE_OFFSET PAGE_TYPE_INDEX in
  let d := set_byte d PAGE_VERSION_OFFSET PAGE_VERSION in
  let d := write_u32 d META_ROOT_OFFSET root in
  write_checksum crc32 d.

Definition meta_root (d : bytes) : N := read_u32 d META_ROOT_OFFSET.
Definition meta_set_root (d : bytes) (root : N) : bytes := write_checksum crc32 (write_u32 d META_ROOT_OFFSET root).

(** ** The abstract node *)

Record Node : Type := mkNode {
  n_leaf : bool;
  n_link : N;
  n_entries : list (bytes * bytes);
  n_used : N
}.

(** An entry as it is stored. *)
Definition entry_bytes (e : bytes * bytes) : bytes := to_le_bytes 2 (len e.1) ++ e.1 ++ e.2.

Definition get_slot (d : bytes) (i : N) : N * N :=
  let o := PAGE_SIZE - (i + 1) * SLOT_LEN in (read_u16 d o, read_u16 d (o + 2)).
Definition put_slot (d : bytes) (i : N) (s : N * N) : bytes :=
  let o := PAGE_SIZE - (i + 1) * SLOT_LEN in write_u16 (write_u16 d o s.1) (o + 2) s.2.

(** The stored entry of a slot, cut at its key length. *)
Definition entry_at (d : bytes) (s : N * N) : bytes * bytes :=
  let k := read_u16 d s.1 in (sub d (s.1 + 2) k, sub d (s.1 + 2 + k) (s.2 - (2 + k))).

Definition node_of (d : bytes) : Node :=
  mkNode (is_leaf d) (link d) (entry_at d ∘ get_slot d <$> range (entry_count d))
    (read_u16 d FREE_SPACE_OFFSET - BODY_START).

(** A slot that holds an entry below [f]. *)
Definition holds (d : bytes) (f : N) (s : N * N) (e : bytes * bytes) : Prop :=
  BODY_START <= s.1 /\ s.2 = entry_size (len e.1) (len e.2) /\ s.1 + s.2 <= f /\ sub d s.1 s.2 = entry_bytes e.

Record node_rep (d : bytes) (leaf : bool) (lk : N) (es : list (bytes * bytes)) (f : N) : Prop := {
  r_len : len d = PAGE_SIZE;
  r_bytes : bytes_ok d;
  r_type : byte_at d PAGE_TYPE_OFFSET = PAGE_TYPE_INDEX;
  r_version : byte_at d PAGE_VERSION_OFFSET = PAGE_VERSION;
  r_count : entry_count d = len es;
  r_free : read_u16 d FREE_SPACE_OFFSET = f;
  r_fit : BODY_START <= f /\ f + len es * SLOT_LEN <= PAGE_SIZE;
  r_leaf : is_leaf d = leaf;
  r_link : link d = lk;
  r_slots : Forall2 (holds d f) (get_slot d <$> range (len es)) es
}.

Definition node_ok (d : bytes) : Prop := sealed crc32 d /\ exists f, node_rep d (is_leaf d) (link d) (n_entries (node_of d)) f.

(** ** The specification *)

Definition node_free (n : Node) : N := PAGE_SIZE - len n.(n_entries) * SLOT_LEN - (BODY_START + n.(n_used)).

Definition insert_at {A} (pos : N) (x : A) (l : list A) : list A :=
  take (N.to_nat pos) l ++ x :: drop (N.to_nat pos) l.
Definition remove_at {A} (pos : N) (l : list A) : list A :=
  take (N.to_nat pos) l ++ drop (S (N.to_nat pos)) l.

Definition node_insert (pos : N) (key value : bytes) (n : Node) : option Node :=
  if len n.(n_entries) <? pos then None
  else if node_free n <? entry_stored_len (len key) (len value) then None
  else Some (mkNode n.(n_leaf) n.(n_link) (insert_at pos (key, value) n.(n_entries))
               (n.(n_used) + entry_size (len key) (len value))).

Definition node_remove (pos : N) (n : Node) : option Node :=
  if len n.(n_entries) <=? pos then None
  else Some (mkNode n.(n_leaf) n.(n_link) (remove_at pos n.(n_entries)) n.(n_used)).

(** What it means to implement an outcome of the specification; a refusal leaves the
    page as it was. *)
Definition implements (d : bytes) (spec : option Node) (out : bytes * result Fault unit) : Prop :=
  match spec with
  | Some n => exists d', out = (d', Ok ()) /\ node_ok d' /\ node_of d' = n /\ page_id d' = page_id d /\ page_lsn d' = page_lsn d
  | None => exists e, out = (d, Err (Raised e))
  end.

(** ** Reading a node *)

Ltac index_consts :=
  unfold entry_stored_len, entry_size, is_leaf, link, entry_count in *;
  unfold read_u16_at, IS_LEAF_OFFSET, LINK_OFFSET, BODY_START, SLOT_LEN, META_ROOT_OFFSET in *; page_consts.

Lemma len_entry_bytes e : len (entry_bytes e) = entry_size (len e.1) (len e.2).
Proof. unfold entry_bytes, entry_size. rewrite !len_app, len_le_bytes. lia. Qed.

Lemma read_u16_at_Ok d o : o + 2 <= len d -> read_u16_at d o = Ok (read_u16 d o).
Proof. intros H. unfold read_u16_at. rewrite slice_Ok by lia. replace (o + 2 - o) with 2 by lia. done. Qed.

Lemma write_u16_at_Ok d o v : o + 2 <= len d -> write_u16_at o v d = (write_u16 d o v, Ok ()).
Proof.
  intros H. unfold write_u16_at, writing.
  assert (E : copy_from_slice d o (o + 2) (to_le_bytes 2 v) = Ok (write_u16 d o v)); [|by rewrite E].
  pose proof (copy_from_slice_Ok d o (to_le_bytes 2 v)) as Hc. rewrite len_le_bytes in Hc. by apply Hc.
Qed.

Lemma slot_pos_Ok i : (i + 1) * SLOT_LEN <= PAGE_SIZE -> slot_pos i = Ok (PAGE_SIZE - (i + 1) * SLOT_LEN).
Proof. intros H. unfold slot_pos, checked_sub. by rewrite (proj2 (N.leb_le _ _) H). Qed.

Lemma read_slot_get d i : len d = PAGE_SIZE -> (i + 1) * SLOT_LEN <= PAGE_SIZE -> read_slot d i = Ok (get_slot d i).
Proof.
  intros Hd H. unfold read_slot. rewrite slot_pos_Ok by done. cbn [mbind result_bind].
  assert (4 <= (i + 1) * SLOT_LEN) by (index_consts; lia).
  rewrite !read_u16_at_Ok by (rewrite Hd; index_consts; lia). done.
Qed.

Lemma write_slot_put d i o l :
  len d = PAGE_SIZE -> (i + 1) * SLOT_LEN <= PAGE_SIZE -> write_slot i o l d = (put_slot d i (o, l), Ok ()).
Proof.
  intros Hd H. unfold write_slot. rewrite slot_pos_Ok by done. rewrite lift_bind_Ok.
  assert (4 <= (i + 1) * SLOT_LEN) by (index_consts; lia).
  rewrite (se_bind_Ok _ _ _ _ _ (write_u16_at_Ok d (PAGE_SIZE - (i + 1) * SLOT_LEN) o ltac:(rewrite Hd; index_consts; lia))).
  rewrite write_u16_at_Ok; [done|]. unfold write_u16. rewrite len_write_le; rewrite Hd; index_consts; lia.
Qed.

Lemma same_out_iput d i s :
  (i + 1) * SLOT_LEN <= PAGE_SIZE -> len d = PAGE_SIZE ->
  same_out (PAGE_SIZE - (i + 1) * SLOT_LEN) (PAGE_SIZE - i * SLOT_LEN) d (put_slot d i s).
Proof.
  intros H Hd. unfold put_slot. split; [index_consts; in_array|]. intros o k Ho. index_consts. by read_fields.
Qed.

Lemma get_iput d i s :
  (i + 1) * SLOT_LEN <= PAGE_SIZE -> len d = PAGE_SIZE -> s.1 <= U16_MAX -> s.2 <= U16_MAX -> get_slot (put_slot d i s) i = s.
Proof. intros. destruct s. unfold get_slot, put_slot. index_consts. cbn in *. by read_fields. Qed.

Lemma get_slot_out a b d d' i :
  same_out a b d d' -> PAGE_SIZE - i * SLOT_LEN <= a \/ b <= PAGE_SIZE - (i + 1) * SLOT_LEN ->
  (i + 1) * SLOT_LEN <= PAGE_SIZE -> get_slot d' i = get_slot d i.
Proof.
  intros H Hi Hs. unfold get_slot, read_u16. f_equal; apply (read_le_same a b); try done; index_consts; lia.
Qed.

Lemma get_iput_ne d i j s :
  (i + 1) * SLOT_LEN <= PAGE_SIZE -> (j + 1) * SLOT_LEN <= PAGE_SIZE -> len d = PAGE_SIZE -> i <> j ->
  get_slot (put_slot d i s) j = get_slot d j.
Proof.
  intros. eapply get_slot_out; [by apply same_out_iput| |done]. index_consts. lia.
Qed.

Lemma get_slot_width d i :
  bytes_ok d -> len d = PAGE_SIZE -> (i + 1) * SLOT_LEN <= PAGE_SIZE -> (get_slot d i).1 <= U16_MAX /\ (get_slot d i).2 <= U16_MAX.
Proof.
  intros Hb Hd Hi. assert (4 <= (i + 1) * SLOT_LEN) by (index_consts; lia).
  pose proof (read_le_bound 2 d (PAGE_SIZE - (i + 1) * SLOT_LEN) Hb ltac:(index_consts; lia)).
  pose proof (read_le_bound 2 d (PAGE_SIZE - (i + 1) * SLOT_LEN + 2) Hb ltac:(index_consts; lia)).
  unfold get_slot, read_u16, U16_MAX. cbn [fst snd]. lia.
Qed.

Lemma bytes_ok_iput d i s : bytes_ok d -> bytes_ok (put_slot d i s).
Proof. intros. unfold put_slot, write_u16. auto with saguaro. Qed.

Lemma read_entry_bytes d o l e :
  sub d o l = entry_bytes e -> l = len (entry_bytes e) -> len e.1 <= U16_MAX ->
  read_u16 d o = len e.1 /\ sub d (o + 2) (len e.1) = e.1 /\ sub d (o + 2 + len e.1) (len e.2) = e.2.
Proof.
  intros H Hl Hk. rewrite len_entry_bytes in Hl. unfold entry_size in Hl.
  assert (Hs : forall o' n', o' + n' <= l -> sub d (o + o') n' = sub (entry_bytes e) o' n')
    by (intros; rewrite <- H; by rewrite sub_sub).
  unfold read_u16, read_le. replace o with (o + 0) at 1 by lia. rewrite (Hs 0 (N.of_nat 2)) by lia.
  rewrite Hs by lia. replace (o + 2 + len e.1) with (o + (2 + len e.1)) by lia. rewrite Hs by lia.
  unfold entry_bytes. split_and!.
  - rewrite sub_app_l by (by rewrite len_le_bytes). rewrite sub_all by (by rewrite len_le_bytes).
    apply from_to_le_bytes. unfold U16_MAX in Hk. cbn. lia.
  - rewrite sub_app_r by (by rewrite len_le_bytes). rewrite len_le_bytes. rewrite sub_app_l by lia.
    rewrite sub_all by lia. done.
  - rewrite sub_app_r by (rewrite len_le_bytes; lia). rewrite len_le_bytes. rewrite sub_app_r by lia.
    replace (2 + len e.1 - N.of_nat 2 - len e.1) with 0 by lia. rewrite sub_all by lia. done.
Qed.

Lemma holds_entry_at d f s e : f <= PAGE_SIZE -> holds d f s e -> entry_at d s = e.
Proof.
  intros Hf (H1 & H2 & H3 & H4). destruct e as [k v], s as [o l]. cbn [fst snd] in *.
  destruct (read_entry_bytes d o l (k, v) H4) as (R1 & R2 & R3);
    [by rewrite len_entry_bytes|cbn; index_consts; lia|]. cbn [fst snd] in *.
  unfold entry_at. cbn [fst snd]. rewrite R1, R2. f_equal. subst l. unfold entry_size.
  replace (2 + len k + len v - (2 + len k)) with (len v) by lia. done.
Qed.

Lemma holds_entries d f ss es : f <= PAGE_SIZE -> Forall2 (holds d f) ss es -> entry_at d <$> ss = es.
Proof.
  intros Hf. induction 1 as [|s e ss es He _ IH]; [done|]. rewrite fmap_cons, IH. f_equal. by eapply holds_entry_at.
Qed.

Lemma rep_entries d leaf lk es f : node_rep d leaf lk es f -> n_entries (node_of d) = es.
Proof.
  intros H. unfold node_of. cbn [n_entries]. rewrite (r_count _ _ _ _ _ H), list_fmap_compose.
  pose proof (r_fit _ _ _ _ _ H) as [_ Hf]. apply (holds_entries d f); [lia|]. apply (r_slots _ _ _ _ _ H).
Qed.

Lemma rep_node_of d leaf lk es f : node_rep d leaf lk es f -> node_of d = mkNode leaf lk es (f - BODY_START).
Proof.
  intros H. pose proof (rep_entries _ _ _ _ _ H) as He. unfold node_of in *. cbn [n_entries] in He.
  by rewrite He, (r_free _ _ _ _ _ H), (r_leaf _ _ _ _ _ H), (r_link _ _ _ _ _ H).
Qed.

Lemma rep_node_ok d leaf lk es f : sealed crc32 d -> node_rep d leaf lk es f -> node_ok d.
Proof.
  intros Hs H. split; [done|]. exists f. by rewrite (rep_entries _ _ _ _ _ H), (r_leaf _ _ _ _ _ H), (r_link _ _ _ _ _ H).
Qed.

Lemma rep_slot d leaf lk es f i e :
  node_rep d leaf lk es f -> es !! i = Some e ->
  (N.of_nat i + 1) * SLOT_LEN <= PAGE_SIZE /\ holds d f (get_slot d (N.of_nat i)) e /\ f <= PAGE_SIZE.
Proof.
  intros H Hi. pose proof (lookup_lt_Some _ _ _ Hi) as Hlt. pose proof (r_fit _ _ _ _ _ H) as [F1 F2]. split_and!.
  - unfold len in *. index_consts. lia.
  - pose proof (Forall2_lookup_r _ _ _ _ _ (r_slots _ _ _ _ _ H) Hi) as (s & Hs & Hh).
    rewrite list_lookup_fmap, lookup_range in Hs by (unfold len; lia). by injection Hs as <-.
  - lia.
Qed.

Lemma rep_entry d leaf lk es f i e :
  node_rep d leaf lk es f -> es !! N.to_nat i = Some e -> entry_key d i = Ok e.1 /\ entry_value d i = Ok e.2.
Proof.
  intros H Hi. destruct (rep_slot _ _ _ _ _ _ _ H Hi) as (Hp & Hh & Hf). rewrite N2Nat.id in *.
  pose proof (r_len _ _ _ _ _ H) as Hl. unfold entry_key, entry_value. rewrite read_slot_get by done. cbn [mbind result_bind].
  destruct (get_slot d i) as [o l]. destruct e as [k v]. destruct Hh as (H1 & H2 & H3 & H4). cbn [fst snd] in *.
  destruct (read_entry_bytes d o l (k, v) H4) as (R1 & R2 & R3);
    [by rewrite len_entry_bytes|cbn; index_consts; lia|]. cbn [fst snd] in *. unfold entry_size in H2.
  rewrite read_u16_at_Ok by lia. rewrite R1. cbn [mbind result_bind].
  rewrite !slice_Ok by lia. split.
  - by replace (o + 2 + len k - (o + 2)) with (len k) by lia; rewrite R2.
  - by replace (o + l - (o + 2 + len k)) with (len v) by lia; rewrite R3.
Qed.

Lemma rep_free d leaf lk es f :
  node_rep d leaf lk es f -> free_bytes d = Ok (node_free (node_of d)).
Proof.
  intros H. pose proof (r_fit _ _ _ _ _ H) as [F1 F2]. unfold free_bytes, checked_sub, node_free.
  rewrite (rep_node_of _ _ _ _ _ H). cbn [n_entries n_used]. rewrite (r_count _ _ _ _ _ H), (r_free _ _ _ _ _ H).
  rewrite (proj2 (N.leb_le (len es * SLOT_LEN) PAGE_SIZE)) by lia. cbn [ok_or mbind result_bind]. f_equal. lia.
Qed.

Lemma rep_has_space d leaf lk es f kl vl :
  node_rep d leaf lk es f -> has_space d kl vl = Ok (entry_stored_len kl vl <=? node_free (node_of d)).
Proof. intros H. unfold has_space. by rewrite (rep_free _ _ _ _ _ H). Qed.

(** ** Moving slots *)

Lemma move_slot d i j :
  len d = PAGE_SIZE -> (i + 1) * SLOT_LEN <= PAGE_SIZE -> (j + 1) * SLOT_LEN <= PAGE_SIZE ->
  ('(o, l) ← (fun d => (d, read_slot d i)); write_slot j o l) d = (put_slot d j (get_slot d i), Ok ()).
Proof.
  intros Hd Hi Hj. unfold mbind, se_bind. rewrite read_slot_get by done. destruct (get_slot d i) as [o l].
  by apply write_slot_put.
Qed.

(** Decides the comparisons of a goal about slot numbers. *)
Ltac cases_N :=
  repeat (match goal with
    | |- context [?a <? ?b] => destruct (N.ltb_spec a b)
    | |- context [?a <=? ?b] => destruct (N.leb_spec a b)
    | |- context [?a =? ?b] => destruct (N.eqb_spec a b)
    end; cbn [andb orb negb]); lia.

(** What a loop over the slots below [n] leaves. *)
Record moved (d d' : bytes) (n : N) (f : N -> N) : Prop := {
  m_bytes : bytes_ok d';
  m_out : same_out (PAGE_SIZE - n * SLOT_LEN) PAGE_SIZE d d';
  m_slots : forall j, j < n -> get_slot d' j = get_slot d (f j)
}.

(** One more move keeps everything but its target. *)
Lemma moved_step d d' n f i j :
  len d = PAGE_SIZE -> n * SLOT_LEN <= PAGE_SIZE -> moved d d' n f -> i < n -> j < n ->
  moved d (put_slot d' j (get_slot d' i)) n (fun k => if k =? j then f i else f k).
Proof.
  intros Hd Hn [Hb Ho Hs] Hi Hj.
  assert (Hfit : forall k, k < n -> (k + 1) * SLOT_LEN <= PAGE_SIZE) by (intros; index_consts; lia).
  assert (Hd' : len d' = PAGE_SIZE) by (rewrite <- Hd; apply Ho).
  destruct (get_slot_width d' i Hb Hd' (Hfit i Hi)) as [W1 W2]. constructor.
  - by apply bytes_ok_iput.
  - eapply same_out_trans; [exact Ho|]. eapply same_out_mono; [| |by apply same_out_iput; auto]; index_consts; lia.
  - intros k Hk. destruct (N.eqb_spec k j) as [->|Hne]; [rewrite get_iput by auto; by apply Hs|].
    rewrite get_iput_ne by auto. by apply Hs.
Qed.

Lemma moved_refl d n : bytes_ok d -> moved d d n id.
Proof. intros. by split. Qed.

Lemma moved_trans d1 d2 d3 n f g :
  moved d1 d2 n f -> moved d2 d3 n g -> (forall j, j < n -> g j < n) -> moved d1 d3 n (fun j => f (g j)).
Proof.
  intros [B1 O1 S1] [B2 O2 S2] Hg. constructor; [done|by eapply same_out_trans|].
  intros j Hj. rewrite S2 by done. apply S1. by apply Hg.
Qed.

Lemma moved_ext d d' n f g : moved d d' n f -> (forall j, j < n -> f j = g j) -> moved d d' n g.
Proof. intros [B O S] H. constructor; [done..|]. intros j Hj. rewrite S, H by done. done. Qed.

Lemma moved_len d d' n f : moved d d' n f -> len d = PAGE_SIZE -> len d' = PAGE_SIZE.
Proof. intros [_ [H _] _] <-. done. Qed.

Lemma shift_up_ok pos n m : forall d,
  len d = PAGE_SIZE -> bytes_ok d -> m <= n -> (n + 1) * SLOT_LEN <= PAGE_SIZE ->
  exists d', shift_up pos m d = (d', Ok ()) /\
    moved d d' (n + 1) (fun j => if (pos <? j) && (j <=? m) then j - 1 else j).
Proof.
  unfold shift_up. induction m as [|m IH] using N.peano_ind; intros d Hd Hb Hm Hn.
  { exists d. split; [change (range 0) with (@nil N); by rewrite drop_nil|]. eapply moved_ext; [by apply moved_refl|]. intros j Hj. unfold id. cases_N. }
  rewrite <- N.add_1_r, range_S. destruct (N.le_gt_cases pos m) as [Hp|Hp].
  - rewrite drop_app_le by (rewrite length_range; lia). rewrite reverse_snoc. cbn [for_each].
    unfold mbind at 1, se_bind at 1.
    assert (Hfit : forall k, k < n + 1 -> (k + 1) * SLOT_LEN <= PAGE_SIZE) by (intros; index_consts; lia).
    rewrite move_slot by (apply Hfit || done; lia).
    pose proof (moved_step d d (n + 1) id m (m + 1) Hd Hn (moved_refl d (n + 1) Hb) ltac:(lia) ltac:(lia)) as Hs.
    destruct (IH (put_slot d (m + 1) (get_slot d m))) as (d' & -> & Hd'); [by eapply moved_len|apply Hs|lia|done|].
    exists d'. split; [done|]. eapply moved_ext; [eapply moved_trans; [exact Hs|exact Hd'|]|]; intros j Hj; cbn beta; unfold id.
    + cases_N.
    + cases_N.
  - rewrite (drop_ge (range m ++ [m])) by (rewrite length_app, length_range; cbn; lia).
    exists d. split; [done|]. eapply moved_ext; [by apply moved_refl|]. intros j Hj. unfold id. cases_N.
Qed.

Lemma shift_down_ok pos n m d :
  len d = PAGE_SIZE -> bytes_ok d -> m <= n -> n * SLOT_LEN <= PAGE_SIZE ->
  exists d', shift_down pos m d = (d', Ok ()) /\
    moved d d' n (fun j => if (pos <=? j) && (j + 1 <? m) then j + 1 else j).
Proof.
  unfold shift_down. intros Hd Hb. induction m as [|m IH] using N.peano_ind; intros Hm Hn.
  { exists d. split; [change (range 0) with (@nil N); by rewrite drop_nil|]. eapply moved_ext; [by apply moved_refl|]. intros j Hj. unfold id. cases_N. }
  rewrite <- N.add_1_r, range_S. destruct (N.le_gt_cases (pos + 1) m) as [Hp|Hp].
  - rewrite drop_app_le by (rewrite length_range; lia). rewrite for_each_app.
    destruct IH as (d1 & E1 & H1); [lia|done|]. rewrite (se_bind_Ok _ _ _ _ _ E1), for_each_one.
    assert (Hfit : forall k, k < n -> (k + 1) * SLOT_LEN <= PAGE_SIZE) by (intros; index_consts; lia).
    pose proof (moved_len _ _ _ _ H1 Hd) as Hd1. rewrite move_slot by (apply Hfit || done; lia).
    eexists. split; [reflexivity|].
    eapply moved_ext; [apply (moved_step _ _ _ _ m (m - 1) Hd Hn H1); lia|]. intros j Hj. cbn beta.
    cases_N.
  - rewrite (drop_ge (range m ++ [m])) by (rewrite length_app, length_range; cbn; lia).
    exists d. split; [done|]. eapply moved_ext; [by apply moved_refl|]. intros j Hj. unfold id. cases_N.
Qed.

(** ** Changing a node *)

(** A node whose bytes below [f], from [BODY_START] on, are kept holds its entries still. *)
Lemma holds_same d d' f f' s e :
  (forall o k, BODY_START <= o -> o + k <= f -> sub d' o k = sub d o k) -> f <= f' -> holds d f s e -> holds d' f' s e.
Proof. intros H Hf (H1 & H2 & H3 & H4). split_and!; [done|done|lia|]. by rewrite H. Qed.

Lemma slots_of_moved d d' n (f : N -> N) :
  (forall j, j < n -> get_slot d' j = get_slot d (f j)) -> get_slot d' <$> range n = get_slot d ∘ f <$> range n.
Proof. intros H. apply list_fmap_ext. intros i x Hx. apply H. by apply list_elem_of_lookup_2, elem_of_range in Hx. Qed.

Lemma fmap_range_insert {A} (g : N -> A) x pos n :
  pos <= n ->
  (fun j => if j =? pos then x else if pos <? j then g (j - 1) else g j) <$> range (n + 1) = insert_at pos x (g <$> range n).
Proof.
  intros Hp. unfold insert_at. apply list_eq. intros i. rewrite list_lookup_fmap.
  destruct (Nat.lt_ge_cases i (N.to_nat (n + 1))) as [Hi|Hi].
  2:{ rewrite !lookup_ge_None_2; try done; [|rewrite length_range; lia].
      rewrite length_app. cbn. rewrite length_take, length_drop, length_fmap, length_range. lia. }
  rewrite lookup_range by done. cbn [fmap option_fmap option_map]. symmetry.
  destruct (Nat.lt_trichotomy i (N.to_nat pos)) as [Hl|[->|Hg]].
  - rewrite lookup_app_l by (rewrite length_take, length_fmap, length_range; lia). rewrite lookup_take_lt by lia.
    rewrite list_lookup_fmap, lookup_range by lia. cbn. f_equal.
    destruct (N.eqb_spec (N.of_nat i) pos); [lia|]. destruct (N.ltb_spec pos (N.of_nat i)); [lia|done].
  - rewrite lookup_app_r by (rewrite length_take, length_fmap, length_range; lia).
    rewrite length_take, length_fmap, length_range. replace (_ - _)%nat with 0%nat by lia. cbn.
    by rewrite N2Nat.id, N.eqb_refl.
  - rewrite lookup_app_r by (rewrite length_take, length_fmap, length_range; lia).
    rewrite length_take, length_fmap, length_range. replace (i - _)%nat with (S (i - N.to_nat pos - 1)) by lia. rewrite lookup_cons.
    rewrite lookup_drop, list_lookup_fmap, lookup_range by lia. cbn. f_equal.
    destruct (N.eqb_spec (N.of_nat i) pos); [lia|]. destruct (N.ltb_spec pos (N.of_nat i)); [|lia]. f_equal. lia.
Qed.

Lemma fmap_range_remove {A} (g : N -> A) pos n :
  pos < n ->
  (fun j => if pos <=? j then g (j + 1) else g j) <$> range (n - 1) = remove_at pos (g <$> range n).
Proof.
  intros Hp. unfold remove_at. apply list_eq. intros i. rewrite list_lookup_fmap.
  destruct (Nat.lt_ge_cases i (N.to_nat (n - 1))) as [Hi|Hi].
  2:{ rewrite !lookup_ge_None_2; try done; [|rewrite length_range; lia].
      rewrite length_app, length_take, length_drop, length_fmap, length_range. lia. }
  rewrite lookup_range by done. cbn [fmap option_fmap option_map]. symmetry.
  destruct (Nat.lt_ge_cases i (N.to_nat pos)) as [Hl|Hg].
  - rewrite lookup_app_l by (rewrite length_take, length_fmap, length_range; lia). rewrite lookup_take_lt by lia.
    rewrite list_lookup_fmap, lookup_range by lia. cbn. destruct (N.leb_spec pos (N.of_nat i)); [lia|done].
  - rewrite lookup_app_r by (rewrite length_take, length_fmap, length_range; lia).
    rewrite lookup_drop, length_take, length_fmap, length_range, list_lookup_fmap, lookup_range by lia. cbn.
    destruct (N.leb_spec pos (N.of_nat i)); [|lia]. do 2 f_equal. lia.
Qed.

Lemma len_insert_at {A} pos (x : A) l : pos <= len l -> len (insert_at pos x l) = len l + 1.
Proof. intros H. unfold insert_at. rewrite len_app, len_take, len_cons, len_drop. lia. Qed.

Lemma len_remove_at {A} pos (l : list A) : pos < len l -> len (remove_at pos l) = len l - 1.
Proof.
  intros H. unfold remove_at. rewrite len_app, len_take. replace (S (N.to_nat pos)) with (N.to_nat (pos + 1)) by lia.
  rewrite len_drop. lia.
Qed.

Section Crc.
Context (Hcrc : crc_fits crc32).

(** Setting the number of entries, the end of the entries and the checksum. *)
Lemma rep_finish d d0 leaf lk es0 f0 es f :
  node_rep d0 leaf lk es0 f0 -> same_out f0 PAGE_SIZE d0 d -> bytes_ok d ->
  f0 <= f -> f + len es * SLOT_LEN <= PAGE_SIZE ->
  Forall2 (holds d f) (get_slot d <$> range (len es)) es ->
  let d' := write_checksum crc32 (write_u16 (write_u16 d NUM_SLOTS_OFFSET (len es)) FREE_SPACE_OFFSET f) in
  sealed crc32 d' /\ node_rep d' leaf lk es f /\ page_id d' = page_id d0 /\ page_lsn d' = page_lsn d0.
Proof.
  intros R Ho Hb Hf Hfit Hs d'. pose proof (r_len _ _ _ _ _ R) as Hl0. pose proof (r_fit _ _ _ _ _ R) as [F1 F2].
  assert (Hl : len d = PAGE_SIZE) by (rewrite <- Hl0; apply Ho).
  set (d1 := write_u16 d NUM_SLOTS_OFFSET (len es)) in *. set (d2 := write_u16 d1 FREE_SPACE_OFFSET f) in *.
  assert (Hl1 : len d1 = PAGE_SIZE) by (unfold d1; page_consts; rewrite <- Hl; in_array).
  assert (Hl2 : len d2 = PAGE_SIZE) by (unfold d2; page_consts; rewrite <- Hl1; in_array).
  assert (Hl' : len d' = PAGE_SIZE) by (unfold d', write_checksum; page_consts; rewrite <- Hl2; in_array).
  assert (Hhead : forall k o, o + N.of_nat k <= 6 \/ (10 <= o /\ o + N.of_nat k <= 18) \/ (22 <= o /\ o + N.of_nat k <= BODY_START) ->
    read_le k d' o = read_le k d0 o).
  { intros k o Hk. unfold d', write_checksum, d2, d1. page_consts. read_fields.
    eapply read_le_same; [exact Ho|]. index_consts. lia. }
  assert (Hbody : forall o k, BODY_START <= o -> sub d' o k = sub d o k).
  { intros o k Hk. unfold d', write_checksum, d2, d1. index_consts. by read_fields. }
  assert (Hn : entry_count d' = len es).
  { unfold d', write_checksum, d2, d1. index_consts. by read_fields. }
  assert (Hfr : read_u16 d' FREE_SPACE_OFFSET = f).
  { unfold d', write_checksum, d2. index_consts. by read_fields. }
  split_and!; [by apply sealed_write_checksum| |apply Hhead; page_consts; lia|apply Hhead; page_consts; lia]. constructor; try done.
  - unfold d', write_checksum, d2, d1. page_consts. auto with saguaro.
  - unfold byte_at. rewrite Hhead by (page_consts; lia). apply R.
  - unfold byte_at. rewrite Hhead by (page_consts; lia). apply R.
  - split; [lia|done].
  - unfold is_leaf, byte_at. rewrite Hhead by (index_consts; lia). apply R.
  - unfold link, read_u32. rewrite Hhead by (index_consts; lia). apply R.
  - assert (E : get_slot d' <$> range (len es) = get_slot d <$> range (len es)).
    { apply (slots_of_moved d d' (len es) id). intros j Hj. unfold get_slot, read_u16, read_le. rewrite !Hbody by (index_consts; lia). done. }
    rewrite E. eapply Forall2_impl; [exact Hs|]. intros s e He. eapply (holds_same d d' f f); [|lia|exact He]. intros. by apply Hbody.
Qed.

(** The three writes of an entry are one. *)
Lemma store_entry {B} d f key value (m : SE bytes Fault B) :
  f + entry_size (len key) (len value) <= len d ->
  (_ ← write_u16_at f (len key);
   _ ← writing (fun d => copy_from_slice d (f + 2) (f + 2 + len key) key);
   _ ← writing (fun d => copy_from_slice d (f + 2 + len key) (f + entry_size (len key) (len value)) value);
   m) d = m (blit d f (entry_bytes (key, value))).
Proof.
  intros H. unfold entry_size in *.
  rewrite (se_bind_Ok _ _ _ _ _ (write_u16_at_Ok d f (len key) ltac:(lia))). set (d1 := write_u16 d f (len key)).
  assert (Hd1 : len d1 = len d) by (unfold d1, write_u16; rewrite len_write_le; lia).
  assert (E2 : copy_from_slice d1 (f + 2) (f + 2 + len key) key = Ok (blit d1 (f + 2) key)) by (apply copy_from_slice_Ok; lia).
  assert (Hd2 : len (blit d1 (f + 2) key) = len d) by (rewrite len_blit; lia).
  assert (E3 : copy_from_slice (blit d1 (f + 2) key) (f + 2 + len key) (f + (2 + len key + len value)) value
    = Ok (blit (blit d1 (f + 2) key) (f + 2 + len key) value)).
  { replace (f + (2 + len key + len value)) with (f + 2 + len key + len value) by lia. apply copy_from_slice_Ok. lia. }
  unfold mbind at 1, se_bind at 1, writing at 1. rewrite E2. unfold mbind at 1, se_bind at 1, writing at 1. rewrite E3. f_equal.
  unfold d1, write_u16, write_le, entry_bytes. cbn [fst snd]. rewrite (app_assoc (to_le_bytes 2 (len key))).
  rewrite <- (blit_app d f (to_le_bytes 2 (len key) ++ key) value) by lia.
  rewrite <- (blit_app d f (to_le_bytes 2 (len key)) key) by lia. rewrite len_app, len_le_bytes. f_equal. lia.
Qed.

Lemma insert_entry_ok d leaf lk es f pos key value :
  node_rep d leaf lk es f -> bytes_ok key -> bytes_ok value ->
  implements d (node_insert pos key value (node_of d)) (insert_entry pos key value d).
Proof.
  intros R Hbk Hbv. pose proof (r_len _ _ _ _ _ R) as Hd. pose proof (r_fit _ _ _ _ _ R) as [F1 F2].
  unfold insert_entry, node_insert. rewrite gets_bind, (r_count _ _ _ _ _ R).
  rewrite (rep_node_of _ _ _ _ _ R). cbn [n_entries n_used n_leaf n_link].
  destruct (N.ltb_spec (len es) pos) as [Hp|Hp]; [by eexists|].
  unfold mbind at 1, se_bind at 1. rewrite (rep_has_space _ _ _ _ _ _ _ R), (rep_node_of _ _ _ _ _ R).
  set (n := mkNode leaf lk es (f - BODY_START)). rewrite (N.leb_antisym (node_free n)), negb_involutive.
  destruct (N.ltb_spec (node_free n) (entry_stored_len (len key) (len value))) as [Hsp|Hsp]; [by eexists|].
  unfold node_free in Hsp. cbn [n n_entries n_used] in Hsp. clear n.
  set (size := entry_size (len key) (len value)) in *.
  assert (Hfit : f + size + (len es + 1) * SLOT_LEN <= PAGE_SIZE) by (unfold size in *; index_consts; lia).
  rewrite gets_bind, (r_free _ _ _ _ _ R). unfold size at 1. rewrite (store_entry d f key value) by (unfold size in *; index_consts; lia).
  set (db := blit d f (entry_bytes (key, value))).
  assert (Hlb : len (entry_bytes (key, value)) = size) by (by rewrite len_entry_bytes).
  assert (Ob : same_out f (f + size) d db) by (rewrite <- Hlb; apply same_out_blit; rewrite Hlb; unfold size in *; index_consts; lia).
  assert (Hdb : len db = PAGE_SIZE) by (rewrite <- Hd; apply Ob).
  assert (Bb : bytes_ok db).
  { apply bytes_ok_blit; [apply R|]. unfold entry_bytes, bytes_ok. rewrite !Forall_app. split_and!; [apply to_le_bytes_ok|done|done]. }
  destruct (shift_up_ok pos (len es) (len es) db Hdb Bb) as (ds & Es & Ms); [lia|unfold size in *; index_consts; lia|].
  rewrite (se_bind_Ok _ _ _ _ _ Es). pose proof (moved_len _ _ _ _ Ms Hdb) as Hds.
  assert (Hpf : (pos + 1) * SLOT_LEN <= PAGE_SIZE) by (unfold size in *; index_consts; lia).
  rewrite (se_bind_Ok _ _ _ _ _ (write_slot_put ds pos f size Hds Hpf)). set (dp := put_slot ds pos (f, size)).
  unfold mbind, se_bind, modify. cbn [fst snd].
  assert (Op : same_out (f + size) PAGE_SIZE db dp).
  { eapply same_out_trans; [eapply same_out_mono; [| |apply Ms]; unfold size in *; index_consts; lia|].
    eapply same_out_mono; [| |by apply same_out_iput]; unfold size in *; index_consts; lia. }
  assert (Hslots : get_slot dp <$> range (len es + 1) = insert_at pos (f, size) (get_slot d <$> range (len es))).
  { rewrite <- fmap_range_insert by done. apply list_fmap_ext. intros i x Hx. apply list_elem_of_lookup_2, elem_of_range in Hx.
    assert (Hxf : (x + 1) * SLOT_LEN <= PAGE_SIZE) by (index_consts; lia).
    destruct (N.eqb_spec x pos) as [->|Hne]; [unfold dp; rewrite get_iput; try done; cbn; unfold size in *; index_consts; lia|].
    unfold dp. rewrite get_iput_ne by done. rewrite (m_slots _ _ _ _ Ms) by done.
    assert (Hg : forall y, y < len es -> get_slot db y = get_slot d y)
      by (intros; eapply get_slot_out; [exact Ob|right|]; unfold size in *; index_consts; lia).
    destruct (N.ltb_spec pos x), (N.leb_spec x (len es)); cbn [andb]; (apply Hg || exfalso); lia. }
  destruct (rep_finish dp d leaf lk es f (insert_at pos (key, value) es) (f + size) R) as (Hseal & R' & Hid & Hlsn).
  - eapply same_out_trans; (eapply same_out_mono; [| |done]; unfold size in *; index_consts; lia).
  - apply bytes_ok_iput, Ms.
  - lia.
  - rewrite len_insert_at by done. lia.
  - rewrite len_insert_at by done. rewrite Hslots. unfold insert_at.
    assert (Hold : Forall2 (holds dp (f + size)) (get_slot d <$> range (len es)) es).
    { eapply Forall2_impl; [apply R|]. intros s e He. apply (holds_same d dp f (f + size)); [|lia|exact He]. intros o k Ho Hk.
      rewrite (proj2 Op) by lia. apply Ob. lia. }
    apply Forall2_app; [by apply Forall2_take|]. constructor; [|by apply Forall2_drop].
    split_and!; cbn [fst snd]; [done|done|lia|]. rewrite (proj2 Op) by lia. unfold db. rewrite <- Hlb.
    apply sub_blit_same. rewrite Hlb. unfold size in *; index_consts; lia.
  - eexists. split; [|split_and!; [by eapply rep_node_ok| |exact Hid|exact Hlsn]].
    + rewrite len_insert_at by done. reflexivity.
    + rewrite (rep_node_of _ _ _ _ _ R'). f_equal. unfold size. lia.
Qed.

Lemma remove_entry_ok d leaf lk es f pos :
  node_rep d leaf lk es f -> implements d (node_remove pos (node_of d)) (remove_entry pos d).
Proof.
  intros R. pose proof (r_len _ _ _ _ _ R) as Hd. pose proof (r_fit _ _ _ _ _ R) as [F1 F2].
  unfold remove_entry, node_remove. rewrite gets_bind, (r_count _ _ _ _ _ R).
  rewrite (rep_node_of _ _ _ _ _ R). cbn [n_entries n_used n_leaf n_link].
  destruct (N.leb_spec (len es) pos) as [Hp|Hp]; [by eexists|].
  destruct (shift_down_ok pos (len es) (len es) d Hd) as (ds & Es & Ms); [apply R|lia|index_consts; lia|].
  rewrite (se_bind_Ok _ _ _ _ _ Es). unfold mbind, se_bind, modify. cbn [fst snd].
  pose proof (moved_len _ _ _ _ Ms Hd) as Hds.
  assert (Hslots : get_slot ds <$> range (len es - 1) = remove_at pos (get_slot d <$> range (len es))).
  { rewrite <- fmap_range_remove by done. apply list_fmap_ext. intros i x Hx. apply list_elem_of_lookup_2, elem_of_range in Hx.
    rewrite (m_slots _ _ _ _ Ms) by lia. destruct (N.leb_spec pos x), (N.ltb_spec (x + 1) (len es)); cbn [andb]; done || lia. }
  assert (Ef : read_u16 ds FREE_SPACE_OFFSET = f).
  { rewrite <- (r_free _ _ _ _ _ R). eapply read_le_same; [apply Ms|]. index_consts. lia. }
  destruct (rep_finish ds d leaf lk es f (remove_at pos es) f R) as (Hseal & R' & Hid & Hlsn).
  - eapply same_out_mono; [| |apply Ms]; lia.
  - apply Ms.
  - lia.
  - rewrite len_remove_at by done. index_consts; lia.
  - rewrite len_remove_at by done. rewrite Hslots. unfold remove_at.
    assert (Hold : Forall2 (holds ds f) (get_slot d <$> range (len es)) es).
    { eapply Forall2_impl; [apply R|]. intros s e He. apply (holds_same d ds f f); [|lia|exact He]. intros o k Ho Hk.
      apply (m_out _ _ _ _ Ms). lia. }
    apply Forall2_app; [by apply Forall2_take|by apply Forall2_drop].
  - (* the code leaves the end of the entries as it is *)
    assert (Ew : write_u16 (write_u16 ds NUM_SLOTS_OFFSET (len es - 1)) FREE_SPACE_OFFSET f = write_u16 ds NUM_SLOTS_OFFSET (len es - 1)).
    { rewrite <- Ef at 1. unfold read_u16, write_u16.
      rewrite <- (read_write_le_ne 2 2 ds NUM_SLOTS_OFFSET (len es - 1) FREE_SPACE_OFFSET) by (rewrite ?Hds; page_consts; lia).
      apply write_read_le; [apply bytes_ok_write_le, Ms|]. rewrite len_write_le; rewrite Hds; page_consts; lia. }
    rewrite len_remove_at, Ew in * by done.
    eexists. split; [reflexivity|split_and!; [by eapply rep_node_ok| |exact Hid|exact Hlsn]].
    by rewrite (rep_node_of _ _ _ _ _ R').
Qed.

(** A change between the page-LSN and the body keeps the entries. *)
Lemma rep_header d d' leaf lk es f :
  node_rep d leaf lk es f -> same_out PAGE_LSN_OFFSET BODY_START d d' -> bytes_ok d' ->
  node_rep d' (is_leaf d') (link d') es f.
Proof.
  intros R Ho Hb. pose proof (r_len _ _ _ _ _ R) as Hd. pose proof (r_fit _ _ _ _ _ R) as [F1 F2].
  assert (Hr : forall k o, o + N.of_nat k <= PAGE_LSN_OFFSET -> read_le k d' o = read_le k d o)
    by (intros; eapply read_le_same; [done|by left]).
  constructor; try done.
  - rewrite <- Hd. apply Ho.
  - unfold byte_at. rewrite Hr by (page_consts; lia). apply R.
  - unfold byte_at. rewrite Hr by (page_consts; lia). apply R.
  - unfold entry_count, read_u16. rewrite Hr by (page_consts; lia). apply R.
  - unfold read_u16. rewrite Hr by (page_consts; lia). apply R.
  - assert (E : get_slot d' <$> range (len es) = get_slot d <$> range (len es)).
    { apply (slots_of_moved d d' (len es) id). intros j Hj. change (id j) with j. eapply get_slot_out; [done|right|]; index_consts; lia. }
    rewrite E. eapply Forall2_impl; [apply R|]. intros s e He. apply (holds_same d d' f f); [|lia|exact He].
    intros o k Ho' Hk. apply Ho. by right.
Qed.

Lemma set_page_lsn_node d l :
  node_ok d -> node_ok (set_page_lsn crc32 d l) /\ node_of (set_page_lsn crc32 d l) = node_of d /\
  page_id (set_page_lsn crc32 d l) = page_id d.
Proof.
  intros (_ & f & R). pose proof (r_len _ _ _ _ _ R) as Hd. set (d' := set_page_lsn crc32 d l).
  assert (Hw : len (write_u64 d PAGE_LSN_OFFSET l) = PAGE_SIZE)
    by (unfold write_u64; rewrite len_write_le; [done|page_consts; lia]).
  assert (Ho : same_out PAGE_LSN_OFFSET HEADER_LEN d d').
  { eapply same_out_trans.
    - eapply same_out_mono; [| |apply (same_out_write_le 8 d PAGE_LSN_OFFSET l)]; page_consts; lia.
    - eapply same_out_mono; [| |by apply same_out_checksum]; page_consts; lia. }
  assert (R' : node_rep d' (is_leaf d') (link d') (n_entries (node_of d)) f).
  { eapply rep_header; [exact R|eapply same_out_mono; [| |exact Ho]; index_consts; lia|].
    unfold d', set_page_lsn, write_checksum, write_u32, write_u64. pose proof (r_bytes _ _ _ _ _ R). auto with saguaro. }
  assert (El : is_leaf d' = is_leaf d).
  { unfold is_leaf, byte_at. by rewrite (read_le_same _ _ _ _ 1 IS_LEAF_OFFSET Ho) by (index_consts; lia). }
  assert (Ek : link d' = link d) by (eapply read_le_same; [exact Ho|index_consts; lia]).
  split_and!.
  - eapply rep_node_ok; [by apply sealed_write_checksum|exact R'].
  - by rewrite (rep_node_of _ _ _ _ _ R'), (rep_node_of _ _ _ _ _ R), El, Ek.
  - eapply read_le_same; [exact Ho|page_consts; lia].
Qed.

Lemma set_link_node d p :
  node_ok d -> p <= U32_MAX ->
  node_ok (set_link d p) /\
  node_of (set_link d p) = mkNode (n_leaf (node_of d)) p (n_entries (node_of d)) (n_used (node_of d)) /\
  page_id (set_link d p) = page_id d.
Proof.
  intros (_ & f & R) Hp. pose proof (r_len _ _ _ _ _ R) as Hd. set (d' := set_link d p).
  assert (Hw : len (write_u32 d LINK_OFFSET p) = PAGE_SIZE)
    by (unfold write_u32; rewrite len_write_le; [done|index_consts; lia]).
  assert (Ho : same_out CHECKSUM_OFFSET BODY_START d d').
  { eapply same_out_trans.
    - eapply same_out_mono; [| |apply (same_out_write_le 4 d LINK_OFFSET p)]; index_consts; lia.
    - eapply same_out_mono; [| |by apply same_out_checksum]; index_consts; lia. }
  assert (R' : node_rep d' (is_leaf d') (link d') (n_entries (node_of d)) f).
  { eapply rep_header; [exact R|eapply same_out_mono; [| |exact Ho]; index_consts; lia|].
    unfold d', set_link, write_checksum, write_u32. pose proof (r_bytes _ _ _ _ _ R). auto with saguaro. }
  assert (El : is_leaf d' = is_leaf d).
  { unfold is_leaf, byte_at, d', set_link, write_checksum. index_consts. by read_fields. }
  assert (Ek : link d' = p) by (unfold d', set_link, write_checksum; index_consts; by read_fields).
  split_and!.
  - eapply rep_node_ok; [by apply sealed_write_checksum|exact R'].
  - by rewrite (rep_node_of _ _ _ _ _ R'), (rep_node_of _ _ _ _ _ R), El, Ek.
  - eapply read_le_same; [exact Ho|page_consts; lia].
Qed.

Lemma init_node pid leaf :
  pid <= U32_MAX -> node_ok (init pid leaf) /\ node_of (init pid leaf) = mkNode leaf 0 [] 0 /\ page_id (init pid leaf) = pid.
Proof.
  intros Hp. pose proof len_zeroed as Hz.
  assert (Hb : bytes_ok zeroed) by (apply Forall_replicate; unfold is_byte; lia).
  assert (R : node_rep (init pid leaf) leaf 0 [] BODY_START).
  { unfold init, write_checksum. set (d0 := zeroed) in *. clearbody d0.
    constructor; try done; cbn [len length N.of_nat] in *; index_consts;
      first [in_array | by auto 10 with saguaro | by read_fields | destruct leaf; by read_fields]. }
  split_and!.
  - eapply rep_node_ok; [|exact R]. unfold init. apply sealed_write_checksum; [done|]. index_consts. in_array.
  - by rewrite (rep_node_of _ _ _ _ _ R).
  - unfold page_id, init, write_checksum. index_consts. by read_fields.
Qed.

Lemma node_link_bound d : node_ok d -> n_link (node_of d) <= U32_MAX.
Proof.
  intros (_ & f & R). cbn. unfold link, read_u32.
  pose proof (read_le_bound 4 d LINK_OFFSET (r_bytes _ _ _ _ _ R)) as H. rewrite (r_len _ _ _ _ _ R) in H.
  specialize (H ltac:(index_consts; lia)). unfold U32_MAX. cbn in H. lia.
Qed.

Lemma node_entries_bytes d : node_ok d -> Forall (fun e => bytes_ok e.1 /\ bytes_ok e.2) (n_entries (node_of d)).
Proof.
  intros (_ & f & R). cbn. apply Forall_fmap, Forall_forall. intros i _. unfold entry_at. cbn.
  pose proof (r_bytes _ _ _ _ _ R). split; by apply bytes_ok_sub.
Qed.

(** ** The metapage *)

Definition meta_ok (d : bytes) : Prop := sealed crc32 d /\ len d = PAGE_SIZE /\ bytes_ok d.

Lemma meta_init_ok pid root : root <= U32_MAX -> meta_ok (meta_init pid root) /\ meta_root (meta_init pid root) = root.
Proof.
  intros Hp. pose proof len_zeroed as Hz.
  assert (Hb : bytes_ok zeroed) by (apply Forall_replicate; unfold is_byte; lia).
  unfold meta_ok, meta_init, meta_root. split_and!.
  - apply sealed_write_checksum; [done|]. index_consts. in_array.
  - unfold write_checksum. index_consts. in_array.
  - unfold write_checksum. index_consts. auto 10 with saguaro.
  - unfold write_checksum. index_consts. by read_fields.
Qed.

Lemma meta_set_root_ok d root : meta_ok d -> root <= U32_MAX -> meta_ok (meta_set_root d root) /\ meta_root (meta_set_root d root) = root.
Proof.
  intros (_ & Hd & Hb) Hp. unfold meta_ok, meta_set_root, meta_root. split_and!.
  - apply sealed_write_checksum; [done|]. index_consts. in_array.
  - unfold write_checksum. index_consts. in_array.
  - unfold write_checksum. index_consts. auto 10 with saguaro.
  - unfold write_checksum. index_consts. by read_fields.
Qed.

Lemma set_page_lsn_meta d l : meta_ok d -> meta_ok (set_page_lsn crc32 d l) /\ meta_root (set_page_lsn crc32 d l) = meta_root d.
Proof.
  intros (_ & Hd & Hb). unfold meta_ok, set_page_lsn, meta_root. split_and!.
  - apply sealed_write_checksum; [done|]. index_consts. in_array.
  - unfold write_checksum. index_consts. in_array.
  - unfold write_checksum. index_consts. auto 10 with saguaro.
  - unfold write_checksum. index_consts. by read_fields.
Qed.

(** C25: on a well-formed node page the bytes-level operations implement the list
    operations: an entry goes in at its position, or is refused and the page is left
    alone, exactly when the position is past the end or the node has no room for the entry and its slot;
    removal takes out the entry at its position; and reading an entry gives it back.
    Flag, link, page number and page-LSN are kept, and nothing panics. *)
Theorem node_page_refines d pos key value :
  node_ok d -> bytes_ok key -> bytes_ok value ->
  implements d (node_insert pos key value (node_of d)) (insert_entry pos key value d) /\
  implements d (node_remove pos (node_of d)) (remove_entry pos d) /\
  has_space d (len key) (len value) = Ok (entry_stored_len (len key) (len value) <=? node_free (node_of d)) /\
  forall i e, n_entries (node_of d) !! N.to_nat i = Some e -> entry_key d i = Ok e.1 /\ entry_value d i = Ok e.2.
Proof.
  intros (_ & f & R) Hk Hv. split_and!.
  - by eapply insert_entry_ok.
  - by eapply remove_entry_ok.
  - by eapply rep_has_space.
  - intros i e. by eapply rep_entry.
Qed.
End Crc.

End IndexPage.

(** ** Witness *)

Lemma node_page_refines_witness :
  implements demo_crc (init demo_crc 5 true) (Some (mkNode true 0 [([1; 2], [3])] 5))
    (insert_entry demo_crc 0 [1; 2] [3] (init demo_crc 5 true)).
Proof.
  destruct (init_node demo_crc demo_crc_fits 5 true ltac:(done)) as (Hok & Hn & _).
  pose proof (node_page_refines demo_crc demo_crc_fits (init demo_crc 5 true) 0 [1; 2] [3] Hok) as H.
  rewrite Hn in H. apply H; repeat constructor.
Defined.
