(* ===== verification/Value.v ===== *)
(** * Values and their order

    [Value] and [DataType] (src/crates/common/src/value.rs and schema.rs), the total orders
    of floating-point numbers, intervals and arrays (float.rs, interval.rs, array.rs), and
    the checks of [SqlArray::new].  A key of an index is a list of values, compared by the
    derived order: discriminant first, then fields.

    [Decimal] is a type of the rust_decimal crate: [DecimalType] has what the sources call
    of it. *)

From S2P Require Import Prelude Errors CheckedBytes KeyOrder.
Local Open Scope N_scope.

(** ** Integers of the language *)

Definition int_fits (n : nat) (z : Z) : Prop := (- 2 ^ (8 * Z.of_nat n - 1) <= z < 2 ^ (8 * Z.of_nat n - 1))%Z.
Definition I32_MAX : Z := 2147483647.

Lemma to_signed_of_signed n z : (0 < n)%nat -> int_fits n z -> to_signed n (of_signed n z) = z.
Proof.
  intros Hn [H1 H2]. unfold to_signed, of_signed. set (h := (2 ^ (8 * Z.of_nat n - 1))%Z) in *.
  assert (Hw : (2 ^ (8 * Z.of_nat n) = 2 * h)%Z).
  { unfold h. rewrite <- Z.pow_succ_r by lia. f_equal. lia. }
  assert (Hh : Z.of_N (2 ^ (8 * N.of_nat n - 1)) = h).
  { unfold h. rewrite N2Z.inj_pow. f_equal. lia. }
  assert (0 < h)%Z by (apply Z.pow_pos_nonneg; lia). rewrite Hw. destruct (Z.ltb_spec z 0) as [Hz|Hz].
  - assert (E : (z mod (2 * h) = z + 2 * h)%Z) by (rewrite <- (Z.mod_unique z (2 * h) (-1) (z + 2 * h)); lia). rewrite E.
    rewrite (proj2 (N.ltb_ge _ _)) by lia. rewrite Z2N.id by lia. lia.
  - rewrite Z.mod_small by lia. rewrite (proj2 (N.ltb_lt _ _)) by lia. by rewrite Z2N.id by lia.
Qed.

Lemma of_signed_bound n z : of_signed n z < 256 ^ N.of_nat n.
Proof.
  unfold of_signed. assert (H : (0 <= z mod 2 ^ (8 * Z.of_nat n) < 2 ^ (8 * Z.of_nat n))%Z) by (apply Z.mod_pos_bound, Z.pow_pos_nonneg; lia).
  assert (E : Z.of_N (256 ^ N.of_nat n) = (2 ^ (8 * Z.of_nat n))%Z).
  { rewrite N2Z.inj_pow, nat_N_Z. rewrite Z.pow_mul_r by lia. done. }
  lia.
Qed.

(** ** Floating-point numbers, as their bits *)

Section Float.
(** [mb] bits of mantissa and [eb] of exponent. *)
Context (eb mb : N).
Definition magnitude (bits : N) : N := bits mod 2 ^ (eb + mb).
Definition sign (bits : N) : bool := N.testbit bits (eb + mb).
(** The exponent is all ones and the mantissa is not zero. *)
Definition is_nan (bits : N) : bool := (2 ^ eb - 1) * 2 ^ mb <? magnitude bits.
(** Numbers compare as their magnitudes with the sign; both zeroes are [0]. *)
Definition number (bits : N) : Z := if sign bits then (- Z.of_N (magnitude bits))%Z else Z.of_N (magnitude bits).
Definition float_lt (a b : N) : bool := (number a <? number b)%Z.

Definition float_cmp (a b : N) : comparison :=
  match is_nan a, is_nan b with
  | true, true => Eq
  | true, false => Gt
  | false, true => Lt
  | false, false => if float_lt a b then Lt else if float_lt b a then Gt else Eq
  end.

(** The order of the numbers, with NaN above them. *)
Lemma float_cmp_key a b :
  float_cmp a b = pair_cmp Z.compare Z.compare (if is_nan a then (1, 0) else (0, number a))%Z (if is_nan b then (1, 0) else (0, number b))%Z.
Proof.
  unfold float_cmp, pair_cmp, float_lt. destruct (is_nan a), (is_nan b); try done. cbn.
  destruct (Z.ltb_spec (number a) (number b)), (Z.ltb_spec (number b) (number a)), (Z.compare_spec (number a) (number b)); try done; lia.
Qed.

Global Instance float_cmp_order : TotalPreorder float_cmp.
Proof.
  pose proof (on_order (fun a => if is_nan a then (1, 0) else (0, number a))%Z (pair_cmp Z.compare Z.compare)) as H.
  split; [intros a b; rewrite !float_cmp_key; apply H|intros a b c; rewrite !float_cmp_key; apply H].
Qed.
End Float.

Definition OrderedF64_cmp : N -> N -> comparison := float_cmp 11 52.
Definition OrderedF32_cmp : N -> N -> comparison := float_cmp 8 23.

(** ** Intervals *)

Record Interval : Type := mkInterval {
  months : Z;
  days : Z;
  micros : Z
}.
Definition MICROS_PER_SEC : Z := 1000000.
Definition MICROS_PER_DAY : Z := 86400 * MICROS_PER_SEC.
Definition DAYS_PER_MONTH_ESTIMATE : Z := 30.

Definition estimate (i : Interval) : Z := i.(months) * DAYS_PER_MONTH_ESTIMATE * MICROS_PER_DAY + i.(days) * MICROS_PER_DAY + i.(micros).
Definition interval_cmp (a b : Interval) : comparison := Z.compare (estimate a) (estimate b).

Definition interval_ok (i : Interval) : Prop := int_fits 4 i.(months) /\ int_fits 4 i.(days) /\ int_fits 8 i.(micros).

(** ** Types *)

Inductive DataType : Type :=
  | TInteger | TText | TBoolean | TDate | TTimestamp | TTime | TTimestampTz | TInterval | TBytea | TUuid | TDouble | TReal
  | TNumeric (precision : option N) (scale : N)
  | TArray (element : DataType).
Global Instance DataType_eq_dec : EqDecision DataType.
Proof. solve_decision. Defined.

Definition type_discriminant (t : DataType) : N :=
  match t with
  | TInteger => 0 | TText => 1 | TBoolean => 2 | TDate => 3 | TTimestamp => 4 | TTime => 5 | TTimestampTz => 6 | TInterval => 7
  | TBytea => 8 | TUuid => 9 | TDouble => 10 | TReal => 11 | TNumeric _ _ => 12 | TArray _ => 13
  end.

Fixpoint type_cmp (a b : DataType) : comparison :=
  match N.compare (type_discriminant a) (type_discriminant b) with
  | Eq => match a, b with
          | TNumeric p s, TNumeric p' s' => match option_cmp N.compare p p' with Eq => N.compare s s' | r => r end
          | TArray e, TArray e' => type_cmp e e'
          | _, _ => Eq
          end
  | r => r
  end.

Definition is_array_type (t : DataType) : bool := match t with TArray _ => true | _ => false end.

(** [ArrayType::new]: no arrays of arrays. *)
Definition ArrayType_new (element_type : DataType) : DbResult DataType :=
  if is_array_type element_type then Err (db_plan DatatypeMismatch "array elements cannot themselves be arrays")
  else Ok (TArray element_type).

Record ArrayDimension : Type := mkDimension {
  dim_len : N;
  lower_bound : Z
}.
Global Instance ArrayDimension_eq_dec : EqDecision ArrayDimension.
Proof. solve_decision. Defined.

(** ** Decimals *)

Class DecimalType (D : Type) : Type := {
  mantissa : D -> Z;
  scale : D -> N;
  try_from_i128_with_scale : Z -> N -> option D;
  decimal_cmp : D -> D -> comparison
}.

Class DecimalLaws (D : Type) `{DecimalType D} : Prop := {
  decimal_cmp_order :: TotalPreorder decimal_cmp
}.

(** ** Values *)

Section Value.
Context {D : Type} `{!DecimalType D}.

(** Floating-point numbers are their bits, text is its UTF-8. *)
Inductive Value : Type :=
  | Null
  | Boolean (b : bool)
  | Integer (z : Z)
  | Float (bits : N)
  | Real (bits : N)
  | Numeric (d : D)
  | Text (s : bytes)
  | Date (z : Z)
  | Timestamp (z : Z)
  | Time (z : Z)
  | TimestampTz (z : Z)
  | IntervalV (i : Interval)
  | Bytes (b : bytes)
  | Uuid (b : bytes)
  | Array (element_type : DataType) (dimensions : list ArrayDimension) (elements : list Value).

Definition discriminant (v : Value) : N :=
  match v with
  | Null => 0 | Boolean _ => 1 | Integer _ => 2 | Float _ => 3 | Real _ => 4 | Numeric _ => 5 | Text _ => 6 | Date _ => 7 | Timestamp _ => 8
  | Time _ => 9 | TimestampTz _ => 10 | IntervalV _ => 11 | Bytes _ => 12 | Uuid _ => 13 | Array _ _ _ => 14
  end.

Definition bool_cmp (a b : bool) : comparison :=
  match a, b with false, true => Lt | true, false => Gt | _, _ => Eq end.

(** [then_with]. *)
Definition then_with (c : comparison) (d : comparison) : comparison := match c with Eq => d | _ => c end.

(** The shape of an array, compared after its elements. *)
Definition dims_cmp (a b : list ArrayDimension) : comparison :=
  then_with (N.compare (len a) (len b))
    (then_with (list_cmp N.compare (dim_len <$> a) (dim_len <$> b)) (list_cmp Z.compare (lower_bound <$> a) (lower_bound <$> b))).

Fixpoint value_cmp (a b : Value) : comparison :=
  match N.compare (discriminant a) (discriminant b) with
  | Eq =>
      match a, b with
      | Boolean x, Boolean y => bool_cmp x y
      | Integer x, Integer y | Date x, Date y | Timestamp x, Timestamp y | Time x, Time y | TimestampTz x, TimestampTz y => Z.compare x y
      | Float x, Float y => OrderedF64_cmp x y
      | Real x, Real y => OrderedF32_cmp x y
      | Numeric x, Numeric y => decimal_cmp x y
      | Text x, Text y | Bytes x, Bytes y | Uuid x, Uuid y => list_cmp N.compare x y
      | IntervalV x, IntervalV y => interval_cmp x y
      | Array t ds es, Array t' ds' es' =>
          then_with (type_cmp t t')
            (then_with (list_cmp value_cmp es es') (then_with (N.compare (len es) (len es')) (dims_cmp ds ds')))
      | _, _ => Eq
      end
  | r => r
  end.

(** ** The order is total *)

Fixpoint depth (v : Value) : nat :=
  match v with Array _ _ es => S (foldr (fun v n => Nat.max (depth v) n) 0%nat es) | _ => 0 end.

Lemma depth_elements t ds es : Forall (fun v => (depth v < depth (Array t ds es))%nat) es.
Proof.
  cbn [depth]. induction es as [|v es IH]; constructor; cbn; [lia|]. eapply Forall_impl; [exact IH|]. cbn. intros w Hw. lia.
Qed.

Lemma shallow_elements n t ds es : (depth (Array t ds es) < S n)%nat -> Forall (fun v => (depth v < n)%nat) es.
Proof. intros H. eapply Forall_impl; [apply (depth_elements t ds)|]. cbn in *. intros v Hv. lia. Qed.

Lemma then_with_on {A} (P : A -> Prop) (c1 c2 : A -> A -> comparison) :
  order_on P c1 -> order_on P c2 -> order_on P (fun a b => then_with (c1 a b) (c2 a b)).
Proof using.
  intros H1 H2. pose proof (order_on_sig P c1 H1) as O1. split.
  - intros a b Ha Hb. rewrite (proj1 H1 a b Ha Hb). destruct (c1 a b); cbn; [by apply H2|done|done].
  - intros a b c Ha Hb Hc. unfold then_with. pose proof (cmp_Eq_l (fun a b : sig P => c1 (`a) (`b)) (a ↾ Ha) (b ↾ Hb) (c ↾ Hc)) as E1.
    pose proof (cmp_lt_le (fun a b : sig P => c1 (`a) (`b)) (a ↾ Ha) (b ↾ Hb) (c ↾ Hc)) as E2. cbn in E1, E2.
    destruct (c1 a b) eqn:Eab; [rewrite E1 by done; destruct (c1 b c); [by apply H2|done|done]| |done].
    intros _ Hbc. rewrite E2; [done|done|]. by destruct (c1 b c).
Qed.

Lemma order_on_fn {A B} (P : B -> Prop) (Q : A -> Prop) (f : A -> B) cmp :
  order_on P cmp -> (forall a, Q a -> P (f a)) -> order_on Q (fun a b => cmp (f a) (f b)).
Proof using. intros [H1 H2] Hf. split; [intros a b Ha Hb; apply H1; by apply Hf|intros a b c Ha Hb Hc; apply H2; by apply Hf]. Qed.

Lemma total_on {A} (P : A -> Prop) (cmp : A -> A -> comparison) `{!TotalPreorder cmp} : order_on P cmp.
Proof using. split; [intros; apply (cmp_sym cmp)|intros a b c _ _ _; apply (cmp_trans cmp)]. Qed.

Global Instance bool_cmp_order : TotalPreorder bool_cmp.
Proof using. split; [by intros [] []|by intros [] [] []]. Qed.

Global Instance interval_cmp_order : TotalPreorder interval_cmp.
Proof using. apply (on_order estimate Z.compare). Qed.

Global Instance type_cmp_order : TotalPreorder type_cmp.
Proof using.
  split.
  - induction a as [| | | | | | | | | | | |p s|e IH]; intros []; try done; cbn [type_cmp type_discriminant N.compare Pos.compare Pos.compare_cont]; [|apply IH].
    rewrite (cmp_sym (option_cmp N.compare) p precision). destruct (option_cmp N.compare p precision); cbn; [apply (cmp_sym N.compare)|done|done].
  - induction a as [| | | | | | | | | | | |p s|e IH]; intros [] []; try done; cbn [type_cmp type_discriminant N.compare Pos.compare Pos.compare_cont]; [|by apply IH].
    apply (cmp_trans (pair_cmp (option_cmp N.compare) N.compare) (_, _) (_, _) (_, _)).
Qed.

Definition dims_cmp_on (P : list ArrayDimension -> Prop) : order_on P dims_cmp.
Proof using.
  unfold dims_cmp. apply then_with_on; [apply (order_on_fn (fun _ => True) P len N.compare); [apply total_on, _|done]|].
  apply then_with_on; [apply (order_on_fn (fun _ => True) P (fmap dim_len) (list_cmp N.compare))|
    apply (order_on_fn (fun _ => True) P (fmap lower_bound) (list_cmp Z.compare))]; (apply total_on, _) || done.
Qed.

(** Arrays, when their elements are ordered. *)
Definition array_cmp (a b : DataType * list ArrayDimension * list Value) : comparison :=
  then_with (type_cmp a.1.1 b.1.1)
    (then_with (list_cmp value_cmp a.2 b.2) (then_with (N.compare (len a.2) (len b.2)) (dims_cmp a.1.2 b.1.2))).

Lemma array_cmp_on (P : Value -> Prop) : order_on P value_cmp -> order_on (fun a => Forall P a.2) array_cmp.
Proof using.
  intros H. unfold array_cmp. apply then_with_on; [apply (order_on_fn (fun _ => True) _ (fun a => a.1.1) type_cmp); [apply total_on, _|done]|].
  apply then_with_on; [apply (order_on_fn (Forall P) _ snd (list_cmp value_cmp)); [by apply list_cmp_on|done]|].
  apply then_with_on; [apply (order_on_fn (fun _ => True) _ (fun a => len a.2) N.compare); [apply total_on, _|done]|].
  apply (order_on_fn (fun _ => True) _ (fun a => a.1.2) dims_cmp); [apply dims_cmp_on|done].
Qed.

Context `{!DecimalLaws D}.

Lemma value_cmp_sym n a b :
  order_on (fun v => (depth v < n)%nat) value_cmp -> (depth a < S n)%nat -> (depth b < S n)%nat -> value_cmp b a = CompOpp (value_cmp a b).
Proof.
  intros IH Ha Hb. destruct (N.compare_spec (discriminant a) (discriminant b)) as [E|E|E].
  - destruct a, b; try discriminate E; cbn [value_cmp discriminant N.compare Pos.compare Pos.compare_cont];
      try (by apply (cmp_sym Z.compare)); try (by apply (cmp_sym bool_cmp)); try (by apply (cmp_sym OrderedF64_cmp)); try (by apply (cmp_sym OrderedF32_cmp));
      try (by apply (cmp_sym decimal_cmp)); try (by apply (cmp_sym (list_cmp N.compare))); try (by apply (cmp_sym interval_cmp)); [done|].
    pose proof (array_cmp_on _ IH) as [H _].
    exact (H (_, _, _) (_, _, _) (shallow_elements _ _ _ _ Ha) (shallow_elements _ _ _ _ Hb)).
  - assert (E1 : value_cmp a b = Lt) by (destruct a, b; try done; discriminate E). rewrite E1. destruct a, b; try done; discriminate E.
  - assert (E1 : value_cmp a b = Gt) by (destruct a, b; try done; discriminate E). rewrite E1. destruct a, b; try done; discriminate E.
Qed.

Lemma value_cmp_discriminant a b : value_cmp a b <> Gt -> discriminant a < discriminant b \/ discriminant a = discriminant b.
Proof. destruct (N.compare_spec (discriminant a) (discriminant b)) as [E|E|E]; [by right|by left|]. destruct a, b; try done; discriminate E. Qed.
Lemma value_cmp_lt a b : discriminant a < discriminant b -> value_cmp a b <> Gt.
Proof. intros E. destruct a, b; try done; discriminate E. Qed.

Lemma value_cmp_trans n a b c :
  order_on (fun v => (depth v < n)%nat) value_cmp -> (depth a < S n)%nat -> (depth b < S n)%nat -> (depth c < S n)%nat ->
  value_cmp a b <> Gt -> value_cmp b c <> Gt -> value_cmp a c <> Gt.
Proof.
  intros IH Ha Hb Hc Hab Hbc. destruct (value_cmp_discriminant a b Hab) as [E|E]; [apply value_cmp_lt; destruct (value_cmp_discriminant b c Hbc); lia|].
  destruct (value_cmp_discriminant b c Hbc) as [E'|E']; [apply value_cmp_lt; lia|].
  destruct a, b; try discriminate E; destruct c; try discriminate E'; revert Hab Hbc; cbn [value_cmp discriminant N.compare Pos.compare Pos.compare_cont];
    try (by apply (cmp_trans Z.compare)); try (by apply (cmp_trans bool_cmp)); try (by apply (cmp_trans OrderedF64_cmp)); try (by apply (cmp_trans OrderedF32_cmp));
    try (by apply (cmp_trans decimal_cmp)); try (by apply (cmp_trans (list_cmp N.compare))); try (by apply (cmp_trans interval_cmp)); [done|].
  pose proof (array_cmp_on _ IH) as [_ H].
  exact (H (_, _, _) (_, _, _) (_, _, _) (shallow_elements _ _ _ _ Ha) (shallow_elements _ _ _ _ Hb) (shallow_elements _ _ _ _ Hc)).
Qed.

Lemma value_cmp_on n : order_on (fun v => (depth v < n)%nat) value_cmp.
Proof.
  induction n as [|n IH]; [split; intros; lia|]. split.
  - intros a b Ha Hb. by apply (value_cmp_sym n).
  - intros a b c Ha Hb Hc. by apply (value_cmp_trans n).
Qed.

Global Instance value_cmp_total : TotalPreorder value_cmp.
Proof.
  split.
  - intros a b. apply (proj1 (value_cmp_on (S (depth a + depth b)))); lia.
  - intros a b c. apply (proj2 (value_cmp_on (S (depth a + depth b + depth c)))); lia.
Qed.

(** ** Arrays *)

Definition MAX_ARRAY_DIMENSIONS : N := 6.
Definition MAX_ARRAY_ELEMENTS : N := 1000000.

Definition value_matches_type (value : Value) (data_type : DataType) : bool :=
  match value, data_type with
  | Null, _ => true
  | Integer _, TInteger | Text _, TText | Boolean _, TBoolean | Date _, TDate | Timestamp _, TTimestamp | Time _, TTime
  | TimestampTz _, TTimestampTz | IntervalV _, TInterval | Bytes _, TBytea | Uuid _, TUuid | Float _, TDouble | Real _, TReal
  | Numeric _, TNumeric _ _ => true
  | Array t _ _, TArray element => bool_decide (t = element)
  | _, _ => false
  end.

Definition invalid_array (m : string) : DbError := db_execute InvalidParameterValue m.

Definition SqlArray_empty (element_type : DataType) : DbResult Value :=
  if is_array_type element_type then Err (invalid_array "array elements cannot themselves be arrays")
  else Ok (Array element_type [] []).

(** [len - 1] is taken in [i32]. *)
Fixpoint check_dimensions (ds : list ArrayDimension) : DbResult unit :=
  match ds with
  | [] => Ok ()
  | d :: ds =>
      if (I32_MAX <? Z.of_N d.(dim_len))%Z then Err (invalid_array "array dimension length exceeds signed int32")
      else
        let upper := (d.(lower_bound) + (Z.of_N d.(dim_len) - 1))%Z in
        if ((I32_MAX <? upper) || (upper <? - I32_MAX - 1))%Z
        then Err (invalid_array "array dimension upper bound exceeds signed int32")
        else check_dimensions ds
  end.

Definition checked_mul (max a b : N) : option N := if a * b <=? max then Some (a * b) else None.

Fixpoint dimension_product (overflow : DbError) (product : N) (ds : list ArrayDimension) : DbResult N :=
  match ds with
  | [] => Ok product
  | d :: ds => product ← ok_or (checked_mul USIZE_MAX product d.(dim_len)) overflow; dimension_product overflow product ds
  end.

(** The message's rendering of an element is left out. *)
Definition SqlArray_new (element_type : DataType) (dimensions : list ArrayDimension) (elements : list Value) : DbResult Value :=
  if is_array_type element_type then Err (invalid_array "array elements cannot themselves be arrays")
  else if MAX_ARRAY_DIMENSIONS <? len dimensions
  then Err (invalid_array ("array has " +:+ pretty (len dimensions) +:+ " dimensions, maximum is " +:+ pretty MAX_ARRAY_DIMENSIONS))
  else if MAX_ARRAY_ELEMENTS <? len elements
  then Err (invalid_array ("array has " +:+ pretty (len elements) +:+ " elements, maximum is " +:+ pretty MAX_ARRAY_ELEMENTS))
  else match elements with
  | [] => if existsb (fun d => negb (d.(dim_len) =? 0)) dimensions
          then Err (invalid_array "an empty array cannot have a non-empty dimension")
          else SqlArray_empty element_type
  | _ =>
      match dimensions with
      | [] => Err (invalid_array "a non-empty array must have at least one dimension")
      | _ =>
          _ ← check_dimensions dimensions;
          cardinality ← dimension_product (invalid_array "array cardinality overflows") 1 dimensions;
          if negb (cardinality =? len elements)
          then Err (invalid_array ("array dimensions describe " +:+ pretty cardinality +:+ " elements but " +:+ pretty (len elements) +:+ " were provided"))
          else if existsb (fun v => negb (value_matches_type v element_type)) elements
          then Err (invalid_array "array element does not match its element type")
          else Ok (Array element_type dimensions elements)
      end
  end.

(** The offset of an element in row-major order. *)
Fixpoint offset_in (offset : N) (subscripts : list Z) (dimensions : list ArrayDimension) : option N :=
  match subscripts, dimensions with
  | subscript :: subscripts, d :: dimensions =>
      let relative := (subscript - d.(lower_bound))%Z in
      if ((relative <? 0) || (Z.of_N USIZE_MAX <? relative))%Z then None
      else if d.(dim_len) <=? Z.to_N relative then None
      else
        offset ← checked_mul USIZE_MAX offset d.(dim_len);
        offset ← checked_add USIZE_MAX offset (Z.to_N relative);
        offset_in offset subscripts dimensions
  | _, _ => Some offset
  end.

Definition element_offset (dimensions : list ArrayDimension) (subscripts : list Z) : option N :=
  if negb (len subscripts =? len dimensions) || bool_decide (dimensions = []) then None else offset_in 0 subscripts dimensions.

(** ** UTF-8 *)

Definition cont (b : N) : bool := (0x80 <=? b) && (b <=? 0xBF).
Definition between (lo b hi : N) : bool := (lo <=? b) && (b <=? hi).

(** What [String::from_utf8] accepts. *)
Fixpoint utf8_valid (s : bytes) : bool :=
  match s with
  | [] => true
  | b0 :: s0 =>
      if b0 <=? 0x7F then utf8_valid s0
      else match s0 with
      | [] => false
      | b1 :: s1 =>
          if between 0xC2 b0 0xDF then cont b1 && utf8_valid s1
          else match s1 with
          | [] => false
          | b2 :: s2 =>
              if between 0xE0 b0 0xEF then
                between (if b0 =? 0xE0 then 0xA0 else 0x80) b1 (if b0 =? 0xED then 0x9F else 0xBF) && cont b2 && utf8_valid s2
              else match s2 with
              | [] => false
              | b3 :: s3 =>
                  between 0xF0 b0 0xF4 &&
                  between (if b0 =? 0xF0 then 0x90 else 0x80) b1 (if b0 =? 0xF4 then 0x8F else 0xBF) && cont b2 && cont b3 && utf8_valid s3
              end
          end
      end
  end.

(** ** Values of the program *)

Definition dimension_ok (d : ArrayDimension) : Prop := d.(dim_len) <= U32_MAX /\ int_fits 4 d.(lower_bound).

(** Fields have the widths of their types, text is UTF-8, arrays passed [SqlArray::new], and
    a decimal is the one its mantissa and scale make (not a negative zero). *)
Fixpoint value_ok (v : Value) : Prop :=
  match v with
  | Null | Boolean _ => True
  | Integer z | Date z | Timestamp z | Time z | TimestampTz z => int_fits 8 z
  | Float bits => bits <= U64_MAX
  | Real bits => bits <= U32_MAX
  | Numeric d => int_fits 16 (mantissa d) /\ scale d <= U32_MAX /\ try_from_i128_with_scale (mantissa d) (scale d) = Some d
  | Text s => bytes_ok s /\ utf8_valid s = true
  | IntervalV i => interval_ok i
  | Bytes b => bytes_ok b
  | Uuid b => bytes_ok b /\ len b = 16
  | Array t ds es => SqlArray_new t ds es = Ok (Array t ds es) /\ Forall dimension_ok ds /\ foldr (fun v P => value_ok v /\ P) True es
  end.

Lemma array_elements_ok t ds es : value_ok (Array t ds es) -> Forall value_ok es.
Proof. intros (_ & _ & H). induction es as [|v es IH]; [constructor|]. destruct H. constructor; [done|by apply IH]. Qed.
End Value.
Arguments Value : clear implicits.

(** ** A decimal type

    The operations of the decimal library on pairs of a 96-bit mantissa and a scale: the
    laws asked of it can be met. *)
Definition decimal_pair_cmp (a b : Z * N) : comparison := (a.1 * 10 ^ Z.of_N b.2 ?= b.1 * 10 ^ Z.of_N a.2)%Z.

#[global] Instance decimal_pair : DecimalType (Z * N) := {|
  mantissa := fst;
  scale := snd;
  try_from_i128_with_scale m s := if (Z.abs m <? 2 ^ 96)%Z && (s <=? 28) then Some (m, s) else None;
  decimal_cmp := decimal_pair_cmp
|}.

#[global] Instance decimal_pair_laws : DecimalLaws (Z * N).
Proof.
  split. split.
  - intros a b. unfold decimal_cmp, decimal_pair, decimal_pair_cmp. apply Z.compare_antisym.
  - intros [a n] [b m] [c k]. unfold decimal_cmp, decimal_pair, decimal_pair_cmp. cbn [fst snd].
    assert (H : forall x, (0 < 10 ^ Z.of_N x)%Z) by (intros x; apply Z.pow_pos_nonneg; lia). pose proof (H n). pose proof (H m). pose proof (H k).
    generalize dependent (10 ^ Z.of_N n)%Z. generalize dependent (10 ^ Z.of_N m)%Z. generalize dependent (10 ^ Z.of_N k)%Z. clear.
    intros p Hp q Hq r Hr. rewrite !Z.compare_le_iff. intros H1 H2. apply (Z.mul_le_mono_pos_r _ _ q Hq). 
    transitivity (b * r * p)%Z; nia.
Qed.
