(* ===== verification/RowCodec.v ===== *)
(** * The codec of keys, arrays and rows (src/crates/storage/src/codec.rs)

    Everything of the file but the MVCC header ([TupleHeader]).  The decoders keep their
    position in a [&mut usize]: a reader is a computation on that offset.  The encoders
    append to a vector: each gives the bytes it appends.  Memory is not modelled, so
    [fallible_decode_vec] does not fail, and a [u32] always fits a [usize]. *)

From S2P Require Import Prelude Errors Mvcc CheckedBytes ByteArray TupleHeader Page Compress KeyOrder Value.
Local Open Scope N_scope.

Abbreviation Reader := (SE N DbError).

(** ** Readers *)

Definition read_exact (b : bytes) (n : N) : Reader bytes := fun offset =>
  match reader_at b offset with
  | Err err => (offset, Err (corrupt_row ("invalid row offset: " +:+ display_slice_error err)))
  | Ok reader =>
      match reader_take reader n with
      | Err err => (offset, Err (corrupt_row ("row ended unexpectedly: " +:+ display_slice_error err)))
      | Ok (raw, reader) => (reader.(r_position), Ok raw)
      end
  end.

Definition read_array (b : bytes) (n : N) : Reader bytes :=
  raw ← read_exact b n;
  if len raw =? n then mret raw
  else lift (Err (corrupt_row ("fixed-width decoder expected " +:+ pretty n +:+ " bytes after bounds validation"))).

Definition read_u8 (b : bytes) : Reader N := raw ← read_array b 1; mret (from_le_bytes raw).
Definition read_u16 (b : bytes) : Reader N := raw ← read_array b 2; mret (from_le_bytes raw).
Definition read_u32 (b : bytes) : Reader N := raw ← read_array b 4; mret (from_le_bytes raw).
Definition read_u64 (b : bytes) : Reader N := raw ← read_array b 8; mret (from_le_bytes raw).
Definition read_i32 (b : bytes) : Reader Z := raw ← read_array b 4; mret (to_signed 4 (from_le_bytes raw)).
Definition read_i64 (b : bytes) : Reader Z := raw ← read_array b 8; mret (to_signed 8 (from_le_bytes raw)).
Definition read_i128 (b : bytes) : Reader Z := raw ← read_array b 16; mret (to_signed 16 (from_le_bytes raw)).

Definition to_le_signed (n : nat) (z : Z) : bytes := to_le_bytes n (of_signed n z).

(** ** Null bitmaps *)

Definition null_bitmap_len (columns : N) : N := (columns + 7) / 8.

Definition set_null (bitmap : bytes) (index : N) : DbResult bytes :=
  byte ← ok_or (bitmap !! N.to_nat (index / 8)) (corrupt_row "null bitmap index is outside the bitmap");
  Ok (<[N.to_nat (index / 8) := N.lor byte (N.shiftl 1 (index mod 8))]> bitmap).

Definition is_null (bitmap : bytes) (index : N) : DbResult bool :=
  byte ← ok_or (bitmap !! N.to_nat (index / 8)) (corrupt_row "null bitmap index is outside the bitmap");
  Ok (negb (N.land byte (N.shiftl 1 (index mod 8)) =? 0)).

(** The loops over the elements of an array and over the columns of a row: the bitmap, which
    is in front, and what is appended. *)
Fixpoint encode_nullable {A} (null : A -> bool) (may_be_null : A -> DbResult unit) (enc : A -> DbResult bytes)
    (index : N) (es : list A) (bitmap tail : bytes) : DbResult (bytes * bytes) :=
  match es with
  | [] => Ok (bitmap, tail)
  | e :: es =>
      if null e then
        _ ← may_be_null e;
        bitmap ← set_null bitmap index;
        encode_nullable null may_be_null enc (index + 1) es bitmap tail
      else
        raw ← enc e;
        encode_nullable null may_be_null enc (index + 1) es bitmap (tail ++ raw)
  end.

(** The bits of the last byte that stand for no element. *)
Definition padding_set (bitmap : bytes) (cardinality : N) : bool :=
  negb (cardinality mod 8 =? 0) &&
  match last bitmap with Some b => negb (N.ldiff b (N.shiftl 1 (cardinality mod 8) - 1) =? 0) | None => false end.

(** ** What a reader reads back *)

(** [m] reads [v] from [enc] wherever it stands, and stops behind it. *)
Definition parses {A} (m : bytes -> Reader A) (enc : bytes) (v : A) : Prop := forall pre rest,
  len pre + len enc <= USIZE_MAX -> m (pre ++ enc ++ rest) (len pre) = (len pre + len enc, Ok v).

Lemma parses_ret {A} (v : A) : parses (fun _ => mret v) [] v.
Proof using. intros pre rest _. unfold mret, se_ret. change (len (@nil N)) with 0. by rewrite N.add_0_r. Qed.

Lemma parses_lift {A} (m : DbResult A) (v : A) : m = Ok v -> parses (fun _ => lift m) [] v.
Proof using. intros -> pre rest _. unfold lift. change (len (@nil N)) with 0. by rewrite N.add_0_r. Qed.

Lemma parses_bind {A B} (m : bytes -> Reader A) (f : bytes -> A -> Reader B) e1 e2 a c :
  parses m e1 a -> parses (fun b => f b a) e2 c -> parses (fun b => m b ≫= f b) (e1 ++ e2) c.
Proof using.
  intros H1 H2 pre rest Hl. rewrite len_app in Hl |- *. specialize (H1 pre (e2 ++ rest)). specialize (H2 (pre ++ e1) rest).
  rewrite len_app in H2. unfold mbind, se_bind. rewrite <- !app_assoc in *. rewrite H1 by lia. rewrite H2 by lia. f_equal. lia.
Qed.

(** The last step adds nothing. *)
Lemma parses_fmap {A B} (m : bytes -> Reader A) (g : A -> B) e a : parses m e a -> parses (fun b => x ← m b; mret (g x)) e (g a).
Proof using. intros H. rewrite <- (app_nil_r e). apply (parses_bind m (fun _ x => mret (g x)) e [] a); [done|apply parses_ret]. Qed.
Lemma parses_check {A B} (m : bytes -> Reader A) (g : A -> DbResult B) e a c :
  parses m e a -> g a = Ok c -> parses (fun b => x ← m b; lift (g x)) e c.
Proof using. intros H Hg. rewrite <- (app_nil_r e). apply (parses_bind m (fun _ x => lift (g x)) e [] a); [done|by apply parses_lift]. Qed.

Lemma parses_exact enc : parses (fun b => read_exact b (len enc)) enc enc.
Proof using.
  intros pre rest Hl. unfold read_exact, reader_at. rewrite (proj2 (N.ltb_ge _ _)) by (rewrite len_app; lia).
  unfold reader_take, checked_add. cbn [r_bytes r_position]. rewrite (proj2 (N.leb_le _ _)) by lia. cbn [ok_or mbind result_bind].
  unfold get_range. rewrite (proj2 (N.leb_le (len pre) (len pre + len enc))) by lia. rewrite (proj2 (N.leb_le _ (len (pre ++ enc ++ rest)))) by (rewrite !len_app; lia).
  cbn [andb ok_or mbind result_bind r_position]. replace (len pre + len enc - len pre) with (len enc) by lia.
  unfold len. rewrite !Nat2N.id, drop_app_length, take_app_length. done.
Qed.

Lemma parses_array n enc : len enc = n -> parses (fun b => read_array b n) enc enc.
Proof using.
  intros <-. pose proof (parses_bind (fun b => read_exact b (len enc)) (fun _ raw => if len raw =? len enc then mret raw else lift (Err (corrupt_row
    ("fixed-width decoder expected " +:+ pretty (len enc) +:+ " bytes after bounds validation")))) enc [] enc enc) as H.
  rewrite app_nil_r in H. apply H; [apply parses_exact|]. rewrite N.eqb_refl. apply parses_ret.
Qed.

Lemma len_le n v : len (to_le_bytes n v) = N.of_nat n.
Proof using. unfold len. by rewrite length_to_le_bytes. Qed.

Lemma parses_le n v : v < 256 ^ N.of_nat n -> parses (fun b => raw ← read_array b (N.of_nat n); mret (from_le_bytes raw)) (to_le_bytes n v) v.
Proof using.
  intros Hv. pose proof (parses_fmap (fun b => read_array b (N.of_nat n)) from_le_bytes (to_le_bytes n v) _ (parses_array _ _ (len_le n v))) as H.
  by rewrite from_to_le_bytes in H.
Qed.
Lemma parses_signed n z : (0 < n)%nat -> int_fits n z ->
  parses (fun b => raw ← read_array b (N.of_nat n); mret (to_signed n (from_le_bytes raw))) (to_le_signed n z) z.
Proof using.
  intros Hn Hz. pose proof (parses_fmap (fun b => read_array b (N.of_nat n)) (fun raw => to_signed n (from_le_bytes raw)) (to_le_signed n z) _
    (parses_array _ _ (len_le n (of_signed n z)))) as H.
  unfold to_le_signed in *. rewrite from_to_le_bytes in H by apply of_signed_bound. by rewrite to_signed_of_signed in H.
Qed.

Lemma parses_u8 v : v <= U8_MAX -> parses read_u8 [v] v.
Proof using. intros Hv. pose proof (parses_le 1 v) as H. unfold U8_MAX in Hv. cbn [to_le_bytes] in H. rewrite N.mod_small in H by lia. apply H. cbn. lia. Qed.
Lemma parses_u16 v : v <= U16_MAX -> parses read_u16 (to_le_bytes 2 v) v.
Proof using. intros Hv. apply (parses_le 2 v). unfold U16_MAX in Hv. cbn. lia. Qed.
Lemma parses_u32 v : v <= U32_MAX -> parses read_u32 (to_le_bytes 4 v) v.
Proof using. intros Hv. apply (parses_le 4 v). unfold U32_MAX in Hv. cbn. lia. Qed.
Lemma parses_u64 v : v <= U64_MAX -> parses read_u64 (to_le_bytes 8 v) v.
Proof using. intros Hv. apply (parses_le 8 v). unfold U64_MAX in Hv. cbn. lia. Qed.
Lemma parses_i32 z : int_fits 4 z -> parses read_i32 (to_le_signed 4 z) z.
Proof using. apply (parses_signed 4 z). lia. Qed.
Lemma parses_i64 z : int_fits 8 z -> parses read_i64 (to_le_signed 8 z) z.
Proof using. apply (parses_signed 8 z). lia. Qed.
Lemma parses_i128 z : int_fits 16 z -> parses read_i128 (to_le_signed 16 z) z.
Proof using. apply (parses_signed 16 z). lia. Qed.

Lemma parses_tag {B} (f : bytes -> N -> Reader B) tag e v :
  tag <= U8_MAX -> parses (fun b => f b tag) e v -> parses (fun b => tag ← read_u8 b; f b tag) (tag :: e) v.
Proof using. intros Ht. apply (parses_bind read_u8 f [tag] e tag). by apply parses_u8. Qed.

Lemma parses_step {A B} (m : bytes -> Reader A) (f : A -> Reader B) enc v pre rest b :
  parses m enc v -> b = pre ++ enc ++ rest -> len b <= USIZE_MAX -> (x ← m b; f x) (len pre) = f v (len (pre ++ enc)).
Proof using. intros H -> Hl. rewrite !len_app in Hl. unfold mbind, se_bind. rewrite H by lia. by rewrite len_app. Qed.

Lemma lift_ok {A B} (v : A) (f : A -> Reader B) offset : (x ← lift (Ok v); f x) offset = f v offset.
Proof using. done. Qed.

(** The next field of [b], whose bytes [Hb] gives. *)
Ltac read_next Hb m enc v :=
  etrans; [eapply (parses_step m _ enc v); [ |rewrite Hb; rewrite <- ?app_assoc; reflexivity|lia]|].

(** ** Null bitmaps *)

Definition null_bit (bitmap : bytes) (i : N) : bool :=
  match bitmap !! N.to_nat (i / 8) with Some b => N.testbit b (i mod 8) | None => false end.

Lemma land_bit b k : negb (N.land b (N.shiftl 1 k) =? 0) = N.testbit b k.
Proof using.
  rewrite N.shiftl_1_l. destruct (N.testbit b k) eqn:E.
  - apply negb_true_iff, N.eqb_neq. intros H0. assert (N.testbit (N.land b (2 ^ k)) k = true) as H1 by (rewrite N.land_spec, E, N.pow2_bits_true; done).
    rewrite H0 in H1. by rewrite N.bits_0 in H1.
  - apply negb_false_iff, N.eqb_eq, N.bits_inj. intros m. rewrite N.land_spec, N.bits_0, N.pow2_bits_eqb. destruct (N.eqb_spec k m); [subst; by rewrite E|].
    apply andb_false_r.
Qed.

Lemma bitmap_index i n : i < n -> (N.to_nat (i / 8) < N.to_nat (null_bitmap_len n))%nat.
Proof using. intros H. unfold null_bitmap_len. pose proof (N.div_le_mono (i + 8) (n + 7) 8 ltac:(lia) ltac:(lia)) as Hd.
  replace (i + 8) with (i + 1 * 8) in Hd by lia. rewrite N.div_add in Hd by lia. lia. Qed.

Lemma is_null_bit bitmap i : (N.to_nat (i / 8) < length bitmap)%nat -> is_null bitmap i = Ok (null_bit bitmap i).
Proof using. intros H. unfold is_null, null_bit. destruct (lookup_lt_is_Some_2 _ _ H) as [b E]. rewrite E. cbn. by rewrite land_bit. Qed.

Lemma byte_lor x k : x < 256 -> k < 8 -> N.lor x (N.shiftl 1 k) < 256.
Proof using.
  intros Hx Hk. rewrite N.shiftl_1_l. change 256 with (2 ^ 8). apply N.log2_lt_cancel. rewrite N.log2_pow2, N.log2_lor, N.log2_pow2 by lia.
  destruct (N.eq_0_gt_0_cases x) as [->|Hp]; [cbn; lia|]. apply (N.log2_lt_pow2 x 8 Hp) in Hx. lia.
Qed.

Lemma set_null_bit bitmap i bitmap' : set_null bitmap i = Ok bitmap' ->
  length bitmap' = length bitmap /\ (bytes_ok bitmap -> bytes_ok bitmap') /\
  forall j, null_bit bitmap' j = null_bit bitmap j || (j =? i).
Proof using.
  unfold set_null. destruct (bitmap !! _) as [b|] eqn:E; [|done]. cbn [ok_or mbind result_bind]. intros [= <-].
  split_and!; [apply length_insert| |].
  - intros Hb. apply Forall_insert; [done|]. pose proof (Forall_lookup_1 _ _ _ _ Hb E) as Hx. unfold is_byte in *.
    apply byte_lor; [done|]. apply N.mod_lt. lia.
  - intros j. unfold null_bit. destruct (N.eqb_spec j i) as [->|Hj].
    + rewrite list_lookup_insert_eq by (by apply lookup_lt_Some in E). rewrite N.lor_spec, N.shiftl_1_l, N.pow2_bits_true. by rewrite !orb_true_r.
    + rewrite orb_false_r. destruct (decide (N.to_nat (i / 8) = N.to_nat (j / 8))) as [He|Hn].
      * rewrite <- He, list_lookup_insert_eq, E by (by apply lookup_lt_Some in E). rewrite N.lor_spec, N.shiftl_1_l, N.pow2_bits_false; [apply orb_false_r|].
        pose proof (N.div_mod i 8). pose proof (N.div_mod j 8). lia.
      * by rewrite list_lookup_insert_ne.
Qed.

(** The loop leaves the bitmap of the nulls, and the other elements in a row. *)
Definition null_at {A} (null : A -> bool) (index : N) (es : list A) (j : N) : bool :=
  (index <=? j) && match es !! N.to_nat (j - index) with Some v => null v | None => false end.

Lemma null_at_cons {A} (null : A -> bool) index v es j : null_at null index (v :: es) j = ((j =? index) && null v) || null_at null (index + 1) es j.
Proof using.
  unfold null_at. destruct (N.eqb_spec j index) as [->|Hj].
  - rewrite N.leb_refl, N.sub_diag. cbn. rewrite (proj2 (N.leb_gt _ _)) by lia. by rewrite orb_false_r.
  - cbn. destruct (N.leb_spec index j); [|by rewrite (proj2 (N.leb_gt (index + 1) _)) by lia]. rewrite (proj2 (N.leb_le (index + 1) _)) by lia.
    replace (N.to_nat (j - index)) with (S (N.to_nat (j - (index + 1)))) by lia. done.
Qed.

(** What [encode_nullable] appended for each element. *)
Definition encoded_as {A} (null : A -> bool) (enc : A -> DbResult bytes) (e : A) (raw : bytes) : Prop :=
  if null e then raw = [] else enc e = Ok raw.

Lemma encode_nullable_spec {A} (null : A -> bool) ok enc es : forall index bitmap tail bitmap' tail',
  encode_nullable null ok enc index es bitmap tail = Ok (bitmap', tail') ->
  length bitmap' = length bitmap /\ (bytes_ok bitmap -> bytes_ok bitmap') /\
  (forall j, null_bit bitmap' j = null_bit bitmap j || null_at null index es j) /\
  exists raws, Forall2 (encoded_as null enc) es raws /\ tail' = tail ++ concat raws.
Proof using.
  induction es as [|v es IH]; intros index bitmap tail bitmap' tail' E.
  - injection E as <- <-. split_and!; [done|done|..].
    + intros j. unfold null_at. rewrite lookup_nil. by rewrite andb_false_r, orb_false_r.
    + exists []. split; [constructor|by rewrite app_nil_r].
  - cbn in E. destruct (null v) eqn:Hnull.
    + destruct (ok v); [|done]. cbn in E. destruct (set_null bitmap index) as [bitmap1|] eqn:E1; [|done]. cbn in E.
      apply set_null_bit in E1 as (Hl1 & Hb1 & Hn1). destruct (IH _ _ _ _ _ E) as (Hl & Hb & Hn & raws & HF & ->). split_and!; [congruence|tauto| |].
      * intros j. rewrite Hn, Hn1, null_at_cons, Hnull, andb_true_r. by rewrite orb_assoc.
      * exists ([] :: raws). split; [|done]. constructor; [|done]. unfold encoded_as. by rewrite Hnull.
    + destruct (enc v) as [raw|] eqn:E1; [|done]. cbn in E. destruct (IH _ _ _ _ _ E) as (Hl & Hb & Hn & raws & HF & ->). split_and!; [done|done| |].
      * intros j. rewrite Hn, null_at_cons, Hnull, andb_false_r. done.
      * exists (raw :: raws). split; [|cbn; by rewrite app_assoc]. constructor; [|done]. unfold encoded_as. by rewrite Hnull.
Qed.

Definition reads_nulls {A} (null : A -> bool) (bm : bytes) (index : N) (es : list A) : Prop :=
  forall j, index <= j < index + len es -> is_null bm j = Ok (null_at null index es j).

Lemma reads_nulls_cons {A} (null : A -> bool) bm index v es :
  reads_nulls null bm index (v :: es) -> is_null bm index = Ok (null v) /\ reads_nulls null bm (index + 1) es.
Proof using.
  intros H. split.
  - rewrite (H index) by (rewrite len_cons; lia). f_equal. rewrite null_at_cons, N.eqb_refl. cbn [andb]. unfold null_at.
    rewrite (proj2 (N.leb_gt _ _)) by lia. apply orb_false_r.
  - intros j Hj. rewrite (H j) by (rewrite len_cons; lia). rewrite null_at_cons. by rewrite (proj2 (N.eqb_neq _ _)) by lia.
Qed.

Lemma zero_bits n j : null_bit (replicate n 0) j = false.
Proof using. unfold null_bit. destruct (_ !! _) as [b|] eqn:E; [|done]. apply lookup_replicate in E as [-> _]. apply N.bits_0. Qed.

(** No bit behind the last element is set. *)
Lemma no_padding bm n : bytes_ok bm -> len bm = null_bitmap_len n -> (forall j, n <= j -> null_bit bm j = false) -> padding_set bm n = false.
Proof using.
  intros Hb Hl Hn. unfold padding_set. destruct (N.eqb_spec (n mod 8) 0) as [|Hm]; [done|]. cbn [negb andb].
  destruct (last bm) as [b|] eqn:E; [|done]. apply negb_false_iff, N.eqb_eq, N.bits_inj. intros m.
  replace (N.shiftl 1 (n mod 8) - 1) with (N.ones (n mod 8)) by (rewrite N.ones_equiv, N.shiftl_1_l; lia).
  rewrite N.ldiff_spec, N.bits_0. destruct (N.ltb_spec m (n mod 8)) as [Hlt|Hge]; [by rewrite N.ones_spec_low, andb_false_r|].
  rewrite N.ones_spec_high, andb_true_r by done. rewrite last_lookup in E. assert (b < 256) as Hb' by exact (Forall_lookup_1 _ _ _ _ Hb E).
  destruct (N.ltb_spec m 8) as [H8|H8].
  - specialize (Hn (n / 8 * 8 + m)). unfold null_bit in Hn. rewrite (N.add_comm _ m), N.div_add, (N.div_small m 8), N.add_0_l in Hn by lia.
    rewrite N.Div0.mod_add, (N.mod_small m 8) in Hn by lia. rewrite <- Hn; [|pose proof (N.div_mod n 8 ltac:(lia)) as Hd; revert Hd Hge; generalize (n / 8) (n mod 8); clear; lia].
    replace (N.to_nat (n / 8)) with (pred (length bm)); [by rewrite E|]. unfold len, null_bitmap_len in Hl.
    enough ((n + 7) / 8 = n / 8 + 1) as Hq by (rewrite Hq in Hl; revert Hl; generalize (n / 8); clear; lia). pose proof (N.div_mod n 8 ltac:(lia)) as Hd. pose proof (N.mod_lt n 8 ltac:(lia)) as Hr.
    symmetry. apply (N.div_unique _ 8 _ (n mod 8 - 1)); revert Hd Hr Hm; generalize (n / 8) (n mod 8); clear; lia.
  - apply N.bits_above_log2. destruct (N.eq_0_gt_0_cases b) as [->|Hp]; [cbn; lia|]. change 256 with (2 ^ 8) in Hb'. apply (N.log2_lt_pow2 b 8 Hp) in Hb'. lia.
Qed.

(** The bytes of the elements, if each of them gives bytes. *)
Lemma encoded_bytes {A} (null : A -> bool) enc es raws :
  Forall2 (encoded_as null enc) es raws -> (forall e raw, e ∈ es -> enc e = Ok raw -> bytes_ok raw) -> bytes_ok (concat raws).
Proof using.
  intros HF He. apply Forall_concat. induction HF as [|e raw es raws H _ IH]; [done|]. constructor.
  - unfold encoded_as in H. destruct (null e); [subst; constructor|]. eapply He; [|exact H]. by constructor.
  - apply IH. intros e' raw' Hin. apply He. by constructor.
Qed.

Section Codec.
Context {D : Type} `{!DecimalType D}.
Abbreviation Value := (Value D).

(** ** Intervals and decimals *)

Definition put_interval (i : Interval) : bytes := to_le_signed 4 i.(months) ++ to_le_signed 4 i.(days) ++ to_le_signed 8 i.(micros).

Definition read_interval (b : bytes) : Reader Interval :=
  months ← read_i32 b;
  days ← read_i32 b;
  micros ← read_i64 b;
  mret (mkInterval months days micros).

Definition put_numeric (d : D) : bytes := to_le_signed 16 (mantissa d) ++ to_le_bytes 4 (scale d).

Definition read_numeric (b : bytes) : Reader D :=
  mantissa ← read_i128 b;
  scale ← read_u32 b;
  lift (ok_or (try_from_i128_with_scale mantissa scale) (corrupt_row "invalid numeric value")).

Definition read_bool (b : bytes) (m : string) : Reader Value :=
  byte ← read_u8 b;
  if byte =? 0 then mret (Boolean false) else if byte =? 1 then mret (Boolean true) else lift (Err (corrupt_row m)).

(** [String::from_utf8]. *)
Definition from_utf8 (raw : bytes) (m : string) : DbResult Value :=
  if utf8_valid raw then Ok (Text raw) else Err (corrupt_row m).

(** [u32::try_from(len)] and the bytes behind it. *)
Definition put_counted (value : bytes) (m : string) : DbResult bytes :=
  if U32_MAX <? len value then Err (db_storage ProgramLimitExceeded m) else Ok (to_le_bytes 4 (len value) ++ value).

Definition read_counted (b : bytes) : Reader bytes := n ← read_u32 b; read_exact b n.

(** ** Arrays *)

Definition ARRAY_PAYLOAD_VERSION : N := 1.
Definition MAX_ARRAY_PAYLOAD_BYTES : N := 64 * 1024 * 1024.

Definition array_size_error (m : string) : DbError := db_storage ProgramLimitExceeded m.

Definition validate_array_numeric_type (data_type : DataType) (decoded : bool) : DbResult unit :=
  match data_type with
  | TNumeric precision scale =>
      let valid := match precision with
        | Some precision => (1 <=? precision) && (precision <=? 28) && (scale <=? precision)
        | None => scale =? 0
        end in
      if valid then Ok ()
      else if decoded then Err (corrupt_row "invalid numeric array element type modifier")
      else Err (db_storage DatatypeMismatch "invalid numeric array element type modifier")
  | _ => Ok ()
  end.

Definition encode_array_element_type (data_type : DataType) : DbResult bytes :=
  _ ← validate_array_numeric_type data_type false;
  match data_type with
  | TInteger => Ok [0] | TText => Ok [1] | TBoolean => Ok [2] | TDate => Ok [3] | TTimestamp => Ok [4] | TTime => Ok [5]
  | TTimestampTz => Ok [6] | TInterval => Ok [7] | TBytea => Ok [8] | TUuid => Ok [9] | TDouble => Ok [10] | TReal => Ok [11]
  | TNumeric precision scale => Ok (12 :: to_le_bytes 4 (default U32_MAX precision) ++ to_le_bytes 4 scale)
  | TArray _ => Err (db_storage DatatypeMismatch "nested array element type is invalid")
  end.

Definition decode_array_element_type (b : bytes) : Reader DataType :=
  tag ← read_u8 b;
  data_type ← match tag with
    | 0 => mret TInteger | 1 => mret TText | 2 => mret TBoolean | 3 => mret TDate | 4 => mret TTimestamp | 5 => mret TTime
    | 6 => mret TTimestampTz | 7 => mret TInterval | 8 => mret TBytea | 9 => mret TUuid | 10 => mret TDouble | 11 => mret TReal
    | 12 =>
        precision ← read_u32 b;
        scale ← read_u32 b;
        mret (TNumeric (if negb (precision =? U32_MAX) then Some precision else None) scale)
    | _ => lift (Err (corrupt_row "unknown array element type tag"))
    end;
  _ ← lift (validate_array_numeric_type data_type true);
  mret data_type.

Definition put_array_bytes (value : bytes) : DbResult bytes := put_counted value "array element is too large".
Definition read_array_bytes (b : bytes) : Reader bytes := read_counted b.

Definition encode_array_element (data_type : DataType) (value : Value) : DbResult bytes :=
  match data_type, value with
  | TInteger, Integer z | TDate, Date z | TTimestamp, Timestamp z | TTime, Time z | TTimestampTz, TimestampTz z => Ok (to_le_signed 8 z)
  | TText, Text s => put_array_bytes s
  | TBoolean, Boolean b => Ok [if b then 1 else 0]
  | TInterval, IntervalV i => Ok (put_interval i)
  | TBytea, Bytes b => put_array_bytes b
  | TUuid, Uuid b => Ok b
  | TDouble, Float bits => Ok (to_le_bytes 8 bits)
  | TReal, Real bits => Ok (to_le_bytes 4 bits)
  | TNumeric _ _, Numeric d => Ok (put_numeric d)
  | _, _ => Err (db_storage DatatypeMismatch "array element does not match its element type")
  end.

Definition decode_array_element (b : bytes) (data_type : DataType) : Reader Value :=
  match data_type with
  | TInteger => z ← read_i64 b; mret (Integer z)
  | TText => raw ← read_array_bytes b; lift (from_utf8 raw "array text element is not valid UTF-8")
  | TBoolean => read_bool b "array boolean element is not 0 or 1"
  | TDate => z ← read_i64 b; mret (Date z)
  | TTimestamp => z ← read_i64 b; mret (Timestamp z)
  | TTime => z ← read_i64 b; mret (Time z)
  | TTimestampTz => z ← read_i64 b; mret (TimestampTz z)
  | TInterval => i ← read_interval b; mret (IntervalV i)
  | TBytea => raw ← read_array_bytes b; mret (Bytes raw)
  | TUuid => raw ← read_array b 16; mret (Uuid raw)
  | TDouble => bits ← read_u64 b; mret (Float bits)
  | TReal => bits ← read_u32 b; mret (Real bits)
  | TNumeric _ _ => d ← read_numeric b; mret (Numeric d)
  | TArray _ => lift (Err (corrupt_row "nested array element type is invalid"))
  end.

Definition element_len (value : Value) : option N :=
  match value with
  | Null => Some 0
  | Integer _ | Date _ | Timestamp _ | Time _ | TimestampTz _ | Float _ => Some 8
  | Text s => checked_add USIZE_MAX 4 (len s)
  | Boolean _ => Some 1
  | IntervalV _ | Uuid _ => Some 16
  | Bytes b => checked_add USIZE_MAX 4 (len b)
  | Numeric _ => Some 20
  | Real _ => Some 4
  | Array _ _ _ => None
  end.

Fixpoint elements_len (total : N) (elements : list Value) : DbResult N :=
  match elements with
  | [] => Ok total
  | value :: elements =>
      n ← ok_or (element_len value) (array_size_error "array element length overflows");
      total ← ok_or (checked_add USIZE_MAX total n) (array_size_error "array payload length overflows");
      elements_len total elements
  end.

Definition is_numeric (t : DataType) : bool := match t with TNumeric _ _ => true | _ => false end.

Definition encoded_array_payload_len (t : DataType) (ds : list ArrayDimension) (es : list Value) : DbResult N :=
  let type_len := 1 + (if is_numeric t then 1 else 0) * 8 in
  total ← ok_or
    (n ← checked_add USIZE_MAX 1 type_len;
     n ← checked_add USIZE_MAX n (1 + 4);
     n ← checked_add USIZE_MAX n (len ds * 8);
     checked_add USIZE_MAX n (null_bitmap_len (len es)))
    (array_size_error "array payload length overflows");
  total ← elements_len total es;
  if MAX_ARRAY_PAYLOAD_BYTES <? total then Err (array_size_error "array payload exceeds the supported length") else Ok total.

Definition put_dimension (d : ArrayDimension) : bytes := to_le_bytes 4 d.(dim_len) ++ to_le_signed 4 d.(lower_bound).

Definition null_value (v : Value) : bool := match v with Null => true | _ => false end.

Definition encode_elements (t : DataType) : N -> list Value -> bytes -> bytes -> DbResult (bytes * bytes) :=
  encode_nullable null_value (fun _ => Ok ()) (encode_array_element t).

Definition encode_array_payload (t : DataType) (ds : list ArrayDimension) (es : list Value) : DbResult bytes :=
  encoded_len ← encoded_array_payload_len t ds es;
  if U32_MAX <? len es then Err (db_storage ProgramLimitExceeded "array has too many elements")
  else if U8_MAX <? len ds then Err (db_storage ProgramLimitExceeded "array has too many dimensions")
  else
    ty ← encode_array_element_type t;
    let front := [ARRAY_PAYLOAD_VERSION] ++ ty ++ [len ds] ++ to_le_bytes 4 (len es) ++ concat (put_dimension <$> ds) in
    '(bitmap, tail) ← encode_elements t 0 es (replicate (N.to_nat (null_bitmap_len (len es))) 0) [];
    let b := front ++ bitmap ++ tail in
    if negb (len b =? encoded_len) then Err (db_internal "encoded array length did not match its preflight size") else Ok b.

Definition validate_decoded_array_payload_len (n : N) : DbResult unit :=
  if MAX_ARRAY_PAYLOAD_BYTES <? n then Err (corrupt_row "array payload exceeds the supported length") else Ok ().

Fixpoint read_dimensions (b : bytes) (n : nat) : Reader (list ArrayDimension) :=
  match n with
  | O => mret []
  | S n =>
      l ← read_u32 b;
      lower ← read_i32 b;
      ds ← read_dimensions b n;
      mret (mkDimension l lower :: ds)
  end.

Fixpoint decode_elements (b bitmap : bytes) (t : DataType) (index : N) (n : nat) : Reader (list Value) :=
  match n with
  | O => mret []
  | S n =>
      null ← lift (is_null bitmap index);
      value ← (if (null : bool) then mret Null else decode_array_element b t);
      es ← decode_elements b bitmap t (index + 1) n;
      mret (value :: es)
  end.

Definition decode_array_body (b : bytes) : Reader Value :=
  version ← read_u8 b;
  if negb (version =? ARRAY_PAYLOAD_VERSION) then lift (Err (corrupt_row ("unknown array payload version " +:+ pretty version)))
  else
    element_type ← decode_array_element_type b;
    ndim ← read_u8 b;
    if MAX_ARRAY_DIMENSIONS <? ndim then lift (Err (corrupt_row "array has too many dimensions"))
    else
      cardinality ← read_u32 b;
      if MAX_ARRAY_ELEMENTS <? cardinality then lift (Err (corrupt_row "array cardinality exceeds the supported limit"))
      else
        dimensions ← read_dimensions b (N.to_nat ndim);
        if (cardinality =? 0) && negb (ndim =? 0) then lift (Err (corrupt_row "empty array payload must have zero dimensions"))
        else if negb (cardinality =? 0) && (ndim =? 0) then lift (Err (corrupt_row "non-empty array payload must have dimensions"))
        else
          described ← lift (dimension_product (corrupt_row "array dimension product overflows") 1 dimensions);
          if negb (cardinality =? 0) && negb (described =? cardinality) then lift (Err (corrupt_row "array dimensions do not match cardinality"))
          else
            bitmap ← read_exact b (null_bitmap_len cardinality);
            if padding_set bitmap cardinality then lift (Err (corrupt_row "array null bitmap has nonzero padding bits"))
            else
              elements ← decode_elements b bitmap element_type 0 (N.to_nat cardinality);
              offset ← gets id;
              if negb (offset =? len b) then lift (Err (corrupt_row "array payload has trailing bytes"))
              else lift (map_err (fun e => corrupt_row ("invalid array payload: " +:+ e.(message))) (SqlArray_new element_type dimensions elements)).

Definition decode_array_payload (b : bytes) : DbResult Value :=
  _ ← validate_decoded_array_payload_len (len b);
  (decode_array_body b 0).2.

(** ** Keys *)

Definition KEY_TAG_NULL : N := 0.
Definition KEY_TAG_INTEGER : N := 1.
Definition KEY_TAG_TEXT : N := 2.
Definition KEY_TAG_BOOLEAN : N := 3.
Definition KEY_TAG_DATE : N := 4.
Definition KEY_TAG_TIMESTAMP : N := 5.
Definition KEY_TAG_BYTEA : N := 6.
Definition KEY_TAG_UUID : N := 7.
Definition KEY_TAG_DOUBLE : N := 8.
Definition KEY_TAG_NUMERIC : N := 9.
Definition KEY_TAG_REAL : N := 10.
Definition KEY_TAG_TIME : N := 11.
Definition KEY_TAG_TIMESTAMPTZ : N := 12.
Definition KEY_TAG_INTERVAL : N := 13.
Definition KEY_TAG_ARRAY : N := 14.

Definition encode_key_value (value : Value) : DbResult bytes :=
  match value with
  | Null => Ok [KEY_TAG_NULL]
  | Integer z => Ok (KEY_TAG_INTEGER :: to_le_signed 8 z)
  | Text s => raw ← put_counted s "key text is too large"; Ok (KEY_TAG_TEXT :: raw)
  | Boolean b => Ok [KEY_TAG_BOOLEAN; if b then 1 else 0]
  | Date z => Ok (KEY_TAG_DATE :: to_le_signed 8 z)
  | Timestamp z => Ok (KEY_TAG_TIMESTAMP :: to_le_signed 8 z)
  | Time z => Ok (KEY_TAG_TIME :: to_le_signed 8 z)
  | TimestampTz z => Ok (KEY_TAG_TIMESTAMPTZ :: to_le_signed 8 z)
  | IntervalV i => Ok (KEY_TAG_INTERVAL :: put_interval i)
  | Bytes b => raw ← put_counted b "key bytea is too large"; Ok (KEY_TAG_BYTEA :: raw)
  | Uuid b => Ok (KEY_TAG_UUID :: b)
  | Float bits => Ok (KEY_TAG_DOUBLE :: to_le_bytes 8 bits)
  | Numeric d => Ok (KEY_TAG_NUMERIC :: put_numeric d)
  | Real bits => Ok (KEY_TAG_REAL :: to_le_bytes 4 bits)
  | Array t ds es =>
      payload_len ← encoded_array_payload_len t ds es;
      if PAGE_SIZE <? payload_len then Err (db_storage ProgramLimitExceeded "array key is too large for a B-tree page")
      else
        payload ← encode_array_payload t ds es;
        if negb (len payload =? payload_len) then Err (db_internal "encoded array key length did not match its preflight size")
        else raw ← put_counted payload "array key is too large"; Ok (KEY_TAG_ARRAY :: raw)
  end.

Fixpoint encode_key_values (values : list Value) : DbResult bytes :=
  match values with
  | [] => Ok []
  | value :: values => enc ← encode_key_value value; rest ← encode_key_values values; Ok (enc ++ rest)
  end.

Definition encode_key (key : list Value) : DbResult bytes :=
  if U16_MAX <? len key then Err (db_storage InternalError "key has too many columns")
  else enc ← encode_key_values key; Ok (to_le_bytes 2 (len key) ++ enc).

Definition decode_key_value (b : bytes) : Reader Value :=
  tag ← read_u8 b;
  match tag with
  | 0 => mret Null
  | 1 => z ← read_i64 b; mret (Integer z)
  | 2 => raw ← read_counted b; lift (from_utf8 raw "key text is not valid UTF-8")
  | 3 => read_bool b "key boolean is not 0 or 1"
  | 4 => z ← read_i64 b; mret (Date z)
  | 5 => z ← read_i64 b; mret (Timestamp z)
  | 11 => z ← read_i64 b; mret (Time z)
  | 12 => z ← read_i64 b; mret (TimestampTz z)
  | 13 => i ← read_interval b; mret (IntervalV i)
  | 6 => raw ← read_counted b; mret (Bytes raw)
  | 7 => raw ← read_array b 16; mret (Uuid raw)
  | 8 => bits ← read_u64 b; mret (Float bits)
  | 9 => d ← read_numeric b; mret (Numeric d)
  | 10 => bits ← read_u32 b; mret (Real bits)
  | 14 => raw ← read_counted b; lift (decode_array_payload raw)
  | _ => lift (Err (corrupt_row "unknown key value tag"))
  end.

Fixpoint decode_key_values (b : bytes) (n : nat) : Reader (list Value) :=
  match n with
  | O => mret []
  | S n => value ← decode_key_value b; values ← decode_key_values b n; mret (value :: values)
  end.

Definition decode_key_prefix (b : bytes) : DbResult (list Value * N) :=
  match (count ← read_u16 b; decode_key_values b (N.to_nat count)) 0 with
  | (offset, Ok values) => Ok (values, offset)
  | (_, Err e) => Err e
  end.

Lemma parses_counted s m enc : put_counted s m = Ok enc -> parses read_counted enc s.
Proof using.
  unfold put_counted. destruct (N.ltb_spec U32_MAX (len s)); [done|]. intros [= <-].
  apply (parses_bind read_u32 (fun b n => read_exact b n) (to_le_bytes 4 (len s)) s (len s)); [by apply parses_u32|apply parses_exact].
Qed.

Lemma parses_interval i : interval_ok i -> parses read_interval (put_interval i) i.
Proof using.
  intros (H1 & H2 & H3). unfold read_interval, put_interval. destruct i as [m d u]. cbn in *.
  apply (parses_bind read_i32 (fun b months => days ← read_i32 b; micros ← read_i64 b; mret (mkInterval months days micros)) (to_le_signed 4 m) _ m); [by apply parses_i32|].
  apply (parses_bind read_i32 (fun b days => micros ← read_i64 b; mret (mkInterval m days micros)) (to_le_signed 4 d) _ d); [by apply parses_i32|].
  apply (parses_fmap read_i64 (mkInterval m d)). by apply parses_i64.
Qed.

Lemma parses_numeric d : value_ok (Numeric d) -> parses read_numeric (put_numeric d) d.
Proof using.
  intros (H1 & H2 & H3). unfold read_numeric, put_numeric.
  apply (parses_bind read_i128 (fun b m => sc ← read_u32 b; lift (ok_or (try_from_i128_with_scale m sc) (corrupt_row "invalid numeric value")))
    (to_le_signed 16 (mantissa d)) _ (mantissa d));
    [by apply parses_i128|].
  apply (parses_check read_u32 (fun sc => ok_or (try_from_i128_with_scale (mantissa d) sc) _) _ (scale d)); [by apply parses_u32|by rewrite H3].
Qed.

Lemma parses_bool (v : bool) m : parses (fun b => read_bool b m) [if v then 1 else 0] (Boolean v).
Proof using.
  unfold read_bool. apply (parses_bind read_u8 (fun _ byte => if byte =? 0 then mret (Boolean false) else if byte =? 1 then mret (Boolean true)
    else lift (Err (corrupt_row m))) [_] [] (if v then 1 else 0)); [apply parses_u8; destruct v; unfold U8_MAX; lia|]. destruct v; apply parses_ret.
Qed.

Lemma parses_text (s : bytes) m1 m2 enc :
  value_ok (Text s) -> put_counted s m1 = Ok enc -> parses (fun b => raw ← read_counted b; lift (from_utf8 raw m2)) enc (Text s).
Proof using.
  intros (_ & Hu) E. apply (parses_check read_counted (fun raw => from_utf8 raw m2) _ s); [by eapply parses_counted|]. unfold from_utf8. by rewrite Hu.
Qed.

(** The elements of an array. *)
Lemma parses_element t v enc :
  value_ok v -> encode_array_element t v = Ok enc -> parses (fun b => decode_array_element b t) enc v.
Proof using.
  destruct t, v; try discriminate; cbn [value_ok encode_array_element decode_array_element]; intros Hok E;
    unfold put_array_bytes, read_array_bytes in *; try (by eapply parses_text); try (by eapply (parses_fmap read_counted), parses_counted);
    injection E as <-;
    first [ by apply (parses_fmap read_i64), parses_i64
          | by apply parses_bool
          | by apply (parses_fmap read_interval), parses_interval
          | by apply (parses_fmap (fun b => read_array b 16)), parses_array; destruct Hok
          | by apply (parses_fmap read_u64), parses_u64
          | by apply (parses_fmap read_u32), parses_u32
          | by apply (parses_fmap read_numeric), parses_numeric ].
Qed.

Lemma numeric_type_ok t d u : validate_array_numeric_type t d = Ok u ->
  validate_array_numeric_type t true = Ok () /\ forall p sc, t = TNumeric p sc -> default 0 p <= 28 /\ sc <= 28.
Proof using.
  destruct t as [| | | | | | | | | | | |p sc|]; cbn; try done.
  set (ok := match p with Some _ => _ | None => _ end). intros E.
  assert (ok = true) as Hok by (destruct ok; [done|by destruct d]). rewrite Hok. split; [done|]. intros ? ? [= <- <-].
  destruct p; subst ok; cbn in *; repeat rewrite andb_true_iff in Hok; rewrite ?N.leb_le, ?N.eqb_eq in Hok; lia.
Qed.

Lemma parses_element_type t enc : encode_array_element_type t = Ok enc -> parses decode_array_element_type enc t.
Proof using.
  unfold encode_array_element_type. destruct (validate_array_numeric_type t false) as [u|] eqn:V; [|discriminate].
  destruct (numeric_type_ok _ _ _ V) as [V' Hn]. clear V. intros E. unfold decode_array_element_type. cbn [mbind result_bind] in E.
  assert (Hv : parses (fun b => _ ← lift (validate_array_numeric_type t true); mret t) [] t).
  { rewrite V'. intros pre rest Hl. unfold mbind, se_bind, lift. by apply (parses_ret t). }
  destruct t as [| | | | | | | | | | | |p sc|]; try discriminate E; apply Ok_inj in E; subst enc;
    try (apply parses_tag; [unfold U8_MAX; lia|]; exact Hv).
  destruct (Hn _ _ eq_refl) as [Hp Hs]. apply parses_tag; [unfold U8_MAX; lia|]. cbv beta iota.
  rewrite <- (app_nil_r (to_le_bytes 4 _ ++ _)).
  apply (parses_bind (fun b => precision ← read_u32 b; scale ← read_u32 b; mret (TNumeric (if negb (precision =? U32_MAX) then Some precision else None) scale))
    (fun _ data_type => _ ← lift (validate_array_numeric_type data_type true); mret data_type) _ [] (TNumeric p sc)); [|by apply Hv].
  apply (parses_bind read_u32 (fun b precision => scale ← read_u32 b; mret (TNumeric (if negb (precision =? U32_MAX) then Some precision else None) scale))
    (to_le_bytes 4 _) _ (default U32_MAX p)); [apply parses_u32; destruct p; unfold U32_MAX in *; cbn in *; lia|].
  assert ((if negb (default U32_MAX p =? U32_MAX) then Some (default U32_MAX p) else None) = p) as ->.
  { destruct p as [n|]; [|done]. cbn in *. destruct (N.eqb_spec n U32_MAX); [unfold U32_MAX in *; lia|done]. }
  apply (parses_fmap read_u32 (TNumeric p)), parses_u32. unfold U32_MAX. lia.
Qed.

Lemma parses_dimensions ds : Forall dimension_ok ds -> parses (fun b => read_dimensions b (length ds)) (concat (put_dimension <$> ds)) ds.
Proof using.
  induction 1 as [|[l lo] ds [Hl Hlo] _ IH]; [apply parses_ret|]. cbn [length read_dimensions fmap list_fmap concat put_dimension dim_len lower_bound] in *.
  unfold put_dimension at 1. cbn [dim_len lower_bound]. rewrite <- app_assoc.
  apply (parses_bind read_u32 (fun b l => lower ← read_i32 b; ds' ← read_dimensions b (length ds); mret (mkDimension l lower :: ds')) (to_le_bytes 4 l) _ l);
    [by apply parses_u32|].
  apply (parses_bind read_i32 (fun b lower => ds' ← read_dimensions b (length ds); mret (mkDimension l lower :: ds')) (to_le_signed 4 lo) _ lo);
    [by apply parses_i32|].
  by apply (parses_fmap (fun b => read_dimensions b (length ds)) (cons (mkDimension l lo))).
Qed.

Lemma parses_elements bm t es raws : forall index,
  Forall2 (encoded_as null_value (encode_array_element t)) es raws -> Forall value_ok es -> reads_nulls null_value bm index es ->
  parses (fun b => decode_elements b bm t index (length es)) (concat raws) es.
Proof using.
  intros index HF. revert index. induction HF as [|v raw es raws Hv HF IH]; intros index Hok Hbm; [apply parses_ret|].
  apply Forall_cons in Hok as [Hvok Hok]. apply reads_nulls_cons in Hbm as [Hn Hbm]. cbn [length decode_elements concat].
  rewrite <- (app_nil_l (raw ++ concat raws)).
  apply (parses_bind (fun _ => lift (is_null bm index)) (fun b (null : bool) =>
    value ← (if null then mret Null else decode_array_element b t); es' ← decode_elements b bm t (index + 1) (length es); mret (value :: es'))
    [] _ (null_value v)); [by apply parses_lift|].
  apply (parses_bind (fun b => if null_value v then mret Null else decode_array_element b t)
    (fun b value => es' ← decode_elements b bm t (index + 1) (length es); mret (value :: es')) raw (concat raws) v).
  - unfold encoded_as in Hv. destruct (null_value v) eqn:E; [|by apply parses_element]. destruct v; try done. subst raw. apply parses_ret.
  - by apply (parses_fmap (fun b => decode_elements b bm t (index + 1) (length es)) (cons v)), IH.
Qed.

Lemma dimension_product_err e e' ds : forall n m, dimension_product e n ds = Ok m -> dimension_product e' n ds = Ok m.
Proof using. induction ds as [|d ds IH]; intros n m; cbn; [done|]. destruct (checked_mul _ _ _); [apply IH|done]. Qed.

(** What [SqlArray::new] established. *)
Lemma array_shape t ds es : SqlArray_new t ds es = Ok (Array t ds es : Value) ->
  len ds <= MAX_ARRAY_DIMENSIONS /\ len es <= MAX_ARRAY_ELEMENTS /\ (len es = 0 <-> len ds = 0) /\
  forall e, exists n, dimension_product e 1 ds = Ok n /\ (len es <> 0 -> n = len es).
Proof using.
  unfold SqlArray_new, SqlArray_empty. destruct (is_array_type t); [done|]. destruct (N.ltb_spec MAX_ARRAY_DIMENSIONS (len ds)); [done|].
  destruct (N.ltb_spec MAX_ARRAY_ELEMENTS (len es)); [done|]. destruct es as [|v es].
  - destruct (existsb _ _); [done|]. intros [= <-]. split_and!; [lia|lia|done|]. intros e. by exists 1.
  - destruct ds as [|d ds]; [done|]. set (ds' := d :: ds) in *. set (es' := v :: es) in *.
    destruct (check_dimensions ds'); [|done]. cbn [mbind result_bind]. destruct (dimension_product _ 1 ds') as [n|] eqn:E; [|done]. cbn [mbind result_bind].
    destruct (N.eqb_spec n (len es')) as [Hn|]; [|done]. intros _. split_and!; [done|done| |].
    + unfold ds', es'. rewrite !len_cons. lia.
    + intros e. exists n. split; [by eapply dimension_product_err|done].
Qed.

Lemma array_payload_fits t ds es payload : encode_array_payload t ds es = Ok payload -> len payload <= MAX_ARRAY_PAYLOAD_BYTES.
Proof using.
  unfold encode_array_payload, encoded_array_payload_len. intros E.
  destruct (ok_or _ _) as [n|]; [|done]. cbn [mbind result_bind] in E. destruct (elements_len n es) as [total|]; [|done]. cbn [mbind result_bind] in E.
  destruct (N.ltb_spec MAX_ARRAY_PAYLOAD_BYTES total); [done|]. cbn [mbind result_bind] in E.
  destruct (U32_MAX <? len es); [done|]. destruct (U8_MAX <? len ds); [done|]. destruct (encode_array_element_type t); [|done]. cbn [mbind result_bind] in E.
  destruct (encode_elements _ _ _ _ _) as [[bm tail]|]; [|done]. cbn [mbind result_bind] in E.
  destruct (N.eqb_spec (len (([ARRAY_PAYLOAD_VERSION] ++ a ++ [len ds] ++ to_le_bytes 4 (len es) ++ concat (put_dimension <$> ds)) ++ bm ++ tail)) total) as [Ht|]; [|done].
  cbn [negb] in E. apply Ok_inj in E. subst payload. by rewrite Ht.
Qed.

Lemma array_payload_parts t ds es payload : value_ok (Array t ds es) -> encode_array_payload t ds es = Ok payload ->
  exists ty bm enc, payload = [ARRAY_PAYLOAD_VERSION] ++ ty ++ [len ds] ++ to_le_bytes 4 (len es) ++ concat (put_dimension <$> ds) ++ bm ++ enc /\
    encode_array_element_type t = Ok ty /\ len bm = null_bitmap_len (len es) /\ padding_set bm (len es) = false /\
    parses (fun b => decode_elements b bm t 0 (length es)) enc es.
Proof using.
  intros Hok. unfold encode_array_payload. intros E. destruct (encoded_array_payload_len t ds es) as [total|]; [|done]. cbn [mbind result_bind] in E.
  destruct (U32_MAX <? len es); [done|]. destruct (U8_MAX <? len ds); [done|]. destruct (encode_array_element_type t) as [ty|]; [|done]. cbn [mbind result_bind] in E.
  destruct (encode_elements _ _ _ _ _) as [[bm tail]|] eqn:Ee; [|done]. cbn [mbind result_bind] in E. destruct (negb _) in E; [done|]. apply Ok_inj in E. subst payload.
  apply encode_nullable_spec in Ee as (Hl & Hb & Hn & raws & HF & ->). rewrite length_replicate in Hl. rewrite app_nil_l.
  assert (Hlb : len bm = null_bitmap_len (len es)) by (unfold len at 1; by rewrite Hl, N2Nat.id).
  assert (Hnull : forall j, null_bit bm j = null_at null_value 0 es j) by (intros j; by rewrite Hn, zero_bits).
  exists ty, bm, (concat raws). split_and!; [by rewrite <- !app_assoc|done|done| |].
  - apply no_padding; [apply Hb; by apply Forall_replicate|done|]. intros j Hj. rewrite Hnull. unfold null_at.
    rewrite lookup_ge_None_2; [apply andb_false_r|unfold len in Hj; lia].
  - apply parses_elements; [done|by eapply array_elements_ok|]. intros j Hj. rewrite is_null_bit; [by rewrite Hnull|]. rewrite Hl. apply bitmap_index. lia.
Qed.

(** An array's payload is read back as the array. *)
Lemma array_roundtrip t ds es payload :
  value_ok (Array t ds es) -> encode_array_payload t ds es = Ok payload -> decode_array_payload payload = Ok (Array t ds es).
Proof using.
  intros Hok E. pose proof (array_payload_fits _ _ _ _ E) as Hmax.
  destruct (array_payload_parts _ _ _ _ Hok E) as (ty & bm & enc & Hpl & Hty & Hbm & Hpad & Hes). destruct Hok as (Hnew & Hds & _).
  destruct (array_shape _ _ _ Hnew) as (Hd6 & Hmaxe & Hzero & Hprod).
  assert (Hu : MAX_ARRAY_PAYLOAD_BYTES < USIZE_MAX) by done. rewrite <- (app_nil_r enc) in Hpl.
  unfold decode_array_payload, validate_decoded_array_payload_len. rewrite (proj2 (N.ltb_ge _ _)) by done. cbn [mbind result_bind].
  enough (decode_array_body payload (len (@nil N)) = (len payload, Ok (Array t ds es))) as Hb by (change 0 with (len (@nil N)); by rewrite Hb).
  unfold decode_array_body.
  read_next Hpl read_u8 [ARRAY_PAYLOAD_VERSION] ARRAY_PAYLOAD_VERSION; [by apply parses_u8|]. rewrite N.eqb_refl. cbn [negb].
  read_next Hpl decode_array_element_type ty t; [by apply parses_element_type|].
  read_next Hpl read_u8 [len ds] (len ds); [apply parses_u8; unfold U8_MAX, MAX_ARRAY_DIMENSIONS in *; lia|]. rewrite (proj2 (N.ltb_ge _ _)) by done.
  read_next Hpl read_u32 (to_le_bytes 4 (len es)) (len es); [apply parses_u32; unfold U32_MAX, MAX_ARRAY_ELEMENTS in *; lia|].
  rewrite (proj2 (N.ltb_ge _ _)) by done. 
  read_next Hpl (fun b => read_dimensions b (N.to_nat (len ds))) (concat (put_dimension <$> ds)) ds; [unfold len; rewrite Nat2N.id; by apply parses_dimensions|].
  assert ((len es =? 0) && negb (len ds =? 0) = false) as -> by (destruct (N.eqb_spec (len es) 0), (N.eqb_spec (len ds) 0); done || tauto).
  assert (negb (len es =? 0) && (len ds =? 0) = false) as -> by (destruct (N.eqb_spec (len es) 0), (N.eqb_spec (len ds) 0); done || tauto).
  destruct (Hprod (corrupt_row "array dimension product overflows")) as (n & -> & Hn). rewrite lift_ok.
  assert (negb (len es =? 0) && negb (n =? len es) = false) as ->.
  { destruct (N.eqb_spec (len es) 0); [done|]. by rewrite (Hn n0), N.eqb_refl. }
  read_next Hpl (fun b => read_exact b (null_bitmap_len (len es))) bm bm; [rewrite <- Hbm; apply parses_exact|]. rewrite Hpad.
  read_next Hpl (fun b => decode_elements b bm t 0 (N.to_nat (len es))) enc es; [unfold len; by rewrite Nat2N.id|].
  rewrite <- !app_assoc, app_nil_l. rewrite app_nil_r in Hpl. rewrite <- Hpl. unfold gets, mbind, se_bind, id. rewrite N.eqb_refl. cbn [negb].
  unfold lift. by rewrite Hnew.
Qed.

(** ** Keys read back *)

Lemma parses_array_value t ds es payload enc : value_ok (Array t ds es) -> encode_array_payload t ds es = Ok payload ->
  put_counted payload "array key is too large" = Ok enc -> parses (fun b => raw ← read_counted b; lift (decode_array_payload raw)) enc (Array t ds es).
Proof using. intros Hok Ep Ec. eapply (parses_check read_counted decode_array_payload); [by eapply parses_counted|by apply array_roundtrip]. Qed.

Lemma parses_key_value v enc : value_ok v -> encode_key_value v = Ok enc -> parses decode_key_value enc v.
Proof using.
  destruct v as [|z|s|x|z|z|z|z|i|b|u|f|d|f|t ds es]; intros Hok E.
  15:{ unfold encode_key_value in E. destruct (encoded_array_payload_len t ds es); [|done]. cbn [mbind result_bind] in E.
    destruct (PAGE_SIZE <? a); [done|]. destruct (encode_array_payload t ds es) as [payload|] eqn:Ep; [|done]. cbn [mbind result_bind] in E.
    destruct (negb _) in E; [done|]. destruct (put_counted payload _) as [raw|] eqn:Ec; [|done]. cbn [mbind result_bind] in E. apply Ok_inj in E as <-.
    apply parses_tag; [done|]. by eapply parses_array_value. }
  all: cbn [encode_key_value value_ok] in *;
    try (destruct (put_counted _ _) as [raw|] eqn:Ec; [|done]; cbn [mbind result_bind] in E); apply Ok_inj in E as <-; apply parses_tag; try done.
  all: first [ by apply parses_ret | by apply (parses_fmap read_i64), parses_i64 | by eapply parses_text | by apply parses_bool
    | by apply (parses_fmap read_interval), parses_interval | by eapply (parses_fmap read_counted), parses_counted
    | by apply (parses_fmap (fun b => read_array b 16)), parses_array; destruct Hok | by apply (parses_fmap read_u64), parses_u64
    | by apply (parses_fmap read_u32), parses_u32 | by apply (parses_fmap read_numeric), parses_numeric ].
Qed.

Lemma parses_key_values vs : forall enc, Forall value_ok vs -> encode_key_values vs = Ok enc -> parses (fun b => decode_key_values b (length vs)) enc vs.
Proof using.
  induction vs as [|v vs IH]; intros enc Hok E; [apply Ok_inj in E as <-; apply parses_ret|]. apply Forall_cons in Hok as [Hv Hok]. cbn in E.
  destruct (encode_key_value v) as [e1|] eqn:E1; [|done]. destruct (encode_key_values vs) as [e2|] eqn:E2; [|done]. apply Ok_inj in E as <-. cbn [length decode_key_values].
  apply (parses_bind decode_key_value (fun b value => values ← decode_key_values b (length vs); mret (value :: values)) e1 e2 v); [by apply parses_key_value|].
  by apply (parses_fmap (fun b => decode_key_values b (length vs)) (cons v)), IH.
Qed.

(** A key fits in memory. *)
Definition key_fits (key : list Value) : Prop := Forall value_ok key /\ forall b, encode_key key = Ok b -> len b <= USIZE_MAX.

Lemma key_roundtrip key b rest : key_fits key -> encode_key key = Ok b -> decode_key_prefix (b ++ rest) = Ok (key, len b).
Proof using.
  intros [Hok Hlen] E. specialize (Hlen _ E). unfold encode_key in E. destruct (N.ltb_spec U16_MAX (len key)); [done|].
  destruct (encode_key_values key) as [enc|] eqn:Ek; [|done]. cbn [mbind result_bind] in E. apply Ok_inj in E as <-.
  assert (P : parses (fun b => count ← read_u16 b; decode_key_values b (N.to_nat count)) (to_le_bytes 2 (len key) ++ enc) key).
  { apply (parses_bind read_u16 (fun b count => decode_key_values b (N.to_nat count)) (to_le_bytes 2 (len key)) enc (len key)); [by apply parses_u16|].
    unfold len. rewrite Nat2N.id. by apply parses_key_values. }
  specialize (P [] rest). unfold decode_key_prefix. change 0 with (len (@nil N)). rewrite app_nil_l in P. by rewrite P.
Qed.

(** ** What is encoded is bytes *)

Lemma bytes_ok_one b : b < 256 -> bytes_ok [b].
Proof using. intros. by constructor. Qed.
Lemma bytes_ok_bool (x : bool) : bytes_ok [if x then 1 else 0].
Proof using. by apply bytes_ok_one; destruct x. Qed.
Lemma put_counted_bytes s m enc : bytes_ok s -> put_counted s m = Ok enc -> bytes_ok enc.
Proof using. unfold put_counted. intros Hs. destruct (_ <? _); [done|]. intros E. apply Ok_inj in E as <-. apply bytes_ok_app; [apply to_le_bytes_ok|done]. Qed.
Lemma put_interval_bytes i : bytes_ok (put_interval i).
Proof using. unfold put_interval, to_le_signed. repeat apply bytes_ok_app; apply to_le_bytes_ok. Qed.
Lemma put_numeric_bytes d : bytes_ok (put_numeric d).
Proof using. unfold put_numeric, to_le_signed. repeat apply bytes_ok_app; apply to_le_bytes_ok. Qed.

Lemma encode_array_element_bytes t v enc : value_ok v -> encode_array_element t v = Ok enc -> bytes_ok enc.
Proof using.
  destruct t, v; try discriminate; cbn [value_ok encode_array_element]; intros Hok E; unfold put_array_bytes in *;
    try (by eapply put_counted_bytes; [|exact E]; first [exact Hok|apply Hok]); apply Ok_inj in E as <-;
    first [ apply to_le_bytes_ok | apply bytes_ok_bool | apply put_interval_bytes | apply put_numeric_bytes | apply Hok ].
Qed.

Lemma encode_array_element_type_bytes t ty : encode_array_element_type t = Ok ty -> bytes_ok ty.
Proof using.
  unfold encode_array_element_type. destruct (validate_array_numeric_type _ _); [|done]. cbn [mbind result_bind].
  destruct t; try done; intros E; apply Ok_inj in E as <-; try by apply bytes_ok_one. constructor; [done|]. apply bytes_ok_app; apply to_le_bytes_ok.
Qed.

Lemma encode_array_payload_bytes t ds es payload : value_ok (Array t ds es) -> encode_array_payload t ds es = Ok payload -> bytes_ok payload.
Proof using.
  intros Hok. unfold encode_array_payload. intros E. destruct (encoded_array_payload_len t ds es) as [total|]; [|done]. cbn [mbind result_bind] in E.
  destruct (U32_MAX <? len es); [done|]. destruct (N.ltb_spec U8_MAX (len ds)) as [|Hd]; [done|].
  destruct (encode_array_element_type t) as [ty|] eqn:Et; [|done]. cbn [mbind result_bind] in E.
  destruct (encode_elements _ _ _ _ _) as [[bm tail]|] eqn:Ee; [|done]. cbn [mbind result_bind] in E. destruct (negb _) in E; [done|]. apply Ok_inj in E as <-.
  apply encode_nullable_spec in Ee as (_ & Hb & _ & raws & HF & ->). rewrite app_nil_l.
  assert (bytes_ok (concat raws)).
  { eapply encoded_bytes; [exact HF|]. intros e raw He. apply encode_array_element_bytes. by eapply (proj1 (Forall_forall _ _) (array_elements_ok _ _ _ Hok)). }
  assert (bytes_ok bm) by (by apply Hb, Forall_replicate).
  repeat apply bytes_ok_app; try done; [by apply bytes_ok_one|by eapply encode_array_element_type_bytes|apply bytes_ok_one; unfold U8_MAX in Hd; lia|apply to_le_bytes_ok|].
  apply Forall_concat, Forall_fmap, Forall_true. intros d. apply bytes_ok_app; apply to_le_bytes_ok.
Qed.

Lemma encode_key_value_bytes v enc : value_ok v -> encode_key_value v = Ok enc -> bytes_ok enc.
Proof using.
  destruct v as [|z|s|x|z|z|z|z|i|b|u|f|d|f|t ds es]; intros Hok E.
  15:{ unfold encode_key_value in E. destruct (encoded_array_payload_len t ds es); [|done]. cbn [mbind result_bind] in E.
    destruct (PAGE_SIZE <? a); [done|]. destruct (encode_array_payload t ds es) as [payload|] eqn:Ep; [|done]. cbn [mbind result_bind] in E.
    destruct (negb _) in E; [done|]. destruct (put_counted payload _) as [raw|] eqn:Ec; [|done]. cbn [mbind result_bind] in E. apply Ok_inj in E as <-.
    constructor; [done|]. eapply put_counted_bytes; [|done]. by eapply encode_array_payload_bytes. }
  all: cbn [encode_key_value value_ok] in *;
    try (destruct (put_counted _ _) as [raw|] eqn:Ec; [|done]; cbn [mbind result_bind] in E); apply Ok_inj in E as <-; (constructor; [done|]).
  all: first [ done | apply to_le_bytes_ok | apply bytes_ok_bool | apply put_interval_bytes | apply put_numeric_bytes | apply Hok
    | by eapply put_counted_bytes; [|exact Ec]; first [exact Hok|apply Hok] ].
Qed.

Lemma encode_key_ok key b : key_fits key -> encode_key key = Ok b -> bytes_ok b.
Proof using.
  intros [Hok _]. unfold encode_key. destruct (_ <? _); [done|]. destruct (encode_key_values key) as [enc|] eqn:Ek; [|done]. cbn [mbind result_bind].
  intros E. apply Ok_inj in E as <-. apply bytes_ok_app; [apply to_le_bytes_ok|]. clear -Hok Ek. revert enc Ek.
  induction Hok as [|v vs Hv _ IH]; intros enc Ek; [apply Ok_inj in Ek as <-; constructor|]. cbn in Ek. destruct (encode_key_value v) as [e1|] eqn:E1; [|done].
  destruct (encode_key_values vs) as [e2|]; [|done]. apply Ok_inj in Ek as <-. apply bytes_ok_app; [by eapply encode_key_value_bytes|by apply IH].
Qed.

(** A key is read back from the front of any bytes as it was encoded: whatever follows it,
    the decoder returns the very values, nulls, floats by their bits, arrays with their
    dimensions and null elements included, and the number of bytes they took, and what was
    encoded is bytes.  Values are values of the program: text is UTF-8, an array passed its
    constructor, and a decimal is the one its mantissa and scale make. *)
Theorem encoded_key_is_read key b rest :
  Forall value_ok key -> encode_key key = Ok b -> len b <= USIZE_MAX -> decode_key_prefix (b ++ rest) = Ok (key, len b) /\ bytes_ok b.
Proof using.
  intros Hok E Hl. assert (Hf : key_fits key) by (split; [done|]; intros b' E'; rewrite E in E'; by apply Ok_inj in E' as <-).
  split; [by apply key_roundtrip|by eapply encode_key_ok].
Qed.
End Codec.

Definition demo_array : Value (Z * N) :=
  Array (TNumeric (Some 5) 2) [mkDimension 3 (-1)] [Numeric ((-150)%Z, 2); Null; Numeric (7%Z, 0)].
Definition demo_key : list (Value (Z * N)) := [Integer (-5); Text [0x68; 0xC3; 0xA9]; Null; Boolean true; demo_array].

Lemma demo_array_ok : value_ok demo_array.
Proof. split; [reflexivity|]. split; [constructor; [|constructor]|]; vm_compute; repeat split; done. Qed.
Lemma demo_key_ok : Forall value_ok demo_key.
Proof.
  unfold demo_key. apply Forall_cons_2; [vm_compute; split; done|]. apply Forall_cons_2; [split; [repeat constructor|reflexivity]|].
  apply Forall_cons_2; [exact I|]. apply Forall_cons_2; [exact I|]. apply Forall_cons_2; [apply demo_array_ok|constructor].
Qed.

Lemma encoded_key_is_read_witness : exists b, encode_key demo_key = Ok b /\ decode_key_prefix (b ++ [1; 2; 3]) = Ok (demo_key, len b) /\ bytes_ok b.
Proof.
  eexists. split; [vm_compute; reflexivity|]. apply (encoded_key_is_read demo_key); [apply demo_key_ok|vm_compute; reflexivity|vm_compute; discriminate].
Defined.
