(* ===== verification/RowFormat.v ===== *)
(** * Rows on a page (src/crates/storage/src/codec.rs)

    A row is its version byte, the MVCC header ([TupleHeader]; not in format 1), the bitmap
    of its null columns and the other columns in order.  Format 3 tags the length words of
    text, bytea and array columns: the value is there as it is, compressed, or a pointer to
    chunks in another table.  Of the schema only what the codec reads is modelled. *)

From S2P Require Import Prelude Errors Mvcc CheckedBytes ByteArray TupleHeader Compress KeyOrder Value RowCodec.
Local Open Scope N_scope.

Definition VARLENA_TAG_SHIFT : N := 30.
Definition VARLENA_LEN_MASK : N := N.shiftl 1 VARLENA_TAG_SHIFT - 1.
Definition TAG_PLAIN : N := 0.
Definition TAG_COMPRESSED : N := 1.
Definition TAG_EXTERNAL : N := 2.
Definition TOAST_POINTER_LEN : N := 17.
Definition I64_MAX : N := 2 ^ 63 - 1.

Record ColumnDef : Type := mkColumn { col_name : string; data_type : DataType; nullable : bool }.
Record TableSchema : Type := mkSchema { table_name : string; columns : list ColumnDef; toast_table_id : option N }.

Record ToastPointer : Type := mkToastPointer { value_id : N; raw_len : N; stored_len : N; tp_codec : N }.

Inductive VarlenaPhysical : Type :=
  | Plain (raw : bytes)
  | Compressed (codec : N) (dict_id : option N) (raw_len raw_crc32 : N) (payload : bytes)
  | External (pointer : ToastPointer).

(** ** Validation *)

Definition validate_varlena_u32_len (n : N) (what : string) : DbResult unit :=
  if VARLENA_LEN_MASK <? n then Err (db_storage ProgramLimitExceeded (what +:+ " exceeds the supported length")) else Ok ().
Definition validate_decoded_varlena_u32_len (n : N) (what : string) : DbResult unit :=
  if VARLENA_LEN_MASK <? n then Err (corrupt_row (what +:+ " exceeds the supported length")) else Ok ().
Definition validate_toast_pointer_value_id (id : N) : DbResult unit :=
  if (id =? 0) || (I64_MAX <? id) then Err (corrupt_row ("toast pointer has invalid value_id " +:+ pretty id)) else Ok ().
Definition validate_toast_pointer_codec (codec : N) : DbResult unit :=
  if negb ((codec =? CODEC_NONE) || (codec =? CODEC_ZSTD) || (codec =? CODEC_ZSTD_DICT))
  then Err (corrupt_row ("toast pointer uses unsupported codec " +:+ pretty codec)) else Ok ().

Definition validate_inline_compressed_codec_metadata (codec : N) (dict_id : option N) : DbResult unit :=
  if codec =? CODEC_ZSTD then
    match dict_id with None => Ok () | Some _ => Err (corrupt_row "dict id is invalid for dict-less zstd value") end
  else if codec =? CODEC_ZSTD_DICT then
    match dict_id with
    | Some dict_id => if negb (dict_id =? 0) then Ok () else Err (corrupt_row "dictionary id 0 is invalid for zstd-dict value")
    | None => Err (corrupt_row "missing dictionary id for zstd-dict value")
    end
  else if codec =? CODEC_NONE then Err (corrupt_row "codec none is invalid for inline compression")
  else Err (corrupt_row ("unknown inline compressed codec " +:+ pretty codec)).

Definition validate_inline_compressed_metadata (codec : N) (dict_id : option N) (raw_len : N) : DbResult unit :=
  _ ← validate_varlena_u32_len raw_len "inline compressed raw length";
  validate_inline_compressed_codec_metadata codec dict_id.
Definition validate_decoded_inline_compressed_metadata (codec : N) (dict_id : option N) (raw_len : N) : DbResult unit :=
  _ ← validate_decoded_varlena_u32_len raw_len "inline compressed raw length";
  validate_inline_compressed_codec_metadata codec dict_id.

(** ** Length words *)

Definition pack_varlena_len (tag stored_len : N) : DbResult N :=
  if TAG_EXTERNAL <? tag then Err (corrupt_row ("invalid varlena tag " +:+ pretty tag))
  else if U32_MAX <? stored_len then Err (db_storage ProgramLimitExceeded "varlena value exceeds the supported length")
  else _ ← validate_varlena_u32_len stored_len "varlena value length"; Ok (N.lor (N.shiftl tag VARLENA_TAG_SHIFT) stored_len).

Definition unpack_varlena_len (word : N) : DbResult (N * N) :=
  let tag := N.shiftr word VARLENA_TAG_SHIFT in
  if U8_MAX <? tag then Err (corrupt_row "varlena tag does not fit u8")
  else if TAG_EXTERNAL <? tag then Err (corrupt_row "reserved varlena tag")
  else Ok (tag, N.land word VARLENA_LEN_MASK).

Definition put_varlena (tag : N) (payload : bytes) : DbResult bytes :=
  word ← pack_varlena_len tag (len payload);
  Ok (to_le_bytes 4 word ++ payload).

(** ** Pointers to chunks *)

Definition ToastPointer_encode (p : ToastPointer) : DbResult bytes :=
  _ ← validate_toast_pointer_value_id p.(value_id);
  _ ← validate_varlena_u32_len p.(raw_len) "toast pointer raw length";
  _ ← validate_varlena_u32_len p.(stored_len) "toast pointer stored length";
  _ ← validate_toast_pointer_codec p.(tp_codec);
  Ok (to_le_bytes 8 p.(value_id) ++ to_le_bytes 4 p.(raw_len) ++ to_le_bytes 4 p.(stored_len) ++ [p.(tp_codec)]).

Definition read_toast_pointer (b : bytes) : SE N DbError ToastPointer :=
  value_id ← read_u64 b;
  raw_len ← read_u32 b;
  stored_len ← read_u32 b;
  codec ← read_u8 b;
  mret (mkToastPointer value_id raw_len stored_len codec).

Definition ToastPointer_decode (b : bytes) : DbResult ToastPointer :=
  if negb (len b =? TOAST_POINTER_LEN)
  then Err (corrupt_row ("toast pointer has " +:+ pretty (len b) +:+ " bytes, expected " +:+ pretty TOAST_POINTER_LEN))
  else
    p ← (read_toast_pointer b 0).2;
    _ ← validate_toast_pointer_value_id p.(value_id);
    _ ← validate_decoded_varlena_u32_len p.(raw_len) "toast pointer raw length";
    _ ← validate_decoded_varlena_u32_len p.(stored_len) "toast pointer stored length";
    _ ← validate_toast_pointer_codec p.(tp_codec);
    Ok p.

(** ** Lemmas on words and pointers *)

Lemma pack_unpack tag n word : pack_varlena_len tag n = Ok word -> unpack_varlena_len word = Ok (tag, n) /\ word <= U32_MAX.
Proof.
  unfold pack_varlena_len, validate_varlena_u32_len, unpack_varlena_len. destruct (N.ltb_spec TAG_EXTERNAL tag) as [|Ht]; [done|].
  destruct (U32_MAX <? n); [done|]. destruct (N.ltb_spec VARLENA_LEN_MASK n) as [|Hn]; [done|]. intros E. apply Ok_inj in E as <-.
  assert (Hn' : n < 2 ^ 30) by (change VARLENA_LEN_MASK with (2 ^ 30 - 1) in Hn; lia). change TAG_EXTERNAL with 2 in *.
  assert (Hs : N.shiftr (N.lor (N.shiftl tag 30) n) 30 = tag).
  { rewrite N.shiftr_lor, N.shiftr_shiftl_l, N.sub_diag, N.shiftl_0_r, (N.shiftr_div_pow2 n), N.div_small by lia. apply N.lor_0_r. }
  unfold VARLENA_TAG_SHIFT. rewrite Hs. change VARLENA_LEN_MASK with (N.ones 30).
  rewrite N.land_ones, <- N.land_ones, N.land_lor_distr_l, !N.land_ones, N.shiftl_mul_pow2, N.Div0.mod_mul, N.lor_0_l, N.mod_small by done.
  rewrite (proj2 (N.ltb_ge U8_MAX tag)) by (unfold U8_MAX; lia). rewrite (proj2 (N.ltb_ge 2 tag)) by lia. split; [done|].
  rewrite <- N.shiftl_mul_pow2. set (w := N.lor (N.shiftl tag 30) n) in *. pose proof (N.div_mod w (2 ^ 30) ltac:(done)) as Hd. rewrite <- N.shiftr_div_pow2, Hs in Hd.
  pose proof (N.mod_lt w (2 ^ 30) ltac:(done)). unfold U32_MAX. lia.
Qed.

Lemma varlena_len_ok n what what' u : validate_varlena_u32_len n what = Ok u -> validate_decoded_varlena_u32_len n what' = Ok () /\ n <= U32_MAX.
Proof.
  unfold validate_varlena_u32_len, validate_decoded_varlena_u32_len. destruct (N.ltb_spec VARLENA_LEN_MASK n) as [|H]; [done|]. intros _. split; [done|].
  etrans; [exact H|done].
Qed.

Lemma toast_pointer_ok p b : ToastPointer_encode p = Ok b -> len b = TOAST_POINTER_LEN /\ ToastPointer_decode b = Ok p.
Proof.
  unfold ToastPointer_encode, ToastPointer_decode. destruct p as [id rl sl codec]. cbn [value_id raw_len stored_len tp_codec].
  destruct (validate_toast_pointer_value_id id) as [[]|] eqn:Ei; [|done]. cbn [mbind result_bind].
  destruct (validate_varlena_u32_len rl _) eqn:Er; [|done]. cbn [mbind result_bind]. apply (varlena_len_ok _ _ "toast pointer raw length") in Er as [Er Hr].
  destruct (validate_varlena_u32_len sl _) eqn:Es; [|done]. cbn [mbind result_bind]. apply (varlena_len_ok _ _ "toast pointer stored length") in Es as [Es Hs].
  destruct (validate_toast_pointer_codec codec) as [[]|] eqn:Ec; [|done]. cbn [mbind result_bind]. intros E. apply Ok_inj in E as <-.
  assert (Hl : len (to_le_bytes 8 id ++ to_le_bytes 4 rl ++ to_le_bytes 4 sl ++ [codec]) = TOAST_POINTER_LEN) by (by rewrite !len_app, !len_le_bytes).
  split; [exact Hl|]. rewrite Hl. cbn [negb N.eqb Pos.eqb TOAST_POINTER_LEN].
  assert (Hi : id <= U64_MAX) by (unfold validate_toast_pointer_value_id in Ei; destruct (N.ltb_spec I64_MAX id) as [|H]; [by rewrite orb_true_r in Ei|];
    etrans; [exact H|done]).
  assert (Hc : codec <= U8_MAX).
  { unfold validate_toast_pointer_codec in Ec. destruct (N.eqb_spec codec CODEC_NONE) as [->|]; [done|]. destruct (N.eqb_spec codec CODEC_ZSTD) as [->|]; [done|].
    destruct (N.eqb_spec codec CODEC_ZSTD_DICT) as [->|]; [done|]. done. }
  assert (P : parses read_toast_pointer (to_le_bytes 8 id ++ to_le_bytes 4 rl ++ to_le_bytes 4 sl ++ [codec]) (mkToastPointer id rl sl codec)).
  { apply (parses_bind read_u64 _ (to_le_bytes 8 id) _ id); [by apply parses_u64|]. apply (parses_bind read_u32 _ (to_le_bytes 4 rl) _ rl); [by apply parses_u32|].
    apply (parses_bind read_u32 _ (to_le_bytes 4 sl) _ sl); [by apply parses_u32|]. by apply (parses_fmap read_u8), parses_u8. }
  specialize (P [] []). rewrite app_nil_l, app_nil_r, Hl in P. change (len (@nil N)) with 0 in P. rewrite P by done. cbn [snd mbind result_bind value_id raw_len stored_len tp_codec].
  by rewrite Ei, Er, Es, Ec.
Qed.

Section Rows.
Context {D : Type} `{!DecimalType D}.
Abbreviation Value := (Value D).
Abbreviation Reader := (SE N DbError).

Inductive PreparedColumnValue : Type :=
  | PNull
  | PValue (v : Value)
  | PVarlena (physical : VarlenaPhysical).

Inductive DecodedPhysicalValue : Type :=
  | DNull
  | DValue (v : Value)
  | DCompressed (column codec : N) (dict_id : option N) (raw_len raw_crc32 : N) (payload : bytes)
  | DExternal (column : N) (pointer : ToastPointer).

Record DecodedPhysicalRow : Type := mkPhysicalRow { pr_header : MvccHeader; pr_values : list DecodedPhysicalValue }.
Record DecodedRow : Type := mkDecodedRow { dr_row : list Value; dr_xmin : TxnId; dr_xmax : TxnId; dr_t_ctid : N * N; dr_infomask : N }.

(** ** Encoding *)

Definition array_element_type (v : Value) : option DataType := match v with Array t _ _ => Some t | _ => None end.

Definition is_text (t : DataType) : bool := match t with TText => true | _ => false end.
Definition is_bytea (t : DataType) : bool := match t with TBytea => true | _ => false end.

Definition encode_varlena_physical (t : DataType) (has_toast_relation : bool) (physical : VarlenaPhysical) : DbResult bytes :=
  if negb (is_text t || is_bytea t || is_array_type t)
  then Err (db_storage DatatypeMismatch "physical varlena value supplied for a fixed-width column")
  else match physical with
  | Plain raw =>
      if is_text t && negb (utf8_valid raw) then Err (corrupt_row "text value is not valid UTF-8")
      else
        _ ← match t with
          | TArray element =>
              array ← decode_array_payload raw;
              if negb (bool_decide (array_element_type array = Some element)) then Err (corrupt_row "array payload element type does not match column") else Ok ()
          | _ => Ok ()
          end;
        put_varlena TAG_PLAIN raw
  | Compressed codec dict_id raw_len raw_crc32 payload =>
      _ ← validate_inline_compressed_metadata codec dict_id raw_len;
      _ ← ok_or (checked_add USIZE_MAX (1 + 4 + 4 + 4) (len payload)) (corrupt_row "inline compressed varlena length overflow");
      put_varlena TAG_COMPRESSED ([codec] ++ to_le_bytes 4 (default 0 dict_id) ++ to_le_bytes 4 raw_len ++ to_le_bytes 4 raw_crc32 ++ payload)
  | External pointer =>
      if negb has_toast_relation then Err (corrupt_row "external toast value requires a hidden TOAST relation")
      else pointer ← ToastPointer_encode pointer; put_varlena TAG_EXTERNAL pointer
  end.

Definition type_mismatch (column : ColumnDef) : DbError :=
  db_storage DatatypeMismatch ("value type does not match column " +:+ column.(col_name)).

(** The columns of one width, in every format. *)
Definition encode_fixed (column : ColumnDef) (value : Value) : DbResult bytes :=
  match value, column.(data_type) with
  | Integer z, TInteger | Date z, TDate | Timestamp z, TTimestamp | Time z, TTime | TimestampTz z, TTimestampTz => Ok (to_le_signed 8 z)
  | Float bits, TDouble => Ok (to_le_bytes 8 bits)
  | Real bits, TReal => Ok (to_le_bytes 4 bits)
  | Numeric d, TNumeric _ _ => Ok (put_numeric d)
  | Boolean b, TBoolean => Ok [if b then 1 else 0]
  | IntervalV i, TInterval => Ok (put_interval i)
  | Uuid b, TUuid => Ok b
  | _, _ => Err (type_mismatch column)
  end.

Definition encode_column_value_v3 (column : ColumnDef) (value : Value) : DbResult bytes :=
  match value, column.(data_type) with
  | Null, _ => Err (db_storage InternalError "NULL should be represented by PreparedColumnValue::Null")
  | Text s, TText => put_varlena TAG_PLAIN s
  | Bytes b, TBytea => put_varlena TAG_PLAIN b
  | Array t ds es, TArray element =>
      if bool_decide (element = t) then payload ← encode_array_payload t ds es; put_varlena TAG_PLAIN payload
      else Err (type_mismatch column)
  | _, _ => encode_fixed column value
  end.

(** A column of format 2, which is not null. *)
Definition encode_column_value_v2 (column : ColumnDef) (value : Value) : DbResult bytes :=
  match value, column.(data_type) with
  | Text s, TText => put_counted s "text is too large"
  | Bytes b, TBytea => put_counted b "bytea is too large"
  | Array t ds es, TArray element =>
      if bool_decide (element = t) then payload ← encode_array_payload t ds es; put_counted payload "array is too large"
      else Err (type_mismatch column)
  | _, _ => encode_fixed column value
  end.

Definition check_nullable (column : ColumnDef) : DbResult unit :=
  if negb column.(nullable) then Err (db_storage NotNullViolation ("column " +:+ column.(col_name) +:+ " cannot be NULL")) else Ok ().

Definition arity_error (schema : TableSchema) (n : N) : DbError :=
  db_storage DatatypeMismatch ("row has " +:+ pretty n +:+ " values but table " +:+ schema.(table_name) +:+ " has "
    +:+ pretty (len schema.(columns)) +:+ " columns").

Definition empty_bitmap (schema : TableSchema) : bytes := replicate (N.to_nat (null_bitmap_len (len schema.(columns)))) 0.

Definition encode_row_with_infomask (schema : TableSchema) (row : list Value) (txn_id : TxnId) (infomask : N) : DbResult bytes :=
  if negb (len row =? len schema.(columns)) then Err (arity_error schema (len row))
  else
    header ← write_mvcc_header (replicate (N.to_nat V2_MVCC_HEADER_LEN) 0) (MvccHeader_fresh txn_id 0);
    let header := write_le 2 header 0 infomask in
    '(bitmap, tail) ← encode_nullable (fun cv => null_value cv.2) (fun cv => check_nullable cv.1)
      (fun cv => encode_column_value_v2 cv.1 cv.2) 0 (zip schema.(columns) row) (empty_bitmap schema) [];
    Ok ([ROW_FORMAT_VERSION_V2] ++ header ++ bitmap ++ tail).

Definition encode_row (schema : TableSchema) (row : list Value) (txn_id : TxnId) : DbResult bytes :=
  encode_row_with_infomask schema row txn_id 0.

Definition prepared_null (v : PreparedColumnValue) : bool := match v with PNull => true | _ => false end.

Definition encode_prepared (schema : TableSchema) (column : ColumnDef) (value : PreparedColumnValue) : DbResult bytes :=
  match value with
  | PNull => Ok []
  | PValue value => encode_column_value_v3 column value
  | PVarlena physical => encode_varlena_physical column.(data_type) (bool_decide (is_Some schema.(toast_table_id))) physical
  end.

Definition encode_row_v3_prepared (schema : TableSchema) (header : MvccHeader) (physical_values : list PreparedColumnValue) : DbResult bytes :=
  if negb (len physical_values =? len schema.(columns)) then Err (arity_error schema (len physical_values))
  else
    header ← write_mvcc_header (replicate (N.to_nat V2_MVCC_HEADER_LEN) 0) header;
    '(bitmap, tail) ← encode_nullable (fun cv => prepared_null cv.2) (fun cv => check_nullable cv.1)
      (fun cv => encode_prepared schema cv.1 cv.2) 0 (zip schema.(columns) physical_values) (empty_bitmap schema) [];
    Ok ([ROW_FORMAT_VERSION_V3] ++ header ++ bitmap ++ tail).

(** ** Decoding *)

Definition read_inline_compressed (column : N) (b : bytes) : Reader DecodedPhysicalValue :=
  codec ← read_u8 b;
  dict_id_raw ← read_u32 b;
  let dict_id := if negb (dict_id_raw =? 0) then Some dict_id_raw else None in
  raw_len ← read_u32 b;
  raw_crc32 ← read_u32 b;
  _ ← lift (validate_decoded_inline_compressed_metadata codec dict_id raw_len);
  offset ← gets id;
  payload ← read_exact b (len b - offset);
  mret (DCompressed column codec dict_id raw_len raw_crc32 payload).

Definition decode_inline_compressed (column : N) (stored : bytes) : DbResult DecodedPhysicalValue := (read_inline_compressed column stored 0).2.

Definition decode_plain (t : DataType) (stored : bytes) : DbResult Value :=
  match t with
  | TText => from_utf8 stored "text value is not valid UTF-8"
  | TBytea => Ok (Bytes stored)
  | TArray element =>
      array ← decode_array_payload stored;
      if negb (bool_decide (array_element_type array = Some element)) then Err (corrupt_row "array payload element type does not match column")
      else Ok array
  | _ => Err (corrupt_row "plain varlena decoded for fixed-width column")
  end.

Definition decode_stored (column tag : N) (t : DataType) (has_toast_relation : bool) (stored : bytes) : DbResult DecodedPhysicalValue :=
  if tag =? TAG_PLAIN then v ← decode_plain t stored; Ok (DValue v)
  else if tag =? TAG_COMPRESSED then decode_inline_compressed column stored
  else if tag =? TAG_EXTERNAL then
    if negb has_toast_relation then Err (corrupt_row "external toast value requires a hidden TOAST relation")
    else if negb (len stored =? TOAST_POINTER_LEN)
    then Err (corrupt_row ("external toast pointer has " +:+ pretty (len stored) +:+ " bytes, expected " +:+ pretty TOAST_POINTER_LEN))
    else pointer ← ToastPointer_decode stored; Ok (DExternal column pointer)
  else Err (corrupt_row "reserved varlena tag").

Definition decode_varlena_physical (b : bytes) (version column : N) (t : DataType) (has_toast_relation : bool) : Reader DecodedPhysicalValue :=
  word ← read_u32 b;
  '(tag, stored_len) ← lift (if version =? ROW_FORMAT_VERSION_V3 then unpack_varlena_len word else Ok (TAG_PLAIN, word));
  stored ← read_exact b stored_len;
  lift (decode_stored column tag t has_toast_relation stored).

Definition decode_column (b : bytes) (version index : N) (t : DataType) (has_toast_relation : bool) : Reader DecodedPhysicalValue :=
  match t with
  | TInteger => z ← read_i64 b; mret (DValue (Integer z))
  | TDouble => bits ← read_u64 b; mret (DValue (Float bits))
  | TNumeric _ _ => d ← read_numeric b; mret (DValue (Numeric d))
  | TReal => bits ← read_u32 b; mret (DValue (Real bits))
  | TBoolean => v ← read_bool b "boolean value is not 0 or 1"; mret (DValue v)
  | TDate => z ← read_i64 b; mret (DValue (Date z))
  | TTimestamp => z ← read_i64 b; mret (DValue (Timestamp z))
  | TTime => z ← read_i64 b; mret (DValue (Time z))
  | TTimestampTz => z ← read_i64 b; mret (DValue (TimestampTz z))
  | TInterval => i ← read_interval b; mret (DValue (IntervalV i))
  | TUuid => raw ← read_array b 16; mret (DValue (Uuid raw))
  | TText | TBytea | TArray _ => decode_varlena_physical b version index t has_toast_relation
  end.

Fixpoint decode_columns (b bitmap : bytes) (version : N) (has_toast_relation : bool) (index : N) (cs : list ColumnDef) : Reader (list DecodedPhysicalValue) :=
  match cs with
  | [] => mret []
  | c :: cs =>
      null ← lift (is_null bitmap index);
      v ← (if (null : bool) then mret DNull else decode_column b version index c.(data_type) has_toast_relation);
      vs ← decode_columns b bitmap version has_toast_relation (index + 1) cs;
      mret (v :: vs)
  end.

Definition frozen_header : MvccHeader := mkMvccHeader FROZEN_XID INVALID_XID INVALID_TID XMIN_COMMITTED.

(** The version, the header and where the columns start. *)
Definition decode_row_header (b : bytes) (bitmap_len : N) : DbResult (N * MvccHeader * N) :=
  match b with
  | [] => Err (corrupt_row "row is shorter than its header")
  | version :: _ =>
      if (version =? ROW_FORMAT_VERSION_V2) || (version =? ROW_FORMAT_VERSION_V3) then
        let header_len := 1 + V2_MVCC_HEADER_LEN + bitmap_len in
        if len b <? header_len then Err (corrupt_row "row is shorter than its header")
        else header ← read_mvcc_header (sub b 1 V2_MVCC_HEADER_LEN); Ok (version, header, header_len)
      else if version =? ROW_FORMAT_VERSION_V1 then
        let header_len := 1 + bitmap_len in
        if len b <? header_len then Err (corrupt_row "row is shorter than its header") else Ok (ROW_FORMAT_VERSION_V1, frozen_header, header_len)
      else Err (corrupt_row ("unsupported row format version " +:+ pretty version))
  end.

Definition decode_physical_row (schema : TableSchema) (b : bytes) : DbResult DecodedPhysicalRow :=
  let bitmap_len := null_bitmap_len (len schema.(columns)) in
  '(version, header, header_len) ← decode_row_header b bitmap_len;
  bitmap_start ← ok_or (checked_sub header_len bitmap_len) (corrupt_row "row bitmap begins before the row header");
  null_bitmap ← ok_or (get_range b bitmap_start header_len) (corrupt_row "row bitmap range is outside the tuple");
  match decode_columns b null_bitmap version (bool_decide (is_Some schema.(toast_table_id))) 0 schema.(columns) header_len with
  | (_, Err e) => Err e
  | (offset, Ok values) =>
      if negb (offset =? len b) then Err (corrupt_row "row has trailing bytes") else Ok (mkPhysicalRow header values)
  end.

Fixpoint plain_values (vs : list DecodedPhysicalValue) : DbResult (list Value) :=
  match vs with
  | [] => Ok []
  | DNull :: vs => vs ← plain_values vs; Ok (Null :: vs)
  | DValue v :: vs => vs ← plain_values vs; Ok (v :: vs)
  | DCompressed column _ _ _ _ _ :: _ => Err (corrupt_row ("column " +:+ pretty column +:+ " is an inline compressed TOAST value"))
  | DExternal column _ :: _ => Err (corrupt_row ("column " +:+ pretty column +:+ " is an external TOAST value"))
  end.

Definition decode_row (schema : TableSchema) (b : bytes) : DbResult DecodedRow :=
  decoded ← decode_physical_row schema b;
  values ← plain_values decoded.(pr_values);
  let h := decoded.(pr_header) in
  Ok (mkDecodedRow values h.(h_xmin) h.(h_xmax) h.(h_t_ctid) h.(h_infomask)).

(** ** Columns read back *)

(** What a prepared value is read back as. *)
Definition physical_value (index : N) (t : DataType) (v : PreparedColumnValue) : DecodedPhysicalValue :=
  match v with
  | PNull => DNull
  | PValue v => DValue v
  | PVarlena (Plain raw) => match decode_plain t raw with Ok v => DValue v | Err _ => DNull end
  | PVarlena (Compressed codec dict_id raw_len raw_crc32 payload) => DCompressed index codec dict_id raw_len raw_crc32 payload
  | PVarlena (External pointer) => DExternal index pointer
  end.

Definition prepared_ok (v : PreparedColumnValue) : Prop :=
  match v with
  | PNull => True
  | PValue v => value_ok v
  | PVarlena (Plain raw) => bytes_ok raw
  | PVarlena (Compressed codec dict_id raw_len raw_crc32 payload) => default 0 dict_id <= U32_MAX /\ raw_crc32 <= U32_MAX /\ bytes_ok payload
  | PVarlena (External _) => True
  end.

Lemma parses_varlena_v3 tag payload enc index t toast v :
  put_varlena tag payload = Ok enc -> decode_stored index tag t toast payload = Ok v ->
  parses (fun b => decode_varlena_physical b ROW_FORMAT_VERSION_V3 index t toast) enc v.
Proof using.
  unfold put_varlena. destruct (pack_varlena_len tag (len payload)) as [word|] eqn:Ew; [|done]. cbn [mbind result_bind]. intros E Hd. apply Ok_inj in E as <-.
  apply pack_unpack in Ew as [Ew Hw]. unfold decode_varlena_physical.
  apply (parses_bind read_u32 (fun b word => '(tag, n) ← lift (if ROW_FORMAT_VERSION_V3 =? ROW_FORMAT_VERSION_V3 then unpack_varlena_len word else Ok (TAG_PLAIN, word));
    stored ← read_exact b n; lift (decode_stored index tag t toast stored)) (to_le_bytes 4 word) payload word); [by apply parses_u32|].
  rewrite N.eqb_refl, Ew. by apply (parses_check (fun b => read_exact b (len payload)) (decode_stored index tag t toast) payload payload); [apply parses_exact|].
Qed.

Lemma parses_varlena_v2 payload m enc index t toast v :
  put_counted payload m = Ok enc -> decode_stored index TAG_PLAIN t toast payload = Ok v ->
  parses (fun b => decode_varlena_physical b ROW_FORMAT_VERSION_V2 index t toast) enc v.
Proof using.
  unfold put_counted. destruct (N.ltb_spec U32_MAX (len payload)); [done|]. intros E Hd. apply Ok_inj in E as <-. unfold decode_varlena_physical.
  apply (parses_bind read_u32 (fun b word => '(tag, n) ← lift (if ROW_FORMAT_VERSION_V2 =? ROW_FORMAT_VERSION_V3 then unpack_varlena_len word else Ok (TAG_PLAIN, word));
    stored ← read_exact b n; lift (decode_stored index tag t toast stored)) (to_le_bytes 4 (len payload)) payload (len payload)); [by apply parses_u32|].
  by apply (parses_check (fun b => read_exact b (len payload)) (decode_stored index TAG_PLAIN t toast) payload payload); [apply parses_exact|].
Qed.

Lemma parses_dvalue {A} (m : bytes -> Reader A) (g : A -> Value) e a : parses m e a -> parses (fun b => x ← m b; mret (DValue (g x))) e (DValue (g a)).
Proof using. apply (parses_fmap m (fun x => DValue (g x))). Qed.

Lemma parses_fixed version index toast column v enc :
  value_ok v -> encode_fixed column v = Ok enc -> parses (fun b => decode_column b version index column.(data_type) toast) enc (DValue v).
Proof using.
  intros Hok E. unfold encode_fixed in E. destruct v, (data_type column); try discriminate E; cbn [value_ok decode_column] in *; apply Ok_inj in E as <-;
    first [ by apply (parses_dvalue read_i64), parses_i64 | apply (parses_fmap (fun b => read_bool b "boolean value is not 0 or 1") DValue), parses_bool
    | by apply (parses_dvalue read_interval), parses_interval
    | by apply (parses_dvalue (fun b => read_array b 16)), parses_array; destruct Hok | by apply (parses_dvalue read_u64), parses_u64
    | by apply (parses_dvalue read_u32), parses_u32 | by apply (parses_dvalue read_numeric), parses_numeric ].
Qed.

(** The plain value behind a length word. *)
Lemma decode_plain_text index toast s : utf8_valid s = true -> decode_stored index TAG_PLAIN TText toast s = Ok (DValue (Text s)).
Proof using. intros H. unfold decode_stored, decode_plain, from_utf8. by rewrite H. Qed.
Lemma decode_plain_array index toast t ds es payload :
  value_ok (Array t ds es) -> encode_array_payload t ds es = Ok payload ->
  decode_stored index TAG_PLAIN (TArray t) toast payload = Ok (DValue (Array t ds es)).
Proof using.
  intros Hok E. unfold decode_stored, decode_plain. cbn [N.eqb TAG_PLAIN]. rewrite (array_roundtrip _ _ _ _ Hok E). cbn [mbind result_bind array_element_type].
  by rewrite bool_decide_eq_true_2.
Qed.

Lemma parses_column_v3 index toast column v enc : value_ok v -> encode_column_value_v3 column v = Ok enc ->
  parses (fun b => decode_column b ROW_FORMAT_VERSION_V3 index column.(data_type) toast) enc (DValue v).
Proof using.
  intros Hok E. unfold encode_column_value_v3 in E.
  destruct v; try done; try (by apply parses_fixed); destruct (data_type column) eqn:Et; try (unfold encode_fixed in E; rewrite ?Et in E; discriminate E).
  - eapply parses_varlena_v3; [exact E|]. apply decode_plain_text, Hok.
  - by eapply parses_varlena_v3; [exact E|].
  - case_bool_decide; [|done]. subst. destruct (encode_array_payload _ _ _) as [payload|] eqn:Ep; [|done]. cbn [mbind result_bind] in E.
    eapply parses_varlena_v3; [exact E|]. by apply decode_plain_array.
Qed.

Lemma parses_column_v2 index toast column v enc : value_ok v -> encode_column_value_v2 column v = Ok enc ->
  parses (fun b => decode_column b ROW_FORMAT_VERSION_V2 index column.(data_type) toast) enc (DValue v).
Proof using.
  intros Hok E. unfold encode_column_value_v2 in E.
  destruct v; try done; try (by apply parses_fixed); destruct (data_type column) eqn:Et; try (unfold encode_fixed in E; rewrite ?Et in E; discriminate E).
  - eapply parses_varlena_v2; [exact E|]. apply decode_plain_text, Hok.
  - by eapply parses_varlena_v2; [exact E|].
  - case_bool_decide; [|done]. subst. destruct (encode_array_payload _ _ _) as [payload|] eqn:Ep; [|done]. cbn [mbind result_bind] in E.
    eapply parses_varlena_v2; [exact E|]. by apply decode_plain_array.
Qed.

Lemma parses_compressed index codec dict_id rl crc payload u :
  validate_inline_compressed_metadata codec dict_id rl = Ok u -> default 0 dict_id <= U32_MAX -> crc <= U32_MAX ->
  let stored := [codec] ++ to_le_bytes 4 (default 0 dict_id) ++ to_le_bytes 4 rl ++ to_le_bytes 4 crc ++ payload in
  len stored <= USIZE_MAX -> decode_inline_compressed index stored = Ok (DCompressed index codec dict_id rl crc payload).
Proof using.
  intros Hv Hd Hc stored Hl. unfold validate_inline_compressed_metadata in Hv. destruct (validate_varlena_u32_len rl _) eqn:Er; [|done].
  apply (varlena_len_ok _ _ "inline compressed raw length") in Er as [Er Hrl]. cbn [mbind result_bind] in Hv.
  assert (Hcodec : codec <= U8_MAX /\ (if negb (default 0 dict_id =? 0) then Some (default 0 dict_id) else None) = dict_id).
  { unfold validate_inline_compressed_codec_metadata in Hv. destruct (N.eqb_spec codec CODEC_ZSTD) as [->|]; [by destruct dict_id|].
    destruct (N.eqb_spec codec CODEC_ZSTD_DICT) as [->|]; [|by destruct (codec =? CODEC_NONE)]. destruct dict_id as [d|]; [|done]. cbn in *. by destruct (d =? 0). }
  destruct Hcodec as [Hcodec Hdict].
  assert (Hs : stored = [codec] ++ to_le_bytes 4 (default 0 dict_id) ++ to_le_bytes 4 rl ++ to_le_bytes 4 crc ++ payload ++ []) by (by rewrite app_nil_r).
  enough (read_inline_compressed index stored (len (@nil N)) = (len stored, Ok (DCompressed index codec dict_id rl crc payload))) as Hb.
  { unfold decode_inline_compressed. change 0 with (len (@nil N)). by rewrite Hb. }
  clearbody stored. unfold read_inline_compressed.
  read_next Hs read_u8 [codec] codec; [by apply parses_u8|].
  read_next Hs read_u32 (to_le_bytes 4 (default 0 dict_id)) (default 0 dict_id); [by apply parses_u32|]. cbv zeta. rewrite Hdict.
  read_next Hs read_u32 (to_le_bytes 4 rl) rl; [by apply parses_u32|].
  read_next Hs read_u32 (to_le_bytes 4 crc) crc; [by apply parses_u32|].
  unfold validate_decoded_inline_compressed_metadata. rewrite Er. cbn [mbind result_bind]. rewrite Hv. etrans; [apply lift_ok|].
  etrans; [unfold mbind, se_bind, gets, id; reflexivity|]. cbv beta iota.
  set (pre := ((([] ++ [codec]) ++ _) ++ _) ++ _).
  assert (Hp : stored = pre ++ payload) by (rewrite Hs; unfold pre; by rewrite <- !app_assoc, app_nil_r).
  replace (len stored - len pre) with (len payload) by (rewrite Hp, len_app; lia).
  pose proof (parses_exact payload pre []) as P. rewrite app_nil_r, <- Hp in P. rewrite P by (rewrite Hp, len_app in Hl; lia). rewrite Hp, len_app. done.
Qed.

Lemma parses_prepared schema index column v enc :
  prepared_ok v -> prepared_null v = false -> encode_prepared schema column v = Ok enc -> len enc <= USIZE_MAX ->
  parses (fun b => decode_column b ROW_FORMAT_VERSION_V3 index column.(data_type) (bool_decide (is_Some schema.(toast_table_id)))) enc
    (physical_value index column.(data_type) v).
Proof using.
  destruct v as [|v|physical]; intros Hok Hn E Hl; [done|by apply parses_column_v3|]. cbn [encode_prepared] in E. set (toast := bool_decide _) in *.
  unfold encode_varlena_physical in E. destruct (negb _) eqn:Ht in E; [done|].
  assert (Hcol : forall b, decode_column b ROW_FORMAT_VERSION_V3 index column.(data_type) toast
      = decode_varlena_physical b ROW_FORMAT_VERSION_V3 index column.(data_type) toast) by (intros b; by destruct (data_type column)).
  enough (exists tag payload, put_varlena tag payload = Ok enc /\
    decode_stored index tag column.(data_type) toast payload = Ok (physical_value index column.(data_type) (PVarlena physical))) as (tag & payload & E1 & E2).
  { intros pre rest Hpre. rewrite Hcol. by eapply parses_varlena_v3. }
  destruct physical as [raw|codec dict_id rl crc payload|pointer].
  - exists TAG_PLAIN, raw. unfold decode_stored, physical_value. cbn [N.eqb TAG_PLAIN]. unfold decode_plain, from_utf8.
    destruct (data_type column); try discriminate Ht; cbn in *; try (by destruct (utf8_valid raw)).
    destruct (decode_array_payload raw) as [array|]; [|done]. cbn in *. by destruct (bool_decide (array_element_type array = Some _)).
  - destruct (validate_inline_compressed_metadata _ _ _) eqn:Ev; [|done]. destruct (checked_add _ _ _); [|done]. cbn [mbind result_bind ok_or] in E.
    eexists TAG_COMPRESSED, _. split; [exact E|]. unfold decode_stored. cbn [N.eqb TAG_COMPRESSED TAG_PLAIN]. destruct Hok as (Hd & Hc & _).
    eapply parses_compressed; [exact Ev|done|done|]. unfold put_varlena in E. destruct (pack_varlena_len _ _); [|done]. cbn [mbind result_bind] in E.
    apply Ok_inj in E. rewrite <- E, len_app in Hl. lia.
  - destruct toast eqn:Etoast; [|done]. cbn [negb] in E. destruct (ToastPointer_encode pointer) as [raw|] eqn:Ep; [|done]. cbn [mbind result_bind] in E.
    apply toast_pointer_ok in Ep as [Hl' Hd]. exists TAG_EXTERNAL, raw. split; [done|]. unfold decode_stored. cbn [N.eqb TAG_COMPRESSED TAG_PLAIN TAG_EXTERNAL Pos.eqb negb].
    rewrite Hl', Hd. done.
Qed.

(** ** Rows read back *)

Fixpoint physicals {A} (phys : N -> ColumnDef * A -> DecodedPhysicalValue) (index : N) (cvs : list (ColumnDef * A)) : list DecodedPhysicalValue :=
  match cvs with [] => [] | cv :: cvs => phys index cv :: physicals phys (index + 1) cvs end.

Lemma parses_columns {A} (null : ColumnDef * A -> bool) enc phys bm version toast cvs raws : forall index,
  Forall2 (encoded_as null enc) cvs raws -> reads_nulls null bm index cvs ->
  (forall i cv, cv ∈ cvs -> null cv = true -> phys i cv = DNull) ->
  (forall i cv raw, cv ∈ cvs -> raw ∈ raws -> null cv = false -> enc cv = Ok raw ->
    parses (fun b => decode_column b version i cv.1.(data_type) toast) raw (phys i cv)) ->
  parses (fun b => decode_columns b bm version toast index cvs.*1) (concat raws) (physicals phys index cvs).
Proof using.
  intros index HF. revert index. induction HF as [|cv raw cvs raws Hv HF IH]; intros index Hbm Hnull Henc; [apply parses_ret|].
  apply reads_nulls_cons in Hbm as [Hn Hbm]. cbn [fmap list_fmap decode_columns concat physicals].
  rewrite <- (app_nil_l (raw ++ concat raws)).
  apply (parses_bind (fun _ => lift (is_null bm index)) (fun b (null : bool) => v ← (if null then mret DNull else decode_column b version index cv.1.(data_type) toast);
    vs ← decode_columns b bm version toast (index + 1) cvs.*1; mret (v :: vs)) [] _ (null cv)); [by apply parses_lift|].
  apply (parses_bind (fun b => if null cv then mret DNull else decode_column b version index cv.1.(data_type) toast)
    (fun b v => vs ← decode_columns b bm version toast (index + 1) cvs.*1; mret (v :: vs)) raw (concat raws) (phys index cv)).
  - unfold encoded_as in Hv. destruct (null cv) eqn:E; [|apply Henc; [constructor|constructor|done|done]]. subst raw. rewrite (Hnull index cv); [apply parses_ret|constructor|done].
  - apply (parses_fmap (fun b => decode_columns b bm version toast (index + 1) cvs.*1) (cons (phys index cv))), IH; [done|..].
    + intros i cv' Hin. apply Hnull. by constructor.
    + intros i cv' raw' Hin Hr. apply Henc; by constructor.
Qed.

Definition header_ok (h : MvccHeader) : Prop :=
  h.(h_xmin) <= U64_MAX /\ h.(h_xmax) <= U64_MAX /\ h.(h_t_ctid).1 <= U32_MAX /\ h.(h_t_ctid).2 <= U16_MAX /\ h.(h_infomask) <= U16_MAX.

Lemma header_roundtrip d h header : header_ok h -> write_mvcc_header d h = Ok header -> len header = V2_MVCC_HEADER_LEN /\ read_mvcc_header header = Ok h.
Proof using.
  intros (H1 & H2 & H3 & H4 & H5). unfold write_mvcc_header, read_mvcc_header. destruct (N.eqb_spec (len d) V2_MVCC_HEADER_LEN) as [Hl|]; [|done].
  cbn [negb]. unfold V2_MVCC_HEADER_LEN in *. set (h' := write_le 2 _ 22 _). intros E. apply Ok_inj in E as <-.
  assert (Hh : len h' = 24) by (unfold h'; in_array). split; [done|]. rewrite Hh. cbn [N.eqb negb Pos.eqb].
  unfold h', U64_MAX, U32_MAX, U16_MAX in *. read_fields. by destruct h as [? ? [? ?] ?].
Qed.

(** The frame of a row of format 2 or 3. *)
Lemma row_frame schema version header h bm tail vs :
  version = ROW_FORMAT_VERSION_V2 \/ version = ROW_FORMAT_VERSION_V3 -> len header = V2_MVCC_HEADER_LEN -> read_mvcc_header header = Ok h ->
  len bm = null_bitmap_len (len schema.(columns)) ->
  parses (fun b => decode_columns b bm version (bool_decide (is_Some schema.(toast_table_id))) 0 schema.(columns)) tail vs ->
  let b := [version] ++ header ++ bm ++ tail in
  len b <= USIZE_MAX -> decode_physical_row schema b = Ok (mkPhysicalRow h vs).
Proof using.
  intros Hv Hl Hr Hbm P b Hb. unfold decode_physical_row. set (toast := bool_decide _) in *. set (bl := null_bitmap_len _) in *.
  assert (Hlen : len b = 25 + bl + len tail) by (unfold b; rewrite !len_app, Hl, Hbm; unfold V2_MVCC_HEADER_LEN; change (len [version]) with 1; lia).
  assert (decode_row_header b bl = Ok (version, h, 25 + bl)) as ->.
  { unfold decode_row_header, b. cbn [app]. replace (_ || _) with true by (by destruct Hv as [->| ->]). fold ([version] ++ header ++ bm ++ tail). fold b.
    rewrite (proj2 (N.ltb_ge _ _)) by (rewrite Hlen; unfold V2_MVCC_HEADER_LEN; lia).
    replace (sub b 1 V2_MVCC_HEADER_LEN) with header; [by rewrite Hr|]. unfold b, sub. change (N.to_nat 1) with (length [version]).
    rewrite drop_app_length, <- Hl. unfold len. by rewrite Nat2N.id, take_app_length. }
  cbn [mbind result_bind]. unfold checked_sub. rewrite (proj2 (N.leb_le _ _)) by lia. cbn [ok_or mbind result_bind].
  replace (25 + bl - bl) with 25 by lia. rewrite get_range_Some by (rewrite ?Hlen; lia). cbn [ok_or mbind result_bind].
  assert (Hp : len ([version] ++ header ++ bm) = 25 + bl) by (rewrite !len_app, Hl, Hbm; unfold V2_MVCC_HEADER_LEN; change (len [version]) with 1; lia).
  assert (sub b 25 (25 + bl - 25) = bm) as ->.
  { unfold b, sub. rewrite app_assoc. replace (N.to_nat 25) with (length ([version] ++ header)).
    - rewrite drop_app_length. replace (25 + bl - 25) with (len bm) by lia. unfold len. by rewrite Nat2N.id, take_app_length.
    - rewrite length_app. unfold len, V2_MVCC_HEADER_LEN in Hl. cbn [length]. lia. }
  specialize (P ([version] ++ header ++ bm) []). rewrite app_nil_r, <- !app_assoc in P. fold b in P. rewrite Hp in P. rewrite P by lia.
  rewrite Hlen, N.eqb_refl. done.
Qed.

Lemma null_bitmap_ok {A} (null : A -> bool) ok enc es bm tail :
  encode_nullable null ok enc 0 es (replicate (N.to_nat (null_bitmap_len (len es))) 0) [] = Ok (bm, tail) ->
  len bm = null_bitmap_len (len es) /\ reads_nulls null bm 0 es /\ exists raws, Forall2 (encoded_as null enc) es raws /\ tail = concat raws.
Proof using.
  intros E. apply encode_nullable_spec in E as (Hl & _ & Hn & raws & HF & ->). rewrite length_replicate in Hl. split_and!.
  - unfold len at 1. by rewrite Hl, N2Nat.id.
  - intros j Hj. rewrite is_null_bit, Hn, zero_bits; [done|]. rewrite Hl. apply bitmap_index. lia.
  - by exists raws.
Qed.

Lemma len_zip {A B} (l : list A) (k : list B) : len k = len l -> len (zip l k) = len l /\ (zip l k).*1 = l /\ (zip l k).*2 = k.
Proof using.
  unfold len. intros H. assert (length k = length l) by lia. split_and!; [rewrite length_zip_with; f_equal; lia|apply fst_zip; lia|apply snd_zip; lia].
Qed.

Lemma len_concat_elem (raws : list bytes) raw : raw ∈ raws -> len raw <= len (concat raws).
Proof using. induction 1 as [raw raws|raw raw' raws _ IH]; cbn [concat]; rewrite len_app; lia. Qed.

Lemma prepared_row_back schema header values b :
  header_ok header -> Forall prepared_ok values -> encode_row_v3_prepared schema header values = Ok b -> len b <= USIZE_MAX ->
  decode_physical_row schema b = Ok (mkPhysicalRow header (physicals (fun i cv => physical_value i cv.1.(data_type) cv.2) 0 (zip schema.(columns) values))).
Proof using.
  intros Hh Hok E Hb. unfold encode_row_v3_prepared in E. destruct (N.eqb_spec (len values) (len schema.(columns))) as [Hl|]; [|done]. cbn [negb] in E.
  destruct (write_mvcc_header _ header) as [hb|] eqn:Eh; [|done]. cbn [mbind result_bind] in E. destruct (header_roundtrip _ _ _ Hh Eh) as [Hhl Hhr].
  destruct (len_zip schema.(columns) values Hl) as (Hz & Hz1 & Hz2). unfold empty_bitmap in E. rewrite <- Hz in E.
  destruct (encode_nullable _ _ _ _ _ _ _) as [[bm tail]|] eqn:En; [|done]. cbn [mbind result_bind] in E. apply Ok_inj in E as <-.
  apply null_bitmap_ok in En as (Hbl & Hbm & raws & HF & ->). rewrite Hz in Hbl.
  eapply row_frame; [by right|done|done|done| |done]. set (cvs := zip _ _) in *. rewrite <- Hz1.
  eapply (parses_columns (fun cv => prepared_null cv.2) (fun cv => encode_prepared schema cv.1 cv.2)); [exact HF|exact Hbm|..].
  - intros i [c v] _. by destruct v.
  - intros i [c v] raw Hin Hr Hn Er. apply parses_prepared; [|done|done|].
    + eapply (proj1 (Forall_forall _ _) Hok). rewrite <- Hz2. apply list_elem_of_fmap. by exists (c, v).
    + apply len_concat_elem in Hr. rewrite !len_app in Hb. lia.
Qed.

(** A row the engine stores is read back: for every list of prepared columns the encoder
    of format 3 accepts, decoding the bytes under the same schema gives the same MVCC header
    and, column by column, a null for a null, the value for a plain value, the codec,
    dictionary, length, checksum and payload of a value compressed in place, and the pointer
    of a value stored out of line; the tags in the length words keep them apart. *)
Theorem prepared_row_is_read schema header values b :
  header_ok header -> Forall prepared_ok values -> encode_row_v3_prepared schema header values = Ok b -> len b <= USIZE_MAX ->
  decode_physical_row schema b = Ok (mkPhysicalRow header (physicals (fun i cv => physical_value i cv.1.(data_type) cv.2) 0 (zip schema.(columns) values))).
Proof using. apply prepared_row_back. Qed.

Lemma plain_physicals (cvs : list (ColumnDef * Value)) : forall i, plain_values (physicals (fun _ cv => if null_value cv.2 then DNull else DValue cv.2) i cvs) = Ok cvs.*2.
Proof using. induction cvs as [|[c v] cvs IH]; intros i; [done|]. specialize (IH (i + 1)). cbn in *. destruct v; cbn in *; by rewrite IH. Qed.

Lemma fresh_header_ok txn_id infomask : txn_id <= U64_MAX -> infomask <= U16_MAX -> header_ok (MvccHeader_fresh txn_id infomask).
Proof using. intros H1 H2. unfold header_ok, MvccHeader_fresh, INVALID_TID. cbn. split_and!; try done. Qed.

(** Stamping the hint bits over a fresh header. *)
Lemma stamped_header d txn_id infomask hb : txn_id <= U64_MAX -> infomask <= U16_MAX ->
  write_mvcc_header d (MvccHeader_fresh txn_id 0) = Ok hb ->
  len (write_le 2 hb 0 infomask) = V2_MVCC_HEADER_LEN /\ read_mvcc_header (write_le 2 hb 0 infomask) = Ok (MvccHeader_fresh txn_id infomask).
Proof using.
  intros H1 H2 E. assert (H0 : 0 <= U16_MAX) by done. apply (header_roundtrip _ _ _ (fresh_header_ok txn_id 0 H1 H0)) in E as [Hl Hr].
  unfold read_mvcc_header in *. unfold V2_MVCC_HEADER_LEN in *.
  assert (Hl' : len (write_le 2 hb 0 infomask) = 24) by in_array. split; [exact Hl'|]. rewrite Hl' in *. rewrite Hl in Hr. cbn [N.eqb negb Pos.eqb] in *.
  injection Hr as Hx Hm Hp Hs _. unfold U16_MAX in H2. read_fields. by rewrite Hx, Hm, Hp, Hs.
Qed.

(** A row of format 2 round-trips through the decoder of plain rows: the decoded row has
    the very values, the inserting transaction as its creator, no deleter, no successor and
    the hint bits it was stamped with. *)
Theorem plain_row_is_read schema row txn_id infomask b :
  Forall value_ok row -> txn_id <= U64_MAX -> infomask <= U16_MAX -> encode_row_with_infomask schema row txn_id infomask = Ok b -> len b <= USIZE_MAX ->
  decode_row schema b = Ok (mkDecodedRow row txn_id INVALID_XID INVALID_TID infomask).
Proof using.
  intros Hok Ht Hi E Hb. unfold encode_row_with_infomask in E. destruct (N.eqb_spec (len row) (len schema.(columns))) as [Hl|]; [|done]. cbn [negb] in E.
  destruct (write_mvcc_header _ _) as [hb|] eqn:Eh; [|done]. cbn [mbind result_bind] in E. destruct (stamped_header _ _ _ _ Ht Hi Eh) as [Hhl Hhr].
  destruct (len_zip schema.(columns) row Hl) as (Hz & Hz1 & Hz2). unfold empty_bitmap in E. rewrite <- Hz in E.
  destruct (encode_nullable _ _ _ _ _ _ _) as [[bm tail]|] eqn:En; [|done]. cbn [mbind result_bind] in E. apply Ok_inj in E as <-.
  apply null_bitmap_ok in En as (Hbl & Hbm & raws & HF & ->). rewrite Hz in Hbl. set (cvs := zip _ _) in *.
  unfold decode_row. erewrite (row_frame schema ROW_FORMAT_VERSION_V2 _ _ bm (concat raws) (physicals (fun _ cv => if null_value cv.2 then DNull else DValue cv.2) 0 cvs));
    [|by left|done|exact Hhr|done| |done].
  - cbn [mbind result_bind pr_values]. rewrite plain_physicals, Hz2. done.
  - rewrite <- Hz1. eapply (parses_columns (fun cv => null_value cv.2) (fun cv => encode_column_value_v2 cv.1 cv.2)); [exact HF|exact Hbm|..].
    + intros i [c v] _ ->. done.
    + intros i [c v] raw Hin _ Hn Er. cbn [snd fst] in *. rewrite Hn. apply parses_column_v2; [|done].
      eapply (proj1 (Forall_forall _ _) Hok). rewrite <- Hz2. apply list_elem_of_fmap. by exists (c, v).
Qed.
End Rows.

Definition demo_schema : TableSchema := mkSchema "t" [mkColumn "id" TInteger false; mkColumn "name" TText true;
  mkColumn "blob" TBytea true; mkColumn "prices" (TArray (TNumeric (Some 5) 2)) true] (Some 7).
Definition demo_header : MvccHeader := mkMvccHeader 12 0 (3, 4) 1.
Definition demo_prepared : list (@PreparedColumnValue (Z * N)) :=
  [PValue (Integer 42); PNull; PVarlena (Compressed CODEC_ZSTD None 900 77 [1; 2; 3]); PVarlena (External (mkToastPointer 5 2000 800 CODEC_ZSTD))].
Definition demo_row : list (Value (Z * N)) := [Integer 42; Text [0x61]; Null; demo_array].

Lemma prepared_row_is_read_witness : exists b, encode_row_v3_prepared demo_schema demo_header demo_prepared = Ok b /\
  decode_physical_row demo_schema b = Ok (mkPhysicalRow demo_header [DValue (Integer 42); DNull;
    DCompressed 2 CODEC_ZSTD None 900 77 [1; 2; 3]; DExternal 3 (mkToastPointer 5 2000 800 CODEC_ZSTD)]).
Proof.
  eexists. split; [vm_compute; reflexivity|]. apply (prepared_row_is_read demo_schema demo_header demo_prepared); [vm_compute; repeat split; discriminate| |vm_compute; reflexivity|vm_compute; discriminate].
  unfold demo_prepared. apply Forall_cons_2; [vm_compute; split; done|]. apply Forall_cons_2; [exact I|]. apply Forall_cons_2; [|apply Forall_cons_2; [exact I|constructor]].
  split; [vm_compute; discriminate|]. split; [vm_compute; discriminate|repeat constructor].
Defined.

Lemma plain_row_is_read_witness : exists b, encode_row_with_infomask demo_schema demo_row 12 HEAP_ONLY = Ok b /\
  decode_row demo_schema b = Ok (mkDecodedRow demo_row 12 INVALID_XID INVALID_TID HEAP_ONLY).
Proof.
  eexists. split; [vm_compute; reflexivity|]. apply plain_row_is_read; [|vm_compute; discriminate|vm_compute; discriminate|vm_compute; reflexivity|vm_compute; discriminate].
  unfold demo_row. apply Forall_cons_2; [vm_compute; split; done|]. apply Forall_cons_2; [split; [repeat constructor|reflexivity]|]. apply Forall_cons_2; [exact I|].
  apply Forall_cons_2; [apply demo_array_ok|constructor].
Defined.
