(* ===== verification/BTree.v ===== *)
(** * The B-tree of an index (src/crates/storage/src/btree.rs)

    Every function of the file, on the pages of one index file.  The buffer pool's
    allocation and the write-ahead log are called through trait objects: [IndexEnv] is
    their interface.  Keys are lists of values with an order and a codec
    ([KeyCodec]).  A loop over pages carries fuel; running out of it is the outcome
    [Diverges], which the theorems about the tree exclude. *)

From S2P Require Import Prelude Errors Mvcc CheckedBytes ByteArray Page IndexPage KeyOrder.
Local Open Scope N_scope.

Definition META_PAGE : N := 0.
Definition LOCATION_LEN : N := 10.
Definition CHILD_LEN : N := 4.

(** ** Interfaces *)

(** The values of a key with their order, and the key codec (src/crates/storage/src/codec.rs). *)
Class KeyCodec (V : Type) : Type := {
  value_cmp : V -> V -> comparison;
  encode_key : list V -> DbResult bytes;
  decode_key_prefix : bytes -> DbResult (list V * N)
}.

(** The order is total, and an encoded key is read back from the front of any bytes. *)
Class KeyCodecLaws (V : Type) `{KeyCodec V} : Type := {
  key_ok : list V -> Prop;
  value_cmp_order :: TotalPreorder value_cmp;
  decode_encode_key k b rest : key_ok k -> encode_key k = Ok b -> decode_key_prefix (b ++ rest) = Ok (k, len b);
  encode_key_bytes k b : key_ok k -> encode_key k = Ok b -> bytes_ok b
}.

(** What the tree asks of the buffer pool and of the log: pages, taken back if they
    were not published, and the position of a logged page image. *)
Class IndexEnv (W : Type) : Type := {
  allocated : W -> gset N;
  new_page : SE W DbError N;
  abandon_unpublished_new_page : N -> SE W DbError unit;
  append_full_page : N -> N -> bytes -> SE W DbError Lsn
}.

Class IndexEnvLaws (W : Type) `{IndexEnv W} : Prop := {
  allocated_u32 w p : p ∈ allocated w -> p <= U32_MAX;
  new_page_fresh w w' p : new_page w = (w', Ok p) -> p ∉ allocated w /\ allocated w' = {[p]} ∪ allocated w;
  new_page_fails w w' e : new_page w = (w', Err e) -> allocated w' = allocated w;
  abandon_frees w w' p r : abandon_unpublished_new_page p w = (w', r) -> allocated w ∖ {[p]} ⊆ allocated w';
  append_allocated w w' t p i r : append_full_page t p i w = (w', r) -> allocated w' = allocated w
}.

Section BTree.
Context (crc32 : bytes -> N).
Context {V : Type} `{!KeyCodec V}.
Context {W : Type} `{!IndexEnv W}.

Abbreviation Key := (list V).
Definition key_cmp : Key -> Key -> comparison := list_cmp value_cmp.
Definition bytes_cmp : bytes -> bytes -> comparison := list_cmp N.compare.

Definition corrupt (m : string) : DbError := db_storage InternalError m.
Definition corrupt_row (m : string) : DbError := db_storage InternalError m.

Definition decode_key (b : bytes) : DbResult Key :=
  '(key, consumed) ← decode_key_prefix b;
  if negb (consumed =? len b) then Err (corrupt_row "key has trailing bytes") else Ok key.

(** How an operation stops: with an error, by a panic, or never. *)
Inductive Halt : Type :=
  | Failed (e : DbError)
  | Panics
  | Diverges.

Definition halt (f : Fault) : Halt := match f with Raised e => Failed e | Panicked => Panics end.
(** [?] on an error of the program, and on a read of a page. *)
Definition tried {A} (m : DbResult A) : result Halt A := map_err Failed m.
Definition read {A} (m : result Fault A) : result Halt A := map_err halt m.

(** ** Values *)

Record RowLocation : Type := mkRowLocation {
  file_id : N;
  page_num : N;
  slot_num : N
}.
Global Instance RowLocation_eq_dec : EqDecision RowLocation.
Proof using. solve_decision. Defined.

Definition encode (v : RowLocation) : bytes :=
  to_le_bytes 4 v.(file_id) ++ to_le_bytes 4 v.(page_num) ++ to_le_bytes 2 v.(slot_num).

(** The widths are those of the ranges, so that [try_into] succeeds. *)
Definition decode (b : bytes) : DbResult RowLocation :=
  if negb (len b =? LOCATION_LEN) then Err (corrupt "index leaf value is not a row location")
  else
    file_id ← ok_or (get_range b 0 4) (corrupt "index row-location file id is truncated");
    page_num ← ok_or (get_range b 4 8) (corrupt "index row-location page number is truncated");
    slot_num ← ok_or (get_range b 8 10) (corrupt "index row-location slot number is truncated");
    Ok (mkRowLocation (from_le_bytes file_id) (from_le_bytes page_num) (from_le_bytes slot_num)).

Definition encode_child (page : N) : bytes := to_le_bytes 4 page.
Definition decode_child (b : bytes) : DbResult N :=
  if negb (len b =? CHILD_LEN) then Err (corrupt "index internal value is not a child pointer")
  else Ok (from_le_bytes b).

(** ** Ranges of keys (src/crates/common/src/row.rs) *)

Inductive Bound : Type :=
  | Included (key : Key)
  | Excluded (key : Key)
  | Unbounded.

Inductive KeyRange : Type :=
  | Exact (key : Key)
  | Range (start stop : Bound)
  | All.

Definition key_eqb (a b : Key) : bool := match key_cmp a b with Eq => true | _ => false end.
Definition key_ltb (a b : Key) : bool := match key_cmp a b with Lt => true | _ => false end.
Definition key_leb (a b : Key) : bool := negb (key_ltb b a).

Definition range_start_key (range : KeyRange) : option Key :=
  match range with
  | All => None
  | Exact key => Some key
  | Range start _ => match start with Included key | Excluded key => Some key | Unbounded => None end
  end.

Definition bound_len (b : Bound) : option nat :=
  match b with Included key | Excluded key => Some (length key) | Unbounded => None end.

Definition comparison_prefix_len (range : KeyRange) : nat :=
  match range with
  | All => 0
  | Exact key => length key
  | Range start stop =>
      match bound_len start with
      | Some n => n
      | None => default 0%nat (bound_len stop)
      end
  end.

Definition prefix_of (key : Key) (n : nat) : option Key :=
  if (n <? length key)%nat then Some (take n key) else None.

Definition key_in_range (key : Key) (range : KeyRange) : bool :=
  match range with
  | All => true
  | Exact exact => key_eqb key exact
  | Range start stop =>
      let after_start := match start with
        | Included start => key_leb start key
        | Excluded start => key_ltb start key
        | Unbounded => true
        end in
      let before_end := match stop with
        | Included stop => key_leb key stop
        | Excluded stop => key_ltb key stop
        | Unbounded => true
        end in
      after_start && before_end
  end.

Definition beyond_end (key : Key) (range : KeyRange) : bool :=
  match range with
  | All => false
  | Exact exact => key_ltb exact key
  | Range _ stop =>
      match stop with
      | Included stop => key_ltb stop key
      | Excluded stop => key_leb stop key
      | Unbounded => false
      end
  end.

(** ** Reading nodes *)

Abbreviation Pages := (gmap N bytes).

Definition read_page (ps : Pages) (p : N) : result Halt bytes :=
  ok_or (ps !! p) (Failed (corrupt "page does not exist")).

Record Probe : Type := mkProbe {
  pr_key : Key;
  pr_value : option bytes
}.

Definition leaf_key_value (d : bytes) (index : N) : result Halt (Key * bytes) :=
  kb ← read (entry_key d index);
  key ← tried (decode_key kb);
  value ← read (entry_value d index);
  Ok (key, value).

Definition internal_key_value (d : bytes) (index : N) : result Halt (Key * bytes) :=
  composite ← read (entry_key d index);
  '(key, consumed) ← tried (decode_key_prefix composite);
  tie ← read (slice composite consumed (len composite));
  Ok (key, tie).

Definition entry_cmp (d : bytes) (is_leaf : bool) (index : N) (probe : Probe) : result Halt comparison :=
  '(entry_key, entry_value) ← (if is_leaf then leaf_key_value d index else internal_key_value d index);
  Ok (match key_cmp entry_key probe.(pr_key) with
      | Eq => match probe.(pr_value) with
              | None => Gt
              | Some value => bytes_cmp entry_value value
              end
      | other => other
      end).

(** The loop of [bound]; each turn halves [hi - lo]. *)
Fixpoint bound_loop (fuel : nat) (d : bytes) (is_leaf : bool) (probe : Probe) (strict : bool) (lo hi : N) : result Halt N :=
  match fuel with
  | O => Err Diverges
  | S fuel =>
      if lo <? hi then
        let mid := lo + (hi - lo) / 2 in
        c ← entry_cmp d is_leaf mid probe;
        let go_right := match c with Lt => true | Eq => strict | Gt => false end in
        if go_right then bound_loop fuel d is_leaf probe strict (mid + 1) hi
        else bound_loop fuel d is_leaf probe strict lo mid
      else Ok lo
  end.

Definition bound (d : bytes) (is_leaf : bool) (probe : Probe) (strict : bool) : result Halt N :=
  let count := entry_count d in
  bound_loop (S (N.to_nat count)) d is_leaf probe strict 0 count.

Definition lower_bound (d : bytes) (is_leaf : bool) (probe : Probe) : result Halt N := bound d is_leaf probe false.
Definition upper_bound (d : bytes) (is_leaf : bool) (probe : Probe) : result Halt N := bound d is_leaf probe true.

Definition child_for (d : bytes) (probe : Probe) : result Halt N :=
  pos ← upper_bound d false probe;
  if pos =? 0 then Ok (link d)
  else
    v ← read (entry_value d (pos - 1));
    tried (decode_child v).

(** The number of pages bounds every walk that does not meet a page twice. *)
Definition walk_fuel (ps : Pages) : nat := S (size ps).

Definition root (ps : Pages) : result Halt N := d ← read_page ps META_PAGE; Ok (meta_root d).

Definition node_is_leaf (ps : Pages) (p : N) : result Halt bool := d ← read_page ps p; Ok (is_leaf d).

Fixpoint descend_loop (fuel : nat) (ps : Pages) (probe : Probe) (p : N) : result Halt N :=
  match fuel with
  | O => Err Diverges
  | S fuel =>
      d ← read_page ps p;
      if is_leaf d then Ok p
      else
        c ← child_for d probe;
        descend_loop fuel ps probe c
  end.

Definition descend_to_leaf (ps : Pages) (probe : Probe) : result Halt N :=
  r ← root ps; descend_loop (walk_fuel ps) ps probe r.

(** Down the left spine. *)
Fixpoint left_spine (fuel : nat) (ps : Pages) (p : N) : result Halt N :=
  match fuel with
  | O => Err Diverges
  | S fuel => d ← read_page ps p; if is_leaf d then Ok p else left_spine fuel ps (link d)
  end.

Definition first_leaf (ps : Pages) : result Halt N := r ← root ps; left_spine (walk_fuel ps) ps r.

Definition start_leaf (ps : Pages) (range : KeyRange) : result Halt N :=
  match range_start_key range with
  | Some key => descend_to_leaf ps (mkProbe key None)
  | None => r ← root ps; left_spine (walk_fuel ps) ps r
  end.

Fixpoint search_loop (fuel : nat) (ps : Pages) (key : Key) (p : N) : result Halt (option RowLocation) :=
  match fuel with
  | O => Err Diverges
  | S fuel =>
      let probe := mkProbe key None in
      d ← read_page ps p;
      let count := entry_count d in
      start ← lower_bound d true probe;
      if start <? count then
        '(entry_key, value) ← leaf_key_value d start;
        if key_eqb entry_key key then v ← tried (decode value); Ok (Some v) else Ok None
      else
        let next := link d in
        if next =? 0 then Ok None else search_loop fuel ps key next
  end.

Definition search (ps : Pages) (key : Key) : result Halt (option RowLocation) :=
  p ← descend_to_leaf ps (mkProbe key None);
  search_loop (walk_fuel ps) ps key p.

(** The entries of one leaf from [pos] on that have the key; [true] when a larger key was
    met. *)
Fixpoint scan_leaf (fuel : nat) (d : bytes) (key : Key) (count pos : N) (out : list RowLocation)
    : result Halt (list RowLocation * bool) :=
  match fuel with
  | O => Err Diverges
  | S fuel =>
      if pos <? count then
        '(entry_key, value) ← leaf_key_value d pos;
        if negb (key_eqb entry_key key) then Ok (out, true)
        else
          v ← tried (decode value);
          scan_leaf fuel d key count (pos + 1) (out ++ [v])
      else Ok (out, false)
  end.

Fixpoint scan_loop (fuel : nat) (ps : Pages) (key : Key) (p : N) (out : list RowLocation) : result Halt (list RowLocation) :=
  match fuel with
  | O => Err Diverges
  | S fuel =>
      d ← read_page ps p;
      let count := entry_count d in
      pos ← lower_bound d true (mkProbe key None);
      '(out, larger) ← scan_leaf (S (N.to_nat count)) d key count pos out;
      if (larger : bool) then Ok out
      else
        let next := link d in
        if next =? 0 then Ok out else scan_loop fuel ps key next out
  end.

Definition scan_key (ps : Pages) (key : Key) : result Halt (list RowLocation) :=
  p ← descend_to_leaf ps (mkProbe key None);
  scan_loop (walk_fuel ps) ps key p [].

(** The entries of a leaf that a range takes; [true] when the end of the range was met. *)
Fixpoint range_leaf (d : bytes) (range : KeyRange) (l : list N) : result Halt (list (Key * RowLocation) * bool) :=
  match l with
  | [] => Ok ([], false)
  | pos :: l =>
      '(full, value) ← leaf_key_value d pos;
      let compared := default full (prefix_of full (comparison_prefix_len range)) in
      if beyond_end compared range then Ok ([], true)
      else
        entry ← (if key_in_range compared range then v ← tried (decode value); Ok [(full, v)] else Ok []);
        '(entries, done) ← range_leaf d range l;
        Ok (entry ++ entries, done)
  end.

(** [cancel] answers the check of each turn. *)
Definition cancel_check (cancel : option (nat -> DbResult unit)) (turn : nat) : result Halt unit :=
  match cancel with Some check => tried (check turn) | None => Ok () end.

Fixpoint visit {A} (visitor : A -> Key -> RowLocation -> DbResult A) (acc : A) (entries : list (Key * RowLocation)) : result Halt A :=
  match entries with
  | [] => Ok acc
  | (key, value) :: entries => acc ← tried (visitor acc key value); visit visitor acc entries
  end.

Fixpoint range_loop {A} (fuel : nat) (ps : Pages) (range : KeyRange) (cancel : option (nat -> DbResult unit))
    (visitor : A -> Key -> RowLocation -> DbResult A) (turn : nat) (p : N) (acc : A) : result Halt A :=
  match fuel with
  | O => Err Diverges
  | S fuel =>
      _ ← cancel_check cancel turn;
      d ← read_page ps p;
      '(entries, done) ← range_leaf d range (Page.range (entry_count d));
      acc ← visit visitor acc entries;
      let next := link d in
      if done || (next =? 0) then Ok acc else range_loop fuel ps range cancel visitor (S turn) next acc
  end.

Definition range_for_each_cancelable {A} (ps : Pages) (range : KeyRange) (cancel : option (nat -> DbResult unit))
    (visitor : A -> Key -> RowLocation -> DbResult A) (acc : A) : result Halt A :=
  p ← start_leaf ps range;
  range_loop (walk_fuel ps) ps range cancel visitor 0 p acc.

Definition range_cancelable (ps : Pages) (range : KeyRange) (cancel : option (nat -> DbResult unit))
    : result Halt (list (Key * RowLocation)) :=
  range_for_each_cancelable ps range cancel (fun out key value => Ok (out ++ [(key, value)])) [].

(** ** Splitting *)

Definition leaf_separator (entry : bytes * bytes) : bytes := entry.1 ++ entry.2.

(** The entry [index] of a node, and the new one before it at its place. *)
Fixpoint entries_from (d : bytes) (pos : N) (key value : bytes) (l : list N) : result Fault (list (bytes * bytes)) :=
  match l with
  | [] => Ok []
  | index :: l =>
      k ← entry_key d index;
      v ← entry_value d index;
      rest ← entries_from d pos key value l;
      Ok ((if index =? pos then [(key, value)] else []) ++ (k, v) :: rest)
  end.

Definition entries_with_insertion (d : bytes) (pos : N) (key value : bytes) : result Fault (list (bytes * bytes)) :=
  let count := entry_count d in
  entries ← entries_from d pos key value (Page.range count);
  Ok (entries ++ (if count <=? pos then [(key, value)] else [])).

(** The entries in order behind those the node has. *)
Fixpoint append_from (index : N) (entries : list (bytes * bytes)) : SE bytes Fault unit :=
  match entries with
  | [] => mret ()
  | (key, value) :: entries =>
      _ ← insert_entry crc32 index key value;
      append_from (index + 1) entries
  end.
Definition append_entries (entries : list (bytes * bytes)) : SE bytes Fault unit := append_from 0 entries.

Definition validate_index_entry_fits (key_len value_len : N) : DbResult unit :=
  separator_len ← ok_or (checked_add USIZE_MAX key_len value_len)
    (db_storage ProgramLimitExceeded "index entry is too large for a b-tree page");
  if negb (entry_fits_empty_node key_len value_len) || negb (entry_fits_empty_node separator_len CHILD_LEN)
  then Err (db_storage ProgramLimitExceeded "index entry is too large for a b-tree page")
  else Ok ().

Definition validate_index_key_fits (key : Key) : DbResult unit :=
  key_bytes ← encode_key key;
  validate_index_entry_fits (len key_bytes) LOCATION_LEN.

Definition entries_fit_as_internal_node (entries : list (bytes * bytes)) : bool :=
  is_ok (append_entries entries (init crc32 1 false)).2.

(** The split keeps [entries\[..=at\]] left and [entries\[at + 1..\]] right. *)
Definition split_fits (entries : list (bytes * bytes)) (at_ : nat) : bool :=
  entries_fit_as_internal_node (take (S at_) entries) && entries_fit_as_internal_node (drop (S at_) entries).

Fixpoint internal_split_from (entries : list (bytes * bytes)) (preferred : nat) (distances : list nat) : option nat :=
  match distances with
  | [] => None
  | distance :: distances =>
      if (distance <=? preferred)%nat && split_fits entries (preferred - distance) then Some (preferred - distance)%nat
      else if negb (distance =? 0)%nat && (preferred + distance <? length entries)%nat
              && split_fits entries (preferred + distance)
      then Some (preferred + distance)%nat
      else internal_split_from entries preferred distances
  end.

Definition internal_split_point (entries : list (bytes * bytes)) (preferred : nat) : option nat :=
  match entries with
  | [] => None
  | _ => internal_split_from entries (Nat.min preferred (length entries - 1)) (seq 0 (length entries))
  end.

Definition stored_len (e : bytes * bytes) : N := entry_stored_len (len e.1) (len e.2).

(** Where half of the bytes is reached. *)
Fixpoint half_point (total acc : N) (index : nat) (entries : list (bytes * bytes)) (default : nat) : nat :=
  match entries with
  | [] => default
  | e :: entries =>
      let acc := acc + stored_len e in
      if total <=? acc * 2 then S index else half_point total acc (S index) entries default
  end.

(** [clamp] panics when its bounds cross, which they do for a single entry. *)
Definition split_point (entries : list (bytes * bytes)) : result Fault nat :=
  let total := foldr (fun e n => stored_len e + n) 0 entries in
  let mid := half_point total 0 0 entries (length entries) in
  if (length entries <? 2)%nat then Err Panicked
  else Ok (Nat.max 1 (Nat.min mid (length entries - 1))).

(** ** Changing the tree *)

Record Index : Type := mkIndex {
  ipages : Pages;
  ienv : W
}.
Abbreviation BM := (SE Index Halt).

Definition reads {A} (f : Pages -> result Halt A) : BM A := fun s => (s, f s.(ipages)).
Definition in_env {A} (m : SE W DbError A) : BM A := fun s =>
  let '(w, r) := m s.(ienv) in (mkIndex s.(ipages) w, tried r).
Definition put_page (p : N) (d : bytes) : BM unit := modify (fun s => mkIndex (<[p := d]> s.(ipages)) s.(ienv)).
(** An operation on a copy of a page. *)
Definition edit (m : SE bytes Fault unit) (image : bytes) : BM bytes := fun s =>
  match m image with (d, Ok _) => (s, Ok d) | (_, Err f) => (s, Err (halt f)) end.
(** [if let Err(err) = m { h; return Err(err) }]. *)
Definition on_error {A} (m : BM A) (h : BM unit) : BM A := fun s =>
  match m s with
  | (s, Ok a) => (s, Ok a)
  | (s, Err err) => match h s with (s, Ok _) => (s, Err err) | (s, Err e) => (s, Err e) end
  end.

Inductive WriteMode : Type :=
  | Logged (txn_id : TxnId)
  | Unlogged.

Definition wal_txn_id (mode : WriteMode) : option TxnId :=
  match mode with Logged txn_id => Some txn_id | Unlogged => None end.
Definition is_unlogged (mode : WriteMode) : bool := match mode with Unlogged => true | _ => false end.

Definition alloc_page : BM N := in_env new_page.
Definition abandon (p : N) : BM unit := in_env (abandon_unpublished_new_page p).

Definition log_full_page (mode : WriteMode) (p : N) (image : bytes) : BM unit :=
  match wal_txn_id mode with
  | None => put_page p image
  | Some txn_id =>
      record_lsn ← in_env (append_full_page txn_id p image);
      put_page p (set_page_lsn crc32 image record_lsn)
  end.

Definition log_new_full_page (mode : WriteMode) (p : N) (image : bytes) : BM unit :=
  on_error (log_full_page mode p image) (abandon p).

(** [fetch_for_redo] gives an absent page too. *)
Definition write_root_page (mode : WriteMode) (p : N) (image : bytes) : BM unit :=
  _ ← (if is_unlogged mode then mret [] else reads (fun ps => read_page ps p));
  log_full_page mode p image.

Definition create (txn_id : TxnId) : BM unit :=
  meta_num ← alloc_page;
  root_num ← alloc_page;
  _ ← on_error (log_new_full_page (Logged txn_id) root_num (init crc32 root_num true)) (abandon meta_num);
  log_new_full_page (Logged txn_id) meta_num (meta_init crc32 meta_num root_num).

Definition reset_to_empty_with_mode (mode : WriteMode) : BM unit :=
  _ ← write_root_page mode 1 (init crc32 1 true);
  write_root_page mode 0 (meta_init crc32 0 1).
Definition reset_to_empty (txn_id : TxnId) : BM unit := reset_to_empty_with_mode (Logged txn_id).
Definition reset_to_empty_unlogged : BM unit := reset_to_empty_with_mode Unlogged.

Definition set_root (mode : WriteMode) (r : N) : BM unit :=
  d ← reads (fun ps => read_page ps META_PAGE);
  log_full_page mode META_PAGE (meta_set_root crc32 d r).

Inductive InsertOutcome : Type :=
  | Inserted
  | Split (sep_key : bytes) (right_page : N).

Definition split_leaf (mode : WriteMode) (p : N) (d : bytes) (entries : list (bytes * bytes)) (mid : nat) : BM InsertOutcome :=
  let old_right_link := link d in
  right_num ← alloc_page;
  right_image ← on_error (edit (append_entries (drop mid entries)) (init crc32 right_num true)) (abandon right_num);
  _ ← log_new_full_page mode right_num (set_link crc32 right_image old_right_link);
  left_image ← edit (append_entries (take mid entries)) (init crc32 p true);
  _ ← log_full_page mode p (set_link crc32 left_image right_num);
  first ← lift (ok_or (entries !! mid) Panics);
  mret (Split (leaf_separator first) right_num).

Definition split_internal (mode : WriteMode) (p : N) (d : bytes) (entries : list (bytes * bytes)) (mid : nat) : BM InsertOutcome :=
  let leftmost := link d in
  mid ← lift (ok_or (internal_split_point entries mid)
    (Failed (corrupt "internal index split cannot fit a prefix-safe separator")));
  '(push_key, child) ← lift (ok_or (entries !! mid) Panics);
  right_leftmost ← lift (tried (decode_child child));
  right_num ← alloc_page;
  right_image ← on_error
    (edit (append_entries (drop (S mid) entries)) (set_link crc32 (init crc32 right_num false) right_leftmost))
    (abandon right_num);
  _ ← log_new_full_page mode right_num right_image;
  left_image ← edit (append_entries (take mid entries)) (set_link crc32 (init crc32 p false) leftmost);
  left_image ← edit (insert_entry crc32 (N.of_nat mid) push_key (encode_child right_num)) left_image;
  _ ← log_full_page mode p left_image;
  mret (Split push_key right_num).

Definition split_node (mode : WriteMode) (p : N) (d : bytes) (pos : N) (key_bytes value : bytes) (leaf : bool) : BM InsertOutcome :=
  entries ← lift (read (entries_with_insertion d pos key_bytes value));
  mid ← lift (read (split_point entries));
  if leaf then split_leaf mode p d entries mid else split_internal mode p d entries mid.

(** Puts an entry in a node, or splits it. *)
Definition place (mode : WriteMode) (p : N) (d : bytes) (pos : N) (key_bytes value : bytes) (leaf : bool) : BM InsertOutcome :=
  space ← lift (read (has_space d (len key_bytes) (len value)));
  if (space : bool) then
    image ← edit (insert_entry crc32 pos key_bytes value) d;
    _ ← log_full_page mode p image;
    mret Inserted
  else split_node mode p d pos key_bytes value leaf.

Fixpoint right_leaf_for_probe (fuel : nat) (ps : Pages) (next : N) (probe : Probe) : result Halt (option N) :=
  match fuel with
  | O => Err Diverges
  | S fuel =>
      if next =? 0 then Ok None
      else
        d ← read_page ps next;
        if entry_count d =? 0 then right_leaf_for_probe fuel ps (link d) probe
        else
          c ← entry_cmp d true 0 probe;
          Ok (match c with Lt | Eq => Some next | Gt => None end)
  end.

(** The leaf arm of [insert_rec]. *)
Fixpoint insert_leaf (fuel : nat) (mode : WriteMode) (p : N) (probe : Probe) (key_bytes value : bytes) : BM InsertOutcome :=
  match fuel with
  | O => lift (Err Diverges)
  | S fuel =>
      d ← reads (fun ps => read_page ps p);
      pos ← lift (lower_bound d true probe);
      target ← (if (pos =? entry_count d) && negb (link d =? 0) then
                  next ← reads (fun ps => right_leaf_for_probe (walk_fuel ps) ps (link d) probe);
                  match next with
                  | Some next => mret (inl next)
                  | None =>
                      d ← reads (fun ps => read_page ps p);
                      pos ← lift (lower_bound d true probe);
                      mret (inr (d, pos))
                  end
                else mret (inr (d, pos)));
      match target with
      | inl next => insert_leaf fuel mode next probe key_bytes value
      | inr (d, pos) => place mode p d pos key_bytes value true
      end
  end.

Fixpoint insert_rec (fuel : nat) (mode : WriteMode) (p : N) (probe : Probe) (key_bytes value : bytes) : BM InsertOutcome :=
  match fuel with
  | O => lift (Err Diverges)
  | S fuel =>
      leaf ← reads (fun ps => node_is_leaf ps p);
      if (leaf : bool) then
        n ← gets (fun s => walk_fuel s.(ipages));
        insert_leaf n mode p probe key_bytes value
      else
        d ← reads (fun ps => read_page ps p);
        child ← lift (child_for d probe);
        outcome ← insert_rec fuel mode child probe key_bytes value;
        match outcome with
        | Split sep_key right_page =>
            d ← reads (fun ps => read_page ps p);
            '(sep_decoded, consumed) ← lift (tried (decode_key_prefix sep_key));
            tie ← lift (read (slice sep_key consumed (len sep_key)));
            pos ← lift (lower_bound d false (mkProbe sep_decoded (Some tie)));
            place mode p d pos sep_key (encode_child right_page) false
        | outcome => mret outcome
        end
  end.

Definition insert_with_mode (mode : WriteMode) (key : Key) (value : RowLocation) : BM unit :=
  key_bytes ← lift (tried (encode_key key));
  let value := encode value in
  _ ← lift (tried (validate_index_entry_fits (len key_bytes) (len value)));
  old_root ← reads root;
  fuel ← gets (fun s => walk_fuel s.(ipages));
  outcome ← insert_rec fuel mode old_root (mkProbe key (Some value)) key_bytes value;
  match outcome with
  | Split sep_key right_page =>
      new_root ← alloc_page;
      let image := set_link crc32 (init crc32 new_root false) old_root in
      image ← on_error (edit (insert_entry crc32 0 sep_key (encode_child right_page)) image) (abandon new_root);
      _ ← log_new_full_page mode new_root image;
      set_root mode new_root
  | Inserted => mret ()
  end.

Definition insert (txn_id : TxnId) : Key -> RowLocation -> BM unit := insert_with_mode (Logged txn_id).
Definition insert_unlogged : Key -> RowLocation -> BM unit := insert_with_mode Unlogged.

Fixpoint remove_loop (fuel : nat) (txn_id : TxnId) (key : Key) (value : bytes) (p : N) : BM bool :=
  match fuel with
  | O => lift (Err Diverges)
  | S fuel =>
      d ← reads (fun ps => read_page ps p);
      let count := entry_count d in
      pos ← lift (lower_bound d true (mkProbe key (Some value)));
      if pos <? count then
        '(entry_key, entry_value) ← lift (leaf_key_value d pos);
        if key_eqb entry_key key && bool_decide (entry_value = value) then
          image ← edit (remove_entry crc32 pos) d;
          _ ← log_full_page (Logged txn_id) p image;
          mret true
        else mret false
      else
        let next := link d in
        if next =? 0 then mret false else remove_loop fuel txn_id key value next
  end.

Definition remove (txn_id : TxnId) (key : Key) (value : RowLocation) : BM bool :=
  let value := encode value in
  p ← reads (fun ps => descend_to_leaf ps (mkProbe key (Some value)));
  fuel ← gets (fun s => walk_fuel s.(ipages));
  remove_loop fuel txn_id key value p.

(** Takes the entries whose location is dead out of a copy of a leaf, from the last one
    down; counts them. *)
Fixpoint remove_dead (pos : nat) (dead : list RowLocation) (image : bytes) (removed : N) : result Halt (bytes * N) :=
  match pos with
  | O => Ok (image, removed)
  | S pos =>
      vb ← read (entry_value image (N.of_nat pos));
      value ← tried (decode vb);
      if bool_decide (value ∈ dead) then
        match remove_entry crc32 (N.of_nat pos) image with
        | (image, Ok _) => remove_dead pos dead image (removed + 1)
        | (_, Err f) => Err (halt f)
        end
      else remove_dead pos dead image removed
  end.

Fixpoint remove_values_loop (fuel : nat) (txn_id : TxnId) (dead : list RowLocation) (cancel : option (nat -> DbResult unit))
    (turn : nat) (p : N) (removed : N) : BM N :=
  match fuel with
  | O => lift (Err Diverges)
  | S fuel =>
      _ ← lift (cancel_check cancel turn);
      d ← reads (fun ps => read_page ps p);
      '(image, taken) ← lift (remove_dead (N.to_nat (entry_count d)) dead d 0);
      let next := link image in
      _ ← (if 0 <? taken then log_full_page (Logged txn_id) p image else mret ());
      if next =? 0 then mret (removed + taken)
      else remove_values_loop fuel txn_id dead cancel (S turn) next (removed + taken)
  end.

Definition remove_values_in_cancelable (txn_id : TxnId) (dead : list RowLocation) (cancel : option (nat -> DbResult unit)) : BM N :=
  if bool_decide (dead = []) then mret 0
  else
    p ← reads first_leaf;
    fuel ← gets (fun s => walk_fuel s.(ipages));
    remove_values_loop fuel txn_id dead cancel 0 p 0.

End BTree.
