(* ===== verification/BLink.v ===== *)
(** * The abstract B-link tree

    The shape of the B-tree without bytes: nodes with their separators, the chain of
    leaves, and the interval of keys each live node answers for.  An internal split leaves
    the left node with a pointer to its right sibling, and a split may end before the
    parent learns of the right half; both are states of this tree.  Leaves come in groups:
    the head of a group is what the separators lead to, the others are reached along the
    chain.  [tree_ok] is the invariant, and each step the B-tree code makes on nodes
    preserves it and changes the entries as it should. *)

From S2P Require Import Prelude KeyOrder.
Local Open Scope N_scope.

Section BLink.
Context {K : Type} (cmp : K -> K -> comparison) `{!TotalPreorder cmp}.
Context {A : Type} (pt : A -> K).
Local Notation "a ≺ b" := (ord_lt cmp a b) (at level 70).
Local Notation "a ≼ b" := (ord_le cmp a b) (at level 70).

(** ** Intervals: [None] is no bound. *)

Definition ge_lo (lo : option K) (y : K) : Prop := match lo with None => True | Some a => a ≼ y end.
Definition lt_hi (y : K) (hi : option K) : Prop := match hi with None => True | Some b => y ≺ b end.
Definition le_hi (y : K) (hi : option K) : Prop := match hi with None => True | Some b => y ≼ b end.
Definition inside (lo hi : option K) (y : K) : Prop := ge_lo lo y /\ lt_hi y hi.
Definition within (lo hi : option K) (y : K) : Prop := ge_lo lo y /\ le_hi y hi.
(** Bounds that no key tells apart. *)
Definition same (b1 b2 : option K) : Prop :=
  match b1, b2 with None, None => True | Some a, Some b => cmp a b = Eq | _, _ => False end.
Definition live (lo hi : option K) : Prop := match lo, hi with Some a, Some b => a ≺ b | _, _ => True end.

(** ** Nodes *)

Inductive ANode : Type :=
  | ALeaf (lk : N) (xs : list A)
  | AInt (lk : N) (ss : list (K * N)).

(** The children of an internal node, each with its interval. *)
Fixpoint slots (lo : option K) (c : N) (ss : list (K * N)) (hi : option K) : list (option K * N * option K) :=
  match ss with
  | [] => [(lo, c, hi)]
  | (s, c') :: ss => (lo, c, Some s) :: slots (Some s) c' ss hi
  end.

(** A fence with the leaves behind it. *)
Abbreviation Group := (option K * list (N * list A))%type.
Definition leaves (G : list Group) : list (N * list A) := concat G.*2.
Definition items (G : list Group) : list A := concat (leaves G).*2.

Definition next_fence (G : list Group) : option K := match G with [] => None | g :: _ => g.1 end.
Fixpoint fenced (G : list Group) : list (option K * option K * list (N * list A)) :=
  match G with
  | [] => []
  | g :: G => (g.1, next_fence G, g.2) :: fenced G
  end.

Fixpoint chain (ns : gmap N ANode) (p : N) (ls : list (N * list A)) : Prop :=
  match ls with
  | [] => p = 0
  | (q, xs) :: ls => p = q /\ q <> 0 /\ exists lk, ns !! q = Some (ALeaf lk xs) /\ chain ns lk ls
  end.

(** What a live node answers for, and where it hangs. *)
Record Info : Type := mkInfo {
  i_lo : option K;
  i_hi : option K;
  i_parent : option N
}.

Record Tree : Type := mkTree {
  nodes : gmap N ANode;
  groups : list Group;
  infos : gmap N Info;
  troot : N
}.

Definition head_page (ls : list (N * list A)) : option N := fst <$> head ls.

Definition leaf_cond (t : Tree) (p : N) (i : Info) : Prop :=
  exists ls, (i.(i_lo), i.(i_hi), ls) ∈ fenced t.(groups) /\ head_page ls = Some p.

(** The child of a slot answers for the slot's interval, and hangs there. *)
Definition child_info (t : Tree) (p : N) (a : option K) (c : N) (b : option K) : Prop :=
  exists j, t.(infos) !! c = Some j /\ same j.(i_lo) a /\ same j.(i_hi) b /\ j.(i_parent) = Some p.

Definition seps_ok (lo hi : option K) (ss : list (K * N)) : Prop :=
  StronglySorted (ord_le cmp) ss.*1 /\ Forall (within lo hi) ss.*1.

Definition int_cond (t : Tree) (p : N) (i : Info) : Prop :=
  exists lk ss, t.(nodes) !! p = Some (AInt lk ss) /\ seps_ok i.(i_lo) i.(i_hi) ss /\
    forall a c b, (a, c, b) ∈ slots i.(i_lo) lk ss i.(i_hi) -> live a b -> child_info t p a c b.

Record tree_ok (t : Tree) : Prop := {
  t_first : exists ls G, t.(groups) = (None, ls) :: G;
  t_fences : Forall (fun g => is_Some g.1) (tail t.(groups));
  t_heads : Forall (fun g => g.2 <> []) t.(groups);
  t_chain : exists p, chain t.(nodes) p (leaves t.(groups));
  t_nodup : NoDup (leaves t.(groups)).*1;
  t_groups : Forall (fun g => live g.1.1 g.1.2 /\ Forall (fun l => Forall (fun x => inside g.1.1 g.1.2 (pt x)) l.2) g.2)
               (fenced t.(groups));
  t_sorted : StronglySorted (ord_lt cmp) (pt <$> items t.(groups));
  t_root : t.(infos) !! t.(troot) = Some (mkInfo None None None);
  t_info : forall p i, t.(infos) !! p = Some i -> p <> 0 /\ live i.(i_lo) i.(i_hi) /\ (leaf_cond t p i \/ int_cond t p i);
  t_parent : forall p i q, t.(infos) !! p = Some i -> i.(i_parent) = Some q ->
    exists j lk ss a b, t.(infos) !! q = Some j /\ t.(nodes) !! q = Some (AInt lk ss) /\
      (a, p, b) ∈ slots j.(i_lo) lk ss j.(i_hi) /\ same i.(i_lo) a /\ same i.(i_hi) b;
  t_rank : exists rank : N -> nat, forall p i q, t.(infos) !! p = Some i -> i.(i_parent) = Some q -> (rank p < rank q)%nat
}.

(** ** Intervals *)

Lemma inside_live lo hi y : inside lo hi y -> live lo hi.
Proof. destruct lo, hi; cbn; try done. intros [H1 H2]. by eapply ord_le_lt_trans. Qed.

Lemma inside_within lo hi y : inside lo hi y -> within lo hi y.
Proof. intros [H1 H2]. split; [done|]. destruct hi; [by apply ord_lt_le|done]. Qed.

Lemma ge_lo_trans lo a b : ge_lo lo a -> a ≼ b -> ge_lo lo b.
Proof. destruct lo; [|done]. intros. by eapply ord_le_trans. Qed.

Lemma lt_hi_trans a b hi : a ≼ b -> lt_hi b hi -> lt_hi a hi.
Proof. destruct hi; [|done]. intros. by eapply ord_le_lt_trans. Qed.

Lemma le_hi_trans a b hi : a ≼ b -> le_hi b hi -> le_hi a hi.
Proof. destruct hi; [|done]. intros. by eapply ord_le_trans. Qed.

Lemma same_refl b : same b b.
Proof. destruct b; [apply cmp_refl, _|done]. Qed.
Lemma same_sym a b : same a b -> same b a.
Proof. destruct a, b; try done. cbn. apply cmp_Eq_comm, _. Qed.
Lemma same_trans a b c : same a b -> same b c -> same a c.
Proof. destruct a, b, c; try done. cbn. intros H1 H2. by rewrite (cmp_Eq_l cmp _ _ _ H1). Qed.

Lemma same_ge_lo a b y : same a b -> ge_lo a y -> ge_lo b y.
Proof. destruct a, b; try done. cbn. unfold ord_le. intros H. by rewrite (cmp_Eq_l cmp _ _ _ H). Qed.
Lemma same_lt_hi a b y : same a b -> lt_hi y a -> lt_hi y b.
Proof. destruct a, b; try done. cbn. unfold ord_lt. intros H. by rewrite (cmp_Eq_r cmp _ _ _ H). Qed.
Lemma same_inside a a' b b' y : same a a' -> same b b' -> inside a b y -> inside a' b' y.
Proof. intros H1 H2 [H3 H4]. split; [by eapply same_ge_lo|by eapply same_lt_hi]. Qed.
Lemma same_live a a' b b' : same a a' -> same b b' -> live a b -> live a' b'.
Proof.
  destruct a, a', b, b'; try done. cbn. unfold ord_lt. intros H1 H2.
  by rewrite (cmp_Eq_l cmp _ _ _ H1), (cmp_Eq_r cmp _ _ _ H2).
Qed.
Lemma same_le a b : a ≼ b -> b ≼ a -> same (Some a) (Some b).
Proof. cbn. unfold ord_le. rewrite (cmp_sym cmp a b). by destruct (cmp a b). Qed.
Lemma same_of_within lo hi s : within lo hi s -> ~ live (Some s) hi -> same hi (Some s).
Proof.
  destruct hi as [h|]; [|done]. intros [_ H] Hl. apply same_le; [|done]. by apply ord_not_lt.
Qed.

Global Instance live_dec lo hi : Decision (live lo hi).
Proof. destruct lo, hi; apply _. Defined.

(** ** Slots *)

(** The slot a key falls in: behind the separators at or below it. *)
Lemma slots_locate ss : forall lo c hi y k,
  inside lo hi y -> (k <= length ss)%nat ->
  Forall (fun s => s ≼ y) (take k ss.*1) -> Forall (fun s => y ≺ s) (drop k ss.*1) ->
  exists a b c', (a, c', b) ∈ slots lo c ss hi /\ inside a b y /\
    match k with O => c' = c | S k => exists s, ss !! k = Some (s, c') end.
Proof.
  induction ss as [|[s c1] ss IH]; intros lo c hi y k [H1 H2] Hk Ht Hd.
  - destruct k; [|cbn in Hk; lia]. exists lo, hi, c. split_and!; [by constructor|done|done].
  - destruct k as [|k]; cbn in *.
    + apply Forall_cons in Hd as [Hs _]. exists lo, (Some s), c. split_and!; [by constructor|by split|done].
    + apply Forall_cons in Ht as [Hs Ht]. destruct (IH (Some s) c1 hi y k) as (a & b & c' & Hin & Hi & Hc);
        [by split|lia|done|done|].
      exists a, b, c'. split_and!; [by constructor|done|]. destruct k; [exists s; by subst|done].
Qed.

Lemma slots_app lo c ss1 s r ss2 hi :
  slots lo c (ss1 ++ (s, r) :: ss2) hi = slots lo c ss1 (Some s) ++ slots (Some s) r ss2 hi.
Proof. revert lo c. induction ss1 as [|[s1 c1] ss1 IH]; intros lo c; [done|]. cbn. by rewrite IH. Qed.

(** The last slot of a list, with its upper bound left open. *)
Definition last_slot (lo : option K) (c : N) (ss : list (K * N)) : option K * N :=
  match last ss with None => (lo, c) | Some (s, c') => (Some s, c') end.
Fixpoint init_slots (lo : option K) (c : N) (ss : list (K * N)) : list (option K * N * option K) :=
  match ss with
  | [] => []
  | (s, c') :: ss => (lo, c, Some s) :: init_slots (Some s) c' ss
  end.
Definition first_hi (ss : list (K * N)) (hi : option K) : option K := match ss with [] => hi | (s, _) :: _ => Some s end.
Definition tail_slots (ss : list (K * N)) (hi : option K) : list (option K * N * option K) :=
  match ss with [] => [] | (s, c) :: ss => slots (Some s) c ss hi end.

Lemma slots_last ss : forall lo c hi,
  slots lo c ss hi = init_slots lo c ss ++ [((last_slot lo c ss), hi)].
Proof.
  induction ss as [|[s c1] ss IH]; intros lo c hi; [done|]. cbn [slots init_slots app]. f_equal. rewrite IH. f_equal.
  unfold last_slot. rewrite last_cons. by destruct (last ss) as [[]|].
Qed.

Lemma slots_first lo c ss hi : slots lo c ss hi = (lo, c, first_hi ss hi) :: tail_slots ss hi.
Proof. by destruct ss as [|[s c'] ss]. Qed.

(** A list of separators cut in two: the slot across the cut. *)
Lemma slots_cut lo c ss1 ss2 hi :
  slots lo c (ss1 ++ ss2) hi =
  init_slots lo c ss1 ++ (last_slot lo c ss1, first_hi ss2 hi) :: tail_slots ss2 hi.
Proof.
  destruct ss2 as [|[s r] ss2]; [by rewrite app_nil_r, slots_last|].
  rewrite slots_app, slots_last, <- app_assoc. done.
Qed.

(** A new separator in that slot. *)
Lemma slots_cut_insert lo c ss1 s r ss2 hi :
  slots lo c (ss1 ++ (s, r) :: ss2) hi =
  init_slots lo c ss1 ++ (last_slot lo c ss1, Some s) :: (Some s, r, first_hi ss2 hi) :: tail_slots ss2 hi.
Proof. by rewrite slots_app, slots_last, (slots_first (Some s)), <- app_assoc. Qed.

(** Every slot of sorted separators lies in the interval. *)
Lemma slots_bounds ss : forall lo c hi a c' b,
  seps_ok lo hi ss -> (a, c', b) ∈ slots lo c ss hi ->
  (forall y, ge_lo a y -> ge_lo lo y) /\ (forall y, lt_hi y b -> lt_hi y hi).
Proof.
  induction ss as [|[s c1] ss IH]; intros lo c hi a c' b [Hs Hw] Hin; cbn in *.
  - apply list_elem_of_singleton in Hin as [= -> -> ->]. done.
  - apply StronglySorted_inv in Hs as [Hs Hle]. apply Forall_cons in Hw as [[H1 H2] Hw].
    apply elem_of_cons in Hin as [[= -> -> ->]|Hin].
    + split; [done|]. intros y Hy. destruct hi as [h|]; [|done]. by eapply ord_lt_le_trans.
    + destruct (IH (Some s) c1 hi a c' b) as [I1 I2]; [|done|].
      { split; [done|]. rewrite Forall_forall in Hle, Hw |- *. intros x Hx. split; [by apply Hle|by apply Hw]. }
      split; [|done]. intros y Hy. apply I1 in Hy. by eapply ge_lo_trans.
Qed.

(** ** Groups and leaves *)

Lemma leaves_app G1 G2 : leaves (G1 ++ G2) = leaves G1 ++ leaves G2.
Proof. unfold leaves. by rewrite fmap_app, concat_app. Qed.
Lemma leaves_cons f ls G : leaves ((f, ls) :: G) = ls ++ leaves G.
Proof. done. Qed.
Definition items_of (ls : list (N * list A)) : list A := concat ls.*2.
Lemma items_of_app l1 l2 : items_of (l1 ++ l2) = items_of l1 ++ items_of l2.
Proof. unfold items_of. by rewrite fmap_app, concat_app. Qed.
Lemma items_of_cons q xs ls : items_of ((q, xs) :: ls) = xs ++ items_of ls.
Proof. done. Qed.
Lemma items_app G1 G2 : items (G1 ++ G2) = items G1 ++ items G2.
Proof. unfold items. rewrite leaves_app. apply items_of_app. Qed.
Lemma items_cons f ls G : items ((f, ls) :: G) = items_of ls ++ items G.
Proof. unfold items. rewrite leaves_cons. apply items_of_app. Qed.

Lemma elem_of_items_of ls x : x ∈ items_of ls <-> exists q xs, (q, xs) ∈ ls /\ x ∈ xs.
Proof using.
  induction ls as [|[q xs] ls IH]; [split; [by intros ?%elem_of_nil|by intros (? & ? & ?%elem_of_nil & _)]|].
  rewrite items_of_cons, elem_of_app, IH. split.
  - intros [H|(q' & xs' & H1 & H2)]; [exists q, xs|exists q', xs']; (split; [|done]); by constructor.
  - intros (q' & xs' & H1 & H2). apply elem_of_cons in H1 as [[= -> ->]|H1]; [by left|right; by exists q', xs'].
Qed.

Lemma elem_of_fenced G lo hi ls :
  (lo, hi, ls) ∈ fenced G <-> exists G1 G2, G = G1 ++ (lo, ls) :: G2 /\ hi = next_fence G2.
Proof.
  split.
  - induction G as [|[f l] G IH]; [by intros ?%elem_of_nil|]. cbn. intros [[= -> -> ->]|H]%elem_of_cons; [by exists [], G|].
    destruct (IH H) as (G1 & G2 & -> & ->). by exists ((f, l) :: G1), G2.
  - intros (G1 & G2 & -> & ->). induction G1 as [|g G1 IH]; cbn; [by constructor|by constructor].
Qed.

Lemma fenced_app_r G1 G2 g : g ∈ fenced G2 -> g ∈ fenced (G1 ++ G2).
Proof. intros H. induction G1 as [|g1 G1 IH]; [done|]. cbn. by constructor. Qed.

(** The fences rise. *)
Lemma fences_rise G1 a ls G2 b :
  Forall (fun g => live g.1.1 g.1.2) (fenced (G1 ++ (Some a, ls) :: G2)) ->
  Forall (fun g => is_Some g.1) (tail G1) -> next_fence (G1 ++ (Some a, ls) :: G2) = Some b -> b ≼ a.
Proof.
  revert b. induction G1 as [|[f l] G1 IH]; intros b Hl Hs Hb; [injection Hb as <-; apply ord_le_refl, _|].
  cbn in Hl, Hb. subst f. apply Forall_cons in Hl as [Hl Hl']. cbn in Hl, Hs.
  assert (Hn : exists b', next_fence (G1 ++ (Some a, ls) :: G2) = Some b').
  { destruct G1 as [|[f' l'] G1]; [by exists a|]. by apply Forall_cons in Hs as [[b' Hb'] _]; exists b'. }
  destruct Hn as [b' Hn]. rewrite Hn in Hl. apply ord_lt_le, (ord_lt_le_trans cmp b b' a Hl), IH; try done.
  destruct G1; [done|]. by apply Forall_cons in Hs as [_ ?].
Qed.

Definition groups_ok (G : list Group) : Prop :=
  Forall (fun g => live g.1.1 g.1.2 /\ Forall (fun l => Forall (fun x => inside g.1.1 g.1.2 (pt x)) l.2) g.2) (fenced G).

(** Everything before a fence is below it. *)
Lemma items_before G1 lo ls G2 x :
  groups_ok (G1 ++ (lo, ls) :: G2) -> Forall (fun g => is_Some g.1) (tail (G1 ++ (lo, ls) :: G2)) ->
  x ∈ items G1 -> exists a, lo = Some a /\ pt x ≺ a.
Proof.
  intros Hg Hs Hx. assert (Ha : exists a, lo = Some a).
  { destruct G1 as [|g G1]; [by apply elem_of_nil in Hx|]. cbn in Hs. apply Forall_app in Hs as [_ Hs].
    by apply Forall_cons in Hs as [[a Ha] _]; exists a. }
  destruct Ha as [a ->]. exists a. split; [done|]. unfold items in Hx. fold (items_of (leaves G1)) in Hx.
  apply elem_of_items_of in Hx as (q & xs & Hl & Hx). unfold leaves in Hl. apply list_elem_of_In, in_concat in Hl as (l & Hl & Hq).
  apply list_elem_of_In, list_elem_of_fmap in Hl as ([f l'] & -> & Hl). apply list_elem_of_In in Hq.
  apply list_elem_of_split in Hl as (G3 & G4 & ->). rewrite <- app_assoc in *. cbn [app] in *.
  unfold groups_ok in Hg. rewrite Forall_forall in Hg.
  assert (Hin : (f, next_fence (G4 ++ (Some a, ls) :: G2), l') ∈ fenced (G3 ++ (f, l') :: G4 ++ (Some a, ls) :: G2))
    by (apply elem_of_fenced; eauto).
  destruct (Hg _ Hin) as [_ Hi]. rewrite Forall_forall in Hi. specialize (Hi _ Hq). rewrite Forall_forall in Hi.
  destruct (Hi _ Hx) as [_ Hlt]. cbn in Hlt.
  assert (Hs4 : Forall (fun g : Group => is_Some g.1) (G4 ++ (Some a, ls) :: G2))
    by (destruct G3; cbn in Hs; [done|]; apply Forall_app in Hs as [_ Hs]; by apply Forall_cons in Hs as [_ ?]).
  destruct (next_fence (G4 ++ (Some a, ls) :: G2)) as [b|] eqn:En.
  - apply (ord_lt_le_trans cmp _ b a Hlt). eapply (fences_rise G4 a ls G2); [| |done].
    + apply Forall_forall. intros g Hgin. apply Hg. apply (fenced_app_r (G3 ++ [(f, l')])) in Hgin.
      by rewrite <- app_assoc in Hgin.
    + apply Forall_app in Hs4 as [Hs4 _]. destruct G4; [done|]. by apply Forall_cons in Hs4 as [_ ?].
  - destruct G4 as [|[f4 l4] G4]; [done|]. apply Forall_cons in Hs4 as [[b Hb] _]. cbn in *. congruence.
Qed.

(** Everything behind a fence is at or above it. *)
Lemma items_after G1 G2 x :
  groups_ok (G1 ++ G2) -> Forall (fun g => is_Some g.1) G2 -> x ∈ items G2 -> exists b, next_fence G2 = Some b /\ b ≼ pt x.
Proof.
  intros Hg Hs Hx. unfold items in Hx. fold (items_of (leaves G2)) in Hx. apply elem_of_items_of in Hx as (q & xs & Hl & Hx).
  unfold leaves in Hl. apply list_elem_of_In, in_concat in Hl as (l & Hl & Hq).
  apply list_elem_of_In, list_elem_of_fmap in Hl as ([f l'] & -> & Hl). apply list_elem_of_In in Hq. cbn [snd] in Hq.
  apply list_elem_of_split in Hl as (G3 & G4 & ->). unfold groups_ok in Hg. rewrite Forall_forall in Hg.
  assert (Hf : is_Some f) by (apply Forall_app in Hs as [_ Hs]; by apply Forall_cons in Hs as [? _]). destruct Hf as [a ->].
  destruct (Hg (Some a, next_fence G4, l')) as [_ Hi]; [apply fenced_app_r, elem_of_fenced; eauto|]. cbn [fst snd] in Hi.
  rewrite Forall_forall in Hi. specialize (Hi _ Hq). cbn in Hi. rewrite Forall_forall in Hi. destruct (Hi _ Hx) as [Ha _].
  assert (Hb : exists b, next_fence (G3 ++ (Some a, l') :: G4) = Some b).
  { destruct G3 as [|g G3]; [by exists a|]. by apply Forall_cons in Hs as [[b Hb] _]; exists b. }
  destruct Hb as [b Hb]. exists b. split; [done|]. eapply (ord_le_trans cmp b a); [|exact Ha].
  eapply (fences_rise G3 a l' G4); [| |done].
  - apply Forall_forall. intros g Hgin. apply Hg. by apply fenced_app_r.
  - apply Forall_app in Hs as [Hs _]. destruct G3; [done|]. by apply Forall_cons in Hs as [_ ?].
Qed.

(** ** Chains *)

Lemma chain_app ns l1 : forall p l2, chain ns p (l1 ++ l2) -> exists q, chain ns q l2 /\ (l1 = [] -> q = p).
Proof.
  induction l1 as [|[q xs] l1 IH]; intros p l2 H; [by exists p|]. destruct H as (_ & _ & lk & _ & H).
  destruct (IH _ _ H) as (q' & Hq & _). by exists q'.
Qed.

Lemma chain_head ns p q xs ls : chain ns p ((q, xs) :: ls) -> p = q.
Proof. by intros (-> & _). Qed.

Lemma chain_leaf ns p ls q xs : chain ns p ls -> (q, xs) ∈ ls -> q <> 0 /\ exists lk, ns !! q = Some (ALeaf lk xs).
Proof.
  intros H (l1 & l2 & ->)%list_elem_of_split. apply chain_app in H as (q' & (-> & Hq & lk & Hl & _) & _). eauto.
Qed.

Section Ok.
Context (t : Tree) (Ht : tree_ok t).

Lemma leaf_node q xs : (q, xs) ∈ leaves t.(groups) -> q <> 0 /\ exists lk, t.(nodes) !! q = Some (ALeaf lk xs).
Proof. destruct (t_chain _ Ht) as [p Hp]. by apply chain_leaf with p. Qed.

(** From a group on: the chain of its leaves and of all behind it, with everything
    before it below its fence. *)
Lemma group_suffix lo hi ls p :
  (lo, hi, ls) ∈ fenced t.(groups) -> head_page ls = Some p ->
  exists G1 G2, t.(groups) = G1 ++ (lo, ls) :: G2 /\ hi = next_fence G2 /\
    chain t.(nodes) p (ls ++ leaves G2) /\ (forall x, x ∈ items G1 -> exists a, lo = Some a /\ pt x ≺ a).
Proof.
  intros Hin Hp. apply elem_of_fenced in Hin as (G1 & G2 & E & ->). exists G1, G2. split_and!; [done|done| |].
  - destruct (t_chain _ Ht) as [p0 Hc]. rewrite E, leaves_app in Hc. apply chain_app in Hc as (q & Hc & _).
    rewrite leaves_cons in Hc. destruct ls as [|[q' xs] ls]; [done|]. injection Hp as <-.
    by rewrite (chain_head _ _ _ _ _ Hc) in Hc.
  - intros x Hx. eapply items_before; [| |done]; rewrite <- E; apply Ht.
Qed.

Lemma group_inside lo hi ls q xs x :
  (lo, hi, ls) ∈ fenced t.(groups) -> (q, xs) ∈ ls -> x ∈ xs -> inside lo hi (pt x).
Proof.
  intros Hin Hq Hx. pose proof (t_groups _ Ht) as Hg. rewrite Forall_forall in Hg. destruct (Hg _ Hin) as [_ Hi].
  rewrite Forall_forall in Hi. specialize (Hi _ Hq). rewrite Forall_forall in Hi. by apply Hi.
Qed.

(** A live page is a leaf or an internal node, and not both. *)
Lemma info_node p i :
  t.(infos) !! p = Some i ->
  (exists lk xs, t.(nodes) !! p = Some (ALeaf lk xs) /\ leaf_cond t p i) \/ int_cond t p i.
Proof.
  intros H. destruct (t_info _ Ht _ _ H) as (_ & _ & [(ls & Hin & Hp)|Hi]); [left|by right].
  pose proof Hin as Hf. apply elem_of_fenced in Hf as (G1 & G2 & E & _). destruct ls as [|[q xs] ls]; [done|]. injection Hp as <-.
  destruct (leaf_node q xs) as (_ & lk & Hl).
  - rewrite E, leaves_app, leaves_cons, !elem_of_app. right. left. by constructor.
  - exists lk, xs. split; [done|]. by exists ((q, xs) :: ls).
Qed.

(** Following the separators leads to a child that answers for the key. *)
Lemma route p i y lk ss k :
  t.(infos) !! p = Some i -> t.(nodes) !! p = Some (AInt lk ss) -> inside i.(i_lo) i.(i_hi) y -> (k <= length ss)%nat ->
  Forall (fun s => s ≼ y) (take k ss.*1) -> Forall (fun s => y ≺ s) (drop k ss.*1) ->
  exists c j, t.(infos) !! c = Some j /\ j.(i_parent) = Some p /\ inside j.(i_lo) j.(i_hi) y /\
    match k with O => c = lk | S k => exists s, ss !! k = Some (s, c) end.
Proof.
  intros H Hn Hy Hk H1 H2. destruct (info_node p i H) as [(lk' & xs & Hn' & _)|(lk' & ss' & Hn' & _ & Hc)]; [congruence|].
  rewrite Hn in Hn'. injection Hn' as <- <-.
  destruct (slots_locate ss (i_lo i) lk (i_hi i) y k Hy Hk H1 H2) as (a & b & c & Hin & Hi & He).
  destruct (Hc _ _ _ Hin (inside_live _ _ _ Hi)) as (j & Hj & Sa & Sb & Hpar). exists c, j. split_and!; try done.
  eapply same_inside; [by apply same_sym|by apply same_sym|done].
Qed.

(** Separators of a live node are sorted. *)
Lemma node_seps p i lk ss : t.(infos) !! p = Some i -> t.(nodes) !! p = Some (AInt lk ss) -> seps_ok i.(i_lo) i.(i_hi) ss.
Proof.
  intros H Hn. destruct (info_node p i H) as [(lk' & xs & Hn' & _)|(lk' & ss' & Hn' & Hs & _)]; [congruence|].
  rewrite Hn in Hn'. by injection Hn' as <- <-.
Qed.
End Ok.

(** ** Changing leaves *)

Lemma chain_ext ns ns' ls : forall p,
  chain ns p ls -> (forall q, q ∈ ls.*1 -> ns' !! q = ns !! q) -> chain ns' p ls.
Proof.
  induction ls as [|[q xs] ls IH]; intros p H Hs; [done|]. destruct H as (-> & Hq & lk & Hl & H). split_and!; [done|done|].
  exists lk. split; [rewrite Hs; [done|by constructor]|]. apply IH; [done|]. intros q' Hq'. apply Hs. by constructor.
Qed.

(** The chain with the leaves from [q] to its successor replaced. *)
Lemma chain_splice ns ns' l1 : forall p q xs l2 lk new,
  chain ns p (l1 ++ (q, xs) :: l2) -> ns !! q = Some (ALeaf lk xs) ->
  (forall q', q' ∈ l1.*1 ++ l2.*1 -> ns' !! q' = ns !! q') ->
  (chain ns' lk l2 -> chain ns' q (new ++ l2)) -> head_page new = Some q ->
  chain ns' p (l1 ++ new ++ l2).
Proof.
  induction l1 as [|[q1 xs1] l1 IH]; intros p q xs l2 lk new H Hq Hs Hn Hh.
  - destruct H as (-> & _ & lk' & Hl & H). rewrite Hq in Hl. injection Hl as <-. apply Hn.
    eapply chain_ext; [done|]. intros q' Hq'. apply Hs. by rewrite elem_of_app; right.
  - destruct H as (-> & H0 & lk1 & Hl & H). split_and!; [done|done|]. exists lk1.
    split; [rewrite Hs by (set_solver); done|]. eapply IH; try done. intros q' Hq'. apply Hs. set_solver.
Qed.

Lemma same_fences G1 f ls ls' G2 lo hi l p :
  (lo, hi, l) ∈ fenced (G1 ++ (f, ls) :: G2) -> head_page l = Some p -> head_page ls' = head_page ls ->
  exists l', (lo, hi, l') ∈ fenced (G1 ++ (f, ls') :: G2) /\ head_page l' = Some p.
Proof.
  intros Hin Hp Hh. induction G1 as [|g G1 IH]; cbn in *.
  - apply elem_of_cons in Hin as [[= -> -> ->]|Hin].
    + exists ls'. split; [by constructor|congruence].
    + exists l. split; [by constructor|done].
  - apply elem_of_cons in Hin as [[= -> -> ->]|Hin].
    + exists g.2. split; [|done]. replace (next_fence (G1 ++ (f, ls) :: G2)) with (next_fence (G1 ++ (f, ls') :: G2)) by (by destruct G1).
      constructor.
    + destruct (IH Hin) as (l' & Hl' & Hp'). exists l'. split; [by constructor|done].
Qed.

Lemma groups_replace G1 f ls ls' G2 :
  groups_ok (G1 ++ (f, ls) :: G2) ->
  Forall (fun l => Forall (fun x => inside f (next_fence G2) (pt x)) l.2) ls' ->
  groups_ok (G1 ++ (f, ls') :: G2).
Proof.
  unfold groups_ok. induction G1 as [|g G1 IH]; cbn; intros H Hi; apply Forall_cons in H as [H1 H2]; constructor.
  - split; [apply H1|done].
  - done.
  - by replace (next_fence (G1 ++ (f, ls') :: G2)) with (next_fence (G1 ++ (f, ls) :: G2)) by (by destruct G1).
  - by apply IH.
Qed.

(** New leaves behind a fence, with the same head, keep the tree. *)
Lemma set_leaves t ns' G1 f ls ls' G2 :
  tree_ok t -> t.(groups) = G1 ++ (f, ls) :: G2 -> head_page ls' = head_page ls ->
  (exists p, chain ns' p (leaves (G1 ++ (f, ls') :: G2))) ->
  (forall p lk ss, t.(nodes) !! p = Some (AInt lk ss) -> ns' !! p = Some (AInt lk ss)) ->
  NoDup (leaves (G1 ++ (f, ls') :: G2)).*1 ->
  Forall (fun l => Forall (fun x => inside f (next_fence G2) (pt x)) l.2) ls' ->
  StronglySorted (ord_lt cmp) (pt <$> items (G1 ++ (f, ls') :: G2)) ->
  tree_ok (mkTree ns' (G1 ++ (f, ls') :: G2) t.(infos) t.(troot)).
Proof.
  intros Ht E Hh Hc Hn Hnd Hi Hs. destruct Ht. rewrite E in t_first0, t_fences0, t_heads0, t_groups0. constructor; cbn [nodes groups infos troot]; try done.
  - destruct t_first0 as (l0 & G0 & E0). destruct G1 as [|[f1 l1] G1]; cbn in E0; injection E0 as E1 _ _; subst; by eexists _, _.
  - destruct G1; cbn in *; [done|]. apply Forall_app in t_fences0 as [H1 H2]. apply Forall_cons in H2 as [H2 H3].
    apply Forall_app. by repeat constructor.
  - apply Forall_app in t_heads0 as [H1 H2]. apply Forall_cons in H2 as [H2 H3]. apply Forall_app. split; [done|].
    constructor; [|done]. cbn in *. by destruct ls', ls.
  - by eapply groups_replace.
  - intros p i Hp. destruct (t_info0 p i Hp) as (H0 & Hl & [(l & Hin & Hpage)|(lk & ss & Hnode & Hss & Hsl)]).
    + split_and!; [done|done|]. left. rewrite E in Hin. destruct (same_fences _ _ _ ls' _ _ _ _ _ Hin Hpage Hh) as (l' & ? & ?).
      by exists l'.
    + split_and!; [done|done|]. right. exists lk, ss. split_and!; [by apply Hn|done|done].
  - intros p i q Hp Hq. destruct (t_parent0 p i q Hp Hq) as (j & lk & ss & a & b & H1 & H2 & H3).
    exists j, lk, ss, a, b. split_and!; [done|by apply Hn|apply H3..].
Qed.

Lemma nodup_pages G1 f l1 q xs l2 G2 :
  NoDup (leaves (G1 ++ (f, l1 ++ (q, xs) :: l2) :: G2)).*1 ->
  NoDup (leaves G1 ++ l1 ++ l2 ++ leaves G2).*1 /\ q ∉ (leaves G1 ++ l1 ++ l2 ++ leaves G2).*1.
Proof.
  rewrite leaves_app, leaves_cons, !fmap_app. cbn [fmap list_fmap fst]. intros H.
  assert (Hp : (leaves G1).*1 ++ (l1.*1 ++ q :: l2.*1) ++ (leaves G2).*1 ≡ₚ
    q :: (leaves G1).*1 ++ l1.*1 ++ l2.*1 ++ (leaves G2).*1) by solve_Permutation.
  rewrite Hp in H. by apply NoDup_cons in H as [? ?].
Qed.

(** ** The entries of one leaf change *)

Lemma step_leaf t G1 f l1 q xs l2 G2 lk xs' :
  tree_ok t -> t.(groups) = G1 ++ (f, l1 ++ (q, xs) :: l2) :: G2 -> t.(nodes) !! q = Some (ALeaf lk xs) ->
  let G' := G1 ++ (f, l1 ++ (q, xs') :: l2) :: G2 in
  Forall (fun x => inside f (next_fence G2) (pt x)) xs' -> StronglySorted (ord_lt cmp) (pt <$> items G') ->
  tree_ok (mkTree (<[q := ALeaf lk xs']> t.(nodes)) G' t.(infos) t.(troot)).
Proof.
  intros Ht E Hq G' Hi Hs. destruct (t_chain _ Ht) as [p Hc]. pose proof (t_nodup _ Ht) as Hnd. rewrite E in Hc, Hnd.
  destruct (nodup_pages _ _ _ _ _ _ _ Hnd) as [_ Hnew].
  eapply set_leaves; [done|done| | | | | |done].
  - by destruct l1.
  - exists p. rewrite leaves_app, leaves_cons in Hc |- *. rewrite <- app_assoc in Hc |- *. rewrite app_assoc in Hc |- *.
    eapply (chain_splice _ _ (leaves G1 ++ l1) p q xs (l2 ++ leaves G2) lk [(q, xs')]); [done|done| | |done].
    + intros q' Hq'. apply lookup_insert_ne. intros <-. apply Hnew. by rewrite !fmap_app, <- !app_assoc in *.
    + intros Hl. split_and!; [done| |].
      * rewrite <- app_assoc in Hc. by destruct (leaf_node _ Ht q xs) as [? _]; [rewrite E, leaves_app, leaves_cons; set_solver|].
      * exists lk. by rewrite lookup_insert_eq.
  - intros p' lk' ss Hp'. rewrite lookup_insert_ne; [done|]. intros <-. congruence.
  - revert Hnd. by rewrite !leaves_app, !leaves_cons, !fmap_app.
  - pose proof (t_groups _ Ht) as Hg. rewrite Forall_forall in Hg.
    assert (Hin : (f, next_fence G2, l1 ++ (q, xs) :: l2) ∈ fenced (groups t)) by (apply elem_of_fenced; eauto).
    destruct (Hg _ Hin) as [_ Hold]. cbn in Hold. apply Forall_app in Hold as [H1 H2]. apply Forall_cons in H2 as [_ H2].
    apply Forall_app. split; [done|]. by constructor.
Qed.

(** ** A leaf splits *)

Lemma step_split_leaf t G1 f l1 q xs l2 G2 lk r xs1 xs2 :
  tree_ok t -> t.(groups) = G1 ++ (f, l1 ++ (q, xs) :: l2) :: G2 -> t.(nodes) !! q = Some (ALeaf lk xs) ->
  t.(nodes) !! r = None -> r <> 0 ->
  let G' := G1 ++ (f, l1 ++ (q, xs1) :: (r, xs2) :: l2) :: G2 in
  Forall (fun x => inside f (next_fence G2) (pt x)) (xs1 ++ xs2) -> StronglySorted (ord_lt cmp) (pt <$> items G') ->
  tree_ok (mkTree (<[q := ALeaf r xs1]> (<[r := ALeaf lk xs2]> t.(nodes))) G' t.(infos) t.(troot)).
Proof.
  intros Ht E Hq Hr Hr0 G' Hi Hs. destruct (t_chain _ Ht) as [p Hc]. pose proof (t_nodup _ Ht) as Hnd. rewrite E in Hc, Hnd.
  destruct (nodup_pages _ _ _ _ _ _ _ Hnd) as [_ Hnew]. assert (Hne : q <> r) by congruence.
  assert (Hrn : r ∉ (leaves (groups t)).*1).
  { intros Hin. apply list_elem_of_fmap in Hin as ([r' xr] & -> & Hin). cbn in Hr. destruct (leaf_node _ Ht _ _ Hin) as (_ & lk' & Hl). congruence. }
  rewrite E in Hrn. eapply set_leaves; [done|done| | | | | |done].
  - by destruct l1.
  - exists p. rewrite leaves_app, leaves_cons in Hc |- *. rewrite <- app_assoc in Hc |- *. rewrite app_assoc in Hc |- *.
    eapply (chain_splice _ _ (leaves G1 ++ l1) p q xs (l2 ++ leaves G2) lk [(q, xs1); (r, xs2)]); [done|done| | |done].
    + intros q' Hq'. rewrite !lookup_insert_ne; [done| |].
      * intros <-. apply Hrn. rewrite leaves_app, leaves_cons, !fmap_app. rewrite !fmap_app in Hq'. set_solver.
      * intros <-. apply Hnew. by rewrite !fmap_app, <- !app_assoc in *.
    + intros Hl. split_and!; [done| |].
      * rewrite <- app_assoc in Hc. by destruct (leaf_node _ Ht q xs) as [? _]; [rewrite E, leaves_app, leaves_cons; set_solver|].
      * exists r. rewrite lookup_insert_eq. split; [done|]. split_and!; [done|done|]. exists lk. by rewrite lookup_insert_ne, lookup_insert_eq.
  - intros p' lk' ss Hp'. rewrite !lookup_insert_ne; [done| |]; intros <-; congruence.
  - revert Hnd Hrn. rewrite !leaves_app, !leaves_cons, !fmap_app. cbn [fmap list_fmap fst]. intros H1 H2.
    assert (Hp : (leaves G1).*1 ++ (l1.*1 ++ q :: r :: l2.*1) ++ (leaves G2).*1 ≡ₚ
      r :: (leaves G1).*1 ++ (l1.*1 ++ q :: l2.*1) ++ (leaves G2).*1) by solve_Permutation.
    rewrite Hp. by apply NoDup_cons.
  - pose proof (t_groups _ Ht) as Hg. rewrite Forall_forall in Hg.
    assert (Hin : (f, next_fence G2, l1 ++ (q, xs) :: l2) ∈ fenced (groups t)) by (apply elem_of_fenced; eauto).
    destruct (Hg _ Hin) as [_ Hold]. cbn in Hold. apply Forall_app in Hold as [H1 H2]. apply Forall_cons in H2 as [_ H2].
    apply Forall_app in Hi as [Hi1 Hi2]. apply Forall_app. split; [done|]. by repeat constructor.
Qed.

(** ** A parent learns of a new right node *)

(** The part of the invariant that is about leaves. *)
Definition leaves_ok (ns : gmap N ANode) (G : list Group) : Prop :=
  (exists ls G', G = (None, ls) :: G') /\ Forall (fun g => is_Some g.1) (tail G) /\ Forall (fun g => g.2 <> []) G /\
  (exists p, chain ns p (leaves G)) /\ NoDup (leaves G).*1 /\ groups_ok G /\ StronglySorted (ord_lt cmp) (pt <$> items G).

Lemma tree_leaves t : tree_ok t -> leaves_ok t.(nodes) t.(groups).
Proof. by intros []. Qed.

Lemma leaves_int ns G p lk ss n : leaves_ok ns G -> ns !! p = Some (AInt lk ss) -> leaves_ok (<[p := n]> ns) G.
Proof.
  intros (H1 & H2 & H3 & (q & Hc) & H4) Hp. split_and!; try apply H4; try done. exists q. eapply chain_ext; [done|].
  intros q' Hq'. apply lookup_insert_ne. intros <-. apply list_elem_of_fmap in Hq' as ([q1 xs] & -> & Hin).
  destruct (chain_leaf _ _ _ _ _ Hc Hin) as (_ & lk' & Hl). cbn in *. congruence.
Qed.

Lemma leaves_fresh ns G p n : leaves_ok ns G -> ns !! p = None -> leaves_ok (<[p := n]> ns) G.
Proof.
  intros (H1 & H2 & H3 & (q & Hc) & H4) Hp. split_and!; try apply H4; try done. exists q. eapply chain_ext; [done|].
  intros q' Hq'. apply lookup_insert_ne. intros <-. apply list_elem_of_fmap in Hq' as ([q1 xs] & -> & Hin).
  destruct (chain_leaf _ _ _ _ _ Hc Hin) as (_ & lk' & Hl). cbn in *. congruence.
Qed.

Lemma init_slots_upper ss : forall lo c a c' b, (a, c', b) ∈ init_slots lo c ss -> exists k, b = Some k /\ k ∈ ss.*1.
Proof.
  induction ss as [|[s c1] ss IH]; intros lo c a c' b H; cbn in *; [by apply elem_of_nil in H|].
  apply elem_of_cons in H as [[= -> -> ->]|H]; [exists s; split; [done|by constructor]|].
  destruct (IH _ _ _ _ _ H) as (k & -> & Hk). exists k. split; [done|by constructor].
Qed.

Lemma slots_lower ss : forall lo c hi a c' b, (a, c', b) ∈ slots lo c ss hi -> a = lo \/ exists k, a = Some k /\ k ∈ ss.*1.
Proof.
  induction ss as [|[s c1] ss IH]; intros lo c hi a c' b H; cbn in *.
  - apply list_elem_of_singleton in H as [= -> -> ->]. by left.
  - apply elem_of_cons in H as [[= -> -> ->]|H]; [by left|]. right.
    destruct (IH _ _ _ _ _ _ H) as [->|(k & -> & Hk)]; [exists s; split; [done|by constructor]|exists k; split; [done|by constructor]].
Qed.

Lemma tail_slots_lower ss hi a c b : (a, c, b) ∈ tail_slots ss hi -> exists k, a = Some k /\ k ∈ ss.*1.
Proof.
  destruct ss as [|[s c1] ss]; cbn; [by intros ?%elem_of_nil|]. intros H.
  destruct (slots_lower _ _ _ _ _ _ _ H) as [->|(k & -> & Hk)]; [exists s; split; [done|by constructor]|exists k; split; [done|by constructor]].
Qed.

(** Separators cut at a key: below it, and at or above it. *)
Definition cut (s : K) (ss1 ss2 : list (K * N)) : Prop := Forall (fun k => k ≺ s) ss1.*1 /\ Forall (fun k => s ≼ k) ss2.*1.

(** A slot strictly around the key is the one across the cut. *)
Lemma cut_slot lo c ss1 ss2 hi s a x b :
  cut s ss1 ss2 -> (a, x, b) ∈ slots lo c (ss1 ++ ss2) hi -> live a (Some s) -> live (Some s) b ->
  last_slot lo c ss1 = (a, x) /\ first_hi ss2 hi = b.
Proof.
  intros [H1 H2] Hin La Lb. rewrite slots_cut in Hin. apply elem_of_app in Hin as [Hin|Hin].
  - destruct (init_slots_upper _ _ _ _ _ _ Hin) as (k & -> & Hk). rewrite Forall_forall in H1. cbn in Lb.
    exfalso. eapply (ord_lt_irrefl cmp). by eapply ord_lt_trans; [| |apply H1].
  - apply elem_of_cons in Hin as [E|Hin].
    + destruct (last_slot lo c ss1) as [a0 x0]. by injection E as -> -> ->.
    + destruct (tail_slots_lower _ _ _ _ _ Hin) as (k & -> & Hk). rewrite Forall_forall in H2. cbn in La.
      exfalso. eapply (ord_lt_irrefl cmp). by eapply ord_lt_le_trans; [| |apply H2].
Qed.

Lemma cut_seps lo hi s r ss1 ss2 :
  cut s ss1 ss2 -> seps_ok lo hi (ss1 ++ ss2) -> within lo hi s -> seps_ok lo hi (ss1 ++ (s, r) :: ss2).
Proof.
  intros [H1 H2] [Hs Hw] Hin. unfold seps_ok in *. rewrite fmap_app in *. cbn [fmap list_fmap fst]. split.
  - apply StronglySorted_app_2.
    + intros x1 x2 Hx1 Hx2. rewrite Forall_forall in H1. apply elem_of_cons in Hx2 as [->|Hx2]; [by apply ord_lt_le, H1|].
      eapply StronglySorted_app_1_elem_of; [exact Hs|done|done].
    + by eapply StronglySorted_app_1_l.
    + constructor; [by eapply StronglySorted_app_1_r|done].
  - apply Forall_app in Hw as [Hw1 Hw2]. apply Forall_app. split; [done|by constructor].
Qed.

Section Learn.
Context (t : Tree) (Ht : tree_ok t).
Context (N0 X R : N) (iN iX : Info) (lk : N) (ss1 ss2 : list (K * N)) (s : K).
Context (HN : t.(infos) !! N0 = Some iN) (HNn : t.(nodes) !! N0 = Some (AInt lk (ss1 ++ ss2))).
Context (HX : t.(infos) !! X = Some iX) (HXp : iX.(i_parent) = Some N0).
Context (Hcut : cut s ss1 ss2) (Hlo : live iX.(i_lo) (Some s)) (Hhi : live (Some s) iX.(i_hi)).
Context (HR : forall j, t.(infos) !! R = Some j -> j.(i_parent) = Some X).
Context (HXR : X <> R) (HNR : N0 <> R).

Let infos' := <[X := mkInfo iX.(i_lo) (Some s) (Some N0)]> (<[R := mkInfo (Some s) iX.(i_hi) (Some N0)]> t.(infos)).
Let ss' := ss1 ++ (s, R) :: ss2.

Lemma learn_X_N : X <> N0.
Proof. intros ->. destruct (t_rank _ Ht) as [rk Hrk]. specialize (Hrk _ _ _ HX HXp). lia. Qed.

(** The slot of [X], seen from its parent. *)
Lemma learn_slot :
  exists a b, last_slot iN.(i_lo) lk ss1 = (a, X) /\ first_hi ss2 iN.(i_hi) = b /\ same iX.(i_lo) a /\ same iX.(i_hi) b.
Proof.
  destruct (t_parent _ Ht _ _ _ HX HXp) as (j & lk' & ss & a & b & Hj & Hn & Hin & Sa & Sb).
  rewrite HN in Hj. injection Hj as <-. rewrite HNn in Hn. injection Hn as <- <-.
  destruct (cut_slot _ _ _ _ _ _ _ _ _ Hcut Hin) as [E1 E2].
  - eapply same_live; [done|apply same_refl|done].
  - eapply same_live; [apply same_refl|done|done].
  - by exists a, b.
Qed.

(** Another slot of the parent is not [X]'s nor [R]'s. *)
Lemma learn_other a c b :
  (a, c, b) ∈ init_slots iN.(i_lo) lk ss1 \/ (a, c, b) ∈ tail_slots ss2 iN.(i_hi) -> live a b ->
  exists j, t.(infos) !! c = Some j /\ infos' !! c = Some j /\ same j.(i_lo) a /\ same j.(i_hi) b /\ j.(i_parent) = Some N0.
Proof.
  intros Hin Hl. destruct (info_node _ Ht _ _ HN) as [(? & ? & ? & _)|(lk' & ss & Hn & _ & Hc)]; [congruence|].
  rewrite HNn in Hn. injection Hn as <- <-.
  destruct (Hc a c b) as (j & Hj & Sa & Sb & Hp); [rewrite slots_cut; set_solver|done|]. exists j. split_and!; try done.
  assert (c <> X).
  { intros ->. rewrite HX in Hj. injection Hj as <-. destruct Hcut as [H1 H2]. rewrite Forall_forall in H1, H2.
    destruct Hin as [Hin|Hin].
    - destruct (init_slots_upper _ _ _ _ _ _ Hin) as (k & -> & Hk).
      pose proof (same_live _ _ _ _ (same_refl _) Sb Hhi) as Hk'. eapply (ord_lt_irrefl cmp), ord_lt_trans; [|exact Hk'|by apply H1]. done.
    - destruct (tail_slots_lower _ _ _ _ _ Hin) as (k & -> & Hk).
      pose proof (same_live _ _ _ _ Sa (same_refl _) Hlo) as Hk'. eapply (ord_lt_irrefl cmp), ord_lt_le_trans; [|exact Hk'|by apply H2]. done. }
  assert (c <> R).
  { intros ->. pose proof (HR _ Hj) as HR'. rewrite Hp in HR'. injection HR' as E. by apply learn_X_N. }
  unfold infos'. by rewrite !lookup_insert_ne.
Qed.

Lemma learn_slots t' a c b :
  t'.(infos) = infos' -> (a, c, b) ∈ slots iN.(i_lo) lk ss' iN.(i_hi) -> live a b -> child_info t' N0 a c b.
Proof.
  intros E Hin Hl. unfold child_info. rewrite E. destruct learn_slot as (a0 & b0 & E1 & E2 & Sa & Sb).
  unfold ss' in Hin. rewrite slots_cut_insert, E1, E2 in Hin. apply elem_of_app in Hin as [Hin|Hin].
  { destruct (learn_other a c b (or_introl Hin) Hl) as (j & _ & ? & ? & ? & ?). eauto. }
  apply elem_of_cons in Hin as [[= -> -> ->]|Hin].
  { unfold infos'. rewrite lookup_insert_eq. eexists. split_and!; [done|done|apply same_refl|done]. }
  apply elem_of_cons in Hin as [[= -> -> ->]|Hin].
  { unfold infos'. rewrite lookup_insert_ne, lookup_insert_eq by done. eexists. split_and!; [done|apply same_refl|done|done]. }
  destruct (learn_other a c b (or_intror Hin) Hl) as (j & _ & ? & ? & ? & ?). eauto.
Qed.

(** A child of the parent keeps its slot. *)
Lemma learn_parent p i :
  infos' !! p = Some i -> i.(i_parent) = Some N0 ->
  exists a b, (a, p, b) ∈ slots iN.(i_lo) lk ss' iN.(i_hi) /\ same i.(i_lo) a /\ same i.(i_hi) b.
Proof.
  intros Hp Hpar. destruct learn_slot as (a0 & b0 & E1 & E2 & Sa & Sb). unfold ss'. rewrite slots_cut_insert, E1, E2.
  unfold infos' in Hp. apply lookup_insert_Some in Hp as [(<- & <-)|[HpX Hp]].
  { exists a0, (Some s). split_and!; [set_solver|done|apply same_refl]. }
  apply lookup_insert_Some in Hp as [(<- & <-)|[HpR Hp]].
  { exists (Some s), b0. split_and!; [set_solver|apply same_refl|done]. }
  destruct (t_parent _ Ht _ _ _ Hp Hpar) as (j & lk' & ss & a & b & Hj & Hn & Hin & Sa' & Sb').
  rewrite HN in Hj. injection Hj as <-. rewrite HNn in Hn. injection Hn as <- <-.
  exists a, b. split_and!; [|done|done]. rewrite slots_cut, E1, E2 in Hin.
  apply elem_of_app in Hin as [Hin|Hin]; [set_solver|]. apply elem_of_cons in Hin as [[= -> -> ->]|Hin]; [done|set_solver].
Qed.

(** The interval of the parent holds the new separator. *)
Lemma learn_within : within iN.(i_lo) iN.(i_hi) s.
Proof.
  destruct (t_parent _ Ht _ _ _ HX HXp) as (j & lk' & ss & a & b & Hj & Hn & Hin & Sa & Sb).
  rewrite HN in Hj. injection Hj as <-. rewrite HNn in Hn. injection Hn as <- <-.
  destruct (slots_bounds _ _ _ _ _ _ _ (node_seps _ Ht _ _ _ _ HN HNn) Hin) as [B1 B2].
  assert (Hs : inside a b s).
  { split; [|eapply same_lt_hi; [done|by destruct (i_hi iX)]].
    eapply same_ge_lo; [done|]. destruct (i_lo iX); [by apply ord_lt_le|done]. }
  destruct Hs. split; [by apply B1|]. apply B2 in H0. destruct (i_hi iN); [by apply ord_lt_le|done].
Qed.
End Learn.

Lemma fenced_split G1 f ls l1 s l2 G2 g :
  g ∈ fenced (G1 ++ (f, ls) :: G2) ->
  g = (f, next_fence G2, ls) \/ g ∈ fenced (G1 ++ (f, l1) :: (Some s, l2) :: G2).
Proof.
  induction G1 as [|g1 G1 IH]; cbn; intros [->|H]%elem_of_cons.
  - by left.
  - right. by do 2 right.
  - right. replace (next_fence (G1 ++ (f, ls) :: G2)) with (next_fence (G1 ++ (f, l1) :: (Some s, l2) :: G2)) by (by destruct G1).
    constructor.
  - destruct (IH H); [by left|right]. by constructor.
Qed.

Lemma groups_split G1 f ls l1 s l2 G2 :
  groups_ok (G1 ++ (f, ls) :: G2) -> live f (Some s) -> live (Some s) (next_fence G2) ->
  Forall (fun l => Forall (fun x => inside f (Some s) (pt x)) l.2) l1 ->
  Forall (fun l => Forall (fun x => inside (Some s) (next_fence G2) (pt x)) l.2) l2 ->
  groups_ok (G1 ++ (f, l1) :: (Some s, l2) :: G2).
Proof.
  unfold groups_ok. intros H L1 L2 I1 I2. induction G1 as [|g G1 IH]; cbn in *; apply Forall_cons in H as [H H'].
  - by repeat constructor.
  - constructor; [|by apply IH].
    by replace (next_fence (G1 ++ (f, l1) :: (Some s, l2) :: G2)) with (next_fence (G1 ++ (f, ls) :: G2)) by (by destruct G1).
Qed.

(** The parent of a group's head learns of a leaf in the middle of the group. *)
Lemma step_learn_leaf t N0 X R iN iX lk ss1 ss2 s G1 l1 xs2 l2 G2 :
  tree_ok t -> t.(infos) !! N0 = Some iN -> t.(nodes) !! N0 = Some (AInt lk (ss1 ++ ss2)) ->
  t.(infos) !! X = Some iX -> iX.(i_parent) = Some N0 -> cut s ss1 ss2 -> t.(infos) !! R = None ->
  t.(groups) = G1 ++ (iX.(i_lo), l1 ++ (R, xs2) :: l2) :: G2 -> iX.(i_hi) = next_fence G2 -> head_page l1 = Some X ->
  live iX.(i_lo) (Some s) -> live (Some s) iX.(i_hi) ->
  Forall (fun x => pt x ≺ s) (items_of l1) -> Forall (fun x => s ≼ pt x) (xs2 ++ items_of l2) ->
  tree_ok (mkTree (<[N0 := AInt lk (ss1 ++ (s, R) :: ss2)]> t.(nodes))
    (G1 ++ (iX.(i_lo), l1) :: (Some s, (R, xs2) :: l2) :: G2)
    (<[X := mkInfo iX.(i_lo) (Some s) (Some N0)]> (<[R := mkInfo (Some s) iX.(i_hi) (Some N0)]> t.(infos))) t.(troot)).
Proof.
  intros Ht HN HNn HX HXp Hcut HRi E Eh Hhead Hlo Hhi Hl1 Hl2.
  assert (Hin : (R, xs2) ∈ leaves (groups t)) by (rewrite E, leaves_app, leaves_cons; set_solver).
  destruct (leaf_node _ Ht _ _ Hin) as (HR0 & lkR & HRn).
  assert (Hfen : (i_lo iX, i_hi iX, l1 ++ (R, xs2) :: l2) ∈ fenced (groups t)) by (apply elem_of_fenced; rewrite Eh; eauto).
  assert (HXR : X <> R) by congruence. assert (HNR : N0 <> R) by congruence.
  destruct l1 as [|[X' xsX] l1]; [done|]. injection Hhead as ->.
  assert (HXl : exists lkX, nodes t !! X = Some (ALeaf lkX xsX)).
  { destruct (leaf_node _ Ht X xsX) as (_ & lkX & ?); [rewrite E, leaves_app, leaves_cons; set_solver|eauto]. }
  destruct HXl as [lkX HXl].
  assert (HRX : forall j, infos t !! R = Some j -> i_parent j = Some X) by (intros; congruence).
  assert (HXN : X <> N0) by congruence.
  set (t' := mkTree _ _ _ _). assert (HL : leaves_ok (nodes t') (groups t')).
  { cbn. eapply leaves_int; [|done]. pose proof Ht as []. rewrite E in t_first0, t_fences0, t_heads0, t_chain0, t_nodup0, t_groups0, t_sorted0.
    assert (El : leaves (G1 ++ (i_lo iX, (X, xsX) :: l1) :: (Some s, (R, xs2) :: l2) :: G2)
      = leaves (G1 ++ (i_lo iX, ((X, xsX) :: l1) ++ (R, xs2) :: l2) :: G2))
      by (rewrite !leaves_app, !leaves_cons; by rewrite <- !app_assoc).
    unfold leaves_ok, items. rewrite El. split_and!; try done.
    - destruct t_first0 as (l0 & G0 & E0). destruct G1 as [|[f1 ls1] G1]; cbn in E0; injection E0 as E1 _ _; subst; [|by eexists _, _].
      rewrite E1. by eexists _, _.
    - destruct G1 as [|g1 G1]; cbn in *; [by constructor|]. apply Forall_app in t_fences0 as [H1 H2]. apply Forall_cons in H2 as [H2 H3].
      apply Forall_app. by repeat constructor.
    - apply Forall_app in t_heads0 as [H1 H2]. apply Forall_cons in H2 as [H2 H3]. apply Forall_app. by repeat constructor.
    - eapply groups_split; [exact t_groups0|done|by rewrite <- Eh| |]; rewrite Forall_forall; intros [q xs] Hq; rewrite Forall_forall;
        intros x Hx; cbn in Hx; rewrite Forall_forall in Hl1, Hl2.
      + destruct (group_inside _ Ht _ _ _ q xs x Hfen) as [? _]; [set_solver|done|]. split; [done|]. apply Hl1, elem_of_items_of. eauto.
      + destruct (group_inside _ Ht _ _ _ q xs x Hfen) as [_ ?]; [set_solver|done|]. rewrite <- Eh. split; [|done].
        apply Hl2. rewrite elem_of_app, elem_of_items_of. apply elem_of_cons in Hq as [[= -> ->]|Hq]; [by left|right; eauto]. }
  subst t'. cbn [nodes groups] in HL. destruct HL as (L1 & L2 & L3 & L4 & L5 & L6 & L7). constructor; try done; cbn [nodes groups infos troot].
  - rewrite !lookup_insert_ne; [apply Ht|..]; intros ->; pose proof (t_root _ Ht) as Hr; [congruence|].
    rewrite HX in Hr. injection Hr as ->. done.
  - intros p i Hp. apply lookup_insert_Some in Hp as [(<- & <-)|[HpX Hp]].
    { split_and!; [apply (t_info _ Ht _ _ HX)|done|]. left. exists ((X, xsX) :: l1). split; [|done]. apply elem_of_fenced.
      by eexists G1, _. }
    apply lookup_insert_Some in Hp as [(<- & <-)|[HpR Hp]].
    { split_and!; [done|done|]. left. exists ((R, xs2) :: l2). split; [|done]. apply elem_of_fenced.
      exists (G1 ++ [(i_lo iX, (X, xsX) :: l1)]), G2. cbn. by rewrite <- app_assoc. }
    destruct (t_info _ Ht _ _ Hp) as (H0 & Hl & [(ls & Hls & Hh)|(lk' & ss & Hn & Hs & Hc)]); (split_and!; [done|done|]).
    + left. exists ls. split; [|done]. rewrite E in Hls. cbn [groups].
      destruct (fenced_split _ _ _ ((X, xsX) :: l1) s ((R, xs2) :: l2) _ _ Hls) as [[= _ _ ->]|?]; [|done]. by injection Hh as <-.
    + right. destruct (decide (p = N0)) as [->|HpN].
      * rewrite HNn in Hn. injection Hn as <- <-. rewrite HN in Hp. injection Hp as <-. exists lk, (ss1 ++ (s, R) :: ss2).
        cbn [nodes]. rewrite lookup_insert_eq. split_and!; [done| |].
        -- apply cut_seps; [done|done|]. by eapply learn_within.
        -- intros a c b Hac Hab. by eapply (learn_slots t Ht N0 X R iN iX lk ss1 ss2 s).
      * exists lk', ss. cbn [nodes]. rewrite lookup_insert_ne by done. split_and!; [done|done|]. intros a c b Hac Hab.
        destruct (Hc _ _ _ Hac Hab) as (j & Hj & Sa & Sb & Hpar). exists j. split_and!; try done. cbn [infos].
        rewrite !lookup_insert_ne; [done|congruence|]. intros <-. rewrite HX in Hj. injection Hj as <-. congruence.
  - intros p i q Hp Hq. destruct (decide (q = N0)) as [->|HqN].
    + edestruct (learn_parent t Ht N0 X R iN iX lk ss1 ss2 s) as (a & b & Hab & Sa & Sb); try done.
      exists iN, lk, (ss1 ++ (s, R) :: ss2), a, b. rewrite lookup_insert_eq, !lookup_insert_ne by done. by split_and!.
    + apply lookup_insert_Some in Hp as [(<- & <-)|[HpX Hp]]; [cbn in Hq; congruence|].
      apply lookup_insert_Some in Hp as [(<- & <-)|[HpR Hp]]; [cbn in Hq; congruence|].
      destruct (t_parent _ Ht _ _ _ Hp Hq) as (j & lk' & ss & a & b & Hj & Hn & Hs & Sa & Sb).
      exists j, lk', ss, a, b. rewrite lookup_insert_ne, !lookup_insert_ne by congruence. split_and!; try done.
  - destruct (t_rank _ Ht) as [rk Hrk]. exists (fun p => if decide (p = R) then rk X else rk p). intros p i q Hp Hq.
    apply lookup_insert_Some in Hp as [(<- & <-)|[HpX Hp]]; [|apply lookup_insert_Some in Hp as [(<- & <-)|[HpR Hp]]].
    + injection Hq as <-. rewrite !decide_False by done. by eapply Hrk.
    + injection Hq as <-. rewrite decide_True, decide_False by done. by eapply Hrk.
    + rewrite decide_False by done. destruct (decide (q = R)) as [->|]; [|by eapply Hrk].
      destruct (t_parent _ Ht _ _ _ Hp Hq) as (j & ? & ? & ? & ? & Hj & _). congruence.
Qed.

(** ** An internal node splits *)

Lemma live_info t p i : tree_ok t -> t.(infos) !! p = Some i -> is_Some (t.(nodes) !! p).
Proof.
  intros Ht H. destruct (info_node _ Ht _ _ H) as [(? & ? & -> & _)|(? & ? & -> & _)]; eauto.
Qed.

Lemma seps_split lo hi T1 s c T2 :
  seps_ok lo hi (T1 ++ (s, c) :: T2) ->
  within lo hi s /\ seps_ok lo (Some s) T1 /\ seps_ok (Some s) hi T2.
Proof.
  intros [Hs Hw]. rewrite fmap_app in *. cbn [fmap list_fmap fst] in *. apply Forall_app in Hw as [W1 W2].
  apply Forall_cons in W2 as [Ws W2]. split; [done|]. split; split.
  - by eapply StronglySorted_app_1_l.
  - rewrite Forall_forall in W1 |- *. intros k Hk. split; [by apply W1|]. change (ord_le cmp k s).
    eapply (StronglySorted_app_1_elem_of (ord_le cmp)); [exact Hs|done|by constructor].
  - by apply StronglySorted_app_1_r, StronglySorted_inv in Hs as [? _].
  - apply StronglySorted_app_1_r, StronglySorted_inv in Hs as [_ Hle]. rewrite Forall_forall in W2, Hle |- *.
    intros k Hk. split; [by apply Hle|by apply W2].
Qed.

Lemma seps_replace lo hi T1 s c c' T2 : seps_ok lo hi (T1 ++ (s, c) :: T2) -> seps_ok lo hi (T1 ++ [(s, c')]).
Proof.
  intros [Hs Hw]. unfold seps_ok. rewrite fmap_app in *. cbn [fmap list_fmap fst] in *.
  replace (T1.*1 ++ s :: T2.*1) with ((T1.*1 ++ [s]) ++ T2.*1) in * by (by rewrite <- app_assoc).
  split; [by eapply StronglySorted_app_1_l|by apply Forall_app in Hw as [? _]].
Qed.

(** Slots below the separator end by it, slots above start at it. *)
Lemma slot_below lo c T s a x b : seps_ok lo (Some s) T -> (a, x, b) ∈ slots lo c T (Some s) -> live a b -> live a (Some s).
Proof.
  intros Hs Hin Hl. destruct (slots_bounds _ _ _ _ _ _ _ Hs Hin) as [_ H]. destruct a as [a|]; [|done]. cbn.
  destruct b as [b|]; cbn in *; [by apply (H a)|by apply (H a)].
Qed.
Lemma slot_above s c T hi a x b : seps_ok (Some s) hi T -> (a, x, b) ∈ slots (Some s) c T hi -> exists a', a = Some a' /\ s ≼ a'.
Proof.
  intros [_ Hw] Hin. destruct (slots_lower _ _ _ _ _ _ _ Hin) as [->|(k & -> & Hk)].
  - exists s. split; [done|apply ord_le_refl, _].
  - rewrite Forall_forall in Hw. destruct (Hw _ Hk). by exists k.
Qed.

(** The right node is not live: nothing is asked of it. *)
Lemma step_split_dead t X iX lk T1 s cm T2 R :
  tree_ok t -> t.(infos) !! X = Some iX -> t.(nodes) !! X = Some (AInt lk (T1 ++ (s, cm) :: T2)) ->
  t.(nodes) !! R = None -> ~ live (Some s) iX.(i_hi) ->
  tree_ok (mkTree (<[X := AInt lk (T1 ++ [(s, R)])]> (<[R := AInt cm T2]> t.(nodes))) t.(groups) t.(infos) t.(troot)).
Proof.
  intros Ht HX HXn HR Hd. assert (HXR : X <> R) by congruence.
  pose proof (node_seps _ Ht _ _ _ _ HX HXn) as Hs. destruct (seps_split _ _ _ _ _ _ Hs) as (Hw & Hs1 & Hs2).
  assert (HL : leaves_ok (<[X := AInt lk (T1 ++ [(s, R)])]> (<[R := AInt cm T2]> t.(nodes))) (groups t)).
  { eapply leaves_int; [eapply leaves_fresh; [by apply tree_leaves|done]|]. by rewrite lookup_insert_ne. }
  destruct HL as (L1 & L2 & L3 & L4 & L5 & L6 & L7).
  assert (Hother : forall p, is_Some (infos t !! p) -> p <> X ->
    <[X := AInt lk (T1 ++ [(s, R)])]> (<[R := AInt cm T2]> (nodes t)) !! p = nodes t !! p).
  { intros p [i Hp] HpX. rewrite !lookup_insert_ne; [done| |done]. intros <-.
    destruct (live_info _ _ _ Ht Hp). congruence. }
  assert (Hdead : forall a x b, (a, x, b) ∈ slots (Some s) cm T2 (i_hi iX) -> ~ live a b).
  { intros a x b Hin Hl. destruct (slots_bounds _ _ _ _ _ _ _ Hs2 Hin) as [B1 B2]. apply Hd.
    destruct (slot_above _ _ _ _ _ _ _ Hs2 Hin) as (a' & -> & Ha). destruct (i_hi iX) as [h|]; [|done]. cbn in *.
    apply (ord_le_lt_trans cmp s a' h Ha). apply B2. by destruct b. }
  constructor; try done; cbn [nodes groups infos troot]; try apply Ht.
  - intros p i Hp. destruct (t_info _ Ht _ _ Hp) as (H0 & Hl & [Hlf|(lk' & ss & Hn & Hss & Hc)]); (split_and!; [done|done|]).
    + by left.
    + right. destruct (decide (p = X)) as [->|HpX].
      * rewrite HX in Hp. injection Hp as <-. rewrite HXn in Hn. injection Hn as <- <-. exists lk, (T1 ++ [(s, R)]). cbn [nodes].
        rewrite lookup_insert_eq. split_and!; [done|by eapply seps_replace|]. intros a c b Hin Hab.
        rewrite slots_app in Hin, Hc. apply elem_of_app in Hin as [Hin|Hin]; [apply Hc; [set_solver|done]|].
        apply list_elem_of_singleton in Hin as [= -> -> ->]. done.
      * exists lk', ss. cbn [nodes]. rewrite Hother by (try done; by eexists). by split_and!.
  - intros p i q Hp Hq. destruct (t_parent _ Ht _ _ _ Hp Hq) as (j & lk' & ss & a & b & Hj & Hn & Hin & Sa & Sb).
    destruct (decide (q = X)) as [->|HqX].
    + rewrite HX in Hj. injection Hj as <-. rewrite HXn in Hn. injection Hn as <- <-.
      exists iX, lk, (T1 ++ [(s, R)]), a, b. rewrite lookup_insert_eq. split_and!; try done.
      rewrite slots_app in Hin |- *. apply elem_of_app in Hin as [Hin|Hin]; [set_solver|]. exfalso. eapply Hdead; [done|].
      eapply same_live; [done|done|]. by eapply t_info.
    + exists j, lk', ss, a, b. rewrite Hother by (try done; by eexists). by split_and!.
Qed.

(** Children at or above the separator move to the right node. *)
Definition moves (X : N) (s : K) (i : Info) : Prop :=
  i.(i_parent) = Some X /\ match i.(i_lo) with Some a => s ≼ a | None => False end.
Global Instance moves_dec X s i : Decision (moves X s i).
Proof. unfold moves. destruct (i_lo i); apply _. Defined.
Definition reparent (X R : N) (s : K) (i : Info) : Info :=
  if decide (moves X s i) then mkInfo i.(i_lo) i.(i_hi) (Some R) else i.

Lemma reparent_lo X R s i : (reparent X R s i).(i_lo) = i.(i_lo).
Proof. unfold reparent. by case_decide. Qed.
Lemma reparent_hi X R s i : (reparent X R s i).(i_hi) = i.(i_hi).
Proof. unfold reparent. by case_decide. Qed.
Lemma reparent_other X R s i : i.(i_parent) <> Some X -> reparent X R s i = i.
Proof. unfold reparent, moves. intros H. case_decide as E; [by destruct E|done]. Qed.

Lemma step_split_live t X iX lk T1 s cm T2 R :
  tree_ok t -> t.(infos) !! X = Some iX -> t.(nodes) !! X = Some (AInt lk (T1 ++ (s, cm) :: T2)) ->
  t.(nodes) !! R = None -> R <> 0 -> live (Some s) iX.(i_hi) ->
  tree_ok (mkTree (<[X := AInt lk (T1 ++ [(s, R)])]> (<[R := AInt cm T2]> t.(nodes))) t.(groups)
    (<[R := mkInfo (Some s) iX.(i_hi) (Some X)]> (reparent X R s <$> t.(infos))) t.(troot)).
Proof.
  intros Ht HX HXn HR HR0 Hlive. assert (HXR : X <> R) by congruence.
  pose proof (node_seps _ Ht _ _ _ _ HX HXn) as Hs. destruct (seps_split _ _ _ _ _ _ Hs) as (Hw & Hs1 & Hs2).
  assert (HRi : infos t !! R = None).
  { destruct (infos t !! R) eqn:Ej; [|done]. destruct (live_info _ _ _ Ht Ej). congruence. }
  assert (HL : leaves_ok (<[X := AInt lk (T1 ++ [(s, R)])]> (<[R := AInt cm T2]> t.(nodes))) (groups t)).
  { eapply leaves_int; [eapply leaves_fresh; [by apply tree_leaves|done]|]. by rewrite lookup_insert_ne. }
  destruct HL as (L1 & L2 & L3 & L4 & L5 & L6 & L7). destruct (t_rank _ Ht) as [rk Hrk].
  set (inf := <[R := mkInfo (Some s) (i_hi iX) (Some X)]> (reparent X R s <$> infos t)).
  assert (Hget : forall p i, infos t !! p = Some i -> inf !! p = Some (reparent X R s i)).
  { intros p i Hp. unfold inf. rewrite lookup_insert_ne by congruence. by rewrite lookup_fmap, Hp. }
  assert (HXinf : inf !! X = Some iX).
  { rewrite (Hget _ _ HX), reparent_other; [done|]. intros E. specialize (Hrk _ _ _ HX E). lia. }
  assert (Hother : forall p, is_Some (infos t !! p) -> p <> X ->
    <[X := AInt lk (T1 ++ [(s, R)])]> (<[R := AInt cm T2]> (nodes t)) !! p = nodes t !! p).
  { intros p [i Hp] HpX. rewrite !lookup_insert_ne; [done| |done]. intros <-. congruence. }
  constructor; try done; cbn [nodes groups infos troot]; try apply Ht.
  - rewrite (Hget _ _ (t_root _ Ht)), reparent_other; [done|]. done.
  - intros p i Hp. apply lookup_insert_Some in Hp as [(<- & <-)|[HpR Hp]].
    + split_and!; [done|done|]. right. exists cm, T2. cbn [nodes i_lo i_hi]. rewrite lookup_insert_ne, lookup_insert_eq by done.
      split_and!; [done|done|]. intros a c b Hin Hab. destruct (info_node _ Ht _ _ HX) as [(? & ? & ? & _)|(lk' & ss & Hn & _ & Hc)]; [congruence|].
      rewrite HXn in Hn. injection Hn as <- <-. rewrite slots_app in Hc. destruct (Hc a c b) as (j & Hj & Sa & Sb & Hpar); [set_solver|done|].
      destruct (slot_above _ _ _ _ _ _ _ Hs2 Hin) as (a' & -> & Ha).
      exists (reparent X R s j). cbn [infos]. split_and!; [by apply Hget|by rewrite reparent_lo|by rewrite reparent_hi|].
      unfold reparent. rewrite decide_True; [done|]. split; [done|]. destruct (i_lo j) as [a''|]; [|done].
      apply (ord_le_trans cmp s a' a'' Ha). cbn in Sa. unfold ord_le. by rewrite (proj1 (cmp_Eq_comm cmp _ _) Sa).
    + rewrite lookup_fmap in Hp. destruct (infos t !! p) as [i0|] eqn:Hp0; [|done]. injection Hp as <-.
      rewrite reparent_lo, reparent_hi.
      destruct (t_info _ Ht _ _ Hp0) as (H0 & Hl & [(ls & Hlf)|(lk' & ss & Hn & Hss & Hc)]); (split_and!; [done|done|]).
      { left. exists ls. by rewrite reparent_lo, reparent_hi. }
      right. destruct (decide (p = X)) as [->|HpX].
      * rewrite HX in Hp0. injection Hp0 as <-. rewrite HXn in Hn. injection Hn as <- <-. exists lk, (T1 ++ [(s, R)]). cbn [nodes].
        rewrite lookup_insert_eq, reparent_lo, reparent_hi. split_and!; [done|by eapply seps_replace|]. intros a c b Hin Hab.
        rewrite slots_app in Hin, Hc. apply elem_of_app in Hin as [Hin|Hin].
        -- destruct (Hc a c b) as (j & Hj & Sa & Sb & Hpar); [set_solver|done|]. exists j. cbn [infos]. split_and!; try done.
           rewrite (Hget _ _ Hj). f_equal. unfold reparent. rewrite decide_False; [done|]. intros [_ Hm].
           pose proof (slot_below _ _ _ _ _ _ _ Hs1 Hin Hab) as Hb. apply (same_live _ (i_lo j) _ (Some s)) in Hb; [|by apply same_sym|apply same_refl].
           destruct (i_lo j); [|done]. eapply (ord_lt_irrefl cmp). by eapply ord_lt_le_trans.
        -- apply list_elem_of_singleton in Hin as [= -> -> ->]. exists (mkInfo (Some s) (i_hi iX) (Some X)). cbn [infos].
           unfold inf. rewrite lookup_insert_eq. split_and!; [done|apply same_refl|apply same_refl|done].
      * exists lk', ss. cbn [nodes]. rewrite Hother by (try done; by eexists). rewrite reparent_lo, reparent_hi. split_and!; [done|done|].
        intros a c b Hin Hab. destruct (Hc a c b Hin Hab) as (j & Hj & Sa & Sb & Hpar). exists j. cbn [infos]. split_and!; try done.
        rewrite (Hget _ _ Hj), reparent_other; [done|]. congruence.
  - intros p i q Hp Hq. apply lookup_insert_Some in Hp as [(<- & <-)|[HpR Hp]].
    { injection Hq as <-. exists iX, lk, (T1 ++ [(s, R)]), (Some s), (i_hi iX). rewrite lookup_insert_eq.
      split_and!; [done|done| |apply same_refl|apply same_refl]. rewrite slots_app. set_solver. }
    rewrite lookup_fmap in Hp. destruct (infos t !! p) as [i0|] eqn:Hp0; [|done]. injection Hp as <-. rewrite reparent_lo, reparent_hi.
    destruct (decide (moves X s i0)) as [[Hm1 Hm2]|Hm].
    + unfold reparent in Hq. rewrite decide_True in Hq by done. injection Hq as <-.
      destruct (t_parent _ Ht _ _ _ Hp0 Hm1) as (j & lk' & ss & a & b & Hj & Hn & Hin & Sa & Sb).
      rewrite HX in Hj. injection Hj as <-. rewrite HXn in Hn. injection Hn as <- <-.
      exists (mkInfo (Some s) (i_hi iX) (Some X)), cm, T2, a, b. unfold inf.
      rewrite (lookup_insert_ne _ X R), !lookup_insert_eq by done. split_and!; try done.
      rewrite slots_app in Hin. apply elem_of_app in Hin as [Hin|Hin]; [exfalso|done].
      assert (Hab : live a b) by (eapply same_live; [done|done|by eapply t_info]).
      pose proof (slot_below _ _ _ _ _ _ _ Hs1 Hin Hab) as Hb. apply (same_live _ (i_lo i0) _ (Some s)) in Hb; [|by apply same_sym|apply same_refl].
      destruct (i_lo i0); [|done]. eapply (ord_lt_irrefl cmp). by eapply ord_lt_le_trans.
    + unfold reparent in Hq. rewrite decide_False in Hq by done.
      destruct (t_parent _ Ht _ _ _ Hp0 Hq) as (j & lk' & ss & a & b & Hj & Hn & Hin & Sa & Sb).
      destruct (decide (q = X)) as [->|HqX].
      * rewrite HX in Hj. injection Hj as <-. rewrite HXn in Hn. injection Hn as <- <-.
        exists iX, lk, (T1 ++ [(s, R)]), a, b. rewrite lookup_insert_eq. split_and!; try done.
        rewrite slots_app in Hin |- *. apply elem_of_app in Hin as [Hin|Hin]; [set_solver|]. exfalso. apply Hm. split; [done|].
        destruct (slot_above _ _ _ _ _ _ _ Hs2 Hin) as (a' & -> & Ha). destruct (i_lo i0) as [a''|]; [|done].
        apply (ord_le_trans cmp s a' a'' Ha). cbn in Sa. unfold ord_le. by rewrite (proj1 (cmp_Eq_comm cmp _ _) Sa).
      * exists (reparent X R s j), lk', ss, a, b. rewrite Hother by (try done; by eexists).
        rewrite reparent_lo, reparent_hi. split_and!; try done. by apply Hget.
  - exists (fun p => if decide (p = R) then (2 * rk X)%nat else (2 * rk p + 1)%nat). intros p i q Hp Hq.
    apply lookup_insert_Some in Hp as [(<- & <-)|[HpR Hp]].
    { injection Hq as <-. rewrite decide_True, decide_False by done. lia. }
    rewrite lookup_fmap in Hp. destruct (infos t !! p) as [i0|] eqn:Hp0; [|done]. injection Hp as <-.
    rewrite (decide_False (P := p = R)) by done. unfold reparent in Hq. case_decide as Hm.
    + injection Hq as <-. rewrite decide_True by done. destruct Hm as [Hm _]. specialize (Hrk _ _ _ Hp0 Hm). lia.
    + specialize (Hrk _ _ _ Hp0 Hq). rewrite decide_False; [lia|]. intros ->.
      destruct (t_parent _ Ht _ _ _ Hp0 Hq) as (j & ? & ? & ? & ? & Hj & _). congruence.
Qed.

(** The new separator is a bound the parent has already: the new slot is empty. *)
Lemma step_learn_keep t N0 iN lk ss1 ss2 s R :
  tree_ok t -> t.(infos) !! N0 = Some iN -> t.(nodes) !! N0 = Some (AInt lk (ss1 ++ ss2)) -> cut s ss1 ss2 ->
  within iN.(i_lo) iN.(i_hi) s -> same (first_hi ss2 iN.(i_hi)) (Some s) ->
  tree_ok (mkTree (<[N0 := AInt lk (ss1 ++ (s, R) :: ss2)]> t.(nodes)) t.(groups) t.(infos) t.(troot)).
Proof.
  intros Ht HN HNn Hcut Hw Hb. destruct (leaves_int _ _ _ _ _ (AInt lk (ss1 ++ (s, R) :: ss2)) (tree_leaves _ Ht) HNn)
    as (L1 & L2 & L3 & L4 & L5 & L6 & L7).
  constructor; try done; cbn [nodes groups infos troot]; try apply Ht.
  - intros p i Hp. destruct (t_info _ Ht _ _ Hp) as (H0 & Hl & [Hlf|(lk' & ss & Hn & Hss & Hc)]); (split_and!; [done|done|]); [by left|].
    right. destruct (decide (p = N0)) as [->|HpN].
    + rewrite HN in Hp. injection Hp as <-. rewrite HNn in Hn. injection Hn as <- <-. exists lk, (ss1 ++ (s, R) :: ss2). cbn [nodes].
      rewrite lookup_insert_eq. split_and!; [done|by apply cut_seps|]. intros a c b Hin Hab. rewrite slots_cut_insert in Hin. rewrite slots_cut in Hc.
      apply elem_of_app in Hin as [Hin|Hin]; [apply Hc; [set_solver|done]|]. apply elem_of_cons in Hin as [E|Hin].
      { destruct (last_slot (i_lo iN) lk ss1) as [a0 c0]. injection E as -> -> ->.
        destruct (Hc a0 c0 (first_hi ss2 (i_hi iN))) as (j & Hj & Sa & Sb & Hp); [set_solver| |].
        - eapply same_live; [apply same_refl|by apply same_sym|done].
        - exists j. split_and!; try done. by eapply same_trans. }
      apply elem_of_cons in Hin as [[= -> -> ->]|Hin]; [|apply Hc; [set_solver|done]].
      exfalso. apply (same_live _ _ _ _ (same_refl _) Hb) in Hab. by eapply (ord_lt_irrefl cmp).
    + exists lk', ss. cbn [nodes]. rewrite lookup_insert_ne by done. by split_and!.
  - intros p i q Hp Hq. destruct (t_parent _ Ht _ _ _ Hp Hq) as (j & lk' & ss & a & b & Hj & Hn & Hin & Sa & Sb).
    destruct (decide (q = N0)) as [->|HqN]; [|by exists j, lk', ss, a, b; rewrite lookup_insert_ne].
    rewrite HN in Hj. injection Hj as <-. rewrite HNn in Hn. injection Hn as <- <-. rewrite slots_cut in Hin.
    destruct (last_slot (i_lo iN) lk ss1) as [a0 c0] eqn:El.
    apply elem_of_app in Hin as [Hin|Hin]; [|apply elem_of_cons in Hin as [[= -> -> ->]|Hin]].
    + exists iN, lk, (ss1 ++ (s, R) :: ss2), a, b. rewrite lookup_insert_eq, slots_cut_insert. split_and!; try done. set_solver.
    + exists iN, lk, (ss1 ++ (s, R) :: ss2), a0, (Some s). rewrite lookup_insert_eq, slots_cut_insert, El. split_and!; try done; [set_solver|].
      by eapply same_trans.
    + exists iN, lk, (ss1 ++ (s, R) :: ss2), a, b. rewrite lookup_insert_eq, slots_cut_insert. split_and!; try done. set_solver.
Qed.

Section LearnInt.
Context (t : Tree) (Ht : tree_ok t).
Context (N0 X R : N) (iN iX : Info) (lk lkx : N) (ss1 ss2 T1 : list (K * N)) (s : K).
Context (HN : t.(infos) !! N0 = Some iN) (HNn : t.(nodes) !! N0 = Some (AInt lk (ss1 ++ ss2))).
Context (HX : t.(infos) !! X = Some iX) (HXp : iX.(i_parent) = Some N0).
Context (HXn : t.(nodes) !! X = Some (AInt lkx (T1 ++ [(s, R)]))).
Context (Hcut : cut s ss1 ss2).
Context (HR : t.(infos) !! R = Some (mkInfo (Some s) iX.(i_hi) (Some X))).

Lemma int_distinct : X <> R /\ N0 <> R /\ X <> N0 /\ t.(troot) <> X /\ t.(troot) <> R.
Proof.
  destruct (t_rank _ Ht) as [rk Hrk]. pose proof (Hrk _ _ _ HX HXp). pose proof (Hrk _ _ _ HR eq_refl).
  pose proof (t_root _ Ht) as Hr. split_and!; try (intros <-; lia); intros E; rewrite E in Hr; [rewrite HX in Hr; injection Hr as ->; done|congruence].
Qed.

(** The children of [X] besides [R] lie below the separator. *)
Lemma int_child p i : t.(infos) !! p = Some i -> i.(i_parent) = Some X -> p <> R ->
  exists a b, (a, p, b) ∈ slots iX.(i_lo) lkx T1 (Some s) /\ same i.(i_lo) a /\ same i.(i_hi) b.
Proof.
  intros Hp Hpar HpR. destruct (t_parent _ Ht _ _ _ Hp Hpar) as (j & lk' & ss & a & b & Hj & Hn & Hin & Sa & Sb).
  rewrite HX in Hj. injection Hj as <-. rewrite HXn in Hn. injection Hn as <- <-. rewrite slots_app in Hin.
  apply elem_of_app in Hin as [Hin|Hin]; [by exists a, b|]. by apply list_elem_of_singleton in Hin as [= -> -> ->].
Qed.

(** Strictly inside: both halves hang below the parent. *)
Lemma step_learn_strict :
  live iX.(i_lo) (Some s) -> live (Some s) iX.(i_hi) ->
  tree_ok (mkTree (<[N0 := AInt lk (ss1 ++ (s, R) :: ss2)]> t.(nodes)) t.(groups)
    (<[X := mkInfo iX.(i_lo) (Some s) (Some N0)]> (<[R := mkInfo (Some s) iX.(i_hi) (Some N0)]> t.(infos))) t.(troot)).
Proof.
  intros Hlo Hhi. destruct int_distinct as (HXR & HNR & HXN & HrX & HrR).
  destruct (leaves_int _ _ _ _ _ (AInt lk (ss1 ++ (s, R) :: ss2)) (tree_leaves _ Ht) HNn) as (L1 & L2 & L3 & L4 & L5 & L6 & L7).
  assert (HRX : forall j, infos t !! R = Some j -> i_parent j = Some X) by (intros j Hj; rewrite HR in Hj; by injection Hj as <-).
  pose proof (node_seps _ Ht _ _ _ _ HX HXn) as Hs. destruct (seps_split _ _ _ _ _ _ Hs) as (Hw & Hs1 & _).
  constructor; try done; cbn [nodes groups infos troot]; try apply Ht.
  - rewrite !lookup_insert_ne by done. apply Ht.
  - intros p i Hp. apply lookup_insert_Some in Hp as [(<- & <-)|[HpX Hp]].
    { split_and!; [apply (t_info _ Ht _ _ HX)|done|]. right. exists lkx, (T1 ++ [(s, R)]). cbn [nodes i_lo i_hi].
      rewrite lookup_insert_ne by done. split_and!; [done| |].
      - destruct Hs as [Hso Hwi]. split; [done|]. unfold seps_ok in Hs1. destruct Hs1 as [_ Hw1]. rewrite fmap_app, Forall_app.
        split; [done|]. repeat constructor; [apply Hw|apply ord_le_refl, _].
      - intros a c b Hin Hab. rewrite slots_app in Hin. apply elem_of_app in Hin as [Hin|Hin].
        + destruct (info_node _ Ht _ _ HX) as [(? & ? & ? & _)|(lk' & ss & Hn & _ & Hc)]; [congruence|].
          rewrite HXn in Hn. injection Hn as <- <-. rewrite slots_app in Hc. destruct (Hc a c b) as (j & Hj & Sa & Sb & Hp); [set_solver|done|].
          exists j. split_and!; try done. cbn [infos]. rewrite !lookup_insert_ne; [done| |].
          * intros <-. rewrite HR in Hj. injection Hj as <-. cbn in Sa.
            pose proof (slot_below _ _ _ _ _ _ _ Hs1 Hin Hab) as Hb. apply (same_live _ (Some s) _ (Some s)) in Hb; [|by apply same_sym|apply same_refl].
            by eapply (ord_lt_irrefl cmp).
          * intros <-. rewrite HX in Hj. injection Hj as <-. congruence.
        + apply list_elem_of_singleton in Hin as [= -> -> ->]. exfalso. by eapply (ord_lt_irrefl cmp). }
    apply lookup_insert_Some in Hp as [(<- & <-)|[HpR Hp]].
    { destruct (t_info _ Ht _ _ HR) as (H0 & Hl & [(ls & Hlf)|(lk' & ss & Hn & Hss & Hc)]); (split_and!; [done|done|]).
      - left. by exists ls.
      - right. exists lk', ss. cbn [nodes]. rewrite lookup_insert_ne by done. split_and!; [done|done|]. intros a c b Hin Hab.
        destruct (Hc a c b Hin Hab) as (j & Hj & Sa & Sb & Hp). exists j. split_and!; try done. cbn [infos].
        rewrite !lookup_insert_ne; [done| |]; intros <-; [rewrite HR in Hj|rewrite HX in Hj]; injection Hj as <-; [cbn in Hp|]; congruence. }
    destruct (t_info _ Ht _ _ Hp) as (H0 & Hl & [(ls & Hlf)|(lk' & ss & Hn & Hss & Hc)]); (split_and!; [done|done|]); [left; by exists ls|].
    right. destruct (decide (p = N0)) as [->|HpN].
    + rewrite HN in Hp. injection Hp as <-. rewrite HNn in Hn. injection Hn as <- <-. exists lk, (ss1 ++ (s, R) :: ss2). cbn [nodes].
      rewrite lookup_insert_eq. split_and!; [done| |].
      * apply cut_seps; [done|done|]. eapply (learn_within t Ht N0 X R iN iX lk ss1 ss2 s); done.
      * intros a c b Hac Hab. by eapply (learn_slots t Ht N0 X R iN iX lk ss1 ss2 s).
    + exists lk', ss. cbn [nodes]. rewrite lookup_insert_ne by done. split_and!; [done|done|]. intros a c b Hac Hab.
      destruct (Hc _ _ _ Hac Hab) as (j & Hj & Sa & Sb & Hpar). exists j. split_and!; try done. cbn [infos].
      rewrite !lookup_insert_ne; [done| |]; intros <-; [rewrite HR in Hj|rewrite HX in Hj]; injection Hj as <-; [cbn in Hpar|]; congruence.
  - intros p i q Hp Hq. destruct (decide (q = N0)) as [->|HqN].
    { edestruct (learn_parent t Ht N0 X R iN iX lk ss1 ss2 s) as (a & b & Hab & Sa & Sb); try done.
      exists iN, lk, (ss1 ++ (s, R) :: ss2), a, b. rewrite lookup_insert_eq, !lookup_insert_ne by done. by split_and!. }
    apply lookup_insert_Some in Hp as [(<- & <-)|[HpX Hp]]; [cbn in Hq; congruence|].
    apply lookup_insert_Some in Hp as [(<- & <-)|[HpR Hp]]; [cbn in Hq; congruence|].
    destruct (decide (q = X)) as [->|HqX].
    { destruct (int_child p i Hp Hq) as (a & b & Hin & Sa & Sb); [done|]. eexists _, lkx, (T1 ++ [(s, R)]), a, b.
      rewrite lookup_insert_eq, lookup_insert_ne by done. split_and!; [done|done| |done|done]. cbn [i_lo i_hi]. rewrite slots_app. set_solver. }
    destruct (t_parent _ Ht _ _ _ Hp Hq) as (j & lk' & ss & a & b & Hj & Hn & Hin & Sa & Sb).
    destruct (decide (q = R)) as [->|HqR].
    { rewrite HR in Hj. injection Hj as <-. eexists _, lk', ss, a, b. rewrite lookup_insert_ne, lookup_insert_eq, lookup_insert_ne by done.
      by split_and!. }
    exists j, lk', ss, a, b. rewrite !lookup_insert_ne by done. by split_and!.
  - destruct (t_rank _ Ht) as [rk Hrk]. exists rk. intros p i q Hp Hq. pose proof (Hrk _ _ _ HX HXp). pose proof (Hrk _ _ _ HR eq_refl).
    apply lookup_insert_Some in Hp as [(<- & <-)|[HpX Hp]]; [injection Hq as <-; lia|].
    apply lookup_insert_Some in Hp as [(<- & <-)|[HpR Hp]]; [injection Hq as <-; lia|]. by eapply Hrk.
Qed.

(** The left half has become empty: the right one takes its place. *)
Lemma step_learn_replace a0 :
  ss1 = [] -> lk = X -> same iX.(i_lo) a0 -> same a0 (Some s) -> a0 = iN.(i_lo) ->
  same iX.(i_hi) (first_hi ss2 iN.(i_hi)) -> live (Some s) iX.(i_hi) -> within iN.(i_lo) iN.(i_hi) s ->
  tree_ok (mkTree (<[N0 := AInt lk (ss1 ++ (s, R) :: ss2)]> t.(nodes)) t.(groups)
    (<[R := mkInfo (Some s) iX.(i_hi) (Some N0)]> (delete X t.(infos))) t.(troot)).
Proof.
  intros Ess1 Elk Sa0 Ss Ea0 Sb0 Hhi Hw. destruct int_distinct as (HXR & HNR & HXN & HrX & HrR).
  destruct (leaves_int _ _ _ _ _ (AInt lk (ss1 ++ (s, R) :: ss2)) (tree_leaves _ Ht) HNn) as (L1 & L2 & L3 & L4 & L5 & L6 & L7).
  pose proof (node_seps _ Ht _ _ _ _ HX HXn) as Hs. destruct (seps_split _ _ _ _ _ _ Hs) as (HwX & Hs1 & _).
  assert (Hempty : forall a x b, (a, x, b) ∈ slots (i_lo iX) lkx T1 (Some s) -> ~ live a b).
  { intros a x b Hin Hab. pose proof (slot_below _ _ _ _ _ _ _ Hs1 Hin Hab) as Hb.
    destruct (slots_bounds _ _ _ _ _ _ _ Hs1 Hin) as [B _].
    assert (Hlo : exists l, i_lo iX = Some l /\ s ≼ l).
    { destruct (i_lo iX) as [l|], a0 as [l0|]; try done. exists l. split; [done|].
      pose proof (same_trans _ _ _ Sa0 Ss) as E. cbn in E. unfold ord_le. by rewrite (proj1 (cmp_Eq_comm cmp _ _) E). }
    destruct Hlo as (l & El & Hl). rewrite El in B. destruct a as [a|].
    - specialize (B a (ord_le_refl cmp a)). cbn in B, Hb. eapply (ord_lt_irrefl cmp s). eapply (ord_le_lt_trans cmp s a s); [|done].
      by eapply ord_le_trans.
    - rewrite El in Hin. destruct (slots_lower _ _ _ _ _ _ _ Hin) as [?|(? & ? & _)]; done. }
  assert (Hget : forall p i, infos t !! p = Some i -> p <> X -> p <> R ->
    <[R := mkInfo (Some s) (i_hi iX) (Some N0)]> (delete X (infos t)) !! p = Some i).
  { intros. by rewrite lookup_insert_ne, lookup_delete_ne. }
  constructor; try done; cbn [nodes groups infos troot]; try apply Ht.
  - apply Hget; [apply Ht|done|done].
  - intros p i Hp. apply lookup_insert_Some in Hp as [(<- & <-)|[HpR Hp]].
    { destruct (t_info _ Ht _ _ HR) as (H0 & Hl & [(ls & Hlf)|(lk' & ss & Hn & Hss & Hc)]); (split_and!; [done|done|]).
      - left. by exists ls.
      - right. exists lk', ss. cbn [nodes]. rewrite lookup_insert_ne by done. split_and!; [done|done|]. intros a c b Hin Hab.
        destruct (Hc a c b Hin Hab) as (j & Hj & Sa & Sb & Hp). exists j. split_and!; try done. cbn [infos].
        apply Hget; [done| |]; intros ->; [rewrite HX in Hj|rewrite HR in Hj]; injection Hj as <-; [|cbn in Hp]; congruence. }
    apply lookup_delete_Some in Hp as [HpX Hp].
    destruct (t_info _ Ht _ _ Hp) as (H0 & Hl & [(ls & Hlf)|(lk' & ss & Hn & Hss & Hc)]); (split_and!; [done|done|]); [left; by exists ls|].
    right. destruct (decide (p = N0)) as [->|HpN].
    + rewrite HN in Hp. injection Hp as <-. rewrite HNn in Hn. injection Hn as <- <-. exists lk, (ss1 ++ (s, R) :: ss2). cbn [nodes].
      rewrite lookup_insert_eq. split_and!; [done|by apply cut_seps|]. intros a c b Hac Hab. rewrite Ess1 in Hac, Hc. cbn [app slots] in Hac, Hc.
      rewrite slots_first in Hac, Hc. apply elem_of_cons in Hac as [[= -> -> ->]|Hac].
      { exfalso. rewrite <- Ea0 in Hab. apply (same_live _ _ _ _ Ss (same_refl _)) in Hab. by eapply (ord_lt_irrefl cmp). }
      apply elem_of_cons in Hac as [[= -> -> ->]|Hac].
      { eexists. cbn [infos]. rewrite lookup_insert_eq. split_and!; [done|apply same_refl|done|done]. }
      destruct (Hc a c b) as (j & Hj & Sa & Sb & Hp); [by constructor|done|]. exists j. split_and!; try done. cbn [infos].
      apply Hget; [done| |].
      * intros ->. rewrite HX in Hj. injection Hj as <-. destruct (tail_slots_lower _ _ _ _ _ Hac) as (k & -> & Hk).
        destruct Hcut as [_ H2]. destruct ss2 as [|[m c2] ss2']; [by apply elem_of_nil in Hk|]. cbn in Sb0.
        apply (same_live _ _ _ _ (same_refl _) Sb0) in Hhi. cbn in Hhi.
        assert (Hmk : m ≼ k).
        { apply elem_of_cons in Hk as [->|Hk]; [apply ord_le_refl, _|]. pose proof (node_seps _ Ht _ _ _ _ HN HNn) as [Hso _].
          rewrite Ess1 in Hso. cbn in Hso. apply StronglySorted_inv in Hso as [_ Hle]. rewrite Forall_forall in Hle. by apply Hle. }
        pose proof (same_trans _ _ _ (same_sym _ _ Sa) (same_trans _ _ _ Sa0 Ss)) as E. cbn in E.
        eapply (ord_lt_irrefl cmp s). eapply (ord_lt_le_trans cmp s m s); [done|]. eapply (ord_le_trans cmp m k s); [done|]. unfold ord_le. by rewrite E.
      * intros ->. rewrite HR in Hj. injection Hj as <-. cbn in Hp. congruence.
    + exists lk', ss. cbn [nodes]. rewrite lookup_insert_ne by done. split_and!; [done|done|]. intros a c b Hac Hab.
      destruct (Hc _ _ _ Hac Hab) as (j & Hj & Sa & Sb & Hpar). exists j. split_and!; try done. cbn [infos].
      apply Hget; [done| |]; intros ->; [rewrite HX in Hj|rewrite HR in Hj]; injection Hj as <-; [|cbn in Hpar]; congruence.
  - intros p i q Hp Hq. apply lookup_insert_Some in Hp as [(<- & <-)|[HpR Hp]].
    { injection Hq as <-. exists iN, lk, (ss1 ++ (s, R) :: ss2), (Some s), (first_hi ss2 (i_hi iN)). rewrite lookup_insert_eq.
      split_and!; [by apply Hget|done| |apply same_refl|done]. rewrite slots_cut_insert. set_solver. }
    apply lookup_delete_Some in Hp as [HpX Hp]. destruct (t_parent _ Ht _ _ _ Hp Hq) as (j & lk' & ss & a & b & Hj & Hn & Hin & Sa & Sb).
    destruct (decide (q = X)) as [->|HqX].
    { exfalso. destruct (int_child p i Hp Hq) as (a' & b' & Hin' & Sa' & Sb'); [done|]. eapply Hempty; [done|].
      eapply same_live; [done|done|]. by eapply t_info. }
    destruct (decide (q = R)) as [->|HqR].
    { rewrite HR in Hj. injection Hj as <-. eexists _, lk', ss, a, b. rewrite lookup_insert_eq, lookup_insert_ne by done. by split_and!. }
    destruct (decide (q = N0)) as [->|HqN].
    { rewrite HN in Hj. injection Hj as <-. rewrite HNn in Hn. injection Hn as <- <-.
      exists iN, lk, (ss1 ++ (s, R) :: ss2), a, b. rewrite lookup_insert_eq. split_and!; [by apply Hget|done| |done|done].
      rewrite Ess1 in Hin |- *. cbn [app slots] in *. rewrite (slots_first (Some s)). rewrite slots_first in Hin.
      apply elem_of_cons in Hin as [[= -> -> ->]|Hin]; [done|]. by do 2 right. }
    exists j, lk', ss, a, b. rewrite (lookup_insert_ne (nodes t)) by done. split_and!; try done. by apply Hget.
  - destruct (t_rank _ Ht) as [rk Hrk]. exists rk. intros p i q Hp Hq. pose proof (Hrk _ _ _ HX HXp). pose proof (Hrk _ _ _ HR eq_refl).
    apply lookup_insert_Some in Hp as [(<- & <-)|[HpR Hp]]; [injection Hq as <-; lia|].
    apply lookup_delete_Some in Hp as [_ Hp]. by eapply Hrk.
Qed.
End LearnInt.

(** ** The tree grows a root *)

Lemma step_root t r :
  tree_ok t -> t.(nodes) !! r = None -> r <> 0 ->
  tree_ok (mkTree (<[r := AInt t.(troot) []]> t.(nodes)) t.(groups)
    (<[r := mkInfo None None None]> (<[t.(troot) := mkInfo None None (Some r)]> t.(infos))) r).
Proof.
  intros Ht Hr Hr0. pose proof (t_root _ Ht) as Hroot.
  assert (Hri : infos t !! r = None) by (destruct (infos t !! r) eqn:Ej; [destruct (live_info _ _ _ Ht Ej); congruence|done]).
  assert (Hne : r <> troot t) by congruence.
  destruct (leaves_fresh _ _ _ (AInt (troot t) []) (tree_leaves _ Ht) Hr) as (L1 & L2 & L3 & L4 & L5 & L6 & L7).
  assert (Hn : forall p, is_Some (infos t !! p) -> <[r := AInt (troot t) []]> (nodes t) !! p = nodes t !! p).
  { intros p [i Hp]. rewrite lookup_insert_ne; [done|]. congruence. }
  constructor; try done; cbn [nodes groups infos troot].
  - by rewrite lookup_insert_eq.
  - intros p i Hp. apply lookup_insert_Some in Hp as [(<- & <-)|[Hpr Hp]].
    { split_and!; [done|done|]. right. exists (troot t), []. cbn [nodes]. rewrite lookup_insert_eq. split_and!; [done|by split; constructor|].
      intros a c b Hin _. apply list_elem_of_singleton in Hin as [= -> -> ->]. eexists. cbn [infos].
      rewrite lookup_insert_ne, lookup_insert_eq by done. by split_and!. }
    apply lookup_insert_Some in Hp as [(<- & <-)|[Hpo Hp]].
    + destruct (t_info _ Ht _ _ Hroot) as (H0 & Hl & [(ls & Hlf)|(lk & ss & Hnd & Hss & Hc)]); (split_and!; [done|done|]); [left; by exists ls|].
      right. exists lk, ss. cbn [nodes]. rewrite Hn by (by eexists). split_and!; [done|done|]. intros a c b Hin Hab.
      destruct (Hc a c b Hin Hab) as (j & Hj & Sa & Sb & Hp). exists j. cbn [infos]. split_and!; try done.
      rewrite !lookup_insert_ne; [done| |congruence]. intros <-. rewrite Hroot in Hj. by injection Hj as <-.
    + destruct (t_info _ Ht _ _ Hp) as (H0 & Hl & [(ls & Hlf)|(lk & ss & Hnd & Hss & Hc)]); (split_and!; [done|done|]); [left; by exists ls|].
      right. exists lk, ss. cbn [nodes]. rewrite Hn by (by eexists). split_and!; [done|done|]. intros a c b Hin Hab.
      destruct (Hc a c b Hin Hab) as (j & Hj & Sa & Sb & Hpar). exists j. cbn [infos]. split_and!; try done.
      rewrite !lookup_insert_ne; [done| |congruence]. intros <-. rewrite Hroot in Hj. by injection Hj as <-.
  - intros p i q Hp Hq. apply lookup_insert_Some in Hp as [(<- & <-)|[Hpr Hp]]; [done|].
    apply lookup_insert_Some in Hp as [(<- & <-)|[Hpo Hp]].
    + injection Hq as <-. eexists _, (troot t), [], None, None. rewrite !lookup_insert_eq. split_and!; try done. cbn. set_solver.
    + destruct (t_parent _ Ht _ _ _ Hp Hq) as (j & lk & ss & a & b & Hj & Hnd & Hin & Sa & Sb).
      destruct (decide (q = troot t)) as [->|Hqo].
      * rewrite Hroot in Hj. injection Hj as <-. eexists _, lk, ss, a, b. rewrite (lookup_insert_ne _ r), lookup_insert_eq by done.
        rewrite Hn by (by eexists). by split_and!.
      * exists j, lk, ss, a, b. rewrite Hn by (by eexists). rewrite !lookup_insert_ne by congruence. by split_and!.
  - destruct (t_rank _ Ht) as [rk Hrk]. exists (fun p => if decide (p = r) then S (rk (troot t)) else rk p). intros p i q Hp Hq.
    apply lookup_insert_Some in Hp as [(<- & <-)|[Hpr Hp]]; [done|]. rewrite (decide_False (P := p = r)) by done.
    apply lookup_insert_Some in Hp as [(<- & <-)|[Hpo Hp]].
    + injection Hq as <-. rewrite decide_True by done. lia.
    + rewrite decide_False; [by eapply Hrk|]. intros ->. destruct (t_parent _ Ht _ _ _ Hp Hq) as (j & ? & ? & ? & ? & Hj & _). congruence.
Qed.

(** ** A separator on its way up *)

(** [X] has split at [s] and its right part is [R]; the parent of [X] does not know yet. *)
Inductive Pending (t : Tree) (X : N) (s : K) (R : N) : Prop :=
  | PendingLeaf iX G1 l1 xs2 l2 G2 :
      t.(infos) !! X = Some iX -> t.(infos) !! R = None ->
      t.(groups) = G1 ++ (iX.(i_lo), l1 ++ (R, xs2) :: l2) :: G2 -> iX.(i_hi) = next_fence G2 -> head_page l1 = Some X ->
      live iX.(i_lo) (Some s) -> live (Some s) iX.(i_hi) ->
      Forall (fun x => pt x ≺ s) (items_of l1) -> Forall (fun x => s ≼ pt x) (xs2 ++ items_of l2) -> Pending t X s R
  | PendingInt iX lkx T1 :
      t.(infos) !! X = Some iX -> t.(nodes) !! X = Some (AInt lkx (T1 ++ [(s, R)])) ->
      (live (Some s) iX.(i_hi) -> t.(infos) !! R = Some (mkInfo (Some s) iX.(i_hi) (Some X))) -> Pending t X s R.

(** The parent learns of it. *)
Lemma step_learn t N0 X R iX iN lk ss1 ss2 s :
  tree_ok t -> Pending t X s R -> t.(infos) !! X = Some iX -> iX.(i_parent) = Some N0 ->
  t.(infos) !! N0 = Some iN -> t.(nodes) !! N0 = Some (AInt lk (ss1 ++ ss2)) -> cut s ss1 ss2 ->
  exists t', tree_ok t' /\ t'.(nodes) = <[N0 := AInt lk (ss1 ++ (s, R) :: ss2)]> t.(nodes) /\
    items t'.(groups) = items t.(groups) /\ t'.(troot) = t.(troot) /\
    forall q, q <> X -> q <> R -> t'.(infos) !! q = t.(infos) !! q.
Proof.
  intros Ht Hp HX HXp HN HNn Hcut. destruct Hp as [iX' G1 l1 xs2 l2 G2 HX' HR E Eh Hh Hlo Hhi H1 H2|iX' lkx T1 HX' HXn HR].
  { rewrite HX in HX'. injection HX' as <-. eexists. split; [by eapply (step_learn_leaf t N0 X R iN iX lk ss1 ss2 s G1 l1 xs2 l2 G2)|]. cbn [nodes groups infos troot].
    split_and!; [done| |done|by intros; rewrite !lookup_insert_ne].
    rewrite E, !items_app, !items_cons, items_of_app. by rewrite <- app_assoc. }
  rewrite HX in HX'. injection HX' as <-.
  pose proof (node_seps _ Ht _ _ _ _ HX HXn) as Hs. destruct (seps_split _ _ _ _ _ _ Hs) as ([Hw1 Hw2] & _ & _).
  destruct (t_parent _ Ht _ _ _ HX HXp) as (j & lk' & ss & a & b & Hj & Hn & Hin & Sa & Sb).
  rewrite HN in Hj. injection Hj as <-. rewrite HNn in Hn. injection Hn as <- <-.
  pose proof (node_seps _ Ht _ _ _ _ HN HNn) as HsN.
  assert (Hab : live a b) by (eapply same_live; [done|done|by eapply t_info]).
  assert (Hsa : ge_lo a s) by (by eapply same_ge_lo). assert (Hsb : le_hi s b).
  { destruct (i_hi iX) as [h|], b as [b|]; try done. cbn in Hw2, Sb |- *. unfold ord_le in *. by rewrite <- (cmp_Eq_r cmp _ _ _ Sb). }
  assert (HwN : within (i_lo iN) (i_hi iN) s).
  { destruct (slots_bounds _ _ _ _ _ _ _ HsN Hin) as [B1 B2]. split; [by apply B1|].
    destruct (i_hi iN) as [h|]; [|done]. cbn. destruct b as [b|]; [|exfalso; exact (ord_lt_irrefl cmp h (B2 h I))].
    destruct (ord_lt_or_le cmp h s) as [Hlt|]; [|done]. exfalso.
    assert (Hhb : h ≺ b) by (by eapply ord_lt_le_trans). specialize (B2 h Hhb). by eapply (ord_lt_irrefl cmp). }
  assert (Hkeep : same (first_hi ss2 (i_hi iN)) (Some s) ->
    exists t', tree_ok t' /\ nodes t' = <[N0 := AInt lk (ss1 ++ (s, R) :: ss2)]> (nodes t) /\
      items (groups t') = items (groups t) /\ troot t' = troot t /\ forall q, q <> X -> q <> R -> infos t' !! q = infos t !! q).
  { intros Hsame. eexists. split; [by eapply (step_learn_keep t N0 iN)|]. by split_and!. }
  rewrite slots_cut in Hin. destruct Hcut as [Hc1 Hc2]. rewrite Forall_forall in Hc1, Hc2. apply elem_of_app in Hin as [Hin|Hin].
  { exfalso. destruct (init_slots_upper _ _ _ _ _ _ Hin) as (k & -> & Hk). eapply (ord_lt_irrefl cmp).
    eapply ord_le_lt_trans; [done|exact Hsb|by apply Hc1]. }
  apply elem_of_cons in Hin as [Ecut|Hin].
  - destruct (last_slot (i_lo iN) lk ss1) as [a' x'] eqn:El. injection Ecut as <- <- ->.
    assert (Hcut : cut s ss1 ss2) by (by split; apply Forall_forall).
    destruct (decide (live (Some s) (i_hi iX))) as [Hhi|Hhi].
    2:{ apply Hkeep. eapply same_trans; [by apply same_sym|]. by eapply same_of_within. }
    specialize (HR Hhi). destruct (decide (live (i_lo iX) (Some s))) as [Hlo|Hlo].
    { eexists. split; [by eapply (step_learn_strict t Ht N0 X R iN iX)|]. cbn [nodes groups infos troot].
      split_and!; try done. by intros; rewrite !lookup_insert_ne. }
    assert (Sl : same (i_lo iX) (Some s)).
    { destruct (i_lo iX) as [l|]; [|done]. apply same_le; [done|]. by apply ord_not_lt. }
    assert (Ess1 : ss1 = []).
    { destruct (last ss1) as [[k c]|] eqn:Ek; [|by apply last_None in Ek]. exfalso. unfold last_slot in El. rewrite Ek in El. injection El as <- <-.
      assert (Hk : k ≺ s) by (apply Hc1; apply last_Some_elem_of in Ek; by apply (list_elem_of_fmap_2 fst) in Ek).
      pose proof (same_trans _ _ _ (same_sym _ _ Sa) Sl) as Ek'. cbn in Ek'. unfold ord_lt in Hk. congruence. }
    rewrite Ess1 in El. injection El as <- <-.
    eexists. split; [by eapply (step_learn_replace t Ht N0 lk R iN iX lk lkx ss1 ss2 T1 s HN HNn HX HXp HXn Hcut HR (i_lo iN));
      try done; eapply same_trans; [by apply same_sym|]|].
    cbn [nodes groups infos troot]. split_and!; try done. intros q Hq1 Hq2. by rewrite lookup_insert_ne, lookup_delete_ne.
  - apply Hkeep. destruct (tail_slots_lower _ _ _ _ _ Hin) as (k & -> & Hk). destruct ss2 as [|[m c2] ss2]; [by apply elem_of_nil in Hk|].
    cbn [first_hi]. apply same_le; [|by apply Hc2; constructor]. eapply ord_le_trans; [done| |exact Hsa].
    apply elem_of_cons in Hk as [->|Hk]; [apply ord_le_refl, _|]. destruct HsN as [Hso _]. rewrite fmap_app in Hso.
    apply StronglySorted_app_1_r, StronglySorted_inv in Hso as [_ Hle]. rewrite Forall_forall in Hle. by apply Hle.
Qed.

(** An internal node splits, and its separator is on its way up. *)
Lemma step_split_int t X iX lk T1 s cm T2 R :
  tree_ok t -> t.(infos) !! X = Some iX -> t.(nodes) !! X = Some (AInt lk (T1 ++ (s, cm) :: T2)) ->
  t.(nodes) !! R = None -> R <> 0 ->
  exists t', tree_ok t' /\ t'.(nodes) = <[X := AInt lk (T1 ++ [(s, R)])]> (<[R := AInt cm T2]> t.(nodes)) /\
    t'.(groups) = t.(groups) /\ t'.(troot) = t.(troot) /\ Pending t' X s R /\
    forall q i, t.(infos) !! q = Some i -> i.(i_parent) <> Some X -> t'.(infos) !! q = Some i.
Proof.
  intros Ht HX HXn HR HR0. destruct (t_rank _ Ht) as [rk Hrk].
  assert (HXp : i_parent iX <> Some X) by (intros E; specialize (Hrk _ _ _ HX E); lia).
  assert (HXR : X <> R) by congruence. destruct (decide (live (Some s) (i_hi iX))) as [Hl|Hl].
  - eexists. split; [by eapply step_split_live|]. cbn [nodes groups infos troot]. split_and!; try done.
    + eapply (PendingInt _ _ _ _ iX lk T1); cbn [nodes infos].
      * rewrite lookup_insert_ne, lookup_fmap, HX by done. cbn. by rewrite reparent_other.
      * by rewrite lookup_insert_eq.
      * intros _. by rewrite lookup_insert_eq.
    + intros q i Hq Hp. rewrite lookup_insert_ne, lookup_fmap, Hq.
      * cbn. by rewrite reparent_other.
      * intros <-. destruct (live_info _ _ _ Ht Hq). congruence.
  - eexists. split; [by eapply step_split_dead|]. cbn [nodes groups infos troot]. split_and!; try done.
    by eapply (PendingInt _ _ _ _ iX lk T1); cbn [nodes infos]; [|rewrite lookup_insert_eq|].
Qed.
End BLink.
