(* ===== verification/BTreeRead.v ===== *)
(** * Reading the B-tree

    The pages of an index represent an abstract tree ([BLink]); its [contents] are the
    entries in order.  Shown: descending by a probe ends at the leaf that answers for it,
    within as many steps as there are pages, and the lookups answer from the contents. *)

From S2P Require Import Prelude Errors Mvcc CheckedBytes ByteArray Page IndexPage KeyOrder BTree BLink.
Local Open Scope N_scope.

Lemma filter_none {A} (P : A -> Prop) `{Hdec : !forall x, Decision (P x)} l : Forall (fun x => ~ P x) l -> filter P l = [].
Proof. induction 1 as [|x l Hx _ IH]; [done|]. by rewrite filter_cons_False. Qed.
Lemma filter_all {A} (P : A -> Prop) `{Hdec : !forall x, Decision (P x)} l : Forall P l -> filter P l = l.
Proof. induction 1 as [|x l Hx _ IH]; [done|]. by rewrite filter_cons_True, IH. Qed.
Lemma StronglySorted_impl {A} (R R' : A -> A -> Prop) l :
  (forall x y, R x y -> R' x y) -> StronglySorted R l -> StronglySorted R' l.
Proof. intros H. induction 1 as [|x l _ IH Hx]; constructor; [done|]. eapply Forall_impl; [exact Hx|]. intros y. apply H. Qed.

Section Read.
Context (crc32 : bytes -> N).
Context {V : Type} `{!KeyCodec V, !KeyCodecLaws V}.
Abbreviation Key := (list V).
Abbreviation KeyRange := (@BTree.KeyRange V).

(** An entry, and the point of the order that a probe or a separator is. *)
Abbreviation Item := (Key * bytes)%type.
Abbreviation Point := (Key * option bytes)%type.
Definition pt (x : Item) : Point := (x.1, Some x.2).
Definition pt_cmp : Point -> Point -> comparison := pair_cmp key_cmp (option_cmp bytes_cmp).
Global Instance pt_cmp_order : TotalPreorder pt_cmp.
Proof using KeyCodecLaws0. unfold pt_cmp, key_cmp, bytes_cmp. apply _. Qed.
Local Notation "a ≺ b" := (ord_lt pt_cmp a b) (at level 70).
Local Notation "a ≼ b" := (ord_le pt_cmp a b) (at level 70).
Definition probe_pt (probe : Probe) : Point := (probe.(pr_key), probe.(pr_value)).

(** ** Representation *)

(** Bytes that are read back as a key whatever follows them. *)
Definition prefix_code (kb : bytes) (k : Key) : Prop := forall rest, decode_key_prefix (kb ++ rest) = Ok (k, len kb).

Definition leaf_entry (e : bytes * bytes) (x : Item) : Prop :=
  prefix_code e.1 x.1 /\ e.2 = x.2 /\ len e.2 = LOCATION_LEN.

Definition sep_entry (e : bytes * bytes) (s : Point * N) : Prop :=
  exists kb tie, e.1 = kb ++ tie /\ prefix_code kb s.1.1 /\ s.1.2 = Some tie /\ e.2 = encode_child s.2 /\ s.2 <= U32_MAX.

Abbreviation Tree := (@Tree Point Item).
Abbreviation ANode := (@ANode Point Item).

Definition abs_node (n : Node) (a : ANode) : Prop :=
  match a with
  | ALeaf lk xs => n.(n_leaf) = true /\ n.(n_link) = lk /\ Forall2 leaf_entry n.(n_entries) xs
  | AInt lk ss => n.(n_leaf) = false /\ n.(n_link) = lk /\ Forall2 sep_entry n.(n_entries) ss
  end.

Definition page_is (ps : gmap N bytes) (p : N) (a : ANode) : Prop :=
  exists d, ps !! p = Some d /\ node_ok crc32 d /\ abs_node (node_of d) a.

Definition represents (ps : gmap N bytes) (t : Tree) : Prop :=
  (forall p a, t.(nodes) !! p = Some a -> p <> 0 /\ page_is ps p a) /\
  exists d, ps !! 0 = Some d /\ meta_ok crc32 d /\ meta_root d = t.(troot).

(** The pages of an index hold a tree. *)
Definition is_tree (ps : gmap N bytes) (t : Tree) : Prop := tree_ok pt_cmp pt t /\ represents ps t.

Definition contents (t : Tree) : list Item := items t.(groups).

(** ** What lookups answer *)

Definition loc (b : bytes) : RowLocation :=
  mkRowLocation (from_le_bytes (sub b 0 4)) (from_le_bytes (sub b 4 4)) (from_le_bytes (sub b 8 2)).

(** The locations of a key. *)
Definition matching (key : Key) (xs : list Item) : list RowLocation := loc ∘ snd <$> filter (fun x => key_cmp x.1 key = Eq) xs.

(** A range takes a key when it takes the prefix it compares. *)
Definition compared (range : KeyRange) (key : Key) : Key := default key (prefix_of key (comparison_prefix_len range)).
Definition select (range : KeyRange) (xs : list Item) : list (Key * RowLocation) :=
  (fun x => (x.1, loc x.2)) <$> filter (fun x => key_in_range (compared range x.1) range = true) xs.

Lemma decode_loc b : len b = LOCATION_LEN -> decode b = Ok (loc b).
Proof. intros H. unfold decode, get_range, loc. by rewrite H. Qed.

Lemma below_key key x : pt x ≺ (key, None) <-> key_cmp x.1 key = Lt.
Proof. unfold ord_lt, pt_cmp, pair_cmp, pt. cbn. by destruct (key_cmp x.1 key). Qed.

Lemma matching_app key xs ys : matching key (xs ++ ys) = matching key xs ++ matching key ys.
Proof. unfold matching. by rewrite filter_app, fmap_app. Qed.
Lemma matching_none key xs : Forall (fun x => key_cmp x.1 key <> Eq) xs -> matching key xs = [].
Proof. intros H. unfold matching. by rewrite filter_none. Qed.
Lemma matching_all key xs : Forall (fun x => key_cmp x.1 key = Eq) xs -> matching key xs = loc ∘ snd <$> xs.
Proof. intros H. unfold matching. by rewrite filter_all. Qed.
Lemma matching_below key xs : Forall (fun x => pt x ≺ (key, None)) xs -> matching key xs = [].
Proof. intros H. apply matching_none. eapply Forall_impl; [exact H|]. intros x Hx. apply below_key in Hx. by rewrite Hx. Qed.

Lemma key_cmp_sorted x y : pt x ≺ pt y -> key_cmp x.1 y.1 <> Gt.
Proof. unfold ord_lt, pt_cmp, pair_cmp, pt. cbn. by destruct (key_cmp x.1 y.1). Qed.
Lemma key_eqb_spec a b : key_eqb a b = bool_decide (key_cmp a b = Eq).
Proof. unfold key_eqb. case_bool_decide as H; [by rewrite H|]. by destruct (key_cmp a b). Qed.

(** ** Nodes *)

Definition points (a : ANode) : list Point := match a with ALeaf _ xs => pt <$> xs | AInt _ ss => ss.*1 end.
Definition leafy (a : ANode) : bool := match a with ALeaf _ _ => true | AInt _ _ => false end.

Section Node.
Context (d : bytes) (Hok : node_ok crc32 d).

Lemma node_entry i e :
  n_entries (node_of d) !! N.to_nat i = Some e -> entry_key d i = Ok e.1 /\ entry_value d i = Ok e.2.
Proof. destruct Hok as (_ & f & R). exact (rep_entry _ _ _ _ _ _ _ R). Qed.

Lemma node_leafy a : abs_node (node_of d) a -> is_leaf d = leafy a.
Proof. intros Ha. destruct a; by destruct Ha as [H _]. Qed.

Lemma node_count a : abs_node (node_of d) a -> entry_count d = len (points a).
Proof.
  intros Ha. destruct Hok as (_ & f & R). rewrite (r_count _ _ _ _ _ R). unfold len.
  destruct a; destruct Ha as (_ & _ & H); apply Forall2_length in H; cbn [points]; rewrite length_fmap; by rewrite H.
Qed.

Lemma leaf_value lk xs i x :
  abs_node (node_of d) (ALeaf lk xs) -> xs !! i = Some x -> leaf_key_value d (N.of_nat i) = Ok x.
Proof.
  intros Ha Hi. destruct Ha as (_ & _ & H). destruct (Forall2_lookup_r _ _ _ _ _ H Hi) as ([kb vb] & He & Hp & Hv & Hl).
  destruct (node_entry (N.of_nat i) (kb, vb)) as [Ek Ev]; [by rewrite Nat2N.id|]. cbn in *.
  unfold leaf_key_value. rewrite Ek, Ev. cbn. unfold decode_key. specialize (Hp []). rewrite app_nil_r in Hp. rewrite Hp. cbn.
  rewrite N.eqb_refl. cbn. destruct x as [k v]. cbn in *. by subst v.
Qed.

Lemma internal_value lk ss i s : abs_node (node_of d) (AInt lk ss) -> ss !! i = Some s ->
  exists tie, s.1.2 = Some tie /\ internal_key_value d (N.of_nat i) = Ok (s.1.1, tie).
Proof.
  intros Ha Hi. destruct Ha as (_ & _ & H).
  destruct (Forall2_lookup_r _ _ _ _ _ H Hi) as ([cb vb] & He & kb & tie & E & Hp & Ht & Hv & Hc).
  destruct (node_entry (N.of_nat i) (cb, vb)) as [Ek Ev]; [by rewrite Nat2N.id|]. cbn in *. subst cb. exists tie. split; [done|].
  unfold internal_key_value. rewrite Ek. cbn. rewrite (Hp tie). cbn. rewrite slice_Ok by (rewrite len_app; lia). cbn.
  do 2 f_equal. rewrite len_app. replace (len kb + len tie - len kb) with (len tie) by lia.
  rewrite sub_app_r by lia. replace (len kb - len kb) with 0 by lia. by rewrite sub_all.
Qed.

Lemma child_value lk ss i s : abs_node (node_of d) (AInt lk ss) -> ss !! i = Some s ->
  (v ← read (entry_value d (N.of_nat i)); tried (decode_child v)) = Ok s.2.
Proof.
  intros Ha Hi. destruct Ha as (_ & _ & H).
  destruct (Forall2_lookup_r _ _ _ _ _ H Hi) as ([cb vb] & He & kb & tie & E & Hp & Ht & Hv & Hc).
  destruct (node_entry (N.of_nat i) (cb, vb)) as [Ek Ev]; [by rewrite Nat2N.id|]. cbn [fst snd] in *. subst vb.
  unfold read. rewrite Ev. cbn [map_err mbind result_bind]. unfold decode_child, encode_child. rewrite len_le_bytes.
  change (N.of_nat 4 =? CHILD_LEN) with true. cbn [negb]. unfold tried. cbn [map_err]. f_equal. apply from_to_le_bytes. unfold U32_MAX in Hc. cbn. lia.
Qed.

Lemma entry_cmp_ok a i k probe :
  abs_node (node_of d) a -> points a !! i = Some k -> entry_cmp d (leafy a) (N.of_nat i) probe = Ok (pt_cmp k (probe_pt probe)).
Proof.
  intros Ha Hi. unfold entry_cmp. destruct a as [lk xs|lk ss]; cbn [points leafy] in *.
  - apply list_lookup_fmap_Some in Hi as (x & -> & Hx). rewrite (leaf_value lk xs i x Ha Hx). cbn. f_equal. unfold pt_cmp, pair_cmp.
    destruct x as [k' v]. cbn. destruct (key_cmp k' (pr_key probe)); done.
  - apply list_lookup_fmap_Some in Hi as (x & -> & Hx). destruct (internal_value lk ss i x Ha Hx) as (tie & Et & ->). cbn. f_equal.
    unfold pt_cmp, pair_cmp. destruct x as [[k' o] c]. cbn in *. subst o. cbn. by destruct (key_cmp k' (pr_key probe)).
Qed.

(** ** Binary search *)

(** What the search passes on the way right. *)
Definition passes (strict : bool) (y k : Point) : Prop := if strict then k ≼ y else k ≺ y.
Lemma passes_down strict y k k' : k' ≼ k -> passes strict y k -> passes strict y k'.
Proof. destruct strict; cbn; intros; [by eapply (ord_le_trans pt_cmp)|by eapply (ord_le_lt_trans pt_cmp)]. Qed.
Global Instance passes_dec strict y k : Decision (passes strict y k).
Proof. destruct strict; apply _. Defined.

Lemma bound_loop_ok a probe strict fuel : forall lo hi,
  abs_node (node_of d) a -> StronglySorted (ord_le pt_cmp) (points a) ->
  (N.to_nat hi - N.to_nat lo < fuel)%nat -> lo <= hi -> hi <= len (points a) ->
  (forall i k, points a !! i = Some k -> N.of_nat i < lo -> passes strict (probe_pt probe) k) ->
  (forall i k, points a !! i = Some k -> hi <= N.of_nat i -> ~ passes strict (probe_pt probe) k) ->
  exists m, bound_loop fuel d (leafy a) probe strict lo hi = Ok m /\ m <= len (points a) /\
    (forall i k, points a !! i = Some k -> N.of_nat i < m -> passes strict (probe_pt probe) k) /\
    (forall i k, points a !! i = Some k -> m <= N.of_nat i -> ~ passes strict (probe_pt probe) k).
Proof.
  intros lo hi Ha Hs. revert lo hi. induction fuel as [|fuel IH]; intros lo hi Hf Hle Hh Hl Hr; [lia|]. cbn [bound_loop].
  destruct (N.ltb_spec lo hi) as [Hlt|Hge].
  2:{ exists lo. split_and!; [done|lia|done|]. intros i k Hi Hm. apply (Hr i k Hi). lia. }
  assert (Hhalf : (hi - lo) / 2 < hi - lo) by (apply N.div_lt; lia). revert Hhalf. generalize ((hi - lo) / 2). intros half Hhalf.
  set (mid := lo + half). assert (Hmid : lo <= mid /\ mid < hi) by (unfold mid; lia). clearbody mid. destruct (lookup_lt_is_Some_2 (points a) (N.to_nat mid)) as [k Hk]; [unfold len in *; lia|].
  pose proof (entry_cmp_ok a (N.to_nat mid) k probe Ha Hk) as Ec. rewrite N2Nat.id in Ec. rewrite Ec. cbn [mbind result_bind].
  assert (Hgo : (match pt_cmp k (probe_pt probe) with Lt => true | Eq => strict | Gt => false end)
    = bool_decide (passes strict (probe_pt probe) k)).
  { case_bool_decide as H; revert H; unfold passes, ord_le, ord_lt; destruct strict, (pt_cmp k (probe_pt probe)); naive_solver. }
  rewrite Hgo. case_bool_decide as Hp.
  - apply IH; [lia|lia|lia| |done]. intros i k' Hi Hm. destruct (decide (i = N.to_nat mid)) as [->|Hne]; [congruence|].
    eapply passes_down; [|exact Hp]. eapply (StronglySorted_lookup (ord_le pt_cmp) (points a)); [exact Hs| |exact Hi|exact Hk]. lia.
  - apply IH; [lia|lia|lia|done|]. intros i k' Hi Hm Hp'. apply Hp. destruct (decide (i = N.to_nat mid)) as [->|Hne]; [congruence|].
    eapply passes_down; [|exact Hp']. eapply (StronglySorted_lookup (ord_le pt_cmp) (points a)); [exact Hs| |exact Hk|exact Hi]. lia.
Qed.

(** The search finds where the passed entries end. *)
Lemma bound_ok a probe strict :
  abs_node (node_of d) a -> StronglySorted (ord_le pt_cmp) (points a) ->
  exists k, bound d (leafy a) probe strict = Ok (N.of_nat k) /\ (k <= length (points a))%nat /\
    Forall (passes strict (probe_pt probe)) (take k (points a)) /\
    Forall (fun x => ~ passes strict (probe_pt probe) x) (drop k (points a)).
Proof.
  intros Ha Hs. unfold bound. rewrite (node_count a Ha).
  destruct (bound_loop_ok a probe strict (S (N.to_nat (len (points a)))) 0 (len (points a)) Ha Hs) as (m & E & Hm & H1 & H2); try lia.
  { intros i k Hi Hc. apply lookup_lt_Some in Hi. unfold len in Hc. lia. }
  exists (N.to_nat m). rewrite N2Nat.id. split_and!; [done|unfold len in Hm; lia| |]; apply Forall_lookup; intros i x Hx.
  - apply lookup_take_Some in Hx as [Hx Hi]. apply (H1 i); [done|lia].
  - rewrite lookup_drop in Hx. apply (H2 _ _ Hx). lia.
Qed.

Lemma node_link_of a : abs_node (node_of d) a -> link d = match a with ALeaf lk _ | AInt lk _ => lk end.
Proof. intros Ha. by destruct a; destruct Ha as (_ & H & _). Qed.
End Node.

(** ** The tree *)

Section Tree.
Context (ps : gmap N bytes) (t : Tree) (Ht : tree_ok pt_cmp pt t) (Hr : represents ps t).

Lemma node_page p a : t.(nodes) !! p = Some a -> exists d, read_page ps p = Ok d /\ node_ok crc32 d /\ abs_node (node_of d) a.
Proof.
  intros H. destruct Hr as [Hn _]. destruct (Hn _ _ H) as (_ & d & Hd & Hok & Ha). exists d. unfold read_page. by rewrite Hd.
Qed.

Lemma root_page : root ps = Ok t.(troot).
Proof. destruct Hr as [_ (d & Hd & _ & E)]. unfold root, read_page, META_PAGE. rewrite Hd. cbn. by rewrite E. Qed.

Lemma nodes_pages : dom t.(nodes) ⊆ dom ps.
Proof.
  intros p Hp. apply elem_of_dom in Hp as [a Ha]. destruct Hr as [Hn _]. destruct (Hn _ _ Ha) as (_ & d & Hd & _).
  apply elem_of_dom. by exists d.
Qed.

(** Live pages have a height below the number of pages, which falls on the way down. *)
Lemma heights : exists height : N -> nat,
  (forall p i, t.(infos) !! p = Some i -> (height p < size ps)%nat) /\
  (forall p i q, t.(infos) !! p = Some i -> i.(i_parent) = Some q -> (height p < height q)%nat).
Proof.
  destruct (t_rank _ _ _ Ht) as [rank Hrank].
  exists (fun p => size (filter (fun q => (rank q < rank p)%nat) (dom t.(infos)))). split.
  - intros p i Hp. apply Nat.lt_le_trans with (size (dom t.(infos))).
    + apply subset_size. split; [set_solver|]. intros H. assert (Hin : p ∈ dom t.(infos)) by (apply elem_of_dom; eauto).
      apply H, elem_of_filter in Hin as [? _]. lia.
    + rewrite <- size_dom. apply subseteq_size. intros q Hq. apply nodes_pages. apply elem_of_dom in Hq as [j Hj].
      apply elem_of_dom. by eapply (live_info pt_cmp pt t).
  - intros p i q Hp Hq. pose proof (Hrank _ _ _ Hp Hq) as Hlt. apply subset_size. split.
    + intros x [Hx Hd]%elem_of_filter. apply elem_of_filter. split; [lia|done].
    + intros H. assert (Hin : p ∈ filter (fun x => (rank x < rank q)%nat) (dom t.(infos))).
      { apply elem_of_filter. split; [done|]. apply elem_of_dom. eauto. }
      apply H, elem_of_filter in Hin as [? _]. lia.
Qed.

Lemma live_node p i : t.(infos) !! p = Some i ->
  exists a d, t.(nodes) !! p = Some a /\ read_page ps p = Ok d /\ node_ok crc32 d /\ abs_node (node_of d) a /\
    if leafy a then leaf_cond t p i else int_cond pt_cmp t p i.
Proof.
  intros Hp. destruct (info_node pt_cmp pt t Ht _ _ Hp) as [(lk & xs & Hn & Hl)|Hi].
  - destruct (node_page _ _ Hn) as (d & Hd). exists (ALeaf lk xs), d. naive_solver.
  - pose proof Hi as (lk & ss & Hn & _). destruct (node_page _ _ Hn) as (d & Hd). exists (AInt lk ss), d. naive_solver.
Qed.

(** *** Descending *)

Lemma child_for_ok p i lk ss d probe :
  t.(infos) !! p = Some i -> t.(nodes) !! p = Some (AInt lk ss) -> node_ok crc32 d -> abs_node (node_of d) (AInt lk ss) ->
  inside pt_cmp i.(i_lo) i.(i_hi) (probe_pt probe) ->
  exists c j, child_for d probe = Ok c /\ t.(infos) !! c = Some j /\ j.(i_parent) = Some p /\ inside pt_cmp j.(i_lo) j.(i_hi) (probe_pt probe).
Proof.
  intros Hp Hn Hok Ha Hy. destruct (node_seps pt_cmp pt t Ht _ _ _ _ Hp Hn) as [Hs _].
  destruct (bound_ok d Hok (AInt lk ss) probe true Ha Hs) as (k & Hb & Hk & H1 & H2). cbn [points passes leafy] in *.
  rewrite length_fmap in Hk.
  destruct (route pt_cmp pt t Ht p i (probe_pt probe) lk ss k Hp Hn Hy Hk H1) as (c & j & Hc & Hpar & Hin & He).
  { rewrite Forall_forall in H2 |- *. intros x Hx. apply (ord_not_le pt_cmp). by apply H2. }
  exists c, j. split_and!; try done. unfold child_for, upper_bound. rewrite Hb. cbn [mbind result_bind].
  destruct k as [|k].
  - subst c. rewrite N.eqb_refl. by rewrite (node_link_of d _ Ha).
  - destruct He as [s He]. rewrite (proj2 (N.eqb_neq _ _)) by lia. replace (N.of_nat (S k) - 1) with (N.of_nat k) by lia.
    exact (child_value d Hok lk ss k (s, c) Ha He).
Qed.

Lemma descend_loop_ok probe fuel : forall height p i,
  (forall p i q, t.(infos) !! p = Some i -> i.(i_parent) = Some q -> (height p < height q)%nat) ->
  t.(infos) !! p = Some i -> inside pt_cmp i.(i_lo) i.(i_hi) (probe_pt probe) -> (height p < fuel)%nat ->
  exists q j, descend_loop fuel ps probe p = Ok q /\ t.(infos) !! q = Some j /\
    leaf_cond t q j /\ inside pt_cmp j.(i_lo) j.(i_hi) (probe_pt probe).
Proof.
  induction fuel as [|fuel IH]; intros height p i Hh Hp Hy Hf; [lia|]. cbn [descend_loop].
  destruct (live_node p i Hp) as (a & d & Hn & -> & Hok & Ha & Hc). cbn [mbind result_bind]. rewrite (node_leafy d a Ha).
  destruct a as [lk xs|lk ss]; cbn [leafy] in *; [by exists p, i|].
  destruct (child_for_ok p i lk ss d probe Hp Hn Hok Ha Hy) as (c & j & -> & Hj & Hpar & Hin). cbn [mbind result_bind].
  apply (IH height c j); try done. specialize (Hh _ _ _ Hj Hpar). lia.
Qed.

Lemma descend_ok probe : exists q j, descend_to_leaf ps probe = Ok q /\ t.(infos) !! q = Some j /\
  leaf_cond t q j /\ inside pt_cmp j.(i_lo) j.(i_hi) (probe_pt probe).
Proof.
  destruct heights as (height & H1 & H2). unfold descend_to_leaf. rewrite root_page. cbn [mbind result_bind].
  pose proof (t_root _ _ _ Ht) as Hroot. apply (descend_loop_ok probe _ height _ _ H2 Hroot); [done|].
  specialize (H1 _ _ Hroot). unfold walk_fuel. lia.
Qed.

(** The left spine keeps to the pages without a lower bound. *)
Lemma left_spine_ok fuel : forall height p i,
  (forall p i q, t.(infos) !! p = Some i -> i.(i_parent) = Some q -> (height p < height q)%nat) ->
  t.(infos) !! p = Some i -> i.(i_lo) = None -> (height p < fuel)%nat ->
  exists q j, left_spine fuel ps p = Ok q /\ t.(infos) !! q = Some j /\ leaf_cond t q j /\ j.(i_lo) = None.
Proof.
  induction fuel as [|fuel IH]; intros height p i Hh Hp Hy Hf; [lia|]. cbn [left_spine].
  destruct (live_node p i Hp) as (a & d & Hn & -> & Hok & Ha & Hc). cbn [mbind result_bind]. rewrite (node_leafy d a Ha).
  destruct a as [lk xs|lk ss]; cbn [leafy] in *; [by exists p, i|].
  destruct Hc as (lk' & ss' & Hn' & _ & Hc). rewrite Hn in Hn'. injection Hn' as <- <-. rewrite (node_link_of d _ Ha).
  destruct (Hc (i_lo i) lk (first_hi ss (i_hi i))) as (j & Hj & Sa & _ & Hpar).
  { rewrite slots_first. constructor. }
  { by rewrite Hy. }
  apply (IH height lk j); try done; [|specialize (Hh _ _ _ Hj Hpar); lia]. rewrite Hy in Sa. by destruct (i_lo j).
Qed.

Lemma first_leaf_ok : exists q j, first_leaf ps = Ok q /\ t.(infos) !! q = Some j /\ leaf_cond t q j /\ j.(i_lo) = None.
Proof.
  destruct heights as (height & H1 & H2). unfold first_leaf. rewrite root_page. cbn [mbind result_bind].
  pose proof (t_root _ _ _ Ht) as Hroot. apply (left_spine_ok _ height _ _ H2 Hroot); [done|].
  specialize (H1 _ _ Hroot). unfold walk_fuel. lia.
Qed.

(** *** Walking the leaves *)

Lemma chain_length p L : chain t.(nodes) p L -> NoDup L.*1 -> (length L <= size ps)%nat.
Proof.
  intros Hc Hnd. rewrite <- (length_fmap fst), <- (size_list_to_set (C := gset N) _ Hnd), <- size_dom. apply subseteq_size.
  intros q Hq. apply elem_of_list_to_set, list_elem_of_fmap in Hq as ([q' xs] & -> & Hin). apply nodes_pages, elem_of_dom.
  destruct (chain_leaf _ _ _ _ _ Hc Hin) as (_ & lk & Hl). cbn. rewrite Hl. eauto.
Qed.

(** From the head of a group the chain has all entries that are not below its fence. *)
Lemma leaf_suffix q j : leaf_cond t q j ->
  exists L0 L, leaves t.(groups) = L0 ++ L /\ contents t = items_of L0 ++ items_of L /\ chain t.(nodes) q L /\ L <> [] /\
    (length L < walk_fuel ps)%nat /\ forall x, x ∈ items_of L0 -> exists a, j.(i_lo) = Some a /\ pt x ≺ a.
Proof.
  intros (ls & Hin & Hh). destruct (group_suffix pt_cmp pt t Ht _ _ _ _ Hin Hh) as (G1 & G2 & E & _ & Hc & Hpre).
  exists (leaves G1), (ls ++ leaves G2). unfold contents. rewrite E, leaves_app, leaves_cons, items_app, items_cons, items_of_app.
  split_and!; try done.
  - by destruct ls.
  - pose proof (t_nodup _ _ _ Ht) as Hnd. rewrite E, leaves_app, leaves_cons, fmap_app in Hnd. apply NoDup_app in Hnd as (_ & _ & Hnd).
    pose proof (chain_length _ _ Hc Hnd). unfold walk_fuel. lia.
Qed.

Lemma walk_probe probe : exists q L0 L, descend_to_leaf ps probe = Ok q /\ leaves t.(groups) = L0 ++ L /\
  contents t = items_of L0 ++ items_of L /\ chain t.(nodes) q L /\ L <> [] /\ (length L < walk_fuel ps)%nat /\
  Forall (fun x => pt x ≺ probe_pt probe) (items_of L0).
Proof.
  destruct (descend_ok probe) as (q & j & E & _ & Hl & [Hlo _]). destruct (leaf_suffix q j Hl) as (L0 & L & E0 & E1 & H1 & H2 & H3 & H4).
  exists q, L0, L. split_and!; try done. rewrite Forall_forall. intros x Hx. destruct (H4 x Hx) as (a & Ea & Hlt).
  rewrite Ea in Hlo. by eapply (ord_lt_le_trans pt_cmp).
Qed.

Lemma walk_first : exists q L, first_leaf ps = Ok q /\ leaves t.(groups) = L /\
  contents t = items_of L /\ chain t.(nodes) q L /\ L <> [] /\ (length L < walk_fuel ps)%nat.
Proof.
  destruct first_leaf_ok as (q & j & E & _ & (ls & Hin & Hh) & Hlo).
  destruct (group_suffix pt_cmp pt t Ht _ _ _ _ Hin Hh) as (G1 & G2 & Eg & _ & Hc & Hpre).
  assert (EG1 : G1 = []).
  { destruct G1 as [|g G1]; [done|]. pose proof (t_fences _ _ _ Ht) as Hf. rewrite Eg in Hf. cbn in Hf. apply Forall_app in Hf as [_ Hf].
    apply Forall_cons in Hf as [[a Ha] _]. cbn in Ha. congruence. }
  subst G1. cbn [app] in Eg. exists q, (leaves t.(groups)). rewrite Eg, leaves_cons. split_and!; try done.
  - unfold contents. by rewrite Eg, items_cons, items_of_app.
  - by destruct ls.
  - pose proof (t_nodup _ _ _ Ht) as Hnd. rewrite Eg, leaves_cons in Hnd. pose proof (chain_length _ _ Hc Hnd). unfold walk_fuel. lia.
Qed.

Lemma contents_sorted : StronglySorted (fun x y => pt x ≺ pt y) (contents t).
Proof. pose proof (t_sorted _ _ _ Ht) as H. exact (proj1 (sorted_fmap _ _ _) H). Qed.

(** A turn of a walk: the leaf, its entries and its link. *)
Lemma chain_step p q xs L : chain t.(nodes) p ((q, xs) :: L) ->
  exists d lk, read_page ps p = Ok d /\ node_ok crc32 d /\ abs_node (node_of d) (ALeaf lk xs) /\ link d = lk /\
    chain t.(nodes) lk L /\ (lk =? 0) = bool_decide (L = []).
Proof.
  intros (-> & Hq & lk & Hn & Hc). destruct (node_page _ _ Hn) as (d & Hd & Hok & Ha). exists d, lk. split_and!; try done.
  - exact (node_link_of d _ Ha).
  - destruct L as [|[q' xs'] L]; [by rewrite Hc|]. destruct Hc as (-> & Hq' & _). rewrite bool_decide_false by done. by apply N.eqb_neq.
Qed.

Lemma leaf_lower_bound d lk xs probe :
  node_ok crc32 d -> abs_node (node_of d) (ALeaf lk xs) -> StronglySorted (fun x y => pt x ≺ pt y) xs ->
  exists k, lower_bound d true probe = Ok (N.of_nat k) /\ entry_count d = len xs /\ (k <= length xs)%nat /\
    Forall (fun x => pt x ≺ probe_pt probe) (take k xs) /\ Forall (fun x => probe_pt probe ≼ pt x) (drop k xs).
Proof.
  intros Hok Ha Hs. assert (Hs' : StronglySorted (ord_le pt_cmp) (points (ALeaf lk xs))).
  { apply sorted_fmap. eapply StronglySorted_impl; [|exact Hs]. intros x y. apply (ord_lt_le pt_cmp). }
  destruct (bound_ok d Hok (ALeaf lk xs) probe false Ha Hs') as (k & Hb & Hk & H1 & H2). cbn [points passes leafy] in *.
  exists k. rewrite length_fmap in Hk. rewrite (node_count d Hok _ Ha). cbn [points]. split_and!; [done|by unfold len; rewrite length_fmap|done|..].
  - by rewrite <- fmap_take, Forall_fmap in H1.
  - rewrite <- fmap_drop, Forall_fmap in H2. eapply Forall_impl; [exact H2|]. intros x Hx. by apply (ord_not_lt pt_cmp).
Qed.

Lemma leaf_len d lk xs x : abs_node (node_of d) (ALeaf lk xs) -> x ∈ xs -> len x.2 = LOCATION_LEN.
Proof.
  intros (_ & _ & H) Hx. apply list_elem_of_lookup in Hx as [i Hi]. destruct (Forall2_lookup_r _ _ _ _ _ H Hi) as (e & _ & _ & <- & Hl). done.
Qed.

(** Behind an entry with a larger key nothing has the key. *)
Lemma matching_larger key x xs :
  Forall (fun y => pt x ≺ pt y) xs -> key_cmp x.1 key = Gt -> matching key xs = [].
Proof.
  intros H Hx. apply matching_none. eapply Forall_impl; [exact H|]. intros y Hy E. apply key_cmp_sorted in Hy.
  rewrite (cmp_Eq_r key_cmp _ _ _ E) in Hy. congruence.
Qed.

Lemma not_below key x : (key, None) ≼ pt x -> key_cmp x.1 key <> Lt.
Proof. intros H. rewrite <- below_key. by apply (ord_not_lt pt_cmp). Qed.

Lemma search_loop_ok key L : forall p fuel,
  chain t.(nodes) p L -> L <> [] -> (length L <= fuel)%nat -> StronglySorted (fun x y => pt x ≺ pt y) (items_of L) ->
  search_loop fuel ps key p = Ok (head (matching key (items_of L))).
Proof.
  induction L as [|[q xs] L IH]; intros p fuel Hc Hne Hf Hs; [done|]. destruct fuel as [|fuel]; [cbn in Hf; lia|]. cbn [search_loop].
  destruct (chain_step _ _ _ _ Hc) as (d & lk & -> & Hok & Ha & Ed0 & Hc' & Elk). cbn [mbind result_bind]. rewrite Ed0.
  rewrite items_of_cons in Hs |- *. pose proof Hs as Hsx. apply StronglySorted_app_1_l in Hsx.
  destruct (leaf_lower_bound d lk xs (mkProbe key None) Hok Ha Hsx) as (k & -> & -> & Hk & H1 & H2). cbn [mbind result_bind].
  rewrite <- (take_drop k xs) at 2. rewrite <- app_assoc, matching_app, (matching_below key (take k xs) H1). cbn [app].
  destruct (drop k xs) as [|x ys] eqn:Ed.
  - apply (f_equal length) in Ed. rewrite length_drop in Ed. cbn in Ed. rewrite (proj2 (N.ltb_ge _ _)) by (unfold len; lia). rewrite Elk.
    case_bool_decide as EL; [by subst L|]. cbn [app]. apply IH; [done|done|cbn in Hf; lia|]. by eapply StronglySorted_app_1_r.
  - assert (Hx : xs !! k = Some x) by (rewrite <- (Nat.add_0_r k), <- lookup_drop, Ed; done).
    pose proof (lookup_lt_Some _ _ _ Hx). rewrite (proj2 (N.ltb_lt _ _)) by (unfold len; lia).
    rewrite (leaf_value d Hok lk xs k x Ha Hx). cbn [mbind result_bind]. destruct x as [kx vx]. rewrite key_eqb_spec. clear Elk. case_bool_decide as E.
    + rewrite decode_loc by (eapply (leaf_len d lk xs (kx, vx) Ha), list_elem_of_lookup_2; exact Hx). cbn [tried map_err mbind result_bind].
      unfold matching. cbn [app]. by rewrite filter_cons_True.
    + rewrite <- (take_drop k xs), Ed, <- app_assoc in Hs. apply StronglySorted_app_1_r in Hs. cbn [app] in Hs. apply StronglySorted_inv in Hs as [_ Hs].
      apply Forall_cons in H2 as [Hx2 _]. apply not_below in Hx2. cbn [fst pr_key] in *.
      unfold matching. cbn [app]. rewrite filter_cons_False by done. fold (matching key (ys ++ items_of L)).
      rewrite (matching_larger key (kx, vx) _ Hs); [done|]. cbn. by destruct (key_cmp kx key).
Qed.

Lemma scan_leaf_ok d lk xs key : node_ok crc32 d -> abs_node (node_of d) (ALeaf lk xs) -> forall fuel k out,
  (length xs - k < fuel)%nat -> (k <= length xs)%nat -> exists n, (k + n <= length xs)%nat /\
    Forall (fun x => key_cmp x.1 key = Eq) (take n (drop k xs)) /\
    scan_leaf fuel d key (len xs) (N.of_nat k) out = Ok (out ++ (loc ∘ snd <$> take n (drop k xs)), (k + n <? length xs)%nat) /\
    (forall x, xs !! (k + n)%nat = Some x -> key_cmp x.1 key <> Eq).
Proof.
  intros Hok Ha. induction fuel as [|fuel IH]; intros k out Hf Hk; [lia|]. cbn [scan_leaf].
  destruct (N.ltb_spec (N.of_nat k) (len xs)) as [Hlt|Hge]; [unfold len in Hlt|unfold len in Hge].
  2:{ exists 0%nat. rewrite (proj2 (Nat.ltb_ge _ _)) by lia. rewrite app_nil_r. split_and!; [lia|constructor|done|].
      intros x Hx. apply lookup_lt_Some in Hx. lia. }
  destruct (lookup_lt_is_Some_2 xs k) as [x Hx]; [lia|]. rewrite (leaf_value d Hok lk xs k x Ha Hx). cbn [mbind result_bind].
  destruct x as [kx vx]. rewrite key_eqb_spec. case_bool_decide as E; cbn [negb].
  - rewrite decode_loc by (eapply (leaf_len d lk xs (kx, vx) Ha), list_elem_of_lookup_2; exact Hx). cbn [tried map_err mbind result_bind].
    replace (N.of_nat k + 1) with (N.of_nat (S k)) by lia.
    destruct (IH (S k) (out ++ [loc vx])) as (n & Hn & Hall & -> & Hnext); [lia|lia|]. exists (S n).
    rewrite (drop_S _ _ _ Hx). cbn [take fmap list_fmap]. rewrite <- app_assoc. replace (k + S n)%nat with (S k + n)%nat by lia.
    split_and!; [lia|by constructor|done|done].
  - exists 0%nat. rewrite Nat.add_0_r, (proj2 (Nat.ltb_lt _ _)) by lia. rewrite app_nil_r. split_and!; [lia|constructor|done|].
    intros x Hx'. rewrite Hx in Hx'. by injection Hx' as <-.
Qed.

Lemma scan_loop_ok key L : forall p fuel out,
  chain t.(nodes) p L -> L <> [] -> (length L <= fuel)%nat -> StronglySorted (fun x y => pt x ≺ pt y) (items_of L) ->
  scan_loop fuel ps key p out = Ok (out ++ matching key (items_of L)).
Proof.
  induction L as [|[q xs] L IH]; intros p fuel out Hc Hne Hf Hs; [done|]. destruct fuel as [|fuel]; [cbn in Hf; lia|]. cbn [scan_loop].
  destruct (chain_step _ _ _ _ Hc) as (d & lk & -> & Hok & Ha & Ed0 & Hc' & Elk). cbn [mbind result_bind]. rewrite Ed0.
  rewrite items_of_cons in Hs |- *. pose proof Hs as Hsx. apply StronglySorted_app_1_l in Hsx.
  destruct (leaf_lower_bound d lk xs (mkProbe key None) Hok Ha Hsx) as (k & -> & -> & Hk & H1 & H2). cbn [mbind result_bind].
  destruct (scan_leaf_ok d lk xs key Hok Ha (S (N.to_nat (len xs))) k out) as (n & Hn & Hall & -> & Hnext); [unfold len; lia|done|].
  cbn [mbind result_bind].
  assert (E : matching key (xs ++ items_of L) = (loc ∘ snd <$> take n (drop k xs)) ++ matching key (drop (k + n) xs ++ items_of L)).
  { rewrite <- (matching_all _ _ Hall), <- matching_app, app_assoc, <- drop_drop, take_drop.
    rewrite <- (take_drop k xs) at 1. by rewrite <- app_assoc, matching_app, (matching_below key (take k xs) H1). }
  rewrite E. clear E. destruct (Nat.ltb_spec (k + n) (length xs)) as [Hlt|Hge].
  - destruct (lookup_lt_is_Some_2 xs (k + n)) as [x Hx]; [lia|]. rewrite (drop_S _ _ _ Hx).
    rewrite <- (take_drop (k + n) xs), (drop_S _ _ _ Hx), <- app_assoc in Hs. apply StronglySorted_app_1_r in Hs. cbn [app] in Hs |- *.
    apply StronglySorted_inv in Hs as [_ Hs]. specialize (Hnext _ Hx).
    assert (Hgt : key_cmp x.1 key = Gt).
    { rewrite Forall_forall in H2. assert (Hb : key_cmp x.1 key <> Lt); [|by destruct (key_cmp x.1 key)]. apply not_below, H2.
      apply list_elem_of_lookup. exists n. by rewrite lookup_drop. }
    unfold matching at 1. rewrite filter_cons_False by done. fold (matching key (drop (S (k + n)) xs ++ items_of L)).
    by rewrite (matching_larger key x _ Hs Hgt), app_nil_r.
  - rewrite (drop_ge xs (k + n)) by lia. cbn [app]. rewrite Elk. case_bool_decide as EL; [subst L; by rewrite app_nil_r|].
    rewrite (IH lk fuel), <- app_assoc; [done|done|done|cbn in Hf; lia|]. by eapply StronglySorted_app_1_r.
Qed.

(** *** Ranges *)

Lemma select_app range xs ys : select range (xs ++ ys) = select range xs ++ select range ys.
Proof. unfold select. by rewrite filter_app, fmap_app. Qed.
Lemma select_none range xs :
  Forall (fun x => key_in_range (compared range x.1) range = false) xs -> select range xs = [].
Proof.
  intros H. unfold select. rewrite filter_none; [done|]. eapply Forall_impl; [exact H|]. cbn. intros x Hx. congruence.
Qed.

Lemma compared_take range key : compared range key = take (comparison_prefix_len range) key.
Proof.
  unfold compared, prefix_of. destruct (Nat.ltb_spec (comparison_prefix_len range) (length key)); [done|]. cbn. by rewrite take_ge.
Qed.

Lemma compared_mono range x y : pt x ≺ pt y -> key_cmp (compared range x.1) (compared range y.1) <> Gt.
Proof. intros H. rewrite !compared_take. apply list_cmp_take. by apply key_cmp_sorted. Qed.

Lemma key_ltb_spec a b : key_ltb a b = true <-> key_cmp a b = Lt.
Proof. unfold key_ltb. by destruct (key_cmp a b). Qed.
Lemma key_leb_spec a b : key_leb a b = true <-> key_cmp a b <> Gt.
Proof. unfold key_leb, key_ltb. rewrite (cmp_sym key_cmp a b). by destruct (key_cmp a b). Qed.

(** Past the end stays past the end, and out of the range. *)
Lemma beyond_mono range a b : key_cmp a b <> Gt -> beyond_end a range = true -> beyond_end b range = true.
Proof.
  intros H. destruct range as [e|lo [e|e|]|]; cbn; try done; rewrite ?key_ltb_spec, ?key_leb_spec; intros H1.
  - by eapply (cmp_lt_le key_cmp).
  - by eapply (cmp_lt_le key_cmp).
  - by eapply (cmp_trans key_cmp).
Qed.
Lemma beyond_outside range a : beyond_end a range = true -> key_in_range a range = false.
Proof.
  destruct range as [e|lo [e|e|]|]; cbn; try done; rewrite ?key_ltb_spec, ?key_leb_spec; intros H1.
  - apply (cmp_Gt key_cmp) in H1. unfold key_eqb. by rewrite H1.
  - unfold key_leb. rewrite (proj2 (key_ltb_spec _ _) H1). cbn. apply andb_false_r.
  - unfold key_ltb. rewrite (cmp_sym key_cmp e a). destruct (key_cmp e a); cbn; try done; apply andb_false_r.
Qed.
Lemma select_beyond range x xs :
  Forall (fun y => pt x ≺ pt y) xs -> beyond_end (compared range x.1) range = true -> select range xs = [].
Proof.
  intros H Hx. apply select_none. eapply Forall_impl; [exact H|]. cbn. intros y Hy. apply beyond_outside.
  eapply beyond_mono; [|exact Hx]. by apply compared_mono.
Qed.

(** Entries below the key a range starts at are not in it. *)
Lemma select_before range key xs :
  range_start_key range = Some key -> Forall (fun x => pt x ≺ (key, None)) xs -> select range xs = [].
Proof.
  intros Hk H. apply select_none. eapply Forall_impl; [exact H|]. cbn. intros x Hx. apply below_key in Hx.
  apply (list_cmp_take_lt value_cmp) in Hx. rewrite compared_take.
  destruct range as [e|[b|b|] hi|]; cbn in *; try done; injection Hk as ->.
  - unfold key_eqb, key_cmp. by rewrite Hx.
  - unfold key_leb, key_ltb, key_cmp. by rewrite Hx.
  - unfold key_ltb. assert (E : key_cmp key (take (length key) x.1) = Gt) by (by apply (cmp_Gt key_cmp)). by rewrite E.
Qed.

Lemma range_leaf_ok d lk xs range : node_ok crc32 d -> abs_node (node_of d) (ALeaf lk xs) ->
  StronglySorted (fun x y => pt x ≺ pt y) xs -> forall n k, (k + n = length xs)%nat ->
  exists done, range_leaf d range (N.of_nat <$> seq k n) = Ok (select range (drop k xs), done) /\
    (done = true -> exists x, x ∈ xs /\ beyond_end (compared range x.1) range = true).
Proof.
  intros Hok Ha Hs. induction n as [|n IH]; intros k Hk.
  { exists false. rewrite drop_ge by lia. done. }
  destruct (lookup_lt_is_Some_2 xs k) as [x Hx]; [lia|]. cbn [seq fmap list_fmap range_leaf].
  rewrite (leaf_value d Hok lk xs k x Ha Hx). cbn [mbind result_bind]. destruct x as [kx vx]. fold (compared range kx).
  pose proof (list_elem_of_lookup_2 _ _ _ Hx) as Hin. destruct (beyond_end (compared range kx) range) eqn:Eb.
  - exists true. split; [|intros _; by exists (kx, vx)]. do 2 f_equal. symmetry.
    rewrite <- (take_drop k xs), (drop_S _ _ _ Hx) in Hs. apply StronglySorted_app_1_r, StronglySorted_inv in Hs as [_ Hs].
    rewrite (drop_S _ _ _ Hx). unfold select. rewrite filter_cons_False; [exact (select_beyond range (kx, vx) _ Hs Eb)|].
    cbn. by rewrite (beyond_outside _ _ Eb).
  - destruct (IH (S k)) as (fin & -> & Hf); [lia|]. exists fin. split; [|done]. rewrite (drop_S _ _ _ Hx). unfold select.
    destruct (key_in_range (compared range kx) range) eqn:Er.
    + rewrite decode_loc by (by apply (leaf_len d lk xs (kx, vx) Ha)). cbn [tried map_err mbind result_bind]. by rewrite filter_cons_True.
    + cbn [mbind result_bind]. rewrite filter_cons_False; [done|]. cbn. congruence.
Qed.

Lemma visit_app {A} (visitor : A -> Key -> RowLocation -> DbResult A) acc es1 es2 :
  visit visitor acc (es1 ++ es2) = (acc ← visit visitor acc es1; visit visitor acc es2).
Proof.
  revert acc. induction es1 as [|[k v] es1 IH]; intros acc; [done|]. cbn. destruct (tried (visitor acc k v)); cbn; [apply IH|done].
Qed.

Lemma range_loop_ok {A} range cancel (visitor : A -> Key -> RowLocation -> DbResult A) L : forall p fuel turn acc,
  (forall n, cancel_check cancel n = Ok ()) ->
  chain t.(nodes) p L -> L <> [] -> (length L <= fuel)%nat -> StronglySorted (fun x y => pt x ≺ pt y) (items_of L) ->
  range_loop fuel ps range cancel visitor turn p acc = visit visitor acc (select range (items_of L)).
Proof.
  induction L as [|[q xs] L IH]; intros p fuel turn acc Hcan Hc Hne Hf Hs; [done|]. destruct fuel as [|fuel]; [cbn in Hf; lia|].
  cbn [range_loop]. rewrite Hcan. cbn [mbind result_bind].
  destruct (chain_step _ _ _ _ Hc) as (d & lk & -> & Hok & Ha & Ed0 & Hc' & Elk). cbn [mbind result_bind]. rewrite Ed0.
  rewrite items_of_cons in Hs |- *. pose proof Hs as Hsx. apply StronglySorted_app_1_l in Hsx.
  rewrite (node_count d Hok _ Ha). cbn [points]. unfold Page.range, len. rewrite length_fmap, Nat2N.id.
  destruct (range_leaf_ok d lk xs range Hok Ha Hsx (length xs) 0 eq_refl) as (fin & -> & Hfin). cbn [mbind result_bind]. rewrite drop_0.
  rewrite select_app, visit_app. destruct (visit visitor acc (select range xs)) as [acc'|]; [|done]. cbn [mbind result_bind].
  rewrite Elk. clear Elk. destruct fin; cbn [orb].
  - destruct Hfin as (x & Hx & Hb); [done|]. rewrite (select_beyond range x); [done| |done].
    apply Forall_forall. intros y Hy. by eapply (StronglySorted_app_1_elem_of (fun x y => pt x ≺ pt y)).
  - case_bool_decide as EL; [by subst L|]. apply IH; try done; [cbn in Hf; lia|]. by eapply StronglySorted_app_1_r.
Qed.

(** *** The lookups *)

Lemma suffix_sorted pre L : contents t = pre ++ items_of L -> StronglySorted (fun x y => pt x ≺ pt y) (items_of L).
Proof. intros E. pose proof contents_sorted as H. rewrite E in H. by eapply StronglySorted_app_1_r. Qed.

Lemma search_answers key : search ps key = Ok (head (matching key (contents t))).
Proof.
  unfold search. destruct (walk_probe (mkProbe key None)) as (q & L0 & L & -> & _ & E & Hc & Hne & Hf & Hpre). cbn [mbind result_bind].
  rewrite (search_loop_ok key L), E, matching_app, (matching_below key _ Hpre); try done; [lia|by eapply suffix_sorted].
Qed.

Lemma scan_key_answers key : scan_key ps key = Ok (matching key (contents t)).
Proof.
  unfold scan_key. destruct (walk_probe (mkProbe key None)) as (q & L0 & L & -> & _ & E & Hc & Hne & Hf & Hpre). cbn [mbind result_bind].
  rewrite (scan_loop_ok key L), E, matching_app, (matching_below key _ Hpre); try done; [lia|by eapply suffix_sorted].
Qed.

Lemma range_answers {A} range cancel (visitor : A -> Key -> RowLocation -> DbResult A) acc :
  (forall n, cancel_check cancel n = Ok ()) ->
  range_for_each_cancelable ps range cancel visitor acc = visit visitor acc (select range (contents t)).
Proof.
  intros Hcan. unfold range_for_each_cancelable, start_leaf. destruct (range_start_key range) as [key|] eqn:Ek.
  - destruct (walk_probe (mkProbe key None)) as (q & L0 & L & -> & _ & E & Hc & Hne & Hf & Hpre). cbn [mbind result_bind].
    rewrite (range_loop_ok range cancel visitor L), E, select_app, (select_before range key _ Ek Hpre); try done; [lia|by eapply suffix_sorted].
  - destruct walk_first as (q & L & Eq & _ & E & Hc & Hne & Hf). unfold first_leaf in Eq. rewrite Eq. cbn [mbind result_bind].
    rewrite (range_loop_ok range cancel visitor L), E; try done; [lia|by apply (suffix_sorted [])].
Qed.
End Tree.
End Read.
