(* ===== verification/BTreeInsert.v ===== *)
(** * Changing the B-tree

    Insertion, removal and reset on the pages of an index, against the abstract tree that
    the pages represent.  An operation that fails halfway, between two logged pages of a
    split, leaves pages that still represent a tree: with the entries before it or with
    the entry it was to insert. *)

From S2P Require Import Prelude Errors Mvcc CheckedBytes ByteArray Page IndexPage KeyOrder BTree BLink BTreeRead.
Local Open Scope N_scope.

(** ** Reasoning about runs *)

Section Runs.
Context {S E : Type}.

(** A run of [m] from [s] ends as [Q] says. *)
Definition wp {A} (m : SE S E A) (Q : S -> result E A -> Prop) (s : S) : Prop := Q (m s).1 (m s).2.

Lemma wp_mono {A} (m : SE S E A) (Q Q' : S -> result E A -> Prop) s :
  wp m Q s -> (forall s' r, Q s' r -> Q' s' r) -> wp m Q' s.
Proof. intros H1 H2. by apply H2. Qed.

Lemma wp_bind {A B} (m : SE S E A) (f : A -> SE S E B) (Q : S -> result E B -> Prop) s :
  wp m (fun s' r => match r with Ok a => wp (f a) Q s' | Err e => Q s' (Err e) end) s -> wp (m ≫= f) Q s.
Proof. unfold wp, mbind, se_bind. by destruct (m s) as [s' [a|e]]. Qed.

Lemma wp_step {A B} (m : SE S E A) (f : A -> SE S E B) (Q : S -> result E B -> Prop) s s' a :
  m s = (s', Ok a) -> wp (f a) Q s' -> wp (m ≫= f) Q s.
Proof. intros E0 H. unfold wp. by rewrite (se_bind_Ok _ _ _ _ _ E0). Qed.

Lemma wp_stop {A B} (m : SE S E A) (f : A -> SE S E B) (Q : S -> result E B -> Prop) s s' e :
  m s = (s', Err e) -> Q s' (Err e) -> wp (m ≫= f) Q s.
Proof. intros E0 H. unfold wp. by rewrite (se_bind_Err _ _ _ _ _ E0). Qed.

Lemma wp_lift {A B} (r : result E A) (f : A -> SE S E B) (Q : S -> result E B -> Prop) s a :
  r = Ok a -> wp (f a) Q s -> wp (lift r ≫= f) Q s.
Proof. intros -> H. by apply (wp_step _ _ _ _ s a). Qed.
End Runs.

Section Insert.
Context (crc32 : bytes -> N) (Hcrc : crc_fits crc32).
Context {V : Type} `{!KeyCodec V, !KeyCodecLaws V}.
Context {W : Type} `{!IndexEnv W, !IndexEnvLaws W}.
Abbreviation Key := (list V).
Abbreviation Item := (Key * bytes)%type.
Abbreviation Point := (Key * option bytes)%type.
Abbreviation Tree := (@Tree Point Item).
Abbreviation ANode := (@ANode Point Item).
Abbreviation State := (@Index W).
Local Notation "a ≺ b" := (ord_lt pt_cmp a b) (at level 70).
Local Notation "a ≼ b" := (ord_le pt_cmp a b) (at level 70).

(** ** The pages and the environment *)

Definition failed (e : Halt) : Prop := exists x, e = Failed x.

Lemma wp_reads {A B} (g : gmap N bytes -> result Halt A) (f : A -> SE State Halt B) (Q : State -> result Halt B -> Prop) s a :
  g s.(ipages) = Ok a -> wp (f a) Q s -> wp (reads g ≫= f) Q s.
Proof. intros E H. apply (wp_step _ _ _ _ s a); [|done]. unfold reads. by rewrite E. Qed.

Lemma alloc_page_runs (s : State) :
  wp alloc_page (fun s' r => s'.(ipages) = s.(ipages) /\
    match r with
    | Ok p => p ∉ allocated s.(ienv) /\ p <= U32_MAX /\ allocated s'.(ienv) = {[p]} ∪ allocated s.(ienv)
    | Err e => failed e /\ allocated s'.(ienv) = allocated s.(ienv)
    end) s.
Proof.
  unfold wp, alloc_page, in_env. destruct (new_page (ienv s)) as [w [p|e]] eqn:En; cbn.
  - split; [done|]. apply new_page_fresh in En as [Hf Ha]. split_and!; [done| |done]. apply (allocated_u32 w). rewrite Ha. by apply elem_of_union_l, elem_of_singleton.
  - split; [done|]. split; [by eexists|]. by eapply new_page_fails.
Qed.

Lemma abandon_runs p (s : State) :
  wp (abandon p) (fun s' r => s'.(ipages) = s.(ipages) /\ allocated s.(ienv) ∖ {[p]} ⊆ allocated s'.(ienv) /\
    forall e, r = Err e -> failed e) s.
Proof.
  unfold wp, abandon, in_env. destruct (abandon_unpublished_new_page p (ienv s)) as [w r] eqn:En. cbn.
  apply abandon_frees in En. split_and!; [done|done|]. intros e. destruct r; [done|]. intros [= <-]. by eexists.
Qed.

(** A page image as it was made, or with the position of its log record. *)
Definition stamped (image d : bytes) : Prop := d = image \/ exists l, d = set_page_lsn crc32 image l.

Lemma log_full_page_runs mode p image (s : State) :
  wp (log_full_page crc32 mode p image) (fun s' r => allocated s'.(ienv) = allocated s.(ienv) /\
    match r with
    | Ok _ => exists d, stamped image d /\ s'.(ipages) = <[p := d]> s.(ipages)
    | Err e => failed e /\ s'.(ipages) = s.(ipages)
    end) s.
Proof.
  unfold wp, log_full_page. destruct mode as [txn|]; cbn.
  - unfold mbind, se_bind, in_env. destruct (append_full_page txn p image (ienv s)) as [w [l|e]] eqn:Ea; cbn; apply append_allocated in Ea.
    + split; [done|]. eexists. split; [right; by eexists|done].
    + split; [done|]. split; [by eexists|done].
  - split; [done|]. eexists. split; [by left|done].
Qed.

Lemma stamped_node image d : node_ok crc32 image -> stamped image d -> node_ok crc32 d /\ node_of d = node_of image.
Proof.
  intros Hok [->|(l & ->)]; [done|]. destruct (set_page_lsn_node crc32 Hcrc image l Hok) as (H1 & H2 & _). done.
Qed.

(** A failure before a new page is written leaves the pages alone. *)
Lemma on_error_abandon {A} (m : SE State Halt A) p (s : State) (Q : State -> result Halt A -> Prop) :
  wp m (fun s' r => match r with
    | Ok a => Q s' (Ok a)
    | Err e => failed e /\ s'.(ipages) = s.(ipages) /\ {[p]} ∪ allocated s.(ienv) ⊆ {[p]} ∪ allocated s'.(ienv)
    end) s ->
  (forall s' e, failed e -> s'.(ipages) = s.(ipages) -> allocated s.(ienv) ∖ {[p]} ⊆ allocated s'.(ienv) -> Q s' (Err e)) ->
  wp (on_error m (abandon p)) Q s.
Proof.
  unfold wp, on_error. destruct (m s) as [s1 [a|e]]; cbn; [done|]. intros (He & E1 & Ha) HQ.
  pose proof (abandon_runs p s1) as H. unfold wp in H. destruct (abandon p s1) as [s2 [[]|e2]]; cbn in H |- *;
    destruct H as (E2 & H2 & H3); apply HQ; try done; try congruence; set_solver.
Qed.

(** Every page is one the pool has given out. *)
Definition held (s : State) : Prop := dom s.(ipages) ⊆ allocated s.(ienv).

Lemma log_new_full_page_runs mode p image (s : State) :
  wp (log_new_full_page crc32 mode p image) (fun s' r =>
    match r with
    | Ok _ => allocated s'.(ienv) = allocated s.(ienv) /\ exists d, stamped image d /\ s'.(ipages) = <[p := d]> s.(ipages)
    | Err e => failed e /\ s'.(ipages) = s.(ipages) /\ allocated s.(ienv) ∖ {[p]} ⊆ allocated s'.(ienv)
    end) s.
Proof.
  unfold log_new_full_page. apply on_error_abandon; [|done]. eapply wp_mono; [apply log_full_page_runs|].
  intros s' [[]|e]; cbn; [done|]. intros (Ea & He & Ep). split_and!; [done|done|]. by rewrite Ea.
Qed.

(** ** Building nodes *)

Definition entries_ok (es : list (bytes * bytes)) : Prop := Forall (fun e => bytes_ok e.1 /\ bytes_ok e.2) es.

Lemma append_from_runs es : forall d idx,
  node_ok crc32 d -> idx = len (n_entries (node_of d)) -> entries_ok es ->
  match append_from crc32 idx es d with
  | (d', Ok _) => node_ok crc32 d' /\ n_leaf (node_of d') = n_leaf (node_of d) /\ n_link (node_of d') = n_link (node_of d) /\
      n_entries (node_of d') = n_entries (node_of d) ++ es
  | (_, Err f) => exists e, f = Raised e
  end.
Proof.
  induction es as [|[k v] es IH]; intros d idx Hok Hi Hes; cbn [append_from].
  { cbn. split_and!; try done. by rewrite app_nil_r. }
  apply Forall_cons in Hes as [[Hk Hv] Hes]. pose proof Hok as (_ & f & R).
  pose proof (insert_entry_ok crc32 Hcrc _ _ _ _ _ idx k v R Hk Hv) as Hins. unfold node_insert in Hins.
  rewrite (proj2 (N.ltb_ge _ _)) in Hins by lia. unfold mbind, se_bind.
  destruct (node_free (node_of d) <? entry_stored_len (len k) (len v)).
  - destruct Hins as (e & ->). by exists e.
  - destruct Hins as (d' & -> & Hok' & En & _). specialize (IH d' (idx + 1) Hok').
    assert (Ee : n_entries (node_of d') = n_entries (node_of d) ++ [(k, v)]).
    { rewrite En. cbn [n_entries]. unfold insert_at. subst idx. unfold len. rewrite Nat2N.id, take_ge, drop_ge by lia. done. }
    rewrite Ee in IH. destruct (append_from crc32 (idx + 1) es d') as [d2 [[]|f2]].
    + destruct IH as (H1 & H2 & H3 & H4); [unfold len in *; rewrite length_app; cbn [length]; lia|done|].
      rewrite H2, H3, H4, En. cbn [n_leaf n_link]. rewrite <- app_assoc. by split_and!.
    + apply IH; [unfold len in *; rewrite length_app; cbn [length]; lia|done].
Qed.

(** A new node, with a link or without, then its entries. *)
Lemma edit_append p leaf lk es d (s : State) : p <= U32_MAX -> lk <= U32_MAX -> entries_ok es ->
  d = init crc32 p leaf /\ lk = 0 \/ d = set_link crc32 (init crc32 p leaf) lk ->
  wp (edit (append_entries crc32 es) d) (fun s' r => s' = s /\
    match r with
    | Ok d' => node_ok crc32 d' /\ n_leaf (node_of d') = leaf /\ n_link (node_of d') = lk /\ n_entries (node_of d') = es
    | Err e => failed e
    end) s.
Proof.
  intros Hp Hlk Hes Hd. destruct (init_node crc32 Hcrc p leaf Hp) as (Hi & Ei & _).
  destruct (set_link_node crc32 Hcrc _ lk Hi Hlk) as (Hl & El & _). rewrite Ei in El. cbn in El.
  assert (H : node_ok crc32 d /\ n_entries (node_of d) = [] /\ n_leaf (node_of d) = leaf /\ n_link (node_of d) = lk).
  { destruct Hd as [[-> ->]| ->]; [rewrite Ei|rewrite El]; by split_and!. }
  destruct H as (H1 & H2 & H3 & H4). unfold wp, edit, append_entries. pose proof (append_from_runs es d 0 H1) as Ha.
  rewrite H2 in Ha. specialize (Ha eq_refl Hes). destruct (append_from crc32 0 es d) as [d' [[]|f]]; cbn [fst snd].
  - destruct Ha as (A1 & A2 & A3 & A4). rewrite A2, A3, A4. by split_and!.
  - destruct Ha as [e ->]. split; [done|]. by eexists.
Qed.

(** ** Splitting *)

Lemma entries_from_ok d k key value : node_ok crc32 d -> let es := n_entries (node_of d) in forall n i,
  (i + n = length es)%nat ->
  entries_from d (N.of_nat k) key value (N.of_nat <$> seq i n) =
    Ok (if decide (i <= k < length es)%nat then take (k - i) (drop i es) ++ (key, value) :: drop k es else drop i es).
Proof.
  intros Hok es. induction n as [|n IH]; intros i Hi.
  { rewrite decide_False by lia. rewrite drop_ge by lia. done. }
  cbn [seq fmap list_fmap entries_from]. destruct (lookup_lt_is_Some_2 es i) as [[kb vb] Hx]; [lia|].
  destruct (node_entry crc32 d Hok (N.of_nat i) (kb, vb)) as [Ek Ev]; [by rewrite Nat2N.id|]. rewrite Ek, Ev. cbn [mbind result_bind fst snd].
  rewrite (IH (S i)) by lia. cbn [mbind result_bind]. f_equal. rewrite (drop_S _ _ _ Hx). destruct (N.eqb_spec (N.of_nat i) (N.of_nat k)) as [E|E].
  - assert (i = k) as -> by lia. rewrite decide_False, decide_True by lia. rewrite Nat.sub_diag. cbn [app take]. by rewrite (drop_S _ _ _ Hx).
  - destruct (decide (i <= k < length es)%nat) as [Hd|Hd].
    + rewrite decide_True by lia. replace (k - i)%nat with (S (k - S i))%nat by lia. done.
    + rewrite decide_False by lia. done.
Qed.

Lemma entries_with_insertion_ok d k key value : node_ok crc32 d -> let es := n_entries (node_of d) in (k <= length es)%nat ->
  entries_with_insertion d (N.of_nat k) key value = Ok (take k es ++ (key, value) :: drop k es).
Proof.
  intros Hok es Hk. unfold entries_with_insertion. pose proof Hok as (_ & f & R). rewrite (r_count _ _ _ _ _ R). fold es. unfold len, Page.range.
  rewrite Nat2N.id. rewrite (entries_from_ok d k key value Hok (length es) 0) by done. cbn [mbind result_bind]. f_equal. fold es.
  rewrite drop_0, Nat.sub_0_r. destruct (decide (0 <= k < length es)%nat) as [H|H].
  - rewrite (proj2 (N.leb_gt _ _)) by lia. by rewrite app_nil_r.
  - rewrite (proj2 (N.leb_le _ _)) by lia. rewrite take_ge, drop_ge by lia. done.
Qed.

Lemma split_point_ok es :
  match split_point es with
  | Ok mid => (1 <= mid < length es)%nat
  | Err f => f = Panicked /\ (length es < 2)%nat
  end.
Proof. unfold split_point. destruct (Nat.ltb_spec (length es) 2); [done|lia]. Qed.

Lemma internal_split_bound es preferred mid : internal_split_point crc32 es preferred = Some mid -> (mid < length es)%nat.
Proof.
  unfold internal_split_point. destruct es as [|e es]; [done|]. set (l := e :: es). assert (Hl : (0 < length l)%nat) by (cbn; lia). clearbody l.
  set (pref := Nat.min preferred (length l - 1)). assert (Hp : (pref < length l)%nat) by lia. clearbody pref. clear preferred.
  generalize (seq 0 (length l)). intros ds. induction ds as [|dist ds IH]; cbn [internal_split_from]; [done|].
  destruct ((dist <=? pref)%nat && _); [intros [= <-]; lia|]. destruct (negb (dist =? 0)%nat && (pref + dist <? length l)%nat && _) eqn:Eb; [|done].
  intros [= <-]. apply andb_true_iff in Eb as [Eb _]. apply andb_true_iff in Eb as [_ Eb]. by apply Nat.ltb_lt in Eb.
Qed.

(** ** Pages and trees *)

Definition pages_ok (s : State) (t : Tree) : Prop := is_tree crc32 s.(ipages) t /\ held s.

Lemma represents_put ps t p d a G I :
  represents crc32 ps t -> p <> 0 -> node_ok crc32 d -> abs_node (node_of d) a ->
  represents crc32 (<[p := d]> ps) (mkTree (<[p := a]> t.(nodes)) G I t.(troot)).
Proof.
  intros [H1 (dm & H2 & H3)] Hp Hok Ha. split; cbn [nodes troot].
  - intros q b Hq. apply lookup_insert_Some in Hq as [[<- <-]|[Hne Hq]].
    + split; [done|]. exists d. by rewrite lookup_insert_eq.
    + destruct (H1 _ _ Hq) as (Hq0 & dq & ? & ? & ?). split; [done|]. exists dq. by rewrite lookup_insert_ne.
  - exists dm. by rewrite lookup_insert_ne.
Qed.

(** A page that is no node of the tree. *)
Lemma represents_other ps t p d : represents crc32 ps t -> p <> 0 -> t.(nodes) !! p = None -> represents crc32 (<[p := d]> ps) t.
Proof.
  intros [H1 (dm & H2 & H3)] Hp Hn. split; [|exists dm; by rewrite lookup_insert_ne].
  intros q b Hq. destruct (H1 _ _ Hq) as (Hq0 & dq & ? & ? & ?). split; [done|]. exists dq.
  rewrite lookup_insert_ne; [done|]. congruence.
Qed.

Lemma represents_same ps t t' : represents crc32 ps t -> t'.(nodes) = t.(nodes) -> t'.(troot) = t.(troot) -> represents crc32 ps t'.
Proof. unfold represents. by intros ? -> ->. Qed.

Lemma fresh_node s t p : pages_ok s t -> p ∉ allocated s.(ienv) -> t.(nodes) !! p = None /\ p <> 0 /\ t.(infos) !! p = None.
Proof.
  intros [[Ht Hr] Hh] Hp. assert (Hd : p ∉ dom s.(ipages)) by set_solver.
  assert (Hn : nodes t !! p = None).
  { apply not_elem_of_dom. intros H. apply Hd. by eapply (nodes_pages crc32 _ t Hr). }
  split_and!; [done| |].
  - intros ->. destruct Hr as [_ (dm & H2 & _)]. apply Hd. apply elem_of_dom. by eexists.
  - destruct (infos t !! p) eqn:E; [|done]. destruct (live_info pt_cmp pt t p _ Ht E). congruence.
Qed.

Lemma held_put (s s' : State) p d :
  held s -> s'.(ipages) = <[p := d]> s.(ipages) -> {[p]} ∪ allocated s.(ienv) ⊆ allocated s'.(ienv) -> held s'.
Proof using. unfold held. intros H -> Ha. rewrite dom_insert. clear -H Ha. set_solver. Qed.

Lemma held_same (s s' : State) : held s -> s'.(ipages) = s.(ipages) -> allocated s.(ienv) ⊆ allocated s'.(ienv) -> held s'.
Proof using. unfold held. intros H -> Ha. clear -H Ha. set_solver. Qed.

Lemma page_held (s : State) t p a : pages_ok s t -> t.(nodes) !! p = Some a -> p ∈ allocated s.(ienv) /\ p <> 0 /\ p <= U32_MAX.
Proof.
  intros [[Ht Hr] Hh] Hp. assert (Ha : p ∈ allocated s.(ienv)) by (apply Hh, (nodes_pages crc32 _ t Hr), elem_of_dom; by eexists).
  split_and!; [done|by destruct Hr as [H1 _]; destruct (H1 _ _ Hp)|by apply (allocated_u32 (ienv s))].
Qed.

(** ** An entry goes into a leaf *)

(** Bytes of a separator: a key, then the value that breaks ties. *)
Definition sep_code (sep : bytes) (s : Point) : Prop :=
  bytes_ok sep /\ exists kb tie, sep = kb ++ tie /\ prefix_code kb s.1 /\ s.2 = Some tie.


Lemma insert_at_nat {A} k (x : A) l : insert_at (N.of_nat k) x l = take k l ++ x :: drop k l.
Proof. unfold insert_at. by rewrite Nat2N.id. Qed.

(** A node takes an entry, or refuses it. *)
Lemma edit_insert d k key value (s : State) :
  node_ok crc32 d -> bytes_ok key -> bytes_ok value -> (k <= length (n_entries (node_of d)))%nat ->
  wp (edit (insert_entry crc32 (N.of_nat k) key value) d) (fun s' r => s' = s /\
    match r with
    | Ok d' => node_ok crc32 d' /\ n_leaf (node_of d') = n_leaf (node_of d) /\ n_link (node_of d') = n_link (node_of d) /\
        n_entries (node_of d') = take k (n_entries (node_of d)) ++ (key, value) :: drop k (n_entries (node_of d))
    | Err e => failed e
    end) s.
Proof.
  intros Hok Hk Hv Hp. pose proof Hok as (_ & f & R).
  pose proof (insert_entry_ok crc32 Hcrc _ _ _ _ _ (N.of_nat k) key value R Hk Hv) as Hins. unfold node_insert in Hins.
  rewrite (proj2 (N.ltb_ge _ _)) in Hins by (unfold len; lia). unfold wp, edit.
  destruct (node_free (node_of d) <? entry_stored_len (len key) (len value)).
  - destruct Hins as [e ->]. split; [done|]. by eexists.
  - destruct Hins as (d' & -> & Hok' & En & _). cbn [fst snd]. rewrite En. cbn [n_leaf n_link n_entries]. by rewrite insert_at_nat.
Qed.

Section Place.
Context (mode : WriteMode) (s : State) (t : Tree) (Hpg : pages_ok s t).

Lemma put_leaf (s' : State) G1 f l1 q xs l2 G2 lk xs' image :
  t.(groups) = G1 ++ (f, l1 ++ (q, xs) :: l2) :: G2 -> t.(nodes) !! q = Some (ALeaf lk xs) ->
  let G' := G1 ++ (f, l1 ++ (q, xs') :: l2) :: G2 in
  Forall (fun x => inside pt_cmp f (next_fence G2) (pt x)) xs' -> StronglySorted (ord_lt pt_cmp) (pt <$> items G') ->
  node_ok crc32 image -> abs_node (node_of image) (ALeaf lk xs') -> held s' -> (exists d, stamped image d /\ s'.(ipages) = <[q := d]> s.(ipages)) ->
  pages_ok s' (mkTree (<[q := ALeaf lk xs']> t.(nodes)) G' t.(infos) t.(troot)).
Proof.
  intros E Hq G' Hi Hs Hok Ha Hh (d & Hst & Ep). destruct (stamped_node _ _ Hok Hst) as [Hok' En].
  destruct Hpg as [[Ht Hr] _]. split; [|done]. split; [by eapply (step_leaf pt_cmp pt t)|]. rewrite Ep.
  apply represents_put; [done|by destruct Hr as [H1 _]; destruct (H1 _ _ Hq)|done|by rewrite En].
Qed.

Definition ints_kept (t' : Tree) : Prop :=
  (forall p lk ss, t.(nodes) !! p = Some (AInt lk ss) -> t'.(nodes) !! p = Some (AInt lk ss)) /\ dom t.(nodes) ⊆ dom t'.(nodes).

Section Leaf.
Context (G1 : list (option Point * list (N * list Item))) (f : option Point) (l1 : list (N * list Item)) (q : N) (xs : list Item).
Context (l2 : list (N * list Item)) (G2 : list (option Point * list (N * list Item))) (lk : N) (xs' : list Item).
Context (E : t.(groups) = G1 ++ (f, l1 ++ (q, xs) :: l2) :: G2) (Hq : t.(nodes) !! q = Some (ALeaf lk xs)).
Let G' := G1 ++ (f, l1 ++ (q, xs') :: l2) :: G2.
Context (Hi : Forall (fun x => inside pt_cmp f (next_fence G2) (pt x)) xs') (Hs : StronglySorted (ord_lt pt_cmp) (pt <$> items G')).

(** The leaf has the entries, or has split into two that have them; or nothing has
    happened. *)
Definition leaf_placed (s' : State) (r : result Halt InsertOutcome) : Prop :=
  exists t', pages_ok s' t' /\ t'.(infos) = t.(infos) /\ t'.(troot) = t.(troot) /\ ints_kept t' /\
    match r with
    | Ok Inserted => contents t' = items G'
    | Ok (Split sep R) => exists z xs1 xs2, xs' = xs1 ++ z :: xs2 /\ xs1 <> [] /\ sep_code sep (pt z) /\ R <= U32_MAX /\
        t.(nodes) !! R = None /\ t'.(groups) = G1 ++ (f, l1 ++ (q, xs1) :: (R, z :: xs2) :: l2) :: G2
    | Err e => (failed e \/ e = Panics /\ (length xs' < 2)%nat) /\ contents t' = contents t
    end.

Lemma leaf_not_placed (s' : State) e :
  failed e \/ e = Panics /\ (length xs' < 2)%nat -> represents crc32 s'.(ipages) t -> held s' -> leaf_placed s' (Err e).
Proof. intros He Hr Hh. destruct Hpg as [[Ht _] _]. exists t. by split_and!. Qed.

Lemma split_leaf_runs d es mid :
  node_ok crc32 d -> link d = lk -> Forall2 leaf_entry es xs' -> entries_ok es -> (1 <= mid < length es)%nat ->
  wp (split_leaf crc32 mode q d es mid) leaf_placed s.
Proof.
  intros Hok Hlk Hes Heb Hm. destruct Hpg as [[Ht Hr] Hh]. destruct (page_held s t q _ Hpg Hq) as (Hqa & Hq0 & Hq32).
  unfold split_leaf. rewrite Hlk. apply wp_bind. eapply wp_mono; [apply alloc_page_runs|]. intros s1 [R|e] (Ep1 & H1).
  2:{ destruct H1 as [He Ea]. apply leaf_not_placed; [by left|by rewrite Ep1|]. apply (held_same s); [done|done|by rewrite Ea]. }
  destruct H1 as (HR & HR32 & Ea1). destruct (fresh_node s t R Hpg HR) as (HRn & HR0 & _).
  assert (Hh1 : held s1) by (apply (held_same s); [done|done|set_solver]).
  assert (HlkU : lk <= U32_MAX) by (rewrite <- Hlk; by apply (node_link_bound crc32 d)).
  assert (Hfail : forall s' e, failed e -> s'.(ipages) = s1.(ipages) -> allocated s1.(ienv) ∖ {[R]} ⊆ allocated s'.(ienv) -> leaf_placed s' (Err e)).
  { intros s' e He Ep Ea. apply leaf_not_placed; [by left|by rewrite Ep, Ep1|]. apply (held_same s); [done|by rewrite Ep|]. set_solver. }
  apply wp_bind, on_error_abandon; [|done].
  eapply wp_mono; [apply (edit_append R true 0 (drop mid es)); [done|unfold U32_MAX; lia|by apply Forall_drop|by left]|].
  intros s1' [ri|er] (-> & HB); [|by split_and!].
  destruct HB as (Hri & Eleaf & _ & Ees). destruct (set_link_node crc32 Hcrc ri lk Hri HlkU) as (Hri' & Eri & _).
  apply wp_bind. eapply wp_mono; [apply log_new_full_page_runs|]. intros s2 [[]|e]; [|intros (He & Ep2 & Ea2); by apply Hfail].
  intros (Ea2 & d2 & Hd2 & Ep2). destruct (stamped_node _ _ Hri' Hd2) as [Hok2 En2].
  assert (Hr2 : represents crc32 s2.(ipages) t) by (rewrite Ep2, Ep1; by apply represents_other).
  assert (Hh2 : held s2) by (apply (held_put s1 s2 R d2); [done|done|set_solver]).
  apply wp_bind. eapply wp_mono; [apply (edit_append q true 0 (take mid es)); [done|unfold U32_MAX; lia|by apply Forall_take|by left]|].
  intros s2' [li|er] (-> & HB); [|apply leaf_not_placed; [by left|done|done]].
  destruct HB as (Hli & Eleaf' & _ & Ees'). destruct (set_link_node crc32 Hcrc li R Hli HR32) as (Hli' & Eli' & _).
  apply wp_bind. eapply wp_mono; [apply log_full_page_runs|].
  intros s3 [[]|e] (Ea3 & H3).
  2:{ destruct H3 as [He Ep3]. apply leaf_not_placed; [by left|by rewrite Ep3|]. apply (held_same s2); [done|done|by rewrite Ea3]. }
  destruct H3 as (d3 & Hd3 & Ep3). destruct (stamped_node _ _ Hli' Hd3) as [Hok3 En3].
  destruct (lookup_lt_is_Some_2 es mid) as [[kz vz] Hz]; [lia|]. destruct (Forall2_lookup_l _ _ _ _ _ Hes Hz) as (z & Hz' & Hkz & Evz & Hlz).
  cbn [fst snd] in *. rewrite Hz. cbn [ok_or]. eapply wp_lift; [done|]. unfold wp, mret, se_ret. cbn [fst snd].
  exists (mkTree (<[q := ALeaf R (take mid xs')]> (<[R := ALeaf lk (drop mid xs')]> t.(nodes)))
    (G1 ++ (f, l1 ++ (q, take mid xs') :: (R, drop mid xs') :: l2) :: G2) t.(infos) t.(troot)).
  assert (Hqr : q <> R) by congruence. split_and!; try done.
  - split; [split|].
    + eapply (step_split_leaf pt_cmp pt t); [done|done|done|done|done|by rewrite take_drop|].
      unfold G' in Hs. rewrite !items_app, !items_cons, !items_of_app, !items_of_cons in Hs |- *.
      by rewrite (items_of_cons R), (app_assoc (take mid xs')), take_drop.
    + rewrite Ep3, Ep2, Ep1. eapply (represents_put _ (mkTree _ _ _ _)); [|done|done|].
      * eapply (represents_put _ t _ _ _ t.(groups) t.(infos)); [done|done|done|]. rewrite En2, Eri. split_and!; [done|done|].
        cbn [n_entries]. rewrite Ees. by apply Forall2_drop.
      * rewrite En3, Eli'. split_and!; [done|done|]. cbn [n_entries]. rewrite Ees'. by apply Forall2_take.
    + apply (held_put s2 s3 q d3); [done|done|]. rewrite Ea3, Ea2. set_solver.
  - split; [|cbn; rewrite !dom_insert; set_solver]. intros p lk' ss Hp. cbn. rewrite !lookup_insert_ne; [done|..]; intros <-; congruence.
  - exists z, (take mid xs'), (drop (S mid) xs'). rewrite (drop_S _ _ _ Hz'). cbn [groups]. split_and!; try done.
    + rewrite <- (drop_S _ _ _ Hz'). by rewrite take_drop.
    + intros E0. apply (f_equal length) in E0. rewrite length_take in E0. apply lookup_lt_Some in Hz'. cbn in E0. lia.
    + unfold leaf_separator. cbn [fst snd]. unfold entries_ok in Heb. rewrite Forall_forall in Heb.
      destruct (Heb (kz, vz)) as [B1 B2]; [by eapply list_elem_of_lookup_2|]. split; [by apply bytes_ok_app|].
      exists kz, vz. split_and!; [done|done|]. unfold pt. cbn. by rewrite Evz.
Qed.

Lemma place_leaf_runs d k kb x :
  node_ok crc32 d -> abs_node (node_of d) (ALeaf lk xs) -> (k <= length xs)%nat -> xs' = take k xs ++ x :: drop k xs ->
  bytes_ok kb -> bytes_ok x.2 -> leaf_entry (kb, x.2) x ->
  wp (place crc32 mode q d (N.of_nat k) kb x.2 true) leaf_placed s.
Proof.
  intros Hok Ha Hk Exs Hb1 Hb2 Hx. destruct Hpg as [[Ht Hr] Hh]. destruct (page_held s t q _ Hpg Hq) as (Hqa & _ & _).
  pose proof Hok as (_ & fs & R). unfold place. rewrite (rep_has_space _ _ _ _ _ _ _ R). destruct Ha as (Hl & Hlk & Hes).
  pose proof (Forall2_length _ _ _ Hes) as Hlen.
  assert (Hes' : Forall2 leaf_entry (take k (n_entries (node_of d)) ++ (kb, x.2) :: drop k (n_entries (node_of d))) xs').
  { rewrite Exs. apply Forall2_app; [by apply Forall2_take|]. constructor; [done|by apply Forall2_drop]. }
  eapply wp_lift; [done|]. destruct (entry_stored_len (len kb) (len x.2) <=? node_free (node_of d)).
  - apply wp_bind. eapply wp_mono; [apply (edit_insert d k kb x.2); [done|done|done|lia]|].
    intros s0 [d'|e0] (-> & HB); [|by apply leaf_not_placed; [left|..]]. destruct HB as (Hok' & El & Elk & Ees). apply wp_bind. eapply wp_mono; [apply log_full_page_runs|]. intros s' [[]|e] (Ea & H1).
    + unfold wp, mret, se_ret. cbn [fst snd]. eexists. split.
      * eapply (put_leaf s' G1 f l1 q xs l2 G2 lk xs' d'); try done.
        -- split_and!; [by rewrite El|by rewrite Elk|by rewrite Ees].
        -- destruct H1 as (d1 & _ & Ep). eapply held_put; [done|exact Ep|]. rewrite Ea. set_solver.
      * split_and!; [done|done| |done]. split; [|cbn; rewrite dom_insert; set_solver]. intros p lk' ss Hp. cbn. rewrite lookup_insert_ne; [done|]. intros <-. congruence.
    + destruct H1 as [He Ep]. apply leaf_not_placed; [by left|by rewrite Ep|]. apply (held_same s); [done|done|by rewrite Ea].
  - unfold split_node. rewrite (entries_with_insertion_ok d k kb x.2 Hok) by lia. eapply wp_lift; [done|].
    set (es := take k (n_entries (node_of d)) ++ _) in *. pose proof (split_point_ok es) as Hsplit. pose proof (Forall2_length _ _ _ Hes') as Hlen'.
    destruct (split_point es) as [mid|fl]; cbn [read map_err].
    + eapply wp_lift; [done|]. eapply split_leaf_runs; try done. unfold es, entries_ok. pose proof (node_entries_bytes crc32 d Hok) as Hb.
      apply Forall_app. split; [by apply Forall_take|]. constructor; [done|by apply Forall_drop].
    + destruct Hsplit as [-> Hs2]. unfold wp. cbn. apply leaf_not_placed; [right; split; [done|lia]|done|done].
Qed.
End Leaf.
End Place.

(** ** Finding the leaf *)

(** ** A separator goes into an internal node *)

Lemma encode_child_ok c : c <= U32_MAX -> decode_child (encode_child c) = Ok c /\ bytes_ok (encode_child c).
Proof.
  intros Hc. split; [|apply to_le_bytes_ok]. unfold decode_child, encode_child. rewrite len_le_bytes.
  change (N.of_nat 4 =? CHILD_LEN) with true. cbn [negb]. f_equal. apply from_to_le_bytes. unfold U32_MAX in Hc. cbn. lia.
Qed.

Lemma sep_code_entry sep sp R : sep_code sep sp -> R <= U32_MAX -> sep_entry (sep, encode_child R) (sp, R).
Proof. intros (_ & kb & tie & E & Hp & Ht) HR. by exists kb, tie. Qed.

Section PlaceInt.
Context (mode : WriteMode) (s : State) (t : Tree) (Hpg : pages_ok s t).
Context (N0 X R : N) (iN iX : @Info Point) (lk : N) (ss1 ss2 : list (Point * N)) (sp : Point).
Context (HN : t.(infos) !! N0 = Some iN) (HNn : t.(nodes) !! N0 = Some (AInt lk (ss1 ++ ss2))) (HNR : N0 <> R) (HR32 : R <= U32_MAX).
Context (HX : t.(infos) !! X = Some iX) (HXp : iX.(i_parent) = Some N0) (Hpend : Pending pt_cmp pt t X sp R) (Hcut : cut pt_cmp sp ss1 ss2).

Definition frame (t' : Tree) : Prop :=
  t'.(troot) = t.(troot) /\ contents t' = contents t /\ dom t.(nodes) ⊆ dom t'.(nodes) /\
  (forall q i, t.(infos) !! q = Some i -> q <> X -> q <> R -> i.(i_parent) <> Some N0 -> t'.(infos) !! q = Some i) /\
  (forall q lk ss, t.(nodes) !! q = Some (AInt lk ss) -> q <> N0 -> t'.(nodes) !! q = Some (AInt lk ss)).

(** The node knows the separator, or has split and a separator goes further up. *)
Definition int_placed (s' : State) (r : result Halt InsertOutcome) : Prop :=
  exists t', pages_ok s' t' /\ frame t' /\
    match r with
    | Ok Inserted => True
    | Ok (Split sep' R') => exists sp', sep_code sep' sp' /\ R' <= U32_MAX /\ t.(nodes) !! R' = None /\ Pending pt_cmp pt t' N0 sp' R'
    | Err e => failed e \/ e = Panics /\ ss1 ++ ss2 = []
    end.

Lemma frame_refl : frame t.
Proof. by split_and!. Qed.

Lemma int_not_placed (s' : State) e :
  failed e \/ e = Panics /\ ss1 ++ ss2 = [] -> represents crc32 s'.(ipages) t -> held s' -> int_placed s' (Err e).
Proof. intros He Hr Hh. destruct Hpg as [[Ht _] _]. exists t. split_and!; [done|apply frame_refl|done]. Qed.

Lemma pending_rank : X <> N0.
Proof. destruct Hpg as [[Ht _] _]. intros ->. destruct (t_rank _ _ _ Ht) as [rk Hrk]. specialize (Hrk _ _ _ HX HXp). lia. Qed.

Lemma put_int (s' : State) image :
  node_ok crc32 image -> abs_node (node_of image) (AInt lk (ss1 ++ (sp, R) :: ss2)) -> held s' ->
  (exists d, stamped image d /\ s'.(ipages) = <[N0 := d]> s.(ipages)) -> int_placed s' (Ok Inserted).
Proof.
  intros Hok Ha Hh (d & Hst & Ep). destruct (stamped_node _ _ Hok Hst) as [Hok' En]. pose proof Hpg as [[Ht Hr] _].
  destruct (step_learn pt_cmp pt t N0 X R iX iN lk ss1 ss2 sp Ht Hpend HX HXp HN HNn Hcut) as (t' & Ht' & Enodes & Eitems & Er & Hi).
  destruct (page_held s t N0 _ Hpg HNn) as (_ & H0 & _). exists t'. split_and!; [|split_and!|done].
  - split; [|done]. split; [done|]. rewrite Ep.
    eapply represents_same; [eapply (represents_put _ t N0 d _ t.(groups) t.(infos)); [done|done|done|by rewrite En]|exact Enodes|exact Er].
  - done.
  - done.
  - rewrite Enodes, dom_insert. set_solver.
  - intros q i Hq H1 H2 _. by rewrite Hi.
  - intros q lk' ss Hq Hne. rewrite Enodes. by rewrite lookup_insert_ne.
Qed.

(** The pages of a split represent the tree that has learnt and then split. *)
Lemma put_split (s' : State) T1 sp' cm T2 R' dl dr :
  ss1 ++ (sp, R) :: ss2 = T1 ++ (sp', cm) :: T2 -> R' ∉ allocated s.(ienv) -> held s' ->
  node_ok crc32 dl -> abs_node (node_of dl) (AInt lk (T1 ++ [(sp', R')])) ->
  node_ok crc32 dr -> abs_node (node_of dr) (AInt cm T2) ->
  s'.(ipages) = <[N0 := dl]> (<[R' := dr]> s.(ipages)) ->
  exists t', pages_ok s' t' /\ frame t' /\ Pending pt_cmp pt t' N0 sp' R'.
Proof.
  intros Esplit HR' Hh Hl Hal Hr' Har Ep. pose proof Hpg as [[Ht Hr] _].
  destruct (fresh_node s t R' Hpg HR') as (HRn & HR0 & _). destruct (page_held s t N0 _ Hpg HNn) as (_ & HN0 & _).
  assert (HNR' : N0 <> R') by congruence.
  destruct (step_learn pt_cmp pt t N0 X R iX iN lk ss1 ss2 sp Ht Hpend HX HXp HN HNn Hcut) as (t1 & Ht1 & En1 & Ei1 & Er1 & Hi1).
  assert (HN1 : t1.(infos) !! N0 = Some iN) by (rewrite Hi1; [done|apply not_eq_sym, pending_rank|done]).
  assert (HNn1 : t1.(nodes) !! N0 = Some (AInt lk (T1 ++ (sp', cm) :: T2))) by (rewrite En1, lookup_insert_eq; by rewrite Esplit).
  assert (HRn1 : t1.(nodes) !! R' = None) by (by rewrite En1, lookup_insert_ne).
  destruct (step_split_int pt_cmp pt t1 N0 iN lk T1 sp' cm T2 R' Ht1 HN1 HNn1 HRn1 HR0) as (t2 & Ht2 & En2 & Eg2 & Er2 & Hp2 & Hi2).
  exists t2. split_and!; [|split_and!|done].
  - split; [|done]. split; [done|].
    assert (En : t2.(nodes) = <[N0 := AInt lk (T1 ++ [(sp', R')])]> (<[R' := AInt cm T2]> t.(nodes))).
    { rewrite En2, En1. rewrite (insert_insert_ne _ R' N0) by done. by rewrite insert_insert_eq. }
    rewrite Ep. eapply (represents_same _ (mkTree _ t.(groups) t.(infos) t.(troot))); [|exact En|by rewrite Er2, Er1].
    eapply (represents_put _ (mkTree _ t.(groups) t.(infos) t.(troot))); [|done|done|done]. by apply represents_put.
  - by rewrite Er2, Er1.
  - unfold contents. by rewrite Eg2.
  - rewrite En2, En1, !dom_insert. set_solver.
  - intros q i Hq H1 H2 H3. apply Hi2; [by rewrite Hi1|done].
  - intros q lk' ss Hq Hne. rewrite En2, En1. rewrite !lookup_insert_ne; [done|done|congruence|done].
Qed.

Lemma split_internal_runs d es mid :
  node_ok crc32 d -> link d = lk -> Forall2 sep_entry es (ss1 ++ (sp, R) :: ss2) -> entries_ok es ->
  wp (split_internal crc32 mode N0 d es mid) int_placed s.
Proof.
  intros Hok Hlk Hes Heb. destruct Hpg as [[Ht Hr] Hh]. destruct (page_held s t N0 _ Hpg HNn) as (HNa & HN0 & HN32).
  assert (HlkU : lk <= U32_MAX) by (rewrite <- Hlk; by apply (node_link_bound crc32 d)).
  unfold split_internal. rewrite Hlk. destruct (internal_split_point crc32 es mid) as [m|] eqn:Em; cbn [ok_or].
  2:{ eapply wp_stop; [done|]. apply int_not_placed; [left; by eexists|done|done]. }
  apply internal_split_bound in Em as Hm. eapply wp_lift; [done|]. destruct (lookup_lt_is_Some_2 es m Hm) as [[pk child] Hpk].
  rewrite Hpk. cbn [ok_or]. eapply wp_lift; [done|]. destruct (Forall2_lookup_l _ _ _ _ _ Hes Hpk) as ([sp' cm] & Hsp & kb & tie & Ek & Hp & Htie & Ec & Hcm).
  cbn [fst snd] in *. subst child. destruct (encode_child_ok cm Hcm) as [Edec Hcb]. rewrite Edec. eapply wp_lift; [done|].
  apply wp_bind. eapply wp_mono; [apply alloc_page_runs|]. intros s1 [R'|e] (Ep1 & H1).
  2:{ destruct H1 as [He Ea]. apply int_not_placed; [by left|by rewrite Ep1|]. apply (held_same s); [done|done|by rewrite Ea]. }
  destruct H1 as (HR' & HR32' & Ea1). destruct (fresh_node s t R' Hpg HR') as (HRn & HR0 & _).
  assert (Hh1 : held s1) by (apply (held_same s); [done|done|set_solver]).
  assert (Hfail : forall s' e, failed e -> s'.(ipages) = s1.(ipages) -> allocated s1.(ienv) ∖ {[R']} ⊆ allocated s'.(ienv) -> int_placed s' (Err e)).
  { intros s' e He Ep Ea. apply int_not_placed; [by left|by rewrite Ep, Ep1|]. apply (held_same s); [done|by rewrite Ep|]. set_solver. }
  apply wp_bind, on_error_abandon; [|done].
  eapply wp_mono; [apply (edit_append R' false cm (drop (S m) es)); [done|done|by apply Forall_drop|by right]|].
  intros s1' [ri|er] (-> & HB); [|by split_and!]. destruct HB as (Hri & Eleaf & Elink & Ees).
  apply wp_bind. eapply wp_mono; [apply log_new_full_page_runs|]. intros s2 [[]|e]; [|intros (He & Ep2 & Ea2); by apply Hfail].
  intros (Ea2 & d2 & Hd2 & Ep2). destruct (stamped_node _ _ Hri Hd2) as [Hok2 En2].
  assert (Hr2 : represents crc32 s2.(ipages) t) by (rewrite Ep2, Ep1; by apply represents_other).
  assert (Hh2 : held s2) by (apply (held_put s1 s2 R' d2); [done|done|set_solver]).
  assert (Hfail2 : forall e, failed e -> int_placed s2 (Err e)) by (intros e He; apply int_not_placed; [by left|done|done]).
  apply wp_bind. eapply wp_mono; [apply (edit_append N0 false lk (take m es)); [done|done|by apply Forall_take|by right]|].
  intros s2' [li|er] (-> & HB); [|by apply Hfail2]. destruct HB as (Hli & Eleaf' & Elink' & Ees').
  assert (Hlm : length (take m es) = m) by (rewrite length_take; lia).
  assert (Hpkb : bytes_ok pk) by (unfold entries_ok in Heb; rewrite Forall_forall in Heb; apply (Heb (pk, encode_child cm)); by eapply list_elem_of_lookup_2).
  apply wp_bind. eapply wp_mono; [apply (edit_insert li m pk (encode_child R')); [done|done|by apply encode_child_ok|rewrite Ees'; lia]|].
  intros s2' [li'|er] (-> & HB); [|by apply Hfail2]. destruct HB as (Hli' & El2 & Elk2 & Ees2).
  apply wp_bind. eapply wp_mono; [apply log_full_page_runs|]. intros s3 [[]|e] (Ea3 & H3).
  2:{ destruct H3 as [He Ep3]. apply int_not_placed; [by left|by rewrite Ep3|]. apply (held_same s2); [done|done|by rewrite Ea3]. }
  destruct H3 as (d3 & Hd3 & Ep3). destruct (stamped_node _ _ Hli' Hd3) as [Hok3 En3].
  unfold wp, mret, se_ret. cbn [fst snd]. pose proof (take_drop_middle _ _ _ Hsp) as Emid.
  destruct (put_split s3 _ sp' cm _ R' d3 d2 (eq_sym Emid)) as (t' & Hpg' & Hfr & Hpd); try done.
  - apply (held_put s2 s3 N0 d3); [done|done|]. rewrite Ea3, Ea2. set_solver.
  - rewrite En3. split_and!; [by rewrite El2|by rewrite Elk2|]. rewrite Ees2, Ees', take_ge, drop_ge by lia.
    apply Forall2_app; [by apply Forall2_take|]. constructor; [|constructor]. by exists kb, tie.
  - rewrite En2. split_and!; [done|done|]. rewrite Ees. by apply Forall2_drop.
  - by rewrite Ep3, Ep2, Ep1.
  - exists t'. split_and!; [done|done|]. exists sp'. split_and!; try done. split; [done|]. by exists kb, tie.
Qed.

Lemma place_int_runs d k sep :
  node_ok crc32 d -> abs_node (node_of d) (AInt lk (ss1 ++ ss2)) -> k = length ss1 -> sep_code sep sp ->
  wp (place crc32 mode N0 d (N.of_nat k) sep (encode_child R) false) int_placed s.
Proof.
  intros Hok Ha -> Hsep. destruct Hpg as [[Ht Hr] Hh]. destruct (page_held s t N0 _ Hpg HNn) as (HNa & _ & _).
  pose proof Hok as (_ & fs & Rp). unfold place. rewrite (rep_has_space _ _ _ _ _ _ _ Rp). destruct Ha as (Hl & Hlk & Hes).
  pose proof (Forall2_length _ _ _ Hes) as Hlen. rewrite length_app in Hlen. destruct (encode_child_ok R HR32) as [_ HRb].
  assert (Hes' : Forall2 sep_entry (take (length ss1) (n_entries (node_of d)) ++ (sep, encode_child R) :: drop (length ss1) (n_entries (node_of d)))
    (ss1 ++ (sp, R) :: ss2)).
  { apply Forall2_app; [|constructor; [by apply sep_code_entry|]].
    - apply (Forall2_take _ _ _ (length ss1)) in Hes. by rewrite take_app_length in Hes.
    - apply (Forall2_drop _ _ _ (length ss1)) in Hes. by rewrite drop_app_length in Hes. }
  eapply wp_lift; [done|]. destruct (entry_stored_len (len sep) (len (encode_child R)) <=? node_free (node_of d)).
  - apply wp_bind. eapply wp_mono; [apply (edit_insert d (length ss1) sep (encode_child R)); [done|apply Hsep|done|lia]|].
    intros s0 [d'|e0] (-> & HB); [|by apply int_not_placed; [left|..]]. destruct HB as (Hok' & El & Elk & Ees). apply wp_bind.
    eapply wp_mono; [apply log_full_page_runs|]. intros s' [[]|e] (Ea & H1).
    + unfold wp, mret, se_ret. cbn [fst snd]. eapply (put_int s' d'); try done.
      * split_and!; [by rewrite El|by rewrite Elk|by rewrite Ees].
      * destruct H1 as (d1 & _ & Ep). eapply held_put; [done|exact Ep|]. rewrite Ea. set_solver.
    + destruct H1 as [He Ep]. apply int_not_placed; [by left|by rewrite Ep|]. apply (held_same s); [done|done|by rewrite Ea].
  - unfold split_node. rewrite (entries_with_insertion_ok d (length ss1) sep (encode_child R) Hok) by lia. eapply wp_lift; [done|].
    set (es := take _ (n_entries (node_of d)) ++ _) in *. pose proof (split_point_ok es) as Hsplit.
    pose proof (Forall2_length _ _ _ Hes') as Hlen'. rewrite length_app in Hlen'. cbn [length] in Hlen'.
    destruct (split_point es) as [mid|fl]; cbn [read map_err].
    + eapply wp_lift; [done|]. eapply split_internal_runs; try done. unfold es, entries_ok. pose proof (node_entries_bytes crc32 d Hok) as Hb.
      apply Forall_app. split; [by apply Forall_take|]. constructor; [by split; [apply Hsep|]|by apply Forall_drop].
    + destruct Hsplit as [-> Hs2]. unfold wp. cbn. apply int_not_placed; [right; split; [done|]|done|done].
      assert (length ss1 = 0 /\ length ss2 = 0)%nat as [? ?] by lia. by destruct ss1, ss2.
Qed.
End PlaceInt.

Section Walk.
Context (s : State) (t : Tree) (Hpg : pages_ok s t).
Context (probe : Probe (V := V)).
Let y := probe_pt probe.

(** The next leaf with entries, if the entry belongs behind its first. *)
Lemma right_leaf_ok L : forall p fuel,
  chain t.(nodes) p L -> (length L < fuel)%nat -> StronglySorted (fun a b => pt a ≺ pt b) (items_of L) ->
  exists o, right_leaf_for_probe fuel s.(ipages) p probe = Ok o /\
    match o with
    | None => Forall (fun z => y ≺ pt z) (items_of L)
    | Some next => exists L1 z zs L2, L = L1 ++ (next, z :: zs) :: L2 /\ items_of L1 = [] /\ pt z ≼ y
    end.
Proof.
  destruct Hpg as [[Ht Hr] _].
  induction L as [|[q xs] L IH]; intros p fuel Hc Hf Hs; (destruct fuel as [|fuel]; [cbn in Hf; lia|]); cbn [right_leaf_for_probe].
  { rewrite Hc. exists None. split; [done|constructor]. }
  assert (Hp : p <> 0) by (by destruct Hc as (-> & ? & _)). rewrite (proj2 (N.eqb_neq _ _) Hp).
  assert (Epq : p = q) by (by destruct Hc as (-> & _)).
  destruct (chain_step crc32 _ _ Hr _ _ _ _ Hc) as (d & lk & -> & Hok & Ha & Ed & Hc' & _). cbn [mbind result_bind].
  rewrite (node_count crc32 d Hok _ Ha), Ed. cbn [points]. rewrite items_of_cons in Hs |- *. destruct xs as [|z zs].
  - cbn [fmap list_fmap len length N.of_nat N.eqb]. destruct (IH lk fuel Hc') as (o & -> & Ho); [cbn in Hf; lia|done|]. exists o. split; [done|].
    destruct o as [next|]; [|done]. destruct Ho as (L1 & z & zs & L2 & -> & E & Hz). by exists ((q, []) :: L1), z, zs, L2.
  - rewrite (proj2 (N.eqb_neq _ _)) by done.
    rewrite (entry_cmp_ok crc32 d Hok (ALeaf lk (z :: zs)) 0 (pt z) probe Ha eq_refl : entry_cmp d true 0 probe = _). cbn [mbind result_bind].
    fold y. eexists. split; [done|]. destruct (pt_cmp (pt z) y) eqn:Ec.
    + exists [], z, zs, L. rewrite Epq. split_and!; [done|done|]. unfold ord_le. by rewrite Ec.
    + exists [], z, zs, L. rewrite Epq. split_and!; [done|done|]. unfold ord_le. by rewrite Ec.
    + apply (cmp_Gt pt_cmp) in Ec. cbn [app] in Hs |- *. apply StronglySorted_inv in Hs as [_ Hs]. constructor; [done|].
      eapply Forall_impl; [exact Hs|]. intros b Hb. by eapply (ord_lt_trans pt_cmp).
Qed.
End Walk.

(** ** The new entry *)

(** The entries with one more, in its place. *)
Definition add (x : Item) (l : list Item) : list Item :=
  filter (fun z => pt z ≺ pt x) l ++ x :: filter (fun z => ~ pt z ≺ pt x) l.

Lemma add_between x pre post :
  Forall (fun z => pt z ≺ pt x) pre -> Forall (fun z => pt x ≺ pt z) post -> add x (pre ++ post) = pre ++ x :: post.
Proof.
  intros H1 H2. assert (H2' : Forall (fun z => ~ pt z ≺ pt x) post).
  { eapply Forall_impl; [exact H2|]. intros z Hz. by apply (ord_not_lt pt_cmp), (ord_lt_le pt_cmp). }
  unfold add. rewrite !filter_app. rewrite (filter_all _ pre), (filter_none _ post), (filter_all _ post), app_nil_r by done.
  rewrite (filter_none _ pre); [done|]. eapply Forall_impl; [exact H1|]. cbn. tauto.
Qed.

Lemma sorted_between x pre post :
  StronglySorted (fun a b => pt a ≺ pt b) (pre ++ post) -> Forall (fun z => pt z ≺ pt x) pre -> Forall (fun z => pt x ≺ pt z) post ->
  StronglySorted (fun a b => pt a ≺ pt b) (pre ++ x :: post).
Proof.
  intros Hs H1 H2. apply StronglySorted_app_2.
  - intros a b Ha Hb. rewrite Forall_forall in H1. apply elem_of_cons in Hb as [->|Hb]; [by apply H1|].
    by eapply (StronglySorted_app_1_elem_of (fun a b => pt a ≺ pt b)).
  - by eapply StronglySorted_app_1_l.
  - constructor; [by eapply StronglySorted_app_1_r|done].
Qed.

Section Entry.
Context (mode : WriteMode) (x : Item) (kb : bytes).
Context (Hkb : bytes_ok kb) (Hvb : bytes_ok x.2) (Hx : leaf_entry (kb, x.2) x).
Let probe : Probe := mkProbe x.1 (Some x.2).

Section Leaf.
Context (s : State) (t : Tree) (Hpg : pages_ok s t) (Hnew : Forall (fun z => pt_cmp (pt z) (pt x) <> Eq) (contents t)).
Context (G1 : list (option Point * list (N * list Item))) (f : option Point) (G2 : list (option Point * list (N * list Item))).
Context (Hin : inside pt_cmp f (next_fence G2) (pt x)).

(** The group of the leaf has it; or an error has kept it out. *)
Definition group_placed (s' : State) (r : result Halt InsertOutcome) : Prop :=
  exists t', pages_ok s' t' /\ t'.(infos) = t.(infos) /\ t'.(troot) = t.(troot) /\ ints_kept t t' /\
    match r with
    | Ok Inserted => contents t' = add x (contents t)
    | Ok (Split sep R) => contents t' = add x (contents t) /\ exists l1 z xs2 l2,
        sep_code sep (pt z) /\ R <= U32_MAX /\ t.(nodes) !! R = None /\ items_of l1 <> [] /\
        (forall ls, t.(groups) = G1 ++ (f, ls) :: G2 -> head_page l1 = head_page ls) /\
        t'.(groups) = G1 ++ (f, l1 ++ (R, z :: xs2) :: l2) :: G2
    | Err e => (failed e \/ e = Panics /\ exists p a, t.(nodes) !! p = Some a /\ points a = []) /\ contents t' = contents t
    end.

Lemma place_here d l1 q xs l2 lk k :
  t.(groups) = G1 ++ (f, l1 ++ (q, xs) :: l2) :: G2 -> t.(nodes) !! q = Some (ALeaf lk xs) ->
  node_ok crc32 d -> abs_node (node_of d) (ALeaf lk xs) -> (k <= length xs)%nat ->
  Forall (fun z => pt z ≺ pt x) (items G1 ++ items_of l1 ++ take k xs) ->
  Forall (fun z => pt x ≺ pt z) (drop k xs ++ items_of l2 ++ items G2) ->
  wp (place crc32 mode q d (N.of_nat k) kb x.2 true) group_placed s.
Proof.
  intros E Hq Hok Ha Hk Hpre Hpost. pose proof Hpg as [[Ht Hr] Hh]. set (xs' := take k xs ++ x :: drop k xs).
  assert (E1 : contents t = (items G1 ++ items_of l1 ++ take k xs) ++ drop k xs ++ items_of l2 ++ items G2).
  { unfold contents. rewrite E, items_app, items_cons, items_of_app, items_of_cons. rewrite <- (take_drop k xs) at 1. by rewrite <- !app_assoc. }
  assert (E2 : items (G1 ++ (f, l1 ++ (q, xs') :: l2) :: G2) = add x (contents t)).
  { rewrite E1, add_between by done. rewrite items_app, items_cons, items_of_app, items_of_cons. unfold xs'. by rewrite <- !app_assoc. }
  assert (Hs : StronglySorted (ord_lt pt_cmp) (pt <$> items (G1 ++ (f, l1 ++ (q, xs') :: l2) :: G2))).
  { rewrite E2, E1, add_between by done. apply sorted_fmap, sorted_between; [|done|done]. rewrite <- E1. by apply (contents_sorted t). }
  assert (Hi : Forall (fun x => inside pt_cmp f (next_fence G2) (pt x)) xs').
  { assert (Hold : Forall (fun x => inside pt_cmp f (next_fence G2) (pt x)) xs).
    { rewrite Forall_forall. intros z Hz. eapply (group_inside pt_cmp pt t Ht f (next_fence G2) (l1 ++ (q, xs) :: l2) q xs); [|set_solver|done].
      apply elem_of_fenced. by exists G1, G2. }
    unfold xs'. apply Forall_app. split; [by apply Forall_take|]. constructor; [done|by apply Forall_drop]. }
  eapply wp_mono; [by eapply (place_leaf_runs mode s t Hpg G1 f l1 q xs l2 G2 lk xs' E Hq Hi Hs d k kb x)|].
  intros s' r (t' & Hpg' & Ei & Er & Hints & Hres). exists t'. split_and!; try done. destruct r as [[|sep R]|e].
  - by rewrite Hres.
  - destruct Hres as (z & xs1 & xs2 & Exs & Hne & Hsep & HR & HRn & Eg). split.
    + rewrite <- E2. unfold contents. rewrite Eg, Exs, !items_app, !items_cons, !items_of_app, !items_of_cons. by rewrite <- !app_assoc.
    + exists (l1 ++ [(q, xs1)]), z, xs2, l2. split_and!; try done.
      * rewrite items_of_app, items_of_cons. intros H0. apply app_nil in H0 as [_ H0]. by apply app_nil in H0 as [? _].
      * intros ls Els. rewrite E in Els. apply app_inv_head in Els. injection Els as <-. by destruct l1.
      * rewrite Eg. by rewrite <- app_assoc.
  - destruct Hres as [He Ec]. split; [|done]. destruct He as [?|[-> Hlen]]; [by left|right]. split; [done|]. exists q, (ALeaf lk xs). split; [done|].
    unfold xs' in Hlen. rewrite length_app, length_take in Hlen. cbn [length] in Hlen. rewrite length_drop in Hlen.
    assert (length xs = 0)%nat by lia. by destruct xs.
Qed.

(** What is not below the entry is above it: it is new. *)
Lemma above_new zs : (forall z, z ∈ zs -> z ∈ contents t) -> Forall (fun z => pt x ≼ pt z) zs -> Forall (fun z => pt x ≺ pt z) zs.
Proof using Hnew KeyCodecLaws0.
  intros Hsub H. rewrite Forall_forall in H, Hnew |- *. intros z Hz. specialize (H z Hz). specialize (Hnew z (Hsub z Hz)).
  unfold ord_le, ord_lt in *. rewrite (cmp_sym pt_cmp (pt x) (pt z)) in Hnew. by destruct (pt_cmp (pt x) (pt z)).
Qed.

Lemma walk_app (L1 L2 L3 l2 : list (N * list Item)) next zs :
  l2 ++ L3 = L1 ++ (next, zs) :: L2 -> (exists l2', l2 = L1 ++ (next, zs) :: l2') \/ (next, zs) ∈ L3.
Proof.
  intros H. apply app_eq_inv in H as [(l & -> & H)|(l & -> & ->)].
  - destruct l as [|a l]; cbn in H; [right; rewrite <- H; by constructor|]. injection H as <- ->. left. by exists l.
  - right. set_solver.
Qed.

Lemma insert_leaf_runs fuel : forall l1 p xs l2,
  t.(groups) = G1 ++ (f, l1 ++ (p, xs) :: l2) :: G2 -> Forall (fun z => pt z ≺ pt x) (items G1 ++ items_of l1) ->
  (length ((p, xs) :: l2 ++ leaves G2) <= fuel)%nat ->
  wp (insert_leaf crc32 fuel mode p probe kb x.2) group_placed s.
Proof.
  pose proof Hpg as [[Ht Hr] Hh]. induction fuel as [|fuel IH]; intros l1 p xs l2 E Hpre Hf; [cbn in Hf; lia|]. cbn [insert_leaf].
  assert (Hc : chain t.(nodes) p ((p, xs) :: l2 ++ leaves G2)).
  { destruct (t_chain _ _ _ Ht) as [p0 Hc]. rewrite E, leaves_app, leaves_cons, <- app_assoc in Hc. apply chain_app in Hc as (q & Hc & _).
    apply chain_app in Hc as (q' & Hc & _). cbn [app] in Hc. by rewrite (chain_head _ _ _ _ _ Hc) in Hc. }
  assert (Hq : exists lk, t.(nodes) !! p = Some (ALeaf lk xs)) by (destruct Hc as (_ & _ & lk & Hn & _); by exists lk). destruct Hq as [lk' Hq].
  destruct (chain_step crc32 _ _ Hr _ _ _ _ Hc) as (d & lk & Erd & Hok & Ha & Ed & Hc' & Elk).
  assert (lk' = lk) as ->.
  { destruct (node_page crc32 _ _ Hr _ _ Hq) as (d' & Erd' & _ & Ha'). rewrite Erd in Erd'. injection Erd' as <-.
    rewrite <- Ed. symmetry. exact (node_link_of d _ Ha'). }
  eapply wp_reads; [exact Erd|]. pose proof (contents_sorted t Ht) as Hs.
  assert (Ec : contents t = (items G1 ++ items_of l1) ++ xs ++ items_of (l2 ++ leaves G2)).
  { unfold contents. rewrite E, items_app, items_cons, !items_of_app, items_of_cons. by rewrite <- !app_assoc. }
  assert (Hsx : StronglySorted (fun a b => pt a ≺ pt b) (xs ++ items_of (l2 ++ leaves G2))) by (rewrite Ec in Hs; by eapply StronglySorted_app_1_r).
  destruct (leaf_lower_bound crc32 d lk xs probe Hok Ha) as (k & Hb & Hcount & Hk & Hbelow & Habove); [by eapply StronglySorted_app_1_l|].
  eapply wp_lift; [exact Hb|]. rewrite Hcount, Ed.
  assert (Hhere : Forall (fun z => pt x ≺ pt z) (drop k xs ++ items_of l2 ++ items G2) ->
    wp (place crc32 mode p d (N.of_nat k) kb x.2 true) group_placed s).
  { intros Hpost. eapply (place_here d l1 p xs l2 lk k); try done. rewrite app_assoc. by apply Forall_app. }
  assert (Hsub : forall z, z ∈ drop k xs ++ items_of l2 ++ items G2 -> z ∈ contents t).
  { intros z. rewrite Ec, items_of_app, !elem_of_app. intros [Hz|[Hz|Hz]]; [|by auto..]. right. left. rewrite <- (take_drop k xs). set_solver. }
  destruct (decide (k = length xs)) as [->|Hne].
  - rewrite (proj2 (N.eqb_eq _ _)) by done. rewrite drop_ge in * by lia. cbn [andb app] in *. destruct (N.eqb_spec lk 0) as [E0|E0]; cbn [negb].
    + rewrite E0 in Hc'. assert (EL : l2 ++ leaves G2 = []) by (destruct (l2 ++ leaves G2) as [|[q' ?] ?]; [done|by destruct Hc' as (<- & ? & _)]).
      eapply wp_step; [done|]. apply Hhere. apply app_nil in EL as [-> EL]. unfold items. rewrite EL. constructor.
    + destruct (right_leaf_ok s t Hpg probe (l2 ++ leaves G2) lk (walk_fuel (ipages s)) Hc') as (o & Er & Ho).
      * pose proof (t_nodup _ _ _ Ht) as Hnd. rewrite E, leaves_app, leaves_cons, <- app_assoc, fmap_app in Hnd.
        apply NoDup_app in Hnd as (_ & _ & Hnd). rewrite fmap_app in Hnd. apply NoDup_app in Hnd as (_ & _ & Hnd).
        apply (chain_length crc32 _ _ Hr) in Hc; [|done]. unfold walk_fuel. cbn in Hc. lia.
      * by eapply StronglySorted_app_1_r.
      * apply wp_bind. eapply wp_reads; [exact Er|]. destruct o as [next|].
        -- destruct Ho as (L1 & z & zs & L2 & EL & E1 & Hz). unfold wp at 1, mret, se_ret. cbn [fst snd].
           destruct (walk_app _ _ _ _ _ _ EL) as [(l2' & ->)|Hin2].
           ++ eapply (IH (l1 ++ (p, xs) :: L1) next (z :: zs) l2').
              ** rewrite E. do 3 f_equal. rewrite <- !app_assoc. done.
              ** rewrite items_of_app, items_of_cons, E1, app_nil_r, app_assoc. apply Forall_app. split; [done|].
                 by rewrite firstn_all in Hbelow.
              ** rewrite <- app_assoc in Hf. cbn in Hf |- *. rewrite !length_app in Hf. cbn in Hf. rewrite length_app in Hf |- *. lia.
           ++ exfalso. destruct (items_after pt_cmp pt (G1 ++ [(f, l1 ++ (p, xs) :: l2)]) G2 z) as (b & Eb & Hbz).
              ** rewrite <- app_assoc. cbn [app]. rewrite <- E. apply Ht.
              ** pose proof (t_fences _ _ _ Ht) as Hfe. rewrite E in Hfe. destruct G1; cbn in Hfe; [done|]. apply Forall_app in Hfe as [_ Hfe].
                 by apply Forall_cons in Hfe as [_ ?].
              ** apply elem_of_items_of. exists next, (z :: zs). split; [done|by constructor].
              ** destruct Hin as [_ Hhi]. rewrite Eb in Hhi. cbn in Hhi. eapply (ord_lt_irrefl pt_cmp).
                 eapply (ord_lt_le_trans pt_cmp); [exact Hhi|]. by eapply (ord_le_trans pt_cmp).
        -- eapply wp_reads; [exact Erd|]. eapply wp_lift; [exact Hb|]. unfold wp at 1, mret, se_ret. cbn [fst snd]. apply Hhere.
           by rewrite items_of_app in Ho.
  - rewrite (proj2 (N.eqb_neq _ _)) by (unfold len; lia). cbn [andb]. eapply wp_step; [done|]. apply Hhere. apply above_new; [done|].
    destruct (lookup_lt_is_Some_2 xs k) as [z Hz]; [lia|]. rewrite (drop_S _ _ _ Hz) in Habove |- *. apply Forall_cons in Habove as [Hz1 Hz2].
    cbn [app]. constructor; [done|]. rewrite <- (take_drop k xs), (drop_S _ _ _ Hz), <- app_assoc in Hsx. apply StronglySorted_app_1_r in Hsx.
    cbn [app] in Hsx. apply StronglySorted_inv in Hsx as [_ Hsx]. rewrite items_of_app in Hsx.
    eapply Forall_impl; [exact Hsx|]. intros w Hw. eapply (ord_le_trans pt_cmp); [exact Hz1|]. by apply (ord_lt_le pt_cmp).
Qed.
End Leaf.

(** ** Down and up again *)

Section Rec.
Context (s : State) (t : Tree) (Hpg : pages_ok s t) (Hnew : Forall (fun z => pt_cmp (pt z) (pt x) <> Eq) (contents t)).
Context (height : N -> nat).
Context (Hheight : forall p i q, t.(infos) !! p = Some i -> i.(i_parent) = Some q -> (height p < height q)%nat).

(** An error, or the panic of a split of a single entry. *)
Definition stopped (e : Halt) : Prop := failed e \/ e = Panics /\ exists p a, t.(nodes) !! p = Some a /\ points a = [].

(** [p] and what hangs below it changed, and nothing above. *)
Definition placed (p : N) (s' : State) (r : result Halt InsertOutcome) : Prop :=
  exists t', pages_ok s' t' /\ t'.(troot) = t.(troot) /\ dom t.(nodes) ⊆ dom t'.(nodes) /\
    (forall q i, t.(infos) !! q = Some i -> (height p <= height q)%nat -> t'.(infos) !! q = Some i) /\
    (forall q i lk ss, t.(infos) !! q = Some i -> (height p < height q)%nat ->
       t.(nodes) !! q = Some (AInt lk ss) -> t'.(nodes) !! q = Some (AInt lk ss)) /\
    match r with
    | Ok Inserted => contents t' = add x (contents t)
    | Ok (Split sep R) => contents t' = add x (contents t) /\ exists sp, sep_code sep sp /\ R <= U32_MAX /\
        t.(nodes) !! R = None /\ Pending pt_cmp pt t' p sp R
    | Err e => stopped e /\ (contents t' = contents t \/ contents t' = add x (contents t))
    end.

(** The right part of a split leaf waits for its parent to learn of it. *)
Lemma leaf_pending (t' : Tree) p i G1 G2 l1 z xs2 l2 R :
  tree_ok pt_cmp pt t' -> t'.(infos) !! p = Some i -> t'.(infos) !! R = None ->
  t'.(groups) = G1 ++ (i.(i_lo), l1 ++ (R, z :: xs2) :: l2) :: G2 -> i.(i_hi) = next_fence G2 ->
  head_page l1 = Some p -> items_of l1 <> [] -> Pending pt_cmp pt t' p (pt z) R.
Proof.
  intros Ht Hp HR E Eh Hh Hne. pose proof (contents_sorted t' Ht) as Hs. unfold contents in Hs.
  rewrite E, items_app, items_cons, items_of_app, items_of_cons in Hs. apply StronglySorted_app_1_r, StronglySorted_app_1_l in Hs.
  assert (Hf : (i_lo i, i_hi i, l1 ++ (R, z :: xs2) :: l2) ∈ fenced (groups t')) by (apply elem_of_fenced; exists G1, G2; by rewrite E).
  assert (Hz : inside pt_cmp (i_lo i) (i_hi i) (pt z)) by (eapply (group_inside pt_cmp pt t' Ht _ _ _ R (z :: xs2)); [done|set_solver|by constructor]).
  assert (Hl1 : Forall (fun w => pt w ≺ pt z) (items_of l1)).
  { apply Forall_forall. intros w Hw. eapply (StronglySorted_app_1_elem_of (fun a b => pt a ≺ pt b)); [exact Hs|done|by constructor]. }
  eapply (PendingLeaf _ _ _ _ _ _ i G1 l1 (z :: xs2) l2 G2); try done.
  - destruct (items_of l1) as [|w ws] eqn:Ew; [done|]. apply Forall_cons in Hl1 as [Hw _].
    assert (Hin : w ∈ items_of l1) by (rewrite Ew; by constructor). apply elem_of_items_of in Hin as (q & xs & Hq & Hwx).
    destruct (group_inside pt_cmp pt t' Ht _ _ _ q xs w Hf ltac:(set_solver) Hwx) as [Hlo _].
    destruct (i_lo i); [|done]. by eapply (ord_le_lt_trans pt_cmp).
  - destruct Hz as [_ Hz]. by destruct (i_hi i).
  - apply StronglySorted_app_1_r in Hs. cbn [app] in Hs |- *. apply StronglySorted_inv in Hs as [_ Hs]. constructor; [apply (ord_le_refl pt_cmp)|].
    eapply Forall_impl; [exact Hs|]. intros w Hw. by apply (ord_lt_le pt_cmp).
Qed.

Lemma insert_at_leaf p i :
  t.(infos) !! p = Some i -> leaf_cond t p i -> inside pt_cmp i.(i_lo) i.(i_hi) (pt x) ->
  wp (insert_leaf crc32 (walk_fuel s.(ipages)) mode p probe kb x.2) (placed p) s.
Proof.
  intros Hp (ls & Hin & Hh) Hi. pose proof Hpg as [[Ht Hr] _].
  destruct (group_suffix pt_cmp pt t Ht _ _ _ _ Hin Hh) as (G1 & G2 & E & Ehi & Hc & Hpre). rewrite Ehi in Hi.
  destruct ls as [|[p' xs] l2]; [done|]. injection Hh as ->.
  eapply wp_mono; [eapply (insert_leaf_runs s t Hpg Hnew G1 (i_lo i) G2 Hi _ [] p xs l2)|].
  - exact E.
  - cbn. rewrite app_nil_r. apply Forall_forall. intros z Hz. destruct (Hpre z Hz) as (a & Ea & Hlt). destruct Hi as [Hlo _]. rewrite Ea in Hlo.
    by eapply (ord_lt_le_trans pt_cmp).
  - pose proof (t_nodup _ _ _ Ht) as Hnd. rewrite E, leaves_app, leaves_cons, fmap_app in Hnd. apply NoDup_app in Hnd as (_ & _ & Hnd).
    apply (chain_length crc32 _ _ Hr) in Hc; [|done]. unfold walk_fuel. cbn in Hc |- *. lia.
  - intros s' r (t' & Hpg' & Ei & Er & (Hints & Hdom) & Hres). exists t'. split_and!; try done; [by rewrite Ei|by intros; apply Hints|].
    destruct r as [[|sep R]|e]; [done| |].
    + destruct Hres as (Ec & l1 & z & xs2 & l2' & Hsep & HR & HRn & Hne & Hhd & Eg). split; [done|]. exists (pt z). split_and!; try done.
      eapply (leaf_pending t' p i G1 G2 l1 z xs2 l2' R); try done; [apply Hpg'|by rewrite Ei| |by rewrite (Hhd _ E)].
      rewrite Ei. destruct (infos t !! R) eqn:ER; [|done]. destruct (live_info pt_cmp pt t R _ Ht ER). congruence.
    + destruct Hres as [He Ec]. split; [done|by left].
Qed.

(** The parent's turn after its child has split. *)
Lemma learn_split s1 p i lk ss c j sep R :
  t.(infos) !! p = Some i -> t.(nodes) !! p = Some (AInt lk ss) -> t.(infos) !! c = Some j -> j.(i_parent) = Some p ->
  placed c s1 (Ok (Split sep R)) ->
  wp (d ← reads (fun ps => read_page ps p);
      '(sep_decoded, consumed) ← lift (tried (decode_key_prefix sep));
      tie ← lift (read (slice sep consumed (len sep)));
      pos ← lift (lower_bound d false (mkProbe sep_decoded (Some tie)));
      place crc32 mode p d pos sep (encode_child R) false) (placed p) s1.
Proof.
  intros Hp Hn Hc Hpar (t1 & Hpg1 & Er1 & Hd1 & Hi1 & Hn1 & Ec1 & sp & Hsep & HR & HRn & Hpend).
  pose proof Hpg as [[Ht _] _]. pose proof Hpg1 as [[Ht1 Hr1] _]. pose proof (Hheight _ _ _ Hc Hpar) as Hlt.
  assert (Hp1 : t1.(infos) !! p = Some i) by (apply Hi1; [done|lia]).
  assert (Hpn1 : t1.(nodes) !! p = Some (AInt lk ss)) by (by eapply Hn1).
  assert (Hc1 : t1.(infos) !! c = Some j) by (by apply Hi1).
  assert (HpR : p <> R) by congruence.
  destruct (node_page crc32 _ _ Hr1 _ _ Hpn1) as (d & Erd & Hok & Ha). eapply wp_reads; [exact Erd|].
  pose proof Hsep as (_ & kbs & tie & Esep & Hcode & Etie). rewrite Esep, (Hcode tie). eapply wp_lift; [done|]. cbv beta iota.
  rewrite slice_Ok by (rewrite len_app; lia). rewrite len_app. replace (len kbs + len tie - len kbs) with (len tie) by lia.
  rewrite sub_app_r by lia. replace (len kbs - len kbs) with 0 by lia. rewrite sub_all by lia. eapply wp_lift; [done|]. rewrite <- Esep.
  destruct (node_seps pt_cmp pt t1 Ht1 _ _ _ _ Hp1 Hpn1) as [Hso _].
  destruct (bound_ok crc32 d Hok (AInt lk ss) (mkProbe sp.1 (Some tie)) false Ha Hso) as (k & Hb & Hk & H1 & H2).
  cbn [points passes leafy] in *. rewrite length_fmap in Hk.
  assert (Esp : probe_pt (mkProbe sp.1 (Some tie)) = sp) by (unfold probe_pt; cbn; rewrite <- Etie; by destruct sp). rewrite Esp in H1, H2.
  assert (Hcut : cut pt_cmp sp (take k ss) (drop k ss)).
  { split; [by rewrite fmap_take|]. rewrite fmap_drop. eapply Forall_impl; [exact H2|]. intros y Hy. by apply (ord_not_lt pt_cmp). }
  eapply wp_lift; [exact Hb|]. rewrite <- (take_drop k ss) in Ha, Hpn1.
  eapply wp_mono; [eapply (place_int_runs mode s1 t1 Hpg1 p c R i j lk (take k ss) (drop k ss) sp Hp1 Hpn1 HpR HR Hc1 Hpar Hpend Hcut d k sep); try done|].
  { rewrite length_take. lia. }
  intros s' r (t' & Hpg' & (Fr & Fc & Fd & Fi & Fn) & Hres). exists t'. split_and!; try done.
  - by rewrite Fr.
  - set_solver.
  - intros q iq Hq Hle. apply Fi; [apply Hi1; [done|lia]| | |].
    + intros ->. lia.
    + intros ->. destruct (live_info pt_cmp pt t R _ Ht Hq). congruence.
    + intros Hqp. specialize (Hheight _ _ _ Hq Hqp). lia.
  - intros q iq lk' ss' Hq Hle Hnq. apply Fn; [eapply Hn1; [done|lia|done]|]. intros ->. lia.
  - destruct r as [[|sep' R']|e]; [by rewrite Fc| |].
    + destruct Hres as (sp' & H3 & H4 & H5 & H6). split; [by rewrite Fc|]. exists sp'. split_and!; try done.
      apply not_elem_of_dom. apply not_elem_of_dom in H5. set_solver.
    + split; [|right; by rewrite Fc]. destruct Hres as [?|[-> Hss]]; [by left|right]. split; [done|].
      exists p, (AInt lk ss). split; [done|]. rewrite take_drop in Hss. by subst ss.
Qed.

Lemma insert_rec_runs fuel : forall p i,
  t.(infos) !! p = Some i -> inside pt_cmp i.(i_lo) i.(i_hi) (pt x) -> (height p < fuel)%nat ->
  wp (insert_rec crc32 fuel mode p probe kb x.2) (placed p) s.
Proof.
  pose proof Hpg as [[Ht Hr] _]. induction fuel as [|fuel IH]; intros p i Hp Hi Hf; [lia|]. cbn [insert_rec].
  destruct (live_node crc32 _ _ Ht Hr p i Hp) as (a & d & Hn & Erd & Hok & Ha & Hcond).
  eapply wp_reads; [unfold node_is_leaf; by rewrite Erd|]. rewrite (node_leafy d a Ha). destruct a as [lk xs|lk ss]; cbn [leafy] in *.
  { eapply wp_step; [done|]. by apply insert_at_leaf with i. }
  eapply wp_reads; [exact Erd|].
  destruct (child_for_ok crc32 _ Ht p i lk ss d probe Hp Hn Hok Ha Hi) as (c & j & Ec & Hc & Hpar & Hj). eapply wp_lift; [exact Ec|].
  pose proof (Hheight _ _ _ Hc Hpar) as Hlt. apply wp_bind. eapply wp_mono; [apply (IH c j); [done|done|lia]|].
  assert (Hup : forall s' r, (forall sep R, r <> Ok (Split sep R)) -> placed c s' r -> placed p s' r).
  { intros s' r Hns (t' & H1 & H2 & H3 & H4 & H5 & H6). exists t'. split_and!; try done.
    - intros q iq Hq Hle. apply H4; [done|lia].
    - intros q iq lk' ss' Hq Hle. eapply H5; [done|lia].
    - destruct r as [[|sep R]|e]; [done|by destruct (Hns sep R)|done]. }
  intros s1 [[|sep R]|e] Hpl; [by apply Hup|by eapply (learn_split s1 p i lk ss c j)|by apply Hup].
Qed.
End Rec.
End Entry.

(** ** The root *)

Section Root.
Context (mode : WriteMode).

(** The tree under a root that does not yet know of the right part. *)
Definition rooted (t : Tree) (r : N) : Tree :=
  mkTree (<[r := AInt t.(troot) []]> t.(nodes)) t.(groups)
    (<[r := mkInfo None None None]> (<[t.(troot) := mkInfo None None (Some r)]> t.(infos))) r.

Lemma pending_rooted t r sp R :
  tree_ok pt_cmp pt t -> t.(nodes) !! r = None -> R <> r -> Pending pt_cmp pt t t.(troot) sp R -> Pending pt_cmp pt (rooted t r) t.(troot) sp R.
Proof using KeyCodecLaws0.
  intros Ht Hr HRr Hp. pose proof (t_root _ _ _ Ht) as Hroot. assert (Hne : r <> troot t).
  { intros ->. destruct (live_info pt_cmp pt t _ _ Ht Hroot). congruence. }
  destruct Hp as [iX G1 l1 xs2 l2 G2 HX HR E Eh Hh Hlo Hhi H1 H2|iX lkx T1 HX HXn HR]; rewrite Hroot in HX; injection HX as <-.
  - eapply (PendingLeaf _ _ _ _ _ _ (mkInfo None None (Some r)) G1 l1 xs2 l2 G2); try done; cbn [rooted infos groups].
    + by rewrite lookup_insert_ne, lookup_insert_eq.
    + rewrite !lookup_insert_ne; [done| |done]. congruence.
  - eapply (PendingInt _ _ _ _ _ _ (mkInfo None None (Some r)) lkx T1); cbn [rooted infos nodes i_hi].
    + by rewrite lookup_insert_ne, lookup_insert_eq.
    + by rewrite lookup_insert_ne.
    + intros _. specialize (HR I). rewrite !lookup_insert_ne; [done| |done]. intros <-. rewrite Hroot in HR. by injection HR.
Qed.

(** The tree under its new root. *)
Lemma grow_root (s s' : State) t sp R r dr dm :
  pages_ok s t -> Pending pt_cmp pt t t.(troot) sp R -> r ∉ allocated s.(ienv) -> R <> r -> held s' ->
  node_ok crc32 dr -> abs_node (node_of dr) (AInt t.(troot) [(sp, R)]) -> meta_ok crc32 dm -> meta_root dm = r ->
  s'.(ipages) = <[0 := dm]> (<[r := dr]> s.(ipages)) ->
  exists t', pages_ok s' t' /\ contents t' = contents t.
Proof.
  intros Hpg Hp Hr HRr Hh Hok Ha Hm Emr Ep. pose proof Hpg as [[Ht Hrep] _]. destruct (fresh_node s t r Hpg Hr) as (Hrn & Hr0 & _).
  pose proof (pending_rooted t r sp R Ht Hrn HRr Hp) as Hp1. pose proof (step_root pt_cmp pt t r Ht Hrn Hr0) as Ht1. fold (rooted t r) in Ht1.
  assert (Hne : r <> troot t).
  { intros ->. destruct (live_info pt_cmp pt t _ _ Ht (t_root _ _ _ Ht)). congruence. }
  destruct (step_learn pt_cmp pt (rooted t r) r (troot t) R (mkInfo None None (Some r)) (mkInfo None None None) (troot t) [] [] sp Ht1 Hp1)
    as (t2 & Ht2 & En2 & Ei2 & Er2 & _); try done.
  - cbn [rooted infos]. by rewrite lookup_insert_ne, lookup_insert_eq.
  - cbn [rooted infos]. by rewrite lookup_insert_eq.
  - cbn [rooted nodes]. by rewrite lookup_insert_eq.
  - exists t2. split; [|done]. split; [|done]. split; [done|]. cbn [app rooted nodes] in En2. rewrite insert_insert_eq in En2. destruct Hrep as [H1 _]. rewrite Ep. split.
    + intros q b Hq. rewrite En2 in Hq. apply lookup_insert_Some in Hq as [[<- <-]|[Hqr Hq]].
      * split; [done|]. exists dr. by rewrite lookup_insert_ne, lookup_insert_eq.
      * destruct (H1 _ _ Hq) as (Hq0 & dq & ? & ? & ?). split; [done|]. exists dq. by rewrite !lookup_insert_ne.
    + exists dm. rewrite lookup_insert_eq. split_and!; [done|done|]. by rewrite Emr, Er2.
Qed.

Lemma set_root_runs (s : State) t r : pages_ok s t -> r <= U32_MAX ->
  wp (set_root crc32 mode r) (fun s' res => allocated s'.(ienv) = allocated s.(ienv) /\
    match res with
    | Ok _ => exists dm, meta_ok crc32 dm /\ meta_root dm = r /\ s'.(ipages) = <[0 := dm]> s.(ipages)
    | Err e => failed e /\ s'.(ipages) = s.(ipages)
    end) s.
Proof.
  intros [[_ [_ (d & Hd & Hm & _)]] _] Hr. unfold set_root. eapply wp_reads; [unfold read_page, META_PAGE; by rewrite Hd|].
  destruct (meta_set_root_ok crc32 Hcrc d r Hm Hr) as [Hm' Er]. eapply wp_mono; [apply log_full_page_runs|].
  intros s' [[]|e] (Ea & H); (split; [done|]); [|done]. destruct H as (dm & Hst & Ep). exists dm.
  destruct Hst as [->|(l & ->)]; [done|]. destruct (set_page_lsn_meta crc32 Hcrc _ l Hm') as [Hm2 Er2]. by rewrite Er2.
Qed.

(** The root has split: a new root takes both parts. *)
Lemma new_root_runs (s : State) t sep sp R :
  pages_ok s t -> sep_code sep sp -> R <= U32_MAX -> R ∈ allocated s.(ienv) -> Pending pt_cmp pt t t.(troot) sp R ->
  wp (new_root ← alloc_page;
      image ← on_error (edit (insert_entry crc32 0 sep (encode_child R)) (set_link crc32 (init crc32 new_root false) t.(troot))) (abandon new_root);
      _ ← log_new_full_page crc32 mode new_root image;
      set_root crc32 mode new_root)
    (fun s' r => exists t', pages_ok s' t' /\ contents t' = contents t /\ forall e, r = Err e -> failed e) s.
Proof.
  intros Hpg Hsep HR HRa Hp. pose proof Hpg as [[Ht Hrep] Hh].
  assert (Hkeep : forall (s' : State) e, failed e -> represents crc32 s'.(ipages) t -> held s' ->
    exists t', pages_ok s' t' /\ contents t' = contents t /\ forall e', (Err e : result Halt unit) = Err e' -> failed e').
  { intros s' e He Hr' Hh'. exists t. split_and!; [done|done|]. by intros e' [= <-]. }
  apply wp_bind. eapply wp_mono; [apply alloc_page_runs|]. intros s1 [r|e] (Ep1 & H1).
  2:{ destruct H1 as [He Ea]. apply Hkeep; [done|by rewrite Ep1|]. apply (held_same s); [done|done|by rewrite Ea]. }
  destruct H1 as (Hr & Hr32 & Ea1). destruct (fresh_node s t r Hpg Hr) as (Hrn & Hr0 & _).
  assert (Hh1 : held s1) by (apply (held_same s); [done|done|set_solver]).
  assert (Hfail : forall (s' : State) e, failed e -> s'.(ipages) = s1.(ipages) -> allocated s1.(ienv) ∖ {[r]} ⊆ allocated s'.(ienv) ->
    exists t', pages_ok s' t' /\ contents t' = contents t /\ forall e', (Err e : result Halt unit) = Err e' -> failed e').
  { intros s' e He Ep Ea. apply Hkeep; [done|by rewrite Ep, Ep1|]. apply (held_same s); [done|by rewrite Ep|]. set_solver. }
  assert (Hold : t.(troot) <= U32_MAX).
  { destruct (live_info pt_cmp pt t _ _ Ht (t_root _ _ _ Ht)) as [a Ha]. by apply (page_held s t _ a Hpg). }
  destruct (init_node crc32 Hcrc r false Hr32) as (Hi & Ei & _). destruct (set_link_node crc32 Hcrc _ _ Hi Hold) as (Hl & El & _).
  rewrite Ei in El. cbn [n_leaf n_entries n_used] in El. destruct (encode_child_ok R HR) as [_ HRb].
  apply wp_bind, on_error_abandon; [|done].
  eapply wp_mono; [apply (edit_insert _ 0 sep (encode_child R)); [done|apply Hsep|done|lia]|].
  intros s1' [ri|er] (-> & HB); [|by split_and!]. rewrite El in HB. destruct HB as (Hri & Eleaf & Elink & Ees). cbn [n_leaf n_link n_entries take drop app] in *.
  apply wp_bind. eapply wp_mono; [apply log_new_full_page_runs|]. intros s2 [[]|e]; [|intros (He & Ep2 & Ea2); by apply Hfail].
  intros (Ea2 & d2 & Hd2 & Ep2). destruct (stamped_node _ _ Hri Hd2) as [Hok2 En2].
  assert (Hr2 : represents crc32 s2.(ipages) t) by (rewrite Ep2, Ep1; by apply represents_other).
  assert (Hh2 : held s2) by (apply (held_put s1 s2 r d2); [done|done|set_solver]).
  eapply wp_mono; [apply (set_root_runs s2 t); [by split|done]|]. intros s3 [[]|e] (Ea3 & H3).
  2:{ destruct H3 as [He Ep3]. apply Hkeep; [done|by rewrite Ep3|]. apply (held_same s2); [done|done|by rewrite Ea3]. }
  destruct H3 as (dm & Hm & Emr & Ep3).
  destruct (grow_root s s3 t sp R r d2 dm) as (t' & Hpg' & Ec); try done.
  - intros ->. done.
  - apply (held_put s2 s3 0 dm); [done|done|]. rewrite Ea3. assert (0 ∈ dom s2.(ipages)).
    { destruct Hr2 as [_ (d0 & H0 & _)]. apply elem_of_dom. by exists d0. } set_solver.
  - rewrite En2. split_and!; [done|done|]. rewrite Ees. constructor; [by apply sep_code_entry|constructor].
  - by rewrite Ep3, Ep2, Ep1.
  - by exists t'.
Qed.
End Root.

(** ** Insertion *)

Lemma encode_location (v : RowLocation) : len (encode v) = LOCATION_LEN /\ bytes_ok (encode v).
Proof.
  unfold encode. rewrite !len_app, !len_le_bytes. split; [done|]. repeat apply bytes_ok_app; apply to_le_bytes_ok.
Qed.

Lemma insert_runs mode key value (s : State) t :
  pages_ok s t -> key_ok key -> let x := (key, encode value) in
  Forall (fun z => pt_cmp (pt z) (pt x) <> Eq) (contents t) ->
  wp (insert_with_mode crc32 mode key value) (fun s' r => exists t', pages_ok s' t' /\
    match r with
    | Ok _ => contents t' = add x (contents t)
    | Err e => stopped t e /\ (contents t' = contents t \/ contents t' = add x (contents t))
    end) s.
Proof.
  intros Hpg Hk x Hnew. pose proof Hpg as [[Ht Hr] _]. destruct (encode_location value) as [Hvl Hvb].
  assert (Hkeep : forall e, failed e -> exists t', pages_ok s t' /\ stopped t e /\ (contents t' = contents t \/ contents t' = add x (contents t))).
  { intros e He. exists t. split_and!; [done|by left|by left]. }
  unfold insert_with_mode. destruct (encode_key key) as [kb|e] eqn:Ek.
  2:{ eapply wp_stop; [done|]. apply Hkeep. by eexists. }
  eapply wp_lift; [done|]. destruct (validate_index_entry_fits (len kb) (len (encode value))) as [[]|e].
  2:{ eapply wp_stop; [done|]. apply Hkeep. by eexists. }
  eapply wp_lift; [done|]. eapply wp_reads; [by apply (root_page crc32 _ t)|]. eapply wp_step; [done|].
  destruct (heights crc32 _ t Ht Hr) as (height & Hh1 & Hh2). pose proof (t_root _ _ _ Ht) as Hroot.
  assert (Hx : leaf_entry (kb, x.2) x).
  { split_and!; [|done|done]. intros rest. cbn. by apply decode_encode_key. }
  apply wp_bind. eapply wp_mono.
  { eapply (insert_rec_runs mode x kb (encode_key_bytes _ _ Hk Ek) Hvb Hx s t Hpg Hnew height Hh2 _ t.(troot) _ Hroot); [done|].
    specialize (Hh1 _ _ Hroot). unfold walk_fuel. lia. }
  intros s1 [[|sep R]|e] (t1 & Hpg1 & Er & Hd & Hi & Hn & Hres).
  - by exists t1.
  - destruct Hres as (Ec & sp & Hsep & HR & HRn & Hpend). rewrite <- Er in Hpend |- *.
    assert (HRa : R ∈ allocated s1.(ienv)).
    { destruct Hpend as [iX G1 l1 xs2 l2 G2 _ _ E _ _ _ _ _ _|iX lkx T1 HX HXn HRi].
      - destruct (leaf_node pt_cmp pt t1) with (q := R) (xs := xs2) as (_ & lk & HRn1); [apply Hpg1| |by apply (page_held s1 t1 R _ Hpg1 HRn1)].
        rewrite E, leaves_app, leaves_cons. set_solver.
      - assert (HRi' : is_Some (t1.(infos) !! R)) by (rewrite HRi; [eauto|]; rewrite Er, (Hi _ _ Hroot) in HX by lia; by injection HX as <-).
        destruct HRi' as [j Hj]. destruct (live_info pt_cmp pt t1 R j (proj1 (proj1 Hpg1)) Hj) as [a Ha]. by apply (page_held s1 t1 R a Hpg1). }
    eapply wp_mono; [by eapply (new_root_runs mode s1 t1 sep sp R)|]. intros s2 r (t2 & Hpg2 & Ec2 & He). exists t2. split; [done|].
    rewrite Ec2, Ec. destruct r as [|e]; [done|]. split; [left; by apply He|by right].
  - exists t1. split; [done|]. destruct Hres as [He Hc]. done.
Qed.
End Insert.
