(* ===== verification/BTreeSpec.v ===== *)
(** * The B-tree as a sorted set of entries

    What the operations of an index promise, against its [contents]: the lookups answer
    from them, insertion and removal change them, and every failure on the way leaves a
    tree.  The splits that the code cannot do are shown at the end. *)

From S2P Require Import Prelude Errors Mvcc CheckedBytes ByteArray Page IndexPage KeyOrder BTree BLink BTreeRead BTreeInsert.
Local Open Scope N_scope.

Section Spec.
Context (crc32 : bytes -> N) (Hcrc : crc_fits crc32).
Context {V : Type} `{!KeyCodec V, !KeyCodecLaws V}.
Context {W : Type} `{!IndexEnv W, !IndexEnvLaws W}.
Abbreviation Key := (list V).
Abbreviation Item := (Key * bytes)%type.
Abbreviation Point := (Key * option bytes)%type.
Abbreviation Tree := (@Tree Point Item).
Abbreviation State := (@Index W).
Local Notation "a ≺ b" := (ord_lt pt_cmp a b) (at level 70).
Local Notation "a ≼ b" := (ord_le pt_cmp a b) (at level 70).

(** ** The empty tree *)

Definition empty_tree (r : N) : Tree :=
  mkTree {[r := ALeaf 0 []]} [(None, [(r, [])])] {[r := mkInfo None None None]} r.

Lemma empty_tree_ok r : r <> 0 -> tree_ok pt_cmp pt (empty_tree r).
Proof.
  intros Hr. constructor; cbn [empty_tree nodes groups infos troot].
  - by exists [(r, [])], [].
  - constructor.
  - by constructor.
  - exists r. cbn. split_and!; [done|done|]. exists 0. by rewrite lookup_singleton_eq.
  - apply NoDup_singleton.
  - constructor; [|constructor]. cbn. split; [done|]. by repeat constructor.
  - constructor.
  - by rewrite lookup_singleton_eq.
  - intros p i Hp. apply lookup_singleton_Some in Hp as [<- <-]. split_and!; [done|done|]. left. exists [(r, [])]. split; [|done]. set_solver.
  - intros p i q Hp Hq. by apply lookup_singleton_Some in Hp as [<- <-].
  - exists (fun _ => 0%nat). intros p i q Hp Hq. by apply lookup_singleton_Some in Hp as [<- <-].
Qed.

Lemma empty_pages (s : State) r d dm :
  r <> 0 -> held s -> s.(ipages) !! r = Some d -> node_ok crc32 d -> node_of d = mkNode true 0 [] 0 ->
  s.(ipages) !! 0 = Some dm -> meta_ok crc32 dm -> meta_root dm = r -> pages_ok crc32 s (empty_tree r).
Proof.
  intros Hr Hh Hd Hok En Hm Hmok Emr. split; [|done]. split; [by apply empty_tree_ok|]. split; [|by exists dm].
  intros p a Hp. cbn in Hp. apply lookup_singleton_Some in Hp as [<- <-]. split; [done|]. exists d. split_and!; try done.
  rewrite En. by repeat constructor.
Qed.

Lemma stamped_meta image d : meta_ok crc32 image -> stamped crc32 image d -> meta_ok crc32 d /\ meta_root d = meta_root image.
Proof. intros Hm [->|(l & ->)]; [done|]. by apply set_page_lsn_meta. Qed.

Lemma stamped_init r d : r <= U32_MAX -> stamped crc32 (init crc32 r true) d -> node_ok crc32 d /\ node_of d = mkNode true 0 [] 0.
Proof.
  intros Hr Hst. destruct (init_node crc32 Hcrc r true Hr) as (Hi & Ei & _). destruct (stamped_node crc32 Hcrc _ _ Hi Hst) as [Hok En].
  by rewrite En, Ei.
Qed.

Lemma on_error_fails {A} (m : SE State Halt A) p (s : State) (Q : State -> result Halt A -> Prop) :
  wp m (fun s' r => match r with Ok a => Q s' (Ok a) | Err e => failed e end) s -> (forall s' e, failed e -> Q s' (Err e)) ->
  wp (on_error m (abandon p)) Q s.
Proof.
  unfold wp, on_error. destruct (m s) as [s1 [a|e]]; cbn; [done|]. intros He HQ. pose proof (abandon_runs p s1) as H. unfold wp in H.
  destruct (abandon p s1) as [s2 [[]|e2]]; cbn in H |- *; apply HQ; [done|]. destruct H as (_ & _ & H). by apply H.
Qed.

(** Creation writes the root before the page that names it; in a new file the pool gives
    out the metapage's number first. *)
Lemma create_runs txn (s : State) :
  held s -> (new_page s.(ienv)).2 = Ok META_PAGE ->
  wp (create crc32 txn) (fun s' r =>
    match r with
    | Ok _ => exists t, pages_ok crc32 s' t /\ contents t = []
    | Err e => failed e
    end) s.
Proof.
  intros Hh Hm. unfold create. destruct (new_page (ienv s)) as [w m] eqn:Ew. cbn in Hm. subst m.
  destruct (new_page_fresh _ _ _ Ew) as [Hf1 Ea1]. set (s1 := mkIndex (ipages s) w).
  apply (wp_step _ _ _ _ s1 META_PAGE); [unfold alloc_page, in_env; by rewrite Ew|].
  apply wp_bind. eapply wp_mono; [apply alloc_page_runs|]. intros s2 [r|e] (Ep2 & H2); [|by destruct H2].
  destruct H2 as (Hf2 & Hr32 & Ea2). assert (Hr0 : r <> 0) by (intros ->; set_solver).
  apply wp_bind. apply on_error_fails; [|done].
  eapply wp_mono; [by apply log_new_full_page_runs|]. intros s3 [[]|e]; [|by intros (He & _)].
  intros (Ea3 & d & Hst & Ep3). destruct (stamped_init r d Hr32 Hst) as [Hok En].
  eapply wp_mono; [by apply log_new_full_page_runs|]. intros s4 [[]|e]; [|by intros (He & _)].
  intros (Ea4 & dm & Hst4 & Ep4). destruct (meta_init_ok crc32 Hcrc META_PAGE r Hr32) as [Hmok Emr].
  destruct (stamped_meta _ _ Hmok Hst4) as [Hmok' Emr']. exists (empty_tree r). split; [|done].
  assert (Hh4 : held s4).
  { unfold held in *. rewrite Ep4, Ep3, Ep2, !dom_insert, Ea4, Ea3, Ea2. cbn [s1 ipages ienv]. set_solver. }
  apply (empty_pages s4 r d dm); try done.
  - by rewrite Ep4, lookup_insert_ne, Ep3, lookup_insert_eq.
  - by rewrite Ep4, lookup_insert_eq.
  - by rewrite Emr', Emr.
Qed.

(** A reset of a file that has its first two pages empties the index. *)
Lemma reset_runs mode (s : State) :
  held s -> {[0; 1]} ⊆ allocated s.(ienv) -> is_Some (s.(ipages) !! 0) -> is_Some (s.(ipages) !! 1) ->
  wp (reset_to_empty_with_mode crc32 mode) (fun s' r =>
    match r with
    | Ok _ => exists t, pages_ok crc32 s' t /\ contents t = []
    | Err e => failed e
    end) s.
Proof.
  intros Hh Hal [d0 H0] [d1 H1].
  assert (Hwr : forall (s : State) p image, is_Some (s.(ipages) !! p) -> wp (write_root_page crc32 mode p image) (fun s' r =>
    allocated s'.(ienv) = allocated s.(ienv) /\ match r with
    | Ok _ => exists d, stamped crc32 image d /\ s'.(ipages) = <[p := d]> s.(ipages)
    | Err e => failed e /\ s'.(ipages) = s.(ipages) end) s).
  { intros s0 p image [d Hd]. unfold write_root_page. destruct (is_unlogged mode).
    - eapply wp_step; [done|]. by apply log_full_page_runs.
    - eapply wp_reads; [unfold read_page; by rewrite Hd|]. by apply log_full_page_runs. }
  unfold reset_to_empty_with_mode. apply wp_bind. eapply wp_mono; [apply (Hwr s 1); eauto|].
  intros s1 [[]|e] (Ea1 & Hs1); [|by destruct Hs1]. destruct Hs1 as (dr & Hst & Ep1).
  destruct (stamped_init 1 dr ltac:(unfold U32_MAX; lia) Hst) as [Hok En].
  eapply wp_mono; [apply (Hwr s1 0); rewrite Ep1, lookup_insert_ne by done; eauto|].
  intros s2 [[]|e] (Ea2 & Hs2); [|by destruct Hs2]. destruct Hs2 as (dm & Hst2 & Ep2).
  destruct (meta_init_ok crc32 Hcrc 0 1 ltac:(unfold U32_MAX; lia)) as [Hmok Emr].
  destruct (stamped_meta _ _ Hmok Hst2) as [Hmok' Emr']. exists (empty_tree 1). split; [|done].
  assert (Hh2 : held s2) by (unfold held in *; rewrite Ep2, Ep1, !dom_insert, Ea2, Ea1; set_solver).
  apply (empty_pages s2 1 dr dm); try done.
  - by rewrite Ep2, lookup_insert_ne, Ep1, lookup_insert_eq.
  - by rewrite Ep2, lookup_insert_eq.
Qed.

(** ** Removal *)

Lemma bytes_cmp_eq a b : bytes_cmp a b = Eq <-> a = b.
Proof using.
  revert b. induction a as [|x a IH]; intros [|y b]; cbn; try done. destruct (N.compare_spec x y) as [->|H|H].
  - rewrite IH. split; [by intros ->|by intros [=]].
  - split; [done|]. intros [= -> ->]. lia.
  - split; [done|]. intros [= -> ->]. lia.
Qed.

Lemma same_entry (z : Item) key v : pt_cmp (pt z) (key, Some v) = Eq <-> key_cmp z.1 key = Eq /\ z.2 = v.
Proof using.
  unfold pt_cmp, pair_cmp, pt. cbn. destruct (key_cmp z.1 key); cbn; [rewrite bytes_cmp_eq; naive_solver|naive_solver..].
Qed.

Lemma leaf_in_group (G : list (option Point * list (N * list Item))) La q xs Lb :
  leaves G = La ++ (q, xs) :: Lb -> exists G1 f l1 l2 G2, G = G1 ++ (f, l1 ++ (q, xs) :: l2) :: G2 /\ La = leaves G1 ++ l1 /\ Lb = l2 ++ leaves G2.
Proof using.
  revert La. induction G as [|[f ls] G IH]; intros La E; [by destruct La|]. rewrite leaves_cons in E.
  apply app_eq_inv in E as [(l & -> & E)|(l & -> & E)].
  - destruct l as [|[q' xs'] l]; cbn [app] in E.
    + destruct (IH [] (eq_sym E)) as (G1 & f' & l1 & l2 & G2 & -> & E1 & ->). symmetry in E1. apply app_nil in E1 as [E1 ->].
      exists ((f, La) :: G1), f', [], l2, G2. rewrite leaves_cons, E1, !app_nil_r. by split_and!.
    + injection E as <- <- ->. exists [], f, La, l, G. by rewrite app_nil_l.
  - destruct (IH l E) as (G1 & f' & l1 & l2 & G2 & -> & -> & ->). exists ((f, ls) :: G1), f', l1, l2, G2. by rewrite leaves_cons, app_assoc.
Qed.

Lemma contents_leaves (t : Tree) : contents t = items_of (leaves t.(groups)).
Proof using. done. Qed.

(** A leaf loses entries. *)
Lemma shrink_leaf (s s' : State) (t : Tree) La q xs Lb lk (P : Item -> Prop) `{!forall x, Decision (P x)} image :
  pages_ok crc32 s t -> leaves t.(groups) = La ++ (q, xs) :: Lb -> t.(nodes) !! q = Some (ALeaf lk xs) ->
  node_ok crc32 image -> abs_node (node_of image) (ALeaf lk (filter P xs)) -> held s' ->
  (exists d, stamped crc32 image d /\ s'.(ipages) = <[q := d]> s.(ipages)) ->
  exists t', pages_ok crc32 s' t' /\ leaves t'.(groups) = La ++ (q, filter P xs) :: Lb /\ t'.(nodes) = <[q := ALeaf lk (filter P xs)]> t.(nodes).
Proof.
  intros Hpg E Hq Hok Ha Hh Hput. pose proof Hpg as [[Ht _] _]. destruct (leaf_in_group _ _ _ _ _ E) as (G1 & f & l1 & l2 & G2 & Eg & -> & ->).
  eexists. split; [eapply (put_leaf crc32 Hcrc s t Hpg s' G1 f l1 q xs l2 G2 lk (filter P xs) image Eg Hq); try done|].
  - assert (Hold : Forall (fun x => inside pt_cmp f (next_fence G2) (pt x)) xs).
    { rewrite Forall_forall. intros z Hz. eapply (group_inside pt_cmp pt t Ht f (next_fence G2) (l1 ++ (q, xs) :: l2) q xs); [|set_solver|done].
      apply elem_of_fenced. by exists G1, G2. }
    eapply Forall_sublist; [apply sublist_filter|exact Hold].
  - eapply StronglySorted_sublist; [|exact (t_sorted _ _ _ Ht)]. apply sublist_fmap. rewrite Eg, !items_app, !items_cons, !items_of_app, !items_of_cons.
    apply sublist_app; [reflexivity|]. apply sublist_app; [|reflexivity]. apply sublist_app; [reflexivity|]. apply sublist_app; [apply sublist_filter|reflexivity].
  - cbn [groups nodes]. split; [|done]. rewrite leaves_app, leaves_cons, <- !app_assoc. done.
Qed.

Lemma edit_remove d lk xs k :
  node_ok crc32 d -> abs_node (node_of d) (ALeaf lk xs) -> (k < length xs)%nat ->
  exists d', remove_entry crc32 (N.of_nat k) d = (d', Ok ()) /\ node_ok crc32 d' /\ abs_node (node_of d') (ALeaf lk (take k xs ++ drop (S k) xs)).
Proof.
  intros Hok (Hl & Hlk & Hes) Hk. pose proof Hok as (_ & f & R). pose proof (remove_entry_ok crc32 Hcrc _ _ _ _ _ (N.of_nat k) R) as Hr.
  pose proof (Forall2_length _ _ _ Hes) as Hlen. unfold node_remove in Hr. rewrite (proj2 (N.leb_gt _ _)) in Hr by (unfold len; lia).
  destruct Hr as (d' & E & Hok' & En & _). exists d'. split_and!; [done|done|]. rewrite En. split_and!; [done|done|].
  cbn [n_entries]. unfold remove_at. rewrite Nat2N.id. apply Forall2_app; [by apply Forall2_take|by apply Forall2_drop].
Qed.

Section Remove.
Context (txn : TxnId) (key : Key) (value : bytes).
Let y : Point := (key, Some value).
Let gone (z : Item) : Prop := pt_cmp (pt z) y = Eq.

(** The contents lose the entry, and the answer says whether they had it. *)
Definition removed (t : Tree) (s' : State) (r : result Halt bool) : Prop :=
  exists t', pages_ok crc32 s' t' /\
    match r with
    | Ok b => contents t' = filter (fun z => ~ gone z) (contents t) /\ (b = true <-> Exists gone (contents t))
    | Err e => failed e /\ contents t' = contents t
    end.

Lemma kept_below zs : Forall (fun z => pt z ≺ y) zs -> Forall (fun z => ~ gone z) zs.
Proof using. intros H. eapply Forall_impl; [exact H|]. unfold gone, ord_lt. intros z ->. done. Qed.
Lemma kept_above zs : Forall (fun z => y ≺ pt z) zs -> Forall (fun z => ~ gone z) zs.
Proof using KeyCodecLaws0.
  intros H. eapply Forall_impl; [exact H|]. unfold gone, ord_lt. intros z Hz. apply (cmp_Gt pt_cmp) in Hz. by rewrite Hz.
Qed.

Lemma not_removed (s : State) t : pages_ok crc32 s t -> Forall (fun z => ~ gone z) (contents t) -> removed t s (Ok false).
Proof using.
  intros Hpg H. exists t. split; [done|]. rewrite filter_all by done. split; [done|]. split; [done|]. rewrite Exists_exists, Forall_forall in *. naive_solver.
Qed.

Lemma remove_loop_runs (s : State) t L : pages_ok crc32 s t -> forall fuel L0 p,
  leaves t.(groups) = L0 ++ L -> chain t.(nodes) p L -> L <> [] -> (length L <= fuel)%nat -> Forall (fun z => pt z ≺ y) (items_of L0) ->
  wp (remove_loop crc32 fuel txn key value p) (removed t) s.
Proof.
  intros Hpg. pose proof Hpg as [[Ht Hr] Hh]. induction L as [|[q xs] L IH]; intros fuel L0 p El Hc Hne Hf Hpre; [done|].
  destruct fuel as [|fuel]; [cbn in Hf; lia|]. cbn [remove_loop].
  assert (Hq : exists lk, p = q /\ t.(nodes) !! q = Some (ALeaf lk xs)) by (destruct Hc as (-> & _ & lk & ? & _); by exists lk). destruct Hq as (lk' & -> & Hq).
  destruct (chain_step crc32 _ _ Hr _ _ _ _ Hc) as (d & lk & Erd & Hok & Ha & Ed & Hc' & Elk).
  assert (lk' = lk) as ->.
  { destruct (node_page crc32 _ _ Hr _ _ Hq) as (d' & Erd' & _ & Ha'). rewrite Erd in Erd'. injection Erd' as <-. rewrite <- Ed. symmetry. exact (node_link_of d _ Ha'). }
  eapply wp_reads; [exact Erd|]. pose proof (contents_sorted t Ht) as Hs.
  assert (Ec : contents t = items_of L0 ++ xs ++ items_of L) by (by rewrite contents_leaves, El, items_of_app, items_of_cons).
  assert (Hsx : StronglySorted (fun a b => pt a ≺ pt b) (xs ++ items_of L)) by (rewrite Ec in Hs; by eapply StronglySorted_app_1_r).
  destruct (leaf_lower_bound crc32 d lk xs (mkProbe key (Some value)) Hok Ha) as (k & Hb & Hcount & Hk & Hbelow & Habove); [by eapply StronglySorted_app_1_l|].
  eapply wp_lift; [exact Hb|]. rewrite Hcount, Ed. destruct (xs !! k) as [z|] eqn:Hz.
  - pose proof (lookup_lt_Some _ _ _ Hz) as Hlt. rewrite (proj2 (N.ltb_lt _ _)) by (unfold len; lia). eapply wp_lift; [exact (leaf_value crc32 d Hok lk xs k z Ha Hz)|].
    rewrite <- (take_drop k xs), (drop_S _ _ _ Hz), <- app_assoc in Hsx. apply StronglySorted_app_1_r in Hsx. cbn [app] in Hsx.
    apply StronglySorted_inv in Hsx as [_ Hafter]. rewrite (drop_S _ _ _ Hz) in Habove. apply Forall_cons in Habove as [Hz1 _].
    assert (Hrest : Forall (fun w => ~ gone w) (drop (S k) xs ++ items_of L)).
    { apply kept_above. eapply Forall_impl; [exact Hafter|]. intros w Hw. by eapply (ord_le_lt_trans pt_cmp). }
    assert (Hfront : Forall (fun w => ~ gone w) (items_of L0 ++ take k xs)) by (apply kept_below, Forall_app; by split).
    assert (Ec2 : contents t = (items_of L0 ++ take k xs) ++ z :: drop (S k) xs ++ items_of L).
    { rewrite Ec. rewrite <- (take_drop k xs) at 1. rewrite (drop_S _ _ _ Hz), <- !app_assoc. done. }
    destruct z as [kz vz]. rewrite key_eqb_spec. destruct (bool_decide (key_cmp kz key = Eq) && bool_decide (vz = value)) eqn:Eb.
    + apply andb_true_iff in Eb as [E1%bool_decide_eq_true E2%bool_decide_eq_true].
      assert (Hg : gone (kz, vz)) by (by apply same_entry).
      destruct (edit_remove d lk xs k Hok Ha Hlt) as (d' & Er & Hok' & Ha').
      assert (Ef : filter (fun w => ~ gone w) xs = take k xs ++ drop (S k) xs).
      { rewrite <- (take_drop k xs) at 1. rewrite (drop_S _ _ _ Hz), filter_app, filter_cons_False by (by intros []).
        apply Forall_app in Hfront as [_ Hf1]. apply Forall_app in Hrest as [Hf2 _]. by rewrite !filter_all. }
      rewrite <- Ef in Ha'. apply (wp_step _ _ _ _ s d'); [unfold edit; by rewrite Er|].
      apply wp_bind. eapply wp_mono; [by apply log_full_page_runs|]. intros s' [[]|e] (Ea & H1).
      * destruct (page_held crc32 s t q _ Hpg Hq) as (Hqa & _ & _).
        destruct (shrink_leaf s s' t L0 q xs L lk _ d' Hpg El Hq Hok' Ha') as (t' & Hpg' & El' & _);
          [destruct H1 as (d1 & _ & Ep); eapply (held_put); [done|exact Ep|rewrite Ea; set_solver]|done|].
        unfold wp, mret, se_ret. cbn [fst snd]. exists t'. split; [done|]. split; [|split; [|done]].
        -- rewrite (contents_leaves t'), El', items_of_app, items_of_cons, Ec2, Ef. rewrite filter_app, filter_cons_False by (by intros []). rewrite !filter_all by done. by rewrite <- !app_assoc.
        -- intros _. rewrite Ec2. apply Exists_app. right. by constructor.
      * destruct H1 as [He Ep]. exists t. split; [|done]. split; [split; [done|by rewrite Ep]|]. by apply (held_same s); [|..|rewrite Ea].
    + unfold wp, mret, se_ret. cbn [fst snd]. apply not_removed; [done|]. rewrite Ec2. apply Forall_app. split; [done|]. constructor; [|done].
      unfold gone, y. rewrite same_entry. cbn. intros [E1 E2]. rewrite !bool_decide_true in Eb by done. done.
  - assert (Hk' : k = length xs) by (apply lookup_ge_None in Hz; lia). rewrite (proj2 (N.ltb_ge _ _)) by (unfold len; lia). rewrite Elk.
    rewrite Hk', firstn_all in Hbelow. assert (Hpre' : Forall (fun z => pt z ≺ y) (items_of (L0 ++ [(q, xs)]))).
    { rewrite items_of_app, items_of_cons, app_nil_r. by apply Forall_app. }
    case_bool_decide as EL.
    + subst L. unfold wp, mret, se_ret. cbn [fst snd]. apply not_removed; [done|]. rewrite Ec, app_nil_r. apply kept_below. by apply Forall_app.
    + apply (IH fuel (L0 ++ [(q, xs)]) lk); try done; [by rewrite <- app_assoc|cbn in Hf; lia].
Qed.
End Remove.

Lemma remove_runs txn key value (s : State) t :
  pages_ok crc32 s t -> wp (remove crc32 txn key value) (removed key (encode value) t) s.
Proof.
  intros Hpg. pose proof Hpg as [[Ht Hr] _]. unfold remove.
  destruct (walk_probe crc32 _ t Ht Hr (mkProbe key (Some (encode value)))) as (q & L0 & L & E & El & Ec & Hc & Hne & Hf & Hpre).
  eapply wp_reads; [exact E|]. eapply wp_step; [done|]. apply (remove_loop_runs txn key (encode value) s t L Hpg _ L0 q); try done. lia.
Qed.

(** ** Removing dead entries *)

Section Vacuum.
Context (txn : TxnId) (dead : list RowLocation).
Definition dead_entry (z : Item) : Prop := loc z.2 ∈ dead.
Global Instance dead_entry_dec z : Decision (dead_entry z).
Proof using. unfold dead_entry. apply _. Defined.
Definition alive (zs : list Item) : list Item := filter (fun z => ~ dead_entry z) zs.
Definition dead_count (zs : list Item) : N := len (filter dead_entry zs).

Lemma dead_count_app xs zs : dead_count (xs ++ zs) = dead_count xs + dead_count zs.
Proof using. unfold dead_count. by rewrite filter_app, len_app. Qed.

(** From the last entry down, each dead one is taken out of the copy. *)
Lemma remove_dead_ok lk xs : forall pos d n,
  (pos <= length xs)%nat -> node_ok crc32 d -> abs_node (node_of d) (ALeaf lk (take pos xs ++ alive (drop pos xs))) ->
  exists d', remove_dead crc32 pos dead d n = Ok (d', n + dead_count (take pos xs)) /\ node_ok crc32 d' /\
    abs_node (node_of d') (ALeaf lk (alive xs)) /\ (dead_count (take pos xs) = 0 -> d' = d).
Proof.
  induction pos as [|pos IH]; intros d n Hpos Hok Ha; cbn [remove_dead].
  { exists d. rewrite drop_0 in Ha. cbn [take app] in *. split_and!; [|done|done|done]. unfold dead_count. cbn. by rewrite N.add_0_r. }
  destruct (lookup_lt_is_Some_2 xs pos) as [z Hz]; [lia|]. rewrite (take_S_r _ _ _ Hz) in Ha |- *. rewrite <- app_assoc in Ha. cbn [app] in Ha.
  set (rest := alive (drop (S pos) xs)) in *. assert (Hl : length (take pos xs) = pos) by (rewrite length_take; lia).
  assert (Hzi : (take pos xs ++ z :: rest) !! pos = Some z) by (by apply list_lookup_middle).
  pose proof Ha as (_ & _ & Hes). destruct (Forall2_lookup_r _ _ _ _ _ Hes Hzi) as ([kb vb] & He & _ & Ev & Hvl). cbn [fst snd] in *.
  destruct (node_entry crc32 d Hok (N.of_nat pos) (kb, vb)) as [_ Evb]; [by rewrite Nat2N.id|]. rewrite Evb. cbn [read map_err mbind result_bind fst snd].
  rewrite decode_loc by done. cbn [tried map_err mbind result_bind]. rewrite dead_count_app.
  assert (Hstep : alive (drop pos xs) = if decide (dead_entry z) then rest else z :: rest).
  { rewrite (drop_S _ _ _ Hz). unfold alive. case_decide; [by rewrite filter_cons_False by (by intros [])|by rewrite filter_cons_True]. }
  assert (Hone : dead_count [z] = if decide (dead_entry z) then 1 else 0).
  { unfold dead_count. case_decide; [by rewrite filter_cons_True|by rewrite filter_cons_False]. }
  rewrite Hone, Ev. unfold dead_entry in Hstep |- *. rewrite (bool_decide_decide (loc z.2 ∈ dead)). destruct (decide (loc z.2 ∈ dead)) as [Hd|Hd].
  - destruct (edit_remove d lk (take pos xs ++ z :: rest) pos Hok Ha) as (d' & Er & Hok' & Ha').
    { rewrite length_app, Hl. cbn. lia. }
    rewrite Er. rewrite take_app_length' in Ha' by done. rewrite (cons_middle z), app_assoc in Ha'.
    rewrite drop_app_length' in Ha' by (rewrite length_app, Hl; cbn; lia).
    destruct (IH d' (n + 1)) as (d2 & -> & Hok2 & Ha2 & _); [lia|done|by rewrite Hstep|]. exists d2. split_and!; [do 2 f_equal; lia|done|done|lia].
  - destruct (IH d n) as (d2 & -> & Hok2 & Ha2 & H0); [lia|done|by rewrite Hstep|]. exists d2. rewrite N.add_0_r. by split_and!.
Qed.

Lemma alive_app xs zs : alive (xs ++ zs) = alive xs ++ alive zs.
Proof using. unfold alive. by rewrite filter_app. Qed.
Lemma alive_none zs : dead_count zs = 0 -> alive zs = zs.
Proof using.
  intros H. unfold alive. apply filter_all. apply Forall_forall. intros z Hz Hd. unfold dead_count, len in H.
  assert (Hin : z ∈ filter dead_entry zs) by (by apply list_elem_of_filter). destruct (filter dead_entry zs); [by apply elem_of_nil in Hin|done].
Qed.

(** The entries before [front] are done; a stop on the way leaves those behind it. *)
Definition vacuumed (front : list Item) (todo : list Item) (n0 : N) (s' : State) (r : result Halt N) : Prop :=
  exists t', pages_ok crc32 s' t' /\
    match r with
    | Ok n => contents t' = front ++ alive todo /\ n = n0 + dead_count todo
    | Err e => failed e /\ exists pre post, todo = pre ++ post /\ contents t' = front ++ alive pre ++ post
    end.

(** One leaf, and the tree it leaves. *)
Lemma vacuum_leaf (s : State) t La q xs L lk d d' :
  pages_ok crc32 s t -> leaves t.(groups) = La ++ (q, xs) :: L -> t.(nodes) !! q = Some (ALeaf lk xs) ->
  chain t.(nodes) lk L -> node_ok crc32 d' -> abs_node (node_of d') (ALeaf lk (alive xs)) -> (dead_count xs = 0 -> d' = d) ->
  wp (if 0 <? dead_count xs then log_full_page crc32 (Logged txn) q d' else mret ()) (fun s' r =>
    match r with
    | Ok _ => exists t', pages_ok crc32 s' t' /\ leaves t'.(groups) = (La ++ [(q, alive xs)]) ++ L /\ chain t'.(nodes) lk L
    | Err e => failed e /\ pages_ok crc32 s' t
    end) s.
Proof.
  intros Hpg El Hq Hc Hok Ha H0. pose proof Hpg as [[Ht Hr] Hh]. destruct (N.ltb_spec 0 (dead_count xs)) as [Hlt|Hge].
  - eapply wp_mono; [by apply log_full_page_runs|]. intros s' [[]|e] (Ea & H1).
    + destruct (page_held crc32 s t q _ Hpg Hq) as (Hqa & _ & _).
      destruct (shrink_leaf s s' t La q xs L lk _ d' Hpg El Hq Hok Ha) as (t' & Hpg' & El' & En);
        [destruct H1 as (d1 & _ & Ep); eapply held_put; [done|exact Ep|rewrite Ea; set_solver]|done|].
      exists t'. split_and!; [done|by rewrite El', <- app_assoc|]. rewrite En. eapply chain_ext; [exact Hc|]. intros q' Hq'.
      apply lookup_insert_ne. intros <-. pose proof (t_nodup _ _ _ Ht) as Hnd. rewrite El, fmap_app in Hnd. apply NoDup_app in Hnd as (_ & _ & Hnd).
      by apply NoDup_cons in Hnd as [? _].
    + destruct H1 as [He Ep]. split; [done|]. split; [split; [done|by rewrite Ep]|]. by apply (held_same s); [|..|rewrite Ea].
  - unfold wp, mret, se_ret. cbn [fst snd]. exists t. rewrite alive_none by lia. split_and!; [done|by rewrite El, <- app_assoc|done].
Qed.

Lemma remove_values_loop_runs cancel L : forall fuel La (s : State) t p turn n,
  pages_ok crc32 s t -> leaves t.(groups) = La ++ L -> chain t.(nodes) p L -> L <> [] -> (length L <= fuel)%nat ->
  wp (remove_values_loop crc32 fuel txn dead cancel turn p n) (vacuumed (items_of La) (items_of L) n) s.
Proof.
  induction L as [|[q xs] L IH]; intros fuel La s t p turn n Hpg El Hc Hne Hf; [done|]. destruct fuel as [|fuel]; [cbn in Hf; lia|].
  cbn [remove_values_loop]. pose proof Hpg as [[Ht Hr] Hh].
  assert (Hstop : forall (s' : State) e, failed e -> pages_ok crc32 s' t -> vacuumed (items_of La) (items_of ((q, xs) :: L)) n s' (Err e)).
  { intros s' e He Hpg'. exists t. split; [done|]. split; [done|]. exists [], (items_of ((q, xs) :: L)). split; [done|].
    by rewrite contents_leaves, El, items_of_app. }
  destruct (cancel_check cancel turn) as [[]|e] eqn:Ecan.
  2:{ eapply wp_stop; [done|]. apply Hstop; [|done]. unfold cancel_check in Ecan. destruct cancel as [check|]; [|done].
      destruct (check turn); [done|]. injection Ecan as <-. by eexists. }
  eapply wp_lift; [done|].
  assert (Hq : exists lk, p = q /\ t.(nodes) !! q = Some (ALeaf lk xs)) by (destruct Hc as (-> & _ & lk & ? & _); by exists lk). destruct Hq as (lk' & -> & Hq).
  destruct (chain_step crc32 _ _ Hr _ _ _ _ Hc) as (d & lk & Erd & Hok & Ha & Ed & Hc' & Elk).
  assert (lk' = lk) as ->.
  { destruct (node_page crc32 _ _ Hr _ _ Hq) as (d' & Erd' & _ & Ha'). rewrite Erd in Erd'. injection Erd' as <-. rewrite <- Ed. symmetry. exact (node_link_of d _ Ha'). }
  eapply wp_reads; [exact Erd|]. rewrite (node_count crc32 d Hok _ Ha). cbn [points]. unfold len. rewrite length_fmap, Nat2N.id.
  destruct (remove_dead_ok lk xs (length xs) d 0) as (d' & -> & Hok' & Ha' & H0); [lia|done|by rewrite take_ge, drop_ge, app_nil_r by lia|].
  rewrite firstn_all in *. eapply wp_lift; [done|]. cbv beta iota. rewrite N.add_0_l, (node_link_of d' _ Ha').
  apply wp_bind. eapply wp_mono; [by eapply (vacuum_leaf s t La q xs L lk d d')|]. intros s1 [[]|e]; [|intros [He Hpg1]; by apply Hstop].
  intros (t1 & Hpg1 & El1 & Hc1). rewrite items_of_cons. assert (Efront : items_of (La ++ [(q, alive xs)]) = items_of La ++ alive xs).
  { by rewrite items_of_app, items_of_cons, app_nil_r. }
  rewrite Elk. case_bool_decide as EL.
  - subst L. unfold wp, mret, se_ret. cbn [fst snd]. exists t1. split; [done|]. rewrite contents_leaves, El1, app_nil_r, Efront, app_nil_r.
    by split.
  - eapply wp_mono; [apply (IH fuel (La ++ [(q, alive xs)]) s1 t1 lk (S turn) (n + dead_count xs)); try done; cbn in Hf; lia|].
    intros s2 r (t2 & Hpg2 & Hres). exists t2. split; [done|]. rewrite Efront in Hres. destruct r as [m|e].
    + destruct Hres as [E1 ->]. rewrite E1, alive_app, dead_count_app, <- app_assoc. split; [done|lia].
    + destruct Hres as (He & pre & post & E1 & E2). split; [done|]. exists (xs ++ pre), post. rewrite E1, E2, alive_app, <- !app_assoc. by split.
Qed.

Lemma remove_values_runs cancel (s : State) t :
  pages_ok crc32 s t -> wp (remove_values_in_cancelable crc32 txn dead cancel) (vacuumed [] (contents t) 0) s.
Proof.
  intros Hpg. pose proof Hpg as [[Ht Hr] _]. unfold remove_values_in_cancelable. case_bool_decide as Ed.
  - unfold wp, mret, se_ret. cbn [fst snd]. exists t. assert (Hz : dead_count (contents t) = 0).
    { unfold dead_count. rewrite filter_none; [done|]. apply Forall_forall. intros z _. unfold dead_entry. rewrite Ed. by intros ?%elem_of_nil. }
    rewrite Hz. split; [done|]. split; [|done]. by rewrite alive_none.
  - destruct (walk_first crc32 _ t Ht Hr) as (q & L & E & El & Ec & Hc & Hne & Hf). eapply wp_reads; [exact E|]. eapply wp_step; [done|].
    rewrite Ec. apply (remove_values_loop_runs cancel L _ [] s t q 0%nat 0); try done. lia.
Qed.
End Vacuum.
End Spec.
