(* ===== verification/Index.v ===== *)
(** * The index as a sorted multimap

    The properties of the B-tree that its callers rely on: an index [holds] a sorted list of
    entries; lookups answer from it, insertion and removal change it, whatever fails on the
    way leaves an index, and every walk ends.  The codec of keys ([RowCodec]) meets the
    interface the tree is proved against; the splits that the code cannot do come last. *)

From S2P Require Import Prelude Errors Mvcc CheckedBytes ByteArray Page IndexPage KeyOrder Value RowCodec BTree BLink BTreeRead BTreeInsert BTreeSpec.
Local Open Scope N_scope.

(** ** Keys of values *)

#[global] Instance value_keys {D} `{!DecimalType D} : KeyCodec (Value D) := {|
  BTree.value_cmp := Value.value_cmp;
  BTree.encode_key := RowCodec.encode_key;
  BTree.decode_key_prefix := RowCodec.decode_key_prefix
|}.
#[global] Instance value_keys_ok {D} `{!DecimalType D, !DecimalLaws D} : KeyCodecLaws (Value D) := {|
  BTree.key_ok := key_fits;
  BTree.value_cmp_order := value_cmp_total;
  BTree.decode_encode_key := key_roundtrip;
  BTree.encode_key_bytes := encode_key_ok
|}.

Section Index.
Context (crc32 : bytes -> N) (Hcrc : crc_fits crc32).
Context {V : Type} `{!KeyCodec V, !KeyCodecLaws V}.
Context {W : Type} `{!IndexEnv W, !IndexEnvLaws W}.
Abbreviation Key := (list V).
Abbreviation Entry := (Key * bytes)%type.
Abbreviation State := (@Index W).

(** The pages are a tree with these entries. *)
Definition holds (s : State) (xs : list Entry) : Prop := exists t, pages_ok crc32 s t /\ contents t = xs.

Definition before (a b : Entry) : Prop := ord_lt pt_cmp (pt a) (pt b).
Definition same (a b : Entry) : Prop := pt_cmp (pt a) (pt b) = Eq.
Global Instance same_dec a b : Decision (same a b).
Proof using. unfold same. apply _. Defined.

Definition entry_of (key : Key) (value : RowLocation) : Entry := (key, encode value).

(** A page of the tree has lost all of its entries. *)
Definition has_empty_page (s : State) : Prop := exists p d, p <> 0 /\ s.(ipages) !! p = Some d /\ entry_count d = 0.

Definition location_ok (v : RowLocation) : Prop := v.(file_id) <= U32_MAX /\ v.(page_num) <= U32_MAX /\ v.(slot_num) <= U16_MAX.

Lemma stopped_page (s : State) t e : pages_ok crc32 s t -> stopped t e -> (exists x, e = Failed x) \/ e = Panics /\ has_empty_page s.
Proof.
  intros [[_ [Hn _]] _] [He|(-> & p & a & Hp & Ha)]; [by left|right]. split; [done|]. destruct (Hn p a Hp) as (H0 & d & Hd & Hok & Habs).
  exists p, d. split_and!; [done|done|]. by rewrite (node_count crc32 d Hok a Habs), Ha.
Qed.

Lemma loc_encode v : location_ok v -> loc (encode v) = v.
Proof using.
  intros (H1 & H2 & H3). destruct v as [f p sl]. unfold loc, encode. cbn [file_id page_num slot_num] in *. unfold U32_MAX, U16_MAX in *.
  pose proof (len_le_bytes 4 f) as L1. pose proof (len_le_bytes 4 p) as L2. pose proof (len_le_bytes 2 sl) as L3.
  set (a := to_le_bytes 4 f) in *. set (b := to_le_bytes 4 p) in *. set (c := to_le_bytes 2 sl) in *.
  rewrite sub_app_l, (sub_all a) by lia. rewrite sub_app_r, L1, sub_app_l, (sub_all b) by lia.
  rewrite sub_app_r, L1, sub_app_r, L2, (sub_all c) by lia. unfold a, b, c. rewrite !from_to_le_bytes; [done|cbn; lia..].
Qed.

Lemma add_perm (x : Entry) xs : add x xs ≡ₚ x :: xs.
Proof using.
  unfold add. rewrite <- Permutation_middle. apply Permutation_skip. induction xs as [|z xs IH]; [done|].
  rewrite !filter_cons. case_decide; case_decide; try tauto; cbn; [by apply Permutation_skip|]. rewrite <- Permutation_middle. by apply Permutation_skip.
Qed.

(** Adding an entry adds its location to the answers for its key, and to no other. *)
Lemma matching_add key value xs k :
  location_ok value -> matching k (add (entry_of key value) xs) ≡ₚ (if decide (key_cmp key k = Eq) then [value] else []) ++ matching k xs.
Proof using.
  intros Hv. unfold matching. rewrite (add_perm (entry_of key value) xs). rewrite filter_cons. cbn [entry_of fst].
  case_decide; [|done]. rewrite fmap_cons. replace ((loc ∘ snd) (entry_of key value)) with value by (symmetry; by apply loc_encode). done.
Qed.
Lemma sorted_parts (x : Entry) xs : StronglySorted before xs ->
  filter (fun z => before z x) xs ++ filter (fun z => ~ before z x) xs = xs.
Proof using KeyCodecLaws0.
  induction 1 as [|z xs _ IH Hz]; [done|]. rewrite !filter_cons. case_decide as Hzx; case_decide; try tauto; cbn; [by rewrite IH|].
  assert (Hall : Forall (fun w => ~ before w x) xs).
  { eapply Forall_impl; [exact Hz|]. intros w Hw Hwx. apply Hzx. unfold before in *. by eapply (ord_lt_trans pt_cmp). }
  by rewrite filter_none, filter_all.
Qed.
Lemma matching_add_other key value xs k :
  StronglySorted before xs -> key_cmp key k <> Eq -> matching k (add (entry_of key value) xs) = matching k xs.
Proof using KeyCodecLaws0.
  intros Hs Hk. rewrite <- (sorted_parts (entry_of key value) xs Hs) at 2. unfold add. rewrite (cons_middle (entry_of key value)), !matching_app.
  rewrite (matching_none k [_]) by (by repeat constructor). done.
Qed.

Lemma visit_collect (es : list (Key * RowLocation)) : forall acc, visit (fun out k v => Ok (out ++ [(k, v)])) acc es = Ok (acc ++ es).
Proof using. induction es as [|[k v] es IH]; intros acc; cbn; [by rewrite app_nil_r|]. rewrite IH. by rewrite <- app_assoc. Qed.

Lemma holds_insert mode key value (s : State) xs :
  holds s xs -> key_ok key -> Forall (fun z => ~ same z (entry_of key value)) xs ->
  (insert_with_mode crc32 mode key value s).2 = Ok () -> holds (insert_with_mode crc32 mode key value s).1 (add (entry_of key value) xs).
Proof.
  intros (t & Hpg & <-) Hk Hnew E. pose proof (insert_runs crc32 Hcrc mode key value s t Hpg Hk Hnew) as H. unfold wp in H. by rewrite E in H.
Qed.
Lemma holds_create txn (s : State) :
  held s -> (new_page s.(ienv)).2 = Ok META_PAGE -> (create crc32 txn s).2 = Ok () -> holds (create crc32 txn s).1 [].
Proof. intros Hh Hm E. pose proof (create_runs crc32 Hcrc txn s Hh Hm) as H. unfold wp in H. by rewrite E in H. Qed.

(** C26: No walk through an index goes on for ever: with the number of pages as a bound, the
    descent to the leaf that answers for a probe and the descent along the left edge end at
    a leaf, lookups and range scans give an answer, and insertion, removal and the sweep of
    dead entries end, in success or in an error. *)
Theorem index_walks_end (s : State) xs :
  holds s xs ->
  (forall probe, exists p, descend_to_leaf s.(ipages) probe = Ok p /\ node_is_leaf s.(ipages) p = Ok true) /\
  (exists p, first_leaf s.(ipages) = Ok p /\ node_is_leaf s.(ipages) p = Ok true) /\
  (forall key, exists l1 l2, search s.(ipages) key = Ok l1 /\ scan_key s.(ipages) key = Ok l2) /\
  (forall range, exists l, range_cancelable s.(ipages) range None = Ok l) /\
  (forall mode key value, key_ok key -> Forall (fun z => ~ same z (entry_of key value)) xs -> (insert_with_mode crc32 mode key value s).2 <> Err Diverges) /\
  (forall txn key value, (remove crc32 txn key value s).2 <> Err Diverges) /\
  (forall txn dead cancel, (remove_values_in_cancelable crc32 txn dead cancel s).2 <> Err Diverges).
Proof.
  intros (t & Hpg & <-). pose proof Hpg as [[Ht Hr] _].
  assert (Hleaf : forall p L, chain t.(nodes) p L -> L <> [] -> node_is_leaf s.(ipages) p = Ok true).
  { intros p [|[q xs] L] Hc Hne; [done|]. destruct (chain_step crc32 _ _ Hr _ _ _ _ Hc) as (d & lk & Erd & Hok & Ha & _). unfold node_is_leaf. rewrite Erd.
    cbn [mbind result_bind]. by rewrite (node_leafy d _ Ha). }
  split_and!.
  - intros probe. destruct (walk_probe crc32 _ t Ht Hr probe) as (q & L0 & L & E & _ & _ & Hc & Hne & _). exists q. split; [done|by eapply Hleaf].
  - destruct (walk_first crc32 _ t Ht Hr) as (q & L & E & _ & _ & Hc & Hne & _). exists q. split; [done|by eapply Hleaf].
  - intros key. eexists _, _. split; [by eapply search_answers|by eapply scan_key_answers].
  - intros range. eexists. unfold range_cancelable. rewrite (range_answers crc32 _ t Ht Hr) by done. apply visit_collect.
  - intros mode key value Hk Hnew E. pose proof (insert_runs crc32 Hcrc mode key value s t Hpg Hk Hnew) as H. unfold wp in H. rewrite E in H.
    destruct H as (_ & _ & [[x [=]]|[[=] _]] & _).
  - intros txn key value E. pose proof (remove_runs crc32 Hcrc txn key value s t Hpg) as H. unfold wp in H. rewrite E in H. by destruct H as (_ & _ & [x [=]] & _).
  - intros txn dead cancel E. pose proof (remove_values_runs crc32 Hcrc txn dead cancel s t Hpg) as H. unfold wp in H. rewrite E in H. by destruct H as (_ & _ & [x [=]] & _).
Qed.

(** C23: An index answers from its entries, which are sorted by key and then by location: a
    lookup finds the first location of the key, a scan all of them in order, and a range
    scan visits exactly the entries the range takes, in order, up to the visitor's first
    error. *)
Theorem index_answers (s : State) xs :
  holds s xs ->
  StronglySorted before xs /\
  (forall key, search s.(ipages) key = Ok (head (matching key xs))) /\
  (forall key, scan_key s.(ipages) key = Ok (matching key xs)) /\
  (forall range, range_cancelable s.(ipages) range None = Ok (select range xs)) /\
  (forall A range (visitor : A -> Key -> RowLocation -> DbResult A) acc,
    range_for_each_cancelable s.(ipages) range None visitor acc = visit visitor acc (select range xs)).
Proof.
  intros (t & [[Ht Hr] _] & <-). split_and!.
  - by apply contents_sorted.
  - intros key. by eapply search_answers.
  - intros key. by eapply scan_key_answers.
  - intros range. unfold range_cancelable. rewrite (range_answers crc32 _ t Ht Hr) by done. apply visit_collect.
  - intros A range visitor acc. by apply (range_answers crc32 _ t Ht Hr).
Qed.

(** C22: Insertion refines adding the entry to the sorted list.  In every case the pages left
    are an index: after a success it holds the new entry in its place and all others; after
    an error it holds the entries of before, or has the new one as well when only a step
    above the leaf failed.  The one panic needs a page that lost all of its entries. *)
Theorem index_insert_refines mode key value (s : State) xs :
  holds s xs -> key_ok key -> Forall (fun z => ~ same z (entry_of key value)) xs ->
  let '(s', r) := insert_with_mode crc32 mode key value s in
  match r with
  | Ok _ => holds s' (add (entry_of key value) xs)
  | Err e => (holds s' xs \/ holds s' (add (entry_of key value) xs)) /\ ((exists x, e = Failed x) \/ e = Panics /\ has_empty_page s)
  end.
Proof.
  intros (t & Hpg & <-) Hk Hnew. pose proof (insert_runs crc32 Hcrc mode key value s t Hpg Hk Hnew) as H. unfold wp in H.
  destruct (insert_with_mode crc32 mode key value s) as [s' [[]|e]]; cbn [fst snd] in H; destruct H as (t' & Hpg' & Hres).
  - by exists t'.
  - destruct Hres as [Hs Hc]. split; [|by eapply stopped_page]. destruct Hc as [E|E]; [left|right]; by exists t'.
Qed.

(** Removal takes the entry of the key and location out of the list and answers whether
    it was there; an error leaves the entries as they are. *)
Theorem index_remove_refines txn key value (s : State) xs :
  holds s xs ->
  let '(s', r) := remove crc32 txn key value s in
  match r with
  | Ok found => holds s' (filter (fun z => ~ same z (entry_of key value)) xs) /\ (found = true <-> Exists (fun z => same z (entry_of key value)) xs)
  | Err e => holds s' xs /\ exists x, e = Failed x
  end.
Proof.
  intros (t & Hpg & <-). pose proof (remove_runs crc32 Hcrc txn key value s t Hpg) as H. unfold wp in H.
  destruct (remove crc32 txn key value s) as [s' [b|e]]; cbn [fst snd] in H; destruct H as (t' & Hpg' & H1 & H2).
  - split; [by exists t'|exact H2].
  - split; [by exists t'|exact H1].
Qed.

(** C34: The sweep of dead entries drops every entry whose location is dead, keeps the others in
    order and counts the dropped ones; when it is cancelled or fails half-way, the entries
    before some point are swept and those behind it are untouched. *)
Theorem index_vacuum_refines txn dead cancel (s : State) xs :
  holds s xs ->
  let '(s', r) := remove_values_in_cancelable crc32 txn dead cancel s in
  match r with
  | Ok n => holds s' (alive dead xs) /\ n = dead_count dead xs
  | Err e => (exists x, e = Failed x) /\ exists front back, xs = front ++ back /\ holds s' (alive dead front ++ back)
  end.
Proof.
  intros (t & Hpg & <-). pose proof (remove_values_runs crc32 Hcrc txn dead cancel s t Hpg) as H. unfold wp in H.
  destruct (remove_values_in_cancelable crc32 txn dead cancel s) as [s' [n|e]]; cbn [fst snd] in H; destruct H as (t' & Hpg' & H).
  - destruct H as [E ->]. split; [by exists t'|by rewrite N.add_0_l].
  - destruct H as (He & pre & post & E & Ec). split; [done|]. exists pre, post. split; [done|]. by exists t'.
Qed.

(** What is inserted is found: after a successful insertion a scan of the key gives the new
    location besides those it gave before, and a scan of any other key gives what it gave. *)
Theorem inserted_is_found mode key value (s s' : State) xs :
  holds s xs -> key_ok key -> location_ok value -> Forall (fun z => ~ same z (entry_of key value)) xs ->
  insert_with_mode crc32 mode key value s = (s', Ok ()) ->
  (exists old new, scan_key s.(ipages) key = Ok old /\ scan_key s'.(ipages) key = Ok new /\ new ≡ₚ value :: old) /\
  (forall k, key_cmp key k <> Eq -> scan_key s'.(ipages) k = scan_key s.(ipages) k).
Proof.
  intros (t & Hpg & <-) Hk Hv Hnew E. pose proof (insert_runs crc32 Hcrc mode key value s t Hpg Hk Hnew) as H. unfold wp in H. rewrite E in H.
  cbn [fst snd] in H. destruct H as (t' & [[Ht' Hr'] _] & Hc). destruct Hpg as [[Ht Hr] _]. split.
  - eexists _, _. split_and!; [by apply (scan_key_answers crc32 _ t Ht Hr)|by apply (scan_key_answers crc32 _ t' Ht' Hr')|]. rewrite Hc. fold (entry_of key value). rewrite matching_add by done.
    rewrite decide_True; [done|]. apply (cmp_refl key_cmp).
  - intros k Hne. rewrite (scan_key_answers crc32 _ t Ht Hr), (scan_key_answers crc32 _ t' Ht' Hr'), Hc. f_equal.
    apply matching_add_other; [by apply contents_sorted|done].
Qed.

(** Creating an index in a new file, where the pool gives out page 0 first, and resetting
    the two pages of one both leave an index without entries. *)
Theorem new_index_is_empty txn mode (s : State) :
  held s ->
  ((new_page s.(ienv)).2 = Ok META_PAGE -> forall s', create crc32 txn s = (s', Ok ()) -> holds s' []) /\
  ({[0; 1]} ⊆ allocated s.(ienv) -> is_Some (s.(ipages) !! 0) -> is_Some (s.(ipages) !! 1) ->
    forall s', reset_to_empty_with_mode crc32 mode s = (s', Ok ()) -> holds s' []).
Proof.
  intros Hh. split.
  - intros Hm s' E. pose proof (create_runs crc32 Hcrc txn s Hh Hm) as H. unfold wp in H. by rewrite E in H.
  - intros Ha H0 H1 s' E. pose proof (reset_runs crc32 Hcrc mode s Hh Ha H0 H1) as H. unfold wp in H. by rewrite E in H.
Qed.
End Index.

(** ** An index in a file

    A pool that gives out the pages of a file in order and never takes one back, and a log
    that accepts every image. *)
#[global] Instance counting_env : IndexEnv N := {|
  allocated w := list_to_set (N.of_nat <$> seq 0 (N.to_nat (N.min w (U32_MAX + 1))));
  new_page w := if w <=? U32_MAX then (w + 1, Ok w) else (w, Err (db_internal "the file is full"));
  abandon_unpublished_new_page p w := (w, Ok ());
  append_full_page file p image w := (w, Ok 1)
|}.

Lemma counted w p : p ∈ allocated w <-> p < N.min w (U32_MAX + 1).
Proof.
  cbn [allocated counting_env]. rewrite elem_of_list_to_set, list_elem_of_fmap. split.
  - intros (n & -> & Hn). apply elem_of_seq in Hn. lia.
  - intros H. exists (N.to_nat p). rewrite N2Nat.id, elem_of_seq. split; [done|lia].
Qed.

#[global] Instance counting_env_laws : IndexEnvLaws N.
Proof.
  split.
  - intros w p Hp%counted. lia.
  - intros w w' p E. unfold new_page, counting_env in E. destruct (N.leb_spec w U32_MAX); [|done]. injection E as <- <-. split; [rewrite counted; lia|].
    apply set_eq. intros q. rewrite elem_of_union, elem_of_singleton, !counted. lia.
  - intros w w' e E. unfold new_page, counting_env in E. destruct (w <=? U32_MAX); [done|]. by injection E as <- _.
  - intros w w' p r E. injection E as <- _. set_solver.
  - intros w w' file p i r E. by injection E as <- _.
Qed.

Abbreviation DemoValue := (Value (Z * N)).
Definition demo_file : @Index N := mkIndex ∅ 0.
Definition text_key (n : nat) (c : N) : list DemoValue := [Text (replicate n c)].
Definition demo_create : SE (@Index N) Halt unit := create demo_crc 5.
Definition demo_insert (key : list DemoValue) (value : RowLocation) : SE (@Index N) Halt unit := insert_with_mode demo_crc Unlogged key value.
Definition here (n : N) : RowLocation := mkRowLocation 1 n 2.

Definition demo1 : @Index N := (demo_create demo_file).1.
Definition demo2 : @Index N := (demo_insert (text_key 3 97) (here 1) demo1).1.
Definition demo_entries : list (list DemoValue * bytes) := [entry_of (text_key 3 97) (here 1)].

Lemma text_key_ok c : c < 0x80 -> key_ok (text_key 3 c).
Proof.
  intros Hc. split.
  - constructor; [|constructor]. split; [repeat constructor; unfold is_byte; lia|]. cbn. by rewrite (proj2 (N.leb_le _ _)) by lia.
  - intros b E. cbn in E. injection E as <-. vm_compute. discriminate.
Qed.
Lemma demo_file_held : held demo_file.
Proof. unfold held. cbn [demo_file ipages]. rewrite dom_empty. apply empty_subseteq. Qed.
Lemma demo1_holds : holds demo_crc demo1 ([] : list (list DemoValue * bytes)).
Proof. apply (holds_create demo_crc demo_crc_fits); [apply demo_file_held|reflexivity|vm_compute; reflexivity]. Qed.
Lemma demo2_holds : holds demo_crc demo2 demo_entries.
Proof.
  apply (holds_insert demo_crc demo_crc_fits Unlogged (text_key 3 97) (here 1) demo1 []);
    [apply demo1_holds|by apply text_key_ok|constructor|vm_compute; reflexivity].
Qed.
Lemma demo_new : Forall (fun z => ~ same z (entry_of (text_key 3 98) (here 2))) demo_entries.
Proof. constructor; [|constructor]. intros H. vm_compute in H. discriminate. Qed.

Lemma index_walks_end_witness :
  holds demo_crc demo2 demo_entries /\
  exists p, descend_to_leaf demo2.(ipages) (mkProbe (text_key 3 98) None) = Ok p /\ node_is_leaf demo2.(ipages) p = Ok true.
Proof. split; [apply demo2_holds|]. apply (index_walks_end demo_crc demo_crc_fits demo2 demo_entries). apply demo2_holds. Defined.

Lemma index_answers_witness : scan_key demo2.(ipages) (text_key 3 97) = Ok [here 1] /\ search demo2.(ipages) (text_key 3 98) = Ok None.
Proof.
  destruct (index_answers demo_crc demo2 demo_entries demo2_holds) as (_ & H1 & H2 & _).
  split; [rewrite H2|rewrite H1]; vm_compute; reflexivity.
Defined.

Lemma index_insert_refines_witness :
  holds demo_crc (demo_insert (text_key 3 98) (here 2) demo2).1 (demo_entries ++ [entry_of (text_key 3 98) (here 2)]).
Proof.
  assert (E : (demo_insert (text_key 3 98) (here 2) demo2).2 = Ok ()) by (vm_compute; reflexivity).
  pose proof (index_insert_refines demo_crc demo_crc_fits Unlogged (text_key 3 98) (here 2) demo2 demo_entries demo2_holds (text_key_ok 98 eq_refl) demo_new) as H.
  fold demo_insert in H. unfold demo_insert in *. destruct (insert_with_mode demo_crc Unlogged (text_key 3 98) (here 2) demo2) as [s' r].
  cbn [fst snd] in *. subst r. exact H.
Defined.

Lemma index_remove_refines_witness :
  holds demo_crc (remove demo_crc 5 (text_key 3 97) (here 1) demo2).1 ([] : list (list DemoValue * bytes)).
Proof.
  assert (E : (remove demo_crc 5 (text_key 3 97) (here 1) demo2).2 = Ok true) by (vm_compute; reflexivity).
  pose proof (index_remove_refines demo_crc demo_crc_fits 5 (text_key 3 97) (here 1) demo2 demo_entries demo2_holds) as H.
  destruct (remove demo_crc 5 (text_key 3 97) (here 1) demo2) as [s' r]. cbn [fst snd] in *. subst r. exact (proj1 H).
Defined.

Lemma index_vacuum_refines_witness :
  holds demo_crc (remove_values_in_cancelable demo_crc 5 [here 1; here 4] None demo2).1 ([] : list (list DemoValue * bytes)).
Proof.
  assert (E : (remove_values_in_cancelable demo_crc 5 [here 1; here 4] None demo2).2 = Ok 1) by (vm_compute; reflexivity).
  pose proof (index_vacuum_refines demo_crc demo_crc_fits 5 [here 1; here 4] None demo2 demo_entries demo2_holds) as H.
  destruct (remove_values_in_cancelable demo_crc 5 [here 1; here 4] None demo2) as [s' r]. cbn [fst snd] in *. subst r. exact (proj1 H).
Defined.

Lemma inserted_is_found_witness :
  scan_key (demo_insert (text_key 3 98) (here 2) demo2).1.(ipages) (text_key 3 97) = scan_key demo2.(ipages) (text_key 3 97).
Proof.
  assert (E : (demo_insert (text_key 3 98) (here 2) demo2).2 = Ok ()) by (vm_compute; reflexivity).
  apply (inserted_is_found demo_crc demo_crc_fits Unlogged (text_key 3 98) (here 2) demo2 _ demo_entries demo2_holds (text_key_ok 98 eq_refl)).
  - vm_compute. repeat split; discriminate.
  - apply demo_new.
  - unfold demo_insert in *. destruct (insert_with_mode demo_crc Unlogged (text_key 3 98) (here 2) demo2). cbn [fst snd] in *. by subst.
  - vm_compute. discriminate.
Defined.

Lemma new_index_is_empty_witness : holds demo_crc demo1 ([] : list (list DemoValue * bytes)).
Proof.
  destruct (new_index_is_empty demo_crc demo_crc_fits 5 Unlogged demo_file demo_file_held) as [H _]. apply (H eq_refl). vm_compute. reflexivity.
Defined.

(** ** Splits that fail *)

Definition leaf_bytes (key : list DemoValue) (v : RowLocation) : bytes * bytes :=
  (match BTree.encode_key key with Ok b => b | Err _ => [] end, encode v).
Definition small : bytes * bytes := leaf_bytes (text_key 100 99) (here 3).
Definition large : bytes * bytes := leaf_bytes (text_key 8000 98) (here 2).
Definition middle : bytes * bytes := leaf_bytes (text_key 3000 97) (here 1).

(** C35: Two insertions fail that the checks let through.  (1) A leaf that lost its last entry
    keeps the space of the old ones; an entry that does not fit into what is left makes the
    split of a single entry, whose bounds cross, and the insertion panics.  (2) A leaf is
    split where half of the bytes is reached, not where the halves fit: entries of 3000,
    8000 and 100 bytes are split behind the second, which do not fit on a page together, and
    the insertion fails, though behind the first they do. *)
Theorem leaf_splits_fail :
  ((_ ← demo_insert (text_key 5000 97) (here 1); _ ← remove demo_crc 5 (text_key 5000 97) (here 1);
    demo_insert (text_key 5000 98) (here 2)) demo1).2 = Err Panics /\
  validate_index_key_fits (text_key 5000 98) = Ok () /\
  ((_ ← demo_insert (text_key 3000 97) (here 1); _ ← demo_insert (text_key 100 99) (here 3);
    demo_insert (text_key 8000 98) (here 2)) demo1).2 = Err (Failed (db_storage InternalError "index node is full")) /\
  validate_index_key_fits (text_key 8000 98) = Ok () /\
  split_point [middle; large; small] = Ok 2%nat /\
  (append_entries demo_crc [middle] (init demo_crc 2 true)).2 = Ok () /\
  (append_entries demo_crc [large; small] (init demo_crc 3 true)).2 = Ok ().
Proof. vm_compute. repeat split; reflexivity. Qed.
