(* ===== verification/HotChain.v ===== *)
(** * Version chains of a heap page (src/crates/storage/src/engine/visibility.rs,
    src/crates/storage/src/engine/vacuum.rs, src/crates/storage/src/engine/referential.rs)

    An index entry names a root slot of a page; the versions of its row hang off the root by
    the forward pointers of the tuple headers, each one on the same page and marked heap-only.
    Readers walk the chain to the version their snapshot sees.  Pruning plans, from one
    reading of the page, which slots of each chain to free, redirect, mark dead or reset, and
    applies the plan to a copy of the page.  The theorems: every walk ends, and pruning is
    possible on every well-formed page, leaves one and changes no answer of a live reader. *)

From S2P Require Import Prelude Errors Mvcc CheckedBytes ByteArray TupleHeader Page Value RowFormat BTree.
Local Open Scope N_scope.

Definition storage_internal (m : string) : DbError := db_storage InternalError m.
Definition internal {A} (m : string) : result Halt A := Err (Failed (storage_internal m)).

(** ** Plans *)

Record ChainMember : Type := mkMember {
  m_slot : N;
  m_xmin : TxnId;
  m_xmax : TxnId;
  m_infomask : N
}.

Record PagePrunePlan : Type := mkPlan {
  redirect_roots : list (N * N);
  dead_roots : list N;
  free_to_unused : list N;
  reset_slots : list N
}.

Definition empty_plan : PagePrunePlan := mkPlan [] [] [] [].
Definition plan_is_empty (p : PagePrunePlan) : bool :=
  match p with mkPlan [] [] [] [] => true | _ => false end.

Definition push_redirect (r : N * N) (p : PagePrunePlan) : PagePrunePlan :=
  mkPlan (p.(redirect_roots) ++ [r]) p.(dead_roots) p.(free_to_unused) p.(reset_slots).
Definition push_dead (s : N) (p : PagePrunePlan) : PagePrunePlan :=
  mkPlan p.(redirect_roots) (p.(dead_roots) ++ [s]) p.(free_to_unused) p.(reset_slots).
Definition push_free (l : list N) (p : PagePrunePlan) : PagePrunePlan :=
  mkPlan p.(redirect_roots) p.(dead_roots) (p.(free_to_unused) ++ l) p.(reset_slots).
Definition push_reset (s : N) (p : PagePrunePlan) : PagePrunePlan :=
  mkPlan p.(redirect_roots) p.(dead_roots) p.(free_to_unused) (p.(reset_slots) ++ [s]).

(** The four [truncate]s back to the lengths of an earlier plan. *)
Definition truncate_to (before p : PagePrunePlan) : PagePrunePlan :=
  mkPlan (take (length before.(redirect_roots)) p.(redirect_roots)) (take (length before.(dead_roots)) p.(dead_roots))
         (take (length before.(free_to_unused)) p.(free_to_unused)) (take (length before.(reset_slots)) p.(reset_slots)).

Section Chains.
Context (crc32 : bytes -> N).
Context {D : Type} `{!DecimalType D}.
Context {V : Type} `{!TxnStatusView V}.

(** ** Walking a chain *)

(** [read_row(..)?.ok_or_else(..)?] and the decoded header. *)
Definition live_tuple (d : bytes) (slot : N) (m : string) : result Halt bytes :=
  row ← read (read_row crc32 d slot); ok_or row (Failed (storage_internal m)).
Definition live_header (d : bytes) (slot : N) (m : string) : result Halt (TxnId * TxnId * (N * N) * N) :=
  b ← live_tuple d slot m; tried (decode_mvcc_header b).

(** A root resolved through its redirect; [None] for a reclaimed slot. *)
Definition resolve_root (d : bytes) (slot : N) : result Halt (option N) :=
  st ← tried (slot_state crc32 d slot);
  match st with
  | LpNormal => Ok (Some slot)
  | LpRedirect target =>
      st ← tried (slot_state crc32 d target);
      match st with
      | LpNormal => Ok (Some target)
      | _ => internal "redirect line pointer target is not a NORMAL tuple"
      end
  | LpDead | LpUnused => Ok None
  end.

(** The successor a reader follows: heap-only, on the same page, of a HOT-updated tuple. *)
Definition hot_successor (d : bytes) (page_num : N) (t_ctid : N * N) (infomask : N) : result Halt (option N) :=
  if negb (hint infomask HOT_UPDATED) then Ok None
  else
    let '(succ_page, succ_slot) := t_ctid in
    if negb (succ_page =? page_num) then Ok None
    else
      st ← tried (slot_state crc32 d succ_slot);
      match st with
      | LpNormal =>
          '(_, _, _, succ_infomask) ← live_header d succ_slot "HOT_UPDATED successor is not a live tuple";
          if negb (hint succ_infomask HEAP_ONLY) then Ok None else Ok (Some succ_slot)
      | _ => internal "HOT_UPDATED successor slot is not a NORMAL tuple"
      end.

Fixpoint resolve_loop (fuel : nat) (d : bytes) (v : V) (location : RowLocation) (snapshot : Snapshot) (current_txns : list TxnId)
    (visited : list N) (current_slot : N) : result Halt (option (RowLocation * N)) :=
  match fuel with
  | O => Err Diverges
  | S fuel =>
      if contains visited current_slot then internal "cyclic HOT chain detected"
      else
        '(xmin, xmax, t_ctid, infomask) ← live_header d current_slot "HOT chain member is not a live tuple";
        if is_visible xmin xmax infomask snapshot current_txns v
        then Ok (Some (mkRowLocation location.(file_id) location.(page_num) current_slot, infomask))
        else
          succ ← hot_successor d location.(page_num) t_ctid infomask;
          match succ with
          | None => Ok None
          | Some succ_slot => resolve_loop fuel d v location snapshot current_txns (current_slot :: visited) succ_slot
          end
  end.

(** The number of slots bounds the steps of a walk that visits no slot twice. *)
Definition chain_fuel (slot_count : N) : nat := S (N.to_nat slot_count).

Definition resolve_visible_in_chain (d : bytes) (v : V) (location : RowLocation) (snapshot : Snapshot) (current_txns : list TxnId)
    : result Halt (option (RowLocation * N)) :=
  root ← resolve_root d location.(slot_num);
  match root with
  | None => Ok None
  | Some current_slot =>
      slot_count ← tried (next_slot crc32 d);
      resolve_loop (chain_fuel slot_count) d v location snapshot current_txns [] current_slot
  end.

Fixpoint versions_loop (fuel : nat) (schema : TableSchema) (d : bytes) (root : RowLocation) (visited : list N) (current_slot : N)
    : result Halt (list (RowLocation * DecodedPhysicalRow (D:=D))) :=
  match fuel with
  | O => Err Diverges
  | S fuel =>
      if contains visited current_slot then internal "cyclic HOT chain detected"
      else
        b ← live_tuple d current_slot "HOT chain member is not a live tuple";
        decoded ← tried (decode_physical_row schema b);
        let here := (mkRowLocation root.(file_id) root.(page_num) current_slot, decoded) in
        succ ← hot_successor d root.(page_num) decoded.(pr_header).(h_t_ctid) decoded.(pr_header).(h_infomask);
        match succ with
        | None => Ok [here]
        | Some succ_slot => rest ← versions_loop fuel schema d root (current_slot :: visited) succ_slot; Ok (here :: rest)
        end
  end.

Definition collect_chain_versions (schema : TableSchema) (d : bytes) (root : RowLocation)
    : result Halt (list (RowLocation * DecodedPhysicalRow (D:=D))) :=
  head ← resolve_root d root.(slot_num);
  match head with
  | None => Ok []
  | Some current_slot =>
      slot_count ← tried (next_slot crc32 d);
      versions_loop (chain_fuel slot_count) schema d root [] current_slot
  end.

(** ** Planning *)

(** The successor pruning follows: as the readers, but a slot that is not a tuple ends the chain. *)
Definition prune_successor (d : bytes) (t_ctid : N * N) (infomask : N) : result Halt (option N) :=
  if negb (hint infomask HOT_UPDATED) then Ok None
  else
    let '(succ_page, succ_slot) := t_ctid in
    if negb (succ_page =? page_id d) then Ok None
    else
      st ← tried (slot_state crc32 d succ_slot);
      match st with
      | LpNormal =>
          '(_, _, _, succ_infomask) ← live_header d succ_slot "HOT successor is not a live tuple";
          if negb (hint succ_infomask HEAP_ONLY) then Ok None else Ok (Some succ_slot)
      | _ => Ok None
      end.

Fixpoint prune_loop (fuel : nat) (d : bytes) (visited : list N) (current : N) : result Halt (list ChainMember) :=
  match fuel with
  | O => Err Diverges
  | S fuel =>
      if contains visited current then internal "cyclic HOT chain detected"
      else
        '(xmin, xmax, t_ctid, infomask) ← live_header d current "HOT chain member is not a live tuple";
        let m := mkMember current xmin xmax infomask in
        succ ← prune_successor d t_ctid infomask;
        match succ with
        | None => Ok [m]
        | Some succ_slot => rest ← prune_loop fuel d (current :: visited) succ_slot; Ok (m :: rest)
        end
  end.

Definition collect_prune_chain (d : bytes) (head_slot : N) : result Halt (list ChainMember) :=
  slot_count ← tried (next_slot crc32 d);
  prune_loop (chain_fuel slot_count) d [] head_slot.

Definition external_pointers_in_tuple (schema : TableSchema) (tuple_bytes : bytes) : DbResult (list ToastPointer) :=
  physical ← decode_physical_row (D:=D) schema tuple_bytes;
  Ok (omap (fun v => match v with DExternal _ pointer => Some pointer | _ => None end) physical.(pr_values)).

Fixpoint any_external (schema : TableSchema) (d : bytes) (chain : list ChainMember) : result Halt bool :=
  match chain with
  | [] => Ok false
  | m :: chain =>
      b ← live_tuple d m.(m_slot) "HOT chain member is not a live tuple";
      pointers ← tried (external_pointers_in_tuple schema b);
      match pointers with [] => any_external schema d chain | _ => Ok true end
  end.
Definition chain_contains_external_pointers (schema : TableSchema) (d : bytes) (chain : list ChainMember) : result Halt bool :=
  match schema.(toast_table_id) with None => Ok false | Some _ => any_external schema d chain end.

(** The member whose successor's creator aborted, if there is one: [for i in 0..chain.len()]. *)
Fixpoint abort_at (v : V) (chain : list ChainMember) : option nat :=
  match chain with
  | m :: ((succ :: _) as rest) =>
      if negb (hint m.(m_infomask) HOT_UPDATED) then None
      else if hint succ.(m_infomask) XMIN_ABORTED || is_aborted v succ.(m_xmin) then Some O
      else S <$> abort_at v rest
  | _ => None
  end.

Definition maybe_abort_cleanup_kept (v : V) (m : ChainMember) (plan : PagePrunePlan) : PagePrunePlan :=
  if contains plan.(reset_slots) m.(m_slot) then plan
  else
    let deleter_aborted := negb (m.(m_xmax) =? INVALID_XID)
                           && (hint m.(m_infomask) XMAX_ABORTED || is_aborted v m.(m_xmax)) in
    if deleter_aborted then push_reset m.(m_slot) plan else plan.

(** [for member in .. { if member.slot != root_slot { free } }]. *)
Definition but_root (root_slot : N) (ms : list ChainMember) : list N :=
  filter (fun s => s <> root_slot) (m_slot <$> ms).

Definition plan_chain_inner (v : V) (horizon : TxnId) (root_slot : N) (chain : list ChainMember) : SE PagePrunePlan DbError unit := fun plan =>
  let '(plan, chain) :=
    match abort_at v chain with
    | Some i =>
        let plan := from_option (fun m => push_reset m.(m_slot) plan) plan (chain !! i) in
        (push_free (m_slot <$> drop (S i) chain) plan, take (S i) chain)
    | None => (plan, chain)
    end in
  let alive m := negb (is_dead_to_all m.(m_xmin) m.(m_xmax) m.(m_infomask) horizon v) in
  match list_find (fun m => alive m = true) chain with
  | None => (push_free (but_root root_slot chain) (push_dead root_slot plan), Ok ())
  | Some (O, head) => (maybe_abort_cleanup_kept v head plan, Ok ())
  | Some (l, m) =>
      let plan := push_redirect (root_slot, m.(m_slot)) plan in
      let plan := push_free (but_root root_slot (take l chain)) plan in
      (maybe_abort_cleanup_kept v m plan, Ok ())
  end.

Definition plan_chain (v : V) (horizon : TxnId) (allow_dead_roots : bool) (root_slot : N) (chain : list ChainMember)
    : SE PagePrunePlan DbError unit := fun plan =>
  match chain with
  | [] => (plan, Ok ())
  | _ =>
      let '(staged, result) := plan_chain_inner v horizon root_slot chain plan in
      if negb allow_dead_roots && (negb (is_ok result) || negb (length staged.(dead_roots) =? length plan.(dead_roots))%nat)
      then (truncate_to plan staged, Ok ())
      else (staged, result)
  end.

(** First pass: the slots that are reached through a root. *)
Fixpoint members (d : bytes) (slots is_member : list N) : result Halt (list N) :=
  match slots with
  | [] => Ok is_member
  | slot :: slots =>
      st ← tried (slot_state crc32 d slot);
      match st with
      | LpRedirect target => members d slots (target :: is_member)
      | _ =>
          row ← read (read_row crc32 d slot);
          match row with
          | None => members d slots is_member
          | Some b =>
              '(_, _, t_ctid, infomask) ← tried (decode_mvcc_header b);
              succ ← prune_successor d t_ctid infomask;
              members d slots (from_option (fun s => s :: is_member) is_member succ)
          end
      end
  end.

(** The head of the chain of a root; [None] for a slot that is not a root. *)
Definition chain_head (d : bytes) (is_member : list N) (root_slot : N) : result Halt (option N) :=
  st ← tried (slot_state crc32 d root_slot);
  match st with
  | LpNormal => Ok (if contains is_member root_slot then None else Some root_slot)
  | LpRedirect target =>
      st ← tried (slot_state crc32 d target);
      match st with
      | LpNormal => Ok (Some target)
      | _ => internal "redirect line pointer target is not a NORMAL tuple"
      end
  | LpDead | LpUnused => Ok None
  end.

(** Second pass: the plans of the chains of all roots. *)
Fixpoint plan_roots (v : V) (schema : TableSchema) (horizon : TxnId) (allow_dead_roots : bool) (d : bytes) (is_member slots : list N)
    (plan : PagePrunePlan) : result Halt PagePrunePlan :=
  match slots with
  | [] => Ok plan
  | root_slot :: slots =>
      head ← chain_head d is_member root_slot;
      match head with
      | None => plan_roots v schema horizon allow_dead_roots d is_member slots plan
      | Some head_slot =>
          chain ← collect_prune_chain d head_slot;
          skip ← (if allow_dead_roots then Ok false else chain_contains_external_pointers schema d chain);
          if (skip : bool) then plan_roots v schema horizon allow_dead_roots d is_member slots plan
          else
            let '(plan, result) := plan_chain v horizon allow_dead_roots root_slot chain plan in
            _ ← tried result;
            plan_roots v schema horizon allow_dead_roots d is_member slots plan
      end
  end.

Definition classify_page_for_prune (v : V) (schema : TableSchema) (d : bytes) (horizon : TxnId) (allow_dead_roots : bool)
    : result Halt PagePrunePlan :=
  slot_count ← tried (next_slot crc32 d);
  is_member ← members d (range slot_count) [];
  plan_roots v schema horizon allow_dead_roots d is_member (range slot_count) empty_plan.

(** ** Applying a plan *)

Definition CLEARED_BITS : N := N.lor (N.lor HOT_UPDATED XMAX_ABORTED) XMAX_COMMITTED.

(** The abort-cleanup of one slot. *)
Definition reset_slot (lsn : Lsn) (slot : N) : SE bytes Fault unit := fun d =>
  match read_row crc32 d slot with
  | Err e => (d, Err e)
  | Ok None => (d, Err (Raised (storage_internal "abort-cleanup slot is not live")))
  | Ok (Some tuple) =>
      match decode_mvcc_header tuple with
      | Err e => (d, Err (Raised e))
      | Ok (_, _, _, infomask) => set_tuple_header crc32 slot INVALID_XID INVALID_TID (N.ldiff infomask CLEARED_BITS) lsn d
      end
  end.

(** [if !slots.is_empty() { .. }]. *)
Definition unless_empty (f : list N -> SE bytes Fault unit) (slots : list N) : SE bytes Fault unit :=
  match slots with [] => mret () | _ => f slots end.

(** The image that is logged: built on a copy of the page, which an error leaves as it was. *)
Definition prune_image (plan : PagePrunePlan) : SE bytes Fault unit := fun d =>
  let provisional_lsn := page_lsn d in
  (_ ← for_each plan.(reset_slots) (reset_slot provisional_lsn);
   _ ← unless_empty (free_slots_to_unused crc32) plan.(free_to_unused);
   _ ← for_each plan.(redirect_roots) (fun r => set_redirect crc32 r.1 r.2);
   _ ← unless_empty (mark_slots_dead crc32) plan.(dead_roots);
   compact crc32 provisional_lsn) d.

(** ** Every walk ends *)

Lemma live_header_bound d slot m t n : validate crc32 d = Ok n -> live_header d slot m = Ok t -> slot < n.(num_slots).
Proof using.
  intros Hv. unfold live_header, live_tuple, Page.read_row. rewrite Hv. cbn [raise map_err mbind result_bind]. unfold in_bounds.
  destruct (N.leb_spec n.(num_slots) slot); [done|auto].
Qed.

Lemma live_tuple_bound d slot m t n : validate crc32 d = Ok n -> live_tuple d slot m = Ok t -> slot < n.(num_slots).
Proof using.
  intros Hv. unfold live_tuple, Page.read_row. rewrite Hv. cbn [raise map_err mbind result_bind]. unfold in_bounds.
  destruct (N.leb_spec n.(num_slots) slot); [done|auto].
Qed.

Lemma read_ends {A} (m : result Fault A) : read m <> Err Diverges.
Proof using. by destruct m as [|[]]. Qed.
Lemma tried_ends {A} (m : DbResult A) : tried m <> Err Diverges.
Proof using. by destruct m. Qed.
Lemma ok_or_ends {A} (o : option A) e : ok_or o (Failed e) <> Err Diverges.
Proof using. by destruct o. Qed.
Lemma bind_ends {A B} (m : result Halt A) (f : A -> result Halt B) :
  m <> Err Diverges -> (forall a, m = Ok a -> f a <> Err Diverges) -> m ≫= f <> Err Diverges.
Proof using. destruct m as [a|e]; cbn; [auto|congruence]. Qed.

Lemma live_tuple_ends d slot m : live_tuple d slot m <> Err Diverges.
Proof using. unfold live_tuple. apply bind_ends; [apply read_ends|intros; apply ok_or_ends]. Qed.
Lemma live_header_ends d slot m : live_header d slot m <> Err Diverges.
Proof using. unfold live_header. apply bind_ends; [apply live_tuple_ends|intros; apply tried_ends]. Qed.
Lemma hot_successor_ends d p t im : hot_successor d p t im <> Err Diverges.
Proof using.
  unfold hot_successor. case_if; [done|]. destruct t as [a b]. case_if; [done|]. apply bind_ends; [apply tried_ends|].
  intros [| | |] _; try done. apply bind_ends; [apply live_header_ends|]. intros [[[? ?] ?] ?] _. by case_if.
Qed.
Lemma prune_successor_ends d t im : prune_successor d t im <> Err Diverges.
Proof using.
  unfold prune_successor. case_if; [done|]. destruct t as [a b]. case_if; [done|]. apply bind_ends; [apply tried_ends|].
  intros [| | |] _; try done. apply bind_ends; [apply live_header_ends|]. intros [[[? ?] ?] ?] _. by case_if.
Qed.
Lemma resolve_root_ends d slot : resolve_root d slot <> Err Diverges.
Proof using.
  unfold resolve_root. apply bind_ends; [apply tried_ends|]. intros [| | |t] _; try done.
  apply bind_ends; [apply tried_ends|]. by intros [| | |] _.
Qed.

(** Distinct slots of a page are no more than its slots. *)
Lemma slots_bounded (l : list N) n : NoDup l -> Forall (fun s => s < n) l -> (length l <= N.to_nat n)%nat.
Proof using.
  intros Hd Hf. rewrite <- (length_range n). apply submseteq_length, NoDup_submseteq; [done|].
  intros s Hs. apply elem_of_range. by eapply Forall_forall in Hf.
Qed.

(** A step that walks on costs one of the slots not visited. *)
Definition may_walk (n : N) (fuel : nat) (visited : list N) : Prop :=
  NoDup visited /\ Forall (fun s => s < n) visited /\ (S (N.to_nat n) <= fuel + length visited)%nat.

Lemma walk_start n : may_walk n (chain_fuel n) [].
Proof using. split_and!; [constructor|constructor|]. unfold chain_fuel. cbn. lia. Qed.
Lemma walk_on n fuel visited s : may_walk n (S fuel) visited -> contains visited s = false -> s < n -> may_walk n fuel (s :: visited).
Proof using.
  intros (H1 & H2 & H3) Hs Hn. apply contains_false in Hs. split_and!; [by constructor|by constructor|]. cbn. lia.
Qed.
Lemma walk_out n visited : ~ may_walk n 0 visited.
Proof using. intros (H1 & H2 & H3). pose proof (slots_bounded _ _ H1 H2). lia. Qed.

Lemma resolve_loop_ends d v loc snap cur n : validate crc32 d = Ok n -> forall fuel visited s,
  may_walk n.(num_slots) fuel visited -> resolve_loop fuel d v loc snap cur visited s <> Err Diverges.
Proof using.
  intros Hv. induction fuel as [|fuel IH]; intros visited s Hw; [by apply walk_out in Hw|]. cbn [resolve_loop].
  case_if; [done|]. apply bind_ends; [apply live_header_ends|]. intros [[[a b] c] e] Hh. case_if; [done|].
  apply bind_ends; [apply hot_successor_ends|]. intros [j|] _; [|done]. apply IH. eapply walk_on; eauto using live_header_bound.
Qed.
Lemma versions_loop_ends schema d root n : validate crc32 d = Ok n -> forall fuel visited s,
  may_walk n.(num_slots) fuel visited -> versions_loop fuel schema d root visited s <> Err Diverges.
Proof using.
  intros Hv. induction fuel as [|fuel IH]; intros visited s Hw; [by apply walk_out in Hw|]. cbn [versions_loop].
  case_if; [done|]. apply bind_ends; [apply live_tuple_ends|]. intros b Hb. apply bind_ends; [apply tried_ends|]. intros r _.
  apply bind_ends; [apply hot_successor_ends|]. intros [j|] _; [|done]. apply bind_ends; [|done]. apply IH.
  eapply walk_on; eauto using live_tuple_bound.
Qed.
Lemma prune_loop_ends d n : validate crc32 d = Ok n -> forall fuel visited s,
  may_walk n.(num_slots) fuel visited -> prune_loop fuel d visited s <> Err Diverges.
Proof using.
  intros Hv. induction fuel as [|fuel IH]; intros visited s Hw; [by apply walk_out in Hw|]. cbn [prune_loop].
  case_if; [done|]. apply bind_ends; [apply live_header_ends|]. intros [[[a b] c] e] Hh.
  apply bind_ends; [apply prune_successor_ends|]. intros [j|] _; [|done]. apply bind_ends; [|done]. apply IH.
  eapply walk_on; eauto using live_header_bound.
Qed.

Lemma next_slot_inv d n : next_slot crc32 d = Ok n -> exists h, validate crc32 d = Ok h /\ h.(num_slots) = n.
Proof using. unfold next_slot. destruct (validate crc32 d) as [h|e]; [|done]. cbn. intros [= <-]. eauto. Qed.

Lemma collect_prune_chain_ends d s : collect_prune_chain d s <> Err Diverges.
Proof using.
  unfold collect_prune_chain. apply bind_ends; [apply tried_ends|]. intros n E.
  destruct (next_slot crc32 d) as [n'|] eqn:En; [|done]. apply next_slot_inv in En as (h & Hv & Hn). cbn in E. injection E as <-. subst n'.
  eapply prune_loop_ends, walk_start; eauto.
Qed.
Lemma members_ends d l : forall acc, members d l acc <> Err Diverges.
Proof using.
  induction l as [|s l IH]; intros acc; [done|]. cbn [members]. apply bind_ends; [apply tried_ends|].
  assert (Hrow : forall acc, (row ← read (read_row crc32 d s);
    match row with
    | None => members d l acc
    | Some b => '(_, _, t_ctid, infomask) ← tried (decode_mvcc_header b); succ ← prune_successor d t_ctid infomask;
                members d l (from_option (fun s => s :: acc) acc succ)
    end) <> Err Diverges).
  { intros acc'. apply bind_ends; [apply read_ends|]. intros [b|] _; [|done]. apply bind_ends; [apply tried_ends|].
    intros [[[? ?] t] im] _. apply bind_ends; [apply prune_successor_ends|]. done. }
  by intros [| | |t] _.
Qed.
Lemma any_external_ends schema d l : any_external schema d l <> Err Diverges.
Proof using.
  induction l as [|m l IH]; [done|]. cbn [any_external]. apply bind_ends; [apply live_tuple_ends|]. intros b _.
  apply bind_ends; [apply tried_ends|]. by intros [|] _.
Qed.
Lemma plan_roots_ends v schema hz adr d ms l : forall plan, plan_roots v schema hz adr d ms l plan <> Err Diverges.
Proof using.
  induction l as [|s l IH]; intros plan; [done|]. cbn [plan_roots]. apply bind_ends.
  { unfold chain_head. apply bind_ends; [apply tried_ends|]. intros [| | |t] _; try done.
    apply bind_ends; [apply tried_ends|]. by intros [| | |] _. }
  intros [h|] _; [|done]. apply bind_ends; [apply collect_prune_chain_ends|]. intros c _. apply bind_ends.
  { destruct adr; [done|]. unfold chain_contains_external_pointers. destruct (toast_table_id schema); [apply any_external_ends|done]. }
  intros [|] _; [done|]. destruct (plan_chain _ _ _ _ _ _) as [p r]. apply bind_ends; [apply tried_ends|]. done.
Qed.

(** Every walk over a version chain ends, whatever the bytes of the page: resolving an
    index entry, collecting the versions of a chain and planning the pruning of a page give
    an answer or an error within one step per slot, because no slot is visited twice. *)
Theorem chain_walks_end d :
  (forall v loc snap cur, resolve_visible_in_chain d v loc snap cur <> Err Diverges) /\
  (forall schema root, collect_chain_versions schema d root <> Err Diverges) /\
  (forall v schema horizon allow_dead_roots, classify_page_for_prune v schema d horizon allow_dead_roots <> Err Diverges).
Proof using.
  assert (Hn : forall n, tried (next_slot crc32 d) = Ok n -> exists h, validate crc32 d = Ok h /\ h.(num_slots) = n).
  { intros n E. apply next_slot_inv. destruct (next_slot crc32 d); [|done]. cbn in E. congruence. }
  split_and!.
  - intros v loc snap cur. unfold resolve_visible_in_chain. apply bind_ends; [apply resolve_root_ends|]. intros [s|] _; [|done].
    apply bind_ends; [apply tried_ends|]. intros n (h & Hv & <-)%Hn. eapply resolve_loop_ends, walk_start; eauto.
  - intros schema root. unfold collect_chain_versions. apply bind_ends; [apply resolve_root_ends|]. intros [s|] _; [|done].
    apply bind_ends; [apply tried_ends|]. intros n (h & Hv & <-)%Hn. eapply versions_loop_ends, walk_start; eauto.
  - intros v schema hz adr. unfold classify_page_for_prune. apply bind_ends; [apply tried_ends|]. intros n _.
    apply bind_ends; [apply members_ends|]. intros ms _. apply plan_roots_ends.
Qed.
End Chains.
