(* ===== verification/HotPrune.v ===== *)
(** * Pruning is invisible (src/crates/storage/src/engine/vacuum.rs, over [HotChain])

    The chains of a page as paths through its abstract items ([Page.heap_of]), the invariant
    of a page whose chains are well formed, and what pruning does to such a page: the plan
    can always be applied, the page it leaves is well formed again, and every reader whose
    snapshot the horizon respects resolves every index entry as before. *)

From S2P Require Import Prelude Errors Mvcc CheckedBytes ByteArray TupleHeader Page Value RowFormat BTree HotChain.
Local Open Scope N_scope.

(** ** Relations in which every element has one predecessor *)

Section Chains.
Context {A : Type} (R : A -> A -> Prop) (Hinj : forall i j k, R i k -> R j k -> i = j).

Definition rootless (r : A) : Prop := forall i, ~ R i r.

Lemma rtc_one_root r r' k : rtc R r k -> rtc R r' k -> rootless r -> rootless r' -> r = r'.
Proof using Hinj.
  intros H. revert k H r'. refine (rtc_ind_r _ _ _ _).
  - intros r' H Hr Hr'. apply rtc_inv_r in H as [->|(y & _ & Hy)]; [done|]. by apply Hr in Hy.
  - intros y k _ Hyk IH r' H Hr Hr'. apply rtc_inv_r in H as [->|(z & Hz & Hzk)]; [by apply Hr' in Hyk|].
    rewrite (Hinj _ _ _ Hzk Hyk) in Hz. by apply IH.
Qed.

Lemma rtc_acyclic r k : rtc R r k -> rootless r -> forall j, R k j -> ~ rtc R j k.
Proof using Hinj.
  intros H Hr. revert k H. refine (rtc_ind_r _ _ _ _).
  - intros j Hj H. apply rtc_inv_r in H as [->|(z & _ & Hz)]; by eapply Hr.
  - intros y k _ Hyk IH j Hj H. apply (IH k Hyk). apply rtc_inv_r in H as [->|(z & Hz & Hzk)].
    + by rewrite (Hinj _ _ _ Hyk Hj).
    + rewrite (Hinj _ _ _ Hzk Hyk) in Hz. by econstructor.
Qed.
End Chains.

(** The first element with a property, and what is before it. *)
Lemma list_find_split {A} (f : A -> bool) (l : list A) : exists pre mid, l = pre ++ mid /\ Forall (fun x => f x = false) pre /\
  match mid with
  | [] => list_find (fun x => f x = true) l = None
  | x :: _ => f x = true /\ list_find (fun x => f x = true) l = Some (length pre, x)
  end.
Proof.
  induction l as [|y l (pre & mid & -> & Hpre & Hmid)]; [by exists [], []|]. cbn [list_find]. destruct (f y) eqn:Ey.
  - by exists [], (y :: pre ++ mid).
  - exists (y :: pre), mid. split_and!; [done|by constructor|]. rewrite decide_False by congruence. destruct mid as [|x mid].
    + by rewrite Hmid.
    + destruct Hmid as [Hx ->]. done.
Qed.

Lemma NoDup_range n : NoDup (range n).
Proof. apply NoDup_fmap_2; [intros a b; lia|apply NoDup_seq]. Qed.

(** ** The chains of a page *)

Definition item (h : Heap) (i : N) : option Item := h.(h_items) !! N.to_nat i.
Definition header_in (it : Item) : option MvccHeader :=
  match it with
  | INormal row => match decode_mvcc_header row with Ok (a, b, c, e) => Some (mkMvccHeader a b c e) | Err _ => None end
  | _ => None
  end.
Definition hdr (h : Heap) (i : N) : option MvccHeader := item h i ≫= header_in.
Definition redir (h : Heap) (i : N) : option N := match item h i with Some (IRedirect t) => Some t | _ => None end.

Definition hot (hd : MvccHeader) : bool := hint hd.(h_infomask) HOT_UPDATED.
Definition heap_only (hd : MvccHeader) : bool := hint hd.(h_infomask) HEAP_ONLY.

(** The version a chain goes on with. *)
Definition next (h : Heap) (i : N) : option N :=
  hd ← hdr h i;
  if hot hd && (hd.(h_t_ctid).1 =? h.(h_id))
  then hd' ← hdr h hd.(h_t_ctid).2; if heap_only hd' then Some hd.(h_t_ctid).2 else None
  else None.

Definition follows (h : Heap) (i j : N) : Prop := next h i = Some j.
Definition owns (h : Heap) (i j : N) : Prop := next h i = Some j \/ redir h i = Some j.

Abbreviation Version := (N * MvccHeader)%type.

(** The versions from a slot on, to the end of its chain. *)
Inductive path (h : Heap) : N -> list Version -> Prop :=
  | path_last i hd : hdr h i = Some hd -> next h i = None -> path h i [(i, hd)]
  | path_step i hd j l : hdr h i = Some hd -> next h i = Some j -> path h j l -> path h i ((i, hd) :: l).

Lemma path_head h i l : path h i l -> exists hd l', l = (i, hd) :: l' /\ hdr h i = Some hd.
Proof. destruct 1; eauto. Qed.
Lemma path_det h i l l' : path h i l -> path h i l' -> l = l'.
Proof.
  intros H. revert l'. induction H as [i hd H1 H2|i hd j l H1 H2 Hp IH]; intros l' H'; inversion H'; subst; try congruence.
  f_equal; [congruence|]. apply IH. congruence.
Qed.
Lemma path_headers h i l : path h i l -> Forall (fun x => hdr h x.1 = Some x.2) l.
Proof. induction 1; repeat (constructor; [done|]); done. Qed.
Lemma path_reached h i l : path h i l -> Forall (fun x => rtc (follows h) i x.1) l.
Proof.
  induction 1 as [|i hd j l H1 H2 Hp IH]; constructor; try done; try apply rtc_refl.
  eapply Forall_impl; [exact IH|]. intros x Hx. by eapply rtc_l.
Qed.
Lemma path_closed h i l x j : path h i l -> x ∈ l -> next h x.1 = Some j -> j ∈ l.*1.
Proof.
  induction 1 as [i hd H1 H2|i hd k l H1 H2 Hp IH]; intros Hx Hj.
  - apply list_elem_of_singleton in Hx as ->. cbn in Hj. congruence.
  - apply elem_of_cons in Hx as [->|Hx]; cbn in *; [|right; by apply IH].
    destruct (path_head _ _ _ Hp) as (hd' & l' & -> & _). rewrite H2 in Hj. injection Hj as <-. right. left.
Qed.

Definition acyclic_from (h : Heap) (i : N) : Prop := forall k j, rtc (follows h) i k -> follows h k j -> ~ rtc (follows h) j k.

Lemma acyclic_step h i j : follows h i j -> acyclic_from h i -> acyclic_from h j.
Proof. intros Hj Ha k j' Hk. apply Ha. by eapply rtc_l. Qed.

Lemma path_nodup h i l : path h i l -> acyclic_from h i -> NoDup l.*1.
Proof.
  induction 1 as [|i hd j l H1 H2 Hp IH]; intros Ha; cbn; [apply NoDup_singleton|]. constructor.
  - intros ((i' & hd') & -> & Hx)%list_elem_of_fmap. apply path_reached in Hp. eapply Forall_forall in Hp; [|exact Hx].
    by eapply (Ha _ j); [apply rtc_refl|..].
  - apply IH. by eapply acyclic_step.
Qed.

Lemma hdr_bound h i hd : hdr h i = Some hd -> (N.to_nat i < length h.(h_items))%nat.
Proof. unfold hdr, item. destruct (_ !! _) eqn:E; [|done]. intros _. by eapply lookup_lt_Some. Qed.

Lemma next_inv h i j : next h i = Some j -> exists hd hd', hdr h i = Some hd /\ hdr h j = Some hd' /\
  hot hd = true /\ heap_only hd' = true /\ hd.(h_t_ctid) = (h.(h_id), j).
Proof.
  unfold next. destruct (hdr h i) as [hd|]; [|done]. cbn. destruct (_ && _) eqn:E; [|done]. to_prop.
  destruct (hdr h _) as [hd'|] eqn:E'; [|done]. cbn. destruct (heap_only hd') eqn:Eo; [|done]. intros [= <-].
  exists hd, hd'. split_and!; try done. destruct (h_t_ctid hd). cbn in *. congruence.
Qed.

Lemma path_exists h i : is_Some (hdr h i) -> acyclic_from h i -> exists l, path h i l.
Proof.
  enough (Hn : forall n visited i, is_Some (hdr h i) -> acyclic_from h i -> NoDup visited ->
    Forall (fun k => k < len h.(h_items) /\ ~ rtc (follows h) i k) visited -> (length h.(h_items) <= n + length visited)%nat ->
    exists l, path h i l).
  { intros Hi Ha. apply (Hn (length h.(h_items)) []); try done; [constructor|lia]. }
  clear i. induction n as [|n IH]; intros visited i [hd Hi] Ha Hnd Hf Hl.
  - exfalso. pose proof (hdr_bound _ _ _ Hi).
    assert (Hb : (length (i :: visited) <= N.to_nat (len h.(h_items)))%nat).
    { apply slots_bounded; constructor; [|done|unfold len; lia|].
      - intros Hin. eapply Forall_forall in Hf as [_ Hf]; [|exact Hin]. by apply Hf.
      - eapply Forall_impl; [exact Hf|]. by intros k [? _]. }
    cbn in Hb. unfold len in Hb. lia.
  - destruct (next h i) as [j|] eqn:En; [|eexists; by constructor].
    destruct (IH (i :: visited) j) as [l Hl'].
    + destruct (next_inv _ _ _ En) as (_ & hd' & _ & Hd & _). eauto.
    + by eapply acyclic_step.
    + constructor; [|done]. intros Hin. eapply Forall_forall in Hf as [_ Hf]; [|exact Hin]. by apply Hf.
    + constructor.
      * split; [|by apply (Ha i j); [apply rtc_refl|]]. pose proof (hdr_bound _ _ _ Hi). unfold len. lia.
      * eapply Forall_impl; [exact Hf|]. intros k [? Hk]. split; [done|]. intros Hj. apply Hk. by eapply rtc_l.
    + cbn. lia.
    + exists ((i, hd) :: l). by econstructor.
Qed.

(** ** Well-formed chains *)

Section Pages.
Context {V : Type} `{!TxnStatusView V, !TxnStatusViewOk V}.
Implicit Types (v : V) (h : Heap) (hd : MvccHeader) (x : Version).

Definition sound v hd : Prop := hints_sound hd.(h_xmin) hd.(h_xmax) hd.(h_infomask) v.

(** Every tuple has a header; a redirect and a HOT-updated tuple lead to a heap-only tuple of
    the page, which nothing else leads to; a successor was created by the deleter of its
    predecessor; what follows an aborted version is aborted. *)
Record hot_ok v h : Prop := {
  hk_header i row : item h i = Some (INormal row) -> is_Some (hdr h i);
  hk_redirect i t : redir h i = Some t -> exists hd, hdr h t = Some hd /\ heap_only hd = true;
  hk_succ i hd : hdr h i = Some hd -> hot hd = true -> hd.(h_t_ctid).1 = h.(h_id) ->
    exists hd', hdr h hd.(h_t_ctid).2 = Some hd' /\ heap_only hd' = true;
  hk_owner i j k : owns h i k -> owns h j k -> i = j;
  hk_link i j hd hd' : next h i = Some j -> hdr h i = Some hd -> hdr h j = Some hd' -> hd.(h_xmax) = hd'.(h_xmin);
  hk_abort i j hd hd' : next h i = Some j -> hdr h i = Some hd -> hdr h j = Some hd' ->
    status v hd.(h_xmin) = Aborted -> status v hd'.(h_xmin) = Aborted;
  hk_hints i hd : hdr h i = Some hd -> sound v hd
}.

(** A slot an index entry may name: not a version of its own right, and not reached from another. *)
Definition root_slot h i : Prop := rootless (owns h) i.

Lemma owns_target v h i j : hot_ok v h -> owns h i j -> exists hd, hdr h j = Some hd /\ heap_only hd = true.
Proof using. intros Hok [H|H]; [|by eapply hk_redirect]. apply next_inv in H as (_ & hd & _ & Hd & _ & Ho & _). eauto. Qed.

Lemma rtc_follows_owns h i j : rtc (follows h) i j -> rtc (owns h) i j.
Proof using. intros H. eapply rtc_subrel; [|exact H]. intros a b. by left. Qed.

Lemma hdr_item h i hd : hdr h i = Some hd -> exists row, item h i = Some (INormal row) /\ header_in (INormal row) = Some hd.
Proof using. unfold hdr. destruct (item h i) as [[row| | |]|]; try done. eauto. Qed.
Lemma redir_item h i t : redir h i = Some t <-> item h i = Some (IRedirect t).
Proof using. unfold redir. destruct (item h i) as [[| | |]|]; naive_solver. Qed.
Lemma hdr_not_redir h i hd : hdr h i = Some hd -> redir h i = None.
Proof using. intros (row & E & _)%hdr_item. unfold redir. by rewrite E. Qed.
Lemma redir_not_hdr h i t : redir h i = Some t -> hdr h i = None.
Proof using. intros E%redir_item. unfold hdr. by rewrite E. Qed.

Lemma redirect_root v h i t : hot_ok v h -> redir h i = Some t -> root_slot h i.
Proof using. intros Hok Ht k Hk. destruct (owns_target _ _ _ _ Hok Hk) as (hd & Hd & _). by rewrite (redir_not_hdr _ _ _ Ht) in Hd. Qed.
Lemma unmarked_root v h i hd : hot_ok v h -> hdr h i = Some hd -> heap_only hd = false -> root_slot h i.
Proof using. intros Hok Hd Hh k Hk. destruct (owns_target _ _ _ _ Hok Hk) as (hd' & Hd' & Hh'). congruence. Qed.

(** The versions behind a root: from the slot itself or from the target of its redirect. *)
Inductive chain_of h (r : N) : list Version -> Prop :=
  | chain_here l : root_slot h r -> path h r l -> chain_of h r l
  | chain_redirected t l : redir h r = Some t -> path h t l -> chain_of h r l.

Lemma rooted_acyclic v h r i : hot_ok v h -> root_slot h r -> rtc (owns h) r i -> acyclic_from h i.
Proof using.
  intros Hok Hr Hi k j Hk Hj Hjk. eapply (rtc_acyclic (owns h) (hk_owner _ _ Hok) r k); [|done|by left|by apply rtc_follows_owns].
  etrans; [exact Hi|]. by apply rtc_follows_owns.
Qed.

Lemma chain_exists v h r : hot_ok v h -> root_slot h r -> is_Some (hdr h r) -> exists l, chain_of h r l.
Proof using. intros Hok Hr Hh. destruct (path_exists h r Hh) as [l Hl]; [by eapply rooted_acyclic|]. exists l. by apply chain_here. Qed.
Lemma chain_exists_redirect v h r t : hot_ok v h -> redir h r = Some t -> exists l, chain_of h r l.
Proof using.
  intros Hok Hr. destruct (hk_redirect _ _ Hok _ _ Hr) as (hd & Hd & _). destruct (path_exists h t) as [l Hl]; [eauto| |exists l; by eapply chain_redirected].
  eapply (rooted_acyclic _ _ r); [done|by eapply redirect_root|]. apply rtc_once. by right.
Qed.

Lemma chain_root v h r l : hot_ok v h -> chain_of h r l -> root_slot h r.
Proof using. intros Hok [l' Hr Hl|t l' Ht Hl]; [done|by eapply redirect_root]. Qed.
Lemma chain_path h r l : chain_of h r l -> exists i, path h i l /\ rtc (owns h) r i.
Proof using. intros [l' Hr Hl|t l' Ht Hl]; [exists r; split; [done|apply rtc_refl]|exists t; split; [done|]]. apply rtc_once. by right. Qed.
Lemma chain_nodup v h r l : hot_ok v h -> chain_of h r l -> NoDup l.*1.
Proof using.
  intros Hok Hc. destruct (chain_path _ _ _ Hc) as (i & Hp & Hi). eapply path_nodup; [done|]. eapply rooted_acyclic; eauto. by eapply chain_root.
Qed.
Lemma chain_reached h r l x : chain_of h r l -> x ∈ l -> rtc (owns h) r x.1.
Proof using.
  intros Hc Hx. destruct (chain_path _ _ _ Hc) as (i & Hp & Hi). etrans; [done|]. apply path_reached in Hp.
  eapply Forall_forall in Hp; [|done]. by apply rtc_follows_owns.
Qed.

(** No version is in the chains of two roots, and a root is in no other chain. *)
Lemma chains_apart v h r r' l l' i : hot_ok v h -> chain_of h r l -> chain_of h r' l' -> i ∈ l.*1 -> i ∈ l'.*1 -> r = r'.
Proof using.
  intros Hok Hc Hc' (x & -> & Hx)%list_elem_of_fmap (x' & E & Hx')%list_elem_of_fmap.
  eapply (rtc_one_root (owns h) (hk_owner _ _ Hok)); [by eapply chain_reached| |by eapply chain_root..]. rewrite E. by eapply chain_reached.
Qed.
Lemma root_apart v h r r' l : hot_ok v h -> chain_of h r l -> root_slot h r' -> r' ∈ l.*1 -> r = r'.
Proof using.
  intros Hok Hc Hr (x & -> & Hx)%list_elem_of_fmap.
  eapply (rtc_one_root (owns h) (hk_owner _ _ Hok)); [by eapply chain_reached|apply rtc_refl|by eapply chain_root|done].
Qed.

Lemma path_bound h i l : path h i l -> NoDup l.*1 -> (length l <= length h.(h_items))%nat.
Proof using.
  intros Hp Hn. apply path_headers in Hp. assert (Hb : (length l.*1 <= N.to_nat (N.of_nat (length (h_items h))))%nat).
  { apply slots_bounded; [done|]. apply Forall_fmap. eapply Forall_impl; [exact Hp|]. intros x Hx. apply hdr_bound in Hx. cbn. lia. }
  rewrite length_fmap in Hb. lia.
Qed.

(** ** The walks follow the paths *)

Context (crc32 : bytes -> N).

Definition fields hd : TxnId * TxnId * (N * N) * N := (hd.(h_xmin), hd.(h_xmax), hd.(h_t_ctid), hd.(h_infomask)).
Definition member_of x : ChainMember := mkMember x.1 x.2.(h_xmin) x.2.(h_xmax) x.2.(h_infomask).

Lemma state_item d i it : page_ok crc32 d -> item (heap_of d) i = Some it -> slot_state crc32 d i = Ok (item_state it) /\ read_row crc32 d i = Ok (item_row it).
Proof using. intros Hp Hi. pose proof (read_row_ok crc32 d i Hp) as H. unfold item in Hi. rewrite Hi in H. tauto. Qed.

Lemma live_header_ok d i m hd : page_ok crc32 d -> hdr (heap_of d) i = Some hd ->
  live_header crc32 d i m = Ok (fields hd) /\ slot_state crc32 d i = Ok LpNormal.
Proof using.
  intros Hp (row & Hi & Hd)%hdr_item. destruct (state_item _ _ _ Hp Hi) as [Es Er]. split; [|done].
  unfold live_header, live_tuple. rewrite Er. cbn in *. destruct (decode_mvcc_header row) as [[[[a b] c] e]|]; [|done]. by injection Hd as <-.
Qed.

Lemma page_id_heap d : page_id d = (heap_of d).(h_id).
Proof using. done. Qed.

Lemma hot_successor_ok v d i hd : page_ok crc32 d -> hot_ok v (heap_of d) -> hdr (heap_of d) i = Some hd ->
  hot_successor crc32 d (heap_of d).(h_id) hd.(h_t_ctid) hd.(h_infomask) = Ok (next (heap_of d) i) /\
  prune_successor crc32 d hd.(h_t_ctid) hd.(h_infomask) = Ok (next (heap_of d) i).
Proof using.
  intros Hp Hok Hd. unfold hot_successor, prune_successor, next. rewrite Hd. cbn [mbind option_bind]. unfold hot.
  destruct (hint (h_infomask hd) HOT_UPDATED) eqn:Eh; cbn [negb andb]; [|done]. rewrite page_id_heap.
  destruct (h_t_ctid hd) as [p j] eqn:Et. cbn [fst snd]. destruct (p =? h_id (heap_of d)) eqn:Ep; cbn [negb]; [|done].
  to_prop. destruct (hk_succ _ _ Hok i hd Hd Eh) as (hd' & Hd' & Ho); [by rewrite Et|]. rewrite Et in Hd'. cbn [snd] in Hd'.
  rewrite (proj2 (live_header_ok d j ""%string hd' Hp Hd')). cbn [tried map_err mbind result_bind].
  rewrite !(proj1 (live_header_ok d j _ hd' Hp Hd')). cbn [mbind result_bind fields]. rewrite Hd'. cbn [mbind option_bind].
  unfold heap_only in *. by rewrite Ho.
Qed.

Lemma prune_loop_path v d : page_ok crc32 d -> hot_ok v (heap_of d) -> forall i l, path (heap_of d) i l -> forall fuel visited,
  NoDup l.*1 -> (forall k, k ∈ visited -> k ∉ l.*1) -> (length l <= fuel)%nat -> prune_loop crc32 fuel d visited i = Ok (member_of <$> l).
Proof using.
  intros Hp Hok i l Hl. induction Hl as [i hd Hd Hn|i hd j l Hd Hn Hl IH]; intros fuel visited Hnd Hv Hf;
    (destruct fuel as [|fuel]; [cbn in Hf; lia|]); cbn [prune_loop].
  all: assert (Hc : contains visited i = false) by (apply contains_false; intros Hi; eapply Hv; [exact Hi|left]); rewrite Hc.
  all: rewrite (proj1 (live_header_ok d i _ hd Hp Hd)); cbn [mbind result_bind fields].
  all: rewrite (proj2 (hot_successor_ok v d i hd Hp Hok Hd)), Hn; cbn [mbind result_bind]; try done.
  inversion Hnd; subst. rewrite IH; [done|done| |cbn in Hf; lia]. intros k [->|Hk]%elem_of_cons; [done|].
  intros Hin. eapply Hv; [exact Hk|by right].
Qed.

Section Reader.
Context (v : V) (snap : Snapshot) (cur : list TxnId).

Definition visible hd : bool := is_visible hd.(h_xmin) hd.(h_xmax) hd.(h_infomask) snap cur v.
Fixpoint first_visible (l : list Version) : option Version :=
  match l with [] => None | x :: l => if visible x.2 then Some x else first_visible l end.

Lemma first_visible_app l1 l2 : Forall (fun x => visible x.2 = false) l1 -> first_visible (l1 ++ l2) = first_visible l2.
Proof using. induction 1 as [|x l Hx _ IH]; [done|]. cbn. by rewrite Hx. Qed.
Lemma first_visible_none l : Forall (fun x => visible x.2 = false) l -> first_visible l = None.
Proof using. intros H. rewrite <- (app_nil_r l). by rewrite first_visible_app. Qed.

Definition answer (loc : RowLocation) (o : option Version) : option (RowLocation * N) :=
  (fun x => (mkRowLocation loc.(file_id) loc.(page_num) x.1, x.2.(h_infomask))) <$> o.

Lemma resolve_loop_path v0 d loc : page_ok crc32 d -> hot_ok v0 (heap_of d) -> loc.(page_num) = (heap_of d).(h_id) ->
  forall i l, path (heap_of d) i l -> forall fuel visited,
  NoDup l.*1 -> (forall k, k ∈ visited -> k ∉ l.*1) -> (length l <= fuel)%nat ->
  resolve_loop crc32 fuel d v loc snap cur visited i = Ok (answer loc (first_visible l)).
Proof using.
  intros Hp Hok Hloc i l Hl. induction Hl as [i hd Hd Hn|i hd j l Hd Hn Hl IH]; intros fuel visited Hnd Hv Hf;
    (destruct fuel as [|fuel]; [cbn in Hf; lia|]); cbn [resolve_loop].
  all: assert (Hc : contains visited i = false) by (apply contains_false; intros Hi; eapply Hv; [exact Hi|left]); rewrite Hc.
  all: rewrite (proj1 (live_header_ok d i _ hd Hp Hd)); cbn [mbind result_bind fields first_visible snd fst].
  all: fold (visible hd); destruct (visible hd); [done|].
  all: rewrite Hloc, (proj1 (hot_successor_ok v0 d i hd Hp Hok Hd)), Hn; cbn [mbind result_bind]; try done.
  inversion Hnd; subst. rewrite IH; [done|done| |cbn in Hf; lia]. intros k [->|Hk]%elem_of_cons; [done|].
  intros Hin. eapply Hv; [exact Hk|by right].
Qed.

Lemma next_slot_ok d : page_ok crc32 d -> next_slot crc32 d = Ok (len (heap_of d).(h_items)).
Proof using.
  intros Hp. destruct (page_validate crc32 d Hp) as (n & f & ss & Hb & E). unfold next_slot. rewrite E. cbn [mbind result_bind num_slots].
  unfold len. by rewrite (heap_length _ _ _ _ Hb), N2Nat.id.
Qed.

(** An index entry resolves to the first visible version of the chain of its root. *)
Lemma resolve_chain v0 d loc l : page_ok crc32 d -> hot_ok v0 (heap_of d) -> loc.(page_num) = (heap_of d).(h_id) ->
  chain_of (heap_of d) loc.(slot_num) l -> resolve_visible_in_chain crc32 d v loc snap cur = Ok (answer loc (first_visible l)).
Proof using.
  intros Hp Hok Hloc Hc. pose proof (chain_nodup _ _ _ _ Hok Hc) as Hnd. unfold resolve_visible_in_chain.
  assert (Hr : exists i, path (heap_of d) i l /\ resolve_root crc32 d (slot_num loc) = Ok (Some i)).
  { unfold resolve_root. destruct Hc as [l' Hr Hl|t l' Ht Hl].
    - exists (slot_num loc). split; [done|]. destruct (path_head _ _ _ Hl) as (hd & _ & _ & Hd).
      by rewrite (proj2 (live_header_ok d _ ""%string hd Hp Hd)).
    - exists t. split; [done|]. apply redir_item in Ht. destruct (state_item _ _ _ Hp Ht) as [-> _]. cbn.
      destruct (path_head _ _ _ Hl) as (hd & _ & _ & Hd). by rewrite (proj2 (live_header_ok d _ ""%string hd Hp Hd)). }
  destruct Hr as (i & Hl & ->). cbn [mbind result_bind]. rewrite (next_slot_ok d Hp). cbn [tried map_err mbind result_bind].
  eapply (resolve_loop_path v0 d loc); try done; [by intros k ?%elem_of_nil|]. pose proof (path_bound _ _ _ Hl Hnd). unfold chain_fuel, len. lia.
Qed.
(** A slot without a version resolves to none. *)
Lemma resolve_gone d loc it : page_ok crc32 d -> item (heap_of d) loc.(slot_num) = Some it -> is_dead it || is_unused it = true ->
  resolve_visible_in_chain crc32 d v loc snap cur = Ok None.
Proof using.
  intros Hp Hi Hit. unfold resolve_visible_in_chain, resolve_root. destruct (state_item _ _ _ Hp Hi) as [-> _]. by destruct it.
Qed.
End Reader.

(** ** What a reader cannot see *)

(** A reader of the page as it is pruned or later: its snapshot is not older than the
    horizon, and its own transactions are running. *)
Record live_reader v v' (horizon : TxnId) (snap : Snapshot) (cur : list TxnId) : Prop := {
  lr_later : status_evolves v v';
  lr_snapshot : snapshot_ok snap;
  lr_horizon : horizon <= snap.(xmin);
  lr_running t : t ∈ cur -> status v' t <> Aborted
}.

Definition dead v (horizon : TxnId) x : bool := is_dead_to_all x.2.(h_xmin) x.2.(h_xmax) x.2.(h_infomask) horizon v.
Definition aborted v x : Prop := status v x.2.(h_xmin) = Aborted.

(** The header that abort-cleanup leaves. *)
Definition reset hd : MvccHeader := mkMvccHeader hd.(h_xmin) INVALID_XID INVALID_TID (N.ldiff hd.(h_infomask) CLEARED_BITS).

Lemma hint_ldiff im bit c : N.land c bit = 0 -> hint (N.ldiff im c) bit = hint im bit.
Proof using.
  intros Hc. unfold hint. replace (N.land (N.ldiff im c) bit) with (N.land im bit); [done|]. apply N.bits_inj. intros n.
  rewrite !N.land_spec, N.ldiff_spec. apply (f_equal (fun m => N.testbit m n)) in Hc. rewrite N.land_spec, N.bits_0 in Hc.
  destruct (N.testbit im n), (N.testbit c n), (N.testbit bit n); done.
Qed.
Lemma hint_ldiff_cleared im bit c : N.land c bit = bit -> hint (N.ldiff im c) bit = false.
Proof using.
  intros Hc. unfold hint. replace (N.land (N.ldiff im c) bit) with 0; [done|]. apply N.bits_inj. intros n.
  rewrite N.land_spec, N.ldiff_spec, N.bits_0. apply (f_equal (fun m => N.testbit m n)) in Hc. rewrite N.land_spec in Hc.
  destruct (N.testbit im n), (N.testbit c n), (N.testbit bit n); done.
Qed.

Lemma reset_bits hd : hot (reset hd) = false /\ heap_only (reset hd) = heap_only hd.
Proof using. split; [by apply hint_ldiff_cleared|by apply hint_ldiff]. Qed.
Lemma reset_sound v hd : sound v hd -> sound v (reset hd).
Proof using.
  intros [H1 H2 H3 H4]. split; cbn [reset h_xmin h_xmax h_infomask].
  - by rewrite hint_ldiff.
  - by rewrite hint_ldiff.
  - by rewrite hint_ldiff_cleared.
  - by rewrite hint_ldiff_cleared.
Qed.

Section Live.
Context (v v' : V) (horizon : TxnId) (snap : Snapshot) (cur : list TxnId) (Hlive : live_reader v v' horizon snap cur).

Lemma still_aborted t : status v t = Aborted -> ~ effect_visible t snap cur v'.
Proof using Hlive.
  intros Ha. assert (Ha' : status v' t = Aborted) by (rewrite <- Ha; apply (lr_later _ _ _ _ _ Hlive); congruence).
  intros [Hc|(_ & _ & Hc)]; [by apply (lr_running _ _ _ _ _ Hlive) in Hc|congruence].
Qed.
Lemma sound_later hd : sound v hd -> sound v' hd.
Proof using Hlive. apply hints_sound_evolves, (lr_later _ _ _ _ _ Hlive). Qed.

Lemma aborted_unseen x : sound v x.2 -> aborted v x -> visible v' snap cur x.2 = false.
Proof using Hlive. intros Hs Ha. apply is_visible_false; [by apply sound_later|]. left. by apply still_aborted. Qed.
Lemma dead_unseen x : sound v x.2 -> dead v horizon x = true -> visible v' snap cur x.2 = false.
Proof using Hlive.
  intros Hs Hd. apply (is_dead_to_all_iff _ _ _ _ _ Hs) in Hd as [Ha|(Hx & Hlt & Hc)]; [by apply aborted_unseen|].
  apply is_visible_false; [by apply sound_later|]. right. split; [done|].
  destruct Hlive as [Hl Hs' Hh _]. eapply effect_visible_below; [done|exact Hh|done|]. rewrite <- Hc. apply Hl. congruence.
Qed.
Lemma reset_seen hd : sound v hd -> status v hd.(h_xmax) = Aborted -> visible v' snap cur (reset hd) = visible v' snap cur hd.
Proof using Hlive.
  intros Hs Ha. apply eq_true_iff_eq. unfold visible.
  rewrite (is_visible_iff _ _ _ _ _ _ (sound_later _ Hs)), (is_visible_iff _ _ _ _ _ _ (sound_later _ (reset_sound _ _ Hs))).
  cbn [reset h_xmin h_xmax]. pose proof (still_aborted _ Ha) as Hn. split; intros [Hx _]; (split; [exact Hx|]); [by right|by left].
Qed.
End Live.

(** ** The plan of one chain *)

Lemma path_adjacent h i l1 x y l2 : path h i (l1 ++ x :: y :: l2) -> next h x.1 = Some y.1.
Proof using.
  remember (l1 ++ x :: y :: l2) as l. intros Hp. revert l1 Heql.
  induction Hp as [i hd Hd Hn|i hd j l Hd Hn Hp IH]; intros l1 E.
  - by destruct l1 as [|? []].
  - destruct l1 as [|z l1]; cbn in E; injection E as <- E; [|by eapply IH].
    destruct (path_head _ _ _ Hp) as (hd' & l' & -> & _). injection E as <- _. done.
Qed.

Lemma path_headed h i l x : path h i l -> x ∈ l -> hdr h x.1 = Some x.2.
Proof using. intros Hp Hx. apply path_headers in Hp. by eapply Forall_forall in Hp. Qed.
Lemma path_sound v h i l : hot_ok v h -> path h i l -> Forall (fun x => sound v x.2) l.
Proof using. intros Hok Hp. apply path_headers in Hp. eapply Forall_impl; [exact Hp|]. intros x Hx. exact (hk_hints _ _ Hok _ _ Hx). Qed.

Lemma path_abort_closed v h i l : hot_ok v h -> path h i l -> (exists hd, hdr h i = Some hd /\ status v hd.(h_xmin) = Aborted) -> Forall (aborted v) l.
Proof using.
  intros Hok. induction 1 as [i hd Hd Hn|i hd j l Hd Hn Hp IH]; intros (hd' & Hd' & Ha).
  - constructor; [|done]. unfold aborted. cbn. congruence.
  - constructor; [unfold aborted; cbn; congruence|]. apply IH. destruct (path_head _ _ _ Hp) as (hj & _ & _ & Hj).
    exists hj. split; [done|]. eapply (hk_abort _ _ Hok i j); eauto.
Qed.

Lemma aborted_hint v hd : sound v hd -> hint hd.(h_infomask) XMIN_ABORTED || is_aborted v hd.(h_xmin) = bool_decide (status v hd.(h_xmin) = Aborted).
Proof using. intros [_ H _ _]. unfold is_aborted. destruct (hint _ _); [|done]. symmetry. by apply bool_decide_eq_true_2, H. Qed.
Lemma deleter_hint v hd : sound v hd ->
  negb (hd.(h_xmax) =? INVALID_XID) && (hint hd.(h_infomask) XMAX_ABORTED || is_aborted v hd.(h_xmax)) = bool_decide (status v hd.(h_xmax) = Aborted).
Proof using TxnStatusViewOk0.
  intros [_ _ _ H]. unfold is_aborted. destruct (N.eqb_spec hd.(h_xmax) INVALID_XID) as [E|E]; cbn [negb andb].
  - rewrite E, status_reserved by done. done.
  - destruct (hint _ _); [|done]. symmetry. by apply bool_decide_eq_true_2, H.
Qed.

Lemma abort_at_step v m s rest : abort_at v (m :: s :: rest) =
  if negb (hint m.(m_infomask) HOT_UPDATED) then None
  else if hint s.(m_infomask) XMIN_ABORTED || is_aborted v s.(m_xmin) then Some O else S <$> abort_at v (s :: rest).
Proof using. done. Qed.

(** The chain up to the version whose successor aborted, and the aborted rest. *)
Lemma cut_path v h i l : hot_ok v h -> path h i l -> exists front z post,
  l = front ++ z :: post /\ Forall (aborted v) post /\ (post <> [] -> status v z.2.(h_xmax) = Aborted) /\
  Forall (fun x => ~ aborted v x) (tail (front ++ [z])) /\
  abort_at v (member_of <$> l) = match post with [] => None | _ => Some (length front) end.
Proof using.
  intros Hok. induction 1 as [i hd Hd Hn|i hd j l Hd Hn Hp IH].
  { by exists [], (i, hd), []. }
  destruct (path_head _ _ _ Hp) as (hj & l' & -> & Hj). change (member_of <$> (i, hd) :: (j, hj) :: l') with (member_of (i, hd) :: member_of (j, hj) :: (member_of <$> l')).
  rewrite abort_at_step. change (m_infomask (member_of (i, hd))) with (h_infomask hd). change (m_infomask (member_of (j, hj))) with (h_infomask hj).
  change (m_xmin (member_of (j, hj))) with (h_xmin hj).
  destruct (next_inv _ _ _ Hn) as (hd0 & hj0 & Hd0 & Hj0 & Hhot & _ & _). assert (hd0 = hd) as -> by congruence.
  unfold hot in Hhot. rewrite Hhot. cbn [negb]. rewrite (aborted_hint v hj (hk_hints _ _ Hok _ _ Hj)). case_bool_decide as Ha.
  - exists [], (i, hd), ((j, hj) :: l'). split_and!; try done; [|intros _].
    + eapply path_abort_closed; eauto.
    + cbn. by rewrite (hk_link _ _ Hok i j hd hj).
  - destruct IH as (front & z & post & El & Hpost & Hz & Hfront & Eat). exists ((i, hd) :: front), z, post.
    split_and!; try done; [cbn; by rewrite El| |].
    + cbn. destruct front as [|y front]; cbn in El, Hfront |- *; injection El as <- _; (constructor; [done|]); [constructor|done].
    + cbn [fmap list_fmap] in Eat. rewrite Eat. by destruct post.
Qed.

(** How a chain is collapsed: its dead front, the versions kept, its aborted rest, and the
    version of it that is reset. *)
Record Collapse : Type := mkCollapse { cl_root : N; cl_pre : list Version; cl_mid : list Version; cl_post : list Version; cl_reset : option Version }.
Definition cl_chain (c : Collapse) : list Version := c.(cl_pre) ++ c.(cl_mid) ++ c.(cl_post).

Definition redirects_of (c : Collapse) : list (N * N) := match c.(cl_pre), c.(cl_mid) with _ :: _, m :: _ => [(c.(cl_root), m.1)] | _, _ => [] end.
Definition deads_of (c : Collapse) : list N := match c.(cl_mid) with [] => [c.(cl_root)] | _ => [] end.
Definition frees_of (c : Collapse) : list N := c.(cl_post).*1 ++ filter (fun s => s <> c.(cl_root)) c.(cl_pre).*1.
Definition resets_of (c : Collapse) : list N := match c.(cl_reset) with Some z => [z.1] | None => [] end.

Definition plan_add (p : PagePrunePlan) (c : Collapse) : PagePrunePlan :=
  mkPlan (p.(redirect_roots) ++ redirects_of c) (p.(dead_roots) ++ deads_of c) (p.(free_to_unused) ++ frees_of c) (p.(reset_slots) ++ resets_of c).

Record collapse_ok v horizon h (c : Collapse) : Prop := {
  c_chain : chain_of h c.(cl_root) (cl_chain c);
  c_dead : Forall (fun x => dead v horizon x = true) c.(cl_pre);
  c_aborted : Forall (aborted v) c.(cl_post);
  c_kept : c.(cl_pre) ++ c.(cl_mid) <> [];
  c_reset z : c.(cl_reset) = Some z -> last (c.(cl_pre) ++ c.(cl_mid)) = Some z /\ status v z.2.(h_xmax) = Aborted;
  c_cut : c.(cl_post) <> [] -> is_Some c.(cl_reset)
}.

Lemma slots_of_members (l : list Version) : m_slot <$> (member_of <$> l) = l.*1.
Proof using. rewrite <- list_fmap_compose. done. Qed.
Lemma but_root_members r (l : list Version) : but_root r (member_of <$> l) = filter (fun s => s <> r) l.*1.
Proof using. unfold but_root. by rewrite slots_of_members. Qed.

(** The version kept first is reset when its deleter aborted, which only the last one's can have. *)
Lemma kept_reset v z m (p : PagePrunePlan) : sound v m.2 -> (status v m.2.(h_xmax) = Aborted -> m = z) ->
  exists o, maybe_abort_cleanup_kept v (member_of m) p = mkPlan p.(redirect_roots) p.(dead_roots) p.(free_to_unused) (p.(reset_slots) ++ match o with Some x => [x.1] | None => [] end) /\
    (forall x, o = Some x -> x = z /\ status v z.2.(h_xmax) = Aborted) /\ (z.1 ∈ p.(reset_slots) -> o = None).
Proof using TxnStatusViewOk0.
  intros Hs Hm. unfold maybe_abort_cleanup_kept. cbn [member_of m_slot m_xmax m_infomask]. rewrite (deleter_hint v _ Hs).
  destruct (contains (reset_slots p) m.1) eqn:Ec; [exists None; rewrite app_nil_r; by destruct p|]. apply contains_false in Ec.
  case_bool_decide as Ha; [|exists None; rewrite app_nil_r; by destruct p].
  destruct (Hm Ha). exists (Some m). split_and!; [done|by intros x [= <-]|by intros ?].
Qed.

(** After the abort truncation: the versions up to [z], and the plan with the rest freed. *)
Definition cut_plan (p : PagePrunePlan) (z : Version) (post : list Version) : PagePrunePlan :=
  mkPlan p.(redirect_roots) p.(dead_roots) (p.(free_to_unused) ++ post.*1) (p.(reset_slots) ++ match post with [] => [] | _ => [z.1] end).

Lemma inner_cut v horizon r front z post p :
  abort_at v (member_of <$> (front ++ z :: post)) = match post with [] => None | _ => Some (length front) end ->
  plan_chain_inner v horizon r (member_of <$> (front ++ z :: post)) p =
  match list_find (fun m => negb (is_dead_to_all m.(m_xmin) m.(m_xmax) m.(m_infomask) horizon v) = true) (member_of <$> (front ++ [z])) with
  | None => (push_free (but_root r (member_of <$> (front ++ [z]))) (push_dead r (cut_plan p z post)), Ok ())
  | Some (O, head) => (maybe_abort_cleanup_kept v head (cut_plan p z post), Ok ())
  | Some (k, m) => (maybe_abort_cleanup_kept v m (push_free (but_root r (take k (member_of <$> (front ++ [z])))) (push_redirect (r, m.(m_slot)) (cut_plan p z post))), Ok ())
  end.
Proof using.
  intros Eat. unfold plan_chain_inner. rewrite Eat. destruct post as [|y post].
  { unfold cut_plan. cbn [fmap list_fmap]. rewrite !app_nil_r. destruct p. by destruct (list_find _ _) as [[[] ?]|]. }
  rewrite (list_lookup_fmap member_of), lookup_app_r, Nat.sub_diag by done. cbn [fmap option_fmap option_map lookup list_lookup from_option].
  assert (E1 : (S (length front) - length front)%nat = 1%nat) by lia.
  replace (take (S (length front)) (member_of <$> (front ++ z :: y :: post))) with (member_of <$> (front ++ [z]))
    by (by rewrite <- fmap_take, take_app, take_ge, E1 by lia).
  rewrite <- fmap_drop, slots_of_members, drop_app, drop_ge, E1 by lia.
  cbn [app drop member_of m_slot]. by destruct (list_find _ _) as [[[] ?]|].
Qed.

Lemma inner_collapses v horizon h r l p : hot_ok v h -> chain_of h r l -> exists c, c.(cl_root) = r /\ cl_chain c = l /\
  collapse_ok v horizon h c /\ plan_chain_inner v horizon r (member_of <$> l) p = (plan_add p c, Ok ()).
Proof using TxnStatusViewOk0.
  intros Hok Hc. destruct (chain_path _ _ _ Hc) as (i & Hp & _). destruct (cut_path _ _ _ _ Hok Hp) as (front & z & post & -> & Hpost & Hz & Hfront & Eat).
  rewrite (inner_cut _ _ _ _ _ _ _ Eat). set (cut := match post with [] => None | _ => Some z end).
  destruct (list_find_split (fun m => negb (is_dead_to_all m.(m_xmin) m.(m_xmax) m.(m_infomask) horizon v)) (member_of <$> (front ++ [z]))) as (pre' & mid' & E & Hpre & Hmid).
  apply fmap_app_inv in E as (pre & mid & -> & -> & E). rewrite E in *.
  assert (Hpre' : Forall (fun x => dead v horizon x = true) pre).
  { rewrite Forall_fmap in Hpre. eapply Forall_impl; [exact Hpre|]. intros x Hx. by apply negb_false_iff in Hx. }
  assert (El : front ++ z :: post = pre ++ mid ++ post) by (by rewrite app_assoc, <- E, <- app_assoc).
  assert (Hne : pre ++ mid <> []) by (rewrite <- E; by destruct front).
  assert (Hlast : last (pre ++ mid) = Some z) by (by rewrite <- E, last_snoc).
  assert (Hcut : forall o, (forall x, o = Some x -> x = z /\ status v z.2.(h_xmax) = Aborted) -> (post <> [] -> is_Some o) ->
    collapse_ok v horizon h (mkCollapse r pre mid post o)).
  { intros o Ho Hcut. constructor; cbn [cl_root cl_pre cl_mid cl_post cl_reset]; try done.
    - unfold cl_chain. cbn. by rewrite <- El.
    - intros x Hx. destruct (Ho x Hx) as [-> Ha]. done. }
  destruct mid as [|m mid].
  - cbn [fmap list_fmap] in Hmid. rewrite Hmid. exists (mkCollapse r pre [] post cut). split_and!; [done|unfold cl_chain; by rewrite El| |].
    + apply Hcut; subst cut; (destruct post as [|y post]; [done|]); [intros x [= <-]; split; [done|by apply Hz]|eauto].
    + rewrite but_root_members, app_nil_r. unfold plan_add, cut_plan, push_free, push_dead, redirects_of, deads_of, frees_of, resets_of. subst cut.
      cbn [redirect_roots dead_roots free_to_unused reset_slots cl_root cl_pre cl_mid cl_post cl_reset]. rewrite <- app_assoc. destruct pre; [done|]. rewrite app_nil_r. by destruct post.
  - assert (Hm : status v m.2.(h_xmax) = Aborted -> m = z).
    { destruct mid as [|n mid]; [rewrite last_app in Hlast; cbn in Hlast; congruence|]. intros Ha. exfalso.
      rewrite El in Hp. cbn [app] in Hp. pose proof (path_adjacent _ _ _ _ _ _ Hp) as Hn. pose proof (path_headers _ _ _ Hp) as Hh.
      rewrite !Forall_app, !Forall_cons in Hh. destruct Hh as (_ & Hm & Hn' & _).
      rewrite (hk_link _ _ Hok _ _ _ _ Hn Hm Hn') in Ha. apply (Forall_forall (fun x => ~ aborted v x) _) with (x := n) in Hfront; [done|].
      destruct pre as [|y pre]; cbn; [left|]. apply elem_of_app. right. right. left. }
    assert (Hs : sound v m.2).
    { pose proof (path_sound _ _ _ _ Hok Hp) as Hs. rewrite El, !Forall_app, Forall_cons in Hs. tauto. }
    destruct Hmid as [_ Hf]. rewrite length_fmap in Hf. cbn [fmap list_fmap] in Hf. rewrite Hf.
    set (p2 := match pre with [] => cut_plan p z post | _ => push_free (but_root r (member_of <$> pre)) (push_redirect (r, m.1) (cut_plan p z post)) end).
    destruct (kept_reset v z m p2 Hs Hm) as (o & Eo & Ho & Hno).
    exists (mkCollapse r pre (m :: mid) post (match post with [] => o | _ => Some z end)). split_and!; [done|unfold cl_chain; by rewrite El| |].
    + apply Hcut; (destruct post as [|y post]; [done|]); [intros x [= <-]; split; [done|by apply Hz]|eauto].
    + assert (Ec : p2.(reset_slots) = p.(reset_slots) ++ match post with [] => [] | _ => [z.1] end) by (subst p2; by destruct pre).
      transitivity (maybe_abort_cleanup_kept v (member_of m) p2, Ok () : DbResult unit).
      { subst p2. destruct pre as [|y pre]; [done|]. cbn [length]. rewrite fmap_app, take_app_length'; [done|by rewrite length_fmap]. }
      rewrite Eo, Ec. unfold plan_add. f_equal. f_equal.
      * subst p2. destruct pre; cbn; by rewrite ?app_nil_r.
      * subst p2. destruct pre; cbn; by rewrite ?app_nil_r.
      * subst p2. destruct pre as [|y pre]; cbn [push_free push_redirect free_to_unused cut_plan frees_of cl_post cl_pre cl_root]; [cbn; by rewrite app_nil_r|].
        by rewrite but_root_members, <- app_assoc.
      * rewrite <- app_assoc. f_equal. destruct post; cbn [app resets_of cl_reset]; [done|]. rewrite Hno; [done|]. rewrite Ec. apply elem_of_app. right. left.
Qed.

(** ** The plan of a page *)

Lemma truncate_add p c : truncate_to p (plan_add p c) = p.
Proof using. destruct p. unfold truncate_to, plan_add. cbn. by rewrite !take_app_length. Qed.

Lemma plan_chain_collapses v horizon adr h r l p : hot_ok v h -> chain_of h r l -> exists cs,
  plan_chain v horizon adr r (member_of <$> l) p = (foldl plan_add p cs, Ok ()) /\
  (cs = [] /\ adr = false \/ exists c, cs = [c] /\ c.(cl_root) = r /\ collapse_ok v horizon h c /\ (adr = true \/ c.(cl_mid) <> [])).
Proof using TxnStatusViewOk0.
  intros Hok Hc. destruct (inner_collapses v horizon h r l p Hok Hc) as (c & Hr & El & Hcl & E). unfold plan_chain.
  destruct (chain_path _ _ _ Hc) as (i & Hp & _). destruct (path_head _ _ _ Hp) as (hd & l' & -> & _). cbn [fmap list_fmap] in *. rewrite E.
  cbn [is_ok negb orb]. destruct adr; cbn [negb andb].
  { exists [c]. split; [done|]. right. exists c. auto. }
  destruct (decide (cl_mid c = [])) as [Em|Em].
  - exists []. split; [|by left]. replace (length (dead_roots (plan_add p c)) =? length (dead_roots p))%nat with false.
    + cbn [negb]. by rewrite truncate_add.
    + symmetry. apply Nat.eqb_neq. unfold plan_add, deads_of. cbn. rewrite Em, length_app. cbn. lia.
  - exists [c]. split; [|right; exists c; auto]. replace (length (dead_roots (plan_add p c)) =? length (dead_roots p))%nat with true; [done|].
    symmetry. apply Nat.eqb_eq. unfold plan_add, deads_of. cbn. destruct (cl_mid c); [done|]. by rewrite app_nil_r.
Qed.

Lemma item_in h i : i < len h.(h_items) -> is_Some (item h i).
Proof using. unfold len, item. intros Hi. apply lookup_lt_is_Some. lia. Qed.

(** The first pass collects the slots that are owned. *)
Lemma members_owned v d l : page_ok crc32 d -> hot_ok v (heap_of d) -> Forall (fun i => i < len (heap_of d).(h_items)) l -> forall acc,
  exists ms, members crc32 d l acc = Ok ms /\ forall k, k ∈ ms <-> k ∈ acc \/ exists i, i ∈ l /\ owns (heap_of d) i k.
Proof using.
  intros Hp Hok. induction 1 as [|i l Hi Hl IH]; intros acc.
  { exists acc. split; [done|]. intros k. split; [by left|]. intros [?|(i & Hi & _)]; [done|]. by apply elem_of_nil in Hi. }
  assert (Hstep : forall o, (forall k, owns (heap_of d) i k <-> o = Some k) ->
    exists ms, members crc32 d l (from_option (fun s => s :: acc) acc o) = Ok ms /\ forall k, k ∈ ms <-> k ∈ acc \/ exists i0, i0 ∈ i :: l /\ owns (heap_of d) i0 k).
  { intros o Ho. destruct (IH (from_option (fun s => s :: acc) acc o)) as (ms & E & Hms). exists ms. split; [done|]. intros k. rewrite Hms.
    destruct o as [t|]; cbn [from_option]; rewrite ?elem_of_cons; setoid_rewrite elem_of_cons.
    - split.
      + intros [[->|?]|(i0 & ? & ?)]; [right; exists i; split; [by left|by apply Ho]|by left|right; eauto].
      + intros [?|(i0 & [->|?] & Hk)]; [tauto|apply Ho in Hk; left; left; congruence|right; eauto].
    - split; [intros [?|(i0 & ? & ?)]; eauto|]. intros [?|(i0 & [->|?] & Hk)]; [tauto|by apply Ho in Hk|right; eauto]. }
  destruct (item_in _ _ Hi) as [it Eit]. destruct (state_item _ _ _ Hp Eit) as [Es Er]. cbn [members]. rewrite Es. cbn [tried map_err mbind result_bind].
  assert (Hn : header_in it = None -> redir (heap_of d) i = None -> forall k, owns (heap_of d) i k <-> None = Some k).
  { intros Hit Hr k. split; [|done]. intros [H|H]; [|congruence]. apply next_inv in H as (hd & _ & Hd & _). unfold hdr in Hd. rewrite Eit in Hd. cbn in Hd. congruence. }
  destruct it as [row| | |t]; cbn [item_state].
  - rewrite Er. cbn [read map_err mbind result_bind item_row]. destruct (hk_header _ _ Hok i row Eit) as [hd Hd]. pose proof Hd as Hd'. unfold hdr in Hd'.
    rewrite Eit in Hd'. cbn [mbind option_bind header_in] in Hd'. destruct (decode_mvcc_header row) as [[[[a b] c] e]|] eqn:Ed; [|done]. injection Hd' as Hd'.
    cbn [tried map_err mbind result_bind].
    pose proof (proj2 (hot_successor_ok v d i hd Hp Hok Hd)) as Eps. rewrite <- Hd' in Eps at 1 2. cbn [h_t_ctid h_infomask] in Eps. rewrite Eps. cbn [mbind result_bind].
    apply Hstep. intros k. unfold owns. rewrite (hdr_not_redir _ _ _ Hd). split; [by intros [?|?]|by left].
  - rewrite Er. apply (Hstep None), Hn; [done|]. unfold redir. by rewrite Eit.
  - rewrite Er. apply (Hstep None), Hn; [done|]. unfold redir. by rewrite Eit.
  - apply (Hstep (Some t)). intros k. apply redir_item in Eit. unfold owns. rewrite Eit. split; [|by right]. intros [H|H]; [|done].
    apply next_inv in H as (hd & _ & Hd & _). by rewrite (redir_not_hdr _ _ _ Eit) in Hd.
Qed.

Lemma chain_collected v d r l i : page_ok crc32 d -> hot_ok v (heap_of d) -> chain_of (heap_of d) r l -> path (heap_of d) i l ->
  collect_prune_chain crc32 d i = Ok (member_of <$> l).
Proof using.
  intros Hp Hok Hc Hl. unfold collect_prune_chain. rewrite (next_slot_ok d Hp). cbn [tried map_err mbind result_bind].
  pose proof (chain_nodup _ _ _ _ Hok Hc) as Hnd. eapply prune_loop_path; try done; [by intros k ?%elem_of_nil|].
  pose proof (path_bound _ _ _ Hl Hnd). unfold chain_fuel, len. lia.
Qed.

(** The second pass meets each root once, with its chain. *)
Lemma chain_head_ok v d ms r : page_ok crc32 d -> hot_ok v (heap_of d) -> r < len (heap_of d).(h_items) ->
  (forall k, k ∈ ms <-> exists i, owns (heap_of d) i k) ->
  chain_head crc32 d ms r = Ok None \/
  exists i l, chain_head crc32 d ms r = Ok (Some i) /\ chain_of (heap_of d) r l /\ path (heap_of d) i l.
Proof using.
  intros Hp Hok Hr Hms. unfold chain_head. destruct (item_in _ _ Hr) as [it Eit]. destruct (state_item _ _ _ Hp Eit) as [-> _].
  cbn [tried map_err mbind result_bind]. destruct it as [row| | |t]; cbn [item_state]; [|by left..|].
  - destruct (contains ms r) eqn:Ec; [by left|]. apply contains_false in Ec. right.
    assert (Hroot : root_slot (heap_of d) r) by (intros i Hi; apply Ec, Hms; eauto).
    destruct (chain_exists _ _ _ Hok Hroot (hk_header _ _ Hok _ _ Eit)) as [l Hl]. exists r, l. split_and!; [done|done|].
    destruct Hl as [l Hr' Hl|t l Ht Hl]; [done|]. apply redir_item in Ht. congruence.
  - right. apply redir_item in Eit. destruct (hk_redirect _ _ Hok _ _ Eit) as (hd & Hd & _).
    rewrite (proj2 (live_header_ok d t ""%string hd Hp Hd)). destruct (chain_exists_redirect _ _ _ _ Hok Eit) as [l Hl].
    exists t, l. split_and!; [done|done|]. destruct Hl as [l Hr' Hl|t' l Ht Hl]; [|congruence].
    destruct (path_head _ _ _ Hl) as (hd' & _ & _ & Hd'). by rewrite (redir_not_hdr _ _ _ Eit) in Hd'.
Qed.

Context {D : Type} `{!DecimalType D}.

(** A plan is the sum of the collapses of distinct roots; no root dies when none may. *)
Definition collapses v horizon (adr : bool) h (slots : list N) (cs : list Collapse) : Prop :=
  Forall (collapse_ok v horizon h) cs /\ (cl_root <$> cs) `sublist_of` slots /\ (adr = true \/ Forall (fun c => c.(cl_mid) <> []) cs).

Lemma plan_roots_collapses v schema horizon adr d ms l : page_ok crc32 d -> hot_ok v (heap_of d) ->
  (forall k, k ∈ ms <-> exists i, owns (heap_of d) i k) -> Forall (fun i => i < len (heap_of d).(h_items)) l -> forall p,
  match plan_roots (D:=D) crc32 v schema horizon adr d ms l p with
  | Ok p' => exists cs, p' = foldl plan_add p cs /\ collapses v horizon adr (heap_of d) l cs
  | Err _ => adr = false /\ is_Some schema.(toast_table_id)
  end.
Proof using TxnStatusViewOk0.
  intros Hp Hok Hms. induction 1 as [|r l Hr Hl IH]; intros p.
  { exists []. split; [done|]. split_and!; [constructor|constructor|right; constructor]. }
  assert (Hskip : match plan_roots crc32 v schema horizon adr d ms l p with
    | Ok p' => exists cs, p' = foldl plan_add p cs /\ collapses v horizon adr (heap_of d) (r :: l) cs
    | Err _ => adr = false /\ is_Some schema.(toast_table_id) end).
  { specialize (IH p). destruct (plan_roots _ _ _ _ _ _ _ _ _) as [p'|]; [|done]. destruct IH as (cs & -> & H1 & H2 & H3).
    exists cs. split; [done|]. split_and!; [done|by constructor|done]. }
  cbn [plan_roots]. destruct (chain_head_ok v d ms r Hp Hok Hr Hms) as [->|(i & ch & -> & Hc & Hi)]; cbn [mbind result_bind]; [exact Hskip|].
  rewrite (chain_collected v d r ch i Hp Hok Hc Hi). cbn [mbind result_bind].
  assert (Hnext : match (let '(plan, result) := plan_chain v horizon adr r (member_of <$> ch) p in
      _ ← tried result; plan_roots (D:=D) crc32 v schema horizon adr d ms l plan) with
    | Ok p' => exists cs, p' = foldl plan_add p cs /\ collapses v horizon adr (heap_of d) (r :: l) cs
    | Err _ => adr = false /\ is_Some schema.(toast_table_id) end).
  { destruct (plan_chain_collapses v horizon adr _ r ch p Hok Hc) as (cs1 & -> & Hcs1). cbn [tried map_err mbind result_bind].
    specialize (IH (foldl plan_add p cs1)). destruct (plan_roots _ _ _ _ _ _ _ _ _) as [p'|]; [|done]. destruct IH as (cs & -> & H1 & H2 & H3).
    exists (cs1 ++ cs). rewrite foldl_app. split; [done|]. destruct Hcs1 as [[-> _]|(c & -> & <- & Hcl & Hm)].
    - split_and!; [done|by constructor|done].
    - split_and!; [by constructor|by constructor|]. destruct H3; [by left|]. destruct Hm; [by left|]. right. by constructor. }
  destruct adr; [exact Hnext|]. unfold chain_contains_external_pointers. destruct (toast_table_id schema) as [t|] eqn:Et; [|exact Hnext].
  destruct (any_external (D:=D) crc32 schema d (member_of <$> ch)) as [[]|]; cbn [mbind result_bind]; [exact Hskip|exact Hnext|by split; [|eexists]].
Qed.

Definition plan_of (cs : list Collapse) : PagePrunePlan := foldl plan_add empty_plan cs.

Lemma classify_collapses v schema d horizon adr : page_ok crc32 d -> hot_ok v (heap_of d) ->
  match classify_page_for_prune (D:=D) crc32 v schema d horizon adr with
  | Ok plan => exists cs, plan = plan_of cs /\ collapses v horizon adr (heap_of d) (range (len (heap_of d).(h_items))) cs
  | Err _ => adr = false /\ is_Some schema.(toast_table_id)
  end.
Proof using TxnStatusViewOk0.
  intros Hp Hok. unfold classify_page_for_prune. rewrite (next_slot_ok d Hp). cbn [tried map_err mbind result_bind].
  assert (Hl : Forall (fun i => i < len (h_items (heap_of d))) (range (len (h_items (heap_of d))))).
  { apply Forall_forall. intros i. by rewrite elem_of_range. }
  destruct (members_owned v d _ Hp Hok Hl []) as (ms & -> & Hms). cbn [mbind result_bind]. apply plan_roots_collapses; try done.
  intros k. rewrite Hms. split; [intros [H%elem_of_nil|(i & _ & H)]; [done|eauto]|]. intros (i & Hi). right. exists i. split; [|done].
  apply elem_of_range. destruct Hi as [H|H].
  - apply next_inv in H as (hd & _ & Hd & _). apply hdr_bound in Hd. unfold len. lia.
  - apply redir_item in H. apply lookup_lt_Some in H. unfold len. lia.
Qed.

(** ** Applying the plan *)

Context (Hcrc : crc_fits crc32).

Lemma done_inv (m : SE bytes Fault unit) d h : implements crc32 (Some (h, Done)) ((_ ← m; mret Done) d) ->
  exists d', m d = (d', Ok ()) /\ page_ok crc32 d' /\ heap_of d' = h.
Proof using.
  intros (d' & E & Hp & Hh). apply se_bind_inv in E as (d1 & [] & E & E'). injection E' as ->. eauto.
Qed.

Lemma page_lsn_width d : page_ok crc32 d -> page_lsn d <= U64_MAX.
Proof using. 
  intros (_ & n & f & ss & Hb). unfold page_lsn, read_u64, U64_MAX. pose proof (read_le_bound 8 d PAGE_LSN_OFFSET (b_bytes _ _ _ _ Hb)) as H.
  rewrite (b_len _ _ _ _ Hb) in H. unfold PAGE_LSN_OFFSET, PAGE_SIZE in *. cbn in H. lia.
Qed.

Lemma row_bytes d i row : page_ok crc32 d -> item (heap_of d) i = Some (INormal row) -> bytes_ok row.
Proof using.
  intros (_ & n & f & ss & Hb) Hi. unfold item in Hi. apply lookup_lt_Some in Hi as Hl. rewrite (heap_length _ _ _ _ Hb) in Hl.
  rewrite (heap_lookup _ _ _ _ i Hb) in Hi by lia. unfold item_of in Hi. pose proof (b_bytes _ _ _ _ Hb) as Hd. apply (inj Some) in Hi.
  repeat case_if_in Hi; simplify_eq. by apply bytes_ok_sub.
Qed.
Lemma decode_width row a b c im : bytes_ok row -> decode_mvcc_header row = Ok (a, b, c, im) -> im <= U16_MAX.
Proof using.
  intros Hb. unfold decode_mvcc_header. destruct (head row) as [ver|]; [|done]. case_if.
  - destruct (get_range _ _ _) as [hdr|] eqn:Eg; [|done]. apply get_range_inv in Eg as (_ & Hl & ->). cbn [ok_or mbind result_bind]. unfold read_mvcc_header.
    destruct (len _ =? _) eqn:El; cbn [negb]; [|done]. to_prop. cbn [mbind result_bind h_xmin h_xmax h_t_ctid h_infomask]. intros [= _ _ _ <-].
    pose proof (read_le_bound 2 (sub row 1 (1 + V2_MVCC_HEADER_LEN - 1)) 0) as H. rewrite El in H. unfold V2_MVCC_HEADER_LEN, U16_MAX in *.
    assert (read_le 2 (sub row 1 (1 + (2 + 8 + 8 + 6) - 1)) 0 < 256 ^ N.of_nat 2) by (apply H; [by apply bytes_ok_sub|cbn; lia]). cbn in *. lia.
  - case_if; [|done]. intros [= _ _ _ <-]. done.
Qed.


Lemma flip_items_ok allowed new l : forall items, NoDup l -> Forall (fun i => exists it, items !! N.to_nat i = Some it /\ allowed it = true) l ->
  exists items', flip_items allowed new l items = Some items' /\ length items' = length items /\
    forall k, items' !! N.to_nat k = if decide (k ∈ l) then Some new else items !! N.to_nat k.
Proof using.
  induction l as [|i l IH]; intros items Hn Hf; cbn [flip_items]; [exists items; split_and!; [done|done|]; intros k; by rewrite decide_False by (by apply not_elem_of_nil)|].
  inversion Hn as [|? ? Hi Hn']; subst. apply Forall_cons in Hf as [(it & Eit & Ha) Hf]. rewrite Eit, Ha.
  destruct (IH (<[N.to_nat i := new]> items) Hn') as (items' & E & Hlen & Hk).
  { apply Forall_forall. intros j Hj. eapply Forall_forall in Hf as (it' & E' & Ha'); [|exact Hj]. exists it'. split; [|done].
    rewrite list_lookup_insert_ne; [done|]. intros E. apply Hi. by replace i with j by lia. }
  exists items'. split_and!; [done|by rewrite Hlen, length_insert|]. intros k. rewrite Hk. destruct (decide (k = i)) as [->|Hne].
  - rewrite (decide_True (P := i ∈ i :: l)) by left. case_decide; [done|]. apply list_lookup_insert_eq. by eapply lookup_lt_Some.
  - rewrite list_lookup_insert_ne by lia. rewrite (decide_ext (k ∈ l) (k ∈ i :: l)); [done|]. rewrite elem_of_cons. split; [by right|by intros [?|?]].
Qed.

Lemma item_mk items u l id i : item (mkHeap items u l id) i = items !! N.to_nat i.
Proof using. done. Qed.

(** Abort-cleanup of a slot replaces the header of its tuple. *)
Definition reset_row (row : bytes) : option bytes :=
  match decode_mvcc_header row with
  | Ok (_, _, _, infomask) =>
      match set_mvcc_header_fields row INVALID_XID INVALID_TID (N.ldiff infomask CLEARED_BITS) with Ok row' => Some row' | Err _ => None end
  | Err _ => None
  end.

Lemma ldiff_le a b : N.ldiff a b <= a.
Proof using. apply N.ldiff_le. rewrite N.ldiff_ldiff_l. apply N.bits_inj. intros n. rewrite N.ldiff_spec, N.lor_spec, N.bits_0. by destruct (N.testbit a n), (N.testbit b n). Qed.

Lemma reset_slot_ok d i row row' lsn : page_ok crc32 d -> lsn <= U64_MAX -> item (heap_of d) i = Some (INormal row) -> reset_row row = Some row' ->
  exists d', reset_slot crc32 lsn i d = (d', Ok ()) /\ page_ok crc32 d' /\ (heap_of d').(h_id) = (heap_of d).(h_id) /\
    (heap_of d').(h_items) = <[N.to_nat i := INormal row']> (heap_of d).(h_items).
Proof using Hcrc.
  intros Hp Hl Hi Hr. unfold reset_slot. rewrite (proj2 (state_item _ _ _ Hp Hi)). cbn [item_row]. unfold reset_row in Hr.
  destruct (decode_mvcc_header row) as [[[[a b] c] im]|] eqn:Ed; [|done]. destruct (set_mvcc_header_fields _ _ _ _) as [row''|] eqn:Es; [|done]. injection Hr as ->.
  destruct (done_inv (set_tuple_header crc32 i INVALID_XID INVALID_TID (N.ldiff im CLEARED_BITS) lsn) d
    (with_lsn (set_item (heap_of d) (N.to_nat i) (INormal row')) lsn)) as (d' & E & Hp' & Hh).
  - pose proof (impl_op crc32 Hcrc (OpSetHeader i INVALID_XID INVALID_TID (N.ldiff im CLEARED_BITS) lsn) d Hp) as H. cbn [run_op spec_op op_ok] in H.
    pose proof Hi as Hi'. unfold item in Hi'. rewrite Hi' in H. cbn [mbind option_bind] in H. rewrite Es in H. apply H. split; [|done]. unfold header_widths, INVALID_XID, INVALID_TID, U64_MAX, U32_MAX, U16_MAX. cbn [fst snd].
    pose proof (ldiff_le im CLEARED_BITS). pose proof (decode_width _ _ _ _ _ (row_bytes _ _ _ Hp Hi) Ed) as Hw. unfold U16_MAX in Hw. lia.
  - exists d'. rewrite Hh. done.
Qed.

Definition reset_item (it : Item) : Item :=
  match it with INormal row => from_option INormal it (reset_row row) | _ => it end.

(** A page that was rewritten: valid, with the same id and as many slots. *)
Definition rewritten d d' : Prop :=
  page_ok crc32 d' /\ (heap_of d').(h_id) = (heap_of d).(h_id) /\ length (heap_of d').(h_items) = length (heap_of d).(h_items).

Lemma rewritten_trans d1 d2 d3 : rewritten d1 d2 -> rewritten d2 d3 -> rewritten d1 d3.
Proof using. intros (_ & H2 & H3) (H4 & H5 & H6). split_and!; congruence. Qed.

Lemma resets_ok lsn l : lsn <= U64_MAX -> forall d, page_ok crc32 d -> NoDup l ->
  Forall (fun i => exists row row', item (heap_of d) i = Some (INormal row) /\ reset_row row = Some row') l ->
  exists d', for_each l (reset_slot crc32 lsn) d = (d', Ok ()) /\ rewritten d d' /\
    forall k, item (heap_of d') k = if decide (k ∈ l) then reset_item <$> item (heap_of d) k else item (heap_of d) k.
Proof using Hcrc.
  intros Hlsn. induction l as [|i l IH]; intros d Hp Hn Hf; cbn [for_each].
  { exists d. split_and!; [done|by split_and!|]. intros k. by rewrite decide_False by (by apply not_elem_of_nil). }
  inversion Hn as [|? ? Hi Hn']; subst. apply Forall_cons in Hf as [(row & row' & Ei & Er) Hf].
  destruct (reset_slot_ok d i row row' lsn Hp Hlsn Ei Er) as (d1 & E1 & Hp1 & Hid & Hits).
  assert (Hitem : forall k, item (heap_of d1) k = if decide (k = i) then Some (INormal row') else item (heap_of d) k).
  { intros k. unfold item. rewrite Hits. case_decide as Hk; [subst k; apply list_lookup_insert_eq; by eapply lookup_lt_Some|]. rewrite list_lookup_insert_ne; [done|lia]. }
  destruct (IH d1 Hp1 Hn') as (d' & E' & Hrw & Hk).
  { apply Forall_forall. intros j Hj. eapply Forall_forall in Hf as (r1 & r2 & E2 & E3); [|exact Hj]. exists r1, r2. split; [|done].
    rewrite Hitem, decide_False; [done|]. by intros ->. }
  exists d'. split_and!.
  - rewrite (se_bind_Ok _ _ _ _ _ E1). done.
  - eapply rewritten_trans; [|exact Hrw]. split_and!; [done|done|]. by rewrite Hits, length_insert.
  - intros k. rewrite Hk, Hitem. destruct (decide (k = i)) as [->|Hne].
    + rewrite (decide_False (P := i ∈ l)), (decide_True (P := i ∈ i :: l)) by (done || left). rewrite Ei. cbn. by rewrite Er.
    + rewrite (decide_ext (k ∈ l) (k ∈ i :: l)); [done|]. rewrite elem_of_cons. split; [by right|by intros [?|?]].
Qed.

Lemma redirects_ok rs : forall d, page_ok crc32 d -> NoDup rs.*1 ->
  Forall (fun r => r.1 < len (heap_of d).(h_items) /\ r.2 < len (heap_of d).(h_items)) rs ->
  exists d', for_each rs (fun r => set_redirect crc32 r.1 r.2) d = (d', Ok ()) /\ rewritten d d' /\
    (forall k t, (k, t) ∈ rs -> item (heap_of d') k = Some (IRedirect t)) /\ (forall k, k ∉ rs.*1 -> item (heap_of d') k = item (heap_of d) k).
Proof using Hcrc.
  induction rs as [|[i t] rs IH]; intros d Hp Hn Hf; cbn [for_each].
  { exists d. split_and!; try done. intros k t Ht. by apply elem_of_nil in Ht. }
  inversion Hn as [|? ? Hi Hn']; subst. apply Forall_cons in Hf as [[Hbi Hbt] Hf]. cbn [fst snd] in *.
  destruct (done_inv (set_redirect crc32 i t) d (set_item (heap_of d) (N.to_nat i) (IRedirect t))) as (d1 & E1 & Hp1 & Hh).
  { pose proof (impl_op crc32 Hcrc (OpRedirect i t) d Hp I) as H. cbn [run_op spec_op] in H. apply N.leb_gt in Hbi, Hbt. by rewrite Hbi, Hbt in H. }
  assert (Hrw1 : rewritten d d1) by (split_and!; [done|by rewrite Hh|rewrite Hh; apply length_insert]).
  assert (Hitem : forall k, item (heap_of d1) k = if decide (k = i) then Some (IRedirect t) else item (heap_of d) k).
  { intros k. rewrite Hh. unfold item. cbn [set_item h_items]. case_decide as Hk; [subst k|rewrite list_lookup_insert_ne; [done|lia]].
    apply list_lookup_insert_eq. unfold len in Hbi. lia. }
  destruct (IH d1 Hp1 Hn') as (d' & E' & Hrw & Hk1 & Hk2).
  { eapply Forall_impl; [exact Hf|]. intros [a b]. unfold len. by rewrite (proj2 (proj2 Hrw1)). }
  exists d'. split_and!.
  - rewrite (se_bind_Ok _ _ _ _ _ E1). done.
  - by eapply rewritten_trans.
  - intros k t' [[= -> ->]|Hk]%elem_of_cons; [|by apply Hk1]. rewrite Hk2 by done. by rewrite Hitem, decide_True.
  - intros k [Hki Hkr]%not_elem_of_cons. rewrite Hk2 by done. by rewrite Hitem, decide_False.
Qed.

(** Freeing and marking dead, which the code skips for an empty list. *)
Lemma flips_ok (f : list N -> SE bytes Fault unit) op allowed new l d :
  (forall l d, run_op crc32 (op l) d = ((_ ← f l; mret Done) : SE bytes Fault Answer) d) ->
  (forall l h, spec_op (op l) h = (items ← flip_items allowed new l h.(h_items); Some (with_items h items, Done))) -> (forall l, op_ok (op l)) ->
  page_ok crc32 d -> NoDup l -> Forall (fun i => exists it, item (heap_of d) i = Some it /\ allowed it = true) l ->
  exists d', unless_empty f l d = (d', Ok ()) /\ rewritten d d' /\
    forall k, item (heap_of d') k = if decide (k ∈ l) then Some new else item (heap_of d) k.
Proof using Hcrc.
  intros Hrun Hspec Hops Hp Hn Hf. destruct (decide (l = [])) as [->|Hl].
  { exists d. split_and!; [done|by split_and!|]. intros k. by rewrite decide_False by (by apply not_elem_of_nil). }
  destruct (flip_items_ok allowed new l (h_items (heap_of d)) Hn Hf) as (items & E & Hlen & Hk).
  destruct (done_inv (f l) d (with_items (heap_of d) items)) as (d' & E' & Hp' & Hh).
  { pose proof (impl_op crc32 Hcrc (op l) d Hp (Hops l)) as H. rewrite Hspec, E, Hrun in H. exact H. }
  exists d'. split_and!; [by destruct l| |intros k; rewrite Hh; apply Hk]. split_and!; [done|by rewrite Hh|by rewrite Hh].
Qed.

(** What a plan must be for a page, so that none of the steps refuses. *)
Record plan_fits h (p : PagePrunePlan) : Prop := {
  pf_resets : NoDup p.(reset_slots) /\ Forall (fun i => exists row row', item h i = Some (INormal row) /\ reset_row row = Some row') p.(reset_slots);
  pf_frees : NoDup p.(free_to_unused) /\ Forall (fun i => exists it, item h i = Some it /\ is_normal it = true) p.(free_to_unused);
  pf_redirects : NoDup p.(redirect_roots).*1 /\ Forall (fun r => r.1 < len h.(h_items) /\ r.2 < len h.(h_items)) p.(redirect_roots);
  pf_deads : NoDup p.(dead_roots) /\ Forall (fun i => (exists it, item h i = Some it /\ is_indexed it = true) /\ i ∉ p.(free_to_unused)) p.(dead_roots)
}.

(** The item the plan leaves in a slot. *)
Definition planned h (p : PagePrunePlan) (k : N) (it : option Item) : Prop :=
  (k ∈ p.(dead_roots) -> it = Some IDead) /\
  (k ∉ p.(dead_roots) -> forall t, (k, t) ∈ p.(redirect_roots) -> it = Some (IRedirect t)) /\
  (k ∉ p.(dead_roots) -> k ∉ p.(redirect_roots).*1 ->
    it = if decide (k ∈ p.(free_to_unused)) then Some IUnused
         else if decide (k ∈ p.(reset_slots)) then reset_item <$> item h k else item h k).

Lemma reset_item_kind it : is_normal (reset_item it) = is_normal it /\ is_indexed (reset_item it) = is_indexed it.
Proof using. destruct it as [row| | |]; [|done..]. cbn. by destruct (reset_row row). Qed.

Lemma prune_image_ok d p : page_ok crc32 d -> plan_fits (heap_of d) p ->
  exists d', prune_image crc32 p d = (d', Ok ()) /\ rewritten d d' /\ forall k, planned (heap_of d) p k (item (heap_of d') k).
Proof using Hcrc.
  intros Hp [[Hrn Hrf] [Hfn Hff] [Hdn Hdf] [Hkn Hkf]]. unfold prune_image.
  destruct (resets_ok (page_lsn d) p.(reset_slots) (page_lsn_width d Hp) d Hp Hrn Hrf) as (d1 & E1 & R1 & I1).
  assert (Hkind : forall k it, item (heap_of d) k = Some it -> exists it', item (heap_of d1) k = Some it' /\ is_normal it' = is_normal it /\ is_indexed it' = is_indexed it).
  { intros k it Hk. rewrite I1, Hk. destruct (reset_item_kind it). case_decide; eexists; (split; [reflexivity|done]). }
  destruct (flips_ok (free_slots_to_unused crc32) OpFree is_normal IUnused p.(free_to_unused) d1)
    as (d2 & E2 & R2 & I2); try done; [apply R1| |].
  { eapply Forall_impl; [exact Hff|]. intros i (it & Ei & Hit). destruct (Hkind _ _ Ei) as (it' & E' & <- & _) in Hit |- *. eauto. }
  destruct (redirects_ok p.(redirect_roots) d2) as (d3 & E3 & R3 & I3 & I3'); [apply R2|done| |].
  { eapply Forall_impl; [exact Hdf|]. intros r. unfold len. by rewrite (proj2 (proj2 R2)), (proj2 (proj2 R1)). }
  assert (Hroots : Forall (fun i => exists it, item (heap_of d3) i = Some it /\ is_indexed it = true) p.(dead_roots)).
  { eapply Forall_impl; [exact Hkf|]. intros i [(it & Ei & Hit) Hnf]. destruct (decide (i ∈ p.(redirect_roots).*1)) as [Hi|Hi].
    - apply list_elem_of_fmap in Hi as ([k t] & -> & Ht). cbn [fst]. rewrite (I3 _ _ Ht). eauto.
    - rewrite I3', I2, decide_False by done. destruct (Hkind _ _ Ei) as (it' & E' & _ & <-) in Hit |- *. eauto. }
  destruct (flips_ok (mark_slots_dead crc32) OpMarkDead is_indexed IDead p.(dead_roots) d3)
    as (d4 & E4 & R4 & I4); try done; [apply R3|].
  destruct (done_inv (compact crc32 (page_lsn d)) d4 (packed (heap_of d4) (h_items (heap_of d4)) (page_lsn d))) as (d5 & E5 & Hp5 & Hh5).
  { exact (impl_op crc32 Hcrc (OpCompact (page_lsn d)) d4 (proj1 R4) (page_lsn_width d Hp)). }
  exists d5. split_and!.
  - cbv zeta. erewrite se_bind_Ok by exact E1. erewrite se_bind_Ok by exact E2. erewrite se_bind_Ok by exact E3. erewrite se_bind_Ok by exact E4. exact E5.
  - do 3 (eapply rewritten_trans; [eassumption|]). eapply rewritten_trans; [exact R4|]. split_and!; [done|by rewrite Hh5..].
  - intros k. assert (Ik : item (heap_of d5) k = item (heap_of d4) k) by (by rewrite Hh5). rewrite Ik, I4. split_and!; intros Hk.
    + by rewrite decide_True.
    + intros t Ht. rewrite decide_False by done. by apply I3.
    + intros Hr. rewrite (decide_False (P := k ∈ dead_roots p)) by done. by rewrite I3', I2, I1 by done.
Qed.

(** ** The collapses of a page *)

Lemma plan_add_all cs : forall p, foldl plan_add p cs =
  mkPlan (p.(redirect_roots) ++ (cs ≫= redirects_of)) (p.(dead_roots) ++ (cs ≫= deads_of)) (p.(free_to_unused) ++ (cs ≫= frees_of)) (p.(reset_slots) ++ (cs ≫= resets_of)).
Proof using.
  induction cs as [|c cs IH]; intros p; cbn [foldl]; [cbn; rewrite !app_nil_r; by destruct p|].
  rewrite IH. unfold plan_add. cbn [redirect_roots dead_roots free_to_unused reset_slots]. by rewrite <- !app_assoc.
Qed.
Lemma plan_of_parts cs : plan_of cs = mkPlan (cs ≫= redirects_of) (cs ≫= deads_of) (cs ≫= frees_of) (cs ≫= resets_of).
Proof using. unfold plan_of. by rewrite plan_add_all. Qed.

Lemma elem_of_redirects c k t : (k, t) ∈ redirects_of c -> k = c.(cl_root) /\ c.(cl_pre) <> [] /\ exists m l, c.(cl_mid) = m :: l /\ t = m.1.
Proof using. unfold redirects_of. destruct (cl_pre c) as [|y pre], (cl_mid c) as [|m mid]; intros H; try (by apply elem_of_nil in H). apply list_elem_of_singleton in H as [= -> ->]. split_and!; [done|done|]. by exists m, mid. Qed.
Lemma elem_of_deads c k : k ∈ deads_of c -> k = c.(cl_root) /\ c.(cl_mid) = [].
Proof using. unfold deads_of. destruct (cl_mid c); intros H; [|by apply elem_of_nil in H]. by apply list_elem_of_singleton in H. Qed.
Lemma elem_of_frees c k : k ∈ frees_of c <-> k ∈ c.(cl_post).*1 \/ k ∈ c.(cl_pre).*1 /\ k <> c.(cl_root).
Proof using. unfold frees_of. rewrite elem_of_app, list_elem_of_filter. split; (intros [?|[? ?]]; [by left|by right]). Qed.
Lemma elem_of_resets c k : k ∈ resets_of c -> exists z, c.(cl_reset) = Some z /\ k = z.1.
Proof using. unfold resets_of. destruct (cl_reset c) as [z|]; intros H; [|by apply elem_of_nil in H]. apply list_elem_of_singleton in H. eauto. Qed.

Definition touches (c : Collapse) (k : N) : Prop := k = c.(cl_root) \/ k ∈ (cl_chain c).*1.

Lemma chain_parts c k : k ∈ (cl_chain c).*1 <-> k ∈ c.(cl_pre).*1 \/ k ∈ c.(cl_mid).*1 \/ k ∈ c.(cl_post).*1.
Proof using. unfold cl_chain. by rewrite !fmap_app, !elem_of_app. Qed.

Lemma reset_in_chain v horizon h c z : collapse_ok v horizon h c -> c.(cl_reset) = Some z -> z ∈ c.(cl_pre) ++ c.(cl_mid) /\ status v z.2.(h_xmax) = Aborted.
Proof using. intros Hc Hz. destruct (c_reset _ _ _ _ Hc z Hz) as [Hl Ha]. split; [|done]. by apply last_Some_elem_of. Qed.

(** The root of a chain is its first version, or a redirect to it. *)
Lemma collapse_root v horizon h c : hot_ok v h -> collapse_ok v horizon h c ->
  (exists hd l, cl_chain c = (c.(cl_root), hd) :: l /\ hdr h c.(cl_root) = Some hd) \/
  (exists t hd l, redir h c.(cl_root) = Some t /\ cl_chain c = (t, hd) :: l /\ c.(cl_root) ∉ (cl_chain c).*1).
Proof using.
  intros Hok Hc. destruct (c_chain _ _ _ _ Hc) as [l Hr Hl|t l Ht Hl]; destruct (path_head _ _ _ Hl) as (hd & l' & -> & Hd).
  - left. eauto.
  - right. exists t, hd, l'. split_and!; [done|done|]. intros (x & E & Hx)%list_elem_of_fmap. pose proof (path_headed _ _ _ _ Hl Hx) as Hh.
    rewrite <- E, (redir_not_hdr _ _ _ Ht) in Hh. done.
Qed.

Lemma set_header_total row a b c im xmax tid im' : decode_mvcc_header row = Ok (a, b, c, im) -> b <> INVALID_XID ->
  exists row', set_mvcc_header_fields row xmax tid im' = Ok row'.
Proof using.
  unfold decode_mvcc_header, set_mvcc_header_fields. destruct (head row) as [ver|]; [|done]. destruct (_ || _).
  - destruct (get_range _ _ _); [|done]. cbn. eauto.
  - case_if; [|done]. intros [= <- <- <- <-]. done.
Qed.

(** A tuple whose deleter aborted can be reset. *)
Lemma reset_row_ok v row hd : bytes_ok row -> header_in (INormal row) = Some hd -> status v hd.(h_xmax) = Aborted ->
  exists row', reset_row row = Some row' /\ header_in (INormal row') = Some (reset hd).
Proof using TxnStatusViewOk0.
  intros Hb Hd Ha. cbn in Hd. unfold reset_row. destruct (decode_mvcc_header row) as [[[[a b] c] im]|] eqn:Ed; [|done]. injection Hd as <-. cbn in Ha.
  assert (Hx : b <> INVALID_XID) by (intros ->; by rewrite status_reserved in Ha).
  destruct (set_header_total row a b c im INVALID_XID INVALID_TID (N.ldiff im CLEARED_BITS) Ed Hx) as [row' E]. rewrite E. exists row'. split; [done|].
  destruct (set_mvcc_decode row INVALID_XID INVALID_TID (N.ldiff im CLEARED_BITS) row') as [(x1 & x2 & x3 & x4 & E1 & E2) _]; [|done|].
  - pose proof (decode_width _ _ _ _ _ Hb Ed). pose proof (ldiff_le im CLEARED_BITS). unfold header_widths, INVALID_XID, INVALID_TID, U64_MAX, U32_MAX, U16_MAX in *. cbn. lia.
  - rewrite Ed in E1. injection E1 as <- <- <- <-. cbn [header_in]. by rewrite E2.
Qed.

Section Pruned.
Context (v : V) (horizon : TxnId) (adr : bool) (d : bytes) (cs : list Collapse) (slots : list N).
Abbreviation h := (heap_of d).
Context (Hp : page_ok crc32 d) (Hok : hot_ok v h) (Hcs : collapses v horizon adr h slots cs) (Hslots : NoDup slots).

Lemma collapsed c : c ∈ cs -> collapse_ok v horizon h c.
Proof using Hcs. intros Hc. destruct Hcs as [H _]. by eapply Forall_forall in H. Qed.
Lemma same_root c c' : c ∈ cs -> c' ∈ cs -> c.(cl_root) = c'.(cl_root) -> c = c'.
Proof using Hcs Hslots.
  intros Hc Hc' E. destruct Hcs as (_ & Hs & _). pose proof (sublist_NoDup _ _ Hslots Hs) as Hn.
  apply list_elem_of_lookup in Hc as [i Hi], Hc' as [j Hj].
  assert (i = j) as -> by (eapply (NoDup_lookup (cl_root <$> cs)); [done|rewrite list_lookup_fmap, Hi; done|rewrite list_lookup_fmap, Hj; cbn; by rewrite E]). congruence.
Qed.
Lemma touched_once c c' k : c ∈ cs -> c' ∈ cs -> touches c k -> touches c' k -> c = c'.
Proof using Hcs Hslots Hok.
  intros Hc Hc' Hk Hk'. apply same_root; [done|done|]. pose proof (c_chain _ _ _ _ (collapsed _ Hc)) as H1. pose proof (c_chain _ _ _ _ (collapsed _ Hc')) as H2.
  destruct Hk as [->|Hk], Hk' as [Ek|Hk']; [done|..].
  - symmetry. eapply (root_apart v h); [done|exact H2|by eapply chain_root|done].
  - subst k. eapply (root_apart v h); [done|exact H1|by eapply chain_root|done].
  - by eapply (chains_apart v h).
Qed.

Lemma chain_slots c : c ∈ cs -> NoDup (cl_chain c).*1 /\ Forall (fun x => hdr h x.1 = Some x.2) (cl_chain c).
Proof using Hcs Hok.
  intros Hc. pose proof (c_chain _ _ _ _ (collapsed _ Hc)) as H. split; [by eapply chain_nodup|]. destruct (chain_path _ _ _ H) as (i & Hi & _). by eapply path_headers.
Qed.
Lemma slot_header c k : c ∈ cs -> k ∈ (cl_chain c).*1 -> exists hd row, hdr h k = Some hd /\ item h k = Some (INormal row).
Proof using Hcs Hok.
  intros Hc (x & -> & Hx)%list_elem_of_fmap. destruct (chain_slots c Hc) as [_ Hh]. eapply Forall_forall in Hh; [|exact Hx].
  destruct (hdr_item _ _ _ Hh) as (row & E & _). eauto.
Qed.
Lemma root_item c : c ∈ cs -> exists it, item h c.(cl_root) = Some it /\ is_indexed it = true.
Proof using Hcs Hok.
  intros Hc. destruct (collapse_root _ _ _ _ Hok (collapsed _ Hc)) as [(hd & l & _ & Hd)|(t & hd & l & Ht & _)].
  - destruct (hdr_item _ _ _ Hd) as (row & E & _). eauto.
  - apply redir_item in Ht. eauto.
Qed.

(** The root, if it is a version, is the first one, so it is not among those kept behind
    a dead one nor among the aborted rest. *)
Lemma root_first c l2 l : c ∈ cs -> cl_chain c = l ++ l2 -> l <> [] -> c.(cl_root) ∉ l2.*1.
Proof using Hcs Hok.
  intros Hc E Hl Hin. destruct (chain_slots c Hc) as [Hn _]. rewrite E, fmap_app, NoDup_app in Hn. destruct Hn as (_ & Hn & _). apply (Hn c.(cl_root)); [|done].
  destruct (collapse_root _ _ _ _ Hok (collapsed _ Hc)) as [(hd & l' & E' & _)|(t & hd & l' & _ & _ & Hnot)].
  - rewrite E in E'. destruct l; [done|]. injection E' as -> _. left.
  - destruct Hnot. rewrite E, fmap_app. apply elem_of_app. by right.
Qed.
Lemma root_not_freed c : c ∈ cs -> c.(cl_root) ∉ frees_of c.
Proof using Hcs Hok.
  intros Hc [Hk|[_ Hk]]%elem_of_frees; [|done]. eapply (root_first c c.(cl_post) (c.(cl_pre) ++ c.(cl_mid))); [done|unfold cl_chain; by rewrite app_assoc| |done].
  apply (c_kept _ _ _ _ (collapsed _ Hc)).
Qed.

Lemma freed_touched c k : k ∈ frees_of c -> touches c k.
Proof using. intros [?|[? _]]%elem_of_frees; right; apply chain_parts; tauto. Qed.
Lemma reset_touched c k : c ∈ cs -> k ∈ resets_of c -> touches c k.
Proof using Hcs.
  intros Hc (z & Hz & ->)%elem_of_resets. destruct (reset_in_chain _ _ _ _ _ (collapsed _ Hc) Hz) as [Hin _]. right. unfold cl_chain.
  rewrite app_assoc, fmap_app. apply elem_of_app. left. by apply list_elem_of_fmap_2.
Qed.
Lemma dead_touched c k : k ∈ deads_of c -> touches c k.
Proof using. intros [-> _]%elem_of_deads. by left. Qed.
Lemma redirect_touched c k : k ∈ (redirects_of c).*1 -> touches c k.
Proof using. intros ([k' t] & -> & H)%list_elem_of_fmap. apply elem_of_redirects in H as [-> _]. by left. Qed.

Lemma roots_nodup : NoDup cs.
Proof using Hcs Hslots. destruct Hcs as (_ & Hs & _). eapply NoDup_fmap_1, sublist_NoDup; eauto. Qed.

(** A list made of the parts of the collapses has no duplicates, because no slot is touched twice. *)
Lemma parts_nodup (f : Collapse -> list N) : (forall c k, c ∈ cs -> k ∈ f c -> touches c k) -> (forall c, c ∈ cs -> NoDup (f c)) -> NoDup (cs ≫= f).
Proof using Hcs Hslots Hok.
  intros Ht Hn. apply NoDup_bind; [|done|apply roots_nodup]. intros c c' k Hc Hc' Hk Hk'. eapply touched_once; eauto.
Qed.

Lemma redirect_slots : (cs ≫= redirects_of).*1 = cs ≫= fun c => (redirects_of c).*1.
Proof using. clear. induction cs as [|c l IH]; [done|]. cbn. by rewrite fmap_app, IH. Qed.

Lemma collapses_fit : plan_fits h (plan_of cs).
Proof using Hcs Hok Hp Hslots TxnStatusViewOk0.
  rewrite plan_of_parts. constructor; cbn [reset_slots free_to_unused redirect_roots dead_roots]; split.
  - apply parts_nodup; [exact reset_touched|]. intros c Hc. unfold resets_of. destruct (cl_reset c); [apply NoDup_singleton|constructor].
  - apply Forall_forall. intros k (c & Hk & Hc)%list_elem_of_bind. apply elem_of_resets in Hk as (z & Hz & ->).
    destruct (reset_in_chain _ _ _ _ _ (collapsed _ Hc) Hz) as [Hin Ha]. destruct (chain_slots c Hc) as [_ Hh].
    assert (Hz1 : hdr h z.1 = Some z.2). { eapply Forall_forall in Hh; [exact Hh|]. unfold cl_chain. rewrite app_assoc. apply elem_of_app. by left. }
    destruct (hdr_item _ _ _ Hz1) as (row & Ei & Eh). destruct (reset_row_ok v row z.2 (row_bytes _ _ _ Hp Ei) Eh Ha) as (row' & Er & _). eauto.
  - apply parts_nodup; [intros; by apply freed_touched|]. intros c Hc. destruct (chain_slots c Hc) as [Hn _]. unfold cl_chain in Hn. rewrite !fmap_app, !NoDup_app in Hn.
    destruct Hn as (H1 & H2 & H3 & H4 & H5). unfold frees_of. apply NoDup_app. split_and!; [done| |by apply NoDup_filter].
    intros k Hk [_ Hk']%list_elem_of_filter. apply (H2 k Hk'). apply elem_of_app. by right.
  - apply Forall_forall. intros k (c & Hk & Hc)%list_elem_of_bind. destruct (slot_header c k Hc) as (hd & row & _ & E); [|eauto].
    apply elem_of_frees in Hk as [Hk|[Hk _]]; apply chain_parts; tauto.
  - rewrite redirect_slots. apply parts_nodup; [intros; by apply redirect_touched|]. intros c Hc. unfold redirects_of.
    destruct (cl_pre c), (cl_mid c); try constructor; [apply not_elem_of_nil|constructor].
  - apply Forall_forall. intros [k t] (c & Hk & Hc)%list_elem_of_bind. apply elem_of_redirects in Hk as (-> & _ & m & l & Em & ->). cbn [fst snd]. split.
    + destruct (root_item c Hc) as (it & E & _). apply lookup_lt_Some in E. unfold len. lia.
    + destruct (slot_header c m.1 Hc) as (hd & _ & Hd & _); [apply chain_parts; right; left; rewrite Em; left|]. apply hdr_bound in Hd. unfold len. lia.
  - apply parts_nodup; [intros; by apply dead_touched|]. intros c Hc. unfold deads_of. destruct (cl_mid c); [apply NoDup_singleton|constructor].
  - apply Forall_forall. intros k (c & Hk & Hc)%list_elem_of_bind. apply elem_of_deads in Hk as [-> _]. split; [by apply root_item|].
    intros (c' & Hk & Hc')%list_elem_of_bind. assert (c' = c) as -> by (eapply touched_once; [done|done|by apply freed_touched|by left]). by eapply root_not_freed.
Qed.

Lemma part_of {A} (f : Collapse -> list A) (g : A -> N) c a : (forall c a, c ∈ cs -> a ∈ f c -> touches c (g a)) -> c ∈ cs -> touches c (g a) ->
  a ∈ cs ≫= f <-> a ∈ f c.
Proof using Hcs Hslots Hok.
  intros Hf Hc Ht. rewrite list_elem_of_bind. split; [|eauto]. intros (c' & Ha & Hc'). replace c with c'; [done|]. eapply touched_once; eauto.
Qed.

Context (d' : bytes) (Hrw : rewritten d d') (Hpl : forall k, planned h (plan_of cs) k (item (heap_of d') k)).
Abbreviation h' := (heap_of d').

(** What a slot holds depends on the collapse that touches it alone. *)
Lemma planned_local c k : c ∈ cs -> touches c k -> planned h (plan_add empty_plan c) k (item h' k).
Proof using Hcs Hslots Hok Hpl.
  intros Hc Hk. specialize (Hpl k). rewrite plan_of_parts in Hpl. unfold planned in *.
  cbn [plan_add empty_plan redirect_roots dead_roots free_to_unused reset_slots app] in *. rewrite redirect_slots in Hpl.
  assert (E1 : k ∈ cs ≫= deads_of <-> k ∈ deads_of c) by (apply (part_of deads_of id); auto using dead_touched).
  assert (E2 : forall t, (k, t) ∈ cs ≫= redirects_of <-> (k, t) ∈ redirects_of c).
  { intros t. apply (part_of redirects_of fst); [|done|done]. intros c' r Hc' Hr. apply redirect_touched. by apply list_elem_of_fmap_2. }
  assert (E3 : (k ∈ cs ≫= fun c => (redirects_of c).*1) <-> k ∈ (redirects_of c).*1) by (apply (part_of (fun c => (redirects_of c).*1) id); auto using redirect_touched).
  assert (E4 : k ∈ cs ≫= frees_of <-> k ∈ frees_of c) by (apply (part_of frees_of id); auto using freed_touched).
  assert (E5 : k ∈ cs ≫= resets_of <-> k ∈ resets_of c) by (apply (part_of resets_of id); auto using reset_touched).
  destruct Hpl as (P1 & P2 & P3). split_and!.
  - intros Hd. by apply P1, E1.
  - intros Hd t Ht. apply P2; [by rewrite E1|by apply E2].
  - intros Hd Hr. rewrite P3 by (by rewrite ?E1, ?E3). by rewrite (decide_ext _ _ _ _ E4), (decide_ext _ _ _ _ E5).
Qed.

Lemma untouched k : (forall c, c ∈ cs -> ~ touches c k) -> item h' k = item h k.
Proof using Hcs Hpl.
  intros Hno. specialize (Hpl k). rewrite plan_of_parts in Hpl. destruct Hpl as (_ & _ & P). cbn [redirect_roots dead_roots free_to_unused reset_slots] in P.
  rewrite redirect_slots in P. rewrite P; [rewrite !decide_False; [done|..]|..]; intros (c & Hk & Hc)%list_elem_of_bind; apply (Hno c Hc).
  - by apply reset_touched.
  - by apply freed_touched.
  - by apply dead_touched.
  - by apply redirect_touched.
Qed.

(** The version as it is after the pruning. *)
Definition keep (c : Collapse) x : Version := (x.1, if decide (x.1 ∈ resets_of c) then reset x.2 else x.2).

Lemma chain_disjoint c : c ∈ cs -> (forall k, k ∈ c.(cl_mid).*1 -> k ∉ frees_of c) /\ (forall k, k ∈ c.(cl_pre).*1 -> k ∉ c.(cl_mid).*1).
Proof using Hcs Hok.
  intros Hc. destruct (chain_slots c Hc) as [Hn _]. unfold cl_chain in Hn. rewrite !fmap_app, !NoDup_app in Hn. destruct Hn as (_ & H2 & _ & H4 & _). split.
  - intros k Hk [Hf|[Hf _]]%elem_of_frees; [by apply (H4 k)|]. apply (H2 k Hf). apply elem_of_app. by left.
  - intros k Hk Hm. apply (H2 k Hk). apply elem_of_app. by left.
Qed.
Lemma root_in_mid c : c ∈ cs -> c.(cl_root) ∈ c.(cl_mid).*1 -> c.(cl_pre) = [].
Proof using Hcs Hok.
  intros Hc Hin. destruct (cl_pre c) as [|y pre] eqn:E; [done|]. exfalso. apply (root_first c (c.(cl_mid) ++ c.(cl_post)) (y :: pre) Hc); [unfold cl_chain; by rewrite E|done|].
  rewrite fmap_app. apply elem_of_app. by left.
Qed.

(** A kept version: its slot has the same tuple, or the same with its header reset. *)
Lemma kept_header c x : c ∈ cs -> x ∈ c.(cl_mid) -> hdr h' x.1 = Some (keep c x).2.
Proof using Hcs Hok Hp Hslots Hpl TxnStatusViewOk0.
  intros Hc Hx. assert (Hxm : x.1 ∈ c.(cl_mid).*1) by (by apply list_elem_of_fmap_2).
  destruct (planned_local c x.1 Hc) as (_ & _ & P); [right; apply chain_parts; tauto|]. cbn [plan_add empty_plan redirect_roots dead_roots free_to_unused reset_slots app] in P.
  destruct (chain_disjoint c Hc) as [Hnf _]. destruct (chain_slots c Hc) as [_ Hh].
  assert (Hd : hdr h x.1 = Some x.2). { eapply Forall_forall in Hh; [exact Hh|]. unfold cl_chain. rewrite !elem_of_app. tauto. }
  destruct (hdr_item _ _ _ Hd) as (row & Ei & Eh). unfold hdr at 1. rewrite P, (decide_False (P := x.1 ∈ frees_of c)) by first
    [ by apply Hnf | intros [_ E]%elem_of_deads; rewrite E in Hx; by apply elem_of_nil in Hx
    | intros ([k t] & E & Hk)%list_elem_of_fmap; cbn [fst] in E; apply elem_of_redirects in Hk as (Ek & Hpre & _); apply Hpre, root_in_mid; [done|congruence] ].
  unfold keep. cbn [snd]. clear P. destruct (decide (x.1 ∈ resets_of c)) as [Hr|Hr]; [|rewrite Ei; exact Eh]. apply elem_of_resets in Hr as (z & Hz & Exz).
  destruct (reset_in_chain _ _ _ _ _ (collapsed _ Hc) Hz) as [Hzin Ha].
  assert (Hzd : hdr h z.1 = Some z.2). { eapply Forall_forall in Hh; [exact Hh|]. unfold cl_chain. rewrite app_assoc. apply elem_of_app. by left. }
  rewrite <- Exz, Hd in Hzd. injection Hzd as Hzd. rewrite <- Hzd in Ha. destruct (reset_row_ok v row x.2 (row_bytes _ _ _ Hp Ei) Eh Ha) as (row' & Er & Eh').
  rewrite Ei. cbn [fmap option_fmap option_map mbind option_bind reset_item]. rewrite Er. exact Eh'.
Qed.

(** A slot of a collapse that is not a kept version holds no version; only the root may
    redirect, and then to the first version kept. *)
Lemma gone_slot c k : c ∈ cs -> touches c k -> k ∉ c.(cl_mid).*1 -> hdr h' k = None /\ (forall row, item h' k <> Some (INormal row)) /\
  (forall t, redir h' k = Some t -> k = c.(cl_root) /\ exists m l, c.(cl_mid) = m :: l /\ t = m.1 /\ (c.(cl_pre) = [] -> redir h k = Some t)).
Proof using Hcs Hok Hslots Hpl.
  intros Hc Hk Hm. enough (Hit : item h' k = Some IDead \/ item h' k = Some IUnused \/ exists m l, k = c.(cl_root) /\ c.(cl_mid) = m :: l /\ item h' k = Some (IRedirect m.1) /\ (c.(cl_pre) = [] -> redir h k = Some m.1)).
  { unfold hdr, redir at 1. destruct Hit as [->|[->|(m & l & E1 & E2 & -> & E3)]]; (split; [done|split; [done|intros t Ht; try done]]).
    injection Ht as <-. split; [done|]. by exists m, l. }
  destruct (planned_local c k Hc Hk) as (P1 & P2 & P3). cbn [plan_add empty_plan redirect_roots dead_roots free_to_unused reset_slots app] in *.
  destruct (decide (k ∈ deads_of c)) as [Hd|Hd]; [left; by apply P1|]. right.
  destruct (decide (k ∈ (redirects_of c).*1)) as [Hr|Hr].
  { right. apply list_elem_of_fmap in Hr as ([k' t] & -> & Ht). pose proof (P2 Hd t Ht) as E. apply elem_of_redirects in Ht as (Ek & Hpre & m & l & Em & Et).
    cbn [fst] in *. exists m, l. split_and!; [done|done|by rewrite E, Et|done]. }
  specialize (P3 Hd Hr). destruct (decide (k ∈ frees_of c)) as [Hf|Hf]; [by left|]. right.
  assert (Hkr : k = c.(cl_root)).
  { destruct Hk as [->|Hk]; [done|]. apply chain_parts in Hk as [Hk|[Hk|Hk]]; [|done|]; destruct (decide (k = c.(cl_root))); try done; destruct Hf; apply elem_of_frees; tauto. }
  subst k. destruct (cl_mid c) as [|m l] eqn:Em; [destruct Hd; unfold deads_of; rewrite Em; left|].
  assert (Epre : c.(cl_pre) = []) by (destruct (cl_pre c) eqn:E; [done|]; destruct Hr; unfold redirects_of; rewrite E, Em; left).
  destruct (collapse_root _ _ _ _ Hok (collapsed _ Hc)) as [(hd & l' & E & _)|(t & hd & l' & Ht & E & Hnot)]; unfold cl_chain in E; rewrite Epre, Em in E; injection E as Em' _.
  - destruct Hm. rewrite Em'. left.
  - exists m, l. rewrite P3, decide_False.
    + rewrite Em'. cbn [fst]. split_and!; [done|done|by apply redir_item|done].
    + intros (z & Hz & Ez)%elem_of_resets. destruct (reset_in_chain _ _ _ _ _ (collapsed _ Hc) Hz) as [Hin _]. apply Hnot. rewrite Ez. apply list_elem_of_fmap_2.
      unfold cl_chain. rewrite app_assoc. apply elem_of_app. by left.
Qed.

Global Instance touches_dec c k : Decision (touches c k).
Proof using. unfold touches. apply _. Defined.

Lemma touched_or_not k : (forall c, c ∈ cs -> ~ touches c k) \/ exists c, c ∈ cs /\ touches c k.
Proof using.
  clear. destruct (decide (Exists (fun c => touches c k) cs)) as [H|H]; [right; apply Exists_exists in H as (c & ? & ?); eauto|left].
  intros c Hc Hk. apply H, Exists_exists. eauto.
Qed.

(** Every version of the new page was one of the old page, as it was or reset. *)
Lemma header_back k hd' : hdr h' k = Some hd' -> (forall c, c ∈ cs -> ~ touches c k) /\ hdr h k = Some hd' \/
  exists c x, c ∈ cs /\ x ∈ c.(cl_mid) /\ k = x.1 /\ hdr h k = Some x.2 /\ hd' = (keep c x).2.
Proof using Hcs Hok Hp Hslots Hpl TxnStatusViewOk0.
  intros Hd. destruct (touched_or_not k) as [Hno|(c & Hc & Hk)].
  - left. split; [done|]. unfold hdr in *. by rewrite (untouched k Hno) in Hd.
  - right. destruct (decide (k ∈ c.(cl_mid).*1)) as [Hm|Hm]; [|destruct (gone_slot c k Hc Hk Hm) as [E _]; congruence].
    apply list_elem_of_fmap in Hm as (x & -> & Hx). exists c, x. destruct (chain_slots c Hc) as [_ Hh]. split_and!; [done|done|done| |].
    + eapply Forall_forall in Hh; [exact Hh|]. unfold cl_chain. rewrite !elem_of_app. tauto.
    + rewrite (kept_header c x Hc Hx) in Hd. congruence.
Qed.

Lemma kept_same c x : x ∈ c.(cl_mid) -> hot (keep c x).2 = true -> (keep c x).2 = x.2.
Proof using. intros _. unfold keep. cbn [snd]. case_decide; [|done]. rewrite (proj1 (reset_bits x.2)). done. Qed.
Lemma kept_bits c x : heap_only (keep c x).2 = heap_only x.2 /\ (keep c x).2.(h_xmin) = x.2.(h_xmin).
Proof using. unfold keep. cbn [snd]. case_decide; [|done]. by rewrite (proj2 (reset_bits x.2)). Qed.

Lemma header_kept k hd' : hdr h' k = Some hd' -> exists hd, hdr h k = Some hd /\ heap_only hd' = heap_only hd /\ hd'.(h_xmin) = hd.(h_xmin) /\ (hot hd' = true -> hd' = hd).
Proof using Hcs Hok Hp Hslots Hpl TxnStatusViewOk0.
  intros [[_ H]|(c & x & Hc & Hx & -> & Hd & ->)]%header_back; [by exists hd'|]. exists x.2. destruct (kept_bits c x). split_and!; try done. intros Hh. by apply (kept_same c x).
Qed.

Lemma same_id : h'.(h_id) = h.(h_id).
Proof using Hrw. apply Hrw. Qed.

(** A link of the new page was one of the old page. *)
Lemma next_back i j : next h' i = Some j -> next h i = Some j.
Proof using Hcs Hok Hp Hslots Hpl Hrw TxnStatusViewOk0.
  intros (hd & hd' & Hi & Hj & Hhot & Ho & Et)%next_inv. destruct (header_kept i hd Hi) as (hi & Hi' & _ & _ & E). pose proof (E Hhot) as ->.
  destruct (header_kept j hd' Hj) as (hj & Hj' & Ej & _ & _). unfold next. rewrite Hi'. cbn. rewrite Hhot, Et, same_id. cbn. rewrite N.eqb_refl, Hj'. cbn. by rewrite <- Ej, Ho.
Qed.

Lemma touch_down c i j : c ∈ cs -> touches c i -> owns h i j -> touches c j.
Proof using Hcs Hok.
  intros Hc Hi Hj. right. pose proof (c_chain _ _ _ _ (collapsed _ Hc)) as Hch.
  assert (Hin : i ∈ (cl_chain c).*1 -> j ∈ (cl_chain c).*1).
  { intros (x & -> & Hx)%list_elem_of_fmap. destruct (chain_path _ _ _ Hch) as (k & Hp' & _). destruct Hj as [Hj|Hj]; [by eapply path_closed|].
    by rewrite (hdr_not_redir _ _ _ (path_headed _ _ _ _ Hp' Hx)) in Hj. }
  destruct Hi as [->|Hi]; [|by apply Hin]. destruct (collapse_root _ _ _ _ Hok (collapsed _ Hc)) as [(hd & l & E & _)|(t & hd & l & Ht & E & _)].
  - apply Hin. rewrite E. left.
  - destruct Hj as [Hj|Hj]; [apply next_inv in Hj as (? & _ & Hd & _); by rewrite (redir_not_hdr _ _ _ Ht) in Hd|]. rewrite E. replace j with t by congruence. left.
Qed.
Lemma touch_up c i j : c ∈ cs -> touches c j -> owns h i j -> touches c i.
Proof using Hcs Hok.
  intros Hc Hj Hi. pose proof (c_chain _ _ _ _ (collapsed _ Hc)) as Hch. pose proof (chain_root _ _ _ _ Hok Hch) as Hroot.
  assert (Hr : rtc (owns h) c.(cl_root) j).
  { destruct Hj as [->|(x & -> & Hx)%list_elem_of_fmap]; [apply rtc_refl|by eapply chain_reached]. }
  apply rtc_inv_r in Hr as [<-|(y & Hy & Hyj)]; [by apply Hroot in Hi|]. rewrite (hk_owner _ _ Hok _ _ _ Hi Hyj). clear Hi Hyj Hj j.
  revert y Hy. refine (rtc_ind_r _ _ _ _); [by left|]. intros y z _ Hyz IH. by eapply touch_down.
Qed.

(** A kept version that is not reset goes on to the version kept next. *)
Lemma path_end i l x : path h i (l ++ [x]) -> next h x.1 = None.
Proof using.
  remember (l ++ [x]) as l'. intros H. revert l Heql'. induction H as [i hd Hd Hn|i hd j l' Hd Hn Hl IH]; intros l E.
  - destruct l as [|? []]; cbn in E; try done. by injection E as <-.
  - destruct l as [|y l]; cbn in E; injection E as <- E; [|by eapply IH]. subst. by inversion Hl.
Qed.
Lemma last_kept c a x : c ∈ cs -> c.(cl_mid) = a ++ [x] -> x.1 ∉ resets_of c -> next h x.1 = None.
Proof using Hcs.
  intros Hc Em Hr. destruct (chain_path _ _ _ (c_chain _ _ _ _ (collapsed _ Hc))) as (i & Hi & _). unfold cl_chain in Hi. rewrite Em in Hi.
  destruct (cl_post c) as [|y post] eqn:Ep.
  - rewrite app_nil_r, app_assoc in Hi. by eapply path_end.
  - destruct (c_cut _ _ _ _ (collapsed _ Hc)) as [z Hz]; [by rewrite Ep|]. destruct Hr. unfold resets_of. rewrite Hz.
    destruct (c_reset _ _ _ _ (collapsed _ Hc) z Hz) as [Hl _]. rewrite Em, app_assoc, last_snoc in Hl. injection Hl as ->. left.
Qed.
Lemma inner_kept c a x y b : c ∈ cs -> c.(cl_mid) = a ++ x :: y :: b -> next h x.1 = Some y.1 /\ x.1 ∉ resets_of c.
Proof using Hcs Hok.
  intros Hc Em. destruct (chain_path _ _ _ (c_chain _ _ _ _ (collapsed _ Hc))) as (i & Hi & _). unfold cl_chain in Hi. rewrite Em in Hi. split.
  - rewrite <- !app_assoc in Hi. cbn [app] in Hi. rewrite app_assoc in Hi. by eapply path_adjacent.
  - intros (z & Hz & E)%elem_of_resets. destruct (c_reset _ _ _ _ (collapsed _ Hc) z Hz) as [Hl _]. rewrite Em in Hl.
    replace (cl_pre c ++ a ++ x :: y :: b) with ((cl_pre c ++ a ++ [x]) ++ y :: b) in Hl by (by rewrite <- !app_assoc). rewrite last_app in Hl. cbn [last] in Hl.
    destruct (chain_slots c Hc) as [Hn _]. unfold cl_chain in Hn. rewrite Em, !fmap_app in Hn. cbn [fmap list_fmap] in Hn. rewrite !NoDup_app, NoDup_cons in Hn.
    destruct Hn as (_ & _ & (_ & _ & [Hn _]) & _). apply Hn. rewrite E. apply (list_elem_of_fmap_2 fst (y :: b)).
    destruct (last (y :: b)) as [w|] eqn:Ew; [|by apply last_None in Ew]. injection Hl as ->. by apply last_Some_elem_of.
Qed.
Lemma no_next i hd : hdr h i = Some hd -> next h i = None -> hot hd && (hd.(h_t_ctid).1 =? h.(h_id)) = false.
Proof using Hok.
  intros Hd Hn. destruct (_ && _) eqn:E; [|done]. to_prop. destruct (hk_succ _ _ Hok i hd) as (hd' & Hd' & Ho); [done..|].
  unfold next in Hn. rewrite Hd in Hn. cbn in Hn. rewrite H, H0, N.eqb_refl in Hn. cbn in Hn. rewrite Hd' in Hn. cbn in Hn. by rewrite Ho in Hn.
Qed.


(** The versions of a collapsed chain are those kept. *)
Lemma kept_next c a x b : c ∈ cs -> c.(cl_mid) = a ++ x :: b -> next h' x.1 = match b with [] => None | y :: _ => Some y.1 end.
Proof using Hcs Hok Hp Hslots Hpl Hrw TxnStatusViewOk0.
  intros Hc Em. assert (Hx : x ∈ c.(cl_mid)) by (rewrite Em; apply elem_of_app; right; left). pose proof (kept_header c x Hc Hx) as Hd.
  destruct b as [|y b].
  - destruct (next h' x.1) as [j|] eqn:En; [|done]. exfalso. pose proof (next_back _ _ En) as Enb.
    apply next_inv in En as (hd & _ & Hd' & _ & Hhot & _). rewrite Hd in Hd'. injection Hd' as <-.
    rewrite (last_kept c a x Hc Em) in Enb; [done|]. intros Hr. unfold keep in Hhot. cbn [snd] in Hhot.
    rewrite decide_True, (proj1 (reset_bits _)) in Hhot by done. done.
  - destruct (inner_kept c a x y b Hc Em) as [Hn Hr]. assert (Ek : (keep c x).2 = x.2) by (unfold keep; cbn [snd]; by rewrite decide_False).
    rewrite Ek in Hd. destruct (next_inv _ _ _ Hn) as (hd & hd' & Hx' & Hy' & Hhot & Ho & Et).
    assert (Hy : y ∈ c.(cl_mid)) by (rewrite Em; apply elem_of_app; right; right; left).
    destruct (chain_slots c Hc) as [_ Hh]. unfold cl_chain in Hh. rewrite !Forall_app in Hh. destruct Hh as (_ & Hh & _). rewrite Forall_forall in Hh.
    assert (hd = x.2) as -> by (specialize (Hh x Hx); cbn in Hh; congruence). assert (hd' = y.2) as -> by (specialize (Hh y Hy); cbn in Hh; congruence).
    unfold next. rewrite Hd. cbn [mbind option_bind]. rewrite Hhot, Et, same_id, N.eqb_refl. cbn [fst snd andb]. rewrite (kept_header c y Hc Hy).
    cbn [mbind option_bind]. by rewrite (proj1 (kept_bits c y)), Ho.
Qed.
Lemma kept_path c : c ∈ cs -> forall b a x, c.(cl_mid) = a ++ x :: b -> path h' x.1 (keep c <$> x :: b).
Proof using Hcs Hok Hp Hslots Hpl Hrw TxnStatusViewOk0.
  intros Hc. induction b as [|y b IH]; intros a x Em.
  all: assert (Hx : x ∈ c.(cl_mid)) by (rewrite Em; apply elem_of_app; right; left); pose proof (kept_header c x Hc Hx) as Hd; pose proof (kept_next c a x _ Hc Em) as Hn.
  - cbn. replace (keep c x) with (x.1, (keep c x).2) by done. by constructor.
  - change (keep c <$> x :: y :: b) with ((x.1, (keep c x).2) :: (keep c <$> y :: b)). econstructor; [done|exact Hn|]. apply (IH (a ++ [x])). by rewrite <- app_assoc.
Qed.

(** A redirect of the new page is an old one, or that of a root to the first version kept. *)
Lemma redir_back i t : redir h' i = Some t -> redir h i = Some t \/ exists c m l, c ∈ cs /\ i = c.(cl_root) /\ c.(cl_pre) <> [] /\ c.(cl_mid) = m :: l /\ t = m.1.
Proof using Hcs Hok Hslots Hpl Hp TxnStatusViewOk0.
  intros Ht. destruct (touched_or_not i) as [Hno|(c & Hc & Hi)]; [left; unfold redir in *; by rewrite <- (untouched i Hno)|].
  destruct (decide (i ∈ c.(cl_mid).*1)) as [Hm|Hm].
  - apply list_elem_of_fmap in Hm as (x & -> & Hx). by rewrite (hdr_not_redir _ _ _ (kept_header c x Hc Hx)) in Ht.
  - destruct (gone_slot c i Hc Hi Hm) as (_ & _ & Hr). destruct (Hr t Ht) as (-> & m & l & Em & -> & Hold).
    destruct (cl_pre c) eqn:Epre; [left; by apply Hold|]. right. exists c, m, l. rewrite Epre. done.
Qed.
Lemma owns_back i k : owns h' i k -> owns h i k \/ exists c m l, c ∈ cs /\ i = c.(cl_root) /\ c.(cl_pre) <> [] /\ c.(cl_mid) = m :: l /\ k = m.1.
Proof using Hcs Hok Hslots Hpl Hp Hrw TxnStatusViewOk0.
  intros [H|H]; [left; left; by apply next_back|]. destruct (redir_back i k H); [left; by right|by right].
Qed.

Lemma new_target c m l : c ∈ cs -> c.(cl_pre) <> [] -> c.(cl_mid) = m :: l -> exists x, x ∈ c.(cl_pre) /\ next h x.1 = Some m.1.
Proof using Hcs.
  intros Hc Hpre Em. destruct (chain_path _ _ _ (c_chain _ _ _ _ (collapsed _ Hc))) as (i & Hi & _). unfold cl_chain in Hi. rewrite Em in Hi.
  destruct (cl_pre c) as [|x pre _] eqn:E using rev_ind; [done|]. exists x. split; [apply elem_of_app; right; left|].
  rewrite <- app_assoc in Hi. cbn [app] in Hi. by eapply path_adjacent.
Qed.
Lemma owner_of_kept c i m l : c ∈ cs -> c.(cl_pre) <> [] -> c.(cl_mid) = m :: l -> owns h i m.1 -> owns h' i m.1 -> i = c.(cl_root).
Proof using Hcs Hok Hslots Hpl Hp TxnStatusViewOk0.
  intros Hc Hpre Em Ho Ho'. destruct (new_target c m l Hc Hpre Em) as (x & Hx & Hn). assert (i = x.1) as -> by (eapply (hk_owner _ _ Hok); [exact Ho|by left]).
  assert (Hxp : x.1 ∈ c.(cl_pre).*1) by (by apply list_elem_of_fmap_2).
  destruct (gone_slot c x.1 Hc) as (Hnone & _ & Hr); [right; apply chain_parts; tauto|by apply chain_disjoint|].
  destruct Ho' as [H|H]; [apply next_inv in H as (? & _ & H & _); congruence|]. by destruct (Hr _ H).
Qed.

Lemma owners_unique i j k : owns h' i k -> owns h' j k -> i = j.
Proof using Hcs Hok Hslots Hpl Hp Hrw TxnStatusViewOk0.
  intros Hi Hj. destruct (owns_back i k Hi) as [Hi'|(c & m & l & Hc & -> & Hpre & Em & ->)], (owns_back j _ Hj) as [Hj'|(c' & m' & l' & Hc' & -> & Hpre' & Em' & Ek)].
  - by eapply hk_owner.
  - subst k. by eapply owner_of_kept.
  - symmetry. by eapply owner_of_kept.
  - f_equal. eapply (touched_once c c' m.1); [done|done|right; apply chain_parts; right; left; rewrite Em; left|]. rewrite Ek. right. apply chain_parts. right. left. rewrite Em'. left.
Qed.

Lemma header_stays k hd : hdr h k = Some hd -> (forall c, c ∈ cs -> ~ touches c k) -> hdr h' k = Some hd.
Proof using Hcs Hpl. intros Hd Hno. unfold hdr in *. by rewrite (untouched k Hno). Qed.
Lemma untouched_down i j : (forall c, c ∈ cs -> ~ touches c i) -> owns h i j -> forall c, c ∈ cs -> ~ touches c j.
Proof using Hcs Hok. intros Hno Ho c Hc Hj. apply (Hno c Hc). by eapply touch_up. Qed.

Lemma succ_stays i hd : hdr h' i = Some hd -> hot hd = true -> hd.(h_t_ctid).1 = h'.(h_id) -> exists hd', hdr h' hd.(h_t_ctid).2 = Some hd' /\ heap_only hd' = true.
Proof using Hcs Hok Hslots Hpl Hp Hrw TxnStatusViewOk0.
  intros Hd Hhot Hid. rewrite same_id in Hid. destruct (header_back i hd Hd) as [[Hno Hold]|(c & x & Hc & Hx & -> & Hold & Ek)].
  - destruct (hk_succ _ _ Hok i hd Hold Hhot Hid) as (hd' & Hd' & Ho). exists hd'. split; [|done]. apply header_stays; [done|]. eapply untouched_down; [exact Hno|]. left.
    unfold next. rewrite Hold. cbn. rewrite Hhot, Hid, N.eqb_refl. cbn. rewrite Hd'. cbn. by rewrite Ho.
  - assert (hd = x.2) as -> by (subst hd; by apply (kept_same c x)). clear Ek. destruct (hk_succ _ _ Hok x.1 x.2 Hold Hhot Hid) as (hd' & Hd' & Ho).
    assert (Hn : next h x.1 = Some x.2.(h_t_ctid).2) by (unfold next; rewrite Hold; cbn; rewrite Hhot, Hid, N.eqb_refl; cbn; rewrite Hd'; cbn; by rewrite Ho).
    assert (Hr : x.1 ∉ resets_of c).
    { intros Hr. rewrite (kept_header c x Hc Hx) in Hd. unfold keep in Hd. cbn [snd] in Hd. rewrite decide_True in Hd by done. injection Hd as Hd.
      rewrite <- Hd, (proj1 (reset_bits _)) in Hhot. done. }
    destruct (list_elem_of_split _ _ Hx) as (a & [|y b] & Em); [rewrite (last_kept c a x Hc Em Hr) in Hn; done|].
    destruct (inner_kept c a x y b Hc Em) as [Hn' _]. assert (Hy : y ∈ c.(cl_mid)) by (rewrite Em; apply elem_of_app; right; right; left).
    replace (h_t_ctid x.2).2 with y.1 in * by congruence. exists (keep c y).2. split; [by apply kept_header|]. rewrite (proj1 (kept_bits c y)).
    destruct (chain_slots c Hc) as [_ Hh]. unfold cl_chain in Hh. rewrite !Forall_app in Hh. destruct Hh as (_ & Hh & _). rewrite Forall_forall in Hh.
    specialize (Hh y Hy). cbn in Hh. congruence.
Qed.

(** The page is well formed again. *)
Lemma hot_ok_pruned : hot_ok v h'.
Proof using Hcs Hok Hslots Hpl Hp Hrw TxnStatusViewOk0.
  constructor.
  - intros i row Hi. destruct (touched_or_not i) as [Hno|(c & Hc & Hk)].
    + rewrite (untouched i Hno) in Hi. destruct (hk_header _ _ Hok i row Hi) as [hd Hd]. exists hd. by apply header_stays.
    + destruct (decide (i ∈ c.(cl_mid).*1)) as [Hm|Hm]; [|by destruct (gone_slot c i Hc Hk Hm) as (_ & E & _); destruct (E row)].
      apply list_elem_of_fmap in Hm as (x & -> & Hx). rewrite (kept_header c x Hc Hx). eauto.
  - intros i t Ht. destruct (redir_back i t Ht) as [Hold|(c & m & l & Hc & -> & Hpre & Em & ->)].
    + destruct (hk_redirect _ _ Hok i t Hold) as (hd & Hd & Ho). destruct (touched_or_not t) as [Hno|(c & Hc & Hk)]; [exists hd; split; [by apply header_stays|done]|].
      destruct (gone_slot c i Hc) as (_ & _ & Hr); [eapply touch_up; [done|exact Hk|by right]| |].
      { intros (x & E & Hx)%list_elem_of_fmap. pose proof (kept_header c x Hc Hx) as Hx'. rewrite <- E, (redir_not_hdr _ _ _ Ht) in Hx'. done. }
      destruct (Hr t Ht) as (_ & m & l & Em & -> & _). assert (Hm : m ∈ c.(cl_mid)) by (rewrite Em; left). exists (keep c m).2. split; [by apply kept_header|].
      rewrite (proj1 (kept_bits c m)). destruct (header_kept m.1 _ (kept_header c m Hc Hm)) as (hd' & Hd' & E & _). rewrite <- (proj1 (kept_bits c m)). congruence.
    + assert (Hm : m ∈ c.(cl_mid)) by (rewrite Em; left). exists (keep c m).2. split; [by apply kept_header|].
      destruct (new_target c m l Hc Hpre Em) as (x & _ & Hn). apply next_inv in Hn as (_ & hd & _ & Hd & _ & Ho & _).
      destruct (header_kept m.1 _ (kept_header c m Hc Hm)) as (hd' & Hd' & E & _). congruence.
  - exact succ_stays.
  - exact owners_unique.
  - intros i j hd hd' Hn Hi Hj. destruct (next_inv _ _ _ Hn) as (hd0 & _ & Hi0 & _ & Hhot & _). assert (hd0 = hd) as -> by congruence.
    destruct (header_kept i hd Hi) as (hi & Hi' & _ & _ & E). rewrite (E Hhot) in *. destruct (header_kept j hd' Hj) as (hj & Hj' & _ & -> & _).
    eapply (hk_link _ _ Hok i j); eauto using next_back.
  - intros i j hd hd' Hn Hi Hj. destruct (header_kept i hd Hi) as (hi & Hi' & _ & -> & _). destruct (header_kept j hd' Hj) as (hj & Hj' & _ & -> & _).
    eapply (hk_abort _ _ Hok i j); eauto using next_back.
  - intros i hd Hi. destruct (header_back i hd Hi) as [[_ Hold]|(c & x & Hc & Hx & -> & Hold & ->)]; [by eapply hk_hints|].
    pose proof (hk_hints _ _ Hok _ _ Hold) as Hs. unfold keep. cbn [snd]. case_decide; [by apply reset_sound|done].
Qed.

(** A root without a collapse keeps its chain. *)
Lemma path_stays i l : path h i l -> Forall (fun x => forall c, c ∈ cs -> ~ touches c x.1) l -> path h' i l.
Proof using Hcs Hok Hpl Hrw.
  induction 1 as [i hd Hd Hn|i hd j l Hd Hn Hl IH]; intros Hf; apply Forall_cons in Hf as [Hi Hf]; cbn in Hi; pose proof (header_stays i hd Hd Hi) as Hd'.
  - constructor; [done|]. unfold next. rewrite Hd'. cbn [mbind option_bind]. rewrite same_id. by rewrite (no_next i hd Hd Hn).
  - econstructor; [done| |by apply IH]. destruct (next_inv _ _ _ Hn) as (hd0 & hd' & E & Hj & Hhot & Ho & Et). assert (hd0 = hd) as -> by congruence.
    unfold next. rewrite Hd'. cbn [mbind option_bind]. rewrite same_id, Hhot, Et, N.eqb_refl. cbn [fst snd andb].
    destruct (path_head _ _ _ Hl) as (hd2 & l' & -> & Hd2). apply Forall_cons in Hf as [Hf _]. cbn in Hf. rewrite (header_stays j hd' Hj Hf). cbn. by rewrite Ho.
Qed.

Lemma root_stays r : root_slot h r -> (forall c, c ∈ cs -> touches c r -> c.(cl_pre) = []) -> root_slot h' r.
Proof using Hcs Hok Hslots Hpl Hp Hrw TxnStatusViewOk0.
  intros Hr Hno i Hi. destruct (owns_back i r Hi) as [Ho|(c & m & l & Hc & -> & Hpre & Em & Ek)]; [by apply Hr in Ho|].
  apply Hpre, (Hno c Hc). rewrite Ek. right. apply chain_parts. right. left. rewrite Em. left.
Qed.

Lemma chain_stays r l : chain_of h r l -> (forall c, c ∈ cs -> c.(cl_root) <> r) -> chain_of h' r l.
Proof using Hcs Hok Hslots Hpl Hp Hrw TxnStatusViewOk0.
  intros Hch Hno. pose proof (chain_root _ _ _ _ Hok Hch) as Hroot.
  assert (Hr : forall c, c ∈ cs -> ~ touches c r).
  { intros c Hc [E|Hk]; [by apply (Hno c Hc)|]. apply (Hno c Hc). eapply (root_apart v h); eauto. by apply collapsed. }
  assert (Hf : Forall (fun x => forall c, c ∈ cs -> ~ touches c x.1) l).
  { apply Forall_forall. intros x Hx c Hc Ht. apply (Hno c Hc). destruct (collapsed c Hc) as [Hcc _ _ _ _ _]. destruct Ht as [E|Hk].
    - symmetry. eapply (root_apart v h); [done|exact Hch|by eapply chain_root|]. rewrite <- E. by apply list_elem_of_fmap_2.
    - eapply (chains_apart v h); [done|exact Hcc|exact Hch|exact Hk|by apply list_elem_of_fmap_2]. }
  destruct Hch as [l Hrt Hl|t l Ht Hl].
  - apply chain_here; [|by apply path_stays]. apply root_stays; [done|]. intros c Hc Hk. by destruct (Hr c Hc).
  - eapply chain_redirected; [|by apply path_stays]. unfold redir in *. by rewrite (untouched r Hr).
Qed.
(** A root with one has the versions it keeps, or none. *)
Lemma chain_collapsed c : c ∈ cs -> c.(cl_mid) <> [] -> chain_of h' c.(cl_root) (keep c <$> c.(cl_mid)).
Proof using Hcs Hok Hslots Hpl Hp Hrw TxnStatusViewOk0.
  intros Hc Hm. destruct (cl_mid c) as [|m l] eqn:Em; [done|]. pose proof (kept_path c Hc l [] m Em) as Hpath.
  destruct (decide (c.(cl_root) ∈ c.(cl_mid).*1)) as [Hin|Hout].
  - pose proof (root_in_mid c Hc Hin) as Epre. assert (m.1 = c.(cl_root)) as E.
    { destruct (collapse_root _ _ _ _ Hok (collapsed _ Hc)) as [(hd & l' & E & _)|(t & hd & l' & _ & _ & Hnot)].
      - unfold cl_chain in E. rewrite Epre, Em in E. injection E as -> _. done.
      - destruct Hnot. apply chain_parts. tauto. }
    rewrite <- E. apply chain_here; [|done]. rewrite E. apply root_stays; [eapply chain_root; [done|]; by apply collapsed|].
    intros c' Hc' Hk. replace c' with c; [done|]. apply (touched_once c c' c.(cl_root)); [done|done|by left|done].
  - destruct (planned_local c c.(cl_root) Hc) as (_ & P2 & P3); [by left|]. cbn [plan_add empty_plan redirect_roots dead_roots free_to_unused reset_slots app] in *.
    assert (Hnd : c.(cl_root) ∉ deads_of c) by (intros [_ E]%elem_of_deads; congruence).
    eapply chain_redirected; [|exact Hpath]. destruct (cl_pre c) as [|y pre] eqn:Epre.
    + destruct (collapse_root _ _ _ _ Hok (collapsed _ Hc)) as [(hd & l' & E & _)|(t & hd & l' & Ht & E & Hnot)]; unfold cl_chain in E; rewrite Epre, Em in E; injection E as E _.
      * destruct Hout. rewrite Em, E. left.
      * apply redir_item. rewrite P3; [|done|by unfold redirects_of; rewrite Epre; apply not_elem_of_nil]. rewrite decide_False by (by apply root_not_freed). rewrite decide_False.
        -- rewrite E. by apply redir_item.
        -- intros (z & Hz & Ez)%elem_of_resets. destruct (reset_in_chain _ _ _ _ _ (collapsed _ Hc) Hz) as [Hin _]. apply Hnot. rewrite Ez. apply list_elem_of_fmap_2.
           unfold cl_chain. rewrite app_assoc. apply elem_of_app. by left.
    + apply redir_item, P2; [done|]. unfold redirects_of. rewrite Epre, Em. left.
Qed.
Lemma chain_reclaimed c : c ∈ cs -> c.(cl_mid) = [] -> item h' c.(cl_root) = Some IDead.
Proof using Hcs Hok Hslots Hpl.
  intros Hc Em. destruct (planned_local c c.(cl_root) Hc) as (P1 & _); [by left|]. apply P1. cbn. unfold deads_of. rewrite Em. left.
Qed.

(** What an index entry names: a root, not a reusable slot. *)
Definition entry_slot hp (r : N) : Prop := root_slot hp r /\ exists it, item hp r = Some it /\ is_unused it = false.

(** A named slot has a chain, or is dead. *)
Lemma entry_cases vw hp r : hot_ok vw hp -> entry_slot hp r -> (exists l, chain_of hp r l) \/ item hp r = Some IDead.
Proof using.
  intros Hk [Hr ([row| | |t] & E & Hu)]; [|by right|done|].
  - left. eapply chain_exists; [done|done|by eapply hk_header].
  - left. eapply chain_exists_redirect; [done|]. by apply redir_item.
Qed.
Lemma dead_is_entry vw hp r : hot_ok vw hp -> item hp r = Some IDead -> entry_slot hp r.
Proof using.
  intros Hk E. split; [|eauto]. intros i Hi. destruct (owns_target _ _ _ _ Hk Hi) as (hd & Hd & _). unfold hdr in Hd. by rewrite E in Hd.
Qed.
Lemma chain_is_entry vw hp r l : hot_ok vw hp -> chain_of hp r l -> entry_slot hp r.
Proof using.
  intros Hk Hch. split; [by eapply chain_root|]. destruct Hch as [l Hr Hl|t l Ht Hl].
  - destruct (path_head _ _ _ Hl) as (hd & _ & _ & Hd). destruct (hdr_item _ _ _ Hd) as (row & E & _). eauto.
  - apply redir_item in Ht. eauto.
Qed.

(** The chain behind a named slot, before and after. *)
Lemma entry_fate r : entry_slot h r ->
  (item h r = Some IDead /\ item h' r = Some IDead) \/
  (exists l, chain_of h r l /\ chain_of h' r l) \/
  (exists c, c ∈ cs /\ c.(cl_root) = r /\ (c.(cl_mid) <> [] /\ chain_of h' r (keep c <$> c.(cl_mid)) \/ c.(cl_mid) = [] /\ item h' r = Some IDead)).
Proof using Hcs Hok Hslots Hpl Hp Hrw TxnStatusViewOk0.
  intros He. destruct (decide (Exists (fun c => c.(cl_root) = r) cs)) as [H|H].
  - apply Exists_exists in H as (c & Hc & <-). right. right. exists c. split_and!; [done|done|]. destruct (decide (cl_mid c = [])) as [Em|Em].
    + right. split; [done|by apply chain_reclaimed].
    + left. split; [done|by apply chain_collapsed].
  - assert (Hno : forall c, c ∈ cs -> c.(cl_root) <> r) by (intros c Hc E; apply H, Exists_exists; eauto).
    destruct (entry_cases v h r Hok He) as [[l Hl]|E]; [right; left; exists l; split; [done|by apply chain_stays]|left]. split; [done|]. rewrite untouched; [done|].
    intros c Hc [Er|Hk]; [by apply (Hno c Hc)|]. destruct (slot_header c r Hc Hk) as (hd & row & _ & E'). congruence.
Qed.
Lemma entry_stays r : entry_slot h r -> entry_slot h' r.
Proof using Hcs Hok Hslots Hpl Hp Hrw TxnStatusViewOk0.
  pose proof hot_ok_pruned as Hok'. intros He. destruct (entry_fate r He) as [[_ E]|[(l & _ & Hl)|(c & _ & _ & [[_ Hl]|[_ E]])]].
  - by eapply dead_is_entry.
  - by eapply chain_is_entry.
  - by eapply chain_is_entry.
  - by eapply dead_is_entry.
Qed.

Section Reads.
Context (v' : V) (snap : Snapshot) (cur : list TxnId) (Hlive : live_reader v v' horizon snap cur).
Abbreviation first_seen := (first_visible v' snap cur).

Lemma first_seen_front l1 l2 : Forall (fun x => visible v' snap cur x.2 = false) l2 -> first_seen (l1 ++ l2) = first_seen l1.
Proof using. intros H. induction l1 as [|x l1 IH]; cbn; [by apply first_visible_none|]. by rewrite IH. Qed.
Lemma first_seen_same (f : Version -> Version) l : Forall (fun x => (f x).1 = x.1 /\ visible v' snap cur (f x).2 = visible v' snap cur x.2) l ->
  fst <$> first_seen (f <$> l) = fst <$> first_seen l.
Proof using. induction 1 as [|x l [E1 E2] _ IH]; [done|]. cbn [fmap list_fmap first_visible]. rewrite E2. destruct (visible _ _ _ x.2); [|exact IH]. cbn. by rewrite E1. Qed.

(** The first visible version of a collapsed chain is one of those kept. *)
Lemma collapse_unseen c : c ∈ cs -> fst <$> first_seen (keep c <$> c.(cl_mid)) = fst <$> first_seen (cl_chain c).
Proof using Hcs Hok Hlive.
  intros Hc. pose proof (collapsed c Hc) as Hcl. destruct (chain_path _ _ _ (c_chain _ _ _ _ Hcl)) as (i & Hi & _). pose proof (path_sound _ _ _ _ Hok Hi) as Hs.
  unfold cl_chain in Hs. rewrite !Forall_app in Hs. destruct Hs as (Hs1 & Hs2 & Hs3). unfold cl_chain.
  rewrite first_visible_app, first_seen_front.
  - apply first_seen_same. apply Forall_forall. intros x Hx. split; [done|]. unfold keep. cbn [snd]. case_decide as Hr; [|done].
    rewrite Forall_forall in Hs2. eapply reset_seen; [exact Hlive|by apply Hs2|]. apply elem_of_resets in Hr as (z & Hz & E).
    destruct (reset_in_chain _ _ _ _ _ Hcl Hz) as [Hin Ha]. assert (x.2 = z.2) as ->; [|done].
    pose proof (path_headed _ _ _ x Hi) as H1. pose proof (path_headed _ _ _ z Hi) as H2. unfold cl_chain in H1, H2. rewrite app_assoc in H2.
    rewrite !elem_of_app in H1. rewrite (elem_of_app (_ ++ _)) in H2. rewrite <- E, H1 in H2 by tauto. by injection (H2 (or_introl Hin)).
  - apply Forall_forall. intros x Hx. pose proof (c_aborted _ _ _ _ Hcl) as Ha. rewrite Forall_forall in Ha, Hs3. eapply aborted_unseen; eauto.
  - apply Forall_forall. intros x Hx. pose proof (c_dead _ _ _ _ Hcl) as Ha. rewrite Forall_forall in Ha, Hs1. eapply dead_unseen; eauto.
Qed.

Lemma answer_slot loc o o' : fst <$> o = fst <$> o' -> fst <$> answer loc o = fst <$> answer loc o'.
Proof using. destruct o as [x|], o' as [y|]; cbn; try done. intros [= ->]. done. Qed.

Lemma reads_stay loc : loc.(page_num) = h.(h_id) -> entry_slot h loc.(slot_num) ->
  exists o o', resolve_visible_in_chain crc32 d v' loc snap cur = Ok o /\ resolve_visible_in_chain crc32 d' v' loc snap cur = Ok o' /\ fst <$> o' = fst <$> o.
Proof using Hcs Hok Hslots Hpl Hp Hrw Hlive TxnStatusViewOk0.
  pose proof hot_ok_pruned as Hok'. pose proof (proj1 Hrw) as Hp'. intros Hloc He. assert (Hloc' : loc.(page_num) = h'.(h_id)) by (by rewrite same_id).
  destruct (entry_fate _ He) as [[E E']|[(l & Hl & Hl')|(c & Hc & Er & Hf)]].
  - exists None, None. split_and!; [by eapply resolve_gone|by eapply resolve_gone|done].
  - do 2 eexists. split_and!; [by eapply resolve_chain|by eapply resolve_chain|done].
  - pose proof (c_chain _ _ _ _ (collapsed c Hc)) as Hch. rewrite Er in Hch. destruct Hf as [[Hm Hl']|[Em E']].
    + do 2 eexists. split_and!; [by eapply (resolve_chain _ _ _ v)|by eapply (resolve_chain _ _ _ v)|]. by apply answer_slot, collapse_unseen.
    + do 2 eexists. split_and!; [by eapply (resolve_chain _ _ _ v)|by eapply resolve_gone|].
      pose proof (collapse_unseen c Hc) as Hu. rewrite Em in Hu. cbn in Hu. by destruct (first_visible _ _ _ (cl_chain c)).
Qed.
End Reads.
End Pruned.

Lemma prune_page v schema d horizon allow_dead_roots :
  page_ok crc32 d -> hot_ok v (heap_of d) ->
  match classify_page_for_prune (D:=D) crc32 v schema d horizon allow_dead_roots with
  | Ok plan => exists d', prune_image crc32 plan d = (d', Ok ()) /\ rewritten d d' /\ hot_ok v (heap_of d') /\
      (forall r, entry_slot (heap_of d) r -> entry_slot (heap_of d') r) /\
      (forall v' snap cur loc, live_reader v v' horizon snap cur -> loc.(page_num) = page_id d -> entry_slot (heap_of d) loc.(slot_num) ->
        exists o o', resolve_visible_in_chain crc32 d v' loc snap cur = Ok o /\
          resolve_visible_in_chain crc32 d' v' loc snap cur = Ok o' /\ fst <$> o' = fst <$> o) /\
      (forall r, r ∈ plan.(dead_roots) -> item (heap_of d') r = Some IDead) /\
      (forall r, item (heap_of d) r = Some IDead -> item (heap_of d') r = Some IDead)
  | Err _ => allow_dead_roots = false /\ is_Some schema.(toast_table_id)
  end.
Proof using Hcrc TxnStatusViewOk0.
  intros Hp Hok. pose proof (classify_collapses v schema d horizon allow_dead_roots Hp Hok) as H. destruct (classify_page_for_prune _ _ _ _ _ _) as [plan|]; [|done].
  destruct H as (cs & -> & Hcs). assert (Hn : NoDup (range (len (h_items (heap_of d))))) by apply NoDup_range.
  destruct (prune_image_ok d (plan_of cs) Hp) as (d' & E & Hrw & Hpl); [by eapply collapses_fit|]. exists d'. split_and!; [done|exact Hrw|by eapply hot_ok_pruned|..].
  - intros r. by eapply entry_stays.
  - intros v' snap cur loc Hlive Hloc. by eapply reads_stay.
  - intros r Hr. by apply Hpl.
  - intros r Hr. erewrite untouched; [exact Hr|done|done|]. intros c Hc [->|Hk].
    + destruct (root_item v horizon allow_dead_roots d cs _ Hok Hcs c Hc) as (it & Ei & Hit). rewrite Hr in Ei. by injection Ei as <-.
    + destruct (slot_header v horizon allow_dead_roots d cs _ Hok Hcs c r Hc Hk) as (hd & row & _ & Ei). congruence.
Qed.

(** C14: Pruning a page is invisible.  On a page whose version chains are well formed a plan is
    always found (on the update path of a table with out-of-line values a row may fail to
    decode), every step of it can be applied, and the page it leaves is well formed again.
    What an index entry may name is still there, and for every reader whose snapshot is not
    older than the horizon, then or later, it resolves to the same version. *)
Theorem prune_is_invisible v schema d horizon allow_dead_roots :
  page_ok crc32 d -> hot_ok v (heap_of d) ->
  match classify_page_for_prune (D:=D) crc32 v schema d horizon allow_dead_roots with
  | Ok plan => exists d', prune_image crc32 plan d = (d', Ok ()) /\ page_ok crc32 d' /\ hot_ok v (heap_of d') /\
      (forall r, entry_slot (heap_of d) r -> entry_slot (heap_of d') r) /\
      forall v' snap cur loc, live_reader v v' horizon snap cur -> loc.(page_num) = page_id d -> entry_slot (heap_of d) loc.(slot_num) ->
        exists o o', resolve_visible_in_chain crc32 d v' loc snap cur = Ok o /\
          resolve_visible_in_chain crc32 d' v' loc snap cur = Ok o' /\ fst <$> o' = fst <$> o
  | Err _ => allow_dead_roots = false /\ is_Some schema.(toast_table_id)
  end.
Proof using Hcrc TxnStatusViewOk0.
  intros Hp Hok. pose proof (prune_page v schema d horizon allow_dead_roots Hp Hok) as H. destruct (classify_page_for_prune _ _ _ _ _ _) as [plan|]; [|done].
  destruct H as (d' & E & (Hp' & _) & H1 & H2 & H3 & _). by exists d'.
Qed.

(** ** Pages with the same chains *)

(** The versions and the redirects are the same; what is dead may have become reusable. *)
Record same_chains h h' : Prop := {
  sc_id : h'.(h_id) = h.(h_id);
  sc_item i : item h' i = item h i \/ item h i = Some IDead /\ item h' i = Some IUnused
}.

Section Same.
Context (h h' : Heap) (Hs : same_chains h h').

Lemma same_hdr i : hdr h' i = hdr h i.
Proof using Hs. unfold hdr. by destruct (sc_item _ _ Hs i) as [->|[-> ->]]. Qed.
Lemma same_redir i : redir h' i = redir h i.
Proof using Hs. unfold redir. by destruct (sc_item _ _ Hs i) as [->|[-> ->]]. Qed.
Lemma same_next i : next h' i = next h i.
Proof using Hs. unfold next. rewrite same_hdr, (sc_id _ _ Hs). destruct (hdr h i) as [hd|]; [|done]. cbn [mbind option_bind]. by rewrite same_hdr. Qed.
Lemma same_owns i j : owns h' i j <-> owns h i j.
Proof using Hs. unfold owns. by rewrite same_next, same_redir. Qed.
Lemma same_path i l : path h i l -> path h' i l.
Proof using Hs. induction 1; [apply path_last|eapply path_step]; rewrite ?same_hdr, ?same_next; eauto. Qed.
Lemma same_chain r l : chain_of h r l -> chain_of h' r l.
Proof using Hs.
  intros [l' Hr Hl|t l' Ht Hl].
  - apply chain_here; [|by apply same_path]. intros i Hi. by apply (Hr i), same_owns.
  - eapply chain_redirected; [by rewrite same_redir|by apply same_path].
Qed.
Lemma same_hot_ok v : hot_ok v h -> hot_ok v h'.
Proof using Hs.
  intros Hok. constructor.
  - intros i row Hi. rewrite same_hdr. destruct (sc_item _ _ Hs i) as [E|[_ E]]; [|congruence]. rewrite E in Hi. by eapply hk_header.
  - intros i t. rewrite same_redir. intros Ht. destruct (hk_redirect _ _ Hok i t Ht) as (hd & Hd & Ho). exists hd. by rewrite same_hdr.
  - intros i hd. rewrite same_hdr, (sc_id _ _ Hs). intros H1 H2 H3. destruct (hk_succ _ _ Hok i hd H1 H2 H3) as (hd' & Hd & Ho). exists hd'. by rewrite same_hdr.
  - intros i j k. rewrite !same_owns. apply (hk_owner _ _ Hok).
  - intros i j hd hd'. rewrite same_next, !same_hdr. apply (hk_link _ _ Hok).
  - intros i j hd hd'. rewrite same_next, !same_hdr. apply (hk_abort _ _ Hok).
  - intros i hd. rewrite same_hdr. apply (hk_hints _ _ Hok).
Qed.
Lemma same_entry_slot r : entry_slot h r -> item h' r <> Some IUnused -> entry_slot h' r.
Proof using Hs.
  intros [Hr (it & E & Hu)] Hn. split; [intros i Hi; by apply (Hr i), same_owns|]. destruct (sc_item _ _ Hs r) as [E'|[_ E']]; [|done]. rewrite E'. eauto.
Qed.
End Same.

Lemma same_resolve v d d' v' snap cur loc : page_ok crc32 d -> page_ok crc32 d' -> hot_ok v (heap_of d) -> same_chains (heap_of d) (heap_of d') ->
  loc.(page_num) = page_id d -> entry_slot (heap_of d) loc.(slot_num) ->
  exists o, resolve_visible_in_chain crc32 d v' loc snap cur = Ok o /\ resolve_visible_in_chain crc32 d' v' loc snap cur = Ok o.
Proof using.
  intros Hp Hp' Hok Hs Hloc He. pose proof (same_hot_ok _ _ Hs v Hok) as Hok'. destruct (entry_cases v _ _ Hok He) as [[l Hl]|E].
  - eexists. split; [by eapply resolve_chain|]. eapply (resolve_chain _ _ _ v); [done|done|by rewrite (sc_id _ _ Hs)|]. by eapply same_chain.
  - exists None. split; [by eapply resolve_gone|]. destruct (sc_item _ _ Hs loc.(slot_num)) as [E'|[_ E']]; [rewrite E in E'|]; by eapply resolve_gone.
Qed.

(** Stamping the position of the log record changes nothing else. *)
Lemma stamped_same d lsn : page_ok crc32 d -> lsn <= U64_MAX -> page_ok crc32 (set_page_lsn crc32 d lsn) /\ (heap_of (set_page_lsn crc32 d lsn)).(h_items) = (heap_of d).(h_items) /\
  (heap_of (set_page_lsn crc32 d lsn)).(h_id) = (heap_of d).(h_id).
Proof using Hcrc.
  intros (_ & n & f & ss & Hb) Hl. destruct (stamp_ok crc32 Hcrc d n f ss lsn Hb Hl) as (Hp & E). by rewrite E.
Qed.
End Pages.
