(* ===== verification/HeapFile.v ===== *)
(** * Writes to heap pages (src/crates/storage/src/engine/dml.rs,
    src/crates/storage/src/engine/vacuum.rs, src/crates/storage/src/engine/referential.rs)

    The resident pages of the heap files and the operations that change them: a row is
    inserted, a version is stamped with its deleter, a page is pruned and dead line pointers
    are reclaimed.  Each one works on a copy of the page, which replaces the page once its
    record is in the log.  The log is an interface ([HeapLog]); the first change of a page
    since the last checkpoint logs the whole page. *)

From S2P Require Import Prelude Errors Mvcc CheckedBytes ByteArray TupleHeader Page Value RowFormat BTree HotChain.
Local Open Scope N_scope.

Definition VACUUM_TXN : TxnId := 0.

(** The records of a heap page: its image, compressed or not, or what was done to it. *)
Inductive HeapRecord : Type :=
  | FullPageImage (file_id page_num : N) (image : bytes)
  | HeapInsert (file_id page_num slot : N) (row_bytes : bytes)
  | HeapUpdateHeader (file_id page_num slot : N) (xmax : TxnId) (t_ctid : N * N) (infomask : N).

Class HeapLog (L : Type) : Type := append_positioned : TxnId -> HeapRecord -> SE L DbError Lsn.
Class HeapLogLaws (L : Type) `{HeapLog L} : Prop :=
  append_lsn txn r l l' lsn : append_positioned txn r l = (l', Ok lsn) -> lsn <= U64_MAX.

Abbreviation PageKey := (N * N)%type.

Section HeapFile.
Context (crc32 : bytes -> N).
Context {D : Type} `{!DecimalType D}.
Context {V : Type} `{!TxnStatusView V}.
Context {L : Type} `{!HeapLog L}.

Record Pool : Type := mkPool {
  pages : gmap PageKey bytes;
  needs_fpi : gset PageKey;
  log : L
}.
Abbreviation PL := (SE Pool Halt).

Definition page_of (k : PageKey) : PL bytes := fun s => (s, ok_or (s.(pages) !! k) (Failed (storage_internal "page does not exist"))).
Definition put (k : PageKey) (d : bytes) : PL unit := modify (fun s => mkPool (<[k := d]> s.(pages)) s.(needs_fpi) s.(log)).
Definition take_needs_fpi (k : PageKey) : PL bool := fun s =>
  (mkPool s.(pages) (s.(needs_fpi) ∖ {[k]}) s.(log), Ok (bool_decide (k ∈ s.(needs_fpi)))).
Definition restore_needs_fpi (k : PageKey) : PL unit := modify (fun s => mkPool s.(pages) ({[k]} ∪ s.(needs_fpi)) s.(log)).
Definition append (txn_id : TxnId) (r : HeapRecord) : PL Lsn := fun s =>
  let '(l, res) := append_positioned txn_id r s.(log) in (mkPool s.(pages) s.(needs_fpi) l, tried res).

(** An operation on a copy of the page. *)
Definition on_copy {A} (m : SE bytes Fault A) (d : bytes) : PL (A * bytes) := fun s =>
  match m d with (image, Ok a) => (s, Ok (a, image)) | (_, Err e) => (s, Err (halt e)) end.
(** [match m { Err(err) => { guard.restore_needs_fpi(); return Err(err) } .. }]. *)
Definition or_restore {A} (k : PageKey) (m : PL A) : PL A := fun s =>
  match m s with
  | (s, Ok a) => (s, Ok a)
  | (s, Err e) => ((restore_needs_fpi k s).1, Err e)
  end.
Definition publish (k : PageKey) (image : bytes) (record_lsn : Lsn) : PL unit := put k (set_page_lsn crc32 image record_lsn).

(** ** Inserting and stamping *)

Definition log_insert (txn_id : TxnId) (k : PageKey) (row_bytes : bytes) : PL N :=
  fpi ← take_needs_fpi k;
  d ← page_of k;
  if (fpi : bool) then
    '(slot_num, image) ← or_restore k (on_copy (insert_row crc32 row_bytes) d);
    record_lsn ← or_restore k (append txn_id (FullPageImage k.1 k.2 image));
    _ ← publish k image record_lsn;
    mret slot_num
  else
    '(slot_num, image) ← on_copy (insert_row crc32 row_bytes) d;
    record_lsn ← append txn_id (HeapInsert k.1 k.2 slot_num row_bytes);
    _ ← publish k image record_lsn;
    mret slot_num.

Inductive StampOutcome : Type :=
  | Stamped
  | WouldBlock (holder : TxnId).

Definition stamp_xmax_logged (v : V) (location : RowLocation) (t_ctid : N * N) (infomask : N) (txn_id : TxnId) (current_txns : list TxnId)
    : PL StampOutcome :=
  let k := (location.(file_id), location.(page_num)) in
  d ← page_of k;
  '(_, current_xmax, _, current_infomask) ← lift (live_header crc32 d location.(slot_num) "cannot stamp xmax on a non-live slot");
  match write_conflict current_xmax current_infomask current_txns v with
  | WC_Conflict => lift (Err (Failed (db_execute SerializationFailure "could not serialize access due to concurrent update")))
  | WC_WouldBlock holder => mret (WouldBlock holder)
  | WC_Proceed =>
      fpi ← take_needs_fpi k;
      let stamp := set_tuple_header crc32 location.(slot_num) txn_id t_ctid infomask (page_lsn d) in
      if (fpi : bool) then
        '(_, image) ← or_restore k (on_copy stamp d);
        record_lsn ← or_restore k (append txn_id (FullPageImage location.(file_id) location.(page_num) image));
        _ ← publish k image record_lsn;
        mret Stamped
      else
        '(_, image) ← on_copy stamp d;
        record_lsn ← append txn_id (HeapUpdateHeader location.(file_id) location.(page_num) location.(slot_num) txn_id t_ctid infomask);
        _ ← publish k image record_lsn;
        mret Stamped
  end.

(** ** Pruning and reclaiming *)

Definition apply_prune_plan (plan : PagePrunePlan) (k : PageKey) (txn_id : TxnId) : PL unit :=
  d ← page_of k;
  '(_, scratch) ← on_copy (prune_image crc32 plan) d;
  record_lsn ← append txn_id (FullPageImage k.1 k.2 scratch);
  publish k scratch record_lsn.

(** The placement of a heap-only version on the page of its predecessor. *)
Definition try_hot_insert_on_page (v : V) (schema : TableSchema) (k : PageKey) (row_bytes : bytes) (txn_id : TxnId) (prune_horizon : option TxnId)
    : PL (option RowLocation) :=
  let insert := slot_num ← log_insert txn_id k row_bytes; mret (Some (mkRowLocation k.1 k.2 slot_num)) in
  d ← page_of k;
  space ← lift (tried (has_space_for crc32 d (len row_bytes)));
  if (space : bool) then insert
  else
    match prune_horizon with
    | None => mret None
    | Some horizon =>
        plan ← lift (classify_page_for_prune (D:=D) crc32 v schema d horizon false);
        if plan_is_empty plan then mret None
        else
          _ ← apply_prune_plan plan k txn_id;
          d ← page_of k;
          space ← lift (tried (has_space_for crc32 d (len row_bytes)));
          if (space : bool) then insert else mret None
    end.

Definition reclaim_page (k : PageKey) (slots : list N) : PL unit :=
  d ← page_of k;
  '(_, image) ← on_copy (reclaim_line_pointers crc32 slots (page_lsn d)) d;
  record_lsn ← append VACUUM_TXN (FullPageImage k.1 k.2 image);
  publish k image record_lsn.

(** The slots of a page an interrupted pass left dead. *)
Fixpoint dead_slots (d : bytes) (slots : list N) : result Halt (list N) :=
  match slots with
  | [] => Ok []
  | slot_num :: slots =>
      st ← tried (slot_state crc32 d slot_num);
      rest ← dead_slots d slots;
      Ok (match st with LpDead => slot_num :: rest | _ => rest end)
  end.

(** ** The checks of the foreign-key probe *)

(** The owners of the chain members of a page: redirects and HOT-updated tuples. *)
Fixpoint hot_owners (d : bytes) (page_num : N) (slots : list N) : result Halt (list (N * N) * list (N * N)) :=
  match slots with
  | [] => Ok ([], [])
  | slot_num :: slots =>
      st ← tried (slot_state crc32 d slot_num);
      match st with
      | LpRedirect target =>
          st ← tried (slot_state crc32 d target);
          match st with
          | LpNormal => '(redirects, hots) ← hot_owners d page_num slots; Ok ((slot_num, target) :: redirects, hots)
          | _ => internal "redirect line pointer target is not a NORMAL tuple"
          end
      | LpNormal =>
          '(_, _, t_ctid, infomask) ← live_header crc32 d slot_num "NORMAL line pointer has no tuple bytes";
          if negb (hint infomask HOT_UPDATED) then hot_owners d page_num slots
          else if negb (t_ctid.1 =? page_num) then internal "HOT_UPDATED tuple points to a different heap page"
          else
            st ← tried (slot_state crc32 d t_ctid.2);
            match st with
            | LpNormal =>
                '(_, _, _, successor_infomask) ← live_header crc32 d t_ctid.2 "HOT successor is not a live tuple";
                if hint successor_infomask HEAP_ONLY
                then '(redirects, hots) ← hot_owners d page_num slots; Ok (redirects, (slot_num, t_ctid.2) :: hots)
                else internal "HOT_UPDATED successor is not marked HEAP_ONLY"
            | _ => internal "HOT_UPDATED successor slot is not a NORMAL tuple"
            end
      | LpDead | LpUnused => hot_owners d page_num slots
      end
  end.

Definition assoc (l : list (N * N)) (k : N) : option N := snd <$> (snd <$> list_find (fun r => r.1 = k) l).

(** The walk from a HOT-updated tuple to the end of its chain or to a slot walked before,
    refusing to visit a slot twice; the slots visited. *)
Fixpoint chain_ends (fuel : nat) (hots : list (N * N)) (validated path : list N) (current : N) : result Halt (list N) :=
  match fuel with
  | O => Err Diverges
  | S fuel =>
      match assoc hots current with
      | None => Ok path
      | Some successor =>
          if contains validated current then Ok path
          else if contains path current then internal "cyclic HOT chain in dependent-row probe"
          else chain_ends fuel hots validated (current :: path) successor
      end
  end.
Fixpoint all_chains_end (hots : list (N * N)) (validated starts : list N) : result Halt unit :=
  match starts with
  | [] => Ok ()
  | start :: starts =>
      if contains validated start then all_chains_end hots validated starts
      else
        path ← chain_ends (S (S (length hots))) hots validated [] start;
        all_chains_end hots (path ++ validated) starts
  end.

Fixpoint heap_roots (d : bytes) (file_id page_num : N) (members slots : list N) : result Halt (list RowLocation) :=
  match slots with
  | [] => Ok []
  | slot_num :: slots =>
      st ← tried (slot_state crc32 d slot_num);
      let here := mkRowLocation file_id page_num slot_num in
      match st with
      | LpNormal =>
          if contains members slot_num then heap_roots d file_id page_num members slots
          else
            '(_, _, _, infomask) ← live_header crc32 d slot_num "NORMAL line pointer has no tuple bytes";
            if hint infomask HEAP_ONLY then internal "heap-only tuple is not reachable from a HOT root or redirect"
            else rest ← heap_roots d file_id page_num members slots; Ok (here :: rest)
      | LpRedirect _ => rest ← heap_roots d file_id page_num members slots; Ok (here :: rest)
      | LpDead | LpUnused => heap_roots d file_id page_num members slots
      end
  end.

Definition dependent_heap_roots (d : bytes) (file_id page_num : N) : result Halt (list RowLocation) :=
  if negb (is_initialized d) then Ok []
  else
    slot_count ← tried (next_slot crc32 d);
    '(redirects, hots) ← hot_owners d page_num (range slot_count);
    let targets := redirects.*2 ++ hots.*2 in
    _ ← all_chains_end hots [] hots.*1;
    if bool_decide (NoDup targets) then heap_roots d file_id page_num targets (range slot_count)
    else internal "heap chain member has multiple incoming owners".
End HeapFile.
