(* ===== verification/Vacuum.v ===== *)
(** * VACUUM of a table (src/crates/storage/src/engine/vacuum.rs, src/crates/storage/src/engine/visibility.rs)

    A table is its heap pages and its indexes.  A reader looks a key up in an index and
    resolves each location on its page ([HotChain]); VACUUM prunes the pages, removes the
    index entries of the slots it marked dead and only then makes the slots reusable.  The
    theorem: whatever happens on the way - an error of the log, a cancellation - the table
    stays well formed and every live reader finds for every key what it found before. *)

From stdpp Require Import sorting.
From S2P Require Import Prelude Errors Mvcc CheckedBytes ByteArray TupleHeader Page IndexPage KeyOrder Value RowFormat BTree BLink BTreeRead BTreeInsert BTreeSpec Index HotChain HotPrune HeapFile.
Local Open Scope N_scope.

Section Vacuum.
Context (crc32 : bytes -> N).
Context {D : Type} `{!DecimalType D}.
Context {V : Type} `{!TxnStatusView V}.
Context {L : Type} `{!HeapLog L}.
Context {K : Type} `{!KeyCodec K}.
Context {W : Type} `{!IndexEnv W}.
Abbreviation Pool := (@Pool L).
Abbreviation Index := (@Index W).

Record Table : Type := mkTable {
  t_pool : Pool;
  t_file : N;
  t_page_count : N;
  t_abandoned : list N;
  t_primary : Index;
  t_secondary : list Index
}.
Abbreviation TM := (SE Table Halt).
Definition t_indexes (t : Table) : list Index := t.(t_primary) :: t.(t_secondary).

Definition on_pool {A} (m : SE Pool Halt A) : TM A := fun t =>
  let '(p, r) := m t.(t_pool) in (mkTable p t.(t_file) t.(t_page_count) t.(t_abandoned) t.(t_primary) t.(t_secondary), r).
Definition on_primary {A} (m : SE Index Halt A) : TM A := fun t =>
  let '(i, r) := m t.(t_primary) in (mkTable t.(t_pool) t.(t_file) t.(t_page_count) t.(t_abandoned) i t.(t_secondary), r).
Definition on_secondaries {A} (m : SE (list Index) Halt A) : TM A := fun t =>
  let '(indexes, r) := m t.(t_secondary) in (mkTable t.(t_pool) t.(t_file) t.(t_page_count) t.(t_abandoned) t.(t_primary) indexes, r).

(** ** Readers *)

(** The first location of a list that resolves to a visible version. *)
Fixpoint first_resolved (p : Pool) (v : V) (snapshot : Snapshot) (current_txns : list TxnId) (locations : list RowLocation)
    : result Halt (option (RowLocation * N)) :=
  match locations with
  | [] => Ok None
  | location :: locations =>
      d ← ok_or (p.(pages) !! (location.(file_id), location.(page_num))) (Failed (storage_internal "page does not exist"));
      resolved ← resolve_visible_in_chain crc32 d v location snapshot current_txns;
      match resolved with Some r => Ok (Some r) | None => first_resolved p v snapshot current_txns locations end
  end.

Definition locate_visible_version (t : Table) (index : Index) (key : list K) (v : V) (snapshot : Snapshot) (current_txns : list TxnId)
    : result Halt (option (RowLocation * N)) :=
  locations ← scan_key index.(ipages) key;
  first_resolved t.(t_pool) v snapshot current_txns locations.

(** ** The phases *)

(** [cancel] answers the checks of each phase, turn by turn. *)
Definition Cancel : Type := option (nat -> nat -> DbResult unit).
Definition during (cancel : Cancel) (phase : nat) : option (nat -> DbResult unit) := (fun check => check phase) <$> cancel.

Definition at_slot (file page slot : N) : RowLocation := mkRowLocation file page slot.

Definition vacuum_page (v : V) (schema : TableSchema) (horizon : TxnId) (file page_num : N) : SE Pool Halt (list RowLocation * N) :=
  d ← page_of (file, page_num);
  if negb (is_initialized d) then mret ([], 0)
  else
    slot_count ← lift (tried (next_slot crc32 d));
    left_dead ← lift (dead_slots crc32 d (range slot_count));
    plan ← lift (classify_page_for_prune (D:=D) crc32 v schema d horizon true);
    if plan_is_empty plan then mret (at_slot file page_num <$> left_dead, 0)
    else
      _ ← apply_prune_plan crc32 plan (file, page_num) VACUUM_TXN;
      mret (at_slot file page_num <$> (left_dead ++ plan.(dead_roots)), len plan.(free_to_unused)).

Fixpoint vacuum_pages (v : V) (schema : TableSchema) (horizon : TxnId) (cancel : option (nat -> DbResult unit)) (turn : nat) (page_nums : list N)
    : TM (list RowLocation * N) :=
  match page_nums with
  | [] => mret ([], 0)
  | page_num :: page_nums =>
      _ ← lift (cancel_check cancel turn);
      t ← gets id;
      '(dead, freed) ← (if contains t.(t_abandoned) page_num then mret ([], 0) else on_pool (vacuum_page v schema horizon t.(t_file) page_num));
      '(dead', freed') ← vacuum_pages v schema horizon cancel (S turn) page_nums;
      mret (dead ++ dead', freed + freed')
  end.

Definition vacuum_heap_cancelable (v : V) (schema : TableSchema) (horizon : TxnId) (cancel : Cancel) : TM (list RowLocation * N) :=
  page_count ← gets t_page_count;
  vacuum_pages v schema horizon (during cancel 0) 0 (range page_count).

Fixpoint vacuum_secondaries (cancel : Cancel) (dead_tids : list RowLocation) (turn : nat) (indexes : list Index) {struct indexes} : list Index * result Halt unit :=
  match indexes with
  | [] => ([], Ok ())
  | index :: indexes =>
      match cancel_check (during cancel 2) turn with
      | Err e => (index :: indexes, Err e)
      | Ok _ =>
          match remove_values_in_cancelable crc32 VACUUM_TXN dead_tids (during cancel (4 + turn)) index with
          | (index, Err e) => (index :: indexes, Err e)
          | (index, Ok _) => let '(indexes, r) := vacuum_secondaries cancel dead_tids (S turn) indexes in (index :: indexes, r)
          end
      end
  end.

Definition vacuum_indexes_cancelable (cancel : Cancel) (dead_tids : list RowLocation) : TM unit :=
  if bool_decide (dead_tids = []) then mret ()
  else
    _ ← on_primary (remove_values_in_cancelable crc32 VACUUM_TXN dead_tids (during cancel 1));
    on_secondaries (vacuum_secondaries cancel dead_tids 0).

Fixpoint reclaim_pages (cancel : option (nat -> DbResult unit)) (dead_tids : list RowLocation) (file : N) (turn : nat) (page_nums : list N) : SE Pool Halt unit :=
  match page_nums with
  | [] => mret ()
  | page :: page_nums =>
      _ ← lift (cancel_check cancel turn);
      _ ← reclaim_page crc32 (file, page) (slot_num <$> filter (fun tid => tid.(page_num) = page) dead_tids);
      reclaim_pages cancel dead_tids file (S turn) page_nums
  end.

Definition reclaim_line_pointers_cancelable (cancel : Cancel) (dead_tids : list RowLocation) : TM unit :=
  if bool_decide (dead_tids = []) then mret ()
  else
    file ← gets t_file;
    if forallb (fun tid => tid.(file_id) =? file) dead_tids
    then on_pool (reclaim_pages (during cancel 3) dead_tids file 0 (merge_sort N.le (remove_dups (page_num <$> dead_tids))))
    else lift (Err (Failed (db_storage InternalError "line-pointer reclaim received a TID for a different heap file"))).

Definition vacuum_relation (v : V) (schema : TableSchema) (horizon : TxnId) (cancel : Cancel) : TM N :=
  '(dead, freed_in_chains) ← vacuum_heap_cancelable v schema horizon cancel;
  let reclaimed := len dead + freed_in_chains in
  _ ← (if bool_decide (dead = []) then mret ()
       else
         let dead := remove_dups dead in
         _ ← vacuum_indexes_cancelable cancel dead;
         reclaim_line_pointers_cancelable cancel dead);
  mret reclaimed.
End Vacuum.

(** ** Well-formed tables *)

Section Safety.
Context (crc32 : bytes -> N) (Hcrc : crc_fits crc32).
Context {D : Type} `{!DecimalType D}.
Context {V : Type} `{!TxnStatusView V, !TxnStatusViewOk V}.
Context {L : Type} `{!HeapLog L, !HeapLogLaws L}.
Context {K : Type} `{!KeyCodec K, !KeyCodecLaws K}.
Context {W : Type} `{!IndexEnv W, !IndexEnvLaws W}.
Abbreviation Pool := (@Pool L).
Abbreviation Index := (@Index W).
Abbreviation Table := (@Table L W).
Abbreviation Entry := (list K * bytes)%type.
Implicit Types (p : Pool) (v : V) (l : RowLocation).

(** Every page of the file is well formed, and knows its number. *)
Definition pool_ok v (file : N) p : Prop := forall n d, p.(pages) !! (file, n) = Some d -> is_initialized d = true ->
  page_ok crc32 d /\ hot_ok v (heap_of d) /\ page_id d = n.

(** A location an index entry may hold: a root of a page of the file, not a reusable slot. *)
Definition names (file : N) p l : Prop := l.(file_id) = file /\
  exists d, p.(pages) !! (file, l.(page_num)) = Some d /\ is_initialized d = true /\ entry_slot (heap_of d) l.(slot_num).
Definition dead_at (file : N) p l : Prop := l.(file_id) = file /\
  exists d, p.(pages) !! (file, l.(page_num)) = Some d /\ is_initialized d = true /\ item (heap_of d) l.(slot_num) = Some IDead.

Definition entries_ok (file : N) p (i : Index) (xs : list Entry) : Prop :=
  holds crc32 i xs /\ Forall (fun z => names file p (loc z.2)) xs.

Definition table_ok v (t : Table) : Prop := pool_ok v t.(t_file) t.(t_pool) /\ Forall (fun i => exists xs, entries_ok t.(t_file) t.(t_pool) i xs) (t_indexes t).

Section Readers.
Context (v' : V) (snap : Snapshot) (cur : list TxnId).

(** The version a location resolves to. *)
Definition seen p l : option RowLocation :=
  d ← p.(pages) !! (l.(file_id), l.(page_num));
  match resolve_visible_in_chain crc32 d v' l snap cur with Ok o => fst <$> o | Err _ => None end.

Lemma names_resolve v file p l : pool_ok v file p -> names file p l ->
  exists d o, p.(pages) !! (l.(file_id), l.(page_num)) = Some d /\ resolve_visible_in_chain crc32 d v' l snap cur = Ok o.
Proof using.
  intros Hpool (Hf & d & Ed & Hi & He). destruct (Hpool _ _ Ed Hi) as (Hp & Hok & Hid). exists d. rewrite Hf, Ed.
  destruct (entry_cases v _ _ Hok He) as [[c Hc]|E]; eexists; (split; [done|]); [|by eapply resolve_gone].
  eapply (resolve_chain crc32 v' snap cur v); [done|done| |done]. by rewrite <- Hid, page_id_heap.
Qed.
Lemma dead_unresolved v file p l : pool_ok v file p -> dead_at file p l -> seen p l = None.
Proof using.
  intros Hpool (Hf & d & Ed & Hi & E). destruct (Hpool _ _ Ed Hi) as (Hp & _ & _). unfold seen. rewrite Hf, Ed. cbn [mbind option_bind].
  erewrite resolve_gone; [done|done|exact E|done].
Qed.

Lemma first_resolved_seen v file p ls : pool_ok v file p -> Forall (names file p) ls ->
  exists o, first_resolved crc32 p v' snap cur ls = Ok o /\ fst <$> o = head (omap (seen p) ls).
Proof using.
  intros Hpool. induction 1 as [|l ls Hl _ (o & Eo & Ho)]; [by exists None|]. destruct (names_resolve v file p l Hpool Hl) as (d & r & Ed & Er).
  cbn [first_resolved omap list_omap]. rewrite Ed. cbn [ok_or mbind result_bind]. rewrite Er. cbn [mbind result_bind].
  assert (Es : seen p l = fst <$> r) by (unfold seen; rewrite Ed; cbn [mbind option_bind]; by rewrite Er). rewrite Es. destruct r as [r|]; [by exists (Some r)|by exists o].
Qed.

Lemma holds_scan (i : Index) (xs : list Entry) key : holds crc32 i xs -> scan_key i.(ipages) key = Ok (matching key xs).
Proof using IndexEnvLaws0 KeyCodecLaws0. intros (t & [[Ht Hr] _] & <-). by eapply scan_key_answers. Qed.

Lemma names_matching file p key (xs : list Entry) : Forall (fun z => names file p (loc z.2)) xs -> Forall (names file p) (matching key xs).
Proof using. intros H. unfold matching. apply Forall_fmap, Forall_forall. intros z [_ Hz]%list_elem_of_filter. by eapply Forall_forall in H. Qed.

Lemma located v (t : Table) i (xs : list Entry) key : pool_ok v t.(t_file) t.(t_pool) -> entries_ok t.(t_file) t.(t_pool) i xs ->
  exists o, locate_visible_version crc32 t i key v' snap cur = Ok o /\ fst <$> o = head (omap (seen t.(t_pool)) (matching key xs)).
Proof using IndexEnvLaws0 KeyCodecLaws0.
  intros Hpool [Hh Hn]. unfold locate_visible_version. rewrite (holds_scan i xs key Hh). cbn [mbind result_bind]. eapply first_resolved_seen; [done|by apply names_matching].
Qed.

(** Entries that resolve to nothing may be left out. *)
Lemma omap_matching_alive p key dead (xs : list Entry) : (forall l, l ∈ dead -> seen p l = None) ->
  omap (seen p) (matching key (alive dead xs)) = omap (seen p) (matching key xs).
Proof using.
  intros Hd. unfold matching, alive. induction xs as [|z xs IH]; [done|]. rewrite !filter_cons. destruct (decide (~ dead_entry dead z)) as [Hz|Hz].
  - rewrite !filter_cons. case_decide; [|done]. cbn [fmap list_fmap omap list_omap]. by rewrite IH.
  - case_decide; [|done]. cbn [fmap list_fmap omap list_omap]. apply dec_stable in Hz. change ((loc ∘ snd) z) with (loc z.2). by rewrite (Hd _ Hz).
Qed.
End Readers.

(** ** Steps that keep what the readers see *)

Section Keeping.
Context (v : V) (horizon : TxnId) (file : N).

(** The file is well formed after the step, and all locations but those of [gone] resolve,
    for live readers, as before. *)
Record kept (gone : list RowLocation) p p' : Prop := {
  kp_ok : pool_ok v file p';
  kp_names l : names file p l -> l ∉ gone -> names file p' l;
  kp_seen l v' snap cur : names file p l -> l ∉ gone -> live_reader v v' horizon snap cur -> seen v' snap cur p' l = seen v' snap cur p l
}.

Lemma kept_refl gone p : pool_ok v file p -> kept gone p p.
Proof using. by split. Qed.
Lemma kept_trans gone p1 p2 p3 : kept gone p1 p2 -> kept gone p2 p3 -> kept gone p1 p3.
Proof using.
  intros [H1 H2 H3] [H4 H5 H6]. split; [done|auto|]. intros l v' snap cur Hn Hg Hl. rewrite H6; [by apply H3|by apply H2|done|done].
Qed.
Lemma kept_same_pages gone p p' : pool_ok v file p -> p'.(pages) = p.(pages) -> kept gone p p'.
Proof using.
  intros Hp E. split; [intros n d; rewrite E; apply Hp|intros l Hn _; unfold names; by rewrite E|]. intros l v' snap cur _ _ _. unfold seen. by rewrite E.
Qed.

Lemma page_initialized d : page_ok crc32 d -> is_initialized d = true.
Proof using. intros (_ & n & f & ss & Hb). unfold is_initialized. by rewrite (b_type _ _ _ _ Hb), N.eqb_refl. Qed.

(** One page is replaced by another that keeps the entries and what they resolve to. *)
Lemma kept_put gone p p' n d d' : pool_ok v file p -> p.(pages) !! (file, n) = Some d -> is_initialized d = true ->
  p'.(pages) = <[(file, n) := d']> p.(pages) -> page_ok crc32 d' -> hot_ok v (heap_of d') -> page_id d' = n ->
  (forall l, l.(file_id) = file -> l.(page_num) = n -> entry_slot (heap_of d) l.(slot_num) -> l ∉ gone -> entry_slot (heap_of d') l.(slot_num) /\
    forall v' snap cur, live_reader v v' horizon snap cur -> exists o o', resolve_visible_in_chain crc32 d v' l snap cur = Ok o /\
      resolve_visible_in_chain crc32 d' v' l snap cur = Ok o' /\ fst <$> o' = fst <$> o) ->
  kept gone p p'.
Proof using.
  intros Hpool Ed Hi Ep Hp' Hok' Hid' He. split.
  - intros m dm. rewrite Ep. destruct (decide (m = n)) as [->|Hne]; [rewrite lookup_insert_eq; intros [= <-] _; done|].
    rewrite lookup_insert_ne by congruence. apply Hpool.
  - intros l (Hf & dl & El & Hil & Hel) Hg. split; [done|]. rewrite Ep. destruct (decide (l.(page_num) = n)) as [E|Hne].
    + rewrite E, Ed in El. injection El as <-. exists d'. rewrite E, lookup_insert_eq. split_and!; [done|by apply page_initialized|]. by apply He.
    + exists dl. by rewrite lookup_insert_ne by congruence.
  - intros l v' snap cur (Hf & dl & El & Hil & Hel) Hg Hlive. unfold seen. rewrite Ep. destruct (decide (l.(page_num) = n)) as [E|Hne].
    + rewrite E, Ed in El. injection El as <-. destruct (He l Hf E Hel Hg) as [_ Hr]. destruct (Hr _ _ _ Hlive) as (o & o' & E1 & E2 & E3).
      rewrite Hf, E, lookup_insert_eq, Ed. cbn [mbind option_bind]. by rewrite E1, E2, E3.
    + by rewrite lookup_insert_ne by congruence.
Qed.

(** The image of a page is logged and published, or nothing happens. *)
Lemma append_publish txn k image r p :
  let '(p', res) := (record_lsn ← append txn r; publish crc32 k image record_lsn) p in
  match res with
  | Ok _ => exists lsn, lsn <= U64_MAX /\ p'.(pages) = <[k := set_page_lsn crc32 image lsn]> p.(pages)
  | Err _ => p'.(pages) = p.(pages)
  end.
Proof using HeapLogLaws0.
  unfold append, mbind, se_bind. destruct (append_positioned txn r (log p)) as [lg [lsn|e]] eqn:E; cbn; [|done]. exists lsn. split; [|done]. by eapply append_lsn.
Qed.

Lemma same_items_chains h h' : h'.(h_items) = h.(h_items) -> h'.(h_id) = h.(h_id) -> same_chains h h'.
Proof using. intros E1 E2. split; [done|]. intros i. left. unfold item. by rewrite E1. Qed.

Lemma page_of_Some (p : Pool) k d : p.(pages) !! k = Some d -> page_of k p = (p, Ok d).
Proof using. intros E. unfold page_of. by rewrite E. Qed.

Lemma apply_prune_runs plan k txn p d d' : p.(pages) !! k = Some d -> prune_image crc32 plan d = (d', Ok ()) ->
  apply_prune_plan crc32 plan k txn p = (record_lsn ← append txn (FullPageImage k.1 k.2 d'); publish crc32 k d' record_lsn) p.
Proof using.
  intros Ed E. unfold apply_prune_plan. erewrite se_bind_Ok by (by apply page_of_Some). erewrite se_bind_Ok by (unfold on_copy; by rewrite E). done.
Qed.

Lemma dead_slots_ok d slots : page_ok crc32 d -> Forall (fun i => i < len (heap_of d).(h_items)) slots ->
  exists ds, dead_slots crc32 d slots = Ok ds /\ Forall (fun s => item (heap_of d) s = Some IDead) ds.
Proof using.
  intros Hp. induction 1 as [|i slots Hi _ (ds & E & Hds)]; [by exists []|]. destruct (item_in _ _ Hi) as [it Eit]. cbn [dead_slots].
  destruct (state_item crc32 d i it Hp Eit) as [-> _]. cbn [tried map_err mbind result_bind]. rewrite E. cbn [mbind result_bind].
  eexists. split; [done|]. destruct it; cbn [item_state]; [done|by constructor|done|done].
Qed.

Lemma dead_at_put p p' n d d' : p.(pages) !! (file, n) = Some d -> p'.(pages) = <[(file, n) := d']> p.(pages) -> is_initialized d' = true ->
  (forall r, item (heap_of d) r = Some IDead -> item (heap_of d') r = Some IDead) -> forall l, dead_at file p l -> dead_at file p' l.
Proof using.
  intros Ed Ep Hi' Hd l (Hf & dl & El & Hil & E). split; [done|]. rewrite Ep. destruct (decide (l.(page_num) = n)) as [En|Hne].
  - rewrite En, Ed in El. injection El as <-. exists d'. rewrite En, lookup_insert_eq. auto.
  - exists dl. by rewrite lookup_insert_ne by congruence.
Qed.

(** Pruning a page. *)
Definition page_vacuumed p p' (r : result Halt (list RowLocation * N)) : Prop :=
  kept [] p p' /\ (forall l, dead_at file p l -> dead_at file p' l) /\ match r with Ok (dead, _) => Forall (dead_at file p') dead | Err _ => True end.

Lemma page_untouched p p' r : pool_ok v file p -> p'.(pages) = p.(pages) -> match r with Ok (dead, _) => Forall (dead_at file p) dead | Err _ => True end -> page_vacuumed p p' r.
Proof using.
  intros Hp E Hr. split_and!; [by apply kept_same_pages|intros l; unfold dead_at; by rewrite E|]. destruct r as [[dead n]|]; [|done].
  eapply Forall_impl; [exact Hr|]. intros l. unfold dead_at. by rewrite E.
Qed.

(** A plan with [allow_dead_roots] exists; applying it keeps the page's entries. *)
Lemma prune_applied schema n p d : pool_ok v file p -> p.(pages) !! (file, n) = Some d -> is_initialized d = true ->
  exists plan, classify_page_for_prune (D:=D) crc32 v schema d horizon true = Ok plan /\
  let '(p', r) := apply_prune_plan crc32 plan (file, n) VACUUM_TXN p in
  kept [] p p' /\ (forall l, dead_at file p l -> dead_at file p' l) /\
  match r with Ok _ => Forall (dead_at file p') (at_slot file n <$> plan.(dead_roots)) | Err _ => True end.
Proof using Hcrc HeapLogLaws0 TxnStatusViewOk0.
  intros Hpool Ed Hi. destruct (Hpool _ _ Ed Hi) as (Hp & Hok & Hid). pose proof (prune_page crc32 Hcrc (D:=D) v schema d horizon true Hp Hok) as H.
  destruct (classify_page_for_prune _ _ _ _ _ _) as [plan|]; [|by destruct H]. exists plan. split; [done|].
  destruct H as (d' & E & (Hp' & Hid' & _) & Hok' & He & Hr & Hd & Hdd). rewrite (apply_prune_runs plan _ _ p d d' Ed E).
  pose proof (append_publish VACUUM_TXN (file, n) d' (FullPageImage (file, n).1 (file, n).2 d') p) as Hap.
  destruct ((_ ← append _ _; _) p) as [p' [[]|e]].
  2:{ split_and!; [by apply kept_same_pages|intros l; unfold dead_at; by rewrite Hap|done]. }
  destruct Hap as (lsn & Hlsn & Ep). destruct (stamped_same crc32 Hcrc d' lsn Hp' Hlsn) as (Hp'' & Eit & Eid).
  set (d'' := set_page_lsn crc32 d' lsn) in *. pose proof (same_items_chains _ _ Eit Eid) as Hs.
  assert (Hit : forall r, item (heap_of d'') r = item (heap_of d') r) by (intros r; unfold item; by rewrite Eit).
  split_and!.
  - eapply (kept_put [] p p' n d d''); try done; [by apply (same_hot_ok _ _ Hs)|by rewrite page_id_heap, Eid, Hid', <- page_id_heap|].
    intros l Hlf Hln Hle _. split; [apply (same_entry_slot _ _ Hs); [by apply He|]|].
    { rewrite Hit. destruct (He _ Hle) as [_ (it & E1 & E2)]. rewrite E1. by intros [= ->]. }
    intros v' snap cur Hlive. destruct (Hr v' snap cur l Hlive) as (o & o' & E1 & E2 & E3); [by rewrite Hln|done|].
    destruct (same_resolve crc32 v d' d'' v' snap cur l Hp' Hp'' Hok' Hs) as (o2 & E4 & E5); [by rewrite Hln, <- Hid, !page_id_heap, Hid'|by apply He|].
    exists o, o'. split_and!; [done| |done]. congruence.
  - eapply (dead_at_put p p' n d d''); [done|done|by apply page_initialized|]. intros r Hr'. rewrite Hit. by apply Hdd.
  - apply Forall_fmap, Forall_forall. intros r Hr'. split; [done|]. exists d''. cbn [page_num slot_num at_slot]. rewrite Ep, lookup_insert_eq.
    split_and!; [done|by apply page_initialized|]. rewrite Hit. by apply Hd.
Qed.

Lemma vacuum_page_kept schema n p : pool_ok v file p ->
  let '(p', r) := vacuum_page (D:=D) crc32 v schema horizon file n p in page_vacuumed p p' r.
Proof using Hcrc HeapLogLaws0 TxnStatusViewOk0.
  intros Hpool. unfold vacuum_page. destruct (p.(pages) !! (file, n)) as [d|] eqn:Ed.
  2:{ unfold mbind, se_bind, page_of. rewrite Ed. cbn. by apply page_untouched. }
  erewrite se_bind_Ok by (by apply page_of_Some). destruct (is_initialized d) eqn:Hi; cbn [negb]; [|apply page_untouched; [done|done|constructor]].
  destruct (Hpool _ _ Ed Hi) as (Hp & Hok & Hid). rewrite (next_slot_ok crc32 d Hp). cbn [tried map_err]. rewrite lift_bind_Ok.
  destruct (dead_slots_ok d (range (len (h_items (heap_of d)))) Hp) as (ds & -> & Hds); [apply Forall_forall; intros i; by rewrite elem_of_range|]. rewrite lift_bind_Ok.
  destruct (prune_applied schema n p d Hpool Ed Hi) as (plan & -> & Hpl). rewrite lift_bind_Ok.
  assert (Hleft : Forall (dead_at file p) (at_slot file n <$> ds)).
  { apply Forall_fmap. eapply Forall_impl; [exact Hds|]. intros s Hs. split; [done|]. exists d. done. }
  destruct (plan_is_empty plan); [by apply page_untouched|]. unfold mbind, se_bind. destruct (apply_prune_plan _ _ _ _ p) as [p' [[]|e]].
  - destruct Hpl as (Hk & Hdd & Hr). split_and!; [done|done|]. rewrite fmap_app. apply Forall_app. split; [|done]. eapply Forall_impl; [exact Hleft|]. intros l. apply Hdd.
  - destruct Hpl as (Hk & Hdd & _). by split_and!.
Qed.

(** Reclaiming the line pointers of a page: dead slots become reusable. *)
Lemma flip_dead_inv slots : forall items items', flip_items is_dead IUnused slots items = Some items' ->
  length items' = length items /\ forall k, items' !! k = items !! k \/ N.of_nat k ∈ slots /\ items !! k = Some IDead /\ items' !! k = Some IUnused.
Proof using.
  induction slots as [|i slots IH]; intros items items' E; cbn [flip_items] in E; [injection E as <-; split; [done|by left]|].
  destruct (items !! N.to_nat i) as [it|] eqn:Ei; [|done]. destruct (is_dead it) eqn:Ed; [|done]. destruct (IH _ _ E) as [Hl Hk]. rewrite length_insert in Hl. split; [done|].
  intros k. destruct (Hk k) as [Ek|(Hin & Ek & Ek')].
  - destruct (decide (k = N.to_nat i)) as [->|Hne].
    + right. split_and!; [rewrite N2Nat.id; left|rewrite Ei; by destruct it|]. rewrite Ek. apply list_lookup_insert_eq. by eapply lookup_lt_Some.
    + left. by rewrite Ek, list_lookup_insert_ne.
  - destruct (decide (k = N.to_nat i)) as [->|Hne]; [apply lookup_lt_Some in Ei; by rewrite list_lookup_insert_eq in Ek|].
    rewrite list_lookup_insert_ne in Ek by done. right. split_and!; [by right|done|done].
Qed.

Definition has_page p (n : N) : Prop := exists d, p.(pages) !! (file, n) = Some d /\ is_initialized d = true.

Lemma reclaim_page_kept gone slots n p : pool_ok v file p -> has_page p n -> (forall l, l.(file_id) = file -> l.(page_num) = n -> l.(slot_num) ∈ slots -> l ∈ gone) ->
  let '(p', _) := reclaim_page crc32 (file, n) slots p in kept gone p p' /\ forall m, has_page p m -> has_page p' m.
Proof using Hcrc HeapLogLaws0.
  intros Hpool (d & Ed & Hi) Hg. destruct (Hpool _ _ Ed Hi) as (Hp & Hok & Hid). unfold reclaim_page. erewrite se_bind_Ok by (by apply page_of_Some).
  assert (Hno : forall p', p'.(pages) = p.(pages) -> kept gone p p' /\ forall m, has_page p m -> has_page p' m).
  { intros p' E. split; [by apply kept_same_pages|]. intros m. unfold has_page. by rewrite E. }
  pose proof (impl_op crc32 Hcrc (OpReclaim slots (page_lsn d)) d Hp (page_lsn_width crc32 d Hp)) as Himp. cbn [run_op spec_op] in Himp.
  destruct (flip_items is_dead IUnused slots (h_items (heap_of d))) as [items|] eqn:Ef; cbn [mbind option_bind] in Himp.
  2:{ destruct Himp as (d1 & e & E). unfold mbind at 1, se_bind at 1 in E. unfold mbind at 1, se_bind at 1, on_copy.
      destruct (reclaim_line_pointers crc32 slots (page_lsn d) d) as [d2 [[]|e2]]; [by injection E|]. by apply Hno. }
  apply done_inv in Himp as (d' & E & Hp' & Hh). erewrite se_bind_Ok by (unfold on_copy; by rewrite E). cbv beta iota.
  pose proof (append_publish VACUUM_TXN (file, n) d' (FullPageImage (file, n).1 (file, n).2 d') p) as Hap.
  destruct ((_ ← append _ _; _) p) as [p' [[]|e]]; [|by apply Hno]. destruct Hap as (lsn & Hlsn & Ep).
  destruct (stamped_same crc32 Hcrc d' lsn Hp' Hlsn) as (Hp'' & Eit & Eid). set (d'' := set_page_lsn crc32 d' lsn) in *.
  destruct (flip_dead_inv _ _ _ Ef) as [_ Hfl]. rewrite Hh in Eit, Eid. cbn [with_lsn with_items h_items h_id] in Eit, Eid.
  assert (Hit : forall k, item (heap_of d'') k = item (heap_of d) k \/ k ∈ slots /\ item (heap_of d) k = Some IDead /\ item (heap_of d'') k = Some IUnused).
  { intros k. unfold item. rewrite Eit. destruct (Hfl (N.to_nat k)) as [?|(Hin & ?)]; [by left|right]. by rewrite N2Nat.id in Hin. }
  assert (Hs : same_chains (heap_of d) (heap_of d'')) by (split; [done|]; intros k; destruct (Hit k) as [?|(_ & ?)]; [by left|by right]).
  split.
  - eapply (kept_put gone p p' n d d''); try done; [by apply (same_hot_ok _ _ Hs)|by rewrite page_id_heap, Eid, <- page_id_heap|].
    intros l Hlf Hln Hle Hlg. split.
    + apply (same_entry_slot _ _ Hs); [done|]. intros Hu. destruct (Hit l.(slot_num)) as [E'|(Hin & _)]; [|by apply Hlg, Hg].
      destruct Hle as [_ (it & E1 & E2)]. rewrite E', E1 in Hu. by injection Hu as ->.
    + intros v' snap cur _. destruct (same_resolve crc32 v d d'' v' snap cur l Hp Hp'' Hok Hs) as (o & E4 & E5); [by rewrite Hln|done|]. by exists o, o.
  - intros m (dm & Em & Him). unfold has_page. rewrite Ep. destruct (decide (m = n)) as [->|Hne].
    + exists d''. rewrite lookup_insert_eq. split; [done|by apply page_initialized].
    + exists dm. by rewrite lookup_insert_ne by congruence.
Qed.

Lemma reclaim_pages_kept cancel dead : Forall (fun l => l.(file_id) = file) dead -> forall ns turn p, pool_ok v file p -> Forall (has_page p) ns ->
  kept dead p (reclaim_pages crc32 cancel dead file turn ns p).1.
Proof using Hcrc HeapLogLaws0.
  intros Hf. induction ns as [|n ns IH]; intros turn p Hpool Hn; cbn [reclaim_pages]; [by apply kept_refl|]. apply Forall_cons in Hn as [Hn Hns].
  destruct (cancel_check cancel turn) as [[]|e]; [rewrite lift_bind_Ok|by apply kept_refl].
  pose proof (reclaim_page_kept dead (slot_num <$> filter (fun tid => tid.(page_num) = n) dead) n p Hpool Hn) as H.
  assert (Hg : forall l, l.(file_id) = file -> l.(page_num) = n -> l.(slot_num) ∈ slot_num <$> filter (fun tid => tid.(page_num) = n) dead -> l ∈ dead).
  { intros l Hlf Hln (tid & Es & [Ht Hin]%list_elem_of_filter)%list_elem_of_fmap. rewrite Forall_forall in Hf. specialize (Hf tid Hin).
    replace l with tid; [done|]. destruct l, tid. cbn in *. congruence. }
  specialize (H Hg). unfold mbind, se_bind. destruct (reclaim_page crc32 (file, n) _ p) as [p' [[]|e]]; destruct H as [Hk Hpg]; [|done].
  eapply kept_trans; [exact Hk|]. apply IH; [apply Hk|]. eapply Forall_impl; [exact Hns|]. done.
Qed.
End Keeping.

(** ** The indexes *)

(** An index some of whose dead entries were removed, all of them when [all]. *)
Definition swept (dead : list RowLocation) (all : bool) (i i' : Index) : Prop := forall xs : list Entry, holds crc32 i xs ->
  exists front back, xs = front ++ back /\ holds crc32 i' (alive dead front ++ back) /\ (all = true -> back = []).

Lemma swept_refl dead i : swept dead false i i.
Proof using. intros xs Hx. by exists [], xs. Qed.
Lemma sweep_runs dead cancel i : let '(i', r) := remove_values_in_cancelable crc32 VACUUM_TXN dead cancel i in swept dead (is_ok r) i i'.
Proof using Hcrc IndexEnvLaws0 KeyCodecLaws0.
  destruct (remove_values_in_cancelable crc32 VACUUM_TXN dead cancel i) as [i' r] eqn:E. intros xs (t & Hpg & <-).
  pose proof (remove_values_runs crc32 Hcrc VACUUM_TXN dead cancel i t Hpg) as H. unfold wp in H. rewrite E in H. destruct H as (t' & Hpg' & H). cbn [snd fst] in H. destruct r as [n|e].
  - destruct H as [Ec _]. exists (contents t), []. rewrite !app_nil_r. split_and!; [done|exists t'; by rewrite Ec|done].
  - destruct H as (_ & pre & post & E1 & E2). exists pre, post. split_and!; [done|by exists t'|done].
Qed.

Lemma swept_weaken dead b i i' : swept dead b i i' -> swept dead false i i'.
Proof using. intros H xs Hx. destruct (H xs Hx) as (front & back & ? & ? & _). by exists front, back. Qed.

Lemma secondaries_swept cancel dead il : forall turn, let '(il', r) := vacuum_secondaries crc32 cancel dead turn il in Forall2 (swept dead (is_ok r)) il il'.
Proof using Hcrc IndexEnvLaws0 KeyCodecLaws0.
  assert (Hrefl : forall js, Forall2 (swept dead false) js js) by (intros js; apply Forall_Forall2_diag, Forall_forall; intros; apply swept_refl).
  induction il as [|i il IH]; intros turn; cbn [vacuum_secondaries]; [constructor|]. destruct (cancel_check _ _) as [[]|e]; [|apply Hrefl].
  pose proof (sweep_runs dead (during cancel (4 + turn)) i) as Hs. destruct (remove_values_in_cancelable _ _ _ _ i) as [i' [n|e]]; cbn [is_ok] in Hs; [|by constructor].
  specialize (IH (S turn)). destruct (vacuum_secondaries _ _ _ _ il) as [il' r]. constructor; [|done]. destruct r; [done|by eapply swept_weaken].
Qed.

(** A reader's answers from an index and the swept one are the same. *)
Lemma swept_entries file p dead b i i' xs : entries_ok file p i xs -> swept dead b i i' ->
  exists front back, xs = front ++ back /\ entries_ok file p i' (alive dead front ++ back) /\ (b = true -> back = []).
Proof using.
  intros [Hh Hn] Hs. destruct (Hs xs Hh) as (front & back & -> & Hh' & Hb). exists front, back. split_and!; [done| |done]. split; [done|].
  apply Forall_app in Hn as [Hn1 Hn2]. apply Forall_app. split; [|done]. apply Forall_forall. intros z [_ Hz]%list_elem_of_filter. by eapply Forall_forall in Hn1.
Qed.
Lemma swept_same v' snap cur p dead key (front back : list Entry) : (forall l, l ∈ dead -> seen v' snap cur p l = None) ->
  omap (seen v' snap cur p) (matching key (alive dead front ++ back)) = omap (seen v' snap cur p) (matching key (front ++ back)).
Proof using. intros Hd. rewrite !matching_app, !omap_app. by rewrite omap_matching_alive. Qed.

(** ** The phases of a table *)

(** The readers' view: what each index answers for each key. *)
Definition agree v horizon (t t' : Table) : Prop := table_ok v t' /\ t'.(t_file) = t.(t_file) /\ length (t_indexes t') = length (t_indexes t) /\
  forall n i i' key v' snap cur, t_indexes t !! n = Some i -> t_indexes t' !! n = Some i' -> live_reader v v' horizon snap cur ->
    exists o o', locate_visible_version crc32 t i key v' snap cur = Ok o /\ locate_visible_version (K:=K) crc32 t' i' key v' snap cur = Ok o' /\ fst <$> o' = fst <$> o.

Lemma agree_trans v horizon t1 t2 t3 : agree v horizon t1 t2 -> agree v horizon t2 t3 -> agree v horizon t1 t3.
Proof using.
  intros (H1 & H2 & H3 & H4) (H5 & H6 & H7 & H8). split_and!; [done|congruence|congruence|]. intros n i i' key v' snap cur Hi Hi' Hl.
  destruct (lookup_lt_is_Some_2 (t_indexes t2) n) as [i2 Hi2]; [rewrite H3; by eapply lookup_lt_Some|].
  destruct (H4 n i i2 key v' snap cur Hi Hi2 Hl) as (o & o2 & E1 & E2 & E3). destruct (H8 n i2 i' key v' snap cur Hi2 Hi' Hl) as (o2' & o' & E4 & E5 & E6).
  exists o, o'. split_and!; [done|done|]. congruence.
Qed.

Lemma omap_same {A B} (f g : A -> option B) (xs : list A) : Forall (fun x => f x = g x) xs -> omap f xs = omap g xs.
Proof using. induction 1 as [|x xs E _ IH]; [done|]. cbn [omap list_omap]. by rewrite E, IH. Qed.

(** The pages change and the indexes do not, or name nothing that is gone. *)
Lemma kept_agree v horizon gone (t t' : Table) : table_ok v t -> t_indexes t' = t_indexes t -> t'.(t_file) = t.(t_file) ->
  kept v horizon t.(t_file) gone t.(t_pool) t'.(t_pool) ->
  Forall (fun i => exists xs, entries_ok t.(t_file) t.(t_pool) i xs /\ Forall (fun z : Entry => loc z.2 ∉ gone) xs) (t_indexes t) -> agree v horizon t t'.
Proof using IndexEnvLaws0 KeyCodecLaws0.
  intros [Hpool _] Ei Ef [Hk1 Hk2 Hk3] Hgone.
  assert (Hent : forall i xs, entries_ok t.(t_file) t.(t_pool) i xs -> Forall (fun z : Entry => loc z.2 ∉ gone) xs -> entries_ok t'.(t_file) t'.(t_pool) i xs).
  { intros i xs [Hh Hn] Hg. rewrite Ef. split; [done|]. rewrite Forall_forall in Hn, Hg |- *. intros z Hz. apply Hk2; [by apply Hn|by apply Hg]. }
  split_and!; [split; [by rewrite Ef|]|done|by rewrite Ei|].
  - rewrite Ei. eapply Forall_impl; [exact Hgone|]. intros i (xs & Hx & Hg). eauto.
  - intros n i i' key v' snap cur Hi Hi' Hl. rewrite Ei, Hi in Hi'. injection Hi' as <-. eapply Forall_lookup_1 in Hgone as (xs & Hx & Hg); [|exact Hi].
    destruct (located v' snap cur v t i xs key Hpool Hx) as (o & E1 & E2).
    destruct (located v' snap cur v t' i xs key) as (o' & E3 & E4); [by rewrite Ef|by apply Hent|]. exists o, o'. split_and!; [done|done|]. rewrite E2, E4. f_equal.
    apply omap_same, Forall_forall. unfold matching. intros l (z & -> & [_ Hz]%list_elem_of_filter)%list_elem_of_fmap. destruct Hx as [_ Hn].
    rewrite Forall_forall in Hn, Hg. apply Hk3; [by apply Hn|by apply Hg|done].
Qed.

(** The indexes are swept of locations that are dead. *)
Lemma swept_agree v horizon dead b (t t' : Table) : table_ok v t -> t'.(t_pool) = t.(t_pool) -> t'.(t_file) = t.(t_file) ->
  Forall (dead_at t.(t_file) t.(t_pool)) dead -> Forall2 (swept dead b) (t_indexes t) (t_indexes t') -> agree v horizon t t'.
Proof using IndexEnvLaws0 KeyCodecLaws0.
  intros [Hpool Hix] Ep Ef Hd Hs. split_and!; [split; [by rewrite Ef, Ep|]|done|symmetry; by eapply Forall2_length|].
  - apply Forall_forall. intros i' Hi'. apply list_elem_of_lookup in Hi' as [n Hn]. destruct (Forall2_lookup_r _ _ _ _ _ Hs Hn) as (i & Hi & Hsw).
    eapply Forall_lookup_1 in Hix as (xs & Hx); [|exact Hi]. destruct (swept_entries _ _ _ _ _ _ _ Hx Hsw) as (f & bk & _ & He & _). rewrite Ef, Ep. eauto.
  - intros n i i' key v' snap cur Hi Hi' Hl. eapply Forall_lookup_1 in Hix as (xs & Hx); [|exact Hi].
    pose proof (Forall2_lookup_lr _ _ _ _ _ _ Hs Hi Hi') as Hsw. destruct (swept_entries _ _ _ _ _ _ _ Hx Hsw) as (f & bk & -> & He & _).
    destruct (located v' snap cur v t i (f ++ bk) key Hpool Hx) as (o & E1 & E2).
    destruct (located v' snap cur v t' i' (alive dead f ++ bk) key) as (o' & E3 & E4); [by rewrite Ef, Ep|by rewrite Ef, Ep|].
    exists o, o'. split_and!; [done|done|]. rewrite E2, E4, Ep, swept_same; [done|]. intros l Hin. rewrite Forall_forall in Hd. by eapply dead_unresolved; [exact Hpool|apply Hd].
Qed.

(** *** Heap phase *)

Definition with_pool (t : Table) p : Table := mkTable p t.(t_file) t.(t_page_count) t.(t_abandoned) t.(t_primary) t.(t_secondary).

Lemma vacuumed_trans v horizon file p1 p2 p3 dead n r : page_vacuumed v horizon file p1 p2 (Ok (dead, n)) -> page_vacuumed v horizon file p2 p3 r ->
  page_vacuumed v horizon file p1 p3 ('(dead', n') ← r; Ok (dead ++ dead', n + n')).
Proof using.
  intros (Hk & Hd & Hr) (Hk' & Hd' & Hr'). split_and!; [by eapply kept_trans|auto|]. destruct r as [[dead' n']|]; [|done].
  apply Forall_app. split; [|done]. eapply Forall_impl; [exact Hr|]. auto.
Qed.
Lemma vacuumed_stopped v horizon file p1 p2 e : page_vacuumed v horizon file p1 p2 (Err e) -> forall r, (exists e', r = Err e') -> page_vacuumed v horizon file p1 p2 r.
Proof using. intros (Hk & Hd & _) r [e' ->]. by split_and!. Qed.

Lemma vacuum_pages_kept v schema horizon cancel ns : forall turn (t : Table), pool_ok v t.(t_file) t.(t_pool) ->
  let '(t', r) := vacuum_pages (D:=D) crc32 v schema horizon cancel turn ns t in
  exists p', t' = with_pool t p' /\ page_vacuumed v horizon t.(t_file) t.(t_pool) p' r.
Proof using Hcrc HeapLogLaws0 TxnStatusViewOk0.
  induction ns as [|n ns IH]; intros turn t Hpool; cbn [vacuum_pages].
  { exists t.(t_pool). split; [by destruct t|]. by apply page_untouched. }
  destruct (cancel_check cancel turn) as [[]|e]; [rewrite lift_bind_Ok|].
  2:{ exists t.(t_pool). split; [by destruct t|]. by apply page_untouched. }
  unfold mbind at 1, se_bind at 1, gets at 1. cbn [id].
  set (m := if contains _ _ then _ else _). assert (Hm : let '(t1, r) := m t in exists p1, t1 = with_pool t p1 /\ page_vacuumed v horizon t.(t_file) t.(t_pool) p1 r).
  { subst m. destruct (contains _ _); [exists t.(t_pool); split; [by destruct t|by apply page_untouched]|]. unfold on_pool.
    pose proof (vacuum_page_kept v horizon t.(t_file) schema n t.(t_pool) Hpool) as H. destruct (vacuum_page _ _ _ _ _ _ _) as [p1 r]. by exists p1. }
  unfold mbind at 1, se_bind at 1. destruct (m t) as [t1 [[dead k]|e]]; destruct Hm as (p1 & -> & H1); [|by exists p1].
  specialize (IH (S turn) (with_pool t p1)). cbn [t_file t_pool with_pool] in IH. specialize (IH (kp_ok _ _ _ _ _ _ (proj1 H1))).
  unfold mbind, se_bind. destruct (vacuum_pages _ _ _ _ _ _ _ _) as [t2 r]. destruct IH as (p2 & -> & H2).
  pose proof (vacuumed_trans _ _ _ _ _ _ _ _ _ H1 H2) as H. destruct r as [[dead' k']|e]; by exists p2.
Qed.

(** *** Index phase *)

Lemma alive_nil (xs : list Entry) : alive [] xs = xs.
Proof using.
  unfold alive. induction xs as [|z xs IH]; [done|]. rewrite filter_cons_True; [by rewrite IH|]. unfold dead_entry. apply not_elem_of_nil.
Qed.
Lemma swept_nil b i : swept [] b i i.
Proof using. intros xs Hx. exists xs, []. by rewrite alive_nil, app_nil_r. Qed.

Lemma vacuum_indexes_swept cancel dead (t : Table) : let '(t', r) := vacuum_indexes_cancelable crc32 cancel dead t in
  t'.(t_pool) = t.(t_pool) /\ t'.(t_file) = t.(t_file) /\ Forall2 (swept dead (is_ok r)) (t_indexes t) (t_indexes t').
Proof using Hcrc IndexEnvLaws0 KeyCodecLaws0.
  unfold vacuum_indexes_cancelable. case_bool_decide as Hd; [subst dead; split_and!; [done|done|]; apply Forall_Forall2_diag, Forall_forall; intros; apply swept_nil|].
  unfold mbind, se_bind, on_primary. pose proof (sweep_runs dead (during cancel 1) t.(t_primary)) as Hs.
  destruct (remove_values_in_cancelable _ _ _ _ _) as [i' [k|e]]; cbn [is_ok] in Hs.
  - unfold on_secondaries. pose proof (secondaries_swept cancel dead t.(t_secondary) 0) as Hss. cbn [t_secondary].
    destruct (vacuum_secondaries _ _ _ _ _) as [il' r]. split_and!; [done|done|]. constructor; [|done]. destruct r; [done|by eapply swept_weaken].
  - split_and!; [done|done|]. constructor; [done|]. apply Forall_Forall2_diag, Forall_forall. intros. apply swept_refl.
Qed.

Lemma swept_unnamed file p dead (il il' : list Index) : Forall (fun i => exists xs, entries_ok file p i xs) il -> Forall2 (swept dead true) il il' ->
  Forall (fun i => exists xs, entries_ok file p i xs /\ Forall (fun z : Entry => loc z.2 ∉ dead) xs) il'.
Proof using.
  intros Hix Hs. apply Forall_forall. intros i' Hi'. apply list_elem_of_lookup in Hi' as [n Hn]. destruct (Forall2_lookup_r _ _ _ _ _ Hs Hn) as (i & Hi & Hsw).
  eapply Forall_lookup_1 in Hix as (xs & Hx); [|exact Hi]. destruct (swept_entries _ _ _ _ _ _ _ Hx Hsw) as (f & bk & _ & He & Hb). rewrite (Hb eq_refl), app_nil_r in He.
  exists (alive dead f). split; [done|]. apply Forall_forall. by intros z [Hz _]%list_elem_of_filter.
Qed.

(** *** Reclaiming the line pointers *)

Lemma reclaim_agree v horizon cancel dead (t : Table) : table_ok v t -> Forall (dead_at t.(t_file) t.(t_pool)) dead ->
  Forall (fun i => exists xs, entries_ok t.(t_file) t.(t_pool) i xs /\ Forall (fun z : Entry => loc z.2 ∉ dead) xs) (t_indexes t) ->
  agree v horizon t (reclaim_line_pointers_cancelable crc32 cancel dead t).1.
Proof using Hcrc HeapLogLaws0 IndexEnvLaws0 KeyCodecLaws0.
  intros Ht Hd Hn. unfold reclaim_line_pointers_cancelable.
  assert (Hsame : agree v horizon t t) by (apply (kept_agree v horizon dead); [done|done|done|apply kept_refl, Ht|done]).
  case_bool_decide; [done|]. unfold mbind, se_bind, gets. destruct (forallb _ dead) eqn:Ef; [|done]. unfold on_pool.
  assert (Hf : Forall (fun l => l.(file_id) = t.(t_file)) dead).
  { eapply Forall_impl; [exact Hd|]. by intros l [? _]. }
  pose proof (reclaim_pages_kept v horizon t.(t_file) (during cancel 3) dead Hf (merge_sort N.le (remove_dups (page_num <$> dead))) 0 t.(t_pool) (proj1 Ht)) as Hk.
  destruct (reclaim_pages _ _ _ _ _ _ _) as [p' r]. apply (kept_agree v horizon dead); [done|done|done| |done]. apply Hk.
  rewrite (merge_sort_Permutation N.le). apply Forall_forall. intros n. rewrite elem_of_remove_dups. intros (l & -> & Hl)%list_elem_of_fmap.
  rewrite Forall_forall in Hd. destruct (Hd l Hl) as (_ & d & Ed & Hi & _). by exists d.
Qed.

(** *** The whole run *)

(** C13: VACUUM of a table changes no answer.  Whatever the run does - it may end, fail in the
    log, be cancelled between pages, entries or indexes, and leave a part of its work done -
    the table is well formed afterwards (page format, version chains, B-link trees, and index
    entries that name chain roots and never a reusable slot), and every reader whose snapshot
    the horizon respects gets, for every key of every index, the version it got before, where
    the other transactions may have finished meanwhile.  Index entries are removed before
    their slots become reusable, also when the dead slots of an earlier, interrupted run are
    taken up again. *)
Theorem vacuum_keeps_answers v schema horizon cancel (t : Table) : table_ok v t ->
  let '(t', _) := vacuum_relation (D:=D) crc32 v schema horizon cancel t in agree v horizon t t'.
Proof using Hcrc HeapLogLaws0 IndexEnvLaws0 KeyCodecLaws0 TxnStatusViewOk0.
  intros Ht. unfold vacuum_relation, vacuum_heap_cancelable. unfold mbind at 1, se_bind at 1, mbind at 1, se_bind at 1, gets at 1.
  pose proof (vacuum_pages_kept v schema horizon (during cancel 0) (range t.(t_page_count)) 0 t (proj1 Ht)) as H1.
  destruct (vacuum_pages _ _ _ _ _ _ _ _) as [t1 r1]. destruct H1 as (p1 & -> & Hk & _ & Hdead).
  assert (H1 : agree v horizon t (with_pool t p1)).
  { apply (kept_agree v horizon []); [done|done|done|done|]. eapply Forall_impl; [exact (proj2 Ht)|]. intros i (xs & Hx). exists xs. split; [done|].
    apply Forall_forall. intros z _. apply not_elem_of_nil. }
  destruct r1 as [[dead freed]|e]; [|done]. case_bool_decide; [done|].
  assert (Hd : Forall (dead_at (t_file (with_pool t p1)) (t_pool (with_pool t p1))) (remove_dups dead)).
  { rewrite Forall_forall in Hdead |- *. intros l. rewrite elem_of_remove_dups. apply Hdead. }
  generalize dependent (remove_dups dead). intros ds Hd. pose proof (vacuum_indexes_swept cancel ds (with_pool t p1)) as H2.
  unfold mbind, se_bind. destruct (vacuum_indexes_cancelable crc32 cancel ds (with_pool t p1)) as [t2 r2]. destruct H2 as (Ep & Ef & Hs).
  assert (H2 : agree v horizon t t2) by (eapply agree_trans; [exact H1|]; eapply swept_agree; [apply H1|done|done|exact Hd|exact Hs]).
  destruct r2 as [[]|e]; [|done]. pose proof (reclaim_agree v horizon cancel ds t2 (proj1 H2)) as H3. rewrite Ep, Ef in H3.
  specialize (H3 Hd (swept_unnamed _ _ _ _ _ (proj2 (proj1 H1)) Hs)).
  destruct (reclaim_line_pointers_cancelable crc32 cancel ds t2) as [t3 [[]|e]]; by eapply agree_trans.
Qed.
End Safety.
