(* ===== verification/VacuumDemo.v ===== *)
(** * Concrete heap pages

    A decision procedure for the chain invariant of [HotPrune], a page with a HOT chain and a
    dead row on which pruning and VACUUM run, and the histories the page operations of
    [HeapFile] admit that the collection of garbage does not expect. *)

From S2P Require Import Prelude Errors Mvcc Clog CheckedBytes ByteArray TupleHeader Page IndexPage KeyOrder Value RowFormat BTree BLink BTreeRead BTreeInsert BTreeSpec Index HotChain HotPrune HeapFile Vacuum.
Local Open Scope N_scope.

(** ** Deciding the chain invariant *)

Section Check.
Context {V : Type} `{!TxnStatusView V}.
Implicit Types (v : V) (h : Heap).

Definition implb_dec (b : bool) (P : Prop) `{!Decision P} : bool := negb b || bool_decide P.
Lemma implb_dec_sound b (P : Prop) `{!Decision P} : implb_dec b P = true -> b = true -> P.
Proof using. intros H ->. by apply bool_decide_eq_true in H. Qed.

Definition soundb v hd : bool :=
  implb_dec (hint hd.(h_infomask) XMIN_COMMITTED) (status v hd.(h_xmin) = Committed)
  && implb_dec (hint hd.(h_infomask) XMIN_ABORTED) (status v hd.(h_xmin) = Aborted)
  && implb_dec (hint hd.(h_infomask) XMAX_COMMITTED) (status v hd.(h_xmax) = Committed)
  && implb_dec (hint hd.(h_infomask) XMAX_ABORTED) (status v hd.(h_xmax) = Aborted).

Definition heap_only_at h (i : N) : bool := match hdr h i with Some hd => heap_only hd | None => false end.
Definition linkb v h hd (j : N) : bool :=
  match hdr h j with
  | Some hd' => (hd.(h_xmax) =? hd'.(h_xmin)) && implb_dec (bool_decide (status v hd.(h_xmin) = Aborted)) (status v hd'.(h_xmin) = Aborted)
  | None => true
  end.
Definition slot_okb v h (i : N) : bool :=
  match item h i with
  | Some (INormal _) =>
      match hdr h i with
      | Some hd => soundb v hd && (negb (hot hd && (hd.(h_t_ctid).1 =? h.(h_id))) || heap_only_at h hd.(h_t_ctid).2)
                   && match next h i with Some j => linkb v h hd j | None => true end
      | None => false
      end
  | Some (IRedirect t) => heap_only_at h t
  | _ => true
  end.
Definition owned h (i : N) : option N := match next h i with Some j => Some j | None => redir h i end.
Definition owners_differ h (i j : N) : bool := (i =? j) || match owned h i with Some k => negb (bool_decide (owned h j = Some k)) | None => true end.
Definition slots_of h : list N := range (len h.(h_items)).
Definition hot_okb v h : bool := forallb (slot_okb v h) (slots_of h) && forallb (fun i => forallb (owners_differ h i) (slots_of h)) (slots_of h).

Lemma slot_in h i : is_Some (item h i) -> i ∈ slots_of h.
Proof using. intros H. apply elem_of_range. unfold item in H. apply lookup_lt_is_Some_1 in H. unfold len. lia. Qed.
Lemma owns_owned h i k : owns h i k -> owned h i = Some k /\ i ∈ slots_of h.
Proof using.
  unfold owned. intros [Hn|Hr].
  - rewrite Hn. split; [done|]. apply slot_in. apply next_inv in Hn as (hd & _ & Hd & _). apply hdr_item in Hd as (row & E & _). by exists (INormal row).
  - assert (next h i = None) as -> by (unfold next; by rewrite (redir_not_hdr _ _ _ Hr)). split; [done|]. apply slot_in. apply redir_item in Hr. by exists (IRedirect k).
Qed.
Lemma heap_only_at_hdr h i : heap_only_at h i = true -> exists hd, hdr h i = Some hd /\ heap_only hd = true.
Proof using. unfold heap_only_at. destruct (hdr h i) as [hd|]; [by exists hd|done]. Qed.

Lemma slot_okb_hdr v h i hd : slot_okb v h i = true -> hdr h i = Some hd -> soundb v hd = true /\
  (hot hd = true -> hd.(h_t_ctid).1 = h.(h_id) -> heap_only_at h hd.(h_t_ctid).2 = true) /\
  forall j, next h i = Some j -> linkb v h hd j = true.
Proof using.
  intros H Hd. destruct (hdr_item _ _ _ Hd) as (row & E & _). unfold slot_okb in H. rewrite E, Hd in H.
  apply andb_true_iff in H as [[H1 H2]%andb_true_iff H3]. split_and!; [done| |].
  - intros Hh Ht. rewrite Hh, Ht, N.eqb_refl in H2. done.
  - intros j Hj. by rewrite Hj in H3.
Qed.
Lemma soundb_sound v hd : soundb v hd = true -> sound v hd.
Proof using. unfold soundb. rewrite !andb_true_iff. intros [[[H1 H2] H3] H4]. split; intros Hx; (eapply implb_dec_sound; [|exact Hx]); eassumption. Qed.

Lemma hot_okb_sound v h : hot_okb v h = true -> hot_ok v h.
Proof using.
  unfold hot_okb. rewrite andb_true_iff, !forallb_forall. intros [Hs Ho].
  assert (Hslot : forall i, is_Some (item h i) -> slot_okb v h i = true) by (intros i Hi; by apply Hs, list_elem_of_In, slot_in).
  assert (Hhdr : forall i hd, hdr h i = Some hd -> slot_okb v h i = true).
  { intros i hd Hd. apply Hslot. destruct (hdr_item _ _ _ Hd) as (row & -> & _). done. }
  assert (Hlink : forall i j hd hd', next h i = Some j -> hdr h i = Some hd -> hdr h j = Some hd' ->
    hd.(h_xmax) = hd'.(h_xmin) /\ (status v hd.(h_xmin) = Aborted -> status v hd'.(h_xmin) = Aborted)).
  { intros i j hd hd' Hn Hd Hd'. destruct (slot_okb_hdr v h i hd (Hhdr _ _ Hd) Hd) as (_ & _ & H). specialize (H j Hn). unfold linkb in H. rewrite Hd' in H.
    apply andb_true_iff in H as [H1%N.eqb_eq H2]. split; [done|]. intros Ha. eapply implb_dec_sound; [exact H2|]. by apply bool_decide_eq_true. }
  split.
  - intros i row E. pose proof (Hslot i) as H. rewrite E in H. unfold slot_okb in H. rewrite E in H. destruct (hdr h i); [done|]. by specialize (H (mk_is_Some _ _ eq_refl)).
  - intros i t Hr. pose proof (proj1 (redir_item _ _ _) Hr) as E. pose proof (Hslot i) as H. unfold slot_okb in H. rewrite E in H. by apply heap_only_at_hdr, H.
  - intros i hd Hd Hh Ht. destruct (slot_okb_hdr v h i hd (Hhdr _ _ Hd) Hd) as (_ & H & _). by apply heap_only_at_hdr, H.
  - intros i j k Hi Hj. destruct (owns_owned _ _ _ Hi) as [Ei Li]. destruct (owns_owned _ _ _ Hj) as [Ej Lj].
    specialize (Ho i (proj1 (list_elem_of_In _ _) Li)). rewrite forallb_forall in Ho. specialize (Ho j (proj1 (list_elem_of_In _ _) Lj)).
    unfold owners_differ in Ho. rewrite Ei, bool_decide_eq_true_2 in Ho by done. rewrite orb_false_r in Ho. by apply N.eqb_eq.
  - intros i j hd hd' Hn Hd Hd'. by apply (Hlink i j).
  - intros i j hd hd' Hn Hd Hd'. by apply (Hlink i j).
  - intros i hd Hd. apply soundb_sound. by apply (slot_okb_hdr v h i hd (Hhdr _ _ Hd) Hd).
Qed.

(** A slot that may be named, decided. *)
Definition entry_slotb h (r : N) : bool :=
  forallb (fun i => negb (bool_decide (owned h i = Some r))) (slots_of h) && match item h r with Some it => negb (is_unused it) | None => false end.
Lemma entry_slotb_sound h r : entry_slotb h r = true -> entry_slot h r.
Proof using.
  unfold entry_slotb. rewrite andb_true_iff, forallb_forall. intros [H1 H2]. split.
  - intros i Hi. destruct (owns_owned _ _ _ Hi) as [E L]. specialize (H1 i (proj1 (list_elem_of_In _ _) L)). by rewrite bool_decide_eq_true_2 in H1.
  - destruct (item h r) as [it|]; [|done]. exists it. split; [done|]. by destruct (is_unused it).
Qed.
End Check.

(** ** A page and a table *)

(** A checksum that costs nothing. *)
Definition first_byte (b : bytes) : N := default 0 (head b) mod 256.
Lemma first_byte_fits : crc_fits first_byte.
Proof. intros b. unfold first_byte. pose proof (N.mod_lt (default 0 (head b)) 256). unfold U32_MAX. lia. Qed.

Abbreviation DemoDec := (Z * N)%type.
Definition plain_schema : TableSchema := mkSchema "t" [mkColumn "id" TInteger false] None.
Definition demo_tuple (n : Z) (creator : TxnId) (infomask : N) : bytes :=
  match encode_row_with_infomask plain_schema [Integer n : Value DemoDec] creator infomask with Ok b => b | Err _ => [] end.

(** Transactions 5, 6 and 12 committed, 13 aborted, 14 runs. *)
Definition demo_clog : Clog :=
  set_in_progress (set_aborted (set_committed (set_committed (set_committed Clog_new 5) 6) 12) 13) 14.

(** Slot 0 was updated in place by slot 1; the row of slot 2 was deleted by 6. *)
Definition demo_ops : list PageOp :=
  [OpInsert (demo_tuple 1 5 0); OpInsert (demo_tuple 2 12 HEAP_ONLY); OpInsert (demo_tuple 3 5 0);
   OpSetHeader 0 12 (1, 1) HOT_UPDATED 3; OpSetHeader 2 6 INVALID_TID 0 4].
Definition demo_page : bytes := (run_ops first_byte demo_ops (init_page first_byte 1)).1.
Definition demo_heap : Heap := match spec_ops demo_ops (fresh 1) with Some (h, _) => h | None => fresh 1 end.

Lemma demo_page_ok : page_ok first_byte demo_page /\ heap_of demo_page = demo_heap.
Proof.
  destruct (init_ok first_byte first_byte_fits 1 ltac:(done)) as [Hp Hh].
  assert (Hops : Forall op_ok demo_ops).
  { unfold demo_ops. repeat (apply Forall_cons_2; [first [split; [vm_compute; by repeat constructor|vm_compute; discriminate]|vm_compute; repeat split; discriminate]|]).
    apply Forall_nil_2. }
  pose proof (run_ops_ok first_byte first_byte_fits demo_ops _ Hp Hops) as H. rewrite Hh in H. unfold demo_page, demo_heap.
  destruct (spec_ops demo_ops (fresh 1)) as [[h l]|] eqn:E; [destruct H as (d & -> & H1 & H2); by split|vm_compute in E; discriminate].
Qed.
Lemma demo_page_hot : hot_ok demo_clog (heap_of demo_page).
Proof. apply hot_okb_sound. rewrite (proj2 demo_page_ok). vm_compute. reflexivity. Qed.

Lemma prune_is_invisible_witness :
  classify_page_for_prune (D:=DemoDec) first_byte demo_clog plain_schema demo_page 13 true = Ok (mkPlan [(0, 1)] [2] [] []) /\
  exists d, prune_image first_byte (mkPlan [(0, 1)] [2] [] []) demo_page = (d, Ok ()) /\ page_ok first_byte d /\ hot_ok demo_clog (heap_of d).
Proof.
  assert (E : classify_page_for_prune (D:=DemoDec) first_byte demo_clog plain_schema demo_page 13 true = Ok (mkPlan [(0, 1)] [2] [] [])) by (vm_compute; reflexivity).
  split; [exact E|]. pose proof (prune_is_invisible first_byte first_byte_fits (D:=DemoDec) demo_clog plain_schema demo_page 13 true (proj1 demo_page_ok) demo_page_hot) as H.
  rewrite E in H. destruct H as (d & H1 & H2 & H3 & _). exists d. auto.
Defined.

(** A log that numbers its records. *)
Global Instance counting_log : HeapLog N := fun _ _ n => if n <? U64_MAX then (n + 1, Ok (n + 1)) else (n, Err (storage_internal "log is full")).
Global Instance counting_log_laws : HeapLogLaws N.
Proof.
  intros txn r l l' lsn E. unfold append_positioned, counting_log in E. destruct (N.ltb_spec l U64_MAX); [|done]. injection E as <- <-. lia.
Qed.

(** An index with one entry, which names slot 2, and an empty one. *)
Definition empty_index : @Index N := (create first_byte 5 demo_file).1.
Definition one_entry_index : @Index N := (insert_with_mode first_byte Unlogged (text_key 3 97) (here 1) empty_index).1.
Lemma empty_index_holds : holds first_byte empty_index ([] : list (list DemoValue * bytes)).
Proof. apply (holds_create first_byte first_byte_fits); [apply demo_file_held|reflexivity|vm_compute; reflexivity]. Qed.
Lemma one_entry_index_holds : holds first_byte one_entry_index demo_entries.
Proof.
  apply (holds_insert first_byte first_byte_fits Unlogged (text_key 3 97) (here 1) empty_index []);
    [apply empty_index_holds|by apply text_key_ok|constructor|vm_compute; reflexivity].
Qed.

(** The page in a table: an index names the deleted row, another is empty. *)
Definition demo_table : @Table N N := mkTable (mkPool {[ (1, 1) := demo_page ]} ∅ 7) 1 2 [0] one_entry_index [empty_index].

Lemma demo_pool_ok : pool_ok first_byte demo_clog 1 demo_table.(t_pool).
Proof.
  intros n d Hd _. cbn [demo_table t_pool pages] in Hd. apply lookup_singleton_Some in Hd as [[= <-] <-].
  split_and!; [apply demo_page_ok|apply demo_page_hot|]. rewrite page_id_heap, (proj2 demo_page_ok). vm_compute. reflexivity.
Qed.
Lemma demo_table_ok : table_ok (K:=DemoValue) first_byte demo_clog demo_table.
Proof.
  split; [apply demo_pool_ok|]. apply Forall_cons_2; [|apply Forall_cons_2; [|apply Forall_nil_2]].
  - exists demo_entries. split; [apply one_entry_index_holds|]. apply Forall_cons_2; [|apply Forall_nil_2]. split; [vm_compute; reflexivity|]. exists demo_page.
    split_and!; [vm_compute; reflexivity|vm_compute; reflexivity|]. apply entry_slotb_sound. rewrite (proj2 demo_page_ok). vm_compute. reflexivity.
  - exists []. split; [apply empty_index_holds|apply Forall_nil_2].
Qed.

Definition demo_vacuum : @Table N N * result Halt N := vacuum_relation (D:=DemoDec) first_byte demo_clog plain_schema 13 None demo_table.

Lemma vacuum_keeps_answers_witness : demo_vacuum.2 = Ok 1 /\ agree (K:=DemoValue) first_byte demo_clog 13 demo_table demo_vacuum.1.
Proof.
  split; [vm_compute; reflexivity|].
  pose proof (vacuum_keeps_answers first_byte first_byte_fits (D:=DemoDec) (K:=DemoValue) demo_clog plain_schema 13 None demo_table demo_table_ok) as H.
  unfold demo_vacuum. destruct (vacuum_relation _ _ _ _ _ demo_table) as [t r]. exact H.
Defined.
(** The run did its work: the entry is gone, its slot is reusable, the root leads to slot 1. *)
Example demo_vacuum_works : scan_key demo_vacuum.1.(t_primary).(ipages) (text_key 3 97) = Ok [] /\
  (d ← demo_vacuum.1.(t_pool).(pages) !! (1, 1); Some (slot_state first_byte d 0, slot_state first_byte d 1, slot_state first_byte d 2))
    = Some (Ok (LpRedirect 1), Ok LpNormal, Ok LpUnused).
Proof. vm_compute. done. Qed.

(** ** Histories of one page *)

Abbreviation DemoPool := (@Pool N).
Definition demo_pool : DemoPool := mkPool {[ (1, 1) := init_page first_byte 1 ]} ∅ 7.
Definition demo_root : RowLocation := mkRowLocation 1 1 0.

(** A row is inserted, is deleted, is updated in place: the writes of each on its page. *)
Definition do_insert (txn : TxnId) (n : Z) : SE DemoPool Halt N := log_insert first_byte txn (1, 1) (demo_tuple n txn 0).
Definition infomask_of (slot : N) : SE DemoPool Halt N :=
  d ← page_of (1, 1); '(_, _, _, infomask) ← lift (live_header first_byte d slot "update chain member is not a live tuple"); mret infomask.
Definition do_delete (v : Clog) (txn : TxnId) (slot : N) : SE DemoPool Halt StampOutcome :=
  infomask ← infomask_of slot;
  stamp_xmax_logged first_byte v (mkRowLocation 1 1 slot) INVALID_TID infomask txn [txn].
Definition do_hot_update (v : Clog) (txn : TxnId) (slot : N) (n : Z) : SE DemoPool Halt StampOutcome :=
  infomask ← infomask_of slot;
  new_location ← try_hot_insert_on_page (D:=DemoDec) first_byte v plain_schema (1, 1) (demo_tuple n txn HEAP_ONLY) txn None;
  match new_location with
  | Some l => stamp_xmax_logged first_byte v (mkRowLocation 1 1 slot) (l.(page_num), l.(slot_num)) (N.lor infomask HOT_UPDATED) txn [txn]
  | None => lift (Err (Failed (storage_internal "no room")))
  end.

(** Statuses before the writes of 12 and of 13, and at the end. *)
Definition clog_at_12 : Clog := set_in_progress (set_committed Clog_new 5) 12.
Definition clog_at_13 : Clog := set_in_progress (set_committed (set_committed Clog_new 5) 12) 13.

(** 5 inserts a row, 12 updates it in place and commits, 13 deletes the new version and aborts. *)
Definition deleted_tail : DemoPool * result Halt StampOutcome :=
  (_ ← do_insert 5 1; _ ← do_hot_update clog_at_12 12 0 2; do_delete clog_at_13 13 1) demo_pool.
(** 5 inserts a row, 12 updates it in place and aborts, 13 deletes it or updates it in place again. *)
Definition clog_12_aborted : Clog := set_in_progress (set_aborted (set_committed Clog_new 5) 12) 13.
Definition deleted_after_abort : DemoPool * result Halt StampOutcome :=
  (_ ← do_insert 5 1; _ ← do_hot_update clog_at_12 12 0 2; do_delete clog_12_aborted 13 0) demo_pool.
Definition updated_after_abort : DemoPool * result Halt StampOutcome :=
  (_ ← do_insert 5 1; _ ← do_hot_update clog_at_12 12 0 2; do_hot_update clog_12_aborted 13 0 3) demo_pool.

Definition demo_at (p : DemoPool) : bytes := default [] (p.(pages) !! (1, 1)).


