(* ===== verification/Toast.v ===== *)
(** * Out-of-line values (src/crates/storage/src/toast.rs, src/crates/storage/src/engine/dml.rs,
    src/crates/storage/src/engine/visibility.rs, src/crates/storage/src/engine/mod.rs)

    A row that is too long for its table's target has its text, bytea and array columns
    compressed in place or moved to the chunks of a hidden relation, longest first.  The
    hidden relation is a table of the engine: [ChunkStore] is what it is called with.
    Shown: a row that was stored is read back, whatever was done to its columns, and the
    values other rows keep out of line are read as before; the length the planner computes
    is the length of the row it stores. *)

From stdpp Require Import sorting.
From S2P Require Import Prelude Errors Mvcc CheckedBytes ByteArray TupleHeader Page Compress KeyOrder Value RowCodec RowFormat BTree Index HotChain.
Local Open Scope N_scope.

(** ** Options and relations *)

Inductive ToastMode : Set := ModeOff | ModeAuto | ModeAggressive.
Inductive ToastCompression : Set := TcNone | TcZstd | TcZstdDict.
Global Instance ToastMode_eq_dec : EqDecision ToastMode.
Proof. solve_decision. Defined.
Global Instance ToastCompression_eq_dec : EqDecision ToastCompression.
Proof. solve_decision. Defined.

Record ToastOptions : Type := mkToastOptions {
  mode : ToastMode;
  tuple_target : N;
  min_value_size : N;
  compression : ToastCompression;
  active_dict_id : option N
}.
Definition MIN_TOAST_COMPRESSION_SAVINGS : N := 16.

Inductive RelationKind : Type := User | ToastOf (base_table : N).

(** A table: its schema as the row codec reads it, the ids of its columns, and the columns of
    its primary key and of each other index. *)
Record Relation : Type := mkRelation {
  rel_schema : TableSchema;
  column_ids : list N;
  relation_kind : RelationKind;
  toast : ToastOptions;
  primary_key : list N;
  table_indexes : list (list N)
}.

Definition is_toast (k : RelationKind) : bool := match k with ToastOf _ => true | User => false end.
Definition is_varlena (t : DataType) : bool := is_text t || is_bytea t || is_array_type t.
Definition needs_toast_relation (rel : Relation) : bool :=
  negb (is_toast rel.(relation_kind)) && existsb (fun column => is_varlena column.(data_type)) rel.(rel_schema).(columns).

(** ** Value ids and streams *)

Definition FIRST_TOAST_VALUE_ID : N := 1.
Definition MAX_TOAST_VALUE_ID : N := I64_MAX.
Definition TOAST_CHUNK_PAYLOAD : N := 1900.
Definition toast_corruption (m : string) : DbError := db_storage InternalError m.

Definition next_after_value_id (id : N) : DbResult N :=
  ok_or (checked_add U64_MAX id 1) (db_storage ProgramLimitExceeded "TOAST value id allocator overflowed").

Definition allocate_next_value_id : SE N DbError N := fun next =>
  if MAX_TOAST_VALUE_ID <? next then (next, Err (db_storage ProgramLimitExceeded "TOAST value id allocator reached i64::MAX"))
  else match next_after_value_id next with Ok n => (n, Ok next) | Err e => (next, Err e) end.

Definition build_external_stream (codec : N) (dict_id : option N) (raw_crc32 : N) (payload : bytes) : DbResult bytes :=
  let buffer (header_len : N) := ok_or (checked_add USIZE_MAX header_len (len payload)) (toast_corruption "external TOAST stream length overflows") in
  if (codec =? CODEC_NONE) || (codec =? CODEC_ZSTD) then
    match dict_id with
    | None => _ ← buffer 4; Ok (to_le_bytes 4 raw_crc32 ++ payload)
    | Some _ => Err (toast_corruption "dictionary id is invalid for dict-less TOAST stream")
    end
  else if codec =? CODEC_ZSTD_DICT then
    match dict_id with
    | Some dict_id =>
        if negb (dict_id =? 0) then _ ← buffer 8; Ok (to_le_bytes 4 dict_id ++ to_le_bytes 4 raw_crc32 ++ payload)
        else Err (toast_corruption "missing dictionary id for zstd-dict TOAST stream")
    | None => Err (toast_corruption "missing dictionary id for zstd-dict TOAST stream")
    end
  else Err (toast_corruption ("unknown external TOAST stream codec " +:+ pretty codec)).

Definition stream_u32 (r : CheckedSliceReader) : DbResult (N * CheckedSliceReader) :=
  map_err (fun _ => toast_corruption "external TOAST stream is truncated") (read_u32_le r).
Definition stream_rest (r : CheckedSliceReader) : DbResult (bytes * CheckedSliceReader) :=
  map_err (fun _ => toast_corruption "external TOAST stream has an invalid remaining range") (take_remaining r).

Definition parse_external_stream (codec : N) (stream : bytes) : DbResult (option N * N * bytes) :=
  let r := reader_new stream in
  if (codec =? CODEC_NONE) || (codec =? CODEC_ZSTD) then
    '(raw_crc32, r) ← stream_u32 r;
    '(payload, _) ← stream_rest r;
    Ok (None, raw_crc32, payload)
  else if codec =? CODEC_ZSTD_DICT then
    '(dict_id, r) ← stream_u32 r;
    if dict_id =? 0 then Err (toast_corruption "dictionary id 0 is invalid for zstd-dict TOAST stream")
    else
      '(raw_crc32, r) ← stream_u32 r;
      '(payload, _) ← stream_rest r;
      Ok (Some dict_id, raw_crc32, payload)
  else Err (toast_corruption ("unknown external TOAST stream codec " +:+ pretty codec)).

(** [stream.chunks(n)]. *)
Fixpoint chunks_of (fuel : nat) (n : nat) (stream : bytes) : list bytes :=
  match fuel, stream with
  | S fuel, _ :: _ => take n stream :: chunks_of fuel n (drop n stream)
  | _, _ => []
  end.
Definition chunks (n : N) (stream : bytes) : list bytes := chunks_of (length stream) (N.to_nat n) stream.

(** ** The hidden relation *)

(** What the engine does for the hidden relation: a chunk row is inserted, the visible rows
    whose key starts with a value id are scanned, the relation is checked, and the next id
    is found by reading the rows. *)
Class ChunkStore (D W : Type) : Type := {
  insert_chunk : N -> list (Value D) -> SE W DbError unit;
  scan_prefix : N -> list (Value D) -> W -> DbResult (list (list (Value D) * list (Value D)));
  live_toast_relation : N -> W -> DbResult unit;
  seed_toast_next_value_id : N -> W -> DbResult N
}.

Section Toast.
Context (crc32 : bytes -> N).
Context (zstd_compress : option bytes -> Z -> bytes -> result string bytes).
Context (zstd_decompress : option bytes -> bytes -> N -> result string bytes).
Context {D : Type} `{!DecimalType D}.
Context {W : Type} `{!ChunkStore D W}.
Abbreviation Value := (Value D).
Abbreviation Row := (list Value).

Record ToastState : Type := mkToast {
  toast_next_value_ids : gmap N N;
  store : W
}.
Abbreviation TS := (SE ToastState DbError).

Definition on_store {A} (m : SE W DbError A) : TS A := fun s =>
  let '(w, r) := m s.(store) in (mkToast s.(toast_next_value_ids) w, r).

(** [allocate_next_value_id] on the entry of a table. *)
Definition allocate_from (toast_table next : N) : TS N := fun s =>
  let '(next, r) := allocate_next_value_id next in (mkToast (<[toast_table := next]> s.(toast_next_value_ids)) s.(store), r).

Definition alloc_toast_value_id (toast_table : N) : TS N :=
  s ← gets id;
  _ ← lift (live_toast_relation toast_table s.(store));
  match s.(toast_next_value_ids) !! toast_table with
  | Some next => allocate_from toast_table next
  | None =>
      seeded ← lift (seed_toast_next_value_id toast_table s.(store));
      _ ← lift (live_toast_relation toast_table s.(store));
      allocate_from toast_table seeded
  end.

Definition chunk_row (id : N) (seq : N) (data : bytes) : DbResult Row :=
  if (id =? 0) || (MAX_TOAST_VALUE_ID <? id) then Err (toast_corruption ("TOAST chunk has invalid value_id " +:+ pretty id))
  else if I64_MAX <? seq then Err (db_storage ProgramLimitExceeded "TOAST chunk sequence exceeds i64::MAX")
  else Ok [Integer (Z.of_N id); Integer (Z.of_N seq); Bytes data].

Definition toast_chunk_parts (row : Row) : DbResult (N * Z * bytes) :=
  id ← match row !! 0%nat with
    | Some (Integer value) => if (0 <? value)%Z then Ok (Z.to_N value) else Err (toast_corruption ("TOAST chunk has invalid value_id " +:+ pretty value))
    | Some _ => Err (toast_corruption "TOAST chunk value_id is not an integer")
    | None => Err (toast_corruption "TOAST chunk is missing value_id")
    end;
  seq ← match row !! 1%nat with
    | Some (Integer seq) => if (0 <=? seq)%Z then Ok seq else Err (toast_corruption ("TOAST chunk has negative seq " +:+ pretty seq))
    | Some _ => Err (toast_corruption "TOAST chunk seq is not an integer")
    | None => Err (toast_corruption "TOAST chunk is missing seq")
    end;
  data ← match row !! 2%nat with
    | Some (Bytes data) => Ok data
    | Some _ => Err (toast_corruption "TOAST chunk data is not BYTEA")
    | None => Err (toast_corruption "TOAST chunk is missing data")
    end;
  Ok (id, seq, data).

Definition toast_value_key_prefix (id : N) : DbResult Row :=
  if (I64_MAX <? id) || (id =? 0) then Err (toast_corruption ("TOAST value_id " +:+ pretty id +:+ " is invalid"))
  else Ok [Integer (Z.of_N id)].
Definition toast_chunk_key (id : N) (seq : Z) : DbResult Row :=
  values ← toast_value_key_prefix id;
  Ok (values ++ [Integer seq]).

Definition no_relation (schema : TableSchema) : DbError :=
  storage_internal ("table " +:+ schema.(table_name) +:+ " does not have a hidden TOAST relation").

(** [for (seq, chunk) in chunks.enumerate() { insert }]. *)
Fixpoint insert_chunks (toast_table id seq : N) (cs : list bytes) : TS unit :=
  match cs with
  | [] => mret ()
  | chunk :: cs =>
      row ← lift (chunk_row id seq chunk);
      _ ← on_store (insert_chunk toast_table row);
      insert_chunks toast_table id (seq + 1) cs
  end.

Definition write_toast_stream (base : TableSchema) (raw_len codec : N) (stream : bytes) : TS ToastPointer :=
  _ ← lift (parse_external_stream codec stream);
  toast_table ← lift (ok_or base.(toast_table_id) (no_relation base));
  _ ← lift (if U32_MAX <? len stream then Err (db_storage ProgramLimitExceeded "external TOAST stream exceeds the supported length") else Ok ());
  id ← alloc_toast_value_id toast_table;
  let pointer := mkToastPointer id raw_len (len stream) codec in
  _ ← lift (ToastPointer_encode pointer);
  _ ← insert_chunks toast_table id 0 (chunks TOAST_CHUNK_PAYLOAD stream);
  mret pointer.

(** The scanned chunks by sequence number. *)
Fixpoint collect_chunks (id : N) (scanned : list (Row * Row)) (acc : list (Z * bytes)) : DbResult (list (Z * bytes)) :=
  match scanned with
  | [] => Ok acc
  | (key, row) :: scanned =>
      '(row_id, seq, data) ← toast_chunk_parts row;
      chunk_key ← (if negb (row_id =? id) then Ok [] else toast_chunk_key row_id seq);
      if negb (row_id =? id) || negb (key_eqb key chunk_key)
      then Err (toast_corruption ("TOAST chunk key does not match row for value_id " +:+ pretty id +:+ " seq " +:+ pretty seq))
      else if bool_decide (seq ∈ acc.*1)
      then Err (toast_corruption ("TOAST chunks for value_id " +:+ pretty id +:+ " contain duplicate seq " +:+ pretty seq))
      else collect_chunks id scanned ((seq, data) :: acc)
  end.

Definition seq_le (a b : Z * bytes) : Prop := (a.1 <= b.1)%Z.
Global Instance seq_le_dec a b : Decision (seq_le a b).
Proof. unfold seq_le. apply _. Defined.

(** The chunks joined, in order of their numbers and none missing. *)
Fixpoint join_chunks (id : N) (expected : N) (cs : list (Z * bytes)) : DbResult bytes :=
  match cs with
  | [] => Ok []
  | (seq, data) :: cs =>
      if negb (seq =? Z.of_N expected)%Z
      then Err (toast_corruption ("TOAST chunks for value_id " +:+ pretty id +:+ " are missing, duplicate, or out of order at seq " +:+ pretty seq))
      else
        next ← ok_or (checked_add I64_MAX expected 1) (db_storage ProgramLimitExceeded "TOAST chunk sequence exceeds i64::MAX");
        rest ← join_chunks id next cs;
        Ok (data ++ rest)
  end.

Definition read_toast_stream (s : ToastState) (base : TableSchema) (pointer : ToastPointer) : DbResult bytes :=
  _ ← ToastPointer_encode pointer;
  toast_table ← ok_or base.(toast_table_id) (no_relation base);
  prefix ← toast_value_key_prefix pointer.(value_id);
  scanned ← scan_prefix toast_table prefix s.(store);
  collected ← collect_chunks pointer.(value_id) scanned [];
  stream ← join_chunks pointer.(value_id) 0 (merge_sort seq_le collected);
  if negb (len stream =? pointer.(RowFormat.stored_len))
  then Err (toast_corruption ("TOAST stream for value_id " +:+ pretty pointer.(value_id) +:+ " has " +:+ pretty (len stream) +:+ " bytes, expected " +:+ pretty pointer.(RowFormat.stored_len)))
  else
    _ ← parse_external_stream pointer.(tp_codec) stream;
    Ok stream.

(** ** Reading a row *)

Definition materialize_toast_payload (registry : CompressionRegistry) (codec : N) (dict_id : option N) (raw_len raw_crc32 : N) (payload : bytes) : DbResult bytes :=
  raw ← decompress_value zstd_decompress registry codec dict_id payload raw_len;
  if negb (crc32 raw =? raw_crc32) then Err (toast_corruption "TOAST value raw CRC32 does not match stored metadata") else Ok raw.

Definition column_at (schema : TableSchema) (column : N) : DbResult ColumnDef :=
  ok_or (schema.(columns) !! N.to_nat column) (toast_corruption "TOAST physical value references a missing column").

Definition validate_array_toast_raw_len (schema : TableSchema) (column raw_len : N) : DbResult unit :=
  column ← column_at schema column;
  if is_array_type column.(data_type) then validate_decoded_array_payload_len raw_len else Ok ().

Definition toast_value_for_column (schema : TableSchema) (column : N) (raw : bytes) : DbResult Value :=
  column ← column_at schema column;
  match column.(data_type) with
  | TText => if utf8_valid raw then Ok (Text raw) else Err (toast_corruption "TOAST text value is not valid UTF-8")
  | TBytea => Ok (Bytes raw)
  | TArray element =>
      array ← decode_array_payload raw;
      if negb (bool_decide (array_element_type array = Some element)) then Err (toast_corruption "TOAST array element type does not match its column")
      else Ok array
  | _ => Err (toast_corruption "TOAST physical value references a non-varlena column")
  end.

Definition materialize_value (registry : CompressionRegistry) (s : ToastState) (schema : TableSchema) (physical_value : DecodedPhysicalValue) : DbResult Value :=
  match physical_value with
  | DNull => Ok Null
  | DValue value => Ok value
  | DCompressed column codec dict_id raw_len raw_crc32 payload =>
      _ ← validate_array_toast_raw_len schema column raw_len;
      raw ← materialize_toast_payload registry codec dict_id raw_len raw_crc32 payload;
      toast_value_for_column schema column raw
  | DExternal column pointer =>
      _ ← validate_array_toast_raw_len schema column pointer.(raw_len);
      stream ← read_toast_stream s schema pointer;
      '(dict_id, raw_crc32, payload) ← parse_external_stream pointer.(tp_codec) stream;
      raw ← materialize_toast_payload registry pointer.(tp_codec) dict_id pointer.(raw_len) raw_crc32 payload;
      toast_value_for_column schema column raw
  end.
Fixpoint materialize_values (registry : CompressionRegistry) (s : ToastState) (schema : TableSchema) (values : list DecodedPhysicalValue) : DbResult Row :=
  match values with
  | [] => Ok []
  | value :: values =>
      v ← materialize_value registry s schema value;
      vs ← materialize_values registry s schema values;
      Ok (v :: vs)
  end.
Definition materialize_physical_row (registry : CompressionRegistry) (s : ToastState) (schema : TableSchema) (physical : DecodedPhysicalRow) : DbResult Row :=
  materialize_values registry s schema physical.(pr_values).

(** ** Planning a row *)

Inductive ToastVarlenaPlan : Type :=
  | PlanPlain (cached_payload : option bytes)
  | PlanCompressed (codec : N) (dict_id : option N) (raw_len raw_crc32 : N) (payload : bytes)
  | PlanExternal (pointer : ToastPointer).
Inductive ToastColumnPlan : Type :=
  | PlanNull
  | PlanValue
  | PlanVarlena (plan : ToastVarlenaPlan).

Inductive ToastStreamPayload : Type :=
  | RawColumn
  | Owned (payload : bytes).
Record ToastCandidate : Type := mkCandidate {
  tc_column : nat;
  tc_raw_len : N;
  tc_raw_crc32 : N;
  stream_codec : N;
  stream_dict_id : option N;
  stream_payload : ToastStreamPayload;
  current_stored_len : N
}.
Record CompressedToastValue : Type := mkCompressedValue { cv_codec : N; cv_dict_id : option N; cv_payload : bytes }.

Definition too_long : DbError := db_storage ProgramLimitExceeded "varlena value exceeds the supported length".
Definition supported_varlena_len (n : N) : DbResult N :=
  if U32_MAX <? n then Err too_long else if VARLENA_LEN_MASK <? n then Err too_long else Ok n.

(** The bytes of a value in a column of variable length, and whether they had to be made. *)
Definition toastable_raw_bytes (t : DataType) (value : Value) : DbResult (option (bool * bytes)) :=
  match t, value with
  | TText, Text text => Ok (Some (false, text))
  | TBytea, Bytes b => Ok (Some (false, b))
  | TArray element, Array et ds es =>
      if bool_decide (element = et) then payload ← encode_array_payload et ds es; Ok (Some (true, payload)) else Ok None
  | _, _ => Ok None
  end.

Definition inline_compressed_stored_len (payload_len : N) : N := 1 + 4 + 4 + 4 + payload_len.
Definition checked_varlena_len_add (prefix_len payload_len : N) : DbResult N :=
  ok_or (checked_add USIZE_MAX prefix_len payload_len) (db_storage ProgramLimitExceeded "varlena value length overflows usize").
Definition checked_row_len_add (row_len column_len : N) : DbResult N :=
  ok_or (checked_add USIZE_MAX row_len column_len) (db_storage ProgramLimitExceeded "row length overflows usize").

Definition logical_value_v3_len (column : ColumnDef) (value : Value) : DbResult N :=
  match value, column.(data_type) with
  | Null, _ => Err (db_storage InternalError "NULL should be represented by ToastColumnPlan::Null")
  | Integer _, TInteger | Float _, TDouble | Date _, TDate | Timestamp _, TTimestamp | Time _, TTime | TimestampTz _, TTimestampTz => Ok 8
  | Real _, TReal => Ok 4
  | Numeric _, TNumeric _ _ => Ok 20
  | Text value, TText => _ ← supported_varlena_len (len value); checked_varlena_len_add 4 (len value)
  | Boolean _, TBoolean => Ok 1
  | IntervalV _, TInterval | Uuid _, TUuid => Ok 16
  | Bytes value, TBytea => _ ← supported_varlena_len (len value); checked_varlena_len_add 4 (len value)
  | Array et ds es, TArray element =>
      if bool_decide (element = et) then
        n ← encoded_array_payload_len et ds es;
        _ ← supported_varlena_len n;
        checked_varlena_len_add 4 n
      else Err (type_mismatch column)
  | _, _ => Err (type_mismatch column)
  end.

Definition plain_raw (column : ColumnDef) (value : Value) (cached_payload : option bytes) : DbResult bytes :=
  match cached_payload with
  | Some payload => Ok payload
  | None => raw ← toastable_raw_bytes column.(data_type) value; snd <$> ok_or raw (type_mismatch column)
  end.

Definition planned_column_len (column : ColumnDef) (value : Value) (plan : ToastColumnPlan) (has_toast_relation : bool) : DbResult N :=
  match plan with
  | PlanNull => _ ← check_nullable column; Ok 0
  | PlanValue => logical_value_v3_len column value
  | PlanVarlena varlena =>
      if negb (is_varlena column.(data_type)) then Err (type_mismatch column)
      else match varlena with
      | PlanPlain cached_payload =>
          raw ← plain_raw column value cached_payload;
          _ ← supported_varlena_len (len raw);
          checked_varlena_len_add 4 (len raw)
      | PlanCompressed _ _ _ _ payload =>
          let stored_len := inline_compressed_stored_len (len payload) in
          _ ← supported_varlena_len stored_len;
          checked_varlena_len_add 4 stored_len
      | PlanExternal pointer =>
          if negb has_toast_relation then Err (toast_corruption "external toast value requires a hidden TOAST relation")
          else _ ← ToastPointer_encode pointer; checked_varlena_len_add 4 TOAST_POINTER_LEN
      end
  end.

Fixpoint planned_len_from (total : N) (has_toast_relation : bool) (cs : list (ColumnDef * Value * ToastColumnPlan)) : DbResult N :=
  match cs with
  | [] => Ok total
  | (column, value, plan) :: cs =>
      n ← planned_column_len column value plan has_toast_relation;
      total ← checked_row_len_add total n;
      planned_len_from total has_toast_relation cs
  end.
Definition has_toast (schema : TableSchema) : bool := bool_decide (is_Some schema.(toast_table_id)).
Definition planned_row_len (schema : TableSchema) (row : Row) (plans : list ToastColumnPlan) : DbResult N :=
  if negb (len row =? len schema.(columns)) || negb (len plans =? len schema.(columns)) then Err (arity_error schema (len row))
  else planned_len_from (1 + V2_MVCC_HEADER_LEN + null_bitmap_len (len plans)) (has_toast schema) (zip (zip schema.(columns) row) plans).

Definition page_overhead : N := HEADER_LEN + Page.SLOT_LEN.
Definition row_len_fits_page (row_len : N) : bool :=
  match checked_add USIZE_MAX row_len page_overhead with Some n => n <=? PAGE_SIZE | None => false end.
Definition ensure_row_len_fits_page (row_len : N) : DbResult unit :=
  if negb (row_len_fits_page row_len) then Err (db_storage ProgramLimitExceeded "row is too large for a data page") else Ok ().
Definition ensure_planned_row_fits_page (schema : TableSchema) (row : Row) (plans : list ToastColumnPlan) : DbResult unit :=
  n ← planned_row_len schema row plans; ensure_row_len_fits_page n.
Definition planned_row_meets_toast_goal (rel : Relation) (row : Row) (plans : list ToastColumnPlan) : DbResult bool :=
  n ← planned_row_len rel.(rel_schema) row plans;
  Ok ((n <=? rel.(toast).(tuple_target)) && row_len_fits_page n).

Definition plain_prepared_values (row : Row) : list (@PreparedColumnValue D) :=
  (fun value => match value with Null => PNull | other => PValue other end) <$> row.
Definition plain_column_plans (row : Row) : list ToastColumnPlan :=
  (fun value : Value => match value with Null => PlanNull | _ => PlanValue end) <$> row.

Definition prepared_of (column : ColumnDef) (value : Value) (plan : ToastColumnPlan) : DbResult (@PreparedColumnValue D) :=
  match plan with
  | PlanNull => Ok PNull
  | PlanValue => Ok (PValue value)
  | PlanVarlena (PlanPlain cached_payload) => raw ← plain_raw column value cached_payload; Ok (PVarlena (Plain raw))
  | PlanVarlena (PlanCompressed codec dict_id raw_len raw_crc32 payload) => Ok (PVarlena (Compressed codec dict_id raw_len raw_crc32 payload))
  | PlanVarlena (PlanExternal pointer) => Ok (PVarlena (External pointer))
  end.
Fixpoint prepared_from (cs : list (ColumnDef * Value * ToastColumnPlan)) : DbResult (list (@PreparedColumnValue D)) :=
  match cs with
  | [] => Ok []
  | (column, value, plan) :: cs => v ← prepared_of column value plan; vs ← prepared_from cs; Ok (v :: vs)
  end.
Definition materialize_prepared_values (schema : TableSchema) (row : Row) (plans : list ToastColumnPlan) : DbResult (list (@PreparedColumnValue D)) :=
  if negb (len row =? len schema.(columns)) || negb (len plans =? len schema.(columns)) then Err (arity_error schema (len row))
  else prepared_from (zip (zip schema.(columns) row) plans).

Definition try_toast_value_compression (registry : CompressionRegistry) (options : ToastOptions) (raw : bytes) : DbResult (option CompressedToastValue) :=
  let zstd := payload ← compress_value_zstd zstd_compress raw; Ok (Some (mkCompressedValue CODEC_ZSTD None payload)) in
  match options.(compression) with
  | TcNone => Ok None
  | TcZstd => zstd
  | TcZstdDict =>
      match options.(active_dict_id) with
      | Some dict_id => payload ← compress_value_zstd_dict zstd_compress registry dict_id raw; Ok (Some (mkCompressedValue CODEC_ZSTD_DICT (Some dict_id) payload))
      | None => zstd
      end
  end.

(** One column: its plan, and the candidate it makes if it is long enough. *)
Definition inline_column (registry : CompressionRegistry) (options : ToastOptions) (index : nat) (made : bool) (raw : bytes)
    : DbResult (ToastColumnPlan * option ToastCandidate) :=
  raw_len ← supported_varlena_len (len raw);
  let raw_crc32 := crc32 raw in
  let cached_payload := if made then Some raw else None in
  let long := options.(min_value_size) <=? len raw in
  compressed ← (if long && negb (bool_decide (options.(compression) = TcNone)) then try_toast_value_compression registry options raw else Ok None);
  let candidate codec dict_id payload stored := if long then Some (mkCandidate index raw_len raw_crc32 codec dict_id payload stored) else None in
  Ok match compressed with
  | Some c =>
      let stored := inline_compressed_stored_len (len c.(cv_payload)) in
      if stored + MIN_TOAST_COMPRESSION_SAVINGS <=? len raw
      then (PlanVarlena (PlanCompressed c.(cv_codec) c.(cv_dict_id) raw_len raw_crc32 c.(cv_payload)),
            candidate c.(cv_codec) c.(cv_dict_id) (Owned c.(cv_payload)) stored)
      else (PlanVarlena (PlanPlain cached_payload), candidate CODEC_NONE None (if made then Owned raw else RawColumn) (len raw))
  | None => (PlanVarlena (PlanPlain cached_payload), candidate CODEC_NONE None (if made then Owned raw else RawColumn) (len raw))
  end.

Fixpoint inline_from (registry : CompressionRegistry) (options : ToastOptions) (cs : list ColumnDef) (index : nat) (row : Row)
    : DbResult (list ToastColumnPlan * list ToastCandidate) :=
  match row with
  | [] => Ok ([], [])
  | value :: row =>
      '(plan, candidate) ←
        match cs !! index with
        | None => Ok (PlanValue, None)
        | Some column =>
            match value with
            | Null => Ok (PlanNull, None)
            | _ =>
                raw ← toastable_raw_bytes column.(data_type) value;
                match raw with
                | None => Ok (PlanValue, None)
                | Some (made, raw) => inline_column registry options index made raw
                end
            end
        end;
      '(plans, candidates) ← inline_from registry options cs (S index) row;
      Ok (plan :: plans, option_list candidate ++ candidates)
  end.
Definition prepare_inline_toast_candidates (registry : CompressionRegistry) (rel : Relation) (row : Row) : DbResult (list ToastColumnPlan * list ToastCandidate) :=
  inline_from registry rel.(toast) rel.(rel_schema).(columns) 0 row.

(** ** Moving columns out *)

Definition external_stream_stored_len (codec : N) (dict_id : option N) (payload_len : N) : DbResult N :=
  header_len ←
    (if (codec =? CODEC_NONE) || (codec =? CODEC_ZSTD) then
       match dict_id with Some _ => Err (toast_corruption "dict-less TOAST stream codec cannot carry a dictionary id") | None => Ok 4 end
     else if codec =? CODEC_ZSTD_DICT then
       match dict_id with
       | Some dict_id => if dict_id =? 0 then Err (toast_corruption "zstd-dict TOAST stream is missing dictionary id") else Ok 8
       | None => Err (toast_corruption "zstd-dict TOAST stream is missing dictionary id")
       end
     else Err (toast_corruption "unknown external TOAST stream codec"));
  n ← ok_or (checked_add USIZE_MAX header_len payload_len) (db_storage ProgramLimitExceeded "external TOAST stream length overflows usize");
  supported_varlena_len n.

Definition candidate_stream_payload (schema : TableSchema) (row : Row) (candidate : ToastCandidate) : DbResult bytes :=
  match candidate.(stream_payload) with
  | RawColumn =>
      column ← ok_or (schema.(columns) !! candidate.(tc_column)) (db_storage InternalError "TOAST candidate column is invalid");
      value ← ok_or (row !! candidate.(tc_column)) (db_storage InternalError "TOAST candidate row value is missing");
      raw ← toastable_raw_bytes column.(data_type) value;
      snd <$> ok_or raw (db_storage InternalError "TOAST raw candidate no longer references a varlena value")
  | Owned payload => Ok payload
  end.

(** Longest first; of two as long, the one of the earlier column. *)
Definition longer (a b : ToastCandidate) : Prop :=
  b.(current_stored_len) < a.(current_stored_len) \/ a.(current_stored_len) = b.(current_stored_len) /\ (a.(tc_column) <= b.(tc_column))%nat.
Global Instance longer_dec a b : Decision (longer a b).
Proof. unfold longer. apply _. Defined.

Definition external_at (plans : list ToastColumnPlan) (column : nat) (pointer : ToastPointer) : list ToastColumnPlan :=
  <[column := PlanVarlena (PlanExternal pointer)]> plans.

(** The candidates that have to go, the row being too long until then. *)
Fixpoint plan_external (rel : Relation) (row : Row) (plans : list ToastColumnPlan) (candidates : list ToastCandidate)
    : DbResult (list ToastColumnPlan * list ToastCandidate) :=
  match candidates with
  | [] => Ok (plans, [])
  | candidate :: candidates =>
      payload ← candidate_stream_payload rel.(rel_schema) row candidate;
      stored_len ← external_stream_stored_len candidate.(stream_codec) candidate.(stream_dict_id) (len payload);
      let pointer := mkToastPointer FIRST_TOAST_VALUE_ID candidate.(tc_raw_len) stored_len candidate.(stream_codec) in
      _ ← ToastPointer_encode pointer;
      let plans := external_at plans candidate.(tc_column) pointer in
      met ← planned_row_meets_toast_goal rel row plans;
      if (met : bool) then Ok (plans, [candidate])
      else '(plans, planned) ← plan_external rel row plans candidates; Ok (plans, candidate :: planned)
  end.

Fixpoint write_external (rel : Relation) (row : Row) (plans : list ToastColumnPlan) (planned : list ToastCandidate) : TS (list ToastColumnPlan) :=
  match planned with
  | [] => mret plans
  | candidate :: planned =>
      payload ← lift (candidate_stream_payload rel.(rel_schema) row candidate);
      stream ← lift (build_external_stream candidate.(stream_codec) candidate.(stream_dict_id) candidate.(tc_raw_crc32) payload);
      pointer ← write_toast_stream rel.(rel_schema) candidate.(tc_raw_len) candidate.(stream_codec) stream;
      write_external rel row (external_at plans candidate.(tc_column) pointer) planned
  end.

(** ** Keys *)

Definition column_value (rel : Relation) (row : Row) (column_id : N) : DbResult Value :=
  slot ← ok_or (fst <$> list_find (fun id => id = column_id) rel.(column_ids)) (storage_internal "column is missing from table schema");
  ok_or (row !! slot) (storage_internal "row is missing a column value").
Fixpoint row_key_for_columns (rel : Relation) (cs : list N) (row : Row) : DbResult (Row * bool) :=
  match cs with
  | [] => Ok ([], false)
  | column_id :: cs =>
      value ← column_value rel row column_id;
      '(values, has_null) ← row_key_for_columns rel cs row;
      Ok (value :: values, null_value value || has_null)
  end.
Definition primary_key_for_row (rel : Relation) (row : Row) : DbResult Row :=
  '(key, has_null) ← row_key_for_columns rel rel.(primary_key) row;
  if (has_null : bool) then Err (db_storage NotNullViolation "primary key column cannot be NULL") else Ok key.

Fixpoint secondary_keys_fit (rel : Relation) (row : Row) (indexes : list (list N)) : DbResult unit :=
  match indexes with
  | [] => Ok ()
  | index :: indexes =>
      '(key, _) ← row_key_for_columns rel index row;
      _ ← validate_index_key_fits key;
      secondary_keys_fit rel row indexes
  end.
Definition validate_logical_index_keys_fit (rel : Relation) (row : Row) : DbResult unit :=
  _ ← (if bool_decide (rel.(primary_key) = []) then Ok () else key ← primary_key_for_row rel row; validate_index_key_fits key);
  secondary_keys_fit rel row rel.(table_indexes).

(** ** Preparing a row *)

Definition encode_fitting (schema : TableSchema) (header : MvccHeader) (values : list (@PreparedColumnValue D)) : DbResult bytes :=
  b ← encode_row_v3_prepared schema header values;
  _ ← ensure_row_len_fits_page (len b);
  Ok b.
Definition encode_plans (schema : TableSchema) (header : MvccHeader) (row : Row) (plans : list ToastColumnPlan) : DbResult bytes :=
  values ← materialize_prepared_values schema row plans;
  encode_fitting schema header values.
Definition encode_plain (schema : TableSchema) (header : MvccHeader) (row : Row) : DbResult bytes :=
  _ ← ensure_planned_row_fits_page schema row (plain_column_plans row);
  encode_fitting schema header (plain_prepared_values row).

Definition mode_is_off (rel : Relation) : bool := bool_decide (rel.(toast).(mode) = ModeOff).

Definition prepare_row_for_storage (registry : CompressionRegistry) (rel : Relation) (header : MvccHeader) (row : Row) : TS bytes :=
  let schema := rel.(rel_schema) in
  _ ← lift (validate_logical_index_keys_fit rel row);
  if is_toast rel.(relation_kind) || negb (needs_toast_relation rel) || (negb (has_toast schema) && mode_is_off rel)
  then lift (encode_plain schema header row)
  else if negb (has_toast schema) then lift (Err (db_internal ("toastable table " +:+ schema.(table_name) +:+ " is missing its TOAST relation")))
  else
    '(plans, candidates) ← lift (prepare_inline_toast_candidates registry rel row);
    met ← lift (planned_row_meets_toast_goal rel row plans);
    if (met : bool) then lift (encode_plans schema header row plans)
    else if mode_is_off rel then lift (_ ← ensure_planned_row_fits_page schema row plans; encode_plans schema header row plans)
    else
      '(plans, planned) ← lift (plan_external rel row plans (merge_sort longer candidates));
      _ ← lift (ensure_planned_row_fits_page schema row plans);
      plans ← write_external rel row plans planned;
      lift (encode_plans schema header row plans).

Definition prepare_row_for_hot_storage (registry : CompressionRegistry) (rel : Relation) (txn_id : TxnId) (row : Row) : DbResult (option bytes) :=
  let schema := rel.(rel_schema) in
  _ ← validate_logical_index_keys_fit rel row;
  let header := MvccHeader_fresh txn_id HEAP_ONLY in
  if is_toast rel.(relation_kind) || negb (has_toast schema) then Some <$> encode_plain schema header row
  else
    '(plans, candidates) ← prepare_inline_toast_candidates registry rel row;
    met ← planned_row_meets_toast_goal rel row plans;
    if (met : bool) then Some <$> encode_plans schema header row plans
    else if mode_is_off rel || bool_decide (candidates = [])
    then Some <$> (_ ← ensure_planned_row_fits_page schema row plans; encode_plans schema header row plans)
    else Ok None.
End Toast.
Arguments ToastState : clear implicits.

(** ** What the hidden relation promises *)

(** An entry of the hidden relation: its key and its row. *)
Definition starts {D} (id : Z) (x : list (Value D) * list (Value D)) : bool :=
  match x.1 with Integer z :: _ => bool_decide (z = id) | _ => false end.
Definition ids_below {D} (n : N) (xs : list (list (Value D) * list (Value D))) : Prop :=
  Forall (fun x => exists z rest, x.1 = Integer z :: rest /\ (0 < z < Z.of_N n)%Z) xs.
Definition chunk_entry {D} (id seq : N) (data : bytes) : list (Value D) * list (Value D) :=
  ([Integer (Z.of_N id); Integer (Z.of_N seq)], [Integer (Z.of_N id); Integer (Z.of_N seq); Bytes data]).

(** A chunk that was inserted is there, a scan finds the rows whose key starts with its
    prefix, and the id found by reading is larger than all of them. *)
Class ChunkStoreLaws (D W : Type) `{ChunkStore D W} : Type := {
  stored : W -> N -> list (list (Value D) * list (Value D));
  insert_stored w w' t id seq data : insert_chunk t (@chunk_entry D id seq data).2 w = (w', Ok ()) ->
    stored w' t ≡ₚ chunk_entry id seq data :: stored w t;
  scan_stored w t id : exists xs, scan_prefix t [Integer id] w = Ok xs /\ xs ≡ₚ filter (fun x => starts id x = true) (stored w t);
  seed_above w t n : seed_toast_next_value_id t w = Ok n -> 0 < n /\ ids_below n (stored w t)
}.

Section Spec.
Context (crc32 : bytes -> N) (Hcrc : crc_fits crc32).
Context (zstd_compress : option bytes -> Z -> bytes -> result string bytes).
Context (zstd_decompress : option bytes -> bytes -> N -> result string bytes).
Context (Hz : zstd_roundtrip zstd_compress zstd_decompress).
Context (Hzb : forall dict level raw c, bytes_ok raw -> zstd_compress dict level raw = Ok c -> bytes_ok c).
Context {D : Type} `{!DecimalType D}.
Context {W : Type} `{!ChunkStore D W, !ChunkStoreLaws D W}.
Abbreviation Value := (Value D).
Abbreviation Row := (list Value).
Abbreviation Entry := (Row * Row)%type.
Abbreviation ToastState := (ToastState W).

(** *** Streams *)

Lemma chunks_of_concat n stream : (0 < n)%nat -> forall fuel, (length stream <= fuel)%nat -> concat (chunks_of fuel n stream) = stream.
Proof using.
  intros Hn fuel. revert stream. induction fuel as [|fuel IH]; intros [|x stream] Hl; cbn [chunks_of concat]; try done; [cbn in Hl; lia|].
  rewrite IH; [apply take_drop|]. rewrite length_drop. cbn in *. lia.
Qed.
Lemma chunks_concat n stream : 0 < n -> concat (chunks n stream) = stream.
Proof using. intros Hn. apply chunks_of_concat; lia. Qed.

Lemma stream_u32_app r v rest : CheckedBytes.reads r (to_le_bytes 4 v ++ rest) -> v <= U32_MAX -> exists r', stream_u32 r = Ok (v, r') /\ CheckedBytes.reads r' rest.
Proof using. intros Hr Hv. destruct (read_u32_le_app r v rest) as (r' & E & Hr'); [done|unfold U32_MAX in *; lia|]. exists r'. split; [|done]. unfold stream_u32. by rewrite E. Qed.
Lemma stream_rest_all r rest : CheckedBytes.reads r rest -> exists r', stream_rest r = Ok (rest, r').
Proof using.
  intros Hr. unfold stream_rest, take_remaining. rewrite (reads_remaining _ _ Hr). rewrite <- (app_nil_r rest) in Hr.
  destruct (reader_take_app r rest [] (len rest)) as (r' & -> & _); [done|done|]. by exists r'.
Qed.

Lemma build_parse codec dict_id crc payload stream : build_external_stream codec dict_id crc payload = Ok stream -> crc <= U32_MAX -> default 0 dict_id <= U32_MAX ->
  parse_external_stream codec stream = Ok (dict_id, crc, payload).
Proof using.
  unfold build_external_stream, parse_external_stream. intros E Hc Hd.
  destruct ((codec =? CODEC_NONE) || (codec =? CODEC_ZSTD)).
  - destruct dict_id; [done|]. unfold checked_add in E. destruct (N.leb_spec (4 + len payload) USIZE_MAX) as [Hle|]; [|done]. cbn [ok_or mbind result_bind] in E. apply Ok_inj in E as <-.
    destruct (stream_u32_app (reader_new (to_le_bytes 4 crc ++ payload)) crc payload) as (r & -> & Hr); [apply reads_new; rewrite len_app, len_le_bytes; lia|done|].
    cbn [mbind result_bind]. destruct (stream_rest_all _ _ Hr) as (r' & ->). done.
  - destruct (codec =? CODEC_ZSTD_DICT); [|done]. destruct dict_id as [d|]; [|done]. destruct (N.eqb_spec d 0) as [|Hd0]; [done|]. cbn [negb] in E.
    unfold checked_add in E. destruct (N.leb_spec (8 + len payload) USIZE_MAX) as [Hle|]; [|done]. cbn [ok_or mbind result_bind] in E. apply Ok_inj in E as <-.
    destruct (stream_u32_app (reader_new (to_le_bytes 4 d ++ to_le_bytes 4 crc ++ payload)) d (to_le_bytes 4 crc ++ payload)) as (r & -> & Hr);
      [apply reads_new; rewrite !len_app, !len_le_bytes; lia|done|]. cbn [mbind result_bind]. rewrite (proj2 (N.eqb_neq _ _)) by done.
    destruct (stream_u32_app r crc payload Hr Hc) as (r' & -> & Hr'). cbn [mbind result_bind]. destruct (stream_rest_all _ _ Hr') as (r'' & ->). done.
Qed.

Lemma chunks_of_count n stream fuel : (length (chunks_of fuel n stream) <= fuel)%nat.
Proof using. revert stream. induction fuel as [|fuel IH]; intros [|x stream]; cbn; try lia. specialize (IH (drop n (x :: stream))). lia. Qed.
Lemma chunks_count n stream : len (chunks n stream) <= len stream.
Proof using. unfold len, chunks. pose proof (chunks_of_count (N.to_nat n) stream (length stream)). lia. Qed.

(** *** Chunks *)

Fixpoint entries (id seq : N) (cs : list bytes) : list Entry :=
  match cs with [] => [] | c :: cs => chunk_entry id seq c :: entries id (seq + 1) cs end.
Fixpoint numbered (seq : N) (cs : list bytes) : list (Z * bytes) :=
  match cs with [] => [] | c :: cs => (Z.of_N seq, c) :: numbered (seq + 1) cs end.

Lemma numbered_above seq cs : Forall (fun x => (Z.of_N seq <= x.1)%Z) (numbered seq cs).
Proof using.
  revert seq. induction cs as [|c cs IH]; intros seq; constructor; [done|]. eapply Forall_impl; [apply IH|]. intros x. cbn. lia.
Qed.
Lemma numbered_nodup seq cs : NoDup (numbered seq cs).*1.
Proof using.
  revert seq. induction cs as [|c cs IH]; intros seq; cbn; constructor; [|apply IH]. intros ([z d] & E & Hx)%list_elem_of_fmap.
  pose proof (proj1 (Forall_forall _ _) (numbered_above (seq + 1) cs) _ Hx) as H. cbn in *. lia.
Qed.

Global Instance seq_le_trans : Transitive seq_le.
Proof. intros a b c. unfold seq_le. lia. Qed.
Global Instance seq_le_total : Total seq_le.
Proof. intros a b. unfold seq_le. lia. Qed.

(** Chunks sorted by their numbers are joined in order. *)
Lemma join_sorted id cs : forall seq xs, seq + len cs <= I64_MAX -> xs ≡ₚ numbered seq cs -> StronglySorted seq_le xs -> join_chunks id seq xs = Ok (concat cs).
Proof using.
  induction cs as [|c cs IH]; intros seq xs Hs Hp Hx; cbn [numbered] in Hp; [by apply Permutation_nil_r in Hp as ->|].
  destruct xs as [|x xs]; [by apply Permutation_nil_cons in Hp|]. rewrite len_cons in Hs.
  assert (x = (Z.of_N seq, c)) as ->.
  { assert (Hin : (Z.of_N seq, c) ∈ x :: xs) by (rewrite Hp; left). apply elem_of_cons in Hin as [<-|Hin]; [done|].
    inversion Hx as [|? ? _ Hall]; subst. pose proof (proj1 (Forall_forall _ _) Hall _ Hin) as Hle. unfold seq_le in Hle. cbn in Hle.
    assert (Hx' : x ∈ (Z.of_N seq, c) :: numbered (seq + 1) cs) by (rewrite <- Hp; left). apply elem_of_cons in Hx' as [->|Hx']; [done|].
    pose proof (proj1 (Forall_forall _ _) (numbered_above (seq + 1) cs) _ Hx') as Hge. cbn in Hge. lia. }
  cbn [join_chunks concat]. rewrite Z.eqb_refl. cbn [negb]. unfold checked_add. rewrite (proj2 (N.leb_le _ _)) by lia. cbn [ok_or mbind result_bind].
  rewrite (IH (seq + 1)); [done|lia|by apply Permutation_cons_inv in Hp|]. by inversion Hx.
Qed.

Lemma key_eqb_ints (a b : Z) : key_eqb (V:=Value) [Integer a; Integer b] [Integer a; Integer b] = true.
Proof using. unfold key_eqb, key_cmp. cbn. by rewrite !Z.compare_refl. Qed.

Lemma chunk_row_entry id seq data row : chunk_row (D:=D) id seq data = Ok row -> 0 < id <= I64_MAX /\ row = (chunk_entry id seq data).2.
Proof using.
  unfold chunk_row, MAX_TOAST_VALUE_ID. destruct (N.eqb_spec id 0); [done|]. destruct (N.ltb_spec I64_MAX id); [done|]. cbn [orb].
  destruct (I64_MAX <? seq); [done|]. intros E. apply Ok_inj in E as <-. split; [lia|done].
Qed.

Lemma parts_entry id seq data : 0 < id -> toast_chunk_parts (D:=D) (chunk_entry id seq data).2 = Ok (id, Z.of_N seq, data).
Proof using.
  intros Hi. unfold toast_chunk_parts, chunk_entry. cbn [snd lookup list_lookup].
  rewrite (proj2 (Z.ltb_lt _ _)) by lia. cbn [mbind result_bind]. rewrite (proj2 (Z.leb_le _ _)) by lia. cbn [mbind result_bind]. by rewrite N2Z.id.
Qed.

Lemma collect_entries id (xs : list Entry) : 0 < id <= I64_MAX -> forall ys acc, Forall2 (fun x y => exists seq, x = chunk_entry id seq y.2 /\ y.1 = Z.of_N seq) xs ys ->
  NoDup (acc.*1 ++ ys.*1) -> exists zs, collect_chunks id xs acc = Ok zs /\ zs ≡ₚ ys ++ acc.
Proof using.
  intros Hid ys. revert xs. induction ys as [|y ys IH]; intros xs acc HF Hnd; inversion HF as [|x ? xs' ? (seq & -> & Ey) HF']; subst; [by exists acc|].
  pose proof (parts_entry id seq y.2 ltac:(lia)) as Hparts. unfold chunk_entry in Hparts at 1. cbn [snd] in Hparts.
  unfold chunk_entry at 1. cbn [collect_chunks]. rewrite Hparts.
  cbn [mbind result_bind]. rewrite N.eqb_refl. cbn [negb orb]. unfold toast_chunk_key, toast_value_key_prefix.
  rewrite (proj2 (N.ltb_ge _ _)) by lia. rewrite (proj2 (N.eqb_neq _ _)) by lia. cbn [orb mbind result_bind app].
  rewrite key_eqb_ints. cbn [negb]. cbn [fmap list_fmap] in Hnd. rewrite Ey in Hnd.
  assert (Hperm : acc.*1 ++ Z.of_N seq :: ys.*1 ≡ₚ (((Z.of_N seq, y.2) :: acc).*1 ++ ys.*1)) by (cbn; by rewrite <- Permutation_middle).
  rewrite Hperm in Hnd. rewrite bool_decide_eq_false_2.
  2:{ inversion Hnd as [|? ? Hni _]; subst. intros Hin. apply Hni, elem_of_app. by left. }
  destruct (IH xs' ((Z.of_N seq, y.2) :: acc) HF' Hnd) as (zs & -> & Hzs). exists zs. split; [done|]. rewrite Hzs. destruct y as [z d]. cbn in *. subst z. by rewrite <- Permutation_middle.
Qed.

Lemma entries_numbered id seq cs : Forall2 (fun x y => exists seq, x = @chunk_entry D id seq y.2 /\ y.1 = Z.of_N seq) (entries id seq cs) (numbered seq cs).
Proof using. revert seq. induction cs as [|c cs IH]; intros seq; constructor; [by exists seq|apply IH]. Qed.

(** *** States *)

(** The ids to come are larger than those in use. *)
Definition ids_ok (t : N) (s : ToastState) : Prop :=
  forall n, s.(toast_next_value_ids) !! t = Some n -> 0 < n /\ ids_below n (stored s.(store) t).

(** The chunks of a value. *)
Definition holds_stream (t : N) (s : ToastState) (id : N) (stream : bytes) : Prop :=
  (exists n, s.(toast_next_value_ids) !! t = Some n /\ 0 < id < n) /\
  filter (fun x => starts (Z.of_N id) x = true) (stored s.(store) t) ≡ₚ entries id 0 (chunks TOAST_CHUNK_PAYLOAD stream).

Lemma entries_starts id seq cs id' : filter (fun x => starts (D:=D) (Z.of_N id') x = true) (entries id seq cs) = if decide (id = id') then entries id seq cs else [].
Proof using.
  revert seq. induction cs as [|c cs IH]; intros seq; cbn [entries]; [by destruct (decide _)|]. rewrite filter_cons, IH. unfold starts at 1, chunk_entry at 1. cbn [fst].
  destruct (decide (id = id')) as [->|Hne]; [rewrite decide_True; [done|by apply bool_decide_eq_true_2]|]. rewrite decide_False; [done|]. cbn. intros H%bool_decide_eq_true. lia.
Qed.
Lemma below_starts n (xs : list Entry) id : ids_below n xs -> n <= id -> filter (fun x => starts (Z.of_N id) x = true) xs = [].
Proof using.
  intros H Hn. apply elem_of_nil_inv. intros x [Hs Hx]%list_elem_of_filter. destruct (proj1 (Forall_forall _ _) H _ Hx) as (z & rest & E & Hzn).
  unfold starts in Hs. rewrite E in Hs. apply bool_decide_eq_true in Hs. lia.
Qed.

Lemma read_stream base t s p stream enc : base.(toast_table_id) = Some t -> holds_stream t s p.(value_id) stream -> ToastPointer_encode p = Ok enc ->
  p.(RowFormat.stored_len) = len stream -> is_ok (parse_external_stream p.(tp_codec) stream) = true -> read_toast_stream s base p = Ok stream.
Proof using.
  intros Ht [(n & _ & Hid) Hs] Ep El Hp. unfold read_toast_stream. rewrite Ep, Ht. cbn [mbind result_bind ok_or]. unfold ToastPointer_encode, validate_toast_pointer_value_id in Ep.
  destruct (N.eqb_spec p.(value_id) 0) as [|Hi0]; [done|]. destruct (N.ltb_spec I64_MAX p.(value_id)) as [|Hi]; [done|]. cbn [orb mbind result_bind] in Ep.
  assert (Hlen : len stream <= VARLENA_LEN_MASK).
  { unfold validate_varlena_u32_len in Ep. destruct (VARLENA_LEN_MASK <? raw_len p); [done|]. cbn [mbind result_bind] in Ep. rewrite El in Ep. by destruct (N.ltb_spec VARLENA_LEN_MASK (len stream)). }
  unfold toast_value_key_prefix. rewrite (proj2 (N.ltb_ge _ _)) by done. rewrite (proj2 (N.eqb_neq _ _)) by done. cbn [orb mbind result_bind].
  destruct (scan_stored s.(store) t (Z.of_N p.(value_id))) as (xs & -> & Hxs). cbn [mbind result_bind]. rewrite Hs in Hxs.
  set (cs := chunks TOAST_CHUNK_PAYLOAD stream) in *.
  destruct (Permutation_Forall2 (Permutation_sym Hxs) (entries_numbered (value_id p) 0 cs)) as (ys & Hys & HF).
  destruct (collect_entries p.(value_id) xs ltac:(lia) ys [] HF) as (zs & -> & Hzs).
  { cbn [app fmap list_fmap]. rewrite <- Hys. apply numbered_nodup. }
  cbn [mbind result_bind]. rewrite app_nil_r, <- Hys in Hzs.
  rewrite (join_sorted p.(value_id) cs 0); [|..|apply StronglySorted_merge_sort; apply _].
  - unfold cs. rewrite chunks_concat by done. cbn [mbind result_bind]. rewrite El, N.eqb_refl. cbn [negb]. by destruct (parse_external_stream _ _).
  - pose proof (chunks_count TOAST_CHUNK_PAYLOAD stream) as Hc. fold cs in Hc. unfold VARLENA_LEN_MASK, VARLENA_TAG_SHIFT, I64_MAX in *. change (N.shiftl 1 30 - 1) with 1073741823 in *. change (2 ^ 63 - 1) with 9223372036854775807 in *. lia.
  - by rewrite merge_sort_Permutation.
Qed.

Lemma below_mono n m (xs : list Entry) : ids_below n xs -> n <= m -> ids_below m xs.
Proof using. intros H Hn. eapply Forall_impl; [exact H|]. intros x (z & rest & E & Hx). exists z, rest. split; [done|lia]. Qed.

Lemma alloc_fresh t s s' id : ids_ok t s -> alloc_toast_value_id t s = (s', Ok id) ->
  s'.(store) = s.(store) /\ 0 < id /\ ids_below id (stored s.(store) t) /\ s'.(toast_next_value_ids) = <[t := id + 1]> s.(toast_next_value_ids) /\
  (forall n, s.(toast_next_value_ids) !! t = Some n -> n = id).
Proof using.
  intros Hok. assert (Hfrom : forall next, 0 < next -> ids_below next (stored s.(store) t) -> (forall n, s.(toast_next_value_ids) !! t = Some n -> n = next) ->
    allocate_from t next s = (s', Ok id) -> s'.(store) = s.(store) /\ 0 < id /\ ids_below id (stored s.(store) t) /\ s'.(toast_next_value_ids) = <[t := id + 1]> s.(toast_next_value_ids) /\
    (forall n, s.(toast_next_value_ids) !! t = Some n -> n = id)).
  { intros next H0 Hb Hn E. unfold allocate_from, allocate_next_value_id, next_after_value_id, checked_add in E.
    destruct (MAX_TOAST_VALUE_ID <? next); [done|]. destruct (next + 1 <=? U64_MAX); [|done]. cbn in E. injection E as <- <-. done. }
  unfold alloc_toast_value_id, mbind, se_bind, gets, lift, Datatypes.id. destruct (live_toast_relation t s.(store)); [|done].
  destruct (s.(toast_next_value_ids) !! t) as [n|] eqn:En.
  - intros E. destruct (Hok n En) as [H0 Hb]. apply (Hfrom n); [done|done| |done]. by intros m [= ->].
  - destruct (seed_toast_next_value_id t s.(store)) as [n|] eqn:Es; [|done]. intros E.
    destruct (seed_above _ _ _ Es) as [H0 Hb]. by apply (Hfrom n).
Qed.

Lemma insert_chunks_stored t id cs : forall seq s s', insert_chunks t id seq cs s = (s', Ok ()) ->
  s'.(toast_next_value_ids) = s.(toast_next_value_ids) /\ stored s'.(store) t ≡ₚ entries id seq cs ++ stored s.(store) t.
Proof using.
  induction cs as [|c cs IH]; intros seq s s' E; cbn [insert_chunks] in E; [by injection E as <-|]. unfold mbind, se_bind, lift, on_store in E.
  destruct (chunk_row id seq c) as [row|] eqn:Er; [|done]. apply chunk_row_entry in Er as [_ ->].
  destruct (insert_chunk t (chunk_entry id seq c).2 s.(store)) as [w [[]|]] eqn:Ei; [|done]. apply insert_stored in Ei.
  destruct (IH _ _ _ E) as [H1 H2]. split; [done|]. rewrite H2. cbn [store entries]. rewrite Ei. cbn [app]. by rewrite <- Permutation_middle.
Qed.

Lemma entries_below id seq cs : 0 < id -> ids_below (id + 1) (entries id seq cs).
Proof using. intros Hi. revert seq. induction cs as [|c cs IH]; intros seq; constructor; [|apply IH]. do 2 eexists. split; [done|]. lia. Qed.

Lemma write_stream base t s s' raw_len codec stream p : base.(toast_table_id) = Some t -> ids_ok t s -> write_toast_stream base raw_len codec stream s = (s', Ok p) ->
  ids_ok t s' /\ p.(RowFormat.raw_len) = raw_len /\ p.(RowFormat.stored_len) = len stream /\ p.(tp_codec) = codec /\ is_Some (match ToastPointer_encode p with Ok e => Some e | Err _ => None end) /\
  holds_stream t s' p.(value_id) stream /\ forall id' stream', holds_stream t s id' stream' -> holds_stream t s' id' stream'.
Proof using.
  intros Ht Hok. unfold write_toast_stream. rewrite Ht. destruct (parse_external_stream codec stream); [rewrite lift_bind_Ok|done]. cbn [ok_or]. rewrite lift_bind_Ok.
  destruct (U32_MAX <? len stream); [done|]. rewrite lift_bind_Ok. unfold mbind at 1, se_bind at 1. destruct (alloc_toast_value_id t s) as [s1 [id|]] eqn:Ea; [|done].
  destruct (alloc_fresh t s s1 id Hok Ea) as (E1 & Hid & Hb & En & Hold). set (p' := mkToastPointer id raw_len (len stream) codec).
  destruct (ToastPointer_encode p') as [enc|] eqn:Ee; [rewrite lift_bind_Ok|done]. unfold mbind, se_bind.
  destruct (insert_chunks t id 0 (chunks TOAST_CHUNK_PAYLOAD stream) s1) as [s2 [[]|]] eqn:Ei; [|done]. intros E. injection E as <- <-.
  destruct (insert_chunks_stored _ _ _ _ _ _ Ei) as [Hn2 Hs2]. rewrite E1 in Hs2. rewrite En in Hn2. split_and!; try done.
  - intros n. rewrite Hn2, lookup_insert_eq. intros [= <-]. split; [lia|]. unfold ids_below. rewrite Hs2, Forall_app. split; [by apply entries_below|]. eapply below_mono; [exact Hb|lia].
  - rewrite Ee. by eexists.
  - split; [exists (id + 1); rewrite Hn2, lookup_insert_eq; split; [done|cbn; lia]|]. rewrite Hs2, filter_app. cbn [value_id p']. rewrite entries_starts, decide_True by done.
    rewrite (below_starts id) by (done || lia). by rewrite app_nil_r.
  - intros id' stream' [(n & Hn & Hi') Hs']. pose proof (Hold n Hn) as ->. split; [exists (id + 1); rewrite Hn2, lookup_insert_eq; split; [done|lia]|].
    rewrite Hs2, filter_app, entries_starts, decide_False by lia. done.
Qed.

(** *** Values *)

(** The bytes of a value, read back. *)
Lemma raw_back t v made raw : toastable_raw_bytes t v = Ok (Some (made, raw)) -> value_ok v ->
  is_varlena t = true /\ bytes_ok raw /\ decode_plain t raw = Ok v /\ null_value v = false /\ (is_array_type t = true -> len raw <= MAX_ARRAY_PAYLOAD_BYTES).
Proof using.
  destruct t, v; try done; cbn [toastable_raw_bytes value_ok].
  - intros [= <- <-] [Hb Hu]. split_and!; try done. cbn. unfold from_utf8. by rewrite Hu.
  - intros [= <- <-] Hb. by split_and!.
  - case_bool_decide as Ht; [|done]. subst. destruct (encode_array_payload _ _ _) as [payload|] eqn:Ep; [|done]. intros [= <- <-] Hok.
    split_and!; [done|by eapply encode_array_payload_bytes| |done|intros _; by eapply array_payload_fits]. cbn [decode_plain]. rewrite (array_roundtrip _ _ _ _ Hok Ep). cbn [mbind result_bind array_element_type].
    by rewrite bool_decide_eq_true_2.
Qed.
Lemma column_value_back schema i c v raw : schema.(columns) !! N.to_nat i = Some c -> is_varlena c.(data_type) = true -> decode_plain c.(data_type) raw = Ok v ->
  toast_value_for_column (D:=D) schema i raw = Ok v.
Proof using.
  intros Hc Hv. unfold toast_value_for_column, column_at. rewrite Hc. cbn [ok_or mbind result_bind]. destruct (data_type c); try done; cbn [decode_plain].
  - unfold from_utf8. by destruct (utf8_valid raw).
  - destruct (decode_array_payload raw); [|done]. cbn [mbind result_bind]. by destruct (negb _).
Qed.
Lemma array_len_back schema i c n : schema.(columns) !! N.to_nat i = Some c -> (is_array_type c.(data_type) = true -> n <= MAX_ARRAY_PAYLOAD_BYTES) ->
  validate_array_toast_raw_len schema i n = Ok ().
Proof using.
  intros Hc Hn. unfold validate_array_toast_raw_len, column_at. rewrite Hc. cbn [ok_or mbind result_bind]. destruct (is_array_type (data_type c)); [|done].
  unfold validate_decoded_array_payload_len. by rewrite (proj2 (N.ltb_ge _ _)) by auto.
Qed.

(** A payload from which a value's bytes are unpacked. *)
Definition packs (registry : CompressionRegistry) (codec : N) (dict_id : option N) (raw payload : bytes) : Prop :=
  codec = CODEC_NONE /\ dict_id = None /\ payload = raw \/
  codec = CODEC_ZSTD /\ dict_id = None /\ (exists level, zstd_compress None level raw = Ok payload) \/
  exists d b, codec = CODEC_ZSTD_DICT /\ dict_id = Some d /\ d <= U32_MAX /\ dictionary registry d = Some b /\ exists level, zstd_compress (Some b) level raw = Ok payload.

Lemma packs_dict registry codec dict_id raw payload : packs registry codec dict_id raw payload -> default 0 dict_id <= U32_MAX.
Proof using. intros [(_ & -> & _)|[(_ & -> & _)|(d & b & _ & -> & Hd & _)]]; done. Qed.
Lemma packs_bytes registry codec dict_id raw payload : packs registry codec dict_id raw payload -> bytes_ok raw -> bytes_ok payload.
Proof using Hzb. intros [(_ & _ & ->)|[(_ & _ & level & E)|(d & b & _ & _ & _ & _ & level & E)]]; intros Hb; [done|by apply Hzb in E..]. Qed.

Lemma unpacked registry codec dict_id raw payload : packs registry codec dict_id raw payload ->
  materialize_toast_payload crc32 zstd_decompress registry codec dict_id (len raw) (crc32 raw) payload = Ok raw.
Proof using Hz.
  intros H. unfold materialize_toast_payload. assert (decompress_value zstd_decompress registry codec dict_id payload (len raw) = Ok raw) as ->.
  { assert (Hlen : ensure_value_len raw (len raw) = Ok ()) by (unfold ensure_value_len; by rewrite N.eqb_refl).
    destruct H as [(-> & -> & ->)|[(-> & -> & level & E)|(d & b & -> & -> & _ & Hd & level & E)]]; unfold decompress_value; cbn [N.eqb CODEC_NONE CODEC_ZSTD CODEC_ZSTD_DICT Pos.eqb ok_or mbind result_bind].
    - by rewrite Hlen.
    - unfold decompress_value_zstd. rewrite (Hz _ _ _ _ E). cbn [map_err mbind result_bind]. by rewrite Hlen.
    - rewrite Hd. cbn [ok_or mbind result_bind]. rewrite (Hz _ _ _ _ E). cbn [map_err mbind result_bind]. by rewrite Hlen. }
  cbn [mbind result_bind]. by rewrite N.eqb_refl.
Qed.

(** *** Plans *)

Definition encodes (p : ToastPointer) : Prop := exists enc, ToastPointer_encode p = Ok enc.

(** A plan of a column from which its value is read back in a state. *)
Definition plan_good (registry : CompressionRegistry) (schema : TableSchema) (s : ToastState) (c : ColumnDef) (v : Value) (plan : ToastColumnPlan) : Prop :=
  match plan with
  | PlanNull => v = Null
  | PlanValue => v <> Null
  | PlanVarlena varlena => exists made raw, toastable_raw_bytes c.(data_type) v = Ok (Some (made, raw)) /\
      match varlena with
      | PlanPlain cached => cached = (if made then Some raw else None)
      | PlanCompressed codec dict_id raw_len raw_crc32 payload => raw_len = len raw /\ raw_crc32 = crc32 raw /\ packs registry codec dict_id raw payload
      | PlanExternal p => p.(raw_len) = len raw /\ encodes p /\ exists t dict_id payload stream, schema.(toast_table_id) = Some t /\ packs registry p.(tp_codec) dict_id raw payload /\
          build_external_stream p.(tp_codec) dict_id (crc32 raw) payload = Ok stream /\ p.(RowFormat.stored_len) = len stream /\ holds_stream t s p.(value_id) stream
      end
  end.

Lemma plan_prepared registry schema s c v plan pv : plan_good registry schema s c v plan -> value_ok v -> prepared_of c v plan = Ok pv -> prepared_ok pv.
Proof using Hcrc Hzb.
  destruct plan as [| |[cached|codec dict_id rl rc payload|p]]; cbn [plan_good prepared_of]; intros Hg Hv E.
  - by apply Ok_inj in E as <-.
  - by apply Ok_inj in E as <-.
  - destruct Hg as (made & raw & Er & ->). destruct (raw_back _ _ _ _ Er Hv) as (_ & Hb & _). unfold plain_raw in E. rewrite Er in E. cbn in E.
    destruct made; apply Ok_inj in E as <-; exact Hb.
  - destruct Hg as (made & raw & Er & -> & -> & Hp). apply Ok_inj in E as <-. destruct (raw_back _ _ _ _ Er Hv) as (_ & Hb & _).
    split_and!; [by eapply packs_dict|apply Hcrc|by eapply packs_bytes].
  - by apply Ok_inj in E as <-.
Qed.

Lemma plan_back registry schema s i c v plan pv : schema.(columns) !! N.to_nat i = Some c ->
  plan_good registry schema s c v plan -> value_ok v -> prepared_of c v plan = Ok pv ->
  materialize_value crc32 zstd_decompress registry s schema (physical_value i c.(data_type) pv) = Ok v.
Proof using Hcrc Hz.
  intros Hc Hg Hv E. destruct plan as [| |varlena]; [cbn in Hg, E; apply Ok_inj in E as <-; by rewrite Hg|cbn in E; by apply Ok_inj in E as <-|].
  destruct Hg as (made & raw & Er & Hg). destruct (raw_back _ _ _ _ Er Hv) as (Hvar & Hb & Hd & _ & Ha). cbn [prepared_of] in E.
  destruct varlena as [cached|codec dict_id rl rc payload|p].
  - subst cached. unfold plain_raw in E. rewrite Er in E. assert (pv = PVarlena (Plain raw)) as -> by (destruct made; by apply Ok_inj in E).
    cbn [physical_value]. by rewrite Hd.
  - destruct Hg as (-> & -> & Hp). apply Ok_inj in E as <-. cbn [physical_value materialize_value]. rewrite (array_len_back _ _ c) by done. cbn [mbind result_bind].
    rewrite unpacked by done. cbn [mbind result_bind]. by eapply column_value_back.
  - destruct Hg as (Hrl & [enc Henc] & t & dict_id & payload & stream & Ht & Hp & Hbs & Hsl & Hh). apply Ok_inj in E as <-. cbn [physical_value materialize_value].
    rewrite Hrl, (array_len_back _ _ c) by done. cbn [mbind result_bind]. pose proof (build_parse _ _ _ _ _ Hbs (Hcrc raw) (packs_dict _ _ _ _ _ Hp)) as Hparse.
    rewrite (read_stream schema t s p stream enc Ht Hh Henc Hsl) by (by rewrite Hparse). cbn [mbind result_bind]. rewrite Hparse. cbn [mbind result_bind].
    rewrite unpacked by done. cbn [mbind result_bind]. by eapply column_value_back.
Qed.

(** A column with its value and its plan. *)
Abbreviation Planned := (ColumnDef * Value * ToastColumnPlan)%type.
Definition row_good (registry : CompressionRegistry) (schema : TableSchema) (s : ToastState) (xs : list Planned) : Prop :=
  Forall (fun x => plan_good registry schema s x.1.1 x.1.2 x.2 /\ value_ok x.1.2) xs.

Lemma prepared_from_each xs values : prepared_from xs = Ok values -> Forall2 (fun x pv => prepared_of x.1.1 x.1.2 x.2 = Ok pv) xs values.
Proof using.
  revert values. induction xs as [|[[c v] p] xs IH]; intros values E; cbn [prepared_from] in E; [apply Ok_inj in E as <-; constructor|].
  destruct (prepared_of c v p) as [pv|] eqn:Ep; [|done]. cbn [mbind result_bind] in E. destruct (prepared_from xs) as [pvs|] eqn:Ex; [|done]. cbn [mbind result_bind] in E.
  apply Ok_inj in E as <-. constructor; [done|by apply IH].
Qed.

Lemma materialize_back registry schema s xs values : forall i, Forall2 (fun x pv => prepared_of x.1.1 x.1.2 x.2 = Ok pv) xs values -> row_good registry schema s xs ->
  (forall k x, xs !! k = Some x -> schema.(columns) !! (N.to_nat i + k)%nat = Some x.1.1) ->
  materialize_values crc32 zstd_decompress registry s schema (physicals (fun i cv => physical_value i cv.1.(data_type) cv.2) i (zip xs.*1.*1 values)) = Ok xs.*1.*2.
Proof using Hcrc Hz.
  intros i HF. revert i. induction HF as [|x pv xs values Hx HF IH]; intros i Hg Hc; [done|]. apply Forall_cons in Hg as [[Hp Hv] Hg].
  cbn [fmap list_fmap zip_with physicals materialize_values fst snd].
  rewrite (plan_back registry schema s i x.1.1 x.1.2 x.2 pv) by (done || (pose proof (Hc 0%nat x eq_refl) as H0; by rewrite Nat.add_0_r in H0)).
  cbn [mbind result_bind]. rewrite IH; [done|done|]. intros k y Hy. specialize (Hc (S k) y Hy). by replace (N.to_nat (i + 1) + k)%nat with (N.to_nat i + S k)%nat by lia.
Qed.

Lemma zip_columns (cs : list ColumnDef) (vs : Row) (ps : list ToastColumnPlan) : len vs = len cs -> len ps = len cs ->
  (zip (zip cs vs) ps).*1.*1 = cs /\ (zip (zip cs vs) ps).*1.*2 = vs.
Proof using.
  unfold len. intros H1 H2. assert (length (zip cs vs) = length cs) by (rewrite length_zip_with; lia). rewrite !fst_zip, snd_zip by lia. done.
Qed.

(** A row whose plans are good is read back from its bytes. *)
Lemma planned_row_back registry schema s header row plans values b : header_ok header -> row_good registry schema s (zip (zip schema.(columns) row) plans) ->
  materialize_prepared_values schema row plans = Ok values -> encode_fitting schema header values = Ok b ->
  exists phys, decode_physical_row schema b = Ok phys /\ phys.(pr_header) = header /\ materialize_physical_row crc32 zstd_decompress registry s schema phys = Ok row.
Proof using Hcrc Hz Hzb.
  intros Hh Hg Em Ef. unfold materialize_prepared_values in Em. destruct (N.eqb_spec (len row) (len schema.(columns))) as [Hr|]; [|done].
  destruct (N.eqb_spec (len plans) (len schema.(columns))) as [Hp|]; [|done]. cbn [negb orb] in Em. apply prepared_from_each in Em.
  destruct (zip_columns _ _ _ Hr Hp) as [Hz1 Hz2]. set (xs := zip _ plans) in *.
  unfold encode_fitting in Ef. destruct (encode_row_v3_prepared schema header values) as [b'|] eqn:Ee; [|done]. cbn [mbind result_bind] in Ef.
  unfold ensure_row_len_fits_page, row_len_fits_page, checked_add in Ef. destruct (N.leb_spec (len b' + page_overhead) USIZE_MAX); [|done].
  destruct (len b' + page_overhead <=? PAGE_SIZE); [|done]. cbn in Ef. apply Ok_inj in Ef as <-.
  eexists. split; [apply prepared_row_back; [done| |exact Ee|lia]|split; [done|]].
  - apply Forall_forall. intros pv Hpv. apply list_elem_of_lookup in Hpv as [k Hk]. destruct (Forall2_lookup_r _ _ _ _ _ Em Hk) as (x & Hx & Ex).
    destruct (Forall_lookup_1 _ _ _ _ Hg Hx) as [H1 H2]. by eapply plan_prepared.
  - unfold materialize_physical_row. cbn [pr_values]. pose proof (materialize_back registry schema s xs values 0 Em Hg) as H'. rewrite Hz1, Hz2 in H'. apply H'.
    intros k x Hx. replace (N.to_nat 0 + k)%nat with k by lia. rewrite <- Hz1, !list_lookup_fmap, Hx. done.
Qed.

(** *** Candidates *)

Definition dict_fits (options : ToastOptions) : Prop := forall d, options.(active_dict_id) = Some d -> d <= U32_MAX.

(** A column that may be moved out: the payload of its stream unpacks to its bytes. *)
Definition cand_good (registry : CompressionRegistry) (schema : TableSchema) (row : Row) (c : ToastCandidate) : Prop :=
  exists column value made raw payload, schema.(columns) !! c.(tc_column) = Some column /\ row !! c.(tc_column) = Some value /\
    toastable_raw_bytes column.(data_type) value = Ok (Some (made, raw)) /\ c.(tc_raw_len) = len raw /\ c.(tc_raw_crc32) = crc32 raw /\
    candidate_stream_payload schema row c = Ok payload /\ packs registry c.(stream_codec) c.(stream_dict_id) raw payload.

Lemma compressed_packs registry options raw cv : dict_fits options -> try_toast_value_compression zstd_compress registry options raw = Ok (Some cv) ->
  packs registry cv.(cv_codec) cv.(cv_dict_id) raw cv.(cv_payload).
Proof using.
  intros Hd. unfold try_toast_value_compression, compress_value_zstd, compress_value_zstd_dict.
  assert (Hplain : (payload ← map_err (fun err => Compress.corrupt ("zstd value compress failed: " +:+ err)) (zstd_compress None TOAST_ZSTD_LEVEL raw);
    Ok (Some (mkCompressedValue CODEC_ZSTD None payload))) = Ok (Some cv) -> packs registry cv.(cv_codec) cv.(cv_dict_id) raw cv.(cv_payload)).
  { destruct (zstd_compress None TOAST_ZSTD_LEVEL raw) as [payload|] eqn:E; [|done]. intros [= <-]. right. left. split_and!; try done. by exists TOAST_ZSTD_LEVEL. }
  destruct (compression options); [done|exact Hplain|]. destruct (active_dict_id options) as [d|] eqn:Ed; [|exact Hplain].
  destruct (dictionary registry d) as [b|] eqn:Eb; [|done]. cbn [ok_or mbind result_bind]. destruct (zstd_compress (Some b) LEVEL_AT_REST raw) as [payload|] eqn:E; [|done].
  intros [= <-]. right. right. exists d, b. split_and!; [done|done|by apply Hd|done|]. by exists LEVEL_AT_REST.
Qed.

Lemma inline_column_good registry schema s options row index column value made raw plan cand : dict_fits options ->
  schema.(columns) !! index = Some column -> row !! index = Some value -> toastable_raw_bytes column.(data_type) value = Ok (Some (made, raw)) ->
  inline_column crc32 zstd_compress registry options index made raw = Ok (plan, cand) ->
  plan_good registry schema s column value plan /\ forall c, cand = Some c -> cand_good registry schema row c.
Proof using.
  intros Hd Hc Hv Hr. unfold inline_column. destruct (supported_varlena_len (len raw)) as [n|] eqn:En; [|done]. cbn [mbind result_bind].
  assert (n = len raw) as ->.
  { unfold supported_varlena_len in En. destruct (U32_MAX <? len raw); [done|]. destruct (VARLENA_LEN_MASK <? len raw); [done|]. by apply Ok_inj in En. }
  set (long := min_value_size options <=? len raw). set (compressed := if long && _ then _ else _).
  destruct compressed as [[cv|]|] eqn:Ec; [..|done]; cbn [mbind result_bind].
  - assert (Hpk : packs registry cv.(cv_codec) cv.(cv_dict_id) raw cv.(cv_payload)).
    { subst compressed. destruct (long && _); [|done]. by eapply compressed_packs. }
    cbv zeta. destruct (_ + MIN_TOAST_COMPRESSION_SAVINGS <=? len raw); intros E; apply Ok_inj in E; injection E as <- <-.
    + split; [exists made, raw; by split_and!|]. intros c. destruct long; [|done]. intros [= <-].
      exists column, value, made, raw, cv.(cv_payload). by split_and!.
    + split; [exists made, raw; by split_and!|]. intros c. destruct long; [|done]. intros [= <-].
      exists column, value, made, raw, raw. split_and!; try done; [|by left]. unfold candidate_stream_payload. cbn [stream_payload tc_column].
      destruct made; [done|]. rewrite Hc, Hv. cbn [ok_or mbind result_bind]. by rewrite Hr.
  - intros E; apply Ok_inj in E; injection E as <- <-. split; [exists made, raw; by split_and!|]. intros c. destruct long; [|done]. intros [= <-].
    exists column, value, made, raw, raw. split_and!; try done; [|by left]. unfold candidate_stream_payload. cbn [stream_payload tc_column].
    destruct made; [done|]. rewrite Hc, Hv. cbn [ok_or mbind result_bind]. by rewrite Hr.
Qed.

(** The plans of all columns but the pending ones are good. *)
Definition good_but (registry : CompressionRegistry) (schema : TableSchema) (s : ToastState) (row : Row) (plans : list ToastColumnPlan) (pending : list nat) : Prop :=
  forall i c v p, schema.(columns) !! i = Some c -> row !! i = Some v -> plans !! i = Some p -> i ∉ pending -> plan_good registry schema s c v p.

Lemma inline_from_good registry schema s options full : dict_fits options -> forall row index plans cands,
  (forall k v, row !! k = Some v -> full !! (index + k)%nat = Some v) -> inline_from crc32 zstd_compress registry options schema.(columns) index row = Ok (plans, cands) ->
  (forall k c v p, schema.(columns) !! (index + k)%nat = Some c -> row !! k = Some v -> plans !! k = Some p -> plan_good registry schema s c v p) /\
  Forall (cand_good registry schema full) cands.
Proof using.
  intros Hd. induction row as [|v row IH]; intros index plans cands Hf E; cbn [inline_from] in E; [apply Ok_inj in E; injection E as <- <-; by split|].
  match type of E with (mbind ?k ?m) = _ => set (one := m) in E end. destruct one as [[plan cand]|] eqn:Eo; [|done]. cbn [mbind result_bind] in E.
  destruct (inline_from _ _ _ _ _ (S index) row) as [[plans' cands']|] eqn:Er; [|done]. cbn [mbind result_bind] in E. apply Ok_inj in E. injection E as <- <-.
  destruct (IH (S index) plans' cands') as [IH1 IH2]; [|done|].
  { intros k w Hk. specialize (Hf (S k) w Hk). by replace (S index + k)%nat with (index + S k)%nat by lia. }
  pose proof (Hf 0%nat v eq_refl) as Hf0. rewrite Nat.add_0_r in Hf0.
  assert (H0 : (forall c, schema.(columns) !! index = Some c -> plan_good registry schema s c v plan) /\ forall c, cand = Some c -> cand_good registry schema full c).
  { subst one. destruct (schema.(columns) !! index) as [column|] eqn:Ec; [|apply Ok_inj in Eo; by injection Eo as <- <-].
    destruct (toastable_raw_bytes column.(data_type) v) as [[[made raw]|]|] eqn:Et.
    - assert (Eo' : inline_column crc32 zstd_compress registry options index made raw = Ok (plan, cand)).
      { destruct v; [by destruct (data_type column)|..]; exact Eo. }
      destruct (inline_column_good _ schema s _ full _ _ _ _ _ _ _ Hd Ec Hf0 Et Eo') as [H1 H2]. split; [|done]. by intros c [= <-].
    - destruct v; apply Ok_inj in Eo; injection Eo as <- <-; (split; [|done]); by intros c [= <-].
    - destruct v; [apply Ok_inj in Eo; injection Eo as <- <-; (split; [|done]); by intros c [= <-]|discriminate Eo..]. }
  destruct H0 as [Hp Hc]. split.
  - intros [|k] c w p Hck Hw Hpk; [|apply (IH1 k c w p); [|done|done]; by replace (S index + k)%nat with (index + S k)%nat by lia].
    rewrite Nat.add_0_r in Hck. injection Hw as <-. injection Hpk as <-. by apply Hp.
  - apply Forall_app. split; [|done]. destruct cand as [c|]; [|constructor]. constructor; [by apply Hc|constructor].
Qed.

(** *** Moving columns out *)

Lemma plan_external_spec rel row cands : forall plans plans' planned, plan_external rel row plans cands = Ok (plans', planned) ->
  (forall P : ToastCandidate -> Prop, Forall P cands -> Forall P planned) /\ length plans' = length plans /\ (forall i, i ∉ tc_column <$> planned -> plans' !! i = plans !! i).
Proof using.
  induction cands as [|c cands IH]; intros plans plans' planned E; cbn [plan_external] in E; [apply Ok_inj in E; by injection E as <- <-|].
  destruct (candidate_stream_payload _ _ c) as [payload|]; [|done]. cbn [mbind result_bind] in E.
  destruct (external_stream_stored_len _ _ _) as [n|]; [|done]. cbn [mbind result_bind] in E. set (p := mkToastPointer _ _ n _) in E.
  destruct (ToastPointer_encode p); [|done]. cbn [mbind result_bind] in E. destruct (planned_row_meets_toast_goal _ _ _) as [met|]; [|done]. cbn [mbind result_bind] in E.
  assert (Hlk : forall i, i <> c.(tc_column) -> external_at plans c.(tc_column) p !! i = plans !! i) by (intros i Hi; apply list_lookup_insert_ne; congruence).
  destruct met.
  - apply Ok_inj in E. injection E as <- <-. split_and!; [|apply length_insert|].
    + intros P [HP _]%Forall_cons. by constructor.
    + intros i Hi. apply Hlk. intros ->. apply Hi. left.
  - destruct (plan_external _ _ _ cands) as [[plans1 planned1]|] eqn:E1; [|done]. apply Ok_inj in E. injection E as <- <-. destruct (IH _ _ _ E1) as (H1 & H2 & H3). split_and!.
    + intros P [HP HPs]%Forall_cons. constructor; [done|by apply H1].
    + rewrite H2. apply length_insert.
    + intros i Hi. cbn in Hi. rewrite H3 by (intros Hin; apply Hi; by right). apply Hlk. intros ->. apply Hi. left.
Qed.

Lemma good_later registry schema s s' c v p : (forall t id stream, schema.(toast_table_id) = Some t -> holds_stream t s id stream -> holds_stream t s' id stream) ->
  plan_good registry schema s c v p -> plan_good registry schema s' c v p.
Proof using.
  intros H. destruct p as [| |[cached|codec dict_id rl rc payload|p]]; cbn [plan_good]; try done.
  intros (made & raw & Er & Hrl & He & t & dict_id & payload & stream & Ht & Hp & Hb & Hs & Hh). exists made, raw. split_and!; [done..|].
  exists t, dict_id, payload, stream. split_and!; try done. by apply H.
Qed.

Lemma write_external_good registry rel row t planned : rel.(rel_schema).(toast_table_id) = Some t -> Forall (cand_good registry rel.(rel_schema) row) planned ->
  forall plans s s' plans', ids_ok t s -> length plans = length row -> good_but registry rel.(rel_schema) s row plans (tc_column <$> planned) ->
  write_external rel row plans planned s = (s', Ok plans') -> ids_ok t s' /\ good_but registry rel.(rel_schema) s' row plans' [] /\ forall id stream, holds_stream t s id stream -> holds_stream t s' id stream.
Proof using.
  intros Ht. induction 1 as [|c planned Hc _ IH]; intros plans s s' plans' Hids Hl Hg E; cbn [write_external] in E; [by injection E as <- <-|].
  destruct Hc as (column & value & made & raw & payload & Ec & Ev & Er & Hrl & Hcrc' & Hpay & Hpk). rewrite Hpay, lift_bind_Ok, Hcrc' in E.
  destruct (build_external_stream _ _ _ payload) as [stream|] eqn:Eb; [rewrite lift_bind_Ok in E|done]. unfold mbind, se_bind in E.
  destruct (write_toast_stream _ _ _ stream s) as [s1 [p|]] eqn:Ew; [|done].
  destruct (write_stream _ _ _ _ _ _ _ _ Ht Hids Ew) as (Hids1 & Hp1 & Hp2 & Hp3 & [enc Henc] & Hh & Hold).
  assert (Henc' : encodes p) by (destruct (ToastPointer_encode p) as [e|] eqn:Ee; [by exists e|done]).
  destruct (IH (external_at plans c.(tc_column) p) s1 s' plans' Hids1) as (H1 & H2 & H3); [by unfold external_at; rewrite length_insert| |done|].
  - intros i ci v pl Hci Hv Hpl Hni. destruct (decide (i = c.(tc_column))) as [->|Hne].
    + unfold external_at in Hpl. rewrite list_lookup_insert_eq in Hpl by (rewrite Hl; by eapply lookup_lt_Some). injection Hpl as <-.
      rewrite Ec in Hci. injection Hci as <-. rewrite Ev in Hv. injection Hv as <-. exists made, raw. split_and!; [done|by rewrite Hp1|done|].
      exists t, c.(stream_dict_id), payload, stream. rewrite Hp3. by split_and!.
    + unfold external_at in Hpl. rewrite list_lookup_insert_ne in Hpl by congruence. eapply good_later; [|eapply (Hg i ci v pl Hci Hv Hpl)].
      * intros t' id str Ht' Hs. rewrite Ht in Ht'. injection Ht' as <-. by apply Hold.
      * cbn. intros [->|Hin]%elem_of_cons; [done|]. by apply Hni.
  - split_and!; [done|done|]. intros id str Hs. by apply H3, Hold.
Qed.

Lemma good_row registry schema s row plans : good_but registry schema s row plans [] -> Forall value_ok row -> row_good registry schema s (zip (zip schema.(columns) row) plans).
Proof using.
  intros Hg Hv. apply Forall_lookup_2. intros i [[c v] p] H. apply lookup_zip_with_Some in H as ([c0 v0] & p' & E & Hcv & Hp). cbn in E. simplify_eq.
  apply lookup_zip_with_Some in Hcv as (c' & v' & E & Hc & Hv'). cbn in E. simplify_eq. cbn. split; [by eapply Hg; [..|apply not_elem_of_nil]|by eapply Forall_lookup_1].
Qed.

(** Without a hidden relation: the values as they are. *)
Lemma plain_plans_prepared schema row : len row = len schema.(columns) -> materialize_prepared_values schema row (plain_column_plans row) = Ok (plain_prepared_values row).
Proof using.
  intros Hr. unfold materialize_prepared_values, plain_column_plans. replace (len (_ <$> row)) with (len row) by (unfold len; by rewrite length_fmap). rewrite Hr, N.eqb_refl. cbn [negb orb].
  unfold len in Hr. assert (Hl : length row = length schema.(columns)) by lia. clear Hr. revert Hl. generalize schema.(columns). unfold plain_prepared_values.
  induction row as [|v row IH]; intros [|c cs] Hl; try done. cbn [fmap list_fmap zip_with prepared_from].
  assert (prepared_of c v (match v with Null => PlanNull | _ => PlanValue end) = Ok (match v with Null => PNull | other => PValue other end)) as -> by (by destruct v).
  cbn [mbind result_bind]. rewrite IH by (cbn in Hl; lia). done.
Qed.
Lemma plain_plans_good registry schema s row : good_but registry schema s row (plain_column_plans row) [].
Proof using.
  intros i c v p _ Hv Hp _. unfold plain_column_plans in Hp. rewrite list_lookup_fmap, Hv in Hp. cbn in Hp. injection Hp as <-. by destruct v.
Qed.

Lemma fitting_fits schema header values b : encode_fitting (D:=D) schema header values = Ok b -> len b + page_overhead <= PAGE_SIZE.
Proof using.
  unfold encode_fitting, ensure_row_len_fits_page, row_len_fits_page, checked_add. destruct (encode_row_v3_prepared schema header values) as [b'|]; [|done]. cbn [mbind result_bind].
  destruct (len b' + page_overhead <=? USIZE_MAX); [|done]. destruct (N.leb_spec (len b' + page_overhead) PAGE_SIZE); [|done]. cbn. intros E. by apply Ok_inj in E as <-.
Qed.

(** What was stored before is kept, and the row is read back. *)
Definition row_stored (registry : CompressionRegistry) (rel : Relation) (header : MvccHeader) (row : Row) (s s' : ToastState) (b : bytes) : Prop :=
  len b + page_overhead <= PAGE_SIZE /\
  (exists phys, decode_physical_row rel.(rel_schema) b = Ok phys /\ phys.(pr_header) = header /\
    materialize_physical_row crc32 zstd_decompress registry s' rel.(rel_schema) phys = Ok row) /\
  forall t, rel.(rel_schema).(toast_table_id) = Some t -> ids_ok t s' /\ forall id stream, holds_stream t s id stream -> holds_stream t s' id stream.

Lemma encode_plans_stored registry rel header row plans s s' b : header_ok header -> Forall value_ok row -> good_but registry rel.(rel_schema) s' row plans [] ->
  (forall t, rel.(rel_schema).(toast_table_id) = Some t -> ids_ok t s' /\ forall id stream, holds_stream t s id stream -> holds_stream t s' id stream) ->
  encode_plans rel.(rel_schema) header row plans = Ok b -> row_stored registry rel header row s s' b.
Proof using Hcrc Hz Hzb.
  intros Hh Hv Hg Hs E. unfold encode_plans in E. destruct (materialize_prepared_values _ row plans) as [values|] eqn:Em; [|done]. cbn [mbind result_bind] in E.
  split_and!; [by eapply fitting_fits| |done]. eapply planned_row_back; [done|by apply good_row|exact Em|exact E].
Qed.

Lemma goal_lengths rel row plans met : planned_row_meets_toast_goal (D:=D) rel row plans = Ok met -> length plans = length row.
Proof using.
  unfold planned_row_meets_toast_goal, planned_row_len. destruct (N.eqb_spec (len row) (len (columns (rel_schema rel)))) as [H1|]; [|done].
  destruct (N.eqb_spec (len plans) (len (columns (rel_schema rel)))) as [H2|]; [|done]. intros _. unfold len in *. lia.
Qed.

(** C30: Rows with long values survive their storage.  When the preparation of a row succeeds,
    whatever it did to the columns - left them, compressed them in place with or without a
    dictionary, or moved them to the chunks of the hidden relation under a fresh value id -
    its bytes fit a page, decode to the header they were written with, and materialize to the
    row; and the out-of-line values of all other rows are still read as before. *)
Theorem toasted_row_is_read registry rel header row s s' b :
  header_ok header -> Forall value_ok row -> dict_fits rel.(toast) -> (forall t, rel.(rel_schema).(toast_table_id) = Some t -> ids_ok t s) ->
  prepare_row_for_storage crc32 zstd_compress registry rel header row s = (s', Ok b) -> row_stored registry rel header row s s' b.
Proof using Hcrc Hz Hzb.
  intros Hh Hv Hd Hids E. unfold prepare_row_for_storage in E. destruct (validate_logical_index_keys_fit rel row); [rewrite lift_bind_Ok in E|done].
  assert (Hsame : forall t, rel.(rel_schema).(toast_table_id) = Some t -> ids_ok t s /\ forall id stream, holds_stream t s id stream -> holds_stream t s id stream) by auto.
  destruct (_ || _ || _) eqn:Eplain.
  { unfold lift in E. destruct (encode_plain _ header row) as [b'|] eqn:Ep; [|done]. injection E as <- <-. unfold encode_plain, ensure_planned_row_fits_page in Ep.
    destruct (planned_row_len _ row _) as [n|] eqn:En; [|done]. cbn [mbind result_bind] in Ep. destruct (ensure_row_len_fits_page n); [|done]. cbn [mbind result_bind] in Ep.
    eapply encode_plans_stored; [done|done|apply plain_plans_good|done|]. unfold encode_plans. rewrite plain_plans_prepared; [exact Ep|].
    unfold planned_row_len in En. by destruct (N.eqb_spec (len row) (len (columns (rel_schema rel)))). }
  destruct (has_toast _) eqn:Ht; [cbn [negb] in E|done]. apply bool_decide_eq_true in Ht as [t Ht].
  destruct (prepare_inline_toast_candidates _ _ _ _ _) as [[plans cands]|] eqn:Ei; [rewrite lift_bind_Ok in E; cbv beta iota in E|done].
  unfold prepare_inline_toast_candidates in Ei. pose proof (inline_from_good registry rel.(rel_schema) s rel.(toast) row Hd row 0 plans cands ltac:(auto) Ei) as [Hg Hc].
  assert (Hgood : good_but registry rel.(rel_schema) s row plans []) by (intros i c v p H1 H2 H3 _; by apply (Hg i c v p)).
  destruct (planned_row_meets_toast_goal _ _ _) as [met|] eqn:Em; [rewrite lift_bind_Ok in E|done]. apply goal_lengths in Em. destruct met.
  { unfold lift in E. injection E as <- E. by eapply encode_plans_stored. }
  destruct (mode_is_off rel).
  { unfold lift in E. injection E as <- E. destruct (ensure_planned_row_fits_page _ _ _); [|done]. by eapply encode_plans_stored. }
  destruct (plan_external _ _ _ _) as [[plans1 planned]|] eqn:Epl; [rewrite lift_bind_Ok in E; cbv beta iota in E|done].
  destruct (plan_external_spec _ _ _ _ _ _ Epl) as (Hpl & Hl1 & Hsame1). destruct (ensure_planned_row_fits_page _ _ _); [rewrite lift_bind_Ok in E|done].
  unfold mbind, se_bind in E. destruct (write_external rel row plans1 planned s) as [s1 [plans2|]] eqn:Ew; [|done]. unfold lift in E. injection E as <- E.
  destruct (write_external_good registry rel row t planned Ht (Hpl _ ltac:(rewrite merge_sort_Permutation; exact Hc)) plans1 s s1 plans2 (Hids t Ht)) as (H1 & H2 & H3); [congruence| |done|].
  - intros i c v p Hci Hvi Hp Hni. rewrite Hsame1 in Hp by done. by apply (Hg i c v p).
  - eapply encode_plans_stored; [done|done|exact H2| |exact E]. intros t' Ht'. rewrite Ht in Ht'. injection Ht' as <-. done.
Qed.

(** *** The planned length *)

Lemma put_varlena_len tag payload raw : put_varlena tag payload = Ok raw -> len raw = 4 + len payload.
Proof using. unfold put_varlena. destruct (pack_varlena_len tag (len payload)); [|done]. intros E. apply Ok_inj in E as <-. by rewrite len_app, len_le_bytes. Qed.
Lemma pointer_len p enc : ToastPointer_encode p = Ok enc -> len enc = TOAST_POINTER_LEN.
Proof using.
  unfold ToastPointer_encode. destruct (validate_toast_pointer_value_id _); [|done]. cbn [mbind result_bind].
  destruct (validate_varlena_u32_len p.(raw_len) _); [|done]. cbn [mbind result_bind]. destruct (validate_varlena_u32_len _ _); [|done]. cbn [mbind result_bind]. destruct (validate_toast_pointer_codec _); [|done]. cbn [mbind result_bind]. intros E. apply Ok_inj in E as <-. by rewrite !len_app, !len_le_bytes.
Qed.
Lemma varlena_len n m k : (_ ← supported_varlena_len m; checked_varlena_len_add n m) = Ok k -> k = n + m.
Proof using.
  destruct (supported_varlena_len m); [|done]. unfold checked_varlena_len_add, checked_add. cbn [mbind result_bind]. destruct (_ <=? _); [|done]. cbn. intros E. by apply Ok_inj in E.
Qed.
Lemma array_planned_len t ds es n payload : encoded_array_payload_len (D:=D) t ds es = Ok n -> encode_array_payload t ds es = Ok payload -> len payload = n.
Proof using.
  intros En. unfold encode_array_payload. rewrite En. cbn [mbind result_bind]. destruct (U32_MAX <? len es); [done|]. destruct (U8_MAX <? len ds); [done|].
  destruct (encode_array_element_type t); [|done]. cbn [mbind result_bind]. destruct (encode_elements _ _ _ _ _) as [[bm tail]|]; [|done]. cbn [mbind result_bind].
  match goal with |- context [negb (?x =? n)] => destruct (N.eqb_spec x n) as [Hx|]; [|done] end. cbn [negb]. intros E. apply Ok_inj in E as <-. exact Hx.
Qed.

Lemma value_len column v n raw : value_ok v -> logical_value_v3_len column v = Ok n -> encode_column_value_v3 column v = Ok raw -> len raw = n.
Proof using.
  intros Hok. unfold logical_value_v3_len, encode_column_value_v3, encode_fixed.
  destruct v as [|z|str|x|z|z|z|z|i|bs|u|f|d|f|at' ds es], (data_type column); try done; intros En Er;
    try (apply Ok_inj in En as <-; apply Ok_inj in Er as <-; by rewrite ?len_app, ?len_le_bytes).
  all: try (apply varlena_len in En as ->; by apply put_varlena_len in Er).
  all: try (apply Ok_inj in En as <-; apply Ok_inj in Er as <-; unfold put_interval, put_numeric, to_le_signed; rewrite ?len_app, ?len_le_bytes; first [done|by destruct Hok]).
  case_bool_decide; [|done]. destruct (encoded_array_payload_len at' ds es) as [m|] eqn:Em; [|done]. cbn [mbind result_bind] in En.
  destruct (encode_array_payload at' ds es) as [payload|] eqn:Ep; [|done]. cbn [mbind result_bind] in Er. apply varlena_len in En as ->. apply put_varlena_len in Er as ->.
  by rewrite (array_planned_len _ _ _ _ _ Em Ep).
Qed.

Lemma column_len schema column v plan n pv raw : value_ok v -> planned_column_len column v plan (has_toast schema) = Ok n -> prepared_of column v plan = Ok pv ->
  encoded_as (fun cv => prepared_null cv.2) (fun cv => encode_prepared schema cv.1 cv.2) (column, pv) raw -> len raw = n.
Proof using.
  intros Hok En Ep Er. destruct plan as [| |varlena]; cbn [planned_column_len prepared_of] in *.
  - apply Ok_inj in Ep as <-. cbn in Er. subst raw. destruct (check_nullable column); [|done]. by apply Ok_inj in En as <-.
  - apply Ok_inj in Ep as <-. by eapply value_len.
  - destruct (negb (is_varlena _)); [done|]. destruct varlena as [cached|codec dict_id rl rc payload|p].
    + destruct (plain_raw column v cached) as [r|]; [|done]. cbn [mbind result_bind] in *. apply Ok_inj in Ep as <-. apply varlena_len in En as ->. cbn in Er. unfold encode_varlena_physical in Er.
      destruct (negb _) in Er; [done|]. destruct (_ && _) in Er; [done|]. match type of Er with (mbind _ ?m) = _ => destruct m; [|done] end. by apply put_varlena_len in Er.
    + apply Ok_inj in Ep as <-. apply varlena_len in En as ->. cbn in Er. unfold encode_varlena_physical in Er. destruct (negb _) in Er; [done|].
      destruct (validate_inline_compressed_metadata _ _ _); [|done]. cbn [mbind result_bind] in Er. destruct (ok_or _ _); [|done]. cbn [mbind result_bind] in Er.
      apply put_varlena_len in Er as ->. unfold inline_compressed_stored_len. rewrite !len_app, !len_le_bytes. change (len [codec]) with 1. lia.
    + apply Ok_inj in Ep as <-. cbn in Er. unfold encode_varlena_physical in Er. destruct (negb _) in Er; [done|]. destruct (negb _) in Er; [done|]. destruct (negb _) in En; [done|].
      destruct (ToastPointer_encode p) as [enc|] eqn:Ee; [|done]. cbn [mbind result_bind] in *. apply put_varlena_len in Er as ->. rewrite (pointer_len _ _ Ee).
      unfold checked_varlena_len_add, checked_add in En. destruct (_ <=? _); [|done]. by apply Ok_inj in En.
Qed.

Lemma columns_len schema xs : Forall (fun x => value_ok x.1.2) xs -> forall total n values raws, planned_len_from total (has_toast schema) xs = Ok n ->
  Forall2 (fun x pv => prepared_of x.1.1 x.1.2 x.2 = Ok pv) xs values ->
  Forall2 (encoded_as (fun cv => prepared_null cv.2) (fun cv => encode_prepared schema cv.1 cv.2)) (zip xs.*1.*1 values) raws -> total + len (concat raws) = n.
Proof using.
  induction 1 as [|[[c v] p] xs Hv _ IH]; intros total n values raws En Hp Hr.
  - inversion Hp; subst. inversion Hr; subst. apply Ok_inj in En as <-. apply N.add_0_r.
  - inversion Hp as [|? pv ? values' Hpv Hp']; subst. cbn [fmap list_fmap fst zip_with] in Hr. inversion Hr as [|? raw ? raws' Hraw Hr']; subst. cbn [planned_len_from] in En.
    destruct (planned_column_len c v p _) as [m|] eqn:Em; [|done]. cbn [mbind result_bind] in En. unfold checked_row_len_add, checked_add in En.
    destruct (_ <=? _); [|done]. cbn [ok_or mbind result_bind] in En. rewrite <- (IH _ _ _ _ En Hp' Hr'). cbn [concat]. rewrite len_app.
    rewrite (column_len schema c v p m pv raw); [lia|done|done|done|exact Hraw].
Qed.

(** The planner's arithmetic is exact: whatever mixture of nulls, plain values, values
    compressed in place and pointers a plan prescribes, the length computed from the plan is
    the length of the row encoded from it.  A row that was planned to fit its target and its
    page does, and is not refused after its chunks were written. *)
Theorem planned_len_exact schema header row plans n values b :
  header_ok header -> Forall value_ok row -> planned_row_len schema row plans = Ok n -> materialize_prepared_values schema row plans = Ok values ->
  encode_row_v3_prepared schema header values = Ok b -> len b = n.
Proof using.
  intros Hh Hv En Em Eb. unfold planned_row_len, materialize_prepared_values in *. destruct (N.eqb_spec (len row) (len schema.(columns))) as [Hr|]; [|done].
  destruct (N.eqb_spec (len plans) (len schema.(columns))) as [Hp|]; [|done]. cbn [negb orb] in *. apply prepared_from_each in Em. destruct (zip_columns _ _ _ Hr Hp) as [Hz1 Hz2].
  set (xs := zip _ plans) in *. unfold encode_row_v3_prepared in Eb. destruct (N.eqb_spec (len values) (len schema.(columns))) as [Hl|]; [|done]. cbn [negb] in Eb.
  destruct (write_mvcc_header _ header) as [hb|] eqn:Eh; [|done]. cbn [mbind result_bind] in Eb. destruct (header_roundtrip _ _ _ Hh Eh) as [Hhl _].
  destruct (len_zip schema.(columns) values Hl) as (Hzl & _ & _). unfold empty_bitmap in Eb. rewrite <- Hzl in Eb.
  destruct (encode_nullable _ _ _ _ _ _ _) as [[bm tail]|] eqn:Ee; [|done]. cbn [mbind result_bind] in Eb. apply Ok_inj in Eb as <-.
  apply null_bitmap_ok in Ee as (Hbl & _ & raws & HF & ->). rewrite Hzl in Hbl. rewrite <- Hz1 in HF.
  assert (Hvx : Forall (fun x => value_ok x.1.2) xs) by (rewrite <- Hz2 in Hv; by rewrite !Forall_fmap in Hv).
  pose proof (columns_len schema xs Hvx _ _ _ _ En Em HF) as H. rewrite !len_app, Hhl, Hbl. change (len [ROW_FORMAT_VERSION_V3]) with 1. rewrite Hp in H. lia.
Qed.
End Spec.

(** ** A hidden relation in memory *)

Abbreviation DemoVal := (Value (Z * N)).
Abbreviation DemoEntry := (list DemoVal * list DemoVal)%type.
Definition demo_rows (w : gmap N (list DemoEntry)) (t : N) : list DemoEntry := default [] (w !! t).
Definition belowb (n : N) (x : DemoEntry) : bool := match x.1 with Integer z :: _ => (0 <? z)%Z && (z <? Z.of_N n)%Z | _ => false end.
Definition id_of (x : DemoEntry) : N := match x.1 with Integer z :: _ => Z.to_N z | _ => 0 end.

Global Instance memory_store : ChunkStore (Z * N) (gmap N (list DemoEntry)) := {|
  insert_chunk t row w := (<[t := (take 2 row, row) :: demo_rows w t]> w, Ok ());
  scan_prefix t prefix w := match prefix with [Integer id] => Ok (filter (fun x => starts id x = true) (demo_rows w t)) | _ => Err (storage_internal "prefix") end;
  live_toast_relation _ _ := Ok ();
  seed_toast_next_value_id t w :=
    let n := foldr N.max 0 (id_of <$> demo_rows w t) + 1 in if forallb (belowb n) (demo_rows w t) then Ok n else Err (storage_internal "invalid value_id")
|}.
Global Program Instance memory_store_laws : ChunkStoreLaws (Z * N) (gmap N (list DemoEntry)) := {| stored := demo_rows |}.
Next Obligation. intros w w' t id seq data [= <-]. unfold demo_rows at 1. by rewrite lookup_insert_eq. Qed.
Next Obligation. intros w t id. by eexists. Qed.
Next Obligation.
  intros w t n. unfold seed_toast_next_value_id, memory_store. cbv zeta. destruct (forallb _ _) eqn:E; [|done]. intros H. apply Ok_inj in H as <-. split; [lia|].
  apply Forall_forall. intros x Hx. rewrite forallb_forall in E. apply list_elem_of_In in Hx. specialize (E x Hx). unfold belowb in E.
  destruct (x.1) as [|[] rest] eqn:Ex; try done. apply andb_true_iff in E as [E1%Z.ltb_lt E2%Z.ltb_lt]. eexists _, rest. by split.
Qed.

(** A text of 2000 bytes is moved out in two chunks. *)
Definition demo_long : DemoVal := Text (replicate 2000 97).
Definition demo_relation : Relation := mkRelation (mkSchema "t" [mkColumn "id" TInteger false; mkColumn "body" TText true] (Some 9)) [1; 2] User
  (mkToastOptions ModeAuto 256 128 TcZstd None) [1] [].
Definition demo_toast : ToastState (gmap N (list DemoEntry)) := mkToast ∅ ∅.
Definition demo_stored : ToastState (gmap N (list DemoEntry)) * DbResult bytes :=
  prepare_row_for_storage demo_crc demo_compress registry_new demo_relation (MvccHeader_fresh 5 0) [Integer 7; demo_long] demo_toast.

Lemma demo_compress_bytes dict level raw c : bytes_ok raw -> demo_compress dict level raw = Ok c -> bytes_ok c.
Proof.
  intros Hb E. injection E as <-. unfold bytes_ok in *. induction Hb as [|x raw Hx Hb IH]; [constructor|]. cbn. destruct (strip raw); [destruct (x =? 0); [done|]|]; by apply Forall_cons_2.
Qed.
Lemma demo_values_ok : Forall value_ok [Integer 7; demo_long].
Proof.
  apply Forall_cons_2; [done|]. apply Forall_cons_2; [|constructor]. split; [by apply Forall_replicate|vm_compute; reflexivity].
Qed.

Lemma toasted_row_is_read_witness : exists b, demo_stored.2 = Ok b /\ len b = 55 /\
  row_stored demo_crc demo_decompress registry_new demo_relation (MvccHeader_fresh 5 0) [Integer 7; demo_long] demo_toast demo_stored.1 b.
Proof.
  destruct demo_stored.2 as [b|] eqn:E; [|vm_compute in E; discriminate]. exists b. split; [done|]. split.
  - apply (f_equal (fun r => match r with Ok b => len b | Err _ => 0 end)) in E. rewrite <- E. vm_compute. reflexivity.
  - apply (toasted_row_is_read demo_crc demo_crc_fits demo_compress demo_decompress demo_zstd demo_compress_bytes).
    + by apply fresh_header_ok.
    + apply demo_values_ok.
    + intros d. discriminate.
    + intros t _ n H. discriminate.
    + unfold demo_stored in *. destruct (prepare_row_for_storage _ _ _ _ _ _ _) as [s' r]. cbn [fst snd] in *. by subst r.
Defined.

Definition demo_plans : list ToastColumnPlan := [PlanValue; PlanVarlena (PlanPlain None)].
Lemma planned_len_exact_witness : planned_row_len demo_relation.(rel_schema) [Integer 7; demo_long] demo_plans = Ok 2038 /\
  exists b, encode_row_v3_prepared demo_relation.(rel_schema) (MvccHeader_fresh 5 0) [PValue (Integer 7 : DemoVal); PVarlena (Plain (replicate 2000 97))] = Ok b /\ len b = 2038.
Proof.
  split; [vm_compute; reflexivity|]. destruct (encode_row_v3_prepared _ _ _) as [b|] eqn:E; [|vm_compute in E; discriminate]. exists b. split; [done|].
  apply (planned_len_exact demo_relation.(rel_schema) (MvccHeader_fresh 5 0) [Integer 7; demo_long] demo_plans 2038 [PValue (Integer 7); PVarlena (Plain (replicate 2000 97))] b); [by apply fresh_header_ok|apply demo_values_ok|..|exact E];
    vm_compute; reflexivity.
Defined.
