(* ===== verification/BufferPool.v ===== *)
(** * The buffer pool (src/crates/buffer/src/pool.rs, src/crates/buffer/src/loader.rs,
    src/crates/common/src/flush.rs)

    [MemoryBufferPool] with its frames, its clock, its page allocator and its three ways of
    writing pages back: stealing a dirty frame to make room, flushing the files of a rewrite,
    and the batches of a fuzzy checkpoint.

    A frame is shared ([Arc<Frame>]): the page table, the guards and the flushes under way
    refer to the same frame, also after it left the table.  [arena] holds every frame by its
    address and the table maps a page to an address.  What the pool calls (the page files and
    the log behind the flush policy) is an interface on a world [W].  A method that releases
    the pool's mutex in between is cut there: its critical sections are functions of their
    own, and the method runs them one after the other.  A turn that ends in [yield_now]
    returns without a result.  The pin count is the number of live guards. *)

From S2P Require Import Prelude Errors Mvcc CheckedBytes ByteArray.
Local Open Scope N_scope.

Abbreviation PageKey := (N * N)%type.
Abbreviation FrameRef := N.

(** [WalPosition]: where the record of a change starts and where it ends. *)
Record WalPosition : Type := mkPosition { replay_from : N; record_lsn : N }.

Record PageFlushInfo : Type := mkFlushInfo { fi_dirty_txn_id : N; fi_page_lsn : option N }.

Record DirtyPageEntry : Type := mkDirtyPage { dp_file_id : N; dp_page_num : N; dp_rec_lsn : N }.
Definition entry_le (a b : DirtyPageEntry) : Prop :=
  a.(dp_file_id) < b.(dp_file_id) \/ (a.(dp_file_id) = b.(dp_file_id) /\ a.(dp_page_num) <= b.(dp_page_num)).
Global Instance entry_le_dec a b : Decision (entry_le a b).
Proof. unfold entry_le. apply _. Defined.

Definition key_le (a b : PageKey) : Prop := a.1 < b.1 \/ (a.1 = b.1 /\ a.2 <= b.2).
Global Instance key_le_dec a b : Decision (key_le a b).
Proof. unfold key_le. apply _. Defined.

(** [PageStore] with [PageLoader], and [FlushPolicy]. *)
Class PageStore (W : Type) : Type := {
  store_load_page : PageKey -> W -> DbResult (option bytes);
  store_load_page_lenient : PageKey -> W -> DbResult (option bytes);
  store_write_page : PageKey -> bytes -> SE W DbError unit;
  store_sync_files : list N -> SE W DbError unit;
  store_page_count : N -> W -> DbResult N;
  store_remove_file : N -> SE W DbError unit;
  store_list_file_ids : W -> DbResult (list N)
}.
Class FlushPolicy (W : Type) : Type := {
  can_flush : PageFlushInfo -> bool;
  ensure_durable : SE W DbError unit
}.

(** ** Frames *)

Record CheckpointFlushState : Type := mkCheckpointFlush {
  captured_generation : N;
  captured_page_lsn : N;
  first_redirty_lsn : option N
}.
Record BulkFlushState : Type := mkBulkFlush {
  bulk_generation : N;
  bulk_page_lsn : option N
}.
Record DirtyMeta : Type := mkDirtyMeta {
  rec_lsn : option N;
  latest_page_lsn : option N;
  generation : N;
  checkpoint_flush : option CheckpointFlushState;
  bulk_flush : option BulkFlushState
}.
Definition meta_default : DirtyMeta := mkDirtyMeta None None 0 None None.

Record Frame : Type := mkFrame {
  f_key : PageKey;
  f_data : bytes;
  pin_count : N;
  f_dirty : bool;
  dirty_txn_id : N;
  dirty_meta : DirtyMeta;
  reference_bit : bool;
  needs_fpi : bool;
  evicting : bool;
  checkpoint_flushing : bool
}.

Definition page_default : bytes := replicate 8192 0.
Definition Frame_new (key : PageKey) (data : bytes) (is_dirty fpi : bool) : Frame :=
  mkFrame key data 0 is_dirty 0 meta_default true fpi false false.
Global Instance Frame_inhabited : Inhabited Frame := populate (Frame_new (0, 0) [] false false).

Definition set_data (d : bytes) (f : Frame) : Frame :=
  mkFrame f.(f_key) d f.(pin_count) f.(f_dirty) f.(dirty_txn_id) f.(dirty_meta) f.(reference_bit) f.(needs_fpi) f.(evicting) f.(checkpoint_flushing).
Definition set_dirty (b : bool) (txn_id : N) (m : DirtyMeta) (f : Frame) : Frame :=
  mkFrame f.(f_key) f.(f_data) f.(pin_count) b txn_id m f.(reference_bit) f.(needs_fpi) f.(evicting) f.(checkpoint_flushing).
Definition set_meta (m : DirtyMeta) (f : Frame) : Frame := set_dirty f.(f_dirty) f.(dirty_txn_id) m f.
Definition set_reference (b : bool) (f : Frame) : Frame :=
  mkFrame f.(f_key) f.(f_data) f.(pin_count) f.(f_dirty) f.(dirty_txn_id) f.(dirty_meta) b f.(needs_fpi) f.(evicting) f.(checkpoint_flushing).
Definition set_needs_fpi (b : bool) (f : Frame) : Frame :=
  mkFrame f.(f_key) f.(f_data) f.(pin_count) f.(f_dirty) f.(dirty_txn_id) f.(dirty_meta) f.(reference_bit) b f.(evicting) f.(checkpoint_flushing).
Definition set_evicting (b : bool) (f : Frame) : Frame :=
  mkFrame f.(f_key) f.(f_data) f.(pin_count) f.(f_dirty) f.(dirty_txn_id) f.(dirty_meta) f.(reference_bit) f.(needs_fpi) b f.(checkpoint_flushing).
Definition set_flushing (b : bool) (f : Frame) : Frame :=
  mkFrame f.(f_key) f.(f_data) f.(pin_count) f.(f_dirty) f.(dirty_txn_id) f.(dirty_meta) f.(reference_bit) f.(needs_fpi) f.(evicting) b.
Definition set_pins (n : N) (f : Frame) : Frame :=
  mkFrame f.(f_key) f.(f_data) n f.(f_dirty) f.(dirty_txn_id) f.(dirty_meta) f.(reference_bit) f.(needs_fpi) f.(evicting) f.(checkpoint_flushing).

Definition pin (f : Frame) : Frame := set_reference true (set_pins (f.(pin_count) + 1) f).
Definition unpin (f : Frame) : Frame := set_pins (f.(pin_count) - 1) f.

Definition set_checkpoint_flush (c : option CheckpointFlushState) (m : DirtyMeta) : DirtyMeta :=
  mkDirtyMeta m.(rec_lsn) m.(latest_page_lsn) m.(generation) c m.(bulk_flush).
Definition set_bulk_flush (b : option BulkFlushState) (m : DirtyMeta) : DirtyMeta :=
  mkDirtyMeta m.(rec_lsn) m.(latest_page_lsn) m.(generation) m.(checkpoint_flush) b.
(** The redo boundary and the page LSN of a page that is on disk are gone. *)
Definition no_boundary (m : DirtyMeta) : DirtyMeta :=
  mkDirtyMeta None None m.(generation) m.(checkpoint_flush) m.(bulk_flush).

Definition publish_mutation (txn_id : N) (position : WalPosition) (f : Frame) : DbResult Frame :=
  let m := f.(dirty_meta) in
  gen ← ok_or (checked_add U64_MAX m.(generation) 1) (db_internal "page mutation generation overflow");
  let rec := match m.(rec_lsn) with None => Some position.(replay_from) | r => r end in
  let redirty flush :=
    mkCheckpointFlush flush.(captured_generation) flush.(captured_page_lsn)
      (Some match flush.(first_redirty_lsn) with
            | None => position.(replay_from)
            | Some l => N.min l position.(replay_from)
            end) in
  Ok (set_dirty true txn_id
        (mkDirtyMeta rec (Some position.(record_lsn)) gen (redirty <$> m.(checkpoint_flush)) m.(bulk_flush)) f).

Definition mark_clean (f : Frame) : Frame :=
  set_needs_fpi true (set_dirty false 0 (set_checkpoint_flush None (no_boundary f.(dirty_meta))) f).

Definition storage_internal_error (m : string) : DbError := db_storage InternalError m.

Definition finish_bulk_flush (f : Frame) : Frame * DbResult unit :=
  if f.(checkpoint_flushing) then (f, Err (storage_internal_error "cannot mark a page clean during checkpoint flush"))
  else
    match f.(dirty_meta).(bulk_flush) with
    | Some flush =>
        let m := set_bulk_flush None f.(dirty_meta) in
        let f := set_meta m f in
        let f :=
          if (m.(generation) =? flush.(bulk_generation)) && bool_decide (m.(latest_page_lsn) = flush.(bulk_page_lsn))
          then mark_clean f else f in
        (set_evicting false f, Ok ())
    | None => (f, Ok ())
    end.

(** ** The pool *)

Record PoolState : Type := mkPoolState {
  frames : gmap PageKey FrameRef;
  clock_order : list PageKey;
  clock_hand : N;
  next_page_num_by_file : gmap N N;
  abandoned_pages_by_file : gmap N (gset N);
  extent_seeded : gset N
}.

Section Pool.
Context {W : Type} `{!PageStore W} `{!FlushPolicy W}.

Record Pool : Type := mkPool {
  frame_count : N;
  stealing : bool;
  arena : gmap FrameRef Frame;
  pstate : PoolState;
  world : W
}.
Abbreviation PM := (SE Pool DbError).

Definition pool_new (count : N) (w : W) : Pool := mkPool count false ∅ (mkPoolState ∅ [] 0 ∅ ∅ ∅) w.

Definition with_state (st : PoolState) (p : Pool) : Pool := mkPool p.(frame_count) p.(stealing) p.(arena) st p.(world).
Definition with_arena (a : gmap FrameRef Frame) (p : Pool) : Pool := mkPool p.(frame_count) p.(stealing) a p.(pstate) p.(world).
Definition frame_of (p : Pool) (r : FrameRef) : Frame := p.(arena) !!! r.
Definition update_frame (r : FrameRef) (g : Frame -> Frame) (p : Pool) : Pool := with_arena (<[r := g (frame_of p r)]> p.(arena)) p.
Definition on_world {A} (m : SE W DbError A) : PM A := fun p =>
  let '(w, r) := m p.(world) in (mkPool p.(frame_count) p.(stealing) p.(arena) p.(pstate) w, r).
Definition resident (p : Pool) : list (PageKey * FrameRef) := map_to_list p.(pstate).(frames).
Definition frames_len (st : PoolState) : N := N.of_nat (size st.(frames)).

(** *** Page numbers *)

Definition next_page_num (st : PoolState) (file_id : N) : N := default 0 (st.(next_page_num_by_file) !! file_id).
Definition set_next (m : gmap N N) (st : PoolState) : PoolState :=
  mkPoolState st.(frames) st.(clock_order) st.(clock_hand) m st.(abandoned_pages_by_file) st.(extent_seeded).
Definition set_abandoned (m : gmap N (gset N)) (st : PoolState) : PoolState :=
  mkPoolState st.(frames) st.(clock_order) st.(clock_hand) st.(next_page_num_by_file) m st.(extent_seeded).
Definition set_seeded (s : gset N) (st : PoolState) : PoolState :=
  mkPoolState st.(frames) st.(clock_order) st.(clock_hand) st.(next_page_num_by_file) st.(abandoned_pages_by_file) s.
Definition set_clock (fs : gmap PageKey FrameRef) (order : list PageKey) (hand : N) (st : PoolState) : PoolState :=
  mkPoolState fs order hand st.(next_page_num_by_file) st.(abandoned_pages_by_file) st.(extent_seeded).

Definition ensure_next_page_at_least (file_id next : N) (st : PoolState) : PoolState :=
  set_next (<[file_id := match st.(next_page_num_by_file) !! file_id with Some current => N.max current next | None => next end]>
              st.(next_page_num_by_file)) st.
Definition advance_next_page_num (file_id page_num : N) (st : PoolState) : PoolState :=
  let next := saturating_add U32_MAX page_num 1 in
  set_next (<[file_id := match st.(next_page_num_by_file) !! file_id with Some current => N.max current next | None => next end]>
              st.(next_page_num_by_file)) st.

(** [BTreeSet::iter().next()]. *)
Definition reusable_page (st : PoolState) (file_id : N) : option N :=
  pages ← st.(abandoned_pages_by_file) !! file_id; list_min (elements pages).

Definition put_abandoned (file_id : N) (pages : gset N) (st : PoolState) : PoolState :=
  set_abandoned (if decide (pages = ∅) then delete file_id st.(abandoned_pages_by_file)
                 else <[file_id := pages]> st.(abandoned_pages_by_file)) st.
Definition mark_page_allocated (file_id page_num : N) (st : PoolState) : PoolState :=
  let st :=
    match st.(abandoned_pages_by_file) !! file_id with
    | Some pages => put_abandoned file_id (pages ∖ {[page_num]}) st
    | None => st
    end in
  advance_next_page_num file_id page_num st.

(** Each turn removes a page of the set: its size bounds the loop. *)
Fixpoint trim_abandoned_tail (fuel : nat) (file_id : N) (st : PoolState) : PoolState :=
  match fuel with
  | O => st
  | S fuel =>
      match st.(next_page_num_by_file) !! file_id with
      | None => st
      | Some next =>
          if next =? 0 then st
          else
            let tail := next - 1 in
            match st.(abandoned_pages_by_file) !! file_id with
            | None => st
            | Some pages =>
                if negb (bool_decide (tail ∈ pages)) then st
                else
                  let st := put_abandoned file_id (pages ∖ {[tail]}) st in
                  trim_abandoned_tail fuel file_id
                    (set_next (if tail =? 0 then delete file_id st.(next_page_num_by_file)
                               else <[file_id := tail]> st.(next_page_num_by_file)) st)
            end
      end
  end.
Definition abandon_allocated_page (file_id page_num : N) (st : PoolState) : PoolState :=
  let pages := default ∅ (st.(abandoned_pages_by_file) !! file_id) ∪ {[page_num]} in
  trim_abandoned_tail (S (size pages)) file_id (set_abandoned (<[file_id := pages]> st.(abandoned_pages_by_file)) st).
Definition state_page_abandoned (st : PoolState) (file_id page_num : N) : bool :=
  bool_decide (page_num ∈ default ∅ (st.(abandoned_pages_by_file) !! file_id)).

(** *** The clock *)

Definition fix_hand (order : list PageKey) (hand : N) : N := if decide (order = []) then 0 else hand mod len order.
Definition fix_clock_hand (st : PoolState) : PoolState :=
  set_clock st.(frames) st.(clock_order) (fix_hand st.(clock_order) st.(clock_hand)) st.
Definition advance_clock_hand (st : PoolState) : PoolState :=
  if decide (st.(clock_order) = []) then st
  else set_clock st.(frames) st.(clock_order) ((st.(clock_hand) + 1) mod len st.(clock_order)) st.
Definition remove_frame (key : PageKey) (st : PoolState) : PoolState :=
  fix_clock_hand (set_clock (delete key st.(frames)) (filter (fun candidate => candidate <> key) st.(clock_order)) st.(clock_hand) st).

(** [Arc::new] with the insertion into the table and the clock. *)
Definition fresh_ref (p : Pool) : FrameRef := fresh (dom p.(arena)).
Definition add_frame (key : PageKey) (f : Frame) (p : Pool) : Pool * FrameRef :=
  let r := fresh_ref p in
  (with_state (set_clock (<[key := r]> p.(pstate).(frames)) (p.(pstate).(clock_order) ++ [key]) p.(pstate).(clock_hand) p.(pstate))
     (with_arena (<[r := f]> p.(arena)) p), r).

Definition get_or_insert_clean (key : PageKey) (data : bytes) (p : Pool) : Pool * option FrameRef :=
  match p.(pstate).(frames) !! key with
  | Some r =>
      if (frame_of p r).(evicting) then (p, None)
      else (update_frame r (set_reference true) p, Some r)
  | None =>
      if p.(frame_count) <=? frames_len p.(pstate) then (p, None)
      else let '(p, r) := add_frame key (Frame_new key data false true) p in (p, Some r)
  end.

Definition insert_fresh_frame (key : PageKey) : PM FrameRef := fun p =>
  match p.(pstate).(frames) !! key with
  | Some _ => (p, Err (db_internal ("page already resident: file_id=" +:+ pretty key.1 +:+ ", page_num=" +:+ pretty key.2)))
  | None => let '(p, r) := add_frame key (Frame_new key page_default false false) p in (p, Ok r)
  end.

Inductive ReclaimOutcome : Type := FreedClean | ReservedDirty (r : FrameRef) | NoVictim.

Definition flush_info (f : Frame) : PageFlushInfo := mkFlushInfo f.(dirty_txn_id) f.(dirty_meta).(latest_page_lsn).

(** One turn of the sweep: the hand's frame is passed over or taken. *)
Definition advance (p : Pool) : Pool := with_state (advance_clock_hand p.(pstate)) p.
Definition sweep_turn (p : Pool) : Pool * option ReclaimOutcome :=
  let st := p.(pstate) in
  let hand := st.(clock_hand) mod len st.(clock_order) in
  let p := with_state (set_clock st.(frames) st.(clock_order) hand st) p in
  match st.(clock_order) !! N.to_nat hand with
  | None => (p, None)
  | Some key =>
      match st.(frames) !! key with
      | None =>
          let st := p.(pstate) in
          (with_state (fix_clock_hand (set_clock st.(frames) (delete (N.to_nat hand) st.(clock_order)) hand st)) p, None)
      | Some r =>
          let f := frame_of p r in
          if negb (f.(pin_count) =? 0) || f.(checkpoint_flushing) then (advance p, None)
          else if f.(reference_bit) then (advance (update_frame r (set_reference false) p), None)
          else if negb f.(f_dirty) then (with_state (remove_frame key p.(pstate)) p, Some FreedClean)
          else if p.(stealing) && can_flush (flush_info f)
          then (update_frame r (fun f => pin (set_evicting true f)) p, Some (ReservedDirty r))
          else (advance p, None)
      end
  end.
Fixpoint sweep (n : nat) (p : Pool) : Pool * ReclaimOutcome :=
  match n with
  | O => (p, NoVictim)
  | S n =>
      if decide (p.(pstate).(clock_order) = []) then (p, NoVictim)
      else
        match sweep_turn p with
        | (p, Some outcome) => (p, outcome)
        | (p, None) => sweep n p
        end
  end.
Definition reclaim_victim (p : Pool) : Pool * ReclaimOutcome := sweep (2 * length p.(pstate).(clock_order)) p.

(** *** Making room *)

(** Under the mutex: [Some] frame was reserved and is to be flushed. *)
Definition reserve_victim : PM (option FrameRef) := fun p =>
  if frames_len p.(pstate) <? p.(frame_count) then (p, Ok None)
  else
    match reclaim_victim p with
    | (p, FreedClean) => (p, Ok None)
    | (p, ReservedDirty r) => (p, Ok (Some r))
    | (p, NoVictim) => (p, Err (storage_internal_error "no unpinned frame available for eviction"))
    end.
(** Outside it: the page is written to its home. *)
Definition flush_victim (r : FrameRef) : PM unit :=
  _ ← on_world ensure_durable;
  f ← gets (fun p => frame_of p r);
  _ ← on_world (store_write_page f.(f_key) f.(f_data));
  on_world (store_sync_files [f.(f_key).1]).
Definition abort_eviction (r : FrameRef) (p : Pool) : Pool := update_frame r (fun f => unpin (set_evicting false f)) p.
(** Under the mutex again; [false] starts over. *)
Definition finish_eviction (r : FrameRef) (p : Pool) : Pool * bool :=
  let p := update_frame r unpin p in
  if (frame_of p r).(pin_count) =? 0
  then
    let p := update_frame r mark_clean p in
    (with_state (remove_frame (frame_of p r).(f_key) p.(pstate)) p, true)
  else (update_frame r (set_evicting false) p, false).

(** [make_room] and [with_room], with nothing of other threads in between: the fuel is the
    number of turns. *)
Fixpoint make_room (fuel : nat) : PM unit := fun p =>
  match fuel with
  | O => (p, Err (storage_internal_error "retry"))
  | S fuel =>
      match reserve_victim p with
      | (p, Err e) => (p, Err e)
      | (p, Ok None) => (p, Ok ())
      | (p, Ok (Some r)) =>
          match flush_victim r p with
          | (p, Err e) => (abort_eviction r p, Err e)
          | (p, Ok ()) =>
              let '(p, gone) := finish_eviction r p in
              if gone then (p, Ok ()) else make_room fuel p
          end
      end
  end.
Fixpoint with_room {T} (fuel : nat) (attempt : PM (option T)) : PM T := fun p =>
  match fuel with
  | O => (p, Err (storage_internal_error "retry"))
  | S fuel =>
      match attempt p with
      | (p, Err e) => (p, Err e)
      | (p, Ok (Some v)) => (p, Ok v)
      | (p, Ok None) =>
          match make_room (S fuel) p with
          | (p, Err e) => (p, Err e)
          | (p, Ok ()) => with_room fuel attempt p
          end
      end
  end.

(** *** Reading and writing pages *)

Record PageReadGuard : Type := mkReadGuard { rg_key : PageKey; rg_frame : FrameRef }.
Record PageWriteGuard : Type := mkWriteGuard {
  wg_key : PageKey;
  wg_frame : FrameRef;
  wg_txn_id : N;
  unpublished_new : bool;
  published : bool
}.
Definition read_data (g : PageReadGuard) (p : Pool) : bytes := (frame_of p g.(rg_frame)).(f_data).
Definition write_data (g : PageWriteGuard) (d : bytes) (p : Pool) : Pool := update_frame g.(wg_frame) (set_data d) p.
Definition drop_guard (r : FrameRef) (p : Pool) : Pool := update_frame r unpin p.
Definition publish (g : PageWriteGuard) : PageWriteGuard := mkWriteGuard g.(wg_key) g.(wg_frame) g.(wg_txn_id) g.(unpublished_new) true.
Definition take_needs_fpi (g : PageWriteGuard) : PM bool := fun p =>
  (update_frame g.(wg_frame) (set_needs_fpi false) p, Ok (frame_of p g.(wg_frame)).(needs_fpi)).
Definition restore_needs_fpi (g : PageWriteGuard) (p : Pool) : Pool := update_frame g.(wg_frame) (set_needs_fpi true) p.
Definition publish_position (g : PageWriteGuard) (position : WalPosition) : PM PageWriteGuard := fun p =>
  match publish_mutation g.(wg_txn_id) position (frame_of p g.(wg_frame)) with
  | Err e => (p, Err e)
  | Ok f => (update_frame g.(wg_frame) (fun _ => f) p, Ok (publish g))
  end.
Definition publish_recovery_derived (g : PageWriteGuard) (page_lsn : N) : PM PageWriteGuard := publish_position g (mkPosition 0 page_lsn).

Inductive ResidentLookup : Type := Found (r : FrameRef) | Evicting | Absent.
Definition lookup_resident (key : PageKey) (p : Pool) : Pool * ResidentLookup :=
  match p.(pstate).(frames) !! key with
  | Some r => if (frame_of p r).(evicting) then (p, Evicting) else (update_frame r pin p, Found r)
  | None => (p, Absent)
  end.
Definition prepare_write_frame (key : PageKey) (p : Pool) : Pool * ResidentLookup :=
  match p.(pstate).(frames) !! key with
  | Some r => if (frame_of p r).(evicting) then (p, Evicting) else (update_frame r pin p, Found r)
  | None => (p, Absent)
  end.

(** The closure of [insert_loaded_read_page] and [insert_loaded_write_page]. *)
Definition insert_loaded (key : PageKey) (data : bytes) : PM (option FrameRef) := fun p =>
  match get_or_insert_clean key data p with
  | (p, None) => (p, Ok None)
  | (p, Some r) => (update_frame r pin (with_state (advance_next_page_num key.1 key.2 p.(pstate)) p), Ok (Some r))
  end.
Definition insert_clean (key : PageKey) (data : bytes) : PM (option unit) := fun p =>
  match get_or_insert_clean key data p with
  | (p, None) => (p, Ok None)
  | (p, Some r) => (with_state (advance_next_page_num key.1 key.2 p.(pstate)) p, Ok (Some ()))
  end.
Definition page_not_found (key : PageKey) : DbError :=
  storage_internal_error ("page not found: file_id=" +:+ pretty key.1 +:+ ", page_num=" +:+ pretty key.2).

(** A turn of the loop of [read_page]; no guard: the page is being evicted, retry. *)
Definition read_page (fuel : nat) (key : PageKey) : PM (option PageReadGuard) := fun p =>
  match lookup_resident key p with
  | (p, Found r) => (p, Ok (Some (mkReadGuard key r)))
  | (p, Evicting) => (p, Ok None)
  | (p, Absent) =>
      match store_load_page key p.(world) with
      | Err e => (p, Err e)
      | Ok None => (p, Err (page_not_found key))
      | Ok (Some data) => (r ← with_room fuel (insert_loaded key data); mret (Some (mkReadGuard key r))) p
      end
  end.
Definition write_page (fuel : nat) (key : PageKey) (txn_id : N) : PM (option PageWriteGuard) := fun p =>
  match prepare_write_frame key p with
  | (p, Found r) => (p, Ok (Some (mkWriteGuard key r txn_id false false)))
  | (p, Evicting) => (p, Ok None)
  | (p, Absent) =>
      match store_load_page key p.(world) with
      | Err e => (p, Err e)
      | Ok None => (p, Err (page_not_found key))
      | Ok (Some data) => (r ← with_room fuel (insert_loaded key data); mret (Some (mkWriteGuard key r txn_id false false))) p
      end
  end.
Definition fetch_for_redo (fuel : nat) (key : PageKey) : PM (option PageWriteGuard) := fun p =>
  match prepare_write_frame key p with
  | (p, Found r) => (p, Ok (Some (mkWriteGuard key r 0 false false)))
  | (p, Evicting) => (p, Ok None)
  | (p, Absent) =>
      match store_load_page_lenient key p.(world) with
      | Err e => (p, Err e)
      | Ok data => (r ← with_room fuel (insert_loaded key (default page_default data)); mret (Some (mkWriteGuard key r 0 false false))) p
      end
  end.
Definition load_page (fuel : nat) (key : PageKey) (data : bytes) : PM unit := with_room fuel (insert_clean key data).

Definition ensure_extent_seeded (file_id : N) : PM unit := fun p =>
  if bool_decide (file_id ∈ p.(pstate).(extent_seeded)) then (p, Ok ())
  else
    match store_page_count file_id p.(world) with
    | Err e => (p, Err e)
    | Ok extent =>
        (with_state (ensure_next_page_at_least file_id extent
                       (set_seeded (p.(pstate).(extent_seeded) ∪ {[file_id]}) p.(pstate))) p, Ok ())
    end.
Definition allocate_page (file_id : N) : PM (option (N * FrameRef)) := fun p =>
  if p.(frame_count) <=? frames_len p.(pstate) then (p, Ok None)
  else
    let page_num := default (next_page_num p.(pstate) file_id) (reusable_page p.(pstate) file_id) in
    match insert_fresh_frame (file_id, page_num) p with
    | (p, Err e) => (p, Err e)
    | (p, Ok r) => (update_frame r pin (with_state (mark_page_allocated file_id page_num p.(pstate)) p), Ok (Some (page_num, r)))
    end.
Definition new_page (fuel : nat) (file_id txn_id : N) : PM PageWriteGuard :=
  _ ← ensure_extent_seeded file_id;
  '(page_num, r) ← with_room fuel (allocate_page file_id);
  mret (mkWriteGuard (file_id, page_num) r txn_id true false).

Definition about_page (m : string) (key : PageKey) : DbError :=
  storage_internal_error (m +:+ ": file_id=" +:+ pretty key.1 +:+ ", page_num=" +:+ pretty key.2).
(** The guard is dropped at the end, whatever the outcome. *)
Definition abandon_unpublished_new_page (g : PageWriteGuard) : PM unit := fun p =>
  let key := g.(wg_key) in
  let dropping (p : Pool) := drop_guard g.(wg_frame) p in
  if negb g.(unpublished_new) then (dropping p, Err (about_page "cannot abandon page that was not returned by new_page" key))
  else if g.(published) then (dropping p, Err (about_page "cannot abandon page after it was published" key))
  else
    match p.(pstate).(frames) !! key with
    | None => (dropping p, Err (about_page "cannot abandon non-resident page" key))
    | Some r =>
        if 1 <? (frame_of p r).(pin_count) then (dropping p, Err (about_page "cannot abandon page with other pins" key))
        else (dropping (with_state (abandon_allocated_page key.1 key.2 (remove_frame key p.(pstate))) p), Ok ())
    end.
Definition is_page_abandoned (file_id page_num : N) (p : Pool) : bool := state_page_abandoned p.(pstate) file_id page_num.

Definition page_count (file_id : N) (p : Pool) : DbResult N :=
  on_disk ← store_page_count file_id p.(world);
  Ok (N.max on_disk (next_page_num p.(pstate) file_id)).
Definition rollback (txn_id : N) : PM unit := mret ().
Definition commit (txn_id : N) : PM unit := mret ().
Definition enable_stealing (p : Pool) : Pool := mkPool p.(frame_count) true p.(arena) p.(pstate) p.(world).

Definition busy (f : Frame) : bool := negb (f.(pin_count) =? 0) || f.(evicting) || f.(checkpoint_flushing).
Definition discard_file_if_unpinned (file_id : N) (p : Pool) : Pool * bool :=
  let keys := filter (fun key : PageKey => key.1 = file_id) (resident p).*1 in
  if existsb (fun key => match p.(pstate).(frames) !! key with Some r => busy (frame_of p r) | None => false end) keys then (p, false)
  else
    let st := foldl (fun st key => remove_frame key st) p.(pstate) keys in
    (with_state
       (mkPoolState st.(frames) st.(clock_order) st.(clock_hand) (delete file_id st.(next_page_num_by_file))
          (delete file_id st.(abandoned_pages_by_file)) (st.(extent_seeded) ∖ {[file_id]})) p, true).
Definition remove_file (file_id : N) : PM unit := on_world (store_remove_file file_id).
Definition list_file_ids (p : Pool) : DbResult (list N) := store_list_file_ids p.(world).

Record PageInfo : Type := mkPageInfo { pi_key : PageKey; pi_data : bytes; pi_dirty : bool }.
Definition iter_pages (p : Pool) : list PageInfo :=
  let keys := merge_sort key_le (resident p).*1 in
  omap (fun key => r ← p.(pstate).(frames) !! key; let f := frame_of p r in Some (mkPageInfo f.(f_key) f.(f_data) f.(f_dirty))) keys.

(** *** Flushing files *)

Definition update_all (rs : list FrameRef) (g : Frame -> Frame) (p : Pool) : Pool := foldl (fun p r => update_frame r g p) p rs.
Definition in_files (files : option (gset N)) (f : Frame) : bool :=
  match files with None => true | Some fs => bool_decide (f.(f_key).1 ∈ fs) end.

(** The reservation of the dirty frames, under the mutex; without a list: one is reserved by
    another flush, all are released, retry. *)
Fixpoint reserve_dirty (files : option (gset N)) (rs reserved : list FrameRef) (p : Pool) : Pool * option (list FrameRef) :=
  match rs with
  | [] => (p, Some reserved)
  | r :: rs =>
      let f := frame_of p r in
      if negb f.(f_dirty) || negb (in_files files f) then reserve_dirty files rs reserved p
      else if f.(evicting) then (update_all reserved (set_evicting false) p, None)
      else if f.(checkpoint_flushing) then (update_all reserved (set_evicting false) (update_frame r (set_evicting false) p), None)
      else reserve_dirty files rs (reserved ++ [r]) (update_frame r (set_evicting true) p)
  end.
Definition clear_bulk_flush_reservations (rs : list FrameRef) (p : Pool) : Pool :=
  update_all rs (fun f => set_evicting false (set_meta (set_bulk_flush None f.(dirty_meta)) f)) p.

Definition flush_reserved (file_scoped : bool) (r : FrameRef) : PM unit :=
  f ← gets (fun p => frame_of p r);
  if negb (can_flush (flush_info f)) then lift (Err (storage_internal_error "dirty page flush encountered an unflushable page"))
  else
    let m := f.(dirty_meta) in
    _ ← (if file_scoped
         then modify (update_frame r (set_meta (set_bulk_flush (Some (mkBulkFlush m.(generation) m.(latest_page_lsn))) m)))
         else mret ());
    on_world (store_write_page f.(f_key) f.(f_data)).
Definition flush_dirty_pages_in (files : option (gset N)) : PM (option unit) := fun p =>
  match reserve_dirty files (resident p).*2 [] p with
  | (p, None) => (p, Ok None)
  | (p, Some dirty) =>
      let file_scoped := bool_decide (is_Some files) in
      let '(p, result) :=
        (_ ← (if decide (dirty = []) then mret () else on_world ensure_durable);
         for_each dirty (flush_reserved file_scoped)) p in
      let p := if negb (is_ok result) || negb file_scoped then clear_bulk_flush_reservations dirty p else p in
      (p, Some <$> result)
  end.
Definition frames_in (files : gset N) (p : Pool) : list FrameRef := filter (fun r => (frame_of p r).(f_key).1 ∈ files) (resident p).*2.
Definition abort_bulk_flush_for_files (files : gset N) (p : Pool) : Pool := clear_bulk_flush_reservations (frames_in files p) p.
Definition finish_frame (r : FrameRef) : PM unit := fun p =>
  let '(f, result) := finish_bulk_flush (frame_of p r) in (update_frame r (fun _ => f) p, result).
Definition finish_bulk_flush_for_files (file_ids : list N) : PM unit := fun p =>
  for_each (frames_in (list_to_set file_ids) p) finish_frame p.
Definition flush_dirty_pages : PM (option unit) := flush_dirty_pages_in None.
Definition sync_and_finish (file_ids : list N) : PM unit := fun p =>
  match on_world (store_sync_files file_ids) p with
  | (p, Err e) => (abort_bulk_flush_for_files (list_to_set file_ids) p, Err e)
  | (p, Ok ()) => finish_bulk_flush_for_files file_ids p
  end.
Definition flush_dirty_pages_for_files (file_ids : list N) : PM (option unit) :=
  flushed ← flush_dirty_pages_in (Some (list_to_set file_ids));
  match flushed with
  | None => mret None
  | Some () => _ ← sync_and_finish file_ids; mret (Some ())
  end.

(** *** Fuzzy checkpoints *)

Definition dirty_frames (p : Pool) : list (PageKey * FrameRef) := filter (fun x => (frame_of p x.2).(f_dirty) = true) (resident p).
Definition checkpoint_dirty_keys (p : Pool) : list PageKey := merge_sort key_le (dirty_frames p).*1.
Fixpoint dirty_entries (p : Pool) (rs : list FrameRef) : DbResult (list DirtyPageEntry) :=
  match rs with
  | [] => Ok []
  | r :: rs =>
      let f := frame_of p r in
      if negb f.(f_dirty) then dirty_entries p rs
      else
        rec_lsn ← ok_or f.(dirty_meta).(rec_lsn) (storage_internal_error "dirty frame has no published WAL redo boundary");
        entries ← dirty_entries p rs;
        Ok (mkDirtyPage f.(f_key).1 f.(f_key).2 rec_lsn :: entries)
  end.
Definition dirty_page_table (p : Pool) : DbResult (list DirtyPageEntry) :=
  entries ← dirty_entries p (resident p).*2;
  Ok (merge_sort entry_le entries).

Record CheckpointBatchStats : Type := mkStats { attempted : N; flushed : N; busy_or_skipped : N; redirtied : N }.
Record CheckpointCaptured : Type := mkCaptured { cc_frame : FrameRef; cc_image : bytes }.

(** The reservation of the candidates, under the mutex. *)
Fixpoint reserve_candidates (candidates : list PageKey) (p : Pool) : Pool * list FrameRef :=
  match candidates with
  | [] => (p, [])
  | key :: candidates =>
      match p.(pstate).(frames) !! key with
      | None => reserve_candidates candidates p
      | Some r =>
          if (frame_of p r).(evicting) || (frame_of p r).(checkpoint_flushing) then reserve_candidates candidates p
          else let '(p, rs) := reserve_candidates candidates (update_frame r (set_flushing true) p) in (p, r :: rs)
      end
  end.
Definition clear_checkpoint_reservations (captured : list CheckpointCaptured) (p : Pool) : Pool :=
  update_all (cc_frame <$> captured) (fun f => set_flushing false (set_meta (set_checkpoint_flush None f.(dirty_meta)) f)) p.

(** Capturing one frame under its latch: an image, or nothing when the latch is taken or the
    frame is clean.  [latched] tells which frames other threads hold. *)
Definition capture_frame (latched : FrameRef -> bool) (r : FrameRef) : PM (option CheckpointCaptured) := fun p =>
  let f := frame_of p r in
  if latched r || negb f.(f_dirty) then (update_frame r (set_flushing false) p, Ok None)
  else
    match f.(dirty_meta).(latest_page_lsn) with
    | None => (update_frame r (set_flushing false) p, Err (storage_internal_error "dirty checkpoint candidate has no PageLSN"))
    | Some page_lsn =>
        let m := f.(dirty_meta) in
        (update_frame r (fun f => set_needs_fpi true (set_meta (set_checkpoint_flush (Some (mkCheckpointFlush m.(generation) page_lsn None)) m) f)) p,
         Ok (Some (mkCaptured r f.(f_data))))
    end.
Fixpoint capture_frames (latched : FrameRef -> bool) (rs : list FrameRef) (captured : list CheckpointCaptured) (skipped : N)
    : PM (list CheckpointCaptured * N) := fun p =>
  match rs with
  | [] => (p, Ok (captured, skipped))
  | r :: rs =>
      match capture_frame latched r p with
      | (p, Err e) => (clear_checkpoint_reservations captured p, Err e)
      | (p, Ok None) => capture_frames latched rs captured (saturating_add USIZE_MAX skipped 1) p
      | (p, Ok (Some c)) => capture_frames latched rs (captured ++ [c]) skipped p
      end
  end.
Definition write_captured (c : CheckpointCaptured) : PM unit := fun p =>
  on_world (store_write_page (frame_of p c.(cc_frame)).(f_key) c.(cc_image)) p.
Definition write_batch (captured : list CheckpointCaptured) (files : list N) : PM unit :=
  _ ← (if decide (captured = []) then mret () else on_world ensure_durable);
  _ ← for_each captured write_captured;
  on_world (store_sync_files files).

(** The end of one captured frame: clean, or dirty from its first change since. *)
Definition settle_frame (f : Frame) : DbResult (Frame * bool) :=
  let m := f.(dirty_meta) in
  flush ← ok_or m.(checkpoint_flush) (storage_internal_error "checkpoint flush reservation disappeared");
  let m := set_checkpoint_flush None m in
  if (m.(generation) =? flush.(captured_generation)) && bool_decide (m.(latest_page_lsn) = Some flush.(captured_page_lsn))
     && bool_decide (flush.(first_redirty_lsn) = None)
  then Ok (set_flushing false (set_dirty false 0 (no_boundary m) f), true)
  else
    redirty_lsn ← ok_or flush.(first_redirty_lsn) (storage_internal_error "checkpoint candidate changed without a published WAL position");
    Ok (set_flushing false (set_meta (mkDirtyMeta (Some redirty_lsn) m.(latest_page_lsn) m.(generation) None m.(bulk_flush)) f), false).
Fixpoint settle_frames (captured cs : list CheckpointCaptured) (stats : CheckpointBatchStats) : PM CheckpointBatchStats := fun p =>
  match cs with
  | [] => (p, Ok stats)
  | c :: cs =>
      let r := c.(cc_frame) in
      match settle_frame (frame_of p r) with
      | Err e =>
          (clear_checkpoint_reservations captured (update_frame r (fun f => set_meta (set_checkpoint_flush None f.(dirty_meta)) f) p), Err e)
      | Ok (f, clean) =>
          let stats :=
            if clean then mkStats stats.(attempted) (saturating_add USIZE_MAX stats.(flushed) 1) stats.(busy_or_skipped) stats.(redirtied)
            else mkStats stats.(attempted) stats.(flushed) stats.(busy_or_skipped) (saturating_add USIZE_MAX stats.(redirtied) 1) in
          settle_frames captured cs stats (update_frame r (fun _ => f) p)
      end
  end.

Definition represented_files (candidates : list PageKey) : list N := merge_sort N.le (remove_dups candidates.*1).
Definition flush_checkpoint_batch (latched : FrameRef -> bool) (candidates : list PageKey) : PM CheckpointBatchStats := fun p =>
  let '(p, rs) := reserve_candidates candidates p in
  let skipped := len candidates - len rs in
  match capture_frames latched rs [] skipped p with
  | (p, Err e) => (p, Err e)
  | (p, Ok (captured, skipped)) =>
      match write_batch captured (represented_files candidates) p with
      | (p, Err e) => (clear_checkpoint_reservations captured p, Err e)
      | (p, Ok ()) => settle_frames captured captured (mkStats (len candidates) 0 skipped 0) p
      end
  end.

(** ** The shape of a pool *)

(** The clock lists the resident pages once, the frame of a page knows its page, and there
    are not more frames than the pool was given. *)
Record pool_ok (p : Pool) : Prop := mkPoolOk {
  ok_nodup : NoDup p.(pstate).(clock_order);
  ok_clock : forall k, k ∈ p.(pstate).(clock_order) <-> is_Some (p.(pstate).(frames) !! k);
  ok_frames : forall k r, p.(pstate).(frames) !! k = Some r -> exists f, p.(arena) !! r = Some f /\ f.(f_key) = k;
  ok_room : frames_len p.(pstate) <= p.(frame_count)
}.

Lemma frame_of_update r g p r' : frame_of (update_frame r g p) r' = if decide (r = r') then g (frame_of p r) else frame_of p r'.
Proof using.
  unfold frame_of, update_frame. cbn [arena with_arena]. destruct (decide (r = r')) as [->|Hne]; [by rewrite lookup_total_insert_eq|by rewrite lookup_total_insert_ne].
Qed.
Lemma pstate_update r g p : (update_frame r g p).(pstate) = p.(pstate).
Proof using. done. Qed.
Lemma frame_of_state st p r : frame_of (with_state st p) r = frame_of p r.
Proof using. done. Qed.

(** A resident frame and its page. *)
Lemma ok_frame_of p k r : pool_ok p -> p.(pstate).(frames) !! k = Some r -> (frame_of p r).(f_key) = k /\ p.(arena) !! r = Some (frame_of p r).
Proof using. intros Hp Hk. destruct (ok_frames p Hp k r Hk) as (f & Hf & <-). unfold frame_of, lookup_total, map_lookup_total. by rewrite Hf. Qed.

Lemma ok_update p r g : (forall f, (g f).(f_key) = f.(f_key)) -> pool_ok p -> pool_ok (update_frame r g p).
Proof using.
  intros Hg Hp. split; [apply Hp|apply Hp| |apply Hp]. intros k r' Hk. destruct (ok_frame_of p k r' Hp Hk) as [E1 E2].
  cbn [update_frame with_arena arena]. destruct (decide (r = r')) as [->|Hne].
  - rewrite lookup_insert_eq. eexists. split; [done|]. by rewrite Hg.
  - rewrite lookup_insert_ne by done. eauto.
Qed.

(** A state that agrees on the table and the clock. *)
Lemma ok_state p st : st.(frames) = p.(pstate).(frames) -> st.(clock_order) = p.(pstate).(clock_order) -> pool_ok p -> pool_ok (with_state st p).
Proof using. intros E1 E2 [H1 H2 H3 H4]. unfold frames_len in H4. split; cbn [with_state pstate arena frame_count]; unfold frames_len; rewrite ?E1, ?E2; done. Qed.

Lemma ok_remove p k : pool_ok p -> pool_ok (with_state (remove_frame k p.(pstate)) p).
Proof using.
  intros [H1 H2 H3 H4]. split; cbn -[frames_len].
  - by apply NoDup_filter.
  - intros k'. rewrite list_elem_of_filter, H2. destruct (decide (k' = k)) as [->|Hne]; [rewrite lookup_delete_eq|rewrite lookup_delete_ne by done]; split; [naive_solver|by intros []|naive_solver|naive_solver].
  - intros k' r Hk. apply lookup_delete_Some in Hk as [_ Hk]. eauto.
  - unfold frames_len in *. cbn. rewrite map_size_delete. destruct (frames (pstate p) !! k); unfold id; lia.
Qed.

Lemma ok_add p k f : f.(f_key) = k -> p.(pstate).(frames) !! k = None -> frames_len p.(pstate) < p.(frame_count) ->
  pool_ok p -> pool_ok (add_frame k f p).1.
Proof using.
  intros Hf Hk Hroom [H1 H2 H3 H4]. unfold add_frame. cbn [fst]. split; cbn -[frames_len].
  - apply NoDup_app. split_and!; [done| |apply NoDup_singleton]. intros x Hx ->%list_elem_of_singleton. apply H2 in Hx as [? E]. congruence.
  - intros k'. rewrite elem_of_app, list_elem_of_singleton, H2. destruct (decide (k' = k)) as [->|Hne]; [rewrite lookup_insert_eq|rewrite lookup_insert_ne by done]; naive_solver.
  - intros k' r Hk'. destruct (decide (k' = k)) as [->|Hne].
    + rewrite lookup_insert_eq in Hk'. injection Hk' as <-. exists f. by rewrite lookup_insert_eq.
    + rewrite lookup_insert_ne in Hk' by done. destruct (H3 _ _ Hk') as (f' & Hf' & E'). exists f'. rewrite lookup_insert_ne; [done|].
      intros <-. apply elem_of_dom_2 in Hf'. by apply (is_fresh (dom (arena p))).
  - unfold frames_len in *. cbn. rewrite map_size_insert_None by done. lia.
Qed.
Lemma frame_of_add k f p r : r ∈ dom p.(arena) -> frame_of (add_frame k f p).1 r = frame_of p r.
Proof using. intros Hr. unfold frame_of. cbn. rewrite lookup_total_insert_ne; [done|]. intros <-. by apply (is_fresh (dom (arena p))). Qed.

(** ** The sweep *)

(** A frame that may leave the pool now. *)
Definition evictable (p : Pool) (r : FrameRef) : Prop :=
  let f := frame_of p r in
  f.(pin_count) = 0 /\ f.(checkpoint_flushing) = false /\ (f.(f_dirty) = false \/ (p.(stealing) = true /\ can_flush (flush_info f) = true)).

(** Only the hand moved, and reference bits were cleared. *)
Definition swept (p p' : Pool) : Prop :=
  p'.(frame_count) = p.(frame_count) /\ p'.(stealing) = p.(stealing) /\ p'.(world) = p.(world) /\
  p'.(pstate) = set_clock p.(pstate).(frames) p.(pstate).(clock_order) p'.(pstate).(clock_hand) p.(pstate) /\
  dom p.(arena) ⊆ dom p'.(arena) /\
  forall r, frame_of p' r = frame_of p r \/ frame_of p' r = set_reference false (frame_of p r).

Global Instance swept_preorder : PreOrder swept.
Proof using.
  split.
  - intros p. split_and!; try done; [by destruct p as [? ? ? []]|auto].
  - intros p1 p2 p3 (A1 & A2 & A3 & A4 & A5 & A6) (B1 & B2 & B3 & B4 & B5 & B6). split_and!; [congruence..| |set_solver|].
    + rewrite B4, A4. by destruct (pstate p1), (pstate p3).
    + intros r. destruct (A6 r) as [E1|E1], (B6 r) as [E2|E2]; rewrite E2, E1; auto.
Qed.

Lemma swept_evictable p p' r : swept p p' -> evictable p' r <-> evictable p r.
Proof using. intros (_ & E & _ & _ & _ & H). unfold evictable. rewrite E. by destruct (H r) as [->| ->]. Qed.
Lemma swept_reference p p' r : swept p p' -> (frame_of p r).(reference_bit) = false -> (frame_of p' r).(reference_bit) = false.
Proof using. intros (_ & _ & _ & _ & _ & H). by destruct (H r) as [->| ->]. Qed.
Lemma swept_frames p p' : swept p p' -> p'.(pstate).(frames) = p.(pstate).(frames) /\ p'.(pstate).(clock_order) = p.(pstate).(clock_order).
Proof using. intros (_ & _ & _ & E & _). by rewrite E. Qed.
Lemma swept_ok p p' : swept p p' -> pool_ok p -> pool_ok p'.
Proof using.
  intros H Hp. pose proof (swept_frames _ _ H) as [E1 E2]. destruct H as (A1 & _ & _ & A4 & A5 & A6).
  split; unfold frames_len; rewrite ?E1, ?E2, ?A1; [apply Hp..| |apply Hp]. intros k r Hk. destruct (ok_frame_of p k r Hp Hk) as [F1 F2].
  assert (Hr : r ∈ dom (arena p')) by (apply A5; by eapply elem_of_dom_2). apply elem_of_dom in Hr as [f Hf]. exists f. split; [done|].
  assert (frame_of p' r = f) as <- by (unfold frame_of, lookup_total, map_lookup_total; by rewrite Hf). destruct (A6 r) as [->| ->]; done.
Qed.

(** The frame under the hand. *)
Definition at_hand (p : Pool) (k : PageKey) (r : FrameRef) : Prop :=
  p.(pstate).(clock_order) !! N.to_nat (p.(pstate).(clock_hand) mod len p.(pstate).(clock_order)) = Some k /\ p.(pstate).(frames) !! k = Some r.
Lemma hand_lookup p : pool_ok p -> p.(pstate).(clock_order) <> [] -> exists k r, at_hand p k r.
Proof using.
  intros Hp Hne. set (order := clock_order (pstate p)) in *. assert (Hl : len order <> 0) by (destruct order; unfold len; cbn; [done|lia]).
  pose proof (N.mod_lt (clock_hand (pstate p)) (len order) Hl) as Hm. unfold len in Hm.
  destruct (lookup_lt_is_Some_2 order (N.to_nat (clock_hand (pstate p) mod len order))) as [k Hk]; [unfold len; lia|].
  destruct (proj1 (ok_clock p Hp k)) as [r Hr]; [by eapply list_elem_of_lookup_2|]. by exists k, r.
Qed.

(** What a turn does: it passes on, without a reference bit at the frame it leaves, or takes
    the frame, which may leave. *)
Lemma sweep_turn_spec p k r p' o : at_hand p k r -> sweep_turn p = (p', o) ->
  match o with
  | None => swept p p' /\ p'.(pstate).(clock_hand) = (p.(pstate).(clock_hand) mod len p.(pstate).(clock_order) + 1) mod len p.(pstate).(clock_order) /\
      (evictable p' r -> (frame_of p r).(reference_bit) = true /\ (frame_of p' r).(reference_bit) = false)
  | Some FreedClean => evictable p r /\ (frame_of p r).(f_dirty) = false /\ p'.(pstate).(frames) = delete k p.(pstate).(frames) /\
      exists q, swept p q /\ p' = with_state (remove_frame k q.(pstate)) q
  | Some (ReservedDirty r') => r' = r /\ evictable p r /\ (frame_of p r).(f_dirty) = true /\
      exists q, swept p q /\ p' = update_frame r (fun f => pin (set_evicting true f)) q
  | Some NoVictim => False
  end.
Proof using.
  intros [Hk Hr]. unfold sweep_turn. set (order := clock_order (pstate p)) in *. set (hand := clock_hand (pstate p) mod len order) in *. rewrite Hk, Hr.
  set (q := with_state _ p). assert (Hq : swept p q) by (by split_and!; auto). assert (Eq : forall r, frame_of q r = frame_of p r) by done.
  assert (Hadv : forall q', swept q q' -> q'.(pstate).(clock_hand) = hand -> swept p (advance q') /\ (advance q').(pstate).(clock_hand) = (hand + 1) mod len order).
  { intros q' Hs Hh. pose proof (swept_frames _ _ Hs) as [_ Eo]. unfold advance, advance_clock_hand. change (clock_order (pstate q)) with order in Eo. rewrite Eo.
    rewrite decide_False by (intros E; rewrite E in Hk; done). split; [|cbn; by rewrite Hh].
    etrans; [exact Hq|]. etrans; [exact Hs|]. split_and!; auto; cbn. by rewrite Eo. }
  rewrite Eq. unfold evictable. destruct (N.eqb_spec (pin_count (frame_of p r)) 0) as [Hp0|Hp0]; cbn [negb orb].
  2:{ intros [= <- <-]. destruct (Hadv q) as [H1 H2]; [reflexivity|done|]. split_and!; [done|done|]. change (frame_of (advance q) r) with (frame_of p r). by intros []. }
  destruct (checkpoint_flushing (frame_of p r)) eqn:Ec.
  { intros [= <- <-]. destruct (Hadv q) as [H1 H2]; [reflexivity|done|]. split_and!; [done|done|]. change (frame_of (advance q) r) with (frame_of p r). intros (_ & E & _). congruence. }
  destruct (reference_bit (frame_of p r)) eqn:Er.
  { intros [= <- <-]. destruct (Hadv (update_frame r (set_reference false) q)) as [H1 H2]; [|done|].
    - split_and!; auto; [cbn; set_solver|]. intros r'. rewrite frame_of_update. case_decide as E; [subst|]; auto.
    - split_and!; [done|done|]. intros _. split; [done|]. unfold advance. by rewrite frame_of_state, frame_of_update, decide_True. }
  destruct (f_dirty (frame_of p r)) eqn:Ed; cbn [negb].
  2:{ intros [= <- <-]. split_and!; auto. exists q. split; [exact Hq|done]. }
  change (stealing q) with (stealing p). destruct (stealing p && can_flush (flush_info (frame_of p r))) eqn:Es.
  { intros [= <- <-]. apply andb_true_iff in Es as [Es1 Es2]. split_and!; auto. exists q. split; [exact Hq|done]. }
  intros [= <- <-]. destruct (Hadv q) as [H1 H2]; [reflexivity|done|]. split_and!; [done|done|]. change (frame_of (advance q) r) with (frame_of p r). change (stealing (advance q)) with (stealing p).
  intros (_ & _ & [E|[E1 E2]]); [congruence|]. by rewrite E1, E2 in Es.
Qed.

(** What [i] turns from the hand [h] have established: what they passed and could leave has
    lost its reference bit, and nothing they passed twice can leave. *)
Definition passed (h i : N) (p : Pool) : Prop :=
  let n := len p.(pstate).(clock_order) in
  p.(pstate).(clock_hand) mod n = (h + i) mod n /\
  forall j k r, j < i -> p.(pstate).(clock_order) !! N.to_nat ((h + j) mod n) = Some k -> p.(pstate).(frames) !! k = Some r -> evictable p r ->
    (frame_of p r).(reference_bit) = false /\ i <= j + n.

Lemma passed_turn h i p p' k r : 0 < len p.(pstate).(clock_order) -> at_hand p k r -> passed h i p -> sweep_turn p = (p', None) -> passed h (i + 1) p'.
Proof using.
  intros Hn Hat [Hh Hj] E. destruct (sweep_turn_spec _ _ _ _ _ Hat E) as (Hs & Hhand & Hr). pose proof (swept_frames _ _ Hs) as [E1 E2]. unfold passed. rewrite E1, E2.
  set (n := len (clock_order (pstate p))) in *. destruct Hat as [Hk0 Hr0]. fold n in Hk0. rewrite Hh in Hk0. split.
  { rewrite Hhand, Hh, N.Div0.mod_mod, N.Div0.add_mod_idemp_l. f_equal. lia. }
  intros j k' r' Hji Hk' Hr' Hev. destruct (decide (j = i)) as [->|Hne].
  - rewrite Hk0 in Hk'. injection Hk' as <-. rewrite Hr0 in Hr'. injection Hr' as <-. destruct (Hr Hev) as [_ ->]. split; [done|lia].
  - pose proof (proj1 (swept_evictable _ _ r' Hs) Hev) as Hev'. destruct (Hj j k' r' ltac:(lia) Hk' Hr' Hev') as [Hb Hle].
    split; [by eapply swept_reference|]. destruct (decide (i = j + n)) as [->|]; [|lia]. exfalso.
    assert (Em : (h + (j + n)) mod n = (h + j) mod n) by (rewrite N.add_assoc, <- (N.mul_1_l n) at 1; apply N.Div0.mod_add).
    rewrite Em, Hk' in Hk0. injection Hk0 as <-. rewrite Hr0 in Hr'. injection Hr' as <-. destruct (Hr Hev) as [Ht _]. congruence.
Qed.

Lemma sweep_spec m : forall p h i p' o, pool_ok p -> passed h i p -> sweep m p = (p', o) ->
  match o with
  | NoVictim => swept p p' /\ (2 * len p.(pstate).(clock_order) <= i + N.of_nat m -> forall k r, p.(pstate).(frames) !! k = Some r -> ~ evictable p r)
  | FreedClean => exists q k r, swept p q /\ q.(pstate).(frames) !! k = Some r /\ evictable p r /\ (frame_of p r).(f_dirty) = false /\ p' = with_state (remove_frame k q.(pstate)) q
  | ReservedDirty r => exists q k, swept p q /\ q.(pstate).(frames) !! k = Some r /\ evictable p r /\ (frame_of p r).(f_dirty) = true /\
      p' = update_frame r (fun f => pin (set_evicting true f)) q
  end.
Proof using.
  induction m as [|m IH]; intros p h i p' o Hp Hpa E; cbn [sweep] in E.
  - injection E as <- <-. split; [reflexivity|]. intros Hi k r Hr Hev. pose proof (proj2 (ok_clock p Hp k) (ex_intro _ r Hr)) as Hin.
    apply list_elem_of_lookup in Hin as [q Hq]. destruct Hpa as [_ Hj]. set (n := len (clock_order (pstate p))) in *.
    assert (Hqn : N.of_nat q < n) by (apply lookup_lt_Some in Hq; unfold n, len; lia).
    set (j := (n - h mod n + N.of_nat q) mod n).
    assert (Hj' : (h + j) mod n = N.of_nat q).
    { unfold j. rewrite N.Div0.add_mod_idemp_r. pose proof (N.mod_lt h n ltac:(lia)). rewrite <- (N.Div0.add_mod_idemp_l h), N.add_assoc.
      replace (h mod n + (n - h mod n)) with (1 * n) by lia. rewrite N.add_comm, N.Div0.mod_add. by apply N.mod_small. }
    pose proof (N.mod_lt (n - h mod n + N.of_nat q) n ltac:(lia)) as Hjn. fold j in Hjn. destruct (Hj j k r) as [_ ?]; [lia|by rewrite Hj', Nat2N.id|done|done|lia].
  - case_decide as Hem.
    { injection E as <- <-. split; [reflexivity|]. intros _ k r Hr. pose proof (proj2 (ok_clock p Hp k) (ex_intro _ r Hr)) as Hin. rewrite Hem in Hin. by inversion Hin. }
    destruct (hand_lookup p Hp Hem) as (k & r & Hat). destruct (sweep_turn p) as [p1 o1] eqn:Et. pose proof (sweep_turn_spec _ _ _ _ _ Hat Et) as Hspec.
    assert (Hn : 0 < len (clock_order (pstate p))) by (destruct (clock_order (pstate p)); unfold len; cbn; [done|lia]).
    destruct o1 as [[|r1|]|].
    + injection E as <- <-. destruct Hspec as (H1 & H2 & _ & q & Hq & ->). exists q, k, r. pose proof (swept_frames _ _ Hq) as [-> _]. destruct Hat. done.
    + injection E as <- <-. destruct Hspec as (-> & H1 & H2 & q & Hq & ->). exists q, k. pose proof (swept_frames _ _ Hq) as [-> _]. destruct Hat. done.
    + done.
    + pose proof (passed_turn _ _ _ _ _ _ Hn Hat Hpa Et) as Hpa1. destruct Hspec as (Hs & _). pose proof (swept_frames _ _ Hs) as [Ef Eo].
      specialize (IH p1 h (i + 1) p' o (swept_ok _ _ Hs Hp) Hpa1 E). destruct o as [|r'|].
      * destruct IH as (q & k' & r' & H1 & H2 & H3 & H4 & ->). exists q, k', r'. rewrite <- (swept_evictable _ _ r' Hs). split_and!; [by etrans|done|done| |done].
        destruct Hs as (_ & _ & _ & _ & _ & Hs). destruct (Hs r') as [E'|E']; by rewrite E' in H4.
      * destruct IH as (q & k' & H1 & H2 & H3 & H4 & ->). exists q, k'. rewrite <- (swept_evictable _ _ r' Hs). split_and!; [by etrans|done|done| |done].
        destruct Hs as (_ & _ & _ & _ & _ & Hs). destruct (Hs r') as [E'|E']; by rewrite E' in H4.
      * destruct IH as [H1 H2]. split; [by etrans|]. rewrite Eo, Ef in H2. intros Hi k' r' Hr'. rewrite <- (swept_evictable _ _ r' Hs). apply (H2 ltac:(lia) k' r' Hr').
Qed.

Lemma passed_start p : passed p.(pstate).(clock_hand) 0 p.
Proof using. split; [by rewrite N.add_0_r|]. intros j k r Hj. lia. Qed.
(** What the sweep takes, and that it takes something. *)
Lemma reclaim_spec p p' o : pool_ok p -> reclaim_victim p = (p', o) ->
  match o with
  | NoVictim => swept p p' /\ forall k r, p.(pstate).(frames) !! k = Some r -> ~ evictable p r
  | FreedClean => exists q k r, swept p q /\ q.(pstate).(frames) !! k = Some r /\ evictable p r /\ (frame_of p r).(f_dirty) = false /\ p' = with_state (remove_frame k q.(pstate)) q
  | ReservedDirty r => exists q k, swept p q /\ q.(pstate).(frames) !! k = Some r /\ evictable p r /\ (frame_of p r).(f_dirty) = true /\
      p' = update_frame r (fun f => pin (set_evicting true f)) q
  end.
Proof using.
  intros Hp E. pose proof (sweep_spec _ p _ 0 p' o Hp (passed_start p) E) as H. destruct o; [done|done|]. destruct H as [H1 H2]. split; [done|]. apply H2. unfold len. lia.
Qed.

(** C27: The clock finds a victim whenever there is one.  Two rounds of the sweep fail only if
    every resident page is pinned, in a checkpoint flush, or holds changes that may not be
    written; otherwise a page that may leave is taken, a clean one out of the table at once,
    a dirty one pinned and closed to new users. *)
Theorem sweep_finds_victim p p' o : pool_ok p -> reclaim_victim p = (p', o) ->
  (o = NoVictim <-> forall k r, p.(pstate).(frames) !! k = Some r -> ~ evictable p r) /\
  match o with
  | NoVictim => p'.(pstate).(frames) = p.(pstate).(frames)
  | FreedClean => exists k r, p.(pstate).(frames) !! k = Some r /\ evictable p r /\ (frame_of p r).(f_dirty) = false /\
      p'.(pstate).(frames) = delete k p.(pstate).(frames)
  | ReservedDirty r => exists k, p.(pstate).(frames) !! k = Some r /\ evictable p r /\ (frame_of p r).(f_dirty) = true /\
      p'.(pstate).(frames) = p.(pstate).(frames) /\ (frame_of p' r).(evicting) = true /\ (frame_of p' r).(pin_count) = 1
  end.
Proof using.
  intros Hp E. pose proof (reclaim_spec p p' o Hp E) as H. destruct o as [|r|].
  - destruct H as (q & k & r & Hs & Hk & Hev & Hd & ->). pose proof (swept_frames _ _ Hs) as [Ef _]. rewrite Ef in Hk. split.
    + split; [done|]. intros H. by destruct (H k r Hk).
    + exists k, r. split_and!; try done. cbn. by rewrite Ef.
  - destruct H as (q & k & Hs & Hk & Hev & Hd & ->). pose proof (swept_frames _ _ Hs) as [Ef _]. rewrite Ef in Hk. split.
    + split; [done|]. intros H. by destruct (H k r Hk).
    + exists k. rewrite frame_of_update, decide_True by done. split_and!; try done. cbn. destruct Hev as (Hp0 & _). destruct Hs as (_ & _ & _ & _ & _ & Hs). destruct (Hs r) as [-> | ->]; cbn; by rewrite Hp0.
  - destruct H as [Hs H]. split; [done|]. by destruct (swept_frames _ _ Hs).
Qed.
End Pool.
