(* ===== verification/PoolSteps.v ===== *)
(** * The buffer pool under concurrency (src/crates/buffer/src/pool.rs)

    The critical sections of the pool, the writes under a page latch and the I/O between them
    as steps of one system, interleaved in any order.  Ghost state records every published
    version of every page and what a crash may find of it.  Shown, for all runs in which a
    page that was read from its file is not written back before it is inserted: every guard
    reads the last published version; nothing reaches the files before its record is durable;
    what the files miss starts at or after the redo boundary the dirty-page table gives; and a
    page whose write may be torn has a whole image in the log at its own boundary.

    The flush of the files of a rewrite runs while its session owns these files alone and is
    not a step here. *)

From S2P Require Import Prelude Errors Mvcc CheckedBytes ByteArray BufferPool.
Local Open Scope N_scope.

(** What the pool may expect of the files and of the log.  [file_image] is the page that was
    written to a place of a file: none behind its end or in a hole, and a hole reads as zeros.
    [may_hold] is what a crash may leave there short of a torn write, [halfway] a place whose last
    write failed halfway, [unsynced] one with a write that was not synced and may be torn,
    [extent] how many pages a file has, [io_ok] what files and log keep of themselves.  [storable] are the images that read back as they were
    written, and [appended] is the record of a change going to the log. *)
Class IoLaws (W : Type) `{PageStore W} `{FlushPolicy W} : Type := {
  file_image : W -> PageKey -> option bytes;
  may_hold : W -> PageKey -> option bytes -> Prop;
  unsynced : W -> PageKey -> Prop;
  halfway : W -> PageKey -> Prop;
  storable : bytes -> Prop;
  io_ok : W -> Prop;
  written_lsn : W -> N;
  durable_lsn : W -> N;
  extent : W -> N -> N;
  appended : W -> WalPosition -> W -> Prop;
  same_page (w w' : W) (k : PageKey) : Prop :=
    file_image w' k = file_image w k /\ (forall o, may_hold w' k o -> may_hold w k o) /\ (unsynced w' k -> unsynced w k) /\ (halfway w' k -> halfway w k);
  reads_as (w : W) (k : PageKey) (d : bytes) : Prop :=
    file_image w k = Some d \/ (file_image w k = None /\ d = page_default /\ k.2 < extent w k.1);
  later (w w' : W) : Prop :=
    written_lsn w <= written_lsn w' /\ durable_lsn w <= durable_lsn w' /\ (forall f, extent w f <= extent w' f) /\ (io_ok w -> io_ok w');
  halfway_law w k : halfway w k -> unsynced w k;
  load_law k w d : io_ok w -> store_load_page k w = Ok (Some d) -> ~ halfway w k -> reads_as w k d;
  image_law k w d : file_image w k = Some d -> k.2 < extent w k.1;
  count_law f w n : store_page_count f w = Ok n -> extent w f <= U32_MAX -> n = extent w f;
  write_law k d w w' res : io_ok w -> storable d -> store_write_page k d w = (w', res) ->
    later w w' /\ (forall k', k' <> k -> same_page w w' k') /\
    (forall o, may_hold w' k o -> o = Some d \/ may_hold w k o) /\ (res = Ok () -> file_image w' k = Some d /\ ~ halfway w' k);
  sync_law files w w' res : io_ok w -> store_sync_files files w = (w', res) ->
    later w w' /\ (forall k, same_page w w' k) /\
    (res = Ok () -> forall k, k.1 ∈ files -> ~ halfway w' k -> ~ unsynced w' k /\ forall o, may_hold w' k o -> file_image w' k = o);
  durable_law w w' res : io_ok w -> ensure_durable w = (w', res) ->
    later w w' /\ (forall k, same_page w w' k) /\ (res = Ok () -> written_lsn w <= durable_lsn w');
  append_law w pos w' : io_ok w -> appended w pos w' ->
    written_lsn w <= pos.(replay_from) /\ pos.(replay_from) <= pos.(record_lsn) /\ pos.(record_lsn) <= written_lsn w' /\ later w w' /\
    forall k, same_page w w' k
}.

(** A published version of a page: its record, the page after it, and whether the record
    rebuilds the page whatever it was. *)
Record Version : Type := mkVersion { v_pos : WalPosition; v_image : bytes; v_whole : bool }.

(** How far a write-back has come. *)
Inductive Phase : Type := Begun | Durable | Written | Synced.
Inductive Job : Type :=
  | Steal (ph : Phase)
  | Reserved
  | Captured (image : bytes) (ph : Phase).
Definition job_phase (j : Job) : Phase := match j with Steal ph | Captured _ ph => ph | Reserved => Begun end.
Definition with_phase (ph : Phase) (j : Job) : Job := match j with Steal _ => Steal ph | Captured image _ => Captured image ph | Reserved => Reserved end.

Section Steps.
Context {W : Type} `{!PageStore W} `{!FlushPolicy W} `{!IoLaws W}.
Abbreviation Pool := (@Pool W).

Record System : Type := mkSystem {
  pool : Pool;
  versions : PageKey -> list Version;
  guards : FrameRef -> N;
  jobs : gmap FrameRef Job;
  loads : list (PageKey * bytes)
}.

Definition image_of (s : System) (r : FrameRef) (j : Job) : bytes :=
  match j with Captured image _ => image | _ => (frame_of s.(pool) r).(f_data) end.
Definition with_pool (p : Pool) (s : System) : System := mkSystem p s.(versions) s.(guards) s.(jobs) s.(loads).
Definition with_world (w : W) (p : Pool) : Pool := mkPool p.(frame_count) p.(stealing) p.(arena) p.(pstate) w.
Definition with_jobs (m : gmap FrameRef Job) (s : System) : System := mkSystem s.(pool) s.(versions) s.(guards) m s.(loads).
Definition with_guards (g : FrameRef -> N) (s : System) : System := mkSystem s.(pool) s.(versions) g s.(jobs) s.(loads).
Definition set_guard (r : FrameRef) (n : N) (g : FrameRef -> N) : FrameRef -> N := fun r' => if decide (r' = r) then n else g r'.
Definition hold (r : FrameRef) (s : System) : System := with_guards (set_guard r (s.(guards) r + 1) s.(guards)) s.
Definition add_version (k : PageKey) (v : Version) (s : System) : System :=
  mkSystem s.(pool) (fun k' => if decide (k' = k) then s.(versions) k ++ [v] else s.(versions) k') s.(guards) s.(jobs) s.(loads).

(** The record that rebuilds: the first one of a page, and the first one since it was last
    written back. *)
Definition whole_record (s : System) (f : Frame) : bool := f.(needs_fpi) || bool_decide (s.(versions) f.(f_key) = []).

Definition durable_job (j : Job) : Job := match job_phase j with Begun => with_phase Durable j | _ => j end.
Definition synced_job (s : System) (files : list N) (r : FrameRef) (j : Job) : Job :=
  match job_phase j with
  | Written => if bool_decide ((frame_of s.(pool) r).(f_key).1 ∈ files) then with_phase Synced j else j
  | _ => j
  end.

Inductive step : System -> System -> Prop :=
  | step_load s k d :
      s.(pool).(pstate).(frames) !! k = None -> store_load_page k s.(pool).(world) = Ok (Some d) ->
      step s (mkSystem s.(pool) s.(versions) s.(guards) s.(jobs) ((k, d) :: s.(loads)))
  | step_insert s k d p r :
      (k, d) ∈ s.(loads) -> reads_as s.(pool).(world) k d \/ is_Some (s.(pool).(pstate).(frames) !! k) ->
      insert_loaded k d s.(pool) = (p, Ok (Some r)) -> step s (hold r (with_pool p s))
  | step_find s k p r : lookup_resident k s.(pool) = (p, Found r) -> step s (hold r (with_pool p s))
  | step_drop s r : 0 < s.(guards) r -> step s (with_guards (set_guard r (s.(guards) r - 1) s.(guards)) (with_pool (drop_guard r s.(pool)) s))
  | step_publish s r txn_id d pos w f :
      0 < s.(guards) r -> storable d -> appended s.(pool).(world) pos w ->
      publish_mutation txn_id pos (set_data d (set_needs_fpi false (frame_of s.(pool) r))) = Ok f ->
      step s (add_version f.(f_key) (mkVersion pos d (whole_record s (frame_of s.(pool) r)))
                (with_pool (with_world w (update_frame r (fun _ => f) s.(pool))) s))
  | step_log s w : later s.(pool).(world) w -> (forall k, same_page s.(pool).(world) w k) -> step s (with_pool (with_world w s.(pool)) s)
  | step_seed s file_id p : extent s.(pool).(world) file_id <= U32_MAX -> ensure_extent_seeded file_id s.(pool) = (p, Ok ()) -> step s (with_pool p s)
  | step_new s file_id p n r :
      file_id ∈ s.(pool).(pstate).(extent_seeded) -> allocate_page file_id s.(pool) = (p, Ok (Some (n, r))) -> n < U32_MAX ->
      step s (hold r (with_pool p s))
  | step_room s p : reserve_victim s.(pool) = (p, Ok None) -> step s (with_pool p s)
  | step_full s p e : reserve_victim s.(pool) = (p, Err e) -> step s (with_pool p s)
  | step_steal s p r : reserve_victim s.(pool) = (p, Ok (Some r)) -> step s (with_jobs (<[r := Steal Begun]> s.(jobs)) (with_pool p s))
  | step_reserve s k r :
      s.(pool).(pstate).(frames) !! k = Some r -> (frame_of s.(pool) r).(evicting) = false -> (frame_of s.(pool) r).(checkpoint_flushing) = false ->
      step s (with_jobs (<[r := Reserved]> s.(jobs)) (with_pool (update_frame r (set_flushing true) s.(pool)) s))
  | step_capture s r latched p o :
      s.(jobs) !! r = Some Reserved -> capture_frame latched r s.(pool) = (p, Ok o) ->
      step s (with_jobs (match o with Some c => <[r := Captured c.(cc_image) Begun]> s.(jobs) | None => delete r s.(jobs) end) (with_pool p s))
  | step_durable s w res :
      ensure_durable s.(pool).(world) = (w, res) ->
      step s (with_jobs (if is_ok res then durable_job <$> s.(jobs) else s.(jobs)) (with_pool (with_world w s.(pool)) s))
  | step_write s r j w res :
      s.(jobs) !! r = Some j -> job_phase j = Durable ->
      store_write_page (frame_of s.(pool) r).(f_key) (image_of s r j) s.(pool).(world) = (w, res) ->
      step s (with_jobs (if is_ok res then <[r := with_phase Written j]> s.(jobs) else s.(jobs)) (with_pool (with_world w s.(pool)) s))
  | step_sync s files w res :
      store_sync_files files s.(pool).(world) = (w, res) ->
      step s (with_jobs (if is_ok res then map_imap (fun r j => Some (synced_job s files r j)) s.(jobs) else s.(jobs))
                (with_pool (with_world w s.(pool)) s))
  | step_evict s r p :
      s.(jobs) !! r = Some (Steal Synced) -> finish_eviction r s.(pool) = (p, true) -> step s (with_jobs (delete r s.(jobs)) (with_pool p s))
  | step_settle s r image f clean :
      s.(jobs) !! r = Some (Captured image Synced) -> settle_frame (frame_of s.(pool) r) = Ok (f, clean) ->
      step s (with_jobs (delete r s.(jobs)) (with_pool (update_frame r (fun _ => f) s.(pool)) s))
  | step_abort_steal s r ph :
      s.(jobs) !! r = Some (Steal ph) -> step s (with_jobs (delete r s.(jobs)) (with_pool (abort_eviction r s.(pool)) s))
  | step_abort_flush s r image ph :
      s.(jobs) !! r = Some (Captured image ph) ->
      step s (with_jobs (delete r s.(jobs)) (with_pool (clear_checkpoint_reservations [mkCaptured r image] s.(pool)) s)).

(** ** The invariant *)

Definition current (vs : list Version) : option bytes := v_image <$> last vs.

(** The versions are in the log and can be stored. *)
Definition in_order (w : W) (vs : list Version) : Prop :=
  Forall (fun v => v.(v_pos).(replay_from) <= v.(v_pos).(record_lsn) /\ v.(v_pos).(record_lsn) <= written_lsn w /\ storable v.(v_image)) vs.

(** The last version is on disk and nothing else can be found there. *)
Definition on_disk (w : W) (k : PageKey) (vs : list Version) : Prop :=
  ~ unsynced w k /\ file_image w k = current vs /\ (forall o, may_hold w k o -> o = current vs) /\
  forall v, last vs = Some v -> v.(v_pos).(record_lsn) <= durable_lsn w.

(** A crash leaves the page as it was after some of its versions, none of them perhaps: the
    record of the last of them is durable, and what is missing starts at [lo]. *)
Definition covered (w : W) (k : PageKey) (vs : list Version) (lo : N) : Prop :=
  forall o, may_hold w k o -> exists n, (n <= length vs)%nat /\ o = current (take n vs) /\ (forall v, last (take n vs) = Some v -> v.(v_pos).(record_lsn) <= durable_lsn w) /\
    forall j v', (n <= j)%nat -> vs !! j = Some v' -> lo <= v'.(v_pos).(replay_from).

(** The record at the boundary rebuilds the page. *)
Definition whole_at (vs : list Version) (lo : N) : Prop := exists i v, vs !! i = Some v /\ v.(v_pos).(replay_from) = lo /\ v.(v_whole) = true.

Definition clean_ok (w : W) (vs : list Version) (f : Frame) : Prop :=
  on_disk w f.(f_key) vs /\ f.(dirty_meta).(rec_lsn) = None /\ (vs <> [] -> f.(needs_fpi) = true).
Definition dirty_ok (w : W) (vs : list Version) (f : Frame) : Prop :=
  exists lo v, f.(dirty_meta).(rec_lsn) = Some lo /\ last vs = Some v /\ f.(dirty_meta).(latest_page_lsn) = Some v.(v_pos).(record_lsn) /\
    covered w f.(f_key) vs lo /\ whole_at vs lo.

Definition phase_le (a b : Phase) : Prop :=
  match a, b with Begun, _ | Durable, (Durable | Written | Synced) | Written, (Written | Synced) | Synced, Synced => True | _, _ => False end.

(** What is known of a version that is being written, by how far it came. *)
Definition writing_ok (w : W) (k : PageKey) (v : Version) (ph : Phase) : Prop :=
  (phase_le Durable ph -> v.(v_pos).(record_lsn) <= durable_lsn w) /\
  (phase_le Written ph -> file_image w k = Some v.(v_image) /\ ~ halfway w k) /\
  (phase_le Synced ph -> ~ unsynced w k /\ forall o, may_hold w k o -> o = Some v.(v_image)).

(** A captured frame: its image is a version, later versions are those of the redirtying. *)
Definition captured_ok (w : W) (vs : list Version) (f : Frame) (image : bytes) (ph : Phase) : Prop :=
  exists c n v, f.(dirty_meta).(checkpoint_flush) = Some c /\ vs !! n = Some v /\ (v.(v_image) = image /\ v.(v_pos).(record_lsn) = c.(captured_page_lsn)) /\
    f.(dirty_meta).(generation) = c.(captured_generation) + (len vs - (N.of_nat n + 1)) /\
    c.(first_redirty_lsn) = (replay_from ∘ v_pos) <$> (vs !! S n) /\
    (vs !! S n = None -> f.(needs_fpi) = true) /\ (forall v', vs !! S n = Some v' -> v'.(v_whole) = true) /\
    (forall i v', (n < i)%nat -> vs !! i = Some v' ->
       (forall v1, vs !! S n = Some v1 -> v1.(v_pos).(replay_from) <= v'.(v_pos).(replay_from)) /\
       (forall lo, f.(dirty_meta).(rec_lsn) = Some lo -> lo <= v'.(v_pos).(replay_from))) /\
    writing_ok w f.(f_key) v ph.

Definition job_ok (w : W) (vs : list Version) (f : Frame) (j : option Job) (held : N) : Prop :=
  match j with
  | None => f.(evicting) = false /\ f.(checkpoint_flushing) = false /\ f.(dirty_meta).(checkpoint_flush) = None /\ f.(pin_count) = held
  | Some (Steal ph) =>
      f.(evicting) = true /\ f.(checkpoint_flushing) = false /\ f.(dirty_meta).(checkpoint_flush) = None /\ f.(pin_count) = 1 /\ held = 0 /\
      f.(f_dirty) = true /\ exists v, last vs = Some v /\ writing_ok w f.(f_key) v ph
  | Some Reserved => f.(evicting) = false /\ f.(checkpoint_flushing) = true /\ f.(dirty_meta).(checkpoint_flush) = None /\ f.(pin_count) = held
  | Some (Captured image ph) =>
      f.(evicting) = false /\ f.(checkpoint_flushing) = true /\ f.(f_dirty) = true /\ f.(pin_count) = held /\ captured_ok w vs f image ph
  end.

Definition frame_ok (w : W) (vs : list Version) (f : Frame) (j : option Job) (held : N) : Prop :=
  (forall d, current vs = Some d -> f.(f_data) = d) /\ (if f.(f_dirty) then dirty_ok w vs f else clean_ok w vs f) /\ job_ok w vs f j held.

(** The allocator: no page that has a version is handed out. *)
Definition allocated (w : W) (st : PoolState) (k : PageKey) : Prop :=
  k.2 < U32_MAX -> (if bool_decide (k.1 ∈ st.(extent_seeded)) then k.2 < next_page_num st k.1 else k.2 < extent w k.1) /\ k.2 ∉ default ∅ (st.(abandoned_pages_by_file) !! k.1).

Record sys_ok (s : System) : Prop := mkSysOk {
  sok_io : io_ok s.(pool).(world);
  sok_pool : pool_ok s.(pool);
  sok_page k : match s.(pool).(pstate).(frames) !! k with
               | Some r => frame_ok s.(pool).(world) (s.(versions) k) (frame_of s.(pool) r) (s.(jobs) !! r) (s.(guards) r)
               | None => on_disk s.(pool).(world) k (s.(versions) k)
               end;
  sok_order k : in_order s.(pool).(world) (s.(versions) k);
  sok_abandoned f : default ∅ (s.(pool).(pstate).(abandoned_pages_by_file) !! f) = ∅;
  sok_alloc k : s.(versions) k <> [] \/ is_Some (s.(pool).(pstate).(frames) !! k) -> allocated s.(pool).(world) s.(pool).(pstate) k;
  sok_guards r : 0 < s.(guards) r -> s.(pool).(pstate).(frames) !! (frame_of s.(pool) r).(f_key) = Some r;
  sok_jobs r j : s.(jobs) !! r = Some j -> s.(pool).(pstate).(frames) !! (frame_of s.(pool) r).(f_key) = Some r
}.

(** *** Moving along with the world *)

Lemma later_refl (w : W) : later w w.
Proof using. by split_and!. Qed.
Lemma same_page_refl (w : W) k : same_page w w k.
Proof using. done. Qed.

Lemma in_order_later w w' vs : later w w' -> in_order w vs -> in_order w' vs.
Proof using. intros (H & _) Hvs. eapply Forall_impl; [exact Hvs|]. cbn. intros v (? & ? & ?). split_and!; [done|lia|done]. Qed.
Lemma on_disk_later w w' k vs : later w w' -> same_page w w' k -> on_disk w k vs -> on_disk w' k vs.
Proof using.
  intros (_ & Hd & _) (E1 & E2 & E3 & _) (H1 & H2 & H3 & H4). split_and!; [tauto|congruence|auto|]. intros v Hv. specialize (H4 v Hv). lia.
Qed.
Lemma covered_later w w' k vs lo : later w w' -> (forall o, may_hold w' k o -> may_hold w k o) -> covered w k vs lo -> covered w' k vs lo.
Proof using. intros (_ & Hd & _) E H o Hm. destruct (H o (E o Hm)) as (n & ? & ? & Hv & ?). exists n. split_and!; try done. intros v Hl. specialize (Hv v Hl). lia. Qed.
Lemma writing_later w w' k v ph : later w w' -> same_page w w' k -> writing_ok w k v ph -> writing_ok w' k v ph.
Proof using.
  intros (_ & Hd & _) (E1 & E2 & E3 & E4) (H1 & H2 & H3). split_and!; [intros Hp; specialize (H1 Hp); lia|intros Hp; rewrite E1; destruct (H2 Hp); auto|]. intros Hp. destruct (H3 Hp) as [Hu Hm]. split; [tauto|auto].
Qed.
Lemma captured_later w w' vs f image ph : later w w' -> same_page w w' f.(f_key) -> captured_ok w vs f image ph -> captured_ok w' vs f image ph.
Proof using. intros Hl Hs (c & n & v & H). exists c, n, v. destruct_and! H. split_and!; try done. by eapply writing_later. Qed.
Lemma job_later w w' vs f j held : later w w' -> same_page w w' f.(f_key) -> job_ok w vs f j held -> job_ok w' vs f j held.
Proof using.
  intros Hl Hs. destruct j as [[ph| |image ph]|]; cbn; [|done| |done].
  - intros (? & ? & ? & ? & ? & ? & v & ? & ?). split_and!; try done. exists v. split; [done|]. by eapply writing_later.
  - intros (? & ? & ? & ? & ?). split_and!; try done. by eapply captured_later.
Qed.
Lemma frame_later w w' vs f j held : later w w' -> same_page w w' f.(f_key) -> frame_ok w vs f j held -> frame_ok w' vs f j held.
Proof using.
  intros Hl Hs (H1 & H2 & H3). split_and!; [done| |by eapply job_later]. destruct (f_dirty f).
  - destruct H2 as (lo & v & ? & ? & ? & ? & ?). exists lo, v. split_and!; try done. eapply covered_later; [done|apply Hs|done].
  - destruct H2 as (? & ? & ?). split_and!; try done. by eapply on_disk_later.
Qed.
Lemma allocated_later w w' st k : later w w' -> allocated w st k -> allocated w' st k.
Proof using. intros (_ & _ & He & _) H Hk. destruct (H Hk) as [H1 H2]. split; [|done]. case_bool_decide; [done|]. specialize (He k.1). lia. Qed.

(** Every page of a system with another world that leaves the pages alone. *)
Lemma sys_world s w : later s.(pool).(world) w -> (forall k, same_page s.(pool).(world) w k) -> sys_ok s -> sys_ok (with_pool (with_world w s.(pool)) s).
Proof using.
  intros Hl Hs [Hio H1 H2 H3 Hab H4 H5 H6]. split; cbn; try done.
  - by apply Hl.
  - by destruct H1.
  - intros k. specialize (H2 k). change (frame_of (with_world w (pool s))) with (frame_of (pool s)). case_match; [by eapply frame_later|by eapply on_disk_later].
  - intros k. by eapply in_order_later.
  - intros k Hk. by eapply allocated_later, H4.
Qed.

(** *** One page at a time *)

Lemma resident_inj s k k' r : sys_ok s -> s.(pool).(pstate).(frames) !! k = Some r -> s.(pool).(pstate).(frames) !! k' = Some r -> k' = k.
Proof using. intros Hs H1 H2. destruct (ok_frame_of _ _ _ (sok_pool s Hs) H1), (ok_frame_of _ _ _ (sok_pool s Hs) H2). congruence. Qed.

(** A step that changes one resident frame. *)
Lemma sys_local s p' vers' guards' jobs' loads' k r :
  sys_ok s -> s.(pool).(pstate).(frames) !! k = Some r ->
  pool_ok p' -> p'.(pstate).(frames) = s.(pool).(pstate).(frames) -> (forall r', r' <> r -> frame_of p' r' = frame_of s.(pool) r') ->
  later s.(pool).(world) p'.(world) -> (forall k', k' <> k -> same_page s.(pool).(world) p'.(world) k') ->
  (forall k', k' <> k -> vers' k' = s.(versions) k') -> (forall r', r' <> r -> jobs' !! r' = s.(jobs) !! r' /\ guards' r' = s.(guards) r') ->
  (forall f, default ∅ (p'.(pstate).(abandoned_pages_by_file) !! f) ⊆ default ∅ (s.(pool).(pstate).(abandoned_pages_by_file) !! f)) ->
  (forall k', vers' k' <> [] \/ is_Some (p'.(pstate).(frames) !! k') -> allocated p'.(world) p'.(pstate) k') -> in_order p'.(world) (vers' k) ->
  frame_ok p'.(world) (vers' k) (frame_of p' r) (jobs' !! r) (guards' r) -> sys_ok (mkSystem p' vers' guards' jobs' loads').
Proof using.
  intros Hs Hr Hp' Ef Hother Hl Hsame Hv Hjg Hab Ha Ho Hf. pose proof Hs as [Hio H1 H2 H3 Hab0 H4 H5 H6].
  assert (Hkey : f_key (frame_of p' r) = k) by (rewrite <- Ef in Hr; by destruct (ok_frame_of _ _ _ Hp' Hr)).
  split; cbn; [by apply Hl|done| | |intros f'; specialize (Hab f'); rewrite Hab0 in Hab; set_solver|done| |].
  - intros k'. rewrite Ef. destruct (decide (k' = k)) as [->|Hne]; [by rewrite Hr|]. specialize (H2 k'). rewrite Hv by done.
    destruct (frames (pstate (pool s)) !! k') as [r'|] eqn:Hr'; [|by eapply on_disk_later; auto]. assert (r' <> r) by (intros ->; by destruct Hne; eapply resident_inj).
    destruct (Hjg r') as [-> ->]; [done|]. rewrite Hother by done. eapply frame_later; [done| |done]. destruct (ok_frame_of _ _ _ H1 Hr') as [-> _]. auto.
  - intros k'. destruct (decide (k' = k)) as [->|Hne]; [done|]. rewrite Hv by done. by eapply in_order_later.
  - intros r' Hg. rewrite Ef. destruct (decide (r' = r)) as [->|Hne]; [by rewrite Hkey|]. rewrite Hother by done. apply H5. by destruct (Hjg r' Hne) as [_ <-].
  - intros r' j Hj. rewrite Ef. destruct (decide (r' = r)) as [->|Hne]; [by rewrite Hkey|]. rewrite Hother by done. apply (H6 r' j). by destruct (Hjg r' Hne) as [<- _].
Qed.

(** The same, with the pool's other state and the world as they were. *)
Lemma sys_frame s g guards' jobs' k r :
  sys_ok s -> s.(pool).(pstate).(frames) !! k = Some r -> (forall f, (g f).(f_key) = f.(f_key)) ->
  (forall r', r' <> r -> jobs' !! r' = s.(jobs) !! r' /\ guards' r' = s.(guards) r') ->
  (frame_ok s.(pool).(world) (s.(versions) k) (frame_of s.(pool) r) (s.(jobs) !! r) (s.(guards) r) ->
   frame_ok s.(pool).(world) (s.(versions) k) (g (frame_of s.(pool) r)) (jobs' !! r) (guards' r)) ->
  sys_ok (mkSystem (update_frame r g s.(pool)) s.(versions) guards' jobs' s.(loads)).
Proof using.
  intros Hs Hr Hg Hjg Hf. pose proof (sok_page s Hs k) as Hk. rewrite Hr in Hk.
  apply (sys_local s _ _ _ _ _ k r Hs Hr); try done; [by apply ok_update; [|apply sok_pool]| |apply (sok_alloc s Hs)|apply (sok_order s Hs)|].
  - intros r' Hne. by rewrite frame_of_update, decide_False.
  - rewrite frame_of_update, decide_True by done. apply Hf, Hk.
Qed.

Lemma set_guard_same r n g : set_guard r n g r = n.
Proof using. unfold set_guard. by rewrite decide_True. Qed.
Lemma set_guard_other r n g r' : r' <> r -> set_guard r n g r' = g r'.
Proof using. intros. unfold set_guard. by rewrite decide_False. Qed.

Lemma jobs_insert (m : gmap FrameRef Job) r j r' : r' <> r -> <[r := j]> m !! r' = m !! r'.
Proof using. intros. by rewrite lookup_insert_ne. Qed.
Lemma jobs_delete (m : gmap FrameRef Job) r r' : r' <> r -> delete r m !! r' = m !! r'.
Proof using. intros. by rewrite lookup_delete_ne. Qed.

(** Only what the sweep and the guards change of a frame. *)
Lemma frame_ok_reference b w vs f j held : frame_ok w vs f j held -> frame_ok w vs (set_reference b f) j held.
Proof using. by destruct j as [[]|]. Qed.
Lemma frame_ok_pin w vs f j held : f.(evicting) = false -> frame_ok w vs f j held -> frame_ok w vs (pin f) j (held + 1).
Proof using.
  intros He (H1 & H2 & H3). split_and!; [done|done|]. destruct j as [[ph| |image ph]|]; cbn in *.
  - destruct H3 as (E & _). congruence.
  - destruct H3 as (? & ? & ? & ->). done.
  - destruct H3 as (? & ? & ? & -> & ?). split_and!; done.
  - destruct H3 as (? & ? & ? & ->). done.
Qed.
Lemma frame_ok_unpin w vs f j held : 0 < held -> frame_ok w vs f j held -> frame_ok w vs (unpin f) j (held - 1).
Proof using.
  intros He (H1 & H2 & H3). split_and!; [done|done|]. destruct j as [[ph| |image ph]|]; cbn in *.
  - destruct H3 as (_ & _ & _ & _ & E & _). lia.
  - destruct H3 as (? & ? & ? & ->). done.
  - destruct H3 as (? & ? & ? & -> & ?). split_and!; done.
  - destruct H3 as (? & ? & ? & ->). done.
Qed.

Lemma sys_swept s p : swept s.(pool) p -> sys_ok s -> sys_ok (with_pool p s).
Proof using.
  intros Hw Hs. pose proof Hs as [Hio H1 H2 H3 Hab H4 H5 H6]. pose proof (swept_ok _ _ Hw H1) as Hp. pose proof (swept_frames _ _ Hw) as [Ef Eo]. destruct Hw as (_ & _ & Ew & Est & _ & Hfr).
  assert (Hkey : forall r, f_key (frame_of p r) = f_key (frame_of (pool s) r)) by (intros r; by destruct (Hfr r) as [-> | ->]).
  split; cbn; rewrite ?Ew, ?Ef; try done.
  - intros k. specialize (H2 k). destruct (_ !! k) as [r|]; [|done]. destruct (Hfr r) as [-> | ->]; [done|by apply frame_ok_reference].
  - intros f. rewrite Est. apply Hab.
  - intros k Hk. rewrite Est. by apply H4.
  - intros r Hg. rewrite Hkey. auto.
  - intros r j Hj. rewrite Hkey. eauto.
Qed.

(** *** Pages that come and go *)

Lemma fresh_idle s r : sys_ok s -> r ∉ dom s.(pool).(arena) -> s.(guards) r = 0 /\ s.(jobs) !! r = None.
Proof using.
  intros Hs Hr. assert (Hno : s.(pool).(pstate).(frames) !! (frame_of s.(pool) r).(f_key) <> Some r).
  { intros E. destruct (ok_frame_of _ _ _ (sok_pool s Hs) E) as [_ Ha]. by apply elem_of_dom_2, Hr in Ha. }
  split.
  - destruct (decide (s.(guards) r = 0)) as [|Hg]; [done|]. destruct Hno. apply (sok_guards s Hs). lia.
  - destruct (s.(jobs) !! r) as [j|] eqn:Hj; [|done]. destruct Hno. by apply (sok_jobs s Hs r j).
Qed.

Lemma sys_add s p' k r held :
  sys_ok s -> s.(pool).(pstate).(frames) !! k = None -> r ∉ dom s.(pool).(arena) ->
  pool_ok p' -> p'.(pstate).(frames) = <[k := r]> s.(pool).(pstate).(frames) -> (forall r', r' <> r -> frame_of p' r' = frame_of s.(pool) r') ->
  p'.(world) = s.(pool).(world) -> (forall f, default ∅ (p'.(pstate).(abandoned_pages_by_file) !! f) ⊆ default ∅ (s.(pool).(pstate).(abandoned_pages_by_file) !! f)) ->
  (forall k', s.(versions) k' <> [] \/ is_Some (p'.(pstate).(frames) !! k') -> allocated p'.(world) p'.(pstate) k') ->
  frame_ok p'.(world) (s.(versions) k) (frame_of p' r) None held ->
  sys_ok (mkSystem p' s.(versions) (set_guard r held s.(guards)) s.(jobs) s.(loads)).
Proof using.
  intros Hs Hk Hr Hp' Ef Hother Ew Hab Ha Hf. destruct (fresh_idle s r Hs Hr) as [Hg0 Hj0]. pose proof Hs as [Hio H1 H2 H3 Hab0 H4 H5 H6].
  assert (Hne : forall r', s.(pool).(pstate).(frames) !! (frame_of s.(pool) r').(f_key) = Some r' -> r' <> r).
  { intros r' E ->. destruct (ok_frame_of _ _ _ H1 E) as [_ Hin]. by apply elem_of_dom_2, Hr in Hin. }
  assert (Hres : forall r', s.(pool).(pstate).(frames) !! (frame_of s.(pool) r').(f_key) = Some r' -> p'.(pstate).(frames) !! (frame_of p' r').(f_key) = Some r').
  { intros r' E. pose proof (Hne r' E). rewrite Hother, Ef, lookup_insert_ne; [done| |done]. intros Hkk. congruence. }
  split; cbn; [by rewrite Ew|done| | |intros f'; specialize (Hab f'); rewrite Hab0 in Hab; set_solver|done| |].
  - intros k'. rewrite Ef, Ew. destruct (decide (k' = k)) as [->|Hn].
    + rewrite lookup_insert_eq, Hj0, set_guard_same, <- Ew. done.
    + rewrite lookup_insert_ne by done. specialize (H2 k'). destruct (_ !! k') as [r'|] eqn:Hr'; [|done].
      pose proof (Hne r') as Hn'. destruct (ok_frame_of _ _ _ H1 Hr') as [Ek _]. rewrite Ek in Hn'. specialize (Hn' Hr'). by rewrite Hother, set_guard_other by done.
  - intros k'. rewrite Ew. apply H3.
  - intros r' Hg. destruct (decide (r' = r)) as [->|Hn].
    + assert (Hkr : p'.(pstate).(frames) !! k = Some r) by (by rewrite Ef, lookup_insert_eq). by destruct (ok_frame_of _ _ _ Hp' Hkr) as [-> _].
    + rewrite set_guard_other in Hg by done. apply Hres, H5, Hg.
  - intros r' j Hj. by eapply Hres, H6.
Qed.

Lemma sys_remove s p' k r jobs' :
  sys_ok s -> s.(pool).(pstate).(frames) !! k = Some r ->
  pool_ok p' -> p'.(pstate).(frames) = delete k s.(pool).(pstate).(frames) -> (forall r', r' <> r -> frame_of p' r' = frame_of s.(pool) r') ->
  p'.(world) = s.(pool).(world) -> (forall f, default ∅ (p'.(pstate).(abandoned_pages_by_file) !! f) ⊆ default ∅ (s.(pool).(pstate).(abandoned_pages_by_file) !! f)) ->
  (forall k', s.(versions) k' <> [] \/ is_Some (p'.(pstate).(frames) !! k') -> allocated p'.(world) p'.(pstate) k') ->
  s.(guards) r = 0 -> jobs' !! r = None -> (forall r', r' <> r -> jobs' !! r' = s.(jobs) !! r') -> on_disk s.(pool).(world) k (s.(versions) k) ->
  sys_ok (mkSystem p' s.(versions) s.(guards) jobs' s.(loads)).
Proof using.
  intros Hs Hk Hp' Ef Hother Ew Hab Ha Hg0 Hj0 Hjobs Hd. pose proof Hs as [Hio H1 H2 H3 Hab0 H4 H5 H6].
  assert (Hres : forall r', r' <> r -> s.(pool).(pstate).(frames) !! (frame_of s.(pool) r').(f_key) = Some r' -> p'.(pstate).(frames) !! (frame_of p' r').(f_key) = Some r').
  { intros r' Hn E. rewrite Hother, Ef, lookup_delete_ne; [done| |done]. intros Hkk. congruence. }
  split; cbn; [by rewrite Ew|done| | |intros f'; specialize (Hab f'); rewrite Hab0 in Hab; set_solver|done| |].
  - intros k'. rewrite Ef, Ew. destruct (decide (k' = k)) as [->|Hn]; [by rewrite lookup_delete_eq|]. rewrite lookup_delete_ne by done. specialize (H2 k').
    destruct (_ !! k') as [r'|] eqn:Hr'; [|done]. assert (r' <> r) by (intros ->; by destruct Hn; eapply resident_inj). by rewrite Hother, Hjobs by done.
  - intros k'. rewrite Ew. apply H3.
  - intros r' Hg. apply Hres; [intros ->; lia|]. by apply H5.
  - intros r' j Hj. apply Hres; [intros ->; congruence|]. rewrite Hjobs in Hj by (intros ->; congruence). by apply (H6 r' j).
Qed.

(** *** The allocator *)

Lemma next_advance f n st file : next_page_num (advance_next_page_num f n st) file = if decide (file = f) then N.max (next_page_num st f) (saturating_add U32_MAX n 1) else next_page_num st file.
Proof using.
  unfold next_page_num, advance_next_page_num. cbn. destruct (decide (file = f)) as [->|Hn]; [rewrite lookup_insert_eq|by rewrite lookup_insert_ne]. cbn.
  destruct (_ !! f); cbn; lia.
Qed.
Lemma allocated_advance w f n st k : allocated w st k -> allocated w (advance_next_page_num f n st) k.
Proof using.
  intros H Hk. destruct (H Hk) as [H1 H2]. split; [|done]. change (extent_seeded (advance_next_page_num f n st)) with (extent_seeded st).
  case_bool_decide; [|done]. rewrite next_advance. case_decide as E; [rewrite <- E; lia|done].
Qed.

Lemma allocated_read w st k : default ∅ (st.(abandoned_pages_by_file) !! k.1) = ∅ -> k.2 < extent w k.1 -> allocated w (advance_next_page_num k.1 k.2 st) k.
Proof using.
  intros Hab He Hu. change (abandoned_pages_by_file (advance_next_page_num k.1 k.2 st)) with (abandoned_pages_by_file st). rewrite Hab. split; [|set_solver].
  case_bool_decide; [|done]. rewrite next_advance, decide_True by done. unfold saturating_add. lia.
Qed.

(** *** The steps *)

Ltac sys_cbn := unfold hold, with_guards, with_pool, with_jobs; cbn [pool versions guards jobs loads with_pool with_guards with_jobs with_world world pstate].

Lemma guarded s r : sys_ok s -> 0 < s.(guards) r ->
  exists k, s.(pool).(pstate).(frames) !! k = Some r /\ (frame_of s.(pool) r).(f_key) = k /\
    frame_ok s.(pool).(world) (s.(versions) k) (frame_of s.(pool) r) (s.(jobs) !! r) (s.(guards) r).
Proof using. intros Hs Hg. pose proof (sok_guards s Hs r Hg) as Hk. eexists. split_and!; [exact Hk|done|]. pose proof (sok_page s Hs (f_key (frame_of (pool s) r))) as H. by rewrite Hk in H. Qed.
Lemma working s r j : sys_ok s -> s.(jobs) !! r = Some j ->
  exists k, s.(pool).(pstate).(frames) !! k = Some r /\ (frame_of s.(pool) r).(f_key) = k /\
    frame_ok s.(pool).(world) (s.(versions) k) (frame_of s.(pool) r) (Some j) (s.(guards) r).
Proof using. intros Hs Hj. pose proof (sok_jobs s Hs r j Hj) as Hk. eexists. split_and!; [exact Hk|done|]. pose proof (sok_page s Hs (f_key (frame_of (pool s) r))) as H. by rewrite Hk, Hj in H. Qed.

Lemma find_ok s k p r : sys_ok s -> lookup_resident k s.(pool) = (p, Found r) -> sys_ok (hold r (with_pool p s)).
Proof using.
  intros Hs. unfold lookup_resident. destruct (_ !! k) as [r'|] eqn:Hr; [|done]. destruct (evicting _) eqn:He; [done|]. intros [= <- <-].
  apply (sys_frame s pin _ _ k r' Hs Hr); [done|intros; by rewrite set_guard_other|]. intros Hf. rewrite set_guard_same. by apply frame_ok_pin.
Qed.

Lemma drop_ok s r : sys_ok s -> 0 < s.(guards) r -> sys_ok (with_guards (set_guard r (s.(guards) r - 1) s.(guards)) (with_pool (drop_guard r s.(pool)) s)).
Proof using.
  intros Hs Hg. destruct (guarded s r Hs Hg) as (k & Hk & _ & _). apply (sys_frame s unpin _ _ k r Hs Hk); [done|intros; by rewrite set_guard_other|].
  intros Hf. rewrite set_guard_same. by apply frame_ok_unpin.
Qed.

(** Inserting what was read: a clean frame whose page is on disk. *)
Lemma loaded_frame_ok w vs k d : on_disk w k vs -> reads_as w k d -> frame_ok w vs (pin (Frame_new k d false true)) None 1.
Proof using. intros Hd Hi. split_and!; [|by split_and!|done..]. intros d' Hc. destruct Hd as (_ & E & _). cbn. destruct Hi as [|(? & _)]; congruence. Qed.

Lemma insert_ok s k d p r : sys_ok s -> reads_as s.(pool).(world) k d \/ is_Some (s.(pool).(pstate).(frames) !! k) ->
  insert_loaded k d s.(pool) = (p, Ok (Some r)) -> sys_ok (hold r (with_pool p s)).
Proof using.
  intros Hs Hfresh. unfold insert_loaded, get_or_insert_clean. destruct (_ !! k) as [r'|] eqn:Hr.
  - destruct (evicting _) eqn:He; [done|]. intros [= <- <-]. pose proof (sok_page s Hs k) as Hk. rewrite Hr in Hk. sys_cbn.
    apply (sys_local s _ _ _ _ _ k r' Hs Hr); try done.
    + apply ok_update; [done|]. apply ok_state; [done|done|]. by apply ok_update, sok_pool.
    + intros r1 Hn. rewrite frame_of_update, decide_False by done. rewrite frame_of_state, frame_of_update, decide_False; done.
    + intros r1 Hn. by rewrite set_guard_other.
    + intros k' Hv. apply allocated_advance. by apply (sok_alloc s Hs).
    + apply (sok_order s Hs).
    + rewrite set_guard_same, frame_of_update, decide_True, frame_of_state, frame_of_update, decide_True by done. by apply frame_ok_pin, frame_ok_reference.
  - destruct (_ <=? _) eqn:Hroom; [done|]. apply N.leb_gt in Hroom. intros [= <- <-]. destruct Hfresh as [Hi|[? ?]]; [|congruence]. pose proof (sok_page s Hs k) as Hk. rewrite Hr in Hk.
    set (r := fresh_ref (pool s)). assert (Hfr : r ∉ dom (arena (pool s))) by apply is_fresh. sys_cbn. destruct (fresh_idle s r Hs Hfr) as [-> _].
    set (f := Frame_new k d false true). pose proof (ok_add (pool s) k f eq_refl Hr Hroom (sok_pool s Hs)) as Hadd.
    apply (sys_add s _ k r _ Hs Hr Hfr); try done.
    + apply ok_update; [done|]. apply ok_state; [done|done|exact Hadd].
    + intros r1 Hn. rewrite frame_of_update, decide_False by done. unfold frame_of. cbn. by rewrite lookup_total_insert_ne.
    + intros k' Hv. destruct (decide (k' = k)) as [->|Hn]; [|apply allocated_advance, (sok_alloc s Hs); cbn in Hv; by rewrite lookup_insert_ne in Hv].
      apply allocated_read; [apply (sok_abandoned s Hs)|]. destruct Hi as [Hi|(_ & _ & Hi)]; [by eapply image_law|done].
    + rewrite frame_of_update, decide_True by done. match goal with |- frame_ok _ _ (pin (frame_of ?q r)) _ _ => assert (E : frame_of q r = f) end.
      { unfold frame_of. cbn. by rewrite lookup_total_insert_eq. }
      rewrite E. by apply loaded_frame_ok.
Qed.

(** Publishing a change. *)
Lemma ok_world_update (p : Pool) r f w : f.(f_key) = (frame_of p r).(f_key) -> pool_ok p -> pool_ok (with_world w (update_frame r (fun _ => f) p)).
Proof using.
  intros Ef Hp. split; [apply Hp|apply Hp| |apply Hp]. intros k r' Hk. destruct (ok_frame_of p k r' Hp Hk) as [E1 E2]. cbn [with_world arena update_frame with_arena].
  destruct (decide (r = r')) as [->|Hne]; [rewrite lookup_insert_eq|rewrite lookup_insert_ne by done; eauto]. eexists. split; [done|congruence].
Qed.
Lemma in_order_app w w' vs pos d b : later w w' -> in_order w vs -> storable d -> pos.(replay_from) <= pos.(record_lsn) -> pos.(record_lsn) <= written_lsn w' ->
  in_order w' (vs ++ [mkVersion pos d b]).
Proof using. intros Hl Ho Hd H1 H2. apply Forall_app. split; [by eapply in_order_later|]. by apply Forall_singleton. Qed.
Lemma in_order_lookup w vs i v : in_order w vs -> vs !! i = Some v -> v.(v_pos).(replay_from) <= written_lsn w.
Proof using. intros Ho Hi. pose proof (Forall_lookup_1 _ _ _ _ Ho Hi). cbn in *. lia. Qed.
Lemma lookup_snoc {A} (l : list A) x j y : (l ++ [x]) !! j = Some y -> l !! j = Some y \/ (j = length l /\ y = x).
Proof using. intros [H|[H1 H2]]%lookup_app_Some; [auto|]. destruct (j - length l)%nat eqn:E; [|done]. injection H2 as <-. right. split; [lia|done]. Qed.

Lemma current_take (vs : list Version) n v : vs !! n = Some v -> last (take (S n) vs) = Some v.
Proof using. intros E. by rewrite (take_S_r _ _ _ E), last_snoc. Qed.
Lemma covered_at w (vs : list Version) n lo v o : vs !! n = Some v -> o = Some v.(v_image) -> v.(v_pos).(record_lsn) <= durable_lsn w ->
  (forall j v', (n < j)%nat -> vs !! j = Some v' -> lo <= v'.(v_pos).(replay_from)) ->
  exists m, (m <= length vs)%nat /\ o = current (take m vs) /\ (forall v', last (take m vs) = Some v' -> v'.(v_pos).(record_lsn) <= durable_lsn w) /\
    forall j v', (m <= j)%nat -> vs !! j = Some v' -> lo <= v'.(v_pos).(replay_from).
Proof using.
  intros Hn -> Hd Hj. exists (S n). pose proof (current_take _ _ _ Hn) as E. split_and!; [by apply lookup_lt_Some in Hn|unfold current; by rewrite E|rewrite E; by intros v' [= <-]|]. intros j v' Hm. apply Hj. lia.
Qed.

Lemma covered_snoc w w' k vs lo v : later w w' -> (forall o, may_hold w' k o -> may_hold w k o) -> lo <= v.(v_pos).(replay_from) -> covered w k vs lo -> covered w' k (vs ++ [v]) lo.
Proof using.
  intros Hl Hm Hlo Hc o Ho. destruct (covered_later _ _ _ _ _ Hl Hm Hc o Ho) as (n & Hn & E & Hdur & Hj). exists n. rewrite take_app_le by done. split_and!; [rewrite length_app; lia|done|done|].
  intros j v' Hij [Hv'|[_ ->]]%lookup_snoc; [by eapply Hj|done].
Qed.
Lemma on_disk_covered w k vs lo : on_disk w k vs -> covered w k vs lo.
Proof using.
  intros (_ & _ & H & Hd) o Ho. exists (length vs). rewrite firstn_all. split_and!; [done|auto|done|]. intros j v' Hj Hv'. apply lookup_lt_Some in Hv'. lia.
Qed.
Lemma whole_snoc vs lo v : whole_at vs lo -> whole_at (vs ++ [v]) lo.
Proof using. intros (i & v0 & Hi & ? & ?). exists i, v0. split_and!; [|done|done]. by apply lookup_app_l_Some. Qed.
Lemma whole_below w vs lo : in_order w vs -> whole_at vs lo -> lo <= written_lsn w.
Proof using. intros Ho (i & v & Hi & <- & _). by eapply in_order_lookup. Qed.

Lemma captured_snoc w w' vs f f' image ph v :
  later w w' -> same_page w w' f.(f_key) -> in_order w vs -> written_lsn w <= v.(v_pos).(replay_from) -> f'.(f_key) = f.(f_key) ->
  f'.(dirty_meta).(rec_lsn) = f.(dirty_meta).(rec_lsn) -> (forall lo, f.(dirty_meta).(rec_lsn) = Some lo -> lo <= written_lsn w) ->
  f'.(dirty_meta).(generation) = f.(dirty_meta).(generation) + 1 -> v.(v_whole) = f.(needs_fpi) || bool_decide (vs = []) ->
  f'.(dirty_meta).(checkpoint_flush) = (fun c => mkCheckpointFlush c.(captured_generation) c.(captured_page_lsn)
     (Some match c.(first_redirty_lsn) with None => v.(v_pos).(replay_from) | Some l => N.min l v.(v_pos).(replay_from) end)) <$> f.(dirty_meta).(checkpoint_flush) ->
  captured_ok w vs f image ph -> captured_ok w' (vs ++ [v]) f' image ph.
Proof using.
  intros Hl Hs Ho Hpos Ek Er Hlo Eg Ew Ec (c & n & v0 & Hc & Hn & Hi & Hgen & Hre & Hnf & Hwh & Hord & Hwr). pose proof (lookup_lt_Some _ _ _ Hn) as Hlt.
  eexists _, n, v0. rewrite Ek, Ec, Hc. cbn [fmap option_fmap option_map]. split_and!; [done|by apply lookup_app_l_Some|apply Hi|apply Hi| | | | | |by eapply writing_later].
  - rewrite Eg, Hgen. cbn. rewrite len_app. unfold len in *. cbn. lia.
  - cbn. rewrite Hre. destruct (vs !! S n) as [v1|] eqn:E1.
    + rewrite (lookup_app_l_Some _ _ _ _ E1). cbn. f_equal. pose proof (in_order_lookup _ _ _ _ Ho E1). lia.
    + apply lookup_ge_None in E1. rewrite lookup_app_r by lia. replace (S n - length vs)%nat with 0%nat by lia. done.
  - intros E1. apply lookup_ge_None in E1. rewrite length_app in E1. cbn in E1. lia.
  - intros v' [E1|[E1 ->]]%lookup_snoc; [by apply Hwh|]. rewrite Ew, Hnf; [done|]. apply lookup_ge_None. lia.
  - intros i v' Hni [E1|[E1 ->]]%lookup_snoc; rewrite Er.
    + destruct (Hord i v' Hni E1) as [Ho1 Ho2]. split; [|done]. intros v1 [E2|[E2 ->]]%lookup_snoc; [by apply Ho1|]. apply lookup_lt_Some in E1. lia.
    + split; [|intros lo Hlo'; specialize (Hlo lo Hlo'); lia]. intros v1 [E2|[E2 ->]]%lookup_snoc; [|done]. pose proof (in_order_lookup _ _ _ _ Ho E2). lia.
Qed.

Lemma publish_step_ok s r txn_id d pos w f :
  sys_ok s -> 0 < s.(guards) r -> storable d -> appended s.(pool).(world) pos w ->
  publish_mutation txn_id pos (set_data d (set_needs_fpi false (frame_of s.(pool) r))) = Ok f ->
  sys_ok (add_version f.(f_key) (mkVersion pos d (whole_record s (frame_of s.(pool) r))) (with_pool (with_world w (update_frame r (fun _ => f) s.(pool))) s)).
Proof using.
  intros Hs Hg Hst Happ E. destruct (append_law _ _ _ (sok_io s Hs) Happ) as (Hw1 & Hw2 & Hw3 & Hl & Hsame). destruct (guarded s r Hs Hg) as (k & Hk & Ek & (Hd & Hdc & Hj)).
  unfold publish_mutation in E. apply bind_Ok in E as (gen & Hgen & [= <-]). destruct (checked_add _ _ _) as [g|] eqn:Eg; [|done]. injection Hgen as <-. apply checked_add_Some in Eg as [-> _].
  cbn [f_key set_dirty set_data set_needs_fpi dirty_meta]. rewrite Ek. set (f0 := frame_of (pool s) r) in *. set (vs := versions s k) in *. set (w0 := world (pool s)) in *.
  set (v := mkVersion pos d (whole_record s f0)). match goal with |- context [update_frame r (fun _ => ?x)] => set (f := x) end. pose proof (sok_order s Hs k) as Ho. fold vs in Ho.
  unfold add_version. sys_cbn. apply (sys_local s _ _ _ _ _ k r Hs Hk); try done.
  - apply (ok_world_update (pool s) r f w); [done|by apply sok_pool].
  - intros r1 Hn. change (frame_of (with_world w ?p) r1) with (frame_of p r1). by rewrite frame_of_update, decide_False.
  - intros k' Hn. by rewrite decide_False.
  - intros k' Hv. destruct (decide (k' = k)) as [->|Hn].
    + eapply allocated_later; [exact Hl|]. apply (sok_alloc s Hs). right. by eexists.
    + eapply allocated_later; [exact Hl|]. by apply (sok_alloc s Hs).
  - rewrite decide_True by done. eapply in_order_app; [exact Hl|done|done|done|done].
  - cbn [world with_world]. rewrite decide_True by done. change (frame_of (with_world w ?p) r) with (frame_of p r). rewrite frame_of_update, decide_True by done. fold vs v.
    split_and!.
    + intros d'. unfold current. rewrite last_snoc. by intros [= <-].
    + cbn [f_dirty f set_dirty]. destruct (f_dirty f0).
      * destruct Hdc as (lo & v0 & Hlo & Hlast & Hlsn & Hcov & Hwh). exists lo, v. cbn. rewrite Hlo, last_snoc, Ek in *.
        pose proof (whole_below _ _ _ Ho Hwh) as Hb. split_and!; [done|done|done| |by apply whole_snoc]. eapply covered_snoc; [exact Hl|apply Hsame|exact (N.le_trans _ _ _ Hb Hw1)|done].
      * destruct Hdc as (Hod & Hlo & Hfpi). exists pos.(replay_from), v. cbn. rewrite Hlo, last_snoc, Ek in *. split_and!; [done|done|done| |].
        -- eapply covered_snoc; [exact Hl|apply Hsame|done|by apply on_disk_covered].
        -- exists (length vs), v. split_and!; [by rewrite lookup_app_r, Nat.sub_diag|done|]. cbn. unfold whole_record. rewrite Ek. fold vs. case_bool_decide as E; [apply orb_true_r|]. by rewrite Hfpi.
    + destruct (jobs s !! r) as [[ph| |image ph]|]; cbn in Hj |- *.
      * destruct Hj as (_ & _ & _ & _ & E & _). lia.
      * destruct Hj as (? & ? & -> & ?). done.
      * destruct Hj as (? & ? & ? & ? & Hcap). split_and!; try done. destruct (f_dirty f0); [|done]. destruct Hdc as (lo & v0 & Hlo & _ & _ & _ & Hwh).
        apply (captured_snoc w0 w vs f0 f image ph v); try done; [cbn; by rewrite Hlo| |cbn; unfold whole_record; by rewrite Ek].
        intros lo' E. rewrite Hlo in E. injection E as <-. by eapply whole_below.
      * destruct Hj as (? & ? & -> & ?). done.
Qed.

Lemma seed_ok s file_id p : sys_ok s -> extent s.(pool).(world) file_id <= U32_MAX -> ensure_extent_seeded file_id s.(pool) = (p, Ok ()) -> sys_ok (with_pool p s).
Proof using.
  intros Hs He. unfold ensure_extent_seeded. case_bool_decide as Hin; [intros [= <-]; by destruct s|]. destruct (store_page_count _ _) as [n|] eqn:Hn; [|done]. intros [= <-].
  apply count_law in Hn as ->; [|done]. pose proof Hs as [Hio H1 H2 H3 Hab H4 H5 H6]. sys_cbn. split; cbn [pool versions guards jobs]; try done; [by apply ok_state|]. intros k Hk Hu. destruct (H4 k Hk Hu) as [Ha Hb]. split; [|done].
  cbn [extent_seeded ensure_next_page_at_least set_next set_seeded]. unfold next_page_num in *. cbn. destruct (decide (k.1 = file_id)) as [E|Hne]; [rewrite E in *|].
  - rewrite bool_decide_eq_false_2 in Ha by done. rewrite bool_decide_eq_true_2 by set_solver. rewrite lookup_insert_eq. cbn [default]. destruct (next_page_num_by_file (pstate (pool s)) !! file_id); cbn; lia.
  - rewrite lookup_insert_ne by done. destruct (decide (k.1 ∈ extent_seeded (pstate (pool s)))).
    + rewrite bool_decide_eq_true_2 in Ha by done. by rewrite bool_decide_eq_true_2 by set_solver.
    + rewrite bool_decide_eq_false_2 in Ha by done. by rewrite bool_decide_eq_false_2 by set_solver.
Qed.

Lemma reusable_in st file n : reusable_page st file = Some n -> n ∈ default ∅ (st.(abandoned_pages_by_file) !! file).
Proof using. unfold reusable_page. destruct (_ !! file) as [pages|]; [|done]. cbn. intros [E _]%list_min_Some. by apply elem_of_elements. Qed.

Lemma abandoned_allocated st f n file : default ∅ ((mark_page_allocated f n st).(abandoned_pages_by_file) !! file) =
  if decide (file = f) then default ∅ (st.(abandoned_pages_by_file) !! f) ∖ {[n]} else default ∅ (st.(abandoned_pages_by_file) !! file).
Proof using.
  unfold mark_page_allocated, advance_next_page_num. cbn [abandoned_pages_by_file set_next]. destruct (decide (file = f)) as [->|Hne].
  - destruct (abandoned_pages_by_file st !! f) as [pages|] eqn:E; [|rewrite E; set_solver]. cbn. case_decide as Hem; [by rewrite lookup_delete_eq, Hem|by rewrite lookup_insert_eq].
  - destruct (abandoned_pages_by_file st !! f) as [pages|]; [|done]. cbn. case_decide; [by rewrite lookup_delete_ne|by rewrite lookup_insert_ne].
Qed.
Lemma mark_parts f n st : next_page_num (mark_page_allocated f n st) = next_page_num (advance_next_page_num f n st) /\
  (mark_page_allocated f n st).(extent_seeded) = st.(extent_seeded) /\ (mark_page_allocated f n st).(frames) = st.(frames) /\ (mark_page_allocated f n st).(clock_order) = st.(clock_order).
Proof using. unfold mark_page_allocated. by destruct (_ !! f). Qed.

(** A page the allocator hands out was never published. *)
Lemma new_fresh s file_id p n r : sys_ok s -> file_id ∈ s.(pool).(pstate).(extent_seeded) -> allocate_page file_id s.(pool) = (p, Ok (Some (n, r))) -> n < U32_MAX ->
  s.(versions) (file_id, n) = [] /\ s.(pool).(pstate).(frames) !! (file_id, n) = None /\ frames_len s.(pool).(pstate) < s.(pool).(frame_count).
Proof using.
  intros Hs Hseed. unfold allocate_page, insert_fresh_frame. destruct (_ <=? _) eqn:Hroom; [done|]. apply N.leb_gt in Hroom.
  set (m := default _ (reusable_page _ _)). set (k := (file_id, m)). destruct (frames (pstate (pool s)) !! k) eqn:Hk; [done|]. intros [= _ <- _] Hu. split_and!; [|done|done].
  destruct (decide (versions s k = [])) as [|Hv]; [done|]. destruct (sok_alloc s Hs k (or_introl Hv) Hu) as [Ha Hb]. cbn in Ha, Hb. rewrite bool_decide_eq_true_2 in Ha by done.
  unfold m in Ha, Hb. destruct (reusable_page (pstate (pool s)) file_id) as [n'|] eqn:E; [by apply reusable_in in E|]. cbn in Ha. lia.
Qed.

Lemma new_ok s file_id p n r : sys_ok s -> file_id ∈ s.(pool).(pstate).(extent_seeded) -> allocate_page file_id s.(pool) = (p, Ok (Some (n, r))) -> n < U32_MAX ->
  sys_ok (hold r (with_pool p s)).
Proof using.
  intros Hs Hseed E Hu. destruct (new_fresh s file_id p n r Hs Hseed E Hu) as (Hvs & Hk & Hroom). revert E. unfold allocate_page, insert_fresh_frame. rewrite (proj2 (N.leb_gt _ _) Hroom).
  set (m := default _ (reusable_page _ _)). destruct (frames (pstate (pool s)) !! (file_id, m)) eqn:Hk'; [done|]. intros [= <- <- <-]. set (k := (file_id, m)) in *. clear Hk'.
  pose proof (sok_page s Hs k) as Hd. rewrite Hk in Hd.
  set (r := fresh_ref (pool s)). assert (Hfr : r ∉ dom (arena (pool s))) by apply is_fresh. sys_cbn. destruct (fresh_idle s r Hs Hfr) as [-> _].
  set (f := Frame_new k page_default false false). pose proof (ok_add (pool s) k f eq_refl Hk Hroom (sok_pool s Hs)) as Hadd. set (q := (add_frame k f (pool s)).1) in Hadd.
  change (with_state (set_clock _ _ _ _) _) with q. destruct (mark_parts file_id m (pstate q)) as (En & Es & Ef & Ec).
  apply (sys_add s _ k r _ Hs Hk Hfr); try done.
  - apply ok_update; [done|]. by apply ok_state.
  - intros r1 Hn. rewrite frame_of_update, decide_False by done. unfold frame_of. cbn. by rewrite lookup_total_insert_ne.
  - intros f'. change (pstate (update_frame _ _ _)) with (mark_page_allocated file_id m (pstate q)). rewrite abandoned_allocated. case_decide as E; [rewrite E; cbn; set_solver|done].
  - intros k' Hv Hu'. set (st := pstate (update_frame _ _ _)) in Hv |- *. change st with (mark_page_allocated file_id m (pstate q)) in Hv |- *. clear st. rewrite Es, En, next_advance, abandoned_allocated. destruct (decide (k' = k)) as [->|Hn].
    + cbn. rewrite bool_decide_eq_true_2 by done. rewrite !decide_True by done. split; [unfold saturating_add; lia|set_solver].
    + assert (Hold : versions s k' <> [] \/ is_Some (frames (pstate (pool s)) !! k')) by (rewrite Ef in Hv; cbn in Hv; by rewrite lookup_insert_ne in Hv).
      destruct (sok_alloc s Hs k' Hold Hu') as [Ha Hb]. change (extent_seeded (pstate q)) with (extent_seeded (pstate (pool s))).
      change (abandoned_pages_by_file (pstate q)) with (abandoned_pages_by_file (pstate (pool s))). change (next_page_num (pstate q)) with (next_page_num (pstate (pool s))). split.
      * destruct (bool_decide (k'.1 ∈ extent_seeded (pstate (pool s)))); [|done]. destruct (decide (k'.1 = file_id)) as [E|E]; [rewrite E in Ha; lia|done].
      * destruct (decide (k'.1 = file_id)) as [E|E]; [rewrite E in Hb; set_solver|done].
  - rewrite frame_of_update, decide_True by done. match goal with |- frame_ok _ _ (pin (frame_of ?x r)) _ _ => assert (E : frame_of x r = f) by (unfold frame_of; cbn; by rewrite lookup_total_insert_eq) end.
    rewrite E, Hvs in *. split_and!; try done.
Qed.

(** Frames nobody uses have no job; what may leave is unused. *)
Lemma idle_job w vs f j held : frame_ok w vs f j held -> f.(evicting) = false -> f.(checkpoint_flushing) = false -> j = None.
Proof using. intros (_ & _ & Hj) He Hf. destruct j as [[| |]|]; [..|done]; destruct Hj as (? & ? & _); congruence. Qed.
Lemma unpinned_job w vs f j held : frame_ok w vs f j held -> f.(pin_count) = 0 -> f.(checkpoint_flushing) = false -> j = None /\ held = 0.
Proof using.
  intros (_ & _ & Hj) Hp Hf. destruct j as [[| |]|]; cbn in Hj.
  - destruct Hj as (_ & _ & _ & E & _). rewrite E in Hp. done.
  - destruct Hj as (_ & E & _). congruence.
  - destruct Hj as (_ & E & _). congruence.
  - destruct Hj as (_ & _ & _ & E). split; congruence.
Qed.

Lemma with_pool_same s : with_pool s.(pool) s = s.
Proof using. by destruct s. Qed.

(** A swept system, and the frame the sweep took in it. *)
Lemma swept_victim s q k r : sys_ok s -> swept s.(pool) q -> q.(pstate).(frames) !! k = Some r -> evictable s.(pool) r ->
  sys_ok (with_pool q s) /\ s.(jobs) !! r = None /\ s.(guards) r = 0 /\ (frame_of q r).(pin_count) = 0 /\ (frame_of q r).(f_dirty) = (frame_of s.(pool) r).(f_dirty) /\
  frame_ok q.(world) (s.(versions) k) (frame_of q r) None 0.
Proof using.
  intros Hs Hw Hk (Hp & Hf & _). pose proof (sys_swept s q Hw Hs) as Hs1. pose proof (sok_page _ Hs1 k) as Hfr. cbn in Hfr. rewrite Hk in Hfr.
  destruct Hw as (_ & _ & _ & _ & _ & Hw). assert (E : pin_count (frame_of q r) = 0 /\ checkpoint_flushing (frame_of q r) = false /\ f_dirty (frame_of q r) = f_dirty (frame_of (pool s) r)) by (by destruct (Hw r) as [-> | ->]).
  destruct E as (E1 & E2 & E3). destruct (unpinned_job _ _ _ _ _ Hfr E1 E2) as [Ej Eg]. rewrite Ej, Eg in Hfr. done.
Qed.

Lemma room_ok s p : sys_ok s -> reserve_victim s.(pool) = (p, Ok None) -> sys_ok (with_pool p s).
Proof using.
  intros Hs. unfold reserve_victim. destruct (_ <? _); [intros [= <-]; by rewrite with_pool_same|]. destruct (reclaim_victim (pool s)) as [p1 o] eqn:E.
  pose proof (reclaim_spec _ _ _ (sok_pool s Hs) E) as H. destruct o; [|done|done]. intros [= <-]. destruct H as (q & k & r & Hw & Hk & Hev & Hc & ->).
  destruct (swept_victim s q k r Hs Hw Hk Hev) as (Hs1 & Hj & Hg & Hp & Hd & Hf). rewrite Hc in Hd.
  apply (sys_remove (with_pool q s) _ k r _ Hs1 Hk); try done.
  - apply ok_remove, (sok_pool _ Hs1).
  - intros k' Hk'. apply (sok_alloc _ Hs1 k'). destruct Hk' as [|[r' Hk']]; [by left|right]. cbn in Hk'. apply lookup_delete_Some in Hk' as [_ Hk']. by eexists.
  - cbn [pool with_pool versions]. destruct Hf as (_ & Hf & _). rewrite Hd in Hf. destruct Hf as (Hf & _). by destruct (ok_frame_of _ _ _ (sok_pool _ Hs1) Hk) as [<- _].
Qed.

Lemma full_ok s p e : sys_ok s -> reserve_victim s.(pool) = (p, Err e) -> sys_ok (with_pool p s) /\ swept s.(pool) p.
Proof using.
  intros Hs. unfold reserve_victim. destruct (_ <? _); [done|]. destruct (reclaim_victim (pool s)) as [p1 o] eqn:E.
  pose proof (reclaim_spec _ _ _ (sok_pool s Hs) E) as H. destruct o; [done|done|]. intros [= <- _]. destruct H as [Hw _]. split; [by apply sys_swept|done].
Qed.

Lemma reserve_world s p res : sys_ok s -> reserve_victim s.(pool) = (p, res) -> p.(world) = s.(pool).(world).
Proof using.
  intros Hs. unfold reserve_victim. destruct (_ <? _); [by intros [= <- _]|]. destruct (reclaim_victim (pool s)) as [p1 o] eqn:E. pose proof (reclaim_spec _ _ _ (sok_pool s Hs) E) as H. destruct o; intros [= <- _].
  - by destruct H as (q & k & r & (_ & _ & Ew & _) & _ & _ & _ & ->).
  - by destruct H as (q & k & (_ & _ & Ew & _) & _ & _ & _ & ->).
  - by destruct H as ((_ & _ & Ew & _) & _).
Qed.
Lemma steal_ok s p r : sys_ok s -> reserve_victim s.(pool) = (p, Ok (Some r)) -> sys_ok (with_jobs (<[r := Steal Begun]> s.(jobs)) (with_pool p s)).
Proof using.
  intros Hs. unfold reserve_victim. destruct (_ <? _); [done|]. destruct (reclaim_victim (pool s)) as [p1 o] eqn:E.
  pose proof (reclaim_spec _ _ _ (sok_pool s Hs) E) as H. destruct o; [done| |done]. intros [= <- <-]. destruct H as (q & k & Hw & Hk & Hev & Hc & ->).
  destruct (swept_victim s q k _ Hs Hw Hk Hev) as (Hs1 & Hj & Hg & Hp & Hd & Hf). rewrite Hc in Hd.
  apply (sys_frame (with_pool q s) _ _ _ k _ Hs1 Hk); [done|intros r' Hn; cbn; by rewrite jobs_insert|]. intros _. cbn [jobs guards with_pool with_jobs pool versions]. rewrite lookup_insert_eq, Hg.
  destruct Hf as (H1 & H2 & H3). rewrite Hd in H2. split_and!; [done|cbn; by rewrite Hd|]. destruct H3 as (H31 & H32 & H33 & _). destruct H2 as (lo & v & _ & Hl & _).
  cbn. rewrite Hp. split_and!; try done. exists v. split; [done|]. by split_and!.
Qed.

Lemma reserve_ok s k r : sys_ok s -> s.(pool).(pstate).(frames) !! k = Some r -> (frame_of s.(pool) r).(evicting) = false -> (frame_of s.(pool) r).(checkpoint_flushing) = false ->
  sys_ok (with_jobs (<[r := Reserved]> s.(jobs)) (with_pool (update_frame r (set_flushing true) s.(pool)) s)).
Proof using.
  intros Hs Hk He Hf. apply (sys_frame s _ _ _ k r Hs Hk); [done|intros r' Hn; cbn; by rewrite jobs_insert|]. intros Hok. pose proof (idle_job _ _ _ _ _ Hok He Hf) as Ej. rewrite Ej in Hok.
  cbn. rewrite lookup_insert_eq. destruct Hok as (H1 & H2 & (_ & _ & H33 & H34)). by split_and!.
Qed.

Lemma capture_ok s r latched p o : sys_ok s -> s.(jobs) !! r = Some Reserved -> capture_frame latched r s.(pool) = (p, Ok o) ->
  sys_ok (with_jobs (match o with Some c => <[r := Captured c.(cc_image) Begun]> s.(jobs) | None => delete r s.(jobs) end) (with_pool p s)).
Proof using.
  intros Hs Hj. destruct (working s r _ Hs Hj) as (k & Hk & Ek & _). unfold capture_frame. destruct (latched r || negb _) eqn:El.
  - intros [= <- <-]. apply (sys_frame s _ _ _ k r Hs Hk); [done|intros r' Hn; cbn; by rewrite jobs_delete|]. rewrite Hj. cbn. rewrite lookup_delete_eq. intros (H1 & H2 & (H31 & _ & H33 & H34)). by split_and!.
  - destruct (latest_page_lsn _) as [lsn|] eqn:Elsn; [|done]. intros [= <- <-]. apply orb_false_iff in El as [_ Ed]. apply negb_false_iff in Ed.
    apply (sys_frame s _ _ _ k r Hs Hk); [done|intros r' Hn; cbn; by rewrite jobs_insert|]. rewrite Hj. cbn [jobs with_jobs with_pool]. rewrite lookup_insert_eq. intros (H1 & H2 & (H31 & H32 & H33 & H34)).
    set (f := frame_of (pool s) r) in *. rewrite Ed in H2. split_and!; [done|cbn; by rewrite Ed|]. destruct H2 as (lo & v & Hlo & Hl & Hlsn & _). rewrite last_lookup in Hl. pose proof (lookup_lt_Some _ _ _ Hl) as Hlt.
    assert (Hno : versions s k !! S (Nat.pred (length (versions s k))) = None) by (apply lookup_ge_None; lia).
    cbn. split_and!; try done. eexists _, (Nat.pred (length (versions s k))), v. split_and!; [done|done| | | | | | | |by split_and!].
    + cbn. symmetry. apply H1. unfold current. by rewrite last_lookup, Hl.
    + cbn. rewrite Hlsn in Elsn. by injection Elsn.
    + cbn. unfold len. lia.
    + by rewrite Hno.
    + done.
    + intros v' E. by rewrite Hno in E.
    + intros i v' Hi E. apply lookup_lt_Some in E. lia.
Qed.

(** Jobs that move on without a change of the pool. *)
Lemma sys_jobs s jobs' : sys_ok s -> (forall r, is_Some (jobs' !! r) -> is_Some (s.(jobs) !! r)) ->
  (forall k r, s.(pool).(pstate).(frames) !! k = Some r -> frame_ok s.(pool).(world) (s.(versions) k) (frame_of s.(pool) r) (s.(jobs) !! r) (s.(guards) r) ->
     frame_ok s.(pool).(world) (s.(versions) k) (frame_of s.(pool) r) (jobs' !! r) (s.(guards) r)) ->
  sys_ok (with_jobs jobs' s).
Proof using.
  intros [Hio H1 H2 H3 Hab H4 H5 H6] Hd Hf. split; try done.
  - intros k. specialize (H2 k). cbn. destruct (_ !! k) as [r|] eqn:Hr; [|done]. by apply Hf.
  - intros r j Hj. cbn in *. destruct (Hd r) as [j' Hj']; [by eexists|]. by apply (H6 r j').
Qed.

(** A job in another phase. *)
Lemma job_phase_ok w vs f j held ph :
  (forall v, v ∈ vs -> writing_ok w f.(f_key) v (job_phase j) -> writing_ok w f.(f_key) v ph) ->
  frame_ok w vs f (Some j) held -> frame_ok w vs f (Some (with_phase ph j)) held.
Proof using.
  intros Hv (H1 & H2 & H3). split_and!; [done|done|]. destruct j as [ph0| |image ph0]; cbn in *.
  - destruct H3 as (? & ? & ? & ? & ? & ? & v & Hl & Hw). split_and!; try done. exists v. split; [done|]. apply Hv; [|done]. rewrite last_lookup in Hl. by eapply list_elem_of_lookup_2.
  - done.
  - destruct H3 as (? & ? & ? & ? & c & n & v & E1 & E2 & E3 & E4 & E5 & E6 & E7 & E8 & Hw). split_and!; try done. exists c, n, v. split_and!; try done; try apply E3. apply Hv; [|done]. by eapply list_elem_of_lookup_2.
Qed.

Lemma durable_ok s w res : sys_ok s -> ensure_durable s.(pool).(world) = (w, res) ->
  sys_ok (with_jobs (if is_ok res then durable_job <$> s.(jobs) else s.(jobs)) (with_pool (with_world w s.(pool)) s)).
Proof using.
  intros Hs E. destruct (durable_law _ _ _ (sok_io s Hs) E) as (Hl & Hsame & Hdur). pose proof (sys_world s w Hl Hsame Hs) as Hs1. destruct res as [[]|e]; [|by destruct s]. cbn [is_ok].
  apply (sys_jobs _ _ Hs1).
  - intros r. cbn. rewrite lookup_fmap. by rewrite fmap_is_Some.
  - intros k r Hk. cbn [jobs with_pool pool versions guards with_world world]. rewrite lookup_fmap. destruct (jobs s !! r) as [j|] eqn:Hj; [|done]. cbn. unfold durable_job. destruct (job_phase j) eqn:Ep; try done.
    apply job_phase_ok. intros v Hv (_ & _ & _). pose proof (sok_order s Hs k) as Ho. eapply Forall_forall in Ho; [|exact Hv]. split_and!; [|done|done]. intros _. specialize (Hdur eq_refl). cbn in Ho. lia.
Qed.

Lemma sync_ok s files w res : sys_ok s -> store_sync_files files s.(pool).(world) = (w, res) ->
  sys_ok (with_jobs (if is_ok res then map_imap (fun r j => Some (synced_job s files r j)) s.(jobs) else s.(jobs)) (with_pool (with_world w s.(pool)) s)).
Proof using.
  intros Hs E. destruct (sync_law _ _ _ _ (sok_io s Hs) E) as (Hl & Hsame & Hsync). pose proof (sys_world s w Hl Hsame Hs) as Hs1. destruct res as [[]|e]; [|by destruct s]. cbn [is_ok].
  apply (sys_jobs _ _ Hs1).
  - intros r. cbn. rewrite map_lookup_imap. by destruct (jobs s !! r); [eexists|intros []].
  - intros k r Hk. cbn [jobs with_pool pool versions guards with_world world]. rewrite map_lookup_imap. destruct (jobs s !! r) as [j|] eqn:Hj; [|done]. cbn [mbind option_bind]. unfold synced_job.
    destruct (job_phase j) eqn:Ep; try done. case_bool_decide as Hin; [|done]. change (frame_of (with_world w (pool s)) r) with (frame_of (pool s) r).
    apply job_phase_ok. intros v Hv (Hw1 & Hw2 & _). rewrite Ep in *. destruct (Hsync eq_refl _ Hin) as [Hu Hm]; [exact (proj2 (Hw2 I))|]. split_and!; [by auto|by auto|]. intros _. split; [done|].
    intros o Ho. rewrite <- (Hm o Ho). by apply Hw2.
Qed.

(** The version a job writes. *)
Lemma written_version s k r j : frame_ok s.(pool).(world) (s.(versions) k) (frame_of s.(pool) r) (Some j) (s.(guards) r) -> j <> Reserved ->
  (frame_of s.(pool) r).(f_dirty) = true /\ exists n v, s.(versions) k !! n = Some v /\ v.(v_image) = image_of s r j /\ writing_ok s.(pool).(world) (frame_of s.(pool) r).(f_key) v (job_phase j) /\
    forall i v' lo, (n < i)%nat -> s.(versions) k !! i = Some v' -> (frame_of s.(pool) r).(dirty_meta).(rec_lsn) = Some lo -> lo <= v'.(v_pos).(replay_from).
Proof using.
  intros (H1 & H2 & H3) Hr. destruct j as [ph| |image ph]; cbn in H3; [|done|].
  - destruct H3 as (_ & _ & _ & _ & _ & Hd & v & Hl & Hw). split; [done|]. pose proof Hl as Hl'. rewrite last_lookup in Hl. exists (Nat.pred (length (versions s k))), v. split_and!; [done| |done|].
    + symmetry. cbn. apply H1. unfold current. by rewrite Hl'.
    + intros i v' lo Hi E. apply lookup_lt_Some in E. lia.
  - destruct H3 as (_ & _ & Hd & _ & c & n & v & E1 & E2 & E3 & E4 & E5 & E6 & E7 & E8 & Hw). split; [done|]. destruct E3 as [E3 _]. exists n, v. split_and!; try done. intros i v' lo Hi E Hlo. by destruct (E8 i v' Hi E) as [_ H]; apply H.
Qed.

Lemma job_storable s r j : sys_ok s -> s.(jobs) !! r = Some j -> job_phase j = Durable -> storable (image_of s r j).
Proof using.
  intros Hs Hj Hph. destruct (working s r j Hs Hj) as (k & _ & _ & Hok). destruct (written_version s k r j Hok) as (_ & n & v & Hn & <- & _); [by intros ->|]. by apply (Forall_lookup_1 _ _ _ _ (sok_order s Hs k) Hn).
Qed.

(** The job is about the world only through the version it writes. *)
Lemma job_world w w' vs f j held ph :
  (forall v, writing_ok w f.(f_key) v (job_phase j) -> v.(v_image) = match j with Captured image _ => image | _ => f.(f_data) end -> writing_ok w' f.(f_key) v ph) ->
  (forall d, current vs = Some d -> f.(f_data) = d) -> j <> Reserved -> job_ok w vs f (Some j) held -> job_ok w' vs f (Some (with_phase ph j)) held.
Proof using.
  intros Hv Hc Hr. destruct j as [ph0| |image ph0]; cbn; [|done|].
  - intros (? & ? & ? & ? & ? & ? & v & Hl & Hw). split_and!; try done. exists v. split; [done|]. apply Hv; [done|]. symmetry. apply Hc. unfold current. by rewrite Hl.
  - intros (? & ? & ? & ? & c & n & v & E1 & E2 & E3 & E4 & E5 & E6 & E7 & E8 & Hw). split_and!; try done. exists c, n, v. split_and!; try done; try apply E3. apply Hv; [done|apply E3].
Qed.

Lemma write_ok s r j w res : sys_ok s -> s.(jobs) !! r = Some j -> job_phase j = Durable ->
  store_write_page (frame_of s.(pool) r).(f_key) (image_of s r j) s.(pool).(world) = (w, res) ->
  sys_ok (with_jobs (if is_ok res then <[r := with_phase Written j]> s.(jobs) else s.(jobs)) (with_pool (with_world w s.(pool)) s)).
Proof using.
  intros Hs Hj Hph E. destruct (working s r j Hs Hj) as (k & Hk & Ek & Hok). destruct (write_law _ _ _ _ _ (sok_io s Hs) (job_storable s r j Hs Hj Hph) E) as (Hl & Hsame & Hhold & Himg). rewrite Ek in *.
  assert (Hnr : j <> Reserved) by (by intros ->). destruct (written_version s k r j Hok Hnr) as (Hd & n & v & Hn & Hvi & (Hvd & _) & Hlater). rewrite Hph in *. destruct Hok as (H1 & H2 & H3). rewrite Hd in H2.
  set (ph := if is_ok res then Written else Durable). set (jobs' := if is_ok res then _ else _).
  assert (Hj' : jobs' !! r = Some (with_phase ph j)).
  { unfold jobs', ph. destruct (is_ok res); [by rewrite lookup_insert_eq|]. rewrite Hj. f_equal. by destruct j as [ph0| |? ph0]; cbn in Hph |- *; subst. }
  sys_cbn. apply (sys_local s _ _ _ _ _ k r Hs Hk); try done.
  - by destruct (sok_pool s Hs).
  - intros r' Hn'. split; [|done]. unfold jobs'. destruct (is_ok res); [by rewrite jobs_insert|done].
  - intros k' Hk'. eapply allocated_later; [exact Hl|]. by apply (sok_alloc s Hs).
  - eapply in_order_later; [exact Hl|]. apply (sok_order s Hs).
  - rewrite Hj'. change (frame_of (with_world w (pool s)) r) with (frame_of (pool s) r). cbn [world with_world]. split_and!; [done| |].
    + rewrite Hd. destruct H2 as (lo & v0 & Hlo & Hlast & Hlsn & Hcov & Hwh). exists lo, v0. split_and!; try done. rewrite Ek in *. intros o Hm. destruct Hl as (_ & Hl & _). destruct (Hhold o Hm) as [->|Hm'].
      * specialize (Hvd I). apply (covered_at w _ n lo v); [done|by rewrite Hvi|lia|]. intros i v' Hi E'. by apply (Hlater i v' lo).
      * destruct (Hcov o Hm') as (m & ? & ? & Hv & ?). exists m. split_and!; try done. intros v' Hv'. specialize (Hv v' Hv'). lia.
    + eapply job_world; [|exact H1|done|exact H3]. intros v1 (Hw1 & _) Hi. rewrite Hph in Hw1. rewrite Ek. destruct Hl as (_ & Hl & _). specialize (Hw1 I).
      split_and!; [intros _; lia| |by unfold ph; destruct (is_ok res)]. unfold ph. destruct res as [[]|]; [|done]. intros _. destruct (Himg eq_refl) as [-> Ht]. split; [by rewrite Hi; destruct j|done].
Qed.

Lemma synced_on_disk w k vs v : last vs = Some v -> writing_ok w k v Synced -> on_disk w k vs.
Proof using.
  intros Hl (H1 & H2 & H3). destruct (H2 I) as [Hf _]. destruct (H3 I) as [Hu Hm]. assert (E : current vs = Some (v_image v)) by (unfold current; by rewrite Hl).
  rewrite <- E in Hf, Hm. split_and!; [done|done|done|]. intros v' Hv'. rewrite Hl in Hv'. injection Hv' as <-. by apply H1.
Qed.

Lemma evict_ok s r p : sys_ok s -> s.(jobs) !! r = Some (Steal Synced) -> finish_eviction r s.(pool) = (p, true) -> sys_ok (with_jobs (delete r s.(jobs)) (with_pool p s)).
Proof using.
  intros Hs Hj. destruct (working s r _ Hs Hj) as (k & Hk & Ek & (H1 & H2 & H3)). destruct H3 as (_ & _ & _ & Hp & Hg & Hd & v & Hl & Hw1 & Hw2 & Hw3). unfold finish_eviction.
  rewrite frame_of_update, decide_True by done. cbn [pin_count unpin set_pins]. rewrite Hp. cbn [N.sub N.eqb]. intros [= <-]. rewrite !frame_of_update, !decide_True by done. cbn [f_key mark_clean set_needs_fpi set_dirty unpin set_pins]. rewrite Ek in *.
  sys_cbn. apply (sys_remove s _ k r _ Hs Hk); try done.
  - apply (ok_remove (update_frame r mark_clean (update_frame r unpin (pool s)))). apply ok_update; [done|]. apply ok_update; [done|]. by apply sok_pool.
  - intros r' Hn. rewrite frame_of_state, !frame_of_update, !decide_False; done.
  - intros k' Hk'. apply (sok_alloc s Hs k'). destruct Hk' as [|[r' Hk']]; [by left|right]. cbn in Hk'. apply lookup_delete_Some in Hk' as [_ Hk']. by eexists.
  - by rewrite lookup_delete_eq.
  - intros r' Hn. by rewrite jobs_delete.
  - by apply (synced_on_disk _ _ _ v).
Qed.

Lemma settle_ok s r image f clean : sys_ok s -> s.(jobs) !! r = Some (Captured image Synced) -> settle_frame (frame_of s.(pool) r) = Ok (f, clean) ->
  sys_ok (with_jobs (delete r s.(jobs)) (with_pool (update_frame r (fun _ => f) s.(pool)) s)).
Proof using.
  intros Hs Hj. destruct (working s r _ Hs Hj) as (k & Hk & Ek & (H1 & H2 & H3)). set (f0 := frame_of (pool s) r) in *. set (vs := versions s k) in *. unfold settle_frame.
  destruct H3 as (He & Hcf & Hd & Hpin & c & n & v & Hc & Hn & Hi & Hgen & Hre & Hnf & Hwh & Hord & Hw1 & Hw2 & Hw3). rewrite Hc. cbn [ok_or mbind result_bind]. destruct (Hw3 I) as [Hu Hm]. rewrite Ek, Hd in *.
  pose proof (lookup_lt_Some _ _ _ Hn) as Hlt. destruct H2 as (lo & v0 & Hlo & Hlast & Hlsn & Hcov & Hwa).
  intros E. assert (Hgoal : f_key f = f_key f0 /\ frame_ok (world (pool s)) vs f None (guards s r)).
  { destruct (_ && _ && _) eqn:Eb.
    - apply Ok_inj in E. injection E as <- <-. split; [done|]. apply andb_true_iff in Eb as [Eb Er]. apply andb_true_iff in Eb as [Eg _]. apply N.eqb_eq in Eg. cbn in Eg. rewrite Hgen in Eg. unfold len in Eg.
      assert (Hlen : length vs = S n) by lia. assert (Hlv : last vs = Some v) by (rewrite last_lookup, Hlen; done). split_and!; [done| |done].
      cbn [f_dirty set_flushing set_dirty]. unfold clean_ok. cbn. rewrite Ek. split_and!; [|done|].
      + by apply (synced_on_disk _ _ _ v).
      + intros _. apply Hnf. apply lookup_ge_None. lia.
    - destruct (first_redirty_lsn c) as [l|] eqn:El; [|done]. cbn in E. apply Ok_inj in E. injection E as <- <-. split; [done|]. split_and!; [done| |done].
      destruct (vs !! S n) as [v1|] eqn:E1; [|done]. cbn in Hre. injection Hre as Hre. cbn [f_dirty set_flushing set_meta set_dirty]. rewrite Hd. exists l, v0. cbn. rewrite Ek. split_and!; try done.
      + intros o Ho. apply (covered_at _ _ n l v); [done|by apply Hm|by apply Hw1|]. intros j v' Hj' E'. destruct (Hord j v' Hj' E') as [H _]. rewrite Hre. by apply H.
      + exists (S n), v1. split_and!; [done|done|by apply Hwh]. }
  destruct Hgoal as [Hkey Hfok]. sys_cbn. apply (sys_local s _ _ _ _ _ k r Hs Hk); try done.
  - apply (ok_world_update (pool s) r f (world (pool s)) Hkey (sok_pool s Hs)).
  - intros r' Hn'. by rewrite frame_of_update, decide_False.
  - intros r' Hn'. by rewrite jobs_delete.
  - apply (sok_alloc s Hs).
  - apply (sok_order s Hs).
  - rewrite lookup_delete_eq, frame_of_update, decide_True by done. exact Hfok.
Qed.

Lemma abort_steal_ok s r ph : sys_ok s -> s.(jobs) !! r = Some (Steal ph) -> sys_ok (with_jobs (delete r s.(jobs)) (with_pool (abort_eviction r s.(pool)) s)).
Proof using.
  intros Hs Hj. destruct (working s r _ Hs Hj) as (k & Hk & _). apply (sys_frame s _ _ _ k r Hs Hk); [done|intros r' Hn; cbn; by rewrite jobs_delete|]. rewrite Hj. cbn. rewrite lookup_delete_eq.
  intros (H1 & H2 & (_ & H32 & H33 & H34 & H35 & _)). split_and!; try done. cbn. by rewrite H34, H35.
Qed.
Lemma abort_flush_ok s r image ph : sys_ok s -> s.(jobs) !! r = Some (Captured image ph) ->
  sys_ok (with_jobs (delete r s.(jobs)) (with_pool (clear_checkpoint_reservations [mkCaptured r image] s.(pool)) s)).
Proof using.
  intros Hs Hj. destruct (working s r _ Hs Hj) as (k & Hk & _). unfold clear_checkpoint_reservations, update_all. cbn [fmap list_fmap cc_frame foldl].
  apply (sys_frame s _ _ _ k r Hs Hk); [done|intros r' Hn; cbn; by rewrite jobs_delete|]. rewrite Hj. cbn. rewrite lookup_delete_eq.
  intros (H1 & H2 & (H31 & H32 & H33 & H34 & _)). by split_and!.
Qed.

Lemma step_ok s s' : step s s' -> sys_ok s -> sys_ok s'.
Proof using.
  intros Hst Hs. destruct Hst.
  - by destruct Hs.
  - by eapply insert_ok.
  - by eapply find_ok.
  - by apply drop_ok.
  - by eapply publish_step_ok.
  - by apply sys_world.
  - by eapply seed_ok.
  - by eapply new_ok.
  - by apply room_ok.
  - by eapply full_ok.
  - by apply steal_ok.
  - by eapply reserve_ok.
  - by eapply capture_ok.
  - by apply durable_ok.
  - by apply write_ok.
  - by apply sync_ok.
  - by apply evict_ok.
  - by eapply settle_ok.
  - by eapply abort_steal_ok.
  - by eapply abort_flush_ok.
Qed.

(** ** Runs *)

(** The pool at the start of the server: no frame, every page on disk. *)
Definition booted (s : System) : Prop :=
  io_ok s.(pool).(world) /\   (exists n w b, s.(pool) = mkPool n b ∅ (mkPoolState ∅ [] 0 ∅ ∅ ∅) w) /\ (forall r, s.(guards) r = 0) /\ s.(jobs) = ∅ /\ s.(loads) = [] /\
  forall k, on_disk s.(pool).(world) k (s.(versions) k) /\ in_order s.(pool).(world) (s.(versions) k).
Definition reachable (s : System) : Prop := exists s0, booted s0 /\ rtc step s0 s.

Lemma booted_ok s : booted s -> sys_ok s.
Proof using.
  intros (Hio & (n & w & b & Ep) & Hg & Hj & _ & Hv). split; rewrite ?Ep in *; cbn in *.
  - done.
  - split; cbn; [apply NoDup_nil_2| |done|unfold frames_len; cbn [frames]; rewrite map_size_empty; lia]. intros k. rewrite lookup_empty. split; [by intros ?%elem_of_nil|by intros []].
  - intros k. rewrite lookup_empty. apply Hv.
  - intros k. apply Hv.
  - intros f. by rewrite lookup_empty.
  - intros k [Hk|[r Hr]] Hu; [|by rewrite lookup_empty in Hr]. rewrite bool_decide_eq_false_2 by set_solver. split; [|set_solver].
    destruct (Hv k) as [(_ & E & _) _]. unfold current in E. destruct (last (versions s k)) as [v|] eqn:El; [|by apply last_None in El]. by eapply image_law.
  - intros r Hr. rewrite Hg in Hr. lia.
  - intros r j Hr. by rewrite Hj in Hr.
Qed.
Lemma steps_ok s s' : rtc step s s' -> sys_ok s -> sys_ok s'.
Proof using. induction 1; [done|]. eauto using step_ok. Qed.
Lemma reachable_ok s : reachable s -> sys_ok s.
Proof using. intros (s0 & Hb & Hr). eapply steps_ok; [done|by apply booted_ok]. Qed.


Lemma page_covered s k : sys_ok s -> exists lo, covered s.(pool).(world) k (s.(versions) k) lo.
Proof using.
  intros Hs. pose proof (sok_page s Hs k) as Hk. destruct (_ !! k) as [r|] eqn:Hr; [|exists 0; by apply on_disk_covered]. destruct (ok_frame_of _ _ _ (sok_pool s Hs) Hr) as [Ek _]. destruct Hk as (_ & Hk & _). destruct (f_dirty _).
  - destruct Hk as (lo & v0 & _ & _ & _ & Hcov & _). rewrite Ek in Hcov. by exists lo.
  - destruct Hk as (Hk & _). rewrite Ek in Hk. exists 0. by apply on_disk_covered.
Qed.


(** *** The redo boundary only moves forward *)

Definition floor (l : N) (s : System) : Prop :=
  l <= written_lsn s.(pool).(world) /\
  forall k r lo, s.(pool).(pstate).(frames) !! k = Some r -> (frame_of s.(pool) r).(dirty_meta).(rec_lsn) = Some lo -> l <= lo.

(** Frames whose boundary is the old one, gone, or past [l]. *)
Lemma floor_mono l s s' :
  written_lsn s.(pool).(world) <= written_lsn s'.(pool).(world) ->
  (forall k r, s'.(pool).(pstate).(frames) !! k = Some r ->
     (frame_of s'.(pool) r).(dirty_meta).(rec_lsn) = None \/
     (s.(pool).(pstate).(frames) !! k = Some r /\ (frame_of s'.(pool) r).(dirty_meta).(rec_lsn) = (frame_of s.(pool) r).(dirty_meta).(rec_lsn)) \/
     (forall lo, (frame_of s'.(pool) r).(dirty_meta).(rec_lsn) = Some lo -> l <= lo)) ->
  floor l s -> floor l s'.
Proof using.
  intros Hw Hf [H1 H2]. split; [lia|]. intros k r lo Hk E. destruct (Hf k r Hk) as [E'|[[Hk' E']|H]]; [congruence| |auto]. rewrite E' in E. eauto.
Qed.

(** One frame is changed, its boundary kept. *)
Lemma floor_update l s r g vers guards' jobs' loads' : (forall f, (g f).(dirty_meta).(rec_lsn) = f.(dirty_meta).(rec_lsn)) ->
  floor l s -> floor l (mkSystem (update_frame r g s.(pool)) vers guards' jobs' loads').
Proof using.
  intros Hg. apply floor_mono; [done|]. intros k r' Hk. right. left. split; [done|]. cbn [pool]. rewrite frame_of_update. case_decide as E; [subst; apply Hg|done].
Qed.
Lemma floor_world l s w jobs' : later s.(pool).(world) w -> floor l s -> floor l (with_jobs jobs' (with_pool (with_world w s.(pool)) s)).
Proof using. intros (H & _). apply floor_mono; [done|]. intros k r Hk. right. by left. Qed.
Lemma swept_rec (q p : Pool) r : swept p q -> (frame_of q r).(dirty_meta).(rec_lsn) = (frame_of p r).(dirty_meta).(rec_lsn).
Proof using. intros (_ & _ & _ & _ & _ & H). by destruct (H r) as [-> | ->]. Qed.

Lemma add_frame_floor l s k f p : f.(dirty_meta).(rec_lsn) = None -> pool_ok s.(pool) ->
  p.(pstate).(frames) = <[k := fresh_ref s.(pool)]> s.(pool).(pstate).(frames) -> p.(world) = s.(pool).(world) ->
  (frame_of p (fresh_ref s.(pool))).(dirty_meta) = f.(dirty_meta) -> (forall r, r <> fresh_ref s.(pool) -> frame_of p r = frame_of s.(pool) r) ->
  forall g, floor l s -> floor l (with_guards g (with_pool p s)).
Proof using.
  intros Hf Hp Ef Ew Er Ho g. apply floor_mono; cbn [pool with_guards with_pool]; [by rewrite Ew|]. intros k' r Hk. rewrite Ef in Hk. destruct (decide (k' = k)) as [->|Hn].
  - rewrite lookup_insert_eq in Hk. injection Hk as <-. left. by rewrite Er.
  - rewrite lookup_insert_ne in Hk by done. right. left. split; [done|]. rewrite Ho; [done|]. intros ->. destruct (ok_frame_of _ _ _ Hp Hk) as [_ Ha]. apply elem_of_dom_2 in Ha. by apply (is_fresh (dom (arena (pool s)))).
Qed.

Lemma publish_rec txn pos f f' : publish_mutation txn pos f = Ok f' ->
  f'.(dirty_meta).(rec_lsn) = match f.(dirty_meta).(rec_lsn) with None => Some pos.(replay_from) | r => r end.
Proof using. unfold publish_mutation. destruct (checked_add _ _ _); [|done]. cbn. by intros [= <-]. Qed.

Lemma insert_floor l s k d p r g : sys_ok s -> insert_loaded k d s.(pool) = (p, Ok (Some r)) -> floor l s -> floor l (with_guards g (with_pool p s)).
Proof using.
  intros Hs. unfold insert_loaded, get_or_insert_clean. destruct (_ !! k) as [r'|].
  - destruct (evicting _); [done|]. intros [= <- <-]. apply floor_mono; [done|]. intros k' r1 Hk. right. left. split; [done|]. cbn [pool with_guards with_pool]. rewrite frame_of_update.
    destruct (decide (r' = r1)) as [<-|]; rewrite frame_of_state, frame_of_update; [by rewrite decide_True|by rewrite decide_False].
  - destruct (_ <=? _); [done|]. intros [= <- <-]. apply (add_frame_floor l s k (Frame_new k d false true)); try done; [by apply sok_pool| |].
    + rewrite frame_of_update, decide_True by done. unfold frame_of. cbn. by rewrite lookup_total_insert_eq.
    + intros r1 Hn. rewrite frame_of_update, decide_False by done. unfold frame_of. cbn. by rewrite lookup_total_insert_ne.
Qed.
Lemma new_floor l s file_id p n r g : sys_ok s -> allocate_page file_id s.(pool) = (p, Ok (Some (n, r))) -> floor l s -> floor l (with_guards g (with_pool p s)).
Proof using.
  intros Hs. unfold allocate_page, insert_fresh_frame. destruct (_ <=? _); [done|]. set (k := (file_id, _)). destruct (_ !! k); [done|]. intros [= <- <- <-].
  apply (add_frame_floor l s k (Frame_new k page_default false false)); try done; [by apply sok_pool| | |].
  - cbn. unfold mark_page_allocated. by destruct (_ !! file_id).
  - rewrite frame_of_update, decide_True by done. unfold frame_of. cbn. by rewrite lookup_total_insert_eq.
  - intros r1 Hn. rewrite frame_of_update, decide_False by done. unfold frame_of. cbn. by rewrite lookup_total_insert_ne.
Qed.
Lemma victim_floor l s p o jobs' : sys_ok s -> reserve_victim s.(pool) = (p, Ok o) -> floor l s -> floor l (with_jobs jobs' (with_pool p s)).
Proof using.
  intros Hs. unfold reserve_victim. destruct (_ <? _); [by intros [= <- <-]|]. destruct (reclaim_victim (pool s)) as [p1 o1] eqn:E. pose proof (reclaim_spec _ _ _ (sok_pool s Hs) E) as H. destruct o1; [| |done].
  - intros [= <- <-]. destruct H as (q & k & r & Hw & Hk & _ & _ & ->). pose proof (swept_frames _ _ Hw) as [Ef _]. apply floor_mono; [by destruct Hw as (_ & _ & <- & _)|]. intros k' r' Hk'. right. left. cbn in Hk'. rewrite Ef in Hk'. apply lookup_delete_Some in Hk' as [_ Hk'].
    split; [done|]. cbn [pool with_jobs with_pool]. rewrite frame_of_state. by apply swept_rec.
  - intros [= <- <-]. destruct H as (q & k & Hw & Hk & _ & _ & ->). pose proof (swept_frames _ _ Hw) as [Ef _]. apply floor_mono; [by destruct Hw as (_ & _ & <- & _)|]. intros k' r' Hk'. right. left. cbn in Hk'. rewrite Ef in Hk'.
    split; [done|]. cbn [pool with_jobs with_pool]. rewrite frame_of_update. case_decide as E'; [subst r'; exact (swept_rec _ _ _ Hw)|by apply swept_rec].
Qed.
Lemma settle_floor l s r image f clean jobs' : sys_ok s -> s.(jobs) !! r = Some (Captured image Synced) -> settle_frame (frame_of s.(pool) r) = Ok (f, clean) ->
  floor l s -> floor l (with_jobs jobs' (with_pool (update_frame r (fun _ => f) s.(pool)) s)).
Proof using.
  intros Hs Hj E Hl. destruct (working s r _ Hs Hj) as (k & Hk & Ek & (_ & H2 & H3)). destruct H3 as (_ & _ & Hd & _ & c & n & v & Hc & Hn & _ & _ & Hre & _ & _ & Hord & _). rewrite Hd in H2. destruct H2 as (lo & v0 & Hlo & _).
  pose proof (proj2 Hl k r lo Hk Hlo) as Hle. revert Hl. apply floor_mono; [done|]. intros k' r' Hk'. cbn [pool with_jobs with_pool]. rewrite frame_of_update. case_decide as Er; [subst r'|right; by left]. unfold settle_frame in E. rewrite Hc in E. cbn [ok_or mbind result_bind] in E.
  destruct (_ && _ && _); [apply Ok_inj in E; injection E as <- <-; by left|]. destruct (first_redirty_lsn c) as [l1|]; [|done]. cbn in E. apply Ok_inj in E. injection E as <- <-. right. right.
  intros lo' [= <-]. destruct (versions s k !! S n) as [v1|] eqn:E1; [|done]. cbn in Hre. injection Hre as ->. destruct (Hord (S n) v1 ltac:(lia) E1) as [_ H]. specialize (H lo Hlo). lia.
Qed.

Lemma floor_step l s s' : step s s' -> sys_ok s -> floor l s -> floor l s'.
Proof using.
  intros Hst Hs. destruct Hst.
  - done.
  - by eapply insert_floor.
  - revert H. unfold lookup_resident. destruct (_ !! k); [|done]. destruct (evicting _); [done|]. intros [= <- <-]. by apply floor_update.
  - by apply floor_update.
  - destruct (append_law _ _ _ (sok_io s Hs) H1) as (Hw1 & _ & _ & (Hw & _) & _). intros Hl. pose proof Hl as [Hl1 Hl2]. destruct (guarded s r Hs H) as (k & Hk & _). revert Hl. apply floor_mono; [done|]. intros k' r' Hk'. right. right.
    cbn [pool add_version with_pool]. change (frame_of (with_world w ?p) r') with (frame_of p r'). rewrite frame_of_update. intros lo. case_decide as E; [subst r'|by apply (Hl2 k')].
    rewrite (publish_rec _ _ _ _ H2). cbn [dirty_meta set_data set_needs_fpi]. destruct (rec_lsn _) as [lo0|] eqn:Elo; [intros [= <-]; eauto|intros [= <-]; lia].
  - by apply (floor_world l s w (jobs s)).
  - revert H0. unfold ensure_extent_seeded. case_bool_decide; [by intros [= <-]|]. destruct (store_page_count _ _); [|done]. intros [= <-]. apply floor_mono; [done|]. intros k r Hk. right. by left.
  - by eapply new_floor.
  - intros Hl. by apply (victim_floor l s p None (jobs s) Hs H).
  - destruct (full_ok _ _ _ Hs H) as [_ Hw]. apply floor_mono; [by destruct Hw as (_ & _ & <- & _)|]. intros k r Hk. right. left. cbn in *. destruct (swept_frames _ _ Hw) as [Ef _]. rewrite Ef in Hk. split; [done|by apply swept_rec].
  - by eapply victim_floor.
  - by apply floor_update.
  - revert H0. unfold capture_frame. destruct (_ || _); [intros [= <- <-]; by apply floor_update|]. destruct (latest_page_lsn _); [|done]. intros [= <- <-]. apply floor_mono; [done|]. intros k r' Hk. right. left. split; [done|].
    cbn [pool with_jobs with_pool]. rewrite frame_of_update. case_decide as E; [by subst|done].
  - apply floor_world. by destruct (durable_law _ _ _ (sok_io s Hs) H).
  - apply floor_world. by destruct (write_law _ _ _ _ _ (sok_io s Hs) (job_storable s r j Hs H H0) H1).
  - apply floor_world. by destruct (sync_law _ _ _ _ (sok_io s Hs) H).
  - revert H0. unfold finish_eviction. case_match; [|done]. intros [= <-]. apply floor_mono; [done|]. intros k r' Hk. cbn [pool with_jobs with_pool] in *. rewrite frame_of_state. rewrite frame_of_update. case_decide; [by left|]. rewrite frame_of_update, decide_False by done. right. left. split; [|done].
    cbn in Hk. by apply lookup_delete_Some in Hk as [_ Hk].
  - by eapply settle_floor.
  - by apply floor_update.
  - by apply floor_update.
Qed.
(** The log and the files only grow. *)
Lemma step_later s s' : step s s' -> sys_ok s -> later s.(pool).(world) s'.(pool).(world).
Proof using.
  intros Hst Hs. destruct Hst; cbn [pool hold with_guards with_pool with_jobs add_version with_world world]; try (apply later_refl).
  - revert H1. unfold insert_loaded, get_or_insert_clean. destruct (_ !! k); [destruct (evicting _); [done|]|destruct (_ <=? _); [done|]]; intros [= <- <-]; apply later_refl.
  - revert H. unfold lookup_resident. destruct (_ !! k); [|done]. destruct (evicting _); [done|]. intros [= <- <-]. apply later_refl.
  - by destruct (append_law _ _ _ (sok_io s Hs) H1) as (_ & _ & _ & ? & _).
  - done.
  - revert H0. unfold ensure_extent_seeded. case_bool_decide; [|destruct (store_page_count _ _); [|done]]; intros [= <-]; apply later_refl.
  - revert H0. unfold allocate_page, insert_fresh_frame. destruct (_ <=? _); [done|]. destruct (_ !! _); [done|]. intros [= <- <- <-]. apply later_refl.
  - rewrite (reserve_world s p (Ok None) Hs H). apply later_refl.
  - rewrite (reserve_world s p (Err e) Hs H). apply later_refl.
  - rewrite (reserve_world s p (Ok (Some r)) Hs H). apply later_refl.
  - revert H0. unfold capture_frame. destruct (_ || _); [|destruct (latest_page_lsn _); [|done]]; intros [= <- <-]; apply later_refl.
  - by destruct (durable_law _ _ _ (sok_io s Hs) H).
  - by destruct (write_law _ _ _ _ _ (sok_io s Hs) (job_storable s r j Hs H H0) H1).
  - by destruct (sync_law _ _ _ _ (sok_io s Hs) H).
  - revert H0. unfold finish_eviction. case_match; [|done]. intros [= <-]. apply later_refl.
Qed.
Lemma steps_later s s' : rtc step s s' -> sys_ok s -> later s.(pool).(world) s'.(pool).(world).
Proof using.
  induction 1 as [|x y z Hst _ IH]; intros Hs; [apply later_refl|]. destruct (step_later _ _ Hst Hs) as (A1 & A2 & A3 & A4), (IH (step_ok _ _ Hst Hs)) as (B1 & B2 & B3 & B4).
  split_and!; [lia|lia| |auto]. intros f. specialize (A3 f). specialize (B3 f). lia.
Qed.
Lemma floor_steps l s s' : rtc step s s' -> sys_ok s -> floor l s -> floor l s'.
Proof using. induction 1; [done|]. eauto using step_ok, floor_step. Qed.

(** *** The dirty-page table *)

Lemma dirty_entries_spec (p : Pool) rs :
  (forall r, r ∈ rs -> (frame_of p r).(f_dirty) = true -> is_Some (frame_of p r).(dirty_meta).(rec_lsn)) ->
  exists entries, dirty_entries p rs = Ok entries /\
    forall e, e ∈ entries <-> exists r lo, r ∈ rs /\ (frame_of p r).(f_dirty) = true /\ (frame_of p r).(dirty_meta).(rec_lsn) = Some lo /\
      e = mkDirtyPage (frame_of p r).(f_key).1 (frame_of p r).(f_key).2 lo.
Proof using.
  induction rs as [|r rs IH]; intros H; [exists []; split; [done|]; intros e; split; [by intros ?%elem_of_nil|by intros (? & ? & ?%elem_of_nil & _)]|].
  destruct IH as (es & E & Hes); [intros r' Hr'; apply H; by right|]. cbn [dirty_entries]. destruct (f_dirty (frame_of p r)) eqn:Ed; cbn [negb].
  - destruct (H r) as [lo Hlo]; [by left|done|]. rewrite Hlo, E. cbn. eexists. split; [done|]. intros e. rewrite elem_of_cons, Hes. split.
    + intros [->|(r' & lo' & ? & ? & ? & ->)]; [exists r, lo; split_and!; [by left|done..]|exists r', lo'; split_and!; [by right|done..]].
    + intros (r' & lo' & [->|Hr']%elem_of_cons & Hd' & Hlo' & ->); [left; congruence|right; by exists r', lo'].
  - exists es. split; [done|]. intros e. rewrite Hes. split; intros (r' & lo' & Hr' & Hd' & Hrest); exists r', lo'; (split; [|done]); [by right|]. apply elem_of_cons in Hr' as [->|]; [congruence|done].
Qed.

(** The table can always be built, and has the dirty pages with their boundaries. *)
Lemma dirty_table_spec s : sys_ok s -> exists entries, dirty_page_table s.(pool) = Ok entries /\
  forall e, e ∈ entries <-> exists k r lo, s.(pool).(pstate).(frames) !! k = Some r /\ (frame_of s.(pool) r).(f_dirty) = true /\
    (frame_of s.(pool) r).(dirty_meta).(rec_lsn) = Some lo /\ e = mkDirtyPage k.1 k.2 lo.
Proof using.
  intros Hs. destruct (dirty_entries_spec (pool s) (resident (pool s)).*2) as (es & E & Hin).
  { intros r' Hr' Hd'. apply list_elem_of_fmap in Hr' as ([k1 r1] & -> & Hr'). apply elem_of_map_to_list in Hr'. pose proof (sok_page s Hs k1) as Hf1. rewrite Hr' in Hf1.
    destruct Hf1 as (_ & Hf1 & _). cbn [snd] in Hd'. rewrite Hd' in Hf1. destruct Hf1 as (lo1 & ? & Hlo1 & _). by eexists. }
  unfold dirty_page_table. rewrite E. cbn. eexists. split; [done|]. intros e. rewrite merge_sort_Permutation, Hin. split.
  - intros (r & lo & Hr & Hd & Hlo & ->). apply list_elem_of_fmap in Hr as ([k1 r1] & -> & Hr). apply elem_of_map_to_list in Hr. cbn [snd] in *. exists k1, r1, lo. by destruct (ok_frame_of _ _ _ (sok_pool s Hs) Hr) as [-> _].
  - intros (k & r & lo & Hr & Hd & Hlo & ->). exists r, lo. destruct (ok_frame_of _ _ _ (sok_pool s Hs) Hr) as [-> _]. split_and!; try done. apply list_elem_of_fmap. exists (k, r). split; [done|]. by apply elem_of_map_to_list.
Qed.

Definition entry_key (e : DirtyPageEntry) : PageKey := (e.(dp_file_id), e.(dp_page_num)).
Lemma dirty_entries_keys (p : Pool) rs : forall es, dirty_entries p rs = Ok es -> (entry_key <$> es) `sublist_of` ((fun r => (frame_of p r).(f_key)) <$> rs).
Proof using.
  induction rs as [|r rs IH]; intros es; cbn [dirty_entries]; [intros [= <-]; done|]. destruct (f_dirty _); cbn [negb]; [|intros E; apply sublist_cons; auto].
  destruct (rec_lsn _) as [lo|]; [|done]. cbn [ok_or mbind result_bind]. destruct (dirty_entries p rs) as [es'|]; [|done]. intros [= <-]. rewrite !fmap_cons. unfold entry_key at 1. cbn [dp_file_id dp_page_num].
  rewrite <- surjective_pairing. by apply sublist_skip, IH.
Qed.
(** No page is listed twice, and there are not more than the pool has frames. *)
Lemma dirty_table_keys s entries : sys_ok s -> dirty_page_table s.(pool) = Ok entries ->
  StronglySorted entry_le entries /\ NoDup (entry_key <$> entries) /\ len entries <= s.(pool).(frame_count).
Proof using.
  intros Hs E. unfold dirty_page_table in E. inv_ok E. apply Ok_inj in E as <-. apply dirty_entries_keys in Hx.
  assert (Ekeys : (fun r => f_key (frame_of (pool s) r)) <$> (resident (pool s)).*2 = (resident (pool s)).*1).
  { rewrite <- list_fmap_compose. apply list_fmap_ext. intros i [k r] Hi%list_elem_of_lookup_2%elem_of_map_to_list. by destruct (ok_frame_of _ _ _ (sok_pool s Hs) Hi) as [? _]. }
  rewrite Ekeys in Hx. pose proof (NoDup_fst_map_to_list (frames (pstate (pool s)))) as Hnd. split_and!.
  - apply StronglySorted_merge_sort; [intros a b c; unfold entry_le; lia|]. intros a b. unfold entry_le. lia.
  - rewrite merge_sort_Permutation. by eapply sublist_NoDup.
  - pose proof (sublist_length _ _ Hx) as Hl. pose proof (ok_room _ (sok_pool s Hs)) as Hr. rewrite !length_fmap in Hl. unfold resident in Hl. rewrite length_map_to_list in Hl. unfold frames_len in Hr.
    unfold len. rewrite (Permutation_length (merge_sort_Permutation entry_le x)). lia.
Qed.
Lemma dirty_table_recs s entries e : sys_ok s -> dirty_page_table s.(pool) = Ok entries -> e ∈ entries -> e.(dp_rec_lsn) <= written_lsn s.(pool).(world).
Proof using.
  intros Hs E He. destruct (dirty_table_spec s Hs) as (es & E' & Hin). rewrite E in E'. injection E' as <-. apply Hin in He as (k & r & lo & Hk & Hdr & Hlo & ->). pose proof (sok_page s Hs k) as Hf. rewrite Hk in Hf.
  destruct Hf as (_ & Hf & _). rewrite Hdr in Hf. destruct Hf as (lo' & v & Hlo' & _ & _ & _ & Hw). rewrite Hlo in Hlo'. injection Hlo' as <-. cbn. eapply whole_below; [apply (sok_order s Hs)|exact Hw].
Qed.

(** The redo boundary of a checkpoint, as [run_checkpoint] takes it. *)
Definition redo_boundary (entries : list DirtyPageEntry) (end_lsn : N) : N := default end_lsn (list_min (dp_rec_lsn <$> entries)).

Lemma boundary_floor s entries : sys_ok s -> dirty_page_table s.(pool) = Ok entries ->
  redo_boundary entries (written_lsn s.(pool).(world)) <= written_lsn s.(pool).(world) /\ floor (redo_boundary entries (written_lsn s.(pool).(world))) s.
Proof using.
  intros Hs E. destruct (dirty_table_spec s Hs) as (es & E' & Hin). rewrite E in E'. injection E' as <-. unfold redo_boundary.
  assert (Hle : default (written_lsn (world (pool s))) (list_min (dp_rec_lsn <$> entries)) <= written_lsn (world (pool s))).
  { destruct (list_min _) as [m|] eqn:Em; [|done]. apply list_min_Some in Em as [Hm _]. apply list_elem_of_fmap in Hm as (e & -> & He). by eapply dirty_table_recs. }
  split; [done|]. split; [done|]. intros k r lo Hk Hlo. pose proof (sok_page s Hs k) as Hf. rewrite Hk in Hf. destruct Hf as (_ & Hf & _).
  assert (Hdr : f_dirty (frame_of (pool s) r) = true) by (destruct (f_dirty _); [done|]; destruct Hf as (_ & E' & _); congruence).
  assert (Hin' : lo ∈ dp_rec_lsn <$> entries) by (apply list_elem_of_fmap; exists (mkDirtyPage k.1 k.2 lo); split; [done|]; apply Hin; by exists k, r, lo).
  destruct (list_min _) as [m|] eqn:Em; [|apply list_min_None in Em; rewrite Em in Hin'; by apply elem_of_nil in Hin']. apply list_min_Some in Em as [_ Em]. specialize (Em lo Hin'). done.
Qed.

(** What a crash finds of a page whose boundary is known to be at [l] or later. *)
Lemma floor_covers l s k o : sys_ok s -> floor l s -> may_hold s.(pool).(world) k o ->
  exists n, (n <= length (s.(versions) k))%nat /\ o = v_image <$> last (take n (s.(versions) k)) /\
    (forall v, last (take n (s.(versions) k)) = Some v -> v.(v_pos).(record_lsn) <= durable_lsn s.(pool).(world)) /\
    forall j v', (n <= j)%nat -> s.(versions) k !! j = Some v' -> l <= v'.(v_pos).(replay_from).
Proof using.
  intros Hs [Hl Hfl] Hm. pose proof (sok_page s Hs k) as Hk. assert (Hcov : covered (world (pool s)) k (versions s k) l); [|by apply Hcov].
  destruct (_ !! k) as [r|] eqn:Hkr; [|by apply on_disk_covered]. destruct (ok_frame_of _ _ _ (sok_pool s Hs) Hkr) as [Ek _]. destruct Hk as (_ & Hk & _). destruct (f_dirty _).
  - destruct Hk as (lo & v0 & Hlo & _ & _ & Hcov & _). rewrite Ek in Hcov. specialize (Hfl k r lo Hkr Hlo). intros o' Ho'. destruct (Hcov o' Ho') as (n & ? & ? & ? & Hj). exists n. split_and!; try done.
    intros j v' Hij E'. specialize (Hj j v' Hij E'). lia.
  - destruct Hk as (Hk & _). rewrite Ek in Hk. by apply on_disk_covered.
Qed.
(** The same after a checkpoint. *)
Lemma crash_finds s entries s' k o : sys_ok s -> dirty_page_table s.(pool) = Ok entries -> rtc step s s' -> may_hold s'.(pool).(world) k o ->
  exists n, (n <= length (s'.(versions) k))%nat /\ o = v_image <$> last (take n (s'.(versions) k)) /\
    (forall v, last (take n (s'.(versions) k)) = Some v -> v.(v_pos).(record_lsn) <= durable_lsn s'.(pool).(world)) /\
    forall j v', (n <= j)%nat -> s'.(versions) k !! j = Some v' -> redo_boundary entries (written_lsn s.(pool).(world)) <= v'.(v_pos).(replay_from).
Proof using. intros Hs E Hr. apply floor_covers; [by eapply steps_ok|]. eapply floor_steps; [done|done|by apply boundary_floor]. Qed.

(** Redo from a checkpoint is enough.  A checkpoint at some point of a run can always build
    its dirty-page table; whatever happens afterwards and whenever the machine then stops,
    each page is found on disk, short of a torn write, as it was after some number of its
    versions, none of them if it was never written, and every version it misses has its
    record at or after the boundary the table gives. *)
Theorem redo_covers_losses s : reachable s -> exists entries, dirty_page_table s.(pool) = Ok entries /\
  let boundary := redo_boundary entries (written_lsn s.(pool).(world)) in
  boundary <= written_lsn s.(pool).(world) /\
  forall s' k o, rtc step s s' -> may_hold s'.(pool).(world) k o ->
    exists n, (n <= length (s'.(versions) k))%nat /\ o = v_image <$> last (take n (s'.(versions) k)) /\
      forall j v', (n <= j)%nat -> s'.(versions) k !! j = Some v' -> boundary <= v'.(v_pos).(replay_from).
Proof using.
  intros Hs%reachable_ok. destruct (dirty_table_spec s Hs) as (es & E & _). exists es. split; [done|]. split; [by apply boundary_floor|].
  intros s' k o Hr Hm. destruct (crash_finds s es s' k o Hs E Hr Hm) as (n & ? & ? & _ & ?). by exists n.
Qed.



(** The errors a checkpoint and an eviction report about the pool's own state do not occur:
    a frame reserved for a checkpoint can be captured, a captured one settled once it is
    synced, and a stolen one leaves the pool once it is. *)
Theorem flush_errors_unreachable s r : reachable s ->
  (s.(jobs) !! r = Some Reserved -> forall latched, is_ok (capture_frame latched r s.(pool)).2 = true) /\
  (forall image, s.(jobs) !! r = Some (Captured image Synced) -> is_ok (settle_frame (frame_of s.(pool) r)) = true) /\
  (s.(jobs) !! r = Some (Steal Synced) -> (finish_eviction r s.(pool)).2 = true).
Proof using.
  intros Hs%reachable_ok. split_and!.
  - intros Hj latched. destruct (working s r _ Hs Hj) as (k & _ & _ & (_ & Hd & _)). unfold capture_frame. destruct (f_dirty _); [|by rewrite orb_true_r]. destruct Hd as (lo & v & _ & _ & -> & _). by destruct (latched r).
  - intros image Hj. destruct (working s r _ Hs Hj) as (k & _ & _ & (_ & Hd & (_ & _ & Hdr & _ & c & n & v & Hc & Hn & Hi & Hgen & Hre & _))). unfold settle_frame. rewrite Hc. cbn [ok_or mbind result_bind].
    destruct (_ && _ && _) eqn:Eb; [done|]. rewrite Hre in *. destruct (versions s k !! S n) as [v1|] eqn:E1; [done|]. exfalso. apply lookup_ge_None in E1. pose proof (lookup_lt_Some _ _ _ Hn).
    rewrite Hdr in Hd. destruct Hd as (lo & v0 & _ & Hl & Hlsn & _). rewrite last_lookup in Hl. assert (n = Nat.pred (length (versions s k))) as -> by lia. rewrite Hl in Hn. injection Hn as ->.
    revert Eb. cbn. rewrite Hgen, Hlsn, (proj2 Hi). unfold len. replace (N.of_nat (length (versions s k)) - _) with 0 by lia. rewrite N.add_0_r, N.eqb_refl, !bool_decide_eq_true_2; done.
  - intros Hj. destruct (working s r _ Hs Hj) as (k & _ & _ & (_ & _ & (_ & _ & _ & Hp & _))). unfold finish_eviction. rewrite frame_of_update, decide_True by done. cbn [pin_count unpin set_pins]. by rewrite Hp.
Qed.

(** ** The methods are runs *)

(** A run that leaves the published versions, the guards and the absent pages alone. *)
Definition quiet_run (s s' : System) : Prop :=
  rtc step s s' /\ (forall k, s'.(versions) k = s.(versions) k) /\ (forall r, s'.(guards) r = s.(guards) r) /\ s'.(loads) = s.(loads) /\
  s'.(pool).(frame_count) = s.(pool).(frame_count) /\ forall k, s.(pool).(pstate).(frames) !! k = None -> s'.(pool).(pstate).(frames) !! k = None.

Lemma quiet_one s s' : step s s' -> (forall k, s'.(versions) k = s.(versions) k) -> (forall r, s'.(guards) r = s.(guards) r) -> s'.(loads) = s.(loads) ->
  s'.(pool).(frame_count) = s.(pool).(frame_count) -> (forall k, s.(pool).(pstate).(frames) !! k = None -> s'.(pool).(pstate).(frames) !! k = None) -> quiet_run s s'.
Proof using. intros. split_and!; try done. by apply rtc_once. Qed.
Global Instance quiet_preorder : PreOrder quiet_run.
Proof using.
  split; [done|]. intros s1 s2 s3 (A1 & A2 & A3 & A4 & A5 & A6) (B1 & B2 & B3 & B4 & B5 & B6). split_and!; [by etrans|intros; by rewrite B2|intros; by rewrite B3|congruence|congruence|auto].
Qed.

Lemma reserve_frames s p res : sys_ok s -> reserve_victim s.(pool) = (p, res) -> p.(frame_count) = s.(pool).(frame_count) /\
  (forall k, s.(pool).(pstate).(frames) !! k = None -> p.(pstate).(frames) !! k = None) /\ (res = Ok None -> frames_len p.(pstate) < p.(frame_count)).
Proof using.
  intros Hs. unfold reserve_victim. destruct (N.ltb_spec (frames_len (pstate (pool s))) (frame_count (pool s))); [by intros [= <- <-]|]. destruct (reclaim_victim (pool s)) as [p1 o] eqn:E.
  pose proof (reclaim_spec _ _ _ (sok_pool s Hs) E) as H0. destruct o as [|r|]; intros [= <- <-].
  - destruct H0 as (q & k & r & Hw & Hk & _ & _ & ->). pose proof (swept_frames _ _ Hw) as [Ef _]. destruct Hw as (Ec & _). cbn. rewrite Ef in *. split_and!; [done| |].
    + intros k' Hk'. by apply lookup_delete_None; right.
    + intros _. unfold frames_len. cbn. rewrite ?Ef, map_size_delete_Some by (by eexists). rewrite Ec. pose proof (ok_room _ (sok_pool s Hs)) as Hr. unfold frames_len in Hr. assert (size (frames (pstate (pool s))) <> 0%nat) by (intros E0; apply map_size_empty_inv in E0; by rewrite E0 in Hk). lia.
  - destruct H0 as (q & k & Hw & _ & _ & _ & ->). pose proof (swept_frames _ _ Hw) as [Ef _]. destruct Hw as (Ec & _). cbn. rewrite Ef. done.
  - destruct H0 as [Hw _]. pose proof (swept_frames _ _ Hw) as [Ef _]. destruct Hw as (Ec & _). rewrite Ef. done.
Qed.

Lemma finish_true s r : sys_ok s -> s.(jobs) !! r = Some (Steal Synced) -> exists p, finish_eviction r s.(pool) = (p, true) /\
  p.(frame_count) = s.(pool).(frame_count) /\ p.(pstate).(frames) = delete (frame_of s.(pool) r).(f_key) s.(pool).(pstate).(frames).
Proof using.
  intros Hs Hj. destruct (working s r _ Hs Hj) as (k & _ & _ & (_ & _ & (_ & _ & _ & Hp & _))). unfold finish_eviction. rewrite frame_of_update, decide_True by done. cbn [pin_count unpin set_pins].
  rewrite Hp. cbn [N.sub N.eqb]. eexists. split_and!; [done|done|]. cbn [pstate with_state remove_frame fix_clock_hand set_clock frames update_frame with_arena]. by rewrite !frame_of_update, !decide_True.
Qed.

(** [make_room] on its own: whatever it returns, it is a run; without an error there is room. *)
Lemma make_room_run s fuel p res : sys_ok s -> make_room (S fuel) s.(pool) = (p, res) ->
  exists s', quiet_run s s' /\ s'.(pool) = p /\ (res = Ok () -> frames_len p.(pstate) < p.(frame_count)).
Proof using.
  intros Hs. cbn [make_room]. destruct (reserve_victim (pool s)) as [p1 o] eqn:E1. destruct (reserve_frames s p1 o Hs E1) as (Ec & Ef & Hroom). destruct o as [[r|]|e].
  2:{ intros [= <- <-]. exists (with_pool p1 s). split_and!; [|done|auto]. apply quiet_one; try done. by apply step_room. }
  2:{ intros [= <- <-]. exists (with_pool p1 s). split_and!; [|done|done]. apply quiet_one; try done. by eapply step_full. }
  set (s1 := with_jobs (<[r := Steal Begun]> (jobs s)) (with_pool p1 s)). assert (Hst1 : step s s1) by (by apply step_steal). assert (Q1 : quiet_run s s1) by (by apply quiet_one).
  pose proof (step_ok _ _ Hst1 Hs) as Hs1. unfold flush_victim. unfold mbind at 1, se_bind at 1. unfold on_world at 1. change (world p1) with (world (pool s1)).
  assert (Habort : forall s2 ph p2, quiet_run s s2 -> sys_ok s2 -> jobs s2 !! r = Some (Steal ph) -> p2 = pool s2 -> exists s', quiet_run s s' /\ pool s' = abort_eviction r p2).
  { intros s2 ph p2 Q2 Hs2 Hj2 ->. eexists. split; [etrans; [exact Q2|]; apply quiet_one; [by eapply step_abort_steal|done..]|done]. }
  destruct (ensure_durable (world (pool s1))) as [w2 r2] eqn:Ed. pose proof (step_durable s1 w2 r2 Ed) as Hst2. set (s2 := with_jobs _ _) in Hst2. pose proof (step_ok _ _ Hst2 Hs1) as Hs2.
  assert (Q2 : quiet_run s s2) by (etrans; [exact Q1|]; by apply quiet_one). destruct r2 as [[]|e].
  2:{ intros [= <- <-]. destruct (Habort s2 Begun (pool s2) Q2 Hs2) as (s' & Q' & E'); [apply lookup_insert_eq|done|]. exists s'. split_and!; [done|exact E'|done]. }
  assert (Hj2 : jobs s2 !! r = Some (Steal Durable)) by (cbn; by rewrite lookup_fmap, lookup_insert_eq).
  change (mkPool _ _ _ _ w2) with (pool s2). rewrite gets_bind. unfold mbind at 1, se_bind at 1. unfold on_world at 1.
  destruct (store_write_page _ _ _) as [w3 r3] eqn:Ew. pose proof (step_write s2 r (Steal Durable) w3 r3 Hj2 eq_refl Ew) as Hst3. set (s3 := with_jobs _ _) in Hst3. pose proof (step_ok _ _ Hst3 Hs2) as Hs3.
  assert (Q3 : quiet_run s s3) by (etrans; [exact Q2|]; by apply quiet_one). destruct r3 as [[]|e].
  2:{ intros [= <- <-]. destruct (Habort s3 Durable (pool s3) Q3 Hs3) as (s' & Q' & E'); [done|done|]. exists s'. split_and!; [done|exact E'|done]. }
  assert (Hj3 : jobs s3 !! r = Some (Steal Written)) by apply lookup_insert_eq.
  change (mkPool _ _ _ _ w3) with (pool s3). unfold on_world at 1. change (frame_of (pool s2) r) with (frame_of (pool s3) r).
  destruct (store_sync_files _ _) as [w4 r4] eqn:Es. pose proof (step_sync s3 _ w4 r4 Es) as Hst4. set (s4 := with_jobs _ _) in Hst4. pose proof (step_ok _ _ Hst4 Hs3) as Hs4.
  assert (Q4 : quiet_run s s4) by (etrans; [exact Q3|]; by apply quiet_one). destruct r4 as [[]|e].
  2:{ intros [= <- <-]. destruct (Habort s4 Written (pool s4) Q4 Hs4) as (s' & Q' & E'); [done|done|]. exists s'. split_and!; [done|exact E'|done]. }
  assert (Hj4 : jobs s4 !! r = Some (Steal Synced)).
  { cbn [s4 jobs with_jobs is_ok with_pool]. rewrite map_lookup_imap, Hj3. cbn. unfold synced_job. cbn [job_phase]. rewrite bool_decide_eq_true_2; [done|]. apply list_elem_of_singleton. done. }
  change (mkPool _ _ _ _ w4) with (pool s4). destruct (finish_true s4 r Hs4 Hj4) as (p5 & E5 & Ec5 & Ef5). rewrite E5. intros [= <- <-].
  pose proof (step_evict s4 r p5 Hj4 E5) as Hst5. eexists. split_and!; [etrans; [exact Q4|]; apply quiet_one; [exact Hst5|done|done|done|exact Ec5|]|done|].
  - intros k Hk. cbn [pool with_jobs with_pool]. rewrite Ef5. by apply lookup_delete_None; right.
  - intros _. unfold frames_len. rewrite Ef5, Ec5. destruct (working s4 r _ Hs4 Hj4) as (k & Hk & -> & _). rewrite map_size_delete_Some by (by eexists).
    pose proof (ok_room _ (sok_pool s4 Hs4)) as Hr. unfold frames_len in Hr. assert (size (frames (pstate (pool s4))) <> 0%nat) by (intros E0; apply map_size_empty_inv in E0; by rewrite E0 in Hk). lia.
Qed.

Lemma insert_room s k d : s.(pool).(pstate).(frames) !! k = None -> frames_len s.(pool).(pstate) < s.(pool).(frame_count) ->
  exists p r, insert_loaded k d s.(pool) = (p, Ok (Some r)).
Proof using. intros Hk Hr. unfold insert_loaded, get_or_insert_clean. rewrite Hk, (proj2 (N.leb_gt _ _) Hr). by eexists _, _. Qed.
Lemma insert_full s k d p o : s.(pool).(pstate).(frames) !! k = None -> insert_loaded k d s.(pool) = (p, o) -> o = Ok None ->
  p = s.(pool) /\ s.(pool).(frame_count) <= frames_len s.(pool).(pstate).
Proof using. intros Hk. unfold insert_loaded, get_or_insert_clean. rewrite Hk. destruct (N.leb_spec (frame_count (pool s)) (frames_len (pstate (pool s)))); intros [= <- <-]; [done|discriminate]. Qed.
Lemma insert_never_fails s k d p e : insert_loaded k d s.(pool) <> (p, Err e).
Proof using. unfold insert_loaded. by destruct (get_or_insert_clean _ _ _) as [? []]. Qed.
Lemma absent_reads s t k d : sys_ok s -> sys_ok t -> rtc step s t -> s.(pool).(pstate).(frames) !! k = None -> t.(pool).(pstate).(frames) !! k = None ->
  t.(versions) k = s.(versions) k -> reads_as s.(pool).(world) k d -> reads_as t.(pool).(world) k d.
Proof using.
  intros Hs Ht Hr Hk Hk' Ev. pose proof (sok_page s Hs k) as H. rewrite Hk in H. destruct H as (_ & E & _). pose proof (sok_page t Ht k) as H. rewrite Hk' in H. destruct H as (_ & E' & _).
  unfold reads_as. rewrite E, E', Ev. intros [->|(-> & -> & He)]; [by left|right]. split; [done|]. split; [done|]. destruct (steps_later _ _ Hr Hs) as (_ & _ & H & _). specialize (H k.1). lia.
Qed.

(** Inserting a page that was read, with room made for it once. *)
Lemma insert_run s fuel k d p res : sys_ok s -> (k, d) ∈ s.(loads) -> s.(pool).(pstate).(frames) !! k = None -> reads_as s.(pool).(world) k d ->
  with_room (S (S fuel)) (insert_loaded k d) s.(pool) = (p, res) ->
  exists s', rtc step s s' /\ s'.(pool) = p /\ (forall k', s'.(versions) k' = s.(versions) k') /\
    match res with Ok r => 0 < s'.(guards) r /\ p.(pstate).(frames) !! k = Some r | Err _ => s.(pool).(frame_count) <= frames_len s.(pool).(pstate) end.
Proof using.
  intros Hs Hin Hk Himg.
  assert (Hins : forall t q r, sys_ok t -> quiet_run s t -> insert_loaded k d (pool t) = (q, Ok (Some r)) -> rtc step s (hold r (with_pool q t)) /\ 0 < guards (hold r (with_pool q t)) r /\ q.(pstate).(frames) !! k = Some r).
  { intros t q r Ht (Q1 & Q2 & Q3 & Q4 & Q5 & Q6) E. split_and!; [| |].
    - eapply rtc_r; [exact Q1|]. apply (step_insert t k d q r); [by rewrite Q4|left|done]. apply (absent_reads s t); [done|done|done|done|by apply Q6|by apply Q2|done].
    - cbn. rewrite set_guard_same. lia.
    - revert E. unfold insert_loaded, get_or_insert_clean. rewrite (Q6 k Hk). destruct (_ <=? _); [done|]. intros [= <- <-]. cbn. by rewrite lookup_insert_eq. }
  cbn [with_room]. destruct (insert_loaded k d (pool s)) as [p1 [[r|]|e]] eqn:E1; [| |by apply insert_never_fails in E1].
  - intros [= <- <-]. destruct (Hins s p1 r Hs ltac:(reflexivity) E1) as (H1 & H2 & H3). eexists. split_and!; [exact H1|done|done|done|done].
  - destruct (insert_full s k d p1 _ Hk E1 eq_refl) as [-> Hfull]. destruct (make_room (S (S fuel)) (pool s)) as [p2 r2] eqn:E2. destruct (make_room_run s _ p2 r2 Hs E2) as (s2 & Q2 & <- & Hroom).
    pose proof Q2 as (Q21 & Q22 & _ & _ & _ & Q26). pose proof (steps_ok _ _ Q21 Hs) as Hs2. destruct r2 as [[]|e]; [|intros [= <- <-]; by exists s2].
    destruct (insert_room s2 k d (Q26 k Hk) (Hroom eq_refl)) as (p3 & r3 & E3). rewrite E3. intros [= <- <-]. destruct (Hins s2 p3 r3 Hs2 Q2 E3) as (H1 & H2 & H3). eexists. split_and!; [exact H1|done|done|done|done].
Qed.

(** Reading a page gives what was last written to it.  A call of [read_page] that is not
    interrupted is a run of the pool; if it returns a guard, the guard reads the last
    published version, also when room had to be made by writing another page back; it asks
    for a retry only while the page is being evicted, and it fails only when the page is
    neither resident nor readable, or when the pool is full. *)
Theorem read_page_returns_last s fuel k p res : reachable s -> read_page (S (S fuel)) k s.(pool) = (p, res) ->
  exists s', rtc step s s' /\ s'.(pool) = p /\ (forall k', s'.(versions) k' = s.(versions) k') /\
  match res with
  | Ok (Some g) => forall v, last (s.(versions) k) = Some v -> read_data g p = v.(v_image)
  | Ok None => exists r, s.(pool).(pstate).(frames) !! k = Some r /\ (frame_of s.(pool) r).(evicting) = true
  | Err _ => s.(pool).(pstate).(frames) !! k = None /\
      (frames_len s.(pool).(pstate) < s.(pool).(frame_count) -> forall d, store_load_page k s.(pool).(world) <> Ok (Some d))
  end.
Proof using.
  intros Hs%reachable_ok. assert (Hread : forall s' r, sys_ok s' -> (forall k', versions s' k' = versions s k') -> 0 < guards s' r -> frames (pstate (pool s')) !! k = Some r ->
    forall v, last (versions s k) = Some v -> f_data (frame_of (pool s') r) = v_image v).
  { intros s' r Hs' Hv Hg Hk v Hl. pose proof (sok_page s' Hs' k) as H. rewrite Hk in H. destruct H as (H & _). apply H. unfold current. by rewrite Hv, Hl. }
  unfold read_page. destruct (lookup_resident k (pool s)) as [p1 l] eqn:E1. destruct l as [r| |].
  - intros [= <- <-]. pose proof (step_find s k p1 r E1) as Hst. pose proof (step_ok _ _ Hst Hs) as Hs'. eexists. split_and!; [by apply rtc_once|done|done|]. apply (Hread _ r Hs'); [done|cbn; rewrite set_guard_same; lia|].
    revert E1. unfold lookup_resident. destruct (_ !! k) as [r'|] eqn:Hk; [|done]. destruct (evicting _); [done|]. by intros [= <- <-].
  - intros [= <- <-]. revert E1. unfold lookup_resident. destruct (_ !! k) as [r'|] eqn:Hk; [|done]. destruct (evicting _) eqn:He; [|done]. intros [= <-]. exists s. split_and!; try done. by eexists.
  - assert (Hk : frames (pstate (pool s)) !! k = None /\ p1 = pool s) by (revert E1; unfold lookup_resident; destruct (_ !! k); [by destruct (evicting _)|by intros [= <-]]). destruct Hk as [Hk ->].
    destruct (store_load_page k (world (pool s))) as [[d|]|e] eqn:Ed; [|intros [= <- <-]; by exists s|intros [= <- <-]; by exists s].
    assert (Hrd : reads_as (world (pool s)) k d).
    { apply (load_law _ _ _ (sok_io s Hs) Ed). intros Hh. pose proof (sok_page s Hs k) as H. rewrite Hk in H. by apply H, halfway_law. }
    pose proof (step_load s k d Hk Ed) as Hst. set (s1 := mkSystem _ _ _ _ _) in Hst. pose proof (step_ok _ _ Hst Hs) as Hs1. unfold mbind, se_bind. change (pool s) with (pool s1).
    destruct (with_room _ _ _) as [p2 r2] eqn:E2. destruct (insert_run s1 fuel k d p2 r2 Hs1 ltac:(left) Hk Hrd E2) as (s' & Hr & <- & Hv & Hres). pose proof (steps_ok _ _ Hr Hs1) as Hs'.
    assert (Hr' : rtc step s s') by (by eapply rtc_l). destruct r2 as [r|e]; intros [= <- <-]; exists s'; split_and!; try done.
    + destruct Hres as [Hg Hk']. by apply (Hread s' r).
    + intros Hroom. exfalso. change (pool s1) with (pool s) in *. lia.
Qed.
End Steps.
