(* ===== verification/PoolDemo.v ===== *)
(** * The buffer pool at work: an instance of its interface, runs, and two histories

    Files and a log in memory that satisfy the laws the pool's theorems assume, and a run of
    the pool over them.  Then two histories the code admits: a page read before a write-back
    and inserted after it undoes the write, and a page torn after a fuzzy checkpoint stops
    recovery. *)

From S2P Require Import Prelude Errors Mvcc CheckedBytes ByteArray TupleHeader WalCodec Page Compress Redo Recovery BufferPool PoolSteps.
Local Open Scope N_scope.

(** ** Files in memory *)

Record DemoIo : Type := mkIo {
  io_files : gmap (N * N) bytes;
  io_found : gmap (N * N) (list (option bytes));
  io_unsynced : gset (N * N);
  io_written : N;
  io_durable : N
}.
Definition io_extent (w : DemoIo) (f : N) : N := foldr (fun k n => if k.1 =? f then N.max n (k.2 + 1) else n) 0 (map_to_list w.(io_files)).*1.
Definition io_sync (fs : list N) (w : DemoIo) : DemoIo :=
  mkIo w.(io_files)
    (map_imap (fun k l => Some (if bool_decide (k.1 ∈ fs) then [] else l)) w.(io_found))
    (filter (fun k => k.1 ∉ fs) w.(io_unsynced)) w.(io_written) w.(io_durable).

Global Instance demo_store : PageStore DemoIo := {|
  store_load_page k w := Ok (w.(io_files) !! k);
  store_load_page_lenient k w := Ok (w.(io_files) !! k);
  store_write_page k d w :=
    (mkIo (<[k := d]> w.(io_files)) (<[k := w.(io_files) !! k :: default [] (w.(io_found) !! k)]> w.(io_found)) ({[k]} ∪ w.(io_unsynced)) w.(io_written) w.(io_durable), Ok ());
  store_sync_files fs w := (io_sync fs w, Ok ());
  store_page_count f w := Ok (io_extent w f);
  store_remove_file f w := (w, Ok ());
  store_list_file_ids w := Ok []
|}.
Global Instance demo_policy : FlushPolicy DemoIo := {|
  can_flush i := bool_decide (is_Some i.(fi_page_lsn));
  ensure_durable w := (mkIo w.(io_files) w.(io_found) w.(io_unsynced) w.(io_written) (N.max w.(io_durable) w.(io_written)), Ok ())
|}.

Lemma extent_ge (ks : list (N * N)) k : k ∈ ks -> k.2 < foldr (fun k' n => if k'.1 =? k.1 then N.max n (k'.2 + 1) else n) 0 ks.
Proof. induction 1 as [ks|k' ks Hin IH]; cbn; [rewrite N.eqb_refl; lia|]. destruct (_ =? _); lia. Qed.
Lemma extent_mono (ks ks' : list (N * N)) f : ks ⊆ ks' ->
  foldr (fun k n => if k.1 =? f then N.max n (k.2 + 1) else n) 0 ks <= foldr (fun k n => if k.1 =? f then N.max n (k.2 + 1) else n) 0 ks'.
Proof.
  intros Hs. induction ks as [|k ks IH]; cbn; [lia|]. assert (ks ⊆ ks') by set_solver. specialize (IH H). destruct (N.eqb_spec k.1 f) as [<-|]; [|done].
  pose proof (extent_ge ks' k ltac:(set_solver)). lia.
Qed.

Global Program Instance demo_laws : IoLaws DemoIo := {|
  file_image w k := w.(io_files) !! k;
  may_hold w k o := w.(io_files) !! k = o \/ o ∈ default [] (w.(io_found) !! k);
  unsynced w k := k ∈ w.(io_unsynced);
  halfway _ _ := False;
  storable _ := True;
  io_ok _ := True;
  written_lsn := io_written;
  durable_lsn := io_durable;
  extent := io_extent;
  appended w pos w' := w.(io_written) <= pos.(replay_from) /\ pos.(replay_from) <= pos.(record_lsn) /\
    w' = mkIo w.(io_files) w.(io_found) w.(io_unsynced) pos.(record_lsn) w.(io_durable)
|}.
Next Obligation. by intros w k. Qed.
Next Obligation. intros k w d _ [= ?] _. by left. Qed.
Next Obligation.
  intros k w d Hk. unfold io_extent. apply extent_ge. apply list_elem_of_fmap. exists (k, d). split; [done|]. by apply elem_of_map_to_list.
Qed.
Next Obligation. by intros f w n [= ->] _. Qed.
Next Obligation.
  cbn. intros k d w w' res _ _ [= <- <-]. cbn. split; [split_and!; [lia|lia| |done]|split].
  - intros f. unfold io_extent. apply extent_mono. intros k' Hk'. apply list_elem_of_fmap in Hk' as ([k1 d1] & -> & H). apply elem_of_map_to_list in H. cbn. apply list_elem_of_fmap.
    destruct (decide (k1 = k)) as [->|Hn]; [exists (k, d)|exists (k1, d1)]; (split; [done|]); apply elem_of_map_to_list; [apply lookup_insert_eq|by rewrite lookup_insert_ne].
  - intros k' Hn. rewrite !lookup_insert_ne by done. split_and!; [done|done|set_solver|done].
  - rewrite !lookup_insert_eq. split; [|intros _; split; [done|tauto]]. cbn. intros o. rewrite elem_of_cons. intros [<-|[->|H]]; auto.
Qed.
Next Obligation.
  cbn. intros fs w w' res _ [= <- <-]. cbn. split_and!; [lia|lia|done|done| |].
  - intros k. split_and!; [done| |set_solver|done]. intros d. rewrite map_lookup_imap. destruct (io_found w !! k) as [l|]; cbn; [|done]. case_bool_decide; [|done]. rewrite elem_of_nil. tauto.
  - intros _ k Hk _. split; [set_solver|]. intros d. rewrite map_lookup_imap. destruct (io_found w !! k) as [l|]; cbn; [|rewrite elem_of_nil; tauto]. rewrite bool_decide_eq_true_2 by done. rewrite elem_of_nil. tauto.
Qed.
Next Obligation. cbn. intros w w' res _ [= <- <-]. cbn. split_and!; [lia|lia|done|done|done|intros _; lia]. Qed.
Next Obligation. cbn. intros w pos w' _ (H1 & H2 & ->). cbn. split_and!; [lia|lia|lia|lia|lia|done|done|done]. Qed.

(** ** A run *)

(** One page on disk, a pool with room for one page. *)
Definition page_k : N * N := (7, 0).
Definition io_start : DemoIo := mkIo {[ page_k := [0] ]} ∅ ∅ 10 10.
Definition start : System := mkSystem (mkPool 1 true ∅ (mkPoolState ∅ [] 0 ∅ ∅ ∅) io_start)
  (fun k => if decide (k = page_k) then [mkVersion (mkPosition 0 10) [0] true] else []) (fun _ => 0) ∅ [].

Lemma start_booted : booted start.
Proof.
  split_and!; [done|by eexists _, _, _|done|done|done|]. intros k.
  assert (E : io_files io_start !! k = current (versions start k)).
  { cbn [versions start]. destruct (decide (k = page_k)) as [->|Hn]; [done|]. apply (lookup_singleton_ne (M := gmap (N * N))). congruence. }
  split; [split_and!|].
  - cbn. set_solver.
  - exact E.
  - intros o [Ho|Ho]; [by rewrite <- Ho|by apply elem_of_nil in Ho].
  - intros v. cbn. destruct (decide _); [|done]. intros [= <-]. cbn. lia.
  - cbn. destruct (decide _); [|by constructor]. apply Forall_singleton. cbn. split_and!; [lia|lia|done].
Qed.

(** The page is read and changed; its frame is stolen and written, not synced yet. *)
Definition s_load : System := mkSystem start.(pool) start.(versions) start.(guards) start.(jobs) [(page_k, [0])].
Definition p_insert : Pool := (insert_loaded page_k [0] s_load.(pool)).1.
Definition s_insert : System := hold 0 (with_pool p_insert s_load).
Definition position : WalPosition := mkPosition 10 20.
Definition io_log : DemoIo := mkIo {[ page_k := [0] ]} ∅ ∅ 20 10.
Definition f_changed : Frame :=
  match publish_mutation 5 position (set_data [1] (set_needs_fpi false (frame_of p_insert 0))) with Ok f => f | Err _ => frame_of p_insert 0 end.
Definition s_publish : System := add_version page_k (mkVersion position [1] true) (with_pool (with_world io_log (update_frame 0 (fun _ => f_changed) p_insert)) s_insert).
Definition s_drop : System := with_guards (set_guard 0 (s_publish.(guards) 0 - 1) s_publish.(guards)) (with_pool (drop_guard 0 s_publish.(pool)) s_publish).
Definition p_steal : Pool := (reserve_victim s_drop.(pool)).1.
Definition s_steal : System := with_jobs (<[0 := Steal Begun]> s_drop.(jobs)) (with_pool p_steal s_drop).
Definition io_forced : DemoIo := mkIo {[ page_k := [0] ]} ∅ ∅ 20 20.
Definition s_durable : System := with_jobs (durable_job <$> s_steal.(jobs)) (with_pool (with_world io_forced s_steal.(pool)) s_steal).
Definition io_torn : DemoIo := (store_write_page page_k [1] io_forced).1.
Definition s_write : System := with_jobs (<[0 := Steal Written]> s_durable.(jobs)) (with_pool (with_world io_torn s_durable.(pool)) s_durable).

Lemma demo_published : reachable s_publish.
Proof.
  exists start. split; [apply start_booted|]. apply (rtc_l _ _ s_load); [by apply (step_load start page_k [0])|].
  apply (rtc_l _ _ s_insert); [apply (step_insert s_load page_k [0] p_insert 0); [by left|left; by left|by vm_compute]|].
  apply rtc_once. apply (step_publish s_insert 0 5 [1] position io_log f_changed); [by vm_compute|exact I|split_and!; by vm_compute|by vm_compute].
Qed.
Lemma demo_written : reachable s_write /\ rtc step s_publish s_write.
Proof.
  assert (Hr : rtc step s_publish s_write); [|split; [|done]; destruct demo_published as (s0 & Hb & H0); exists s0; split; [done|by etrans]].
  apply (rtc_l _ _ s_drop); [by apply step_drop|]. apply (rtc_l _ _ s_steal); [apply step_steal; by vm_compute|].
  apply (rtc_l _ _ s_durable); [by apply (step_durable s_steal io_forced (Ok ()))|]. apply rtc_once. by apply (step_write s_durable 0 (Steal Durable) io_torn (Ok ())).
Qed.



(** The boundary of a checkpoint after the change covers what a crash during the write loses. *)
Lemma redo_covers_losses_witness : exists entries, dirty_page_table s_publish.(pool) = Ok entries /\
  exists n, Some [0] = v_image <$> last (take n (s_write.(versions) page_k)) /\ forall j v', (n <= j)%nat -> s_write.(versions) page_k !! j = Some v' -> redo_boundary entries (written_lsn s_publish.(pool).(world)) <= v'.(v_pos).(replay_from).
Proof.
  destruct (redo_covers_losses s_publish demo_published) as (entries & E & _ & H). exists entries. split; [exact E|].
  destruct (H s_write page_k (Some [0])) as (n & _ & H1 & H2); [apply demo_written|right; by left|]. exists n. split; [exact H1|exact H2].
Defined.



Lemma flush_errors_unreachable_witness : reachable s_write /\ s_write.(jobs) !! 0 = Some (Steal Written) /\ (s_write.(jobs) !! 0 = Some (Steal Synced) -> (finish_eviction 0 s_write.(pool)).2 = true).
Proof. split; [apply demo_written|]. split; [by vm_compute|]. apply (flush_errors_unreachable s_write 0 (proj1 demo_written)). Defined.

Lemma read_page_returns_last_witness : exists p g, read_page 2 page_k s_publish.(pool) = (p, Ok (Some g)) /\ read_data g p = [1].
Proof.
  destruct (read_page 2 page_k (pool s_publish)) as [p res] eqn:E. destruct (read_page_returns_last s_publish 0 page_k p res demo_published E) as (s' & _ & _ & _ & H).
  assert (Hres : match res with Ok (Some _) => true | _ => false end = true) by (change res with ((p, res).2); rewrite <- E; by vm_compute).
  destruct res as [[g|]|]; [|discriminate|discriminate]. exists p, g. split; [reflexivity|]. exact (H (mkVersion position [1] true) eq_refl).
Defined.

Lemma sweep_finds_victim_witness : pool_ok s_drop.(pool) /\ exists p o, reclaim_victim s_drop.(pool) = (p, o) /\ o <> NoVictim.
Proof.
  assert (Hok : pool_ok s_drop.(pool)) by (apply (sok_pool s_drop); apply (step_ok s_publish); [by apply step_drop|apply reachable_ok, demo_published]).
  split; [exact Hok|]. destruct (reclaim_victim (pool s_drop)) as [p o] eqn:E. exists p, o. split; [reflexivity|]. destruct (sweep_finds_victim (pool s_drop) p o Hok E) as [H _]. intros Ho.
  apply (proj1 H Ho page_k 0); [by vm_compute|]. split_and!; [by vm_compute|by vm_compute|right; by split; vm_compute].
Defined.

(** ** A read that is overtaken *)

(** Two threads find the page absent and read it; one of them inserts it, changes it, and the
    frame is stolen, written and evicted. *)
Definition t_load : System := mkSystem start.(pool) start.(versions) start.(guards) start.(jobs) [(page_k, [0]); (page_k, [0])].
Definition evict_run (s : System) : System :=
  let s := hold 0 (with_pool (insert_loaded page_k [0] s.(pool)).1 s) in
  let s := add_version page_k (mkVersion position [1] true) (with_pool (with_world io_log (update_frame 0 (fun _ => f_changed) s.(pool))) s) in
  let s := with_guards (set_guard 0 (s.(guards) 0 - 1) s.(guards)) (with_pool (drop_guard 0 s.(pool)) s) in
  let s := with_jobs (<[0 := Steal Begun]> s.(jobs)) (with_pool (reserve_victim s.(pool)).1 s) in
  let s := with_jobs (durable_job <$> s.(jobs)) (with_pool (with_world io_forced s.(pool)) s) in
  let s := with_jobs (<[0 := Steal Written]> s.(jobs)) (with_pool (with_world io_torn s.(pool)) s) in
  let s := with_jobs (map_imap (fun r j => Some (synced_job s [7] r j)) s.(jobs)) (with_pool (with_world (io_sync [7] io_torn) s.(pool)) s) in
  with_jobs (delete 0 s.(jobs)) (with_pool (finish_eviction 0 s.(pool)).1 s).
Definition overtaken : System := evict_run t_load.

Lemma overtaken_reachable : reachable overtaken.
Proof.
  exists start. split; [apply start_booted|]. eapply rtc_l; [by apply (step_load start page_k [0])|]. eapply rtc_l; [by apply (step_load s_load page_k [0])|]. unfold overtaken, evict_run.
  eapply rtc_l; [apply (step_insert t_load page_k [0] p_insert 0); [by left|left; by left|by vm_compute]|].
  eapply rtc_l; [eapply (step_publish _ 0 5 [1] position io_log f_changed); [by vm_compute|exact I|split_and!; by vm_compute|by vm_compute]|].
  eapply rtc_l; [by apply (step_drop _ 0)|]. eapply rtc_l; [eapply (step_steal _ _ 0); by vm_compute|].
  eapply rtc_l; [by apply (step_durable _ io_forced (Ok ()))|]. eapply rtc_l; [eapply (step_write _ 0 (Steal Durable) io_torn (Ok ())); by vm_compute|].
  eapply rtc_l; [by apply (step_sync _ [7] (io_sync [7] io_torn) (Ok ()))|]. apply rtc_once. eapply (step_evict _ 0); by vm_compute.
Qed.

(** C38: A read that is overtaken brings an old page back.  A thread that found a page absent and
    read it inserts it after another thread loaded, changed and published the page and its
    frame was written back and evicted: the pool then holds the old page, clean, while the
    file and the log have the published change, and every later reader gets the old page. *)
Theorem stale_load_undoes_write : exists s p r, reachable s /\ (page_k, [0]) ∈ s.(loads) /\
  last (s.(versions) page_k) = Some (mkVersion position [1] true) /\ file_image s.(pool).(world) page_k = Some [1] /\
  insert_loaded page_k [0] s.(pool) = (p, Ok (Some r)) /\ (frame_of p r).(f_dirty) = false /\
  exists p' g, read_page 2 page_k (drop_guard r p) = (p', Ok (Some g)) /\ read_data g p' = [0].
Proof.
  exists overtaken. eexists _, _. split; [apply overtaken_reachable|]. split; [by left|]. split; [by vm_compute|]. split; [by vm_compute|]. split; [by vm_compute|]. split; [by vm_compute|].
  eexists _, _. split; by vm_compute.
Qed.

(** ** A page torn after a fuzzy checkpoint *)

(** Two new pages and a row in the first; a checkpoint that finds the second one latched; the
    first page changed again.  The log holds the records of these changes. *)
Definition page_m : N * N := (8, 0).
Definition torn_log : list (Lsn * @WalRecord unit) :=
  [(10, mkWalRecord 20 3 (HeapInit 7 0)); (20, mkWalRecord 30 3 (HeapInit 8 0)); (30, mkWalRecord 40 3 (HeapInsert 7 0 0 [2; 7]));
   (40, mkWalRecord 50 4 (FullPageImage 7 0 (redo_all (CatalogChangeSet := unit) demo_crc [(20, HeapInit 7 0); (40, HeapInsert 7 0 0 [2; 7]); (50, HeapInsert 7 0 1 [2; 8])] zeroed).1))].
Definition replay_from_redo (boundary : N) (ps : gmap (N * N) bytes) :=
  replay_all (RecoveryOperations0 := quiet) demo_crc (fun _ _ _ => Err EmptyString) (fun _ => true)
    (mkBounds boundary boundary 40) (filter (fun e => boundary <= e.1) torn_log) (mkRedoState ps (registry_new, ())).
Definition k_image : bytes := (redo_all (CatalogChangeSet := unit) demo_crc [(20, HeapInit 7 0); (40, HeapInsert 7 0 0 [2; 7])] zeroed).1.

(** The pool's part: the images the pool carries do not matter to it. *)
Definition changed_by (from to : N) (d : bytes) (g : PageWriteGuard) : SE (@Pool DemoIo) DbError PageWriteGuard :=
  _ ← take_needs_fpi g;
  _ ← (fun p => (with_world (mkIo p.(world).(io_files) p.(world).(io_found) p.(world).(io_unsynced) to p.(world).(io_durable)) (write_data g d p), Ok ()));
  publish_position g (mkPosition from to).
Definition fuzzy_run : SE (@Pool DemoIo) DbError (CheckpointBatchStats * list DirtyPageEntry * bool) :=
  k ← new_page 2 7 3;
  _ ← changed_by 10 20 [20] k;
  m ← new_page 2 8 3;
  _ ← changed_by 20 30 [30] m;
  _ ← changed_by 30 40 [40] k;
  keys ← gets checkpoint_dirty_keys;
  stats ← flush_checkpoint_batch (fun r => r =? m.(wg_frame)) keys;
  entries ← (fun p => (p, dirty_page_table p));
  whole ← take_needs_fpi k;
  mret (stats, entries, whole).

Lemma replay_outcome boundary ps r : (replay_from_redo boundary ps).2 = r -> exists s, replay_from_redo boundary ps = (s, r).
Proof. intros <-. exists (replay_from_redo boundary ps).1. by destruct (replay_from_redo boundary ps). Qed.

