(* ===== verification/PageFile.v ===== *)
(** * Page files (src/crates/storage/src/heap.rs)

    [HeapPageStore]: one file per generation of a heap or an index, page [n] at byte offset
    [n * PAGE_SIZE], compressed pages in an envelope padded to the slot.  The operating
    system is a directory of files and a list of answers: every call takes the next one and
    works, or fails after part of a write.  A handle also records what a crash may find
    instead of the slots written since the last sync. *)

From S2P Require Import Prelude Errors CheckedBytes ByteArray Page Compress.
Local Open Scope N_scope.

(** ** File ids and names *)

Definition INDEX_FILE_BIT : N := 2147483648.
Definition SECONDARY_INDEX_BITS : N := 3221225472.
Definition FS_BLOCK_SIZE : N := 4096.

Definition heap_file_id (storage_id : N) : N := storage_id.
Definition primary_index_file_id (storage_id : N) : N := N.lor storage_id INDEX_FILE_BIT.
Definition secondary_index_file_id (storage_id : N) : N := N.lor storage_id SECONDARY_INDEX_BITS.

(** A name as its stem and its extension. *)
Abbreviation FileName := (string * string)%type.
Definition path (file_id : N) : FileName :=
  if N.land file_id SECONDARY_INDEX_BITS =? SECONDARY_INDEX_BITS then (pretty (N.ldiff file_id SECONDARY_INDEX_BITS), "sidx")
  else if negb (N.land file_id INDEX_FILE_BIT =? 0) then (pretty (N.ldiff file_id INDEX_FILE_BIT), "idx")
  else (pretty file_id, "heap").

(** [u32::from_str]. *)
Definition digit (c : Ascii.ascii) : option N :=
  let n := Ascii.N_of_ascii c in if (48 <=? n) && (n <=? 57) then Some (n - 48) else None.
Fixpoint parse_digits (s : string) (n : N) : option N :=
  match s with
  | EmptyString => Some n
  | String c s => d ← digit c; if 10 * n + d <=? U32_MAX then parse_digits s (10 * n + d) else None
  end.
Definition parse_u32 (s : string) : option N :=
  match s with
  | EmptyString => None
  | String c rest =>
      if Ascii.N_of_ascii c =? 43 then match rest with EmptyString => None | _ => parse_digits rest 0 end else parse_digits s 0
  end.
Definition file_id_of (name : FileName) : option N :=
  storage_id ← parse_u32 name.1;
  if decide (name.2 = "heap") then Some (heap_file_id storage_id)
  else if decide (name.2 = "idx") then Some (primary_index_file_id storage_id)
  else if decide (name.2 = "sidx") then Some (secondary_index_file_id storage_id)
  else None.

(** ** The operating system *)

Inductive Errno : Type := OPNOTSUPP | INVAL | OtherErrno (text : string).
Definition errno_text (e : Errno) : string :=
  match e with OPNOTSUPP => "Operation not supported" | INVAL => "Invalid argument" | OtherErrno m => m end.
Inductive Answer : Type := Works | Fails (error : Errno) (written : N).

(** [lost]: what a crash may find of a page instead of its slot; [broken]: pages whose last
    write failed halfway. *)
Record Handle : Type := mkHandle { lost : list (N * option bytes); broken : gset N }.

Record HeapPageStore : Type := mkStore {
  root : string;
  dir : gmap FileName bytes;
  handles : gmap N Handle;
  compression : CompressionRegistry;
  punch_unsupported : bool;
  answers : list Answer
}.
Definition with_answers (l : list Answer) (s : HeapPageStore) : HeapPageStore :=
  mkStore s.(root) s.(dir) s.(handles) s.(compression) s.(punch_unsupported) l.
Definition with_files (d : gmap FileName bytes) (h : gmap N Handle) (s : HeapPageStore) : HeapPageStore :=
  mkStore s.(root) d h s.(compression) s.(punch_unsupported) s.(answers).

Definition ask (s : HeapPageStore) : HeapPageStore * Answer :=
  match s.(answers) with [] => (s, Works) | a :: rest => (with_answers rest s, a) end.
Definition display (s : HeapPageStore) (name : FileName) : string := s.(root) +:+ "/" +:+ name.1 +:+ "." +:+ name.2.
Definition contents (s : HeapPageStore) (file_id : N) : bytes := default [] (s.(dir) !! path file_id).
Definition page_offset (page_num : N) : N := page_num * PAGE_SIZE.

(** [write_all_at]: a file grows by zeros up to where a write starts. *)
Definition zeros (n : N) : bytes := replicate (N.to_nat n) 0.
Definition write_all_at (o : N) (b : bytes) (c : bytes) : bytes :=
  take (N.to_nat o) c ++ zeros (o - len c) ++ b ++ drop (N.to_nat (o + len b)) c.
(** The page that was written to a slot: none behind the end or in a hole. *)
Definition slot_at (c : bytes) (page_num : N) : option bytes :=
  let b := sub c (page_offset page_num) PAGE_SIZE in
  if (len c <? page_offset page_num + PAGE_SIZE) || bool_decide (b = zeros PAGE_SIZE) then None else Some b.

Section PageFile.
Context (crc32 : bytes -> N).
Context (zstd_compress : option bytes -> Z -> bytes -> result string bytes).
Context (zstd_decompress : option bytes -> bytes -> N -> result string bytes).
Abbreviation SM := (SE HeapPageStore DbError).

Definition open_with_compression (where_ : string) (d : gmap FileName bytes) (registry : CompressionRegistry) (l : list Answer) : HeapPageStore :=
  mkStore where_ d ∅ registry false l.

Definition fsync_dir : SM unit := fun s =>
  match ask s with
  | (s, Works) => (s, Ok ())
  | (s, Fails e _) => (s, Err (db_io ("failed to fsync heap directory " +:+ s.(root) +:+ ": " +:+ errno_text e)))
  end.

(** Whether there is a file, opened or created for it. *)
Definition handle (file_id : N) (create : bool) : SM bool := fun s =>
  match s.(handles) !! file_id with
  | Some _ => (s, Ok true)
  | None =>
      match ask s with
      | (s, Fails e _) => (s, Err (db_io ("failed to open heap file " +:+ display s (path file_id) +:+ ": " +:+ errno_text e)))
      | (s, Works) =>
          if create || bool_decide (is_Some (s.(dir) !! path file_id))
          then (with_files (<[path file_id := contents s file_id]> s.(dir)) (<[file_id := mkHandle [] ∅]> s.(handles)) s, Ok true)
          else (s, Ok false)
      end
  end.

Definition page_name (file_id page_num : N) : string := pretty file_id +:+ "/" +:+ pretty page_num.
Definition read_slot (file_id page_num : N) : SM (option bytes) :=
  found ← handle file_id false;
  if negb found then mret None
  else fun s =>
    match ask s with
    | (s, Fails e _) => (s, Err (db_io ("failed to read heap page " +:+ page_name file_id page_num +:+ ": " +:+ errno_text e)))
    | (s, Works) =>
        let c := contents s file_id in
        if page_offset page_num + PAGE_SIZE <=? len c then (s, Ok (Some (sub c (page_offset page_num) PAGE_SIZE))) else (s, Ok None)
    end.

Definition decode_slot (file_id page_num : N) (lenient : bool) : SM (option bytes) :=
  slot ← read_slot file_id page_num;
  match slot with
  | None => mret None
  | Some buf =>
      registry ← gets compression;
      match decompress_page crc32 zstd_decompress registry buf PAGE_SIZE with
      | Ok (Some image) =>
          if negb (len image =? PAGE_SIZE)
          then lift (Err (db_storage InternalError ("decompressed page has " +:+ pretty (len image) +:+ " bytes, expected " +:+ pretty PAGE_SIZE)))
          else mret (Some image)
      | Ok None => mret (Some buf)
      | Err e => if lenient then mret None else lift (Err e)
      end
  end.
Definition load_page (file_id page_num : N) : SM (option bytes) := decode_slot file_id page_num false.
Definition load_page_lenient (file_id page_num : N) : SM (option bytes) := decode_slot file_id page_num true.

Definition set_contents (file_id : N) (c : bytes) (h : Handle) (s : HeapPageStore) : HeapPageStore :=
  with_files (<[path file_id := c]> s.(dir)) (<[file_id := h]> s.(handles)) s.
Definition opened (s : HeapPageStore) (file_id : N) : Handle := default (mkHandle [] ∅) (s.(handles) !! file_id).
(** What is found of a slot that is about to be written, if the write does not become durable. *)
Definition losing (c : bytes) (page_num : N) (h : Handle) : list (N * option bytes) :=
  if bool_decide (page_num ∈ h.(broken)) then h.(lost) else (page_num, slot_at c page_num) :: h.(lost).

Definition write_slot (file_id page_num : N) (slot : bytes) : SM unit := fun s =>
  let h := opened s file_id in
  let c := contents s file_id in
  match ask s with
  | (s, Works) =>
      (set_contents file_id (write_all_at (page_offset page_num) slot c) (mkHandle (losing c page_num h) (h.(broken) ∖ {[page_num]})) s, Ok ())
  | (s, Fails e n) =>
      (set_contents file_id (write_all_at (page_offset page_num) (take (N.to_nat n) slot) c)
         (mkHandle (losing c page_num h) ({[page_num]} ∪ h.(broken))) s,
       Err (db_io ("failed to write heap page " +:+ page_name file_id page_num +:+ ": " +:+ errno_text e)))
  end.

(** Never fails: the bytes that stay are not read. *)
Definition punch_hole (file_id offset n : N) : SM unit := fun s =>
  if s.(punch_unsupported) then (s, Ok ())
  else
    match ask s with
    | (s, Works) => (set_contents file_id (blit (contents s file_id) offset (zeros n)) (opened s file_id) s, Ok ())
    | (s, Fails (OPNOTSUPP | INVAL) _) => (mkStore s.(root) s.(dir) s.(handles) s.(compression) true s.(answers), Ok ())
    | (s, Fails (OtherErrno _) _) => (s, Ok ())
    end.

Definition div_ceil (a b : N) : N := (a + b - 1) / b.
Definition write_page (file_id page_num : N) (data : bytes) : SM unit :=
  found ← handle file_id true;
  if negb found then lift (Err (db_internal "heap file creation returned no handle"))
  else
    registry ← gets compression;
    envelope ← lift (compress_page_at_rest crc32 zstd_compress registry file_id data);
    match envelope with
    | Some e =>
        let used := div_ceil (len e) FS_BLOCK_SIZE * FS_BLOCK_SIZE in
        if used <? PAGE_SIZE
        then
          _ ← write_slot file_id page_num (e ++ zeros (PAGE_SIZE - len e));
          punch_hole file_id (page_offset page_num + used) (PAGE_SIZE - used)
        else write_slot file_id page_num data
    | None => write_slot file_id page_num data
    end.

(** The length is cast to [u32]. *)
Definition page_count (file_id : N) : SM N :=
  found ← handle file_id false;
  if negb found then mret 0
  else fun s =>
    match ask s with
    | (s, Fails e _) => (s, Err (db_io ("failed to stat file " +:+ pretty file_id +:+ ": " +:+ errno_text e)))
    | (s, Works) => (s, Ok (len (contents s file_id) / PAGE_SIZE mod 4294967296))
    end.

Definition sync_file (m : string) : SM unit := fun s =>
  match ask s with
  | (s, Works) => (s, Ok ())
  | (s, Fails e _) => (s, Err (db_io (m +:+ ": " +:+ errno_text e)))
  end.
(** The slots of these files are now what a crash finds. *)
Definition settle (file_ids : list N) (s : HeapPageStore) : HeapPageStore :=
  with_files s.(dir) (map_imap (fun f h => Some (if bool_decide (f ∈ file_ids) then mkHandle [] h.(broken) else h)) s.(handles)) s.
Definition sync_all : SM unit :=
  ids ← gets (fun s => (map_to_list s.(handles)).*1);
  _ ← for_each ids (fun _ => sync_file "failed to fsync heap file");
  _ ← fsync_dir;
  modify (settle ids).
Definition sync_files (file_ids : list N) : SM unit :=
  ids ← gets (fun s => filter (fun f => is_Some (s.(handles) !! f)) file_ids);
  _ ← for_each ids (fun f => sync_file ("failed to fsync heap file " +:+ pretty f));
  _ ← fsync_dir;
  modify (settle ids).

Definition remove_file (file_id : N) : SM unit := fun s =>
  let s := with_files s.(dir) (delete file_id s.(handles)) s in
  match ask s with
  | (s, Fails e _) => (s, Err (db_io ("failed to remove heap file " +:+ display s (path file_id) +:+ ": " +:+ errno_text e)))
  | (s, Works) =>
      if bool_decide (is_Some (s.(dir) !! path file_id))
      then fsync_dir (with_files (delete (path file_id) s.(dir)) s.(handles) s)
      else (s, Ok ())
  end.

Definition list_file_ids : SM (list N) := fun s =>
  match ask s with
  | (s, Fails e _) => (s, Err (db_io ("failed to read heap directory " +:+ s.(root) +:+ ": " +:+ errno_text e)))
  | (s, Works) => (s, Ok (merge_sort N.le (remove_dups (omap file_id_of (map_to_list s.(dir)).*1))))
  end.
End PageFile.

(** ** Names *)

Lemma pow2_set f : negb (N.land f INDEX_FILE_BIT =? 0) = true -> f = N.lor (N.ldiff f INDEX_FILE_BIT) INDEX_FILE_BIT.
Proof.
  change INDEX_FILE_BIT with (2 ^ 31). intros H%negb_true_iff%N.eqb_neq. destruct (N.testbit f 31) eqn:E.
  - apply N.bits_inj. intros m. rewrite N.lor_spec, N.ldiff_spec, N.pow2_bits_eqb. destruct (N.eqb_spec 31 m) as [<-|]; [by rewrite E|]. by rewrite andb_true_r, orb_false_r.
  - destruct H. apply N.bits_inj. intros m. rewrite N.land_spec, N.bits_0, N.pow2_bits_eqb. destruct (N.eqb_spec 31 m) as [<-|]; [by rewrite E|]. apply andb_false_r.
Qed.
Lemma bits_set f b : N.land f b = b -> f = N.lor (N.ldiff f b) b.
Proof.
  intros H. apply N.bits_inj. intros m. rewrite N.lor_spec, N.ldiff_spec. assert (E : N.testbit (N.land f b) m = N.testbit b m) by (by rewrite H). rewrite N.land_spec in E.
  destruct (N.testbit f m), (N.testbit b m); done.
Qed.

(** The file of an id: the stem is a number, which the extension makes the id again. *)
Lemma path_inv f : exists n, (path f).1 = pretty n /\ n <= f /\
  ((path f).2 = "heap" /\ f = heap_file_id n \/ (path f).2 = "idx" /\ f = primary_index_file_id n \/ (path f).2 = "sidx" /\ f = secondary_index_file_id n).
Proof.
  assert (Hle : forall b, N.ldiff f b <= f) by (intros b; apply N.ldiff_le_l).
  unfold path. destruct (N.eqb_spec (N.land f SECONDARY_INDEX_BITS) SECONDARY_INDEX_BITS) as [E|_]; [eexists; split_and!; [done|auto|]; right; right; split; [done|by apply bits_set]|].
  destruct (negb _) eqn:E; [eexists; split_and!; [done|auto|]; right; left; split; [done|by apply pow2_set]|]. eexists. split_and!; [done|lia|]. by left.
Qed.
Global Instance path_inj : Inj (=) (=) path.
Proof.
  intros f g E. destruct (path_inv f) as (n & E1 & _ & Hf), (path_inv g) as (m & E2 & _ & Hg). rewrite E in E1. rewrite E1 in E2. apply (inj pretty) in E2 as <-.
  rewrite E in Hf. destruct Hf as [[A ->]|[[A ->]|[A ->]]], Hg as [[B ->]|[[B ->]|[B ->]]]; congruence.
Qed.

Lemma digit_pretty x : x < 10 -> digit (pretty_N_char x) = Some x.
Proof. intros Hx. assert (x = 0 \/ x = 1 \/ x = 2 \/ x = 3 \/ x = 4 \/ x = 5 \/ x = 6 \/ x = 7 \/ x = 8 \/ x = 9) as H by lia. by repeat destruct H as [->|H]; [..|rewrite H]. Qed.
Lemma parse_go x s : x <= U32_MAX -> parse_digits (pretty_N_go x s) 0 = parse_digits s x.
Proof.
  revert s. induction (N.lt_wf_0 x) as [x _ IH]. intros s Hx. destruct (decide (x = 0)) as [->|Hn]; [by rewrite pretty_N_go_0|]. rewrite pretty_N_go_step by lia.
  pose proof (N.div_mod' x 10) as Hd. pose proof (N.mod_lt x 10 ltac:(done)) as Hm. assert (x / 10 < x) by (apply N.div_lt; lia). rewrite IH by lia. cbn [parse_digits].
  rewrite digit_pretty by done. cbn [mbind option_bind]. rewrite <- Hd. by rewrite (proj2 (N.leb_le x U32_MAX) Hx).
Qed.
Lemma parse_pretty n : n <= U32_MAX -> parse_u32 (pretty n) = Some n.
Proof.
  intros Hn. destruct (decide (n = 0)) as [->|H0]; [done|]. assert (E : parse_digits (pretty n) 0 = Some n).
  { unfold pretty, pretty_N. rewrite decide_False by done. by rewrite parse_go. }
  unfold parse_u32. destruct (pretty n) as [|c rest]; [cbn in E; congruence|]. destruct (N.eqb_spec (Ascii.N_of_ascii c) 43) as [Ec|]; [|done]. cbn [parse_digits] in E. unfold digit in E. rewrite Ec in E. done.
Qed.
Lemma file_id_of_path f : f <= U32_MAX -> file_id_of (path f) = Some f.
Proof.
  intros Hf. destruct (path_inv f) as (n & E1 & Hle & H). unfold file_id_of. rewrite E1, parse_pretty by lia. cbn [mbind option_bind].
  destruct H as [[-> ->]|[[-> ->]|[-> ->]]]; done.
Qed.

(** ** Slots *)

Lemma len_zeros n : len (zeros n) = n.
Proof. unfold len, zeros. rewrite length_replicate. lia. Qed.
Lemma sub_zeros n o m : o + m <= n -> sub (zeros n) o m = zeros m.
Proof. intros H. unfold sub, zeros. rewrite drop_replicate, take_replicate. f_equal. lia. Qed.
Lemma len_write_all_at o b c : len (write_all_at o b c) = N.max (len c) (o + len b).
Proof. unfold write_all_at. rewrite !len_app, len_take, len_drop, len_zeros. lia. Qed.
Lemma sub_prefix o b c : sub (write_all_at o b c) o (len b) = b.
Proof.
  unfold write_all_at. rewrite app_assoc. assert (E : len (take (N.to_nat o) c ++ zeros (o - len c)) = o) by (rewrite len_app, len_take, len_zeros; lia).
  rewrite sub_app_r by lia. rewrite E, N.sub_diag, sub_app_l by lia. by apply sub_all.
Qed.
Lemma sub_write_before o b c p n : p + n <= o -> sub (write_all_at o b c) p n = sub (c ++ zeros (o - len c)) p n.
Proof.
  intros H. unfold write_all_at. rewrite app_assoc. assert (E : len (take (N.to_nat o) c ++ zeros (o - len c)) = N.max o (N.min o (len c))) by (rewrite len_app, len_take, len_zeros; lia).
  rewrite sub_app_l by lia. destruct (N.le_ge_cases o (len c)) as [Hc|Hc].
  - replace (o - len c) with 0 by lia. change (zeros 0) with (@nil N). rewrite !app_nil_r. by rewrite sub_take by lia.
  - unfold len in Hc. by rewrite take_ge by lia.
Qed.
Lemma sub_write_after o b c p n : o + len b <= p -> sub (write_all_at o b c) p n = sub c p n.
Proof.
  intros H. unfold write_all_at. rewrite !app_assoc. set (a := (take _ _ ++ _) ++ b). assert (E : len a = o + len b) by (unfold a; rewrite !len_app, len_take, len_zeros; lia).
  rewrite sub_app_r by lia. rewrite E, sub_drop. f_equal. lia.
Qed.

Lemma offset_split (c : bytes) : len c = page_offset (len c / PAGE_SIZE) + len c mod PAGE_SIZE /\ len c mod PAGE_SIZE < PAGE_SIZE.
Proof. unfold page_offset. pose proof (N.div_mod' (len c) PAGE_SIZE). pose proof (N.mod_lt (len c) PAGE_SIZE ltac:(done)). lia. Qed.
Lemma offset_lt n m : n < m -> page_offset n + PAGE_SIZE <= page_offset m.
Proof. unfold page_offset, PAGE_SIZE. lia. Qed.
Lemma offset_below n (c : bytes) : page_offset n + PAGE_SIZE <= len c <-> n < len c / PAGE_SIZE.
Proof.
  unfold page_offset. pose proof (N.div_mod' (len c) PAGE_SIZE). pose proof (N.mod_lt (len c) PAGE_SIZE ltac:(done)). revert H H0. generalize (len c / PAGE_SIZE), (len c mod PAGE_SIZE). unfold PAGE_SIZE. lia.
Qed.

(** Writing a slot leaves the others: only the one a short file ends in may change. *)
Lemma slot_other n b c m : len b <= PAGE_SIZE -> m <> n -> len c mod PAGE_SIZE = 0 \/ m <> len c / PAGE_SIZE ->
  slot_at (write_all_at (page_offset n) b c) m = slot_at c m.
Proof.
  intros Hb Hne Hal. assert (HP : 0 < PAGE_SIZE) by done. unfold slot_at. rewrite len_write_all_at. destruct (offset_split c) as [Hc Hmod]. destruct (N.lt_ge_cases m n) as [Hlt|Hge].
  - pose proof (offset_lt m n Hlt) as Ho. rewrite sub_write_before by lia. destruct (N.le_gt_cases (page_offset m + PAGE_SIZE) (len c)) as [Hin|Hout].
    + rewrite sub_app_l by lia. rewrite !(proj2 (N.ltb_ge _ _)) by lia. done.
    + assert (Hm : len c <= page_offset m).
      { assert (len c / PAGE_SIZE <= m) by (apply N.nlt_ge; intros ?%offset_below; lia). destruct (decide (m = len c / PAGE_SIZE)) as [->|]; [destruct Hal; [lia|done]|]. pose proof (offset_lt (len c / PAGE_SIZE) m ltac:(lia)). lia. }
      rewrite sub_app_r, sub_zeros by lia. rewrite bool_decide_eq_true_2 by done. rewrite orb_true_r. by rewrite (proj2 (N.ltb_lt _ _)) by lia.
  - pose proof (offset_lt n m ltac:(lia)) as Ho. rewrite sub_write_after by lia.
    destruct (N.ltb_spec (N.max (len c) (page_offset n + len b)) (page_offset m + PAGE_SIZE)), (N.ltb_spec (len c) (page_offset m + PAGE_SIZE)); (done || lia).
Qed.
Lemma slot_same n b c : len b = PAGE_SIZE -> b <> zeros PAGE_SIZE -> slot_at (write_all_at (page_offset n) b c) n = Some b.
Proof.
  intros Hb Hn. unfold slot_at. rewrite len_write_all_at, <- Hb, sub_prefix. rewrite (proj2 (N.ltb_ge _ _)) by lia. rewrite Hb. by rewrite bool_decide_eq_false_2.
Qed.
Lemma slot_at_below c n b : slot_at c n = Some b -> n < len c / PAGE_SIZE /\ len b = PAGE_SIZE.
Proof.
  unfold slot_at. destruct (N.ltb_spec (len c) (page_offset n + PAGE_SIZE)) as [|Hl]; [done|]. cbn. case_bool_decide; [done|]. intros [= <-]. split; [by apply offset_below|]. rewrite len_sub. lia.
Qed.

(** The zeros of a hole are there already. *)
Lemma punch_zeros n e c used : len e <= used -> used <= PAGE_SIZE ->
  let c' := write_all_at (page_offset n) (e ++ zeros (PAGE_SIZE - len e)) c in blit c' (page_offset n + used) (zeros (PAGE_SIZE - used)) = c'.
Proof.
  intros He Hu c'. assert (Hlen : len (e ++ zeros (PAGE_SIZE - len e)) = PAGE_SIZE) by (rewrite len_app, len_zeros; lia).
  assert (E : zeros (PAGE_SIZE - used) = sub c' (page_offset n + used) (PAGE_SIZE - used)).
  { unfold c'. rewrite <- (sub_sub _ (page_offset n) PAGE_SIZE) by lia. rewrite <- Hlen at 3. rewrite sub_prefix, sub_app_r, sub_zeros by lia. done. }
  rewrite E. apply blit_sub. unfold c'. rewrite len_write_all_at. lia.
Qed.

(** ** The store *)

Section Store.
Context (crc32 : bytes -> N).
Context (zstd_compress : option bytes -> Z -> bytes -> result string bytes).
Context (zstd_decompress : option bytes -> bytes -> N -> result string bytes).
Abbreviation load := (load_page crc32 zstd_decompress).
Abbreviation write := (write_page crc32 zstd_compress).

(** What a slot reads as. *)
Definition decoded (r : CompressionRegistry) (b : bytes) : option bytes :=
  match decompress_page crc32 zstd_decompress r b PAGE_SIZE with Ok (Some image) => Some image | Ok None => Some b | Err _ => None end.
(** The pages a slot keeps as they are: not taken for an envelope, not for a hole. *)
Definition storable_page (d : bytes) : Prop := len d = PAGE_SIZE /\ is_envelope d = false /\ d <> zeros PAGE_SIZE.

(** A short file ends in a page whose last write failed. *)
Definition aligned (s : HeapPageStore) (f : N) : Prop :=
  len (contents s f) mod PAGE_SIZE = 0 \/ len (contents s f) / PAGE_SIZE ∈ (opened s f).(broken).
Definition store_ok (s : HeapPageStore) : Prop := registry_ok s.(compression) /\ forall f, aligned s f.

Definition page_of (s : HeapPageStore) (f n : N) : option bytes :=
  if bool_decide (n ∈ (opened s f).(broken)) then None else slot_at (contents s f) n ≫= decoded s.(compression).
(** What a crash may find: nothing, or a page. *)
Definition finds (r : CompressionRegistry) (raw : option bytes) (o : option bytes) : Prop :=
  match raw with None => o = None | Some b => exists d, decoded r b = Some d /\ o = Some d end.
Definition may_find (s : HeapPageStore) (f n : N) (o : option bytes) : Prop :=
  (n ∉ (opened s f).(broken) /\ finds s.(compression) (slot_at (contents s f) n) o) \/
  exists raw, (n, raw) ∈ (opened s f).(lost) /\ finds s.(compression) raw o.

(** The same files, seen through whatever handles are open. *)
Definition same_file (s s' : HeapPageStore) (f : N) : Prop := contents s' f = contents s f /\ opened s' f = opened s f.
Definition same_files (s s' : HeapPageStore) : Prop := s'.(compression) = s.(compression) /\ forall f, same_file s s' f.

Lemma ask_same s s' a : ask s = (s', a) -> same_files s s' /\ s'.(handles) = s.(handles) /\ s'.(dir) = s.(dir) /\ s'.(punch_unsupported) = s.(punch_unsupported).
Proof. unfold ask. destruct (answers s); intros [= <- <-]; done. Qed.
Lemma same_files_trans s1 s2 s3 : same_files s1 s2 -> same_files s2 s3 -> same_files s1 s3.
Proof. intros [A1 A2] [B1 B2]. split; [congruence|]. intros f. destruct (A2 f), (B2 f). split; congruence. Qed.
Lemma handle_same f create s s' res : handle f create s = (s', res) -> same_files s s' /\ (res = Ok true -> is_Some (s'.(handles) !! f)) /\ (create = true -> res <> Ok false).
Proof.
  unfold handle. destruct (handles s !! f) as [h|] eqn:Eh; [intros [= <- <-]; split_and!; [done|by eexists|done]|]. destruct (ask s) as [s1 a] eqn:Ea. destruct (ask_same _ _ _ Ea) as ([Hc H] & Eh1 & Ed1 & _).
  destruct a as [|e n]; [|by intros [= <- <-]]. destruct (create || _) eqn:Ec; [|intros [= <- <-]; split_and!; [done|done|by intros ->]]. intros [= <- <-]. split_and!; [|intros _; cbn; by rewrite lookup_insert_eq; eexists|done].
  split; [done|]. intros g. destruct (H g) as [H1 H2]. unfold same_file, contents, opened in *. cbn. split.
  - destruct (decide (path g = path f)) as [E|Hne]; [|by rewrite lookup_insert_ne by done]. rewrite E, lookup_insert_eq. cbn. by rewrite E in H1.
  - destruct (decide (g = f)) as [->|Hne]; [by rewrite lookup_insert_eq, Eh|by rewrite lookup_insert_ne by done].
Qed.

(** A page that is loaded is what its slot reads as. *)
Lemma load_page_inv f n s s' d : load f n s = (s', Ok (Some d)) ->
  page_offset n + PAGE_SIZE <= len (contents s f) /\ decoded s.(compression) (sub (contents s f) (page_offset n) PAGE_SIZE) = Some d.
Proof.
  unfold load_page, decode_slot, read_slot. unfold mbind, se_bind. destruct (handle f false s) as [s1 [[]|]] eqn:Eh; [|done|done]. cbn [negb].
  destruct (handle_same _ _ _ _ _ Eh) as ([Hr Hs] & _ & _). destruct (ask s1) as [s2 a] eqn:Ea. destruct (ask_same _ _ _ Ea) as ([Hr2 Hs2] & _). destruct a; [|done].
  destruct (Hs f) as [Hc _], (Hs2 f) as [Hc2 _]. destruct (N.leb_spec (page_offset n + PAGE_SIZE) (len (contents s2 f))) as [Hl|]; [|done]. unfold gets. cbn. rewrite Hc2, Hc in Hl. split; [done|].
  rewrite Hc2, Hc, Hr2, Hr in H. revert H. unfold decoded. destruct (decompress_page _ _ _ _ _) as [[image|]|e]; cbn.
  - destruct (negb _); [done|]. by intros [= _ <-].
  - by intros [= _ <-].
  - done.
Qed.

(** What a write does to its file and to the others. *)
Definition rewritten (f n : N) (b : bytes) (bad : gset N) (s s' : HeapPageStore) : Prop :=
  contents s' f = write_all_at (page_offset n) b (contents s f) /\ opened s' f = mkHandle (losing (contents s f) n (opened s f)) bad.

Lemma set_contents_file f c h s : contents (set_contents f c h s) f = c /\ opened (set_contents f c h s) f = h.
Proof. unfold contents, opened. cbn. by rewrite !lookup_insert_eq. Qed.
Lemma set_contents_other f c h s g : g <> f -> same_file s (set_contents f c h s) g.
Proof. intros Hne. unfold same_file, contents, opened. cbn. rewrite !lookup_insert_ne by (try done; by intros ?%(inj path)). done. Qed.

Lemma write_slot_inv f n slot s s' res : write_slot f n slot s = (s', res) ->
  s'.(compression) = s.(compression) /\ (forall g, g <> f -> same_file s s' g) /\
  (rewritten f n slot ((opened s f).(broken) ∖ {[n]}) s s' /\ res = Ok () \/
   exists k, rewritten f n (take k slot) ({[n]} ∪ (opened s f).(broken)) s s' /\ is_ok res = false).
Proof.
  unfold write_slot. destruct (ask s) as [s1 a] eqn:Ea. destruct (ask_same _ _ _ Ea) as ([Hr Hs] & _). assert (Ho : forall c h g, g <> f -> same_file s (set_contents f c h s1) g).
  { intros c h g Hne. destruct (set_contents_other f c h s1 g Hne) as [E1 E2], (Hs g). split; congruence. }
  destruct a as [|e k]; intros [= <- <-]; (split_and!; [done|auto|]); [left; split; [|done]|right; eexists; split; [|done]]; unfold rewritten;
  match goal with |- contents (set_contents f ?c ?h s1) f = _ /\ _ => destruct (set_contents_file f c h s1) as [-> ->] end; done.
Qed.

(** Punching a hole into a slot that was just written changes nothing in it. *)
Lemma punch_hole_inv f o n s s' res : punch_hole f o n s = (s', res) -> blit (contents s f) o (zeros n) = contents s f -> same_files s s' /\ res = Ok ().
Proof.
  unfold punch_hole. destruct (punch_unsupported s); [by intros [= <- <-]|]. destruct (ask s) as [s1 a] eqn:Ea. destruct (ask_same _ _ _ Ea) as ([Hr Hs] & _). intros E Hb. destruct a as [|[| |] k]; injection E as <- <-; try done.
  split; [|done]. split; [done|]. intros g. destruct (Hs f) as [Hc Ho]. destruct (decide (g = f)) as [->|Hne].
  - destruct (set_contents_file f (blit (contents s1 f) o (zeros n)) (opened s1 f) s1) as [E1 E2]. split; [by rewrite E1, Hc|by rewrite E2].
  - destruct (set_contents_other f (blit (contents s1 f) o (zeros n)) (opened s1 f) s1 g Hne) as [E1 E2], (Hs g). split; congruence.
Qed.

Hypothesis Hcrc : crc_fits crc32.
Hypothesis Hz : zstd_roundtrip zstd_compress zstd_decompress.

Lemma zeros_not_envelope : is_envelope (zeros PAGE_SIZE) = false.
Proof. by vm_compute. Qed.

Lemma write_page_inv f n d s s' res : registry_ok s.(compression) -> storable_page d -> write f n d s = (s', res) ->
  s'.(compression) = s.(compression) /\ (forall g, g <> f -> same_file s s' g) /\
  ((same_file s s' f /\ is_ok res = false) \/
   (exists slot, len slot = PAGE_SIZE /\ slot <> zeros PAGE_SIZE /\ decoded s.(compression) slot = Some d /\
      rewritten f n slot ((opened s f).(broken) ∖ {[n]}) s s' /\ res = Ok ()) \/
   (exists b, len b <= PAGE_SIZE /\ rewritten f n b ({[n]} ∪ (opened s f).(broken)) s s' /\ is_ok res = false)).
Proof using Hcrc Hz.
  intros Hreg (Hl & He & Hn0). unfold write_page. unfold mbind at 1, se_bind at 1. destruct (handle f true s) as [s1 r1] eqn:Eh. destruct (handle_same _ _ _ _ _ Eh) as ([Hr Hs] & _ & Hcr).
  destruct r1 as [[]|e]; [|by destruct (Hcr eq_refl)|intros [= <- <-]; split_and!; [done|done|left; done]]. cbn [negb]. rewrite gets_bind. unfold mbind at 1, se_bind at 1, lift.
  destruct (compress_page_at_rest crc32 zstd_compress (compression s1) f d) as [o|e] eqn:Ec; [|intros [= <- <-]; split_and!; [done|done|left; done]].
  pose proof (stored_page_is_read crc32 zstd_compress zstd_decompress (compression s1) f d) as Hread. rewrite Hr in *.
  assert (Hslot : forall slot t t' r, same_files s t -> len slot = PAGE_SIZE -> slot <> zeros PAGE_SIZE -> decoded (compression s) slot = Some d -> write_slot f n slot t = (t', r) ->
    t'.(compression) = s.(compression) /\ (forall g, g <> f -> same_file s t' g) /\
    ((exists slot, len slot = PAGE_SIZE /\ slot <> zeros PAGE_SIZE /\ decoded s.(compression) slot = Some d /\
      rewritten f n slot ((opened s f).(broken) ∖ {[n]}) s t' /\ r = Ok ()) \/
     (exists b, len b <= PAGE_SIZE /\ rewritten f n b ({[n]} ∪ (opened s f).(broken)) s t' /\ is_ok r = false))).
  { intros slot t t' r [Htr Ht] H1 H2 H3 E. destruct (write_slot_inv _ _ _ _ _ _ E) as (Hr' & Ho' & Hcase). destruct (Ht f) as [Hcf Hof]. unfold rewritten in *. rewrite Hcf, Hof in Hcase. split_and!; [congruence| |].
    - intros g Hg. destruct (Ht g), (Ho' g Hg). split; congruence.
    - destruct Hcase as [(? & ->)|(k & ? & ?)]; [left; by exists slot|]. right. exists (take k slot). split; [unfold len in *; rewrite length_take; lia|done]. }
  assert (Hraw : decoded (compression s) d = Some d) by (unfold decoded, decompress_page; by rewrite He).
  assert (Hdirect : forall t t' r, same_files s t -> write_slot f n d t = (t', r) -> t'.(compression) = s.(compression) /\ (forall g, g <> f -> same_file s t' g) /\
    ((same_file s t' f /\ is_ok r = false) \/ (exists slot, len slot = PAGE_SIZE /\ slot <> zeros PAGE_SIZE /\ decoded s.(compression) slot = Some d /\
      rewritten f n slot ((opened s f).(broken) ∖ {[n]}) s t' /\ r = Ok ()) \/
     (exists b, len b <= PAGE_SIZE /\ rewritten f n b ({[n]} ∪ (opened s f).(broken)) s t' /\ is_ok r = false))).
  { intros t t' r Ht E. destruct (Hslot d t t' r Ht Hl Hn0 Hraw E) as (? & ? & ?). split_and!; [done|done|by right]. }
  destruct o as [e|]; [|by apply Hdirect]. destruct (Hread (zeros (PAGE_SIZE - len e)) (Some e) Hcrc Hz Hreg Hl He Ec) as [Hlt Hdec]. clear Hread.
  destruct (N.ltb_spec (div_ceil (len e) FS_BLOCK_SIZE * FS_BLOCK_SIZE) PAGE_SIZE) as [Hu|]; [|by apply Hdirect].
  set (slot := e ++ zeros (PAGE_SIZE - len e)). assert (Hlen : len slot = PAGE_SIZE) by (unfold slot; rewrite len_app, len_zeros; lia). fold slot in Hdec. specialize (Hdec ltac:(rewrite Hlen; done)).
  unfold mbind, se_bind. destruct (write_slot f n slot s1) as [s2 r2] eqn:Ew.
  destruct (Hslot slot s1 s2 r2) as (Hr2 & Ho2 & Hcase); [done|done| |unfold decoded; by rewrite Hdec|done|].
  { intros Ez. unfold decompress_page in Hdec. rewrite Ez, zeros_not_envelope in Hdec. done. }
  destruct r2 as [[]|e2]; [|intros [= <- <-]; split_and!; [done|done|by right]]. destruct Hcase as [(slot' & Hl' & Hz' & Hd' & Hrw & _)|(? & ? & ? & ?)]; [|done].
  intros Ep. assert (Hused : len e <= div_ceil (len e) FS_BLOCK_SIZE * FS_BLOCK_SIZE).
  { unfold div_ceil. pose proof (N.div_mod' (len e + FS_BLOCK_SIZE - 1) FS_BLOCK_SIZE). pose proof (N.mod_lt (len e + FS_BLOCK_SIZE - 1) FS_BLOCK_SIZE ltac:(done)). revert H H0. generalize ((len e + FS_BLOCK_SIZE - 1) / FS_BLOCK_SIZE), ((len e + FS_BLOCK_SIZE - 1) mod FS_BLOCK_SIZE). unfold FS_BLOCK_SIZE. lia. }
  destruct (write_slot_inv _ _ _ _ _ _ Ew) as (_ & _ & [[Hrw1 _]|(? & _ & ?)]); [|done]. destruct Hrw1 as [Hc1 _].
  destruct (punch_hole_inv _ _ _ _ _ _ Ep) as ([Hr3 Hs3] & ->); [rewrite Hc1; apply punch_zeros; [done|lia]|]. split_and!; [congruence| |].
  - intros g Hg. destruct (Hs3 g), (Ho2 g Hg). split; congruence.
  - right. left. exists slot'. split_and!; try done; unfold rewritten in *; destruct (Hs3 f) as [-> ->]; apply Hrw.
Qed.

Lemma losing_inv c n h m raw : (m, raw) ∈ losing c n h -> (m, raw) ∈ h.(lost) \/ (m = n /\ n ∉ h.(broken) /\ raw = slot_at c n).
Proof. unfold losing. case_bool_decide; [auto|]. intros [[= -> ->]|]%elem_of_cons; auto. Qed.

(** A slot that may still be torn or change back. *)
Definition unsettled (s : HeapPageStore) (f n : N) : Prop := (exists raw, (n, raw) ∈ (opened s f).(lost)) \/ n ∈ (opened s f).(broken).
Definition pages (s : HeapPageStore) (f : N) : N := len (contents s f) / PAGE_SIZE.
Definition same_slot (s s' : HeapPageStore) (f n : N) : Prop :=
  page_of s' f n = page_of s f n /\ (forall o, may_find s' f n o -> may_find s f n o) /\ (unsettled s' f n -> unsettled s f n) /\
  (n ∈ (opened s' f).(broken) -> n ∈ (opened s f).(broken)).

Lemma same_file_slot s s' f n : s'.(compression) = s.(compression) -> same_file s s' f -> same_slot s s' f n.
Proof. intros Hr [Hc Ho]. unfold same_slot, page_of, may_find, unsettled. rewrite Hc, Ho, Hr. done. Qed.

Lemma rewritten_other f n b bad s s' m : s'.(compression) = s.(compression) -> aligned s f -> len b <= PAGE_SIZE -> m <> n ->
  (m ∈ bad <-> m ∈ (opened s f).(broken)) -> rewritten f n b bad s s' -> same_slot s s' f m.
Proof.
  intros Hr Ha Hb Hne Hbad [Hc Ho]. assert (Hlost : forall raw, (m, raw) ∈ (opened s' f).(lost) -> (m, raw) ∈ (opened s f).(lost)).
  { intros raw. rewrite Ho. cbn. intros [|(? & _)]%losing_inv; done. }
  assert (Hbr : m ∈ (opened s' f).(broken) <-> m ∈ (opened s f).(broken)) by (by rewrite Ho). assert (Hslot : m ∉ (opened s f).(broken) -> slot_at (contents s' f) m = slot_at (contents s f) m).
  { intros Hm. rewrite Hc. apply slot_other; [done|done|]. destruct Ha as [|Ha]; [by left|]. right. by intros ->. }
  split_and!; [| | |by apply Hbr].
  - unfold page_of. rewrite (bool_decide_ext _ _ Hbr), Hr. case_bool_decide as Hm; [done|]. by rewrite Hslot.
  - intros o [[Hm Hf]|(raw & Hin & Hf)]; rewrite Hr in Hf; [left; rewrite Hslot in Hf by tauto; tauto|right; eauto].
  - intros [[raw Hraw]|Hm]; [left; eauto|right; tauto].
Qed.
Lemma rewritten_aligned f n b bad s s' : aligned s f -> len b <= PAGE_SIZE -> (len b = PAGE_SIZE \/ n ∈ bad) ->
  (forall m, m <> n -> m ∈ (opened s f).(broken) -> m ∈ bad) -> rewritten f n b bad s s' -> aligned s' f /\ pages s f <= pages s' f.
Proof.
  intros Ha Hb Hfull Hkeep [Hc Ho]. assert (HP : 0 < PAGE_SIZE) by done. assert (Hlen : len (contents s' f) = N.max (len (contents s f)) (page_offset n + len b)) by (by rewrite Hc, len_write_all_at).
  split; [|unfold pages; apply N.Div0.div_le_mono; lia]. unfold aligned. rewrite Hlen, Ho. cbn [broken]. destruct (N.le_gt_cases (len (contents s f)) (page_offset n + len b)) as [Hle|Hgt].
  - rewrite N.max_r by done. unfold page_offset. destruct (decide (len b = PAGE_SIZE)) as [->|Hne]; [left; rewrite <- N.mul_succ_l; apply N.Div0.mod_mul|]. right.
    rewrite N.div_add_l by done. rewrite N.div_small, N.add_0_r by lia. by destruct Hfull.
  - rewrite N.max_l by lia. destruct Ha as [|Ha]; [by left|]. right. destruct (decide (len (contents s f) / PAGE_SIZE = n)) as [E|Hne]; [|by apply Hkeep]. rewrite E. destruct Hfull as [Hfull|]; [|done].
    exfalso. pose proof (offset_below n (contents s f)) as Hob. rewrite E in Hob. lia.
Qed.

(** Everything a write does, as far as pages are concerned. *)
Lemma write_page_spec f n d s s' res : store_ok s -> storable_page d -> write f n d s = (s', res) ->
  store_ok s' /\ (forall g, pages s g <= pages s' g) /\ (forall g m, (g, m) <> (f, n) -> same_slot s s' g m) /\
  (forall o, may_find s' f n o -> o = Some d \/ may_find s f n o) /\ (res = Ok () -> page_of s' f n = Some d /\ n ∉ (opened s' f).(broken)).
Proof using Hcrc Hz.
  intros [Hreg Hal] Hd E. destruct (write_page_inv _ _ _ _ _ _ Hreg Hd E) as (Hr & Hoth & Hcase).
  assert (Hgo : aligned s' f /\ pages s f <= pages s' f /\ (forall m, m <> n -> same_slot s s' f m) /\
    (forall o, may_find s' f n o -> o = Some d \/ may_find s f n o) /\ (res = Ok () -> page_of s' f n = Some d /\ n ∉ (opened s' f).(broken))).
  { destruct Hcase as [[Hs He]|[(slot & Hl & Hnz & Hdec & Hrw & ->)|(b & Hl & Hrw & He)]].
    - destruct (same_file_slot s s' f n Hr Hs) as (_ & Hm & _). split_and!; [|unfold pages; by rewrite (proj1 Hs)|intros m _; by apply same_file_slot|auto|by intros ->].
      unfold aligned. destruct Hs as [-> ->]. apply Hal.
    - destruct (rewritten_aligned f n slot (broken (opened s f) ∖ {[n]}) s s' (Hal f) ltac:(lia) (or_introl Hl) ltac:(set_solver) Hrw) as [Ha Hp]. pose proof Hrw as [Hc Ho].
      assert (Hsl : slot_at (contents s' f) n = Some slot) by (rewrite Hc; by apply slot_same). split_and!; [done|done| | |].
      + intros m Hm. eapply rewritten_other; [done|apply Hal| |done| |exact Hrw]; [lia|set_solver].
      + intros o [[_ Hf]|(raw & Hin & Hf)]; rewrite Hr in Hf.
        * rewrite Hsl in Hf. destruct Hf as (d' & Hd' & ->). left. congruence.
        * rewrite Ho in Hin. cbn in Hin. right. apply losing_inv in Hin as [Hin|(_ & Hnb & ->)]; [right; eauto|left; eauto].
      + intros _. assert (Hnb : n ∉ (opened s' f).(broken)) by (rewrite Ho; cbn; set_solver). split; [|done]. unfold page_of. rewrite bool_decide_eq_false_2 by done. rewrite Hsl, Hr. done.
    - destruct (rewritten_aligned f n b ({[n]} ∪ broken (opened s f)) s s' (Hal f) Hl ltac:(right; set_solver) ltac:(set_solver) Hrw) as [Ha Hp]. pose proof Hrw as [Hc Ho]. split_and!; [done|done| | |by intros ->].
      + intros m Hm. eapply rewritten_other; [done|apply Hal|done|done| |exact Hrw]. set_solver.
      + intros o [[Hnb _]|(raw & Hin & Hf)]; [rewrite Ho in Hnb; set_solver|]. rewrite Hr in Hf. rewrite Ho in Hin. cbn in Hin. right. apply losing_inv in Hin as [Hin|(_ & Hnb & ->)]; [right; eauto|left; eauto]. }
  destruct Hgo as (Ha & Hp & Hsame & Hfind & Hok). split_and!; [split; [by rewrite Hr|]| | |done|done].
  - intros g. destruct (decide (g = f)) as [->|Hne]; [done|]. unfold aligned. destruct (Hoth g Hne) as [-> ->]. apply Hal.
  - intros g. destruct (decide (g = f)) as [->|Hne]; [done|]. unfold pages. by destruct (Hoth g Hne) as [-> _].
  - intros g m Hne. destruct (decide (g = f)) as [->|Hg]; [apply Hsame; congruence|]. apply same_file_slot; auto.
Qed.

(** Syncing changes what a crash finds and nothing that is read. *)
Definition stays (s s' : HeapPageStore) : Prop := same_files s s' /\ s'.(handles) = s.(handles).
Local Instance stays_preorder : PreOrder stays.
Proof. split; [done|]. intros s1 s2 s3 [A1 A2] [B1 B2]. split; [by eapply same_files_trans|congruence]. Qed.
Lemma sync_file_stays m : moves_by stays (sync_file m).
Proof. intros s. unfold sync_file. destruct (ask s) as [s1 a] eqn:Ea. destruct (ask_same _ _ _ Ea) as (H1 & H2 & _). by destruct a. Qed.
Lemma fsync_dir_stays : moves_by stays fsync_dir.
Proof. intros s. unfold fsync_dir. destruct (ask s) as [s1 a] eqn:Ea. destruct (ask_same _ _ _ Ea) as (H1 & H2 & _). by destruct a. Qed.
Lemma settle_spec ids s : (settle ids s).(compression) = s.(compression) /\ forall f, contents (settle ids s) f = contents s f /\
  opened (settle ids s) f = if bool_decide (f ∈ ids) then mkHandle [] (opened s f).(broken) else opened s f.
Proof.
  split; [done|]. intros f. split; [done|]. unfold opened, settle. cbn. rewrite map_lookup_imap. destruct (handles s !! f) as [h|]; cbn; [by case_bool_decide|]. by case_bool_decide.
Qed.
Lemma sync_files_spec fs s s' res : sync_files fs s = (s', res) ->
  s'.(compression) = s.(compression) /\ (forall f, contents s' f = contents s f) /\
  (forall f, (opened s' f).(broken) = (opened s f).(broken) /\ ((opened s' f).(lost) = (opened s f).(lost) \/ (opened s' f).(lost) = [])) /\
  (res = Ok () -> forall f, f ∈ fs -> (opened s' f).(lost) = []).
Proof.
  unfold sync_files. rewrite gets_bind. set (ids := filter _ fs). unfold mbind, se_bind.
  pose proof (moves_for_each stays ids (fun f => sync_file ("failed to fsync heap file " +:+ pretty f)) (fun f => sync_file_stays _) s) as H1.
  destruct (for_each ids _ s) as [s1 [[]|e]]; cbn in H1; [|intros [= <- <-]; destruct H1 as [[Hr Hs] _]; split_and!; [done|intros f; apply Hs|intros f; destruct (Hs f) as [_ ->]; auto|done]].
  pose proof (fsync_dir_stays s1) as H2. destruct (fsync_dir s1) as [s2 r2]. cbn in H2. pose proof (PreOrder_Transitive _ _ _ H1 H2) as [[Hr Hs] Hh].
  destruct r2 as [[]|e]; [|intros [= <- <-]; split_and!; [done|intros f; apply Hs|intros f; destruct (Hs f) as [_ ->]; auto|done]]. unfold modify. intros [= <- <-]. destruct (settle_spec ids s2) as [Hr' Hf'].
  split_and!; [by rewrite Hr'|intros f; destruct (Hf' f) as [-> _]; apply Hs| |].
  - intros f. destruct (Hf' f) as [_ ->]. destruct (Hs f) as [_ <-]. case_bool_decide; auto.
  - intros _ f Hin. destruct (Hf' f) as [_ ->]. case_bool_decide as Hids; [done|]. destruct (Hs f) as [_ ->]. unfold opened. destruct (handles s !! f) as [h|] eqn:Eh; [|done]. destruct Hids. apply list_elem_of_filter. split; [by rewrite Eh; eexists|done].
Qed.

(** *** Reading back *)

(** What a read gives when the operating system has no objection. *)
Definition quiet (s : HeapPageStore) : HeapPageStore := with_answers [] s.
Definition read_as (r : CompressionRegistry) (c : bytes) (n : N) : DbResult (option bytes) :=
  if page_offset n + PAGE_SIZE <=? len c then
    let buf := sub c (page_offset n) PAGE_SIZE in
    match decompress_page crc32 zstd_decompress r buf PAGE_SIZE with
    | Ok (Some image) =>
        if negb (len image =? PAGE_SIZE)
        then Err (db_storage InternalError ("decompressed page has " +:+ pretty (len image) +:+ " bytes, expected " +:+ pretty PAGE_SIZE))
        else Ok (Some image)
    | Ok None => Ok (Some buf)
    | Err e => Err e
    end
  else Ok None.

Lemma quiet_handle f s : exists s' b, handle f false (quiet s) = (s', Ok b) /\ s'.(answers) = [] /\ same_files s s' /\ (b = false -> contents s f = []).
Proof.
  destruct (handle f false (quiet s)) as [s' res] eqn:E. destruct (handle_same _ _ _ _ _ E) as (Hs & _). unfold handle in E. cbn in E. destruct (handles s !! f); [injection E as <- <-; by eexists _, true|].
  unfold ask in E. cbn in E. destruct (bool_decide (is_Some (dir s !! path f))) eqn:Ed; injection E as <- <-; eexists _, _; split_and!; try done. intros _. apply bool_decide_eq_false in Ed. unfold contents. destruct (dir s !! path f); [destruct Ed; by eexists|done].
Qed.
Lemma load_quiet f n s : (load f n (quiet s)).2 = read_as s.(compression) (contents s f) n.
Proof.
  unfold load_page, decode_slot, read_slot, read_as. unfold mbind, se_bind. destruct (quiet_handle f s) as (s' & b & -> & Ha & [Hr Hs] & Hb). destruct (Hs f) as [Hc _]. destruct b; cbn [negb].
  - unfold ask. rewrite Ha, Hc. destruct (_ <=? _); [|done]. cbn. rewrite Hr. destruct (decompress_page _ _ _ _ _) as [[image|]|e]; [|done|done]. by destruct (negb _).
  - rewrite (Hb eq_refl). rewrite (proj2 (N.leb_gt _ _)); [done|]. change (len []) with 0. unfold PAGE_SIZE. lia.
Qed.

(** C8: What is written to a page file is read from it.  A page that is not taken for an envelope
    or for a hole, written without an error, compressed or not, is read back; every other
    page of every file reads as before, except that the pages a write skips behind the end of
    its file now read as zeros; the file has just enough pages for it, and is listed under its
    id. *)
Theorem written_page_is_read f n d s s' : store_ok s -> storable_page d -> f <= U32_MAX -> write f n d s = (s', Ok ()) ->
  (load f n (quiet s')).2 = Ok (Some d) /\
  (forall g m, (g, m) <> (f, n) -> m ∉ (opened s g).(broken) ->
     (load g m (quiet s')).2 = (load g m (quiet s)).2 \/
     (g = f /\ m < n /\ (load g m (quiet s)).2 = Ok None /\ (load g m (quiet s')).2 = Ok (Some (zeros PAGE_SIZE)))) /\
  pages s' f = N.max (pages s f) (n + 1) /\
  exists ids, (list_file_ids (quiet s')).2 = Ok ids /\ f ∈ ids.
Proof using Hcrc Hz.
  intros [Hreg Hal] Hd Hf E. destruct (write_page_inv _ _ _ _ _ _ Hreg Hd E) as (Hr & Hoth & [[_ ?]|[(slot & Hl & Hnz & Hdec & [Hc Ho] & _)|(b & _ & _ & ?)]]); [done| |done].
  assert (Hlen : len (contents s' f) = N.max (len (contents s f)) (page_offset n + PAGE_SIZE)) by (by rewrite Hc, len_write_all_at, Hl). split_and!.
  - rewrite load_quiet, Hr. unfold read_as. rewrite (proj2 (N.leb_le _ _)) by lia. rewrite Hc. assert (Es : sub (write_all_at (page_offset n) slot (contents s f)) (page_offset n) PAGE_SIZE = slot) by (rewrite <- Hl; apply sub_prefix).
    cbv zeta. rewrite Es. unfold decoded in Hdec.
    destruct (decompress_page _ _ _ slot _) as [[image|]|e]; [|by injection Hdec as ->|done]. injection Hdec as ->. destruct Hd as (-> & _). by rewrite N.eqb_refl.
  - intros g m Hne Hnb. rewrite !load_quiet, Hr. destruct (decide (g = f)) as [->|Hg]; [|left; by destruct (Hoth g Hg) as [-> _]]. assert (Hm : m <> n) by congruence. rewrite Hc.     destruct (N.leb_spec (page_offset m + PAGE_SIZE) (len (contents s f))) as [Hin|Hout].
    + left. unfold read_as. rewrite len_write_all_at, Hl, !(proj2 (N.leb_le _ _)) by lia. destruct (N.lt_ge_cases m n) as [Hlt|Hge].
      * pose proof (offset_lt m n Hlt). by rewrite sub_write_before, sub_app_l by lia.
      * pose proof (offset_lt n m ltac:(lia)). by rewrite sub_write_after by lia.
    + destruct (N.lt_ge_cases m n) as [Hlt|Hge].
      * right. split_and!; [done|done|unfold read_as; by rewrite (proj2 (N.leb_gt _ _)) by done|]. unfold read_as. pose proof (offset_lt m n Hlt). rewrite len_write_all_at, Hl, (proj2 (N.leb_le _ _)) by lia. rewrite sub_write_before by lia.
        assert (Hm0 : len (contents s f) <= page_offset m).
        { destruct (offset_split (contents s f)) as [Hcs Hmod]. assert (len (contents s f) / PAGE_SIZE <= m) by (apply N.nlt_ge; intros ?%offset_below; lia). destruct (decide (m = len (contents s f) / PAGE_SIZE)) as [->|].
          - destruct (Hal f) as [Hz0|]; [|done]. rewrite Hz0 in Hcs. lia.
          - pose proof (offset_lt (len (contents s f) / PAGE_SIZE) m ltac:(lia)). lia. }
        rewrite sub_app_r, sub_zeros by lia. unfold decompress_page. by rewrite zeros_not_envelope.
      * left. unfold read_as. pose proof (offset_lt n m ltac:(lia)). assert (0 < PAGE_SIZE) by done. rewrite len_write_all_at, Hl, !(proj2 (N.leb_gt _ _)) by lia. done.
  - unfold pages. rewrite Hlen. destruct (N.le_ge_cases (len (contents s f)) (page_offset n + PAGE_SIZE)) as [Hle|Hge].
    + rewrite N.max_r by done. unfold page_offset. rewrite N.div_add_l by done. rewrite N.div_same by done. apply (N.Div0.div_le_mono _ _ PAGE_SIZE) in Hle. unfold page_offset in Hle. rewrite N.div_add_l, N.div_same in Hle by done. lia.
    + rewrite N.max_l by done. apply offset_below in Hge. lia.
  - unfold list_file_ids, quiet, ask. cbn. eexists. split; [done|]. rewrite merge_sort_Permutation. apply elem_of_remove_dups, list_elem_of_omap. exists (path f). split; [|by apply file_id_of_path].
    destruct (dir s' !! path f) as [c|] eqn:Ec; [|unfold contents in Hlen; rewrite Ec in Hlen; cbn in Hlen; change (len []) with 0 in Hlen; unfold PAGE_SIZE in Hlen; lia].
    apply list_elem_of_fmap. exists (path f, c). split; [done|]. by apply elem_of_map_to_list.
Qed.
End Store.

(** ** Witness *)

Definition demo_store : HeapPageStore := open_with_compression "data/heap" ∅ demo_registry [].
Definition demo_d : bytes := init_page demo_crc 9.

Lemma demo_storable : storable_page demo_d.
Proof. split_and!; [by vm_compute|by vm_compute|]. intros E. assert (H : bool_decide (demo_d = zeros PAGE_SIZE) = true) by (by apply bool_decide_eq_true_2). vm_compute in H. done. Qed.
Lemma demo_registry_ok : registry_ok demo_registry.
Proof.
  intros f id. unfold file_config, demo_registry. cbn [files]. destruct (decide (f = 4)) as [->|Hne]; [by rewrite lookup_singleton_eq|by rewrite lookup_singleton_ne].
Qed.
Lemma demo_store_ok : store_ok demo_store.
Proof. split; [apply demo_registry_ok|]. intros f. left. unfold contents. cbn [dir demo_store open_with_compression]. by rewrite lookup_empty. Qed.

Lemma written_page_is_read_witness : exists s', write_page demo_crc demo_compress 4 1 demo_d demo_store = (s', Ok ()) /\
  (load_page demo_crc demo_decompress 4 1 (quiet s')).2 = Ok (Some demo_d) /\ pages s' 4 = 2.
Proof.
  destruct (write_page demo_crc demo_compress 4 1 demo_d demo_store) as [s' r] eqn:E.
  assert (Hr : r = Ok ()) by (change r with ((s', r).2); rewrite <- E; vm_compute; reflexivity). rewrite Hr in E. exists s'. split; [f_equal; exact Hr|].
  destruct (written_page_is_read demo_crc demo_compress demo_decompress demo_crc_fits demo_zstd 4 1 demo_d demo_store s' demo_store_ok demo_storable) as (H1 & _ & H2 & _); [done|exact E|]. split; [exact H1|exact H2].
Defined.
