(* ===== verification/ServerIo.v ===== *)
(** * The pool over the server's files and log (src/crates/server/src/recovery.rs)

    [WalFlushPolicy] and the wiring of the pool: the page files of [HeapPageStore] and the
    log of [FileWalManager] are what the pool's theorems expect of their world, with writes,
    syncs and flushes that fail wherever they may.  So the guarantees of the pool hold of the
    bytes in the page files and of the durable end of the log. *)

From S2P Require Import Prelude Errors Mvcc Clog CheckedBytes ByteArray WalCodec WalSegment WalFile Page Compress BufferPool PoolSteps PageFile.
Local Open Scope N_scope.

(** [assigned] is the last position the log gave out: a flush that fails takes records back,
    and refuses every operation after it. *)
Record ServerIo : Type := mkServerIo { disk : HeapPageStore; wal : FileWalManager; assigned : N; faults : list FlushFault }.

Section ServerIo.
Context {CatalogChangeSet : Type}.
Context (crc32 : bytes -> N).
Context (json_to_vec : @WalRecordKind CatalogChangeSet -> result string bytes).
Context (validate_shape : CatalogChangeSet -> result string unit).
Context (zstd_compress : option bytes -> Z -> bytes -> result string bytes).
Context (zstd_decompress : option bytes -> bytes -> N -> result string bytes).

Definition on_disk_store {A} (m : SE HeapPageStore DbError A) : SE ServerIo DbError A := fun w =>
  let '(s, r) := m w.(disk) in (mkServerIo s w.(wal) w.(assigned) w.(faults), r).

Local Instance server_store : PageStore ServerIo := {|
  store_load_page k w := (load_page crc32 zstd_decompress k.1 k.2 w.(disk)).2;
  store_load_page_lenient k w := (load_page_lenient crc32 zstd_decompress k.1 k.2 w.(disk)).2;
  store_write_page k d := on_disk_store (write_page crc32 zstd_compress k.1 k.2 d);
  store_sync_files fs := on_disk_store (sync_files fs);
  store_page_count f w := (page_count f w.(disk)).2;
  store_remove_file f := on_disk_store (remove_file f);
  store_list_file_ids w := (list_file_ids w.(disk)).2
|}.

Definition wal_can_flush (info : PageFlushInfo) : bool := bool_decide (is_Some info.(fi_page_lsn)).
Definition wal_ensure_durable : SE ServerIo DbError unit := fun w =>
  let '(fault, rest) := match w.(faults) with [] => (NoFault, []) | f :: rest => (f, rest) end in
  let '(m, r) := flush crc32 fault w.(wal) in
  (mkServerIo w.(disk) m (N.max w.(assigned) w.(wal).(WalFile.written_lsn)) rest, _ ← r; Ok ()).
Local Instance wal_flush_policy : FlushPolicy ServerIo := {| can_flush := wal_can_flush; ensure_durable := wal_ensure_durable |}.

(** ** The log *)

Definition log_ok (w : ServerIo) : Prop :=
  w.(wal).(flushed_lsn) <= w.(wal).(WalFile.written_lsn) /\ (w.(wal).(poisoned) = None -> w.(assigned) <= w.(wal).(WalFile.written_lsn)).
Definition log_written (w : ServerIo) : N := N.max w.(assigned) w.(wal).(WalFile.written_lsn).

(** A flush moves the durable end to the end of the log, or leaves it and the log refuses
    everything from then on. *)
Lemma flush_outcome fault m m' r : flush crc32 fault m = (m', r) -> m.(flushed_lsn) <= m.(WalFile.written_lsn) ->
  (is_ok r = true /\ m.(poisoned) = None /\ m'.(poisoned) = None /\ m'.(flushed_lsn) = m.(WalFile.written_lsn) /\ m'.(WalFile.written_lsn) = m.(WalFile.written_lsn)) \/
  (is_ok r = false /\ is_Some m'.(poisoned) /\ m'.(flushed_lsn) = m.(flushed_lsn) /\ m'.(flushed_lsn) <= m'.(WalFile.written_lsn)).
Proof.
  intros E Hle. unfold flush in E. unfold mbind at 1, se_bind at 1, lock_state in E. destruct (poisoned m) as [e|] eqn:Ep; [injection E as <- <-; right; split_and!; [done|by eexists|done|done]|].
  rewrite gets_bind in E. cbn [id] in E.
  assert (Hfail : forall s e m1 r1, fail_flush crc32 s e m = (m1, r1) -> is_ok r1 = false /\ is_Some m1.(poisoned) /\ m1.(flushed_lsn) = m.(flushed_lsn) /\ m1.(flushed_lsn) <= m1.(WalFile.written_lsn)).
  { intros s e m1 r1. unfold fail_flush, correct_failed_flush. destruct (truncate_stream _ _ _ _ _) as [d [act|e']]; intros [= <- <-]; split_and!; cbn; (done || by eexists). }
  destruct (match fault with SyncFails e => Err e | _ => sync_unflushed crc32 m end) as [[]|e]; [|right; by eapply Hfail].
  destruct (N.ltb_spec (flushed_lsn m) (WalFile.written_lsn m)) as [Hlt|Hge].
  - destruct fault as [|e|e []].
    + cbn in E. injection E as <- <-. by left.
    + cbn in E. injection E as <- <-. by left.
    + cbn in E. injection E as <- <-. right. split_and!; cbn; (done || by eexists).
    + right. by eapply Hfail.
  - injection E as <- <-. left. cbn. done.
Qed.

(** An append takes the end of the log as the start of its record. *)
Lemma append_outcome fault r m m' from to : append_positioned crc32 json_to_vec validate_shape fault r m = (m', Ok (from, to)) ->
  m.(poisoned) = None /\ m'.(poisoned) = None /\ from = m.(WalFile.written_lsn) /\ to = m'.(WalFile.written_lsn) /\ from < to /\ m'.(flushed_lsn) = m.(flushed_lsn).
Proof.
  unfold append_positioned. rewrite gets_bind. destruct (_ && _ && _); [done|]. rewrite modify_bind. unfold mbind at 1, se_bind at 1, lock_state. cbn [poisoned with_clog]. destruct (poisoned m) as [e|] eqn:Ep; [done|].
  rewrite gets_bind. unfold mbind at 1, se_bind at 1, lift. destruct (encode_record_at _ _ _ _ _) as [[record b]|e]; [|done]. unfold mbind at 1, se_bind at 1. cbn [wal_dir active_number with_clog].
  destruct (append_stream _ _ _ _ _ _) as [[d act] [[]|e]].
  - rewrite !modify_bind. unfold wal_position, lift. destruct (N.leb_spec (lsn record) (WalFile.written_lsn (with_clog (mark_writer r (clog m)) m))) as [|Hlt]; [done|]. intros [= <- <- <-]. cbn in *. done.
  - unfold mbind, se_bind. destruct (repair_failed_append _ _ _ _) as [m1 [[]|e1]]; done.
Qed.

(** ** The laws *)

Hypothesis Hcrc : crc_fits crc32.
Hypothesis Hz : zstd_roundtrip zstd_compress zstd_decompress.

(** A change of the files alone, and a change of the log alone. *)
Definition disk_later (s s' : HeapPageStore) : Prop := (forall f, pages s f <= pages s' f) /\ (store_ok s -> store_ok s').

Lemma load_reads k s d : (load_page crc32 zstd_decompress k.1 k.2 s).2 = Ok (Some d) -> k.2 ∉ (opened s k.1).(broken) ->
  page_of crc32 zstd_decompress s k.1 k.2 = Some d \/ (page_of crc32 zstd_decompress s k.1 k.2 = None /\ d = page_default /\ k.2 < pages s k.1).
Proof.
  destruct (load_page _ _ _ _ s) as [s' r] eqn:E. cbn. intros -> Hb. destruct (load_page_inv _ _ _ _ _ _ _ E) as [Hl Hd]. unfold page_of. rewrite bool_decide_eq_false_2 by done. unfold slot_at.
  rewrite (proj2 (N.ltb_ge _ _)) by done. cbn [orb]. case_bool_decide as Hzero; [|by left]. right. split; [done|]. split; [|by apply offset_below].
  rewrite Hzero in Hd. unfold decoded, decompress_page in Hd. rewrite zeros_not_envelope in Hd. by injection Hd as <-.
Qed.
Lemma count_pages f s n : (page_count f s).2 = Ok n -> pages s f <= U32_MAX -> n = pages s f.
Proof.
  unfold page_count, mbind, se_bind. destruct (handle f false s) as [s1 [b|e]] eqn:Eh; [|done]. destruct (handle_same _ _ _ _ _ Eh) as ([_ Hs] & _). destruct (Hs f) as [Hc _]. destruct b; cbn [negb].
  - destruct (ask s1) as [s2 a] eqn:Ea. destruct (ask_same _ _ _ Ea) as ([_ Hs2] & _). destruct (Hs2 f) as [Hc2 _]. destruct a; [|done]. cbn. intros [= <-] Hle. rewrite Hc2, Hc. fold (pages s f).
    apply N.mod_small. unfold U32_MAX in Hle. lia.
  - cbn. intros [= <-] _. unfold pages. assert (E : contents s f = []); [|by rewrite E]. unfold handle in Eh. destruct (handles s !! f); [done|]. destruct (ask s) as [s2 a] eqn:Ea. destruct (ask_same _ _ _ Ea) as (_ & _ & Ed & _).
    destruct a; [|done]. cbn [orb] in Eh. case_bool_decide as Hd; [done|]. unfold contents. rewrite Ed in Hd. destruct (dir s !! path f); [destruct Hd; by eexists|done].
Qed.

Lemma sync_same fs s s' res : sync_files fs s = (s', res) -> disk_later s s' /\ forall f n, same_slot crc32 zstd_decompress s s' f n.
Proof.
  intros E. destruct (sync_files_spec _ _ _ _ E) as (Hr & Hc & Ho & _). split; [split|].
  - intros f. unfold pages. by rewrite Hc.
  - intros [Hreg Hal]. split; [by rewrite Hr|]. intros f. unfold aligned. rewrite Hc. destruct (Ho f) as [-> _]. apply Hal.
  - intros f n. destruct (Ho f) as [Hb Hl]. assert (Hin : forall raw, (n, raw) ∈ lost (opened s' f) -> (n, raw) ∈ lost (opened s f)) by (intros raw; destruct Hl as [-> | ->]; [done|by intros ?%elem_of_nil]).
    unfold same_slot, page_of, may_find, unsettled. rewrite Hc, Hb, Hr. split_and!; [done| | |done].
    + intros o [|(raw & ? & ?)]; [by left|right; eauto].
    + intros [(raw & ?)|]; [left; eauto|by right].
Qed.

Local Program Instance server_laws : IoLaws ServerIo := {|
  file_image w k := page_of crc32 zstd_decompress w.(disk) k.1 k.2;
  may_hold w k o := may_find crc32 zstd_decompress w.(disk) k.1 k.2 o;
  unsynced w k := unsettled w.(disk) k.1 k.2;
  halfway w k := k.2 ∈ (opened w.(disk) k.1).(broken);
  storable := storable_page;
  io_ok w := store_ok w.(disk) /\ log_ok w;
  written_lsn := log_written;
  durable_lsn w := w.(wal).(flushed_lsn);
  extent w f := pages w.(disk) f;
  appended w pos w' := exists fault r m, append_positioned crc32 json_to_vec validate_shape fault r w.(wal) = (m, Ok (pos.(replay_from), pos.(record_lsn))) /\
    w' = mkServerIo w.(disk) m w.(assigned) w.(faults)
|}.
Next Obligation. intros w k H. by right. Qed.
Next Obligation. intros k w d _ E Hb. by apply load_reads. Qed.
Next Obligation. intros k w d. unfold page_of. case_bool_decide; [done|]. destruct (slot_at _ _) as [b|] eqn:E; [|done]. intros _. by apply slot_at_below in E as [? _]. Qed.
Next Obligation. intros f w n E Hle. by apply count_pages. Qed.
Next Obligation.
  cbn. intros k d w w' res [Hst Hlog] Hd E. unfold on_disk_store in E. destruct (write_page _ _ _ _ _ _) as [s r] eqn:Ew. injection E as <- <-.
  destruct (write_page_spec crc32 zstd_compress zstd_decompress Hcrc Hz _ _ _ _ _ _ Hst Hd Ew) as (Hok & Hp & Hsame & Hf & Hdone). cbn. split_and!; [done|done|done|done| | |done].
  - intros k' Hne. apply Hsame. destruct k, k'. cbn. congruence.
  - done.
Qed.
Next Obligation.
  cbn. intros fs w w' res [Hst Hlog] E. unfold on_disk_store in E. destruct (sync_files fs _) as [s r] eqn:Es. injection E as <- <-. destruct (sync_same _ _ _ _ Es) as [[Hp Hok] Hsame]. cbn.
  split_and!; [done|done|done|tauto|intros k; apply Hsame|]. intros -> k Hk Hb. destruct (sync_files_spec _ _ _ _ Es) as (_ & _ & _ & Hl). specialize (Hl eq_refl _ Hk). unfold unsettled, may_find. rewrite Hl. split.
  - intros [(raw & ?%elem_of_nil)|]; done.
  - intros o [[_ Hf]|(raw & ?%elem_of_nil & _)]; [|done]. unfold page_of. rewrite bool_decide_eq_false_2 by done. destruct (slot_at _ _); cbn in *; [|done]. by destruct Hf as (d & -> & ->).
Qed.
Next Obligation.
  cbn. unfold wal_ensure_durable. intros w w' res [Hst [Hle Has]]. destruct (match faults w with [] => _ | _ => _ end) as [fault rest]. destruct (flush crc32 fault (wal w)) as [m r] eqn:Ef. intros [= <- <-].
  unfold log_written, log_ok. cbn. destruct (flush_outcome _ _ _ _ Ef Hle) as [(Hr & Hp & Hp' & E1 & E2)|(Hr & [e Hp'] & E1 & E2)]; rewrite ?E1, ?E2, Hp'.
  - specialize (Has Hp). split_and!; try done; try lia; intros; split_and!; try done; lia.
  - split_and!; try done; try lia; [|by destruct r]. intros _. split; [done|]. split; [lia|done].
Qed.
Next Obligation.
  cbn. intros w pos w' [Hst [Hle Has]] (fault & r & m & E & ->). destruct (append_outcome _ _ _ _ _ _ E) as (Hp & Hp' & E1 & E2 & Hlt & E3). specialize (Has Hp). unfold log_written, log_ok. cbn. rewrite E3, Hp' in *.
  split_and!; try done; try lia. intros _. split_and!; [done|lia|]. intros _. lia.
Qed.

(** The page files and the log fit together at every moment.  The pool runs over the page files
    and the log manager, with compressed pages and with I/O that fails anywhere; a checkpoint
    builds its dirty-page table at some point.  Whenever the machine stops after that, what
    the bytes of a page file hold of a page, short of a torn write, is the page after some
    number of its published versions; the log is durable up to the record of the last of
    them, and every version that is missing starts at or after the boundary of the
    checkpoint. *)
Theorem files_and_log_fit s entries s' k o : reachable s -> dirty_page_table s.(pool) = Ok entries -> rtc step s s' ->
  may_find crc32 zstd_decompress s'.(pool).(world).(disk) k.1 k.2 o ->
  exists n, (n <= length (s'.(versions) k))%nat /\ o = v_image <$> last (take n (s'.(versions) k)) /\
    (forall v, last (take n (s'.(versions) k)) = Some v -> v.(v_pos).(record_lsn) <= s'.(pool).(world).(wal).(flushed_lsn)) /\
    forall j v', (n <= j)%nat -> s'.(versions) k !! j = Some v' -> redo_boundary entries (log_written s.(pool).(world)) <= v'.(v_pos).(replay_from).
Proof using Hcrc Hz. intros Hs E Hr Hm. exact (crash_finds s entries s' k o (reachable_ok s Hs) E Hr Hm). Qed.
End ServerIo.

(** ** Witness *)

Local Instance demo_server_store : PageStore ServerIo := server_store demo_crc demo_compress demo_decompress.
Local Instance demo_server_policy : FlushPolicy ServerIo := wal_flush_policy demo_crc.
Local Instance demo_server_laws : IoLaws ServerIo := server_laws demo_crc tag_json_to_vec shape_ok demo_compress demo_decompress demo_crc_fits demo_zstd.

Definition demo_wal : FileWalManager :=
  mkManager (mkWalDir {[0 := header_bytes demo_crc 0]} None) None 0 None 0 0 0 Clog_new ∅ FIRST_NORMAL_XID false None None.
Definition demo_io : ServerIo := mkServerIo demo_store demo_wal 0 [].
Definition demo_start : System := mkSystem (mkPool 1 true ∅ (mkPoolState ∅ [] 0 ∅ ∅ ∅) demo_io) (fun _ => []) (fun _ => 0) ∅ [].

Lemma demo_start_booted : booted demo_start.
Proof.
  split_and!; [split; [apply demo_store_ok|]; by vm_compute|by eexists _, _, _|done|done|done|]. intros k. split; [|constructor].
  assert (Hslot : slot_at (contents demo_store k.1) k.2 = None).
  { unfold contents. cbn [dir demo_store open_with_compression]. rewrite lookup_empty. cbn. unfold slot_at. rewrite (proj2 (N.ltb_lt _ _)); [done|]. change (len []) with 0. unfold PAGE_SIZE. lia. }
  split_and!.
  - intros [(raw & H)|H]; cbn in H; [by apply elem_of_nil in H|set_solver].
  - cbn. unfold page_of. rewrite bool_decide_eq_false_2 by (cbn; set_solver). by rewrite Hslot.
  - intros o [[_ Ho]|(raw & H & _)]; [|cbn in H; by apply elem_of_nil in H]. cbn in Ho. by rewrite Hslot in Ho.
  - done.
Qed.

(** A page is allocated and initialized. *)
Definition demo_seeded : System := with_pool (ensure_extent_seeded 4 demo_start.(pool)).1 demo_start.
Definition demo_new : System := hold 0 (with_pool (allocate_page 4 demo_seeded.(pool)).1 demo_seeded).
Definition demo_record : @WalRecord unit := mkWalRecord 0 3 (HeapInit 4 0).
Definition demo_appended : FileWalManager * DbResult (N * N) := append_positioned demo_crc tag_json_to_vec shape_ok None demo_record demo_wal.
Definition demo_pos : WalPosition := match demo_appended.2 with Ok (a, b) => mkPosition a b | Err _ => mkPosition 0 0 end.
Definition demo_logged : ServerIo := mkServerIo demo_store demo_appended.1 0 [].
Definition demo_frame : Frame :=
  match publish_mutation 3 demo_pos (set_data demo_d (set_needs_fpi false (frame_of demo_new.(pool) 0))) with Ok f => f | Err _ => frame_of demo_new.(pool) 0 end.
Definition demo_published : System :=
  add_version demo_frame.(f_key) (mkVersion demo_pos demo_d (whole_record demo_new (frame_of demo_new.(pool) 0)))
    (with_pool (with_world demo_logged (update_frame 0 (fun _ => demo_frame) demo_new.(pool))) demo_new).

Lemma demo_published_reachable : reachable demo_published.
Proof.
  exists demo_start. split; [apply demo_start_booted|]. apply (rtc_l _ _ demo_seeded); [apply (step_seed demo_start 4); [by vm_compute|by vm_compute]|].
  apply (rtc_l _ _ demo_new); [apply (step_new demo_seeded 4 _ 0 0); [cbn; set_solver|by vm_compute|done]|].
  apply rtc_once. apply (step_publish demo_new 0 3 demo_d demo_pos demo_logged demo_frame); [by vm_compute|apply demo_storable| |by vm_compute].
  exists None, demo_record, demo_appended.1. split; [by vm_compute|done].
Qed.

(** A crash finds nothing of the page: its only version is in the log from the boundary on. *)
Lemma files_and_log_fit_witness : exists n, (n <= 1)%nat /\ None = v_image <$> last (take n (demo_published.(versions) (4, 0))) /\
  forall j v', (n <= j)%nat -> demo_published.(versions) (4, 0) !! j = Some v' -> redo_boundary [mkDirtyPage 4 0 0] 0 <= v'.(v_pos).(replay_from).
Proof.
  destruct (files_and_log_fit demo_crc tag_json_to_vec shape_ok demo_compress demo_decompress demo_crc_fits demo_zstd demo_published [mkDirtyPage 4 0 0] demo_published (4, 0) None)
    as (n & H1 & H2 & _ & H3).
  - apply demo_published_reachable.
  - vm_compute. reflexivity.
  - apply rtc_refl.
  - left. split; [vm_compute; intros [=]|vm_compute; reflexivity].
  - exists n. split; [exact H1|]. split; [exact H2|]. intros j v' Hj E. exact (H3 j v' Hj E).
Defined.
