(* ===== verification/Control.v ===== *)
(** * The control file (src/crates/control/src/manifest.rs, src/crates/control/src/control.rs)

    The record that a checkpoint commits with: its envelope and validation, and the store
    that replaces the file by writing, syncing and renaming a temporary one.  Every call to the
    operating system takes an answer and may fail; the manifests a crash may find are kept.
    The checksum and the payload serializer ([serde_json], with the bounds its visitors
    enforce) are parameters; allocation succeeds. *)

From S2P Require Import Prelude Errors CheckedBytes Page BufferPool PageFile.
Local Open Scope N_scope.

Definition MANIFEST_MAGIC : bytes := [83; 71; 77; 70]. (* SGMF *)
Definition MANIFEST_VERSION : N := 6.
Definition MANIFEST_HEADER_LEN : N := 16.
Definition MAX_MANIFEST_BYTES : N := 272 * 1024 * 1024.
Definition MAX_MANIFEST_PAYLOAD_BYTES : N := MAX_MANIFEST_BYTES - MANIFEST_HEADER_LEN.
Definition MAX_MANIFEST_TABLES : N := 65536.
Definition MAX_MANIFEST_CATALOG_BYTES : N := 64 * 1024 * 1024.
Definition MAX_DIRTY_PAGES : N := 1000000.

Record ControlData : Type := mkControl {
  checkpoint_end_lsn : N;
  page_redo_lsn : N;
  catalog_redo_lsn : N;
  dirty_pages : list DirtyPageEntry;
  tables : list N;
  catalog : bytes;
  page_size : N
}.

Definition corrupt_control (m : string) : DbError := db_storage InternalError m.

(** ** Validation *)

(** [windows(2).any(|pair| left >= right)]. *)
Fixpoint any_descent {A} (ge : A -> A -> bool) (l : list A) : bool :=
  match l with
  | x :: ((y :: _) as l') => ge x y || any_descent ge l'
  | _ => false
  end.
(** The order of pairs. *)
Definition entry_ge (left right : DirtyPageEntry) : bool :=
  (right.(dp_file_id) <? left.(dp_file_id)) ||
  ((left.(dp_file_id) =? right.(dp_file_id)) && (right.(dp_page_num) <=? left.(dp_page_num))).

Definition validate_redo_boundaries (c : ControlData) : DbResult unit :=
  if MAX_DIRTY_PAGES <? len c.(dirty_pages) then Err (corrupt_control "control file has too many dirty pages")
  else if c.(checkpoint_end_lsn) <? c.(catalog_redo_lsn) then Err (corrupt_control "catalog redo LSN is beyond checkpoint end")
  else if any_descent entry_ge c.(dirty_pages) then Err (corrupt_control "dirty pages must be sorted by file and page without duplicates")
  else if existsb (fun e => c.(checkpoint_end_lsn) <? e.(dp_rec_lsn)) c.(dirty_pages) then Err (corrupt_control "dirty-page redo LSN is beyond checkpoint end")
  else
    let expected := default c.(checkpoint_end_lsn) (list_min (dp_rec_lsn <$> c.(dirty_pages))) in
    if negb (c.(page_redo_lsn) =? expected) then Err (corrupt_control "page redo LSN does not match the dirty-page table")
    else Ok ().

Definition validate_sorted_tables (l : list N) : DbResult unit :=
  if any_descent (fun left right => right <=? left) l
  then Err (corrupt_control "control file tables must contain sorted table ids without duplicates")
  else Ok ().

Definition read_u32 (r : CheckedSliceReader) (field : string) : DbResult (N * CheckedSliceReader) :=
  map_err (fun _ => corrupt_control (field +:+ " is incomplete")) (read_u32_le r).

(** ** The directory *)

(** [manifest] is what the name [manifest.dat] leads to, and [earlier] what a crash may find
    there instead until the directory is synced. *)
Record FileControlStore : Type := mkControlStore {
  data_dir : string;
  store_page_size : N;
  manifest : option bytes;
  manifest_tmp : option bytes;
  earlier : list (option bytes);
  os : list Answer
}.
Definition with_tmp (t : option bytes) (s : FileControlStore) : FileControlStore :=
  mkControlStore s.(data_dir) s.(store_page_size) s.(manifest) t s.(earlier) s.(os).
Definition ask_os (s : FileControlStore) : FileControlStore * Answer :=
  match s.(os) with
  | [] => (s, Works)
  | a :: rest => (mkControlStore s.(data_dir) s.(store_page_size) s.(manifest) s.(manifest_tmp) s.(earlier) rest, a)
  end.
Definition manifest_path (s : FileControlStore) : string := s.(data_dir) +:+ "/manifest.dat".
Definition manifest_tmp_path (s : FileControlStore) : string := s.(data_dir) +:+ "/manifest.dat.tmp".
(** What a crash may find under the name. *)
Definition found (s : FileControlStore) (o : option bytes) : Prop := o = s.(manifest) \/ o ∈ s.(earlier).
(** The store that is opened after a crash that found [o]. *)
Definition reopened (s : FileControlStore) (o : option bytes) : FileControlStore :=
  mkControlStore s.(data_dir) s.(store_page_size) o s.(manifest_tmp) [] [].

Abbreviation CM := (SE FileControlStore DbError).

(** One call: it works and changes the directory, or fails, perhaps after a part of a write. *)
Definition call (works : FileControlStore -> FileControlStore) (fails : N -> FileControlStore -> FileControlStore)
    (m : FileControlStore -> string) : CM unit := fun s =>
  match ask_os s with
  | (s, Works) => (works s, Ok ())
  | (s, Fails e n) => (fails n s, Err (db_io (m s +:+ ": " +:+ errno_text e)))
  end.
Definition unchanged {A} (_ : A) (s : FileControlStore) : FileControlStore := s.

Definition open_store (where_ : string) (ps : N) (o : option bytes) (l : list Answer) : FileControlStore * DbResult unit :=
  call id unchanged (fun s => "failed to create data directory " +:+ s.(data_dir)) (mkControlStore where_ ps o None [] l).

Definition fsync_dir : CM unit :=
  call (fun s => mkControlStore s.(data_dir) s.(store_page_size) s.(manifest) s.(manifest_tmp) [] s.(os)) unchanged
    (fun s => "failed to fsync data directory " +:+ s.(data_dir)).

Definition CHUNK : N := 8192.
(** The loop that reads a file in chunks. *)
Fixpoint read_chunks (fuel : nat) (rest acc : bytes) : CM bytes :=
  match fuel with
  | O => lift (Err (db_internal "out of fuel"))
  | S fuel =>
      _ ← call id unchanged (fun s => "failed to read control file " +:+ manifest_path s);
      let chunk := take (N.to_nat CHUNK) rest in
      if len chunk =? 0 then mret acc
      else
        next_len ← lift (ok_or (checked_add USIZE_MAX (len acc) (len chunk)) (db_io "control file length overflows"));
        if MAX_MANIFEST_BYTES <? next_len then lift (Err (db_storage InternalError "control file exceeds size limit"))
        else read_chunks fuel (drop (N.to_nat CHUNK) rest) (acc ++ chunk)
  end.
Definition read_manifest_bounded (file : bytes) : CM bytes :=
  _ ← call id unchanged (fun s => "failed to inspect control file " +:+ manifest_path s);
  if USIZE_MAX <? len file then lift (Err (db_io "control file length does not fit this platform"))
  else if MAX_MANIFEST_BYTES <? len file then lift (Err (db_storage InternalError "control file exceeds size limit"))
  else read_chunks (S (length file)) file [].

Section Control.
Context (crc32 : bytes -> N).
Context (json_to_vec : ControlData -> result string bytes).
Context (json_from_slice : bytes -> result string ControlData).

Definition encode_control (c : ControlData) : DbResult bytes :=
  if MAX_MANIFEST_TABLES <? len c.(tables) then Err (corrupt_control "control file has too many table ids")
  else if MAX_MANIFEST_CATALOG_BYTES <? len c.(catalog) then Err (corrupt_control "control catalog exceeds 64 MiB")
  else
    _ ← validate_sorted_tables c.(tables);
    _ ← validate_redo_boundaries c;
    payload_bytes ← map_err (fun e => corrupt_control ("failed to encode control payload: " +:+ e)) (json_to_vec c);
    if MAX_MANIFEST_PAYLOAD_BYTES <? len payload_bytes then Err (corrupt_control "control payload exceeds size limit")
    else if U32_MAX <? len payload_bytes then Err (corrupt_control "control payload is too large")
    else
      let checksum := crc32 payload_bytes in
      _ ← ok_or (checked_add USIZE_MAX MANIFEST_HEADER_LEN (len payload_bytes)) (corrupt_control "control envelope length overflows");
      Ok (MANIFEST_MAGIC ++ to_le_bytes 4 MANIFEST_VERSION ++ to_le_bytes 4 (len payload_bytes) ++ to_le_bytes 4 checksum ++ payload_bytes).

Definition decode_control (b : bytes) : DbResult ControlData :=
  if MAX_MANIFEST_BYTES <? len b then Err (corrupt_control "control file exceeds size limit")
  else if len b <? MANIFEST_HEADER_LEN then Err (corrupt_control "control file is too short")
  else
    '(magic, r) ← map_err (fun _ => corrupt_control "control file is too short") (reader_take (reader_new b) (len MANIFEST_MAGIC));
    if bool_decide (magic <> MANIFEST_MAGIC) then Err (corrupt_control "control file magic mismatch")
    else
      '(version, r) ← read_u32 r "control file version";
      if negb (version =? MANIFEST_VERSION) then Err (corrupt_control ("unsupported control file version " +:+ pretty version))
      else
        '(payload_len, r) ← read_u32 r "control file payload length";
        if MAX_MANIFEST_PAYLOAD_BYTES <? payload_len then Err (corrupt_control "control payload exceeds size limit")
        else
          '(expected_checksum, r) ← read_u32 r "control file checksum";
          if negb (remaining r =? payload_len) then Err (corrupt_control "control file length mismatch")
          else
            '(payload_bytes, r) ← map_err (fun _ => corrupt_control "control file length mismatch") (reader_take r payload_len);
            _ ← map_err (fun _ => corrupt_control "control file length mismatch") (finish r);
            if negb (crc32 payload_bytes =? expected_checksum) then Err (corrupt_control "control file checksum mismatch")
            else
              payload ← map_err (fun e => corrupt_control ("failed to decode control payload: " +:+ e)) (json_from_slice payload_bytes);
              _ ← validate_sorted_tables payload.(tables);
              _ ← validate_redo_boundaries payload;
              Ok payload.

Definition load : CM (option ControlData) := fun s =>
  match ask_os s with
  | (s, Fails e _) => (s, Err (db_io ("failed to read control file " +:+ manifest_path s +:+ ": " +:+ errno_text e)))
  | (s, Works) =>
      match s.(manifest) with
      | None => (s, Ok None)
      | Some file =>
          (b ← read_manifest_bounded file;
           control ← lift (decode_control b);
           ps ← gets store_page_size;
           if negb (control.(page_size) =? ps)
           then lift (Err (db_storage InternalError
                  ("page size mismatch: data directory uses " +:+ pretty control.(page_size) +:+ " bytes, this binary uses " +:+ pretty ps)))
           else mret (Some control)) s
      end
  end.

Definition store (control : ControlData) : CM unit :=
  ps ← gets store_page_size;
  if negb (control.(page_size) =? ps)
  then lift (Err (db_storage InternalError "control page size does not match the configured page size"))
  else
    b ← lift (encode_control control);
    _ ← call (with_tmp (Some [])) unchanged (fun s => "failed to open temporary control file " +:+ manifest_tmp_path s);
    _ ← call (with_tmp (Some b)) (fun n => with_tmp (Some (take (N.to_nat n) b))) (fun s => "failed to write temporary control file " +:+ manifest_tmp_path s);
    _ ← call id unchanged (fun s => "failed to fsync temporary control file " +:+ manifest_tmp_path s);
    _ ← call (fun s => mkControlStore s.(data_dir) s.(store_page_size) s.(manifest_tmp) None (s.(manifest) :: s.(earlier)) s.(os)) unchanged
          (fun s => "failed to replace control file " +:+ manifest_path s +:+ " with " +:+ manifest_tmp_path s);
    fsync_dir.

(** ** Lemmas *)

Lemma control_u32_app r v rest field : reads r (to_le_bytes 4 v ++ rest) -> v <= U32_MAX -> exists r', read_u32 r field = Ok (v, r') /\ reads r' rest.
Proof using. intros Hr Hv. destruct (read_u32_le_app r v rest Hr Hv) as (r' & E & Hr'). exists r'. unfold read_u32. by rewrite E. Qed.

(** Decoding an envelope is decoding its payload. *)
Lemma decode_manifest payload : len payload <= MAX_MANIFEST_PAYLOAD_BYTES -> crc32 payload <= U32_MAX ->
  decode_control (MANIFEST_MAGIC ++ to_le_bytes 4 MANIFEST_VERSION ++ to_le_bytes 4 (len payload) ++ to_le_bytes 4 (crc32 payload) ++ payload) =
  (p ← map_err (fun e => corrupt_control ("failed to decode control payload: " +:+ e)) (json_from_slice payload);
   _ ← validate_sorted_tables p.(tables); _ ← validate_redo_boundaries p; Ok p).
Proof using.
  intros Hlen Hcrc. set (b := MANIFEST_MAGIC ++ _). unfold decode_control. assert (Hb : len b = 16 + len payload) by (subst b; unfold len; rewrite !length_app, !length_to_le_bytes; simpl; lia).
  assert (Hm : MAX_MANIFEST_PAYLOAD_BYTES = 285212656) by done. assert (Hu : U32_MAX = 4294967295) by done. assert (Hz : USIZE_MAX = 18446744073709551615) by done.
  assert (Hx : MAX_MANIFEST_BYTES = 285212672) by done. assert (Hh : MANIFEST_HEADER_LEN = 16) by done. assert (Hv : MANIFEST_VERSION = 6) by done.
  destruct (N.ltb_spec MAX_MANIFEST_BYTES (len b)); [lia|]. destruct (N.ltb_spec (len b) MANIFEST_HEADER_LEN); [lia|].
  assert (Hr0 : reads (reader_new b) b) by (apply reads_new; lia). destruct (reader_take_app _ MANIFEST_MAGIC _ (len MANIFEST_MAGIC) Hr0 eq_refl) as (r1 & -> & Hr1).
  cbn [map_err mbind result_bind]. rewrite bool_decide_eq_false_2 by naive_solver.
  destruct (control_u32_app _ _ _ "control file version" Hr1 ltac:(lia)) as (r2 & -> & Hr2). cbn [mbind result_bind]. rewrite N.eqb_refl. cbn [negb].
  destruct (control_u32_app _ _ _ "control file payload length" Hr2 ltac:(lia)) as (r3 & -> & Hr3). cbn [mbind result_bind]. destruct (N.ltb_spec MAX_MANIFEST_PAYLOAD_BYTES (len payload)); [lia|].
  destruct (control_u32_app _ _ _ "control file checksum" Hr3 Hcrc) as (r4 & -> & Hr4). cbn [mbind result_bind]. rewrite (reads_remaining _ _ Hr4), N.eqb_refl. cbn [negb].
  rewrite <- (app_nil_r payload) in Hr4. destruct (reader_take_app _ payload [] (len payload) Hr4 eq_refl) as (r5 & -> & Hr5).
  cbn [map_err mbind result_bind]. rewrite (finish_nil _ Hr5). cbn [map_err mbind result_bind]. by rewrite N.eqb_refl.
Qed.

(** [serde_json] reads back what it wrote of a record within the bounds of its visitors, and a
    CRC-32 fits in 32 bits. *)
Definition control_serde : Prop := forall c b,
  len c.(tables) <= MAX_MANIFEST_TABLES -> len c.(catalog) <= MAX_MANIFEST_CATALOG_BYTES -> len c.(dirty_pages) <= MAX_DIRTY_PAGES ->
  json_to_vec c = Ok b -> json_from_slice b = Ok c.
Definition crc_small : Prop := forall b, crc32 b <= U32_MAX.

Lemma decode_encode_control c b : control_serde -> crc_small -> encode_control c = Ok b -> decode_control b = Ok c /\ len b <= MAX_MANIFEST_BYTES.
Proof using.
  intros Hs Hc H. unfold encode_control in H. inv_ok H. apply Ok_inj in H as <-. to_prop. destruct (json_to_vec c) as [payload|] eqn:Ej; [|done]. cbn in Hx1. apply Ok_inj in Hx1 as <-.
  destruct x, x0. rewrite decode_manifest by auto. rewrite (Hs c payload); [|done|done| |done].
  - cbn [map_err mbind result_bind]. rewrite Hx. cbn [mbind result_bind]. rewrite Hx0. split; [done|]. unfold len. rewrite !length_app, !length_to_le_bytes. change (length MANIFEST_MAGIC) with 4%nat.
    assert (MAX_MANIFEST_PAYLOAD_BYTES = 285212656) by done. assert (MAX_MANIFEST_BYTES = 285212672) by done. unfold len in *. lia.
  - unfold validate_redo_boundaries in Hx0. destruct (N.ltb_spec MAX_DIRTY_PAGES (len (dirty_pages c))); done.
Qed.

(** Reading a file that is not too long gives its bytes. *)
Lemma read_chunks_all fuel : forall rest acc s, (length rest < fuel)%nat -> len acc + len rest <= MAX_MANIFEST_BYTES -> s.(os) = [] ->
  read_chunks fuel rest acc s = (s, Ok (acc ++ rest)).
Proof using.
  induction fuel as [|fuel IH]; [lia|]. intros rest acc s Hf Hl Ho. cbn [read_chunks]. rewrite (se_bind_Ok _ _ s s ()); [|unfold call, ask_os; by rewrite Ho]. cbv zeta.
  assert (Hm : MAX_MANIFEST_BYTES = 285212672) by done. assert (Hz : USIZE_MAX = 18446744073709551615) by done.
  destruct (decide (rest = [])) as [->|Hne]; [by rewrite take_nil, app_nil_r|]. assert (Hc : 0 < CHUNK) by done. generalize CHUNK Hc. clear Hc. intros n Hc.
  assert (Hp : 0 < len (take (N.to_nat n) rest)) by (unfold len; rewrite length_take; destruct rest; [done|cbn [length]; lia]).
  assert (Hlen : len (take (N.to_nat n) rest) + len (drop (N.to_nat n) rest) = len rest) by (unfold len; rewrite length_take, length_drop; lia).
  pose proof (take_drop (N.to_nat n) rest) as Hsp. revert Hp Hlen Hsp. generalize (take (N.to_nat n) rest), (drop (N.to_nat n) rest). intros chunk more Hp Hlen Hsp.
  destruct (N.eqb_spec (len chunk) 0); [lia|]. assert (Ea : checked_add USIZE_MAX (len acc) (len chunk) = Some (len acc + len chunk)) by (apply checked_add_Some; lia). rewrite Ea. cbn [ok_or]. rewrite lift_bind_Ok.
  destruct (N.ltb_spec MAX_MANIFEST_BYTES (len acc + len chunk)); [lia|]. rewrite IH; [by rewrite <- app_assoc, Hsp| |unfold len in *; rewrite length_app; lia|done].
  unfold len in *. lia.
Qed.

Lemma load_reopened s b : len b <= MAX_MANIFEST_BYTES ->
  load (reopened s (Some b)) = (reopened s (Some b),
    c ← decode_control b;
    if negb (c.(page_size) =? s.(store_page_size))
    then Err (db_storage InternalError ("page size mismatch: data directory uses " +:+ pretty c.(page_size) +:+ " bytes, this binary uses " +:+ pretty s.(store_page_size)))
    else Ok (Some c)).
Proof using.
  intros Hl. unfold load, ask_os, reopened. cbn [os manifest]. unfold read_manifest_bounded. set (t := mkControlStore _ _ _ _ _ _).
  assert (Hm : MAX_MANIFEST_BYTES = 285212672) by done. assert (Hz : USIZE_MAX = 18446744073709551615) by done.
  rewrite (se_bind_Ok _ _ t t b); [unfold mbind at 1, se_bind at 1, lift|].
  - destruct (decode_control b) as [c|e]; [|done]. rewrite gets_bind. cbn [mbind result_bind]. change (store_page_size t) with (store_page_size s). by destruct (negb _).
  - rewrite (se_bind_Ok _ _ t t ()) by done. rewrite !(proj2 (N.ltb_ge _ _)) by lia. rewrite read_chunks_all; [done|lia|change (len []) with 0; lia|done].
Qed.

(** Every call keeps the manifests a crash may find, but for the renaming. *)
Definition keeps_found (s s' : FileControlStore) : Prop := s'.(manifest) = s.(manifest) /\ s'.(earlier) = s.(earlier) /\ s'.(store_page_size) = s.(store_page_size).
Lemma call_inv works fails m s s' r : call works fails m s = (s', r) ->
  exists s1, keeps_found s s1 /\ s1.(manifest_tmp) = s.(manifest_tmp) /\ ((r = Ok () /\ s' = works s1) \/ (is_ok r = false /\ exists n, s' = fails n s1)).
Proof using.
  unfold call, ask_os. destruct (os s) as [|[|e n] rest]; intros [= <- <-].
  - exists s. split_and!; [done|done|by left].
  - eexists (mkControlStore _ _ _ _ _ rest). split_and!; [done|done|by left].
  - eexists (mkControlStore _ _ _ _ _ rest). split_and!; [done|done|]. right. split; [done|]. by exists n.
Qed.
Lemma call_bind {A} works fails m (f : unit -> CM A) s s' r : (call works fails m ≫= f) s = (s', r) ->
  exists s1, keeps_found s s1 /\ s1.(manifest_tmp) = s.(manifest_tmp) /\ (f () (works s1) = (s', r) \/ (is_ok r = false /\ exists n, s' = fails n s1)).
Proof using.
  unfold mbind, se_bind. destruct (call works fails m s) as [s1 [[]|e]] eqn:E; apply call_inv in E as (s2 & Hk & Ht & [(E & ->)|(E & n & ->)]); try done; intros H; exists s2; split_and!; try done; [by left|].
  injection H as <- <-. right. split; [done|]. by exists n.
Qed.
Lemma keeps_trans s1 s2 s3 : keeps_found s1 s2 -> keeps_found s2 s3 -> keeps_found s1 s3.
Proof using. intros (? & ? & ?) (? & ? & ?). split_and!; congruence. Qed.

(** What a store leaves: everything as it was and an error, or the new manifest under the
    name, and until the directory is synced the old ones behind it. *)
Lemma store_outcome c s s' r : store c s = (s', r) -> s'.(store_page_size) = s.(store_page_size) /\
  ((is_ok r = false /\ keeps_found s s') \/
   exists b, encode_control c = Ok b /\ c.(page_size) = s.(store_page_size) /\ s'.(manifest) = Some b /\
     ((r = Ok () /\ s'.(earlier) = []) \/ (is_ok r = false /\ s'.(earlier) = s.(manifest) :: s.(earlier)))).
Proof using.
  unfold store. rewrite gets_bind. destruct (N.eqb_spec (page_size c) (store_page_size s)) as [Hps|]; cbn [negb]; [|intros [= <- <-]; split; [done|by left]].
  destruct (encode_control c) as [b|e] eqn:Eb; [rewrite lift_bind_Ok|intros [= <- <-]; split; [done|by left]].
  intros (s1 & K1 & _ & H)%call_bind. destruct H as [H|(Hr & n & ->)]; [|by split; [apply K1|left]].
  apply call_bind in H as (s2 & K2 & _ & H). assert (K2' : keeps_found s s2) by (by eapply keeps_trans). destruct H as [H|(Hr & n & ->)]; [|by split; [apply K2'|left]].
  apply call_bind in H as (s3 & K3 & Ht3 & H). assert (K3' : keeps_found s s3) by (by eapply keeps_trans). destruct H as [H|(Hr & n & ->)]; [|by split; [apply K3'|left]].
  apply call_bind in H as (s4 & K4 & Ht4 & H). assert (K4' : keeps_found s s4) by (by eapply keeps_trans). destruct H as [H|(Hr & n & ->)]; [|by split; [apply K4'|left]].
  assert (Ht : s4.(manifest_tmp) = Some b) by (rewrite Ht4; cbn [id]; by rewrite Ht3). destruct K4' as (Em & Ee & Ep).
  apply call_inv in H as (s5 & (E1 & E2 & E3) & _ & [(-> & ->)|(Hr & n & ->)]); unfold unchanged; cbn in *; (split; [congruence|right; exists b; split_and!; try done; [congruence|]]).
  - by left.
  - right. split; [done|]. congruence.
Qed.

(** ** Properties *)

Context (Hserde : control_serde) (Hcrc : crc_small).


Lemma any_descent_sorted {A} (ge : A -> A -> bool) (R : A -> A -> Prop) l : (forall x y, ge x y = false -> R x y) -> any_descent ge l = false -> Sorted R l.
Proof using.
  intros HR. induction l as [|x [|y l] IH]; [constructor|repeat constructor|]. cbn [any_descent]. intros [H1 H2]%orb_false_iff. constructor; [by apply IH|]. constructor. by apply HR.
Qed.

(** The order of the pages of the table, strictly. *)
Definition entry_lt (a b : DirtyPageEntry) : Prop :=
  a.(dp_file_id) < b.(dp_file_id) \/ (a.(dp_file_id) = b.(dp_file_id) /\ a.(dp_page_num) < b.(dp_page_num)).
Lemma entry_ge_lt a b : entry_ge a b = false <-> entry_lt a b.
Proof using. unfold entry_ge, entry_lt. destruct (N.ltb_spec (dp_file_id b) (dp_file_id a)), (N.eqb_spec (dp_file_id a) (dp_file_id b)), (N.leb_spec (dp_page_num b) (dp_page_num a)); cbn; split; (done || lia). Qed.

(** What the validation checks. *)
Record control_ok (c : ControlData) : Prop := {
  cok_tables : StronglySorted N.lt c.(tables);
  cok_pages : StronglySorted entry_lt c.(dirty_pages);
  cok_count : len c.(dirty_pages) <= MAX_DIRTY_PAGES;
  cok_catalog : c.(catalog_redo_lsn) <= c.(checkpoint_end_lsn);
  cok_recs : forall e, e ∈ c.(dirty_pages) -> c.(page_redo_lsn) <= e.(dp_rec_lsn) /\ e.(dp_rec_lsn) <= c.(checkpoint_end_lsn);
  cok_redo : c.(page_redo_lsn) = default c.(checkpoint_end_lsn) (list_min (dp_rec_lsn <$> c.(dirty_pages)));
  cok_end : c.(page_redo_lsn) <= c.(checkpoint_end_lsn)
}.
Lemma validated_ok c : validate_sorted_tables c.(tables) = Ok () -> validate_redo_boundaries c = Ok () -> control_ok c.
Proof using.
  unfold validate_sorted_tables, validate_redo_boundaries. intros Ht Hr. inv_ok Ht. inv_ok Hr. apply negb_false_iff, N.eqb_eq in E4. apply N.ltb_ge in E0, E1.
  assert (He : forall e, e ∈ dirty_pages c -> dp_rec_lsn e <= checkpoint_end_lsn c).
  { intros e He. apply N.nlt_ge. intros Hlt. apply not_true_iff_false in E3. apply E3, existsb_exists. exists e. split; [by apply list_elem_of_In|by apply N.ltb_lt]. }
  assert (Hmin : forall m, list_min (dp_rec_lsn <$> dirty_pages c) = Some m -> m <= checkpoint_end_lsn c).
  { intros m [Hm _]%list_min_Some. apply list_elem_of_fmap in Hm as (e & -> & Hin). auto. }
  split; try done.
  - apply Sorted_StronglySorted; [intros ???; apply N.lt_trans|]. by eapply any_descent_sorted; [|exact E]; intros x y ?%N.leb_gt.
  - apply Sorted_StronglySorted; [intros x y z; unfold entry_lt; lia|]. eapply any_descent_sorted; [|exact E2]. intros x y. apply entry_ge_lt.
  - intros e Hin. split; [|by apply He]. rewrite E4. destruct (list_min _) as [m|] eqn:Em; cbn.
    + apply list_min_Some in Em as [_ Hle]. apply Hle, list_elem_of_fmap. eauto.
    + apply list_min_None, fmap_nil_inv in Em. rewrite Em in Hin. by apply elem_of_nil in Hin.
  - rewrite E4. destruct (list_min _) as [m|] eqn:Em; cbn; [by apply Hmin|done].
Qed.

(** Reading leaves the configured page size. *)
Definition same_size (s s' : FileControlStore) : Prop := s'.(store_page_size) = s.(store_page_size).
Local Instance same_size_preorder : PreOrder same_size.
Proof using. split; [done|]. intros s1 s2 s3 E1 E2. unfold same_size in *. congruence. Qed.
Lemma call_size m : moves_by same_size (call id unchanged m).
Proof using. intros t. unfold call, ask_os, unchanged. by destruct (os t) as [|[] ?]. Qed.
Lemma read_chunks_size fuel : forall rest acc, moves_by same_size (read_chunks fuel rest acc).
Proof using. induction fuel as [|fuel IH]; intros rest acc; cbn [read_chunks]; moves; first [apply call_size|apply IH]. Qed.
Lemma read_manifest_size file : moves_by same_size (read_manifest_bounded file).
Proof using. unfold read_manifest_bounded. generalize (S (length file)) as fuel. intros fuel. moves; first [apply call_size|apply read_chunks_size]. Qed.

(** A manifest that loads is well formed, whatever bytes are in the file: its tables and its
    dirty pages are listed in order and once, and its redo boundaries are those of its
    dirty-page table and not beyond its end. *)
Theorem loaded_control_valid s s' c : load s = (s', Ok (Some c)) -> control_ok c /\ c.(page_size) = s.(store_page_size).
Proof using.
  unfold load. destruct (ask_os s) as [s1 []] eqn:Ea; [|done]. assert (Hps : store_page_size s1 = store_page_size s) by (unfold ask_os in Ea; destruct (os s); by simplify_eq).
  destruct (manifest s1) as [file|]; [|done]. intros H. apply se_bind_inv in H as (s2 & b & Hb & H). apply se_bind_inv in H as (s3 & c' & Hc & H). injection Hc as <- Hc.
  rewrite gets_bind in H. destruct (N.eqb_spec (page_size c') (store_page_size s2)) as [Hp|]; [|done]. cbn in H. injection H as <- <-. split.
  - unfold decode_control in Hc. inv_ok Hc. apply Ok_inj in Hc as <-. match goal with H1 : validate_sorted_tables _ = Ok ?a, H2 : validate_redo_boundaries _ = Ok ?b |- _ => destruct a, b; by apply validated_ok end.
  - pose proof (read_manifest_size file s1) as Hm. rewrite Hb in Hm. unfold same_size in Hm. cbn in Hm. congruence.
Qed.
End Control.

(** ** Witnesses *)

Definition entry_tuple (e : DirtyPageEntry) : N * N * N := (e.(dp_file_id), e.(dp_page_num), e.(dp_rec_lsn)).
Definition tuple_entry (t : N * N * N) : DirtyPageEntry := mkDirtyPage t.1.1 t.1.2 t.2.
Definition control_tuple (c : ControlData) :=
  (c.(checkpoint_end_lsn), c.(page_redo_lsn), c.(catalog_redo_lsn), entry_tuple <$> c.(dirty_pages), c.(tables), c.(catalog), c.(page_size)).
Definition demo_control_to_vec (c : ControlData) : result string bytes := Ok [Npos (encode (control_tuple c))].
Definition demo_control_from_slice (b : bytes) : result string ControlData :=
  match b with
  | [Npos p] =>
      match decode p with
      | Some (a1, a2, a3, a4, a5, a6, a7) => Ok (mkControl a1 a2 a3 (tuple_entry <$> a4) a5 a6 a7)
      | None => Err "payload"
      end
  | _ => Err "payload"
  end.
Lemma demo_control_serde : control_serde demo_control_to_vec demo_control_from_slice.
Proof.
  intros c b _ _ _ [= <-]. cbn [demo_control_from_slice]. rewrite decode_encode. unfold control_tuple. rewrite <- list_fmap_compose.
  rewrite (list_fmap_ext (tuple_entry ∘ entry_tuple) id) by (intros i [] _; done). rewrite list_fmap_id. by destruct c.
Qed.

Definition demo_old : ControlData := mkControl 40 40 40 [] [1] [] PAGE_SIZE.
Definition demo_control : ControlData := mkControl 90 60 80 [mkDirtyPage 4 0 60; mkDirtyPage 4 2 70] [1; 2] [5; 6] PAGE_SIZE.
Definition demo_crc7 (_ : bytes) : N := 7.
Definition demo_old_bytes : bytes := match encode_control demo_crc7 demo_control_to_vec demo_old with Ok b => b | Err _ => [] end.
(** The sync of the directory after the renaming fails. *)
Definition demo_control_store : FileControlStore := mkControlStore "d" PAGE_SIZE (Some demo_old_bytes) None [] [Works; Works; Works; Works; Fails INVAL 0].
Definition demo_stored : FileControlStore := (store demo_crc7 demo_control_to_vec demo_control demo_control_store).1.


Lemma loaded_control_valid_witness : control_ok demo_control /\ page_size demo_control = PAGE_SIZE.
Proof.
  apply (loaded_control_valid demo_crc7 demo_control_from_slice (reopened demo_stored demo_stored.(manifest)) (reopened demo_stored demo_stored.(manifest)) demo_control).
  vm_compute. reflexivity.
Defined.
