(* ===== verification/LogUse.v ===== *)
(** * The log seen from a checkpoint (src/crates/wal/src/file.rs, src/crates/wal/src/segment.rs)

    What every use of the log manager does to its positions and to the metadata file that a
    restart reads, whatever fails on the way: the durable end does not go back, the replay
    floor only moves by recycling, and the written end goes back only when the manager refuses
    everything from then on. *)

From S2P Require Import Prelude Errors Mvcc Clog CheckedBytes ClogFile WalCodec WalSegment WalFile.
Local Open Scope N_scope.

(** ** The metadata file *)

Definition same_meta (d d' : WalDir) : Prop := d'.(meta_file) = d.(meta_file).
Global Instance same_meta_preorder : PreOrder same_meta.
Proof. split; [done|]. intros d1 d2 d3. unfold same_meta. congruence. Qed.
Definition same_meta_active (s s' : WalDir * N) : Prop := same_meta s.1 s'.1.
Global Instance same_meta_active_preorder : PreOrder same_meta_active.
Proof. split; [done|]. intros d1 d2 d3. unfold same_meta_active, same_meta. congruence. Qed.

Section LogUse.
Context {CatalogChangeSet : Type}.
Context (crc32 : bytes -> N).
Context (json_to_vec : @WalRecordKind CatalogChangeSet -> result string bytes).
Context (json_from_slice : bytes -> result string (@WalRecordKind CatalogChangeSet)).
Context (subxids_from_slice : bytes -> result string (list N)).
Context (validate_shape : CatalogChangeSet -> result string unit).
Context (clog_to_vec : ClogSnapshot -> result string bytes).
Context (clog_from_slice : bytes -> result string ClogSnapshot).

Lemma remove_segment_meta n : moves_by same_meta (remove_segment n).
Proof using. apply moves_modify. done. Qed.
Lemma create_segment_meta n : moves_by same_meta (create_segment crc32 n).
Proof using. unfold create_segment. moves. done. Qed.
Lemma open_or_create_meta n : moves_by same_meta (open_or_create crc32 n).
Proof using. intros d. unfold open_or_create. destruct (read_segment _ _ _); [done|]. case_bool_decide; [apply create_segment_meta|done]. Qed.
Lemma load_meta_meta : moves_by same_meta (load_meta crc32).
Proof using. unfold load_meta. moves. Qed.
Lemma remove_down_meta fuel : forall n first, moves_by same_meta (remove_down fuel n first).
Proof using. induction fuel; intros n first; cbn [remove_down]; moves; first [apply remove_segment_meta|done|auto]. Qed.
Lemma truncate_stream_meta a b c : moves_by same_meta (truncate_stream crc32 a b c).
Proof using. unfold truncate_stream. moves; first [apply remove_down_meta|apply open_or_create_meta|done]. Qed.
Lemma recycle_up_meta fuel : forall n first, moves_by same_meta (recycle_up fuel n first).
Proof using. induction fuel; intros n first; cbn [recycle_up]; moves; first [apply remove_segment_meta|done|auto]. Qed.
Lemma recycle_segments_meta a b : moves_by same_meta (recycle_segments a b).
Proof using. apply recycle_up_meta. Qed.
Lemma recycle_orphaned_meta a : moves_by same_meta (recycle_orphaned_segments a).
Proof using. unfold recycle_orphaned_segments. moves. apply remove_segment_meta. Qed.
Lemma append_stream_meta fuel : forall fault p b, moves_by same_meta_active (append_stream crc32 fuel fault p b).
Proof using.
  induction fuel as [|fuel IH]; intros fault p b; cbn [append_stream]; [apply moves_ret, _|].
  assert (Hin : forall n, moves_by same_meta_active (in_dir (open_or_create crc32 n))).
  { intros n [d a]. unfold in_dir. pose proof (open_or_create_meta n d) as H. cbn [fst]. destruct (open_or_create _ _ _). done. }
  unfold select_segment, write_active. moves; first [apply Hin|apply IH|done].
Qed.

(** ** The positions *)

(** A restart would read the replay floor [floor] and the durable end [dend]. *)
Record log_at (floor dend : Lsn) (m : FileWalManager) : Prop := {
  la_meta : m.(wal_dir).(meta_file) = Some (encode_meta crc32 (mkWalMeta floor dend));
  la_durable : m.(flushed_lsn) <= dend;
  la_order : m.(flushed_lsn) <= m.(written_lsn);
  la_fits : m.(written_lsn) <= U64_MAX /\ dend <= U64_MAX /\ floor <= U64_MAX;
  la_live : m.(poisoned) = None -> floor = m.(mgr_replay_floor) /\ dend = m.(flushed_lsn)
}.

Definition log_moves (m m' : FileWalManager) : Prop :=
  m.(flushed_lsn) <= m'.(flushed_lsn) /\ (m'.(poisoned) = None -> m.(poisoned) = None /\ m.(written_lsn) <= m'.(written_lsn)) /\
  forall floor dend, log_at floor dend m -> exists dend', dend <= dend' /\ log_at floor dend' m'.
Global Instance log_moves_preorder : PreOrder log_moves.
Proof using.
  split.
  - intros m. split_and!; [done|done|]. intros floor dend H. by exists dend.
  - intros m1 m2 m3 (A1 & A2 & A3) (B1 & B2 & B3). split_and!; [lia| |].
    + intros [? ?]%B2. destruct A2; [done|]. split; [done|lia].
    + intros floor dend (d2 & ? & (d3 & ? & ?)%B3)%A3. exists d3. split; [lia|done].
Qed.

(** A use that leaves the positions alone. *)
Lemma log_moves_same m m' : same_meta m.(wal_dir) m'.(wal_dir) -> m'.(flushed_lsn) = m.(flushed_lsn) -> m'.(written_lsn) = m.(written_lsn) ->
  m'.(mgr_replay_floor) = m.(mgr_replay_floor) -> (m'.(poisoned) = None -> m.(poisoned) = None) -> log_moves m m'.
Proof using.
  intros E1 E2 E3 E4 E5. unfold log_moves. rewrite E2, E3. split_and!; [done|auto|]. intros floor dend [L1 L2 L3 L4 L5]. exists dend. split; [done|].
  split; rewrite ?E2, ?E3, ?E4; auto. by rewrite E1.
Qed.

Lemma append_moves fault r : moves_by log_moves (append_positioned crc32 json_to_vec validate_shape fault r).
Proof using.
  intros m. unfold append_positioned. rewrite gets_bind. destruct (_ && _ && _); [reflexivity|]. rewrite modify_bind. set (m1 := with_clog _ m).
  assert (H1 : log_moves m m1) by (by apply log_moves_same). etrans; [exact H1|]. clearbody m1. unfold mbind at 1, se_bind at 1, lock_state. destruct (poisoned m1) as [e|] eqn:Ep; [reflexivity|].
  rewrite gets_bind. unfold mbind at 1, se_bind at 1, lift at 1. destruct (encode_record_at _ _ _ _ _) as [[record b]|e] eqn:Er; [|reflexivity]. unfold mbind at 1, se_bind at 1. cbv zeta.
  pose proof (append_stream_meta (length b) fault (written_lsn m1) b (wal_dir m1, active_number m1)) as Hm. destruct (append_stream _ _ _ _ _ _) as [[d act] res]. change (meta_file d = meta_file (wal_dir m1)) in Hm.
  assert (H2 : log_moves m1 (with_dir d act m1)) by (by apply log_moves_same). destruct res as [[]|e].
  - rewrite !modify_bind. unfold lift. cbn [fst]. unfold encode_record_at in Er. inv_ok Er. apply Ok_inj in Er. injection Er as <- <-. cbn [lsn].
    match goal with H : ok_or (checked_add _ _ _) _ = Ok _ |- _ => rename H into Ha end. destruct (checked_add _ _ _) as [c|] eqn:Ec; [|done]. apply checked_add_Some in Ec as [-> Hle]. cbn in Ha. apply Ok_inj in Ha as <-.
    unfold log_moves. cbn. split_and!; [done|intros _; split; [done|lia]|]. intros floor dend [L1 L2 L3 L4 L5]. exists dend. split; [done|]. split; cbn; [by rewrite Hm|done|lia|lia|done].
  - etrans; [exact H2|]. unfold mbind, se_bind, repair_failed_append. pose proof (truncate_stream_meta (written_lsn m1) (lsn record) (mgr_replay_floor (with_dir d act m1)) (wal_dir (with_dir d act m1))) as Ht.
    destruct (truncate_stream _ _ _ _ _) as [d2 [a2|e2]]; cbn in Ht |- *; [destruct (unflushed_first_segment m1); [destruct (_ <? _)|]|]; by apply log_moves_same.
Qed.

Lemma fail_flush_moves s e m : m.(flushed_lsn) <= m.(written_lsn) -> log_moves m (fail_flush crc32 s e m).1.
Proof using.
  intros Hle. unfold fail_flush, correct_failed_flush. pose proof (truncate_stream_meta (flushed_lsn m) (written_lsn m) (mgr_replay_floor m) (wal_dir m)) as Ht.
  destruct (truncate_stream _ _ _ _ _) as [d [a|e2]]; [|by apply log_moves_same]. change (meta_file d = meta_file (wal_dir m)) in Ht. unfold log_moves. cbn. split_and!; [done|done|]. intros floor dend [L1 L2 L3 L4 L5].
  exists dend. split; [done|]. split; cbn; [by rewrite Ht|done|done|lia|done].
Qed.

Lemma flush_moves fault m : m.(flushed_lsn) <= m.(written_lsn) -> log_moves m (flush crc32 fault m).1.
Proof using.
  intros Hle. unfold flush. unfold mbind at 1, se_bind at 1, lock_state. destruct (poisoned m) as [e|] eqn:Ep; [reflexivity|]. rewrite gets_bind. cbn [id].
  assert (Hpub : forall d, (flushed_lsn m < written_lsn m -> d = mkWalDir m.(wal_dir).(segments) (Some (encode_meta crc32 (mkWalMeta m.(mgr_replay_floor) m.(written_lsn))))) ->
    (~ flushed_lsn m < written_lsn m -> d = m.(wal_dir)) -> log_moves m (publish_flush (with_dir d m.(active_number) m)).1).
  { intros d H1 H2. unfold log_moves. cbn. split_and!; [done|done|]. intros floor dend [L1 L2 L3 L4 L5]. destruct (L5 Ep) as [-> ->]. exists (written_lsn m). split; [done|].
    destruct (N.lt_ge_cases (flushed_lsn m) (written_lsn m)) as [Hlt|Hge].
    - rewrite H1 by done. split; cbn; (done || lia).
    - rewrite H2 by lia. assert (E : written_lsn m = flushed_lsn m) by lia. split; cbn; rewrite ?E; try done; lia. }
  set (d1 := mkWalDir m.(wal_dir).(segments) (Some (encode_meta crc32 (mkWalMeta m.(mgr_replay_floor) m.(written_lsn))))) in *.
  assert (Hw : on_dir (write_meta crc32 (mkWalMeta m.(mgr_replay_floor) m.(written_lsn))) m = (with_dir d1 m.(active_number) m, Ok ())) by done.
  destruct (match fault with SyncFails _ => _ | _ => _ end) as [[]|e]; [|by apply fail_flush_moves]. destruct (N.ltb_spec (flushed_lsn m) (written_lsn m)) as [Hlt|Hge].
  - destruct fault as [|e|e []].
    + rewrite (se_bind_Ok _ _ _ _ _ Hw). apply Hpub; [done|by intros []].
    + rewrite (se_bind_Ok _ _ _ _ _ Hw). apply Hpub; [done|by intros []].
    + rewrite (se_bind_Ok _ _ _ _ _ Hw). rewrite modify_bind. unfold lift, log_moves. cbn. split_and!; [done|done|]. intros floor dend [L1 L2 L3 L4 L5]. destruct (L5 Ep) as [-> ->]. exists (written_lsn m). split; [done|]. split; cbn; (done || lia).
    + by apply fail_flush_moves.
  - assert (E : with_dir m.(wal_dir) m.(active_number) m = m) by (by destruct m). rewrite <- E at 2. apply Hpub; [intros; exfalso; lia|done].
Qed.

Lemma checkpoint_clog_moves ff wf p cap ab m : m.(flushed_lsn) <= m.(written_lsn) -> log_moves m (checkpoint_clog crc32 clog_to_vec ff wf p cap ab m).1.
Proof using.
  intros Hle. unfold checkpoint_clog. pose proof (flush_moves ff m Hle) as Hf. unfold mbind at 1, se_bind at 1. destruct (flush crc32 ff m) as [m1 [l|e]]; cbn [fst] in *; [|done]. etrans; [exact Hf|]. clear Hf Hle.
  unfold mbind at 1, se_bind at 1, lock_state at 1. destruct (poisoned m1) as [e|] eqn:Ep; [reflexivity|]. rewrite gets_bind. destruct (_ || _); [reflexivity|]. unfold mbind at 1, se_bind at 1, lift at 1.
  destruct (encode_clog _ _ _) as [b|e]; [|reflexivity]. destruct wf as [e|]; [reflexivity|]. rewrite modify_bind. unfold mbind at 1, se_bind at 1, lock_state at 1. cbn [poisoned with_clog_dat]. rewrite Ep. by apply log_moves_same.
Qed.

(** A checkpoint of the statuses that succeeds has made everything written durable. *)
Lemma checkpoint_clog_durable ff wf p cap ab m m' : m.(flushed_lsn) <= m.(written_lsn) -> checkpoint_clog crc32 clog_to_vec ff wf p cap ab m = (m', Ok ()) ->
  m.(poisoned) = None /\ m'.(poisoned) = None /\ m'.(flushed_lsn) = m.(written_lsn) /\ m'.(written_lsn) = m.(written_lsn) /\ m'.(mgr_replay_floor) = m.(mgr_replay_floor).
Proof using.
  intros Hle H. unfold checkpoint_clog in H. apply se_bind_inv in H as (m1 & l & Ef & H). apply se_bind_inv in H as (m2 & [] & El & H). unfold lock_state in El. destruct (poisoned m1) as [e|] eqn:Ep1; [done|]. injection El as <-.
  rewrite gets_bind in H. destruct (_ || _); [done|]. unfold mbind at 1, se_bind at 1, lift at 1 in H. destruct (encode_clog _ _ _) as [b|e]; [|done]. destruct wf as [e|]; [done|]. rewrite modify_bind in H.
  unfold mbind, se_bind, lock_state in H. cbn [poisoned with_clog_dat] in H. rewrite Ep1 in H. injection H as <-. cbn.
  unfold flush in Ef. unfold mbind at 1, se_bind at 1, lock_state in Ef. destruct (poisoned m) as [e|] eqn:Ep; [done|]. rewrite gets_bind in Ef. cbn [id] in Ef.
  assert (Hfail : forall s e, fail_flush crc32 s e m = (m1, Ok l) -> False) by (intros s e; unfold fail_flush; destruct (correct_failed_flush _ _) as [? [[]|]]; done).
  destruct (match ff with SyncFails _ => _ | _ => _ end) as [[]|e]; [|by destruct (Hfail _ _ Ef)]. destruct (N.ltb_spec (flushed_lsn m) (written_lsn m)) as [Hlt|Hge].
  - destruct ff as [|e|e []]; [| | |by destruct (Hfail _ _ Ef)]; unfold mbind, se_bind, on_dir, write_meta, modify, lift, publish_flush in Ef; simplify_eq; done.
  - unfold publish_flush in Ef. by simplify_eq.
Qed.

(** Recycling moves the floor to the boundary it was given, or not at all. *)
Definition recycled (p floor dend : Lsn) (m m' : FileWalManager) : Prop := exists floor', (floor' = floor \/ floor' = p) /\ log_at floor' dend m' /\
  m'.(flushed_lsn) = m.(flushed_lsn) /\ m'.(written_lsn) = m.(written_lsn) /\ (m'.(poisoned) = None -> m.(poisoned) = None).
Lemma recycle_moves p mf m floor dend : log_at floor dend m -> recycled p floor dend m (recycle_through crc32 p mf m).1.
Proof using.
  intros L. assert (Hsame : forall m', same_meta m.(wal_dir) m'.(wal_dir) -> m'.(flushed_lsn) = m.(flushed_lsn) -> m'.(written_lsn) = m.(written_lsn) -> m'.(mgr_replay_floor) = m.(mgr_replay_floor) ->
    m'.(poisoned) = m.(poisoned) -> recycled p floor dend m m').
  { intros m' E1 E2 E3 E4 E5. exists floor. split; [by left|]. split; [|by rewrite E5]. destruct L as [L1 L2 L3 L4 L5]. split; rewrite ?E2, ?E3, ?E4, ?E5; auto. by rewrite E1. }
  destruct L as [L1 L2 L3 L4 L5]. unfold recycle_through. assert (Hp : (exists e, poisoned m = Some e) \/ poisoned m = None) by (destruct (poisoned m); eauto).
  destruct Hp as [[e Ep]|Ep]; [rewrite (poisoned_lock _ _ _ Ep); by apply Hsame|]. destruct (L5 Ep) as [-> ->]. rewrite (se_bind_Ok _ _ _ _ _ (lock_state_Ok _ Ep)), gets_bind. cbn [id].
  destruct (_ || _) eqn:Eb; [by apply Hsame|]. apply orb_false_iff in Eb as [Eb1 Eb2]. apply N.ltb_ge in Eb1, Eb2. destruct (p =? mgr_replay_floor m).
  { unfold on_dir. pose proof (recycle_orphaned_meta p (wal_dir m)) as Ho. destruct (recycle_orphaned_segments p (wal_dir m)) as [d r]. by apply Hsame. }
  destruct (negb _); [by apply Hsame|]. unfold mbind at 1, se_bind at 1.
  set (pre := (if _ && _ && _ then _ else _) : SE FileWalManager DbError unit).
  assert (Hpre : exists d a, pre m = (with_dir d a m, (pre m).2) /\ same_meta m.(wal_dir) d).
  { unfold pre. destruct (_ && _ && _); [|exists m.(wal_dir), m.(active_number); split; [by destruct m|done]]. unfold mbind, se_bind, on_dir. pose proof (create_segment_meta (p / SEGMENT_PAYLOAD_BYTES) (wal_dir m)) as Hc.
    destruct (create_segment _ _ _) as [d [[]|e]]; cbn in Hc |- *; [exists d, (p / SEGMENT_PAYLOAD_BYTES)|exists d, m.(active_number)]; done. }
  destruct Hpre as (d & a & -> & Hd). clearbody pre. destruct (pre m).2 as [[]|e]; [|by apply Hsame].
  set (d1 := mkWalDir d.(segments) (Some (encode_meta crc32 (mkWalMeta p m.(flushed_lsn))))).
  assert (Hw : on_dir (write_meta crc32 (mkWalMeta p m.(flushed_lsn))) (with_dir d a m) = (with_dir d1 a m, Ok ())) by done. destruct mf as [[e []]|].
  - rewrite (se_bind_Ok _ _ _ _ _ Hw), modify_bind. exists p. split; [by right|]. split_and!; [|done..]. split; cbn [fst lift poison with_dir wal_dir meta_file flushed_lsn written_lsn poisoned]; (done || lia).
  - rewrite mret_bind, modify_bind. exists (mgr_replay_floor m). split; [by left|]. split_and!; [|done..]. split; cbn [fst lift poison with_dir wal_dir meta_file flushed_lsn written_lsn poisoned]; try done; by rewrite Hd.
  - exists p. split; [by right|]. rewrite (se_bind_Ok _ _ _ _ _ Hw). cbv zeta. rewrite modify_bind. unfold on_dir. cbn [wal_dir with_floor with_dir].
    pose proof (recycle_segments_meta (mgr_replay_floor m) p d1) as Hr. destruct (recycle_segments _ _ _) as [d2 r2]. change (meta_file d2 = meta_file d1) in Hr. split_and!; [|done..].
    split; cbn [fst wal_dir with_dir with_floor flushed_lsn written_lsn poisoned mgr_replay_floor]; [by rewrite Hr|done|done|lia|done].
Qed.

(** When it succeeds the floor is at the boundary. *)
Lemma recycle_floor p mf m m' : recycle_through crc32 p mf m = (m', Ok ()) -> m.(poisoned) = None /\ m'.(mgr_replay_floor) = p.
Proof using.
  intros H. unfold recycle_through in H. apply se_bind_inv in H as (m1 & [] & El & H). unfold lock_state in El. destruct (poisoned m) eqn:Ep; [done|]. injection El as <-. split; [done|]. rewrite gets_bind in H. cbn [id] in H.
  destruct (_ || _); [done|]. destruct (N.eqb_spec p (mgr_replay_floor m)) as [->|]; [unfold on_dir in H; destruct (recycle_orphaned_segments _ _); by injection H as <-|]. destruct (negb _); [done|].
  apply se_bind_inv in H as (m2 & [] & _ & H). destruct mf as [[e []]|].
  - apply se_bind_inv in H as (m3 & [] & _ & H). by rewrite modify_bind in H.
  - apply se_bind_inv in H as (m3 & [] & _ & H). by rewrite modify_bind in H.
  - apply se_bind_inv in H as (m3 & [] & _ & H). rewrite modify_bind in H. unfold on_dir in H. destruct (recycle_segments _ _ _). by injection H as <-.
Qed.

(** The uses of the log by sessions, maintenance and recovery. *)
Inductive log_use (m : FileWalManager) : FileWalManager -> Prop :=
  | use_append fault r : log_use m (append_positioned crc32 json_to_vec validate_shape fault r m).1
  | use_flush fault : log_use m (flush crc32 fault m).1
  | use_vacuum_floor b : log_use m (set_vacuum_floor b m).1
  | use_resolve : log_use m (resolve_all_in_flight_as_aborted m).1.
Lemma log_use_moves m m' : m.(flushed_lsn) <= m.(written_lsn) -> log_use m m' -> log_moves m m'.
Proof using.
  intros Hle []; [apply append_moves|by apply flush_moves|..].
  - unfold set_vacuum_floor, mbind, se_bind, lock_state. destruct (poisoned m) eqn:Ep; [reflexivity|by apply log_moves_same].
  - unfold resolve_all_in_flight_as_aborted, mbind, se_bind, lock_state. destruct (poisoned m) eqn:Ep; [reflexivity|by apply log_moves_same].
Qed.

(** ** Opening *)

Context (Hc : crc_width crc32).

Lemma meta_read d floor dend : d.(meta_file) = Some (encode_meta crc32 (mkWalMeta floor dend)) -> floor <= U64_MAX -> dend <= U64_MAX -> load_meta crc32 d = (d, Ok (mkWalMeta floor dend)).
Proof using Hc. intros E H1 H2. unfold load_meta. rewrite gets_bind, E. cbn [ok_or]. rewrite lift_bind_Ok. unfold lift. by rewrite decode_encode_meta. Qed.

(** The retained range of a log that opens is the one in its metadata. *)
Lemma open_range dd d floor dend w : dd.(dd_wal) = Some d -> d.(meta_file) = Some (encode_meta crc32 (mkWalMeta floor dend)) -> floor <= U64_MAX -> dend <= U64_MAX ->
  open crc32 json_from_slice subxids_from_slice validate_shape clog_from_slice dd = Ok w -> (retained_range w).2 = Ok (floor, dend).
Proof using Hc.
  intros Ed Em Hf Hd H. unfold open in H. destruct (has_wal_dat dd) eqn:Ew; [done|]. apply bind_Ok in H as (d1 & Hi & H).
  assert (E1 : meta_file d1 = meta_file d).
  { unfold initialize in Hi. rewrite Ew, Ed in Hi. rewrite (bool_decide_eq_false_2 (Some d = None)) in Hi by done. cbn [andb default id] in Hi.
    rewrite (bool_decide_eq_true_2 (is_Some (meta_file d))) in Hi by (rewrite Em; by eexists).
    match type of Hi with context [let '(_, _) := ?m d in _] => assert (Hm : moves_by same_meta m); [|specialize (Hm d); destruct (m d) as [d2 r2]] end.
    - moves; first [apply create_segment_meta|apply remove_segment_meta|apply load_meta_meta|done].
    - apply bind_Ok in Hi as ([] & -> & Hi). apply Ok_inj in Hi as <-. exact Hm. }
  rewrite (meta_read d1 floor dend) in H by (try done; by rewrite E1). cbn [snd mbind result_bind] in H. cbn [WalSegment.replay_floor WalSegment.durable_end] in H. destruct (trim_to_durable _ _ _) as [d3 r3].
  inv_ok H. repeat match type of H with (match ?x with _ => _ end) = Ok _ => destruct x; try done end. inv_ok H. apply Ok_inj in H as <-. done.
Qed.
End LogUse.
