(* ===== verification/Checkpoint.v ===== *)
(** * Checkpoints (src/crates/server/src/checkpoint.rs, src/crates/common/src/checkpoint.rs)

    A fuzzy checkpoint: dirty pages are flushed in batches, the boundaries are taken in one
    fenced section, and then a marker is logged, the statuses are saved, the control file is
    replaced and the log is recycled, while sessions go on between any two of these.  Shown:
    whenever the machine stops, the manifest that is found then and the log fit together, and
    everything that the page files miss and every catalog change that the manifest does not
    have is in the log at or after its boundaries.  Then the coordinator of the worker thread.

    The catalog and the relations of the storage engine are an interface
    ([CheckpointedStorage]). *)

From S2P Require Import Prelude Errors Mvcc Clog CheckedBytes ByteArray ClogFile Registry WalCodec WalSegment WalFile LogUse Page Compress Recovery BufferPool PoolSteps PageFile ServerIo Control.
Local Open Scope N_scope.

(** ** Redo pins of catalog changes *)

Definition CatalogRedoTracker : Type := gmap N N.
Definition tracker_register (txn_id replay_from : N) (pending : CatalogRedoTracker) : CatalogRedoTracker :=
  <[txn_id := match pending !! txn_id with Some current => N.min current replay_from | None => replay_from end]> pending.
Definition tracker_resolve (txn_id : N) (pending : CatalogRedoTracker) : CatalogRedoTracker := delete txn_id pending.
Definition oldest_pending (pending : CatalogRedoTracker) : option N := list_min (map_to_list pending).*2.

Lemma register_lookup_eq txn from (pending : CatalogRedoTracker) :
  tracker_register txn from pending !! txn = Some (match pending !! txn with Some current => N.min current from | None => from end).
Proof. apply (lookup_insert_eq (M := gmap N)). Qed.
Lemma register_lookup_ne txn from (pending : CatalogRedoTracker) t : t <> txn -> tracker_register txn from pending !! t = pending !! t.
Proof. intros H. apply (lookup_insert_ne (M := gmap N)). congruence. Qed.
Lemma resolve_lookup txn (pending : CatalogRedoTracker) t p : tracker_resolve txn pending !! t = Some p <-> t <> txn /\ pending !! t = Some p.
Proof. etrans; [apply (lookup_delete_Some (M := gmap N))|]. split; intros [? H]; (split; [congruence|exact H]). Qed.
Lemma oldest_pending_le pending t p : pending !! t = Some p -> exists m, oldest_pending pending = Some m /\ m <= p.
Proof.
  intros E. assert (Hin : p ∈ (map_to_list pending).*2) by (apply list_elem_of_fmap; exists (t, p); split; [done|by apply elem_of_map_to_list]). unfold oldest_pending.
  destruct (list_min _) as [m|] eqn:Em; [|apply list_min_None in Em; rewrite Em in Hin; by apply elem_of_nil in Hin]. exists m. split; [done|]. apply list_min_Some in Em as [_ H]. by apply H.
Qed.
Lemma oldest_pending_in pending m : oldest_pending pending = Some m -> exists t, pending !! t = Some m.
Proof. intros [H _]%list_min_Some. apply list_elem_of_fmap in H as ([t p] & -> & H). exists t. by apply elem_of_map_to_list in H. Qed.

(** ** The catalog *)

Record SequenceSchema : Type := mkSequence {
  seq_id : N; seq_schema_id : N; seq_name : string; increment : Z; min_value : Z; max_value : Z; start : Z;
  cycle : bool; owned : bool; last_value : Z; is_called : bool
}.
Record CatalogSnapshot {Rest : Type} : Type := mkSnapshot {
  sequences_by_name : gmap string N;
  sequences_by_id : gmap N SequenceSchema;
  next_sequence_id : N;
  other_objects : Rest
}.
Arguments CatalogSnapshot : clear implicits.

(** A live sequence: its position in the snapshot is brought up to date, and one that the
    snapshot does not have is added. *)
Definition merge_sequence {Rest} (s : CatalogSnapshot Rest) (live : SequenceSchema) : CatalogSnapshot Rest :=
  match s.(sequences_by_id) !! live.(seq_id) with
  | Some q =>
      mkSnapshot _ s.(sequences_by_name)
        (<[live.(seq_id) := mkSequence q.(seq_id) q.(seq_schema_id) q.(seq_name) q.(increment) q.(min_value) q.(max_value) q.(start) q.(cycle) q.(owned)
                              live.(last_value) live.(is_called)]> s.(sequences_by_id))
        s.(next_sequence_id) s.(other_objects)
  | None =>
      mkSnapshot _ (<[live.(seq_name) := live.(seq_id)]> s.(sequences_by_name)) (<[live.(seq_id) := live]> s.(sequences_by_id))
        (N.max s.(next_sequence_id) (saturating_add U32_MAX live.(seq_id) 1)) s.(other_objects)
  end.

Class CheckpointedStorage (C Rest : Type) : Type := {
  list_table_ids : C -> DbResult (list N);
  catalog_snapshot : C -> DbResult (CatalogSnapshot Rest);
  sequence_schemas_for_checkpoint : C -> DbResult (list SequenceSchema);
  reconcile_snapshot_derived_metadata : CatalogSnapshot Rest -> DbResult (CatalogSnapshot Rest);
  serialize_catalog : CatalogSnapshot Rest -> DbResult bytes;
  cleanup_relation_generation_files : SE (C * @Pool ServerIo) DbError unit;
  request_vacuum : C -> C
}.

(** ** Recovery's check of the boundaries *)

Definition validate_checkpoint_wal_range (checkpoint_end page_redo catalog_redo replay_floor durable_end : N) : DbResult unit :=
  if (N.min page_redo catalog_redo <? replay_floor) || (checkpoint_end <? page_redo) || (checkpoint_end <? catalog_redo) || (durable_end <? checkpoint_end)
  then Err (db_wal InternalError ("control checkpoint boundaries are inconsistent with retained WAL range " +:+ pretty replay_floor +:+ "..=" +:+ pretty durable_end))
  else Ok ().
(** The boundaries of the loaded record; a new data directory has none. *)
Definition loaded_end (o : option ControlData) : N := from_option checkpoint_end_lsn 0 o.
Definition loaded_page_redo (o : option ControlData) : N := from_option page_redo_lsn 0 o.
Definition loaded_catalog_redo (o : option ControlData) : N := from_option catalog_redo_lsn 0 o.

(** ** The run *)

Record CheckpointState : Type := mkCheckpointState {
  last_checkpoint_end_lsn : N;
  wal_trigger_lsn : N;
  commits_since_checkpoint : N;
  checkpoints : N;
  last_busy_or_skipped : N
}.
Definition CheckpointState_new (last : N) : CheckpointState := mkCheckpointState last last 0 0 0.

Definition validated_checkpoint_batch_pages (batch_pages : N) : DbResult N :=
  if negb ((1 <=? batch_pages) && (batch_pages <=? 1000000)) then Err (db_internal "checkpoint flush batch pages must be in 1..=1000000") else Ok batch_pages.
(** [chunks]. *)
Fixpoint chunks {A} (fuel : nat) (n : nat) (l : list A) : list (list A) :=
  match fuel, l with
  | S fuel, _ :: _ => take n l :: chunks fuel n (drop n l)
  | _, _ => []
  end.

(** What the fenced section takes. *)
Record Fenced {Rest : Type} : Type := mkFenced {
  fe_dirty_pages : list DirtyPageEntry;
  fe_tables : list N;
  fe_snapshot : CatalogSnapshot Rest;
  fe_active_ids : list N;
  fe_allocation_boundary : N;
  fe_end_lsn : N;
  fe_page_redo_lsn : N;
  fe_catalog_redo_lsn : N
}.
Arguments Fenced : clear implicits.
Definition fe_replay_floor {Rest} (f : Fenced Rest) : N := N.min f.(fe_page_redo_lsn) f.(fe_catalog_redo_lsn).

(** Failures of the environment during one run. *)
Record CheckpointFaults : Type := mkCheckpointFaults {
  append_fault : option (N * DbError);
  flush_fault : FlushFault;
  clog_fault : option DbError;
  recycle_fault : option (DbError * bool)
}.

Section Checkpoint.
Context {CatalogChangeSet : Type}.
Context (crc32 : bytes -> N).
Context (json_to_vec : @WalRecordKind CatalogChangeSet -> result string bytes).
Context (json_from_slice : bytes -> result string (@WalRecordKind CatalogChangeSet)).
Context (subxids_from_slice : bytes -> result string (list N)).
Context (validate_shape : CatalogChangeSet -> result string unit).
Context (clog_to_vec : ClogSnapshot -> result string bytes).
Context (clog_from_slice : bytes -> result string ClogSnapshot).
Context (control_to_vec : ControlData -> result string bytes).
Context (control_from_slice : bytes -> result string ControlData).
Context (zstd_compress : option bytes -> Z -> bytes -> result string bytes).
Context (zstd_decompress : option bytes -> bytes -> N -> result string bytes).
Context {C Rest : Type} `{!CheckpointedStorage C Rest}.

Local Instance ck_store : PageStore ServerIo := server_store crc32 zstd_compress zstd_decompress.
Local Instance ck_policy : FlushPolicy ServerIo := wal_flush_policy crc32.

Record Components : Type := mkComponents {
  buffer_pool : @Pool ServerIo;
  control : FileControlStore;
  catalog_redo_tracker : CatalogRedoTracker;
  active_txns : RegistryState;
  next_txn_id : N;
  storage : C;
  checkpoint : CheckpointState;
  checkpoint_flush_batch_pages : N
}.
Abbreviation CkM := (SE Components DbError).
Definition with_storage (c : C) (p : @Pool ServerIo) (s : Components) : Components :=
  mkComponents p s.(control) s.(catalog_redo_tracker) s.(active_txns) s.(next_txn_id) c s.(checkpoint) s.(checkpoint_flush_batch_pages).
Definition with_control (c : FileControlStore) (s : Components) : Components :=
  mkComponents s.(buffer_pool) c s.(catalog_redo_tracker) s.(active_txns) s.(next_txn_id) s.(storage) s.(checkpoint) s.(checkpoint_flush_batch_pages).
Definition with_checkpoint (k : CheckpointState) (s : Components) : Components :=
  mkComponents s.(buffer_pool) s.(control) s.(catalog_redo_tracker) s.(active_txns) s.(next_txn_id) s.(storage) k s.(checkpoint_flush_batch_pages).

(** The log of the pool's world, under its own lock. *)
Definition after_log (m : FileWalManager) (w : ServerIo) : ServerIo :=
  mkServerIo w.(disk) m (N.max w.(assigned) w.(wal).(WalFile.written_lsn)) w.(faults).
Definition in_log {A} (f : SE FileWalManager DbError A) : CkM A := fun s =>
  let '(m, r) := f s.(buffer_pool).(world).(wal) in
  (with_storage s.(storage) (with_world (after_log m s.(buffer_pool).(world)) s.(buffer_pool)) s, r).
Definition in_pool {A} (f : SE (@Pool ServerIo) DbError A) : CkM A := fun s =>
  let '(p, r) := f s.(buffer_pool) in (with_storage s.(storage) p s, r).
Definition in_control {A} (f : SE FileControlStore DbError A) : CkM A := fun s =>
  let '(c, r) := f s.(control) in (with_control c s, r).

(** [WalManager::written_lsn]. *)
Definition current_lsn (m : FileWalManager) : DbResult N := match m.(poisoned) with Some e => Err e | None => Ok m.(WalFile.written_lsn) end.

(** Under the publication gates and the exclusive fence. *)
Definition fenced_section (s : Components) : DbResult (Fenced Rest) :=
  dirty_pages ← dirty_page_table s.(buffer_pool);
  ids ← list_table_ids s.(storage);
  snapshot ← catalog_snapshot s.(storage);
  live ← sequence_schemas_for_checkpoint s.(storage);
  let snapshot := foldl merge_sequence snapshot live in
  let catalog_redo_pin := oldest_pending s.(catalog_redo_tracker) in
  let '(active_ids, allocation_boundary) := checkpoint_snapshot s.(active_txns) s.(next_txn_id) in
  checkpoint_end ← current_lsn s.(buffer_pool).(world).(wal);
  Ok (mkFenced _ dirty_pages (merge_sort N.le ids) snapshot active_ids allocation_boundary checkpoint_end
        (redo_boundary dirty_pages checkpoint_end) (default checkpoint_end catalog_redo_pin)).

Definition build_control (f : Fenced Rest) : DbResult ControlData :=
  snapshot ← reconcile_snapshot_derived_metadata f.(fe_snapshot);
  catalog ← serialize_catalog snapshot;
  Ok (mkControl f.(fe_end_lsn) f.(fe_page_redo_lsn) f.(fe_catalog_redo_lsn) f.(fe_dirty_pages) f.(fe_tables) catalog PAGE_SIZE).

Definition marker (f : Fenced Rest) : @WalRecord CatalogChangeSet :=
  mkWalRecord 0 (f.(fe_allocation_boundary) - 1) (WalCodec.Checkpoint f.(fe_end_lsn) f.(fe_page_redo_lsn) f.(fe_catalog_redo_lsn)).
Definition append_marker (x : CheckpointFaults) (f : Fenced Rest) : SE FileWalManager DbError (N * N) :=
  append_positioned crc32 json_to_vec validate_shape x.(append_fault) (marker f).
Definition save_statuses (x : CheckpointFaults) (f : Fenced Rest) : SE FileWalManager DbError unit :=
  checkpoint_clog crc32 clog_to_vec x.(flush_fault) x.(clog_fault) (fe_replay_floor f) f.(fe_active_ids) f.(fe_allocation_boundary).
Definition store_control (c : ControlData) : SE FileControlStore DbError unit := store crc32 control_to_vec c.
Definition recycle (x : CheckpointFaults) (f : Fenced Rest) : SE FileWalManager DbError unit :=
  recycle_through crc32 (fe_replay_floor f) x.(recycle_fault).

(** From the fenced section to the recycling of the log. *)
Definition publish_checkpoint (x : CheckpointFaults) (f : Fenced Rest) : CkM N :=
  c ← lift (build_control f);
  position ← in_log (append_marker x f);
  _ ← in_log (save_statuses x f);
  _ ← in_control (store_control c);
  _ ← in_log (recycle x f);
  mret position.2.

Fixpoint flush_batches (latched : nat -> FrameRef -> bool) (batches : list (list PageKey)) (busy : N) : CkM N :=
  match batches with
  | [] => mret busy
  | batch :: batches =>
      stats ← in_pool (flush_checkpoint_batch (latched (length batches)) batch);
      flush_batches latched batches (saturating_add U64_MAX busy stats.(busy_or_skipped))
  end.

(** The counters of a finished run; [fetch_add] wraps around. *)
Definition note_run (represented end_lsn marker_lsn busy : N) (k : CheckpointState) : CheckpointState :=
  mkCheckpointState end_lsn marker_lsn (k.(commits_since_checkpoint) - represented) ((k.(checkpoints) + 1) mod 18446744073709551616) busy.

Definition run_checkpoint (latched : nat -> FrameRef -> bool) (x : CheckpointFaults) : CkM unit :=
  represented_commits ← gets (fun s => s.(checkpoint).(commits_since_checkpoint));
  maintenance ← in_log needs_clog_maintenance;
  _ ← (if (maintenance : bool) then modify (fun s => with_storage (request_vacuum s.(storage)) s.(buffer_pool) s) else mret ());
  batch_pages ← (fun s => (s, validated_checkpoint_batch_pages s.(checkpoint_flush_batch_pages)));
  candidates ← gets (fun s => checkpoint_dirty_keys s.(buffer_pool));
  busy ← flush_batches latched (chunks (length candidates) (N.to_nat batch_pages) candidates) 0;
  f ← (fun s => (s, fenced_section s));
  marker_lsn ← publish_checkpoint x f;
  _ ← modify (fun s => let '(c, p, _) := cleanup_relation_generation_files (s.(storage), s.(buffer_pool)) in with_storage c p s);
  modify (fun s => with_checkpoint (note_run represented_commits f.(fe_end_lsn) marker_lsn busy s.(checkpoint)) s).

(** ** The server as a transition system *)

Hypothesis Hcrc : crc_fits crc32.
Hypothesis Hz : zstd_roundtrip zstd_compress zstd_decompress.
Local Instance ck_laws : IoLaws ServerIo := server_laws crc32 json_to_vec validate_shape zstd_compress zstd_decompress Hcrc Hz.
Abbreviation System := (@System ServerIo).

(** How far the running checkpoint has come. *)
Inductive CheckpointPhase : Type :=
  | Idle
  | Taken (f : Fenced Rest)
  | Marked (f : Fenced Rest) (c : ControlData)
  | Saved (f : Fenced Rest) (c : ControlData)
  | Stored (f : Fenced Rest) (c : ControlData).

(** [changes] are the catalog changes in the log, by transaction and the position of the
    record, [settled] those whose transaction has published or restored the catalog. *)
Record Server : Type := mkServer {
  sys : System;
  others : Components;
  phase : CheckpointPhase;
  changes : list (N * N);
  settled : list (N * N)
}.
(** The pool of [others] is the one of [sys]. *)
Definition components_of (s : Server) : Components := with_storage s.(others).(storage) s.(sys).(pool) s.(others).
Definition wal_of (s : System) : FileWalManager := s.(pool).(world).(wal).
Definition log_sys (m : FileWalManager) (s : System) : System := with_pool (with_world (after_log m s.(pool).(world)) s.(pool)) s.
Definition with_sys (y : System) (s : Server) : Server := mkServer y s.(others) s.(phase) s.(changes) s.(settled).
Definition at_phase (h : CheckpointPhase) (s : Server) : Server := mkServer s.(sys) s.(others) h s.(changes) s.(settled).
Definition with_others (o : Components) (s : Server) : Server := mkServer s.(sys) o s.(phase) s.(changes) s.(settled).
Definition with_tracker (t : CatalogRedoTracker) (s : Components) : Components :=
  mkComponents s.(buffer_pool) s.(control) t s.(active_txns) s.(next_txn_id) s.(storage) s.(checkpoint) s.(checkpoint_flush_batch_pages).

Abbreviation log_use := (log_use crc32 json_to_vec validate_shape).

Inductive srv_step : Server -> Server -> Prop :=
  | srv_pool s y : step s.(sys) y -> rtc log_use (wal_of s.(sys)) (wal_of y) -> srv_step s (with_sys y s)
  | srv_change s fault txn cs m from to :
      append_positioned crc32 json_to_vec validate_shape fault (mkWalRecord 0 txn (CatalogChange cs)) (wal_of s.(sys)) = (m, Ok (from, to)) ->
      srv_step s (mkServer (log_sys m s.(sys)) (with_tracker (tracker_register txn from s.(others).(catalog_redo_tracker)) s.(others)) s.(phase)
                    ((txn, from) :: s.(changes)) s.(settled))
  | srv_resolve s txn :
      srv_step s (mkServer s.(sys) (with_tracker (tracker_resolve txn s.(others).(catalog_redo_tracker)) s.(others)) s.(phase) s.(changes)
                    (filter (fun ch => ch.1 = txn) s.(changes) ++ s.(settled)))
  | srv_others s o : o.(control) = s.(others).(control) -> o.(catalog_redo_tracker) = s.(others).(catalog_redo_tracker) -> srv_step s (with_others o s)
  | srv_fence s f : s.(phase) = Idle -> fenced_section (components_of s) = Ok f -> srv_step s (at_phase (Taken f) s)
  | srv_mark s f c x m r :
      s.(phase) = Taken f -> build_control f = Ok c -> append_marker x f (wal_of s.(sys)) = (m, r) ->
      srv_step s (at_phase (if is_ok r then Marked f c else Idle) (with_sys (log_sys m s.(sys)) s))
  | srv_save s f c x m r :
      s.(phase) = Marked f c -> save_statuses x f (wal_of s.(sys)) = (m, r) ->
      srv_step s (at_phase (if is_ok r then Saved f c else Idle) (with_sys (log_sys m s.(sys)) s))
  | srv_store s f c d r :
      s.(phase) = Saved f c -> store_control c s.(others).(control) = (d, r) ->
      srv_step s (at_phase (if is_ok r then Stored f c else Idle) (with_others (with_control d s.(others)) s))
  | srv_recycle s f c x m r :
      s.(phase) = Stored f c -> recycle x f (wal_of s.(sys)) = (m, r) ->
      srv_step s (at_phase Idle (with_sys (log_sys m s.(sys)) s))
  | srv_quit s : srv_step s (at_phase Idle s).

(** A server on a data directory that was never used. *)
Record started (s : Server) : Prop := {
  st_booted : booted s.(sys);
  st_log : WalFile.open crc32 json_from_slice subxids_from_slice validate_shape clog_from_slice empty_data_dir = Ok (wal_of s.(sys));
  st_control : s.(others).(control).(manifest) = None /\ s.(others).(control).(earlier) = [] /\ s.(others).(control).(store_page_size) = PAGE_SIZE;
  st_tracker : s.(others).(catalog_redo_tracker) = ∅;
  st_idle : s.(phase) = Idle /\ s.(changes) = [] /\ s.(settled) = []
}.
Definition srv_reach (s : Server) : Prop := exists s0, started s0 /\ rtc srv_step s0 s.

(** *** Steps of the log *)

Lemma log_later w m : io_ok w -> w.(wal).(flushed_lsn) <= m.(flushed_lsn) -> m.(flushed_lsn) <= m.(WalFile.written_lsn) ->
  (m.(poisoned) = None -> w.(wal).(poisoned) = None /\ w.(wal).(WalFile.written_lsn) <= m.(WalFile.written_lsn)) -> later w (after_log m w).
Proof using.
  intros [Hst [Hle Has]] H1 H2 H3. unfold later. cbn. unfold log_written. cbn. split_and!; [lia|done|done|]. intros _. split; [done|]. split; cbn; [done|]. intros Hp. destruct (H3 Hp) as [Hp0 Hw]. specialize (Has Hp0). lia.
Qed.
Lemma log_sys_step s m fl dend fl' dend' : sys_ok s -> log_at crc32 fl dend (wal_of s) -> log_at crc32 fl' dend' m -> (wal_of s).(flushed_lsn) <= m.(flushed_lsn) ->
  (m.(poisoned) = None -> (wal_of s).(poisoned) = None /\ (wal_of s).(WalFile.written_lsn) <= m.(WalFile.written_lsn)) -> step s (log_sys m s).
Proof using.
  intros Hs Hl Hl' H1 H2. apply step_log; [|done]. apply log_later; [apply (sok_io s Hs)|done|apply Hl'|done].
Qed.

(** *** The invariant *)

(** The boundaries that were taken still hold: a page that is dirty now, and a catalog change
    that was not settled when they were taken, is behind them. *)
Record behind (f : Fenced Rest) (s : Server) : Prop := {
  be_end : f.(fe_end_lsn) <= log_written s.(sys).(pool).(world);
  be_page : f.(fe_page_redo_lsn) <= f.(fe_end_lsn) /\ floor f.(fe_page_redo_lsn) s.(sys);
  be_catalog : f.(fe_catalog_redo_lsn) <= f.(fe_end_lsn) /\ forall t p, s.(others).(catalog_redo_tracker) !! t = Some p -> f.(fe_catalog_redo_lsn) <= p
}.
Definition taken (f : Fenced Rest) (s : Server) : Prop := behind f s /\
  exists s0, rtc srv_step s0 s /\ fenced_section (components_of s0) = Ok f /\ forall ch, ch ∈ s.(changes) -> ch ∈ s0.(settled) \/ f.(fe_catalog_redo_lsn) <= ch.2.

Abbreviation encoded := (encode_control crc32 control_to_vec).
(** A manifest and a log whose metadata says [fl] and [dend]. *)
Definition manifest_fits (s : Server) (fl dend : N) (o : option bytes) : Prop :=
  match o with
  | None => fl = 0
  | Some b => exists f c, taken f s /\ build_control f = Ok c /\ encoded c = Ok b /\ fl <= fe_replay_floor f /\ f.(fe_end_lsn) <= dend
  end.
Definition phase_fits (s : Server) (fl dend : N) : Prop :=
  match s.(phase) with
  | Idle => True
  | Taken f => taken f s /\ fl <= fe_replay_floor f
  | Marked f c => taken f s /\ fl <= fe_replay_floor f /\ build_control f = Ok c
  | Saved f c => taken f s /\ fl <= fe_replay_floor f /\ build_control f = Ok c /\ f.(fe_end_lsn) <= dend
  | Stored f c => taken f s /\ fl <= fe_replay_floor f /\ build_control f = Ok c /\ f.(fe_end_lsn) <= dend /\
      exists b, encoded c = Ok b /\ forall o, found s.(others).(control) o -> o = Some b
  end.

Record srv_ok (s : Server) : Prop := {
  so_sys : sys_ok s.(sys);
  so_tracker t p : s.(others).(catalog_redo_tracker) !! t = Some p -> p <= log_written s.(sys).(pool).(world);
  so_changes ch : ch ∈ s.(changes) -> ch ∈ s.(settled) \/ exists p, s.(others).(catalog_redo_tracker) !! ch.1 = Some p /\ p <= ch.2;
  so_size : s.(others).(control).(store_page_size) = PAGE_SIZE;
  so_fits : exists fl dend, log_at crc32 fl dend (wal_of s.(sys)) /\ (forall o, found s.(others).(control) o -> manifest_fits s fl dend o) /\ phase_fits s fl dend
}.

(** What a step does to the things boundaries are about. *)
Record advances (s s' : Server) : Prop := {
  ad_sys : sys_ok s'.(sys);
  ad_later : log_written s.(sys).(pool).(world) <= log_written s'.(sys).(pool).(world);
  ad_floor l : floor l s.(sys) -> floor l s'.(sys);
  ad_tracker t p : s'.(others).(catalog_redo_tracker) !! t = Some p ->
    (exists t', s.(others).(catalog_redo_tracker) !! t' = Some p) \/ (log_written s.(sys).(pool).(world) <= p /\ p <= log_written s'.(sys).(pool).(world));
  ad_changes ch : ch ∈ s'.(changes) -> ch ∈ s.(changes) \/ log_written s.(sys).(pool).(world) <= ch.2;
  ad_step : srv_step s s'
}.
Lemma taken_advances f s s' : advances s s' -> taken f s -> taken f s'.
Proof using.
  intros [A1 A2 A3 A4 A5 A6] ([B1 [B2 B2'] [B3 B3']] & s0 & Hr & Ef & Hch). split.
  - split; [lia|auto|]. split; [done|]. intros t p E. destruct (A4 t p E) as [[t' E']|[E' _]]; [by eapply B3'|lia].
  - exists s0. split_and!; [by eapply rtc_r|done|]. intros ch Hin. destruct (A5 ch Hin) as [Hin'|Hin']; [auto|right; lia].
Qed.
Lemma manifest_advances s s' fl dend fl' dend' o : advances s s' -> manifest_fits s fl dend o -> fl' <= fl -> dend <= dend' -> manifest_fits s' fl' dend' o.
Proof using.
  intros Ha H Hfl Hd. destruct o as [b|]; cbn in *; [|lia]. destruct H as (f & c & Ht & Ec & Eb & H1 & H2). exists f, c. split_and!; [by eapply taken_advances|done|done|lia|lia].
Qed.

(** A step that leaves control file and phase: the boundaries move along. *)
Lemma ok_advances s s' fl dend dend' : srv_ok s -> advances s s' -> s'.(others).(control) = s.(others).(control) -> s'.(phase) = s.(phase) \/ s'.(phase) = Idle ->
  (forall ch, ch ∈ s'.(changes) -> ch ∈ s'.(settled) \/ exists p, s'.(others).(catalog_redo_tracker) !! ch.1 = Some p /\ p <= ch.2) ->
  (forall o, found s.(others).(control) o -> manifest_fits s fl dend o) -> phase_fits s fl dend -> dend <= dend' -> log_at crc32 fl dend' (wal_of s'.(sys)) -> srv_ok s'.
Proof using.
  intros [S1 S2 S3 S4 S5] Ha Ec Ep Hch Hm Hp Hd Hl. pose proof Ha as [A1 A2 A3 A4 A5 A6]. split; [done| |done|by rewrite Ec|].
  - intros t p E. destruct (A4 t p E) as [[t' E']|[_ E']]; [specialize (S2 t' p E'); lia|done].
  - exists fl, dend'. split_and!; [done| |].
    + intros o Ho. rewrite Ec in Ho. eapply manifest_advances; [done|by apply Hm|done|done].
    + unfold phase_fits. destruct Ep as [-> | ->]; [|done]. unfold phase_fits in Hp. destruct (phase s); [done|destruct_and!; split_and!; eauto using taken_advances; lia..|].
      destruct Hp as (? & ? & ? & ? & b & ? & ?). split_and!; eauto using taken_advances; [lia|]. exists b. by rewrite Ec.
Qed.

Lemma advances_intro s s' : srv_step s s' -> sys_ok s.(sys) -> step s.(sys) s'.(sys) \/ s'.(sys) = s.(sys) ->
  (forall t p, s'.(others).(catalog_redo_tracker) !! t = Some p ->
    (exists t', s.(others).(catalog_redo_tracker) !! t' = Some p) \/ (log_written s.(sys).(pool).(world) <= p /\ p <= log_written s'.(sys).(pool).(world))) ->
  (forall ch, ch ∈ s'.(changes) -> ch ∈ s.(changes) \/ log_written s.(sys).(pool).(world) <= ch.2) -> advances s s'.
Proof using.
  intros Hst Hs [Hy|Hy] Ht Hch.
  - split; [by eapply step_ok|by destruct (step_later _ _ Hy Hs)|intros l; by apply floor_step|done..].
  - split; rewrite ?Hy in *; done.
Qed.

Lemma uses_at m m' fl dend : rtc log_use m m' -> log_at crc32 fl dend m -> exists dend', dend <= dend' /\ log_at crc32 fl dend' m'.
Proof using.
  intros Hr. revert dend. induction Hr as [m|m1 m2 m3 Hu Hr IH]; intros dend Hl; [by exists dend|].
  destruct (log_use_moves _ _ _ _ _ (la_order _ _ _ _ Hl) Hu) as (_ & _ & Hm). destruct (Hm _ _ Hl) as (d2 & ? & Hl2). destruct (IH d2 Hl2) as (d3 & ? & ?). exists d3. split; [lia|done].
Qed.

(** A use of the log is a step of the pool's world. *)
Lemma moves_step s m fl dend : sys_ok s -> log_at crc32 fl dend (wal_of s) -> log_moves crc32 (wal_of s) m ->
  step s (log_sys m s) /\ exists dend', dend <= dend' /\ log_at crc32 fl dend' m.
Proof using.
  intros Hs Hl (M1 & M2 & M3). destruct (M3 _ _ Hl) as (d' & Hd & Hl'). split; [by eapply log_sys_step|by exists d'].
Qed.

Lemma live_written w : io_ok w -> w.(wal).(poisoned) = None -> log_written w = w.(wal).(WalFile.written_lsn).
Proof using. intros [_ [_ Has]] Hp. specialize (Has Hp). unfold log_written. lia. Qed.

Lemma change_ok s fault txn cs m from to : srv_ok s ->
  append_positioned crc32 json_to_vec validate_shape fault (mkWalRecord 0 txn (CatalogChange cs)) (wal_of s.(sys)) = (m, Ok (from, to)) ->
  srv_ok (mkServer (log_sys m s.(sys)) (with_tracker (tracker_register txn from s.(others).(catalog_redo_tracker)) s.(others)) s.(phase) ((txn, from) :: s.(changes)) s.(settled)).
Proof using.
  intros Hok E. pose proof Hok as [S1 S2 S3 S4 (fl & dend & Hl & Hm & Hp)]. destruct (append_outcome _ _ _ _ _ _ _ _ _ E) as (P1 & P2 & E1 & E2 & Hlt & E3).
  pose proof (append_moves crc32 json_to_vec validate_shape fault (mkWalRecord 0 txn (CatalogChange cs)) (wal_of (sys s))) as Hmv. rewrite E in Hmv. cbn [fst] in Hmv.
  destruct (moves_step _ _ _ _ S1 Hl Hmv) as (Hst & d' & Hd & Hl'). pose proof (live_written _ (sok_io _ S1) P1) as Hw.
  eapply (ok_advances s _ fl dend d'); try done; [|by left|].
  - apply advances_intro; [by eapply srv_change|done|by left| |].
    + intros t p. cbn [others with_tracker catalog_redo_tracker]. destruct (decide (t = txn)) as [->|Hne]; [rewrite register_lookup_eq|rewrite register_lookup_ne by done; eauto].
      intros [= <-]. assert (Hfrom : log_written (world (pool (sys s))) <= from /\ from <= log_written (world (pool (log_sys m (sys s))))).
      { split; [rewrite Hw, E1; done|]. cbn. unfold log_written. cbn. unfold wal_of in E1. lia. }
      destruct (catalog_redo_tracker (others s) !! txn) as [cur|] eqn:Ec; [|by right]. destruct (N.min_spec cur from) as [[_ ->]|[_ ->]]; [left; by eexists|by right].
    + intros ch [->|Hin]%elem_of_cons; [right; cbn; rewrite Hw, E1; done|by left].
  - cbn [changes settled others with_tracker catalog_redo_tracker]. intros ch [->|Hin]%elem_of_cons.
    + right. cbn [fst snd]. rewrite register_lookup_eq. eexists. split; [done|]. destruct (_ !! txn); lia.
    + destruct (S3 ch Hin) as [|(p & Ep & Hpc)]; [by left|]. right. destruct (decide (ch.1 = txn)) as [<-|Hne]; [rewrite register_lookup_eq, Ep|rewrite register_lookup_ne by done; eauto].
      eexists. split; [done|]. lia.
Qed.

Lemma resolve_ok s txn : srv_ok s ->
  srv_ok (mkServer s.(sys) (with_tracker (tracker_resolve txn s.(others).(catalog_redo_tracker)) s.(others)) s.(phase) s.(changes) (filter (fun ch => ch.1 = txn) s.(changes) ++ s.(settled))).
Proof using.
  intros Hok. pose proof Hok as [S1 S2 S3 S4 (fl & dend & Hl & Hm & Hp)]. eapply (ok_advances s _ fl dend dend); try done; [|by left|].
  - apply advances_intro; [apply srv_resolve|done|by right| |by left]. cbn. intros t p [_ E]%resolve_lookup. eauto.
  - cbn. intros ch Hin. destruct (decide (ch.1 = txn)) as [Ht|Ht]; [left; apply elem_of_app; left; by apply list_elem_of_filter|]. destruct (S3 ch Hin) as [|(p & Ep & Hpc)]; [left; apply elem_of_app; by right|].
    right. exists p. split; [|done]. by apply resolve_lookup.
Qed.

(** What the fenced section took, by the parts it comes from. *)
Lemma fenced_inv s f : fenced_section (components_of s) = Ok f -> dirty_page_table s.(sys).(pool) = Ok f.(fe_dirty_pages) /\
  (wal_of s.(sys)).(poisoned) = None /\ f.(fe_end_lsn) = (wal_of s.(sys)).(WalFile.written_lsn) /\
  f.(fe_page_redo_lsn) = redo_boundary f.(fe_dirty_pages) f.(fe_end_lsn) /\ f.(fe_catalog_redo_lsn) = default f.(fe_end_lsn) (oldest_pending s.(others).(catalog_redo_tracker)) /\
  StronglySorted N.le f.(fe_tables).
Proof using.
  unfold fenced_section. cbn [components_of with_storage buffer_pool storage catalog_redo_tracker active_txns next_txn_id]. intros H. inv_ok H. destruct (checkpoint_snapshot _ _) as [ids b]. inv_ok H. apply Ok_inj in H as <-. cbn.
  unfold current_lsn in *. unfold wal_of. destruct (poisoned _) eqn:Ep; [done|]. match goal with E : Ok _ = Ok ?x |- _ => apply Ok_inj in E as <- end. split_and!; try done.
  apply StronglySorted_merge_sort; [intros ???; apply N.le_trans|]. intros a c. destruct (N.le_ge_cases a c); auto.
Qed.

Lemma fence_behind s f : srv_ok s -> fenced_section (components_of s) = Ok f -> behind f s.
Proof using.
  intros [S1 S2 S3 S4 _] (E1 & Ep & E2 & E3 & E4 & _)%fenced_inv. pose proof (live_written _ (sok_io _ S1) Ep) as Hw. destruct (boundary_floor _ _ S1 E1) as [Hb Hf].
  change (PoolSteps.written_lsn (world (pool (sys s)))) with (log_written (world (pool (sys s)))) in Hb, Hf. rewrite Hw in Hb, Hf. unfold wal_of in *. rewrite <- E2 in Hb, Hf. rewrite <- E3 in Hb, Hf. split; [rewrite E2, Hw; done|done|].
  rewrite E4. destruct (oldest_pending _) as [m|] eqn:Em; cbn [default].
  - split; [destruct (oldest_pending_in _ _ Em) as [t Et]; specialize (S2 t m Et); rewrite E2, <- Hw; done|]. intros t p E. destruct (oldest_pending_le _ _ _ E) as (m' & Em' & Hle). rewrite Em in Em'. by injection Em' as <-.
  - split; [done|]. intros t p E. destruct (oldest_pending_le _ _ _ E) as (m' & Em' & _). congruence.
Qed.

(** The boundaries of a new checkpoint are not before those of an earlier one. *)
Lemma fence_after s f g : srv_ok s -> fenced_section (components_of s) = Ok f -> behind g s -> fe_replay_floor g <= fe_replay_floor f.
Proof using.
  intros Hok Ef [B1 [B2 [_ B2']] [B3 B3']]. pose proof (fenced_inv _ _ Ef) as (E1 & Ep & E2 & E3 & E4 & _). pose proof Hok as [S1 _ _ _ _]. pose proof (live_written _ (sok_io _ S1) Ep) as Hw. unfold wal_of in *.
  assert (Hp : fe_page_redo_lsn g <= fe_page_redo_lsn f).
  { rewrite E3. unfold redo_boundary. destruct (list_min _) as [m|] eqn:Em; cbn [default]; [|lia]. apply list_min_Some in Em as [Hm _]. apply list_elem_of_fmap in Hm as (e & -> & He).
    destruct (dirty_table_spec _ S1) as (es & E1' & Hes). rewrite E1 in E1'. injection E1' as <-. apply Hes in He as (k & r & lo & Hk & _ & Hlo & ->). by apply (B2' k r lo). }
  assert (Hc : fe_catalog_redo_lsn g <= fe_catalog_redo_lsn f).
  { rewrite E4. destruct (oldest_pending _) as [m|] eqn:Em; cbn [default]; [|lia]. destruct (oldest_pending_in _ _ Em) as [t Et]. by eapply B3'. }
  unfold fe_replay_floor. lia.
Qed.

Lemma fence_ok s f : srv_ok s -> s.(phase) = Idle -> fenced_section (components_of s) = Ok f -> srv_ok (at_phase (Taken f) s).
Proof using.
  intros Hok Hid Ef. pose proof Hok as [S1 S2 S3 S4 (fl & dend & Hl & Hm & _)]. pose proof (fence_behind s f Hok Ef) as Hb. assert (Hst : srv_step s (at_phase (Taken f) s)) by (by apply srv_fence).
  assert (Ha : advances s (at_phase (Taken f) s)) by (apply advances_intro; [done|done|by right|eauto|by left]). split; try done. exists fl, dend. split_and!; [done| |].
  - intros o Ho. eapply manifest_advances; [done|by apply Hm|done|done].
  - cbn. split.
    + split; [destruct Hb; by split|]. exists s. split_and!; [by apply rtc_once|done|]. intros ch Hin. destruct (S3 ch Hin) as [|(p & Ept & Hp)]; [by left|]. right. destruct Hb as [_ _ [_ Hb]]. specialize (Hb _ _ Ept). lia.
    + specialize (Hm _ (or_introl eq_refl)). destruct (manifest _) as [b|]; cbn in Hm; [|lia]. destruct Hm as (g & c & [Hg _] & _ & _ & Hfl & _). pose proof (fence_after s f g Hok Ef Hg). lia.
Qed.

(** A step of the checkpoint itself. *)
Lemma ok_phase s s' fl dend : srv_ok s -> advances s s' -> s'.(others).(catalog_redo_tracker) = s.(others).(catalog_redo_tracker) -> s'.(changes) = s.(changes) -> s'.(settled) = s.(settled) ->
  s'.(others).(control).(store_page_size) = s.(others).(control).(store_page_size) -> log_at crc32 fl dend (wal_of s'.(sys)) ->
  (forall o, found s'.(others).(control) o -> manifest_fits s' fl dend o) -> phase_fits s' fl dend -> srv_ok s'.
Proof using.
  intros [S1 S2 S3 S4 _] [A1 A2 A3 A4 A5 A6] Et Ec Es Eps Hl Hm Hp. split; [done| |rewrite Ec, Es, Et; done|congruence|by exists fl, dend].
  intros t p. rewrite Et. intros E. specialize (S2 t p E). lia.
Qed.
Lemma advances_log s h m : srv_ok s -> srv_step s (at_phase h (with_sys (log_sys m s.(sys)) s)) -> step s.(sys) (log_sys m s.(sys)) -> advances s (at_phase h (with_sys (log_sys m s.(sys)) s)).
Proof using. intros Hok Hst Hy. apply advances_intro; [done|apply Hok|by left|eauto|by left]. Qed.

Lemma mark_ok s f c x m r : srv_ok s -> s.(phase) = Taken f -> build_control f = Ok c -> append_marker x f (wal_of s.(sys)) = (m, r) ->
  srv_ok (at_phase (if is_ok r then Marked f c else Idle) (with_sys (log_sys m s.(sys)) s)).
Proof using.
  intros Hok Hp Ec E. pose proof Hok as [S1 S2 S3 S4 (fl & dend & Hl & Hm & Hph)]. unfold phase_fits in Hph. rewrite Hp in Hph. destruct Hph as [Ht Hfl].
  pose proof (append_moves crc32 json_to_vec validate_shape x.(append_fault) (marker f) (wal_of (sys s))) as Hmv. unfold append_marker in E. rewrite E in Hmv. destruct (moves_step _ _ _ _ S1 Hl Hmv) as (Hst & d' & Hd & Hl').
  assert (Ha : advances s (at_phase (if is_ok r then Marked f c else Idle) (with_sys (log_sys m (sys s)) s))) by (apply advances_log; [done|by eapply srv_mark|done]).
  eapply (ok_phase s _ fl d'); try done; [intros o Ho; eapply manifest_advances; [done|by apply Hm|done|done]|]. unfold phase_fits. cbn [at_phase phase]. destruct r; cbn [is_ok]; [|done]. split_and!; [by eapply taken_advances|done|done].
Qed.

Lemma save_ok s f c x m r : srv_ok s -> s.(phase) = Marked f c -> save_statuses x f (wal_of s.(sys)) = (m, r) ->
  srv_ok (at_phase (if is_ok r then Saved f c else Idle) (with_sys (log_sys m s.(sys)) s)).
Proof using.
  intros Hok Hp E. pose proof Hok as [S1 S2 S3 S4 (fl & dend & Hl & Hm & Hph)]. unfold phase_fits in Hph. rewrite Hp in Hph. destruct Hph as (Ht & Hfl & Hb).
  pose proof (checkpoint_clog_moves crc32 clog_to_vec x.(flush_fault) x.(clog_fault) (fe_replay_floor f) f.(fe_active_ids) f.(fe_allocation_boundary) (wal_of (sys s)) (la_order _ _ _ _ Hl)) as Hmv.
  unfold save_statuses in E. rewrite E in Hmv. destruct (moves_step _ _ _ _ S1 Hl Hmv) as (Hst & d' & Hd & Hl').
  assert (Ha : advances s (at_phase (if is_ok r then Saved f c else Idle) (with_sys (log_sys m (sys s)) s))) by (apply advances_log; [done|by eapply srv_save|done]).
  eapply (ok_phase s _ fl d'); try done; [intros o Ho; eapply manifest_advances; [done|by apply Hm|done|done]|]. unfold phase_fits. cbn [at_phase phase]. destruct r as [[]|]; cbn [is_ok]; [|done]. split_and!; [by eapply taken_advances|done|done|].
  destruct (checkpoint_clog_durable _ _ _ _ _ _ _ _ _ (la_order _ _ _ _ Hl) E) as (P1 & _ & E1 & _ & _). pose proof (live_written _ (sok_io _ S1) P1) as Hw. pose proof (be_end _ _ (proj1 Ht)) as He. pose proof (la_durable _ _ _ _ Hl') as Hdu. cbn [fst] in Hdu.
  unfold wal_of in *. lia.
Qed.

Lemma store_ok_ s f c d r : srv_ok s -> s.(phase) = Saved f c -> store_control c s.(others).(control) = (d, r) ->
  srv_ok (at_phase (if is_ok r then Stored f c else Idle) (with_others (with_control d s.(others)) s)).
Proof using.
  intros Hok Hp E. pose proof Hok as [S1 S2 S3 S4 (fl & dend & Hl & Hm & Hph)]. unfold phase_fits in Hph. rewrite Hp in Hph. destruct Hph as (Ht & Hfl & Hb & He).
  set (s' := at_phase _ _). assert (Ha : advances s s') by (apply advances_intro; [by eapply srv_store|done|by right|eauto|by left]).
  assert (Hold : forall o, found (control (others s)) o -> manifest_fits s' fl dend o) by (intros o Ho; eapply manifest_advances; [done|by apply Hm|done|done]).
  assert (Ht' : taken f s') by (by eapply taken_advances). apply store_outcome in E as (Eps & Hout).
  eapply (ok_phase s s' fl dend); try done.
  - intros o Ho. change (found d o) in Ho. destruct Hout as [(_ & Em & Ee & _)|(b & Eb & _ & Em & Hee)].
    + apply Hold. unfold found in *. congruence.
    + destruct Ho as [->|Ho]; [rewrite Em; by exists f, c|]. destruct Hee as [(_ & Ee)|(_ & Ee)]; rewrite Ee in Ho; [by apply elem_of_nil in Ho|]. apply Hold. unfold found. by apply elem_of_cons in Ho.
  - unfold phase_fits, s'. cbn [at_phase phase]. destruct r as [[]|]; cbn [is_ok]; [|done]. destruct Hout as [(Hn & _)|(b & Eb & _ & Em & Hee)]; [done|]. split_and!; [done|done|done|done|]. exists b. split; [done|].
    intros o Ho. change (found d o) in Ho. destruct Hee as [(_ & Ee)|(Hn & _)]; [|done]. destruct Ho as [->|Ho]; [done|]. rewrite Ee in Ho. by apply elem_of_nil in Ho.
Qed.

Lemma recycle_ok_ s f c x m r : srv_ok s -> s.(phase) = Stored f c -> recycle x f (wal_of s.(sys)) = (m, r) -> srv_ok (at_phase Idle (with_sys (log_sys m s.(sys)) s)).
Proof using.
  intros Hok Hp E. pose proof Hok as [S1 S2 S3 S4 (fl & dend & Hl & Hm & Hph)]. unfold phase_fits in Hph. rewrite Hp in Hph. destruct Hph as (Ht & Hfl & Hb & He & b & Eb & Hfound).
  destruct (recycle_moves crc32 (fe_replay_floor f) x.(recycle_fault) _ _ _ Hl) as (fl' & Hfl' & Hl' & F1 & F2 & F3). unfold recycle in E. rewrite E in *. cbn [fst] in *.
  assert (Hst : step (sys s) (log_sys m (sys s))) by (eapply log_sys_step; [done|done|done|lia|]; intros Hq; split; [by apply F3|lia]).
  assert (Ha : advances s (at_phase Idle (with_sys (log_sys m (sys s)) s))) by (apply advances_log; [done|by eapply srv_recycle|done]).
  eapply (ok_phase s _ fl' dend); try done. intros o Ho. rewrite (Hfound o Ho). exists f, c. split_and!; [by eapply taken_advances|done|done|destruct Hfl'; subst; lia|done].
Qed.

Lemma srv_step_ok s s' : srv_step s s' -> srv_ok s -> srv_ok s'.
Proof using.
  intros Hst Hok. pose proof Hst as Hst'. destruct Hst.
  - pose proof Hok as [S1 S2 S3 S4 (fl & dend & Hl & Hm & Hp)]. destruct (uses_at _ _ _ _ H0 Hl) as (d' & Hd & Hl'). eapply (ok_advances s _ fl dend d'); try done; [|by left]. apply advances_intro; [done|done|by left|eauto|by left].
  - by eapply change_ok.
  - by apply resolve_ok.
  - pose proof Hok as [S1 S2 S3 S4 (fl & dend & Hl & Hm & Hp)]. eapply (ok_advances s _ fl dend dend); try done; [|by left|cbn; by rewrite H0]. apply advances_intro; [done|done|by right|cbn; rewrite H0; eauto|by left].
  - by apply fence_ok.
  - by eapply mark_ok.
  - by eapply save_ok.
  - by eapply store_ok_.
  - by eapply recycle_ok_.
  - pose proof Hok as [S1 S2 S3 S4 (fl & dend & Hl & Hm & Hp)]. eapply (ok_advances s _ fl dend dend); try done; [|by right]. apply advances_intro; [done|done|by right|eauto|by left].
Qed.

Hypothesis Hjson : json_roundtrip json_to_vec json_from_slice subxids_from_slice.
Hypothesis Hclog : serde_roundtrip clog_to_vec clog_from_slice.
Hypothesis Hserde : control_serde control_to_vec control_from_slice.

Lemma started_ok s : started s -> srv_ok s.
Proof using Hcrc Hjson Hclog.
  intros [Hb Ho (Em & Ee & Eps) Et (Hid & Hc & Hs)]. split.
  - by apply booted_ok.
  - intros t p. rewrite Et. intros E. by destruct (lookup_empty_Some (M := gmap N) t p).
  - rewrite Hc. by intros ch ?%elem_of_nil.
  - done.
  - destruct (open_empty crc32 json_to_vec json_from_slice subxids_from_slice validate_shape clog_to_vec clog_from_slice Hcrc Hjson Hclog) as (w & Ew & Hinv & Hlive & Hw). rewrite Ho in Ew. injection Ew as <-.
    exists 0, 0. split_and!.
    + destruct Hinv as [[(pre & sd & su & _ & _ & Hsd & Hsu & Hfl & Hwr) Hmeta _] _ _ _].
      assert (F0 : mgr_replay_floor (wal_of (sys s)) = 0) by lia. assert (F1 : flushed_lsn (wal_of (sys s)) = 0) by lia. rewrite F0, F1 in Hmeta. split; rewrite ?Hw, ?F0, ?F1; done.
    + intros o [->|Hin]; [by rewrite Em|]. rewrite Ee in Hin. by apply elem_of_nil in Hin.
    + unfold phase_fits. by rewrite Hid.
Qed.
Lemma srv_steps_ok s s' : rtc srv_step s s' -> srv_ok s -> srv_ok s'.
Proof using. induction 1; eauto using srv_step_ok. Qed.
Lemma srv_reach_ok s : srv_reach s -> srv_ok s.
Proof using Hcrc Hjson Hclog. intros (s0 & H0 & Hr). eapply srv_steps_ok; [done|by apply started_ok]. Qed.

(** What a crash finds of the pages, from the boundary of the manifest that it finds. *)
Definition pages_covered (s : Server) (boundary durable : N) : Prop := forall k o, may_find crc32 zstd_decompress s.(sys).(pool).(world).(disk) k.1 k.2 o ->
  exists n, (n <= length (s.(sys).(versions) k))%nat /\ o = v_image <$> last (take n (s.(sys).(versions) k)) /\
    (forall v, last (take n (s.(sys).(versions) k)) = Some v -> v.(v_pos).(record_lsn) <= durable) /\
    forall j v', (n <= j)%nat -> s.(sys).(versions) k !! j = Some v' -> boundary <= v'.(v_pos).(replay_from).

Lemma floor_pages s l fl dend : sys_ok s.(sys) -> log_at crc32 fl dend (wal_of s.(sys)) -> floor l s.(sys) -> pages_covered s l dend.
Proof using.
  intros Hs Hl Hf k o Hm. destruct (floor_covers _ _ k o Hs Hf Hm) as (n & H1 & H2 & H3 & H4). exists n. split_and!; try done. intros v Hv. specialize (H3 v Hv). pose proof (la_durable _ _ _ _ Hl) as Hd. cbn in H3. unfold wal_of in Hd. lia.
Qed.

(** C5: A crash at any moment leaves a manifest and a log that fit.  Sessions change pages and
    the catalog, pages are stolen, and checkpoints run, fail and are started again, with I/O
    that fails anywhere.  Whenever the machine stops, the control file that is found loads,
    and its boundaries pass the check that recovery makes against the range that the log
    retains.  Every version of a page that the page files miss has its record at or after
    the page boundary, and a version that they hold has a durable record.  The manifest was
    taken by a checkpoint at some earlier moment, and a catalog change that was not settled
    at that moment has its record at or after the catalog boundary. *)
Theorem crash_finds_checkpoint s o : srv_reach s -> found s.(others).(control) o ->
  let d := (wal_of s.(sys)).(wal_dir) in
  exists loaded fl dend,
    load crc32 control_from_slice (reopened s.(others).(control) o) = (reopened s.(others).(control) o, Ok loaded) /\
    load_meta crc32 d = (d, Ok (mkWalMeta fl dend)) /\
    (forall dd d' w, dd.(dd_wal) = Some d' -> d'.(meta_file) = d.(meta_file) ->
       WalFile.open crc32 json_from_slice subxids_from_slice validate_shape clog_from_slice dd = Ok w -> (retained_range w).2 = Ok (fl, dend)) /\
    validate_checkpoint_wal_range (loaded_end loaded) (loaded_page_redo loaded) (loaded_catalog_redo loaded) fl dend = Ok () /\
    pages_covered s (loaded_page_redo loaded) dend /\
    forall c, loaded = Some c -> exists s0 f, rtc srv_step s0 s /\ fenced_section (components_of s0) = Ok f /\ build_control f = Ok c /\
      forall ch, ch ∈ s.(changes) -> ch ∈ s0.(settled) \/ c.(catalog_redo_lsn) <= ch.2.
Proof using Hcrc Hjson Hclog Hserde.
  intros Hok%srv_reach_ok Ho d. pose proof Hok as [S1 _ _ S4 (fl & dend & Hl & Hm & _)]. specialize (Hm o Ho). pose proof (la_meta _ _ _ _ Hl) as Hmeta. pose proof (la_fits _ _ _ _ Hl) as (_ & Hb1 & Hb2).
  assert (Hload : load_meta crc32 d = (d, Ok (mkWalMeta fl dend))) by (by apply meta_read).
  assert (Hopen : forall dd d' w, dd.(dd_wal) = Some d' -> d'.(meta_file) = d.(meta_file) ->
    WalFile.open crc32 json_from_slice subxids_from_slice validate_shape clog_from_slice dd = Ok w -> (retained_range w).2 = Ok (fl, dend)).
  { intros dd d' w Ed Em Eo. by eapply (open_range crc32 json_from_slice subxids_from_slice validate_shape clog_from_slice Hcrc dd d'); [| |exact Hb2|exact Hb1|exact Eo]; [done|rewrite Em]. }
  destruct o as [b|]; cbn [manifest_fits] in Hm.
  - destruct Hm as (f & c & [[B1 [B2 B2'] [B3 _]] (s0 & Hr & Ef & Hch)] & Ec & Eb & Hfl & He). destruct (decode_encode_control crc32 control_to_vec control_from_slice c b Hserde Hcrc Eb) as [Hd Hlen].
    assert (Hc : checkpoint_end_lsn c = fe_end_lsn f /\ page_redo_lsn c = fe_page_redo_lsn f /\ catalog_redo_lsn c = fe_catalog_redo_lsn f /\ page_size c = PAGE_SIZE) by (unfold build_control in Ec; inv_ok Ec; apply Ok_inj in Ec as <-; done).
    destruct Hc as (C1 & C2 & C3 & C4). exists (Some c), fl, dend. split_and!; try done.
    + rewrite load_reopened by done. rewrite Hd. cbn [mbind result_bind]. by rewrite C4, S4.
    + unfold validate_checkpoint_wal_range. cbn [loaded_end loaded_page_redo loaded_catalog_redo from_option]. unfold fe_replay_floor in Hfl. rewrite C1, C2, C3. rewrite !(proj2 (N.ltb_ge _ _)) by lia. done.
    + cbn. rewrite C2. by eapply floor_pages.
    + intros c' [= <-]. exists s0, f. rewrite C3. done.
  - subst fl. exists None, 0, dend. split_and!; try done.
    + unfold validate_checkpoint_wal_range. cbn [loaded_end loaded_page_redo loaded_catalog_redo from_option]. rewrite !(proj2 (N.ltb_ge _ _)) by lia. done.
    + eapply floor_pages; [done|done|]. split; [apply N.le_0_l|]. intros. apply N.le_0_l.
Qed.

(** C32: The boundary that a checkpoint gives to the log is one that the log accepts: when its
    flush has succeeded, the boundary is between the replay floor and the durable end, so the
    branch that refuses it is never taken. *)
Theorem checkpoint_floor_accepted s f c fault m l : srv_reach s -> s.(phase) = Marked f c -> flush crc32 fault (wal_of s.(sys)) = (m, Ok l) ->
  m.(mgr_replay_floor) <= fe_replay_floor f /\ fe_replay_floor f <= m.(flushed_lsn).
Proof using Hcrc Hjson Hclog.
  intros Hok%srv_reach_ok Hp E. pose proof Hok as [S1 _ _ _ (fl & dend & Hl & _ & Hph)]. unfold phase_fits in Hph. rewrite Hp in Hph. destruct Hph as ([[B1 [B2 _] [B3 _]] _] & Hfl & _).
  destruct (flush_outcome _ _ _ _ _ E (la_order _ _ _ _ Hl)) as [(_ & P1 & P2 & F1 & _)|(Hn & _)]; [|done]. pose proof (flush_moves crc32 fault _ (la_order _ _ _ _ Hl)) as (_ & _ & Hmv). rewrite E in Hmv. cbn [fst] in Hmv.
  destruct (Hmv _ _ Hl) as (d' & _ & Hl'). destruct (la_live _ _ _ _ Hl' P2) as [<- _]. split; [done|]. pose proof (live_written _ (sok_io _ S1) P1) as Hw. unfold fe_replay_floor. unfold wal_of in F1. lia.
Qed.

(** *** The record of a checkpoint *)

Lemma sorted_no_descent {A} (ge : A -> A -> bool) (R : A -> A -> Prop) l : (forall x y, R x y -> ge x y = false) -> StronglySorted R l -> any_descent ge l = false.
Proof using.
  intros HR. induction l as [|x [|y l] IH]; [done|done|]. intros [Hs Hf]%StronglySorted_inv. apply Forall_cons in Hf as [Hxy _]. change (ge x y || any_descent ge (y :: l) = false). rewrite (HR _ _ Hxy). by apply IH.
Qed.
Lemma strict_sorted {A B} (le lt : A -> A -> Prop) (key : A -> B) l : (forall x y, le x y -> key x <> key y -> lt x y) -> StronglySorted le l -> NoDup (key <$> l) -> StronglySorted lt l.
Proof using.
  intros H. induction 1 as [|x l Hs IH Hf]; [constructor|]. rewrite fmap_cons. intros [Hx Hn]%NoDup_cons. constructor; [by apply IH|]. apply Forall_forall. intros y Hy. rewrite Forall_forall in Hf.
  apply H; [by apply Hf|]. intros E. apply Hx. rewrite E. apply list_elem_of_fmap. by exists y.
Qed.


(** *** The run is made of these steps *)

Lemma in_log_components {A} (g : SE FileWalManager DbError A) s m r : g (wal_of s.(sys)) = (m, r) -> in_log g (components_of s) = (components_of (with_sys (log_sys m s.(sys)) s), r).
Proof using. intros E. unfold in_log. cbn [components_of with_storage buffer_pool]. unfold wal_of in E. rewrite E. done. Qed.

(** From the fenced section on, a run with nothing between its calls is a sequence of steps. *)
Lemma publish_steps x f s k r : s.(phase) = Taken f -> publish_checkpoint x f (components_of s) = (k, r) ->
  exists s', rtc srv_step s s' /\ components_of s' = k /\ s'.(changes) = s.(changes) /\ (is_ok r = true -> exists c m y, build_control f = Ok c /\ srv_step y s' /\ y.(phase) = Stored f c /\ rtc srv_step s y /\
    recycle x f (wal_of y.(sys)) = (m, Ok ()) /\ s' = at_phase Idle (with_sys (log_sys m y.(sys)) y)).
Proof using.
  intros Hp H. unfold publish_checkpoint in H. unfold mbind at 1, se_bind at 1, lift at 1 in H. destruct (build_control f) as [c|e] eqn:Ec; [|injection H as <- <-; exists s; by split_and!].
  destruct (append_marker x f (wal_of (sys s))) as [m1 r1] eqn:E1. pose proof (srv_mark s f c x m1 r1 Hp Ec E1) as T1. unfold mbind at 1, se_bind at 1 in H. rewrite (in_log_components _ _ _ _ E1) in H.
  destruct r1 as [pos|e]; [|injection H as <- <-; eexists; split_and!; [by apply rtc_once, T1|done|done|done]]. cbn [is_ok] in T1. set (s1 := at_phase _ _) in T1. change (components_of (with_sys (log_sys m1 (sys s)) s)) with (components_of s1) in H.
  destruct (save_statuses x f (wal_of (sys s1))) as [m2 r2] eqn:E2. pose proof (srv_save s1 f c x m2 r2 eq_refl E2) as T2. unfold mbind at 1, se_bind at 1 in H. rewrite (in_log_components _ _ _ _ E2) in H.
  destruct r2 as [[]|e]; [|injection H as <- <-; eexists; split_and!; [by eapply rtc_l, rtc_once, T2|done|done|done]]. cbn [is_ok] in T2. set (s2 := at_phase _ _) in T2. change (components_of (with_sys (log_sys m2 (sys s1)) s1)) with (components_of s2) in H.
  destruct (store_control c (control (others s2))) as [d r3] eqn:E3. pose proof (srv_store s2 f c d r3 eq_refl E3) as T3. unfold mbind at 1, se_bind at 1 in H. unfold in_control in H. change (control (components_of s2)) with (control (others s2)) in H. rewrite E3 in H.
  change (with_control d (components_of s2)) with (components_of (with_others (with_control d (others s2)) s2)) in H.
  destruct r3 as [[]|e]; [|injection H as <- <-; eexists; split_and!; [by eapply rtc_l, rtc_l, rtc_once, T3|done|done|done]]. cbn [is_ok] in T3. set (s3 := at_phase _ _) in T3.
  change (components_of (with_others (with_control d (others s2)) s2)) with (components_of s3) in H.
  destruct (recycle x f (wal_of (sys s3))) as [m4 r4] eqn:E4. pose proof (srv_recycle s3 f c x m4 r4 eq_refl E4) as T4. unfold mbind at 1, se_bind at 1 in H. rewrite (in_log_components _ _ _ _ E4) in H.
  assert (Hr3 : rtc srv_step s s3) by (eapply rtc_l; [exact T1|]; eapply rtc_l; [exact T2|]; by apply rtc_once). exists (at_phase Idle (with_sys (log_sys m4 (sys s3)) s3)).
  destruct r4 as [[]|e]; injection H as <- <-; split_and!; try done; [by eapply rtc_r| |by eapply rtc_r]. intros _. by exists c, m4, s3.
Qed.

(** C10: A checkpoint that succeeds has committed.  When the part of a run behind the fenced
    section succeeds, a crash finds no manifest but the one it built, the log starts at the
    replay floor of this manifest, and it is durable up to its end. *)
Theorem checkpoint_commits s x f k lsn : srv_reach s -> s.(phase) = Taken f -> publish_checkpoint x f (components_of s) = (k, Ok lsn) ->
  exists c, build_control f = Ok c /\
    (forall o, found k.(control) o -> load crc32 control_from_slice (reopened k.(control) o) = (reopened k.(control) o, Ok (Some c))) /\
    k.(buffer_pool).(world).(wal).(mgr_replay_floor) = fe_replay_floor f /\ f.(fe_end_lsn) <= k.(buffer_pool).(world).(wal).(flushed_lsn).
Proof using Hcrc Hjson Hclog Hserde.
  intros Hs Hp E. destruct (publish_steps _ _ _ _ _ Hp E) as (s' & _ & <- & _ & Hok). destruct (Hok eq_refl) as (c & m & y & Ec & _ & Hy & Hr & Em & ->).
  assert (Hyok : srv_ok y) by (by eapply srv_steps_ok, srv_reach_ok). destruct Hyok as [Y1 _ _ Y4 (fl & dend & Hl & _ & Hph)]. unfold phase_fits in Hph. rewrite Hy in Hph. destruct Hph as (Ht & _ & _ & He & b & Eb & Hfound).
  destruct (recycle_floor _ _ _ _ _ Em) as [Hlive Hfloor]. destruct (recycle_moves crc32 (fe_replay_floor f) x.(recycle_fault) _ _ _ Hl) as (_ & _ & _ & F1 & _ & _). unfold recycle in Em. rewrite Em in F1. cbn [fst] in F1.
  destruct (la_live _ _ _ _ Hl Hlive) as [_ Hd]. exists c. split_and!; [done| |done|cbn; lia]. intros o Ho. change (found (control (others y)) o) in Ho. rewrite (Hfound o Ho).
  destruct (decode_encode_control crc32 control_to_vec control_from_slice c b Hserde Hcrc Eb) as [Hdec Hlen]. rewrite load_reopened by done. rewrite Hdec. cbn [mbind result_bind]. change (control (components_of _)) with (control (others y)). rewrite Y4.
  unfold build_control in Ec. inv_ok Ec. apply Ok_inj in Ec as <-. done.
Qed.
End Checkpoint.

(** ** The coordinator *)

Record CoordinatorState : Type := mkCoordinator {
  requested_generation : N;
  completed_generation : N;
  running : bool;
  stop_requested : bool;
  last_error : option DbError;
  busy_retry_ms : N
}.
Definition coordinator_new : CoordinatorState := mkCoordinator 0 0 false false None 0.
Definition set_requested (n : N) (st : CoordinatorState) : CoordinatorState :=
  mkCoordinator n st.(completed_generation) st.(running) st.(stop_requested) st.(last_error) st.(busy_retry_ms).

Definition request (st : CoordinatorState) : CoordinatorState * N :=
  let st := if st.(requested_generation) =? st.(completed_generation) then set_requested (saturating_add U64_MAX st.(requested_generation) 1) st else st in
  (st, st.(requested_generation)).
Definition stop (st : CoordinatorState) : CoordinatorState :=
  mkCoordinator st.(requested_generation) st.(completed_generation) st.(running) true st.(last_error) st.(busy_retry_ms).

(** One look at the state by a thread in [checkpoint_now_and_wait]: [None] is to wait on. *)
Definition wait_check (target now deadline : N) (st : CoordinatorState) : option (DbResult unit) :=
  if target <=? st.(completed_generation) then Some (Ok ())
  else if deadline <=? now then Some (Err (default (db_internal "timed out waiting for checkpoint completion") st.(last_error)))
  else None.

Definition checkpoint_followup_required (commits commit_threshold : N) (wal_pressure : bool) (skipped : N) : bool :=
  (commit_threshold <=? commits) || wal_pressure || (0 <? skipped).
Definition next_busy_retry_ms (current : N) (skipped : bool) : N :=
  if negb skipped then 0 else if current =? 0 then 100 else N.min (N.min U64_MAX (current * 2)) 5000.

(** The worker: what it does next, and what it notes of a run. *)
Inductive WorkerTurn : Type := Exit | Sleep | Run (target : N).
Definition worker_turn (st : CoordinatorState) : CoordinatorState * WorkerTurn :=
  if negb st.(stop_requested) && (st.(requested_generation) =? st.(completed_generation)) then (st, Sleep)
  else if st.(stop_requested) then (st, Exit)
  else (mkCoordinator st.(requested_generation) st.(completed_generation) true st.(stop_requested) st.(last_error) st.(busy_retry_ms), Run st.(requested_generation)).

Definition worker_done (target : N) (result : DbResult unit) (commits commit_threshold : N) (wal_pressure : bool) (skipped : N) (st : CoordinatorState) : CoordinatorState * option N :=
  match result with
  | Ok () =>
      let completed := N.max st.(completed_generation) target in
      let retry := if 0 <? skipped then next_busy_retry_ms st.(busy_retry_ms) true else 0 in
      let requested :=
        if checkpoint_followup_required commits commit_threshold wal_pressure skipped && (st.(requested_generation) =? completed)
        then saturating_add U64_MAX st.(requested_generation) 1 else st.(requested_generation) in
      (mkCoordinator requested completed false st.(stop_requested) None retry, if 0 <? skipped then Some retry else None)
  | Err e => (mkCoordinator st.(requested_generation) st.(completed_generation) false st.(stop_requested) (Some e) st.(busy_retry_ms), None)
  end.

Definition record_commit (every_n wal_bytes : N) (k : CheckpointState) (m : FileWalManager) (st : CoordinatorState) : CheckpointState * CoordinatorState * DbResult unit :=
  let commits := saturating_add U64_MAX k.(commits_since_checkpoint) 1 in
  let k := mkCheckpointState k.(last_checkpoint_end_lsn) k.(wal_trigger_lsn) ((k.(commits_since_checkpoint) + 1) mod 18446744073709551616) k.(checkpoints) k.(last_busy_or_skipped) in
  if every_n <=? commits then (k, (request st).1, Ok ())
  else match (bytes_after k.(wal_trigger_lsn) m).2 with
       | Err e => (k, st, Err e)
       | Ok n => (k, if wal_bytes <=? n then (request st).1 else st, Ok ())
       end.

Inductive coordinator_step (st : CoordinatorState) : CoordinatorState -> Prop :=
  | co_request : coordinator_step st (request st).1
  | co_stop : coordinator_step st (stop st)
  | co_turn : coordinator_step st (worker_turn st).1
  | co_done target result commits threshold pressure skipped : coordinator_step st (worker_done target result commits threshold pressure skipped st).1.

Lemma saturating_add_ge n : n <= U64_MAX -> n <= saturating_add U64_MAX n 1.
Proof. unfold saturating_add. lia. Qed.
Lemma coordinator_monotone st st' : coordinator_step st st' -> st.(requested_generation) <= U64_MAX ->
  st.(requested_generation) <= st'.(requested_generation) /\ st'.(requested_generation) <= U64_MAX /\ st.(completed_generation) <= st'.(completed_generation).
Proof.
  intros Hst H. pose proof (saturating_add_ge _ H) as Hs. assert (Hm : saturating_add U64_MAX (requested_generation st) 1 <= U64_MAX) by (unfold saturating_add; lia). destruct Hst; cbn.
  - unfold request. destruct (_ =? _); cbn; lia.
  - lia.
  - unfold worker_turn. destruct (_ && _); [cbn; lia|]. destruct (stop_requested st); cbn; lia.
  - unfold worker_done. destruct result as [[]|]; cbn; [|lia]. destruct (_ && _); lia.
Qed.


(** The delay of the retries after busy pages doubles up to its bound. *)
Lemma retry_delay n : Nat.iter (S n) (fun d => next_busy_retry_ms d true) 0 = N.min (100 * 2 ^ N.of_nat n) 5000.
Proof.
  induction n as [|n IH]; [done|]. rewrite Nat.iter_succ, IH. unfold next_busy_retry_ms. cbn [negb]. rewrite Nat2N.inj_succ, N.pow_succ_r'. assert (0 < 2 ^ N.of_nat n) by (apply N.neq_0_lt_0, N.pow_nonzero; done).
  destruct (N.eqb_spec (N.min (100 * 2 ^ N.of_nat n) 5000) 0); [lia|]. unfold U64_MAX. lia.
Qed.
