(* ===== verification/CheckpointDemo.v ===== *)
(** * A checkpoint, run

    A server on a new data directory initializes a page and takes a checkpoint.  The theorems
    of the checkpoints are applied to it. *)

From S2P Require Import Prelude Errors Mvcc Clog CheckedBytes ByteArray ClogFile Registry WalCodec WalSegment WalFile LogUse Page Compress BufferPool PoolSteps PageFile ServerIo Control Checkpoint.
Local Open Scope N_scope.

(** A catalog with one table and one sequence. *)
Definition demo_sequence (v : Z) : SequenceSchema := mkSequence 3 1 "s" 1 1 100 1 false false v true.
Definition demo_catalog : CatalogSnapshot unit := mkSnapshot unit {["s" := 3]} {[3 := demo_sequence 1]} 4 ().
Local Instance demo_storage : CheckpointedStorage unit unit := {|
  list_table_ids _ := Ok [1];
  catalog_snapshot _ := Ok demo_catalog;
  sequence_schemas_for_checkpoint _ := Ok [demo_sequence 8];
  reconcile_snapshot_derived_metadata s := Ok s;
  serialize_catalog s := Ok [from_option (fun q => Z.to_N q.(last_value)) 0 (s.(sequences_by_id) !! 3)];
  cleanup_relation_generation_files := mret ();
  request_vacuum c := c
|}.

Local Instance ckd_store : PageStore ServerIo := server_store demo_crc demo_compress demo_decompress.
Local Instance ckd_policy : FlushPolicy ServerIo := wal_flush_policy demo_crc.
Local Instance ckd_laws : IoLaws ServerIo := server_laws demo_crc tag_json_to_vec shape_ok demo_compress demo_decompress demo_crc_fits demo_zstd.

Definition ck_wal : FileWalManager :=
  match open demo_crc tag_json_from_slice tag_subxids_from_slice shape_ok demo_from_slice empty_data_dir with Ok w => w | Err _ => demo_wal end.
Definition ck_sys (w : ServerIo) : System := mkSystem (mkPool 1 true ∅ (mkPoolState ∅ [] 0 ∅ ∅ ∅) w) (fun _ => []) (fun _ => 0) ∅ [].
Definition ck_control : FileControlStore := mkControlStore "d" PAGE_SIZE None None [] [].
Definition ck_others : @Components unit := mkComponents (ck_sys (mkServerIo demo_store ck_wal 0 [])).(pool) ck_control ∅ Registry.registry_new 3 () (CheckpointState_new 0) 64.

Abbreviation DemoServer := (@Server unit unit).
Abbreviation demo_step := (srv_step demo_crc tag_json_to_vec shape_ok demo_to_vec demo_control_to_vec demo_compress demo_decompress demo_crc_fits demo_zstd).
Abbreviation demo_srv_reach := (srv_reach demo_crc tag_json_to_vec tag_json_from_slice tag_subxids_from_slice shape_ok demo_to_vec demo_from_slice demo_control_to_vec demo_compress demo_decompress demo_crc_fits demo_zstd).

Definition ck0 : DemoServer := mkServer (ck_sys (mkServerIo demo_store ck_wal 0 [])) ck_others Idle [] [].
Definition ck1 : DemoServer := with_sys (with_pool (ensure_extent_seeded 4 ck0.(sys).(pool)).1 ck0.(sys)) ck0.
Definition ck2 : DemoServer := with_sys (hold 0 (with_pool (allocate_page 4 ck1.(sys).(pool)).1 ck1.(sys))) ck1.
Definition ck_appended : FileWalManager * DbResult (N * N) := append_positioned demo_crc tag_json_to_vec shape_ok None demo_record ck_wal.
Definition ck_pos : WalPosition := match ck_appended.2 with Ok (a, b) => mkPosition a b | Err _ => mkPosition 0 0 end.
Definition ck_frame : Frame :=
  match publish_mutation 3 ck_pos (set_data demo_d (set_needs_fpi false (frame_of ck2.(sys).(pool) 0))) with Ok f => f | Err _ => frame_of ck2.(sys).(pool) 0 end.
Definition ck3 : DemoServer := with_sys
  (add_version ck_frame.(f_key) (mkVersion ck_pos demo_d (whole_record ck2.(sys) (frame_of ck2.(sys).(pool) 0)))
    (with_pool (with_world (mkServerIo demo_store ck_appended.1 0 []) (update_frame 0 (fun _ => ck_frame) ck2.(sys).(pool))) ck2.(sys))) ck2.
Definition ck_fenced : Fenced unit := match fenced_section (components_of ck3) with Ok f => f | Err _ => mkFenced unit [] [] demo_catalog [] 0 0 0 0 end.
Definition ck4 : DemoServer := at_phase (Taken ck_fenced) ck3.
Definition ck_x : CheckpointFaults := mkCheckpointFaults None NoFault None None.
Definition ck_record : ControlData := match build_control ck_fenced with Ok c => c | Err _ => mkControl 0 0 0 [] [] [] 0 end.
Definition ck_marked : FileWalManager * DbResult (N * N) := append_marker demo_crc tag_json_to_vec shape_ok ck_x ck_fenced (wal_of ck4.(sys)).
Definition ck5 : DemoServer := at_phase (Marked ck_fenced ck_record) (with_sys (log_sys ck_marked.1 ck4.(sys)) ck4).
Definition ck_saved : FileWalManager * DbResult unit := save_statuses demo_crc demo_to_vec ck_x ck_fenced (wal_of ck5.(sys)).
Definition ck6 : DemoServer := at_phase (Saved ck_fenced ck_record) (with_sys (log_sys ck_saved.1 ck5.(sys)) ck5).
Definition ck_stored : FileControlStore * DbResult unit := store_control demo_crc demo_control_to_vec ck_record ck6.(others).(control).
Definition ck7 : DemoServer := at_phase (Stored ck_fenced ck_record) (with_others (with_control ck_stored.1 ck6.(others)) ck6).

Lemma ck0_started : started demo_crc tag_json_to_vec tag_json_from_slice tag_subxids_from_slice shape_ok demo_from_slice demo_compress demo_decompress demo_crc_fits demo_zstd ck0.
Proof.
  assert (Ew : open demo_crc tag_json_from_slice tag_subxids_from_slice shape_ok demo_from_slice empty_data_dir = Ok ck_wal) by (vm_compute; reflexivity).
  split; [|unfold wal_of, ck0, ck_sys; cbn [sys pool world wal]; exact Ew|split_and!; reflexivity|reflexivity|split_and!; reflexivity]. clear Ew.
  split; [split; [apply demo_store_ok|by vm_compute]|]. split; [by eexists _, _, _|]. split; [reflexivity|]. split; [reflexivity|]. split; [reflexivity|].
  intros k. destruct demo_start_booted as (_ & _ & _ & _ & _ & Hd). exact (Hd k).
Qed.
Lemma ck3_reach : demo_srv_reach ck3.
Proof.
  exists ck0. split; [apply ck0_started|]. apply (rtc_l _ _ ck1); [apply srv_pool; [apply (step_seed (sys ck0) 4); [by vm_compute|by vm_compute]|apply rtc_refl]|].
  apply (rtc_l _ _ ck2); [apply srv_pool; [apply (step_new (sys ck1) 4 _ 0 0); [cbn; set_solver|by vm_compute|done]|apply rtc_refl]|].
  apply rtc_once. apply srv_pool; [|apply rtc_once, (use_append demo_crc tag_json_to_vec shape_ok ck_wal None demo_record)].
  apply (step_publish (sys ck2) 0 3 demo_d ck_pos (mkServerIo demo_store ck_appended.1 0 []) ck_frame); [by vm_compute|apply demo_storable| |by vm_compute].
  exists None, demo_record, ck_appended.1. split; [by vm_compute|done].
Qed.
Lemma ck4_reach : demo_srv_reach ck4.
Proof. destruct ck3_reach as (s0 & H0 & Hr). exists s0. split; [done|]. eapply rtc_r; [exact Hr|]. apply srv_fence; [done|]. by vm_compute. Qed.
Lemma ck5_reach : demo_srv_reach ck5.
Proof.
  destruct ck4_reach as (s0 & H0 & Hr). exists s0. split; [done|]. eapply rtc_r; [exact Hr|]. assert (E : is_ok ck_marked.2 = true) by (vm_compute; reflexivity).
  assert (Eb : build_control ck_fenced = Ok ck_record) by (vm_compute; reflexivity).
  pose proof (srv_mark demo_crc tag_json_to_vec shape_ok demo_to_vec demo_control_to_vec demo_compress demo_decompress demo_crc_fits demo_zstd ck4 ck_fenced ck_record ck_x ck_marked.1 ck_marked.2 eq_refl Eb (surjective_pairing _)) as H.
  rewrite E in H. exact H.
Qed.
Lemma ck6_reach : demo_srv_reach ck6.
Proof.
  destruct ck5_reach as (s0 & H0 & Hr). exists s0. split; [done|]. eapply rtc_r; [exact Hr|]. assert (E : is_ok ck_saved.2 = true) by (vm_compute; reflexivity).
  pose proof (srv_save demo_crc tag_json_to_vec shape_ok demo_to_vec demo_control_to_vec demo_compress demo_decompress demo_crc_fits demo_zstd ck5 ck_fenced ck_record ck_x ck_saved.1 ck_saved.2 eq_refl (surjective_pairing _)) as H.
  rewrite E in H. exact H.
Qed.
Lemma ck7_reach : demo_srv_reach ck7.
Proof.
  destruct ck6_reach as (s0 & H0 & Hr). exists s0. split; [done|]. eapply rtc_r; [exact Hr|]. assert (E : is_ok ck_stored.2 = true) by (vm_compute; reflexivity).
  pose proof (srv_store demo_crc tag_json_to_vec shape_ok demo_to_vec demo_control_to_vec demo_compress demo_decompress demo_crc_fits demo_zstd ck6 ck_fenced ck_record ck_stored.1 ck_stored.2 eq_refl (surjective_pairing _)) as H.
  rewrite E in H. exact H.
Qed.

(** The manifest of the checkpoint: the page is dirty since its first record. *)
Lemma crash_finds_checkpoint_witness :
  ck_record.(checkpoint_end_lsn) = ck_pos.(record_lsn) /\ ck_record.(page_redo_lsn) = 0 /\ ck_record.(catalog) = [8] /\
  exists fl dend, load_meta demo_crc (wal_of ck7.(sys)).(wal_dir) = ((wal_of ck7.(sys)).(wal_dir), Ok (mkWalMeta fl dend)) /\
    validate_checkpoint_wal_range ck_record.(checkpoint_end_lsn) ck_record.(page_redo_lsn) ck_record.(catalog_redo_lsn) fl dend = Ok ().
Proof.
  split; [vm_compute; reflexivity|]. split; [vm_compute; reflexivity|]. split; [vm_compute; reflexivity|].
  destruct (crash_finds_checkpoint demo_crc tag_json_to_vec tag_json_from_slice tag_subxids_from_slice shape_ok demo_to_vec demo_from_slice demo_control_to_vec demo_control_from_slice
    demo_compress demo_decompress demo_crc_fits demo_zstd tag_json_roundtrip demo_serde demo_control_serde ck7 ck7.(others).(control).(manifest) ck7_reach (or_introl eq_refl))
    as (loaded & fl & dend & Hload & Hmeta & _ & Hrange & _).
  exists fl, dend. split; [exact Hmeta|].
  assert (E : (load demo_crc demo_control_from_slice (reopened ck7.(others).(control) ck7.(others).(control).(manifest))).2 = Ok (Some ck_record)) by (vm_compute; reflexivity).
  rewrite Hload in E. cbn [snd] in E. apply Ok_inj in E. rewrite E in Hrange. exact Hrange.
Defined.

Lemma checkpoint_floor_accepted_witness : (flush demo_crc NoFault (wal_of ck5.(sys))).1.(mgr_replay_floor) <= fe_replay_floor ck_fenced /\ fe_replay_floor ck_fenced <= (flush demo_crc NoFault (wal_of ck5.(sys))).1.(flushed_lsn).
Proof.
  assert (E : (flush demo_crc NoFault (wal_of ck5.(sys))).2 = Ok (wal_of ck5.(sys)).(WalFile.written_lsn)) by (vm_compute; reflexivity).
  apply (checkpoint_floor_accepted demo_crc tag_json_to_vec tag_json_from_slice tag_subxids_from_slice shape_ok demo_to_vec demo_from_slice demo_control_to_vec demo_compress demo_decompress
    demo_crc_fits demo_zstd tag_json_roundtrip demo_serde ck5 ck_fenced ck_record NoFault (flush demo_crc NoFault (wal_of ck5.(sys))).1 (wal_of ck5.(sys)).(WalFile.written_lsn) ck5_reach eq_refl).
  rewrite <- E. apply surjective_pairing.
Defined.


Definition ck_run : @Components unit * DbResult N := publish_checkpoint demo_crc tag_json_to_vec shape_ok demo_to_vec demo_control_to_vec ck_x ck_fenced (components_of ck4).
Lemma checkpoint_commits_witness : exists c, build_control ck_fenced = Ok c /\
  (forall o, found ck_run.1.(control) o -> load demo_crc demo_control_from_slice (reopened ck_run.1.(control) o) = (reopened ck_run.1.(control) o, Ok (Some c))) /\
  ck_run.1.(buffer_pool).(world).(wal).(mgr_replay_floor) = fe_replay_floor ck_fenced.
Proof.
  assert (E : exists lsn, ck_run.2 = Ok lsn) by (vm_compute; eexists; reflexivity). destruct E as [lsn E].
  destruct (checkpoint_commits demo_crc tag_json_to_vec tag_json_from_slice tag_subxids_from_slice shape_ok demo_to_vec demo_from_slice demo_control_to_vec demo_control_from_slice demo_compress demo_decompress
    demo_crc_fits demo_zstd tag_json_roundtrip demo_serde demo_control_serde ck4 ck_x ck_fenced ck_run.1 lsn ck4_reach eq_refl) as (c & H1 & H2 & H3 & _).
  - rewrite <- E. apply surjective_pairing.
  - exists c. split; [exact H1|]. split; [exact H2|exact H3].
Defined.

